(* ===== verification/_CoqProject ===== *)
-Q . S2P
Prelude.v
Rbac.v
ApiRoutes.v
ApiServe.v
ListQuery.v
StatusHub.v
OidcStore.v
OidcProvider.v
OidcFlow.v
LoginLockout.v
AgentWire.v
AgentGuard.v
MetricRing.v
AgentToken.v
AgentRegistry.v
AgentAlerts.v
AgentIdentity.v
AnsibleTypes.v
AnsibleVars.v
AnsiblePlan.v
AnsibleTask.v
AnsibleBlock.v
AnsiblePlay.v
IamDb.v
IamStore.v
IamValidation.v
IamLogic.v
IamTenancy.v
IamIntegrity.v
IamRoles.v
IamTenants.v
IamUsers.v
IamSystem.v
IamAccess.v
Atomic.v
FleetDb.v
FleetStore.v
FleetHosts.v
FleetEnroll.v
FleetLogic.v
FleetIntegrity.v
FleetDemo.v
FleetTokens.v
FleetReach.v
FleetExact.v
FleetUndo.v
FleetMerge.v
FleetNames.v
DataHub.v
WsSessions.v
LogCommand.v
Streams.v
HostWatch.v
AuditLog.v
Leases.v
AlertRules.v
Probes.v
AgentClient.v
SqlList.v
IamLists.v
IamListsExact.v
IamPermView.v
ApiHandlers.v
ApiIam.v
FleetLists.v
SocialAuth.v
OidcSignup.v
SignupSound.v
