(* ===== verification/Prelude.v ===== *)
(** * Vraxel: a verification library

    Vraxel is a multi-tenant infrastructure control plane: an API server
    with role-based access control and its own OIDC identity provider, a
    PostgreSQL store, and an agent on every managed host that dials back to
    the server over a control channel (small frames) and a data channel
    (multiplexed streams). This library models the parts that carry those
    guarantees and proves them; every definition follows the Go code it
    names, and all paths below are under [src/].

    ** How the program is put together

    A request to the REST API passes [WithAuthentication] (who is it?), the
    route's [authzMiddleware] (may they, at this tenancy level?), the audit
    link, and a typed handler wrapper that builds the [Ctx]. Routes and the
    permission codes they check come from one resource definition each.
    Users obtain tokens from the OIDC endpoints, whose state lives in
    PostgreSQL tables. Watchers receive status events through a hub keyed
    by tenancy. Agents authenticate with an agent token to open a control
    channel, which the gateway's registry tracks; the session tokens handed
    out on it authenticate the agent's REST calls. On the host, streams
    opened by the server are confined by a dial guard, files are moved in
    framed messages, and metrics are kept in fixed-size rings.

    ** Files

    - [Prelude.v] (this file): results, machine integers, the parts of Go's
      [strings] and [strconv] the code uses, list lemmas, hint database.
    - [Rbac.v] ([Rbac]): [pkg/apis/iam/rbac_match.go], [rbac_checker.go].
      [HasPermission] over the per-user index is refined to a rule on the
      role-binding rows; tenant isolation; the cache's freshness when loads
      and invalidations do not overlap, and the race where they do.
    - [ApiRoutes.v] ([Api]): [lib/apiserver/scope.go], [meta.go],
      [resource.go], [server.go], [action.go]. Registration expands one
      definition into routes for every level; every route's codes are
      advertised as permission records and registrations never overlap.
    - [ApiServe.v] ([Serve]): [lib/apiserver/middleware.go], [ctx.go]. The
      checker is the class [PermissionChecker] with [RBACChecker] as its
      instance. A route is served exactly to callers with a matching row,
      at the scope the handler then sees; mutations are audited once, with
      bounded details.
    - [ListQuery.v] ([ListQ]): [lib/list], [lib/rest/options.go],
      [parseListQuery] of [lib/apiserver/wrap.go]. Pagination at int32
      width, where it is exact and where it wraps; LIKE escaping.
    - [StatusHub.v] ([Hub]): [lib/statushub/hub.go]. Steps over a store of
      channels; who sees an event, and delivery in every reachable hub.
    - [OidcStore.v] ([OStore]), [OidcProvider.v] ([Provider]): the OIDC
      stores ([lib/oidc/*_store.go], [throttle.go]) and the provider and
      HTTP endpoints ([lib/oidc/provider.go], [token.go],
      [pkg/apis/iam/oidc_handler*.go], [lib/rest/filters/authentication.go])
      in a state monad over tables, clock, faults and randomness.
    - [OidcFlow.v] ([Flow]): a Hoare logic for that monad and the flow
      theorems: codes are single-use and bound to client, redirect and PKCE
      challenge; refresh tokens rotate; logout revokes; only active users
      named by a verified token pass authentication.
    - [LoginLockout.v] ([Lockout]): at most five wrong passwords are
      evaluated per account name and window.
    - [AgentWire.v] ([Wire]): framing ([lib/agent/types/datachannel.go]) and
      file transfer ([lib/agent/datachan/file.go]): round trips, atomicity
      of uploads under every fault, what [io.EOF] means.
    - [AgentGuard.v] ([Guard]): [lib/agent/datachan/guard.go] and
      [lib/agent/loopback/loopback.go]: only loopback is ever dialled, and a
      pushed port list only narrows the operator's.
    - [MetricRing.v] ([Ring]): [lib/agent/nodemetrics/ring.go]: the ring
      reads back the last value written per slot within its window, counter
      increases are additive over adjacent windows, admission is exact.
    - [AgentToken.v] ([Tok]): [pkg/apis/agentgw/sessiontoken.go],
      [token.go], [authAgent] and [bearerToken]: when a token is accepted,
      through base64 and the header.
    - [AgentRegistry.v] ([Reg]): [pkg/apis/agentgw/registry.go],
      [router.go], the session half of [channel.go] and the [host_agents]
      writes of [store/pg_agent.go], as an executable step function over
      events, so that a list of events is an interleaving: map consistency,
      token epochs and the row staying in step with the live channel.

    - [AgentIdentity.v] ([Ident]): [pkg/apis/agentgw/identity.go],
      [verifyMachine] and the identity statements of the store: which row a
      registering machine claims, in either SMBIOS byte order, and how two
      live processes on one identity are told from a restarting one.
    - [AgentAlerts.v] ([Alerts]): [pkg/apis/agentgw/alerts.go] and
      [store/pg_alert.go]: what one heartbeat does to every rule's state,
      and that an alert fires only after a sustained breach.

    - [AnsibleTypes.v], [AnsibleVars.v], [AnsiblePlan.v] (modules of the same
      names): the Ansible engine's data model and load-time validation
      ([lib/ansible/types.go], [unsupported.go]), its variable store
      ([lib/ansible/variable]) and its planner ([lib/ansible/converter],
      [planner]). Validation is exact; groups resolve to the hosts reachable
      through sub-groups, cycles or not; variables follow the precedence
      order path by path; batches reproduce the host list.
    - [AnsibleTask.v], [AnsibleBlock.v], [AnsiblePlay.v]: its executor
      ([lib/ansible/executor]) over the class [Engine] of what it calls
      (templates, modules, connections, files). Results are well formed,
      module runs are bounded by [retries], block / rescue / always runs in
      order, [no_log] tasks reveal nothing, progress stays within its total,
      playbooks end, and connections are closed with their play.

    - [IamDb.v] ([IamDb]): the IAM tables of [pkg/db/migrations] with their
      unique, check and foreign-key constraints and delete cascades, and the
      statements of [pkg/db/generated] as guarded updates of those tables.
      [IamStore.v] ([IamStore]): [pkg/apis/iam/store] over them, in a monad
      with PostgreSQL sequences, transactions that roll back
      ([pkg/db/txrunner.go]), published notifications and an oracle that
      makes any statement, BEGIN or COMMIT fail.
    - [IamValidation.v]: [pkg/apis/iam/validation.go] with its regular
      expressions; [IamRoles.v], [IamTenants.v], [IamUsers.v]: the REST
      handlers of [pkg/apis/iam/storage_*.go] that read or change one object
      at a time. Requests are handled one after the other.
    - [IamLogic.v], [IamTenancy.v], [IamIntegrity.v]: a logic of state
      evolutions for that monad (a relation every step respects, carried
      through binds, loops, rollbacks and swallowed errors), the tenancy
      invariant, and the proof that every statement respects it.
    - [IamSystem.v] ([IamSystem]): all operations as one interpreter.
      Referential integrity, built-in roles and owner bindings survive any
      history of requests and faults. [IamAccess.v] ([IamAccess]): grants
      are exact, every change of a user's permission rows is announced,
      ownership transfer and the member limit do what they say, and
      concrete requests that reach across tenants.

    - [SqlList.v] ([SqlList]): what list queries share: ILIKE, the ORDER BY
      of CASE expressions, LIMIT and OFFSET, a count followed by a page.
      [IamLists.v] ([IamLists]): the list statements, stores and handlers of
      IAM over the tables of [IamDb]. [IamListsExact.v]: a request lists its
      own tenant and nothing else, everything when it passes no filter, once
      each, page by page, under a total that counts it. [IamPermView.v]: the
      view of a user's permissions shows what the checker grants.
    - [ApiHandlers.v] ([Handlers]): [lib/apiserver/wrap.go], [named.go],
      [action.go], the responses of [lib/rest] and the content negotiation
      of [lib/runtime]: an operation runs only for an authorised request,
      once, in the scope that was checked. [ApiIam.v] ([ApiIam]): the
      resources of [pkg/apis/iam/install.go] as registered, and a tenant's
      list request from the route down to the tables, through
      authorization; two examples show what a foreign namespace in the path
      does.

    - [Atomic.v] ([Atomic]): handlers as trees of atomic actions, run alone
      or in a pool under a schedule, and a protocol logic (a resource per
      thread, an invariant over their sum) for all interleavings.
    - [FleetDb.v], [FleetStore.v], [FleetHosts.v], [FleetEnroll.v] (modules
      of the same names): the tables [hosts], [host_agents] and
      [host_agent_join_tokens] and their statements; the stores
      [pkg/apis/compute/store] and [pkg/apis/agentgw/store] over them; the
      host, merge and join-token handlers of [pkg/apis/compute]; agent
      registration with its compensation
      ([pkg/apis/agentgw/register.go]). Every statement is one atomic
      action and may be lost or go unanswered; a transaction is one action,
      which its advisory lock makes exact for one machine's spelling of its
      UUID.
    - [FleetLogic.v]: the protocol rules for these handlers and a generic
      walk through a registration. [FleetIntegrity.v]: the tables stay
      consistent. [FleetTokens.v]: a join token is redeemed at most as often
      as it allows. [FleetReach.v]: it places agents only on hosts of its
      own tenancy. These hold for every pool of requests and schedule.
    - [FleetExact.v], [FleetUndo.v], [FleetMerge.v], [FleetNames.v]: one
      request at a time: a registration's credential authenticates; one that
      loses a statement is undone; a merge moves the machine and its
      credential; generated host names are valid. [FleetDemo.v] holds the
      concrete fleet of their witnesses. [FleetLists.v] ([FleetLists]): the
      lists of hosts, join tokens and alert rules, exact for the tenancy
      they are asked for.

    - [DataHub.v] ([DataHub]): the broker of data channels,
      [pkg/apis/agentgw/datachannel.go]: accepted sessions, parked openers
      and the stream handshake, under every interleaving and with sessions
      that die at any time. No channel is closed twice, no wake-up is lost,
      no waiter leaks.
    - [WsSessions.v] ([WsSessions]): [lib/websocket/session.go], two maps
      that refine one ordered list of live sessions.
    - [LogCommand.v] ([LogCommand]): [logCommandFromParams] of
      [pkg/apis/compute/logs.go] with [filepath.Clean]: what a browser can
      make an agent run. [Streams.v] ([Streams]): the terminal and log
      handlers of [terminal.go] and [logs.go] over the fleet tables, the
      session registry and the data hub side by side.
    - [HostWatch.v] ([HostWatch]): from a Postgres notification through
      [lib/pgnotify]'s queue, [pkg/apis/compute/host_watch.go] and the
      status hub to each watcher: exactly the changes its scope covers.
    - [AlertRules.v] ([AlertRules]): the threshold rules' handlers, store
      and statements, up to what [AgentAlerts] evaluates: rules act only in
      the tenancy they were created in.
    - [AuditLog.v] ([AuditLog]): [lib/audit]: which events reach the table,
      and which a refused row takes with it; the client address behind
      proxies. [Leases.v] ([Leases]): [lib/serverinstance]: an instance is
      alive exactly while its last renewal is recent.
    - [Probes.v] ([Probes]): [lib/agent/probe]: the host's probes and their
      threshold rules, exact under every interleaving of checks and pushes.
      [AgentClient.v] ([AgentClient]): [lib/agent/client/channel.go]: which
      inventories fit a frame, as bytes of JSON, when they are resent, and
      the pace of reconnects.

    ** Conventions

    Go [int] and [int64] are [Z]; where a conversion or a product can leave
    its width, [int32] or [int64] of this file is applied. Strings are byte
    sequences. A Go error is [Err] of [result]; a panic is [Err] or [None]
    as the file says. Pointers that the code compares are map keys of an
    explicit heap. Database statements are modelled by their effect on the
    rows they name, and every call may fail. Code that is not part of the
    repository (JWT library, bcrypt, SHA-256, HMAC, JSON codecs, IP parsing,
    DNS, float64 arithmetic) is an argument of the definitions that use it;
    theorems that need something of it state it as a hypothesis, and a
    concrete instance satisfies it in the witness.

    Some recursions carry fuel. [AgentWire.uploadLoop] gets one round more than
    the bytes left on the stream, and every message takes at least five
    ([uploadLoop_fuel]: more changes nothing); [AgentWire.readLoop] gets the
    file's length, and every round takes at least one byte
    ([download_roundtrip] proves it ends in the complete answer);
    [MetricRing.lastScan] gets the number of slots, the most points the
    code's own bounds admit. [AnsibleVars.resolveGroupHosts] gets the number
    of groups plus two ([resolveGroupHosts_exact] proves it enough), and
    [AnsibleBlock.ExecBlocks] the nesting depth ([playbook_terminates] gives
    a depth that is enough whenever included files keep includes out of
    blocks, and [include_cycle_in_block_diverges] the case where none is).
    [AgentClient.capLoop] gets the length of the list, and every round drops
    an entry ([capLoop_spec]). All other recursion is structural.

    ** Not modelled

    The metrics proxy of compute and the byte pumps of its streams; the
    audit log's own API; concurrent IAM transactions; the static list of
    registered permissions, and the copying of rows into API types; raw and WebSocket actions beyond their
    authorization; Ansible modules, connectors and YAML decoding; the
    agent's collectors and its socket; the LISTEN connection; HTTP,
    WebSocket and SSH transports; logging, flags and configuration; the web
    UI. They are input and output, glue, or calls into libraries that are
    not part of the repository. Collation and case folding of PostgreSQL are
    arguments of the list statements. Host merges are outside
    [AgentRegistry]'s events ([FleetHosts] has them), and the refresh of the
    client table outside [OidcProvider]. *)

From stdpp Require Export base tactics options.
From stdpp Require Export strings pretty list gmap fin_maps.
From Stdlib Require Export ZArith Lia Ascii.

#[export] Set Default Proof Using "Type".

(** ** Notations and hint databases *)

Declare Scope go_scope.
Delimit Scope go_scope with go.
Open Scope go_scope.
Open Scope Z_scope.

(** [a +++ b] is Go's string concatenation. *)
Notation "a +++ b" := (String.append a b)
  (at level 60, right associativity) : go_scope.

(** Boolean equality of strings, Go's [==] on strings. *)
Notation "a =s b" := (String.eqb a b) (at level 70) : go_scope.

#[global] Arguments String.append : simpl nomatch.

Create HintDb vraxel.

(** Fallible code: a value or an error of type [E]. *)
Inductive result (E A : Type) : Type :=
| Ok (a : A)
| Err (e : E).
Arguments Ok {E A} a.
Arguments Err {E A} e.

Definition rbind {E A B} (r : result E A) (f : A -> result E B) : result E B :=
  match r with
  | Ok a => f a
  | Err e => Err e
  end.

Lemma rbind_Ok {E A B} (r : result E A) (f : A -> result E B) b :
  rbind r f = Ok b -> exists a, r = Ok a /\ f a = Ok b.
Proof. destruct r as [a|e]; cbn; [eauto | done]. Qed.

Notation "x <-! r ;; k" := (rbind r (fun x => k))
  (at level 100, r at next level, right associativity) : go_scope.
Notation "' p <-! r ;; k" := (rbind r (fun x => match x with p => k end))
  (at level 20, p pattern, r at level 99, k at level 200) : go_scope.
(** ** Machine integers

    Go's fixed-width signed integers are represented by [Z]; conversions
    and arithmetic that can leave the range go through [wrap_s]. *)

Definition wrap_s (w : Z) (x : Z) : Z :=
  (x + 2 ^ (w - 1)) mod 2 ^ w - 2 ^ (w - 1).

Definition int32 (x : Z) : Z := wrap_s 32 x.
Definition int64 (x : Z) : Z := wrap_s 64 x.

Definition in_int32 (x : Z) : Prop := - 2 ^ 31 <= x < 2 ^ 31.
Definition in_int64 (x : Z) : Prop := - 2 ^ 63 <= x < 2 ^ 63.

Lemma wrap_s_bounds w x : 0 < w -> - 2 ^ (w - 1) <= wrap_s w x < 2 ^ (w - 1).
Proof.
  intros Hw. unfold wrap_s.
  assert (H2 : 2 ^ w = 2 * 2 ^ (w - 1)).
  { replace w with (Z.succ (w - 1)) at 1 by lia. rewrite Z.pow_succ_r; lia. }
  pose proof (Z.mod_pos_bound (x + 2 ^ (w - 1)) (2 ^ w)) as H.
  assert (0 < 2 ^ w) by (apply Z.pow_pos_nonneg; lia). lia.
Qed.

Lemma wrap_s_id w x : 0 < w -> - 2 ^ (w - 1) <= x < 2 ^ (w - 1) -> wrap_s w x = x.
Proof.
  intros Hw Hx. unfold wrap_s.
  assert (H2 : 2 ^ w = 2 * 2 ^ (w - 1)).
  { replace w with (Z.succ (w - 1)) at 1 by lia. rewrite Z.pow_succ_r; lia. }
  rewrite Z.mod_small; lia.
Qed.

Lemma int32_id x : in_int32 x -> int32 x = x.
Proof. intros H. apply wrap_s_id; [lia | exact H]. Qed.

Lemma int64_id x : in_int64 x -> int64 x = x.
Proof. intros H. apply wrap_s_id; [lia | exact H]. Qed.

Lemma int32_bounds x : in_int32 (int32 x).
Proof. apply (wrap_s_bounds 32 x). lia. Qed.

Lemma int64_bounds x : in_int64 (int64 x).
Proof. apply (wrap_s_bounds 64 x). lia. Qed.

#[export] Hint Resolve int32_bounds int64_bounds : vraxel.

(** ** Strings

    A Go string is a sequence of bytes, here [string] (lists of 8-bit
    characters). The functions below are the parts of Go's [strings] and
    [strconv] packages that the modelled code calls. *)

Fixpoint str_take (n : nat) (s : string) : string :=
  match n, s with
  | S n', String c s' => String c (str_take n' s')
  | _, _ => EmptyString
  end.

Fixpoint str_drop (n : nat) (s : string) : string :=
  match n, s with
  | S n', String _ s' => str_drop n' s'
  | _, _ => s
  end.

(** [strings.HasPrefix(s, p)]. *)
Fixpoint HasPrefix (s p : string) {struct p} : bool :=
  match p, s with
  | EmptyString, _ => true
  | String b p', String a s' => Ascii.eqb a b && HasPrefix s' p'
  | String _ _, EmptyString => false
  end.

(** [strings.HasSuffix(s, suf)]: [len(s) >= len(suf) && s[len(s)-len(suf):] == suf]. *)
Definition HasSuffix (s suf : string) : bool :=
  (String.length suf <=? String.length s)%nat
    && (str_drop (String.length s - String.length suf) s =s suf).

(** [strings.TrimSuffix], [strings.TrimPrefix]. *)
Definition TrimSuffix (s suf : string) : string :=
  if HasSuffix s suf then str_take (String.length s - String.length suf) s else s.

Definition TrimPrefix (s p : string) : string :=
  if HasPrefix s p then str_drop (String.length p) s else s.

(** [strings.Join]. *)
Fixpoint Join (l : list string) (sep : string) : string :=
  match l with
  | [] => EmptyString
  | [a] => a
  | a :: l' => a +++ sep +++ Join l' sep
  end.

(** [strings.Split(s, sep)] for a one-character separator. *)
Fixpoint Split (s : string) (sep : ascii) : list string :=
  match s with
  | EmptyString => [EmptyString]
  | String c s' =>
      if Ascii.eqb c sep then EmptyString :: Split s' sep
      else match Split s' sep with
           | [] => [String c EmptyString]
           | h :: t => String c h :: t
           end
  end.

(** [strings.ReplaceAll(s, old, new)] for a one-character [old]. *)
Fixpoint ReplaceAll (s : string) (old : ascii) (new : string) : string :=
  match s with
  | EmptyString => EmptyString
  | String c s' =>
      if Ascii.eqb c old then new +++ ReplaceAll s' old new
      else String c (ReplaceAll s' old new)
  end.

(** The characters of a string, and membership. *)
Fixpoint str_in (c : ascii) (s : string) : bool :=
  match s with
  | EmptyString => false
  | String a s' => Ascii.eqb a c || str_in c s'
  end.

Lemma app_nil_r_s s : s +++ EmptyString = s.
Proof. induction s as [|c s IH]; cbn; [done | by rewrite IH]. Qed.

Lemma app_assoc_s a b c : (a +++ b) +++ c = a +++ (b +++ c).
Proof. induction a as [|x a IH]; cbn; [done | by rewrite IH]. Qed.

Lemma length_app_s a b : String.length (a +++ b) = (String.length a + String.length b)%nat.
Proof. induction a as [|c a IH]; cbn; [done | by rewrite IH]. Qed.

Lemma app_inv_head_s a b c : a +++ b = a +++ c -> b = c.
Proof. induction a as [|x a IH]; cbn; [done | intros H; injection H; auto]. Qed.

Lemma str_take_app a b : str_take (String.length a) (a +++ b) = a.
Proof. induction a as [|c a IH]; cbn; [by destruct b | by rewrite IH]. Qed.

Lemma str_drop_app a b : str_drop (String.length a) (a +++ b) = b.
Proof. induction a as [|c a IH]; cbn; [by destruct b | done]. Qed.

Lemma str_take_drop n s : str_take n s +++ str_drop n s = s.
Proof.
  revert s. induction n as [|n IH]; intros [|c s]; cbn; try done. by rewrite IH.
Qed.

Lemma length_str_take n s : String.length (str_take n s) = (n `min` String.length s)%nat.
Proof. revert s. induction n as [|n IH]; intros [|c s]; cbn; try done. by rewrite IH. Qed.

Lemma app_inv_tail_s a b c : a +++ c = b +++ c -> a = b.
Proof.
  intros H. pose proof (f_equal String.length H) as HL.
  rewrite !length_app_s in HL.
  rewrite <- (str_take_app a c), <- (str_take_app b c), H.
  f_equal. lia.
Qed.

Lemma HasPrefix_spec s p : HasPrefix s p = true <-> exists r, s = p +++ r.
Proof.
  revert s. induction p as [|b p IH]; intros s; cbn.
  - split; [by exists s | done].
  - destruct s as [|a s].
    + split; [done | by intros [r Hr]].
    + rewrite andb_true_iff, Ascii.eqb_eq, IH.
      split; [intros [-> [r ->]]; by exists r | intros [r Hr]; injection Hr as -> ->; eauto].
Qed.

Lemma HasSuffix_spec s suf : HasSuffix s suf = true <-> exists p, s = p +++ suf.
Proof.
  unfold HasSuffix. rewrite andb_true_iff, Nat.leb_le, String.eqb_eq. split.
  - intros [_ Hd]. exists (str_take (String.length s - String.length suf) s).
    rewrite <- Hd at 2. by rewrite str_take_drop.
  - intros [p ->]. rewrite length_app_s. split; [lia|].
    replace (String.length p + String.length suf - String.length suf)%nat
      with (String.length p) by lia.
    apply str_drop_app.
Qed.

Lemma TrimSuffix_app p suf : TrimSuffix (p +++ suf) suf = p.
Proof.
  unfold TrimSuffix. destruct (HasSuffix (p +++ suf) suf) eqn:E.
  - rewrite length_app_s.
    replace (String.length p + String.length suf - String.length suf)%nat
      with (String.length p) by lia.
    apply str_take_app.
  - assert (HasSuffix (p +++ suf) suf = true) by (apply HasSuffix_spec; eauto). congruence.
Qed.

Lemma TrimPrefix_app p s : TrimPrefix (p +++ s) p = s.
Proof.
  unfold TrimPrefix. destruct (HasPrefix (p +++ s) p) eqn:E.
  - apply str_drop_app.
  - assert (HasPrefix (p +++ s) p = true) by (apply HasPrefix_spec; eauto). congruence.
Qed.

Lemma str_in_app c a b : str_in c (a +++ b) = str_in c a || str_in c b.
Proof. induction a as [|x a IH]; cbn; [done | rewrite IH; by rewrite orb_assoc]. Qed.

(** Splitting at a separator is unique when the left parts are free of it. *)
Lemma sep_split_inj c a b a' b' :
  str_in c a = false -> str_in c a' = false ->
  a +++ String c b = a' +++ String c b' -> a = a' /\ b = b'.
Proof.
  revert a'. induction a as [|x a IH]; intros [|y a'] Ha Ha' H; cbn in *.
  - by injection H.
  - injection H as <- _. by rewrite Ascii.eqb_refl in Ha'.
  - injection H as -> _. by rewrite Ascii.eqb_refl in Ha.
  - apply orb_false_iff in Ha as [_ Ha]. apply orb_false_iff in Ha' as [_ Ha'].
    injection H as -> H. destruct (IH a' Ha Ha' H) as [-> ->]. done.
Qed.

Lemma Split_nonnil s c : Split s c <> [].
Proof. destruct s as [|a s]; [done|]. cbn. destruct (Ascii.eqb a c); [done|]. by destruct (Split s c). Qed.

Lemma Join_Split s c : Join (Split s c) (String c EmptyString) = s.
Proof.
  induction s as [|a s IH]; [done|]. cbn [Split]. destruct (Ascii.eqb_spec a c) as [->|].
  - destruct (Split s c) as [|x l] eqn:E; [by destruct (Split_nonnil s c)|].
    change (Join ("" :: x :: l) (String c EmptyString)) with (String c (Join (x :: l) (String c EmptyString))).
    by rewrite IH.
  - destruct (Split s c) as [|x l] eqn:E; [by destruct (Split_nonnil s c)|].
    destruct l; cbn in *; congruence.
Qed.

Lemma Split_join l sep :
  l <> [] -> Forall (fun s => str_in sep s = false) l ->
  Split (Join l (String sep EmptyString)) sep = l.
Proof.
  intros Hne Hf. induction Hf as [|a l Ha Hf IH]; [done|].
  assert (Hone : forall a, str_in sep a = false -> Split a sep = [a]).
  { clear. intros a. induction a as [|c a IH]; cbn; [done|].
    intros [-> Ha]%orb_false_iff. by rewrite IH. }
  destruct l as [|b l]; [cbn; by apply Hone|].
  change (Join (a :: b :: l) (String sep EmptyString))
    with (a +++ String sep (Join (b :: l) (String sep EmptyString))).
  assert (Happ : forall a r, str_in sep a = false ->
            Split (a +++ String sep r) sep = a :: Split r sep).
  { clear. intros a r. induction a as [|c a IH]; cbn.
    - by rewrite Ascii.eqb_refl.
    - intros [-> Ha]%orb_false_iff. by rewrite IH. }
  rewrite Happ by done. rewrite IH by done. done.
Qed.

(** ** Decimal numbers: [strconv.FormatInt(z, 10)], [%d] and [strconv.ParseInt]. *)

Definition FormatInt (z : Z) : string := pretty z.

Definition is_digit (c : ascii) : bool :=
  let n := N_of_ascii c in ((48 <=? n) && (n <=? 57))%N.

Definition digit_val (c : ascii) : Z := Z.of_N (N_of_ascii c) - 48.

(** The accumulation loop of [strconv.ParseUint] in base 10. *)
Fixpoint parse_digits (acc : Z) (s : string) : option Z :=
  match s with
  | EmptyString => Some acc
  | String c s' => if is_digit c then parse_digits (10 * acc + digit_val c) s' else None
  end.

Definition parse_uint (s : string) : option Z :=
  match s with
  | EmptyString => None
  | _ => parse_digits 0 s
  end.

(** [strconv.ParseInt(s, 10, bits)]: an optional sign, digits, a range check. *)
Definition ParseInt (s : string) (bits : Z) : option Z :=
  let '(neg, body) :=
    match s with
    | String "-" b => (true, b)
    | String "+" b => (false, b)
    | _ => (false, s)
    end in
  match parse_uint body with
  | None => None
  | Some n =>
      let v := if neg : bool then - n else n in
      if (- 2 ^ (bits - 1) <=? v) && (v <? 2 ^ (bits - 1)) then Some v else None
  end.

Lemma digit_char_ok (n : N) : (n < 10)%N ->
  is_digit (pretty_N_char n) = true /\ digit_val (pretty_N_char n) = Z.of_N n.
Proof.
  rewrite <- (N2Nat.id n). generalize (N.to_nat n) as k. intros k Hk.
  do 10 (destruct k as [|k]; [by vm_compute|]). lia.
Qed.

(** Printing a number and scanning its digits gives the number back. *)
Lemma parse_digits_pretty_go (n : N) s :
  parse_digits 0 (pretty_N_go n s) = parse_digits (Z.of_N n) s.
Proof.
  revert s. induction (N.lt_wf_0 n) as [n _ IH]. intros s.
  destruct (decide (n = 0%N)) as [-> | Hn].
  - by rewrite pretty_N_go_0.
  - rewrite pretty_N_go_step by lia.
    rewrite IH by (apply N.div_lt; lia). cbn [parse_digits].
    destruct (digit_char_ok (n `mod` 10)) as [-> ->]; [apply N.mod_lt; lia|].
    f_equal. rewrite N2Z.inj_mod, N2Z.inj_div.
    rewrite (Z.div_mod (Z.of_N n) 10) at 3 by lia. lia.
Qed.

Lemma pretty_N_go_cons (n : N) s : s <> "" -> pretty_N_go n s <> "".
Proof.
  revert s. induction (N.lt_wf_0 n) as [n _ IH]. intros s Hs.
  destruct (decide (n = 0%N)) as [-> | Hn]; [by rewrite pretty_N_go_0|].
  rewrite pretty_N_go_step by lia. apply IH; [apply N.div_lt; lia | done].
Qed.

Lemma parse_uint_pretty (n : N) : parse_uint (pretty n) = Some (Z.of_N n).
Proof.
  unfold pretty, pretty_N. case_decide as Hn; [by subst|].
  assert (Hne : pretty_N_go n "" <> "").
  { rewrite pretty_N_go_step by lia. by apply pretty_N_go_cons. }
  pose proof (parse_digits_pretty_go n "") as H.
  unfold parse_uint. destruct (pretty_N_go n ""); [done | exact H].
Qed.

(** Every character printed for a number is a digit. *)
Fixpoint all_digits (s : string) : bool :=
  match s with
  | EmptyString => true
  | String c s' => is_digit c && all_digits s'
  end.

Lemma all_digits_pretty_go (n : N) s : all_digits s = true -> all_digits (pretty_N_go n s) = true.
Proof.
  revert s. induction (N.lt_wf_0 n) as [n _ IH]. intros s Hs.
  destruct (decide (n = 0%N)) as [-> | Hn]; [by rewrite pretty_N_go_0|].
  rewrite pretty_N_go_step by lia. apply IH; [apply N.div_lt; lia|]. cbn.
  destruct (digit_char_ok (n `mod` 10)) as [-> _]; [apply N.mod_lt; lia | done].
Qed.

Lemma all_digits_pretty (n : N) : all_digits (pretty n) = true.
Proof.
  unfold pretty, pretty_N. case_decide; [done | by apply all_digits_pretty_go].
Qed.

Lemma all_digits_not_in c s : is_digit c = false -> all_digits s = true -> str_in c s = false.
Proof.
  intros Hc. induction s as [|a s IH]; cbn; [done|].
  intros [Ha Hs]%andb_true_iff. rewrite IH by done.
  destruct (Ascii.eqb_spec a c); [congruence | done].
Qed.

(** A printed integer contains no separator character: neither a digit nor
    a minus sign. *)
Lemma FormatInt_not_in c z : is_digit c = false -> c <> "-"%char -> str_in c (FormatInt z) = false.
Proof.
  intros Hc Hm. unfold FormatInt, pretty, pretty_Z.
  destruct z as [|p|p]; cbn [str_in].
  - apply (all_digits_not_in c "0" Hc). done.
  - apply all_digits_not_in; [done | apply all_digits_pretty].
  - change (str_in c (String "-" (pretty (N.pos p))) = false). cbn [str_in].
    apply orb_false_iff. split.
    + apply Ascii.eqb_neq. congruence.
    + apply all_digits_not_in; [done | apply all_digits_pretty].
Qed.

Lemma FormatInt_inj : Inj (=) (=) FormatInt.
Proof. intros x y H. exact (pretty_Z_inj x y H). Qed.

(** [strconv.ParseInt] reads back what [strconv.FormatInt] wrote. *)
Lemma ParseInt_FormatInt z : in_int64 z -> ParseInt (FormatInt z) 64 = Some z.
Proof.
  intros Hz. unfold in_int64 in Hz.
  assert (Hr : forall v, - 2 ^ 63 <= v < 2 ^ 63 ->
            (- 2 ^ (64 - 1) <=? v) && (v <? 2 ^ (64 - 1)) = true).
  { intros v Hv. change (64 - 1) with 63. apply andb_true_iff. split; lia. }
  assert (Hd : forall n : N, exists c s', pretty n = String c s' /\ is_digit c = true).
  { intros n. pose proof (all_digits_pretty n) as Ha. pose proof (parse_uint_pretty n) as Hp.
    destruct (pretty n) as [|c s']; [done|]. cbn in Ha. apply andb_true_iff in Ha as [? _]. eauto. }
  assert (Hnn : forall n : N, Z.of_N n = z -> ParseInt (pretty n) 64 = Some z).
  { intros n Hn. unfold ParseInt. destruct (Hd n) as (c & s' & He & Hc).
    pose proof (parse_uint_pretty n) as Hp. rewrite He in *.
    assert (c <> "-"%char /\ c <> "+"%char) as [H1 H2].
    { split; intros ->; by vm_compute in Hc. }
    destruct c as [[] [] [] [] [] [] [] []]; try (by vm_compute in Hc); rewrite Hp, Hn, Hr; done. }
  destruct z as [|p|p].
  - by vm_compute.
  - apply (Hnn (N.pos p)). done.
  - unfold FormatInt, pretty, pretty_Z.
    change (ParseInt (String "-" (pretty (N.pos p))) 64 = Some (Z.neg p)).
    unfold ParseInt. rewrite parse_uint_pretty. cbn -[Z.pow Z.leb Z.ltb]. by rewrite Hr.
Qed.

(** Conversely, an accepted numeral is in range: the check is complete. *)
Lemma ParseInt_range s bits v :
  ParseInt s bits = Some v -> - 2 ^ (bits - 1) <= v < 2 ^ (bits - 1).
Proof.
  unfold ParseInt. intros H.
  destruct (match s with String "-" b => _ | _ => _ end) as [neg body].
  destruct (parse_uint body) as [n|]; [|done].
  destruct ((- 2 ^ (bits - 1) <=? _) && _) eqn:E; [|done].
  injection H as <-. apply andb_true_iff in E. lia.
Qed.

(** ** Lists *)

Lemma filter_snoc {A} (P : A -> Prop) `{!forall x, Decision (P x)} (l : list A) x :
  filter P (l ++ [x]) = filter P l ++ (if decide (P x) then [x] else []).
Proof. by rewrite filter_app. Qed.

(** A boolean test that holds of some element. *)
Lemma existsb_elem_of {A} (f : A -> bool) (l : list A) :
  existsb f l = true <-> exists x, x ∈ l /\ f x = true.
Proof. rewrite existsb_exists. by setoid_rewrite <- list_elem_of_In. Qed.

Lemma elem_of_concat {A} (x : A) (ls : list (list A)) :
  x ∈ concat ls <-> exists l, l ∈ ls /\ x ∈ l.
Proof. rewrite !list_elem_of_In, in_concat. by setoid_rewrite list_elem_of_In. Qed.

(** ** Paths: [path.Clean] and [filepath.Clean], on path components *)

(** The components kept so far, last first. *)
Definition cleanStep (rooted : bool) (stack : list string) (c : string) : list string :=
  if (c =s "") || (c =s ".") then stack
  else if c =s ".." then
    match stack with
    | top :: rest => if top =s ".." then c :: stack else rest
    | [] => if rooted then [] else [".."]
    end
  else c :: stack.

Definition Clean (path : string) : string :=
  if path =s "" then "."
  else
    let rooted := HasPrefix path "/" in
    let kept := Join (reverse (foldl (cleanStep rooted) [] (Split path "/"))) "/" in
    if rooted then "/" +++ kept else if kept =s "" then "." else kept.

(** [Join] of two elements; an empty one does not count. *)
Definition pathJoin (base path : string) : string :=
  if (base =s "") && (path =s "") then ""
  else if base =s "" then Clean path else if path =s "" then Clean base else Clean (base +++ "/" +++ path).

Lemma elem_of_concat_fmap {A B} (f : A -> list B) (l : list A) y :
  y ∈ concat (f <$> l) <-> exists x, x ∈ l /\ y ∈ f x.
Proof.
  rewrite elem_of_concat. setoid_rewrite list_elem_of_fmap. split.
  - intros (l' & (x & -> & Hx) & Hy). eauto.
  - intros (x & Hx & Hy). eauto.
Qed.

Lemma NoDup_concat_fmap {A B} (f : A -> list B) (l : list A) :
  NoDup l -> (forall a, NoDup (f a)) ->
  (forall a1 a2 b, b ∈ f a1 -> b ∈ f a2 -> a1 = a2) ->
  NoDup (concat (f <$> l)).
Proof.
  intros Hl Hf Hdis. induction Hl as [|a l Ha Hl IH]; cbn; [constructor|].
  apply NoDup_app. split_and!; [done| |done].
  intros b Hb (a' & Ha' & Hb')%elem_of_concat_fmap. by rewrite (Hdis a a' b Hb Hb') in Ha.
Qed.

(** ** Binary numerals as strings

    An injective rendering of any countable value, for the concrete
    encoders that instances and examples need. *)

Fixpoint bits (p : positive) : string :=
  match p with
  | xH => EmptyString
  | xO q => String "0" (bits q)
  | xI q => String "1" (bits q)
  end.

Fixpoint unbits (s : string) : positive :=
  match s with
  | EmptyString => xH
  | String c s => if bool_decide (c = "0"%char) then xO (unbits s) else xI (unbits s)
  end.

Lemma unbits_bits p : unbits (bits p) = p.
Proof. induction p as [p IH|p IH|]; cbn; by rewrite ?IH. Qed.

