(* ===== verification/Rbac.v ===== *)
(** * RBAC: permission patterns, scoped rules and the cached checker

    Models [pkg/apis/iam/rbac_match.go] and [pkg/apis/iam/rbac_checker.go]:
    wildcard matching of permission codes, the per-user rule index built
    from the role-binding rows, the scope-chain check against that index,
    and [RBACChecker]'s cache of indexes with its time to live. Times are
    nanoseconds since an arbitrary origin. *)

From S2P Require Import Prelude.

Module Rbac.

(** ** Definitions *)

Definition ScopePlatform : string := "platform".
Definition ScopeWorkspace : string := "workspace".
Definition ScopeNamespace : string := "namespace".

Definition MatchPermission (pattern code : string) : bool :=
  if pattern =s "*:*" then true
  else if HasSuffix pattern ":*" then
    let prefix := str_take (String.length pattern - 2) pattern in
    HasPrefix code (prefix +++ ":")
  else if HasPrefix pattern "*:" then
    let suffix := str_drop 2 pattern in
    HasSuffix code (":" +++ suffix)
  else pattern =s code.

(** The inner loop of [ExpandPatterns]: the first matching pattern appends
    the code unless it was seen, then breaks. *)
Fixpoint expandCode (patterns : list string) (code : string)
    (st : gset string * list string) : gset string * list string :=
  match patterns with
  | [] => st
  | pattern :: rest =>
      if MatchPermission pattern code then
        let '(seen, res) := st in
        if bool_decide (code ∈ seen) then st
        else ({[code]} ∪ seen, res ++ [code])
      else expandCode rest code st
  end.

Definition ExpandPatterns (patterns allCodes : list string) : list string :=
  (foldl (fun st code => expandCode patterns code st) (∅, []) allCodes).2.

Record UserPermissionEntry := {
  IsPlatformAdmin : bool;
  PlatformRules : list string;
  WorkspaceRules : gmap Z (list string);
  NamespaceRules : gmap Z (list string)
}.

(** Indexing a missing key of a Go map of slices gives the nil slice. *)
Definition rulesAt (m : gmap Z (list string)) (id : Z) : list string :=
  default [] (m !! id).

Fixpoint hasPermissionMatchRules (rules : list string) (code : string) : bool :=
  match rules with
  | [] => false
  | pattern :: rest =>
      if MatchPermission pattern code then true else hasPermissionMatchRules rest code
  end.

Definition HasPermission (e : UserPermissionEntry) (code scope : string) (wsID nsID : Z) : bool :=
  if hasPermissionMatchRules (PlatformRules e) code then true
  else if ((scope =s ScopeWorkspace) || (scope =s ScopeNamespace)) && (0 <? wsID)
          && hasPermissionMatchRules (rulesAt (WorkspaceRules e) wsID) code then true
  else if (scope =s ScopeNamespace) && (0 <? nsID)
          && hasPermissionMatchRules (rulesAt (NamespaceRules e) nsID) code then true
  else false.

Fixpoint hasAnyPermissionMatchRules (rules : list string) (target : string) : bool :=
  match rules with
  | [] => false
  | rule :: rest =>
      if MatchPermission rule target || MatchPermission target rule then true
      else hasAnyPermissionMatchRules rest target
  end.

Definition hasAnyPermissionTarget (e : UserPermissionEntry) (target scope : string)
    (wsID nsID : Z) : bool :=
  if hasAnyPermissionMatchRules (PlatformRules e) target then true
  else if ((scope =s ScopeWorkspace) || (scope =s ScopeNamespace)) && (0 <? wsID)
          && hasAnyPermissionMatchRules (rulesAt (WorkspaceRules e) wsID) target then true
  else if (scope =s ScopeNamespace) && (0 <? nsID)
          && hasAnyPermissionMatchRules (rulesAt (NamespaceRules e) nsID) target then true
  else false.

Fixpoint HasAnyPermission (e : UserPermissionEntry) (targets : list string) (scope : string)
    (wsID nsID : Z) : bool :=
  match targets with
  | [] => false
  | target :: rest =>
      if hasAnyPermissionTarget e target scope wsID nsID then true
      else HasAnyPermission e rest scope wsID nsID
  end.

(** A row of [LoadUserPermissionRules]: one (binding, rule) pair. *)
Record UserPermissionRuleRow := {
  rowScope : string;
  rowWorkspaceID : option Z;
  rowNamespaceID : option Z;
  rowPattern : string
}.

Definition emptyEntry : UserPermissionEntry :=
  {| IsPlatformAdmin := false; PlatformRules := []; WorkspaceRules := ∅; NamespaceRules := ∅ |}.

(** One iteration of the loop of [loadUserEntry]. *)
Definition addRow (entry : UserPermissionEntry) (row : UserPermissionRuleRow)
    : UserPermissionEntry :=
  if rowScope row =s ScopePlatform then
    {| IsPlatformAdmin := if rowPattern row =s "*:*" then true else IsPlatformAdmin entry;
       PlatformRules := PlatformRules entry ++ [rowPattern row];
       WorkspaceRules := WorkspaceRules entry;
       NamespaceRules := NamespaceRules entry |}
  else if rowScope row =s ScopeWorkspace then
    match rowWorkspaceID row with
    | Some ws =>
        {| IsPlatformAdmin := IsPlatformAdmin entry;
           PlatformRules := PlatformRules entry;
           WorkspaceRules :=
             <[ws := rulesAt (WorkspaceRules entry) ws ++ [rowPattern row]]> (WorkspaceRules entry);
           NamespaceRules := NamespaceRules entry |}
    | None => entry
    end
  else if rowScope row =s ScopeNamespace then
    match rowNamespaceID row with
    | Some ns =>
        {| IsPlatformAdmin := IsPlatformAdmin entry;
           PlatformRules := PlatformRules entry;
           WorkspaceRules := WorkspaceRules entry;
           NamespaceRules :=
             <[ns := rulesAt (NamespaceRules entry) ns ++ [rowPattern row]]> (NamespaceRules entry) |}
    | None => entry
    end
  else entry.

Definition buildEntry (rows : list UserPermissionRuleRow) : UserPermissionEntry :=
  foldl addRow emptyEntry rows.

(** ** The checker: loading and caching entries *)

Definition rbacCacheTTL : Z := 5 * 10 ^ 9.

Record cacheEntry := { ceEntry : UserPermissionEntry; expiresAt : Z }.

Section Checker.
Context {E : Type}.

(** [load] is the role-binding store at the moment it is queried. *)
Definition loadUserEntry (load : Z -> result E (list UserPermissionRuleRow)) (userID : Z)
    : result E UserPermissionEntry :=
  rows <-! load userID ;; Ok (buildEntry rows).

(** [loadEntry] reads the clock twice: [tCheck] for the expiry test and
    [tStore] when the freshly loaded entry is stored. *)
Definition loadEntry (load : Z -> result E (list UserPermissionRuleRow)) (tCheck tStore : Z)
    (userID : Z) (cache : gmap Z cacheEntry)
    : result E UserPermissionEntry * gmap Z cacheEntry :=
  let reload :=
    match loadUserEntry load userID with
    | Err e => (Err e, cache)
    | Ok entry =>
        (Ok entry,
         <[userID := {| ceEntry := entry; expiresAt := tStore + rbacCacheTTL |}]> cache)
    end in
  match cache !! userID with
  | Some ce => if tCheck <? expiresAt ce then (Ok (ceEntry ce), cache) else reload
  | None => reload
  end.

Definition InvalidateUser (userID : Z) (cache : gmap Z cacheEntry) : gmap Z cacheEntry :=
  delete userID cache.

Definition CheckPermission load tCheck tStore userID permCode scope wsID nsID cache
    : result E bool * gmap Z cacheEntry :=
  let '(r, cache') := loadEntry load tCheck tStore userID cache in
  (entry <-! r ;; Ok (HasPermission entry permCode scope wsID nsID), cache').

Definition CheckAnyPermission load tCheck tStore userID permCodes scope wsID nsID cache
    : result E bool * gmap Z cacheEntry :=
  let '(r, cache') := loadEntry load tCheck tStore userID cache in
  (entry <-! r ;; Ok (HasAnyPermission entry permCodes scope wsID nsID), cache').

Definition CheckIsPlatformAdmin load tCheck tStore userID cache
    : result E bool * gmap Z cacheEntry :=
  let '(r, cache') := loadEntry load tCheck tStore userID cache in
  (entry <-! r ;; Ok (IsPlatformAdmin entry), cache').

End Checker.

(** ** Pattern matching *)

(** What the doc comment of [MatchPermission] lists, as a predicate. *)
Inductive matches : string -> string -> Prop :=
| m_all code : matches "*:*" code
| m_prefix p rest : p <> "*" -> matches (p +++ ":*") (p +++ ":" +++ rest)
| m_suffix s pre :
    HasSuffix ("*:" +++ s) ":*" = false -> matches ("*:" +++ s) (pre +++ ":" +++ s)
| m_exact c :
    HasSuffix c ":*" = false -> HasPrefix c "*:" = false -> matches c c.

Lemma take_minus_two p : str_take (String.length (p +++ ":*") - 2) (p +++ ":*") = p.
Proof.
  rewrite length_app_s. cbn [String.length].
  replace (String.length p + 2 - 2)%nat with (String.length p) by lia.
  apply str_take_app.
Qed.

Lemma MatchPermission_prefix p code :
  p <> "*" -> MatchPermission (p +++ ":*") code = HasPrefix code (p +++ ":").
Proof.
  intros Hp. unfold MatchPermission.
  destruct (String.eqb_spec (p +++ ":*") "*:*") as [H|_].
  { change "*:*" with ("*" +++ ":*") in H. by apply app_inv_tail_s in H. }
  replace (HasSuffix (p +++ ":*") ":*") with true
    by (symmetry; apply HasSuffix_spec; eauto).
  by rewrite take_minus_two.
Qed.

Lemma MatchPermission_suffix s code :
  HasSuffix ("*:" +++ s) ":*" = false ->
  MatchPermission ("*:" +++ s) code = HasSuffix code (":" +++ s).
Proof.
  intros Hs. unfold MatchPermission.
  destruct (String.eqb_spec ("*:" +++ s) "*:*") as [H|_].
  { by rewrite H in Hs. }
  rewrite Hs. cbn. by destruct s.
Qed.

Lemma MatchPermission_exact c code :
  HasSuffix c ":*" = false -> HasPrefix c "*:" = false ->
  MatchPermission c code = (c =s code).
Proof.
  intros Hs Hp. unfold MatchPermission.
  destruct (String.eqb_spec c "*:*") as [->|_]; [done|]. by rewrite Hs, Hp.
Qed.

Lemma MatchPermission_matches pattern code :
  MatchPermission pattern code = true <-> matches pattern code.
Proof.
  split.
  - intros H. destruct (String.eqb_spec pattern "*:*") as [->|Hne]; [constructor|].
    destruct (HasSuffix pattern ":*") eqn:Hs.
    + apply HasSuffix_spec in Hs as [p ->].
      assert (p <> "*") by (intros ->; done).
      rewrite MatchPermission_prefix in H by done.
      apply HasPrefix_spec in H as [r ->]. rewrite app_assoc_s. by constructor.
    + destruct (HasPrefix pattern "*:") eqn:Hp.
      * apply HasPrefix_spec in Hp as [s ->].
        rewrite MatchPermission_suffix in H by done.
        apply HasSuffix_spec in H as [p ->]. by constructor.
      * rewrite MatchPermission_exact in H by done.
        apply String.eqb_eq in H as ->. by constructor.
  - intros H. destruct H as [code|p rest Hp|s pre Hs|c Hs Hp].
    + done.
    + rewrite MatchPermission_prefix by done. apply HasPrefix_spec.
      exists rest. by rewrite app_assoc_s.
    + rewrite MatchPermission_suffix by done. apply HasSuffix_spec. by exists pre.
    + rewrite MatchPermission_exact by done. apply String.eqb_refl.
Qed.

(** A concrete code: neither kind of wildcard. *)
Definition concrete (c : string) : bool := negb (HasSuffix c ":*") && negb (HasPrefix c "*:").

Lemma MatchPermission_concrete c code : concrete c = true -> MatchPermission c code = (c =s code).
Proof.
  unfold concrete. intros [Hs Hp]%andb_true_iff.
  apply MatchPermission_exact; by apply negb_true_iff.
Qed.

Lemma MatchPermission_refl c : MatchPermission c c = true.
Proof.
  apply MatchPermission_matches.
  destruct (HasSuffix c ":*") eqn:Hs.
  - apply HasSuffix_spec in Hs as [p ->].
    destruct (decide (p = "*")) as [->|Hp]; [constructor|].
    change (p +++ ":*") with (p +++ ":" +++ "*") at 2. by constructor.
  - destruct (HasPrefix c "*:") eqn:Hp; [|by constructor].
    apply HasPrefix_spec in Hp as [s ->].
    change ("*:" +++ s) with ("*" +++ ":" +++ s) at 2. by constructor.
Qed.

(** ** Expansion of patterns *)

Definition matchesAny (patterns : list string) (code : string) : bool :=
  existsb (fun p => MatchPermission p code) patterns.

Lemma expandCode_spec patterns code seen res :
  expandCode patterns code (seen, res)
  = if matchesAny patterns code && negb (bool_decide (code ∈ seen))
    then ({[code]} ∪ seen, res ++ [code]) else (seen, res).
Proof.
  induction patterns as [|p ps IH]; cbn; [done|].
  destruct (MatchPermission p code); cbn; [|exact IH].
  by destruct (bool_decide (code ∈ seen)).
Qed.

(** The state of the outer loop after a prefix of the codes. *)
Lemma ExpandPatterns_loop patterns codes seen res :
  (forall c, c ∈ seen <-> c ∈ res) -> NoDup res ->
  let '(seen', res') := foldl (fun st code => expandCode patterns code st) (seen, res) codes in
  (forall c, c ∈ seen' <-> c ∈ res') /\ NoDup res'
  /\ (forall c, c ∈ res' <-> c ∈ res \/ (c ∈ codes /\ matchesAny patterns c = true)).
Proof.
  revert seen res. induction codes as [|c codes IH]; intros seen res Hs Hn; cbn [foldl].
  - split_and!; [done..|]. intros c. rewrite elem_of_nil. tauto.
  - rewrite expandCode_spec.
    destruct (matchesAny patterns c) eqn:Hm; cbn [andb].
    + case_bool_decide as Hc; cbn [negb].
      * specialize (IH seen res Hs Hn).
        destruct (foldl _ _ _) as [seen' res']. destruct IH as (H1 & H2 & H3).
        split_and!; [done..|]. intros d. rewrite H3, elem_of_cons.
        destruct (decide (d = c)) as [->|Hd]; [|tauto].
        rewrite Hs in Hc. tauto.
      * assert (Hcr : c ∉ res) by (by rewrite <- Hs).
        assert (Hs' : forall d, d ∈ {[c]} ∪ seen <-> d ∈ res ++ [c]).
        { intros d. rewrite elem_of_union, elem_of_singleton, elem_of_app, list_elem_of_singleton.
          rewrite Hs. tauto. }
        assert (Hn' : NoDup (res ++ [c])).
        { apply NoDup_app. split_and!; [done| |apply NoDup_singleton].
          intros d Hd. rewrite list_elem_of_singleton. by intros ->. }
        specialize (IH _ _ Hs' Hn').
        destruct (foldl _ _ _) as [seen' res']. destruct IH as (H1 & H2 & H3).
        split_and!; [done..|]. intros d.
        rewrite H3, elem_of_app, list_elem_of_singleton, elem_of_cons.
        destruct (decide (d = c)) as [->|Hd]; [rewrite Hm|]; tauto.
    + specialize (IH seen res Hs Hn).
      destruct (foldl _ _ _) as [seen' res']. destruct IH as (H1 & H2 & H3).
      split_and!; [done..|]. intros d. rewrite H3, elem_of_cons.
      destruct (decide (d = c)) as [->|Hd]; [|tauto].
      rewrite Hm. split; [tauto | intros [?|[_ ?]]; [tauto | congruence]].
Qed.

Lemma matchesAny_exists patterns c :
  matchesAny patterns c = true <-> exists p, p ∈ patterns /\ matches p c.
Proof.
  unfold matchesAny. rewrite existsb_exists.
  setoid_rewrite MatchPermission_matches. setoid_rewrite <- list_elem_of_In. done.
Qed.

(** ** The rule index *)

(** Is a row a binding of the given tenancy? *)
Definition isPlatformRow (r : UserPermissionRuleRow) : Prop := rowScope r = ScopePlatform.
Definition isWorkspaceRow (ws : Z) (r : UserPermissionRuleRow) : Prop :=
  rowScope r = ScopeWorkspace /\ rowWorkspaceID r = Some ws.
Definition isNamespaceRow (ns : Z) (r : UserPermissionRuleRow) : Prop :=
  rowScope r = ScopeNamespace /\ rowNamespaceID r = Some ns.

#[export] Instance isPlatformRow_dec r : Decision (isPlatformRow r).
Proof. unfold isPlatformRow. apply _. Defined.
#[export] Instance isWorkspaceRow_dec ws r : Decision (isWorkspaceRow ws r).
Proof. unfold isWorkspaceRow. apply _. Defined.
#[export] Instance isNamespaceRow_dec ns r : Decision (isNamespaceRow ns r).
Proof. unfold isNamespaceRow. apply _. Defined.

(** A binding applies to a request made at [scope] in workspace [wsID] and
    namespace [nsID]: the specification of scope-chain inheritance. *)
Definition applies (scope : string) (wsID nsID : Z) (r : UserPermissionRuleRow) : Prop :=
  isPlatformRow r
  \/ (isWorkspaceRow wsID r /\ (scope = ScopeWorkspace \/ scope = ScopeNamespace) /\ 0 < wsID)
  \/ (isNamespaceRow nsID r /\ scope = ScopeNamespace /\ 0 < nsID).

Lemma buildEntry_snoc rows r : buildEntry (rows ++ [r]) = addRow (buildEntry rows) r.
Proof. unfold buildEntry. by rewrite foldl_app. Qed.

Ltac row_cases r :=
  unfold addRow;
  destruct (String.eqb_spec (rowScope r) ScopePlatform) as [?HP|?HP];
  [|destruct (String.eqb_spec (rowScope r) ScopeWorkspace) as [?HW|?HW];
    [|destruct (String.eqb_spec (rowScope r) ScopeNamespace) as [?HN|?HN]]].

(** Closes goals whose hypotheses give one row two different scopes or ids. *)
Ltac row_absurd :=
  intros [? ?]; unfold ScopePlatform, ScopeWorkspace, ScopeNamespace in *; congruence.

Lemma buildEntry_platform rows :
  PlatformRules (buildEntry rows) = rowPattern <$> filter isPlatformRow rows.
Proof.
  induction rows as [|r rows IH] using rev_ind; [done|].
  rewrite buildEntry_snoc, filter_snoc, fmap_app, <- IH.
  row_cases r; (case_decide as Hd; unfold isPlatformRow in Hd; try congruence); cbn;
    rewrite ?app_nil_r; first [done | by case_match].
Qed.

Lemma rulesAt_insert m k v j :
  rulesAt (<[k := v]> m) j = if decide (k = j) then v else rulesAt m j.
Proof. unfold rulesAt. rewrite lookup_insert. by case_decide. Qed.

Lemma buildEntry_workspace rows ws :
  rulesAt (WorkspaceRules (buildEntry rows)) ws = rowPattern <$> filter (isWorkspaceRow ws) rows.
Proof.
  induction rows as [|r rows IH] using rev_ind; [done|].
  rewrite buildEntry_snoc, filter_snoc, fmap_app, <- IH.
  row_cases r.
  - rewrite decide_False by row_absurd. by rewrite app_nil_r.
  - destruct (rowWorkspaceID r) as [k|] eqn:Hk.
    + cbn [WorkspaceRules]. rewrite rulesAt_insert.
      destruct (decide (k = ws)) as [->|Hne].
      * rewrite decide_True by done. done.
      * rewrite decide_False by row_absurd. by rewrite app_nil_r.
    + rewrite decide_False by row_absurd. by rewrite app_nil_r.
  - rewrite decide_False by row_absurd. rewrite app_nil_r. by case_match.
  - rewrite decide_False by row_absurd. by rewrite app_nil_r.
Qed.

Lemma buildEntry_namespace rows ns :
  rulesAt (NamespaceRules (buildEntry rows)) ns = rowPattern <$> filter (isNamespaceRow ns) rows.
Proof.
  induction rows as [|r rows IH] using rev_ind; [done|].
  rewrite buildEntry_snoc, filter_snoc, fmap_app, <- IH.
  row_cases r.
  - rewrite decide_False by row_absurd. by rewrite app_nil_r.
  - rewrite decide_False by row_absurd. rewrite app_nil_r. by case_match.
  - destruct (rowNamespaceID r) as [k|] eqn:Hk.
    + cbn [NamespaceRules]. rewrite rulesAt_insert.
      destruct (decide (k = ns)) as [->|Hne].
      * rewrite decide_True by done. done.
      * rewrite decide_False by row_absurd. by rewrite app_nil_r.
    + rewrite decide_False by row_absurd. by rewrite app_nil_r.
  - rewrite decide_False by row_absurd. by rewrite app_nil_r.
Qed.

Lemma buildEntry_admin rows :
  IsPlatformAdmin (buildEntry rows) = true <->
  exists r, r ∈ rows /\ isPlatformRow r /\ rowPattern r = "*:*".
Proof.
  induction rows as [|r rows IH] using rev_ind.
  - cbn. setoid_rewrite elem_of_nil. naive_solver.
  - rewrite buildEntry_snoc. setoid_rewrite elem_of_app. setoid_rewrite list_elem_of_singleton.
    unfold isPlatformRow in *. row_cases r; cbn.
    + destruct (String.eqb_spec (rowPattern r) "*:*"); naive_solver.
    + case_match; naive_solver.
    + case_match; naive_solver.
    + naive_solver.
Qed.

Lemma hasPermissionMatchRules_spec rules code :
  hasPermissionMatchRules rules code = true <->
  exists p, p ∈ rules /\ MatchPermission p code = true.
Proof.
  rewrite <- (existsb_elem_of (fun p => MatchPermission p code)).
  induction rules as [|p ps IH]; cbn; [done|]. by destruct (MatchPermission p code).
Qed.

Lemma hasAnyPermissionMatchRules_spec rules target :
  hasAnyPermissionMatchRules rules target = true <->
  exists p, p ∈ rules /\ MatchPermission p target || MatchPermission target p = true.
Proof.
  rewrite <- (existsb_elem_of (fun p => MatchPermission p target || MatchPermission target p)).
  induction rules as [|p ps IH]; cbn; [done|].
  by destruct (MatchPermission p target || MatchPermission target p).
Qed.

(** The scope chain, once for both checks: a decision made rule list by
    rule list is a decision made binding by binding. *)
Section Chain.
Variable ok : list string -> bool.
Variable good : string -> Prop.
Hypothesis ok_spec : forall rules, ok rules = true <-> exists p, p ∈ rules /\ good p.

Definition chain (e : UserPermissionEntry) (scope : string) (wsID nsID : Z) : bool :=
  if ok (PlatformRules e) then true
  else if ((scope =s ScopeWorkspace) || (scope =s ScopeNamespace)) && (0 <? wsID)
          && ok (rulesAt (WorkspaceRules e) wsID) then true
  else if (scope =s ScopeNamespace) && (0 <? nsID)
          && ok (rulesAt (NamespaceRules e) nsID) then true
  else false.

Lemma ok_filter (P : UserPermissionRuleRow -> Prop) `{!forall r, Decision (P r)} rows :
  ok (rowPattern <$> filter P rows) = true <->
  exists r, r ∈ rows /\ P r /\ good (rowPattern r).
Proof using ok_spec.
  rewrite ok_spec. setoid_rewrite list_elem_of_fmap. setoid_rewrite list_elem_of_filter.
  split; [intros (p & (r & -> & ? & ?) & ?) | intros (r & ? & ? & ?)]; eauto 10.
Qed.

Lemma chain_buildEntry rows scope wsID nsID :
  chain (buildEntry rows) scope wsID nsID = true <->
  exists r, r ∈ rows /\ applies scope wsID nsID r /\ good (rowPattern r).
Proof using ok_spec.
  unfold chain, applies.
  rewrite buildEntry_platform, buildEntry_workspace, buildEntry_namespace.
  transitivity
    (ok (rowPattern <$> filter isPlatformRow rows) = true
     \/ ((scope = ScopeWorkspace \/ scope = ScopeNamespace) /\ 0 < wsID
         /\ ok (rowPattern <$> filter (isWorkspaceRow wsID) rows) = true)
     \/ (scope = ScopeNamespace /\ 0 < nsID
         /\ ok (rowPattern <$> filter (isNamespaceRow nsID) rows) = true)).
  - rewrite <- !String.eqb_eq, <- !Z.ltb_lt.
    destruct (ok (rowPattern <$> filter isPlatformRow rows)),
      (ok (rowPattern <$> filter (isWorkspaceRow wsID) rows)),
      (ok (rowPattern <$> filter (isNamespaceRow nsID) rows)),
      (scope =s ScopeWorkspace), (scope =s ScopeNamespace), (0 <? wsID), (0 <? nsID);
      cbn; intuition discriminate.
  - rewrite !ok_filter. split.
    + intros [(r & ?) | [(? & ? & r & ?) | (? & ? & r & ?)]]; exists r; tauto.
    + intros (r & ? & [?|[?|?]] & ?); [left|right; left|right; right];
        [exists r; tauto | split_and!; try tauto; exists r; tauto
        | split_and!; try tauto; exists r; tauto].
Qed.

End Chain.

Lemma HasPermission_rows rows code scope wsID nsID :
  HasPermission (buildEntry rows) code scope wsID nsID = true <->
  exists r, r ∈ rows /\ applies scope wsID nsID r /\ matches (rowPattern r) code.
Proof.
  setoid_rewrite <- MatchPermission_matches.
  apply (chain_buildEntry (fun rules => hasPermissionMatchRules rules code)
           (fun p => MatchPermission p code = true)).
  intros rules. apply hasPermissionMatchRules_spec.
Qed.

(** C8: A permission check against the index built from a user's rows
    grants a code exactly when some row of that user applies to the
    request's scope (platform rows everywhere, workspace rows in their
    workspace and its namespaces, namespace rows in their namespace) and
    its pattern matches the code. *)
Theorem HasPermission_iff_row rows code scope wsID nsID :
  HasPermission (buildEntry rows) code scope wsID nsID = true <->
  exists r, r ∈ rows /\ applies scope wsID nsID r /\ matches (rowPattern r) code.
Proof. apply HasPermission_rows. Qed.

Lemma hasAnyPermissionTarget_iff_row rows target scope wsID nsID :
  hasAnyPermissionTarget (buildEntry rows) target scope wsID nsID = true <->
  exists r, r ∈ rows /\ applies scope wsID nsID r
    /\ (matches (rowPattern r) target \/ matches target (rowPattern r)).
Proof.
  setoid_rewrite <- MatchPermission_matches. setoid_rewrite <- orb_true_iff.
  apply (chain_buildEntry (fun rules => hasAnyPermissionMatchRules rules target)
           (fun p => MatchPermission p target || MatchPermission target p = true)).
  intros rules. apply hasAnyPermissionMatchRules_spec.
Qed.

Lemma HasAnyPermission_existsb e targets scope wsID nsID :
  HasAnyPermission e targets scope wsID nsID
  = existsb (fun t => hasAnyPermissionTarget e t scope wsID nsID) targets.
Proof.
  induction targets as [|t ts IH]; cbn; [done|].
  by destruct (hasAnyPermissionTarget e t scope wsID nsID).
Qed.

(** The check with wildcard targets, binding by binding. *)
Lemma HasAnyPermission_iff_row rows targets scope wsID nsID :
  HasAnyPermission (buildEntry rows) targets scope wsID nsID = true <->
  exists t r, t ∈ targets /\ r ∈ rows /\ applies scope wsID nsID r
    /\ (matches (rowPattern r) t \/ matches t (rowPattern r)).
Proof.
  rewrite HasAnyPermission_existsb, existsb_elem_of.
  setoid_rewrite hasAnyPermissionTarget_iff_row.
  split; [intros (t & ? & r & ?); exists t, r; tauto | intros (t & r & ?); exists t; split; [tauto|]].
  exists r. tauto.
Qed.

Lemma matches_concrete c r : concrete c = true -> matches c r -> r = c.
Proof.
  intros Hc Hm. apply MatchPermission_matches in Hm.
  rewrite MatchPermission_concrete in Hm by done. symmetry. by apply String.eqb_eq.
Qed.

(** For a target without wildcards the bidirectional check used by the
    authorization middleware is exactly the one-directional check: the
    reverse match never grants a concrete code that no rule grants. *)
Lemma HasAnyPermission_concrete rows code scope wsID nsID :
  concrete code = true ->
  HasAnyPermission (buildEntry rows) [code] scope wsID nsID
  = HasPermission (buildEntry rows) code scope wsID nsID.
Proof.
  intros Hc. apply eq_true_iff_eq.
  rewrite HasAnyPermission_iff_row, HasPermission_rows. split.
  - intros (t & r & Ht & Hr & Ha & Hm). apply list_elem_of_singleton in Ht as ->.
    exists r. split_and!; [done..|]. destruct Hm as [Hm|Hm]; [done|].
    apply matches_concrete in Hm as ->; [|done].
    apply MatchPermission_matches, MatchPermission_refl.
  - intros (r & ? & ? & ?). exists code, r. rewrite list_elem_of_singleton. tauto.
Qed.

(** The platform-admin flag is set exactly when the user holds a
    platform-scoped [*:*] row, and then every code is granted in every
    scope, whatever workspace or namespace is named. *)
Lemma IsPlatformAdmin_grants_all rows :
  IsPlatformAdmin (buildEntry rows) = true <->
  (exists r, r ∈ rows /\ isPlatformRow r /\ rowPattern r = "*:*")
  /\ (forall code scope wsID nsID,
        HasPermission (buildEntry rows) code scope wsID nsID = true).
Proof.
  rewrite buildEntry_admin. split; [|tauto].
  intros (r & Hr & Hp & He). split; [eauto|].
  intros code scope wsID nsID. apply HasPermission_rows.
  exists r. split_and!; [done | by left | rewrite He; constructor].
Qed.

(** Tenant isolation. A user none of whose rows is platform-scoped is
    denied every code in workspace [wsID]/namespace [nsID] unless one of the
    rows is bound to that very workspace or namespace. *)
Lemma HasPermission_isolated rows code scope wsID nsID :
  (forall r, r ∈ rows ->
     ~ isPlatformRow r /\ ~ isWorkspaceRow wsID r /\ ~ isNamespaceRow nsID r) ->
  HasPermission (buildEntry rows) code scope wsID nsID = false.
Proof.
  intros Hno. apply not_true_iff_false. rewrite HasPermission_rows.
  intros (r & Hr & Ha & _). destruct (Hno r Hr) as (? & ? & ?).
  unfold applies in Ha. tauto.
Qed.

(** [ExpandPatterns] returns, without duplicates, exactly the known
    codes that some pattern matches. *)
Lemma ExpandPatterns_spec patterns allCodes :
  NoDup (ExpandPatterns patterns allCodes)
  /\ forall c, c ∈ ExpandPatterns patterns allCodes <->
       c ∈ allCodes /\ exists p, p ∈ patterns /\ matches p c.
Proof.
  pose proof (ExpandPatterns_loop patterns allCodes ∅ []) as H.
  unfold ExpandPatterns. destruct (foldl _ _ _) as [seen res].
  destruct H as (_ & Hn & Hc); [set_solver | constructor |].
  split; [done|]. intros c. cbn. rewrite Hc, elem_of_nil, matchesAny_exists. tauto.
Qed.

(** ** Staleness of the cache

    [db t u] is what [LoadUserPermissionRules] answers for user [u] when it
    runs at time [t]. A check reads the clock at [t1], queries the store at
    [tr] if it must, and reads the clock again at [t2] to stamp the entry;
    [D] bounds the time from the query to that second reading. *)
Section Staleness.
Context {E : Type} (db : Z -> Z -> result E (list UserPermissionRuleRow)) (D : Z).

(** Caches reachable by checks and invalidations that do not overlap, with
    the time of the last operation and of each user's last invalidation. *)
Inductive reach : Z -> gmap Z Z -> gmap Z cacheEntry -> Prop :=
| reach_init t : reach t ∅ ∅
| reach_check t inv c u t1 tr t2 :
    reach t inv c -> t <= t1 -> t1 <= tr -> tr <= t2 -> t2 - tr <= D ->
    reach t2 inv (loadEntry (db tr) t1 t2 u c).2
| reach_invalidate t inv c u t' :
    reach t inv c -> t <= t' -> reach t' (<[u := t']> inv) (InvalidateUser u c).

(** An entry was read from the store at some time [r] after the user's last
    invalidation, at most [D] before it was stamped. *)
Definition entry_ok (t : Z) (inv : gmap Z Z) (u : Z) (ce : cacheEntry) : Prop :=
  exists r, loadUserEntry (db r) u = Ok (ceEntry ce)
    /\ r <= t /\ expiresAt ce - rbacCacheTTL - r <= D
    /\ (forall t0, inv !! u = Some t0 -> t0 <= r).

Definition cache_ok (t : Z) (inv : gmap Z Z) (c : gmap Z cacheEntry) : Prop :=
  (forall u t0, inv !! u = Some t0 -> t0 <= t)
  /\ forall u ce, c !! u = Some ce -> entry_ok t inv u ce.

Lemma entry_ok_later t t' inv u ce : t <= t' -> entry_ok t inv u ce -> entry_ok t' inv u ce.
Proof. intros Ht (r & ? & ? & ? & ?). exists r. split_and!; [done|lia|done|done]. Qed.

Lemma loadEntry_result load t1 t2 u c e c' :
  loadEntry (E := E) load t1 t2 u c = (Ok e, c') ->
  (exists ce, c !! u = Some ce /\ t1 < expiresAt ce /\ e = ceEntry ce /\ c' = c)
  \/ (loadUserEntry load u = Ok e
      /\ c' = <[u := {| ceEntry := e; expiresAt := t2 + rbacCacheTTL |}]> c).
Proof.
  unfold loadEntry. intros H.
  destruct (c !! u) as [ce|]; [destruct (Z.ltb_spec t1 (expiresAt ce)) |];
    try (destruct (loadUserEntry load u); [|done]);
    injection H as <- <-; eauto 10.
Qed.

Lemma loadEntry_error load t1 t2 u c e c' :
  loadEntry (E := E) load t1 t2 u c = (Err e, c') -> c' = c.
Proof.
  unfold loadEntry. intros H.
  destruct (c !! u) as [ce|]; [destruct (t1 <? expiresAt ce)|];
    try (destruct (loadUserEntry load u)); by inversion H.
Qed.

Lemma cache_ok_check t inv c u t1 tr t2 :
  cache_ok t inv c -> t <= t1 -> t1 <= tr -> tr <= t2 -> t2 - tr <= D ->
  cache_ok t2 inv (loadEntry (db tr) t1 t2 u c).2.
Proof.
  intros [Hinv Hc] H1 H2 H3 HD. split.
  { intros v t0 Ht0. specialize (Hinv v t0 Ht0). lia. }
  intros v ce Hv. destruct (loadEntry (db tr) t1 t2 u c) as [[e|e] c'] eqn:Hl; cbn in Hv.
  - apply loadEntry_result in Hl as [(? & _ & _ & _ & ->) | [Hld ->]].
    { apply (entry_ok_later t); [lia|]. by apply Hc. }
    rewrite lookup_insert in Hv. case_decide as Huv.
    + injection Hv as <-. subst v. exists tr. cbn.
      split_and!; [done|lia|lia|]. intros t0 Ht0. specialize (Hinv u t0 Ht0). lia.
    + apply (entry_ok_later t); [lia|]. by apply Hc.
  - apply loadEntry_error in Hl as ->. apply (entry_ok_later t); [lia|]. by apply Hc.
Qed.

Lemma cache_ok_invalidate t inv c u t' :
  cache_ok t inv c -> t <= t' -> cache_ok t' (<[u := t']> inv) (InvalidateUser u c).
Proof.
  intros [Hinv Hc] Ht. unfold InvalidateUser. split.
  - intros v t0. rewrite lookup_insert. case_decide; [intros [= <-]; lia|].
    intros Hv. specialize (Hinv v t0 Hv). lia.
  - intros v ce. rewrite lookup_delete. case_decide as Huv; [done|]. intros Hv.
    destruct (Hc v ce Hv) as (r & ? & ? & ? & Hr). exists r. split_and!; [done|lia|done|].
    intros t0. rewrite lookup_insert_ne by done. apply Hr.
Qed.

Lemma reach_cache_ok t inv c : reach t inv c -> cache_ok t inv c.
Proof.
  induction 1; [by split | by eapply cache_ok_check | by eapply cache_ok_invalidate].
Qed.

(** When checks and invalidations do not overlap, every check answers
    from rows the store returned for that very user less than the five
    second TTL plus one load time ago, and never from before the user's
    last invalidation. *)
Lemma loadEntry_fresh t inv c u t1 tr t2 e :
  reach t inv c -> t <= t1 -> t1 <= tr -> tr <= t2 -> 0 <= D ->
  (loadEntry (db tr) t1 t2 u c).1 = Ok e ->
  exists r, loadUserEntry (db r) u = Ok e
    /\ t1 - r < rbacCacheTTL + D
    /\ (forall t0, inv !! u = Some t0 -> t0 <= r).
Proof.
  intros Hr H1 H2 H3 HD He. apply reach_cache_ok in Hr as [Hinv Hc].
  destruct (loadEntry (db tr) t1 t2 u c) as [r c'] eqn:Hl. cbn in He. subst r.
  apply loadEntry_result in Hl as [(ce & Hce & Hlt & -> & _) | [Hld _]].
  - destruct (Hc u ce Hce) as (r & ? & ? & ? & ?). exists r. split_and!; [done|lia|done].
  - exists tr. unfold rbacCacheTTL. split_and!; [done|lia|].
    intros t0 Ht0. specialize (Hinv u t0 Ht0). lia.
Qed.

End Staleness.

(** A user who is platform admin until time 10 and has no binding after. *)
Definition demoDB (t u : Z) : result unit (list UserPermissionRuleRow) :=
  Ok (if t <? 10 then
        [{| rowScope := "platform"; rowWorkspaceID := None; rowNamespaceID := None;
            rowPattern := "*:*" |}] else []).

(** ** Overlapping loads

    [loadEntry]'s query and its cache write are two moments: another
    goroutine may invalidate the user in between. [inflight] holds, per
    user, the entry a running singleflight call has built but not stored. *)
Record racing := { rcCache : gmap Z cacheEntry; rcInflight : gmap Z UserPermissionEntry }.

Section Race.
Context {E : Type} (db : Z -> Z -> result E (list UserPermissionRuleRow)).

Inductive rstep : racing -> racing -> Prop :=
| rs_query s u t e :
    (forall ce, rcCache s !! u = Some ce -> expiresAt ce <= t) ->
    rcInflight s !! u = None -> loadUserEntry (db t) u = Ok e ->
    rstep s {| rcCache := rcCache s; rcInflight := <[u := e]> (rcInflight s) |}
| rs_store s u t e :
    rcInflight s !! u = Some e ->
    rstep s {| rcCache := <[u := {| ceEntry := e; expiresAt := t + rbacCacheTTL |}]> (rcCache s);
               rcInflight := delete u (rcInflight s) |}
| rs_invalidate s u :
    rstep s {| rcCache := InvalidateUser u (rcCache s); rcInflight := rcInflight s |}.

End Race.

(** With an overlapping load the invalidation is lost: there is a run in
    which the user's last binding is removed at time 10, the user is
    invalidated after that, and a later check still finds a live cache
    entry that grants every permission. *)
Lemma InvalidateUser_lost_race :
  exists s ce, rtc (rstep demoDB) {| rcCache := ∅; rcInflight := ∅ |} s
    /\ rcCache s !! 1 = Some ce /\ 12 < expiresAt ce
    /\ loadUserEntry (demoDB 12) 1 = Ok (buildEntry [])
    /\ (loadEntry (demoDB 12) 12 12 1 (rcCache s)).1 = Ok (ceEntry ce)
    /\ HasPermission (ceEntry ce) "iam:users:delete" ScopePlatform 0 0 = true
    /\ HasPermission (buildEntry []) "iam:users:delete" ScopePlatform 0 0 = false.
Proof.
  set (e := buildEntry [{| rowScope := "platform"; rowWorkspaceID := None;
                           rowNamespaceID := None; rowPattern := "*:*" |}]).
  eexists. exists {| ceEntry := e; expiresAt := 11 + rbacCacheTTL |}. split.
  - eapply rtc_l; [apply (rs_query _ _ 1 9 e); [done|done|reflexivity]|].
    eapply rtc_l; [apply (rs_invalidate _ _ 1)|].
    eapply rtc_l; [apply (rs_store _ _ 1 11 e); reflexivity|]. apply rtc_refl.
  - by vm_compute.
Qed.

End Rbac.
