(* ===== verification/ApiRoutes.v ===== *)
(** * The API server: scopes, registration, routes and permission records

    Models [lib/apiserver/scope.go], [meta.go], [resource.go] and the
    registration half of [server.go]: how one resource definition becomes
    one route set per tenancy level, with the permission codes each route
    checks and the permission rows the server advertises. A panic at
    registration is [Err]. Operation fields of [Ops] are functions in the
    code and only tested for nil here, so they are booleans. *)

From S2P Require Import Prelude.

Module Api.

(** ** Scopes (scope.go) *)

(** [Scope] is a bitmask held in a [uint8]. *)
Definition ScopePlatform : Z := 1.
Definition ScopeWorkspace : Z := 2.
Definition ScopeNamespace : Z := 4.
Definition ScopeAll : Z := 7.

Definition hasBit (s lv : Z) : bool := negb (Z.land s lv =? 0).

Definition levels (s : Z) : list Z :=
  filter (fun lv => Is_true (hasBit s lv)) [ScopePlatform; ScopeWorkspace; ScopeNamespace].

Definition name (s : Z) : string :=
  if s =? ScopeNamespace then "namespace"
  else if s =? ScopeWorkspace then "workspace"
  else "platform".

Definition deepest (s : Z) : Z :=
  if hasBit s ScopeNamespace then ScopeNamespace
  else if hasBit s ScopeWorkspace then ScopeWorkspace
  else ScopePlatform.

Definition pathPrefix (s : Z) : string :=
  if s =? ScopeWorkspace then "/workspaces/{workspaceId}"
  else if s =? ScopeNamespace then "/workspaces/{workspaceId}/namespaces/{namespaceId}"
  else "".

Definition scopeChainParts (s : Z) : list string :=
  if s =? ScopeWorkspace then ["workspaces"]
  else if s =? ScopeNamespace then ["workspaces"; "namespaces"]
  else [].

Record ScopeInfo := { Level : Z; WorkspaceID : Z; NamespaceID : Z }.

Definition Parts (s : ScopeInfo) : string * option Z * option Z :=
  if Level s =? ScopeNamespace then (name (Level s), Some (WorkspaceID s), Some (NamespaceID s))
  else if Level s =? ScopeWorkspace then (name (Level s), Some (WorkspaceID s), None)
  else (name (Level s), None, None).

Record ScopeFilter := { fWorkspaceID : option Z; fNamespaceID : option Z }.

Definition Filter (s : ScopeInfo) : ScopeFilter :=
  {| fWorkspaceID := if 0 <? WorkspaceID s then Some (WorkspaceID s) else None;
     fNamespaceID := if 0 <? NamespaceID s then Some (NamespaceID s) else None |}.

(** The filter keys [ApplyTo] sets on a list query. *)
Definition ApplyTo (s : ScopeInfo) (filters : gmap string string) : gmap string string :=
  let filters1 :=
    if 0 <? WorkspaceID s then <["workspace_id" := FormatInt (WorkspaceID s)]> filters
    else filters in
  if 0 <? NamespaceID s then <["namespace_id" := FormatInt (NamespaceID s)]> filters1
  else filters1.

Definition singularID (plural : string) : string :=
  let singular :=
    if HasSuffix plural "ses" || HasSuffix plural "xes" || HasSuffix plural "zes"
    then TrimSuffix plural "es"
    else TrimSuffix plural "s" in
  let singular := if singular =s "" then plural else singular in
  singular +++ "Id".

Definition sanitizeWildcard (param : string) : string := ReplaceAll param "-" "_".

Definition singularLabel (plural : string) : string :=
  if HasSuffix plural "ses" || HasSuffix plural "xes" || HasSuffix plural "zes"
  then TrimSuffix plural "es"
  else let s := TrimSuffix plural "s" in if s =s "" then plural else s.

(** ** Requests

    What the route wrappers read of an [*http.Request]: the method, the
    URL path, the values the matched pattern bound, the query's dryRun value,
    the caller the authentication middleware put in the context, the Upgrade
    header and the body ([None] for a nil body). *)
Record Request := {
  rMethod : string;
  rPath : string;
  rDryRun : string;
  rBody : option string;
  rPathValues : gmap string string;
  rUserID : option Z;
  rUsername : string;
  rUpgrade : string
}.

(** [r.PathValue] answers the empty string for an unbound name. *)
Definition pathValue (r : Request) (param : string) : string :=
  default "" (rPathValues r !! sanitizeWildcard param).

(** ** Registration records (meta.go, action.go, resource.go) *)

Record ActionDef := {
  aName : string;
  aMethod : string;
  aOnItem : bool;
  aStatusCode : Z;
  aSensitive : bool;
  aInteractive : bool;
  aPermission : list string;
  aHandler : bool
}.

Record VerbDef := { vName : string; vHandler : bool }.

Inductive resourceReg := MkReg {
  Group : string;
  Name : string;
  RelPath : string;
  Parent : option resourceReg;
  Scopes : Z;
  PermTarget : list string;
  Verbs : list string;
  ActionDefs : list ActionDef;
  APIVersion : string;
  BasePath : string;
  MaxPageSize : Z;
  MaxBodyBytes : Z;
  Sensitive : bool;
  IDParam : string;
  StringID : bool;
  TypeName : string;
  ExtraAllow : option (string -> Request -> Z -> bool);
  ListAccessScope : string;
  PermScope : Z;
  ItemScopeResolver : option (Z -> ScopeInfo)
}.

Definition permScope (rr : resourceReg) : Z :=
  if PermScope rr =? 0 then deepest (Scopes rr) else PermScope rr.

Definition idParam (rr : resourceReg) : string :=
  if IDParam rr =s "" then singularID (Name rr) else IDParam rr.

(** The parent chain, outermost first. *)
Fixpoint ancestors (rr : resourceReg) : list resourceReg :=
  match Parent rr with
  | None => []
  | Some p => ancestors p ++ [p]
  end.

Definition parentPattern (rr : resourceReg) : string :=
  match Parent rr with
  | None => ""
  | Some _ =>
      foldl (fun b anc => b +++ Name anc +++ "/{" +++ sanitizeWildcard (idParam anc) +++ "}/")
        "" (ancestors rr)
  end.

Definition nameChain (rr : resourceReg) : list string :=
  (Name <$> ancestors rr) ++ [Name rr].

Definition moduleName (group : string) : string := if group =s "" then "core" else group.

Definition permCode (group : string) (chain : list string) (verb : string) : string :=
  moduleName group +++ ":" +++ Join chain ":" +++ ":" +++ verb.

Record routeMeta := MkMeta {
  mModule : string;
  mResource : string;
  mChain : string;
  mVerb : string;
  mKind : string;
  mTypeName : string;
  mScopeLevel : Z;
  mPermCodes : list string;
  mAPIVersion : string;
  mParentParams : list string;
  mIDParam : string;
  mStringID : bool;
  mMaxPageSize : Z;
  mMaxBodyBytes : Z;
  mStatusCode : Z;
  mSensitive : bool;
  mInteractive : bool;
  mExtraAllow : option (Request -> Z -> bool);
  mAccessScope : string;
  mItemScopeResolver : option (Z -> ScopeInfo)
}.

Definition meta (rr : resourceReg) (lv : Z) (verb : string) (withID : bool) : routeMeta :=
  let codes :=
    match PermTarget rr with
    | [] => [permCode (Group rr) (nameChain rr) verb]
    | _ => PermTarget rr
    end in
  {| mModule := moduleName (Group rr);
     mResource := Name rr;
     mChain := Join (scopeChainParts lv ++ nameChain rr) ":";
     mVerb := verb;
     mKind := verb;
     mTypeName := TypeName rr;
     mScopeLevel := lv;
     mPermCodes := codes;
     mAPIVersion := APIVersion rr;
     mParentParams := idParam <$> ancestors rr;
     mIDParam := if withID then idParam rr else "";
     mStringID := if withID then StringID rr else false;
     mMaxPageSize := MaxPageSize rr;
     mMaxBodyBytes := MaxBodyBytes rr;
     mStatusCode := 0;
     mSensitive := false;
     mInteractive := false;
     mExtraAllow :=
       match ExtraAllow rr with
       | Some hook => Some (hook (hd "" codes))
       | None => None
       end;
     mAccessScope := if (verb =s "list") && (lv =? ScopePlatform) then ListAccessScope rr else "";
     mItemScopeResolver := ItemScopeResolver rr |}.

(** ** Resource definitions (resource.go) *)

Record Ops := {
  List : bool; Get : bool; Create : bool; Update : bool; Delete : bool;
  BatchDelete : bool; Patch : bool; ListAny : bool; CreateAny : bool
}.

Definition when {A} (b : bool) (l : list A) : list A := if b then l else [].

Definition verbs (o : Ops) : list string :=
  when (List o || ListAny o) ["list"]
  ++ when (Get o) ["get"]
  ++ when (Create o || CreateAny o) ["create"]
  ++ when (Update o) ["update"]
  ++ when (Patch o) ["patch"]
  ++ when (Delete o) ["delete"]
  ++ when (BatchDelete o) ["deleteCollection"].

Record ResourceDef := {
  dGroup : string;
  dVersion : string;
  dName : string;
  dScopes : Z;
  dParent : string;
  dIDParam : string;
  dOps : Ops;
  dActions : list ActionDef;
  dVerbs : list VerbDef;
  dSingletonGet : bool;
  dPermissionTargets : list string;
  dMaxPageSize : Z;
  dMaxBodyBytes : Z;
  dSensitive : bool;
  dExtraAllow : option (string -> Request -> Z -> bool);
  dListAccessScope : string;
  dPermScope : Z;
  dItemScopeResolver : option (Z -> ScopeInfo);
  (** The payload type T: its Go name and whether it is a runtime.Object. *)
  dTypeName : string;
  dIsObject : bool
}.

Definition version (d : ResourceDef) : string :=
  if dVersion d =s "" then "v1" else dVersion d.

Definition apiVersion (d : ResourceDef) : string :=
  if dGroup d =s "" then version d else dGroup d +++ "/" +++ version d.

Definition basePath (d : ResourceDef) : string :=
  if dGroup d =s "" then "/api/" +++ version d
  else "/api/" +++ dGroup d +++ "/" +++ version d.

(** ** The server (server.go) *)

Record RouteInfo := {
  riMethod : string; riPath : string; riKind : string; riGroup : string;
  riResource : string; riTypeName : string; riName : string
}.

(** [mux] keeps each registered pattern with the metadata composed into its
    handler chain. *)
Record Server := {
  skipCodes : gset string;
  mux : list (string * routeMeta);
  resources : gmap string (gmap string resourceReg);
  ordered : list resourceReg;
  modules : list string;
  patterns : list string;
  routes : list RouteInfo
}.

(** [New], for the list of permission codes any authenticated user may use. *)
Definition New (SkipPermCodes : list string) : Server :=
  {| skipCodes := list_to_set SkipPermCodes; mux := []; resources := ∅; ordered := [];
     modules := []; patterns := []; routes := [] |}.

(** *** [http.ServeMux]: when two patterns conflict

    Patterns here are a method, a space and a path of literal segments and
    [{name}] wildcards: no host, no [...] wildcard and no trailing slash. *)

Inductive relationship := equivalent | moreGeneral | moreSpecific | disjoint | overlaps.

Definition combineRelationships (r1 r2 : relationship) : relationship :=
  match r1 with
  | equivalent => r2
  | disjoint => disjoint
  | overlaps => match r2 with disjoint => disjoint | _ => overlaps end
  | moreGeneral =>
      match r2 with equivalent => moreGeneral | moreSpecific => overlaps | r => r end
  | moreSpecific =>
      match r2 with equivalent => moreSpecific | moreGeneral => overlaps | r => r end
  end.

Definition isWild (seg : string) : bool := HasPrefix seg "{".

Definition compareSegments (a b : string) : relationship :=
  if isWild a then (if isWild b then equivalent else moreGeneral)
  else if isWild b then moreSpecific
  else if a =s b then equivalent else disjoint.

(** The loop over corresponding segments, from the relationship so far. *)
Fixpoint compareFrom (rel : relationship) (p1 p2 : list string) : relationship :=
  match p1, p2 with
  | a :: p1', b :: p2' =>
      match combineRelationships rel (compareSegments a b) with
      | disjoint => disjoint
      | rel' => compareFrom rel' p1' p2'
      end
  | _, _ => rel
  end.

Definition comparePaths (p1 p2 : list string) : relationship :=
  if (length p1 =? length p2)%nat then compareFrom equivalent p1 p2 else disjoint.

Definition compareMethods (m1 m2 : string) : relationship :=
  if m1 =s m2 then equivalent
  else if m1 =s "" then moreGeneral
  else if m2 =s "" then moreSpecific
  else if (m1 =s "GET") && (m2 =s "HEAD") then moreGeneral
  else if (m2 =s "GET") && (m1 =s "HEAD") then moreSpecific
  else disjoint.

(** [strings.Cut(pattern, " ")]: the method and the path. *)
Fixpoint cutSpace (s : string) : string * string :=
  match s with
  | EmptyString => (EmptyString, EmptyString)
  | String c s' =>
      if Ascii.eqb c " " then (EmptyString, s')
      else let '(a, b) := cutSpace s' in (String c a, b)
  end.

Definition segments (path : string) : list string := Split path "/".

Definition conflictsWith (p q : string) : bool :=
  let '(m1, path1) := cutSpace p in
  let '(m2, path2) := cutSpace q in
  match combineRelationships (compareMethods m1 m2)
          (comparePaths (segments path1) (segments path2)) with
  | equivalent | overlaps => true
  | _ => false
  end.

(** A pattern may not bind one wildcard name twice. *)
Definition dupWildcard (p : string) : bool :=
  let wilds := filter (fun s => Is_true (isWild s)) (segments (cutSpace p).2) in
  negb (bool_decide (NoDup wilds)).

(** The last path segment: [path[strings.LastIndexByte(path, '/')+1:]]. *)
Definition lastSegment (path : string) : string := List.last (segments path) "".

Definition handle (s : Server) (pattern : string) (m : routeMeta) : result string Server :=
  if dupWildcard pattern || existsb (fun e => conflictsWith e.1 pattern) (mux s) then
    Err ("http: conflicting or malformed pattern " +++ pattern)
  else
    let '(method, path) := cutSpace pattern in
    let info :=
      {| riMethod := method; riPath := path; riKind := mKind m; riGroup := mModule m;
         riResource := mResource m; riTypeName := mTypeName m;
         riName := if (mKind m =s "action") || (mKind m =s "verb")
                   then lastSegment path else "" |} in
    Ok {| skipCodes := skipCodes s;
          mux := mux s ++ [(pattern, m)];
          resources := resources s; ordered := ordered s; modules := modules s;
          patterns := patterns s ++ [pattern];
          routes := routes s ++ [info] |}.

(** The scope bits [reg] shares with registrations of the same path. *)
Definition overlapWith (reg : resourceReg) (regs : list resourceReg) (init : Z) : Z :=
  foldl (fun acc other =>
           if (Group other =s Group reg) && (RelPath other =s RelPath reg)
           then Z.lor acc (Z.land (Scopes other) (Scopes reg)) else acc) init regs.

Definition addResource (s : Server) (reg : resourceReg) : result string Server :=
  let '(group, modules') :=
    match resources s !! Group reg with
    | Some g => (g, modules s)
    | None => (∅, modules s ++ [Group reg])
    end in
  let finish (group' : gmap string resourceReg) :=
    Ok {| skipCodes := skipCodes s; mux := mux s;
          resources := <[Group reg := group']> (resources s);
          ordered := ordered s ++ [reg]; modules := modules';
          patterns := patterns s; routes := routes s |} in
  match group !! RelPath reg with
  | Some existing =>
      if overlapWith reg (ordered s) (Z.land (Scopes existing) (Scopes reg)) =? 0
      then finish group
      else Err ("apiserver: duplicate resource " +++ RelPath reg)
  | None => finish (<[RelPath reg := reg]> group)
  end.

Definition resolveParent (s : Server) (group parent : string)
    : result string (option resourceReg) :=
  if parent =s "" then Ok None
  else match default ∅ (resources s !! group) !! parent with
       | Some reg => Ok (Some reg)
       | None => Err ("apiserver: resource parent " +++ parent +++ " not registered")
       end.

(** ** Route expansion (registerScopedRoutes) *)

Definition setKind (m : routeMeta) (k : string) : routeMeta :=
  MkMeta (mModule m) (mResource m) (mChain m) (mVerb m) k (mTypeName m) (mScopeLevel m)
    (mPermCodes m) (mAPIVersion m) (mParentParams m) (mIDParam m) (mStringID m)
    (mMaxPageSize m) (mMaxBodyBytes m) (mStatusCode m) (mSensitive m) (mInteractive m)
    (mExtraAllow m) (mAccessScope m) (mItemScopeResolver m).

Definition setSensitive (m : routeMeta) (b : bool) : routeMeta :=
  MkMeta (mModule m) (mResource m) (mChain m) (mVerb m) (mKind m) (mTypeName m)
    (mScopeLevel m) (mPermCodes m) (mAPIVersion m) (mParentParams m) (mIDParam m)
    (mStringID m) (mMaxPageSize m) (mMaxBodyBytes m) (mStatusCode m) b (mInteractive m)
    (mExtraAllow m) (mAccessScope m) (mItemScopeResolver m).

(** The metadata of one action route. *)
Definition actionMeta (def : ResourceDef) (reg : resourceReg) (lv : Z) (a : ActionDef)
    : routeMeta :=
  let m := meta reg lv (aName a) (aOnItem a) in
  MkMeta (mModule m) (mResource m) (mChain m) (mVerb m) "action" (mTypeName m)
    (mScopeLevel m) (aPermission a) (mAPIVersion m) (mParentParams m) (mIDParam m)
    (mStringID m) (mMaxPageSize m) (mMaxBodyBytes m) (aStatusCode a)
    (aSensitive a || dSensitive def) (aInteractive a)
    (mExtraAllow m) (mAccessScope m) (mItemScopeResolver m).

(** The (pattern, metadata) pairs one scope level registers, in order. *)
Definition scopedRoutes (def : ResourceDef) (reg : resourceReg) (lv : Z)
    : list (string * routeMeta) :=
  let base := basePath def +++ pathPrefix lv +++ "/" +++ parentPattern reg +++ dName def in
  let item := base +++ "/{" +++ sanitizeWildcard (idParam reg) +++ "}" in
  let writeMeta verb withID := setSensitive (meta reg lv verb withID) (dSensitive def) in
  let o := dOps def in
  when (List o) [("GET " +++ base, meta reg lv "list" false)]
  ++ when (ListAny o) [("GET " +++ base, meta reg lv "list" false)]
  ++ when (dSingletonGet def) [("GET " +++ base, meta reg lv "list" false)]
  ++ when (Get o) [("GET " +++ item, meta reg lv "get" true)]
  ++ ((fun v => ("GET " +++ item +++ "/" +++ vName v, setKind (meta reg lv "get" true) "verb"))
        <$> dVerbs def)
  ++ when (Create o) [("POST " +++ base, writeMeta "create" false)]
  ++ when (CreateAny o) [("POST " +++ base, setKind (writeMeta "create" false) "createAny")]
  ++ when (Update o) [("PUT " +++ item, writeMeta "update" true)]
  ++ when (Patch o) [("PATCH " +++ item, writeMeta "patch" true)]
  ++ when (Delete o) [("DELETE " +++ item, meta reg lv "delete" true)]
  ++ when (BatchDelete o) [("DELETE " +++ base, meta reg lv "deleteCollection" false)]
  ++ ((fun a =>
         (aMethod a +++ " " +++ (if aOnItem a then item else base) +++ "/" +++ aName a,
          actionMeta def reg lv a)) <$> dActions def).

Fixpoint handleAll (s : Server) (rs : list (string * routeMeta)) : result string Server :=
  match rs with
  | [] => Ok s
  | (p, m) :: rest => s' <-! handle s p m ;; handleAll s' rest
  end.

Definition registerScopedRoutes (s : Server) (def : ResourceDef) (reg : resourceReg) (lv : Z)
    : result string Server :=
  handleAll s (scopedRoutes def reg lv).

Fixpoint registerLevels (s : Server) (def : ResourceDef) (reg : resourceReg) (lvs : list Z)
    : result string Server :=
  match lvs with
  | [] => Ok s
  | lv :: rest => s' <-! registerScopedRoutes s def reg lv ;; registerLevels s' def reg rest
  end.

(** ** [Register] *)

Definition itemKey (onItem : bool) : string := if onItem then " item" else " collection".

(** The validation loop over actions: a name and a handler, a permission,
    and no repeated (method, name, item/collection) key. *)
Fixpoint checkActions (seen : gset string) (l : list ActionDef) : result string unit :=
  match l with
  | [] => Ok tt
  | a :: rest =>
      if (aName a =s "") || negb (aHandler a) then Err "ActionDef without name or handler"
      else if bool_decide (aPermission a = []) then Err "Permission is required"
      else
        let key := aMethod a +++ " " +++ aName a +++ itemKey (aOnItem a) in
        if bool_decide (key ∈ seen) then Err "duplicate action"
        else checkActions ({[key]} ∪ seen) rest
  end.

Fixpoint checkVerbs (seen : gset string) (l : list VerbDef) : result string unit :=
  match l with
  | [] => Ok tt
  | v :: rest =>
      if (vName v =s "") || negb (vHandler v) then Err "VerbDef without name or handler"
      else if bool_decide (vName v ∈ seen) then Err "duplicate verb"
      else checkVerbs ({[vName v]} ∪ seen) rest
  end.

Definition guard (b : bool) (msg : string) : result string unit := if b then Err msg else Ok tt.

(** The verbs permission records are derived from. *)
Definition regVerbs (def : ResourceDef) : list string :=
  let v := when (dSingletonGet def) ["list"] ++ verbs (dOps def) in
  match dVerbs def with
  | [] => v
  | _ => if Get (dOps def) then v else v ++ ["get"]
  end.

Definition effScopes (def : ResourceDef) : Z :=
  if dScopes def =? 0 then ScopePlatform else dScopes def.

Definition mkReg (def : ResourceDef) (parent : option resourceReg) : resourceReg :=
  {| Group := dGroup def; Name := dName def;
     RelPath := match parent with
                | None => dName def
                | Some p => RelPath p +++ "/" +++ dName def
                end;
     Parent := parent; Scopes := effScopes def; PermTarget := dPermissionTargets def;
     Verbs := regVerbs def; ActionDefs := dActions def; APIVersion := apiVersion def;
     BasePath := basePath def; MaxPageSize := dMaxPageSize def;
     MaxBodyBytes := dMaxBodyBytes def; Sensitive := dSensitive def; IDParam := dIDParam def;
     StringID := false; TypeName := dTypeName def; ExtraAllow := dExtraAllow def;
     ListAccessScope := dListAccessScope def; PermScope := dPermScope def;
     ItemScopeResolver := dItemScopeResolver def |}.

Definition returnsItem (def : ResourceDef) : bool :=
  let o := dOps def in Get o || Create o || Update o || Patch o || dSingletonGet def.

Definition Register (s : Server) (def : ResourceDef) : result string Server :=
  _ <-! guard (dName def =s "") "ResourceDef.Name is required" ;;
  _ <-! guard (returnsItem def && negb (dIsObject def)) "must embed runtime.TypeMeta" ;;
  _ <-! guard (List (dOps def) && ListAny (dOps def)) "declares both List and ListAny" ;;
  _ <-! guard (Create (dOps def) && CreateAny (dOps def)) "declares both Create and CreateAny" ;;
  _ <-! checkActions ∅ (dActions def) ;;
  _ <-! checkVerbs ∅ (dVerbs def) ;;
  parent <-! resolveParent s (dGroup def) (dParent def) ;;
  _ <-! guard (dSingletonGet def && List (dOps def)) "declares both SingletonGet and Ops.List" ;;
  let reg := mkReg def parent in
  s1 <-! addResource s reg ;;
  registerLevels s1 def reg (levels (effScopes def)).

(** ** Permission records *)

Record PermRecord := {
  prCode : string; prMethod : string; prPath : string; prScope : string
}.

(** Looking up an unknown verb in the Go map gives the empty string. *)
Definition verbMethods (verb : string) : string :=
  if verb =s "list" then "GET" else if verb =s "get" then "GET"
  else if verb =s "create" then "POST" else if verb =s "update" then "PUT"
  else if verb =s "patch" then "PATCH" else if verb =s "delete" then "DELETE"
  else if verb =s "deleteCollection" then "DELETE" else "".

Definition scopesUpTo (natural : string) : list string :=
  if natural =s "namespace" then ["namespace"; "workspace"; "platform"]
  else if natural =s "workspace" then ["workspace"; "platform"]
  else ["platform"].

Definition rbacIDParam (nm : string) : string := TrimSuffix nm "s" +++ "Id".

Definition permBasePath (rr : resourceReg) : string :=
  foldl (fun b anc => b +++ "/" +++ Name anc +++ "/{" +++ rbacIDParam (Name anc) +++ "}")
    (BasePath rr) (ancestors rr) +++ "/" +++ Name rr.

Definition fanOut (natural code method path : string) : list PermRecord :=
  (fun sc => {| prCode := code; prMethod := method; prPath := path; prScope := sc |})
    <$> scopesUpTo natural.

(** The rows of one resource's verbs. *)
Definition verbRecords (reg : resourceReg) : list PermRecord :=
  match PermTarget reg with
  | [] =>
      concat ((fun verb =>
        let path :=
          if (verb =s "list") || (verb =s "create") || (verb =s "deleteCollection")
          then permBasePath reg
          else permBasePath reg +++ "/{" +++ rbacIDParam (Name reg) +++ "}" in
        fanOut (name (permScope reg)) (permCode (Group reg) (nameChain reg) verb)
          (verbMethods verb) path) <$> Verbs reg)
  | _ => []
  end.

(** The codes the verb records cover. *)
Definition coveredCodes (regs : list resourceReg) : gset string :=
  list_to_set (concat ((fun reg =>
    match PermTarget reg with
    | [] => permCode (Group reg) (nameChain reg) <$> Verbs reg
    | _ => []
    end) <$> regs)).

(** The rows of one resource's actions: the first action of each name, its
    targets that no resource verb covers. *)
Fixpoint actionRecords (reg : resourceReg) (covered seen : gset string) (l : list ActionDef)
    : list PermRecord :=
  match l with
  | [] => []
  | a :: rest =>
      if bool_decide (aName a ∈ seen) then actionRecords reg covered seen rest
      else
        let path :=
          if aOnItem a
          then permBasePath reg +++ "/{" +++ rbacIDParam (Name reg) +++ "}/" +++ aName a
          else permBasePath reg +++ "/" +++ aName a in
        concat ((fun target =>
          if bool_decide (target ∈ covered) then []
          else fanOut (name (permScope reg)) target (aMethod a) path) <$> aPermission a)
        ++ actionRecords reg covered ({[aName a]} ∪ seen) rest
  end.

Definition groupRecords (regs : list resourceReg) : list PermRecord :=
  concat (verbRecords <$> regs)
  ++ concat ((fun reg => actionRecords reg (coveredCodes regs) ∅ (ActionDefs reg)) <$> regs).

(** [PermRecordsByModule]: one entry per registered group, keyed by module. *)
Definition PermRecordsByModule (s : Server) : gmap string (list PermRecord) :=
  foldl (fun out group =>
           <[moduleName group := groupRecords (filter (fun r => Group r = group) (ordered s))]> out)
    ∅ (modules s).

(** ** Scope lemmas *)

Lemma levels_in s lv : lv ∈ levels s ->
  hasBit s lv = true /\ (lv = ScopePlatform \/ lv = ScopeWorkspace \/ lv = ScopeNamespace).
Proof.
  unfold levels. rewrite list_elem_of_filter. intros [Hb Hl].
  split; [by apply Is_true_true|]. set_solver.
Qed.

(** A declared level is never deeper than the deepest one. *)
Lemma level_below_deepest s lv : lv ∈ levels s -> name lv ∈ scopesUpTo (name (deepest s)).
Proof.
  intros [Hb Hl]%levels_in. unfold deepest.
  destruct Hl as [-> | [-> | ->]]; rewrite ?Hb;
    repeat (case_match; try set_solver); vm_compute; set_solver.
Qed.

Lemma platform_in_scopesUpTo n : "platform" ∈ scopesUpTo n.
Proof. unfold scopesUpTo. repeat case_match; set_solver. Qed.

(** ** What registration does to the server *)

Lemma elem_of_when {A} (x : A) b l : x ∈ when b l <-> b = true /\ x ∈ l.
Proof. destruct b; cbn; [naive_solver|]. rewrite elem_of_nil. naive_solver. Qed.

Lemma handle_Ok s p m s' : handle s p m = Ok s' ->
  mux s' = mux s ++ [(p, m)] /\ ordered s' = ordered s /\ resources s' = resources s
  /\ modules s' = modules s /\ skipCodes s' = skipCodes s.
Proof.
  unfold handle. destruct (_ || _); [done|]. destruct (cutSpace p) as [meth path].
  intros [= <-]. done.
Qed.

Lemma handleAll_Ok s rs s' : handleAll s rs = Ok s' ->
  mux s' = mux s ++ rs /\ ordered s' = ordered s /\ resources s' = resources s
  /\ modules s' = modules s /\ skipCodes s' = skipCodes s.
Proof.
  revert s. induction rs as [|[p m] rs IH]; intros s; cbn.
  - intros [= <-]. by rewrite app_nil_r.
  - intros (s1 & H1 & H2)%rbind_Ok.
    apply handle_Ok in H1 as (Hm & Ho & Hr & Hmo & Hs).
    apply IH in H2 as (Hm' & Ho' & Hr' & Hmo' & Hs').
    rewrite Hm', Hm, <- app_assoc. split_and!; [done|congruence..].
Qed.

Lemma registerLevels_Ok s def reg lvs s' : registerLevels s def reg lvs = Ok s' ->
  mux s' = mux s ++ concat (scopedRoutes def reg <$> lvs)
  /\ ordered s' = ordered s /\ resources s' = resources s
  /\ modules s' = modules s /\ skipCodes s' = skipCodes s.
Proof.
  revert s. induction lvs as [|lv lvs IH]; intros s; cbn.
  - intros [= <-]. by rewrite app_nil_r.
  - intros (s1 & H1 & H2)%rbind_Ok.
    apply handleAll_Ok in H1 as (Hm & Ho & Hr & Hmo & Hs).
    apply IH in H2 as (Hm' & Ho' & Hr' & Hmo' & Hs').
    rewrite Hm', Hm, <- app_assoc. split_and!; [done|congruence..].
Qed.

Lemma addResource_Ok s reg s' : addResource s reg = Ok s' ->
  mux s' = mux s /\ ordered s' = ordered s ++ [reg] /\ skipCodes s' = skipCodes s
  /\ modules s' = match resources s !! Group reg with
                  | Some _ => modules s | None => modules s ++ [Group reg] end
  /\ (exists g, resources s' = <[Group reg := g]> (resources s)
        /\ (match default ∅ (resources s !! Group reg) !! RelPath reg with
            | Some existing =>
                g = default ∅ (resources s !! Group reg)
                /\ overlapWith reg (ordered s) (Z.land (Scopes existing) (Scopes reg)) = 0
            | None => g = <[RelPath reg := reg]> (default ∅ (resources s !! Group reg))
            end)).
Proof.
  unfold addResource. intros H.
  destruct (resources s !! Group reg) as [g|] eqn:Hg; cbn in *.
  - destruct (g !! RelPath reg) as [ex|] eqn:Hex.
    + destruct (Z.eqb_spec (overlapWith reg (ordered s) (Z.land (Scopes ex) (Scopes reg))) 0);
        [|done]. injection H as <-. cbn. split_and!; try done. by exists g.
    + injection H as <-. cbn. split_and!; try done. eauto.
  - rewrite lookup_empty in *. injection H as <-. cbn. split_and!; try done. eauto.
Qed.

(** Servers built by successful registrations. *)
Inductive reachable : Server -> Prop :=
| reach_new skip : reachable (New skip)
| reach_register s def s' : reachable s -> Register s def = Ok s' -> reachable s'.

Lemma Register_Ok s def s' : Register s def = Ok s' ->
  exists parent s1, addResource s (mkReg def parent) = Ok s1
    /\ registerLevels s1 def (mkReg def parent) (levels (effScopes def)) = Ok s'.
Proof.
  unfold Register. intros H.
  do 6 (apply rbind_Ok in H as (? & _ & H)).
  apply rbind_Ok in H as (parent & _ & H).
  apply rbind_Ok in H as (_ & _ & H).
  apply rbind_Ok in H as (s1 & H1 & H). eauto.
Qed.

(** The route comes from one of the scope levels of a registration. *)
Definition routeOf (reg : resourceReg) (e : string * routeMeta) : Prop :=
  exists def parent lv, reg = mkReg def parent /\ lv ∈ levels (effScopes def)
    /\ e ∈ scopedRoutes def reg lv.

Definition routes_ok (s : Server) : Prop :=
  forall e, e ∈ mux s -> exists reg, reg ∈ ordered s /\ routeOf reg e.

Definition modules_ok (s : Server) : Prop :=
  (forall g, g ∈ modules s <-> is_Some (resources s !! g))
  /\ (forall reg, reg ∈ ordered s -> Group reg ∈ modules s).

Lemma reachable_routes_ok s : reachable s -> routes_ok s.
Proof.
  induction 1 as [skip | s def s' Hr IH HR]; [intros e He; set_solver|].
  apply Register_Ok in HR as (parent & s1 & Ha & Hl).
  apply addResource_Ok in Ha as (Hm & Ho & _).
  apply registerLevels_Ok in Hl as (Hm' & Ho' & _).
  intros e. rewrite Hm', Hm, elem_of_app, Ho', Ho. intros [He | He].
  - destruct (IH e He) as (reg & ? & ?). exists reg. split; [set_solver | done].
  - apply elem_of_concat_fmap in He as (lv & Hlv & He).
    exists (mkReg def parent). split; [set_solver|]. by exists def, parent, lv.
Qed.

Lemma reachable_modules_ok s : reachable s -> modules_ok s.
Proof.
  induction 1 as [skip | s def s' Hr [Hdom Hreg] HR].
  { split; [intros g; cbn; rewrite lookup_empty, elem_of_nil; split; [done | intros [? ?]; done]
           | intros reg Hin; cbn in Hin; by apply elem_of_nil in Hin]. }
  apply Register_Ok in HR as (parent & s1 & Ha & Hl).
  apply addResource_Ok in Ha as (_ & Ho & _ & Hmo & g0 & Hres & _).
  apply registerLevels_Ok in Hl as (_ & Ho' & Hr' & Hmo' & _).
  set (reg := mkReg def parent) in *.
  assert (Hmem : forall g, g ∈ modules s' <-> g ∈ modules s \/ g = Group reg).
  { intros g. rewrite Hmo', Hmo.
    destruct (resources s !! Group reg) eqn:E.
    - split; [tauto | intros [?| ->]; [done|]]. apply Hdom. eauto.
    - rewrite elem_of_app, list_elem_of_singleton. done. }
  split.
  - intros g. rewrite Hmem, Hr', Hres, lookup_insert, Hdom. case_decide as Hg.
    + subst g. split; [eauto | by right].
    + split; [intros [?| ->]; done | tauto].
  - intros r. rewrite Ho', Ho, elem_of_app, list_elem_of_singleton, Hmem.
    intros [Hin | ->]; [left; by apply Hreg | by right].
Qed.

(** ** Permission records cover the routes *)

(** The core group is spelled [""]; a group literally named ["core"] would
    share its module. *)
Definition core_free (s : Server) : Prop := ~ ("" ∈ modules s /\ "core" ∈ modules s).

Lemma moduleName_inj s g g' : core_free s -> g ∈ modules s -> g' ∈ modules s ->
  moduleName g = moduleName g' -> g = g'.
Proof.
  intros Hc Hg Hg'. unfold moduleName.
  destruct (String.eqb_spec g "") as [->|], (String.eqb_spec g' "") as [->|]; try done;
    intros <- || intros ->; by exfalso; apply Hc.
Qed.

Lemma fold_modules_lookup (f : string -> list PermRecord) (l : list string) g :
  g ∈ l -> (forall g', g' ∈ l -> moduleName g' = moduleName g -> g' = g) ->
  foldl (fun out group => <[moduleName group := f group]> out) (∅ : gmap string (list PermRecord)) l
    !! moduleName g = Some (f g).
Proof.
  induction l as [|x l IH] using rev_ind; [by rewrite elem_of_nil|].
  rewrite elem_of_app, list_elem_of_singleton. intros Hg Hinj. rewrite foldl_app. cbn.
  rewrite lookup_insert. case_decide as Hx.
  - by rewrite (Hinj x) by (done || set_solver).
  - apply IH; [|set_solver]. destruct Hg as [?| ->]; done.
Qed.

Lemma group_records_lookup s reg :
  reachable s -> core_free s -> reg ∈ ordered s ->
  PermRecordsByModule s !! moduleName (Group reg)
  = Some (groupRecords (filter (fun r => Group r = Group reg) (ordered s))).
Proof.
  intros [_ Hreg]%reachable_modules_ok Hc Hin. unfold PermRecordsByModule.
  apply (fold_modules_lookup
           (fun group => groupRecords (filter (fun r => Group r = group) (ordered s)))).
  - by apply Hreg.
  - intros g' Hg'. apply (moduleName_inj s); auto.
Qed.

Lemma fanOut_elem natural code method path sc :
  sc ∈ scopesUpTo natural ->
  exists pr, pr ∈ fanOut natural code method path /\ prCode pr = code /\ prScope pr = sc.
Proof.
  intros Hsc. unfold fanOut. eexists. split; [|split].
  - apply list_elem_of_fmap. exists sc. by split.
  - done.
  - done.
Qed.

Lemma verbRecords_elem reg verb sc :
  PermTarget reg = [] -> verb ∈ Verbs reg -> sc ∈ scopesUpTo (name (permScope reg)) ->
  exists pr, pr ∈ verbRecords reg /\ prCode pr = permCode (Group reg) (nameChain reg) verb
    /\ prScope pr = sc.
Proof.
  intros HT Hv Hsc. unfold verbRecords. rewrite HT.
  edestruct (fanOut_elem (name (permScope reg))) as (pr & Hpr & Hc & Hs); [exact Hsc|].
  exists pr. split; [|split; [exact Hc | exact Hs]].
  apply elem_of_concat_fmap. exists verb. split; [done|]. exact Hpr.
Qed.

Lemma Forall_when {A} (P : A -> Prop) b x : (b = true -> P x) -> Forall P (when b [x]).
Proof. destruct b; cbn; intros H; [|constructor]. repeat constructor. by apply H. Qed.

(** The verb a non-action route checks is one of the registration's verbs. *)
Definition crudRoute (def : ResourceDef) (reg : resourceReg) (lv : Z) (e : string * routeMeta)
    : Prop :=
  mKind e.2 = "action" \/
  exists verb, verb ∈ regVerbs def /\ mScopeLevel e.2 = lv
    /\ mModule e.2 = moduleName (Group reg)
    /\ mPermCodes e.2 = match PermTarget reg with
                        | [] => [permCode (Group reg) (nameChain reg) verb]
                        | _ => PermTarget reg end.

Lemma regVerbs_ops def verb : verb ∈ verbs (dOps def) -> verb ∈ regVerbs def.
Proof.
  intros Hv. unfold regVerbs.
  destruct (dVerbs def); [|destruct (Get (dOps def))]; rewrite ?elem_of_app; tauto.
Qed.

Lemma regVerbs_list def : dSingletonGet def = true -> "list" ∈ regVerbs def.
Proof.
  intros Hs. unfold regVerbs. rewrite Hs.
  destruct (dVerbs def); [|destruct (Get (dOps def))]; cbn; set_solver.
Qed.

Lemma regVerbs_get def v : v ∈ dVerbs def -> "get" ∈ regVerbs def.
Proof.
  intros Hv. unfold regVerbs. destruct (dVerbs def); [by apply elem_of_nil in Hv|].
  destruct (Get (dOps def)) eqn:Hg; [|set_solver].
  rewrite elem_of_app. right. unfold verbs. rewrite Hg. cbn. rewrite !elem_of_app, elem_of_cons.
  tauto.
Qed.

Ltac crud_op :=
  apply Forall_when; intros Hop; right; eexists; split;
  [ apply regVerbs_ops; unfold verbs; rewrite Hop, ?orb_true_r, !elem_of_app, ?elem_of_when,
      ?elem_of_cons; tauto
  | done ].

Lemma scopedRoutes_crud def reg lv : Forall (crudRoute def reg lv) (scopedRoutes def reg lv).
Proof.
  unfold scopedRoutes. rewrite !Forall_app. split_and!; try crud_op.
  - apply Forall_when. intros Hs. right. exists "list". by split; [apply regVerbs_list|].
  - apply Forall_fmap, Forall_forall. intros v Hv. right. exists "get".
    split; [by eapply regVerbs_get | done].
  - apply Forall_fmap, Forall_forall. intros a Ha. by left.
Qed.

Lemma verb_records_in_group s reg pr :
  reg ∈ ordered s -> pr ∈ verbRecords reg ->
  pr ∈ groupRecords (filter (fun r => Group r = Group reg) (ordered s)).
Proof.
  intros Hin Hpr. unfold groupRecords. rewrite elem_of_app. left.
  apply elem_of_concat_fmap. exists reg. split; [|done].
  by apply list_elem_of_filter.
Qed.

(** Every CRUD or read-verb route the server serves checks a code that
    the permission table lists, in the route's own module and at the
    route's own scope level, unless the resource borrows another
    resource's permissions or overrides the fan-out scope. *)
Lemma crud_routes_have_records s p m :
  reachable s -> core_free s -> (p, m) ∈ mux s -> mKind m <> "action" ->
  exists reg, reg ∈ ordered s /\ routeOf reg (p, m) /\
    (PermTarget reg = [] -> PermScope reg = 0 \/ mScopeLevel m = ScopePlatform ->
     exists rs, PermRecordsByModule s !! mModule m = Some rs
       /\ mPermCodes m <> []
       /\ forall code, code ∈ mPermCodes m ->
            exists pr, pr ∈ rs /\ prCode pr = code /\ prScope pr = name (mScopeLevel m)).
Proof.
  intros Hr Hc Hin Hk. destruct (reachable_routes_ok s Hr _ Hin) as (reg & Hreg & Hof).
  exists reg. split_and!; [done..|]. intros HT HP.
  destruct Hof as (def & parent & lv & -> & Hlv & He).
  pose proof (scopedRoutes_crud def (mkReg def parent) lv) as Hall.
  rewrite Forall_forall in Hall.
  destruct (Hall _ He) as [Ha | (verb & Hv & Hl & Hm & Hcodes)]; [done|].
  set (reg := mkReg def parent) in *. cbn [snd] in Hl, Hm, Hcodes. rewrite HT in Hcodes.
  exists (groupRecords (filter (fun r => Group r = Group reg) (ordered s))).
  split_and!; [by rewrite Hm, group_records_lookup | by rewrite Hcodes |].
  intros code. rewrite Hcodes, list_elem_of_singleton. intros ->.
  assert (Hsc : name (mScopeLevel m) ∈ scopesUpTo (name (permScope reg))).
  { destruct HP as [HP | ->]; [|apply platform_in_scopesUpTo].
    unfold permScope. rewrite HP, Hl. by apply level_below_deepest. }
  destruct (verbRecords_elem reg verb (name (mScopeLevel m)) HT Hv Hsc) as (pr & Hpr & ? & ?).
  exists pr. split; [by apply verb_records_in_group | done].
Qed.

Lemma scopedRoutes_action def reg lv :
  Forall (fun e => mKind e.2 = "action" ->
            exists a, a ∈ dActions def /\ mPermCodes e.2 = aPermission a
              /\ mModule e.2 = moduleName (Group reg)) (scopedRoutes def reg lv).
Proof.
  unfold scopedRoutes. rewrite !Forall_app. split_and!;
    try (apply Forall_when; intros _; done).
  - apply Forall_fmap, Forall_forall. intros v _. done.
  - apply Forall_fmap, Forall_forall. intros a Ha _. eauto.
Qed.

Lemma actionRecords_elem reg covered seen l a target :
  a ∈ l -> target ∈ aPermission a -> target ∉ covered -> aName a ∉ seen ->
  (forall b, b ∈ l -> aName b = aName a -> aPermission b = aPermission a) ->
  exists pr, pr ∈ actionRecords reg covered seen l /\ prCode pr = target.
Proof.
  revert seen. induction l as [|b l IH]; intros seen Ha Ht Hcov Hseen Hsame;
    [by apply elem_of_nil in Ha|].
  cbn. destruct (decide (aName b = aName a)) as [Hba | Hba].
  - rewrite bool_decide_eq_false_2 by congruence.
    edestruct (fanOut_elem (name (permScope reg))) as (pr & Hpr & Hcode & _);
      [apply platform_in_scopesUpTo|].
    exists pr. split; [|exact Hcode].
    rewrite elem_of_app. left. apply elem_of_concat_fmap. exists target.
    split; [by rewrite (Hsame b) by set_solver|].
    rewrite bool_decide_eq_false_2 by done. exact Hpr.
  - assert (Ha' : a ∈ l) by (apply elem_of_cons in Ha as [->|?]; done).
    case_bool_decide.
    + apply IH; set_solver.
    + destruct (IH ({[aName b]} ∪ seen)) as (pr & Hpr & ?); [set_solver..|].
      exists pr. rewrite elem_of_app. auto.
Qed.

Lemma covered_has_record s reg code :
  code ∈ coveredCodes (filter (fun r => Group r = Group reg) (ordered s)) ->
  exists pr, pr ∈ groupRecords (filter (fun r => Group r = Group reg) (ordered s))
    /\ prCode pr = code.
Proof.
  unfold coveredCodes. rewrite elem_of_list_to_set, elem_of_concat_fmap.
  intros (r & Hr & Hcode). destruct (PermTarget r) eqn:HT; [|by apply elem_of_nil in Hcode].
  apply list_elem_of_fmap in Hcode as (verb & -> & Hv).
  destruct (verbRecords_elem r verb "platform" HT Hv) as (pr & Hpr & Hc & _);
    [apply platform_in_scopesUpTo|].
  exists pr. split; [|done]. unfold groupRecords. rewrite elem_of_app. left.
  apply elem_of_concat_fmap. eauto.
Qed.

(** Every code an action route checks is listed in the permission table
    of its module, provided same-named actions of the resource (one action
    served under several methods) declare the same permissions. *)
Lemma action_routes_have_records s p m :
  reachable s -> core_free s -> (p, m) ∈ mux s -> mKind m = "action" ->
  exists reg, reg ∈ ordered s /\ routeOf reg (p, m) /\
    ((forall a b, a ∈ ActionDefs reg -> b ∈ ActionDefs reg ->
        aName b = aName a -> aPermission b = aPermission a) ->
     exists rs, PermRecordsByModule s !! mModule m = Some rs
       /\ forall code, code ∈ mPermCodes m -> exists pr, pr ∈ rs /\ prCode pr = code).
Proof.
  intros Hr Hc Hin Hk. destruct (reachable_routes_ok s Hr _ Hin) as (reg & Hreg & Hof).
  exists reg. split_and!; [done..|]. intros Hsame.
  destruct Hof as (def & parent & lv & -> & Hlv & He).
  pose proof (scopedRoutes_action def (mkReg def parent) lv) as Hall.
  rewrite Forall_forall in Hall. destruct (Hall _ He Hk) as (a & Ha & Hcodes & Hm).
  set (reg := mkReg def parent) in *. cbn [snd] in Hcodes, Hm.
  exists (groupRecords (filter (fun r => Group r = Group reg) (ordered s))).
  split; [by rewrite Hm, group_records_lookup|].
  intros code. rewrite Hcodes. intros Hcode.
  destruct (decide (code ∈ coveredCodes (filter (fun r => Group r = Group reg) (ordered s))))
    as [Hcov | Hcov]; [by apply covered_has_record|].
  destruct (actionRecords_elem reg _ ∅ (dActions def) a code Ha Hcode Hcov)
    as (pr & Hpr & Heq); [set_solver | intros b Hb Hn; by apply Hsame |].
  exists pr. split; [|done]. unfold groupRecords. rewrite elem_of_app. right.
  apply elem_of_concat_fmap. exists reg. split; [by apply list_elem_of_filter | done].
Qed.

(** ** A sample server, for witnesses *)

Definition noOps : Ops :=
  {| List := false; Get := false; Create := false; Update := false; Delete := false;
     BatchDelete := false; Patch := false; ListAny := false; CreateAny := false |}.

Definition demoDef : ResourceDef :=
  {| dGroup := "compute"; dVersion := ""; dName := "hosts"; dScopes := ScopeAll; dParent := "";
     dIDParam := ""; dOps := {| List := true; Get := true; Create := false; Update := false;
       Delete := true; BatchDelete := false; Patch := false; ListAny := false;
       CreateAny := false |};
     dActions := [{| aName := "exec"; aMethod := "GET"; aOnItem := true; aStatusCode := 0;
       aSensitive := false; aInteractive := true; aPermission := ["compute:hosts:exec"];
       aHandler := true |}];
     dVerbs := []; dSingletonGet := false; dPermissionTargets := []; dMaxPageSize := 0;
     dMaxBodyBytes := 0; dSensitive := false; dExtraAllow := None; dListAccessScope := "";
     dPermScope := 0; dItemScopeResolver := None; dTypeName := "Host"; dIsObject := true |}.

Definition demoServer : Server :=
  match Register (New []) demoDef with Ok s => s | Err _ => New [] end.

Lemma demoServer_reachable : reachable demoServer.
Proof.
  apply (reach_register (New []) demoDef); [constructor|]. by vm_compute.
Qed.

Lemma demoServer_core_free : core_free demoServer.
Proof. intros [H _]. vm_compute in H. inversion H as [|? ? ? H']. inversion H'. Qed.

Lemma demoServer_modules : modules demoServer = ["compute"].
Proof. by vm_compute. Qed.

(** ** Registrations of one path never share a scope level *)

Definition samePath (r1 r2 : resourceReg) : Prop :=
  Group r1 = Group r2 /\ RelPath r1 = RelPath r2.

Definition disjoint_scopes (l : list resourceReg) : Prop :=
  forall i j r1 r2, l !! i = Some r1 -> l !! j = Some r2 -> i <> j -> samePath r1 r2 ->
    Z.land (Scopes r1) (Scopes r2) = 0.

Definition indexed (s : Server) : Prop :=
  forall r, r ∈ ordered s -> is_Some (default ∅ (resources s !! Group r) !! RelPath r).

Lemma overlapWith_0 reg regs init : overlapWith reg regs init = 0 ->
  forall r, r ∈ regs -> samePath r reg -> Z.land (Scopes r) (Scopes reg) = 0.
Proof.
  unfold overlapWith. induction regs as [|x regs IH] using rev_ind.
  { intros _ r Hr. by apply elem_of_nil in Hr. }
  rewrite foldl_app. cbn. intros H0 r Hr Hsame.
  rewrite elem_of_app, list_elem_of_singleton in Hr.
  destruct ((Group x =s Group reg) && (RelPath x =s RelPath reg)) eqn:E.
  - apply Z.lor_eq_0_iff in H0 as [H1 H2]. destruct Hr as [Hr | ->]; [by apply IH | done].
  - destruct Hr as [Hr | ->]; [by apply IH|]. destruct Hsame as [Hg Hp].
    by rewrite Hg, Hp, !String.eqb_refl in E.
Qed.

Lemma disjoint_scopes_snoc l reg :
  disjoint_scopes l ->
  (forall r, r ∈ l -> samePath r reg -> Z.land (Scopes r) (Scopes reg) = 0) ->
  disjoint_scopes (l ++ [reg]).
Proof.
  intros Hl Hnew i j r1 r2 H1 H2 Hij Hs.
  apply lookup_snoc_Some in H1 as [[Hi H1] | [-> <-]];
    apply lookup_snoc_Some in H2 as [[Hj H2] | [-> <-]].
  - by eapply Hl.
  - apply Hnew; [by eapply list_elem_of_lookup_2 | done].
  - rewrite Z.land_comm. apply Hnew; [by eapply list_elem_of_lookup_2 | by destruct Hs].
  - done.
Qed.

Lemma addResource_indexed s reg s' : indexed s -> addResource s reg = Ok s' -> indexed s'.
Proof.
  intros Hi (_ & Ho & _ & _ & g & Hres & Hg)%addResource_Ok r.
  rewrite Ho, elem_of_app, list_elem_of_singleton, Hres, lookup_insert.
  intros Hr. case_decide as Hgr; cbn.
  - destruct (default ∅ (resources s !! Group reg) !! RelPath reg) as [ex|] eqn:Hex.
    + destruct Hg as [-> _]. destruct Hr as [Hr | ->]; [|by eauto].
      rewrite Hgr. by apply Hi.
    + subst g. rewrite lookup_insert. case_decide as Hp; [by eauto|].
      destruct Hr as [Hr | ->]; [|done]. rewrite Hgr. by apply Hi.
  - destruct Hr as [Hr | ->]; [by apply Hi | done].
Qed.

Lemma reachable_disjoint s : reachable s -> disjoint_scopes (ordered s) /\ indexed s.
Proof.
  induction 1 as [skip | s def s' Hr [Hd Hi] HR].
  { split; [by intros i j r1 r2 H1 | intros r Hr; by apply elem_of_nil in Hr]. }
  apply Register_Ok in HR as (parent & s1 & Ha & Hl).
  pose proof (addResource_indexed _ _ _ Hi Ha) as Hi1.
  apply addResource_Ok in Ha as (_ & Ho & _ & _ & g & _ & Hg).
  apply registerLevels_Ok in Hl as (_ & Ho' & Hr' & _).
  split; [|intros r; rewrite Hr', Ho'; apply Hi1].
  rewrite Ho', Ho. apply disjoint_scopes_snoc; [done|]. intros r Hin Hs.
  destruct (Hi r Hin) as [ex Hex]. destruct Hs as [Hgr Hp]. rewrite Hgr, Hp in Hex.
  rewrite Hex in Hg. destruct Hg as [_ H0]. by eapply overlapWith_0.
Qed.

(** In every server built by registrations, two registrations of the
    same resource path in the same group never declare a common scope
    level, so no level of a path is served by two storages. *)
Lemma registrations_disjoint s : reachable s -> disjoint_scopes (ordered s).
Proof. intros H. by apply reachable_disjoint. Qed.

(** "users" registered once per scope level, with per-scope storages. *)
Definition demoUsers (sc : Z) : ResourceDef :=
  {| dGroup := "iam"; dVersion := ""; dName := "users"; dScopes := sc; dParent := "";
     dIDParam := ""; dOps := {| List := true; Get := false; Create := false; Update := false;
       Delete := false; BatchDelete := false; Patch := false; ListAny := false;
       CreateAny := false |};
     dActions := []; dVerbs := []; dSingletonGet := false; dPermissionTargets := [];
     dMaxPageSize := 0; dMaxBodyBytes := 0; dSensitive := false; dExtraAllow := None;
     dListAccessScope := ""; dPermScope := 0; dItemScopeResolver := None;
     dTypeName := "User"; dIsObject := true |}.

Definition demoUsersServer : result string Server :=
  s1 <-! Register (New []) (demoUsers ScopePlatform) ;;
  Register s1 (demoUsers ScopeWorkspace).

End Api.
