(* ===== verification/ApiServe.v ===== *)
(** * The API server: authorization, request context and audit

    Models [lib/apiserver/middleware.go], [ctx.go] and the scope resolution
    of [meta.go]: what happens to a request after the mux has matched a
    route and before the resource handler runs, and what the audit link
    records around it. The permission checker is an interface
    ([filters.PermissionChecker]); [RBACChecker] is its instance. *)

From S2P Require Import Prelude Rbac ApiRoutes.

Module Serve.
Import Api.

(** ** Errors and the typed context (ctx.go) *)

(** [apierrors.NewBadRequest]: the 400 the wrappers answer. *)
Inductive apiError := BadRequest (msg : string).

Definition invalidIDError (param raw : string) : apiError :=
  BadRequest ("invalid " +++ TrimSuffix param "Id" +++ " ID: " +++ raw).

Definition parsePathID (r : Request) (nm : string) : result apiError Z :=
  let raw := pathValue r nm in
  match ParseInt raw 64 with
  | Some id => Ok id
  | None => Err (invalidIDError nm raw)
  end.

Record AccessFilter := { afWorkspaceIDs : list Z; afNamespaceIDs : list Z }.

Record Ctx := {
  cUserID : Z;
  cUsername : string;
  cScope : ScopeInfo;
  cID : Z;
  cName : string;
  cParents : list Z;
  cDryRun : bool;
  cAccess : option AccessFilter
}.

Fixpoint parseParents (r : Request) (params : list string) : result apiError (list Z) :=
  match params with
  | [] => Ok []
  | p :: rest =>
      id <-! parsePathID r p ;;
      ids <-! parseParents r rest ;;
      Ok (id :: ids)
  end.

(** [buildCtx]; [af] is the filter the authorization link put in the
    request context. *)
Definition buildCtx (r : Request) (m : routeMeta) (af : option AccessFilter)
    : result apiError Ctx :=
  ws <-! (if hasBit (mScopeLevel m) (Z.lor ScopeWorkspace ScopeNamespace)
          then parsePathID r "workspaceId" else Ok 0) ;;
  ns <-! (if hasBit (mScopeLevel m) ScopeNamespace
          then parsePathID r "namespaceId" else Ok 0) ;;
  parents <-! parseParents r (mParentParams m) ;;
  item <-! (if mIDParam m =s "" then Ok (0, "")
            else
              let raw := pathValue r (mIDParam m) in
              if mStringID m then Ok (0, raw)
              else match ParseInt raw 64 with
                   | Some id => Ok (id, "")
                   | None => Err (invalidIDError (mIDParam m) raw)
                   end) ;;
  Ok {| cUserID := default 0 (rUserID r); cUsername := rUsername r;
        cScope := {| Level := mScopeLevel m; WorkspaceID := ws; NamespaceID := ns |};
        cID := item.1; cName := item.2; cParents := parents;
        cDryRun := rDryRun r =s "true"; cAccess := af |}.

(** ** Scope resolution for authorization (meta.go) *)

Definition orZero (x : result apiError Z) : Z := match x with Ok v => v | Err _ => 0 end.

Definition routeScope (m : routeMeta) (r : Request) : ScopeInfo :=
  let fallback :=
    {| Level := mScopeLevel m;
       WorkspaceID := if hasBit (mScopeLevel m) (Z.lor ScopeWorkspace ScopeNamespace)
                      then orZero (parsePathID r "workspaceId") else 0;
       NamespaceID := if hasBit (mScopeLevel m) ScopeNamespace
                      then orZero (parsePathID r "namespaceId") else 0 |} in
  match mItemScopeResolver m with
  | Some resolve =>
      if negb (mIDParam m =s "") && (mScopeLevel m =? ScopePlatform) then
        match parsePathID r (mIDParam m) with
        | Ok id => resolve id
        | Err _ => fallback
        end
      else fallback
  | None => fallback
  end.

(** ** The permission-checker interface (rest/filters/authorization.go)

    Each call may change the checker's own state [C], its cache. *)
Class PermissionChecker (E C : Type) := {
  pcIsPlatformAdmin : C -> Z -> result E bool * C;
  pcCheckAnyPermission : C -> Z -> list string -> string -> Z -> Z -> result E bool * C;
  pcGetAccessibleWorkspaceIDs : C -> Z -> result E (list Z);
  pcGetAccessibleNamespaceIDs : C -> Z -> result E (list Z)
}.

(** ** Authorization (middleware.go) *)

(** The request reaches the next handler, possibly with an access filter in
    its context, or is answered 403 with a message. *)
Inductive outcome := ServeNext (af : option AccessFilter) | Forbidden (msg : string).

Section Authz.
Context {E C : Type} `{PC : PermissionChecker E C}.

Definition authzMiddleware (checker : option C) (skip : gset string) (m : routeMeta)
    (r : Request) : outcome * option C :=
  match checker with
  | None => (ServeNext None, None)
  | Some c =>
      if (length (mPermCodes m) =? 1)%nat && bool_decide (hd "" (mPermCodes m) ∈ skip)
      then (ServeNext None, Some c)
      else match rUserID r with
      | None => (Forbidden "no authenticated user", Some c)
      | Some userID =>
          if match mExtraAllow m with Some f => f r userID | None => false end
          then (ServeNext None, Some c)
          else
            let '(isAdmin, c1) := pcIsPlatformAdmin c userID in
            match isAdmin with
            | Err _ => (Forbidden "failed to check permissions", Some c1)
            | Ok true => (ServeNext None, Some c1)
            | Ok false =>
                if negb (mAccessScope m =s "") then
                  if mAccessScope m =s "workspaces" then
                    match pcGetAccessibleWorkspaceIDs c1 userID with
                    | Err _ => (Forbidden "failed to check accessible workspaces", Some c1)
                    | Ok ids =>
                        (ServeNext (Some {| afWorkspaceIDs := ids; afNamespaceIDs := [] |}),
                         Some c1)
                    end
                  else
                    match pcGetAccessibleNamespaceIDs c1 userID with
                    | Err _ => (Forbidden "failed to check accessible namespaces", Some c1)
                    | Ok ids =>
                        (ServeNext (Some {| afWorkspaceIDs := []; afNamespaceIDs := ids |}),
                         Some c1)
                    end
                else
                  let sc := routeScope m r in
                  let '(allowed, c2) :=
                    pcCheckAnyPermission c1 userID (mPermCodes m) (name (Level sc))
                      (WorkspaceID sc) (NamespaceID sc) in
                  match allowed with
                  | Err _ => (Forbidden "failed to check permissions", Some c2)
                  | Ok false =>
                      (Forbidden ("access denied: requires " +++ hd "" (mPermCodes m)), Some c2)
                  | Ok true => (ServeNext None, Some c2)
                  end
            end
      end
  end.

End Authz.

(** [RBACChecker] as an instance. One request is short: its clock readings
    are one time [rbNow] and the store answers it from one state. *)
Record RBACState (E : Type) := MkRBAC {
  rbCache : gmap Z Rbac.cacheEntry;
  rbNow : Z;
  rbLoad : Z -> result E (list Rbac.UserPermissionRuleRow);
  rbWorkspaces : Z -> result E (list Z);
  rbNamespaces : Z -> result E (list Z)
}.
Arguments rbCache {E}. Arguments rbNow {E}. Arguments rbLoad {E}.
Arguments rbWorkspaces {E}. Arguments rbNamespaces {E}. Arguments MkRBAC {E}.

Definition withCache {E} (c : RBACState E) (cache : gmap Z Rbac.cacheEntry) : RBACState E :=
  MkRBAC cache (rbNow c) (rbLoad c) (rbWorkspaces c) (rbNamespaces c).

#[export] Instance RBACChecker (E : Type) : PermissionChecker E (RBACState E) := {
  pcIsPlatformAdmin c userID :=
    let '(r, cache) := Rbac.CheckIsPlatformAdmin (rbLoad c) (rbNow c) (rbNow c) userID (rbCache c) in
    (r, withCache c cache);
  pcCheckAnyPermission c userID permCodes scope wsID nsID :=
    let '(r, cache) := Rbac.CheckAnyPermission (rbLoad c) (rbNow c) (rbNow c) userID permCodes
                         scope wsID nsID (rbCache c) in
    (r, withCache c cache);
  pcGetAccessibleWorkspaceIDs c userID := rbWorkspaces c userID;
  pcGetAccessibleNamespaceIDs c userID := rbNamespaces c userID
}.

(** ** What the authorization link decides *)

Section AuthzFacts.
Context {E C : Type} `{PC : PermissionChecker E C}.

(** The whitelist test of the link. *)
Definition whitelisted (skip : gset string) (m : routeMeta) : bool :=
  (length (mPermCodes m) =? 1)%nat && bool_decide (hd "" (mPermCodes m) ∈ skip).

(** Why a request may reach the handler. *)
Inductive reason (c : C) (skip : gset string) (m : routeMeta) (r : Request)
    : option AccessFilter -> Prop :=
| R_whitelisted : whitelisted skip m = true -> reason c skip m r None
| R_extra u f :
    rUserID r = Some u -> mExtraAllow m = Some f -> f r u = true -> reason c skip m r None
| R_admin u c1 :
    rUserID r = Some u -> pcIsPlatformAdmin c u = (Ok true, c1) -> reason c skip m r None
| R_access_ws u c1 ids :
    rUserID r = Some u -> pcIsPlatformAdmin c u = (Ok false, c1) ->
    mAccessScope m = "workspaces" -> pcGetAccessibleWorkspaceIDs c1 u = Ok ids ->
    reason c skip m r (Some {| afWorkspaceIDs := ids; afNamespaceIDs := [] |})
| R_access_ns u c1 ids :
    rUserID r = Some u -> pcIsPlatformAdmin c u = (Ok false, c1) ->
    mAccessScope m <> "" -> mAccessScope m <> "workspaces" ->
    pcGetAccessibleNamespaceIDs c1 u = Ok ids ->
    reason c skip m r (Some {| afWorkspaceIDs := []; afNamespaceIDs := ids |})
| R_granted u c1 c2 :
    rUserID r = Some u -> pcIsPlatformAdmin c u = (Ok false, c1) -> mAccessScope m = "" ->
    pcCheckAnyPermission c1 u (mPermCodes m) (name (Level (routeScope m r)))
      (WorkspaceID (routeScope m r)) (NamespaceID (routeScope m r)) = (Ok true, c2) ->
    reason c skip m r None.

(** Fail-closed authorization. Whatever the permission checker does,
    a request passes the link only for one of the listed reasons: a
    whitelisted code, the route's own allowance hook, a platform admin, an
    access-filtered list (with exactly the accessible ids as filter), or a
    positive permission check at the scope resolved from the route. In
    particular every checker error ends in a 403. *)
Lemma authz_reason c skip m r af :
  (authzMiddleware (Some c) skip m r).1 = ServeNext af -> reason c skip m r af.
Proof.
  unfold authzMiddleware. fold (whitelisted skip m).
  destruct (whitelisted skip m) eqn:Hw; [intros [= <-]; by constructor|].
  destruct (rUserID r) as [u|] eqn:Hu; [|done].
  destruct (match mExtraAllow m with Some f => f r u | None => false end) eqn:Hx.
  { intros [= <-]. destruct (mExtraAllow m) eqn:Hm; [|done]. by eapply R_extra. }
  destruct (pcIsPlatformAdmin c u) as [[[]|e] c1] eqn:Ha; cbn; try done.
  { intros [= <-]. by eapply R_admin. }
  destruct (String.eqb_spec (mAccessScope m) "") as [He|He]; cbn.
  - destruct (pcCheckAnyPermission _ _ _ _ _ _) as [[[]|e] c2] eqn:Hg; cbn; try done.
    intros [= <-]. by eapply R_granted.
  - destruct (String.eqb_spec (mAccessScope m) "workspaces") as [Hws|Hws].
    + destruct (pcGetAccessibleWorkspaceIDs c1 u) eqn:Hids; cbn; [|done].
      intros [= <-]. by eapply R_access_ws.
    + destruct (pcGetAccessibleNamespaceIDs c1 u) eqn:Hids; cbn; [|done].
      intros [= <-]. by eapply R_access_ns.
Qed.

End AuthzFacts.

(** ** Authorization with RBAC *)

Section AuthzRbac.
Context {E : Type}.

(** Within one request the cached entry answers the second call. *)
Lemma loadEntry_stable (load : Z -> result E (list Rbac.UserPermissionRuleRow)) t u c e c' :
  Rbac.loadEntry load t t u c = (Ok e, c') -> Rbac.loadEntry load t t u c' = (Ok e, c').
Proof.
  intros H. destruct (Rbac.loadEntry_result _ _ _ _ _ _ _ H)
    as [(ce & Hce & Hlt & -> & ->) | [_ ->]]; unfold Rbac.loadEntry.
  - rewrite Hce. by destruct (Z.ltb_spec t (Rbac.expiresAt ce)); [|lia].
  - rewrite lookup_insert_eq. cbn. unfold Rbac.rbacCacheTTL.
    by destruct (Z.ltb_spec t (t + 5 * 10 ^ 9)); [|lia].
Qed.

(** The request's decision, once the caller's entry is known. *)
Lemma authz_rbac_eval (c : RBACState E) skip m r u e :
  rUserID r = Some u -> whitelisted skip m = false -> match mExtraAllow m with Some f => f r u | None => false end = false ->
  mAccessScope m = "" ->
  (Rbac.loadEntry (rbLoad c) (rbNow c) (rbNow c) u (rbCache c)).1 = Ok e ->
  (authzMiddleware (Some c) skip m r).1 =
  if Rbac.IsPlatformAdmin e
     || Rbac.HasAnyPermission e (mPermCodes m) (name (Level (routeScope m r)))
          (WorkspaceID (routeScope m r)) (NamespaceID (routeScope m r))
  then ServeNext None
  else Forbidden ("access denied: requires " +++ hd "" (mPermCodes m)).
Proof.
  intros Hu Hw Hx Ha He. unfold authzMiddleware. fold (whitelisted skip m).
  rewrite Hw, Hu, Hx, Ha. cbn [pcIsPlatformAdmin RBACChecker].
  unfold Rbac.CheckIsPlatformAdmin.
  destruct (Rbac.loadEntry (rbLoad c) (rbNow c) (rbNow c) u (rbCache c)) as [x c1] eqn:Hl.
  cbn in He. subst x. cbn [rbind].
  destruct (Rbac.IsPlatformAdmin e); cbn; [done|].
  unfold Rbac.CheckAnyPermission. rewrite (loadEntry_stable _ _ _ _ _ _ Hl). cbn.
  by destruct (Rbac.HasAnyPermission _ _ _ _ _).
Qed.

(** C1: End to end, on an ordinary route (no whitelist, hook or access
    filter) a caller whose bindings are [rows] is served exactly when one
    of the rows is the platform [*:*] row, or applies to the scope the
    route resolved and matches, in either direction, one of the codes the
    route was registered with. *)
Theorem authz_iff_binding (c : RBACState E) skip m r u rows :
  rUserID r = Some u -> whitelisted skip m = false -> mExtraAllow m = None ->
  mAccessScope m = "" ->
  (Rbac.loadEntry (rbLoad c) (rbNow c) (rbNow c) u (rbCache c)).1 = Ok (Rbac.buildEntry rows) ->
  (authzMiddleware (Some c) skip m r).1 = ServeNext None <->
  (exists row, row ∈ rows /\ Rbac.isPlatformRow row /\ Rbac.rowPattern row = "*:*")
  \/ (exists code row, code ∈ mPermCodes m /\ row ∈ rows
        /\ Rbac.applies (name (Level (routeScope m r))) (WorkspaceID (routeScope m r))
             (NamespaceID (routeScope m r)) row
        /\ (Rbac.matches (Rbac.rowPattern row) code \/ Rbac.matches code (Rbac.rowPattern row))).
Proof.
  intros Hu Hw Hx Ha He. rewrite (authz_rbac_eval c skip m r u (Rbac.buildEntry rows)); [|by rewrite ?Hx..].
  rewrite <- Rbac.buildEntry_admin, <- Rbac.HasAnyPermission_iff_row, <- orb_true_iff.
  destruct (_ || _); split; done.
Qed.

End AuthzRbac.

(** ** Tenancy of the handler's context *)

(** The tenancy a handler sees is the tenancy that was authorized: when
    [buildCtx] succeeds, its scope is the one the permission check ran at,
    except on flat item routes of scope-defining resources, where the check
    ran at the scope resolved from the very item id the handler receives. *)
Lemma buildCtx_scope_authorized r m af ctx :
  buildCtx r m af = Ok ctx ->
  match mItemScopeResolver m with
  | Some resolve =>
      if negb (mIDParam m =s "") && (mScopeLevel m =? ScopePlatform)
      then mStringID m = false -> routeScope m r = resolve (cID ctx)
      else routeScope m r = cScope ctx
  | None => routeScope m r = cScope ctx
  end.
Proof.
  unfold buildCtx. intros H.
  apply rbind_Ok in H as (ws & Hws & H). apply rbind_Ok in H as (ns & Hns & H).
  apply rbind_Ok in H as (ps & _ & H). apply rbind_Ok in H as (item & Hit & H).
  injection H as <-. cbn [cScope cID].
  assert (Hfb : {| Level := mScopeLevel m;
      WorkspaceID := if hasBit (mScopeLevel m) (Z.lor ScopeWorkspace ScopeNamespace)
                     then orZero (parsePathID r "workspaceId") else 0;
      NamespaceID := if hasBit (mScopeLevel m) ScopeNamespace
                     then orZero (parsePathID r "namespaceId") else 0 |}
    = {| Level := mScopeLevel m; WorkspaceID := ws; NamespaceID := ns |}).
  { destruct (hasBit (mScopeLevel m) (Z.lor ScopeWorkspace ScopeNamespace)),
      (hasBit (mScopeLevel m) ScopeNamespace); rewrite ?Hws, ?Hns; cbn;
      try injection Hws as <-; try injection Hns as <-; done. }
  unfold routeScope. rewrite Hfb.
  destruct (mItemScopeResolver m) as [resolve|]; [|done].
  destruct (mIDParam m =s ""); cbn [negb andb]; [done|].
  destruct (mScopeLevel m =? ScopePlatform); [|done].
  intros Hs. rewrite Hs in Hit. unfold parsePathID.
  destruct (ParseInt (pathValue r (mIDParam m)) 64); [|done]. by injection Hit as <-.
Qed.

(** ** Sample requests, for witnesses *)

Definition demoRequest (method : string) (uid : option Z) (pv : gmap string string) : Request :=
  {| rMethod := method; rPath := "/api/compute/v1/workspaces/7/hosts"; rDryRun := "";
     rBody := None; rPathValues := pv; rUserID := uid; rUsername := "alice"; rUpgrade := "" |}.

Definition demoMeta : routeMeta := meta (mkReg demoDef None) ScopeWorkspace "list" false.

Definition demoRows : list Rbac.UserPermissionRuleRow :=
  [{| Rbac.rowScope := "workspace"; Rbac.rowWorkspaceID := Some 7; Rbac.rowNamespaceID := None;
      Rbac.rowPattern := "*:list" |}].

Definition demoChecker : RBACState unit :=
  MkRBAC ∅ 100 (fun _ => Ok demoRows) (fun _ => Ok [7]) (fun _ => Ok []).

Definition demoReq : Request := demoRequest "GET" (Some 1) {["workspaceId" := "7"]}.

Lemma authz_iff_binding_witness :
  (authzMiddleware (Some demoChecker) ∅ demoMeta demoReq).1 = ServeNext None.
Proof.
  apply (authz_iff_binding demoChecker ∅ demoMeta demoReq 1 demoRows);
    [reflexivity | reflexivity | reflexivity | reflexivity | by vm_compute |].
  right. exists "compute:hosts:list". eexists.
  split_and!; [by left | by left | | left].
  - right. left. vm_compute. auto.
  - apply (Rbac.m_suffix "list" "compute:hosts"). reflexivity.
Defined.

(** ** Audit (middleware.go) *)

Definition maxBodyCapture : Z := 64 * 1024.

(** [strings.EqualFold(h, "websocket")] on ASCII letters. *)
Definition lowerAscii (c : ascii) : ascii :=
  let n := N_of_ascii c in
  if ((65 <=? n) && (n <=? 90))%N then ascii_of_N (n + 32) else c.

Fixpoint ToLower (s : string) : string :=
  match s with
  | EmptyString => EmptyString
  | String c s' => String (lowerAscii c) (ToLower s')
  end.

Definition auditable (m : routeMeta) (r : Request) : bool :=
  if (rMethod r =s "POST") || (rMethod r =s "PUT") || (rMethod r =s "PATCH")
     || (rMethod r =s "DELETE") then true
  else mInteractive m && (ToLower (rUpgrade r) =s "websocket").

Record Event := MkEvent {
  evAction : string;
  evResourceType : string;
  evModule : string;
  evScope : string;
  evHTTPMethod : string;
  evHTTPPath : string;
  evStatusCode : Z;
  evSuccess : bool;
  evWorkspaceID : option Z;
  evNamespaceID : option Z;
  evUserID : option Z;
  evUsername : string;
  evResourceID : string;
  evDetail : option string;
  evResponseDetail : option string
}.

(** What a handler does to the response writer: set a status, write bytes. *)
Inductive wevent := WriteHeader (code : Z) | Write (b : string).

Definition zlen (s : string) : Z := Z.of_nat (String.length s).

Section Audit.
(** [encoding/json]'s [Valid], and the [metadata.id] of a create response. *)
Variables (jsonValid : string -> bool) (extractCreatedID : string -> string).

Definition captureRequestBody (r : Request) (sensitive : bool) : option string :=
  match rBody r with
  | None => None
  | Some body =>
      if (rMethod r =s "POST") || (rMethod r =s "PUT") || (rMethod r =s "PATCH") then
        let buf := str_take (Z.to_nat (maxBodyCapture + 1)) body in
        if sensitive || (buf =s "") then None
        else if maxBodyCapture <? zlen buf then None
        else if jsonValid buf then Some buf else None
      else None
  end.

Definition positive (x : Z) : option Z := if 0 <? x then Some x else None.

Definition buildAuditEvent (m : routeMeta) (r : Request) (statusCode : Z) : Event :=
  let sc := routeScope m r in
  MkEvent (mVerb m) (mChain m) (mModule m) (name (Level sc)) (rMethod r) (rPath r) statusCode
    ((statusCode =? 101) || ((200 <=? statusCode) && (statusCode <? 400)))
    (positive (WorkspaceID sc)) (positive (NamespaceID sc)) (rUserID r) (rUsername r)
    (if mIDParam m =s "" then "" else pathValue r (mIDParam m)) None None.

Definition setDetail (e : Event) (d : option string) : Event :=
  MkEvent (evAction e) (evResourceType e) (evModule e) (evScope e) (evHTTPMethod e)
    (evHTTPPath e) (evStatusCode e) (evSuccess e) (evWorkspaceID e) (evNamespaceID e)
    (evUserID e) (evUsername e) (evResourceID e) d (evResponseDetail e).

Definition setResponse (e : Event) (d : option string) (rid : string) : Event :=
  MkEvent (evAction e) (evResourceType e) (evModule e) (evScope e) (evHTTPMethod e)
    (evHTTPPath e) (evStatusCode e) (evSuccess e) (evWorkspaceID e) (evNamespaceID e)
    (evUserID e) (evUsername e) rid (evDetail e) d.

(** The writer around the handler: the status so far, the captured body,
    whether the onHeader hook is still armed, and the audit log. *)
Record statusWriter := { swCode : Z; swBuf : string; swArmed : bool; swLog : list Event }.

Definition swStep (m : routeMeta) (r : Request) (detail : option string)
    (sw : statusWriter) (e : wevent) : statusWriter :=
  match e with
  | WriteHeader code =>
      let fire := swArmed sw && (code =? 101) in
      {| swCode := code; swBuf := swBuf sw; swArmed := swArmed sw && negb fire;
         swLog := if fire then swLog sw ++ [setDetail (buildAuditEvent m r code) detail]
                  else swLog sw |}
  | Write b =>
      {| swCode := swCode sw;
         swBuf := if zlen (swBuf sw) <? maxBodyCapture then swBuf sw +++ b else swBuf sw;
         swArmed := swArmed sw; swLog := swLog sw |}
  end.

Definition captured (sw : statusWriter) : string :=
  if maxBodyCapture <? zlen (swBuf sw)
  then str_take (Z.to_nat maxBodyCapture) (swBuf sw) else swBuf sw.

(** [auditMiddleware] around a handler that performs [run] on its writer:
    the events it logs, in order. *)
Definition auditMiddleware (m : routeMeta) (r : Request) (run : list wevent) : list Event :=
  if negb (auditable m r) then []
  else
    let bodyDetail := captureRequestBody r (mSensitive m) in
    let sw := foldl (swStep m r bodyDetail)
                {| swCode := 200; swBuf := ""; swArmed := mInteractive m; swLog := [] |} run in
    if mInteractive m && (swCode sw =? 101) then swLog sw
    else
      let e := setDetail (buildAuditEvent m r (swCode sw)) bodyDetail in
      let resp := captured sw in
      let rd := if negb (mSensitive m) && jsonValid resp then Some resp else None in
      let rid := if (mVerb m =s "create") && (200 <=? swCode sw) && (swCode sw <? 300)
                 then extractCreatedID (swBuf sw) else evResourceID e in
      swLog sw ++ [setResponse e rd rid].

(** The statuses a handler sets. *)
Definition headers (run : list wevent) : list Z :=
  omap (fun e => match e with WriteHeader c => Some c | Write _ => None end) run.

Lemma fold_no_header m r d run sw : headers run = [] ->
  let sw' := foldl (swStep m r d) sw run in
  swCode sw' = swCode sw /\ swLog sw' = swLog sw /\ swArmed sw' = swArmed sw.
Proof.
  revert sw. induction run as [|[c|b] run IH]; intros sw; cbn; [done|done|].
  intros H. exact (IH (swStep m r d sw (Write b)) H).
Qed.

Lemma fold_one_header m r d run sw c : headers run = [c] ->
  let sw' := foldl (swStep m r d) sw run in
  swCode sw' = c
  /\ swLog sw' = if swArmed sw && (c =? 101)
                 then swLog sw ++ [setDetail (buildAuditEvent m r c) d] else swLog sw.
Proof.
  revert sw. induction run as [|[c'|b] run IH]; intros sw; cbn; [done| |].
  - intros [= -> H].
    destruct (fold_no_header m r d run (swStep m r d sw (WriteHeader c)) H) as (Hc & Hl & _).
    split; [exact Hc | exact Hl].
  - intros H. exact (IH (swStep m r d sw (Write b)) H).
Qed.

(** A write request, or an interactive WebSocket upgrade, leaves exactly
    one audit event, carrying the status the handler set (200 if it set
    none); a session that was upgraded is not recorded a second time when
    its handler returns. Handlers set the status at most once. *)
Lemma audited_exactly_once m r run :
  auditable m r = true -> (length (headers run) <= 1)%nat ->
  exists e, auditMiddleware m r run = [e]
    /\ evStatusCode e = hd 200 (headers run)
    /\ evAction e = mVerb m /\ evUserID e = rUserID r.
Proof.
  intros Ha Hh. unfold auditMiddleware. rewrite Ha. cbn [negb].
  set (d := captureRequestBody r (mSensitive m)).
  set (sw0 := {| swCode := 200; swBuf := ""; swArmed := mInteractive m; swLog := [] |}).
  destruct (headers run) as [|c [|? ?]] eqn:Eh; [| |cbn in Hh; lia].
  - destruct (fold_no_header m r d run sw0 Eh) as (-> & -> & _). cbn.
    rewrite andb_false_r. eexists. split; [done|]. done.
  - destruct (fold_one_header m r d run sw0 c Eh) as (-> & ->). cbn.
    destruct (mInteractive m && (c =? 101)) eqn:Ei; cbn; eexists; (split; [done|]); done.
Qed.

Lemma swLog_details m r d run sw :
  (forall e, e ∈ swLog sw -> evDetail e = d /\ evResponseDetail e = None) ->
  forall e, e ∈ swLog (foldl (swStep m r d) sw run) ->
    evDetail e = d /\ evResponseDetail e = None.
Proof.
  revert sw. induction run as [|[c|b] run IH]; intros sw Hsw; cbn; [done| |].
  - apply IH. cbn. destruct (swArmed sw && (c =? 101)); [|done].
    intros e. rewrite elem_of_app, list_elem_of_singleton. intros [?| ->]; [by apply Hsw | done].
  - by apply IH.
Qed.

Lemma str_take_length n s : (String.length (str_take n s) <= n)%nat.
Proof.
  revert s. induction n as [|n IH]; intros [|c s]; cbn; try lia. specialize (IH s). lia.
Qed.

Lemma captureRequestBody_bound r sens b :
  captureRequestBody r sens = Some b -> sens = false /\ zlen b <= maxBodyCapture.
Proof.
  unfold captureRequestBody. generalize (Z.to_nat (maxBodyCapture + 1)) as n. intros n.
  destruct (rBody r) as [body|]; [|done]. destruct (_ || _); [|done]. destruct sens; cbn [orb]; [done|].
  destruct (_ =s ""); [done|]. destruct (Z.ltb_spec maxBodyCapture
    (zlen (str_take n body))); [done|].
  destruct (jsonValid _); [|done]. by intros [= <-].
Qed.

Lemma captured_bound sw : zlen (captured sw) <= maxBodyCapture.
Proof.
  unfold captured. destruct (Z.ltb_spec maxBodyCapture (zlen (swBuf sw))); [|lia].
  unfold zlen. pose proof (str_take_length (Z.to_nat maxBodyCapture) (swBuf sw)).
  assert (0 <= maxBodyCapture) by (unfold maxBodyCapture; lia). lia.
Qed.

(** What the audit log may hold. An event never carries more than 64 KiB
    of request or of response body, and on a route marked sensitive it
    carries neither, whatever the handler writes. *)
Lemma audit_details_bounded m r run e :
  e ∈ auditMiddleware m r run ->
  (forall b, evDetail e = Some b \/ evResponseDetail e = Some b -> zlen b <= maxBodyCapture)
  /\ (mSensitive m = true -> evDetail e = None /\ evResponseDetail e = None).
Proof.
  unfold auditMiddleware. destruct (auditable m r); cbn [negb]; [|by intros H%elem_of_nil].
  set (d := captureRequestBody r (mSensitive m)).
  set (sw0 := {| swCode := 200; swBuf := ""; swArmed := mInteractive m; swLog := [] |}).
  set (sw := foldl (swStep m r d) sw0 run).
  assert (Hlog : forall e, e ∈ swLog sw -> evDetail e = d /\ evResponseDetail e = None).
  { apply swLog_details. intros e' He'. by apply elem_of_nil in He'. }
  assert (Hd : forall b, d = Some b -> mSensitive m = false /\ zlen b <= maxBodyCapture).
  { intros b. apply captureRequestBody_bound. }
  assert (HdS : mSensitive m = true -> d = None).
  { intros Hs. destruct d as [b|]; [|done]. destruct (Hd b eq_refl). congruence. }
  assert (Hfst : e ∈ swLog sw ->
    (forall b, evDetail e = Some b \/ evResponseDetail e = Some b -> zlen b <= maxBodyCapture)
    /\ (mSensitive m = true -> evDetail e = None /\ evResponseDetail e = None)).
  { intros He. destruct (Hlog e He) as [-> ->]. split; [|auto].
    intros b [Hb|Hb]; [by apply Hd | done]. }
  destruct (mInteractive m && (swCode sw =? 101)); [done|].
  rewrite elem_of_app, list_elem_of_singleton. intros [He | ->]; [by apply Hfst|].
  cbn [evDetail evResponseDetail setResponse setDetail]. split.
  - intros b [Hb | Hb]; [by apply Hd|].
    destruct (_ && _); [|done]. injection Hb as <-. apply captured_bound.
  - intros Hs. rewrite Hs. cbn. auto.
Qed.

End Audit.

Definition demoExec : routeMeta :=
  actionMeta demoDef (mkReg demoDef None) ScopeWorkspace
    {| aName := "exec"; aMethod := "GET"; aOnItem := true; aStatusCode := 0;
       aSensitive := false; aInteractive := true; aPermission := ["compute:hosts:exec"];
       aHandler := true |}.

Definition demoUpgrade : Request :=
  {| rMethod := "GET"; rPath := "/api/compute/v1/workspaces/7/hosts/3/exec"; rDryRun := "";
     rBody := None; rPathValues := {["workspaceId" := "7"; "hostId" := "3"]};
     rUserID := Some 1; rUsername := "alice"; rUpgrade := "WebSocket" |}.

End Serve.
