(* ===== verification/ListQuery.v ===== *)
(** * List queries: pagination, filters and LIKE escaping

    Models [lib/list/list.go], [lib/list/filters.go] and the query parsing
    of [lib/rest/options.go] with [parseListQuery] of [lib/apiserver/wrap.go].
    Go's [int] is 64 bits wide. *)

From S2P Require Import Prelude.

Module ListQ.

(** ** Pagination *)

Record Pagination := { Page : Z; PageSize : Z; SortBy : string; SortOrder : string }.

(** [PaginationToOffsetLimitWithMax]: (offset, limit), both int32. *)
Definition PaginationToOffsetLimitWithMax (p : Pagination) (maxPageSize : Z) : Z * Z :=
  let maxPageSize := if maxPageSize <? 1 then 100 else maxPageSize in
  let page := if Page p <? 1 then 1 else Page p in
  let pageSize := if PageSize p <? 1 then 20 else PageSize p in
  let pageSize := if maxPageSize <? int32 pageSize then maxPageSize else pageSize in
  (int32 (int64 ((page - 1) * pageSize)), int32 pageSize).

Definition PaginationToOffsetLimit (p : Pagination) : Z * Z :=
  PaginationToOffsetLimitWithMax p 100.

(** The values a filter map may hold ([map[string]any]). *)
Inductive any :=
| VString (s : string)
| VInt32 (z : Z)
| VInt64 (z : Z)
| VBool (b : bool)
| VInt64s (l : list Z)
| VStrings (l : list string).

Record Query := {
  Filters : gmap string any;
  qPagination : Pagination;
  qMaxPageSize : Z
}.

Definition OffsetLimit (q : Query) : Z * Z :=
  if 0 <? qMaxPageSize q then PaginationToOffsetLimitWithMax (qPagination q) (qMaxPageSize q)
  else PaginationToOffsetLimit (qPagination q).

(** ** Parsing the URL query (options.go)

    [url.Values] as a finite map from keys to their values in order. *)

Definition ReservedQueryParams : list string := ["page"; "page_size"; "sort_by"; "sort_order"].

Definition qget (query : gmap string (list string)) (key : string) : string :=
  match query !! key with
  | Some (v :: _) => v
  | _ => ""
  end.

(** [strconv.Atoi], accepted when positive; otherwise the default stays. *)
Definition positiveOr (raw : string) (dflt : Z) : Z :=
  if raw =s "" then dflt
  else match ParseInt raw 64 with
       | Some p => if 0 <? p then p else dflt
       | None => dflt
       end.

Definition filterValues (query : gmap string (list string)) : gmap string string :=
  omap (fun vs : list string => head vs)
    (filter (fun kv => kv.1 ∉ ReservedQueryParams) query).

(** [ParseListOptions] followed by [parseListQuery]. *)
Definition parseListQuery (query : gmap string (list string)) (maxPageSize : Z) : Query :=
  {| Filters := VString <$> filterValues query;
     qPagination := {| Page := positiveOr (qget query "page") 1;
                       PageSize := positiveOr (qget query "page_size") 20;
                       SortBy := qget query "sort_by";
                       SortOrder := qget query "sort_order" |};
     qMaxPageSize := maxPageSize |}.

(** ** LIKE escaping *)

Definition EscapeLikePattern (s : string) : string :=
  let s := ReplaceAll s "\" "\\" in
  let s := ReplaceAll s "%" "\%" in
  ReplaceAll s "_" "\_".

(** ** Filter extraction (filters.go) *)

Definition FilterStr (filters : gmap string any) (key : string) : option string :=
  match filters !! key with
  | Some (VString s) =>
      if s =s "" then None
      else Some (if key =s "search" then EscapeLikePattern s else s)
  | _ => None
  end.

Definition FilterInt32 (filters : gmap string any) (key : string) : option Z :=
  match filters !! key with
  | Some (VInt32 z) => Some z
  | Some (VInt64 z) => Some (int32 z)
  | Some (VString s) => ParseInt s 32
  | _ => None
  end.

Definition FilterInt64 (filters : gmap string any) (key : string) : option Z :=
  match filters !! key with
  | Some (VInt64 z) => Some z
  | Some (VString s) => ParseInt s 64
  | _ => None
  end.

Definition FilterInt64Slice (filters : gmap string any) (key : string) : option (list Z) :=
  match filters !! key with
  | Some (VInt64s l) => Some l
  | _ => None
  end.

(** [strings.TrimSpace] on ASCII white space. *)
Definition is_space (c : ascii) : bool :=
  let n := N_of_ascii c in (((9 <=? n) && (n <=? 13)) || (n =? 32))%N.

Fixpoint trim_left (s : string) : string :=
  match s with
  | String c s' => if is_space c then trim_left s' else s
  | EmptyString => EmptyString
  end.

Fixpoint trim_right (s : string) : string :=
  match s with
  | EmptyString => EmptyString
  | String c s' =>
      match trim_right s' with
      | EmptyString => if is_space c then EmptyString else String c EmptyString
      | r => String c r
      end
  end.

Definition TrimSpace (s : string) : string := trim_right (trim_left s).

(** [None] is the nil slice. *)
Definition filterStrSliceTrim (parts : list string) : option (list string) :=
  match filter (fun s => s <> "") (TrimSpace <$> parts) with
  | [] => None
  | out => Some out
  end.

Definition FilterStrSlice (filters : gmap string any) (key : string) : option (list string) :=
  match filters !! key with
  | Some (VStrings val) => filterStrSliceTrim val
  | Some (VString val) => if val =s "" then None else filterStrSliceTrim (Split val ",")
  | _ => None
  end.

(** [strconv.ParseBool]. *)
Definition ParseBool (s : string) : option bool :=
  if bool_decide (s ∈ ["1"; "t"; "T"; "TRUE"; "true"; "True"]) then Some true
  else if bool_decide (s ∈ ["0"; "f"; "F"; "FALSE"; "false"; "False"]) then Some false
  else None.

Definition FilterBool (filters : gmap string any) (key : string) : option bool :=
  match filters !! key with
  | Some (VBool b) => Some b
  | Some (VString s) => ParseBool s
  | _ => None
  end.

(** ** Pagination: bounds *)

Lemma int32_small x : 0 <= x < 2 ^ 31 -> int32 x = x.
Proof. intros H. apply int32_id. unfold in_int32. lia. Qed.

Lemma int64_small x : 0 <= x < 2 ^ 63 -> int64 x = x.
Proof. intros H. apply int64_id. unfold in_int64. lia. Qed.

(** The effective page size, page and cap. *)
Definition effCap (maxPageSize : Z) : Z := if maxPageSize <? 1 then 100 else maxPageSize.
Definition effPage (p : Pagination) : Z := if Page p <? 1 then 1 else Page p.
Definition effSize (p : Pagination) : Z := if PageSize p <? 1 then 20 else PageSize p.

Lemma effCap_pos m : 1 <= effCap m.
Proof. unfold effCap. destruct (Z.ltb_spec m 1); lia. Qed.
Lemma effPage_pos p : 1 <= effPage p.
Proof. unfold effPage. destruct (Z.ltb_spec (Page p) 1); lia. Qed.
Lemma effSize_pos p : 1 <= effSize p.
Proof. unfold effSize. destruct (Z.ltb_spec (PageSize p) 1); lia. Qed.

(** For page sizes below 2^31 the limit is the smaller of the requested
    size (default 20) and the cap (default 100), so between 1 and the cap;
    and as long as the product fits an int32 the offset is exactly
    (page - 1) * limit, never negative: page n+1 starts where page n ends. *)
Lemma offset_limit_exact p maxPageSize :
  effSize p < 2 ^ 31 -> maxPageSize < 2 ^ 31 ->
  let limit := Z.min (effSize p) (effCap maxPageSize) in
  (PaginationToOffsetLimitWithMax p maxPageSize).2 = limit
  /\ 1 <= limit <= effCap maxPageSize
  /\ ((effPage p - 1) * limit < 2 ^ 31 ->
      (PaginationToOffsetLimitWithMax p maxPageSize).1 = (effPage p - 1) * limit).
Proof.
  intros Hs Hm limit. unfold limit, PaginationToOffsetLimitWithMax.
  fold (effCap maxPageSize) (effPage p) (effSize p).
  pose proof (effCap_pos maxPageSize). pose proof (effPage_pos p). pose proof (effSize_pos p).
  assert (effCap maxPageSize < 2 ^ 31).
  { unfold effCap. destruct (Z.ltb_spec maxPageSize 1); lia. }
  rewrite (int32_small (effSize p)) by lia.
  destruct (Z.ltb_spec (effCap maxPageSize) (effSize p)) as [Hlt|Hge]; cbn [fst snd].
  - rewrite Z.min_r by lia. rewrite (int32_small (effCap maxPageSize)) by lia.
    split_and!; [done|lia|lia|]. intros Hp.
    rewrite int64_small by nia. rewrite int32_small by nia. done.
  - rewrite Z.min_l by lia. rewrite (int32_small (effSize p)) by lia.
    split_and!; [done|lia|lia|]. intros Hp.
    rewrite int64_small by nia. rewrite int32_small by nia. done.
Qed.

(** The cap is never exceeded, whatever the request asks for: the limit
    is at most the cap for every page size a request can carry. *)
Lemma limit_never_exceeds_cap p maxPageSize :
  maxPageSize < 2 ^ 31 ->
  (PaginationToOffsetLimitWithMax p maxPageSize).2 <= effCap maxPageSize.
Proof.
  intros Hm. unfold PaginationToOffsetLimitWithMax.
  fold (effCap maxPageSize) (effPage p) (effSize p). cbn [snd].
  pose proof (effCap_pos maxPageSize).
  assert (effCap maxPageSize < 2 ^ 31).
  { unfold effCap. destruct (Z.ltb_spec maxPageSize 1); lia. }
  destruct (Z.ltb_spec (effCap maxPageSize) (int32 (effSize p))); [|lia].
  rewrite int32_small by lia. lia.
Qed.

(** The conversions to int32 happen before the values are checked, so
    large numbers in the URL slip through: [?page_size=2147483648] is not
    capped and yields a negative limit, and [?page=21474838&page_size=100]
    yields a negative offset. *)
Lemma pagination_wraps_negative :
  (OffsetLimit (parseListQuery {["page_size" := ["2147483648"]]} 0)).2 = - 2147483648
  /\ (OffsetLimit (parseListQuery {["page" := ["21474838"]; "page_size" := ["100"]]} 0)).1
     = - 2147483596.
Proof. split; by vm_compute. Qed.

(** ** LIKE: the escaped pattern matches only the string itself

    SQL's LIKE with backslash as the escape character. *)
Inductive like : string -> string -> Prop :=
| like_nil : like "" ""
| like_percent_skip p t : like p t -> like (String "%" p) t
| like_percent_take p c t : like (String "%" p) t -> like (String "%" p) (String c t)
| like_underscore p c t : like p t -> like (String "_" p) (String c t)
| like_escape c p t : like p t -> like (String "\" (String c p)) (String c t)
| like_literal c p t :
    c <> "%"%char -> c <> "_"%char -> c <> "\"%char -> like p t -> like (String c p) (String c t).

(** One character at a time, the three replacements amount to one pass. *)
Definition escapeChar (c : ascii) : string :=
  if Ascii.eqb c "\" then "\\" else if Ascii.eqb c "%" then "\%"
  else if Ascii.eqb c "_" then "\_" else String c "".

Fixpoint escapeAll (s : string) : string :=
  match s with
  | EmptyString => ""
  | String c s' => escapeChar c +++ escapeAll s'
  end.

Lemma ReplaceAll_app a b old new :
  ReplaceAll (a +++ b) old new = ReplaceAll a old new +++ ReplaceAll b old new.
Proof.
  induction a as [|c a IH]; cbn; [done|].
  destruct (Ascii.eqb c old); rewrite IH; [by rewrite app_assoc_s | done].
Qed.

Lemma EscapeLikePattern_escapeAll s : EscapeLikePattern s = escapeAll s.
Proof.
  unfold EscapeLikePattern. induction s as [|c s IH]; [done|].
  cbn [escapeAll]. rewrite <- IH. unfold escapeChar. cbn [ReplaceAll].
  destruct (Ascii.eqb_spec c "\") as [->|H1]; [by rewrite !ReplaceAll_app|].
  cbn [ReplaceAll]. destruct (Ascii.eqb_spec c "%") as [->|H2]; [by rewrite !ReplaceAll_app|].
  cbn [ReplaceAll]. destruct (Ascii.eqb_spec c "_") as [->|H3]; done.
Qed.

(** A LIKE pattern that starts with an escaped character. *)
Lemma like_escapeChar_inv c p t : like (escapeChar c +++ p) t -> exists t', t = String c t' /\ like p t'.
Proof.
  unfold escapeChar.
  destruct (Ascii.eqb_spec c "\") as [->|H1]; [|destruct (Ascii.eqb_spec c "%") as [->|H2];
    [|destruct (Ascii.eqb_spec c "_") as [->|H3]]]; cbn; intros H; inversion H; subst; eauto;
    congruence.
Qed.

Lemma like_escapeChar c p t : like p t -> like (escapeChar c +++ p) (String c t).
Proof.
  intros H. unfold escapeChar.
  destruct (Ascii.eqb_spec c "\") as [->|H1]; [|destruct (Ascii.eqb_spec c "%") as [->|H2];
    [|destruct (Ascii.eqb_spec c "_") as [->|H3]]]; cbn; by constructor.
Qed.

(** [EscapeLikePattern] neutralises every LIKE metacharacter: as a
    pattern, the escaped string matches the original string and nothing
    else. *)
Lemma EscapeLikePattern_literal s t : like (EscapeLikePattern s) t <-> t = s.
Proof.
  rewrite EscapeLikePattern_escapeAll. revert t. induction s as [|c s IH]; intros t; cbn.
  - split; [by inversion 1 | intros ->; constructor].
  - split.
    + intros (t' & -> & H)%like_escapeChar_inv. by apply IH in H as ->.
    + intros ->. by apply like_escapeChar, IH.
Qed.

(** ** Filters *)

Lemma filterStrSliceTrim_spec parts :
  match filterStrSliceTrim parts with
  | Some out => out <> [] /\ forall s, s ∈ out <-> s <> "" /\ exists p, p ∈ parts /\ s = TrimSpace p
  | None => forall p, p ∈ parts -> TrimSpace p = ""
  end.
Proof.
  unfold filterStrSliceTrim.
  assert (Hin : forall s, s ∈ filter (fun s => s <> "") (TrimSpace <$> parts) <->
            s <> "" /\ exists p, p ∈ parts /\ s = TrimSpace p).
  { intros s. rewrite list_elem_of_filter, list_elem_of_fmap. firstorder. }
  destruct (filter _ _) as [|a l].
  - intros p Hp. destruct (decide (TrimSpace p = "")) as [|Hn]; [done|].
    exfalso. specialize (Hin (TrimSpace p)). rewrite elem_of_nil in Hin. apply Hin. eauto.
  - split; [done|]. exact Hin.
Qed.

(** A string-list filter, given as a list or as a comma-separated value,
    yields exactly the trimmed non-blank parts, and "no filter" exactly
    when every part is blank: a filter that is present never degrades to an
    empty list. *)
Lemma FilterStrSlice_spec filters key :
  match FilterStrSlice filters key with
  | Some out =>
      out <> [] /\ exists parts,
        (filters !! key = Some (VStrings parts)
         \/ exists v, filters !! key = Some (VString v) /\ parts = Split v ",")
        /\ forall s, s ∈ out <-> s <> "" /\ exists p, p ∈ parts /\ s = TrimSpace p
  | None =>
      forall parts,
        (filters !! key = Some (VStrings parts)
         \/ exists v, filters !! key = Some (VString v) /\ parts = Split v ",") ->
        forall p, p ∈ parts -> TrimSpace p = ""
  end.
Proof.
  unfold FilterStrSlice.
  assert (Hl : forall parts, match filterStrSliceTrim parts with
    | Some out => out <> [] /\ forall s, s ∈ out <-> s <> "" /\ exists p, p ∈ parts /\ s = TrimSpace p
    | None => forall p, p ∈ parts -> TrimSpace p = "" end) by apply filterStrSliceTrim_spec.
  destruct (filters !! key) as [[v|?|?|?|?|l]|];
    try (intros parts [H | (? & H & _)]; discriminate).
  - destruct (String.eqb_spec v "") as [->|Hv].
    + intros parts [H | (? & [= <-] & ->)]; [done|]. intros p Hp.
      cbn in Hp. by apply list_elem_of_singleton in Hp as ->.
    + specialize (Hl (Split v ",")). destruct (filterStrSliceTrim _) as [out|].
      * destruct Hl as [? ?]. split; [done|]. exists (Split v ","). eauto.
      * intros parts [H | (? & [= <-] & ->)]; done.
  - specialize (Hl l). destruct (filterStrSliceTrim _) as [out|].
    + destruct Hl as [? ?]. split; [done|]. eauto.
    + intros parts [[= <-] | (? & H & _)]; done.
Qed.

End ListQ.
