(* ===== verification/StatusHub.v ===== *)
(** * The status hub: scope-routed fan-out to watchers

    Models [lib/statushub/hub.go]. A hub keeps, per scope key, the set of
    subscribed channels; channels are buffered and a full one drops the
    event. [Unsubscribe] removes the channel under the lock and closes it
    after releasing the lock, so the two are separate steps here. Sending on
    or closing a closed channel panics in Go and is [None]. *)

From S2P Require Import Prelude.

Module Hub.

Definition channelBufferSize : nat := 64.

Record Event := {
  EntityType : string;
  EntityID : Z;
  Deleted : bool;
  Scope : string;
  WorkspaceID : option Z;
  NamespaceID : option Z
}.

Definition wsKey (ws : Z) : string := "ws:" +++ FormatInt ws.
Definition nsKey (ws ns : Z) : string := "ns:" +++ FormatInt ws +++ ":" +++ FormatInt ns.

Definition visibilityKeys (event : Event) : list string :=
  if Scope event =s "namespace" then
    match WorkspaceID event, NamespaceID event with
    | Some ws, Some ns => [nsKey ws ns; wsKey ws; "platform"]
    | _, _ => ["platform"]
    end
  else if Scope event =s "workspace" then
    match WorkspaceID event with
    | Some ws => [wsKey ws; "platform"]
    | None => ["platform"]
    end
  else ["platform"].

Definition ScopeKey (scope : string) (wsID nsID : option Z) : string :=
  if scope =s "workspace" then
    match wsID with Some ws => wsKey ws | None => "platform" end
  else if scope =s "namespace" then
    match wsID, nsID with Some ws, Some ns => nsKey ws ns | _, _ => "platform" end
  else "platform".

(** A subscription's channel: its buffered events, whether it is closed,
    and whether its [sync.Once] has fired. *)
Record chan := { buf : list Event; closed : bool; once : bool; key : string }.

Record hub := {
  subscribers : gmap string (gset nat);
  chans : gmap nat chan
}.

Definition New : hub := {| subscribers := ∅; chans := ∅ |}.

Definition setChans (h : hub) (cs : gmap nat chan) : hub :=
  {| subscribers := subscribers h; chans := cs |}.

(** [select { case *chp <- event: default: }]. *)
Definition trySend (event : Event) (cs : gmap nat chan) (id : nat) : option (gmap nat chan) :=
  match cs !! id with
  | None => Some cs
  | Some c =>
      if closed c then None
      else if (length (buf c) <? channelBufferSize)%nat
           then Some (<[id := {| buf := buf c ++ [event]; closed := closed c;
                                 once := once c; key := key c |}]> cs)
           else Some cs
  end.

Fixpoint sendAll (event : Event) (ids : list nat) (cs : gmap nat chan) : option (gmap nat chan) :=
  match ids with
  | [] => Some cs
  | id :: rest =>
      match trySend event cs id with
      | None => None
      | Some cs' => sendAll event rest cs'
      end
  end.

Definition subs (h : hub) (k : string) : gset nat := default ∅ (subscribers h !! k).

Definition Publish (h : hub) (event : Event) : option hub :=
  setChans h <$>
    sendAll event (concat ((fun k => elements (subs h k)) <$> visibilityKeys event)) (chans h).

(** [Subscribe] on a fresh channel [id]. *)
Definition Subscribe (h : hub) (scope : string) (id : nat) : hub :=
  {| subscribers := <[scope := {[id]} ∪ subs h scope]> (subscribers h);
     chans := <[id := {| buf := []; closed := false; once := false; key := scope |}]> (chans h) |}.

(** The locked half of [unsubscribe], inside the Once. *)
Definition unsubscribeDelete (h : hub) (id : nat) (c : chan) : hub :=
  let scope := key c in
  let subscribers' :=
    match subscribers h !! scope with
    | None => subscribers h
    | Some s =>
        let s' := s ∖ {[id]} in
        if decide (s' = ∅) then delete scope (subscribers h)
        else <[scope := s']> (subscribers h)
    end in
  {| subscribers := subscribers';
     chans := <[id := {| buf := buf c; closed := closed c; once := true; key := key c |}]> (chans h) |}.

(** [close(c)]: a second close panics. *)
Definition closeChan (h : hub) (id : nat) (c : chan) : option hub :=
  if closed c then None
  else Some (setChans h
    (<[id := {| buf := buf c; closed := true; once := once c; key := key c |}]> (chans h))).

(** ** Interleavings of subscribers, publishers and readers

    The Once runs the closure a single time, so its deletion is enabled
    while the flag is unset, and its [close] is the one step left between
    the deletion and the closed channel. *)
Inductive hstep : hub -> hub -> Prop :=
| hs_subscribe h scope id :
    chans h !! id = None -> hstep h (Subscribe h scope id)
| hs_publish h ev h' :
    Publish h ev = Some h' -> hstep h h'
| hs_unsubscribe h id c :
    chans h !! id = Some c -> once c = false -> hstep h (unsubscribeDelete h id c)
| hs_close h id c h' :
    chans h !! id = Some c -> once c = true -> closed c = false ->
    closeChan h id c = Some h' -> hstep h h'
| hs_receive h id c ev rest :
    chans h !! id = Some c -> buf c = ev :: rest ->
    hstep h (setChans h (<[id := {| buf := rest; closed := closed c; once := once c;
                                    key := key c |}]> (chans h))).

(** A channel is registered, under its own key and no other, exactly until
    its unsubscribe has run; a channel is closed only after that; buffers
    stay within their capacity; no key holds an empty set. *)
Definition hub_ok (h : hub) : Prop :=
  (forall k id, id ∈ subs h k <->
     exists c, chans h !! id = Some c /\ key c = k /\ once c = false)
  /\ (forall id c, chans h !! id = Some c -> closed c = true -> once c = true)
  /\ (forall id c, chans h !! id = Some c -> (length (buf c) <= channelBufferSize)%nat)
  /\ (forall k, subscribers h !! k <> Some ∅).

(** ** Tenancy: who sees what *)

Inductive tenancy := TPlatform | TWorkspace (ws : Z) | TNamespace (ws ns : Z).

Definition tenancyOf (scope : string) (ws ns : option Z) : tenancy :=
  if scope =s "workspace" then match ws with Some w => TWorkspace w | None => TPlatform end
  else if scope =s "namespace" then
    match ws, ns with Some w, Some n => TNamespace w n | _, _ => TPlatform end
  else TPlatform.

(** An entity is seen from its own level and from every level above. *)
Definition sees (viewer entity : tenancy) : Prop :=
  match viewer, entity with
  | TPlatform, _ => True
  | TWorkspace w, TWorkspace w' => w = w'
  | TWorkspace w, TNamespace w' _ => w = w'
  | TNamespace w n, TNamespace w' n' => w = w' /\ n = n'
  | _, _ => False
  end.

Definition keyOf (t : tenancy) : string :=
  match t with
  | TPlatform => "platform"
  | TWorkspace w => wsKey w
  | TNamespace w n => nsKey w n
  end.

#[export] Instance keyOf_inj : Inj (=) (=) keyOf.
Proof.
  intros [|w|w n] [|w'|w' n']; cbn; try done; unfold wsKey, nsKey; cbn.
  - intros [= H]. f_equal. by apply FormatInt_inj.
  - intros [= H]. apply (sep_split_inj ":") in H as [Hw Hn];
      [|by apply FormatInt_not_in..].
    by rewrite (FormatInt_inj _ _ Hw), (FormatInt_inj _ _ Hn).
Qed.

Lemma ScopeKey_keyOf scope ws ns : ScopeKey scope ws ns = keyOf (tenancyOf scope ws ns).
Proof.
  unfold ScopeKey, tenancyOf.
  destruct (scope =s "workspace"), (scope =s "namespace"), ws, ns; done.
Qed.

Definition tenancyOfEvent (e : Event) : tenancy :=
  tenancyOf (Scope e) (WorkspaceID e) (NamespaceID e).

(** The levels an entity is seen from, innermost first. *)
Definition chainOf (t : tenancy) : list tenancy :=
  match t with
  | TPlatform => [TPlatform]
  | TWorkspace w => [TWorkspace w; TPlatform]
  | TNamespace w n => [TNamespace w n; TWorkspace w; TPlatform]
  end.

Lemma chainOf_sees v t : v ∈ chainOf t <-> sees v t.
Proof.
  destruct t, v; cbn; rewrite ?elem_of_cons, elem_of_nil; intuition congruence.
Qed.

Lemma visibilityKeys_chain e : visibilityKeys e = keyOf <$> chainOf (tenancyOfEvent e).
Proof.
  unfold visibilityKeys, tenancyOfEvent, tenancyOf.
  destruct (String.eqb_spec (Scope e) "namespace") as [->|Hn];
    [|destruct (Scope e =s "workspace")]; by destruct (WorkspaceID e), (NamespaceID e).
Qed.

Lemma visibilityKeys_keyOf t e : keyOf t ∈ visibilityKeys e <-> sees t (tenancyOfEvent e).
Proof.
  rewrite visibilityKeys_chain, list_elem_of_fmap, <- chainOf_sees. split.
  - intros (t' & H & ?). by apply keyOf_inj in H as ->.
  - intros H. by exists t.
Qed.

Lemma visibilityKeys_NoDup e : NoDup (visibilityKeys e).
Proof.
  rewrite visibilityKeys_chain. apply (NoDup_fmap_2 keyOf).
  destruct (tenancyOfEvent e); cbn; repeat constructor; set_solver.
Qed.

(** ** Delivery *)

Definition deliver (ev : Event) (c : chan) : chan :=
  if (length (buf c) <? channelBufferSize)%nat
  then {| buf := buf c ++ [ev]; closed := closed c; once := once c; key := key c |} else c.

Lemma trySend_open ev cs id :
  (forall c, cs !! id = Some c -> closed c = false) ->
  exists cs', trySend ev cs id = Some cs'
    /\ forall j, cs' !! j = if decide (j = id) then deliver ev <$> cs !! j else cs !! j.
Proof.
  intros Ho. unfold trySend. destruct (cs !! id) as [c|] eqn:Hc.
  - rewrite (Ho c eq_refl).
    assert (Hd : deliver ev c = if (length (buf c) <? channelBufferSize)%nat
      then {| buf := buf c ++ [ev]; closed := false; once := once c; key := key c |} else c).
    { unfold deliver. by rewrite (Ho c eq_refl). }
    destruct (length (buf c) <? channelBufferSize)%nat.
    + eexists. split; [done|]. intros j. rewrite lookup_insert.
      repeat case_decide; subst; try done. by rewrite Hc, <- Hd.
    + eexists. split; [done|]. intros j. case_decide; [|done]. subst.
      rewrite Hc. cbn [fmap option_fmap option_map]. by rewrite Hd.
  - eexists. split; [done|]. intros j. case_decide; [|done]. subst. by rewrite Hc.
Qed.

Lemma deliver_closed ev c : closed (deliver ev c) = closed c.
Proof. unfold deliver. by case_match. Qed.

Lemma sendAll_spec ev ids cs :
  NoDup ids -> (forall id c, id ∈ ids -> cs !! id = Some c -> closed c = false) ->
  exists cs', sendAll ev ids cs = Some cs'
    /\ forall j, cs' !! j = if decide (j ∈ ids) then deliver ev <$> cs !! j else cs !! j.
Proof.
  intros Hnd. revert cs. induction Hnd as [|id ids Hid Hnd IH]; intros cs Ho; cbn.
  - exists cs. split; [done|]. intros j. by rewrite decide_False by apply not_elem_of_nil.
  - destruct (trySend_open ev cs id) as (cs1 & -> & H1).
    { intros c. apply Ho. by left. }
    destruct (IH cs1) as (cs2 & Hs & H2).
    { intros j c Hj. rewrite H1. rewrite decide_False by (by intros ->).
      apply Ho. by right. }
    exists cs2. split; [done|]. intros j. rewrite H2, H1.
    destruct (decide (j = id)) as [->|Hne].
    + rewrite decide_False by done. by rewrite decide_True by left.
    + destruct (decide (j ∈ ids)) as [Hj|Hj].
      * by rewrite decide_True by (by right).
      * rewrite decide_False; [done|]. rewrite elem_of_cons. tauto.
Qed.

(** The channels a publish reaches. *)
Definition targets (h : hub) (ev : Event) : list nat :=
  concat ((fun k => elements (subs h k)) <$> visibilityKeys ev).

Lemma targets_elem h ev id : hub_ok h ->
  id ∈ targets h ev <->
  exists c, chans h !! id = Some c /\ once c = false /\ key c ∈ visibilityKeys ev.
Proof.
  intros (Hs & _). unfold targets. rewrite elem_of_concat_fmap.
  setoid_rewrite elem_of_elements. setoid_rewrite Hs. naive_solver.
Qed.

Lemma targets_NoDup h ev : hub_ok h -> NoDup (targets h ev).
Proof.
  intros (Hs & _). apply NoDup_concat_fmap.
  - apply visibilityKeys_NoDup.
  - intros k. apply NoDup_elements.
  - intros k1 k2 id. rewrite !elem_of_elements, !Hs. naive_solver.
Qed.

Lemma Publish_spec h ev : hub_ok h ->
  exists h', Publish h ev = Some h' /\ subscribers h' = subscribers h
    /\ forall j, chans h' !! j =
         if decide (j ∈ targets h ev) then deliver ev <$> chans h !! j else chans h !! j.
Proof.
  intros Hok. unfold Publish. fold (targets h ev).
  destruct (sendAll_spec ev (targets h ev) (chans h)) as (cs & Hsend & Hcs).
  - by apply targets_NoDup.
  - intros id c Hid Hc. apply (targets_elem h ev id Hok) in Hid as (c' & Hc' & Hon & _).
    assert (c' = c) as -> by congruence. destruct Hok as (_ & Hcl & _).
    destruct (closed c) eqn:E; [|done]. specialize (Hcl id c Hc E). congruence.
  - rewrite Hsend. cbn. eauto.
Qed.

(** ** The invariant *)

Lemma hub_ok_New : hub_ok New.
Proof.
  unfold hub_ok, subs, New. cbn. setoid_rewrite lookup_empty.
  split_and!; try done. intros k id. cbn. split; [set_solver | naive_solver].
Qed.

Lemma subs_insert h k v cs k' :
  subs {| subscribers := <[k := v]> (subscribers h); chans := cs |} k'
  = if decide (k = k') then v else subs h k'.
Proof. unfold subs. cbn. rewrite lookup_insert. by case_decide. Qed.

Lemma hub_ok_Subscribe h scope id :
  hub_ok h -> chans h !! id = None -> hub_ok (Subscribe h scope id).
Proof.
  intros (Hs & Hc & Hb & He) Hid. unfold Subscribe. split_and!; cbn.
  - intros k j. rewrite subs_insert, lookup_insert. case_decide as Hk.
    + subst k. rewrite elem_of_union, elem_of_singleton, Hs.
      case_decide as Hj; [subst j|]; naive_solver.
    + rewrite Hs. case_decide as Hj; [subst j|]; naive_solver.
  - intros j c. rewrite lookup_insert. case_decide; [intros [= <-]; done | by apply Hc].
  - intros j c. rewrite lookup_insert.
    case_decide; [intros [= <-]; cbn; lia | by apply Hb].
  - intros k. rewrite lookup_insert. case_decide; [|apply He]. intros [= Hemp]. set_solver.
Qed.

Lemma deliver_fields ev c :
  key (deliver ev c) = key c /\ once (deliver ev c) = once c /\ closed (deliver ev c) = closed c
  /\ ((length (buf c) <= channelBufferSize)%nat ->
      (length (buf (deliver ev c)) <= channelBufferSize)%nat).
Proof.
  unfold deliver. destruct (Nat.ltb_spec (length (buf c)) channelBufferSize); split_and!; try done.
  intros _. cbn [buf]. rewrite length_app. cbn [length]. lia.
Qed.

(** Updating channels without touching keys, Once flags or closing. *)
Lemma hub_ok_update h cs :
  hub_ok h ->
  (forall id, match chans h !! id, cs !! id with
     | Some c, Some c' => key c' = key c /\ once c' = once c /\ closed c' = closed c
                          /\ (length (buf c') <= channelBufferSize)%nat
     | None, None => True
     | _, _ => False end) ->
  hub_ok (setChans h cs).
Proof.
  intros (Hs & Hc & Hb & He) Hup. unfold setChans. split_and!; cbn; [| | |done].
  - intros k id. change (subs _ k) with (subs h k). rewrite Hs. specialize (Hup id).
    destruct (chans h !! id) as [c|], (cs !! id) as [c'|]; try done.
    destruct Hup as (Hk & Ho & _). split; intros (x & [= <-] & ? & ?); eexists;
      (split; [done|]); split; congruence.
  - intros id c' Hid Hcl. specialize (Hup id). rewrite Hid in Hup.
    destruct (chans h !! id) as [c|] eqn:E; [|done]. destruct Hup as (_ & -> & Hcl' & _).
    apply (Hc id c E). congruence.
  - intros id c' Hid. specialize (Hup id). rewrite Hid in Hup.
    destruct (chans h !! id) as [c|]; [|done]. by destruct Hup as (_ & _ & _ & ?).
Qed.

Lemma hub_ok_Publish h ev h' : hub_ok h -> Publish h ev = Some h' -> hub_ok h'.
Proof.
  intros Hok HP. destruct (Publish_spec h ev Hok) as (h2 & HP2 & Hsub & Hch).
  assert (h2 = h') as -> by congruence.
  replace h' with (setChans h (chans h')) by (destruct h', h; cbn in *; by subst).
  apply hub_ok_update; [done|]. intros id. rewrite Hch. case_decide.
  - destruct (chans h !! id) as [c|] eqn:E; [|done]. cbn.
    destruct (deliver_fields ev c) as (-> & -> & -> & Hl). split_and!; [done..|].
    apply Hl. by eapply Hok.
  - destruct (chans h !! id) as [c|] eqn:E; [|done]. split_and!; [done..|]. by eapply Hok.
Qed.

Lemma hub_ok_unsubscribe h id c :
  hub_ok h -> chans h !! id = Some c -> once c = false -> hub_ok (unsubscribeDelete h id c).
Proof.
  intros (Hs & Hc & Hb & He) Hid Ho. unfold unsubscribeDelete. split_and!; cbn.
  - intros k j.
    assert (Hsub : subs {| subscribers := match subscribers h !! key c with
        | None => subscribers h
        | Some s => if decide (s ∖ {[id]} = ∅) then delete (key c) (subscribers h)
                    else <[key c := s ∖ {[id]}]> (subscribers h) end;
        chans := <[id := {| buf := buf c; closed := closed c; once := true; key := key c |}]> (chans h) |} k
      = if decide (key c = k) then subs h k ∖ {[id]} else subs h k).
    { unfold subs. cbn. destruct (subscribers h !! key c) as [s|] eqn:E.
      - case_decide as Hemp; rewrite ?lookup_delete, ?lookup_insert; case_decide as Hk;
          try done; subst k; rewrite E; cbn; [by rewrite Hemp | done].
      - case_decide as Hk; [|done]. subst k. rewrite E. cbn. set_solver. }
    rewrite Hsub, lookup_insert. case_decide as Hk.
    + rewrite elem_of_difference, elem_of_singleton, Hs.
      case_decide as Hj; [|split; [by intros [? _] | intros ?; split; [done | congruence]]].
      subst j. split; [intros [_ []]; done | intros (x & [= <-] & _ & ?); done].
    + rewrite Hs. case_decide as Hj; [|done]. subst j.
      split; [intros (x & Hx & ? & ?); congruence | intros (x & [= <-] & ? & ?); done].
  - intros j c'. rewrite lookup_insert. case_decide; [by intros [= <-] | by apply Hc].
  - intros j c'. rewrite lookup_insert. case_decide; [intros [= <-]; exact (Hb _ _ Hid) | by apply Hb].
  - intros k. destruct (subscribers h !! key c) as [s|] eqn:E; [|apply He].
    case_decide as Hemp; rewrite ?lookup_delete, ?lookup_insert; case_decide;
      try apply He; [done|]. by intros [= ?].
Qed.

Lemma hub_ok_close h id c h' :
  hub_ok h -> chans h !! id = Some c -> once c = true -> closeChan h id c = Some h' -> hub_ok h'.
Proof.
  intros (Hs & Hc & Hb & He) Hid Ho. unfold closeChan. destruct (closed c); [done|].
  intros [= <-]. unfold setChans. split_and!; cbn; [| | |done].
  - intros k j. change (subs _ k) with (subs h k). rewrite Hs, lookup_insert.
    case_decide as Hj; [|done]. subst j.
    split; [intros (x & Hx & ? & ?); congruence | intros (x & [= <-] & ? & ?); cbn in *; congruence].
  - intros j c'. rewrite lookup_insert. case_decide; [by intros [= <-] | by apply Hc].
  - intros j c'. rewrite lookup_insert. case_decide; [intros [= <-]; exact (Hb _ _ Hid) | by apply Hb].
Qed.

Lemma hub_ok_step h h' : hub_ok h -> hstep h h' -> hub_ok h'.
Proof.
  intros Hok Hstep. destruct Hstep as [h scope id Hid | h ev h' HP | h id c Hid Ho
    | h id c h' Hid Ho Hcl HC | h id c ev rest Hid Hbuf].
  - by apply hub_ok_Subscribe.
  - by eapply hub_ok_Publish.
  - by apply hub_ok_unsubscribe.
  - by eapply hub_ok_close.
  - apply hub_ok_update; [done|]. intros j. rewrite lookup_insert. case_decide as Hj.
    + subst j. rewrite Hid. cbn. split_and!; [done..|].
      destruct Hok as (_ & _ & Hb & _). specialize (Hb id c Hid). rewrite Hbuf in Hb. cbn in Hb. lia.
    + destruct (chans h !! j) as [c'|] eqn:E; [|done]. split_and!; [done..|]. by eapply Hok.
Qed.

(** No reachable hub keeps a dead registration: a channel is in the set
    of its own key, and of no other key, exactly until its unsubscribe ran;
    only unsubscribed channels are closed; no buffer exceeds 64 events; and
    no scope key keeps an empty set behind. *)
Lemma hub_ok_reachable h : rtc hstep New h -> hub_ok h.
Proof.
  intros H. apply (rtc_ind_r (fun h => hub_ok h) New hub_ok_New) in H; [done|].
  intros h1 h2 _ Hs Hok. by eapply hub_ok_step.
Qed.

(** ** Claims *)

(** Visibility is exactly the tenancy rule of the list endpoint: the key
    a watcher subscribes with, built by [ScopeKey] from its scope and ids,
    is among the keys [visibilityKeys] routes an event to exactly when the
    watcher's level is the entity's own level or one above it (namespace,
    its workspace, platform) -- so no event is missed and none leaks to
    another workspace or namespace, whatever the numeric ids are. *)
Lemma visibilityKeys_exact scope ws ns ev :
  ScopeKey scope ws ns ∈ visibilityKeys ev
  <-> sees (tenancyOf scope ws ns) (tenancyOfEvent ev).
Proof. rewrite ScopeKey_keyOf. apply visibilityKeys_keyOf. Qed.

(** In every reachable hub (any interleaving of subscribes, publishes,
    unsubscribes, closes and receives), [Publish] never sends on a closed
    channel, and it appends the event exactly once to each subscribed
    channel whose level sees the entity and which has fewer than 64 events
    pending; it changes no other channel and no registration. *)
Lemma Publish_delivers h ev :
  rtc hstep New h ->
  exists h', Publish h ev = Some h' /\ subscribers h' = subscribers h
    /\ forall id c t, chans h !! id = Some c -> key c = keyOf t ->
         exists c', chans h' !! id = Some c'
           /\ closed c' = closed c /\ key c' = key c /\ once c' = once c
           /\ (once c = false -> sees t (tenancyOfEvent ev) ->
               (length (buf c) < channelBufferSize)%nat -> buf c' = buf c ++ [ev])
           /\ (once c = true \/ ~ sees t (tenancyOfEvent ev)
               \/ (channelBufferSize <= length (buf c))%nat -> c' = c).
Proof.
  intros Hr. pose proof (hub_ok_reachable h Hr) as Hok.
  destruct (Publish_spec h ev Hok) as (h' & HP & Hsub & Hch). exists h'. split_and!; [done..|].
  intros id c t Hc Hk. rewrite Hch, Hc.
  pose proof (targets_elem h ev id Hok) as Ht. rewrite Hc in Ht.
  destruct (deliver_fields ev c) as (Hdk & Hdo & Hdc & _).
  case_decide as Hin; eexists; (split; [done|]); split_and!; try done.
  - intros _ _ Hlt. unfold deliver. by rewrite (proj2 (Nat.ltb_lt _ _) Hlt).
  - apply Ht in Hin as (x & [= <-] & Ho & Hv). rewrite Hk, visibilityKeys_keyOf in Hv.
    intros [?|[?|Hge]]; [congruence|done|]. unfold deliver.
    by rewrite (proj2 (Nat.ltb_ge _ _) Hge).
  - intros Ho Hs _. destruct Hin. apply Ht. exists c. split_and!; [done..|].
    by rewrite Hk, visibilityKeys_keyOf.
Qed.

Definition evA : Event :=
  {| EntityType := "host"; EntityID := 7; Deleted := false; Scope := "namespace";
     WorkspaceID := Some 1%Z; NamespaceID := Some 2%Z |}.

End Hub.
