(* ===== verification/OidcStore.v ===== *)
(** * OIDC persistence: the world, the PostgreSQL stores, login throttling

    Models [lib/oidc/throttle.go], [pg_throttle_store.go], [pg_code_store.go],
    [pg_pending_store.go], [pg_session_store.go], the refresh-token store of
    [pkg/apis/iam/store/pg_refresh_token.go] with its adapter in
    [pkg/apis/iam/oidc_adapter.go], and the statements of [pkg/db/query]
    those stores run.

    Handlers run in a state monad over a [world]: the tables, the clock
    (nanoseconds), and three oracles that make the environment explicit:
    [ticks] is the time that passes before each clock reading or query,
    [faults] says which queries fail (a failed statement changes nothing),
    [coins] resolves the iteration order of Go maps, and [rands] is the
    supply of random bytes. *)

From S2P Require Import Prelude.

Module OStore.

Definition second : Z := 1000000000.
Definition minute : Z := 60 * second.

Record OIDCUser := {
  uID : Z; uUsername : string; uEmail : string; uDisplayName : string;
  uPhone : string; uPasswordHash : string; uStatus : string
}.

Record throttleRow := { fail_count : Z; window_start : Z }.

Record codeRow := {
  cr_client_id : string; cr_user_id : Z; cr_redirect_uri : string; cr_scopes : string;
  cr_nonce : string; cr_code_challenge : string; cr_code_challenge_method : string;
  cr_auth_time : Z; cr_expires_at : Z; cr_consumed : bool
}.

Record AuthorizeRequest := {
  ResponseType : string; ClientID : string; RedirectURI : string; ScopeStr : string;
  State : string; Nonce : string; CodeChallenge : string; CodeChallengeMethod : string
}.

Record pendingRow := { pr_req : AuthorizeRequest; pr_expires_at : Z }.

Record refreshRow := {
  rr_user_id : Z; rr_client_id : string; rr_scope : string; rr_expires_at : Z; rr_revoked : bool
}.

Record Session := { SessionID : string; UserID : Z; AuthTime : Z; ExpiresAt : Z }.

(** [audit.Event], the fields the authentication handlers set. *)
Record Event := {
  evUserID : option Z; evUsername : string; evAction : string; evStatusCode : Z;
  evClientIP : string; evSuccess : bool; evDetail : string; evCreatedAt : Z
}.

Record world := {
  users : gmap Z OIDCUser;
  throttle : gmap string throttleRow;
  codes : gmap string codeRow;
  pendings : gmap string pendingRow;
  refreshes : gmap string refreshRow;
  sessions : gmap string Session;
  auditLog : list Event;
  clock : Z;
  ticks : list N;
  faults : list bool;
  coins : list bool;
  rands : list (option (list Z))
}.

Definition set_throttle (t : gmap string throttleRow) (w : world) : world :=
  {| users := users w; throttle := t; codes := codes w; pendings := pendings w;
     refreshes := refreshes w; sessions := sessions w; auditLog := auditLog w;
     clock := clock w; ticks := ticks w; faults := faults w; coins := coins w; rands := rands w |}.
Definition set_codes (t : gmap string codeRow) (w : world) : world :=
  {| users := users w; throttle := throttle w; codes := t; pendings := pendings w;
     refreshes := refreshes w; sessions := sessions w; auditLog := auditLog w;
     clock := clock w; ticks := ticks w; faults := faults w; coins := coins w; rands := rands w |}.
Definition set_pendings (t : gmap string pendingRow) (w : world) : world :=
  {| users := users w; throttle := throttle w; codes := codes w; pendings := t;
     refreshes := refreshes w; sessions := sessions w; auditLog := auditLog w;
     clock := clock w; ticks := ticks w; faults := faults w; coins := coins w; rands := rands w |}.
Definition set_refreshes (t : gmap string refreshRow) (w : world) : world :=
  {| users := users w; throttle := throttle w; codes := codes w; pendings := pendings w;
     refreshes := t; sessions := sessions w; auditLog := auditLog w;
     clock := clock w; ticks := ticks w; faults := faults w; coins := coins w; rands := rands w |}.
Definition set_sessions (t : gmap string Session) (w : world) : world :=
  {| users := users w; throttle := throttle w; codes := codes w; pendings := pendings w;
     refreshes := refreshes w; sessions := t; auditLog := auditLog w;
     clock := clock w; ticks := ticks w; faults := faults w; coins := coins w; rands := rands w |}.
Definition set_audit (l : list Event) (w : world) : world :=
  {| users := users w; throttle := throttle w; codes := codes w; pendings := pendings w;
     refreshes := refreshes w; sessions := sessions w; auditLog := l;
     clock := clock w; ticks := ticks w; faults := faults w; coins := coins w; rands := rands w |}.
Definition set_env (c : Z) (ts : list N) (fs : list bool) (cs : list bool)
    (rs : list (option (list Z))) (w : world) : world :=
  {| users := users w; throttle := throttle w; codes := codes w; pendings := pendings w;
     refreshes := refreshes w; sessions := sessions w; auditLog := auditLog w;
     clock := c; ticks := ts; faults := fs; coins := cs; rands := rs |}.

(** ** The monad *)

Definition M (A : Type) : Type := world -> A * world.

#[export] Instance M_ret : MRet M := fun _ a w => (a, w).
#[export] Instance M_bind : MBind M := fun _ _ f m w => let '(a, w') := m w in f a w'.

Definition tick : M unit := fun w =>
  match ticks w with
  | [] => (tt, w)
  | d :: ds => (tt, set_env (clock w + Z.of_N d) ds (faults w) (coins w) (rands w) w)
  end.

Definition Now : M Z := fun w => let w' := snd (tick w) in (clock w', w').

Definition flip : M bool := fun w =>
  match coins w with
  | [] => (false, w)
  | c :: cs => (c, set_env (clock w) (ticks w) (faults w) cs (rands w) w)
  end.

(** One SQL statement: time passes, it may fail, else [q] runs at PG's
    [now()]. *)
Definition query {A} (q : world -> result string A * world) : M (result string A) := fun w =>
  let w1 := snd (tick w) in
  match faults w1 with
  | [] => q w1
  | false :: fs => q (set_env (clock w1) (ticks w1) fs (coins w1) (rands w1) w1)
  | true :: fs => (Err "db error", set_env (clock w1) (ticks w1) fs (coins w1) (rands w1) w1)
  end.

Definition modify (f : world -> world) : M unit := fun w => (tt, f w).

(** [auditLogger.Log] of an event stamped with [time.Now()]. *)
Definition Log (e : Z -> Event) : M unit :=
  now ← Now; modify (fun w => set_audit (auditLog w ++ [e now]) w).

(** [hex.EncodeToString]. *)
Definition hexDigit (d : Z) : string :=
  nth (Z.to_nat d) ["0";"1";"2";"3";"4";"5";"6";"7";"8";"9";"a";"b";"c";"d";"e";"f"]%string "f".

Definition hexEncode (b : list Z) : string :=
  fold_right (fun x s => hexDigit (x / 16) +++ hexDigit (x mod 16) +++ s) ""%string b.

(** [base64.RawURLEncoding.EncodeToString]. *)
Definition b64Char (v : Z) : string :=
  match String.get (Z.to_nat v)
    "ABCDEFGHIJKLMNOPQRSTUVWXYZabcdefghijklmnopqrstuvwxyz0123456789-_" with
  | Some c => String c EmptyString
  | None => EmptyString
  end.

Fixpoint base64URLEncode (b : list Z) : string :=
  match b with
  | [] => EmptyString
  | [x] => b64Char (x / 4) +++ b64Char (x mod 4 * 16)
  | [x; y] => b64Char (x / 4) +++ b64Char (x mod 4 * 16 + y / 16) +++ b64Char (y mod 16 * 4)
  | x :: y :: z :: rest =>
      b64Char (x / 4) +++ b64Char (x mod 4 * 16 + y / 16)
      +++ b64Char (y mod 16 * 4 + z / 64) +++ b64Char (z mod 64) +++ base64URLEncode rest
  end.

(** [rand.Read] into 32 bytes, hex-encoded: [GenerateCode],
    [GenerateSessionID] and [GenerateRefreshToken] are the same code. *)
Definition GenerateCode : M (result string string) := fun w =>
  match rands w with
  | [] => (Err "rand error", w)
  | r :: rs =>
      (match r with Some b => Ok (hexEncode b) | None => Err "rand error" end,
       set_env (clock w) (ticks w) (faults w) (coins w) rs w)
  end%string.

Definition GenerateSessionID : M (result string string) := GenerateCode.
Definition GenerateRefreshToken : M (result string string) := GenerateCode.
Definition GenerateCSRFToken : M (result string string) := GenerateCode.

(** ** Login throttle *)

Definition loginFailWindow : Z := 15 * minute.
Definition loginUserFailLimit : Z := 5.
Definition loginIPFailLimit : Z := 20.
Definition registerWindow : Z := loginFailWindow.
Definition registerIPLimit : Z := 10.

(** [int(d.Seconds())] of a duration. *)
Definition wholeSeconds (d : Z) : Z := Z.quot d second.

(** [time.Time.Sub] saturates at the range of a duration. *)
Definition timeSub (a b : Z) : Z := Z.max (- 2 ^ 63) (Z.min (2 ^ 63 - 1) (a - b)).

Definition throttleDecision (count windowStart limit window now : Z) : Z * bool :=
  if count <? limit then (0, false)
  else
    let remaining := timeSub (windowStart + window) now in
    if remaining <=? 0 then (0, false) else (remaining, true).

(** [GetLoginThrottle]; no row is not an error. *)
Definition throttleGet (key : string) : M (result string (option (Z * Z))) :=
  query (fun w => (Ok ((fun r => (fail_count r, window_start r)) <$> throttle w !! key), w)).

(** [BumpLoginThrottle]: insert, or restart the window when it has fully
    elapsed, else increment; the INTEGER column rejects an overflow. *)
Definition bumpRow (now secs : Z) (row : option throttleRow) : result string throttleRow :=
  match row with
  | None => Ok {| fail_count := 1; window_start := now |}
  | Some r =>
      if window_start r <? now - secs * second
      then Ok {| fail_count := 1; window_start := now |}
      else if 2 ^ 31 <=? fail_count r + 1 then Err "integer out of range"%string
      else Ok {| fail_count := fail_count r + 1; window_start := window_start r |}
  end.

Definition throttleBump (key : string) (windowSeconds : Z) : M (result string unit) :=
  query (fun w =>
    match bumpRow (clock w) (int32 windowSeconds) (throttle w !! key) with
    | Err e => (Err e, w)
    | Ok r => (Ok tt, set_throttle (<[key := r]> (throttle w)) w)
    end).

Definition throttleReset (key : string) : M (result string unit) :=
  query (fun w => (Ok tt, set_throttle (delete key (throttle w)) w)).

Definition throttleSweep (windowSeconds : Z) : M (result string unit) :=
  query (fun w => (Ok tt, set_throttle
    (filter (fun kr => ~ window_start (snd kr) < clock w - int32 windowSeconds * second) (throttle w)) w)).

Section Throttle.
(** [strings.ToLower] and [strings.TrimSpace] over UTF-8; nothing below
    depends on what they compute. [enabled] is [p.loginThrottle != nil]. *)
Context (ToLower TrimSpace : string -> string) (enabled : bool).

Definition loginUserKey (username : string) : string := "u:" +++ ToLower (TrimSpace username).
Definition loginIPKey (ip : string) : string := "ip:" +++ ip.
Definition registerIPKey (ip : string) : string := "reg:" +++ ip.

(** The loop of [LoginLocked] over one ordering of the map. *)
Fixpoint lockedScan (entries : list (string * Z)) : M (Z * bool) :=
  match entries with
  | [] => mret (0, false)
  | (key, limit) :: rest =>
      r ← throttleGet key;
      match r with
      | Err _ => lockedScan rest
      | Ok None => lockedScan rest
      | Ok (Some (count, windowStart)) =>
          now ← Now;
          let '(retry, locked) := throttleDecision count windowStart limit loginFailWindow now in
          if locked then mret (retry, true) else lockedScan rest
      end
  end.

Definition LoginLocked (username ip : string) : M (Z * bool) :=
  if negb enabled then mret (0, false)
  else
    let eu := (loginUserKey username, loginUserFailLimit) in
    let ei := (loginIPKey ip, loginIPFailLimit) in
    b ← flip; lockedScan (if b : bool then [ei; eu] else [eu; ei]).

Definition RegisterLocked (ip : string) : M (Z * bool) :=
  if negb enabled then mret (0, false)
  else
    r ← throttleGet (registerIPKey ip);
    match r with
    | Err _ => mret (0, false)
    | Ok None => mret (0, false)
    | Ok (Some (count, windowStart)) =>
        now ← Now;
        mret (throttleDecision count windowStart registerIPLimit registerWindow now)
    end.

Definition NoteRegisterAttempt (ip : string) : M unit :=
  if negb enabled then mret tt
  else _ ← throttleBump (registerIPKey ip) (wholeSeconds registerWindow); mret tt.

Definition NoteLoginFailure (username ip : string) : M unit :=
  if negb enabled then mret tt
  else
    let secs := wholeSeconds loginFailWindow in
    _ ← throttleBump (loginUserKey username) secs;
    _ ← throttleBump (loginIPKey ip) secs;
    mret tt.

Definition NoteLoginSuccess (username : string) : M unit :=
  if negb enabled then mret tt
  else
    _ ← throttleReset (loginUserKey username);
    _ ← throttleSweep (wholeSeconds loginFailWindow);
    mret tt.

End Throttle.

(** ** Authorization codes *)

Record AuthorizationCode := {
  acCode : string; acClientID : string; acUserID : Z; acRedirectURI : string;
  acScopes : list string; acNonce : string; acCodeChallenge : string;
  acCodeChallengeMethod : string; acAuthTime : Z; acExpiresAt : Z; acConsumed : bool
}.

(** [CreateOIDCAuthCode]: the primary key rejects a duplicate; the error is
    only logged. *)
Definition codeStore (c : AuthorizationCode) : M unit :=
  _ ← query (fun w =>
    match codes w !! acCode c with
    | Some _ => (Err "duplicate key"%string, w)
    | None => (Ok tt, set_codes (<[acCode c :=
        {| cr_client_id := acClientID c; cr_user_id := acUserID c;
           cr_redirect_uri := acRedirectURI c; cr_scopes := Join (acScopes c) " ";
           cr_nonce := acNonce c; cr_code_challenge := acCodeChallenge c;
           cr_code_challenge_method := acCodeChallengeMethod c;
           cr_auth_time := acAuthTime c; cr_expires_at := acExpiresAt c;
           cr_consumed := false |}]> (codes w)) w)
    end);
  mret tt.

(** [ConsumeOIDCAuthCode]: a DELETE ... RETURNING, so a code is handed out
    by the statement that removes it. *)
Definition codeConsume (codeStr : string) : M (result string AuthorizationCode) :=
  r ← query (fun w =>
    match codes w !! codeStr with
    | Some row =>
        if negb (cr_consumed row) && (clock w <? cr_expires_at row)
        then (Ok row, set_codes (delete codeStr (codes w)) w)
        else (Err "no rows"%string, w)
    | None => (Err "no rows"%string, w)
    end);
  mret (match r with
    | Err _ => Err "authorization code not found"%string
    | Ok row => Ok {|
        acCode := codeStr; acClientID := cr_client_id row; acUserID := cr_user_id row;
        acRedirectURI := cr_redirect_uri row; acScopes := Split (cr_scopes row) " ";
        acNonce := cr_nonce row; acCodeChallenge := cr_code_challenge row;
        acCodeChallengeMethod := cr_code_challenge_method row;
        acAuthTime := cr_auth_time row; acExpiresAt := 0; acConsumed := true |}
    end).

(** ** Pending authorization requests *)

Definition pendingStore (req : AuthorizeRequest) : M (result string string) :=
  r ← GenerateCode;
  match r with
  | Err e => mret (Err e)
  | Ok id =>
      now ← Now;
      q ← query (fun w =>
        match pendings w !! id with
        | Some _ => (Err "duplicate key"%string, w)
        | None => (Ok tt, set_pendings (<[id :=
            {| pr_req := req; pr_expires_at := now + 30 * minute |}]> (pendings w)) w)
        end);
      mret (match q with Err e => Err e | Ok _ => Ok id end)
  end.

Definition pendingConsume (id : string) : M (result string AuthorizeRequest) :=
  r ← query (fun w =>
    match pendings w !! id with
    | Some row =>
        if clock w <? pr_expires_at row
        then (Ok (pr_req row), set_pendings (delete id (pendings w)) w)
        else (Err "no rows"%string, w)
    | None => (Err "no rows"%string, w)
    end);
  mret (match r with Err _ => Err "pending request not found"%string | Ok req => Ok req end).

(** ** Sessions *)

Definition sessionCreate (s : Session) : M unit :=
  _ ← query (fun w =>
    match sessions w !! SessionID s with
    | Some _ => (Err "duplicate key"%string, w)
    | None => (Ok tt, set_sessions (<[SessionID s := s]> (sessions w)) w)
    end);
  mret tt.

Definition sessionGet (id : string) : M (result string Session) :=
  r ← query (fun w =>
    match sessions w !! id with
    | Some s => if clock w <? ExpiresAt s then (Ok s, w) else (Err "no rows"%string, w)
    | None => (Err "no rows"%string, w)
    end);
  mret (match r with Err _ => Err "session not found"%string | Ok s => Ok s end).

Definition sessionDelete (id : string) : M unit :=
  _ ← query (fun w => (Ok tt, set_sessions (delete id (sessions w)) w)); mret tt.

(** ** Refresh tokens *)

Record RefreshTokenData := {
  rtTokenHash : string; rtUserID : Z; rtClientID : string; rtScope : string; rtExpiresAt : Z
}.

Definition refreshStore (rt : RefreshTokenData) : M (result string unit) :=
  query (fun w =>
    match refreshes w !! rtTokenHash rt with
    | Some _ => (Err "duplicate key"%string, w)
    | None => (Ok tt, set_refreshes (<[rtTokenHash rt :=
        {| rr_user_id := rtUserID rt; rr_client_id := rtClientID rt; rr_scope := rtScope rt;
           rr_expires_at := rtExpiresAt rt; rr_revoked := false |}]> (refreshes w)) w)
    end).

Definition revoke (r : refreshRow) : refreshRow :=
  {| rr_user_id := rr_user_id r; rr_client_id := rr_client_id r; rr_scope := rr_scope r;
     rr_expires_at := rr_expires_at r; rr_revoked := true |}.

(** [ConsumeRefreshToken]: UPDATE ... SET revoked ... RETURNING. *)
Definition ConsumeByHash (tokenHash : string) : M (result string refreshRow) :=
  query (fun w =>
    match refreshes w !! tokenHash with
    | Some row =>
        if negb (rr_revoked row) && (clock w <? rr_expires_at row)
        then (Ok (revoke row), set_refreshes (<[tokenHash := revoke row]> (refreshes w)) w)
        else (Err "no rows"%string, w)
    | None => (Err "no rows"%string, w)
    end).

Definition RevokeByUserID (userID : Z) : M (result string unit) :=
  query (fun w => (Ok tt, set_refreshes
    ((fun r => if rr_user_id r =? userID then revoke r else r) <$> refreshes w) w)).

(** [DeleteExpiredRefreshTokens]. *)
Definition DeleteExpired : M (result string unit) :=
  query (fun w => (Ok tt, set_refreshes
    (filter (fun kr => ~ (rr_expires_at (snd kr) < clock w \/ rr_revoked (snd kr) = true))
            (refreshes w)) w)).

Section Hash.
Context (sha256 : string -> list Z).

Definition HashToken (rawToken : string) : string := hexEncode (sha256 rawToken).

(** [refreshTokenAdapter.Consume]. *)
Definition refreshConsume (rawToken : string) : M (result string RefreshTokenData) :=
  let tokenHash := HashToken rawToken in
  r ← ConsumeByHash tokenHash;
  mret (match r with
    | Err _ => Err "invalid refresh token"%string
    | Ok row => Ok {| rtTokenHash := tokenHash; rtUserID := rr_user_id row;
                      rtClientID := rr_client_id row; rtScope := rr_scope row;
                      rtExpiresAt := rr_expires_at row |}
    end).
End Hash.

(** ** The in-memory pending store *)

Definition memPending : Type := gmap string (AuthorizeRequest * Z).

(** [memPendingStore.Store] with the id drawn by [GenerateCode]: expired
    entries are dropped first. *)
Definition memStore (id : string) (now : Z) (req : AuthorizeRequest) (m : memPending) : memPending :=
  <[id := (req, now + 30 * minute)]> (filter (fun kv => ~ (snd (snd kv) < now)) m).

Definition memConsume (id : string) (now : Z) (m : memPending) :
    result string AuthorizeRequest * memPending :=
  match m !! id with
  | None => (Err "pending request not found"%string, m)
  | Some (req, expiresAt) =>
      (if expiresAt <? now then Err "pending request expired"%string else Ok req, delete id m)
  end.

End OStore.
