(* ===== verification/OidcProvider.v ===== *)
(** * The OIDC provider and its public endpoints

    Models [lib/oidc/provider.go], [token.go], [cookie.go], the
    authentication middleware [lib/rest/filters/authentication.go] and the
    handlers of [pkg/apis/iam/oidc_handler_auth.go], [_token.go], [_logout.go]
    and [_userinfo.go]. bcrypt and the JWT library are fields of [Env]. *)

From S2P Require Import Prelude OidcStore.

Module Provider.
Import OStore.

(** ** Configuration and third-party code *)

Record ProviderConfig := {
  Issuer : string; AccessTokenTTL : Z; RefreshTokenTTL : Z; AuthCodeTTL : Z; LoginURL : string
}.

Record Client := {
  clID : string; clSecret : string; clRedirectURIs : list string;
  clScopes : list string; clPublic : bool
}.

(** [StandardClaims] and [IDTokenClaims]; numeric dates are in seconds. *)
Record Claims := {
  clmIssuer : string; clmSubject : string; clmAudience : list string;
  clmExpiresAt : Z; clmIssuedAt : Z; clmScope : string;
  clmNonce : string; clmAuthTime : Z; clmAtHash : string;
  clmName : string; clmEmail : string; clmPhone : string
}.

Record Env := {
  ToLower : string -> string;
  TrimSpace : string -> string;
  sha256 : string -> list Z;
  (** [bcrypt.CompareHashAndPassword hash password = nil]. *)
  bcryptOk : string -> string -> bool;
  (** [jwt.SignedString] with the key set's private key. *)
  jwtSign : Claims -> result string string;
  (** Decoding, the key function's algorithm check and the signature check
      of [jwt.ParseWithClaims] under the key set's public key; the claims it
      answers are of the kinds signed below, with an expiry. *)
  jwtVerify : string -> option Claims;
  (** [url.Parse] succeeds. *)
  urlOk : string -> bool;
  config : ProviderConfig;
  clients : gmap string Client;
  throttled : bool;
  audited : bool
}.

Section Provider.
Context (e : Env).

Definition LoginLocked := OStore.LoginLocked (ToLower e) (TrimSpace e) (throttled e).
Definition NoteLoginFailure := OStore.NoteLoginFailure (ToLower e) (TrimSpace e) (throttled e).
Definition NoteLoginSuccess := OStore.NoteLoginSuccess (ToLower e) (TrimSpace e) (throttled e).
Definition HashToken := OStore.HashToken (sha256 e).
Definition refreshConsume := OStore.refreshConsume (sha256 e).

(** ** Users: [GetUserForAuth], [GetByID], [UpdateLastLogin]

    The last-login column is not part of the modelled user row. *)

Definition GetByIdentifier (identifier : string) : M (result string OIDCUser) :=
  query (fun w =>
    match filter (fun u : OIDCUser => uUsername u = identifier \/ uEmail u = identifier)
                 (snd <$> map_to_list (users w)) with
    | u :: _ => (Ok u, w)
    | [] => (Err "not found"%string, w)
    end).

(** The by-id query does not select the password hash. *)
Definition GetByID (id : Z) : M (result string OIDCUser) :=
  query (fun w =>
    match users w !! id with
    | Some u => (Ok {| uID := uID u; uUsername := uUsername u; uEmail := uEmail u;
                       uDisplayName := uDisplayName u; uPhone := uPhone u;
                       uPasswordHash := ""; uStatus := uStatus u |}, w)
    | None => (Err "not found"%string, w)
    end).

Definition UpdateLastLogin (id : Z) : M (result string unit) := query (fun w => (Ok tt, w)).

Definition CheckUserActive (userID : Z) : M (result string string) :=
  r ← GetByID userID;
  mret (match r with
    | Err _ => Err "user not found"%string
    | Ok user => if uStatus user =s "active" then Ok (uUsername user)
                 else Err "account is not active"%string
    end).

(** ** Login *)

Definition Login (identifier password : string) : M (result string (Session * OIDCUser)) :=
  r ← GetByIdentifier identifier;
  match r with
  | Err _ => mret (Err "invalid credentials"%string)
  | Ok user =>
      if negb (uStatus user =s "active") then mret (Err "account is not active"%string)
      else if uPasswordHash user =s "" then mret (Err "invalid credentials"%string)
      else if negb (bcryptOk e (uPasswordHash user) password)
           then mret (Err "invalid credentials"%string)
      else
        g ← GenerateSessionID;
        match g with
        | Err err => mret (Err ("generate session: " +++ err))
        | Ok sessionID =>
            now ← Now;
            let session := {| SessionID := sessionID; UserID := uID user; AuthTime := now;
                              ExpiresAt := now + 24 * 60 * minute |} in
            _ ← sessionCreate session;
            _ ← UpdateLastLogin (uID user);
            mret (Ok (session, user))
        end
  end.

(** ** Tokens *)

Definition numericDate (t : Z) : Z := t / second.

(** The claims of an access token issued at [now]. *)
Definition accessClaims (userID : Z) (clientID : string) (scopes : list string) (now : Z) : Claims := {|
    clmIssuer := Issuer (config e); clmSubject := FormatInt userID; clmAudience := [clientID];
    clmExpiresAt := numericDate (now + AccessTokenTTL (config e));
    clmIssuedAt := numericDate now; clmScope := Join scopes " ";
    clmNonce := ""; clmAuthTime := 0; clmAtHash := "";
    clmName := ""; clmEmail := ""; clmPhone := "" |}.

Definition IssueAccessToken (userID : Z) (clientID : string) (scopes : list string) :
    M (result string string) :=
  now ← Now; mret (jwtSign e (accessClaims userID clientID scopes now)).

Record UserInfo := { uiSub : string; uiName : string; uiEmail : string; uiPhone : string }.

Definition computeAtHash (accessToken : string) : string :=
  base64URLEncode (take 16 (sha256 e accessToken)).

Definition ifScope (scopes : list string) (s v : string) : string :=
  if bool_decide (s ∈ scopes) then v else ""%string.

Definition IssueIDToken (userID : Z) (clientID nonce : string) (authTime : Z)
    (accessToken : string) (user : UserInfo) (scopes : list string) : M (result string string) :=
  now ← Now;
  mret (jwtSign e {|
    clmIssuer := Issuer (config e); clmSubject := FormatInt userID; clmAudience := [clientID];
    clmExpiresAt := numericDate (now + AccessTokenTTL (config e));
    clmIssuedAt := numericDate now; clmScope := "";
    clmNonce := nonce; clmAuthTime := numericDate authTime; clmAtHash := computeAtHash accessToken;
    clmName := ifScope scopes "profile" (uiName user);
    clmEmail := ifScope scopes "email" (uiEmail user);
    clmPhone := ifScope scopes "phone" (uiPhone user) |}).

(** [ParseWithClaims] with [WithIssuer]: signature, then expiry and issuer.
    The library would accept a token with no expiry, and compare no issuer
    when none is expected: neither comes up, since the two kinds of claims
    the key set signs always have one, and [config.go] fills in an empty
    issuer with the external URL, itself never empty. *)
Definition VerifyAccessToken (tokenStr : string) : M (result string Claims) :=
  now ← Now;
  mret (match jwtVerify e tokenStr with
    | None => Err "invalid token"%string
    | Some c => if (now <? clmExpiresAt c * second) && (clmIssuer c =s Issuer (config e))
                then Ok c else Err "invalid token"%string
    end).

Definition VerifyBearerToken (tokenStr : string) : M (result string Z) :=
  r ← VerifyAccessToken tokenStr;
  mret (match r with
    | Err err => Err err
    | Ok claims => match ParseInt (clmSubject claims) 64 with
                   | Some id => Ok id | None => Err "invalid subject"%string end
    end).

Record TokenPair := {
  tpAccessToken : string; tpIDToken : string; tpRefreshToken : string;
  tpTokenType : string; tpExpiresIn : Z; tpScope : string
}.

(** The tail of [issueTokens]: draw, hash and store the refresh token. *)
Definition issueRefresh (userID : Z) (clientID : string) (scopes : list string)
    (accessToken idToken : string) : M (result string TokenPair) :=
  g ← GenerateRefreshToken;
  match g with
  | Err err => mret (Err ("generate refresh token: " +++ err))
  | Ok rawRT =>
      now ← Now;
      s ← refreshStore {| rtTokenHash := HashToken rawRT; rtUserID := userID;
             rtClientID := clientID; rtScope := Join scopes " ";
             rtExpiresAt := now + RefreshTokenTTL (config e) |};
      mret (match s with
        | Err err => Err ("store refresh token: " +++ err)
        | Ok _ => Ok {| tpAccessToken := accessToken; tpIDToken := idToken;
            tpRefreshToken := rawRT; tpTokenType := "Bearer";
            tpExpiresIn := wholeSeconds (AccessTokenTTL (config e));
            tpScope := Join scopes " " |}
        end)
  end.

Definition issueTokens (userID : Z) (clientID : string) (scopes : list string)
    (nonce : string) (authTime : Z) : M (result string TokenPair) :=
  a ← IssueAccessToken userID clientID scopes;
  match a with
  | Err err => mret (Err ("issue access token: " +++ err))
  | Ok accessToken =>
      u ← GetByID userID;
      match u with
      | Err err => mret (Err ("get user for id token: " +++ err))
      | Ok user =>
          let userInfo := {| uiSub := FormatInt userID; uiName := uDisplayName user;
                             uiEmail := uEmail user; uiPhone := uPhone user |} in
          if bool_decide ("openid"%string ∈ scopes) then
            i ← IssueIDToken userID clientID nonce authTime accessToken userInfo scopes;
            match i with
            | Err err => mret (Err ("issue id token: " +++ err))
            | Ok idToken => issueRefresh userID clientID scopes accessToken idToken
            end
          else issueRefresh userID clientID scopes accessToken ""
      end
  end.

(** ** The authorization-code flow *)

Definition StorePendingAuthorize := pendingStore.
Definition GetPendingAuthorize := pendingConsume.

(** The redirect URL, kept as its base and the query parameters set on it. *)
Record redirect := { rdBase : string; rdCode : string; rdState : option string }.

Definition Authorize (req : AuthorizeRequest) (userID authTime : Z) : M (result string redirect) :=
  g ← GenerateCode;
  match g with
  | Err err => mret (Err ("generate code: " +++ err))
  | Ok codeStr =>
      now ← Now;
      _ ← codeStore {|
        acCode := codeStr; acClientID := ClientID req; acUserID := userID;
        acRedirectURI := RedirectURI req; acScopes := Split (ScopeStr req) " ";
        acNonce := Nonce req; acCodeChallenge := CodeChallenge req;
        acCodeChallengeMethod := CodeChallengeMethod req; acAuthTime := authTime;
        acExpiresAt := now + AuthCodeTTL (config e); acConsumed := false |};
      mret (if urlOk e (RedirectURI req)
            then Ok {| rdBase := RedirectURI req; rdCode := codeStr;
                       rdState := if State req =s "" then None else Some (State req) |}
            else Err "parse redirect URI"%string)
  end.

Definition verifyPKCE (challenge method verifier : string) : bool :=
  if negb (method =s "S256") then false
  else base64URLEncode (sha256 e verifier) =s challenge.

Record CodeExchangeRequest := {
  cxCode : string; cxRedirectURI : string; cxClientID : string; cxCodeVerifier : string
}.

Definition ExchangeCode (req : CodeExchangeRequest) : M (result string TokenPair) :=
  r ← codeConsume (cxCode req);
  match r with
  | Err err => mret (Err ("invalid authorization code: " +++ err))
  | Ok code =>
      if negb (acClientID code =s cxClientID req) then mret (Err "client_id mismatch"%string)
      else if negb (cxRedirectURI req =s "") && negb (acRedirectURI code =s cxRedirectURI req)
      then mret (Err "redirect_uri mismatch"%string)
      else
        let issue := issueTokens (acUserID code) (acClientID code) (acScopes code)
                       (acNonce code) (acAuthTime code) in
        if negb (acCodeChallenge code =s "") then
          if cxCodeVerifier req =s "" then mret (Err "code_verifier required"%string)
          else if negb (verifyPKCE (acCodeChallenge code) (acCodeChallengeMethod code)
                          (cxCodeVerifier req))
          then mret (Err "PKCE verification failed"%string)
          else issue
        else issue
  end.

Record RefreshRequest := { rqRefreshToken : string; rqClientID : string; rqScope : string }.

Definition RefreshTokens (req : RefreshRequest) : M (result string TokenPair) :=
  r ← refreshConsume (rqRefreshToken req);
  match r with
  | Err err => mret (Err ("invalid refresh token: " +++ err))
  | Ok rtData =>
      if negb (rtClientID rtData =s rqClientID req) then mret (Err "client_id mismatch"%string)
      else
        a ← CheckUserActive (rtUserID rtData);
        match a with
        | Err _ => mret (Err "account is not active"%string)
        | Ok _ =>
            let scopes := Split (rtScope rtData) " " in
            now ← Now;
            issueTokens (rtUserID rtData) (rtClientID rtData) scopes "" now
        end
  end.

Definition UserInfoForToken (accessToken : string) : M (result string UserInfo) :=
  r ← VerifyAccessToken accessToken;
  match r with
  | Err err => mret (Err err)
  | Ok claims =>
      match ParseInt (clmSubject claims) 64 with
      | None => mret (Err "invalid subject"%string)
      | Some userID =>
          u ← GetByID userID;
          mret (match u with
            | Err err => Err err
            | Ok user =>
                let scopes := Split (clmScope claims) " " in
                Ok {| uiSub := clmSubject claims;
                      uiName := ifScope scopes "profile" (uDisplayName user);
                      uiEmail := ifScope scopes "email" (uEmail user);
                      uiPhone := ifScope scopes "phone" (uPhone user) |}
            end)
      end
  end.

Definition RevokeUserRefreshTokens := RevokeByUserID.

Definition GetClient (clientID : string) : option Client := clients e !! clientID.

Definition ValidateRedirectURI (client : Client) (uri : string) : bool :=
  existsb (fun allowed => allowed =s uri) (clRedirectURIs client).

End Provider.

(** ** HTTP requests and responses *)

Record loginRequest := { lrUsername : string; lrPassword : string; lrRequestID : string }.

(** What the handlers read of a request. [hForm = None] is a [ParseForm]
    error and [hLogin = None] a JSON decoding error of a login body;
    [hClientIP] is [audit.ClientIP]. *)
Record HttpReq := {
  hQuery : gmap string string;
  hForm : option (gmap string string);
  hLogin : option loginRequest;
  hCookies : gmap string string;
  hClientIP : string;
  hTLS : bool;
  hForwardedProto : string
}.

Definition formGet (m : gmap string string) (k : string) : string := default ""%string (m !! k).

Inductive SameSite := SameSiteLaxMode | SameSiteStrictMode.

Record Cookie := {
  ckName : string; ckValue : string; ckPath : string; ckHttpOnly : bool;
  ckSecure : bool; ckSameSite : SameSite; ckMaxAge : Z
}.

Inductive Body :=
| NoBody
| OAuthError (code description : string)
| LoginInfo (sessionID : string) (userID : Z)
| RedirectBody (r : redirect)
| TokenEnvelope (tokenType : string) (expiresIn : Z) (scope : string)
| UserInfoBody (u : UserInfo).

Record Response := {
  rsStatus : Z; rsLocation : option string; rsRetryAfter : option Z;
  rsCookies : list Cookie; rsBody : Body
}.

Definition oidcErrorWith (cookies : list Cookie) (retry : option Z) (errCode description : string)
    (statusCode : Z) : Response :=
  {| rsStatus := statusCode; rsLocation := None; rsRetryAfter := retry; rsCookies := cookies;
     rsBody := OAuthError errCode description |}.
Definition oidcError := oidcErrorWith [] None.
Definition Redirect (url : string) : Response :=
  {| rsStatus := 302; rsLocation := Some url; rsRetryAfter := None; rsCookies := [];
     rsBody := NoBody |}.
Definition JSON (cookies : list Cookie) (b : Body) : Response :=
  {| rsStatus := 200; rsLocation := None; rsRetryAfter := None; rsCookies := cookies;
     rsBody := b |}.

Definition CookieAccessToken : string := "vraxel_at".
Definition CookieRefreshToken : string := "vraxel_rt".
Definition CookieCSRFToken : string := "vraxel_csrf".
Definition RefreshCookiePath : string := "/oidc/token".

Definition IsSecureRequest (r : HttpReq) : bool :=
  if hTLS r then true else hForwardedProto r =s "https".

(** ** The handlers *)

Section Handlers.
Context (e : Env).

Definition authorizeValidateRequest (r : HttpReq) : result Response AuthorizeRequest :=
  let q := formGet (hQuery r) in
  let responseType := q "response_type"%string in
  let clientID := q "client_id"%string in
  let codeChallenge := q "code_challenge"%string in
  let codeChallengeMethod := q "code_challenge_method"%string in
  let bad := Redirect "/error?status=400" in
  if negb (responseType =s "code") then Err bad
  else match GetClient e clientID with
  | None => Err bad
  | Some client =>
      let pick :=
        if q "redirect_uri"%string =s "" then
          match clRedirectURIs client with u :: _ => Some u | [] => None end
        else Some (q "redirect_uri"%string) in
      match pick with
      | None => Err bad
      | Some redirectURI =>
          if negb (ValidateRedirectURI client redirectURI)
          then Err (Redirect "/error?status=403")
          else if clPublic client && (codeChallenge =s "") then Err bad
          else if negb (codeChallenge =s "") && negb (codeChallengeMethod =s "S256") then Err bad
          else Ok {| ResponseType := responseType; ClientID := clientID;
                     RedirectURI := redirectURI; ScopeStr := q "scope"%string;
                     State := q "state"%string; Nonce := q "nonce"%string;
                     CodeChallenge := codeChallenge;
                     CodeChallengeMethod := codeChallengeMethod |}
      end
  end.

Definition handleAuthorize (r : HttpReq) : M Response :=
  match authorizeValidateRequest r with
  | Err resp => mret resp
  | Ok req =>
      p ← StorePendingAuthorize req;
      mret (match p with
        | Err _ => Redirect "/error?status=500"
        | Ok requestID => Redirect (LoginURL (config e) +++ "?request_id=" +++ requestID)
        end)
  end.

(** [if auditLogger != nil { auditLogger.Log(...) }]. *)
Definition auditIf (b : bool) (ev : Z -> Event) : M unit := if b then Log ev else mret tt.

Definition authEvent (r : HttpReq) (uid : option Z) (username action : string) (status : Z)
    (success : bool) (detail : string) (at_ : Z) : Event :=
  {| evUserID := uid; evUsername := username; evAction := action; evStatusCode := status;
     evClientIP := hClientIP r; evSuccess := success; evDetail := detail; evCreatedAt := at_ |}.

Definition loginHandleFailure (r : HttpReq) (username err : string) : M Response :=
  let description := if err =s "account is not active" then "account is not active"%string
                     else "invalid credentials"%string in
  _ ← auditIf (audited e) (authEvent r None username "login_failed" 401 false description);
  mret (oidcError "invalid_grant" description 401).

Definition loginHandleThrottled (r : HttpReq) (username : string) (retryAfter : Z) : M Response :=
  _ ← auditIf (audited e)
        (authEvent r None username "login_throttled" 429 false "too many failed login attempts");
  mret (oidcErrorWith [] (Some (wholeSeconds retryAfter + 1))
          "rate_limited" "too many failed login attempts" 429).

Definition loginAuditSuccess (r : HttpReq) (username : string) (userID : Z) : M unit :=
  auditIf (audited e) (authEvent r (Some userID) username "login" 200 true "").

Definition loginCompleteAuthorize (requestID : string) (session : Session) : M Response :=
  p ← GetPendingAuthorize requestID;
  match p with
  | Err _ => mret (oidcError "invalid_request" "invalid or expired request_id" 400)
  | Ok authReq =>
      a ← Authorize e authReq (UserID session) (AuthTime session);
      mret (match a with
        | Err _ => oidcError "server_error" "failed to generate authorization code" 500
        | Ok url => JSON [] (RedirectBody url)
        end)
  end.

Definition handleLogin (r : HttpReq) : M Response :=
  match hLogin r with
  | None => mret (oidcError "invalid_request" "invalid request body" 400)
  | Some req =>
      if (lrUsername req =s "") || (lrPassword req =s "")
      then mret (oidcError "invalid_request" "username and password are required" 400)
      else
        let clientIP := hClientIP r in
        l ← LoginLocked e (lrUsername req) clientIP;
        let '(retryAfter, locked) := l in
        if locked : bool then loginHandleThrottled r (lrUsername req) retryAfter
        else
          s ← Login e (lrUsername req) (lrPassword req);
          match s with
          | Err err =>
              _ ← NoteLoginFailure e (lrUsername req) clientIP;
              loginHandleFailure r (lrUsername req) err
          | Ok (session, _) =>
              _ ← NoteLoginSuccess e (lrUsername req);
              _ ← loginAuditSuccess r (lrUsername req) (UserID session);
              if negb (lrRequestID req =s "") then loginCompleteAuthorize (lrRequestID req) session
              else mret (JSON [] (LoginInfo (SessionID session) (UserID session)))
          end
  end.

Definition writeTokenResponse (r : HttpReq) (tokens : TokenPair) : M Response :=
  let secure := IsSecureRequest r in
  let accessTTL := wholeSeconds (AccessTokenTTL (config e)) in
  let refreshTTL := wholeSeconds (RefreshTokenTTL (config e)) in
  let at_cookie := {| ckName := CookieAccessToken; ckValue := tpAccessToken tokens; ckPath := "/";
    ckHttpOnly := true; ckSecure := secure; ckSameSite := SameSiteLaxMode; ckMaxAge := accessTTL |} in
  let rt_cookies := if tpRefreshToken tokens =s "" then [] else
    [{| ckName := CookieRefreshToken; ckValue := tpRefreshToken tokens;
        ckPath := RefreshCookiePath; ckHttpOnly := true; ckSecure := secure;
        ckSameSite := SameSiteStrictMode; ckMaxAge := refreshTTL |}] in
  g ← GenerateCSRFToken;
  mret (match g with
    | Err _ => oidcErrorWith (at_cookie :: rt_cookies) None
                 "server_error" "failed to generate csrf token" 500
    | Ok csrfToken =>
        JSON (at_cookie :: rt_cookies ++
          [{| ckName := CookieCSRFToken; ckValue := csrfToken; ckPath := "/";
              ckHttpOnly := false; ckSecure := secure; ckSameSite := SameSiteLaxMode;
              ckMaxAge := refreshTTL |}])
          (TokenEnvelope (tpTokenType tokens) (tpExpiresIn tokens) (tpScope tokens))
    end).

(** The client authentication both grants begin with. *)
Definition authenticateClient (form : string -> string) (clientID : string) : option Response :=
  match GetClient e clientID with
  | None => Some (oidcError "invalid_client" "unknown client_id" 401)
  | Some client =>
      if clPublic client then None
      else
        let clientSecret := form "client_secret"%string in
        if (clientSecret =s "") || negb (clientSecret =s clSecret client)
        then Some (oidcError "invalid_client" "invalid client credentials" 401)
        else None
  end.

Definition handleCodeExchange (r : HttpReq) (form : string -> string) : M Response :=
  let req := {| cxCode := form "code"%string; cxRedirectURI := form "redirect_uri"%string;
                cxClientID := form "client_id"%string;
                cxCodeVerifier := form "code_verifier"%string |} in
  if (cxCode req =s "") || (cxClientID req =s "")
  then mret (oidcError "invalid_request" "code and client_id are required" 400)
  else match authenticateClient form (cxClientID req) with
  | Some resp => mret resp
  | None =>
      t ← ExchangeCode e req;
      match t with
      | Err _ => mret (oidcError "invalid_grant" "authorization code is invalid or expired" 400)
      | Ok tokenPair => writeTokenResponse r tokenPair
      end
  end.

(** [strings.Contains]. *)
Fixpoint Contains (s sub : string) : bool :=
  HasPrefix s sub || match s with EmptyString => false | String _ rest => Contains rest sub end.

Definition handleRefreshToken (r : HttpReq) (form : string -> string) : M Response :=
  let req := {| rqRefreshToken := formGet (hCookies r) CookieRefreshToken;
                rqClientID := form "client_id"%string; rqScope := form "scope"%string |} in
  if (rqRefreshToken req =s "") || (rqClientID req =s "")
  then mret (oidcError "invalid_request" "refresh_token and client_id are required" 400)
  else match authenticateClient form (rqClientID req) with
  | Some resp => mret resp
  | None =>
      t ← RefreshTokens e req;
      match t with
      | Err err =>
          let '(action, detail) :=
            if Contains err "not active" then ("token_refresh_blocked", "account is not active")
            else ("token_refresh_failed", "refresh token is invalid or expired") in
          _ ← auditIf (audited e) (authEvent r None "" action 400 false detail);
          mret (oidcError "invalid_grant" "refresh token is invalid or expired" 400)
      | Ok tokenPair =>
          _ ← auditIf (audited e) (authEvent r None "" "token_refresh" 200 true "");
          writeTokenResponse r tokenPair
      end
  end%string.

Definition handleToken (r : HttpReq) : M Response :=
  match hForm r with
  | None => mret (oidcError "invalid_request" "invalid form data" 400)
  | Some f =>
      let form := formGet f in
      let grantType := form "grant_type"%string in
      if grantType =s "authorization_code" then handleCodeExchange r form
      else if grantType =s "refresh_token" then handleRefreshToken r form
      else mret (oidcError "unsupported_grant_type"
                   "only authorization_code and refresh_token are supported" 400)
  end.

Definition expireCookie (r : HttpReq) (name path : string) (ss : SameSite) (httpOnly : bool) : Cookie :=
  {| ckName := name; ckValue := ""; ckPath := path; ckHttpOnly := httpOnly;
     ckSecure := IsSecureRequest r; ckSameSite := ss; ckMaxAge := -1 |}.

Definition clearAuthCookies (r : HttpReq) : list Cookie :=
  [ expireCookie r CookieAccessToken "/" SameSiteLaxMode true;
    expireCookie r CookieRefreshToken RefreshCookiePath SameSiteStrictMode true;
    expireCookie r CookieCSRFToken "/" SameSiteLaxMode false ].

Definition resolveLogoutUser (r : HttpReq) : M (Z * string) :=
  match hCookies r !! CookieAccessToken with
  | None => mret (0, ""%string)
  | Some v =>
      if v =s "" then mret (0, ""%string)
      else
        b ← VerifyBearerToken e v;
        match b with
        | Err _ => mret (0, ""%string)
        | Ok uid =>
            c ← CheckUserActive uid;
            _ ← RevokeUserRefreshTokens uid;
            mret (uid, match c with Ok u => u | Err _ => ""%string end)
        end
  end.

Definition handleLogout (r : HttpReq) : M Response :=
  u ← resolveLogoutUser r;
  let '(userID, username) := u in
  let cookies := clearAuthCookies r in
  _ ← auditIf (audited e && (0 <? userID))
        (authEvent r (Some userID) username "logout" 204 true "");
  mret {| rsStatus := 204; rsLocation := None; rsRetryAfter := None; rsCookies := cookies;
          rsBody := NoBody |}.

Definition handleUserInfo (r : HttpReq) : M Response :=
  match hCookies r !! CookieAccessToken with
  | None => mret (oidcError "invalid_token" "authentication required" 401)
  | Some v =>
      if v =s "" then mret (oidcError "invalid_token" "authentication required" 401)
      else
        u ← UserInfoForToken e v;
        mret (match u with
          | Err _ => oidcError "invalid_token" "invalid or expired token" 401
          | Ok userInfo => JSON [] (UserInfoBody userInfo)
          end)
  end.

(** [filters.WithAuthentication]: the user id and name put in the request
    context, or the 401 message. *)
Definition WithAuthentication (r : HttpReq) : M (result string (Z * string)) :=
  match hCookies r !! CookieAccessToken with
  | None => mret (Err "authentication required"%string)
  | Some v =>
      if v =s "" then mret (Err "authentication required"%string)
      else
        b ← VerifyBearerToken e v;
        match b with
        | Err _ => mret (Err "invalid or expired token"%string)
        | Ok userID =>
            c ← CheckUserActive userID;
            mret (match c with
              | Err _ => Err "account is not active"%string
              | Ok username => Ok (userID, username)
              end)
        end
  end.

(** The public mux, the middleware, and the refresh-token clean-up. *)
Inductive endpoint :=
| EAuthorize (r : HttpReq) | ELogin (r : HttpReq) | EToken (r : HttpReq)
| ELogout (r : HttpReq) | EUserInfo (r : HttpReq) | EApi (r : HttpReq) | ECleanup.

Definition serve (ep : endpoint) : M (option Response) :=
  match ep with
  | EAuthorize r => x ← handleAuthorize r; mret (Some x)
  | ELogin r => x ← handleLogin r; mret (Some x)
  | EToken r => x ← handleToken r; mret (Some x)
  | ELogout r => x ← handleLogout r; mret (Some x)
  | EUserInfo r => x ← handleUserInfo r; mret (Some x)
  | EApi r => _ ← WithAuthentication r; mret None
  | ECleanup => _ ← DeleteExpired; mret None
  end.

End Handlers.

End Provider.
