(* ===== verification/OidcFlow.v ===== *)
(** * OIDC: program logic and flow theorems

    A small Hoare logic for the handlers' state monad, invariants of the
    tables, and the theorems about codes, refresh tokens and sessions. *)

From S2P Require Import Prelude OidcStore OidcProvider.

Module Flow.
Import OStore Provider.

(** ** Triples *)

Definition triple {A} (P : world -> Prop) (m : M A) (Q : A -> world -> Prop) : Prop :=
  forall w, P w -> Q (fst (m w)) (snd (m w)).

Notation preserves I m := (triple I m (fun _ => I)).

Section Logic.
Context {A B : Type}.

Lemma triple_ret (a : A) (Q : A -> world -> Prop) : triple (Q a) (mret a) Q.
Proof. intros w H. exact H. Qed.

Lemma triple_bind P (m : M A) R (f : A -> M B) Q :
  triple P m R -> (forall a, triple (R a) (f a) Q) -> triple P (m ≫= f) Q.
Proof.
  intros Hm Hf w HP. specialize (Hm w HP). unfold mbind, M_bind.
  destruct (m w) as [a w']. by apply Hf.
Qed.

Lemma triple_conseq (P P' : world -> Prop) (m : M A) (Q Q' : A -> world -> Prop) :
  triple P' m Q' -> (forall w, P w -> P' w) -> (forall a w, Q' a w -> Q a w) -> triple P m Q.
Proof. intros H HP HQ w Hw. by apply HQ, H, HP. Qed.

(** Extract a fact from the precondition. *)
Lemma triple_pure (φ : Prop) (P P' : world -> Prop) (m : M A) Q :
  (φ -> triple P' m Q) -> (forall w, P w -> φ /\ P' w) -> triple P m Q.
Proof. intros H HP w Hw. destruct (HP w Hw). by apply H. Qed.
End Logic.

(** ** Invariants that do not look at the environment

    [frame I]: [I] survives the passing of time, queries using up the fault
    oracle, draws of randomness, audit logging and changes of the session
    table. *)
Class frame (I : world -> Prop) : Prop := {
  frame_env w c ts fs cs rs :
    clock w <= c -> fs `suffix_of` faults w -> rs `suffix_of` rands w ->
    I w -> I (set_env c ts fs cs rs w);
  frame_audit w l : I w -> I (set_audit l w);
  frame_sessions w t : I w -> I (set_sessions t w)
}.

Section Frame.
Context (I : world -> Prop) `{!frame I}.

Lemma pres_tick : preserves I tick.
Proof using Type*.
  intros w H. unfold tick. destruct (ticks w); cbn; [done|].
  apply frame_env; [lia | done..].
Qed.

Lemma pres_Now : preserves I Now.
Proof using Type*. intros w H. cbn. by apply pres_tick. Qed.

Lemma pres_flip : preserves I flip.
Proof using Type*.
  intros w H. unfold flip. destruct (coins w); cbn; [done|]. by apply frame_env.
Qed.

(** A drawn code is the encoding of the supply's head. *)
Lemma triple_GenerateCode :
  triple I GenerateCode (fun r w => I w).
Proof using Type*.
  intros w H. unfold GenerateCode. destruct (rands w) as [|r rs] eqn:E; cbn; [done|].
  apply frame_env; [done | done | rewrite E; by apply suffix_cons_r | done].
Qed.

Lemma triple_query {A} (q : world -> result string A * world) (Q : result string A -> world -> Prop) :
  (forall w, I w -> Q (fst (q w)) (snd (q w))) ->
  (forall w, I w -> Q (Err "db error"%string) w) ->
  triple I (query q) Q.
Proof using Type*.
  intros Hq Hf w H. unfold query. pose proof (pres_tick w H) as H1.
  destruct (faults (snd (tick w))) as [|[] fs] eqn:E; cbn; [by apply Hq | apply Hf | apply Hq];
    (apply frame_env; [done | rewrite E; by apply suffix_cons_r | done | done]).
Qed.

Lemma pres_query {A} (q : world -> result string A * world) :
  (forall w, I w -> I (snd (q w))) -> preserves I (query q).
Proof using Type*. intros H. by apply triple_query. Qed.

Lemma pres_Log ev : preserves I (Log ev).
Proof using Type*.
  apply triple_bind with (R := fun _ => I); [apply pres_Now|].
  intros a w H. cbn. by apply frame_audit.
Qed.
End Frame.

(** One structural step of a preservation proof; leaves go to [vraxel]. *)
Ltac pres_step :=
  lazymatch goal with
  | |- triple ?I (mbind ?f ?m) _ => apply triple_bind with (R := fun _ => I); [|intros ?]
  | |- triple _ (mret _) _ => let w := fresh in let H := fresh in intros w H; exact H
  | |- triple _ (if ?b then _ else _) _ => destruct b
  | |- triple _ (match ?x with _ => _ end) _ => destruct x
  end.
Ltac pres := repeat (cbv zeta; pres_step); eauto with vraxel.

#[export] Hint Resolve pres_Now pres_flip pres_Log triple_GenerateCode : vraxel.
#[export] Hint Extern 1 (frame _) => apply _ : vraxel.

(** ** Operations every frame invariant survives *)

Section Reads.
Context (e : Env) (I : world -> Prop) `{!frame I}.

Lemma pres_read {A} (q : world -> result string A * world) :
  (forall w, snd (q w) = w) -> preserves I (query q).
Proof using Type*. intros H. apply pres_query; [apply _|]. intros w Hw. by rewrite H. Qed.

Lemma pres_lockedScan l : preserves I (lockedScan l).
Proof using Type*.
  induction l as [|[k lim] l IH]; cbn [lockedScan]; [pres|].
  apply triple_bind with (R := fun _ => I); [by apply pres_read|]. intros r. pres.
Qed.

Lemma pres_users :
  (forall i, preserves I (GetByIdentifier i)) /\ (forall i, preserves I (GetByID i))
  /\ (forall i, preserves I (UpdateLastLogin i)) /\ (forall i, preserves I (CheckUserActive i)).
Proof using Type*.
  assert (H : forall i, preserves I (GetByID i)).
  { intros i. apply pres_read. intros w. by destruct (users w !! i). }
  split_and!; [|done| |]; intros i.
  - apply pres_read. intros w. by destruct (filter _ _).
  - by apply pres_read.
  - unfold CheckUserActive. pres.
Qed.

Lemma pres_Login i p : preserves I (Login e i p).
Proof using Type*.
  destruct pres_users as (H1 & H2 & H3 & H4).
  assert (Hs : forall s, preserves I (sessionCreate s)).
  { intros s. unfold sessionCreate. pres. apply pres_query; [apply _|]. intros w H.
    destruct (sessions w !! SessionID s); [done | by apply frame_sessions]. }
  unfold Login, GenerateSessionID. pres.
Qed.

Lemma pres_VerifyBearerToken t : preserves I (VerifyBearerToken e t).
Proof using Type*. unfold VerifyBearerToken, VerifyAccessToken. pres. Qed.

Lemma pres_auditIf b ev : preserves I (auditIf b ev).
Proof using Type*. unfold auditIf. pres. Qed.

End Reads.

(** ** Invariants of the whole mux

    What an invariant must promise about the statements on the code,
    pending-request and refresh-token tables for every endpoint to keep it.
    [G] holds of the authorization requests that [I] lets out of the
    pending table. *)
Class flowInv (e : Env) (G : AuthorizeRequest -> Prop) (I : world -> Prop) : Prop := {
  fi_frame :: frame I;
  fi_throttle w t : I w -> I (set_throttle t w);
  fi_pending r req : authorizeValidateRequest e r = Ok req -> preserves I (pendingStore req);
  fi_consume id : triple I (pendingConsume id) (fun r w => I w /\ forall req, r = Ok req -> G req);
  fi_authorize req uid t : G req -> preserves I (Authorize e req uid t);
  fi_codeConsume c : preserves I (codeConsume c);
  fi_issueRefresh uid cid scopes a i : preserves I (issueRefresh e uid cid scopes a i);
  fi_refreshConsume h : preserves I (ConsumeByHash h);
  fi_revoke u : preserves I (RevokeByUserID u);
  fi_cleanup : preserves I DeleteExpired
}.

Section Mux.
Context (e : Env) (G : AuthorizeRequest -> Prop) (I : world -> Prop) `{FI : !flowInv e G I}.

Lemma pres_throttle_ops : 
  (forall u ip, preserves I (LoginLocked e u ip))
  /\ (forall u ip, preserves I (NoteLoginFailure e u ip))
  /\ (forall u, preserves I (NoteLoginSuccess e u)).
Proof using FI.
  assert (Hb : forall k s, preserves I (throttleBump k s)).
  { intros k s. apply pres_query; [apply _|]. intros w H.
    destruct (bumpRow _ _ _); [by eapply fi_throttle | done]. }
  assert (Hr : forall k, preserves I (throttleReset k)).
  { intros k. apply pres_query; [apply _|]. intros w H. by eapply fi_throttle. }
  assert (Hs : forall s, preserves I (throttleSweep s)).
  { intros s. apply pres_query; [apply _|]. intros w H. by eapply fi_throttle. }
  split_and!; intros; unfold LoginLocked, OStore.LoginLocked, NoteLoginFailure,
    OStore.NoteLoginFailure, NoteLoginSuccess, OStore.NoteLoginSuccess; pres.
  apply (pres_lockedScan I).
Qed.

Lemma pres_issueTokens u c s n t : preserves I (issueTokens e u c s n t).
Proof using FI.
  destruct (pres_users I) as (H1 & H2 & H3 & H4). pose proof fi_issueRefresh.
  unfold issueTokens, IssueAccessToken, IssueIDToken. pres.
Qed.

Lemma pres_ExchangeCode r : preserves I (ExchangeCode e r).
Proof using FI.
  pose proof fi_codeConsume. pose proof pres_issueTokens. unfold ExchangeCode. pres.
Qed.

Lemma pres_RefreshTokens r : preserves I (RefreshTokens e r).
Proof using FI.
  destruct (pres_users I) as (H1 & H2 & H3 & H4). pose proof pres_issueTokens.
  pose proof fi_refreshConsume.
  unfold RefreshTokens, refreshConsume, OStore.refreshConsume. pres.
Qed.

Lemma pres_loginComplete id s : preserves I (loginCompleteAuthorize e id s).
Proof using FI.
  unfold loginCompleteAuthorize.
  eapply triple_bind; [apply fi_consume|]. intros [req|err]; [|intros w [H _]; exact H].
  apply (triple_pure (G req) _ I).
  - intros HG. pose proof (fi_authorize req). pres.
  - intros w [H HG]. split; [by apply HG | done].
Qed.

Lemma pres_handleAuthorize r : preserves I (handleAuthorize e r).
Proof using FI.
  unfold handleAuthorize. destruct (authorizeValidateRequest e r) as [req|] eqn:E; [|pres].
  pose proof (fi_pending r req E). pres.
Qed.

Lemma pres_handleLogin r : preserves I (handleLogin e r).
Proof using FI.
  destruct pres_throttle_ops as (H1 & H2 & H3). pose proof (pres_Login e I).
  pose proof (pres_auditIf I). pose proof pres_loginComplete.
  unfold handleLogin, loginHandleThrottled, loginHandleFailure, loginAuditSuccess. pres.
Qed.

Lemma pres_handleToken r : preserves I (handleToken e r).
Proof using FI.
  pose proof pres_ExchangeCode. pose proof pres_RefreshTokens. pose proof (pres_auditIf I).
  unfold handleToken, handleCodeExchange, handleRefreshToken, writeTokenResponse, GenerateCSRFToken.
  pres.
Qed.

Lemma pres_handleLogout r : preserves I (handleLogout e r).
Proof using FI.
  destruct (pres_users I) as (H1 & H2 & H3 & H4). pose proof (pres_VerifyBearerToken e I).
  pose proof fi_revoke. pose proof (pres_auditIf I).
  unfold handleLogout, resolveLogoutUser. pres.
Qed.

Lemma pres_serve ep : preserves I (serve e ep).
Proof using FI.
  destruct (pres_users I) as (H1 & H2 & H3 & H4). pose proof (pres_VerifyBearerToken e I).
  pose proof fi_cleanup. pose proof pres_handleAuthorize. pose proof pres_handleLogin.
  pose proof pres_handleToken. pose proof pres_handleLogout.
  destruct ep; cbn [serve]; unfold handleUserInfo, WithAuthentication, UserInfoForToken,
    VerifyAccessToken; pres.
Qed.

(** ** Runs of the mux *)

Fixpoint runAll (eps : list endpoint) : M unit :=
  match eps with
  | [] => mret tt
  | ep :: rest => _ ← serve e ep; runAll rest
  end.

Lemma pres_runAll eps : preserves I (runAll eps).
Proof using FI.
  induction eps as [|ep eps IH]; cbn [runAll]; [pres|].
  eapply triple_bind; [apply pres_serve | done].
Qed.

End Mux.

(** ** Invariants that ignore a table *)

Section Ignore.
Context (I : world -> Prop) `{!frame I}.

Lemma pres_pending_ops : (forall w t, I w -> I (set_pendings t w)) ->
  (forall req, preserves I (pendingStore req))
  /\ forall id, triple I (pendingConsume id) (fun r w => I w /\ forall req, r = Ok req -> True).
Proof using Type*.
  intros Hp. split; [intros req; unfold pendingStore|intros id].
  - pres. apply pres_query; [done|]. intros w H. case_match; [done | by apply Hp].
  - apply (triple_conseq _ I _ _ (fun _ => I)); [|done|done]. unfold pendingConsume. pres.
    apply pres_query; [done|]. intros w H. case_match; [|done]. case_match; [by apply Hp | done].
Qed.

Lemma pres_code_ops : (forall w t, I w -> I (set_codes t w)) ->
  (forall c, preserves I (codeStore c)) /\ forall s, preserves I (codeConsume s).
Proof using Type*.
  intros Hc. split; intros c; [unfold codeStore | unfold codeConsume]; pres;
    apply pres_query; try done; intros w H; repeat case_match; try done; by apply Hc.
Qed.

Lemma pres_Authorize : (forall w t, I w -> I (set_codes t w)) ->
  forall e req uid t, preserves I (Authorize e req uid t).
Proof using Type*.
  intros Hc e req uid t. destruct (pres_code_ops Hc) as [H1 _]. unfold Authorize. pres.
Qed.

Lemma pres_refresh_ops : (forall w t, I w -> I (set_refreshes t w)) ->
  (forall e u c s a i, preserves I (issueRefresh e u c s a i))
  /\ (forall h, preserves I (ConsumeByHash h)) /\ (forall u, preserves I (RevokeByUserID u))
  /\ preserves I DeleteExpired.
Proof using Type*.
  intros Hr. split_and!; intros; [unfold issueRefresh, GenerateRefreshToken; pres| | |];
    apply pres_query; try done; intros w H; repeat case_match; try done; by apply Hr.
Qed.
End Ignore.

(** ** Spent authorization codes *)

Definition undrawn (f : string -> string) (c : string) (w : world) : Prop :=
  forall r, Some r ∈ rands w -> f (hexEncode r) <> c.

Lemma undrawn_env f c w cl ts fs cs rs :
  rs `suffix_of` rands w -> undrawn f c w -> undrawn f c (set_env cl ts fs cs rs w).
Proof. intros [pre Hs] H r Hr. apply H. rewrite Hs, elem_of_app. by right. Qed.

#[export] Instance undrawn_frame f c : frame (undrawn f c).
Proof. split; [|done..]. intros. by apply undrawn_env. Qed.

(** A draw differs from every string that is still undrawn. *)
Lemma GenerateCode_undrawn f c (I : world -> Prop) `{!frame I} :
  triple (fun w => I w /\ undrawn f c w) GenerateCode
    (fun r w => (I w /\ undrawn f c w) /\ forall s, r = Ok s -> f s <> c).
Proof.
  intros w [HI Hu]. split.
  - exact (conj (triple_GenerateCode I w HI) (triple_GenerateCode (undrawn f c) w Hu)).
  - intros s. unfold GenerateCode. destruct (rands w) as [|[b|] rs] eqn:E; cbn; try done.
    intros [= <-]. apply Hu. rewrite E. by left.
Qed.

Definition spentCode (c : string) (w : world) : Prop :=
  codes w !! c = None /\ undrawn id c w.

#[export] Instance spentCode_frame c : frame (spentCode c).
Proof.
  split; [|done..]. intros w cl ts fs cs rs _ _ Hs [Hc Hu]. split; [done|]. by apply undrawn_env.
Qed.

Lemma spentCode_codeStore c ac : acCode ac <> c -> preserves (spentCode c) (codeStore ac).
Proof.
  intros Hne. unfold codeStore. pres. apply pres_query; [apply _|].
  intros w [Hc Hu]. case_match; [done|]. split; [|done]. cbn. by rewrite lookup_insert_ne.
Qed.

#[export] Instance spentCode_flow e c : flowInv e (fun _ => True) (spentCode c).
Proof.
  pose proof (spentCode_frame c) as HF.
  destruct (pres_pending_ops (spentCode c)) as [Hp1 Hp2]; [done|].
  destruct (pres_refresh_ops (spentCode c)) as (Hr1 & Hr2 & Hr3 & Hr4); [done|].
  split; auto.
  - intros req uid t _. unfold Authorize.
    apply (triple_bind _ _ (fun r w => spentCode c w /\ forall s, r = Ok s -> s <> c)).
    + apply (triple_conseq _ (fun w => spentCode c w /\ undrawn id c w) _ _
               (fun r w => (spentCode c w /\ undrawn id c w) /\ forall s, r = Ok s -> id s <> c)).
      * by apply GenerateCode_undrawn.
      * intros w [? ?]. done.
      * intros r w [[? _] Hs]. done.
    + intros [s|err]; [|intros w [H _]; exact H].
      apply (triple_pure (s <> c) _ (spentCode c)); [intros Hne | naive_solver].
      pres. by apply spentCode_codeStore.
  - intros s. unfold codeConsume. pres. apply pres_query; [done|]. intros w [Hc Hu].
    repeat case_match; try done. split; [|done]. cbn.
    destruct (decide (s = c)) as [->|]; [by rewrite lookup_delete_eq | by rewrite lookup_delete_ne].
Qed.

Definition codeNotFound : string := "authorization code not found".

(** A code is gone after the statement that hands it out. *)
Lemma codeConsume_spends c :
  triple (undrawn id c) (codeConsume c)
    (fun r w => undrawn id c w /\ (r = Err codeNotFound \/ codes w !! c = None)).
Proof.
  unfold codeConsume.
  apply (triple_bind _ _ (fun r w => undrawn id c w
           /\ ((exists x, r = Err x) \/ codes w !! c = None))).
  - apply (triple_query (undrawn id c)); [|intros w H; split; [done|left; by eexists]].
    intros w H. repeat case_match; cbn; (split; [done|]); try (left; by eexists).
    right. by rewrite lookup_delete_eq.
  - intros [row|err] w [Hu [[x [=]]|H]]; cbn; split; auto.
Qed.

Lemma codeConsume_spent c :
  triple (spentCode c) (codeConsume c) (fun r _ => r = Err codeNotFound).
Proof.
  unfold codeConsume.
  apply (triple_bind _ _ (fun r w => exists x, r = Err x)).
  - apply (triple_query (spentCode c)).
    + intros w [Hc _]. rewrite Hc. by exists "no rows"%string.
    + intros w _. by exists "db error"%string.
  - intros r w [x ->]. done.
Qed.

Lemma ExchangeCode_spends e req :
  triple (undrawn id (cxCode req)) (ExchangeCode e req)
    (fun r w => r = Err ("invalid authorization code: " +++ codeNotFound)
                \/ spentCode (cxCode req) w).
Proof.
  unfold ExchangeCode. eapply triple_bind; [apply codeConsume_spends|].
  intros [code|err] w [Hu H].
  - destruct H as [[=]|Hc]. right.
    assert (HI : forall A (m : M A), preserves (spentCode (cxCode req)) m ->
                   spentCode (cxCode req) (snd (m w))).
    { intros A m Hm. apply Hm. by split. }
    apply HI. pose proof (pres_issueTokens e (fun _ => True) (spentCode (cxCode req))). pres.
  - destruct H as [[= ->]|Hc]; [by left|]. right. by split.
Qed.

Lemma ExchangeCode_spent e req :
  triple (spentCode (cxCode req)) (ExchangeCode e req)
    (fun r _ => r = Err ("invalid authorization code: " +++ codeNotFound)).
Proof.
  unfold ExchangeCode. eapply triple_bind; [apply codeConsume_spent|]. by intros r w ->.
Qed.

(** ** Spent refresh tokens *)

Definition spentRefresh (e : Env) (h : string) (w : world) : Prop :=
  (forall row, refreshes w !! h = Some row -> rr_revoked row = true)
  /\ undrawn (HashToken e) h w.

#[export] Instance spentRefresh_frame e h : frame (spentRefresh e h).
Proof.
  split; [|done..]. intros w cl ts fs cs rs _ _ Hs [Hc Hu]. split; [done|]. by apply undrawn_env.
Qed.

Lemma spentRefresh_issueRefresh e h uid cid scopes a i :
  preserves (spentRefresh e h) (issueRefresh e uid cid scopes a i).
Proof.
  unfold issueRefresh, GenerateRefreshToken.
  apply (triple_bind _ _ (fun r w => spentRefresh e h w /\ forall s, r = Ok s -> HashToken e s <> h)).
  - apply (triple_conseq _ (fun w => spentRefresh e h w /\ undrawn (HashToken e) h w) _ _
             (fun r w => (spentRefresh e h w /\ undrawn (HashToken e) h w)
                         /\ forall s, r = Ok s -> HashToken e s <> h)).
    + by apply GenerateCode_undrawn, _.
    + intros w [? ?]. done.
    + intros r w [[? _] Hs]. done.
  - intros [s|err]; [|intros w [H _]; exact H].
    apply (triple_pure (HashToken e s <> h) _ (spentRefresh e h)); [intros Hne | naive_solver].
    pres. apply pres_query; [apply _|].
    intros w [Hc Hu]. case_match; [done|]. split; [|done]. cbn [refreshes snd set_refreshes rtTokenHash].
    intros row. rewrite lookup_insert_ne by done. apply Hc.
Qed.

#[export] Instance spentRefresh_flow e h : flowInv e (fun _ => True) (spentRefresh e h).
Proof.
  destruct (pres_pending_ops (spentRefresh e h)) as [Hp1 Hp2]; [done|].
  destruct (pres_code_ops (spentRefresh e h)) as (_ & Hc2); [done|].
  split; auto using spentRefresh_issueRefresh with typeclass_instances.
  - intros. apply pres_Authorize; [apply _ | done].
  - intros h'. apply pres_query; [apply _|]. intros w [Hr Hu]. repeat case_match; try done.
    split; [|done]. intros row. cbn. rewrite lookup_insert. case_decide; [|apply Hr].
    by intros [= <-].
  - intros u. apply pres_query; [apply _|]. intros w [Hr Hu]. split; [|done].
    intros row. cbn. rewrite lookup_fmap. destruct (refreshes w !! h) as [r|]; [|done].
    cbn. intros [= <-]. case_match; [done|]. by apply Hr.
  - apply pres_query; [apply _|]. intros w [Hr Hu]. split; [|done].
    intros row. cbn. rewrite map_lookup_filter_Some. intros [H _]. by apply Hr.
Qed.

Lemma ConsumeByHash_spends e h :
  triple (undrawn (HashToken e) h) (ConsumeByHash h)
    (fun r w => (exists x, r = Err x) \/ spentRefresh e h w).
Proof.
  apply (triple_query (undrawn (HashToken e) h)); [|intros; left; by eexists].
  intros w Hu. repeat case_match; try (left; by eexists). right. split; [|done].
  intros row. cbn. rewrite lookup_insert_eq. by intros [= <-].
Qed.

Lemma ConsumeByHash_spent e h :
  triple (spentRefresh e h) (ConsumeByHash h) (fun r _ => exists x, r = Err x).
Proof.
  apply (triple_query (spentRefresh e h)); [|by eexists].
  intros w [Hr _]. case_match; [|by eexists]. rewrite (Hr _ eq_refl). by eexists.
Qed.

Definition refreshInvalid : string := "invalid refresh token".

Lemma refreshConsume_spends e t :
  triple (undrawn (HashToken e) (HashToken e t)) (refreshConsume e t)
    (fun r w => r = Err refreshInvalid \/ spentRefresh e (HashToken e t) w).
Proof.
  unfold refreshConsume, OStore.refreshConsume.
  eapply triple_bind; [apply ConsumeByHash_spends|].
  intros [row|err] w [[x [=]]|H]; cbn; auto.
Qed.

Lemma refreshConsume_spent e t :
  triple (spentRefresh e (HashToken e t)) (refreshConsume e t)
    (fun r _ => r = Err refreshInvalid).
Proof.
  unfold refreshConsume, OStore.refreshConsume.
  eapply triple_bind; [apply ConsumeByHash_spent|]. by intros r w [x ->].
Qed.

Lemma RefreshTokens_spends e req :
  triple (undrawn (HashToken e) (HashToken e (rqRefreshToken req))) (RefreshTokens e req)
    (fun r w => r = Err ("invalid refresh token: " +++ refreshInvalid)
                \/ spentRefresh e (HashToken e (rqRefreshToken req)) w).
Proof.
  unfold RefreshTokens. eapply triple_bind; [apply refreshConsume_spends|].
  set (h := HashToken e (rqRefreshToken req)).
  pose proof (pres_issueTokens e (fun _ => True) (spentRefresh e h)).
  destruct (pres_users (spentRefresh e h)) as (_ & _ & _ & HA).
  intros [rt|err] w [Hu|Hs]; try done.
  - right. assert (HI : forall A (m : M A), preserves (spentRefresh e h) m ->
                     spentRefresh e h (snd (m w))) by (intros A m Hm; by apply Hm).
    apply HI. pres.
  - left. cbn. by injection Hu as ->.
  - by right.
Qed.

Lemma RefreshTokens_spent e req :
  triple (spentRefresh e (HashToken e (rqRefreshToken req))) (RefreshTokens e req)
    (fun r _ => r = Err ("invalid refresh token: " +++ refreshInvalid)).
Proof.
  unfold RefreshTokens. eapply triple_bind; [apply refreshConsume_spent|]. by intros r w ->.
Qed.

(** Lifting a triple to concrete runs. *)
Lemma triple_run {A} (P : world -> Prop) (m : M A) Q w a w' :
  triple P m Q -> P w -> m w = (a, w') -> Q a w'.
Proof. intros H HP E. specialize (H w HP). by rewrite E in H. Qed.

(** ** What a successful exchange proves *)

(** The tables an exchange starts from: [w0] seen later. *)
Definition since (w0 w : world) : Prop :=
  users w = users w0 /\ codes w = codes w0 /\ refreshes w = refreshes w0
  /\ clock w0 <= clock w.

#[export] Instance since_frame w0 : frame (since w0).
Proof.
  split; intros w *; unfold since; cbn; [|done..]. intros Hc _ _ (? & ? & ? & ?).
  split_and!; try done. lia.
Qed.

Definition since' (w0 w : world) : Prop :=
  users w = users w0 /\ refreshes w = refreshes w0 /\ clock w0 <= clock w.

#[export] Instance since'_frame w0 : frame (since' w0).
Proof.
  split; intros w *; unfold since'; cbn; [|done..]. intros Hc _ _ (? & ? & ?).
  split_and!; try done. lia.
Qed.

Lemma Now_since w0 : triple (since' w0) Now (fun t w => since' w0 w /\ clock w0 <= t).
Proof.
  intros w H. pose proof (pres_Now (since' w0) w H) as H'. split; [done|].
  destruct H' as (_ & _ & Hc). exact Hc.
Qed.

Lemma GetByID_since w0 uid :
  triple (since' w0) (GetByID uid)
    (fun r w => since' w0 w /\ forall u, r = Ok u -> is_Some (users w0 !! uid)).
Proof.
  apply (triple_query (since' w0)); [|done]. intros w (Hu & H).
  rewrite Hu. destruct (users w0 !! uid) as [u|] eqn:E; (split; [by split|]); [|done].
  intros. by eexists.
Qed.

(** What [issueTokens] hands out: a signed access token for the user, and a
    live refresh token bound to the user and the client. *)
Definition issued (e : Env) (w0 : world) (uid : Z) (cid : string) (scopes : list string)
    (tp : TokenPair) (w : world) : Prop :=
  is_Some (users w0 !! uid)
  /\ (exists now, clock w0 <= now
        /\ jwtSign e (accessClaims e uid cid scopes now) = Ok (tpAccessToken tp))
  /\ exists now, clock w0 <= now
       /\ refreshes w0 !! HashToken e (tpRefreshToken tp) = None
       /\ refreshes w = <[HashToken e (tpRefreshToken tp) :=
            {| rr_user_id := uid; rr_client_id := cid; rr_scope := Join scopes " ";
               rr_expires_at := now + RefreshTokenTTL (config e); rr_revoked := false |}]>
            (refreshes w0).

Lemma issueRefresh_issued e w0 uid cid scopes a i :
  is_Some (users w0 !! uid) ->
  (exists now, clock w0 <= now /\ jwtSign e (accessClaims e uid cid scopes now) = Ok a) ->
  triple (since' w0) (issueRefresh e uid cid scopes a i)
    (fun r w => forall tp, r = Ok tp -> issued e w0 uid cid scopes tp w).
Proof.
  intros Hu Ha. unfold issueRefresh, GenerateRefreshToken.
  eapply triple_bind; [apply (triple_GenerateCode (since' w0))|]. intros [rt|err]; [|done].
  eapply triple_bind; [apply Now_since|]. intros now.
  apply (triple_bind _ _ (fun r w => forall x, r = Ok x -> clock w0 <= now
    /\ refreshes w0 !! HashToken e rt = None
    /\ refreshes w = <[HashToken e rt :=
            {| rr_user_id := uid; rr_client_id := cid; rr_scope := Join scopes " ";
               rr_expires_at := now + RefreshTokenTTL (config e); rr_revoked := false |}]>
            (refreshes w0))).
  - apply (triple_pure (clock w0 <= now) _ (since' w0)); [intros Hn | naive_solver].
    apply (triple_query (since' w0)); [|done]. intros w (_ & Hr & _). cbn [rtTokenHash].
    rewrite Hr. case_match eqn:E; cbn; [done|]. intros x _. split_and!; done.
  - intros [u|err] w H; cbn; [|done]. intros tp [= <-]. destruct (H u eq_refl) as (? & ? & ?).
    split_and!; [done..|]. exists now. done.
Qed.

Lemma issueTokens_issued e w0 uid cid scopes nonce t :
  triple (since' w0) (issueTokens e uid cid scopes nonce t)
    (fun r w => forall tp, r = Ok tp -> issued e w0 uid cid scopes tp w).
Proof.
  unfold issueTokens, IssueAccessToken.
  apply (triple_bind _ _ (fun r w => since' w0 w /\ forall a, r = Ok a ->
    exists now, clock w0 <= now /\ jwtSign e (accessClaims e uid cid scopes now) = Ok a)).
  - eapply triple_bind; [apply Now_since|]. intros now w [H Hn]. cbn. split; [done|].
    intros a Ha. by exists now.
  - intros [a|err]; [|by intros w _ tp].
    apply (triple_pure (exists now, clock w0 <= now
      /\ jwtSign e (accessClaims e uid cid scopes now) = Ok a) _ (since' w0));
      [intros Ha | intros w [? Hx]; split; [by apply Hx | done]].
    eapply triple_bind; [apply GetByID_since|]. intros [u|err]; [|by intros w _ tp].
    apply (triple_pure (is_Some (users w0 !! uid)) _ (since' w0));
      [intros Hu | intros w [? Hx]; split; [by eapply Hx | done]].
    case_match; [|by apply issueRefresh_issued].
    apply (triple_bind _ _ (fun _ => since' w0)); [unfold IssueIDToken; pres|].
    intros [i|err]; [by apply issueRefresh_issued | by intros w _ tp].
Qed.

Lemma codeConsume_sound w0 c :
  triple (since w0) (codeConsume c)
    (fun r w => since' w0 w /\ forall ac, r = Ok ac -> exists row,
       codes w0 !! c = Some row /\ cr_consumed row = false /\ clock w0 < cr_expires_at row
       /\ ac = {| acCode := c; acClientID := cr_client_id row; acUserID := cr_user_id row;
                  acRedirectURI := cr_redirect_uri row; acScopes := Split (cr_scopes row) " ";
                  acNonce := cr_nonce row; acCodeChallenge := cr_code_challenge row;
                  acCodeChallengeMethod := cr_code_challenge_method row;
                  acAuthTime := cr_auth_time row; acExpiresAt := 0; acConsumed := true |}).
Proof.
  unfold codeConsume.
  apply (triple_bind _ _ (fun r w => since' w0 w /\ forall row, r = Ok row ->
    codes w0 !! c = Some row /\ cr_consumed row = false /\ clock w0 < cr_expires_at row)).
  - apply (triple_query (since w0)); [|intros w (? & ? & ? & ?); by split].
    intros w (Hu & Hc & Hr & Hcl). rewrite Hc.
    destruct (codes w0 !! c) as [row|] eqn:E; [|by split].
    destruct (negb (cr_consumed row) && (clock w <? cr_expires_at row)) eqn:B; [|by split].
    apply andb_true_iff in B as [B1 B2]. apply negb_true_iff in B1. split; [by split_and!|].
    intros row' [= <-]. split_and!; [done..|lia].
  - intros [row|err] w [Hs H]; cbn; (split; [done|]); [|done].
    intros ac [= <-]. destruct (H row eq_refl) as (? & ? & ?). by exists row.
Qed.

(** The conditions under which a stored code may be exchanged. *)
Definition exchangeable (e : Env) (req : CodeExchangeRequest) (row : codeRow) : Prop :=
  cr_client_id row = cxClientID req
  /\ (cxRedirectURI req = ""%string \/ cr_redirect_uri row = cxRedirectURI req)
  /\ (cr_code_challenge row = ""%string
      \/ cr_code_challenge_method row = "S256"%string
         /\ base64URLEncode (sha256 e (cxCodeVerifier req)) = cr_code_challenge row).

Lemma ExchangeCode_sound_t e req w0 :
  triple (since w0) (ExchangeCode e req)
    (fun r w => forall tp, r = Ok tp -> exists row,
       codes w0 !! cxCode req = Some row /\ clock w0 < cr_expires_at row
       /\ exchangeable e req row
       /\ issued e w0 (cr_user_id row) (cr_client_id row) (Split (cr_scopes row) " ") tp w).
Proof.
  unfold ExchangeCode. eapply triple_bind; [apply codeConsume_sound|].
  intros [ac|err] w [Hs H]; [|done].
  destruct (H ac eq_refl) as (row & Hrow & _ & Hexp & ->). cbn -[String.eqb].
  destruct (String.eqb_spec (cr_client_id row) (cxClientID req)) as [Hcl|]; [|done]. cbn -[String.eqb].
  destruct (String.eqb_spec (cxRedirectURI req) "") as [Hre|Hre];
    [|destruct (String.eqb_spec (cr_redirect_uri row) (cxRedirectURI req)) as [Hre'|]; [|done]];
    cbn -[String.eqb];
  (destruct (String.eqb_spec (cr_code_challenge row) "") as [Hch|Hch]; cbn -[String.eqb];
   [|destruct (cxCodeVerifier req =s ""); [done|];
     destruct (verifyPKCE e _ _ _) eqn:HP; cbn; [|done];
     unfold verifyPKCE in HP;
     destruct (String.eqb_spec (cr_code_challenge_method row) "S256") as [Hm|]; [|done];
     apply String.eqb_eq in HP]);
  intros tp Htp; exists row; (split; [done|]; split; [done|]; split; [by split_and!; auto|]);
  by apply (issueTokens_issued e w0 _ _ _ (cr_nonce row) (cr_auth_time row) w Hs).
Qed.

Lemma CheckUserActive_sound w0 uid :
  triple (fun w => users w = users w0) (CheckUserActive uid)
    (fun r w => users w = users w0 /\ forall n, r = Ok n -> exists u,
       users w0 !! uid = Some u /\ uStatus u = "active"%string /\ n = uUsername u).
Proof.
  assert (HF : frame (fun w => users w = users w0)) by (split; cbn; intros; assumption).
  unfold CheckUserActive, GetByID.
  apply (triple_bind _ _ (fun r w => users w = users w0 /\ forall u', r = Ok u' -> exists u,
    users w0 !! uid = Some u /\ uStatus u = uStatus u' /\ uUsername u = uUsername u')).
  - apply (triple_query (fun w => users w = users w0)); [|done]. intros w Hw. rewrite Hw.
    destruct (users w0 !! uid) as [u|]; cbn; (split; [done|]); [|done].
    intros u' [= <-]. by exists u.
  - intros [u'|err] w [Hw H]; cbn; (split; [done|]); [|done]. intros n.
    destruct (H u' eq_refl) as (u & Hu & Hst & Hn).
    destruct (String.eqb_spec (uStatus u') "active") as [Ha|]; [|done]. intros [= <-].
    exists u. split_and!; congruence.
Qed.

Lemma refreshConsume_sound e w0 t :
  triple (since w0) (refreshConsume e t)
    (fun r w => users w = users w0 /\ forall d, r = Ok d -> exists row,
       refreshes w0 !! HashToken e t = Some row /\ rr_revoked row = false
       /\ clock w0 < rr_expires_at row
       /\ rtUserID d = rr_user_id row /\ rtClientID d = rr_client_id row).
Proof.
  unfold refreshConsume, OStore.refreshConsume, ConsumeByHash. fold (HashToken e t).
  apply (triple_bind _ _ (fun r w => users w = users w0 /\ forall row', r = Ok row' ->
    exists row, refreshes w0 !! HashToken e t = Some row /\ rr_revoked row = false
      /\ clock w0 < rr_expires_at row /\ row' = revoke row)).
  - apply (triple_query (since w0)); [|by intros w (? & _)].
    intros w (Hu & _ & Hr & Hcl). change (OStore.HashToken (sha256 e) t) with (HashToken e t).
    rewrite Hr. destruct (refreshes w0 !! HashToken e t) as [row|] eqn:E; [|done].
    destruct (negb (rr_revoked row) && (clock w <? rr_expires_at row)) eqn:B; [|done].
    apply andb_true_iff in B as [B1 B2]. apply negb_true_iff in B1. split; [done|].
    intros row' [= <-]. exists row. split_and!; [done..|lia|done].
  - intros [row'|err] w [Hw H]; cbn; (split; [done|]); [|done]. intros d [= <-].
    destruct (H row' eq_refl) as (row & ? & ? & ? & ->). by exists row.
Qed.

Lemma RefreshTokens_sound_t e req w0 :
  triple (since w0) (RefreshTokens e req)
    (fun r _ => forall tp, r = Ok tp -> exists row u,
       refreshes w0 !! HashToken e (rqRefreshToken req) = Some row
       /\ rr_revoked row = false /\ clock w0 < rr_expires_at row
       /\ rr_client_id row = rqClientID req
       /\ users w0 !! rr_user_id row = Some u /\ uStatus u = "active"%string).
Proof.
  unfold RefreshTokens. eapply triple_bind; [apply refreshConsume_sound|].
  intros [d|err]; [|done].
  apply (triple_pure (exists row, refreshes w0 !! HashToken e (rqRefreshToken req) = Some row
      /\ rr_revoked row = false /\ clock w0 < rr_expires_at row
      /\ rtUserID d = rr_user_id row /\ rtClientID d = rr_client_id row)
      _ (fun w => users w = users w0)); [|intros w [? H]; split; [by apply H | done]].
  intros (row & Hrow & Hrev & Hexp & Hu & Hc).
  destruct (String.eqb_spec (rtClientID d) (rqClientID req)) as [Hcl|]; cbn [negb];
    [|by intros w _ tp].
  eapply triple_bind; [apply CheckUserActive_sound|].
  intros [n|err] w [_ H]; [|done]. destruct (H n eq_refl) as (u & Hus & Hact & _).
  intros tp _. exists row, u. rewrite <- Hu. split_and!; congruence.
Qed.

(** ** Well-formed requests and codes *)

Definition goodFor (e : Env) (cid redirect challenge method : string) : Prop :=
  exists cl, clients e !! cid = Some cl /\ redirect ∈ clRedirectURIs cl
    /\ (clPublic cl = true -> challenge <> ""%string)
    /\ (challenge <> ""%string -> method = "S256"%string).

Definition goodReq (e : Env) (r : AuthorizeRequest) : Prop :=
  goodFor e (ClientID r) (RedirectURI r) (CodeChallenge r) (CodeChallengeMethod r).
Definition goodCode (e : Env) (r : codeRow) : Prop :=
  goodFor e (cr_client_id r) (cr_redirect_uri r) (cr_code_challenge r) (cr_code_challenge_method r).

Definition flowOk (e : Env) (w : world) : Prop :=
  map_Forall (fun _ r => goodReq e (pr_req r)) (pendings w)
  /\ map_Forall (fun _ r => goodCode e r) (codes w).

Lemma authorizeValidate_good e r req : authorizeValidateRequest e r = Ok req -> goodReq e req.
Proof.
  unfold authorizeValidateRequest, GetClient, ValidateRedirectURI.
  destruct (negb _); [done|].
  destruct (clients e !! _) as [cl|] eqn:Hcl; [|done].
  destruct (if formGet (hQuery r) "redirect_uri" =s "" then _ else _) as [uri|]; [|done].
  destruct (existsb _ _) eqn:Hex; cbn [negb]; [|done].
  destruct (clPublic cl && _) eqn:Hpub; [done|].
  destruct (negb _ && negb _) eqn:Hm; [done|]. intros [= <-].
  apply existsb_exists in Hex as (u & Hin & Hu). apply String.eqb_eq in Hu as ->.
  exists cl. cbn. split_and!; [done| by apply list_elem_of_In | |].
  - intros Hp Hc. by rewrite Hp, Hc in Hpub.
  - intros Hc. apply String.eqb_neq in Hc. rewrite Hc in Hm. cbn in Hm.
    apply negb_false_iff, String.eqb_eq in Hm. done.
Qed.

#[export] Instance flowOk_frame e : frame (flowOk e).
Proof. by split. Qed.

#[export] Instance flowOk_flow e : flowInv e (goodReq e) (flowOk e).
Proof.
  destruct (pres_refresh_ops (flowOk e)) as (Hr1 & Hr2 & Hr3 & Hr4); [done|].
  split; auto with typeclass_instances.
  - intros r req HV. apply authorizeValidate_good in HV. unfold pendingStore. pres.
    apply pres_query; [apply _|]. intros w [Hp Hc]. case_match; [done|].
    split; [|done]. by apply map_Forall_insert_2.
  - intros id. unfold pendingConsume.
    apply (triple_bind _ _ (fun r w => flowOk e w /\ forall req, r = Ok req -> goodReq e req)).
    + apply (triple_query (flowOk e)); [|done]. intros w [Hp Hc].
      destruct (pendings w !! id) as [row|] eqn:E; [|by split; [split|]].
      case_match; cbn; (split; [split; try done|]); try done.
      * by apply map_Forall_delete.
      * intros req [= <-]. exact (Hp id row E).
    + intros [req|err] w [H1 H2]; cbn; split; done.
  - intros req uid t HG. unfold Authorize, codeStore. pres. apply pres_query; [apply _|].
    intros w [Hp Hc]. case_match; [done|]. split; [done|]. by apply map_Forall_insert_2.
  - intros c. unfold codeConsume. pres. apply pres_query; [apply _|]. intros w [Hp Hc].
    repeat case_match; try done. split; [done|]. by apply map_Forall_delete.
Qed.

(** A token response with status 200 comes from a successful exchange. *)
Lemma handleToken_200 e r f w resp w' :
  hForm r = Some f -> formGet f "grant_type" = "authorization_code"%string ->
  handleToken e r w = (resp, w') -> rsStatus resp = 200 ->
  exists tp w1, ExchangeCode e {| cxCode := formGet f "code"; cxRedirectURI := formGet f "redirect_uri";
    cxClientID := formGet f "client_id"; cxCodeVerifier := formGet f "code_verifier" |} w = (Ok tp, w1).
Proof.
  intros Hf Hg. unfold handleToken, handleCodeExchange. rewrite Hf, Hg. cbn -[ExchangeCode].
  destruct (_ || _); [by intros [= <- _]|].
  unfold authenticateClient. destruct (GetClient e _) as [cl|]; [|by intros [= <- _]].
  destruct (clPublic cl); [|destruct (_ || _); [by intros [= <- _]|]];
  unfold mbind, M_bind; destruct (ExchangeCode e _ w) as [[tp|err] w1]; eauto; by intros [= <- _].
Qed.

(** What logging out leaves of a user's refresh tokens. *)
Lemma RevokeByUserID_ok uid w :
  faults w = [] ->
  refreshes (snd (RevokeByUserID uid w)) =
    ((fun r => if rr_user_id r =? uid then revoke r else r) <$> refreshes w)
  /\ faults (snd (RevokeByUserID uid w)) = [] /\ rands (snd (RevokeByUserID uid w)) = rands w.
Proof.
  intros Hf. unfold RevokeByUserID, query, tick.
  destruct (ticks w) as [|d ds]; cbn; rewrite Hf; cbn; rewrite ?Hf; done.
Qed.

(** Without faults, a query that only reads leaves tables and supply alone. *)
Lemma query_read {A} (q : world -> result string A * world) w :
  faults w = [] -> (forall w, snd (q w) = w) ->
  let w1 := snd (tick w) in query q w = (fst (q w1), w1)
  /\ users w1 = users w /\ refreshes w1 = refreshes w /\ rands w1 = rands w /\ faults w1 = []
  /\ codes w1 = codes w.
Proof.
  intros Hf Hq w1. assert (Hf1 : faults w1 = []).
  { unfold w1, tick. by destruct (ticks w). }
  split.
  - unfold query. fold w1. rewrite Hf1. specialize (Hq w1). destruct (q w1). cbn in *. by subst.
  - unfold w1, tick. by destruct (ticks w).
Qed.

(** ** Claims *)

(** An authorization code buys tokens only under the stored conditions:
    [ExchangeCode] succeeds only if the code is stored and unexpired, was
    issued to the calling client, the redirect URI (when sent) is the one of
    the authorization request, and a stored PKCE challenge is the S256 hash
    of the verifier; the access token it signs is for the code's user and
    client, and exactly one new live refresh token, bound to that user and
    client, is added. *)
Lemma ExchangeCode_sound e req w tp w' :
  ExchangeCode e req w = (Ok tp, w') ->
  exists row, codes w !! cxCode req = Some row /\ clock w < cr_expires_at row
    /\ exchangeable e req row
    /\ issued e w (cr_user_id row) (cr_client_id row) (Split (cr_scopes row) " ") tp w'.
Proof.
  intros H. eapply (triple_run (since w)) in H; [|apply ExchangeCode_sound_t|by split_and!].
  by apply H.
Qed.

(** C4: an authorization code works at most once: once an exchange attempt
    with a code got past the lookup (whether it then succeeded or not), no
    sequence of requests to the endpoints makes a later exchange of the
    same code succeed, as long as the code is not drawn again by the random
    generator. *)
Theorem code_single_use e req w r w1 eps req' :
  ExchangeCode e req w = (r, w1) ->
  r <> Err ("invalid authorization code: " +++ codeNotFound) ->
  undrawn id (cxCode req) w -> cxCode req' = cxCode req ->
  fst (ExchangeCode e req' (snd (runAll e eps w1)))
    = Err ("invalid authorization code: " +++ codeNotFound).
Proof.
  intros HE Hr Hu Hc.
  pose proof (triple_run _ _ _ w r w1 (ExchangeCode_spends e req) Hu HE) as [?|Hs]; [done|].
  apply (pres_runAll e (fun _ => True) _ eps) in Hs. rewrite <- Hc in Hs.
  exact (ExchangeCode_spent e req' _ Hs).
Qed.

(** PKCE is enforced end to end for public clients: starting from empty
    pending-request and code tables, after any sequence of requests, the
    token endpoint answers 200 to an authorization-code grant of a public
    client only if the code's row has a registered redirect URI of that
    client and a non-empty challenge that the presented verifier hashes to. *)
Lemma public_client_pkce e w0 eps r f cl resp w' :
  pendings w0 = ∅ -> codes w0 = ∅ ->
  hForm r = Some f -> formGet f "grant_type" = "authorization_code"%string ->
  clients e !! formGet f "client_id" = Some cl -> clPublic cl = true ->
  handleToken e r (snd (runAll e eps w0)) = (resp, w') -> rsStatus resp = 200 ->
  exists row, codes (snd (runAll e eps w0)) !! formGet f "code" = Some row
    /\ cr_client_id row = formGet f "client_id" /\ cr_redirect_uri row ∈ clRedirectURIs cl
    /\ cr_code_challenge row <> ""%string
    /\ base64URLEncode (sha256 e (formGet f "code_verifier")) = cr_code_challenge row.
Proof.
  intros Hp Hc Hf Hg Hcl Hpub HT H200. set (w := snd (runAll e eps w0)) in *.
  assert (Hok : flowOk e w).
  { apply (pres_runAll e (goodReq e) (flowOk e) eps). split; [rewrite Hp | rewrite Hc];
      apply map_Forall_empty. }
  destruct (handleToken_200 e r f w resp w' Hf Hg HT H200) as (tp & w1 & HE).
  eapply (triple_run (since w)) in HE; [|apply ExchangeCode_sound_t|by split_and!].
  destruct (HE tp eq_refl) as (row & Hrow & _ & (Hci & _ & Hch) & _). cbn in Hci, Hch, Hrow.
  destruct Hok as [_ Hok]. destruct (Hok _ _ Hrow) as (cl' & Hcl' & Hred & Hne & _).
  assert (cl' = cl) as -> by congruence. specialize (Hne Hpub).
  exists row. split_and!; [done..|]. by destruct Hch as [?|[_ ?]].
Qed.

(** C26: refresh tokens rotate: [RefreshTokens] succeeds only for a live,
    unexpired token of the calling client whose user is active, and after a
    success no sequence of requests makes the same token work again, as
    long as no later drawn token hashes to the same value. *)
Theorem refresh_rotation e req w tp w1 :
  RefreshTokens e req w = (Ok tp, w1) ->
  (exists row u, refreshes w !! HashToken e (rqRefreshToken req) = Some row
     /\ rr_revoked row = false /\ clock w < rr_expires_at row
     /\ rr_client_id row = rqClientID req
     /\ users w !! rr_user_id row = Some u /\ uStatus u = "active"%string)
  /\ (undrawn (HashToken e) (HashToken e (rqRefreshToken req)) w ->
      forall eps req', rqRefreshToken req' = rqRefreshToken req ->
        fst (RefreshTokens e req' (snd (runAll e eps w1)))
          = Err ("invalid refresh token: " +++ refreshInvalid)).
Proof.
  intros HR. split.
  - eapply (triple_run (since w)) in HR; [|apply RefreshTokens_sound_t|by split_and!].
    by apply (HR tp).
  - intros Hu eps req' Hc.
    pose proof (triple_run _ _ _ w _ w1 (RefreshTokens_spends e req) Hu HR) as [?|Hs]; [done|].
    apply (pres_runAll e (fun _ => True) _ eps) in Hs. rewrite <- Hc in Hs.
    exact (RefreshTokens_spent e req' _ Hs).
Qed.

(** The logout handler leaves every refresh token of its user revoked. *)
Definition ofUser (e : Env) (uid : Z) (h : string) (w : world) : Prop :=
  faults w = [] /\ (forall row, refreshes w !! h = Some row -> rr_user_id row = uid)
  /\ undrawn (HashToken e) h w.

Lemma RevokeByUserID_spends e uid h :
  triple (ofUser e uid h) (RevokeByUserID uid) (fun _ => spentRefresh e h).
Proof.
  intros w (Hf & Hr & Hu). destruct (RevokeByUserID_ok uid w Hf) as (HR & _ & Hrs).
  split.
  - intros row. rewrite HR, lookup_fmap. destruct (refreshes w !! h) as [r0|]; [|done].
    cbn. rewrite (Hr r0 eq_refl), Z.eqb_refl. by intros [= <-].
  - intros b. rewrite Hrs. apply Hu.
Qed.

Lemma ofUser_Now e uid h : preserves (ofUser e uid h) Now.
Proof. intros w H. unfold Now, tick. by destruct (ticks w). Qed.

Lemma ofUser_CheckUserActive e uid h i : preserves (ofUser e uid h) (CheckUserActive i).
Proof.
  unfold CheckUserActive. pres. intros w (Hf & Hr & Hu).
  destruct (query_read (fun w => match users w !! i with
    | Some u => (Ok {| uID := uID u; uUsername := uUsername u; uEmail := uEmail u;
                       uDisplayName := uDisplayName u; uPhone := uPhone u;
                       uPasswordHash := ""; uStatus := uStatus u |}, w)
    | None => (Err "not found"%string, w)
    end) w Hf) as (HQ & _ & Hre & Hra & Hfa & _).
  { intros w'. by case_match. }
  unfold GetByID. rewrite HQ. cbn [snd]. split_and!; [done|by rewrite Hre|].
  intros b. rewrite Hra. apply Hu.
Qed.

Lemma handleLogout_spends e r v uid h w :
  hCookies r !! CookieAccessToken = Some v -> v <> ""%string ->
  fst (VerifyBearerToken e v w) = Ok uid -> ofUser e uid h w ->
  spentRefresh e h (snd (handleLogout e r w)).
Proof.
  intros Hck Hne HV Hof. apply String.eqb_neq in Hne.
  assert (HofV : ofUser e uid h (snd (VerifyBearerToken e v w))).
  { revert w HV Hof. assert (H : preserves (ofUser e uid h) (VerifyBearerToken e v)).
    { pose proof ofUser_Now. unfold VerifyBearerToken, VerifyAccessToken. pres. }
    intros w _. apply H. }
  assert (HT : triple (fun x => x = w) (handleLogout e r) (fun _ => spentRefresh e h)).
  2: by apply HT.
  unfold handleLogout, resolveLogoutUser. rewrite Hck, Hne.
  pose proof (pres_auditIf (spentRefresh e h)).
  apply (triple_bind _ _ (fun _ => spentRefresh e h)); [|intros [userID username]; pres].
  apply (triple_bind _ _ (fun b w' => b = Ok uid /\ ofUser e uid h w')); [by intros x ->|].
  intros b. apply (triple_pure (b = Ok uid) _ (ofUser e uid h)); [intros -> | done].
  eapply triple_bind; [apply ofUser_CheckUserActive|]. intros c.
  eapply triple_bind; [apply RevokeByUserID_spends|]. intros x w' H'. exact H'.
Qed.

(** Logging out ends the server-side session: after [handleLogout] with
    a valid access-token cookie (and no database failure), every refresh
    token the user held is refused by every later refresh, whatever
    requests come in between. *)
Lemma logout_revokes e r v uid w req row eps :
  hCookies r !! CookieAccessToken = Some v -> v <> ""%string ->
  fst (VerifyBearerToken e v w) = Ok uid -> faults w = [] ->
  refreshes w !! HashToken e (rqRefreshToken req) = Some row -> rr_user_id row = uid ->
  undrawn (HashToken e) (HashToken e (rqRefreshToken req)) w ->
  fst (RefreshTokens e req (snd (runAll e eps (snd (handleLogout e r w)))))
    = Err ("invalid refresh token: " +++ refreshInvalid).
Proof.
  intros Hck Hne HV Hf Hrow Huid Hu. apply RefreshTokens_spent.
  apply (pres_runAll e (fun _ => True)); [apply _|].
  apply (handleLogout_spends e r v uid _ w Hck Hne HV). split_and!; [done| |done].
  intros row'. by rewrite Hrow; intros [= <-].
Qed.

Lemma VerifyBearerToken_eval e v w :
  VerifyBearerToken e v w =
    (match jwtVerify e v with
     | None => Err "invalid token"%string
     | Some c =>
         if (clock (snd (tick w)) <? clmExpiresAt c * second) && (clmIssuer c =s Issuer (config e))
         then match ParseInt (clmSubject c) 64 with
              | Some id => Ok id | None => Err "invalid subject"%string end
         else Err "invalid token"%string
     end, snd (tick w)).
Proof.
  unfold VerifyBearerToken, VerifyAccessToken, Now, mbind, M_bind, mret, M_ret. cbn.
  destruct (jwtVerify e v) as [c|]; [|done]. by destruct (_ && _).
Qed.

Lemma WithAuthentication_sound_t e r w0 :
  triple (since w0) (WithAuthentication e r)
    (fun x _ => forall uid name, x = Ok (uid, name) -> exists v c u,
       hCookies r !! CookieAccessToken = Some v /\ jwtVerify e v = Some c
       /\ clock w0 < clmExpiresAt c * second /\ clmIssuer c = Issuer (config e)
       /\ ParseInt (clmSubject c) 64 = Some uid
       /\ users w0 !! uid = Some u /\ uStatus u = "active"%string /\ name = uUsername u).
Proof.
  unfold WithAuthentication. destruct (hCookies r !! CookieAccessToken) as [v|]; [|by intros w _ ? ?].
  destruct (v =s ""); [by intros w _ ? ?|].
  apply (triple_bind _ _ (fun b w => users w = users w0 /\ forall uid, b = Ok uid -> exists c,
    jwtVerify e v = Some c /\ clock w0 < clmExpiresAt c * second
    /\ clmIssuer c = Issuer (config e) /\ ParseInt (clmSubject c) 64 = Some uid)).
  - intros w H. rewrite VerifyBearerToken_eval.
    pose proof (pres_tick (since w0) w H) as (Hu & _ & _ & Hcl). cbn [fst snd]. split; [done|].
    intros uid. destruct (jwtVerify e v) as [c|]; [|done].
    destruct (_ && _) eqn:B; [|done]. apply andb_true_iff in B as [B1 B2].
    apply String.eqb_eq in B2. destruct (ParseInt _ _) eqn:HP; [|done]. intros [= <-].
    exists c. split_and!; [done|lia|done|done].
  - intros [uid|err]; [|by intros w _ ? ?].
    apply (triple_pure (exists c, jwtVerify e v = Some c /\ clock w0 < clmExpiresAt c * second
      /\ clmIssuer c = Issuer (config e) /\ ParseInt (clmSubject c) 64 = Some uid)
      _ (fun w => users w = users w0)); [|intros w [? H]; split; [by apply H | done]].
    intros (c & Hc). eapply triple_bind; [apply CheckUserActive_sound|].
    intros [n|err] w [_ H]; [|by intros ? ?]. destruct (H n eq_refl) as (u & ? & ? & ?).
    cbn. intros uid' name [= <- <-]. exists v, c, u. naive_solver.
Qed.

(** C27: the API lets a request through only as an active user named by a
    token it can verify: when [WithAuthentication] puts user [uid] in the
    request context, the cookie carries a token whose signature verifies,
    that has not expired, names this issuer and has [uid] as its subject,
    and the user exists and is active now. *)
Theorem WithAuthentication_sound e r w uid name w' :
  WithAuthentication e r w = (Ok (uid, name), w') ->
  exists v c u, hCookies r !! CookieAccessToken = Some v /\ jwtVerify e v = Some c
    /\ clock w < clmExpiresAt c * second /\ clmIssuer c = Issuer (config e)
    /\ ParseInt (clmSubject c) 64 = Some uid
    /\ users w !! uid = Some u /\ uStatus u = "active"%string /\ name = uUsername u.
Proof.
  intros H. eapply (triple_run (since w)) in H; [|apply WithAuthentication_sound_t|by split_and!].
  by apply H.
Qed.

Lemma CheckUserActive_ok uid u w :
  faults w = [] -> users w !! uid = Some u -> uStatus u = "active"%string ->
  fst (CheckUserActive uid w) = Ok (uUsername u).
Proof.
  intros Hf Hu Ha. unfold CheckUserActive, GetByID, mbind, M_bind, query.
  assert (Ht : faults (snd (tick w)) = [] /\ users (snd (tick w)) = users w).
  { unfold tick. by destruct (ticks w). }
  destruct Ht as [-> ->]. rewrite Hu. cbn -[String.eqb]. by rewrite Ha.
Qed.

(** An issued token works until it expires: the access token that
    [issueTokens] signs for a user authenticates exactly that user, as long
    as the user is active and the whole-second expiry computed from the
    moment of issue has not passed (for any JWT library that verifies what
    it signed). *)
Lemma issued_token_authenticates e uid cid scopes nonce t w tp w1 r w2 u :
  (forall c tok, jwtSign e c = Ok tok -> jwtVerify e tok = Some c) ->
  jwtVerify e ""%string = None -> in_int64 uid ->
  issueTokens e uid cid scopes nonce t w = (Ok tp, w1) ->
  hCookies r !! CookieAccessToken = Some (tpAccessToken tp) ->
  clock (snd (tick w2)) < numericDate (clock w + AccessTokenTTL (config e)) * second ->
  faults w2 = [] -> users w2 !! uid = Some u -> uStatus u = "active"%string ->
  fst (WithAuthentication e r w2) = Ok (uid, uUsername u).
Proof.
  intros Hjwt Hempty Hid HI Hck Hexp Hf Hu Ha.
  eapply (triple_run (since' w)) in HI; [|apply issueTokens_issued|by split_and!].
  destruct (HI tp eq_refl) as (_ & (now & Hnow & Hsig) & _). apply Hjwt in Hsig.
  unfold WithAuthentication. rewrite Hck.
  destruct (String.eqb_spec (tpAccessToken tp) "") as [E|_]; [congruence|].
  unfold mbind at 1, M_bind. rewrite VerifyBearerToken_eval, Hsig. cbn [fst snd accessClaims
    clmExpiresAt clmIssuer clmSubject].
  assert (Hlt : clock (snd (tick w2)) <? numericDate (now + AccessTokenTTL (config e)) * second = true).
  { apply Z.ltb_lt. unfold numericDate in *.
    assert ((clock w + AccessTokenTTL (config e)) / second
            <= (now + AccessTokenTTL (config e)) / second) by (apply Z.div_le_mono; [done|lia]).
    unfold second in *. lia. }
  rewrite Hlt, String.eqb_refl. cbn [andb]. rewrite ParseInt_FormatInt by done.
  assert (Ht : faults (snd (tick w2)) = [] /\ users (snd (tick w2)) = users w2).
  { unfold tick. by destruct (ticks w2). }
  destruct Ht as [Hf' Hu']. rewrite <- Hu' in Hu.
  pose proof (CheckUserActive_ok uid u _ Hf' Hu Ha) as HC. unfold mbind, M_bind.
  destruct (CheckUserActive uid (snd (tick w2))) as [x w3]. cbn in HC. by subst x.
Qed.

(** ** A concrete run

    A JWT library that encodes claims as bit strings, a public client with
    PKCE, and one user who walks through authorize, login, token, refresh
    and logout. *)

#[export] Instance Claims_eq_dec : EqDecision Claims.
Proof. solve_decision. Defined.

#[export] Instance Claims_countable : Countable Claims.
Proof.
  refine (inj_countable
    (fun c => ([clmIssuer c; clmSubject c; clmScope c; clmNonce c; clmAtHash c; clmName c;
                clmEmail c; clmPhone c], clmAudience c, [clmExpiresAt c; clmIssuedAt c; clmAuthTime c]))
    (fun x => match x with
       | ([a; b; g; h; j; k; l; m], c, [d; f; i]) =>
           Some {| clmIssuer := a; clmSubject := b; clmAudience := c; clmExpiresAt := d;
                   clmIssuedAt := f; clmScope := g; clmNonce := h; clmAuthTime := i;
                   clmAtHash := j; clmName := k; clmEmail := l; clmPhone := m |}
       | _ => None
       end) _).
  by intros [].
Defined.

Definition demoVerify (s : string) : option Claims :=
  match s with
  | String "j" t => decode (unbits t)
  | _ => None
  end.

Definition demoClient : Client :=
  {| clID := "web"; clSecret := ""; clRedirectURIs := ["https://app/cb"];
     clScopes := ["openid"]; clPublic := true |}.

Definition demoEnv : Env := {|
  ToLower := fun s => s; TrimSpace := fun s => s;
  sha256 := fun s => [Z.of_nat (String.length s)];
  bcryptOk := fun h p => h =s p;
  jwtSign := fun c => Ok (String "j" (bits (encode c)));
  jwtVerify := demoVerify;
  urlOk := fun _ => true;
  config := {| Issuer := "iss"; AccessTokenTTL := 15 * minute; RefreshTokenTTL := 60 * minute;
               AuthCodeTTL := minute; LoginURL := "/login" |};
  clients := {["web" := demoClient]}; throttled := true; audited := true |}%string.

Lemma demo_jwt c tok : jwtSign demoEnv c = Ok tok -> jwtVerify demoEnv tok = Some c.
Proof. intros [= <-]. cbn. rewrite unbits_bits. apply decode_encode. Qed.

Definition alice : OIDCUser :=
  {| uID := 7; uUsername := "alice"; uEmail := "a@x"; uDisplayName := "Alice"; uPhone := "";
     uPasswordHash := "pw"; uStatus := "active" |}.

Definition demoWorld : world :=
  {| users := {[7 := alice]}; throttle := ∅; codes := ∅; pendings := ∅; refreshes := ∅;
     sessions := ∅; auditLog := []; clock := 5 * second; ticks := [1%N; 2%N]; faults := [];
     coins := [true]; rands := (fun b => Some [b]) <$> [1; 2; 3; 4; 5; 6; 7; 8] |}.

Definition demoReq (q : gmap string string) (f : option (gmap string string))
    (l : option loginRequest) (ck : gmap string string) : HttpReq :=
  {| hQuery := q; hForm := f; hLogin := l; hCookies := ck; hClientIP := "10.0.0.1";
     hTLS := true; hForwardedProto := "" |}.

Definition authorizeReq : HttpReq := demoReq
  {["response_type" := "code"; "client_id" := "web"; "scope" := "openid profile";
    "code_challenge" := "AQ"; "code_challenge_method" := "S256"]}%string None None ∅.
Definition loginReq : HttpReq := demoReq ∅ None
  (Some {| lrUsername := "alice"; lrPassword := "pw"; lrRequestID := "01" |}) ∅.
Definition demoForm : gmap string string :=
  {["grant_type" := "authorization_code"; "client_id" := "web"; "code" := "03";
    "code_verifier" := "v"]}%string.
Definition tokenReq : HttpReq := demoReq ∅ (Some demoForm) None ∅.
Definition demoExchange : CodeExchangeRequest :=
  {| cxCode := "03"; cxRedirectURI := ""; cxClientID := "web"; cxCodeVerifier := "v" |}.

(** The world after authorize and login: code "03" is stored. *)
Definition loggedIn : world := Eval vm_compute in
  snd (runAll demoEnv [EAuthorize authorizeReq; ELogin loginReq] demoWorld).
(** The world after the exchange: refresh token "04" is stored. *)
Definition exchanged : world := Eval vm_compute in snd (ExchangeCode demoEnv demoExchange loggedIn).

Definition undrawnb (f : string -> string) (c : string) (w : world) : bool :=
  forallb (fun o => match o with Some b => negb (f (hexEncode b) =s c) | None => true end) (rands w).

Lemma undrawnb_true f c w : undrawnb f c w = true -> undrawn f c w.
Proof.
  unfold undrawnb. rewrite forallb_forall. intros H r Hr. apply list_elem_of_In in Hr.
  specialize (H _ Hr). cbn in H. by apply negb_true_iff, String.eqb_neq in H.
Qed.

Definition demoTokens : TokenPair :=
  match fst (ExchangeCode demoEnv demoExchange loggedIn) with
  | Ok tp => tp
  | Err _ => {| tpAccessToken := ""; tpIDToken := ""; tpRefreshToken := ""; tpTokenType := "";
                tpExpiresIn := 0; tpScope := "" |}
  end.

Lemma demo_exchange : ExchangeCode demoEnv demoExchange loggedIn = (Ok demoTokens, exchanged).
Proof. vm_compute. reflexivity. Qed.

Lemma code_single_use_witness :
  fst (ExchangeCode demoEnv demoExchange (snd (runAll demoEnv [EToken tokenReq] exchanged)))
    = Err ("invalid authorization code: " +++ codeNotFound).
Proof.
  apply (code_single_use demoEnv demoExchange loggedIn _ exchanged _ demoExchange demo_exchange).
  - done.
  - apply undrawnb_true. vm_compute. reflexivity.
  - reflexivity.
Defined.

Definition demoRefresh : RefreshRequest :=
  {| rqRefreshToken := "04"; rqClientID := "web"; rqScope := "" |}.

(** The supply without its used-up head, so that "04" is not drawn again
    and no pending draw hashes like it. *)
Definition refreshWorld : world :=
  set_env (clock exchanged) [] [] [] ((fun b => Some [b; b]) <$> [5; 6; 7]) exchanged.

Lemma refresh_rotation_witness :
  fst (RefreshTokens demoEnv demoRefresh
         (snd (runAll demoEnv [] (snd (RefreshTokens demoEnv demoRefresh refreshWorld)))))
    = Err ("invalid refresh token: " +++ refreshInvalid).
Proof.
  destruct (RefreshTokens demoEnv demoRefresh refreshWorld) as [r w1] eqn:E.
  assert (Hr : exists tp, r = Ok tp).
  { assert (H : fst (RefreshTokens demoEnv demoRefresh refreshWorld) = r) by (by rewrite E).
    vm_compute in H. subst r. by eexists. }
  destruct Hr as [tp ->].
  destruct (refresh_rotation demoEnv demoRefresh refreshWorld tp w1 E) as [_ H].
  apply H; [|reflexivity]. apply undrawnb_true. vm_compute. reflexivity.
Defined.

Definition apiReq : HttpReq :=
  demoReq ∅ None None {[CookieAccessToken := tpAccessToken demoTokens]}.

Lemma WithAuthentication_sound_witness :
  exists v c u, hCookies apiReq !! CookieAccessToken = Some v /\ jwtVerify demoEnv v = Some c
    /\ users refreshWorld !! 7 = Some u.
Proof.
  destruct (WithAuthentication_sound demoEnv apiReq refreshWorld 7 "alice"
    (snd (WithAuthentication demoEnv apiReq refreshWorld))) as (v & c & u & H1 & H2 & _ & _ & _ & H3 & _).
  - rewrite (surjective_pairing (WithAuthentication demoEnv apiReq refreshWorld)) at 1.
    apply (f_equal2 pair); [vm_compute|]; reflexivity.
  - by exists v, c, u.
Defined.

End Flow.
