(* ===== verification/LoginLockout.v ===== *)
(** * Login lockout: the brute-force bound of the login endpoint

    Uses the handler model of [OidcProvider] and the logic of [OidcFlow] to
    bound the number of failed password guesses [handleLogin] evaluates for
    one account name, between two successful logins, within one 15-minute
    window. *)

From S2P Require Import Prelude OidcStore OidcProvider OidcFlow.

Module Lockout.
Import OStore Provider Flow.

Notation preserves I m := (triple I m (fun _ => I)).

(** ** The decision rule *)

Lemma timeSub_pos a b : (timeSub a b <=? 0) = (a <=? b).
Proof.
  unfold timeSub. destruct (Z.leb_spec a b), (Z.leb_spec (Z.max (- 2 ^ 63) (Z.min (2 ^ 63 - 1) (a - b))) 0);
    try done; lia.
Qed.

Lemma throttleDecision_locked count ws limit window now :
  snd (throttleDecision count ws limit window now) = true
  <-> limit <= count /\ now < ws + window.
Proof.
  unfold throttleDecision. destruct (Z.ltb_spec count limit) as [H|H]; cbn; [split; [done|lia]|].
  rewrite timeSub_pos. destruct (Z.leb_spec (ws + window) now); cbn; split; try done; lia.
Qed.

Section Bound.
Context (e : Env) (Hthr : throttled e = true) (k : string) (w0 : world).

Notation userKey u := (loginUserKey (ToLower e) (TrimSpace e) u).

(** [k] is the throttle key under attack. *)
Context (Hk : exists u, k = userKey u).

Definition T0 : Z := clock w0.
Definition late (w : world) : Prop := T0 + loginFailWindow <= clock w.

(** The counter row of [k] after [n] evaluated guesses since [T0] or the
    last successful login. *)
Definition rowOk (n : Z) (row : option throttleRow) : Prop :=
  match row with
  | None => n = 0
  | Some r => n = 0 /\ window_start r < T0 - loginFailWindow
              \/ fail_count r = n /\ T0 <= window_start r
  end.

Definition live (n : Z) (w : world) : Prop :=
  faults w = [] /\ T0 <= clock w /\ rowOk n (throttle w !! k) /\ 0 <= n <= 5.

Definition J (n : Z) (w : world) : Prop := late w \/ live n w.

#[local] Instance J_frame n : frame (J n).
Proof.
  split; cbn; [|done..]. intros w c ts fs cs rs Hc [pre Hf] _ H.
  destruct H as [H|(Hn & Ht & Hr & H5)]; [left; unfold late in *; cbn; lia|].
  right. rewrite Hn in Hf. symmetry in Hf. apply app_eq_nil in Hf as [_ ->].
  unfold live. cbn. split_and!; [done|lia|done|lia|lia].
Qed.

Lemma J_late n m w : late w -> J n w -> J m w.
Proof. intros Hl _. by left. Qed.

(** A statement fails only when time is up. *)
Lemma query_J {A} n (q : world -> result string A * world) (Q : result string A -> world -> Prop) :
  (forall w, J n w -> Q (fst (q w)) (snd (q w))) -> (forall w r, J n w -> late w -> Q r w) ->
  triple (J n) (query q) Q.
Proof using Type.
  intros Hq Hl w HJ. unfold query. pose proof (pres_tick (J n) w HJ) as HJ1.
  destruct (faults (snd (tick w))) as [|b fs] eqn:E; [by apply Hq|].
  assert (HJ2 : J n (set_env (clock (snd (tick w))) (ticks (snd (tick w))) fs
    (coins (snd (tick w))) (rands (snd (tick w))) (snd (tick w)))).
  { apply frame_env; [done | rewrite E; by apply suffix_cons_r | done | done]. }
  destruct b; [|by apply Hq]. apply Hl; [done|].
  destruct HJ1 as [?|(Hf & _)]; [done | congruence].
Qed.

(** A throttle read in a live world does not fail. *)
Lemma throttleGet_J n key :
  triple (J n) (throttleGet key) (fun r w => J n w /\
    (late w \/ live n w /\ exists o, r = Ok ((fun r => (fail_count r, window_start r)) <$> o)
                 /\ (key = k -> rowOk n o))).
Proof using Type.
  apply query_J; [|auto]. intros w HJ. split; [done|]. destruct HJ as [?|Hl]; [by left|right].
  split; [done|]. exists (throttle w !! key). split; [done|]. intros ->. apply Hl.
Qed.

Lemma lockedScan_J n l :
  triple (J n) (lockedScan l) (fun x w => J n w /\
    ((k, loginUserFailLimit) ∈ l -> 5 <= n -> late w \/ snd x = true)).
Proof using Type.
  induction l as [|[key limit] l IH]; cbn [lockedScan].
  { intros w H. split; [exact H|]. intros Hin. by apply elem_of_nil in Hin. }
  (* the rest of the scan, when this entry says nothing about [k] or time is up *)
  assert (Hskip : forall w1, J n w1 -> ((k, loginUserFailLimit) = (key, limit) -> 5 <= n -> late w1) ->
    J n (snd (lockedScan l w1)) /\ ((k, loginUserFailLimit) ∈ (key, limit) :: l -> 5 <= n ->
      late (snd (lockedScan l w1)) \/ snd (fst (lockedScan l w1)) = true)).
  { intros w1 HJ1 Hl1. destruct (IH w1 HJ1) as [HJ2 H2]. split; [done|].
    rewrite elem_of_cons. intros [Heq|Hin] H5; [|by apply H2].
    left. assert (HL : J n w1 /\ late w1) by (split; auto).
    assert (Hpl : preserves (fun w => J n w /\ late w) (lockedScan l)).
    { apply pres_lockedScan. split; cbn; [|done..]. intros w c ts fs cs rs Hc Hf Hr [HJ Hlt].
      split; [by apply frame_env|]. unfold late in *. cbn. lia. }
    by apply (Hpl w1 HL). }
  eapply triple_bind; [apply throttleGet_J|].
  intros [[[count ws]|]|err] w [HJ H].
  - eapply (triple_bind (fun x => x = w) _ (fun t w1 => J n w1 /\ t = clock w1
      /\ ((k, loginUserFailLimit) = (key, limit) -> 5 <= n ->
          late w1 \/ 5 <= count /\ T0 <= ws))); [|intros now w1|exact eq_refl].
    + intros x ->. split; [by apply pres_Now, HJ; apply _|]. split; [done|].
      intros [= Hkey _] H5. destruct H as [Hl|(_ & o & Ho & Hrow)].
      * left. unfold late in *. cbn. unfold tick. destruct (ticks w); cbn; lia.
      * right. specialize (Hrow (eq_sym Hkey)). destruct o as [r|]; [|done]. cbn in Ho. injection Ho as -> ->.
        cbn in Hrow. lia.
    + intros (HJ1 & -> & Hk1).
      destruct (throttleDecision count ws limit loginFailWindow (clock w1)) as [retry locked] eqn:E.
      destruct locked; [split; [done|by right]|]. apply (Hskip w1 HJ1).
      intros Heq H5. destruct (Hk1 Heq H5) as [?|[Hc Hws]]; [done|].
      injection Heq as _ <-. unfold late.
      destruct (Z.le_gt_cases (T0 + loginFailWindow) (clock w1)); [done|]. exfalso.
      assert (snd (throttleDecision count ws loginUserFailLimit loginFailWindow (clock w1)) = true)
        as Ht by (apply throttleDecision_locked; unfold loginUserFailLimit; lia).
      by rewrite E in Ht.
  - apply Hskip; [done|]. intros [= Hkey _] H5. destruct H as [?|(_ & o & Ho & Hrow)]; [done|].
    specialize (Hrow (eq_sym Hkey)). destruct o; [done|]. cbn in Hrow. lia.
  - apply Hskip; [done|]. intros [= Hkey _] H5. destruct H as [?|(_ & o & Ho & _)]; done.
Qed.

Lemma LoginLocked_J n u ip :
  triple (J n) (LoginLocked e u ip) (fun x w => J n w /\
    (userKey u = k -> 5 <= n -> late w \/ snd x = true)).
Proof using Hthr.
  unfold LoginLocked, OStore.LoginLocked. rewrite Hthr. cbn [negb].
  apply (triple_bind _ _ (fun _ => J n)); [apply pres_flip, _|]. intros b w HJ.
  destruct (lockedScan_J n (if b : bool then
     [(loginIPKey ip, loginIPFailLimit); (userKey u, loginUserFailLimit)]
     else [(userKey u, loginUserFailLimit); (loginIPKey ip, loginIPFailLimit)]) w HJ) as [H1 H2].
  split; [exact H1|]. intros Hku. apply H2. rewrite <- Hku.
  destruct b; rewrite !elem_of_cons; tauto.
Qed.

(** ** Counting *)

Lemma late_frame : frame late.
Proof using Type. split; cbn; unfold late; cbn; intros; lia. Qed.

Lemma windowSecs : int32 (wholeSeconds loginFailWindow) * second = loginFailWindow.
Proof using Type. reflexivity. Qed.

Lemma bump_late key : preserves late (throttleBump key (wholeSeconds loginFailWindow)).
Proof using Type.
  apply pres_query; [apply late_frame|]. intros w H. by destruct (bumpRow _ _ _).
Qed.

Lemma bump_live n w r :
  live n w -> ~ late w -> n < 5 ->
  bumpRow (clock w) (int32 (wholeSeconds loginFailWindow)) (throttle w !! k) = r ->
  exists r', r = Ok r' /\ fail_count r' = n + 1 /\ T0 <= window_start r'.
Proof using Type.
  intros (Hf & Ht & Hr & H5) Hl Hn. unfold bumpRow, late in *. rewrite windowSecs.
  destruct (throttle w !! k) as [r0|]; cbn in Hr; [|intros <-; eexists; split; [done|cbn; lia]].
  destruct (Z.ltb_spec (window_start r0) (clock w - loginFailWindow));
    [intros <-; eexists; split; [done|cbn; lia]|].
  destruct (Z.leb_spec (2 ^ 31) (fail_count r0 + 1)); [lia|].
  intros <-; eexists; split; [done|cbn; lia].
Qed.

Lemma bump_k n : n < 5 ->
  triple (J n) (throttleBump k (wholeSeconds loginFailWindow)) (fun _ => J (n + 1)).
Proof using Type.
  intros Hn. apply query_J; [|intros w _ HJ Hl; by eapply J_late].
  intros w HJ. destruct (decide (late w)) as [Hl|Hl].
  { destruct (bumpRow _ _ _); cbn [snd]; by left. }
  destruct HJ as [?|H]; [done|].
  destruct (bump_live n w _ H Hl Hn eq_refl) as (r & -> & Hc & Hs). cbn [snd].
  right. destruct H as (Hf & Ht & _ & H5). unfold live. cbn.
  rewrite lookup_insert_eq. cbn. split_and!; [done|lia|by right|lia|lia].
Qed.

Lemma bump_other n key : key <> k ->
  preserves (J n) (throttleBump key (wholeSeconds loginFailWindow)).
Proof using Type.
  intros Hne. apply pres_query; [apply _|]. intros w HJ. destruct (bumpRow _ _ _); [|done].
  destruct HJ as [Hl|(Hf & Ht & Hr & H5)]; [by left|right].
  unfold live. cbn. by rewrite lookup_insert_ne.
Qed.

Lemma ipKey_ne ip : loginIPKey ip <> k.
Proof using Hk. destruct Hk as [u ->]. done. Qed.

Lemma NoteLoginFailure_J n u ip :
  triple (fun w => J n w /\ (userKey u = k -> late w \/ n < 5)) (NoteLoginFailure e u ip)
    (fun _ => J (n + if bool_decide (userKey u = k) then 1 else 0)).
Proof using Hthr Hk.
  unfold NoteLoginFailure, OStore.NoteLoginFailure. rewrite Hthr. cbn [negb].
  pose proof (bump_other n (loginIPKey ip) (ipKey_ne ip)) as Hip.
  pose proof (bump_other (n + 1) (loginIPKey ip) (ipKey_ne ip)) as Hip1.
  case_bool_decide as Hu.
  - rewrite Hu. apply (triple_bind _ _ (fun _ => J (n + 1))); [|intros; pres].
    intros w [HJ H]. destruct (H eq_refl) as [Hl|Hn]; [|by apply bump_k].
    left. by apply bump_late.
  - rewrite Z.add_0_r. pose proof (bump_other n _ Hu) as Hb.
    apply (triple_conseq _ (J n) _ _ (fun _ => J n)); [pres | by intros w [? _] | done].
Qed.

Lemma throttleSweep_J n : preserves (J n) (throttleSweep (wholeSeconds loginFailWindow)).
Proof using Type.
  apply pres_query; [apply _|]. intros w [Hl|(Hf & Ht & Hr & H5)]; [by left|].
  destruct (decide (late w)) as [Hl|Hl]; [by left|right].
  unfold live. cbn [snd set_throttle throttle faults clock]. split_and!; [done..| |lia|lia].
  rewrite windowSecs. unfold late in Hl.
  destruct (throttle w !! k) as [r|] eqn:E; cbn in Hr.
  - destruct (decide (window_start r < clock w - loginFailWindow)).
    + rewrite map_lookup_filter_None_2; [cbn; lia|]. right. intros x. rewrite E. intros [= <-]. cbn. lia.
    + erewrite map_lookup_filter_Some_2; [cbn; exact Hr | exact E | cbn; lia].
  - rewrite map_lookup_filter_None_2; [exact Hr|by left].
Qed.

(** A success forgets the failures of its account name, and no others. *)
Lemma NoteLoginSuccess_J n u :
  triple (J n) (NoteLoginSuccess e u) (fun _ => J (if bool_decide (userKey u = k) then 0 else n)).
Proof using Hthr.
  unfold NoteLoginSuccess, OStore.NoteLoginSuccess. rewrite Hthr. cbn [negb].
  apply (triple_bind _ _ (fun _ => J (if bool_decide (userKey u = k) then 0 else n))).
  - apply query_J; [|intros w _ HJ Hl; by left]. intros w [Hl|(Hf & Ht & Hr & H5)]; [by left|right].
    unfold live. cbn. case_bool_decide as Hu; [rewrite Hu, lookup_delete_eq | rewrite lookup_delete_ne by done]; cbn; auto with lia.
  - intros _. pose proof throttleSweep_J. apply (triple_bind _ _ (fun _ => J (if bool_decide (userKey u = k) then 0 else n))); [done|].
    intros; pres.
Qed.

(** ** The handler *)

Definition aimed (r : HttpReq) : bool :=
  match hLogin r with Some lr => bool_decide (userKey (lrUsername lr) = k) | None => false end.

(** Refused before any lookup. *)
Definition blank (r : HttpReq) : bool :=
  match hLogin r with Some lr => (lrUsername lr =s "") || (lrPassword lr =s "") | None => true end.

(** The failed guesses since the last success, [n] so far: a request aimed at
    [k] answered with 401 is one more; one that is answered otherwise, but not
    for a missing password nor for too many failures, has logged in. *)
Definition tally (n : Z) (r : HttpReq) (resp : Response) : Z :=
  if negb (aimed r) || blank r || (rsStatus resp =? 429) then n
  else if rsStatus resp =? 401 then n + 1 else 0.

Lemma auditIf_J n b ev : preserves (J n) (auditIf b ev).
Proof using Type. apply pres_auditIf, _. Qed.

(** What [loginCompleteAuthorize] answers is neither code. *)
Definition finished (resp : Response) : Prop := rsStatus resp <> 401 /\ rsStatus resp <> 429.

Lemma loginComplete_J n id s :
  triple (J n) (loginCompleteAuthorize e id s) (fun resp w => J n w /\ finished resp).
Proof using Type.
  destruct (pres_pending_ops (J n)) as [_ Hp]; [done|].
  pose proof (pres_Authorize (J n) (fun w t H => H) e) as HA. unfold loginCompleteAuthorize.
  apply (triple_bind _ _ (fun _ => J n)).
  - apply (triple_conseq _ (J n) _ _ _ (Hp id)); [done | by intros a w [? _]].
  - intros [authReq|msg]; [|by intros w H].
    eapply triple_bind; [apply HA|]. intros [url|msg] w H; by split.
Qed.

Lemma tally_aimed n r lr resp : hLogin r = Some lr -> blank r = false -> rsStatus resp <> 429 ->
  tally n r resp = if bool_decide (userKey (lrUsername lr) = k) then (if rsStatus resp =? 401 then n + 1 else 0) else n.
Proof using Type.
  intros Hl B H%Z.eqb_neq. unfold tally, aimed. rewrite Hl, B, H. by case_bool_decide.
Qed.

Lemma handleLogin_J n r : triple (J n) (handleLogin e r) (fun resp w => J (tally n r resp) w).
Proof using Hthr Hk.
  pose proof (auditIf_J n) as HA. unfold handleLogin. destruct (hLogin r) as [lr|] eqn:El.
  2: { intros w H. unfold tally, blank. rewrite El, orb_true_r. exact H. }
  assert (B : blank r = (lrUsername lr =s "") || (lrPassword lr =s "")) by (unfold blank; by rewrite El).
  destruct (_ || _) in B |- *; cbv zeta.
  { intros w H. unfold tally. rewrite B, orb_true_r. exact H. }
  set (u := lrUsername lr).
  eapply triple_bind; [apply LoginLocked_J|]. intros [retry locked]. cbn [snd]. destruct locked.
  { apply (triple_conseq _ (J n) _ _ (fun resp w => J n w /\ rsStatus resp = 429));
      [|by intros w [? _] | intros a w [? E]; unfold tally; by rewrite E, orb_true_r].
    unfold loginHandleThrottled. eapply triple_bind; [apply HA|]. by intros _ w H. }
  apply (triple_bind _ _ (fun x w => J n w /\ (userKey u = k -> late w \/ n < 5))).
  { intros w [HJ H5]. split; [exact (pres_Login e (J n) u (lrPassword lr) w HJ)|]. intros Hu.
    destruct (decide (n < 5)); [by right|left].
    destruct (H5 Hu ltac:(lia)) as [Hl|?]; [|done].
    exact (@pres_Login e late late_frame u (lrPassword lr) w Hl). }
  intros [[session x]|err].
  - apply (triple_conseq _ (J n) _ _ (fun resp w => J (if bool_decide (userKey u = k) then 0 else n) w /\ finished resp)).
    2: { by intros w [? _]. }
    2: { intros resp w [HJ [N1%Z.eqb_neq N2]]. by rewrite (tally_aimed n r lr) by done; rewrite N1. }
    eapply triple_bind; [apply NoteLoginSuccess_J|]. intros []. unfold loginAuditSuccess.
    eapply triple_bind; [apply auditIf_J|]. intros []. destruct (negb _); [apply loginComplete_J | by intros w H].
  - eapply triple_bind; [apply NoteLoginFailure_J|].
    intros []. unfold loginHandleFailure. eapply triple_bind; [apply auditIf_J|].
    intros [] w H. cbn [fst snd mret M_ret]. rewrite (tally_aimed n r lr) by done. cbn [rsStatus oidcError oidcErrorWith].
    revert H. fold u. case_bool_decide; by rewrite ?Z.add_0_r.
Qed.

(** ** Runs *)

Fixpoint logins (rs : list HttpReq) : M (list Response) :=
  match rs with
  | [] => mret []
  | r :: rest => x ← handleLogin e r; xs ← logins rest; mret (x :: xs)
  end.

(** The failed guesses at [k] since its last successful login. *)
Fixpoint guesses (n : Z) (rs : list HttpReq) (resps : list Response) : Z :=
  match rs, resps with
  | r :: rs, x :: xs => guesses (tally n r x) rs xs
  | _, _ => n
  end.

Lemma logins_J n rs : triple (J n) (logins rs) (fun xs w => J (guesses n rs xs) w).
Proof using Hthr Hk.
  revert n. induction rs as [|r rs IH]; intros n; cbn [logins].
  - by intros w H.
  - eapply triple_bind; [by apply handleLogin_J|]. intros x.
    eapply triple_bind; [apply IH|]. by intros xs w H.
Qed.

End Bound.

(** C5: the brute-force bound: if no counter window of account name [k] is
    open at the start, then after any sequence of login requests handled
    within 15 minutes -- from any addresses, aimed at any accounts, with right
    and wrong passwords, with any spelling of the name that normalises to
    [k] -- at most five requests aimed at [k] have had their password
    evaluated and refused (a 401) since the last login to [k] succeeded, or
    since the start when none did; the others were turned away before the
    password check. A success forgets the failures before it, so an attacker
    who also knows the password is not bounded over the whole sequence.
    Requests are handled one after another, the throttle is configured, and
    the database answers. *)
Theorem login_guesses_bounded e k u rs w xs w' :
  throttled e = true -> k = loginUserKey (ToLower e) (TrimSpace e) u -> faults w = [] ->
  match throttle w !! k with
  | None => True
  | Some r => window_start r < clock w - loginFailWindow
  end ->
  logins e rs w = (xs, w') -> clock w' < clock w + loginFailWindow ->
  guesses e k 0 rs xs <= 5.
Proof.
  intros Hthr Hk Hf Hrow HL Hclk.
  assert (HJ : J k w 0 w).
  { right. unfold live, rowOk, T0. split_and!; [done|lia| |lia|lia].
    destruct (throttle w !! k); [by left|done]. }
  pose proof (logins_J e Hthr k w (ex_intro _ u Hk) 0 rs w HJ) as [Hl|Hl]; rewrite HL in Hl; cbn [fst snd] in Hl.
  - unfold late, T0 in Hl. lia.
  - destruct Hl as (_ & _ & _ & Hl). lia.
Qed.

Definition badLogin : HttpReq := Flow.demoReq ∅ None
  (Some {| lrUsername := "alice"; lrPassword := "guess"; lrRequestID := "" |}) ∅.

Lemma login_guesses_bounded_witness :
  guesses Flow.demoEnv "u:alice" 0 (replicate 8 badLogin)
    (fst (logins Flow.demoEnv (replicate 8 badLogin) Flow.demoWorld)) <= 5.
Proof.
  apply (login_guesses_bounded Flow.demoEnv "u:alice" "alice" (replicate 8 badLogin) Flow.demoWorld
    _ (snd (logins Flow.demoEnv (replicate 8 badLogin) Flow.demoWorld))).
  1-3: reflexivity.
  - exact I.
  - apply surjective_pairing.
  - vm_compute. reflexivity.
Defined.

End Lockout.
