(* ===== verification/AgentWire.v ===== *)
(** * The agent data channel: message framing and file transfer

    Models the framing of [lib/agent/types/datachannel.go] ([WriteMessage],
    [ReadMessage], [WriteStreamHeader], [ReadStreamHeader]) and the file
    operations of [lib/agent/datachan/file.go] that run on top of it. Bytes
    are integers; a reader is the bytes that will still arrive and the error
    that follows them. *)

From S2P Require Import Prelude.

Module Wire.

Definition MaxMessageBytes : Z := Z.shiftl 1 20.
Definition MaxStreamHeaderBytes : Z := 32 * 1024.

Definition MsgData : Z := 1.
Definition MsgResize : Z := 2.
Definition MsgExit : Z := 3.
Definition MsgResult : Z := 4.
Definition MsgEOF : Z := 5.

Definition zlen {A} (l : list A) : Z := Z.of_nat (length l).

(** [binary.BigEndian.PutUint32] and [Uint32]. *)
Definition PutUint32 (n : Z) : list Z :=
  [Z.land (Z.shiftr n 24) 255; Z.land (Z.shiftr n 16) 255;
   Z.land (Z.shiftr n 8) 255; Z.land n 255].

Definition Uint32 (b : list Z) : Z :=
  match b with
  | [b0; b1; b2; b3] =>
      Z.lor b3 (Z.lor (Z.shiftl b2 8) (Z.lor (Z.shiftl b1 16) (Z.shiftl b0 24)))
  | _ => 0
  end.

Inductive ioError := EOF | ErrUnexpectedEOF | ErrTooLarge (n limit : Z) | ErrOther (msg : string).

(** ** Writers: the bytes sent so far, and how many more the transport
    takes before it fails ([None]: all of them). *)
Record writer := { sent : list Z; room : option nat }.

Definition Write (w : writer) (b : list Z) : result ioError unit * writer :=
  match room w with
  | None => (Ok tt, {| sent := sent w ++ b; room := None |})
  | Some n =>
      if (length b <=? n)%nat
      then (Ok tt, {| sent := sent w ++ b; room := Some (n - length b)%nat |})
      else (Err (ErrOther "write failed"), {| sent := sent w ++ take n b; room := Some 0%nat |})
  end.

Definition WriteMessage (w : writer) (typ : Z) (payload : list Z) : result ioError unit * writer :=
  if MaxMessageBytes <? zlen payload then (Err (ErrTooLarge (zlen payload) MaxMessageBytes), w)
  else
    match Write w (typ :: PutUint32 (zlen payload)) with
    | (Err e, w') => (Err e, w')
    | (Ok _, w') => if zlen payload =? 0 then (Ok tt, w') else Write w' payload
    end.

(** ** Readers *)
Record reader := { data : list Z; endErr : ioError }.

(** [io.ReadFull]: [n] bytes, or the error: the stream's own when nothing
    was read, [ErrUnexpectedEOF] for a stream that ends part-way. *)
Definition ReadFull (r : reader) (n : nat) : result ioError (list Z) * reader :=
  if (n <=? length (data r))%nat
  then (Ok (take n (data r)), {| data := drop n (data r); endErr := endErr r |})
  else
    (Err (match data r, endErr r with
          | _ :: _, EOF => ErrUnexpectedEOF
          | _, e => e
          end), {| data := []; endErr := endErr r |}).

Definition ReadMessage (r : reader) : result ioError (Z * list Z) * reader :=
  match ReadFull r 5 with
  | (Err e, r1) => (Err e, r1)
  | (Ok hdr, r1) =>
      let typ := nth 0 hdr 0 in
      let n := Uint32 (drop 1 hdr) in
      if MaxMessageBytes <? n then (Err (ErrTooLarge n MaxMessageBytes), r1)
      else if n =? 0 then (Ok (typ, []), r1)
      else match ReadFull r1 (Z.to_nat n) with
           | (Err e, r2) => (Err e, r2)
           | (Ok buf, r2) => (Ok (typ, buf), r2)
           end
  end.

Section Header.
(** [encoding/json] on the handshake's type [T]. *)
Context {T : Type} (Marshal : T -> result ioError (list Z)) (Unmarshal : list Z -> result ioError T).

Definition WriteStreamHeader (w : writer) (v : T) : result ioError unit * writer :=
  match Marshal v with
  | Err e => (Err e, w)
  | Ok bytes =>
      if MaxStreamHeaderBytes <? zlen bytes
      then (Err (ErrTooLarge (zlen bytes) MaxStreamHeaderBytes), w)
      else match Write w (PutUint32 (zlen bytes)) with
           | (Err e, w') => (Err e, w')
           | (Ok _, w') => Write w' bytes
           end
  end.

Definition ReadStreamHeader (r : reader) : result ioError T * reader :=
  match ReadFull r 4 with
  | (Err e, r1) => (Err e, r1)
  | (Ok hdr, r1) =>
      let n := Uint32 hdr in
      if MaxStreamHeaderBytes <? n then (Err (ErrTooLarge n MaxStreamHeaderBytes), r1)
      else match ReadFull r1 (Z.to_nat n) with
           | (Err e, r2) => (Err e, r2)
           | (Ok buf, r2) => (Unmarshal buf, r2)
           end
  end.

(** [WriteJSONMessage]. *)
Definition WriteJSONMessage (w : writer) (typ : Z) (v : T) : result ioError unit * writer :=
  match Marshal v with
  | Err e => (Err e, w)
  | Ok bytes => WriteMessage w typ bytes
  end.
End Header.

(** ** Framing lemmas *)

(** Bit [i] of byte [j] of [n], moved back to its place. *)
Lemma byte_bit n j i : 0 <= j -> 0 <= i ->
  Z.testbit (Z.shiftl (Z.land (Z.shiftr n (8 * j)) 255) (8 * j)) i
  = (8 * j <=? i) && (i <? 8 * j + 8) && Z.testbit n i.
Proof.
  intros Hj Hi. rewrite Z.shiftl_spec by done. change 255 with (Z.ones 8).
  destruct (Z.leb_spec (8 * j) i) as [H|H]; cbn [andb].
  - rewrite Z.land_spec, Z.shiftr_spec, Z.testbit_ones by lia.
    replace (i - 8 * j + 8 * j) with i by lia.
    destruct (Z.ltb_spec i (8 * j + 8)), (Z.leb_spec 0 (i - 8 * j)), (Z.ltb_spec (i - 8 * j) 8);
      try lia; by rewrite ?andb_true_r, ?andb_false_r.
  - by rewrite Z.testbit_neg_r by lia.
Qed.

Lemma Uint32_PutUint32 n : 0 <= n < 2 ^ 32 -> Uint32 (PutUint32 n) = n.
Proof.
  intros Hn. unfold Uint32, PutUint32. apply Z.bits_inj'. intros i Hi.
  rewrite !Z.lor_spec.
  pose proof (byte_bit n 0 i ltac:(lia) Hi) as H0. rewrite Z.shiftl_0_r, Z.shiftr_0_r in H0.
  pose proof (byte_bit n 1 i ltac:(lia) Hi) as H1. pose proof (byte_bit n 2 i ltac:(lia) Hi) as H2.
  pose proof (byte_bit n 3 i ltac:(lia) Hi) as H3. 
  change (8 * 1) with 8 in H1. change (8 * 2) with 16 in H2. change (8 * 3) with 24 in H3.
  rewrite H0, H1, H2, H3.
  destruct (Z.le_gt_cases 32 i) as [H32|H32].
  - replace (Z.testbit n i) with false; [by rewrite !andb_false_r|].
    symmetry. destruct (decide (n = 0)) as [->|]; [apply Z.bits_0|].
    apply Z.bits_above_log2; [lia|]. apply Z.log2_lt_pow2; [lia|].
    apply Z.lt_le_trans with (2 ^ 32); [lia|]. apply Z.pow_le_mono_r; lia.
  - destruct (Z.testbit n i); [|by rewrite !andb_false_r]. rewrite !andb_true_r.
    repeat match goal with |- context [?a <=? ?b] => destruct (Z.leb_spec a b)
      | |- context [?a <? ?b] => destruct (Z.ltb_spec a b) end; cbn; lia || done.
Qed.

Lemma zlen_nonneg {A} (l : list A) : 0 <= zlen l.
Proof. unfold zlen. lia. Qed.

Lemma ReadFull_app n b rest er : length b = n ->
  ReadFull {| data := b ++ rest; endErr := er |} n = (Ok b, {| data := rest; endErr := er |}).
Proof.
  intros Hn. unfold ReadFull. cbn [data endErr]. rewrite length_app, <- Hn.
  rewrite (proj2 (Nat.leb_le _ _)) by lia. by rewrite take_app_length, drop_app_length.
Qed.

Definition frame (typ : Z) (payload : list Z) : list Z := typ :: PutUint32 (zlen payload) ++ payload.

Lemma ReadMessage_frame typ payload rest er :
  zlen payload <= MaxMessageBytes ->
  ReadMessage {| data := frame typ payload ++ rest; endErr := er |}
  = (Ok (typ, payload), {| data := rest; endErr := er |}).
Proof.
  intros Hlen. pose proof (zlen_nonneg payload). unfold ReadMessage.
  replace (frame typ payload ++ rest)
    with ((typ :: PutUint32 (zlen payload)) ++ (payload ++ rest)) by reflexivity.
  rewrite ReadFull_app by done. cbn [nth].
  change (drop 1 (typ :: PutUint32 (zlen payload))) with (PutUint32 (zlen payload)).
  assert (MaxMessageBytes < 2 ^ 32) by done. rewrite Uint32_PutUint32 by lia.
  destruct (Z.ltb_spec MaxMessageBytes (zlen payload)); [lia|].
  destruct (Z.eqb_spec (zlen payload) 0) as [E|E].
  - destruct payload; [done|]. unfold zlen in E. cbn in E. lia.
  - rewrite ReadFull_app; [done|]. unfold zlen. by rewrite Nat2Z.id.
Qed.

Lemma WriteMessage_ok w typ payload :
  zlen payload <= MaxMessageBytes -> room w = None ->
  WriteMessage w typ payload = (Ok tt, {| sent := sent w ++ frame typ payload; room := None |}).
Proof.
  intros Hlen Hr. unfold WriteMessage, Write.
  destruct (Z.ltb_spec MaxMessageBytes (zlen payload)); [lia|]. rewrite Hr. cbn [sent room].
  destruct (Z.eqb_spec (zlen payload) 0) as [E|E].
  - destruct payload; [|unfold zlen in E; cbn in E; lia]. by unfold frame.
  - unfold frame. by rewrite <- app_assoc.
Qed.

(** Write a list of messages; stop at the first error. *)
Fixpoint writeAll (w : writer) (ms : list (Z * list Z)) : result ioError unit * writer :=
  match ms with
  | [] => (Ok tt, w)
  | (t, p) :: ms' =>
      match WriteMessage w t p with
      | (Err e, w') => (Err e, w')
      | (Ok _, w') => writeAll w' ms'
      end
  end.

(** Read messages until an error, at most [fuel] of them. *)
Fixpoint readAll (fuel : nat) (r : reader) : list (Z * list Z) * option ioError :=
  match fuel with
  | O => ([], None)
  | S f =>
      match ReadMessage r with
      | (Err e, _) => ([], Some e)
      | (Ok m, r') => let '(ms, e) := readAll f r' in (m :: ms, e)
      end
  end.

Definition small (m : Z * list Z) : Prop := zlen (snd m) <= MaxMessageBytes.

Definition frames (ms : list (Z * list Z)) : list Z := concat ((fun m => frame (fst m) (snd m)) <$> ms).

Lemma writeAll_ok ms w : Forall small ms -> room w = None ->
  writeAll w ms = (Ok tt, {| sent := sent w ++ frames ms; room := None |}).
Proof.
  intros H. revert w. induction H as [|[t p] ms Hm Hms IH]; intros w Hr; cbn [writeAll].
  - unfold frames. cbn. rewrite app_nil_r. by destruct w; cbn in *; subst.
  - rewrite WriteMessage_ok by done. rewrite IH by done.
    change (frames ((t, p) :: ms)) with (frame t p ++ frames ms). cbn [sent]. by rewrite app_assoc.
Qed.

Lemma readAll_frames ms er : Forall small ms ->
  readAll (S (length ms)) {| data := frames ms; endErr := er |} = (ms, Some er).
Proof.
  intros H. induction H as [|[t p] ms Hm Hms IH]; [done|].
  cbn [length]. change (frames ((t, p) :: ms)) with (frame t p ++ frames ms).
  remember (S (length ms)) as f eqn:Hf. cbn [readAll].
  rewrite ReadMessage_frame by done. by rewrite IH.
Qed.

(** What a successful read consumed. *)
Lemma ReadMessage_Ok r t p r' :
  ReadMessage r = (Ok (t, p), r') ->
  (exists b, length b = 4%nat /\ data r = t :: b ++ p ++ data r')
  /\ zlen p <= MaxMessageBytes /\ endErr r' = endErr r.
Proof.
  unfold ReadMessage, ReadFull. destruct (data r) as [|t0 d] eqn:Ed; [done|].
  destruct (Nat.leb_spec 5 (length (t0 :: d))) as [H5|H5]; [|by destruct (endErr r)].
  set (n := Uint32 (drop 1 (take 5 (t0 :: d)))).
  assert (Hsplit : t0 :: d = t0 :: take 4 d ++ drop 4 d) by (by rewrite take_drop).
  assert (Hl4 : length (take 4 d) = 4%nat) by (rewrite length_take; cbn in H5; lia).
  destruct (Z.ltb_spec MaxMessageBytes n) as [|Hn]; [done|].
  destruct (Z.eqb_spec n 0) as [|Hn0].
  - intros [= <- <- <-]. split; [|done]. exists (take 4 d). split; [done|]. exact Hsplit.
  - cbn [data endErr]. destruct (Nat.leb_spec (Z.to_nat n) (length (drop 5 (t0 :: d)))) as [Hle|];
      [|by destruct (drop 5 (t0 :: d)), (endErr r)].
    intros [= <- <- <-]. cbn [data endErr]. split_and!; [| |done].
    + exists (take 4 d). split; [done|]. change (drop 5 (t0 :: d)) with (drop 4 d).
      rewrite take_drop. exact Hsplit.
    + assert (0 <= MaxMessageBytes) by done. unfold zlen. rewrite length_take. lia.
Qed.

Lemma ReadMessage_shrinks r m r' : ReadMessage r = (Ok m, r') ->
  (length (data r') < length (data r))%nat.
Proof.
  destruct m as [t p]. intros H. apply ReadMessage_Ok in H as ((b & Hb & ->) & _).
  cbn. rewrite !length_app. lia.
Qed.

(** ** File transfer *)

Definition fileChunk : Z := 256 * 1024.

(** A regular file: its bytes and permission bits. *)
Record file := { content : list Z; perm : Z }.

(** The failures of one upload: which calls fail, and for each payload
    write the number of bytes stored before it fails ([None]: all). *)
Record uploadFaults := {
  fCreate : bool; fWrites : list (option nat); fSync : bool; fChmod : bool;
  fClose : bool; fRename : bool; fRemove : bool
}.

Definition fileMode (mode fallback : Z) : Z :=
  if mode =? 0 then fallback else Z.land mode 511.

(** The receive loop of [fileWrite]: the temp file's bytes, the count, and
    [None] at [MsgEOF] or the error. Every message takes at least five
    bytes of the stream, so [length (data r) + 1] rounds suffice. *)
Fixpoint uploadLoop (fuel : nat) (size : Z) (ws : list (option nat)) (r : reader)
    (tmp : list Z) (written : Z) : list Z * Z * option ioError :=
  match fuel with
  | O => (tmp, written, Some (ErrOther "out of fuel"))
  | S f =>
      match ReadMessage r with
      | (Err e, _) => (tmp, written, Some e)
      | (Ok (typ, payload), r') =>
          if typ =? MsgEOF then (tmp, written, None)
          else if negb (typ =? MsgData) then uploadLoop f size ws r' tmp written
          else
            match ws with
            | Some n :: _ =>
                (tmp ++ take n payload, written + Z.of_nat (Nat.min n (length payload)),
                 Some (ErrOther "write"))
            | _ =>
                let tmp' := tmp ++ payload in
                let written' := written + zlen payload in
                if (0 <? size) && (size <? written')
                then (tmp', written', Some (ErrOther "upload exceeds declared size"))
                else uploadLoop f size (tail ws) r' tmp' written'
            end
      end
  end.

(** The deferred [os.Remove] of the temp file. *)
Definition cleanup (fl : uploadFaults) (tmpName : string) (fs : gmap string file) : gmap string file :=
  if fRemove fl then fs else delete tmpName fs.

(** [fileWrite] onto [path] with declared [size] and [mode]; [tmpName] is
    the name [os.CreateTemp] picked. Returns the count, the error and the
    file system. *)
Definition fileWrite (fl : uploadFaults) (tmpName path : string) (size mode : Z)
    (r : reader) (fs : gmap string file) : Z * option ioError * gmap string file :=
  if fCreate fl then (0, Some (ErrOther "create temp"), fs)
  else
    let '(tmp, written, err) :=
      uploadLoop (S (length (data r))) size (fWrites fl) r [] 0 in
    let fs1 := <[tmpName := {| content := tmp; perm := 384 |}]> fs in
    let fail e := (written, Some e, cleanup fl tmpName fs1) in
    match err with
    | Some e => fail e
    | None =>
        if (0 <? size) && negb (written =? size) then fail (ErrOther "size mismatch")
        else if fSync fl then fail (ErrOther "sync")
        else if fChmod fl then fail (ErrOther "chmod")
        else
          let fs2 := <[tmpName := {| content := tmp; perm := fileMode mode 420 |}]> fs in
          if fClose fl then (written, Some (ErrOther "close"), cleanup fl tmpName fs2)
          else if fRename fl then (written, Some (ErrOther "rename"), cleanup fl tmpName fs2)
          else
            let fs3 := <[path := {| content := tmp; perm := fileMode mode 420 |}]>
                         (delete tmpName fs2) in
            (written, None, cleanup fl tmpName fs3)
    end.

(** The bytes a window of a file covers: [Seek] past [offset] when
    positive, [LimitReader] when [len] is positive. *)
Definition window (offset len : Z) (c : list Z) : list Z :=
  let from := if 0 <? offset then drop (Z.to_nat offset) c else c in
  if 0 <? len then take (Z.to_nat len) from else from.

(** How one [Read] of the source goes: some bytes (capped to the buffer, at
    least one), an I/O error, or a cancelled context before it. *)
Inductive rd := RBytes (n : nat) | RErr | RCancelled.

Inductive sendState := SDone | SBroken | SFailed.

(** The send loop of [fileRead] over the bytes still to read. Each round
    takes at least one byte, so [length src] rounds suffice; [reads] that
    run out are full-buffer reads. *)
Fixpoint readLoop (fuel : nat) (reads : list rd) (src : list Z) (w : writer) : writer * sendState :=
  match hd (RBytes (Z.to_nat fileChunk)) reads, src with
  | RCancelled, _ => (w, SBroken)
  | RErr, _ => (w, SFailed)
  | RBytes _, [] => (w, SDone)
  | RBytes m, _ =>
      match fuel with
      | O => (w, SBroken)
      | S f =>
          let n := Nat.max 1 (Nat.min m (Z.to_nat fileChunk)) in
          match WriteMessage w MsgData (take n src) with
          | (Err _, w') => (w', SBroken)
          | (Ok _, w') => readLoop f (tail reads) (drop n src) w'
          end
      end
  end.

Section FileRead.
(** The JSON of a [FileResult] with its [Ok] flag and error text. *)
Context (resultJSON : bool -> string -> list Z).

Definition respond (w : writer) (ok : bool) (err : string) : writer :=
  snd (WriteMessage w MsgResult (resultJSON ok err)).

(** [fileRead]; [c = None] when [os.Open] fails. *)
Definition fileRead (c : option (list Z)) (seekFails : bool) (reads : list rd)
    (offset len : Z) (w : writer) : writer :=
  match c with
  | None => respond w false "open"
  | Some c =>
      if (0 <? offset) && seekFails then respond w false "seek"
      else
        match readLoop (length c) reads (window offset len c) w with
        | (w', SBroken) => w'
        | (w', SFailed) => respond w' false "read"
        | (w', SDone) => respond (snd (WriteMessage w' MsgEOF [])) true ""
        end
  end.
End FileRead.

(** ** Upload lemmas *)

(** The fuel is enough: more of it changes nothing. *)
Lemma uploadLoop_fuel f1 f2 size ws r tmp wr :
  (length (data r) < f1)%nat -> (length (data r) < f2)%nat ->
  uploadLoop f1 size ws r tmp wr = uploadLoop f2 size ws r tmp wr.
Proof.
  revert f2 ws r tmp wr. induction f1 as [|f1 IH]; intros [|f2] ws r tmp wr H1 H2; try lia.
  cbn [uploadLoop]. destruct (ReadMessage r) as [[[t p]|er] r'] eqn:E; [|done].
  apply ReadMessage_shrinks in E. destruct (t =? MsgEOF); [done|].
  destruct (negb _); [by apply IH; lia|].
  destruct ws as [|[n|] ws]; [|done|]; destruct (_ && _); try done; apply IH; lia.
Qed.

(** A run of successful message reads. *)
Inductive reads : reader -> list (Z * list Z) -> reader -> Prop :=
| reads_nil r : reads r [] r
| reads_cons r m r1 ms r2 :
    ReadMessage r = (Ok m, r1) -> reads r1 ms r2 -> reads r (m :: ms) r2.

Definition payloads (ms : list (Z * list Z)) : list Z :=
  concat (snd <$> filter (fun m => fst m = MsgData) ms).

Lemma payloads_cons t p ms :
  payloads ((t, p) :: ms) = (if decide (t = MsgData) then p else []) ++ payloads ms.
Proof. unfold payloads. rewrite filter_cons. cbn. by case_decide. Qed.

Lemma uploadLoop_ok f size ws r tmp wr tmp' wr' :
  uploadLoop f size ws r tmp wr = (tmp', wr', None) ->
  exists ms p r1, reads r (ms ++ [(MsgEOF, p)]) r1 /\ Forall (fun m => fst m <> MsgEOF) ms
    /\ tmp' = tmp ++ payloads ms /\ wr' = wr + zlen (payloads ms).
Proof.
  revert ws r tmp wr. induction f as [|f IH]; intros ws r tmp wr; cbn [uploadLoop]; [done|].
  destruct (ReadMessage r) as [[[t p]|er] r'] eqn:E; [|done].
  destruct (Z.eqb_spec t MsgEOF) as [->|Hne].
  { intros [= <- <-]. exists [], p, r'. split_and!; [|done| |].
    - econstructor; [done|constructor].
    - by rewrite app_nil_r.
    - unfold payloads, zlen. cbn. lia. }
  assert (Hrec : forall tmp1 wr1 ws1, uploadLoop f size ws1 r' tmp1 wr1 = (tmp', wr', None) ->
    tmp1 = tmp ++ (if decide (t = MsgData) then p else []) ->
    wr1 = wr + zlen (if decide (t = MsgData) then p else []) ->
    exists ms p0 r1, reads r (ms ++ [(MsgEOF, p0)]) r1 /\ Forall (fun m => fst m <> MsgEOF) ms
      /\ tmp' = tmp ++ payloads ms /\ wr' = wr + zlen (payloads ms)).
  { intros tmp1 wr1 ws1 HL -> ->. apply IH in HL as (ms & p0 & r1 & Hr & Hf & -> & ->).
    exists ((t, p) :: ms), p0, r1. rewrite payloads_cons. split_and!.
    - by econstructor.
    - by constructor.
    - by rewrite <- app_assoc.
    - unfold zlen. rewrite length_app. lia. }
  destruct (Z.eqb_spec t MsgData) as [->|Hnd]; cbn [negb].
  - destruct ws as [|[n|] ws]; [|done|]; (destruct (_ && _); [done|]); intros HL;
      by apply (Hrec _ _ _ HL); rewrite decide_True by done.
  - intros HL. apply (Hrec _ _ _ HL); rewrite decide_False by done; [by rewrite app_nil_r|].
    unfold zlen. cbn. lia.
Qed.

Lemma uploadLoop_frames f size ms rest er tmp wr :
  (length ms < f)%nat -> Forall small ms -> Forall (fun m => fst m = MsgData) ms ->
  size <= 0 \/ wr + zlen (payloads ms) <= size ->
  uploadLoop f size [] {| data := frames (ms ++ [(MsgEOF, [])]) ++ rest; endErr := er |} tmp wr
  = (tmp ++ payloads ms, wr + zlen (payloads ms), None).
Proof.
  intros Hf Hs. revert f tmp wr Hf. induction Hs as [|[t p] ms Hm Hms IH];
    intros [|f] tmp wr Hf Ht Hsz; cbn in Hf; try lia.
  - change (frames ([] ++ [(MsgEOF, [])]) ++ rest) with (frame MsgEOF [] ++ rest).
    cbn [uploadLoop]. rewrite (ReadMessage_frame MsgEOF [] rest er) by done.
    cbn. unfold zlen. cbn. by rewrite app_nil_r, Z.add_0_r.
  - apply Forall_cons in Ht as [Ht Hts]. cbn in Ht. subst t.
    rewrite payloads_cons, decide_True in * by done. unfold zlen in Hsz. rewrite length_app in Hsz.
    change (frames (((MsgData, p) :: ms) ++ [(MsgEOF, [])]))
      with (frame MsgData p ++ frames (ms ++ [(MsgEOF, [])])).
    rewrite <- app_assoc. cbn [uploadLoop]. rewrite ReadMessage_frame by done.
    change (MsgData =? MsgEOF) with false. change (MsgData =? MsgData) with true. cbn [negb].
    assert (Hb : (0 <? size) && (size <? wr + zlen p) = false).
    { destruct (Z.ltb_spec 0 size), (Z.ltb_spec size (wr + zlen p)); try done. unfold zlen in *. lia. }
    rewrite Hb. cbn [tail]. rewrite IH; [|lia|done|unfold zlen; lia].
    f_equal. f_equal; [by rewrite <- app_assoc|]. unfold zlen. rewrite length_app. lia.
Qed.

(** ** Claims *)

(** Framing round trip: any sequence of messages of at most 1 MiB,
    written one after another, is read back as exactly the same sequence of
    types and payloads, after which the reader reports the end of the
    stream -- whatever bytes the payloads contain. *)
Lemma framing_roundtrip w ms w' er :
  Forall small ms -> sent w = [] -> room w = None ->
  writeAll w ms = (Ok tt, w') ->
  readAll (S (length ms)) {| data := sent w'; endErr := er |} = (ms, Some er).
Proof.
  intros Hs Hw Hr HW. rewrite (writeAll_ok ms w Hs Hr), Hw in HW. injection HW as <-.
  by apply readAll_frames.
Qed.

(** On a stream that ends cleanly, [ReadMessage] reports [io.EOF] in
    exactly two cases: no byte is left, or the stream ends right after a
    header that announces a non-empty payload. The second is a truncated
    message, not the clean end the function's comment reserves [io.EOF]
    for; every other truncation is reported as [io.ErrUnexpectedEOF]. *)
Lemma ReadMessage_EOF_iff r :
  endErr r = EOF ->
  (fst (ReadMessage r) = Err EOF
   <-> data r = [] \/ length (data r) = 5%nat
         /\ 0 < Uint32 (drop 1 (data r)) <= MaxMessageBytes).
Proof.
  intros He. unfold ReadMessage, ReadFull. rewrite He.
  destruct (data r) as [|t d] eqn:Ed; cbn [length]; [cbn; tauto|].
  destruct (Nat.leb_spec 5 (S (length d))) as [H5|H5].
  2: { cbn. split; [done|]. intros [?|[? _]]; [done|lia]. }
  assert (Ht : length d = 4%nat -> take 5 (t :: d) = t :: d).
  { intros Hd. apply take_ge. cbn. lia. }
  set (n := Uint32 (drop 1 (take 5 (t :: d)))).
  assert (Hn : length d = 4%nat -> Uint32 (drop 1 (t :: d)) = n) by (intros Hd; unfold n; by rewrite Ht).
  destruct (Z.ltb_spec MaxMessageBytes n) as [Hbig|Hbig].
  { cbn [fst]. split; [done|]. intros [?|[Hd Hr]]; [done|]. rewrite Hn in Hr by lia. lia. }
  destruct (Z.eqb_spec n 0) as [H0|H0].
  { cbn [fst]. split; [done|]. intros [?|[Hd Hr]]; [done|]. rewrite Hn in Hr by lia. lia. }
  cbn [data endErr]. destruct (Nat.leb_spec (Z.to_nat n) (length (drop 5 (t :: d)))) as [Hle|Hlt].
  - cbn [fst]. split; [done|]. intros [?|[Hd Hr]]; [done|]. rewrite Hn in Hr by lia.
    rewrite length_drop in Hle. cbn [length] in Hle. lia.
  - change (drop 5 (t :: d)) with (drop 4 d) in *. rewrite length_drop in Hlt.
    destruct (drop 4 d) as [|x l] eqn:Edr; cbn [fst].
    + split; [|done]. intros _. right. assert (length d = 4%nat).
      { apply (f_equal length) in Edr. rewrite length_drop in Edr. cbn in Edr. lia. }
      rewrite Hn by done. split; [lia|]. lia.
    + split; [done|]. intros [?|[Hd _]]; [done|].
      apply (f_equal length) in Edr. rewrite length_drop in Edr. cbn in Edr. lia.
Qed.

(** C40: uploads are atomic: whatever arrives on the stream and whichever
    call fails, [fileWrite] either reports an error and leaves the target
    path exactly as it was, or reports success and the target holds exactly
    the data payloads received before the end marker, with the requested
    permissions and (when declared) the declared size. No other path
    changes, and the temp file is gone unless its removal itself failed. *)
Theorem upload_atomic fl tmpName path size mode r fs n err fs' :
  fs !! tmpName = None -> tmpName <> path ->
  fileWrite fl tmpName path size mode r fs = (n, err, fs') ->
  (forall q, q <> path -> q <> tmpName -> fs' !! q = fs !! q)
  /\ (fRemove fl = false -> fs' !! tmpName = None)
  /\ match err with
     | Some _ => fs' !! path = fs !! path
     | None => exists ms p r1, reads r (ms ++ [(MsgEOF, p)]) r1
         /\ Forall (fun m => fst m <> MsgEOF) ms
         /\ fs' !! path = Some {| content := payloads ms; perm := fileMode mode 420 |}
         /\ n = zlen (payloads ms) /\ (0 < size -> n = size)
     end.
Proof.
  intros Htmp Hne. unfold fileWrite. destruct (fCreate fl); [by intros [= <- <- <-]|].
  destruct (uploadLoop _ _ _ _ _ _) as [[tmp written] lerr] eqn:HL.
  assert (Hfail : forall x, let f := cleanup fl tmpName (<[tmpName := x]> fs) in
    (forall q, q <> path -> q <> tmpName -> f !! q = fs !! q)
    /\ (fRemove fl = false -> f !! tmpName = None) /\ f !! path = fs !! path).
  { intros x. unfold cleanup. destruct (fRemove fl); cbn; split_and!; intros;
      rewrite ?lookup_delete_ne, ?lookup_insert_ne, ?lookup_delete_eq by congruence; done. }
  destruct lerr as [e|]; [intros [= <- <- <-]; apply Hfail|].
  destruct ((0 <? size) && negb (written =? size)) eqn:Hsz; [intros [= <- <- <-]; apply Hfail|].
  destruct (fSync fl); [intros [= <- <- <-]; apply Hfail|].
  destruct (fChmod fl); [intros [= <- <- <-]; apply Hfail|].
  destruct (fClose fl); [intros [= <- <- <-]; apply Hfail|].
  destruct (fRename fl); [intros [= <- <- <-]; apply Hfail|].
  intros [= <- <- <-]. apply uploadLoop_ok in HL as (ms & p & r1 & Hr & Hf & -> & ->).
  cbn [app] in *. unfold cleanup. split_and!.
  - intros q Hq1 Hq2. destruct (fRemove fl);
      by rewrite ?lookup_delete_ne, lookup_insert_ne, lookup_delete_ne, lookup_insert_ne by congruence.
  - intros ->. by rewrite lookup_delete_eq.
  - exists ms, p, r1. split_and!; [done|done| |lia|].
    + destruct (fRemove fl); rewrite ?lookup_delete_ne by congruence; by rewrite lookup_insert_eq.
    + intros H0. apply Z.ltb_lt in H0. rewrite H0 in Hsz. cbn [andb] in Hsz.
      apply negb_false_iff, Z.eqb_eq in Hsz. lia.
Qed.

Definition noFaults : uploadFaults :=
  {| fCreate := false; fWrites := []; fSync := false; fChmod := false; fClose := false;
     fRename := false; fRemove := false |}.

Definition demoFS : gmap string file := {["/etc/app.conf"%string := {| content := [1]; perm := 420 |}]}.
Definition demoUpload : reader :=
  {| data := frames [(MsgData, [7; 8]); (MsgData, [9]); (MsgEOF, [])]; endErr := EOF |}.

Lemma upload_atomic_witness :
  fst (fileWrite noFaults "/etc/.agent-upload-1" "/etc/app.conf" 3 0 demoUpload demoFS) = (3, None)
  /\ (fRemove noFaults = false -> snd (fileWrite noFaults "/etc/.agent-upload-1" "/etc/app.conf" 3 0
        demoUpload demoFS) !! "/etc/.agent-upload-1"%string = None).
Proof.
  split; [vm_compute; reflexivity|].
  apply (upload_atomic noFaults "/etc/.agent-upload-1" "/etc/app.conf" 3 0 demoUpload demoFS 3 None);
    [reflexivity | discriminate |].
  vm_compute. reflexivity.
Defined.

(** An upload arrives intact: chunks of at most 1 MiB, sent as data
    messages followed by the end marker, are stored as their concatenation
    at the target, whatever follows on the stream, provided the declared
    size is absent or right and no local call fails. *)
Lemma upload_roundtrip tmpName path mode chunks size rest er fs :
  tmpName <> path -> fs !! tmpName = None -> Forall (fun c => zlen c <= MaxMessageBytes) chunks ->
  size <= 0 \/ size = zlen (concat chunks) ->
  fileWrite noFaults tmpName path size mode
    {| data := frames (((fun c => (MsgData, c)) <$> chunks) ++ [(MsgEOF, [])]) ++ rest; endErr := er |} fs
  = (zlen (concat chunks), None,
     <[path := {| content := concat chunks; perm := fileMode mode 420 |}]> fs).
Proof.
  intros Hne Htmp Hc Hsz. unfold fileWrite. cbn [fCreate noFaults fWrites fSync fChmod fClose fRename].
  set (ms := (fun c => (MsgData, c)) <$> chunks).
  assert (Hp : payloads ms = concat chunks).
  { unfold ms. clear. induction chunks as [|c cs IH]; [done|].
    cbn [fmap list_fmap]. rewrite payloads_cons, IH, decide_True by done. done. }
  assert (Hlen : (length ms < S (length (frames (ms ++ [(MsgEOF, [])]) ++ rest)))%nat).
  { apply Nat.lt_succ_r. rewrite length_app. clear.
    induction ms as [|[t p] ms IH]; cbn; [lia|]. unfold frames in IH. rewrite length_app. lia. }
  rewrite (uploadLoop_frames _ size ms rest er [] 0) by
    (try exact Hlen; try (rewrite Hp; lia); unfold ms; apply Forall_fmap;
     apply (Forall_impl _ _ _ Hc); done).
  rewrite Hp. cbn [app]. rewrite Z.add_0_l.
  destruct ((0 <? size) && negb (zlen (concat chunks) =? size)) eqn:B.
  { apply andb_true_iff in B as [B1 B2]. apply Z.ltb_lt in B1.
    apply negb_true_iff, Z.eqb_neq in B2. lia. }
  unfold cleanup. cbn [fRemove noFaults]. f_equal.
  rewrite delete_insert_ne by congruence. f_equal.
  rewrite delete_insert_eq, !delete_id; [done|done|by rewrite delete_id].
Qed.

Definition isBytes (x : rd) : Prop := match x with RBytes _ => True | _ => False end.

Lemma readLoop_ok fuel rs src w :
  Forall isBytes rs -> (length src <= fuel)%nat -> room w = None ->
  exists chunks, readLoop fuel rs src w
      = ({| sent := sent w ++ frames ((fun c => (MsgData, c)) <$> chunks); room := None |}, SDone)
    /\ concat chunks = src /\ Forall (fun c => 0 < zlen c <= fileChunk) chunks.
Proof.
  revert rs src w. induction fuel as [|fuel IH]; intros rs src w Hrs Hl Hr.
  all: assert (Hhd : exists m, hd (RBytes (Z.to_nat fileChunk)) rs = RBytes m)
    by (destruct Hrs as [|[m| |] rs' Hm]; [by eexists|by eexists|done|done]).
  all: destruct Hhd as [m Hm]; destruct src as [|b src]; cbn [readLoop]; rewrite Hm.
  1,3: exists []; cbn; rewrite app_nil_r; destruct w; cbn in *; subst; done.
  - cbn in Hl. lia.
  - set (n := Nat.max 1 (Nat.min m (Z.to_nat fileChunk))).
    assert (Hn : (1 <= n <= Z.to_nat fileChunk)%nat).
    { unfold n. assert (1 <= Z.to_nat fileChunk)%nat by (unfold fileChunk; lia). lia. }
    assert (Hsz : 0 < zlen (take n (b :: src)) <= fileChunk).
    { unfold zlen. rewrite length_take. cbn [length]. unfold fileChunk in *. lia. }
    assert (fileChunk <= MaxMessageBytes) by done.
    rewrite WriteMessage_ok by (done || lia).
    destruct (IH (tail rs) (drop n (b :: src))
      {| sent := sent w ++ frame MsgData (take n (b :: src)); room := None |}) as (cs & -> & Hcs & Hall).
    + destruct Hrs; [constructor|done].
    + rewrite length_drop. cbn [length] in *. lia.
    + done.
    + exists (take n (b :: src) :: cs). split_and!.
      * cbn [sent]. f_equal. f_equal. rewrite <- app_assoc. done.
      * cbn [concat]. rewrite Hcs. apply take_drop.
      * by constructor.
Qed.

(** A download delivers the requested window: when neither side fails,
    a client that reads the stream of [fileRead] gets non-empty data
    messages of at most 256 KiB whose payloads concatenate to exactly the
    requested window of the file, then the end marker, then the success
    result -- whatever short reads the operating system returns. *)
Lemma download_roundtrip json c rs offset len w er :
  Forall isBytes rs -> sent w = [] -> room w = None -> zlen (json true ""%string) <= MaxMessageBytes ->
  exists chunks,
    readAll (S (length chunks + 2))
      {| data := sent (fileRead json (Some c) false rs offset len w); endErr := er |}
    = (((fun x => (MsgData, x)) <$> chunks) ++ [(MsgEOF, []); (MsgResult, json true ""%string)], Some er)
    /\ concat chunks = window offset len c
    /\ Forall (fun x => 0 < zlen x <= fileChunk) chunks.
Proof.
  intros Hrs Hw Hr Hj. unfold fileRead. rewrite andb_false_r.
  destruct (readLoop_ok (length c) rs (window offset len c) w) as (cs & -> & Hc & Hall); [done| |done|].
  { unfold window. cbv zeta. destruct (0 <? len), (0 <? offset);
      rewrite ?length_take, ?length_drop; lia. }
  exists cs. split_and!; [|done|done]. unfold respond.
  rewrite (WriteMessage_ok _ MsgEOF []) by done. cbn [snd].
  rewrite (WriteMessage_ok _ MsgResult) by done. cbn [snd sent]. rewrite Hw. cbn [app].
  set (ms := ((fun x => (MsgData, x)) <$> cs) ++ [(MsgEOF, []); (MsgResult, json true ""%string)]).
  replace (S (length cs + 2)) with (S (length ms)) by (unfold ms; rewrite length_app, length_fmap; done).
  rewrite <- readAll_frames with (ms := ms) (er := er).
  - do 2 f_equal. unfold ms, frames. rewrite fmap_app, concat_app, <- app_assoc. cbn.
    by rewrite !app_nil_r.
  - unfold ms. apply Forall_app. split; [|by repeat constructor].
    apply Forall_fmap. apply (Forall_impl _ _ _ Hall). intros x [_ Hx]. unfold small. cbn.
    assert (fileChunk <= MaxMessageBytes) by done. lia.
Qed.

End Wire.
