(* ===== verification/AgentGuard.v ===== *)
(** * The agent's dial guard

    Models [lib/agent/loopback/loopback.go] and
    [lib/agent/datachan/guard.go]: which addresses a tcp stream opened by
    the control plane may reach. [net.SplitHostPort] and
    [net.JoinHostPort] are modelled; parsing and printing IP addresses and
    DNS are parameters. *)

From stdpp Require Import sorting.
From S2P Require Import Prelude.

Module Guard.

(** ** host:port strings *)

(** [IndexByteString] and the last index of a byte. *)
Fixpoint indexByte (c : ascii) (s : string) : option nat :=
  match s with
  | EmptyString => None
  | String a s' => if Ascii.eqb a c then Some 0%nat else S <$> indexByte c s'
  end.

Fixpoint lastByte (c : ascii) (s : string) : option nat :=
  match s with
  | EmptyString => None
  | String a s' =>
      match lastByte c s' with
      | Some i => Some (S i)
      | None => if Ascii.eqb a c then Some 0%nat else None
      end
  end.

Definition SplitHostPort (hostport : string) : option (string * string) :=
  match lastByte ":" hostport with
  | None => None
  | Some i =>
      let port := str_drop (S i) hostport in
      let finish (host : string) (j k : nat) :=
        match indexByte "[" (str_drop j hostport), indexByte "]" (str_drop k hostport) with
        | None, None => Some (host, port)
        | _, _ => None
        end in
      if HasPrefix hostport "[" then
        match indexByte "]" hostport with
        | None => None
        | Some end_ =>
            if (S end_ =? i)%nat
            then finish (str_take (end_ - 1) (str_drop 1 hostport)) 1%nat (S end_)
            else None
        end
      else
        let host := str_take i hostport in
        if str_in ":" host then None else finish host 0%nat 0%nat
  end.

Definition JoinHostPort (host port : string) : string :=
  if str_in ":" host then "[" +++ host +++ "]:" +++ port else host +++ ":" +++ port.

(** ** IP addresses: the 16-byte form of [net.IP] *)

Definition IP : Type := list Z.

Definition v4prefix : list Z := [0; 0; 0; 0; 0; 0; 0; 0; 0; 0; 255; 255].

(** [IP.IsLoopback]: 127.0.0.0/8 or ::1. *)
Definition IsLoopback (ip : IP) : bool :=
  if bool_decide (take 12 ip = v4prefix) then nth 12 ip 0 =? 127
  else bool_decide (ip = [0; 0; 0; 0; 0; 0; 0; 0; 0; 0; 0; 0; 0; 0; 0; 1]).

Section Loopback.
(** [net.ParseIP], [IP.String] and [net.LookupIP]. *)
Context (ParseIP : string -> option IP) (IPString : IP -> string)
        (LookupIP : string -> result string (list IP)).

Definition ResolveHost (host : string) : result string string :=
  match ParseIP host with
  | Some ip =>
      if negb (IsLoopback ip) then Err ("target " +++ host +++ " is not a loopback address")
      else Ok (IPString ip)
  | None =>
      match LookupIP host with
      | Err e => Err ("resolve target " +++ host +++ ": " +++ e)
      | Ok [] => Err ("target " +++ host +++ " resolves to nothing")
      | Ok ((ip0 :: _) as addrs) =>
          match find (fun ip => negb (IsLoopback ip)) addrs with
          | Some ip => Err ("target " +++ host +++ " resolves to non-loopback " +++ IPString ip)
          | None => Ok (IPString ip0)
          end
      end
  end.

Definition Resolve (hostport : string) : result string string :=
  match SplitHostPort hostport with
  | None => Err ("target " +++ hostport +++ " is not host:port")
  | Some (host, port) =>
      match ResolveHost host with
      | Err e => Err e
      | Ok ip => Ok (JoinHostPort ip port)
      end
  end.

(** ** The guard *)

Record Guard := { operator : option (gset Z); server : option (gset Z) }.

Definition portSet (ports : list Z) : option (gset Z) :=
  match ports with [] => None | _ => Some (list_to_set ports) end.

Definition NewGuard (ports : list Z) : Guard := {| operator := portSet ports; server := None |}.

Definition SetPorts (g : Guard) (ports : list Z) : Guard :=
  {| operator := operator g; server := portSet ports |}.

Definition effectiveLocked (g : Guard) : option (gset Z) :=
  match operator g, server g with
  | None, s => s
  | Some o, None => Some o
  | Some o, Some s => Some (filter (fun p => p ∈ o) s)
  end.

(** [Ports]: the effective list, sorted. *)
Definition Ports (g : Guard) : list Z :=
  merge_sort Z.le (elements (default ∅ (effectiveLocked g))).

(** [strconv.Atoi], then the port range. *)
Definition parsePort (portStr : string) : option Z :=
  match ParseInt portStr 64 with
  | Some port => if (port <? 1) || (65535 <? port) then None else Some port
  | None => None
  end.

Definition GuardResolve (g : Guard) (target : string) : result string string :=
  match SplitHostPort target with
  | None => Err ("target " +++ target +++ " is not host:port")
  | Some (_, portStr) =>
      match parsePort portStr with
      | None => Err ("target " +++ target +++ " has an invalid port")
      | Some port =>
          match effectiveLocked g with
          | Some allowed =>
              if bool_decide (port ∈ allowed) then Resolve target
              else Err ("port " +++ FormatInt port +++ " is not in the allowlist")
          | None => Resolve target
          end
      end
  end.

End Loopback.

(** ** Lemmas on host:port strings *)

Lemma lastByte_app c s t : str_in c t = false ->
  lastByte c (s +++ String c t) = Some (String.length s).
Proof.
  intros Ht. induction s as [|a s IH]; cbn.
  - assert (Hn : lastByte c t = None).
    { clear -Ht. induction t as [|b t IH]; [done|]. cbn in *.
      apply orb_false_iff in Ht as [H1 H2]. rewrite IH by done. by rewrite H1. }
    by rewrite Hn, Ascii.eqb_refl.
  - by rewrite IH.
Qed.

Lemma indexByte_None c s : indexByte c s = None <-> str_in c s = false.
Proof.
  induction s as [|a s IH]; cbn; [done|]. destruct (Ascii.eqb a c); cbn; [done|].
  rewrite <- IH. by destruct (indexByte c s).
Qed.

Lemma indexByte_app c s t : str_in c s = false ->
  indexByte c (s +++ String c t) = Some (String.length s).
Proof.
  induction s as [|a s IH]; cbn; [by rewrite Ascii.eqb_refl|].
  intros [H1 H2]%orb_false_iff. by rewrite H1, IH.
Qed.

Lemma str_in_drop c n s : str_in c s = false -> str_in c (str_drop n s) = false.
Proof.
  revert s. induction n as [|n IH]; intros [|a s]; cbn; try done.
  intros [_ H]%orb_false_iff. by apply IH.
Qed.

Lemma str_drop_drop n m s : str_drop n (str_drop m s) = str_drop (m + n) s.
Proof.
  revert s. induction m as [|m IH]; intros s; [done|].
  destruct s as [|a s]; [by destruct n|]. cbn. apply IH.
Qed.

Lemma lastByte_drop c s i : lastByte c s = Some i -> str_in c (str_drop (S i) s) = false.
Proof.
  revert i. induction s as [|a s IH]; intros i; cbn; [done|].
  destruct (lastByte c s) as [j|] eqn:E; [intros [= <-]; by apply IH|].
  destruct (Ascii.eqb a c); [|done]. intros [= <-].
  cbn. assert (Hs : str_in c s = false).
  { clear -E. induction s as [|b s IH]; [done|]. cbn in *.
    destruct (lastByte c s); [done|]. destruct (Ascii.eqb b c); [done|]. by apply IH. }
  by destruct s.
Qed.

Lemma SplitHostPort_port s h p : SplitHostPort s = Some (h, p) ->
  str_in ":" p = false /\ str_in "[" p = false /\ str_in "]" p = false.
Proof.
  unfold SplitHostPort. destruct (lastByte ":" s) as [i|] eqn:Hi; [|done].
  assert (Hsuf : forall c n, (n <= S i)%nat -> indexByte c (str_drop n s) = None ->
    str_in c (str_drop (S i) s) = false).
  { intros c n Hn H. apply indexByte_None in H. replace (S i) with (n + (S i - n))%nat by lia.
    rewrite <- str_drop_drop. by apply str_in_drop. }
  assert (Hfin : forall host j k, (j <= S i)%nat -> (k <= S i)%nat ->
    match indexByte "[" (str_drop j s), indexByte "]" (str_drop k s) with
    | None, None => Some (host, str_drop (S i) s) | _, _ => None end = Some (h, p) ->
    str_in ":" p = false /\ str_in "[" p = false /\ str_in "]" p = false).
  { intros host j k Hj Hk. destruct (indexByte "[" _) eqn:E1; [done|].
    destruct (indexByte "]" _) eqn:E2; [done|]. intros [= _ <-].
    split_and!; [by apply lastByte_drop | exact (Hsuf _ _ Hj E1) | exact (Hsuf _ _ Hk E2)]. }
  cbv zeta. destruct (HasPrefix s "[").
  - destruct (indexByte "]" s) as [e|]; [|done]. destruct (Nat.eqb_spec (S e) i); [|done].
    apply Hfin; lia.
  - destruct (str_in ":" (str_take i s)); [done|]. apply Hfin; lia.
Qed.

(** Joining a bracket-free host and splitting again loses nothing. *)
Lemma SplitHostPort_Join h p :
  str_in "[" h = false -> str_in "]" h = false ->
  str_in ":" p = false -> str_in "[" p = false -> str_in "]" p = false ->
  SplitHostPort (JoinHostPort h p) = Some (h, p).
Proof.
  intros H1 H2 P0 P1 P2. unfold JoinHostPort. destruct (str_in ":" h) eqn:Hc.
  - set (s := "[" +++ h +++ "]:" +++ p).
    assert (E1 : s = (String "[" h +++ "]") +++ String ":" p) by (cbn; by rewrite app_assoc_s).
    assert (E2 : s = String "[" h +++ String "]" (String ":" p)) by done.
    assert (HL : lastByte ":" s = Some (S (S (String.length h)))).
    { rewrite E1, lastByte_app by done. f_equal. cbn. rewrite length_app_s. cbn. lia. }
    assert (HI : indexByte "]" s = Some (S (String.length h))) by (rewrite E2; by apply indexByte_app).
    assert (HD : str_drop 1 s = h +++ "]:" +++ p) by done.
    assert (Hport : str_drop (S (S (S (String.length h)))) s = p).
    { change (str_drop (S (S (String.length h))) (h +++ String "]" (String ":" p)) = p).
      replace (S (S (String.length h))) with (String.length h + 2)%nat by lia.
      rewrite <- str_drop_drop, str_drop_app. done. }
    assert (Hend : str_drop (S (S (String.length h))) s = String ":" p).
    { change (str_drop (S (String.length h)) (h +++ String "]" (String ":" p)) = String ":" p).
      replace (S (String.length h)) with (String.length h + 1)%nat by lia.
      rewrite <- str_drop_drop, str_drop_app. done. }
    unfold SplitHostPort. rewrite HL. cbv zeta. change (HasPrefix s "[") with true. cbn iota.
    rewrite HI, Nat.eqb_refl, Hend, Hport, HD.
    replace (S (String.length h) - 1)%nat with (String.length h) by lia. rewrite str_take_app.
    rewrite (proj2 (indexByte_None "[" (h +++ "]:" +++ p))) by (rewrite str_in_app, H1; exact P1).
    by rewrite (proj2 (indexByte_None "]" (String ":" p))) by exact P2.
  - change (h +++ ":" +++ p) with (h +++ String ":" p).
    unfold SplitHostPort. rewrite lastByte_app by done. cbv zeta.
    assert (Hpre : HasPrefix (h +++ String ":" p) "[" = false).
    { destruct h as [|a h]; [done|]. cbn in H1 |- *. apply orb_false_iff in H1 as [H1 _].
      rewrite Ascii.eqb_sym in H1. cbn. rewrite Ascii.eqb_sym, ?H1. done. }
    rewrite Hpre, str_take_app, Hc.
    assert (Hport : str_drop (S (String.length h)) (h +++ String ":" p) = p).
    { replace (S (String.length h)) with (String.length h + 1)%nat by lia.
      rewrite <- str_drop_drop, str_drop_app. done. }
    rewrite Hport. cbn [str_drop].
    rewrite (proj2 (indexByte_None "[" (h +++ String ":" p))) by (rewrite str_in_app, H1; exact P1).
    by rewrite (proj2 (indexByte_None "]" (h +++ String ":" p))) by (rewrite str_in_app, H2; exact P2).
Qed.

(** ** Lemmas on the guard *)

Lemma effectiveLocked_spec g a p : effectiveLocked g = Some a ->
  (p ∈ a <-> (forall o, operator g = Some o -> p ∈ o) /\ (forall s, server g = Some s -> p ∈ s)).
Proof.
  unfold effectiveLocked. destruct (operator g) as [o|], (server g) as [s|]; intros [= <-];
    rewrite ?elem_of_filter; naive_solver.
Qed.

Lemma effectiveLocked_None g : effectiveLocked g = None <-> operator g = None /\ server g = None.
Proof. unfold effectiveLocked. destruct (operator g), (server g); naive_solver. Qed.

(** What both allowlists say about a port. *)
Definition allowedBy (g : Guard) (port : Z) : Prop :=
  (forall o, operator g = Some o -> port ∈ o) /\ (forall s, server g = Some s -> port ∈ s).

Section Facts.
Context (ParseIP : string -> option IP) (IPString : IP -> string)
        (LookupIP : string -> result string (list IP)).

Lemma ResolveHost_loopback host a :
  ResolveHost ParseIP IPString LookupIP host = Ok a ->
  exists ip, IsLoopback ip = true /\ a = IPString ip
    /\ (ParseIP host = Some ip
        \/ exists addrs, LookupIP host = Ok addrs /\ Forall (fun x => IsLoopback x = true) addrs
                         /\ ip ∈ addrs).
Proof.
  unfold ResolveHost. destruct (ParseIP host) as [ip|] eqn:HP.
  - destruct (IsLoopback ip) eqn:HL; [|done]. intros [= <-]. exists ip. auto.
  - destruct (LookupIP host) as [[|ip0 addrs]|]; [done| |done].
    destruct (find _ _) as [x|] eqn:Hf; [done|]. intros [= <-].
    assert (Hall : Forall (fun x => IsLoopback x = true) (ip0 :: addrs)).
    { apply Forall_forall. intros x Hx. apply list_elem_of_In in Hx.
      pose proof (find_none _ _ Hf x Hx) as Hn. by apply negb_false_iff in Hn. }
    exists ip0. split; [by apply Forall_cons in Hall as [? _]|]. split; [done|].
    right. exists (ip0 :: addrs). split_and!; [done|done|by left].
Qed.

Lemma GuardResolve_Ok g target addr :
  GuardResolve ParseIP IPString LookupIP g target = Ok addr <->
  exists host portStr port a, SplitHostPort target = Some (host, portStr)
    /\ parsePort portStr = Some port /\ allowedBy g port
    /\ ResolveHost ParseIP IPString LookupIP host = Ok a /\ addr = JoinHostPort a portStr.
Proof.
  unfold GuardResolve, Resolve. destruct (SplitHostPort target) as [[host portStr]|];
    [|split; [done | by intros (? & ? & ? & ? & [=] & _)]].
  destruct (parsePort portStr) as [port|] eqn:Hp;
    [|split; [done | intros (? & ? & ? & ? & [= <- <-] & ? & _); congruence]].
  assert (Hres : match ResolveHost ParseIP IPString LookupIP host with
      | Ok ip => Ok (JoinHostPort ip portStr) | Err e => Err e end = Ok addr
    <-> exists a, ResolveHost ParseIP IPString LookupIP host = Ok a /\ addr = JoinHostPort a portStr).
  { destruct (ResolveHost _ _ _ host); split; [intros [= <-]; eauto | intros (? & [= <-] & ->); done
      | done | intros (? & [=] & _)]. }
  assert (Hall : match effectiveLocked g with Some a => port ∈ a | None => True end <-> allowedBy g port).
  { destruct (effectiveLocked g) as [a|] eqn:Ha; [by apply effectiveLocked_spec|].
    apply effectiveLocked_None in Ha as [H1 H2]. unfold allowedBy. rewrite H1, H2. naive_solver. }
  destruct (effectiveLocked g) as [a|].
  - case_bool_decide as Hin.
    + rewrite Hres. split; [intros (x & ? & ?); exists host, portStr, port, x; tauto|].
      intros (? & ? & ? & x & [= <- <-] & _ & _ & ? & ?). eauto.
    + split; [done|]. intros (? & ? & port' & x & [= <- <-] & ? & Hal & _).
      assert (port' = port) as -> by congruence. tauto.
  - rewrite Hres. split; [intros (x & ? & ?); exists host, portStr, port, x; tauto|].
    intros (? & ? & ? & x & [= <- <-] & _ & _ & ? & ?). eauto.
Qed.
End Facts.

(** ** Claims *)

(** The agent can only be used to reach its own host: whenever the guard
    approves a target, the address it returns to be dialled splits into a
    literal that parses back to a loopback address -- so dialling it
    resolves nothing a second time -- and the checked port, which is in
    1..65535 and in every allowlist that is set. This holds for any DNS
    answers, any pushed allowlist and any target string. *)
Lemma guard_dials_loopback ParseIP IPString LookupIP g target addr :
  (forall ip, ParseIP (IPString ip) = Some ip) ->
  (forall ip, str_in "[" (IPString ip) = false /\ str_in "]" (IPString ip) = false) ->
  GuardResolve ParseIP IPString LookupIP g target = Ok addr ->
  exists h ip portStr port, SplitHostPort addr = Some (h, portStr)
    /\ ParseIP h = Some ip /\ IsLoopback ip = true
    /\ parsePort portStr = Some port /\ 1 <= port <= 65535 /\ allowedBy g port.
Proof.
  intros Hparse Hbr H. apply GuardResolve_Ok in H as (host & portStr & port & a & Hs & Hp & Hal & Hr & ->).
  apply ResolveHost_loopback in Hr as (ip & Hlo & -> & _).
  apply SplitHostPort_port in Hs as (P0 & P1 & P2). destruct (Hbr ip) as [B1 B2].
  exists (IPString ip), ip, portStr, port. split_and!; try done.
  - by apply SplitHostPort_Join.
  - unfold parsePort in Hp. destruct (ParseInt portStr 64) as [q|]; [|done].
    destruct ((q <? 1) || (65535 <? q)) eqn:E; [done|]. injection Hp as <-. lia.
  - unfold parsePort in Hp. destruct (ParseInt portStr 64) as [q|]; [|done].
    destruct ((q <? 1) || (65535 <? q)) eqn:E; [done|]. injection Hp as <-. lia.
Qed.

(** A printer of addresses that has the two properties, on the bit strings
    of the prelude. *)
Lemma bits_brackets p : str_in "[" (bits p) = false /\ str_in "]" (bits p) = false.
Proof. induction p as [p IH|p IH|]; cbn; [exact IH | exact IH | done]. Qed.

Definition demoParse (s : string) : option IP :=
  if s =s "localhost" then None else decode (unbits s).
Definition demoPrint (ip : IP) : string := bits (encode ip).
Definition lo4 : IP := v4prefix ++ [127; 0; 0; 1].
Definition demoLookup (s : string) : result string (list IP) :=
  if s =s "localhost" then Ok [lo4] else Err "no such host"%string.

Lemma demo_parse_print ip : demoParse (demoPrint ip) = Some ip.
Proof.
  unfold demoParse, demoPrint. destruct (String.eqb_spec (bits (encode ip)) "localhost") as [E|_].
  - exfalso. destruct (encode ip); cbn in E; discriminate.
  - rewrite unbits_bits. apply decode_encode.
Qed.

(** A compromised server cannot widen the operator's allowlist: any
    target the guard approves after any sequence of pushed lists is one it
    approves, with the same address, under the operator's own list alone. *)
Lemma pushed_ports_only_narrow ParseIP IPString LookupIP ports pushes target addr :
  GuardResolve ParseIP IPString LookupIP (fold_left SetPorts pushes (NewGuard ports)) target = Ok addr ->
  GuardResolve ParseIP IPString LookupIP (NewGuard ports) target = Ok addr.
Proof.
  assert (Hop : forall pushes g, operator (fold_left SetPorts pushes g) = operator g).
  { intros ps. induction ps as [|x ps IH]; intros g; [done|]. cbn. by rewrite IH. }
  rewrite !GuardResolve_Ok. intros (host & portStr & port & a & Hs & Hp & [Ho _] & Hr & ->).
  exists host, portStr, port, a. split_and!; try done. split; [|done].
  intros o Hg. apply Ho. by rewrite Hop.
Qed.

(** [Ports] cannot tell "any port" from "no port": with disjoint lists it is
    empty, and every target is refused. *)
Lemma Ports_empty_denies ParseIP IPString LookupIP target :
  Ports (SetPorts (NewGuard [22]) [80]) = []
  /\ exists e, GuardResolve ParseIP IPString LookupIP (SetPorts (NewGuard [22]) [80]) target = Err e.
Proof.
  split; [vm_compute; reflexivity|].
  destruct (GuardResolve _ _ _ _ target) as [a|e] eqn:E; [|by exists e].
  exfalso. apply GuardResolve_Ok in E as (? & ? & port & ? & _ & _ & [H1 H2] & _).
  specialize (H1 _ eq_refl). specialize (H2 _ eq_refl). set_solver.
Qed.

End Guard.
