(* ===== verification/MetricRing.v ===== *)
(** * The agent's metric history

    Models [lib/agent/nodemetrics/ring.go]: the fixed-resolution ring
    ([tier]) with its derived timestamps, the counter and gauge readings
    over it, and the ring of series with its admission limit. The float64
    operations are a parameter ([FloatOps]); times are milliseconds. *)

From stdpp Require Import sorting.
From S2P Require Import Prelude.

Module Ring.

(** What the code uses of float64. *)
Record FloatOps := {
  F : Type; nan : F; isNaN : F -> bool; fzero : F;
  fsub : F -> F -> F; fadd : F -> F -> F; fneg : F -> bool
}.

Definition FineStep : Z := 15 * 1000.
Definition fineSlots : nat := 240.
Definition CoarseStep : Z := 60 * 1000.
Definition coarseSlots : nat := 1440.
Definition DefaultSeriesLimit : Z := 8192.

Inductive Kind := Gauge | Counter.
Record Label := { lName : string; lValue : string }.

Section Tier.
Context (fo : FloatOps).

Record tier := { stepMs : Z; values : list (F fo); lastIdx : Z; lastMs : Z }.

Definition slots (t : tier) : Z := Z.of_nat (length (values t)).

Definition newTier (step : Z) (n : nat) : tier :=
  {| stepMs := step; values := replicate n (nan fo); lastIdx := -1; lastMs := 0 |}.

(** A slice store; every index the code computes is in range. *)
Definition store (vs : list (F fo)) (i : Z) (v : F fo) : list (F fo) := <[Z.to_nat i := v]> vs.

Definition load (vs : list (F fo)) (i : Z) : F fo := default (nan fo) (vs !! Z.to_nat i).

(** The hole-punching loop of [put]: slots [lastIdx+1 .. lastIdx+steps-1]. *)
Fixpoint punch (idx : Z) (i : nat) (vs : list (F fo)) : list (F fo) :=
  match i with
  | O => vs
  | S j => store (punch idx j vs) ((idx + Z.of_nat i) mod Z.of_nat (length vs)) (nan fo)
  end.

Definition put (t : tier) (atMs : Z) (v : F fo) : tier :=
  let grid := Z.quot atMs (stepMs t) * stepMs t in
  if lastIdx t <? 0 then
    {| stepMs := stepMs t; values := store (values t) 0 v; lastIdx := 0; lastMs := grid |}
  else if grid =? lastMs t then
    {| stepMs := stepMs t; values := store (values t) (lastIdx t) v;
       lastIdx := lastIdx t; lastMs := lastMs t |}
  else if lastMs t <? grid then
    let steps := Z.quot (grid - lastMs t) (stepMs t) in
    if slots t <=? steps then
      {| stepMs := stepMs t; values := store (replicate (length (values t)) (nan fo)) 0 v;
         lastIdx := 0; lastMs := grid |}
    else
      let vs := punch (lastIdx t) (Z.to_nat (steps - 1)) (values t) in
      let idx := (lastIdx t + steps) mod slots t in
      {| stepMs := stepMs t; values := store vs idx v; lastIdx := idx; lastMs := grid |}
  else t.

Definition oldestMs (t : tier) : Z := lastMs t - (slots t - 1) * stepMs t.

Definition at_ (t : tier) (ms : Z) : F fo :=
  if (lastIdx t <? 0) || (lastMs t <? ms) then nan fo
  else
    let back := Z.quot (lastMs t - ms) (stepMs t) in
    if slots t <=? back then nan fo
    else
      let idx := lastIdx t - back in
      load (values t) (if idx <? 0 then idx + slots t else idx).

Definition maxGap (t : tier) : Z := 3 * stepMs t.

Definition alignUp (x step : Z) : Z := Z.quot (x + step - 1) step * step.

(** The grid times of [for ms := start; ms <= end; ms += step]. *)
Definition gridUp (start end_ step : Z) : list Z :=
  (fun i => start + Z.of_nat i * step) <$> seq 0 (Z.to_nat ((end_ - start) / step + 1)).

(** The state of the [rise] loop: total, ok, and the previous point. *)
Definition riseStep (t : tier) (fromMs : Z) (st : F fo * bool * Z * F fo) (ms : Z) :
    F fo * bool * Z * F fo :=
  let '(total, ok, prevMs, prevV) := st in
  let v := at_ t ms in
  if isNaN fo v then st
  else
    let '(total', ok') :=
      if negb (isNaN fo prevV) && (fromMs <? ms) && (ms - prevMs <=? maxGap t) then
        let d := fsub fo v prevV in
        (fadd fo total (if fneg fo d then v else d), true)
      else (total, ok) in
    (total', ok', ms, v).

Definition rise (t : tier) (fromMs toMs : Z) : F fo * bool :=
  if lastIdx t <? 0 then (fzero fo, false)
  else
    let start0 := alignUp (fromMs - maxGap t) (stepMs t) in
    let start := if start0 <? oldestMs t then oldestMs t else start0 in
    let end_ := if lastMs t <? toMs then lastMs t else toMs in
    let '(total, ok, _, _) :=
      fold_left (riseStep t fromMs) (gridUp start end_ (stepMs t)) (fzero fo, false, 0, nan fo) in
    (total, ok).

(** [for ms := hi; ms > fromMs && ms >= oldest; ms -= step]: at most [slots]
    rounds. *)
Fixpoint lastScan (t : tier) (fromMs ms : Z) (fuel : nat) : F fo :=
  match fuel with
  | O => nan fo
  | S f =>
      if (fromMs <? ms) && (oldestMs t <=? ms) then
        let v := at_ t ms in
        if isNaN fo v then lastScan t fromMs (ms - stepMs t) f else v
      else nan fo
  end.

Definition last_ (t : tier) (fromMs toMs : Z) : F fo :=
  if lastIdx t <? 0 then nan fo
  else
    let hi0 := if lastMs t <? toMs then lastMs t else toMs in
    let hi := Z.quot hi0 (stepMs t) * stepMs t in
    lastScan t fromMs hi (length (values t)).

(** ** Series and the ring *)

Record Series := { sName : string; sLabels : list Label; sKind : Kind; fine : tier; coarse : tier }.
Record Point := { pName : string; pLabels : list Label; pKind : Kind; pValue : F fo }.
Record Sample := { AtMs : Z; Points : list Point }.

Definition newSeries (p : Point) : Series :=
  {| sName := pName p; sLabels := pLabels p; sKind := pKind p;
     fine := newTier FineStep fineSlots; coarse := newTier CoarseStep coarseSlots |}.

Definition sput (s : Series) (atMs : Z) (v : F fo) : Series :=
  {| sName := sName s; sLabels := sLabels s; sKind := sKind s;
     fine := put (fine s) atMs v; coarse := put (coarse s) atMs v |}.

Definition sLabel (s : Series) (name : string) : string :=
  match find (fun l => lName l =s name) (sLabels s) with
  | Some l => lValue l
  | None => ""
  end.

(** [sort.Slice] by label name (names are distinct within one series). *)
Definition label_le (a b : Label) : Prop := String.le (lName a) (lName b).

#[export] Instance label_le_dec : RelDecision label_le.
Proof. intros a b. unfold label_le. apply _. Defined.

Definition seriesKey (name : string) (labels : list Label) : string :=
  match labels with
  | [] => name
  | _ => fold_left (fun b l => b +++ "|" +++ lName l +++ "=" +++ lValue l)
           (merge_sort label_le labels) name
  end.

(** The ring. [byKey] maps a key to the position of its series in
    [order]: in the code both hold the same pointer. *)
Record Ring := {
  limit : Z; byKey : gmap string nat; order : list Series; newestMs : Z; dropped : Z
}.

Definition NewRing (lim : Z) : Ring :=
  {| limit := if lim <=? 0 then DefaultSeriesLimit else lim;
     byKey := ∅; order := []; newestMs := 0; dropped := 0 |}.

(** One point of [Add]. *)
Definition addPoint (atMs : Z) (r : Ring) (p : Point) : Ring :=
  let key := seriesKey (pName p) (pLabels p) in
  match byKey r !! key with
  | Some i =>
      {| limit := limit r; byKey := byKey r;
         order := alter (fun s => sput s atMs (pValue p)) i (order r);
         newestMs := newestMs r; dropped := dropped r |}
  | None =>
      if limit r <=? Z.of_nat (length (order r)) then
        {| limit := limit r; byKey := byKey r; order := order r; newestMs := newestMs r;
           dropped := dropped r + 1 |}
      else
        {| limit := limit r; byKey := <[key := length (order r)]> (byKey r);
           order := order r ++ [sput (newSeries p) atMs (pValue p)];
           newestMs := newestMs r; dropped := dropped r |}
  end.

Definition Add (r : Ring) (s : Sample) : Ring * Z :=
  let r0 := {| limit := limit r; byKey := byKey r; order := order r; newestMs := newestMs r;
               dropped := 0 |} in
  let r1 := fold_left (addPoint (AtMs s)) (Points s) r0 in
  let r2 := {| limit := limit r1; byKey := byKey r1; order := order r1;
               newestMs := if newestMs r1 <? AtMs s then AtMs s else newestMs r1;
               dropped := dropped r1 |} in
  (r2, dropped r2).

Definition find_ (r : Ring) (name : string) : option Series :=
  match byKey r !! name with Some i => order r !! i | None => None end.

Definition matching (r : Ring) (name : string) : list Series :=
  filter (fun s => sName s = name) (order r).

End Tier.

#[global] Arguments stepMs {fo} _.
#[global] Arguments values {fo} _.
#[global] Arguments lastIdx {fo} _.
#[global] Arguments lastMs {fo} _.
#[global] Arguments slots {fo} _.
#[global] Arguments put {fo} _ _ _.
#[global] Arguments at_ {fo} _ _.
#[global] Arguments load {fo} _ _.
#[global] Arguments store {fo} _ _ _.
#[global] Arguments punch {fo} _ _ _.
#[global] Arguments oldestMs {fo} _.
#[global] Arguments maxGap {fo} _.
#[global] Arguments rise {fo} _ _ _.
#[global] Arguments last_ {fo} _ _ _.
#[global] Arguments sName {fo} _.
#[global] Arguments sLabels {fo} _.
#[global] Arguments fine {fo} _.
#[global] Arguments coarse {fo} _.
#[global] Arguments pName {fo} _.
#[global] Arguments pLabels {fo} _.
#[global] Arguments pValue {fo} _.
#[global] Arguments AtMs {fo} _.
#[global] Arguments Points {fo} _.
#[global] Arguments limit {fo} _.
#[global] Arguments byKey {fo} _.
#[global] Arguments order {fo} _.
#[global] Arguments dropped {fo} _.
#[global] Arguments newestMs {fo} _.
#[global] Arguments addPoint {fo} _ _ _.
#[global] Arguments Add {fo} _ _.
#[global] Arguments sput {fo} _ _ _.
#[global] Arguments newSeries {fo} _.
#[global] Arguments find_ {fo} _ _.

(** ** The tier refines a time-indexed history *)

Section Refine.
Context {fo : FloatOps}.

(** [hist] is what was last written at each grid time. *)
Definition represents (t : tier fo) (hist : Z -> F fo) : Prop :=
  0 <= lastIdx t < slots t /\ (stepMs t | lastMs t)
  /\ forall k, 0 <= k < slots t ->
       load (values t) ((lastIdx t - k) mod slots t) = hist (lastMs t - k * stepMs t).

Lemma store_length (vs : list (F fo)) i v : length (store vs i v) = length vs.
Proof. apply length_insert. Qed.

Lemma load_store (vs : list (F fo)) i j v :
  0 <= i < Z.of_nat (length vs) -> 0 <= j ->
  load (store vs i v) j = if decide (i = j) then v else load vs j.
Proof.
  intros Hi Hj. unfold load, store. case_decide as E.
  - subst j. by rewrite list_lookup_insert_eq by lia.
  - rewrite list_lookup_insert_ne; [done|]. lia.
Qed.

Lemma punch_length idx i (vs : list (F fo)) : length (punch idx i vs) = length vs.
Proof. induction i as [|i IH]; cbn [punch]; [done|]. by rewrite store_length. Qed.

(** After punching, slot [(idx + j) mod n] for [1 <= j <= i] is a hole and
    the others are as they were. *)
Lemma load_punch idx i (vs : list (F fo)) j :
  let n := Z.of_nat (length vs) in
  0 <= idx < n -> Z.of_nat i < n -> 0 <= j < n ->
  load (punch idx i vs) ((idx + j) mod n)
  = if decide (1 <= j <= Z.of_nat i) then nan fo else load vs ((idx + j) mod n).
Proof.
  intros n Hidx Hi Hj. induction i as [|i IH]; cbn [punch].
  - by rewrite decide_False by lia.
  - rewrite load_store; [|rewrite punch_length; apply Z.mod_pos_bound; lia|apply Z.mod_pos_bound; lia].
    fold n. destruct (decide ((idx + Z.of_nat (S i)) mod n = (idx + j) mod n)) as [E|E].
    + assert (Z.of_nat (S i) = j).
      { apply (f_equal (fun x => (x - idx) mod n)) in E.
        rewrite !Zminus_mod_idemp_l in E.
        replace (idx + Z.of_nat (S i) - idx) with (Z.of_nat (S i)) in E by lia.
        replace (idx + j - idx) with j in E by lia.
        rewrite !Z.mod_small in E by lia. done. }
      by rewrite decide_True by lia.
    + rewrite IH by lia.
      destruct (decide (1 <= j <= Z.of_nat i)); [by rewrite decide_True by lia|].
      rewrite decide_False; [done|]. intros H. apply E. f_equal. lia.
Qed.

Definition grid (step atMs : Z) : Z := Z.quot atMs step * step.

Lemma grid_divide step atMs : (step | grid step atMs).
Proof. unfold grid. apply Z.divide_factor_r. Qed.

Lemma represents_ext t (h h' : Z -> F fo) :
  (forall ms, ms <= lastMs t -> h ms = h' ms) -> 0 < stepMs t -> represents t h -> represents t h'.
Proof.
  intros He Hs (H1 & H2 & H3). split_and!; [lia|lia|done|]. intros k Hk.
  rewrite H3 by done. apply He. nia.
Qed.

(** The first write. *)
Lemma put_first step n atMs (v : F fo) : 0 < step -> (0 < n)%nat ->
  represents (put (newTier fo step n) atMs v)
    (fun ms => if decide (ms = grid step atMs) then v else nan fo)
  /\ lastMs (put (newTier fo step n) atMs v) = grid step atMs.
Proof.
  intros Hs Hn. unfold put, newTier. cbn -[store]. split; [|done].
  unfold represents, slots. cbn -[store]. rewrite store_length, length_replicate.
  split_and!; [lia|lia|apply grid_divide|]. intros k Hk.
  rewrite load_store; [|rewrite length_replicate; lia|apply Z.mod_pos_bound; lia].
  destruct (decide (k = 0)) as [->|Hk0].
  - rewrite !decide_True; [done|unfold grid; lia|]. rewrite Z.mod_small; lia.
  - rewrite decide_False, decide_False.
    + unfold load. destruct (replicate n (nan fo) !! _) as [x|] eqn:E; [|done].
      by apply lookup_replicate in E as [-> _].
    + unfold grid. nia.
    + intros H. symmetry in H. apply Z.mod_divide in H as [q Hq]; [|lia].
      assert (q < 0) by nia. assert (-1 < q) by nia. lia.
Qed.

(** Distance modulo the ring size. *)
Lemma mod_dist n a j k : 0 < n -> 0 <= j < n -> 0 <= k < n ->
  (a - j) mod n = (a - k) mod n -> j = k.
Proof.
  intros Hn Hj Hk H. apply (f_equal (fun x => (a - x) mod n)) in H.
  rewrite !Zminus_mod_idemp_r in H.
  replace (a - (a - j)) with j in H by lia. replace (a - (a - k)) with k in H by lia.
  rewrite !Z.mod_small in H by lia. done.
Qed.

Lemma load_holes n i : load (replicate n (nan fo)) i = nan fo.
Proof.
  unfold load. destruct (replicate _ _ !! _) as [x|] eqn:E; [|done].
  by apply lookup_replicate in E as [-> _].
Qed.

(** What a write at grid time [g] makes of the history. *)
Definition written (last g : Z) (v : F fo) (h : Z -> F fo) (ms : Z) : F fo :=
  if decide (ms = g) then v else if decide (last < ms) then nan fo else h ms.

(** Slot [k] back from the newest after storing the newest. *)
Lemma newest_slot idx k v (vs : list (F fo)) :
  let n := Z.of_nat (length vs) in
  0 <= idx < n -> 0 <= k < n ->
  load (store vs idx v) ((idx - k) mod n) = if decide (k = 0) then v else load vs ((idx - k) mod n).
Proof.
  intros n Hi Hk. rewrite load_store by (try apply Z.mod_pos_bound; lia).
  destruct (decide (k = 0)) as [->|Hk0].
  - rewrite Z.sub_0_r, Z.mod_small by lia. by rewrite decide_True.
  - rewrite decide_False; [done|]. intros H.
    rewrite <- (Z.mod_small idx n) in H at 1 by lia. rewrite <- (Z.sub_0_r idx) in H at 1.
    apply mod_dist in H; lia.
Qed.

Section Next.
Context (t : tier fo) (h : Z -> F fo) (v : F fo) (st : Z).
Context (Hrep : represents t h) (Hs : 0 < stepMs t).
Let g : Z := lastMs t + st * stepMs t.

Lemma represents_same : st = 0 ->
  represents {| stepMs := stepMs t; values := store (values t) (lastIdx t) v;
                lastIdx := lastIdx t; lastMs := lastMs t |} (written (lastMs t) g v h).
Proof using Hrep Hs.
  intros ->. destruct Hrep as (Hidx & Hdiv & HR). unfold represents, slots, written, g in *.
  cbn -[store]. rewrite store_length. split_and!; [lia|lia|done|]. intros k Hk.
  rewrite newest_slot by lia. destruct (decide (k = 0)) as [->|Hk0]; [by rewrite decide_True by lia|].
  rewrite (decide_False (P := _ = _)) by nia. rewrite (decide_False (P := _ < _)) by nia. by apply HR.
Qed.

Lemma represents_far : slots t <= st ->
  represents {| stepMs := stepMs t; values := store (replicate (length (values t)) (nan fo)) 0 v;
                lastIdx := 0; lastMs := g |} (written (lastMs t) g v h).
Proof using Hrep Hs.
  intros Hst. destruct Hrep as (Hidx & Hdiv & _). unfold represents, slots, written in *.
  cbn -[store Z.sub]. rewrite store_length, length_replicate.
  split_and!; [lia|lia|by apply Z.divide_add_r; [|apply Z.divide_factor_r]|]. intros k Hk.
  pose proof (newest_slot 0 k v (replicate (length (values t)) (nan fo))) as HN.
  cbv zeta in HN. rewrite length_replicate in HN. rewrite HN, load_holes by lia.
  destruct (decide (k = 0)) as [->|Hk0]; [by rewrite decide_True by lia|].
  rewrite (decide_False (P := _ = _)) by nia. rewrite (decide_True (P := _ < _)); [done|].
  unfold g. nia.
Qed.

Lemma represents_near : 0 < st < slots t ->
  represents {| stepMs := stepMs t;
    values := store (punch (lastIdx t) (Z.to_nat (st - 1)) (values t)) ((lastIdx t + st) mod slots t) v;
    lastIdx := (lastIdx t + st) mod slots t; lastMs := g |} (written (lastMs t) g v h).
Proof using Hrep Hs.
  intros Hst. destruct Hrep as (Hidx & Hdiv & HR). unfold represents, slots, written in *.
  cbn -[store punch Z.sub]. set (n := Z.of_nat (length (values t))) in *.
  set (vs := punch (lastIdx t) (Z.to_nat (st - 1)) (values t)).
  assert (Hlen : length vs = length (values t)) by apply punch_length.
  rewrite store_length, Hlen. fold n.
  split_and!; [apply Z.mod_pos_bound; lia..|by apply Z.divide_add_r; [|apply Z.divide_factor_r]|].
  intros k Hk. pose proof (newest_slot ((lastIdx t + st) mod n) k v vs) as HN. cbv zeta in HN.
  rewrite Hlen in HN. fold n in HN. rewrite HN by (try apply Z.mod_pos_bound; lia). clear HN.
  destruct (decide (k = 0)) as [->|Hk0]; [by rewrite decide_True by lia|].
  rewrite (decide_False (P := _ = _)) by nia. rewrite Zminus_mod_idemp_l.
  pose proof (fun j => load_punch (lastIdx t) (Z.to_nat (st - 1)) (values t) j) as HP.
  cbv zeta in HP. fold n vs in HP.
  destruct (Z.le_gt_cases st k) as [Hle|Hgt].
  - rewrite (decide_False (P := _ < _)) by (unfold g; nia).
    replace (g - k * stepMs t) with (lastMs t - (k - st) * stepMs t) by (unfold g; nia).
    rewrite <- HR by lia.
    replace (lastIdx t - (k - st)) with (lastIdx t + st - k) by lia.
    destruct (decide (k = st)) as [->|Hks].
    + specialize (HP 0 Hidx ltac:(lia) ltac:(lia)). rewrite decide_False in HP by lia.
      replace (lastIdx t + st - st) with (lastIdx t + 0) by lia. done.
    + specialize (HP (n - (k - st)) Hidx ltac:(lia) ltac:(lia)). rewrite decide_False in HP by lia.
      replace (lastIdx t + (n - (k - st))) with (lastIdx t + st - k + 1 * n) in HP by lia.
      by rewrite Z.mod_add in HP by lia.
  - rewrite (decide_True (P := _ < _)) by (unfold g; nia).
    specialize (HP (st - k) Hidx ltac:(lia) ltac:(lia)). rewrite decide_True in HP by lia.
    by replace (lastIdx t + (st - k)) with (lastIdx t + st - k) in HP by lia.
Qed.
End Next.

(** A write at or after the newest grid time. *)
Lemma put_next t h atMs v :
  represents t h -> 0 < stepMs t -> lastMs t <= grid (stepMs t) atMs ->
  represents (put t atMs v) (written (lastMs t) (grid (stepMs t) atMs) v h)
  /\ lastMs (put t atMs v) = grid (stepMs t) atMs.
Proof.
  intros HR Hs Hge. pose proof HR as (Hidx & [ql Hql] & _).
  unfold put. fold (grid (stepMs t) atMs).
  destruct (grid_divide (stepMs t) atMs) as [qg Hqg]. set (g := grid (stepMs t) atMs) in *.
  assert (Hg : g = lastMs t + (qg - ql) * stepMs t) by nia.
  rewrite (proj2 (Z.ltb_ge _ _)) by lia.
  destruct (Z.eqb_spec g (lastMs t)) as [Heq|Hne].
  { split; [|done]. rewrite Hg. apply represents_same; [done|done|nia]. }
  rewrite (proj2 (Z.ltb_lt _ _)) by lia.
  replace (Z.quot (g - lastMs t) (stepMs t)) with (qg - ql).
  2: { rewrite Z.quot_div_nonneg by lia. rewrite Hqg, Hql, <- Z.mul_sub_distr_r, Z.div_mul; lia. }
  destruct (Z.leb_spec (slots t) (qg - ql)); (split; [|done]); rewrite Hg.
  - by apply represents_far.
  - apply represents_near; [done|done|]. split; [nia|done].
Qed.

Lemma put_old t atMs (v : F fo) :
  0 <= lastIdx t -> grid (stepMs t) atMs < lastMs t -> put t atMs v = t.
Proof.
  intros Hi Hlt. unfold put. fold (grid (stepMs t) atMs).
  rewrite (proj2 (Z.ltb_ge _ _)) by lia. rewrite (proj2 (Z.eqb_neq _ _)) by lia.
  by rewrite (proj2 (Z.ltb_ge (lastMs t) _)) by lia.
Qed.

(** Reading a live ring on its grid. *)
Lemma at_represents t h ms :
  represents t h -> 0 < stepMs t -> (stepMs t | ms) ->
  at_ t ms = if decide (oldestMs t <= ms <= lastMs t) then h ms else nan fo.
Proof.
  intros (Hidx & [ql Hql] & HR) Hs [qm Hqm]. unfold at_, oldestMs.
  rewrite (proj2 (Z.ltb_ge (lastIdx t) 0)) by lia. cbn [orb].
  destruct (Z.ltb_spec (lastMs t) ms) as [|Hle]; [by rewrite decide_False by lia|].
  replace (Z.quot (lastMs t - ms) (stepMs t)) with (ql - qm).
  2: { rewrite Z.quot_div_nonneg by lia. rewrite Hqm, Hql, <- Z.mul_sub_distr_r, Z.div_mul; lia. }
  destruct (Z.leb_spec (slots t) (ql - qm)); [by rewrite decide_False by nia|].
  assert (0 <= ql - qm) by nia. rewrite decide_True by nia.
  replace ms with (lastMs t - (ql - qm) * stepMs t) by nia. rewrite <- HR by lia. f_equal.
  destruct (Z.ltb_spec (lastIdx t - (ql - qm)) 0).
  - replace (lastIdx t - (ql - qm)) with (lastIdx t - (ql - qm) + slots t + (-1) * slots t) at 2 by lia.
    rewrite Z.mod_add by lia. rewrite Z.mod_small; lia.
  - rewrite Z.mod_small; lia.
Qed.

(** ** Sequences of writes *)

Definition putAll (t : tier fo) (ps : list (Z * F fo)) : tier fo :=
  fold_left (fun t p => put t (fst p) (snd p)) ps t.

(** The samples a tier keeps: those whose grid time is not before that of
    the last one kept. *)
Definition acceptStep (step : Z) (A : list (Z * F fo)) (p : Z * F fo) : list (Z * F fo) :=
  match last A with
  | Some q => if decide (grid step (fst p) < grid step (fst q)) then A else A ++ [p]
  | None => [p]
  end.

Definition accepted (step : Z) (ps : list (Z * F fo)) : list (Z * F fo) :=
  fold_left (acceptStep step) ps [].

(** The last value written to the bucket of grid time [ms]. *)
Definition lastWritten (step : Z) (A : list (Z * F fo)) (ms : Z) : F fo :=
  match last (filter (fun p => grid step (fst p) = ms) A) with
  | Some p => snd p
  | None => nan fo
  end.

Lemma lastWritten_snoc step A p ms :
  lastWritten step (A ++ [p]) ms
  = if decide (ms = grid step (fst p)) then snd p else lastWritten step A ms.
Proof.
  unfold lastWritten. rewrite filter_app, filter_cons, filter_nil.
  destruct (decide (grid step (fst p) = ms)) as [<-|Hne].
  - by rewrite last_snoc, decide_True.
  - rewrite app_nil_r, decide_False; [done|]. by intros ->.
Qed.

Lemma lastWritten_after step A ms :
  Forall (fun p => grid step (fst p) < ms) A -> lastWritten step A ms = nan fo.
Proof.
  intros H. unfold lastWritten.
  assert (Hf : filter (fun p => grid step (fst p) = ms) A = []).
  { induction H as [|p A Hp HA IH]; [done|]. rewrite filter_cons, decide_False by lia. done. }
  by rewrite Hf.
Qed.

Definition tierInv (step : Z) (n : nat) (t : tier fo) (A : list (Z * F fo)) : Prop :=
  stepMs t = step /\ length (values t) = n
  /\ match last A with
     | None => A = [] /\ t = newTier fo step n
     | Some q => represents t (lastWritten step A) /\ lastMs t = grid step (fst q)
                 /\ Forall (fun p => grid step (fst p) <= lastMs t) A
     end.

Lemma put_shape t atMs (v : F fo) :
  stepMs (put t atMs v) = stepMs t /\ length (values (put t atMs v)) = length (values t).
Proof.
  unfold put. repeat case_match; cbn -[store punch];
    rewrite ?store_length, ?punch_length, ?length_replicate; done.
Qed.

Lemma tierInv_put step n t A p :
  0 < step -> (0 < n)%nat -> tierInv step n t A ->
  tierInv step n (put t (fst p) (snd p)) (acceptStep step A p).
Proof.
  intros Hs Hn (Hstep & Hlen & Hinv). destruct (put_shape t (fst p) (snd p)) as [H1 H2].
  unfold tierInv, acceptStep. rewrite H1, H2. split; [done|]. split; [done|].
  destruct (last A) as [q|] eqn:HA.
  - destruct Hinv as (HR & Hlast & Hall). subst step.
    case_decide as Hold.
    + rewrite put_old by (try lia; by destruct HR as [? _]; lia). by rewrite HA.
    + rewrite last_snoc. destruct (put_next t _ (fst p) (snd p) HR Hs ltac:(lia)) as [HR' Hl'].
      rewrite Hl'. split_and!; [|done|].
      * eapply represents_ext; [|by rewrite H1|exact HR']. intros ms _.
        rewrite lastWritten_snoc. unfold written. case_decide as Hms; [done|].
        case_decide as Hlt; [|done]. symmetry. apply lastWritten_after.
        eapply Forall_impl; [exact Hall|]. cbn. lia.
      * apply Forall_app. split; [|by constructor]. eapply Forall_impl; [exact Hall|]. cbn. lia.
  - destruct Hinv as [-> ->]. cbn [last]. destruct (put_first step n (fst p) (snd p) Hs Hn) as [HR Hl].
    rewrite Hl. split_and!; [|done|by repeat constructor].
    eapply represents_ext; [|by rewrite H1|exact HR]. intros ms _.
    change [p] with ([] ++ [p]). by rewrite lastWritten_snoc.
Qed.

Lemma tierInv_putAll step n ps : 0 < step -> (0 < n)%nat ->
  tierInv step n (putAll (newTier fo step n) ps) (accepted step ps).
Proof.
  intros Hs Hn. unfold putAll, accepted.
  assert (H : forall ps t A, tierInv step n t A -> tierInv step n
    (fold_left (fun t p => put t (fst p) (snd p)) ps t) (fold_left (acceptStep step) ps A)).
  { clear ps. intros ps. induction ps as [|p ps IH]; intros t A HI; cbn [fold_left]; [done|].
    apply IH. by apply tierInv_put. }
  apply H. split_and!; [done|by cbn; rewrite length_replicate|]. done.
Qed.

(** In-order samples are all accepted. *)
Lemma accepted_sorted step ps : 0 < step -> Forall (fun p => 0 <= fst p) ps ->
  StronglySorted (fun p q => fst p <= fst q) ps -> accepted step ps = ps.
Proof.
  intros Hs. unfold accepted.
  assert (Hgm : forall a b, 0 <= a <= b -> grid step a <= grid step b).
  { intros a b H. unfold grid. rewrite !Z.quot_div_nonneg by lia.
    apply Z.mul_le_mono_nonneg_r; [lia|]. apply Z.div_le_mono; lia. }
  assert (H : forall ps A, Forall (fun p => 0 <= fst p) (A ++ ps) ->
    StronglySorted (fun p q => fst p <= fst q) (A ++ ps) ->
    fold_left (acceptStep step) ps A = A ++ ps).
  { clear ps. intros ps. induction ps as [|p ps IH]; intros A H0 HS; cbn [fold_left];
      [by rewrite app_nil_r|].
    assert (HA : acceptStep step A p = A ++ [p]).
    { unfold acceptStep. destruct (last A) as [q|] eqn:HL; [|by apply last_None in HL as ->].
      rewrite decide_False; [done|]. apply last_Some in HL as [l ->].
      rewrite <- app_assoc in HS, H0. apply Forall_app in H0 as [_ H0].
      apply Forall_cons in H0 as [Hq _].
      apply StronglySorted_app_1_r in HS. apply StronglySorted_inv in HS as [_ HS].
      apply Forall_cons in HS as [HS _]. specialize (Hgm (fst q) (fst p) ltac:(lia)). lia. }
    rewrite HA, IH; by rewrite <- app_assoc. }
  intros H0 HS. by rewrite H.
Qed.

End Refine.


(** ** Counter readings

    With exact arithmetic (integers, [None] for NaN), [rise] is a sum of
    per-point increments that do not depend on the window. *)

Definition intOps : FloatOps := {|
  F := option Z; nan := None;
  isNaN := fun x => match x with None => true | Some _ => false end;
  fzero := Some 0;
  fsub := fun x y => match x, y with Some a, Some b => Some (a - b) | _, _ => None end;
  fadd := fun x y => match x, y with Some a, Some b => Some (a + b) | _, _ => None end;
  fneg := fun x => match x with Some a => a <? 0 | None => false end |}.

Section Rise.
Context (t : tier intOps) (h : Z -> option Z).
Context (Hrep : represents (fo := intOps) t h) (Hs : 0 < stepMs t).

Notation rd ms := (at_ t ms : option Z).

(** The nearest stored point at most three steps back. *)
Definition prior (ms : Z) : option Z :=
  match rd (ms - stepMs t) with
  | Some x => Some x
  | None =>
      match rd (ms - 2 * stepMs t) with
      | Some x => Some x
      | None => rd (ms - 3 * stepMs t)
      end
  end.

(** The increase attributed to the point at [ms], PromQL style. *)
Definition inc (ms : Z) : Z :=
  match rd ms, prior ms with
  | Some v, Some p => if v - p <? 0 then v else v - p
  | _, _ => 0
  end.

Definition sumInc (fromMs : Z) (l : list Z) : Z :=
  fold_right (fun ms acc => (if decide (fromMs < ms) then inc ms else 0) + acc) 0 l.

Lemma sumInc_cons fromMs ms l :
  sumInc fromMs (ms :: l) = (if decide (fromMs < ms) then inc ms else 0) + sumInc fromMs l.
Proof using Type. done. Qed.

(** The loop's memory before reading [ms], for a loop that began at [start]. *)
Definition prevOk (start ms prevMs : Z) (prevV : option Z) : Prop :=
  match prevV with
  | None => forall i, 0 < i -> start <= ms - i * stepMs t -> rd (ms - i * stepMs t) = None
  | Some v => exists i, 0 < i /\ prevMs = ms - i * stepMs t /\ start <= prevMs /\ rd prevMs = Some v
      /\ forall j, 0 < j < i -> rd (ms - j * stepMs t) = None
  end.

Lemma prevOk_next start ms prevMs prevV :
  prevOk start ms prevMs prevV -> start <= ms ->
  prevOk start (ms + stepMs t) (match rd ms with Some _ => ms | None => prevMs end)
    (match rd ms with Some v => Some v | None => prevV end).
Proof using Hs.
  intros HP Hms. destruct (rd ms) as [v|] eqn:E.
  - exists 1. split_and!; [lia|lia|lia|exact E|lia].
  - destruct prevV as [p|].
    + destruct HP as (i & Hi & -> & Hst & Hv & Hj). exists (i + 1).
      split_and!; [lia|lia|lia|done|]. intros j Hj'. destruct (decide (j = 1)) as [->|].
      * replace (ms + stepMs t - 1 * stepMs t) with ms by lia. exact E.
      * replace (ms + stepMs t - j * stepMs t) with (ms - (j - 1) * stepMs t) by lia. apply Hj. lia.
    + intros i Hi Hst. destruct (decide (i = 1)) as [->|].
      * replace (ms + stepMs t - 1 * stepMs t) with ms by lia. exact E.
      * replace (ms + stepMs t - i * stepMs t) with (ms - (i - 1) * stepMs t) in * by lia.
        apply HP; lia.
Qed.

(** The loop memory and [prior] agree on points within the gap. *)
Lemma prior_prev start ms prevMs prevV :
  prevOk start ms prevMs prevV ->
  (forall i, 1 <= i <= 3 -> rd (ms - i * stepMs t) <> None -> start <= ms - i * stepMs t) ->
  prior ms = match prevV with
             | Some v => if ms - prevMs <=? maxGap t then Some v else None
             | None => None
             end.
Proof using Hs.
  intros HP Hst. unfold prior, maxGap.
  pose proof (Hst 1 ltac:(lia)) as S1. pose proof (Hst 2 ltac:(lia)) as S2.
  pose proof (Hst 3 ltac:(lia)) as S3. rewrite Z.mul_1_l in S1.
  destruct prevV as [v|].
  - destruct HP as (i & Hi & -> & _ & Hv & Hj).
    replace (ms - (ms - i * stepMs t)) with (i * stepMs t) by lia.
    assert (Hn : forall j, 0 < j < i -> rd (ms - j * stepMs t) = None) by done.
    destruct (Z.leb_spec (i * stepMs t) (3 * stepMs t)) as [Hle|Hgt].
    + assert (i <= 3) by nia. destruct (decide (i = 1)) as [->|]; [by rewrite Z.mul_1_l in Hv; rewrite Hv|].
      pose proof (Hn 1 ltac:(lia)) as N1. rewrite Z.mul_1_l in N1. rewrite N1.
      destruct (decide (i = 2)) as [->|]; [by rewrite Hv|].
      rewrite (Hn 2) by lia. assert (i = 3) as -> by lia. exact Hv.
    + assert (3 < i) by nia. pose proof (Hn 1 ltac:(lia)) as N1. rewrite Z.mul_1_l in N1.
      by rewrite N1, (Hn 2), (Hn 3) by lia.
  - assert (H1 : rd (ms - stepMs t) = None).
    { destruct (rd (ms - stepMs t)) eqn:E; [|done]. rewrite <- E, <- (Z.mul_1_l (stepMs t)).
      apply HP; [lia|]. rewrite Z.mul_1_l. by apply S1; rewrite ?E. }
    assert (H2 : rd (ms - 2 * stepMs t) = None).
    { destruct (rd (ms - 2 * stepMs t)) eqn:E; [|done]. rewrite <- E. apply HP; [lia|].
      by apply S2; rewrite ?E. }
    rewrite H1, H2. destruct (rd (ms - 3 * stepMs t)) eqn:E; [|done]. rewrite <- E.
    apply HP; [lia|]. by apply S3; rewrite ?E.
Qed.

Definition total (st : option Z * bool * Z * option Z) : option Z := fst (fst (fst st)).

Lemma riseFold start fromMs n ms tot ok prevMs prevV :
  start <= ms ->
  (forall x i, fromMs < x -> ms <= x -> (stepMs t | x - ms) -> 1 <= i <= 3 ->
     rd (x - i * stepMs t) <> None -> start <= x - i * stepMs t) ->
  prevOk start ms prevMs prevV ->
  total (fold_left (riseStep intOps t fromMs)
    ((fun i => ms + Z.of_nat i * stepMs t) <$> seq 0 n) (Some tot, ok, prevMs, prevV))
  = Some (tot + sumInc fromMs ((fun i => ms + Z.of_nat i * stepMs t) <$> seq 0 n)).
Proof using Hs.
  revert ms tot ok prevMs prevV. induction n as [|n IH]; intros ms tot ok prevMs prevV Hst Hlook HP.
  { cbn. by rewrite Z.add_0_r. }
  assert (Hshift : (fun i => ms + Z.of_nat i * stepMs t) <$> seq 0 (S n)
    = ms :: ((fun i => ms + stepMs t + Z.of_nat i * stepMs t) <$> seq 0 n)).
  { cbn [seq fmap list_fmap]. f_equal; [lia|]. rewrite <- seq_shift, <- list_fmap_compose.
    apply list_fmap_ext. intros i x _. cbn. lia. }
  rewrite Hshift, sumInc_cons. cbn [fold_left].
  pose proof (prevOk_next start ms prevMs prevV HP Hst) as HP'.
  assert (Hlook' : forall x i, fromMs < x -> ms + stepMs t <= x -> (stepMs t | x - (ms + stepMs t)) ->
    1 <= i <= 3 -> rd (x - i * stepMs t) <> None -> start <= x - i * stepMs t).
  { intros x i Hx Hle [q Hq]. apply Hlook; [done|lia|]. exists (q + 1). lia. }
  unfold riseStep at 2. unfold inc. destruct (rd ms) as [v|] eqn:E; cbn [isNaN intOps].
  2: { rewrite IH by (done || lia). f_equal. case_decide; lia. }
  destruct (decide (fromMs < ms)) as [Hf|Hf].
  2: { rewrite (proj2 (Z.ltb_ge fromMs ms)) by lia. rewrite andb_false_r. cbn [andb].
       rewrite IH by (done || lia). f_equal; lia. }
  rewrite (proj2 (Z.ltb_lt fromMs ms)), andb_true_r by lia.
  rewrite (prior_prev start ms prevMs prevV HP) by
    (intros i Hi; apply Hlook; [done|lia|exists 0; lia|done]).
  destruct prevV as [pv|]; cbn [negb andb]; [|rewrite IH by (done || lia); f_equal; lia].
  destruct (ms - prevMs <=? maxGap t); [|rewrite IH by (done || lia); f_equal; lia].
  cbn [fsub fneg intOps]. destruct (v - pv <? 0); cbn [fadd intOps]; rewrite IH by (done || lia); f_equal; lia.
Qed.

(** *** From loop windows to ring positions *)

Fixpoint fsum (f : nat -> Z) (n : nat) : Z :=
  match n with O => 0 | S k => fsum f k + f k end.

Lemma fsum_ext f g n : (forall i, (i < n)%nat -> f i = g i) -> fsum f n = fsum g n.
Proof using Type.
  intros H. induction n as [|n IH]; [done|]. cbn. rewrite IH by (intros; apply H; lia).
  by rewrite H by lia.
Qed.

Lemma fsum_app f k n : fsum f (k + n) = fsum f k + fsum (fun i => f (k + i)%nat) n.
Proof using Type.
  induction n as [|n IH]; [rewrite Nat.add_0_r; cbn; lia|].
  rewrite Nat.add_succ_r. cbn. rewrite IH. lia.
Qed.

Lemma fsum_zero f n : (forall i, (i < n)%nat -> f i = 0) -> fsum f n = 0.
Proof using Type.
  intros H. induction n as [|n IH]; [done|]. cbn. rewrite IH by (intros; apply H; lia).
  by rewrite H by lia.
Qed.

Lemma fsum_add f g n : fsum (fun i => f i + g i) n = fsum f n + fsum g n.
Proof using Type. induction n as [|n IH]; [done|]. cbn. lia. Qed.

Lemma sumInc_fsum fromMs g m :
  sumInc fromMs (g <$> seq 0 m) = fsum (fun i => if decide (fromMs < g i) then inc (g i) else 0) m.
Proof using Type.
  assert (Hsnoc : forall l x, sumInc fromMs (l ++ [x])
    = sumInc fromMs l + (if decide (fromMs < x) then inc x else 0)).
  { intros l x. induction l as [|y l IH]; [cbn; lia|]. cbn [app]. rewrite !sumInc_cons, IH. lia. }
  induction m as [|m IH]; [done|]. rewrite seq_S, fmap_app. cbn [fmap list_fmap].
  rewrite Hsnoc, IH. done.
Qed.

(** The increments of the ring's points in [(a, b]]. *)
Definition ringPoint (i : nat) : Z := oldestMs t + Z.of_nat i * stepMs t.
Definition within (a b ms : Z) : Z := if decide (a < ms <= b) then inc ms else 0.
Definition ringSum (a b : Z) : Z := fsum (fun i => within a b (ringPoint i)) (length (values t)).

Lemma alignUp_spec x : 0 <= x ->
  (stepMs t | alignUp x (stepMs t)) /\ x <= alignUp x (stepMs t) < x + stepMs t.
Proof using Hs.
  intros Hx. unfold alignUp. rewrite Z.quot_div_nonneg by lia. split; [apply Z.divide_factor_r|].
  pose proof (Z.div_mod (x + stepMs t - 1) (stepMs t) ltac:(lia)).
  pose proof (Z.mod_pos_bound (x + stepMs t - 1) (stepMs t) ltac:(lia)). lia.
Qed.

Lemma ring_window a start end_ b :
  (exists k, start = oldestMs t + k * stepMs t /\ 0 <= k) ->
  (start = oldestMs t \/ start <= a + stepMs t) ->
  end_ = Z.min (lastMs t) b ->
  sumInc a (gridUp start end_ (stepMs t)) = ringSum a b.
Proof using Hrep Hs.
  intros (k & -> & Hk) Hsa ->. unfold gridUp. rewrite sumInc_fsum. unfold ringSum.
  assert (Hlast : lastMs t = oldestMs t + (slots t - 1) * stepMs t) by (unfold oldestMs; lia).
  set (start := oldestMs t + k * stepMs t) in *.
  set (q := (Z.min (lastMs t) b - start) / stepMs t).
  assert (Hq : q * stepMs t <= Z.min (lastMs t) b - start < q * stepMs t + stepMs t).
  { unfold q. pose proof (Z.div_mod (Z.min (lastMs t) b - start) (stepMs t) ltac:(lia)).
    pose proof (Z.mod_pos_bound (Z.min (lastMs t) b - start) (stepMs t) ltac:(lia)). lia. }
  assert (Hbelow : forall i, (i < Z.to_nat k)%nat -> within a b (ringPoint i) = 0).
  { intros i Hi. unfold within, ringPoint. rewrite decide_False; [done|].
    destruct Hsa as [Heq|Hle]; [assert (k = 0) by nia; lia|].
    assert (Z.of_nat i + 1 <= k) by lia. unfold start in Hle. nia. }
  unfold slots in Hlast. set (n := length (values t)) in *.
  destruct (Z.le_gt_cases (Z.of_nat n) k) as [Hout|Hin].
  - rewrite (fsum_zero _ n) by (intros i Hi; apply Hbelow; lia).
    replace (Z.to_nat (q + 1)) with 0%nat; [done|].
    assert (q * stepMs t < 0) by (unfold start in Hq; nia). assert (q < 0) by nia. lia.
  - replace n with (Z.to_nat k + (n - Z.to_nat k))%nat by lia. rewrite fsum_app.
    rewrite (fsum_zero _ (Z.to_nat k)) by done. rewrite Z.add_0_l.
    assert (Hm : q + 1 <= Z.of_nat n - k) by (unfold start in Hq; nia).
    replace (n - Z.to_nat k)%nat with (Z.to_nat (q + 1) + (n - Z.to_nat k - Z.to_nat (q + 1)))%nat by lia.
    rewrite fsum_app, (fsum_zero (fun i => within a b (ringPoint (Z.to_nat k + (Z.to_nat (q + 1) + i))))).
    + rewrite Z.add_0_r. apply fsum_ext. intros i Hi. unfold within, ringPoint.
      replace (oldestMs t + Z.of_nat (Z.to_nat k + i) * stepMs t) with (start + Z.of_nat i * stepMs t)
        by (unfold start; nia).
      assert (Z.of_nat i <= q) by lia. assert (start + Z.of_nat i * stepMs t <= b) by nia.
      repeat case_decide; lia.
    + intros i Hi. unfold within, ringPoint. rewrite decide_False; [done|].
      assert (q < 0 \/ 0 <= q) as [Hneg|Hpos] by lia.
      * assert (b < start \/ lastMs t < start) by nia. unfold start in *. nia.
      * unfold start in *. nia.
Qed.

Lemma rise_ringSum a b : maxGap t <= a -> fst (rise t a b) = Some (ringSum a b).
Proof using Hrep Hs.
  intros Ha. pose proof Hrep as (Hidx & Hdiv & _). unfold rise.
  rewrite (proj2 (Z.ltb_ge (lastIdx t) 0)) by lia.
  destruct (alignUp_spec (a - maxGap t) ltac:(lia)) as [Hal Hrange].
  assert (Hod : (stepMs t | oldestMs t)).
  { unfold oldestMs. apply Z.divide_sub_r; [done|apply Z.divide_factor_r]. }
  set (start0 := alignUp (a - maxGap t) (stepMs t)) in *.
  set (start := if start0 <? oldestMs t then oldestMs t else start0).
  assert (Hst : oldestMs t <= start /\ (start = oldestMs t \/ start = start0) /\ (stepMs t | start)).
  { unfold start. destruct (Z.ltb_spec start0 (oldestMs t)); split_and!; auto; lia. }
  destruct Hst as (Hge & Hcase & Hsd).
  set (end_ := if lastMs t <? b then lastMs t else b).
  pose proof (riseFold start a (Z.to_nat ((end_ - start) / stepMs t + 1)) start 0 false 0 None) as HF.
  fold (gridUp start end_ (stepMs t)) in HF.
  destruct (fold_left _ (gridUp start end_ (stepMs t)) _) as [[[tot ok] pm] pv].
  cbn [total fst] in HF |- *. rewrite HF; [|lia| |].
  - rewrite Z.add_0_l. f_equal. apply ring_window.
    + destruct Hod as [qo Hqo], Hsd as [qs Hqs]. exists (qs - qo). split; [lia|nia].
    + destruct Hcase as [?| ->]; [by left|right]. unfold maxGap in *. lia.
    + unfold end_. destruct (Z.ltb_spec (lastMs t) b); lia.
  - intros x i Hx Hxs Hxd Hi Hnn. destruct Hcase as [Hc|Hc].
    + rewrite Hc. destruct (Z.le_gt_cases (oldestMs t) (x - i * stepMs t)); [done|]. exfalso.
      apply Hnn. rewrite (at_represents (fo := intOps) t h); [|done|done|].
      * by rewrite decide_False by lia.
      * apply Z.divide_sub_r; [|apply Z.divide_factor_r].
        replace x with (start + (x - start)) by lia. by apply Z.divide_add_r.
    + destruct Hxd as [qx Hqx]. unfold maxGap in Hrange.
      assert (start < a - 3 * stepMs t + stepMs t) by (rewrite Hc; lia).
      assert (2 < qx) by nia. nia.
  - intros i Hi Hle. nia.
Qed.

End Rise.

(** ** Claims *)

(** The ring reads back what was written: after any sequence of samples
    (any values, any timestamps, gaps and clock steps included), reading a
    tier at a grid time gives the last value written to that bucket by an
    accepted sample when the time is within the tier's depth of the newest
    bucket, and a hole otherwise; samples older than the newest bucket are
    the only ones not accepted. *)
Lemma tier_reads_back fo step n ps q ms :
  0 < step -> (0 < n)%nat -> last (accepted (fo := fo) step ps) = Some q -> (step | ms) ->
  at_ (putAll (newTier fo step n) ps) ms
  = let newest := grid step (fst q) in
    if decide (newest - (Z.of_nat n - 1) * step <= ms <= newest)
    then lastWritten step (accepted step ps) ms else nan fo.
Proof.
  intros Hs Hn Hq Hd. pose proof (tierInv_putAll step n ps Hs Hn) as (H1 & H2 & H3).
  rewrite Hq in H3. destruct H3 as (HR & Hl & _).
  rewrite (at_represents _ _ ms HR) by (by rewrite ?H1).
  unfold oldestMs, slots. by rewrite Hl, H1, H2.
Qed.

(** Counter increases are never lost and never counted twice: with exact
    arithmetic, the rise over [(a, c]] is the sum of the rises over
    [(a, b]] and [(b, c]], for every ring contents -- holes, resets and
    gaps included -- because each point's increase is measured against the
    nearest point at most three steps before it, wherever the window
    starts. *)
Lemma rise_additive (t : tier intOps) h a b c :
  represents (fo := intOps) t h -> 0 < stepMs t -> maxGap t <= a -> a <= b -> b <= c ->
  exists x y, fst (rise t a b) = Some x /\ fst (rise t b c) = Some y
    /\ fst (rise t a c) = Some (x + y).
Proof.
  intros HR Hs Ha Hab Hbc. exists (ringSum t a b), (ringSum t b c).
  rewrite !(rise_ringSum t h HR Hs) by lia. split_and!; [done..|]. f_equal.
  unfold ringSum. rewrite <- fsum_add. apply fsum_ext. intros i _. unfold within.
  repeat case_decide; lia.
Qed.

(** ** Series admission *)

Section Admission.
Context {fo : FloatOps}.

Definition keyOf (p : Point fo) : string := seriesKey (pName p) (pLabels p).
Definition skey (s : Series fo) : string := seriesKey (sName s) (sLabels s).

(** [byKey] and [order] describe the same set of series. *)
Definition ringOk (r : Ring fo) : Prop :=
  0 < limit r /\ Z.of_nat (length (order r)) <= limit r
  /\ forall k i, byKey r !! k = Some i <-> exists s, order r !! i = Some s /\ skey s = k.

(** Points of a round that have no series. *)
Definition refused (r : Ring fo) (ps : list (Point fo)) : Z :=
  Z.of_nat (length (filter (fun p => byKey r !! keyOf p = None) ps)).

Lemma ringOk_NewRing lim : ringOk (NewRing fo lim).
Proof.
  split; [|split]; cbn.
  - destruct (Z.leb_spec lim 0); [done|lia].
  - destruct (Z.leb_spec lim 0); [done|lia].
  - intros k i. rewrite lookup_empty. split; [done|]. by intros (s & ? & _).
Qed.

(** The state of a round after the points [done_]. *)
Definition roundOk (r0 : Ring fo) (done_ : list (Point fo)) (r : Ring fo) : Prop :=
  ringOk r /\ limit r = limit r0 /\ byKey r0 ⊆ byKey r
  /\ dropped r = refused r done_ /\ (0 < dropped r -> Z.of_nat (length (order r)) = limit r).

Lemma refused_snoc (r : Ring fo) ps p :
  refused r (ps ++ [p]) = refused r ps + (if decide (byKey r !! keyOf p = None) then 1 else 0).
Proof.
  unfold refused. rewrite filter_app, length_app, filter_cons, filter_nil.
  case_decide; cbn; lia.
Qed.

Lemma addPoint_old at_ r (p : Point fo) i ps r0 :
  roundOk r0 ps r -> byKey r !! keyOf p = Some i -> roundOk r0 (ps ++ [p]) (addPoint at_ r p).
Proof.
  intros (Hok & Hl & Hsub & Hd & Hf) Hi. unfold addPoint. fold (keyOf p). rewrite Hi.
  destruct Hok as (H0 & Hlen & Hkeys). split_and!; cbn; try done.
  - split_and!; cbn; [done|by rewrite length_alter|]. intros k j. rewrite Hkeys.
    destruct (decide (j = i)) as [->|Hne].
    + rewrite list_lookup_alter_eq. destruct (order r !! i) as [s|] eqn:E.
      * cbn. split; intros (x & [= <-] & <-); eauto.
      * split; intros (x & [=] & _).
    + by rewrite list_lookup_alter_ne by done.
  - unfold refused in *. cbn. rewrite filter_app, length_app, filter_cons, filter_nil.
    rewrite decide_False by congruence. cbn. lia.
  - intros H. rewrite length_alter. by apply Hf.
Qed.

Lemma addPoint_new at_ r (p : Point fo) ps r0 :
  roundOk r0 ps r -> byKey r !! keyOf p = None -> roundOk r0 (ps ++ [p]) (addPoint at_ r p).
Proof.
  intros (Hok & Hl & Hsub & Hd & Hf) Hi. unfold addPoint. fold (keyOf p). rewrite Hi.
  destruct Hok as (H0 & Hlen & Hkeys).
  destruct (Z.leb_spec (limit r) (Z.of_nat (length (order r)))) as [Hfull|Hroom].
  { split_and!; cbn; try done; [|lia]. unfold refused in *. cbn.
    rewrite filter_app, length_app, filter_cons, filter_nil, decide_True by done. cbn. lia. }
  assert (Hd0 : dropped r = 0).
  { destruct (decide (0 < dropped r)) as [H|H]; [specialize (Hf H); lia|].
    unfold refused in Hd. lia. }
  split_and!; cbn; [|done| | |lia].
  - split_and!; cbn; [done|rewrite length_app; cbn; lia|]. intros k j. rewrite lookup_insert.
    case_decide as Hk.
    + split.
      * intros [= <-]. exists (sput (newSeries p) at_ (pValue p)).
        rewrite lookup_app_r by lia. by rewrite Nat.sub_diag.
      * intros (s & Hs & Hsk). f_equal. apply lookup_app_Some in Hs as [Hs|[Hge Hs]].
        -- exfalso. assert (Hc : byKey r !! keyOf p = Some j) by (apply Hkeys; exists s; by rewrite Hk).
           congruence.
        -- apply list_lookup_singleton_Some in Hs as [Hs _]. lia.
    + rewrite Hkeys. split; intros (s & Hs & Hsk); exists s; (split; [|done]).
      * by apply lookup_app_l_Some.
      * apply lookup_app_Some in Hs as [Hs|[Hge Hs]]; [done|].
        apply list_lookup_singleton_Some in Hs as [_ <-]. done.
  - etrans; [exact Hsub|]. by apply insert_subseteq.
  - rewrite Hd0 in *. unfold refused in *. cbn.
    assert (Hz : forall q, q ∈ ps ++ [p] -> <[keyOf p := length (order r)]> (byKey r) !! keyOf q <> None).
    { intros q Hq. rewrite lookup_insert. case_decide as Hk; [done|].
      apply elem_of_app in Hq as [Hq|Hq]; [|by apply list_elem_of_singleton in Hq as ->].
      intros Hn. assert (q ∈ filter (fun p => byKey r !! keyOf p = None) ps)
        by (by apply list_elem_of_filter).
      destruct (filter (fun p => byKey r !! keyOf p = None) ps); [set_solver|cbn in Hd; lia]. }
    assert (Hnil : filter (fun q => <[keyOf p := length (order r)]> (byKey r) !! keyOf q = None)
      (ps ++ [p]) = []).
    { apply elem_of_nil_inv. intros q Hq. apply list_elem_of_filter in Hq as [Hq Hin].
      by destruct (Hz q Hin). }
    unfold keyOf in Hnil |- *. rewrite Hnil. done.
Qed.

Lemma roundOk_fold at_ r0 todo r ps :
  roundOk r0 ps r -> roundOk r0 (ps ++ todo) (fold_left (addPoint at_) todo r).
Proof.
  revert r ps. induction todo as [|p todo IH]; intros r ps H; cbn [fold_left];
    [by rewrite app_nil_r|].
  replace (ps ++ p :: todo) with ((ps ++ [p]) ++ todo) by (by rewrite <- app_assoc).
  apply IH. destruct (byKey r !! keyOf p) as [i|] eqn:E;
    [by eapply addPoint_old | by apply addPoint_new].
Qed.

End Admission.

(** Series admission is bounded and exact: a round never pushes the ring
    past its limit, never forgets or moves a series it already holds, and
    keeps the key index and the series list in one-to-one agreement; the
    count it returns is exactly the number of points left without a series,
    and it is positive only when the ring is full. *)
Lemma Add_admission fo (r : Ring fo) s r' d :
  ringOk r -> Add r s = (r', d) ->
  ringOk r' /\ byKey r ⊆ byKey r' /\ Z.of_nat (length (order r')) <= limit r
  /\ d = refused r' (Points s) /\ (0 < d -> Z.of_nat (length (order r')) = limit r).
Proof.
  intros Hok. unfold Add. intros [= <- <-].
  destruct (roundOk_fold (AtMs s) r (Points s)
    {| limit := limit r; byKey := byKey r; order := order r; newestMs := newestMs r; dropped := 0 |} [])
    as (H1 & H2 & H3 & H4 & H5); [by split_and!|].
  destruct H1 as (Ha & Hb & Hc). cbn [limit] in H2.
  split; [exact (conj Ha (conj Hb Hc))|]. split; [exact H3|].
  split; [exact (Z.le_trans _ _ _ Hb (Z.eq_le_incl _ _ H2))|]. split; [exact H4|].
  intros H. exact (eq_trans (H5 H) H2).
Qed.

Definition demoPoint (n : string) (v : Z) : Point intOps :=
  {| pName := n; pLabels := []; pKind := Gauge; pValue := (Some v : F intOps) |}.
Definition demoSample : Sample intOps :=
  {| AtMs := 30000; Points := [demoPoint "a" 1; demoPoint "b" 2; demoPoint "a" 3] |}.

(** Labels are joined without escaping, so two different label sets can
    share one key. *)
Lemma seriesKey_collision :
  seriesKey "node_fs" [{| lName := "dev"; lValue := "x|mnt=/a" |}]
  = seriesKey "node_fs" [{| lName := "dev"; lValue := "x" |}; {| lName := "mnt"; lValue := "/a" |}].
Proof. vm_compute. reflexivity. Qed.

End Ring.
