(* ===== verification/AgentToken.v ===== *)
(** * Agent gateway credentials

    Models [pkg/apis/agentgw/sessiontoken.go], the agent tokens of
    [pkg/apis/agentgw/token.go], [bearerToken] (handler.go) and [authAgent]
    (channel.go): how tokens are minted, parsed and checked against
    [host_agents]. HMAC-SHA256 and the JSON codec of the claims are
    parameters; base64 is defined here and in [OidcStore]. *)

From S2P Require Import Prelude ListQuery ApiServe OidcStore.
Import OStore.

Module Tok.
Open Scope Z_scope.

(** ** [base64.RawURLEncoding.DecodeString] *)

Definition alphabet : string := "ABCDEFGHIJKLMNOPQRSTUVWXYZabcdefghijklmnopqrstuvwxyz0123456789-_".

Fixpoint charIndex (c : ascii) (s : string) (i : Z) : option Z :=
  match s with
  | EmptyString => None
  | String a s' => if Ascii.eqb a c then Some i else charIndex c s' (i + 1)
  end.

(** The decoder skips carriage returns and line feeds and refuses every
    other character outside the alphabet, padding included. *)
Fixpoint sextets (s : string) : option (list Z) :=
  match s with
  | EmptyString => Some []
  | String c s' =>
      if (Ascii.eqb c "010" || Ascii.eqb c "013")%char then sextets s'
      else v ← charIndex c alphabet 0; rest ← sextets s'; Some (v :: rest)
  end.

(** The encoding is not strict: unused trailing bits are ignored. *)
Fixpoint quanta (l : list Z) : option (list Z) :=
  match l with
  | [] => Some []
  | [_] => None
  | [a; b] => Some [a * 4 + b / 16]
  | [a; b; c] => Some [a * 4 + b / 16; b mod 16 * 16 + c / 4]
  | a :: b :: c :: d :: rest =>
      tail ← quanta rest;
      Some (a * 4 + b / 16 :: b mod 16 * 16 + c / 4 :: c mod 4 * 64 + d :: tail)
  end.

Definition base64URLDecode (s : string) : option (list Z) := l ← sextets s; quanta l.

(** [[]byte(s)]. *)
Fixpoint bytesOf (s : string) : list Z :=
  match s with
  | EmptyString => []
  | String c s' => Z.of_N (N_of_ascii c) :: bytesOf s'
  end.

(** ** Rows and claims *)

Definition agentStatusOnline : string := "online".

(** The columns of [host_agents] the gateway's session code reads and
    writes; times are Unix microseconds. *)
Record AgentRow := {
  AgentID : string;
  TokenVersion : Z;
  Version : string;
  InstanceID : string;
  Status : string;
  ConnectedAt : option Z;
  LastSeenAt : option Z;
  ClockSkewMs : Z;
  UpdatedAt : Z;
  ConflictAt : option Z;
  ForeignMachineAt : option Z;
  ForeignMachineUuid : string
}.

Record SessionClaims := { scHostID : Z; scInstance : string; scConnEpoch : Z; scExpUnix : Z }.
Record AgentClaims := { acAgentID : string; acHostID : Z; acTokenVersion : Z; acIssuedAtUnix : Z }.

Definition SessionTokenPrefix : string := "vrs1".
Definition AgentTokenPrefix : string := "vra1".
(** Seconds. *)
Definition sessionTokenTTL : Z := 3600.

(** What a store read can answer besides a row. *)
Inductive storeErr := ErrNotFound | ErrStore.

Section Signers.
(** [hmac key msg]: HMAC-SHA256. *)
Context (hmac : list Z -> list Z -> list Z).
(** [json.Marshal] / [json.Unmarshal] of the two claim types. *)
Context (marshalSession : SessionClaims -> option (list Z)) (unmarshalSession : list Z -> option SessionClaims).
Context (marshalAgent : AgentClaims -> option (list Z)) (unmarshalAgent : list Z -> option AgentClaims).

Definition NewSessionTokenSigner (masterKey : list Z) : list Z := hmac masterKey (bytesOf "agent-session-v1").
Definition NewTokenSigner (masterKey : list Z) : list Z := hmac masterKey (bytesOf "agent-token-v1").

Definition sign (key : list Z) (body : string) : list Z := hmac key (bytesOf body).

(** The claims [Issue] signs at server time [now] (Unix seconds). *)
Definition sessionClaims (now hostID : Z) (instance : string) (connEpoch : Z) : SessionClaims :=
  {| scHostID := hostID; scInstance := instance; scConnEpoch := connEpoch;
     scExpUnix := now + sessionTokenTTL |}.

Definition Issue (key : list Z) (now hostID : Z) (instance : string) (connEpoch : Z) : result string string :=
  match marshalSession (sessionClaims now hostID instance connEpoch) with
  | None => Err "marshal session claims"
  | Some payload =>
      let body := base64URLEncode payload in
      Ok (SessionTokenPrefix +++ "." +++ body +++ "." +++ base64URLEncode (sign key body))
  end.

Definition Parse (key : list Z) (now : Z) (token : string) : option SessionClaims :=
  match Split token "." with
  | [p0; p1; p2] =>
      if negb (p0 =s SessionTokenPrefix) then None
      else match base64URLDecode p2 with
      | None => None
      | Some sig =>
          if bool_decide (sig = sign key p1) then
            match base64URLDecode p1 with
            | None => None
            | Some payload =>
                match unmarshalSession payload with
                | None => None
                | Some claims =>
                    if (scHostID claims <=? 0) || (scExpUnix claims <=? now) then None
                    else Some claims
                end
            end
          else None
      end
  | _ => None
  end.

Definition agentIssue (key : list Z) (claims : AgentClaims) : result string string :=
  match marshalAgent claims with
  | None => Err "marshal agent claims"
  | Some payload =>
      let body := base64URLEncode payload in
      Ok (AgentTokenPrefix +++ "." +++ body +++ "." +++ base64URLEncode (sign key body))
  end.

Definition agentParse (key : list Z) (token : string) : option AgentClaims :=
  match Split token "." with
  | [p0; p1; p2] =>
      if negb (p0 =s AgentTokenPrefix) then None
      else match base64URLDecode p2 with
      | None => None
      | Some sig =>
          if bool_decide (sig = sign key p1) then
            match base64URLDecode p1 with
            | None => None
            | Some payload =>
                match unmarshalAgent payload with
                | None => None
                | Some claims =>
                    if (acAgentID claims =s "") || (acHostID claims <=? 0) then None else Some claims
                end
            end
          else None
      end
  | _ => None
  end.

Definition bearerToken (auth : string) : option string :=
  let prefix := "Bearer "%string in
  if (String.length auth <=? String.length prefix)%nat
     || negb (Serve.ToLower (str_take (String.length prefix) auth) =s Serve.ToLower prefix) then None
  else
    let t := ListQ.TrimSpace (str_drop (String.length prefix) auth) in
    if t =s "" then None else Some t.

Definition sessionRowValid (claims : SessionClaims) (row : AgentRow) : bool :=
  if negb (Status row =s agentStatusOnline) then false
  else match ConnectedAt row with
       | None => false
       | Some t => t =? scConnEpoch claims
       end.

(** [authSession]: the host id the request is scoped to, or the HTTP error
    written. *)
Definition authSession (key : list Z) (now : Z) (GetByHostID : Z -> result storeErr AgentRow)
    (auth : string) : result (Z * string) Z :=
  match bearerToken auth with
  | None => Err (401, "missing bearer session-token")
  | Some token =>
      match Parse key now token with
      | None => Err (401, "invalid session-token")
      | Some claims =>
          match GetByHostID (scHostID claims) with
          | Err ErrNotFound => Err (401, "unknown agent")
          | Err ErrStore => Err (503, "agent lookup failed")
          | Ok row =>
              if negb (sessionRowValid claims row) then Err (401, "session-token no longer valid")
              else Ok (scHostID claims)
          end
      end
  end.

Definition authAgent (key : list Z) (GetByAgentID : string -> result storeErr (Z * AgentRow))
    (auth : string) : result (Z * string) (AgentClaims * (Z * AgentRow)) :=
  match bearerToken auth with
  | None => Err (401, "missing bearer agent-token")
  | Some token =>
      match agentParse key token with
      | None => Err (401, "invalid agent-token")
      | Some claims =>
          match GetByAgentID (acAgentID claims) with
          | Err ErrNotFound => Err (401, "unknown agent")
          | Err ErrStore => Err (503, "agent lookup failed")
          | Ok row =>
              if negb (TokenVersion (snd row) =? acTokenVersion claims) then Err (401, "agent-token revoked")
              else Ok (claims, row)
          end
      end
  end.

End Signers.

(** ** Base64 round trip *)

Definition isByte (x : Z) : Prop := 0 <= x < 256.

(** Characters a token never needs to escape: no separator, no white space
    (hence no line break). *)
Definition plain (c : ascii) : bool := negb (Ascii.eqb c ".") && negb (ListQ.is_space c).

Fixpoint plainStr (s : string) : bool :=
  match s with EmptyString => true | String c s' => plain c && plainStr s' end.

Definition goodChar (v : Z) : bool :=
  match b64Char v with
  | String c EmptyString => plain c && bool_decide (charIndex c alphabet 0 = Some v)
  | _ => false
  end.

Lemma goodChar_all v : 0 <= v < 64 -> goodChar v = true.
Proof.
  intros Hv.
  assert (H : forallb goodChar (seqZ 0 64) = true) by (vm_compute; reflexivity).
  rewrite forallb_forall in H. apply H. apply list_elem_of_In. apply elem_of_seqZ. lia.
Qed.

Lemma plain_not_newline c : plain c = true -> (Ascii.eqb c "010" || Ascii.eqb c "013")%char = false.
Proof. destruct c as [[] [] [] [] [] [] [] []]; vm_compute; congruence. Qed.

Lemma sextets_char v s : 0 <= v < 64 -> sextets (b64Char v +++ s) = (fun l => v :: l) <$> sextets s.
Proof.
  intros Hv. pose proof (goodChar_all v Hv) as H. unfold goodChar in H.
  destruct (b64Char v) as [|c [|]]; try done.
  apply andb_true_iff in H as [Hp Hi]. apply bool_decide_eq_true in Hi.
  cbn [String.append sextets].
  rewrite (plain_not_newline c Hp), Hi. cbn. by destruct (sextets s).
Qed.

Lemma plain_char v s : 0 <= v < 64 -> plainStr (b64Char v +++ s) = plainStr s.
Proof.
  intros Hv. pose proof (goodChar_all v Hv) as H. unfold goodChar in H.
  destruct (b64Char v) as [|c [|]]; try done.
  apply andb_true_iff in H as [Hp _]. cbn. by rewrite Hp.
Qed.

(** Induction three bytes at a time. *)
Lemma bytes3_ind (P : list Z -> Prop) :
  P [] -> (forall x, P [x]) -> (forall x y, P [x; y]) ->
  (forall x y z l, P l -> P (x :: y :: z :: l)) -> forall l, P l.
Proof.
  intros H0 H1 H2 H3. fix IH 1.
  intros [|x [|y [|z l]]]; [exact H0 | apply H1 | apply H2 | apply H3, IH].
Qed.

Ltac sextet := match goal with
  | |- 0 <= _ < 64 => unfold isByte in *; Z.to_euclidean_division_equations; lia
  end.

(** The 6-bit values of a byte string. *)
Fixpoint sixBits (l : list Z) : list Z :=
  match l with
  | [] => []
  | [x] => [x / 4; x mod 4 * 16]
  | [x; y] => [x / 4; x mod 4 * 16 + y / 16; y mod 16 * 4]
  | x :: y :: z :: rest => x / 4 :: x mod 4 * 16 + y / 16 :: y mod 16 * 4 + z / 64 :: z mod 64 :: sixBits rest
  end.

Lemma base64_sextets l : Forall isByte l -> sextets (base64URLEncode l) = Some (sixBits l).
Proof.
  induction l as [|x|x y|x y z l IH] using bytes3_ind; intros Hl.
  - done.
  - apply Forall_cons in Hl as [Hx _]. unfold base64URLEncode.
    rewrite <- (app_nil_r_s (b64Char (x mod 4 * 16))).
    rewrite !sextets_char by sextet. done.
  - apply Forall_cons in Hl as [Hx [Hy _]%Forall_cons]. unfold base64URLEncode.
    rewrite <- (app_nil_r_s (b64Char (y mod 16 * 4))).
    rewrite !sextets_char by sextet. done.
  - apply Forall_cons in Hl as [Hx [Hy [Hz Hl]%Forall_cons]%Forall_cons].
    cbn [base64URLEncode]. rewrite !sextets_char by sextet. rewrite (IH Hl). done.
Qed.

Lemma base64_roundtrip l : Forall isByte l -> base64URLDecode (base64URLEncode l) = Some l.
Proof.
  intros Hl. unfold base64URLDecode. rewrite (base64_sextets l Hl). cbn [mbind option_bind].
  induction l as [|x|x y|x y z l IH] using bytes3_ind; [done| | |].
  - apply Forall_cons in Hl as [Hx _]. cbn. do 2 f_equal.
    unfold isByte in *. Z.to_euclidean_division_equations; lia.
  - apply Forall_cons in Hl as [Hx [Hy _]%Forall_cons]. cbn. unfold isByte in *.
    do 2 f_equal; [|f_equal]; Z.to_euclidean_division_equations; lia.
  - apply Forall_cons in Hl as [Hx [Hy [Hz Hl]%Forall_cons]%Forall_cons].
    cbn [quanta sixBits]. rewrite (IH Hl). cbn. unfold isByte in *.
    do 2 f_equal; [|f_equal; [|f_equal]]; Z.to_euclidean_division_equations; lia.
Qed.

Lemma base64_plain l : Forall isByte l -> plainStr (base64URLEncode l) = true.
Proof.
  induction l as [|x|x y|x y z l IH] using bytes3_ind; intros Hl.
  - done.
  - apply Forall_cons in Hl as [Hx _]. unfold base64URLEncode.
    rewrite <- (app_nil_r_s (b64Char (x mod 4 * 16))). by rewrite !plain_char by sextet.
  - apply Forall_cons in Hl as [Hx [Hy _]%Forall_cons]. unfold base64URLEncode.
    rewrite <- (app_nil_r_s (b64Char (y mod 16 * 4))). by rewrite !plain_char by sextet.
  - apply Forall_cons in Hl as [Hx [Hy [Hz Hl]%Forall_cons]%Forall_cons].
    cbn [base64URLEncode]. rewrite !plain_char by sextet. exact (IH Hl).
Qed.

(** ** Token strings *)

Lemma plainStr_app a b : plainStr (a +++ b) = plainStr a && plainStr b.
Proof. induction a as [|c a IH]; cbn; [done | by rewrite IH, andb_assoc]. Qed.

Lemma plainStr_nodot s : plainStr s = true -> str_in "." s = false.
Proof.
  induction s as [|c s IH]; cbn; [done|].
  intros [[Hc _]%andb_true_iff Hs]%andb_true_iff. rewrite (IH Hs).
  by destruct (Ascii.eqb c "."); cbn in *.
Qed.

Fixpoint noSpace (s : string) : bool :=
  match s with EmptyString => true | String c s' => negb (ListQ.is_space c) && noSpace s' end.

Lemma plainStr_noSpace s : plainStr s = true -> noSpace s = true.
Proof.
  induction s as [|c s IH]; cbn; [done|].
  intros [[_ Hc]%andb_true_iff Hs]%andb_true_iff. by rewrite Hc, (IH Hs).
Qed.

Lemma noSpace_app a b : noSpace (a +++ b) = noSpace a && noSpace b.
Proof. induction a as [|c a IH]; cbn; [done | by rewrite IH, andb_assoc]. Qed.

Lemma trim_right_noSpace s : noSpace s = true -> ListQ.trim_right s = s.
Proof.
  induction s as [|c s IH]; [done|]. cbn [noSpace ListQ.trim_right].
  intros [Hc Hs]%andb_true_iff. rewrite (IH Hs).
  destruct s; [|done]. by destruct (ListQ.is_space c).
Qed.

Lemma TrimSpace_noSpace s : noSpace s = true -> ListQ.TrimSpace s = s.
Proof.
  intros Hs. unfold ListQ.TrimSpace.
  assert (ListQ.trim_left s = s) as ->; [|by apply trim_right_noSpace].
  destruct s as [|c s]; [done|]. cbn in *.
  apply andb_true_iff in Hs as [Hc _]. by destruct (ListQ.is_space c).
Qed.

Lemma bearerToken_plain t : noSpace t = true -> t <> EmptyString -> bearerToken ("Bearer " +++ t) = Some t.
Proof.
  intros Hs Ht. unfold bearerToken. destruct t as [|c t]; [done|].
  cbn -[ListQ.TrimSpace]. rewrite (TrimSpace_noSpace _ Hs). done.
Qed.

(** A token of either kind is its prefix and two base64 parts. *)
Definition tokenOf (prefix body : string) (sig : list Z) : string :=
  prefix +++ "." +++ body +++ "." +++ base64URLEncode sig.

Lemma Split_token prefix payload sig :
  str_in "." prefix = false -> Forall isByte payload -> Forall isByte sig ->
  Split (tokenOf prefix (base64URLEncode payload) sig) "." =
  [prefix; base64URLEncode payload; base64URLEncode sig].
Proof.
  intros Hp Hb Hs. apply (Split_join [prefix; base64URLEncode payload; base64URLEncode sig]); [done|].
  repeat constructor; auto using plainStr_nodot, base64_plain.
Qed.

Lemma tokenOf_noSpace prefix payload sig :
  noSpace prefix = true -> Forall isByte payload -> Forall isByte sig ->
  noSpace (tokenOf prefix (base64URLEncode payload) sig) = true.
Proof.
  intros Hp Hb Hs. unfold tokenOf. rewrite !noSpace_app, Hp.
  rewrite (plainStr_noSpace (base64URLEncode payload)), (plainStr_noSpace (base64URLEncode sig))
    by (by apply base64_plain). done.
Qed.

Section Codec.
Context (hmac : list Z -> list Z -> list Z).
Context (marshalSession : SessionClaims -> option (list Z)) (unmarshalSession : list Z -> option SessionClaims).
Context (marshalAgent : AgentClaims -> option (list Z)) (unmarshalAgent : list Z -> option AgentClaims).
(** HMAC-SHA256 yields bytes; the JSON codec yields bytes and reads back
    what it wrote. *)
Hypothesis hmac_bytes : forall k m, Forall isByte (hmac k m).
Hypothesis session_codec : forall c p, marshalSession c = Some p -> Forall isByte p /\ unmarshalSession p = Some c.
Hypothesis agent_codec : forall c p, marshalAgent c = Some p -> Forall isByte p /\ unmarshalAgent p = Some c.

Lemma Issue_shape key now h inst ep tok :
  Issue hmac marshalSession key now h inst ep = Ok tok ->
  exists p, tok = tokenOf SessionTokenPrefix (base64URLEncode p) (sign hmac key (base64URLEncode p))
    /\ Forall isByte p /\ unmarshalSession p = Some (sessionClaims now h inst ep).
Proof using session_codec.
  unfold Issue. destruct (marshalSession _) as [p|] eqn:E; [|done]. intros [= <-].
  apply session_codec in E as [Hb Hu]. by exists p.
Qed.

Lemma Parse_issued key now now' h inst ep tok :
  Issue hmac marshalSession key now h inst ep = Ok tok ->
  Parse hmac unmarshalSession key now' tok =
    if (h <=? 0) || (now + sessionTokenTTL <=? now') then None else Some (sessionClaims now h inst ep).
Proof using session_codec hmac_bytes.
  intros (p & -> & Hb & Hu)%Issue_shape. unfold Parse.
  rewrite Split_token by (done || apply hmac_bytes).
  change (negb (SessionTokenPrefix =s SessionTokenPrefix)) with false. cbv iota.
  rewrite base64_roundtrip by apply hmac_bytes.
  rewrite bool_decide_eq_true_2 by done.
  by rewrite base64_roundtrip, Hu by done.
Qed.

Lemma agentIssue_shape key c tok :
  agentIssue hmac marshalAgent key c = Ok tok ->
  exists p, tok = tokenOf AgentTokenPrefix (base64URLEncode p) (sign hmac key (base64URLEncode p))
    /\ Forall isByte p /\ unmarshalAgent p = Some c.
Proof using agent_codec.
  unfold agentIssue. destruct (marshalAgent _) as [p|] eqn:E; [|done]. intros [= <-].
  apply agent_codec in E as [Hb Hu]. by exists p.
Qed.

Lemma agentParse_issued key c tok :
  agentIssue hmac marshalAgent key c = Ok tok ->
  agentParse hmac unmarshalAgent key tok =
    if (acAgentID c =s "") || (acHostID c <=? 0) then None else Some c.
Proof using agent_codec hmac_bytes.
  intros (p & -> & Hb & Hu)%agentIssue_shape. unfold agentParse.
  rewrite Split_token by (done || apply hmac_bytes).
  change (negb (AgentTokenPrefix =s AgentTokenPrefix)) with false. cbv iota.
  rewrite base64_roundtrip by apply hmac_bytes.
  rewrite bool_decide_eq_true_2 by done.
  by rewrite base64_roundtrip, Hu by done.
Qed.

Lemma bearer_issued prefix p sig :
  noSpace prefix = true -> prefix <> EmptyString -> Forall isByte p -> Forall isByte sig ->
  bearerToken ("Bearer " +++ tokenOf prefix (base64URLEncode p) sig) =
  Some (tokenOf prefix (base64URLEncode p) sig).
Proof.
  intros. apply bearerToken_plain; [by apply tokenOf_noSpace|].
  by destruct prefix.
Qed.

End Codec.

(** ** Properties *)

(** C29: the life of a session token: presented as [Bearer tok], a token
    minted for host [h] and epoch [ep] is accepted, scoped to [h], exactly
    while it is unexpired and the row of [h] is online with
    [connected_at = ep]; an expired one, a missing row and a superseded
    epoch are 401, a store failure is 503. An agent token, valid or not for
    the control channel, is never accepted here. *)
Theorem session_token_accepted_iff hmac ms us ma ua
    (hmac_bytes : forall k m, Forall isByte (hmac k m))
    (session_codec : forall c p, ms c = Some p -> Forall isByte p /\ us p = Some c)
    (agent_codec : forall c p, ma c = Some p -> Forall isByte p /\ ua p = Some c)
    key now now' h inst ep tok akey c atok (get : Z -> result storeErr AgentRow) :
  0 < h -> Issue hmac ms key now h inst ep = Ok tok -> agentIssue hmac ma akey c = Ok atok ->
  authSession hmac us key now' get ("Bearer " +++ tok) =
    (if now + sessionTokenTTL <=? now' then Err (401, "invalid session-token")
     else match get h with
          | Err ErrNotFound => Err (401, "unknown agent")
          | Err ErrStore => Err (503, "agent lookup failed")
          | Ok row =>
              if (Status row =s agentStatusOnline) && bool_decide (ConnectedAt row = Some ep) then Ok h
              else Err (401, "session-token no longer valid")
          end)
  /\ authSession hmac us key now' get ("Bearer " +++ atok) = Err (401, "invalid session-token").
Proof.
  intros Hh Hi Ha.
  assert (Hsig : forall k b, Forall isByte (sign hmac k b)) by (intros; apply hmac_bytes).
  split.
  - pose proof (Parse_issued hmac ms us hmac_bytes session_codec key now now' h inst ep tok Hi) as HP.
    apply (Issue_shape hmac ms us session_codec) in Hi as (p & -> & Hb & _).
    unfold authSession. rewrite bearer_issued by done. rewrite HP.
    replace (h <=? 0) with false by lia. cbn [orb].
    destruct (now + sessionTokenTTL <=? now'); [done|]. cbn [scHostID sessionClaims].
    destruct (get h) as [row|[]]; [|done..]. unfold sessionRowValid. cbn [scConnEpoch sessionClaims].
    destruct (Status row =s agentStatusOnline); cbn [negb andb]; [|done].
    destruct (ConnectedAt row) as [t|]; [|done].
    destruct (Z.eqb_spec t ep); [by rewrite bool_decide_eq_true_2 by congruence|].
    by rewrite bool_decide_eq_false_2 by congruence.
  - apply (agentIssue_shape hmac ma ua agent_codec) in Ha as (p & -> & Hb & _).
    unfold authSession. rewrite bearer_issued by done.
    unfold Parse. by rewrite Split_token by done.
Qed.

(** An agent token opens the control channel exactly while its row exists
    with the token's version; the host id it carries is not compared. *)
Lemma authAgent_issued hmac ma ua
    (hmac_bytes : forall k m, Forall isByte (hmac k m))
    (agent_codec : forall c p, ma c = Some p -> Forall isByte p /\ ua p = Some c)
    key c tok (get : string -> result storeErr (Z * AgentRow)) row :
  agentIssue hmac ma key c = Ok tok -> acAgentID c <> ""%string -> 0 < acHostID c ->
  get (acAgentID c) = Ok row -> TokenVersion (snd row) = acTokenVersion c ->
  authAgent hmac ua key get ("Bearer " +++ tok) = Ok (c, row).
Proof.
  intros Hi Hn Hh Hg Hv.
  pose proof (agentParse_issued hmac ma ua hmac_bytes agent_codec key c tok Hi) as HP.
  apply (agentIssue_shape hmac ma ua agent_codec) in Hi as (p & -> & Hb & _).
  unfold authAgent. rewrite bearer_issued by (done || (intros; apply hmac_bytes)). rewrite HP.
  apply String.eqb_neq in Hn. rewrite Hn. replace (acHostID c <=? 0) with false by lia. cbn [orb].
  rewrite Hg, Hv, Z.eqb_refl. done.
Qed.

(** ** A concrete codec *)

Fixpoint posBits (p : positive) : list Z :=
  match p with xH => [] | xO q => 0 :: posBits q | xI q => 1 :: posBits q end.

Fixpoint bitsPos (l : list Z) : positive :=
  match l with [] => xH | b :: l => if b =? 0 then xO (bitsPos l) else xI (bitsPos l) end.

Lemma bitsPos_posBits p : bitsPos (posBits p) = p.
Proof. induction p as [p IH|p IH|]; cbn; by rewrite ?IH. Qed.

Lemma posBits_bytes p : Forall isByte (posBits p).
Proof. induction p as [p IH|p IH|]; cbn; constructor; (exact IH || (unfold isByte; lia)). Qed.

Definition demoMarshal {C T} `{Countable T} (f : C -> T) (c : C) : option (list Z) := Some (posBits (encode (f c))).
Definition demoUnmarshal {C T} `{Countable T} (g : T -> C) (l : list Z) : option C := g <$> decode (bitsPos l).

Lemma demo_codec {C T} `{Countable T} (f : C -> T) (g : T -> C) : (forall c, g (f c) = c) ->
  forall c p, demoMarshal f c = Some p -> Forall isByte p /\ demoUnmarshal g p = Some c.
Proof.
  intros Hgf c p [= <-]. split; [apply posBits_bytes|].
  unfold demoUnmarshal. rewrite bitsPos_posBits, decode_encode. cbn. by rewrite Hgf.
Qed.

Definition sessTuple (c : SessionClaims) := (scHostID c, scInstance c, scConnEpoch c, scExpUnix c).
Definition sessOf (t : Z * string * Z * Z) : SessionClaims :=
  let '(h, i, e, x) := t in {| scHostID := h; scInstance := i; scConnEpoch := e; scExpUnix := x |}.
Definition agentTuple (c : AgentClaims) := (acAgentID c, acHostID c, acTokenVersion c, acIssuedAtUnix c).
Definition agentOf (t : string * Z * Z * Z) : AgentClaims :=
  let '(a, h, v, i) := t in {| acAgentID := a; acHostID := h; acTokenVersion := v; acIssuedAtUnix := i |}.

Definition demoHmac (k m : list Z) : list Z := [(foldr Z.add 7 k + foldr Z.add 0 m) mod 256].

Lemma demoHmac_bytes k m : Forall isByte (demoHmac k m).
Proof. repeat constructor; apply Z.mod_pos_bound; lia. Qed.

Definition demoRow : AgentRow :=
  {| AgentID := "a"; TokenVersion := 1; Version := "v"; InstanceID := "i"; Status := "online";
     ConnectedAt := Some 500; LastSeenAt := Some 500; ClockSkewMs := 0; UpdatedAt := 500;
     ConflictAt := None; ForeignMachineAt := None; ForeignMachineUuid := "" |}.

Definition demoToken : string :=
  match Issue demoHmac (demoMarshal sessTuple) [1; 2] 1000 7 "i" 500 with Ok t => t | Err _ => "" end.
Definition demoAgentToken : string :=
  match agentIssue demoHmac (demoMarshal agentTuple) [3]
    {| acAgentID := "a"; acHostID := 7; acTokenVersion := 1; acIssuedAtUnix := 0 |} with Ok t => t | Err _ => "" end.

Lemma session_token_accepted_iff_witness :
  authSession demoHmac (demoUnmarshal sessOf) [1; 2] 2000 (fun _ => Ok demoRow) ("Bearer " +++ demoToken) = Ok 7
  /\ authSession demoHmac (demoUnmarshal sessOf) [1; 2] 2000 (fun _ => Ok demoRow) ("Bearer " +++ demoAgentToken)
     = Err (401, "invalid session-token"%string).
Proof.
  pose proof (session_token_accepted_iff demoHmac (demoMarshal sessTuple) (demoUnmarshal sessOf)
    (demoMarshal agentTuple) (demoUnmarshal agentOf) demoHmac_bytes
    (demo_codec sessTuple sessOf (fun c => match c with Build_SessionClaims _ _ _ _ => eq_refl end))
    (demo_codec agentTuple agentOf (fun c => match c with Build_AgentClaims _ _ _ _ => eq_refl end))
    [1; 2] 1000 2000 7 "i" 500 demoToken [3]
    {| acAgentID := "a"; acHostID := 7; acTokenVersion := 1; acIssuedAtUnix := 0 |} demoAgentToken
    (fun _ => Ok demoRow) ltac:(lia) ltac:(vm_compute; reflexivity) ltac:(vm_compute; reflexivity)) as [H1 H2].
  split; [rewrite H1; vm_compute; reflexivity | exact H2].
Defined.

End Tok.
