(* ===== verification/AgentRegistry.v ===== *)
(** * The agent gateway's session registry

    Models [pkg/apis/agentgw/registry.go], the session part of
    [channel.go], [router.go] and the [host_agents] writes of
    [store/pg_agent.go] (with their SQL in [pkg/db/query/host_agent.sql]).
    A session is a heap cell named by a number, the way the code compares
    [*Session] pointers. Operations that release a lock or cross the
    database between two effects are split there ([add1]/[add2],
    [remove1]/[remove2], [touch1]/[touch2]); [exec] runs one such half, so
    a list of events is an interleaving. *)

From S2P Require Import Prelude AgentToken.
Import Tok.

Module Reg.
Open Scope Z_scope.

(** ** The store *)

(** The database: [host_agents] by host id, and the host events
    published. *)
Record DB := { rows : gmap Z AgentRow; notified : list Z }.

(** How a database call ends: it ran, it failed without running, or it ran
    and its answer was lost. *)
Inductive dbOutcome := DbOk | DbFail | DbLost.

Definition versionColumnWidth : nat := 32.
Definition clampVersion (v : string) : string := str_take versionColumnWidth v.

Definition notifyHost (db : DB) (hostID : Z) : DB :=
  {| rows := rows db; notified := notified db ++ [hostID] |}.

Definition setRow (db : DB) (hostID : Z) (r : AgentRow) : DB :=
  {| rows := <[hostID := r]> (rows db); notified := notified db |}.

(** [now] is the database clock. The answer is [connected_at]. *)
Definition MarkOnline (o : dbOutcome) (now : Z) (db : DB) (hostID : Z)
    (instanceID version : string) (clockSkewMs : Z) : result storeErr Z * DB :=
  match o with
  | DbFail => (Err ErrStore, db)
  | _ =>
      match rows db !! hostID with
      | None => (Err match o with DbOk => ErrNotFound | _ => ErrStore end, db)
      | Some r =>
          let db' := setRow db hostID
            {| AgentID := AgentID r; TokenVersion := TokenVersion r; Version := clampVersion version;
               InstanceID := instanceID; Status := agentStatusOnline; ConnectedAt := Some now;
               LastSeenAt := Some now; ClockSkewMs := clockSkewMs; UpdatedAt := now; ConflictAt := None;
               ForeignMachineAt := None; ForeignMachineUuid := "" |} in
          match o with
          | DbOk => (Ok now, notifyHost db' hostID)
          | _ => (Err ErrStore, db')
          end
      end
  end.

Definition ownsOnline (r : AgentRow) (instanceID : string) : bool :=
  (InstanceID r =s instanceID) && (Status r =s agentStatusOnline).

(** [pgAgentStore.Touch]: whether a row matched. *)
Definition storeTouch (o : dbOutcome) (now : Z) (db : DB) (hostID : Z) (instanceID : string)
    (clockSkewMs : Z) : result storeErr bool * DB :=
  let run :=
    match rows db !! hostID with
    | Some r =>
        if ownsOnline r instanceID then
          (true, setRow db hostID
            {| AgentID := AgentID r; TokenVersion := TokenVersion r; Version := Version r;
               InstanceID := InstanceID r; Status := Status r; ConnectedAt := ConnectedAt r;
               LastSeenAt := Some now; ClockSkewMs := clockSkewMs; UpdatedAt := now;
               ConflictAt := ConflictAt r; ForeignMachineAt := ForeignMachineAt r;
               ForeignMachineUuid := ForeignMachineUuid r |})
        else (false, db)
    | None => (false, db)
    end in
  match o with
  | DbOk => (Ok (fst run), snd run)
  | DbFail => (Err ErrStore, db)
  | DbLost => (Err ErrStore, snd run)
  end.

Definition setOffline (now : Z) (r : AgentRow) : AgentRow :=
  {| AgentID := AgentID r; TokenVersion := TokenVersion r; Version := Version r;
     InstanceID := InstanceID r; Status := "offline"; ConnectedAt := ConnectedAt r;
     LastSeenAt := LastSeenAt r; ClockSkewMs := ClockSkewMs r; UpdatedAt := now;
     ConflictAt := ConflictAt r; ForeignMachineAt := ForeignMachineAt r;
     ForeignMachineUuid := ForeignMachineUuid r |}.

Definition MarkOffline (o : dbOutcome) (now : Z) (db : DB) (hostID : Z) (instanceID : string) :
    result storeErr unit * DB :=
  let hit :=
    match rows db !! hostID with
    | Some r => if (InstanceID r =s instanceID) && negb (Status r =s "offline") then Some r else None
    | None => None
    end in
  match o, hit with
  | DbFail, _ => (Err ErrStore, db)
  | DbOk, None => (Ok tt, db)
  | DbOk, Some r => (Ok tt, notifyHost (setRow db hostID (setOffline now r)) hostID)
  | DbLost, None => (Err ErrStore, db)
  | DbLost, Some r => (Err ErrStore, setRow db hostID (setOffline now r))
  end.

Definition GetByHostID (db : DB) (hostID : Z) : result storeErr AgentRow :=
  match rows db !! hostID with Some r => Ok r | None => Err ErrNotFound end.

(** ** Sessions and the registry *)

Record Session := {
  sAgentID : string;
  sHostID : Z;
  sVersion : string;
  stopped : bool;      (* its context has been cancelled *)
  epoch : Z;           (* 0: not claimed yet *)
  tokenGen : Z;
  tokenSent : bool
}.

Record Registry := { byAgent : gmap string nat; byHost : gmap Z nat; instanceID : string }.

(** Where a channel's own goroutine stands between two steps. *)
Inductive pc := PNew | PSwapped | POpen | PReclaim | PRemoving | PDone.

#[global] Instance pc_eq_dec : EqDecision pc.
Proof. solve_decision. Defined.

(** [locks] is the holder of each agent's connect mutex, [minted] the
    session tokens signed so far with the session they were signed for,
    [claimLog] the claims that landed on the table (newest first) as
    (stamp, host, session of this instance). *)
Record world := {
  heap : gmap nat Session;
  reg : Registry;
  db : DB;
  locks : gmap string nat;
  pcs : gmap nat pc;
  clock : Z;
  minted : list (nat * SessionClaims);
  claimLog : list (Z * Z * option nat)
}.

Definition set_heap (x : gmap nat Session) (w : world) : world :=
  {| heap := x; reg := reg w; db := db w; locks := locks w; pcs := pcs w; clock := clock w;
     minted := minted w; claimLog := claimLog w |}.
Definition set_reg (x : Registry) (w : world) : world :=
  {| heap := heap w; reg := x; db := db w; locks := locks w; pcs := pcs w; clock := clock w;
     minted := minted w; claimLog := claimLog w |}.
Definition set_db (x : DB) (w : world) : world :=
  {| heap := heap w; reg := reg w; db := x; locks := locks w; pcs := pcs w; clock := clock w;
     minted := minted w; claimLog := claimLog w |}.
Definition set_locks (x : gmap string nat) (w : world) : world :=
  {| heap := heap w; reg := reg w; db := db w; locks := x; pcs := pcs w; clock := clock w;
     minted := minted w; claimLog := claimLog w |}.
Definition set_pc (p : nat) (x : pc) (w : world) : world :=
  {| heap := heap w; reg := reg w; db := db w; locks := locks w; pcs := <[p := x]> (pcs w);
     clock := clock w; minted := minted w; claimLog := claimLog w |}.
Definition set_clock (x : Z) (w : world) : world :=
  {| heap := heap w; reg := reg w; db := db w; locks := locks w; pcs := pcs w; clock := x;
     minted := minted w; claimLog := claimLog w |}.
Definition set_minted (x : list (nat * SessionClaims)) (w : world) : world :=
  {| heap := heap w; reg := reg w; db := db w; locks := locks w; pcs := pcs w; clock := clock w;
     minted := x; claimLog := claimLog w |}.
Definition set_log (x : list (Z * Z * option nat)) (w : world) : world :=
  {| heap := heap w; reg := reg w; db := db w; locks := locks w; pcs := pcs w; clock := clock w;
     minted := minted w; claimLog := x |}.

Definition NewRegistry (inst : string) : Registry :=
  {| byAgent := ∅; byHost := ∅; instanceID := inst |}.

Definition Get (r : Registry) (agentID : string) : option nat := byAgent r !! agentID.
Definition GetByHost (r : Registry) (hostID : Z) : option nat := byHost r !! hostID.
Definition Count (r : Registry) : Z := Z.of_nat (size (byAgent r)).

(** [sess.stop()], [sess.SetEpoch(t)]. *)
Definition stop (p : nat) (h : gmap nat Session) : gmap nat Session :=
  alter (fun s => {| sAgentID := sAgentID s; sHostID := sHostID s; sVersion := sVersion s; stopped := true;
                     epoch := epoch s; tokenGen := tokenGen s; tokenSent := tokenSent s |}) p h.
Definition SetEpoch (t : Z) (p : nat) (h : gmap nat Session) : gmap nat Session :=
  alter (fun s => {| sAgentID := sAgentID s; sHostID := sHostID s; sVersion := sVersion s; stopped := stopped s;
                     epoch := t; tokenGen := tokenGen s; tokenSent := tokenSent s |}) p h.

(** ** Operations *)

(** The critical section of [Add] under [r.mu]: the registry and the
    superseded session. *)
Definition addSwap (h : gmap nat Session) (r : Registry) (p : nat) (sess : Session) : Registry * option nat :=
  let prev := byAgent r !! sAgentID sess in
  let byHost1 :=
    match prev with
    | Some q =>
        match h !! q with
        | Some old => if sHostID old =? sHostID sess then byHost r else delete (sHostID old) (byHost r)
        | None => byHost r
        end
    | None => byHost r
    end in
  ({| byAgent := <[sAgentID sess := p]> (byAgent r); byHost := <[sHostID sess := p]> byHost1;
      instanceID := instanceID r |}, prev).

(** [Add] up to the database write: the agent's lock, the swap, stopping
    the superseded session. *)
Definition add1 (p : nat) (sess : Session) (w : world) : world :=
  let '(r, prev) := addSwap (heap w) (reg w) p sess in
  let h := match prev with Some q => stop q (heap w) | None => heap w end in
  set_locks (<[sAgentID sess := p]> (locks w)) (set_reg r (set_heap h w)).

(** A claim landed when [MarkOnline] ran against an existing row. *)
Definition logClaim (o : dbOutcome) (now hostID : Z) (who : option nat) (w : world) : world :=
  match o with
  | DbFail => w
  | _ => if decide (is_Some (rows (db w) !! hostID)) then set_log ((now, hostID, who) :: claimLog w) w else w
  end.

(** One [MarkOnline] on behalf of session [p]; the answer is the stamp, or
    [None] for the zero time. *)
Definition claim (o : dbOutcome) (now clockSkewMs : Z) (p : nat) (sess : Session) (w : world) :
    result storeErr Z * world :=
  let '(res, db') := MarkOnline o now (db w) (sHostID sess) (instanceID (reg w)) (sVersion sess) clockSkewMs in
  (res, set_clock now (set_db db' (logClaim o now (sHostID sess) (Some p) w))).

(** The rest of [Add]: the claim, then the lock is released. *)
Definition add2 (o : dbOutcome) (now clockSkewMs : Z) (p : nat) (sess : Session) (w : world) : option Z * world :=
  let '(res, w1) := claim o now clockSkewMs p sess w in
  (match res with Ok t => Some t | Err _ => None end,
   set_locks (delete (sAgentID sess) (locks w1)) w1).

Definition Add (o : dbOutcome) (now clockSkewMs : Z) (p : nat) (sess : Session) (w : world) : option Z * world :=
  add2 o now clockSkewMs p sess (add1 p sess w).

(** [issueSessionToken] at server time [unixNow]; [written] is whether the
    frame reached the socket. *)
Definition issueSessionToken (unixNow : Z) (written : bool) (p : nat) (w : world) : world :=
  match heap w !! p with
  | None => w
  | Some s =>
      if epoch s =? 0 then w
      else
        set_minted ((p, sessionClaims unixNow (sHostID s) (instanceID (reg w)) (epoch s)) :: minted w)
          (set_heap (<[p := {| sAgentID := sAgentID s; sHostID := sHostID s; sVersion := sVersion s;
                               stopped := stopped s; epoch := epoch s; tokenGen := tokenGen s + 1;
                               tokenSent := written |}]> (heap w)) w)
  end.

(** What [handleChannel] does with the stamp [Add] returned. *)
Definition afterAdd (connectedAt : option Z) (unixNow : Z) (written : bool) (p : nat) (w : world) : world :=
  match connectedAt with
  | Some t => issueSessionToken unixNow written p (set_heap (SetEpoch t p (heap w)) w)
  | None => w
  end.

(** [Remove] up to the database write: whether the session was current. *)
Definition remove1 (p : nat) (sess : Session) (w : world) : bool * world :=
  let r := reg w in
  if decide (byAgent r !! sAgentID sess = Some p) then
    let byHost1 :=
      if decide (byHost r !! sHostID sess = Some p) then delete (sHostID sess) (byHost r) else byHost r in
    (true, set_locks (<[sAgentID sess := p]> (locks w))
             (set_reg {| byAgent := delete (sAgentID sess) (byAgent r); byHost := byHost1;
                         instanceID := instanceID r |} w))
  else (false, w).

Definition remove2 (o : dbOutcome) (now : Z) (sess : Session) (w : world) : world :=
  let w1 := set_db (snd (MarkOffline o now (db w) (sHostID sess) (instanceID (reg w)))) w in
  set_locks (delete (sAgentID sess) (locks w1)) w1.

Definition Remove (o : dbOutcome) (now : Z) (p : nat) (sess : Session) (w : world) : world :=
  let '(current, w1) := remove1 p sess w in
  if current then remove2 o now sess w1 else w1.

(** The beat of [Registry.Touch]: whether a re-claim has to follow. *)
Definition touch1 (o : dbOutcome) (now clockSkewMs : Z) (sess : Session) (w : world) : bool * world :=
  let '(res, db') := storeTouch o now (db w) (sHostID sess) (instanceID (reg w)) clockSkewMs in
  (match res with Ok false => true | _ => false end, set_db db' w).

(** The re-claim; a missing row stops the session. *)
Definition touch2 (o : dbOutcome) (now clockSkewMs : Z) (p : nat) (sess : Session) (w : world) : option Z * world :=
  let '(res, w1) := claim o now clockSkewMs p sess w in
  match res with
  | Ok t => (Some t, w1)
  | Err ErrNotFound => (None, set_heap (stop p (heap w1)) w1)
  | Err ErrStore => (None, w1)
  end.

Definition Touch (o1 o2 : dbOutcome) (now clockSkewMs : Z) (p : nat) (sess : Session) (w : world) : option Z * world :=
  let '(again, w1) := touch1 o1 now clockSkewMs sess w in
  if again then touch2 o2 now clockSkewMs p sess w1 else (None, w1).

(** What the heartbeat handler [touch] does after [Registry.Touch]. *)
Definition afterTouch (reclaimedAt : option Z) (unixNow : Z) (written : bool) (p : nat) (w : world) : world :=
  match reclaimedAt with
  | Some t => issueSessionToken unixNow written p (set_heap (SetEpoch t p (heap w)) w)
  | None =>
      match heap w !! p with
      | Some s => if tokenSent s then w else issueSessionToken unixNow written p w
      | None => w
      end
  end.

Definition touch (o1 o2 : dbOutcome) (now clockSkewMs unixNow : Z) (written : bool) (p : nat) (sess : Session)
    (w : world) : world :=
  let '(t, w1) := Touch o1 o2 now clockSkewMs p sess w in afterTouch t unixNow written p w1.

Definition Evict (hostID : Z) (w : world) : bool * world :=
  match byHost (reg w) !! hostID with
  | None => (false, w)
  | Some p => (true, set_heap (stop p (heap w)) w)
  end.

(** [ChannelRouter.Send]: the session the frame is written to, or why
    there is none. *)
Inductive sendErr := ErrHostUnreachable | ErrHostOnAnotherInstance (inst : string) | ErrResolve (e : storeErr).

Definition classifyMiss (self : string) (get : Z -> result storeErr AgentRow) (hostID : Z) : sendErr :=
  match get hostID with
  | Err e => ErrResolve e
  | Ok row =>
      if negb (Status row =s agentStatusOnline) || (InstanceID row =s "") then ErrHostUnreachable
      else if InstanceID row =s self then ErrHostUnreachable
      else ErrHostOnAnotherInstance (InstanceID row)
  end.

Definition Send (self : string) (get : Z -> result storeErr AgentRow) (r : Registry) (hostID : Z) : result sendErr nat :=
  match GetByHost r hostID with
  | Some p => Ok p
  | None => Err (classifyMiss self get hostID)
  end.

(** ** Interleavings *)

Definition newSession (agentID : string) (hostID : Z) (version : string) : Session :=
  {| sAgentID := agentID; sHostID := hostID; sVersion := version; stopped := false; epoch := 0;
     tokenGen := 0; tokenSent := false |}.

(** One atomic step of some goroutine of this instance, or of the world
    outside it (other instances, sweeps, deletions, registrations). *)
Inductive event :=
| EConnect (p : nat) (agentID : string) (hostID : Z) (version : string)
| EAdd1 (p : nat)
| EAdd2 (p : nat) (o : dbOutcome) (now skew unixNow : Z) (written : bool)
| EBeat (p : nat) (o : dbOutcome) (now skew unixNow : Z) (written : bool)
| EReclaim (p : nat) (o : dbOutcome) (now skew unixNow : Z) (written : bool)
| ERefresh (p : nat) (unixNow : Z) (written : bool)
| ERemove1 (p : nat)
| ERemove2 (p : nat) (o : dbOutcome) (now : Z)
| EEvict (hostID : Z)
| EOther (now hostID : Z) (inst version : string) (skew : Z)
| EOffline (now hostID : Z)
| EDelete (hostID : Z)
| EInsert (hostID : Z) (agentID : string) (tokenVersion now : Z).

Definition guardpc (w : world) (p : nat) (c : pc) : option Session :=
  if decide (pcs w !! p = Some c) then heap w !! p else None.

Definition freeLock (w : world) (agentID : string) : bool := bool_decide (locks w !! agentID = None).

(** Claims are stamped by the database clock, which moves forward. *)
Definition exec (w : world) (e : event) : option world :=
  match e with
  | EConnect p a h v =>
      if decide (heap w !! p = None /\ pcs w !! p = None) then
        Some (set_pc p PNew (set_heap (<[p := newSession a h v]> (heap w)) w))
      else None
  | EAdd1 p =>
      s ← guardpc w p PNew;
      if freeLock w (sAgentID s) then Some (set_pc p PSwapped (add1 p s w)) else None
  | EAdd2 p o now skew u wr =>
      s ← guardpc w p PSwapped;
      if clock w <? now then
        let '(t, w1) := add2 o now skew p s w in Some (set_pc p POpen (afterAdd t u wr p w1))
      else None
  | EBeat p o now skew u wr =>
      s ← guardpc w p POpen;
      let '(again, w1) := touch1 o now skew s w in
      if again then Some (set_pc p PReclaim w1) else Some (afterTouch None u wr p w1)
  | EReclaim p o now skew u wr =>
      s ← guardpc w p PReclaim;
      if clock w <? now then
        let '(t, w1) := touch2 o now skew p s w in Some (set_pc p POpen (afterTouch t u wr p w1))
      else None
  | ERefresh p u wr =>
      match pcs w !! p with
      | Some (POpen | PReclaim | PRemoving | PDone) => Some (issueSessionToken u wr p w)
      | _ => None
      end
  | ERemove1 p =>
      s ← guardpc w p POpen;
      if freeLock w (sAgentID s) then
        let '(current, w1) := remove1 p s w in Some (set_pc p (if current then PRemoving else PDone) w1)
      else None
  | ERemove2 p o now =>
      s ← guardpc w p PRemoving; Some (set_pc p PDone (remove2 o now s w))
  | EEvict h => Some (snd (Evict h w))
  | EOther now h inst v skew =>
      if decide (clock w < now /\ inst <> instanceID (reg w)) then
        Some (set_clock now (set_db (snd (MarkOnline DbOk now (db w) h inst v skew))
                               (logClaim DbOk now h None w)))
      else None
  | EOffline now h =>
      match rows (db w) !! h with
      | Some r => Some (set_db (setRow (db w) h (setOffline now r)) w)
      | None => None
      end
  | EDelete h => Some (set_db {| rows := delete h (rows (db w)); notified := notified (db w) |} w)
  | EInsert h a tv now =>
      match rows (db w) !! h with
      | Some _ => None
      | None => Some (set_db (setRow (db w) h
          {| AgentID := a; TokenVersion := tv; Version := ""; InstanceID := ""; Status := "offline";
             ConnectedAt := None; LastSeenAt := None; ClockSkewMs := 0; UpdatedAt := now;
             ConflictAt := None; ForeignMachineAt := None; ForeignMachineUuid := "" |}) w)
      end
  end.

Fixpoint run (w : world) (es : list event) : option world :=
  match es with
  | [] => Some w
  | e :: es' => w1 ← exec w e; run w1 es'
  end.

(** A freshly started instance over an existing table, at database time
    [c0]. *)
Definition boot (inst : string) (c0 : Z) (tbl : gmap Z AgentRow) : world :=
  {| heap := ∅; reg := NewRegistry inst; db := {| rows := tbl; notified := [] |}; locks := ∅; pcs := ∅;
     clock := c0; minted := []; claimLog := [] |}.

(** The newest claim of a host. *)
Fixpoint lastClaim (log : list (Z * Z * option nat)) (hostID : Z) : option (Z * option nat) :=
  match log with
  | [] => None
  | (t, h, x) :: log' => if h =? hostID then Some (t, x) else lastClaim log' hostID
  end.

Lemma lastClaim_in log h t x : lastClaim log h = Some (t, x) -> (t, h, x) ∈ log.
Proof.
  induction log as [|[[t' h'] x'] log IH]; cbn; [done|].
  destruct (Z.eqb_spec h' h) as [->|]; [intros [= -> ->]; constructor | intros; constructor; auto].
Qed.

(** *** Epochs and claims *)

Record epochInv (c0 : Z) (h : gmap nat Session) (tbl : gmap Z AgentRow) (clk : Z)
    (mint : list (nat * SessionClaims)) (log : list (Z * Z * option nat)) : Prop := {
  ei_stamps : forall t k x, (t, k, x) ∈ log -> c0 < t <= clk;
  ei_unique : forall t k x k' x', (t, k, x) ∈ log -> (t, k', x') ∈ log -> k = k' /\ x = x';
  ei_clock : c0 <= clk;
  ei_rows : forall k r e, tbl !! k = Some r -> ConnectedAt r = Some e ->
    e <= c0 \/ exists x, lastClaim log k = Some (e, x);
  ei_heap : forall p s, h !! p = Some s -> epoch s <> 0 -> (epoch s, sHostID s, Some p) ∈ log;
  ei_mint : forall p c, (p, c) ∈ mint -> (scConnEpoch c, scHostID c, Some p) ∈ log
}.

Definition epochs (c0 : Z) (w : world) : Prop :=
  epochInv c0 (heap w) (rows (db w)) (clock w) (minted w) (claimLog w).

(** Heap changes that leave epochs and hosts alone, or add unclaimed
    sessions. *)
Lemma epochInv_heap c0 h h' tbl clk mint log :
  epochInv c0 h tbl clk mint log ->
  (forall p s', h' !! p = Some s' -> epoch s' = 0 \/
     exists s, h !! p = Some s /\ epoch s = epoch s' /\ sHostID s = sHostID s') ->
  epochInv c0 h' tbl clk mint log.
Proof.
  intros [H1 H2 H3 H4 H5 H6] Hh. split; [done..| |done].
  intros p s' Hp Hne. destruct (Hh p s' Hp) as [|(s & Hs & He & Hk)]; [done|].
  rewrite <- He, <- Hk. apply H5; congruence.
Qed.

(** Table changes that stamp no new [connected_at]. *)
Lemma epochInv_rows c0 h tbl tbl' clk mint log :
  epochInv c0 h tbl clk mint log ->
  (forall k r', tbl' !! k = Some r' -> ConnectedAt r' = None \/
     exists r, tbl !! k = Some r /\ ConnectedAt r = ConnectedAt r') ->
  epochInv c0 h tbl' clk mint log.
Proof.
  intros [H1 H2 H3 H4 H5 H6] Hr. split; [done..| |done|done].
  intros k r' e Hk He. destruct (Hr k r' Hk) as [|(r & Hr0 & Hc)]; [congruence|].
  apply (H4 k r e Hr0). congruence.
Qed.

Lemma epochInv_insert c0 h tbl clk mint log k r0 r' :
  epochInv c0 h tbl clk mint log -> tbl !! k = Some r0 -> ConnectedAt r' = ConnectedAt r0 ->
  epochInv c0 h (<[k := r']> tbl) clk mint log.
Proof.
  intros Hi Hk Hc. apply (epochInv_rows c0 h tbl); [done|].
  intros k' r1 [[<- <-]|[Hn Hk']]%lookup_insert_Some; right; eauto.
Qed.

(** A new claim with a fresh stamp. *)
Lemma epochInv_claim c0 h tbl clk mint log now k r' x :
  epochInv c0 h tbl clk mint log -> clk < now -> ConnectedAt r' = Some now ->
  epochInv c0 h (<[k := r']> tbl) now mint ((now, k, x) :: log).
Proof.
  intros [H1 H2 H3 H4 H5 H6] Hnow Hc.
  assert (Hold : forall k' x', (now, k', x') ∈ log -> False) by (intros k' x' Hin; apply H1 in Hin; lia).
  split.
  - intros t k' x' [[= -> -> ->]|Hin]%elem_of_cons; [lia|]. apply H1 in Hin. lia.
  - intros t k1 x1 k2 x2 [[= -> -> ->]|Hin]%elem_of_cons [Heq|Hin']%elem_of_cons.
    + by injection Heq as -> ->.
    + by apply Hold in Hin'.
    + injection Heq as -> -> ->. by apply Hold in Hin.
    + by apply (H2 t).
  - lia.
  - intros k' r e [[<- <-]|[Hn Hk']]%lookup_insert_Some He.
    + right. exists x. cbn. rewrite Z.eqb_refl. congruence.
    + cbn. destruct (Z.eqb_spec k k'); [done|]. eauto.
  - intros p s Hp Hne. apply elem_of_cons. right. auto.
  - intros p c Hp. apply elem_of_cons. right. auto.
Qed.

Lemma epochs_claim c0 o now skew p sess w res w' :
  epochs c0 w -> clock w < now -> claim o now skew p sess w = (res, w') ->
  epochs c0 w' /\ heap w' = heap w /\
  (forall t, res = Ok t -> (t, sHostID sess, Some p) ∈ claimLog w').
Proof.
  intros Hi Hnow. unfold claim, MarkOnline, logClaim.
  assert (Hmove : epochInv c0 (heap w) (rows (db w)) now (minted w) (claimLog w)).
  { destruct Hi as [H1 H2 H3 H4 H5 H6]. split; try done; [|lia].
    intros t k x Hin. apply H1 in Hin. lia. }
  destruct o, (rows (db w) !! sHostID sess) as [r|] eqn:E; intros [= <- <-];
    rewrite ?decide_True, ?decide_False by (first [by eexists | by intros [? ?]]);
    (split_and!; [|done|try done]); try exact Hmove;
    try (apply epochInv_claim with (clk := clock w); done).
  intros t [= <-]. constructor.
Qed.

Lemma lookup_SetEpoch t p h q s' : SetEpoch t p h !! q = Some s' ->
  exists s, h !! q = Some s /\ sAgentID s' = sAgentID s /\ sHostID s' = sHostID s /\ stopped s' = stopped s
    /\ epoch s' = (if decide (q = p) then t else epoch s).
Proof.
  unfold SetEpoch. destruct (decide (q = p)) as [->|Hn].
  - rewrite lookup_alter_eq. intros (s & -> & ->)%fmap_Some. by exists s.
  - rewrite lookup_alter_ne by done. intros Hs. by exists s'.
Qed.

Lemma lookup_stop p h q s' : stop p h !! q = Some s' ->
  exists s, h !! q = Some s /\ sAgentID s' = sAgentID s /\ sHostID s' = sHostID s /\ epoch s' = epoch s
    /\ stopped s' = (if decide (q = p) then true else stopped s).
Proof.
  unfold stop. destruct (decide (q = p)) as [->|Hn].
  - rewrite lookup_alter_eq. intros (s & -> & ->)%fmap_Some. by exists s.
  - rewrite lookup_alter_ne by done. intros Hs. by exists s'.
Qed.

Lemma epochs_stop c0 w p : epochs c0 w -> epochs c0 (set_heap (stop p (heap w)) w).
Proof.
  intros Hi. apply (epochInv_heap c0 (heap w)); [exact Hi|].
  intros q s' (s & Hs & _ & Hh & He & _)%lookup_stop. right. eauto.
Qed.

Lemma epochs_issue c0 u wr p w : epochs c0 w -> epochs c0 (issueSessionToken u wr p w).
Proof.
  intros Hi. unfold issueSessionToken. destruct (heap w !! p) as [s|] eqn:E; [|done].
  destruct (Z.eqb_spec (epoch s) 0) as [|Hne]; [done|].
  assert (Hh : epochs c0 (set_minted ((p, sessionClaims u (sHostID s) (instanceID (reg w)) (epoch s)) :: minted w) w)).
  { destruct Hi as [H1 H2 H3 H4 H5 H6]. split; try done.
    intros q c [[= -> ->]|Hin]%elem_of_cons; cbn; auto. }
  apply (epochInv_heap c0 _ _ _ _ _ _ Hh).
  cbn [heap set_minted set_heap]. intros q s' [[<- <-]|[Hn Hq]]%lookup_insert_Some; right; eauto.
Qed.

Lemma epochs_retry c0 u wr p w : epochs c0 w -> epochs c0 (afterTouch None u wr p w).
Proof.
  intros Hi. cbn [afterTouch]. destruct (heap w !! p) as [s|]; [|done].
  destruct (tokenSent s); auto using epochs_issue.
Qed.

(** Signing after the claim [t] of session [p] landed. *)
Lemma epochs_signed c0 u wr t p s w : epochs c0 w -> heap w !! p = Some s ->
  (t, sHostID s, Some p) ∈ claimLog w ->
  epochs c0 (issueSessionToken u wr p (set_heap (SetEpoch t p (heap w)) w)).
Proof.
  intros Hi Hp Hin. apply epochs_issue. destruct Hi as [H1 H2 H3 H4 H5 H6]. split; try done.
  intros q s' (s0 & Hs & _ & Hh & _ & He)%lookup_SetEpoch Hne. rewrite He in *. rewrite Hh.
  destruct (decide (q = p)) as [->|]; [|exact (H5 _ _ Hs Hne)].
  rewrite Hp in Hs. by injection Hs as <-.
Qed.

Lemma epochs_touch1 c0 o now skew sess w again w' :
  epochs c0 w -> touch1 o now skew sess w = (again, w') -> epochs c0 w' /\ heap w' = heap w /\ claimLog w' = claimLog w.
Proof.
  intros Hi. unfold touch1, storeTouch.
  destruct o; cbn; intros [= <- <-]; split_and!; try done;
    destruct (rows (db w) !! sHostID sess) as [r|] eqn:E; try done;
    destruct (ownsOnline r (instanceID (reg w))); try done;
    by eapply epochInv_insert.
Qed.

Lemma epochs_MarkOffline c0 o now w h inst :
  epochs c0 w -> epochs c0 (set_db (snd (MarkOffline o now (db w) h inst)) w).
Proof.
  intros Hi. unfold MarkOffline. destruct o; [| done |];
    destruct (rows (db w) !! h) as [r|] eqn:E; try done;
    destruct ((InstanceID r =s inst) && negb (Status r =s "offline")); try done;
    by eapply epochInv_insert.
Qed.

Lemma guardpc_Some w p c s : guardpc w p c = Some s <-> pcs w !! p = Some c /\ heap w !! p = Some s.
Proof. unfold guardpc. destruct (decide (pcs w !! p = Some c)); naive_solver. Qed.

Ltac exec_inv H :=
  cbn [exec] in H;
  repeat match type of H with
  | (guardpc _ _ _ ≫= _) = Some _ =>
      let s := fresh "s" in let Hs := fresh "Hs" in let Hg := fresh "Hg" in
      apply bind_Some in H; destruct H as (s & Hg & H); apply guardpc_Some in Hg; destruct Hg as [Hg Hs]
  | (if ?b then _ else _) = Some _ => let Hb := fresh "Hb" in destruct b eqn:Hb; [|discriminate H]
  | (let '(_, _) := ?x in _) = Some _ => let Hx := fresh "Hx" in destruct x as [? ?] eqn:Hx
  end.

Lemma epochs_exec c0 w e w' : epochs c0 w -> exec w e = Some w' -> epochs c0 w'.
Proof.
  intros Hi He. destruct e as [p a h v|p|p o now skew u wr|p o now skew u wr|p o now skew u wr|p u wr|p|p o now|h|now h i v k|now h|h|h a tv now];
    exec_inv He.
  - injection He as <-. apply (epochInv_heap c0 (heap w)); [exact Hi|].
    cbn [heap set_pc set_heap]. intros q s' [[<- <-]|[_ Hq]]%lookup_insert_Some; eauto.
  - injection He as <-. unfold add1. destruct (addSwap _ _ _ _) as [r [q|]]; [by apply epochs_stop|done].
  - injection He as <-. unfold add2 in Hx. destruct (claim _ _ _ _ _ _) as [res w1] eqn:Hc. injection Hx as <- <-.
    apply Z.ltb_lt in Hb. destruct (epochs_claim _ _ _ _ _ _ _ _ _ Hi Hb Hc) as (Hi' & Hh & Hin).
    destruct res as [t|]; [|exact Hi'].
    apply (epochs_signed c0 u wr t p s (set_locks _ w1)); [exact Hi'|by cbn; rewrite Hh|by apply Hin].
  - destruct b; injection He as <-; destruct (epochs_touch1 _ _ _ _ _ _ _ _ Hi Hx) as (Hi' & Hh & _); [done|].
    by apply epochs_retry.
  - injection He as <-. unfold touch2 in Hx. destruct (claim _ _ _ _ _ _) as [res w1] eqn:Hc.
    apply Z.ltb_lt in Hb. destruct (epochs_claim _ _ _ _ _ _ _ _ _ Hi Hb Hc) as (Hi' & Hh & Hin).
    destruct res as [t|[]]; injection Hx as <- <-.
    + apply (epochs_signed c0 u wr t p s w1); [exact Hi'|by rewrite Hh|by apply Hin].
    + by apply epochs_retry, epochs_stop.
    + by apply epochs_retry.
  - destruct (pcs w !! p) as [[]|]; (discriminate He || injection He as <-); by apply epochs_issue.
  - injection He as <-. unfold remove1 in Hx. case_decide; by injection Hx as <- <-.
  - injection He as <-. by apply epochs_MarkOffline.
  - injection He as <-. unfold Evict. destruct (byHost (reg w) !! h); [by apply epochs_stop|done].
  - destruct a. injection He as <-. unfold MarkOnline, logClaim.
    destruct (rows (db w) !! h) as [r|] eqn:E.
    + rewrite decide_True by done. by apply epochInv_claim with (clk := clock w).
    + rewrite decide_False by (by intros [? ?]). destruct Hi as [H1 H2 H3 H4 H5 H6].
      split; try done; cbn; [|lia]. intros t0 k0 x Hin. apply H1 in Hin. lia.
  - destruct (rows (db w) !! h) as [r|] eqn:E; [|done]. injection He as <-. by eapply epochInv_insert.
  - injection He as <-. apply (epochInv_rows c0 (heap w) (rows (db w))); [exact Hi|].
    cbn. intros k r' [_ Hk]%lookup_delete_Some. eauto.
  - destruct (rows (db w) !! h) as [r|] eqn:E; [done|]. injection He as <-.
    apply (epochInv_rows c0 (heap w) (rows (db w))); [exact Hi|].
    cbn. intros k r' [[<- <-]|[_ Hk]]%lookup_insert_Some; eauto.
Qed.

Lemma epochs_run c0 es w w' : epochs c0 w -> run w es = Some w' -> epochs c0 w'.
Proof.
  revert w. induction es as [|e es IH]; intros w Hi H; cbn in H.
  - by injection H as <-.
  - apply bind_Some in H as (w1 & He & H). eauto using epochs_exec.
Qed.

(** *** The two maps *)

Definition isOpen (c : pc) : bool := match c with PSwapped | POpen | PReclaim => true | _ => false end.

(** Sessions keep their identity and stay stopped. *)
Definition heapStep (h h' : gmap nat Session) : Prop := forall p,
  match h !! p, h' !! p with
  | Some s, Some s' =>
      sAgentID s' = sAgentID s /\ sHostID s' = sHostID s /\ (stopped s = true -> stopped s' = true)
  | None, None => True
  | _, _ => False
  end.

#[global] Instance heapStep_preorder : PreOrder heapStep.
Proof.
  split.
  - intros h p. by destruct (h !! p).
  - intros h1 h2 h3 H12 H23 p. specialize (H12 p). specialize (H23 p).
    destruct (h1 !! p), (h2 !! p), (h3 !! p); try done.
    destruct H12 as (? & ? & ?), H23 as (? & ? & ?). split_and!; [congruence..|auto].
Qed.

Lemma heapStep_alter f p h :
  (forall s, sAgentID (f s) = sAgentID s /\ sHostID (f s) = sHostID s /\ (stopped s = true -> stopped (f s) = true)) ->
  heapStep h (alter f p h).
Proof.
  intros Hf q. destruct (decide (p = q)) as [->|].
  - rewrite lookup_alter_eq. destruct (h !! q); cbn; auto.
  - rewrite lookup_alter_ne by done. by destruct (h !! q).
Qed.

Lemma heapStep_stop p h : heapStep h (stop p h).
Proof. by apply heapStep_alter. Qed.

Lemma heapStep_SetEpoch t p h : heapStep h (SetEpoch t p h).
Proof. by apply heapStep_alter. Qed.

Lemma heapStep_issue u wr p w : heapStep (heap w) (heap (issueSessionToken u wr p w)).
Proof.
  unfold issueSessionToken. destruct (heap w !! p) as [s|] eqn:E; [|done].
  destruct (epoch s =? 0); [done|]. cbn. intros q. destruct (decide (p = q)) as [<-|].
  - by rewrite E, lookup_insert_eq.
  - rewrite lookup_insert_ne by done. by destruct (heap w !! q).
Qed.

Lemma heapStep_retry u wr p w : heapStep (heap w) (heap (afterTouch None u wr p w)).
Proof.
  cbn. destruct (heap w !! p) as [s|]; [|done]. destruct (tokenSent s); [done | apply heapStep_issue].
Qed.

Lemma heapStep_signed t u wr p w : heapStep (heap w)
  (heap (issueSessionToken u wr p (set_heap (SetEpoch t p (heap w)) w))).
Proof. etrans; [apply heapStep_SetEpoch|]. apply (heapStep_issue u wr p (set_heap _ w)). Qed.

#[global] Hint Resolve heapStep_stop heapStep_SetEpoch heapStep_issue heapStep_retry heapStep_signed : vraxel.

Lemma heapStep_fwd h h' p s : heapStep h h' -> h !! p = Some s ->
  exists s', h' !! p = Some s' /\ sAgentID s' = sAgentID s /\ sHostID s' = sHostID s
    /\ (stopped s = true -> stopped s' = true).
Proof. intros H Hp. specialize (H p). rewrite Hp in H. destruct (h' !! p); [eauto|done]. Qed.

Lemma heapStep_bwd h h' p s' : heapStep h h' -> h' !! p = Some s' ->
  exists s, h !! p = Some s /\ sAgentID s' = sAgentID s /\ sHostID s' = sHostID s
    /\ (stopped s' = false -> stopped s = false).
Proof.
  intros H Hp. specialize (H p). rewrite Hp in H. destruct (h !! p) as [s|]; [|done].
  destruct H as (H1 & H2 & H3). exists s. split_and!; try done.
  intros Hs. destruct (stopped s); [|done]. by rewrite H3 in Hs.
Qed.

Record regInv (h : gmap nat Session) (r : Registry) (m : gmap nat pc) : Prop := {
  ri_agent : forall a p, byAgent r !! a = Some p -> exists s, h !! p = Some s /\ sAgentID s = a;
  ri_host : forall k p, byHost r !! k = Some p ->
    exists s, h !! p = Some s /\ sHostID s = k /\ byAgent r !! sAgentID s = Some p;
  ri_open : forall p c s, m !! p = Some c -> isOpen c = true -> h !! p = Some s -> stopped s = false ->
    byAgent r !! sAgentID s = Some p
}.

Definition consistent (w : world) : Prop := regInv (heap w) (reg w) (pcs w).

Lemma regInv_step h h' r m m' :
  regInv h r m -> heapStep h h' ->
  (forall q c, m' !! q = Some c -> isOpen c = true -> exists c', m !! q = Some c' /\ isOpen c' = true) ->
  regInv h' r m'.
Proof.
  intros [H1 H2 H3] Hh Hm. split.
  - intros a p Hp. destruct (H1 a p Hp) as (s & Hs & <-).
    destruct (heapStep_fwd _ _ _ _ Hh Hs) as (s' & ? & ? & _). eauto.
  - intros k p Hp. destruct (H2 k p Hp) as (s & Hs & <- & Hb).
    destruct (heapStep_fwd _ _ _ _ Hh Hs) as (s' & ? & Ha & ? & _). exists s'. by rewrite Ha.
  - intros p c s' Hc Ho Hp Hst. destruct (Hm p c Hc Ho) as (c' & Hc' & Ho').
    destruct (heapStep_bwd _ _ _ _ Hh Hp) as (s & Hs & -> & _ & Hf). eauto.
Qed.

(** A pc moved between two open states, or to a closed one. *)
Lemma pcs_moved (m : gmap nat pc) p c c' : m !! p = Some c -> (isOpen c' = true -> isOpen c = true) ->
  forall q x, <[p := c']> m !! q = Some x -> isOpen x = true -> exists y, m !! q = Some y /\ isOpen y = true.
Proof.
  intros Hp Hc q x [[<- <-]|[_ Hq]]%lookup_insert_Some Hx; eauto.
Qed.

Lemma consistent_add1 p s w :
  consistent w -> pcs w !! p = Some PNew -> heap w !! p = Some s ->
  consistent (set_pc p PSwapped (add1 p s w)).
Proof.
  intros [H1 H2 H3] Hpc Hs. unfold add1, addSwap.
  set (prev := byAgent (reg w) !! sAgentID s).
  set (h := match prev with Some q => stop q (heap w) | None => heap w end).
  assert (Hh : heapStep (heap w) h) by (unfold h; destruct prev; auto with vraxel; done).
  destruct (heapStep_fwd _ _ _ _ Hh Hs) as (s1 & Hs1 & Ha1 & Hh1 & _).
  split; cbn [reg byAgent byHost heap pcs set_pc set_locks set_reg set_heap].
  - intros a q [[<- <-]|[Hn Hq]]%lookup_insert_Some; [eauto|].
    destruct (H1 a q Hq) as (s' & Hq' & <-).
    destruct (heapStep_fwd _ _ _ _ Hh Hq') as (s2 & ? & ? & _). eauto.
  - intros k q [[<- <-]|[Hn Hq]]%lookup_insert_Some.
    { exists s1. split_and!; [done|done|]. rewrite Ha1. apply lookup_insert_eq. }
    assert (Hq1 : byHost (reg w) !! k = Some q /\ prev <> Some q).
    { unfold prev in *. destruct (byAgent (reg w) !! sAgentID s) as [q'|] eqn:E; [|by split].
      destruct (H1 _ _ E) as (o & Ho & Hoa). rewrite Ho in Hq.
      destruct (Z.eqb_spec (sHostID o) (sHostID s)) as [He|].
      - split; [done|]. intros [= ->]. destruct (H2 k q Hq) as (s' & Hs' & <- & _). congruence.
      - apply lookup_delete_Some in Hq as [Hk Hq]. split; [done|]. intros [= ->].
        destruct (H2 k q Hq) as (s' & Hs' & Hk' & _). congruence. }
    destruct Hq1 as [Hb Hp]. destruct (H2 k q Hb) as (s' & Hs' & <- & Hba).
    destruct (heapStep_fwd _ _ _ _ Hh Hs') as (s2 & ? & Ha2 & ? & _). exists s2. split_and!; [done|done|].
    rewrite Ha2, lookup_insert_ne; [done|]. intros Heq. apply Hp. unfold prev. by rewrite Heq.
  - intros q c s' Hc Ho Hq Hst. destruct (heapStep_bwd _ _ _ _ Hh Hq) as (s2 & Hs2 & Ha2 & _ & Hf).
    apply lookup_insert_Some in Hc as [[<- <-]|[Hn Hc]].
    { rewrite Ha2. assert (s2 = s) as -> by congruence. apply lookup_insert_eq. }
    pose proof (H3 q c s2 Hc Ho Hs2 (Hf Hst)) as Hb. rewrite Ha2.
    rewrite lookup_insert_ne; [done|]. intros Heq.
    assert (Hprev : prev = Some q) by (unfold prev; by rewrite Heq).
    unfold h in Hq. rewrite Hprev in Hq. apply lookup_stop in Hq as (s3 & _ & _ & _ & _ & Hst').
    rewrite decide_True in Hst' by done. congruence.
Qed.

Lemma consistent_remove1 p s w current w' :
  consistent w -> pcs w !! p = Some POpen -> heap w !! p = Some s -> remove1 p s w = (current, w') ->
  consistent (set_pc p (if current then PRemoving else PDone) w').
Proof.
  intros Hi Hpc Hs. unfold remove1. case_decide as Hcur; intros [= <- <-].
  2:{ eapply regInv_step; [exact Hi|done|]. by eapply pcs_moved. }
  destruct Hi as [H1 H2 H3].
  split; cbn [reg byAgent byHost heap pcs set_pc set_locks set_reg].
  - intros a q [_ Hq]%lookup_delete_Some. eauto.
  - intros k q Hq.
    assert (Hq' : byHost (reg w) !! k = Some q /\ q <> p).
    { case_decide as Hb.
      - apply lookup_delete_Some in Hq as [Hk Hq]. split; [done|]. intros ->.
        destruct (H2 k p Hq) as (s' & Hs' & Hk' & _). congruence.
      - split; [done|]. intros ->. destruct (H2 k p Hq) as (s' & Hs' & <- & _). congruence. }
    destruct Hq' as [Hb Hne]. destruct (H2 k q Hb) as (s' & Hs' & <- & Hba).
    exists s'. split_and!; [done|done|]. rewrite lookup_delete_ne; [done|].
    intros Heq. rewrite <- Heq in Hba. congruence.
  - intros q c s' [[<- <-]|[Hn Hc]]%lookup_insert_Some Ho Hq Hst; [done|].
    pose proof (H3 q c s' Hc Ho Hq Hst) as Hb. rewrite lookup_delete_ne; [done|].
    intros Heq. rewrite <- Heq in Hb. congruence.
Qed.

Lemma claim_frame o now skew p s w res w' : claim o now skew p s w = (res, w') ->
  heap w' = heap w /\ reg w' = reg w /\ pcs w' = pcs w /\ locks w' = locks w.
Proof.
  unfold claim. destruct (MarkOnline _ _ _ _ _ _ _). intros [= <- <-]. unfold logClaim.
  destruct o; cbn; try done; by case_decide.
Qed.

Lemma touch1_frame o now skew s w again w' : touch1 o now skew s w = (again, w') ->
  heap w' = heap w /\ reg w' = reg w /\ pcs w' = pcs w /\ locks w' = locks w.
Proof. unfold touch1. destruct (storeTouch _ _ _ _ _ _). by intros [= <- <-]. Qed.

Lemma issue_frame u wr p w :
  reg (issueSessionToken u wr p w) = reg w /\ pcs (issueSessionToken u wr p w) = pcs w
  /\ db (issueSessionToken u wr p w) = db w /\ locks (issueSessionToken u wr p w) = locks w.
Proof. unfold issueSessionToken. destruct (heap w !! p) as [s|]; [|done]. by destruct (epoch s =? 0). Qed.

Lemma afterTouch_frame t u wr p w :
  heapStep (heap w) (heap (afterTouch t u wr p w)) /\
  reg (afterTouch t u wr p w) = reg w /\ pcs (afterTouch t u wr p w) = pcs w
  /\ db (afterTouch t u wr p w) = db w /\ locks (afterTouch t u wr p w) = locks w.
Proof.
  destruct t as [t|]; cbn [afterTouch].
  - split; [apply heapStep_signed | apply (issue_frame u wr p (set_heap _ w))].
  - split; [apply (heapStep_retry u wr p)|].
    destruct (heap w !! p) as [s|]; [|done]. destruct (tokenSent s); [done | apply issue_frame].
Qed.

Lemma afterAdd_frame t u wr p w :
  heapStep (heap w) (heap (afterAdd t u wr p w)) /\
  reg (afterAdd t u wr p w) = reg w /\ pcs (afterAdd t u wr p w) = pcs w
  /\ db (afterAdd t u wr p w) = db w /\ locks (afterAdd t u wr p w) = locks w.
Proof.
  destruct t as [t|]; cbn [afterAdd]; [|done].
  split; [apply heapStep_signed | apply (issue_frame u wr p (set_heap _ w))].
Qed.

Lemma touch2_frame o now skew p s w t w' : touch2 o now skew p s w = (t, w') ->
  heapStep (heap w) (heap w') /\ reg w' = reg w /\ pcs w' = pcs w /\ locks w' = locks w.
Proof.
  unfold touch2. destruct (claim _ _ _ _ _ _) as [res w1] eqn:Hc.
  apply claim_frame in Hc as (Hh & Hr & Hp & Hl).
  destruct res as [t'|[]]; intros [= <- <-]; cbn; rewrite Hh; auto using heapStep_stop; done.
Qed.

(** A step that only moves the pc of [p] and touches the heap benignly. *)
Lemma consistent_step w w' p c c' :
  consistent w -> heapStep (heap w) (heap w') -> reg w' = reg w -> pcs w' = <[p := c']> (pcs w) ->
  pcs w !! p = Some c -> (isOpen c' = true -> isOpen c = true) -> consistent w'.
Proof.
  intros Hi Hh Hr Hp Hpc Ho. unfold consistent. rewrite Hr, Hp.
  eapply regInv_step; [exact Hi | exact Hh | by eapply pcs_moved].
Qed.

Lemma consistent_heap w w' :
  consistent w -> heapStep (heap w) (heap w') -> reg w' = reg w -> pcs w' = pcs w -> consistent w'.
Proof.
  intros Hi Hh Hr Hp. unfold consistent. rewrite Hr, Hp.
  eapply regInv_step; [exact Hi | exact Hh | eauto].
Qed.

Lemma consistent_exec w e w' : consistent w -> exec w e = Some w' -> consistent w'.
Proof.
  intros Hi He. destruct e as [p a h v|p|p o now skew u wr|p o now skew u wr|p o now skew u wr|p u wr|p|p o now|h|now h i v k|now h|h|h a tv now];
    exec_inv He.
  - destruct a0 as [Hn Hpn]. injection He as <-. destruct Hi as [H1 H2 H3].
    assert (Hne : forall q s', heap w !! q = Some s' -> q <> p) by (intros q s' Hq ->; congruence).
    split; cbn [heap reg pcs set_pc set_heap].
    + intros b q Hq. destruct (H1 b q Hq) as (s & Hs & ?). exists s. by rewrite lookup_insert_ne by (symmetry; eauto).
    + intros k q Hq. destruct (H2 k q Hq) as (s & Hs & ? & ?). exists s. by rewrite lookup_insert_ne by (symmetry; eauto).
    + intros q c s [[<- <-]|[Hq Hc]]%lookup_insert_Some Ho Hs; [done|]. rewrite lookup_insert_ne in Hs by done. eauto.
  - injection He as <-. by apply consistent_add1.
  - injection He as <-. unfold add2 in Hx. destruct (claim _ _ _ _ _ _) as [res w1] eqn:Hc. injection Hx as <- <-.
    apply claim_frame in Hc as (Hh & Hr & Hp & _).
    destruct (afterAdd_frame (match res with Ok t => Some t | Err _ => None end) u wr p
      (set_locks (delete (sAgentID s) (locks w1)) w1)) as (Ah & Ar & Ap & _).
    eapply consistent_step with (p := p) (c := PSwapped) (c' := POpen); cbn; try done.
    + by rewrite <- Hh.
    + by rewrite Ar.
    + by rewrite Ap, <- Hp.
  - apply touch1_frame in Hx as (Hh & Hr & Hp & _). destruct b; injection He as <-.
    + eapply consistent_step with (p := p) (c := POpen) (c' := PReclaim); cbn; try done; [by rewrite Hh|by rewrite Hp].
    + destruct (afterTouch_frame None u wr p w0) as (Ah & Ar & Ap & _).
      apply (consistent_heap w); [done|by rewrite <- Hh|exact (eq_trans Ar Hr)|exact (eq_trans Ap Hp)].
  - injection He as <-. apply touch2_frame in Hx as (Hh & Hr & Hp & _).
    destruct (afterTouch_frame o0 u wr p w0) as (Ah & Ar & Ap & _).
    eapply consistent_step with (p := p) (c := PReclaim) (c' := POpen); cbn; try done.
    + by etrans.
    + by rewrite Ar.
    + by rewrite Ap, Hp.
  - destruct (issue_frame u wr p w) as (Ar & Ap & _).
    destruct (pcs w !! p) as [[]|] eqn:E; (discriminate He || injection He as <-);
      (apply (consistent_heap w); [done|apply heapStep_issue|done|done]).
  - injection He as <-. by eapply consistent_remove1.
  - injection He as <-. by eapply consistent_step with (p := p) (c := PRemoving) (c' := PDone).
  - injection He as <-. unfold Evict. destruct (byHost (reg w) !! h); [|done].
    apply (consistent_heap w); [done|apply heapStep_stop|done|done].
  - injection He as <-. clear Hb. unfold logClaim. destruct (decide _); exact Hi.
  - destruct (rows (db w) !! h); [|done]. injection He as <-. exact Hi.
  - injection He as <-. exact Hi.
  - destruct (rows (db w) !! h); [done|]. injection He as <-. exact Hi.
Qed.

Lemma consistent_run es w w' : consistent w -> run w es = Some w' -> consistent w'.
Proof.
  revert w. induction es as [|e es IH]; intros w Hi H; cbn in H.
  - by injection H as <-.
  - apply bind_Some in H as (w1 & He & H). eauto using consistent_exec.
Qed.

(** *** Quiet runs: the row follows the channel *)

(** Nothing about the sessions changed but token bookkeeping and stops. *)
Definition heapSame (h h' : gmap nat Session) : Prop := forall q s', h' !! q = Some s' ->
  exists s, h !! q = Some s /\ sAgentID s' = sAgentID s /\ sHostID s' = sHostID s /\ epoch s' = epoch s
    /\ (stopped s' = false -> stopped s = false).

Lemma heapSame_refl h : heapSame h h.
Proof. intros q s' Hq. by exists s'. Qed.

Lemma heapSame_stop p h : heapSame h (stop p h).
Proof.
  intros q s' (s & Hs & ? & ? & ? & Hst)%lookup_stop. exists s. split_and!; try done.
  rewrite Hst. by case_decide.
Qed.

Lemma heapSame_issue u wr p w : heapSame (heap w) (heap (issueSessionToken u wr p w)).
Proof.
  unfold issueSessionToken. destruct (heap w !! p) as [s|] eqn:E; [|apply heapSame_refl].
  destruct (epoch s =? 0); [apply heapSame_refl|].
  cbn. intros q s' [[<- <-]|[Hn Hq]]%lookup_insert_Some; eauto 10.
Qed.

Lemma heapSame_retry u wr p w : heapSame (heap w) (heap (afterTouch None u wr p w)).
Proof.
  cbn. destruct (heap w !! p) as [s|]; [|apply heapSame_refl].
  destruct (tokenSent s); [apply heapSame_refl | apply heapSame_issue].
Qed.

Section Quiet.
(** Every agent belongs to one host and every host to one agent. *)
Context (hostOf : string -> Z).
Hypothesis hostOf_inj : forall a b, hostOf a = hostOf b -> a = b.

(** No database faults (a cancelled context fails its calls), no other
    instance, no deletion: only this instance's own interleavings. *)
Definition quiet (w : world) (e : event) : Prop :=
  match e with
  | EConnect p a h v => h = hostOf a /\ is_Some (rows (db w) !! h)
  | EAdd2 p o _ _ _ _ | EBeat p o _ _ _ _ | EReclaim p o _ _ _ _ =>
      forall s, heap w !! p = Some s -> o = if stopped s then DbFail else DbOk
  | EOther _ _ _ _ _ | EOffline _ _ | EDelete _ => False
  | _ => True
  end.

Fixpoint quietRun (w : world) (es : list event) : Prop :=
  match es with
  | [] => True
  | e :: es' => quiet w e /\ forall w1, exec w e = Some w1 -> quietRun w1 es'
  end.

(** The row of an open, running session. *)
Definition rowOf (inst : string) (tbl : gmap Z AgentRow) (s : Session) : Prop :=
  exists r, tbl !! sHostID s = Some r /\ ownsOnline r inst = true /\ ConnectedAt r = Some (epoch s).

Definition locking (c : pc) : bool := match c with PSwapped | PRemoving => true | _ => false end.

Record syncInv (h : gmap nat Session) (r : Registry) (m : gmap nat pc) (lk : gmap string nat)
    (tbl : gmap Z AgentRow) : Prop := {
  sy_ids : forall p s, h !! p = Some s -> sHostID s = hostOf (sAgentID s) /\ is_Some (tbl !! sHostID s);
  sy_row : forall p s, h !! p = Some s -> m !! p = Some POpen -> stopped s = false -> rowOf (instanceID r) tbl s;
  sy_lock : forall p c s, m !! p = Some c -> locking c = true -> h !! p = Some s -> lk !! sAgentID s = Some p;
  sy_swapped : forall p s, m !! p = Some PSwapped -> h !! p = Some s -> byAgent r !! sAgentID s = Some p;
  sy_removing : forall p s, m !! p = Some PRemoving -> h !! p = Some s -> byAgent r !! sAgentID s = None;
  sy_reclaim : forall p, m !! p <> Some PReclaim
}.

Definition synced (w : world) : Prop := syncInv (heap w) (reg w) (pcs w) (locks w) (rows (db w)).

Lemma syncInv_heap h h' r m lk tbl : syncInv h r m lk tbl -> heapSame h h' -> syncInv h' r m lk tbl.
Proof.
  intros [H1 H2 H3 H4 H5 H6] Hs. split; [| | | | |exact H6].
  - intros p s' (s & Hp & -> & -> & _)%Hs. eauto.
  - intros p s' (s & Hp & Ha & Hh & He & Hst)%Hs Hm Hf. unfold rowOf. rewrite Hh, He. exact (H2 _ _ Hp Hm (Hst Hf)).
  - intros p c s' Hm Hc (s & Hp & -> & _)%Hs. eauto.
  - intros p s' Hm (s & Hp & -> & _)%Hs. eauto.
  - intros p s' Hm (s & Hp & -> & _)%Hs. eauto.
Qed.

(** Table writes that keep every running session's row. *)
Lemma syncInv_rows h r m lk tbl tbl' : syncInv h r m lk tbl ->
  (forall k, is_Some (tbl !! k) -> is_Some (tbl' !! k)) ->
  (forall p s, h !! p = Some s -> m !! p = Some POpen -> stopped s = false ->
     rowOf (instanceID r) tbl s -> rowOf (instanceID r) tbl' s) ->
  syncInv h r m lk tbl'.
Proof.
  intros [H1 H2 H3 H4 H5 H6] Hk Hr. split; [|eauto|done..].
  intros p s Hp. destruct (H1 p s Hp). eauto.
Qed.

(** A pc that leaves the locking states, or stays outside them. *)
Lemma syncInv_pc h r m lk tbl p c : syncInv h r m lk tbl -> locking c = false -> c <> PReclaim ->
  (c = POpen -> forall s, h !! p = Some s -> stopped s = false -> rowOf (instanceID r) tbl s) ->
  syncInv h r (<[p := c]> m) lk tbl.
Proof.
  intros [H1 H2 H3 H4 H5 H6] Hc Hn Hr. split; [exact H1| | | | |].
  - intros q s Hq [[<- ->]|[_ Hm]]%lookup_insert_Some Hst; eauto.
  - intros q c' s [[<- <-]|[_ Hm]]%lookup_insert_Some Hl Hq; [congruence|eauto].
  - intros q s [[<- ->]|[_ Hm]]%lookup_insert_Some Hq; [done|eauto].
  - intros q s [[<- ->]|[_ Hm]]%lookup_insert_Some Hq; [done|eauto].
  - intros q [[_ ?]|[_ Hm]]%lookup_insert_Some; [done|by eapply H6].
Qed.

(** Releasing the lock of an agent whose holder no longer needs it. *)
Lemma syncInv_unlock h r m lk tbl p s : syncInv h r m lk tbl -> h !! p = Some s -> lk !! sAgentID s = Some p ->
  (forall c, m !! p = Some c -> locking c = false) -> syncInv h r m (delete (sAgentID s) lk) tbl.
Proof.
  intros [H1 H2 H3 H4 H5 H6] Hp Hl Hc. split; try done.
  intros q c s' Hm Hlk Hq. pose proof (H3 q c s' Hm Hlk Hq) as Hq'.
  rewrite lookup_delete_ne; [done|]. intros Heq. rewrite <- Heq in Hq'.
  assert (q = p) as -> by congruence. by rewrite (Hc c Hm) in Hlk.
Qed.

(** The only running session of a host is its agent's current one. *)
Lemma running_current w p s q s' : consistent w -> synced w ->
  heap w !! p = Some s -> pcs w !! p = Some POpen -> stopped s = false ->
  heap w !! q = Some s' -> sHostID s' = sHostID s -> byAgent (reg w) !! sAgentID s' = Some p.
Proof using hostOf_inj.
  intros Hc Hs Hp Hm Hst Hq Hh. pose proof (ri_open _ _ _ Hc p POpen s Hm eq_refl Hp Hst) as Hb.
  destruct (sy_ids _ _ _ _ _ Hs p s Hp) as [E1 _]. destruct (sy_ids _ _ _ _ _ Hs q s' Hq) as [E2 _].
  assert (sAgentID s' = sAgentID s) as -> by (apply hostOf_inj; congruence). done.
Qed.

Lemma synced_connect w p a v : synced w -> heap w !! p = None -> pcs w !! p = None ->
  is_Some (rows (db w) !! hostOf a) ->
  synced (set_pc p PNew (set_heap (<[p := newSession a (hostOf a) v]> (heap w)) w)).
Proof.
  intros [H1 H2 H3 H4 H5 H6] Hp Hm Hrow. split; cbn [heap pcs reg locks db set_pc set_heap].
  - intros q s [[<- <-]|[_ Hq]]%lookup_insert_Some; [done|eauto].
  - intros q s Hq [[<- ?]|[Hn Hmq]]%lookup_insert_Some; [done|]. rewrite lookup_insert_ne in Hq by done. eauto.
  - intros q c s [[<- <-]|[Hn Hmq]]%lookup_insert_Some Hl Hq; [done|]. rewrite lookup_insert_ne in Hq by done. eauto.
  - intros q s [[<- ?]|[Hn Hmq]]%lookup_insert_Some Hq; [done|]. rewrite lookup_insert_ne in Hq by done. eauto.
  - intros q s [[<- ?]|[Hn Hmq]]%lookup_insert_Some Hq; [done|]. rewrite lookup_insert_ne in Hq by done. eauto.
  - intros q [[_ ?]|[_ Hmq]]%lookup_insert_Some; [done|by eapply H6].
Qed.

(** Taking the free lock of an agent changes nothing for other holders. *)
Lemma lock_other (lk : gmap string nat) (m : gmap nat pc) (h : gmap nat Session) a q c s' :
  (forall p c s, m !! p = Some c -> locking c = true -> h !! p = Some s -> lk !! sAgentID s = Some p) ->
  lk !! a = None -> m !! q = Some c -> locking c = true -> h !! q = Some s' -> a <> sAgentID s'.
Proof. intros H3 Hl Hm Hc Hq ->. rewrite (H3 q c s' Hm Hc Hq) in Hl. done. Qed.

Lemma synced_add1 p s w : synced w -> pcs w !! p = Some PNew -> heap w !! p = Some s ->
  locks w !! sAgentID s = None -> synced (set_pc p PSwapped (add1 p s w)).
Proof.
  intros Hs Hm Hp Hl. unfold add1. destruct (addSwap (heap w) (reg w) p s) as [r prev] eqn:E.
  assert (Hr : byAgent r = <[sAgentID s := p]> (byAgent (reg w)) /\ instanceID r = instanceID (reg w)).
  { unfold addSwap in E. injection E as <- <-. done. }
  destruct Hr as [Hr Hinst].
  set (h := match prev with Some q => stop q (heap w) | None => heap w end).
  assert (Hsame : heapSame (heap w) h) by (unfold h; destruct prev; [apply heapSame_stop | apply heapSame_refl]).
  apply (syncInv_heap (heap w)); [|exact Hsame].
  destruct Hs as [H1 H2 H3 H4 H5 H6].
  split; cbn [heap pcs reg locks db set_pc set_heap set_reg set_locks]; rewrite ?Hr, ?Hinst.
  - done.
  - intros q s' Hq [[_ ?]|[_ Hmq]]%lookup_insert_Some; [done|eauto].
  - intros q c s' [[<- <-]|[Hn Hmq]]%lookup_insert_Some Hlk Hq.
    + assert (s' = s) as -> by congruence. apply lookup_insert_eq.
    + rewrite lookup_insert_ne; [eauto|]. by eapply lock_other.
  - intros q s' [[<- _]|[Hn Hmq]]%lookup_insert_Some Hq.
    + assert (s' = s) as -> by congruence. apply lookup_insert_eq.
    + rewrite lookup_insert_ne; [eauto|]. by eapply lock_other.
  - intros q s' [[_ ?]|[Hn Hmq]]%lookup_insert_Some Hq; [done|].
    rewrite lookup_insert_ne; [eauto|]. by eapply lock_other.
  - intros q [[_ ?]|[_ Hmq]]%lookup_insert_Some; [done|by eapply H6].
Qed.

(** A claim by [p] for a host no other running session holds. *)
Lemma rowOf_other tbl inst k r' s : sHostID s <> k -> rowOf inst tbl s -> rowOf inst (<[k := r']> tbl) s.
Proof. intros Hn (r & Hr & Ho). exists r. by rewrite lookup_insert_ne. Qed.

Lemma MarkOnline_ok now d h inst v k r : rows d !! h = Some r ->
  exists r', MarkOnline DbOk now d h inst v k = (Ok now, notifyHost (setRow d h r') h)
    /\ ownsOnline r' inst = true /\ ConnectedAt r' = Some now.
Proof.
  intros Hr. unfold MarkOnline. rewrite Hr. eexists. split; [reflexivity|].
  unfold ownsOnline. cbn. by rewrite String.eqb_refl.
Qed.

Lemma synced_claimed w p s r' now : consistent w -> synced w -> pcs w !! p = Some PSwapped ->
  heap w !! p = Some s -> ownsOnline r' (instanceID (reg w)) = true -> ConnectedAt r' = Some now ->
  syncInv (SetEpoch now p (heap w)) (reg w) (<[p := POpen]> (pcs w)) (delete (sAgentID s) (locks w))
    (<[sHostID s := r']> (rows (db w))).
Proof using hostOf_inj.
  intros Hc Hs Hm Hp Ho Hr.
  assert (Hother : forall q s', heap w !! q = Some s' -> pcs w !! q = Some POpen -> stopped s' = false ->
            sHostID s' <> sHostID s).
  { intros q s' Hq Hmq Hst Heq. pose proof (running_current w q s' p s Hc Hs Hq Hmq Hst Hp (eq_sym Heq)) as Hb.
    rewrite (sy_swapped _ _ _ _ _ Hs p s Hm Hp) in Hb. injection Hb as ->. congruence. }
  destruct Hs as [H1 H2 H3 H4 H5 H6]. split.
  - intros q s' (s0 & Hq & Ha & Hh & _)%lookup_SetEpoch. rewrite Ha, Hh.
    destruct (H1 q s0 Hq) as [? Hrow]. split; [done|]. apply lookup_insert_is_Some'. auto.
  - intros q s' (s0 & Hq & Ha & Hh & Hst & He)%lookup_SetEpoch [[<- _]|[Hn Hmq]]%lookup_insert_Some Hf.
    + rewrite decide_True in He by done. exists r'.
      assert (s0 = s) as -> by congruence. rewrite Hh, lookup_insert_eq, He. done.
    + rewrite decide_False in He by done. rewrite Hst in Hf.
      unfold rowOf. rewrite Hh, He. apply rowOf_other; [by eapply Hother | by eapply H2].
  - intros q c s' [[<- <-]|[Hn Hmq]]%lookup_insert_Some Hlk (s0 & Hq & Ha & _)%lookup_SetEpoch; [done|].
    rewrite Ha. pose proof (H3 q c s0 Hmq Hlk Hq) as Hl.
    rewrite lookup_delete_ne; [done|]. intros Heq. rewrite <- Heq, (H3 p PSwapped s Hm eq_refl Hp) in Hl. congruence.
  - intros q s' [[_ ?]|[Hn Hmq]]%lookup_insert_Some (s0 & Hq & -> & _)%lookup_SetEpoch; [done|eauto].
  - intros q s' [[_ ?]|[Hn Hmq]]%lookup_insert_Some (s0 & Hq & -> & _)%lookup_SetEpoch; [done|eauto].
  - intros q [[_ ?]|[_ Hmq]]%lookup_insert_Some; [done|by eapply H6].
Qed.

Lemma synced_add2 w p s o now skew u wr t w1 : consistent w -> synced w -> pcs w !! p = Some PSwapped ->
  heap w !! p = Some s -> o = (if stopped s then DbFail else DbOk) -> add2 o now skew p s w = (t, w1) ->
  synced (set_pc p POpen (afterAdd t u wr p w1)).
Proof using hostOf_inj.
  intros Hc Hs Hm Hp -> Ha. unfold add2, claim in Ha. destruct (stopped s) eqn:Hst.
  - cbn in Ha. injection Ha as <- <-. cbn [afterAdd].
    apply (syncInv_unlock _ _ _ _ _ p); cbn [heap pcs reg locks db set_pc set_locks set_clock set_db].
    + apply syncInv_pc; [exact Hs|done|done|]. intros _ s' Hs' Hf. congruence.
    + done.
    + by apply (sy_lock _ _ _ _ _ Hs p PSwapped).
    + intros c Hc'. rewrite lookup_insert_eq in Hc'. by injection Hc' as <-.
  - destruct (proj2 (sy_ids _ _ _ _ _ Hs p s Hp)) as [r Hr].
    destruct (MarkOnline_ok now (db w) (sHostID s) (instanceID (reg w)) (sVersion s) skew r Hr) as (r' & E & Ho & Hca).
    rewrite E in Ha. injection Ha as <- <-. cbn [afterAdd logClaim].
    rewrite decide_True by (by eexists).
    match goal with |- synced (set_pc p POpen (issueSessionToken u wr p ?x)) =>
      destruct (issue_frame u wr p x) as (Ar & Ap & Ad & Al); pose proof (heapSame_issue u wr p x) as Hsame end.
    unfold synced. cbn [heap pcs reg locks db set_pc]. rewrite Ar, Ap, Ad, Al.
    exact (syncInv_heap _ _ _ _ _ _ (synced_claimed w p s r' now Hc Hs Hm Hp Ho Hca) Hsame).
Qed.

Lemma synced_retry u wr p w : synced w -> synced (afterTouch None u wr p w).
Proof.
  intros Hs. destruct (afterTouch_frame None u wr p w) as (_ & Ar & Ap & Ad & Al).
  unfold synced. rewrite Ar, Ap, Ad, Al. eapply syncInv_heap; [exact Hs | apply heapSame_retry].
Qed.

Lemma synced_issue u wr p w : synced w -> synced (issueSessionToken u wr p w).
Proof.
  intros Hs. destruct (issue_frame u wr p w) as (Ar & Ap & Ad & Al).
  unfold synced. rewrite Ar, Ap, Ad, Al. eapply syncInv_heap; [exact Hs | apply heapSame_issue].
Qed.

Lemma synced_beat w p s o now skew again w1 : synced w -> pcs w !! p = Some POpen -> heap w !! p = Some s ->
  o = (if stopped s then DbFail else DbOk) -> touch1 o now skew s w = (again, w1) ->
  again = false /\ synced w1.
Proof.
  intros Hs Hm Hp -> Ht. unfold touch1, storeTouch in Ht. destruct (stopped s) eqn:Hst.
  - injection Ht as <- <-. done.
  - destruct (sy_row _ _ _ _ _ Hs p s Hp Hm Hst) as (r & Hr & Ho & Hca).
    rewrite Hr, Ho in Ht. injection Ht as <- <-. split; [done|].
    apply (syncInv_rows _ _ _ _ (rows (db w))); [exact Hs| |]; cbn.
    + intros k Hk. apply lookup_insert_is_Some'. auto.
    + intros q s' Hq Hmq Hf (r0 & Hr0 & Ho0 & Hc0). unfold rowOf.
      destruct (decide (sHostID s' = sHostID s)) as [Heq|].
      * rewrite Heq, lookup_insert_eq. eexists. split; [reflexivity|]. rewrite Heq, Hr in Hr0.
        by injection Hr0 as <-.
      * rewrite lookup_insert_ne by done. eauto.
Qed.

Lemma synced_remove1 p s w current w1 : synced w -> pcs w !! p = Some POpen -> heap w !! p = Some s ->
  locks w !! sAgentID s = None -> remove1 p s w = (current, w1) ->
  synced (set_pc p (if current then PRemoving else PDone) w1).
Proof.
  intros Hs Hm Hp Hl Hx. unfold remove1 in Hx. case_decide as Hcur; injection Hx as <- <-.
  2:{ by apply syncInv_pc. }
  destruct Hs as [H1 H2 H3 H4 H5 H6].
  split; cbn [heap pcs reg locks db set_pc set_reg set_locks byAgent].
  - done.
  - intros q s' Hq [[_ ?]|[_ Hmq]]%lookup_insert_Some; [done|eauto].
  - intros q c s' [[<- <-]|[Hn Hmq]]%lookup_insert_Some Hlk Hq.
    + assert (s' = s) as -> by congruence. apply lookup_insert_eq.
    + rewrite lookup_insert_ne; [eauto|]. by eapply lock_other.
  - intros q s' [[_ ?]|[Hn Hmq]]%lookup_insert_Some Hq; [done|].
    rewrite lookup_delete_ne; [eauto|]. by eapply lock_other.
  - intros q s' [[<- _]|[Hn Hmq]]%lookup_insert_Some Hq.
    + assert (s' = s) as -> by congruence. apply lookup_delete_eq.
    + rewrite lookup_delete_ne; [eauto|]. by eapply lock_other.
  - intros q [[_ ?]|[_ Hmq]]%lookup_insert_Some; [done|by eapply H6].
Qed.

(** [MarkOffline] rewrites at most the row of its host. *)
Lemma MarkOffline_rows o now d h inst k : k <> h ->
  rows (snd (MarkOffline o now d h inst)) !! k = rows d !! k.
Proof.
  intros Hn. unfold MarkOffline. destruct o, (rows d !! h) as [r|]; cbn; try done;
    destruct ((InstanceID r =s inst) && negb (Status r =s "offline")); cbn; try done;
    by apply lookup_insert_ne.
Qed.

Lemma MarkOffline_keeps o now d h inst k : is_Some (rows d !! k) ->
  is_Some (rows (snd (MarkOffline o now d h inst)) !! k).
Proof.
  intros Hk. destruct (decide (k = h)) as [->|]; [|by rewrite MarkOffline_rows].
  unfold MarkOffline. destruct Hk as [r Hr]. rewrite Hr.
  destruct o; cbn; try (by eexists); destruct (_ && _); cbn; rewrite ?lookup_insert_eq, ?Hr; by eexists.
Qed.

Lemma synced_remove2 p s o now w : consistent w -> synced w -> pcs w !! p = Some PRemoving -> heap w !! p = Some s ->
  synced (set_pc p PDone (remove2 o now s w)).
Proof using hostOf_inj.
  intros Hc Hs Hm Hp. pose proof (sy_lock _ _ _ _ _ Hs p PRemoving s Hm eq_refl Hp) as Hl.
  apply (syncInv_unlock _ _ _ _ _ p); cbn [heap pcs reg locks db set_pc set_locks set_db remove2]; try done.
  2:{ intros c Hc'. rewrite lookup_insert_eq in Hc'. by injection Hc' as <-. }
  apply syncInv_pc; [|done..].
  apply (syncInv_rows _ _ _ _ (rows (db w))); [exact Hs | intros k; apply MarkOffline_keeps|].
  intros q s' Hq Hmq Hf (r & Hr & Ho). exists r. rewrite MarkOffline_rows; [done|].
  intros Heq. pose proof (running_current w q s' p s Hc Hs Hq Hmq Hf Hp (eq_sym Heq)) as Hb.
  by rewrite (sy_removing _ _ _ _ _ Hs p s Hm Hp) in Hb.
Qed.

Lemma synced_exec w e w' : consistent w -> synced w -> quiet w e -> exec w e = Some w' -> synced w'.
Proof using hostOf_inj.
  intros Hc Hs Hq He. destruct e as [p a h v|p|p o now skew u wr|p o now skew u wr|p o now skew u wr|p u wr|p|p o now|h|now h i v k|now h|h|h a tv now];
    cbn [quiet] in Hq; exec_inv He; try done.
  - destruct a0 as [Hn Hpn]. injection He as <-. destruct Hq as [-> Hr]. by apply synced_connect.
  - injection He as <-. apply bool_decide_eq_true in Hb. by apply synced_add1.
  - injection He as <-. by eapply (synced_add2 w p s o now skew u wr); [..|by apply Hq|exact Hx].
  - destruct (synced_beat w p s o now skew b w0 Hs Hg Hs0 (Hq s Hs0) Hx) as [-> Hs'].
    injection He as <-. by apply synced_retry.
  - by destruct (sy_reclaim _ _ _ _ _ Hs p).
  - destruct (pcs w !! p) as [[]|]; (discriminate He || injection He as <-); by apply synced_issue.
  - injection He as <-. apply bool_decide_eq_true in Hb. by eapply synced_remove1.
  - injection He as <-. by apply synced_remove2.
  - injection He as <-. unfold Evict. destruct (byHost (reg w) !! h); [|done].
    eapply syncInv_heap; [exact Hs | apply heapSame_stop].
  - destruct (rows (db w) !! h) as [r|] eqn:E; [done|]. injection He as <-.
    apply (syncInv_rows _ _ _ _ (rows (db w))); [exact Hs| |]; cbn.
    + intros k Hk. apply lookup_insert_is_Some'. auto.
    + intros q s' _ _ _ Hrow. apply rowOf_other; [|done]. destruct Hrow as (r & Hr & _). congruence.
Qed.

Lemma synced_run es w w' : consistent w -> synced w -> quietRun w es -> run w es = Some w' -> synced w'.
Proof using hostOf_inj.
  revert w. induction es as [|e es IH]; intros w Hc Hs Hq H; cbn in H.
  - by injection H as <-.
  - apply bind_Some in H as (w1 & He & H). destruct Hq as [Hq Hrest].
    eauto using synced_exec, consistent_exec.
Qed.

End Quiet.

Lemma consistent_boot inst c0 tbl : consistent (boot inst c0 tbl).
Proof. by split; cbn; intros *; rewrite lookup_empty. Qed.

Lemma epochs_boot inst c0 tbl :
  (forall k r e, tbl !! k = Some r -> ConnectedAt r = Some e -> e <= c0) -> epochs c0 (boot inst c0 tbl).
Proof.
  intros Ht. split; cbn; try (by intros * Hin; apply not_elem_of_nil in Hin); try lia; [eauto|].
  intros p s. by rewrite lookup_empty.
Qed.

Lemma synced_boot hostOf inst c0 tbl : synced hostOf (boot inst c0 tbl).
Proof. split; cbn; intros *; by rewrite lookup_empty. Qed.

(** ** Properties *)

(** Under every interleaving of connects, disconnects, heartbeats,
    evictions, database faults and writes of other instances, the
    registry stays consistent: what [Get], [GetByHost] and [Send] hand out
    for an agent or a host is a session of that agent or host and the
    current one of its agent, and every open channel is either that
    current one or has been told to stop. *)
Lemma registry_consistent inst c0 tbl es w :
  run (boot inst c0 tbl) es = Some w ->
  (forall a p, Get (reg w) a = Some p -> exists s, heap w !! p = Some s /\ sAgentID s = a) /\
  (forall k p, Send (instanceID (reg w)) (GetByHostID (db w)) (reg w) k = Ok p ->
     exists s, heap w !! p = Some s /\ sHostID s = k /\ Get (reg w) (sAgentID s) = Some p) /\
  (forall p s c, heap w !! p = Some s -> pcs w !! p = Some c -> c ∈ [PSwapped; POpen; PReclaim] ->
     stopped s = true \/ Get (reg w) (sAgentID s) = Some p).
Proof.
  intros Hr. destruct (consistent_run es _ _ (consistent_boot inst c0 tbl) Hr) as [H1 H2 H3].
  split_and!; [exact H1| |].
  - intros k p. unfold Send, GetByHost. destruct (byHost (reg w) !! k) as [q|] eqn:E; [|done].
    intros [= ->]. by apply H2.
  - intros p s c Hp Hc Hin. destruct (stopped s) eqn:Hst; [by left|]. right.
    apply (H3 p c s Hc); try done. rewrite !elem_of_cons, elem_of_nil in Hin.
    by destruct Hin as [->|[->|[->|[]]]].
Qed.

(** A session token is worth something only while its own connection
    holds the newest claim: in any interleaving, if a token this instance
    signed for session [p] still passes the row check of its host, then
    the newest claim on that host, by any instance, is [p]'s claim with
    the token's epoch. *)
Lemma token_dies_with_claim inst c0 tbl es w p c r :
  (forall k r e, tbl !! k = Some r -> ConnectedAt r = Some e -> e <= c0) ->
  run (boot inst c0 tbl) es = Some w ->
  (p, c) ∈ minted w -> GetByHostID (db w) (scHostID c) = Ok r -> sessionRowValid c r = true ->
  lastClaim (claimLog w) (scHostID c) = Some (scConnEpoch c, Some p).
Proof.
  intros Ht Hr Hin Hg Hv. unfold GetByHostID in Hg. destruct (rows (db w) !! scHostID c) as [r'|] eqn:E; [|done].
  injection Hg as ->. destruct (epochs_run c0 es _ _ (epochs_boot inst c0 tbl Ht) Hr) as [H1 H2 H3 H4 H5 H6].
  unfold sessionRowValid in Hv. destruct (Status r =s agentStatusOnline); [|done]. cbn [negb] in Hv.
  destruct (ConnectedAt r) as [t|] eqn:Hc; [|done]. apply Z.eqb_eq in Hv as ->.
  pose proof (H6 p c Hin) as Hlog. destruct (H4 _ _ _ E Hc) as [Hle|[x Hx]].
  - apply H1 in Hlog. lia.
  - rewrite Hx. do 2 f_equal. exact (proj2 (H2 _ _ _ _ _ (lastClaim_in _ _ _ _ Hx) Hlog)).
Qed.

(** C7: the per-agent lock keeps the row in step with the channel: with no
    database faults, no other instance writing, and agents and hosts in
    one-to-one correspondence, in every interleaving of connects,
    reconnects, late disconnects, evictions and heartbeats the row of
    every open, unstopped channel is online under this instance with the
    channel's own epoch, so a token signed for that epoch passes. *)
Theorem live_channel_row_in_step hostOf inst c0 tbl es w p s :
  (forall a b, hostOf a = hostOf b -> a = b) ->
  run (boot inst c0 tbl) es = Some w -> quietRun hostOf (boot inst c0 tbl) es ->
  heap w !! p = Some s -> pcs w !! p = Some POpen -> stopped s = false ->
  exists r, GetByHostID (db w) (sHostID s) = Ok r /\ ownsOnline r (instanceID (reg w)) = true
    /\ forall u, sessionRowValid (sessionClaims u (sHostID s) (instanceID (reg w)) (epoch s)) r = true.
Proof.
  intros Hinj Hr Hq Hp Hm Hst.
  pose proof (synced_run hostOf Hinj es _ _ (consistent_boot inst c0 tbl) (synced_boot hostOf inst c0 tbl) Hq Hr) as Hs.
  destruct (sy_row _ _ _ _ _ _ Hs p s Hp Hm Hst) as (r & Hrow & Ho & Hc). exists r.
  unfold GetByHostID. rewrite Hrow. split_and!; [done|done|]. intros u. unfold sessionRowValid.
  unfold ownsOnline in Ho. apply andb_true_iff in Ho as [_ ->]. cbn. rewrite Hc. apply Z.eqb_refl.
Qed.

(** C28: a heartbeat heals a drifted row: if the host's row exists and is
    not online under this instance (marked offline by a sweep, or claimed
    by a sibling), a beat with a working database re-claims it, moves the
    session to the new epoch and signs a token for it that passes the row
    check. *)
Theorem heartbeat_reclaims now skew u wr p s w r :
  heap w !! p = Some s -> GetByHostID (db w) (sHostID s) = Ok r -> ownsOnline r (instanceID (reg w)) = false ->
  now <> 0 ->
  let w' := touch DbOk DbOk now skew u wr p s w in
  exists s' r', heap w' !! p = Some s' /\ epoch s' = now /\ tokenSent s' = wr
    /\ GetByHostID (db w') (sHostID s) = Ok r' /\ ownsOnline r' (instanceID (reg w)) = true
    /\ head (minted w') = Some (p, sessionClaims u (sHostID s) (instanceID (reg w)) now)
    /\ sessionRowValid (sessionClaims u (sHostID s) (instanceID (reg w)) now) r' = true.
Proof.
  intros Hp Hg Ho Hnow. unfold GetByHostID in Hg. destruct (rows (db w) !! sHostID s) as [r0|] eqn:E; [|done].
  injection Hg as ->. unfold touch, Touch, touch1, storeTouch. rewrite E, Ho. cbn [fst snd].
  unfold touch2, claim. cbn [db set_db].
  destruct (MarkOnline_ok now (db w) (sHostID s) (instanceID (reg w)) (sVersion s) skew r E) as (r' & Em & Ho' & Hc').
  cbn [reg set_db]. rewrite Em. cbn [afterTouch logClaim db rows set_db]. rewrite decide_True by (by eexists).
  unfold issueSessionToken. cbn [heap reg set_heap set_clock set_db set_log].
  unfold SetEpoch. rewrite lookup_alter_eq, Hp. cbn [fmap option_fmap option_map epoch].
  replace (now =? 0) with false by (symmetry; by apply Z.eqb_neq).
  eexists _, r'. cbn [heap db set_minted set_heap set_clock set_db set_log minted].
  rewrite lookup_insert_eq. split_and!; try reflexivity; try done.
  - unfold GetByHostID. cbn. by rewrite lookup_insert_eq.
  - unfold sessionRowValid. unfold ownsOnline in Ho'. apply andb_true_iff in Ho' as [_ ->]. cbn.
    rewrite Hc'. apply Z.eqb_refl.
Qed.

(** ** Where the code does not heal *)

(** A heartbeat's arguments: outcomes, database time, skew, server time,
    whether the frame was written. *)
Definition beat : Type := dbOutcome * dbOutcome * Z * Z * Z * bool.

Definition beats (p : nat) (s : Session) (w : world) (l : list beat) : world :=
  foldl (fun w '(o1, o2, now, skew, u, wr) => touch o1 o2 now skew u wr p s w) w l.

Lemma touch_unclaimed o1 o2 now skew u wr p s w r :
  heap w !! p = Some s -> epoch s = 0 -> rows (db w) !! sHostID s = Some r ->
  ownsOnline r (instanceID (reg w)) = true ->
  let w' := touch o1 o2 now skew u wr p s w in
  heap w' !! p = Some s /\ minted w' = minted w /\ reg w' = reg w /\
  exists r', rows (db w') !! sHostID s = Some r' /\ ownsOnline r' (instanceID (reg w)) = true.
Proof.
  intros Hp He Hr Ho. unfold touch, Touch.
  assert (Ht : exists d, touch1 o1 now skew s w = (false, set_db d w) /\
            exists r', rows d !! sHostID s = Some r' /\ ownsOnline r' (instanceID (reg w)) = true).
  { unfold touch1, storeTouch. rewrite Hr, Ho. destruct o1; cbn; eexists; (split; [reflexivity|]);
      rewrite ?Hr; cbn; rewrite ?lookup_insert_eq; eauto. }
  destruct Ht as (d & -> & Hd). cbn [afterTouch heap set_db]. rewrite Hp.
  unfold issueSessionToken. cbn [heap set_db]. rewrite Hp, He. cbn.
  destruct (tokenSent s); cbn; eauto.
Qed.

(** If the claim of a reconnect fails while the row is still online under
    this instance (the superseded channel never marked it offline), no
    later heartbeat re-claims it and the live channel never gets a session
    token, however healthy the database is. *)
Lemma failed_claim_never_heals p s w r l :
  heap w !! p = Some s -> epoch s = 0 -> rows (db w) !! sHostID s = Some r ->
  ownsOnline r (instanceID (reg w)) = true ->
  heap (beats p s w l) !! p = Some s /\ minted (beats p s w l) = minted w.
Proof.
  revert w r. induction l as [|[[[[[o1 o2] now] skew] u] wr] l IH]; intros w r Hp He Hr Ho; [done|].
  cbn [beats foldl].
  destruct (touch_unclaimed o1 o2 now skew u wr p s w r Hp He Hr Ho) as (Hp' & Hm & Hreg & r' & Hr' & Ho').
  rewrite <- Hm. apply (IH _ r'); try done. by rewrite Hreg.
Qed.

Definition offlineRow (a : string) : AgentRow :=
  {| AgentID := a; TokenVersion := 1; Version := ""; InstanceID := ""; Status := "offline";
     ConnectedAt := None; LastSeenAt := None; ClockSkewMs := 0; UpdatedAt := 0;
     ConflictAt := None; ForeignMachineAt := None; ForeignMachineUuid := "" |}.

Definition demoHost (a : string) : Z := Zpos (encode a).
Definition ha : Z := demoHost "a".
Definition demoTable : gmap Z AgentRow := {[ha := offlineRow "a"]}.
Definition demoBoot : world := boot "i" 5 demoTable.

(** A channel, a reconnect before the server noticed the drop, the late
    unwinding of the first channel, and a heartbeat. *)
Definition demoEvents : list event :=
  [EConnect 0 "a" ha "v1"; EAdd1 0; EAdd2 0 DbOk 10 0 100 true;
   EConnect 1 "a" ha "v2"; EAdd1 1; EAdd2 1 DbOk 20 0 110 true;
   ERemove1 0; EBeat 1 DbOk 30 0 120 true].

Definition demoWorld : world := default demoBoot (run demoBoot demoEvents).

Lemma demoWorld_run : run demoBoot demoEvents = Some demoWorld.
Proof. vm_compute. reflexivity. Qed.

(** The same reconnect with its claim lost to a database fault. *)
Definition stuckWorld : world := default demoBoot (run demoBoot
  [EConnect 0 "a" ha "v1"; EAdd1 0; EAdd2 0 DbOk 10 0 100 true;
   EConnect 1 "a" ha "v2"; EAdd1 1; EAdd2 1 DbFail 20 0 110 true]).

Lemma reconnect_left_without_token :
  let s := newSession "a" ha "v2" in
  Get (reg stuckWorld) "a" = Some 1%nat /\ pcs stuckWorld !! 1%nat = Some POpen
  /\ heap stuckWorld !! 1%nat = Some s /\ forall l c, (1%nat, c) ∉ minted (beats 1 s stuckWorld l).
Proof.
  cbn zeta. split_and!; [vm_compute; reflexivity..|]. intros l c.
  destruct (rows (db stuckWorld) !! ha) as [r|] eqn:E; [|vm_compute in E; discriminate].
  assert (Ho : ownsOnline r "i" = true) by (vm_compute in E; injection E as <-; reflexivity).
  assert (Hp : heap stuckWorld !! 1%nat = Some (newSession "a" ha "v2")) by (vm_compute; reflexivity).
  destruct (failed_claim_never_heals 1 _ _ r l Hp eq_refl E Ho) as [_ ->].
  vm_compute. intros Hin%list_elem_of_In. destruct Hin as [Hin|[]]. discriminate.
Qed.

(** A session may be reachable by agent and open, and still be missing
    from [byHost]: agent A reconnecting under a new host id deletes the
    entry of its old host, which agent B has taken over meanwhile. *)
Lemma add_deletes_foreign_host_entry :
  exists es w s, run (boot "i" 5 {[1 := offlineRow "A"]}) es = Some w /\ Get (reg w) "B" = Some 1%nat
    /\ heap w !! 1%nat = Some s /\ sHostID s = 1 /\ stopped s = false /\ pcs w !! 1%nat = Some POpen
    /\ GetByHost (reg w) 1 = None.
Proof.
  exists [EConnect 0 "A" 1 "v"; EAdd1 0; EAdd2 0 DbOk 10 0 100 true;
          EDelete 1; EInsert 1 "B" 1 12; EInsert 3 "A" 1 13;
          EConnect 1 "B" 1 "v"; EAdd1 1; EAdd2 1 DbOk 20 0 100 true;
          EConnect 2 "A" 3 "v"; EAdd1 2; EAdd2 2 DbOk 30 0 100 true].
  eexists _, _. split; [vm_compute; reflexivity|].
  split_and!; vm_compute; reflexivity.
Qed.

(** ** Witnesses *)

Lemma demoTable_fresh k r e : demoTable !! k = Some r -> ConnectedAt r = Some e -> e <= 5.
Proof. unfold demoTable. intros [<- <-]%lookup_singleton_Some. done. Qed.

Ltac quiet_step := split; [cbn [quiet]; try exact I;
    first [ intros ? H; vm_compute in H; injection H as <-; reflexivity
          | split; [reflexivity | vm_compute; eexists; reflexivity] ]
  | intros ? H; vm_compute in H; injection H as <- ].

Lemma demo_quiet : quietRun demoHost demoBoot demoEvents.
Proof. do 8 quiet_step. exact I. Qed.

Lemma demoHost_inj a b : demoHost a = demoHost b -> a = b.
Proof. unfold demoHost. intros [= H]. by apply encode_inj in H. Qed.

Lemma live_channel_row_in_step_witness :
  exists r, GetByHostID (db demoWorld) ha = Ok r /\ ownsOnline r "i" = true
    /\ forall u, sessionRowValid (sessionClaims u ha "i" 20) r = true.
Proof.
  destruct (heap demoWorld !! 1%nat) as [s|] eqn:E; [|vm_compute in E; discriminate].
  pose proof (live_channel_row_in_step demoHost "i" 5 demoTable demoEvents demoWorld 1 s demoHost_inj
    demoWorld_run demo_quiet E) as H.
  vm_compute in E. injection E as <-. apply H; vm_compute; reflexivity.
Defined.

(** The stale sweep marked the row offline under a live channel. *)
Definition sweptWorld : world := default demoBoot (run demoWorld [EOffline 40 ha]).

Lemma heartbeat_reclaims_witness :
  exists s s' r', heap sweptWorld !! 1%nat = Some s /\
    heap (touch DbOk DbOk 50 0 130 true 1 s sweptWorld) !! 1%nat = Some s' /\ epoch s' = 50
    /\ sessionRowValid (sessionClaims 130 (sHostID s) "i" 50) r' = true.
Proof.
  destruct (heap sweptWorld !! 1%nat) as [s|] eqn:E; [|vm_compute in E; discriminate].
  destruct (GetByHostID (db sweptWorld) (sHostID s)) as [r|] eqn:Er;
    [|vm_compute in E; injection E as <-; vm_compute in Er; discriminate].
  destruct (heartbeat_reclaims 50 0 130 true 1 s sweptWorld r E Er) as (s' & r' & H1 & H2 & _ & _ & _ & _ & H3).
  - vm_compute in E. injection E as <-. vm_compute in Er. injection Er as <-. vm_compute. reflexivity.
  - lia.
  - exists s, s', r'. split_and!; [reflexivity | exact H1 | exact H2 | exact H3].
Defined.

End Reg.
