(* ===== verification/AgentAlerts.v ===== *)
(** * Threshold alerts on heartbeat snapshots

    Models [pkg/apis/agentgw/alerts.go] and the writes of
    [store/pg_alert.go]: the rule cache, which rules apply to a host, and
    the pending/firing state machine one heartbeat drives. Times are
    nanoseconds; float64 comparison is a parameter. *)

From S2P Require Import Prelude.

Module Alerts.
Open Scope Z_scope.

Definition second : Z := 1000000000.
Definition alertRulesTTL : Z := 30 * second.

Section Float.
(** float64 with its four comparisons. *)
Context {F : Type} (fgt fge flt fle : F -> F -> bool).

Record AlertRule := {
  rID : Z; rName : string; rScope : string; rWorkspaceID : option Z; rNamespaceID : option Z;
  rMetric : string; rOp : string; rThreshold : F; rForSeconds : Z; rSeverity : string
}.

(** A row of [host_alert_states] for the host at hand. *)
Record AlertState := { BreachedSince : Z; Firing : bool; FiringSince : option Z; Value : F }.

(** The fields of a heartbeat's snapshot that rules can name. *)
Record MetricsSummary := {
  CPUUsedPct : F; MemUsedPct : F; DiskUsedPct : F;
  Load1 : F; Load5 : F; Load15 : F; NetRxBps : F; NetTxBps : F
}.

Definition summaryValue (m : MetricsSummary) (metric : string) : option F :=
  if metric =s "cpu_used_pct" then Some (CPUUsedPct m)
  else if metric =s "mem_used_pct" then Some (MemUsedPct m)
  else if metric =s "disk_used_pct" then Some (DiskUsedPct m)
  else if metric =s "load1" then Some (Load1 m)
  else if metric =s "load5" then Some (Load5 m)
  else if metric =s "load15" then Some (Load15 m)
  else if metric =s "net_rx_bps" then Some (NetRxBps m)
  else if metric =s "net_tx_bps" then Some (NetTxBps m)
  else None.

Definition breaches (value : F) (op : string) (threshold : F) : bool :=
  if op =s "gt" then fgt value threshold
  else if op =s "ge" then fge value threshold
  else if op =s "lt" then flt value threshold
  else if op =s "le" then fle value threshold
  else false.

Definition sameID (a b : option Z) : bool :=
  match a, b with Some x, Some y => x =? y | _, _ => false end.

Definition ruleApplies (wsID nsID : option Z) (r : AlertRule) : bool :=
  if rScope r =s "platform" then true
  else if rScope r =s "workspace" then sameID (rWorkspaceID r) wsID
  else if rScope r =s "namespace" then sameID (rNamespaceID r) nsID
  else false.

Definition applicableRules (rules : list AlertRule) (wsID nsID : option Z) : list AlertRule :=
  filter (fun r => Is_true (ruleApplies wsID nsID r)) rules.

Definition ruleStillApplies (applicable : list AlertRule) (id : Z) : bool :=
  existsb (fun r => rID r =? id) applicable.

(** ** The store *)

(** The host's state rows by rule, and how many host events were
    published. *)
Record table := { states : gmap Z AlertState; published : nat }.

(** Which calls of one evaluation fail (without effect). *)
Record faults := {
  fRules : bool; fScope : bool; fStates : bool; fBreach : Z -> bool; fFire : Z -> bool; fClear : Z -> bool
}.

(** [dbNow] is the database clock. [ON CONFLICT DO NOTHING]. *)
Definition RecordBreach (fails : bool) (dbNow : Z) (ruleID : Z) (value : F) (t : table) : table :=
  if fails then t
  else match states t !! ruleID with
       | Some _ => t
       | None => {| states := <[ruleID := {| BreachedSince := dbNow; Firing := false; FiringSince := None;
                                             Value := value |}]> (states t);
                    published := published t |}
       end.

Definition MarkFiring (fails : bool) (dbNow : Z) (ruleID : Z) (value : F) (t : table) : table :=
  if fails then t
  else match states t !! ruleID with
       | Some s =>
           if Firing s then t
           else {| states := <[ruleID := {| BreachedSince := BreachedSince s; Firing := true;
                                            FiringSince := Some dbNow; Value := value |}]> (states t);
                   published := S (published t) |}
       | None => t
       end.

Definition Clear (fails : bool) (ruleID : Z) (t : table) : table :=
  if fails then t
  else match states t !! ruleID with
       | Some s => {| states := delete ruleID (states t);
                      published := if Firing s then S (published t) else published t |}
       | None => t
       end.

(** [SweepDisabled] for this host; [disabled] says which rules are
    switched off. *)
Definition SweepDisabled (disabled : Z -> bool) (t : table) : table :=
  let gone := filter (fun p => Is_true (disabled (fst p))) (map_to_list (states t)) in
  {| states := filter (fun p => negb (disabled (fst p)) = true) (states t);
     published := (published t + length (filter (fun p => Is_true (Firing (snd p))) gone))%nat |}.

(** ** The evaluator *)

Record evaluator := { rules : list AlertRule; fetchedAt : Z }.

(** [refetchedAt] is the second reading of the clock. *)
Definition enabledRules (now refetchedAt : Z) (fetch : option (list AlertRule)) (e : evaluator) :
    list AlertRule * evaluator :=
  if now - fetchedAt e <? alertRulesTTL then (rules e, e)
  else match fetch with
       | None => (rules e, e)
       | Some rs => (rs, {| rules := rs; fetchedAt := refetchedAt |})
       end.

(** The body of the loop over applicable rules; [byRule] is the snapshot
    read before it. *)
Definition evalRule (fl : faults) (now dbNow : Z) (m : MetricsSummary) (byRule : gmap Z AlertState)
    (t : table) (r : AlertRule) : table :=
  match summaryValue m (rMetric r) with
  | None => t
  | Some value =>
      if negb (breaches value (rOp r) (rThreshold r)) then
        match byRule !! rID r with
        | Some _ => Clear (fClear fl (rID r)) (rID r) t
        | None => t
        end
      else
        match byRule !! rID r with
        | None => RecordBreach (fBreach fl (rID r)) dbNow (rID r) value t
        | Some state =>
            if negb (Firing state) && (rForSeconds r * second <=? now - BreachedSince state)
            then MarkFiring (fFire fl (rID r)) dbNow (rID r) value t
            else t
        end
  end.

(** Clearing the states no applicable rule stands behind; the order of a
    Go map is arbitrary, [keys] is the one taken. *)
Definition clearOrphan (fl : faults) (applicable : list AlertRule) (t : table) (id : Z) : table :=
  if ruleStillApplies applicable id then t else Clear (fClear fl id) id t.

(** [Evaluate] after the rules are known: [now] is the server clock,
    [scope] the tenancy [GetHostScope] answers, [keys] an order of the
    snapshot's rule ids. *)
Definition applyRules (fl : faults) (now dbNow : Z) (rs : list AlertRule) (scope : option Z * option Z)
    (m : MetricsSummary) (keys : list Z) (t : table) : table :=
  match rs with
  | [] => t
  | _ =>
      if fScope fl then t
      else
        let applicable := applicableRules rs (fst scope) (snd scope) in
        match applicable with
        | [] => t
        | _ =>
            if fStates fl then t
            else
              let byRule := states t in
              let t1 := fold_left (evalRule fl now dbNow m byRule) applicable t in
              fold_left (clearOrphan fl applicable) keys t1
        end
  end.

Definition Evaluate (fl : faults) (cacheNow refetchedAt now dbNow : Z) (fetch : list AlertRule)
    (scope : option Z * option Z) (m : option MetricsSummary) (keys : list Z) (e : evaluator) (t : table) :
    evaluator * table :=
  match m with
  | None => (e, t)
  | Some m =>
      let '(rs, e') := enabledRules cacheNow refetchedAt (if fRules fl then None else Some fetch) e in
      (e', applyRules fl now dbNow rs scope m keys t)
  end.

(** ** One beat *)

Definition noFaults : faults :=
  {| fRules := false; fScope := false; fStates := false; fBreach := fun _ => false; fFire := fun _ => false;
     fClear := fun _ => false |}.

Definition ruleOf (applicable : list AlertRule) (id : Z) : option AlertRule :=
  find (fun r => rID r =? id) applicable.

(** What one breaching or recovered observation of a rule does to its row. *)
Definition nextState (fl : faults) (now dbNow : Z) (m : MetricsSummary) (r : AlertRule) (old : option AlertState) : option AlertState :=
  match summaryValue m (rMetric r) with
  | None => old
  | Some v =>
      if breaches v (rOp r) (rThreshold r) then
        match old with
        | None => if fBreach fl (rID r) then None
                  else Some {| BreachedSince := dbNow; Firing := false; FiringSince := None; Value := v |}
        | Some s =>
            if negb (Firing s) && (rForSeconds r * second <=? now - BreachedSince s) && negb (fFire fl (rID r))
            then Some {| BreachedSince := BreachedSince s; Firing := true; FiringSince := Some dbNow; Value := v |}
            else Some s
        end
      else if fClear fl (rID r) then old else None
  end.

Lemma RecordBreach_lookup fails dbNow k v t id :
  states (RecordBreach fails dbNow k v t) !! id =
  if (id =? k) && bool_decide (states t !! k = None) && negb fails
  then Some {| BreachedSince := dbNow; Firing := false; FiringSince := None; Value := v |} else states t !! id.
Proof.
  unfold RecordBreach. destruct fails; [by rewrite andb_false_r|]. rewrite andb_true_r.
  destruct (states t !! k) eqn:E; [by rewrite bool_decide_eq_false_2, andb_false_r by done|].
  rewrite bool_decide_eq_true_2, andb_true_r by done. cbn.
  destruct (Z.eqb_spec id k) as [->|]; [by rewrite lookup_insert_eq | by rewrite lookup_insert_ne].
Qed.

Lemma MarkFiring_lookup fails dbNow k v t id s : states t !! k = Some s -> Firing s = false ->
  states (MarkFiring fails dbNow k v t) !! id =
  if (id =? k) && negb fails
  then Some {| BreachedSince := BreachedSince s; Firing := true; FiringSince := Some dbNow; Value := v |} else states t !! id.
Proof.
  intros E Ef. unfold MarkFiring. destruct fails; [by rewrite andb_false_r|]. rewrite andb_true_r, E, Ef. cbn.
  destruct (Z.eqb_spec id k) as [->|]; [by rewrite lookup_insert_eq | by rewrite lookup_insert_ne].
Qed.

Lemma Clear_lookup fails k t id :
  states (Clear fails k t) !! id = if (id =? k) && negb fails then None else states t !! id.
Proof.
  unfold Clear. destruct fails; [by rewrite andb_false_r|]. rewrite andb_true_r.
  destruct (states t !! k) eqn:E; cbn; (destruct (Z.eqb_spec id k) as [->|]; [|by rewrite ?lookup_delete_ne]);
    [by rewrite lookup_delete_eq | done].
Qed.

Lemma evalRule_lookup fl now dbNow m byRule t r id :
  byRule !! rID r = states t !! rID r ->
  states (evalRule fl now dbNow m byRule t r) !! id =
  if id =? rID r then nextState fl now dbNow m r (states t !! rID r) else states t !! id.
Proof.
  intros Hs. unfold evalRule, nextState. rewrite Hs.
  assert (idle : states t !! id = if id =? rID r then states t !! rID r else states t !! id)
    by (by destruct (Z.eqb_spec id (rID r)) as [->|]).
  destruct (summaryValue m (rMetric r)) as [v|]; [|exact idle].
  destruct (breaches v (rOp r) (rThreshold r)), (states t !! rID r) as [s|] eqn:E; cbn [negb].
  - destruct (Firing s) eqn:Ef; [exact idle|]. destruct (_ <=? _); cbn [negb andb]; [|exact idle].
    rewrite (MarkFiring_lookup _ _ _ _ _ _ s E Ef). destruct (id =? rID r) eqn:Ei; [|done].
    destruct (fFire fl (rID r)); [|done]. apply Z.eqb_eq in Ei as ->. exact E.
  - rewrite RecordBreach_lookup, bool_decide_eq_true_2, andb_true_r by done. destruct (id =? rID r) eqn:Ei; [|done].
    destruct (fBreach fl (rID r)); [|done]. apply Z.eqb_eq in Ei as ->. exact E.
  - rewrite Clear_lookup. destruct (id =? rID r) eqn:Ei; [|done]. destruct (fClear fl (rID r)); [|done].
    apply Z.eqb_eq in Ei as ->. exact E.
  - destruct (fClear fl (rID r)); exact idle.
Qed.

Lemma evalRules_lookup fl now dbNow m byRule l t id :
  NoDup (rID <$> l) -> (forall r, r ∈ l -> byRule !! rID r = states t !! rID r) ->
  states (fold_left (evalRule fl now dbNow m byRule) l t) !! id =
  match ruleOf l id with
  | Some r => nextState fl now dbNow m r (states t !! id)
  | None => states t !! id
  end.
Proof.
  revert t. induction l as [|r l IH]; intros t Hnd Hs; [done|].
  apply NoDup_cons in Hnd as [Hr Hnd]. cbn [fold_left ruleOf find].
  assert (Hrr : byRule !! rID r = states t !! rID r) by (apply Hs; constructor).
  rewrite IH; [|done|].
  - rewrite (evalRule_lookup fl now dbNow m byRule t r id Hrr).
    destruct (Z.eqb_spec (rID r) id) as [<-|Hn].
    + rewrite Z.eqb_refl. fold (ruleOf l (rID r)). destruct (ruleOf l (rID r)) as [r'|] eqn:E; [|done].
      unfold ruleOf in E. apply find_some in E as [Hin Heq]. apply Z.eqb_eq in Heq.
      destruct Hr. rewrite <- Heq. apply list_elem_of_fmap. exists r'. by rewrite list_elem_of_In.
    + fold (ruleOf l id). destruct (Z.eqb_spec id (rID r)); [congruence|done].
  - intros r' Hin. rewrite (evalRule_lookup fl now dbNow m byRule t r (rID r') Hrr).
    destruct (Z.eqb_spec (rID r') (rID r)) as [Heq|]; [|apply Hs; by constructor].
    destruct Hr. rewrite <- Heq. apply list_elem_of_fmap. eauto.
Qed.

Lemma clearOrphans_lookup fl app keys t id :
  states (fold_left (clearOrphan fl app) keys t) !! id =
  if negb (ruleStillApplies app id) && bool_decide (id ∈ keys) && negb (fClear fl id) then None else states t !! id.
Proof.
  revert t. induction keys as [|k keys IH]; intros t; cbn [fold_left].
  - by rewrite andb_false_r.
  - rewrite IH.
    assert (Hk : states (clearOrphan fl app t k) !! id =
              if negb (ruleStillApplies app id) && (id =? k) && negb (fClear fl id) then None else states t !! id).
    { unfold clearOrphan. destruct (Z.eqb_spec id k) as [->|Hn].
      - destruct (ruleStillApplies app k); [done|]. by rewrite Clear_lookup, Z.eqb_refl.
      - rewrite andb_false_r. destruct (ruleStillApplies app k); [done|].
        rewrite Clear_lookup. by destruct (Z.eqb_spec id k). }
    rewrite Hk. destruct (ruleStillApplies app id), (fClear fl id); cbn [negb andb]; rewrite ?andb_false_r, ?andb_true_r; [done..|].
    destruct (Z.eqb_spec id k) as [->|Hn].
    + rewrite (bool_decide_eq_true_2 (k ∈ k :: keys)) by constructor. by destruct (bool_decide _).
    + by rewrite (bool_decide_ext (id ∈ k :: keys) (id ∈ keys)) by (rewrite elem_of_cons; naive_solver).
Qed.

Lemma ruleStillApplies_ruleOf app id : ruleStillApplies app id = bool_decide (is_Some (ruleOf app id)).
Proof.
  unfold ruleStillApplies, ruleOf. induction app as [|r l IH]; [done|]. cbn.
  destruct (rID r =? id); [done|]. exact IH.
Qed.

Lemma applicable_nodup rs ws ns : NoDup (rID <$> rs) -> NoDup (rID <$> applicableRules rs ws ns).
Proof. intros Hnd. eapply sublist_NoDup; [exact Hnd|]. apply fmap_sublist, sublist_filter. Qed.

Lemma applyRules_lookup fl now dbNow rs scope m keys t id :
  let app := applicableRules rs (fst scope) (snd scope) in
  fScope fl = false -> fStates fl = false ->
  NoDup (rID <$> rs) -> app <> [] -> (forall k, k ∈ keys <-> is_Some (states t !! k)) ->
  states (applyRules fl now dbNow rs scope m keys t) !! id =
  match ruleOf app id with
  | Some r => nextState fl now dbNow m r (states t !! id)
  | None => if fClear fl id then states t !! id else None
  end.
Proof.
  intros app Hsc Hst Hnd Happ Hkeys. unfold applyRules. fold app.
  destruct rs as [|r0 rs]; [by destruct Happ|]. rewrite Hsc, Hst.
  destruct app as [|r1 l] eqn:E; [done|]. rewrite <- E in *. cbv zeta.
  rewrite clearOrphans_lookup, evalRules_lookup; [|by apply applicable_nodup|done].
  rewrite ruleStillApplies_ruleOf. destruct (ruleOf app id) as [r|]; [by rewrite bool_decide_eq_true_2 by done|].
  rewrite bool_decide_eq_false_2 by (by intros [? ?]). cbn [negb andb].
  destruct (fClear fl id); [by rewrite andb_false_r|]. rewrite andb_true_r. destruct (states t !! id) as [s|] eqn:Es.
  - by rewrite bool_decide_eq_true_2 by (apply Hkeys; by rewrite Es).
  - by destruct (bool_decide _).
Qed.

(** ** Histories *)

(** A heartbeat and the evaluation it causes: its clocks, which of its calls
    fail, the rules the refetch would answer, those in force, the tenancy of
    the host, the snapshot. *)
Record heartbeat := {
  bCache : Z; bRefetched : Z; bNow : Z; bDb : Z; bFaults : faults; bFetch : list AlertRule;
  bRules : list AlertRule; bScope : option Z * option Z; bM : MetricsSummary; bKeys : list Z
}.

(** What happens to a host's rows: evaluations, and sweeps of the rules that
    are switched off at that time. *)
Inductive happening :=
| Beat (b : heartbeat)
| Swept (disabled : Z -> bool).

Definition bApp (b : heartbeat) : list AlertRule := applicableRules (bRules b) (fst (bScope b)) (snd (bScope b)).

(** The evaluation came to judge rules: the tenancy and the rows were read,
    and some rule in force applies to the host. *)
Definition judges (b : heartbeat) : Prop :=
  fScope (bFaults b) = false /\ fStates (bFaults b) = false /\ bApp b <> [].

(** What a beat says about a rule: breached; recovered, or not a rule for
    this host any more; or nothing. *)
Definition breachedAt (b : heartbeat) (id : Z) : Prop :=
  judges b /\ exists r v, ruleOf (bApp b) id = Some r /\ summaryValue (bM b) (rMetric r) = Some v
    /\ breaches v (rOp r) (rThreshold r) = true.

Definition recoveredAt (b : heartbeat) (id : Z) : Prop :=
  judges b /\
  match ruleOf (bApp b) id with
  | None => True
  | Some r => match summaryValue (bM b) (rMetric r) with
              | None => False
              | Some v => breaches v (rOp r) (rThreshold r) = false
              end
  end.

(** From an empty table on, newest first. *)
Inductive history : list happening -> evaluator -> table -> Prop :=
| history_nil n e : history [] e {| states := ∅; published := n |}
| history_beat b h e t e' t' : history h e t ->
    bRules b = (enabledRules (bCache b) (bRefetched b) (if fRules (bFaults b) then None else Some (bFetch b)) e).1 ->
    NoDup (rID <$> bRules b) -> (forall k, k ∈ bKeys b <-> is_Some (states t !! k)) ->
    Evaluate (bFaults b) (bCache b) (bRefetched b) (bNow b) (bDb b) (bFetch b) (bScope b) (Some (bM b)) (bKeys b) e t = (e', t') ->
    history (Beat b :: h) e' t'
| history_swept disabled h e t : history h e t -> history (Swept disabled :: h) e (SweepDisabled disabled t).

Lemma Evaluate_beat b e t e' t' :
  bRules b = (enabledRules (bCache b) (bRefetched b) (if fRules (bFaults b) then None else Some (bFetch b)) e).1 ->
  Evaluate (bFaults b) (bCache b) (bRefetched b) (bNow b) (bDb b) (bFetch b) (bScope b) (Some (bM b)) (bKeys b) e t = (e', t') ->
  t' = applyRules (bFaults b) (bNow b) (bDb b) (bRules b) (bScope b) (bM b) (bKeys b) t.
Proof. intros ->. unfold Evaluate. destruct (enabledRules _ _ _ e). by intros [= _ <-]. Qed.

#[export] Instance judges_dec b : Decision (judges b).
Proof.
  unfold judges. destruct (bApp b) as [|r l]; [right; by intros (_ & _ & ?)|].
  destruct (fScope (bFaults b)); [right; by intros (? & _)|].
  destruct (fStates (bFaults b)); [right; by intros (_ & ? & _)|]. by left.
Defined.

Lemma beat_idle b t : ~ judges b ->
  applyRules (bFaults b) (bNow b) (bDb b) (bRules b) (bScope b) (bM b) (bKeys b) t = t.
Proof.
  unfold applyRules, judges, bApp. intros H. destruct (bRules b); [done|]. destruct (fScope (bFaults b)); [done|]. cbv zeta.
  destruct (applicableRules _ _ _); [done|]. destruct (fStates (bFaults b)); [done|]. naive_solver.
Qed.

(** Nothing that happened took the row away: a beat that would have, failed
    to delete it. *)
Definition untouched (id : Z) (x : happening) : Prop :=
  match x with
  | Beat b => recoveredAt b id -> fClear (bFaults b) id = true
  | Swept disabled => disabled id = false
  end.

(** The breach behind a row: first seen at [b0], the row untouched since, and
    for a firing row a breaching beat late enough. *)
Definition backed (id : Z) (s : AlertState) (h : list happening) : Prop :=
  exists later b0 earlier, h = later ++ Beat b0 :: earlier /\ breachedAt b0 id /\ bDb b0 = BreachedSince s
    /\ (forall x, x ∈ later -> untouched id x)
    /\ (Firing s = true -> exists b1 r, Beat b1 ∈ later /\ breachedAt b1 id /\ ruleOf (bApp b1) id = Some r
          /\ rForSeconds r * second <= bNow b1 - BreachedSince s).

Lemma backed_cons id s x h : backed id s h -> untouched id x -> backed id s (x :: h).
Proof.
  intros (later & b0 & earlier & -> & Hb & Hd & Hn & Hf) Hr. exists (x :: later), b0, earlier.
  split_and!; try done.
  - intros y [->|Hin]%elem_of_cons; auto.
  - intros HF. destruct (Hf HF) as (b1 & r & Hin & Hrest). exists b1, r. split; [by constructor|done].
Qed.

Lemma beat_backed b t id s : NoDup (rID <$> bRules b) -> (forall k, k ∈ bKeys b <-> is_Some (states t !! k)) -> judges b ->
  states (applyRules (bFaults b) (bNow b) (bDb b) (bRules b) (bScope b) (bM b) (bKeys b) t) !! id = Some s ->
  (breachedAt b id /\ bDb b = BreachedSince s /\ Firing s = false) \/
  untouched id (Beat b) /\ exists s0, states t !! id = Some s0 /\ BreachedSince s = BreachedSince s0 /\
    (s = s0 \/ breachedAt b id /\ exists r, ruleOf (bApp b) id = Some r /\
       rForSeconds r * second <= bNow b - BreachedSince s).
Proof.
  intros Hnd Hk J. pose proof J as (Hsc & Hst & Happ). rewrite applyRules_lookup by done. fold (bApp b).
  cbn [untouched]. unfold recoveredAt, breachedAt.
  destruct (ruleOf (bApp b) id) as [r|] eqn:Er.
  2:{ destruct (fClear (bFaults b) id) eqn:Ec; [|done]. intros Hs. right. split; [done|]. exists s. auto. }
  assert (rID r = id) as Hid by (unfold ruleOf in Er; apply find_some in Er as [_ ?]; lia).
  unfold nextState. rewrite Hid. destruct (summaryValue (bM b) (rMetric r)) as [v|] eqn:Ev.
  2:{ intros Hs. right. split; [by intros [_ ?]|]. exists s. auto. }
  destruct (breaches v (rOp r) (rThreshold r)) eqn:Eb.
  2:{ destruct (fClear (bFaults b) id) eqn:Ec; [|done]. intros Hs. right. split; [done|]. exists s. auto. }
  assert (Hbr : judges b /\ exists r0 v0, Some r = Some r0 /\ summaryValue (bM b) (rMetric r0) = Some v0
                  /\ breaches v0 (rOp r0) (rThreshold r0) = true) by (split; [exact J | by exists r, v]).
  destruct (states t !! id) as [s0|] eqn:Es.
  2:{ destruct (fBreach _ _); [done|]. intros [= <-]. by left. }
  destruct (negb (Firing s0) && _ && _) eqn:Ef; intros [= <-]; right; (split; [by intros [_ ?]|]); exists s0; (split; [done|]);
    (split; [done|]); [|by left].
  right. split; [done|]. exists r. split; [done|]. cbn. rewrite !andb_true_iff in Ef. lia.
Qed.

Lemma swept_lookup disabled t id s :
  states (SweepDisabled disabled t) !! id = Some s -> states t !! id = Some s /\ disabled id = false.
Proof. cbn. intros [H1 H2]%map_lookup_filter_Some. cbn in H2. by apply negb_true_iff in H2. Qed.

Lemma history_backed h e t id s : history h e t -> states t !! id = Some s -> backed id s h.
Proof.
  intros Hh. revert s. induction Hh as [n e|b h e t e' t' Hh IH Hru Hnd Hk Hev|disabled h e t Hh IH]; intros s Hs;
    [cbn [states] in Hs; by rewrite lookup_empty in Hs| |].
  2:{ apply swept_lookup in Hs as [Hs Hd]. by apply backed_cons; [apply IH|]. }
  rewrite (Evaluate_beat b e t e' t' Hru Hev) in Hs. destruct (decide (judges b)) as [J|J].
  2:{ rewrite beat_idle in Hs by done. apply backed_cons; [by apply IH|]. by intros [? _]. }
  destruct (beat_backed b t id s Hnd Hk J Hs) as [(Hb & Hd & Hf)|(Hr & s0 & Hs0 & Hd & Hcase)].
  - exists [], b, h. split_and!; try done; [by intros b' ?%not_elem_of_nil | by rewrite Hf].
  - destruct Hcase as [->|(Hb & r & Hr' & Hle)]; [apply backed_cons; auto|].
    destruct (IH s0 Hs0) as (later & b0 & earlier & -> & Hb0 & Hd0 & Hn & _).
    exists (Beat b :: later), b0, earlier. split_and!; try done; [congruence| |].
    + intros b' [->|Hin]%elem_of_cons; auto.
    + intros _. exists b, r. split_and!; try done. constructor.
Qed.

(** Rows of an idle beat stay: with no applicable rule at all nothing is
    cleared, firing or not. *)
Lemma nothing_applies_clears_nothing fl now dbNow rs scope m keys t :
  applicableRules rs (fst scope) (snd scope) = [] -> applyRules fl now dbNow rs scope m keys t = t.
Proof.
  intros Happ. unfold applyRules. destruct rs; [done|]. destruct (fScope fl); [done|]. cbv zeta. by rewrite Happ.
Qed.

(** [enabledRules]: the rules in force are at most the cache's age old,
    unless every refetch since failed. *)
Lemma enabledRules_fresh now now' fetched e rs e' :
  enabledRules now now' (Some fetched) e = (rs, e') -> rs = fetched \/ (rs = rules e /\ now - fetchedAt e < alertRulesTTL).
Proof.
  unfold enabledRules. destruct (Z.ltb_spec (now - fetchedAt e) alertRulesTTL); intros [= <- <-]; auto.
Qed.

End Float.
Arguments AlertRule : clear implicits.
Arguments AlertState : clear implicits.
Arguments MetricsSummary : clear implicits.
Arguments table : clear implicits.
Arguments heartbeat : clear implicits.
Arguments evaluator : clear implicits.
Arguments happening : clear implicits.

(** ** Properties *)

(** One heartbeat drives each rule's state exactly as the alert
    contract says (database working, at least one rule applies to the
    host): a recovered rule has no row; a first breach leaves a pending row
    stamped with the database time; a further breach keeps the row and
    turns it firing once the breach has lasted [for_seconds]; a metric the
    server does not know changes nothing; and rows no applicable rule
    stands behind are gone. *)
Lemma heartbeat_state_machine {F} (fgt fge flt fle : F -> F -> bool) now dbNow rs scope m keys (t : table F) id :
  let app := applicableRules rs (fst scope) (snd scope) in
  NoDup (rID <$> rs) -> app <> [] -> (forall k, k ∈ keys <-> is_Some (states t !! k)) ->
  let new := states (applyRules fgt fge flt fle noFaults now dbNow rs scope m keys t) !! id in
  match ruleOf app id with
  | None => new = None
  | Some r =>
      match summaryValue m (rMetric r) with
      | None => new = states t !! id
      | Some v =>
          if breaches fgt fge flt fle v (rOp r) (rThreshold r) then
            exists s, new = Some s /\
            match states t !! id with
            | None => BreachedSince s = dbNow /\ Firing s = false
            | Some s0 => BreachedSince s = BreachedSince s0 /\
                (Firing s = true <-> Firing s0 = true \/ rForSeconds r * second <= now - BreachedSince s0)
            end
          else new = None
      end
  end.
Proof.
  intros app Hnd Happ Hk. cbv zeta. rewrite applyRules_lookup by done. fold app.
  destruct (ruleOf app id) as [r|]; [|done]. unfold nextState.
  destruct (summaryValue m (rMetric r)) as [v|]; [|done].
  destruct (breaches fgt fge flt fle v (rOp r) (rThreshold r)); [|done].
  destruct (states t !! id) as [s0|]; [|by eexists]. cbn [fFire noFaults negb]. rewrite andb_true_r.
  destruct (Firing s0) eqn:Ef; cbn [negb andb].
  - exists s0. split_and!; [done|done|]. rewrite Ef. naive_solver.
  - destruct (Z.leb_spec (rForSeconds r * second) (now - BreachedSince s0)) as [Hle|Hlt].
    + eexists. split_and!; [done|done|]. cbn. naive_solver.
    + exists s0. split_and!; [done|done|]. rewrite Ef. split; [done|]. intros [?|?]; [done|lia].
Qed.

(** C39: an alert fires only after a sustained breach: over any sequence of
    heartbeats and sweeps from an empty table, with rules edited and cached,
    hosts moved and any calls to the database failing (without effect; one
    whose answer alone is lost does what a success does), a firing row goes
    back to a beat that breached the rule, and a later beat breached it at
    least [for_seconds] after the first one -- so a single observation never
    fires. In between no sweep found the rule disabled, and every beat that
    judged the rule recovered, or not one of the host's any more, failed to
    delete the row. A beat judges when it could read the host's tenancy and
    rows and at least one rule in force applies to the host: when none does,
    it leaves every row, firing or not, as [moved_host_keeps_firing] shows. *)
Theorem firing_means_sustained {F} (fgt fge flt fle : F -> F -> bool) h e t id s :
  history fgt fge flt fle h e t -> states t !! id = Some s -> Firing s = true ->
  exists later b0 earlier b1 r,
    h = later ++ Beat b0 :: earlier /\ Beat b1 ∈ later /\ breachedAt fgt fge flt fle b0 id /\ bDb b0 = BreachedSince s
    /\ (forall b, Beat b ∈ later -> recoveredAt fgt fge flt fle b id -> fClear (bFaults b) id = true)
    /\ (forall disabled, Swept disabled ∈ later -> disabled id = false)
    /\ breachedAt fgt fge flt fle b1 id /\ ruleOf (bApp b1) id = Some r
    /\ rForSeconds r * second <= bNow b1 - bDb b0.
Proof.
  intros Hh Hs HF. destruct (history_backed fgt fge flt fle h e t id s Hh Hs) as (later & b0 & earlier & -> & Hb & Hd & Hn & Hf).
  destruct (Hf HF) as (b1 & r & Hin & Hb1 & Hr & Hle). exists later, b0, earlier, b1, r.
  split_and!; try done; [intros b Hb'; exact (Hn _ Hb') | intros d Hd'; exact (Hn _ Hd') | by rewrite Hd].
Qed.

(** ** A concrete host *)

Definition demoRule : AlertRule Z :=
  {| rID := 1; rName := "cpu"; rScope := "platform"; rWorkspaceID := None; rNamespaceID := None;
     rMetric := "cpu_used_pct"; rOp := "gt"; rThreshold := 90; rForSeconds := 60; rSeverity := "warning" |}.

Definition demoSummary (cpu : Z) : MetricsSummary Z :=
  {| CPUUsedPct := cpu; MemUsedPct := 0; DiskUsedPct := 0; Load1 := 0; Load5 := 0; Load15 := 0;
     NetRxBps := 0; NetTxBps := 0 |}.

(** A beat that refetches the rules. *)
Definition demoBeat (at_ cpu : Z) (keys : list Z) : heartbeat Z :=
  {| bCache := at_ * second; bRefetched := at_ * second; bNow := at_ * second; bDb := at_ * second; bFaults := noFaults;
     bFetch := [demoRule]; bRules := [demoRule]; bScope := (None, None); bM := demoSummary cpu; bKeys := keys |}.

Definition demoEvaluator : evaluator Z := {| rules := []; fetchedAt := 0 |}.
Definition emptyTable : table Z := {| states := ∅; published := 0 |}.

Definition demoRun (b : heartbeat Z) (et : evaluator Z * table Z) : evaluator Z * table Z :=
  Evaluate Z.gtb Z.geb Z.ltb Z.leb (bFaults b) (bCache b) (bRefetched b) (bNow b) (bDb b) (bFetch b) (bScope b)
    (Some (bM b)) (bKeys b) et.1 et.2.

Definition demo1 : evaluator Z * table Z := demoRun (demoBeat 100 95 []) (demoEvaluator, emptyTable).
Definition demo2 : evaluator Z * table Z := demoRun (demoBeat 170 96 [1]) demo1.

Definition pending : AlertState Z :=
  {| BreachedSince := 100 * second; Firing := false; FiringSince := None; Value := 95 |}.
Definition fired : AlertState Z :=
  {| BreachedSince := 100 * second; Firing := true; FiringSince := Some (170 * second); Value := 96 |}.

Lemma demo1_keys k : k ∈ [1] <-> is_Some (states demo1.2 !! k).
Proof.
  assert (states demo1.2 = {[1 := pending]}) as -> by (vm_compute; reflexivity).
  rewrite list_elem_of_singleton, lookup_singleton_is_Some. naive_solver.
Qed.

Lemma firing_means_sustained_witness :
  exists later b0 earlier b1 r,
    [Beat (demoBeat 170 96 [1]); Beat (demoBeat 100 95 [])] = later ++ Beat b0 :: earlier /\ Beat b1 ∈ later
    /\ ruleOf (bApp b1) 1 = Some r /\ rForSeconds r * second <= bNow b1 - bDb b0.
Proof.
  destruct (firing_means_sustained Z.gtb Z.geb Z.ltb Z.leb [Beat (demoBeat 170 96 [1]); Beat (demoBeat 100 95 [])] demo2.1 demo2.2 1 fired)
    as (later & b0 & earlier & b1 & r & H1 & H2 & _ & _ & _ & _ & _ & H3 & H4).
  - apply (history_beat _ _ _ _ (demoBeat 170 96 [1]) _ demo1.1 demo1.2);
      [| vm_compute; reflexivity | apply NoDup_singleton | exact demo1_keys | vm_compute; reflexivity].
    apply (history_beat _ _ _ _ (demoBeat 100 95 []) _ demoEvaluator emptyTable);
      [constructor | vm_compute; reflexivity | apply NoDup_singleton | | vm_compute; reflexivity].
    intros k. cbn [states emptyTable bKeys demoBeat]. rewrite lookup_empty. split; [by intros ?%not_elem_of_nil | by intros [? ?]].
  - vm_compute. reflexivity.
  - reflexivity.
  - exists later, b0, earlier, b1, r. split_and!; [exact H1 | exact H2 | exact H3 | exact H4].
Defined.

(** A host moved to a workspace where no rule applies keeps its firing
    alert: the rule is still enabled, so the sweep of disabled rules does
    not remove the row either. *)
Definition wsRule : AlertRule Z :=
  {| rID := 1; rName := "cpu"; rScope := "workspace"; rWorkspaceID := Some 7; rNamespaceID := None;
     rMetric := "cpu_used_pct"; rOp := "gt"; rThreshold := 90; rForSeconds := 60; rSeverity := "warning" |}.

Lemma moved_host_keeps_firing now dbNow m keys :
  let t := {| states := {[1 := fired]}; published := 0 |} in
  states (SweepDisabled (fun _ => false)
    (applyRules Z.gtb Z.geb Z.ltb Z.leb noFaults now dbNow [wsRule] (Some 8, None) m keys t)) !! 1 = Some fired.
Proof.
  cbv zeta. rewrite nothing_applies_clears_nothing by (vm_compute; reflexivity). vm_compute. reflexivity.
Qed.

End Alerts.
