(* ===== verification/AgentIdentity.v ===== *)
(** * Machine identity in the agent gateway

    Models [pkg/apis/agentgw/identity.go], [verifyMachine] (channel.go) and
    the identity statements of [store/pg_agent.go]: which host row a
    registering machine belongs to, whether a reconnecting machine is the
    one its credential was issued to, and how two live processes sharing
    one identity are caught. Times are nanoseconds. *)

From S2P Require Import Prelude ListQuery ApiServe OidcStore AgentToken.
Import OStore.

Module Ident.
Open Scope Z_scope.

Definition sec : Z := 1000000000.
Definition maxFingerprintMACs : nat := 8.
Definition coexistenceSlack : Z := 30 * sec.
Definition templateGroupSize : nat := 3.
Definition IdentitySourceProductUUID : string := "product_uuid".
Definition IdentitySourceNone : string := "none".

(** ** SMBIOS UUIDs *)

Definition hexVal (c : ascii) : option Z :=
  let n := Z.of_N (N_of_ascii c) in
  if (48 <=? n) && (n <=? 57) then Some (n - 48)
  else if (97 <=? n) && (n <=? 102) then Some (n - 87)
  else if (65 <=? n) && (n <=? 70) then Some (n - 55)
  else None.

(** [hex.DecodeString]. *)
Fixpoint hexDecode (s : string) : option (list Z) :=
  match s with
  | EmptyString => Some []
  | String a (String b s') =>
      x ← hexVal a; y ← hexVal b; rest ← hexDecode s'; Some (x * 16 + y :: rest)
  | String _ EmptyString => None
  end.

(** The character class [[0-9a-f]]. *)
Definition lowerHex (c : ascii) : bool :=
  let n := Z.of_N (N_of_ascii c) in ((48 <=? n) && (n <=? 57)) || ((97 <=? n) && (n <=? 102)).

Fixpoint allLowerHex (s : string) : bool :=
  match s with EmptyString => true | String c s' => lowerHex c && allLowerHex s' end.

Definition hexField (n : nat) (s : string) : bool := (String.length s =? n)%nat && allLowerHex s.

(** [uuidShape.MatchString]: five dash-separated fields of 8, 4, 4, 4 and
    12 lower-case hex digits. *)
Definition uuidShape (v : string) : bool :=
  match Split v "-" with
  | [a; b; c; d; e] => hexField 8 a && hexField 4 b && hexField 4 c && hexField 4 d && hexField 12 e
  | _ => false
  end.

Definition junkProductUUIDs : list string :=
  ["00000000-0000-0000-0000-000000000000"; "ffffffff-ffff-ffff-ffff-ffffffffffff";
   "03000200-0400-0500-0006-000700080009"]%string.

(** [strings.TrimSpace] and [strings.ToLower] on ASCII text. *)
Definition normaliseProductUUID (v : string) : string :=
  let v := Serve.ToLower (ListQ.TrimSpace v) in
  if negb (uuidShape v) || bool_decide (v ∈ junkProductUUIDs) then "" else v.

Definition clampIdentity (v : string) : string := str_take 64 (ListQ.TrimSpace v).

(** One field with its bytes reversed. *)
Definition swapField (s : string) : option string := (fun b => hexEncode (rev b)) <$> hexDecode s.

Definition swapUUIDByteOrder (v : string) : string :=
  match Split v "-" with
  | [a; b; c; d; e] =>
      match swapField a, swapField b, swapField c with
      | Some a', Some b', Some c' => Join [a'; b'; c'; d; e] "-"
      | _, _, _ => v
      end
  | _ => v
  end.

Definition sameProductUUID (a b : string) : bool :=
  if (a =s "") || (b =s "") then false else (a =s b) || (a =s swapUUIDByteOrder b).

(** ** Fingerprints *)

(** What the agent reports ([agenttypes.MachineFingerprint]). *)
Record MachineFingerprint := { mfProductUUID : string; mfMachineID : string; mfMACs : list string; mfUptimeSeconds : Z }.

Record Fingerprint := { ProductUUID : string; MachineID : string; MACs : list string; BootAt : option Z }.

(** The loop over the reported MACs; [n] more may be kept. *)
Fixpoint takeMACs (n : nat) (l : list string) : list string :=
  match l with
  | [] => []
  | m :: l' =>
      let m := clampIdentity (Serve.ToLower m) in
      if m =s "" then takeMACs n l'
      else match n with
           | O => []
           | S O => [m]
           | S n' => m :: takeMACs n' l'
           end
  end.

Definition NewFingerprint (machineID : string) (fp : MachineFingerprint) (now : Z) : Fingerprint :=
  let machineID := if mfMachineID fp =s "" then machineID else mfMachineID fp in
  {| ProductUUID := normaliseProductUUID (mfProductUUID fp);
     MachineID := clampIdentity machineID;
     MACs := takeMACs maxFingerprintMACs (mfMACs fp);
     BootAt := if (0 <? mfUptimeSeconds fp) && (mfUptimeSeconds fp <? 100 * 365 * 24 * 3600)
               then Some (now - mfUptimeSeconds fp * sec) else None |}.

Definition NameSeed (f : Fingerprint) : string :=
  if negb (ProductUUID f =s "") then ProductUUID f else MachineID f.

(** ** Rows *)

(** The identity columns of [host_agents]. *)
Record AgentRow := {
  HostID : Z; AgentID : string; Status : string; LastSeenAt : option Z;
  rProductUUID : string; rMachineID : string; rMACs : list string; IdentitySource : string; rBootAt : option Z;
  boot_nonce : string; prev_boot_nonce : string; ConflictAt : option Z;
  ForeignMachineAt : option Z; ForeignMachineUuid : string
}.

(** [FindByProductUUID]: rows whose UUID is one of the given spellings. *)
Definition FindByProductUUID (tbl : list AgentRow) (uuids : list string) : list AgentRow :=
  match uuids with
  | [] => []
  | _ => filter (fun r => rProductUUID r <> "" /\ rProductUUID r ∈ uuids) tbl
  end.

Definition findClaimCandidates (tbl : list AgentRow) (fp : Fingerprint) : list AgentRow :=
  if ProductUUID fp =s "" then []
  else FindByProductUUID tbl [ProductUUID fp; swapUUIDByteOrder (ProductUUID fp)].

(** ** Matching a registering machine *)

Record MatchOutcome := { moAgentID : string; moHostID : Z; moSource : string; moClaimUUIDs : list string; moWhy : string }.

(** [t.After(cutoff)] of a nullable time. *)
Definition after (t : option Z) (cutoff : Z) : bool := match t with Some t => cutoff <? t | None => false end.

(** The decision on the rows that carry the machine's UUID. *)
Definition matchRows (fp : Fingerprint) (matches : list AgentRow) (aliveCutoff : Z) : MatchOutcome :=
  let claim := [ProductUUID fp; swapUUIDByteOrder (ProductUUID fp)] in
  match matches with
  | [] =>
      {| moAgentID := ""; moHostID := 0; moSource := IdentitySourceProductUUID; moClaimUUIDs := claim;
         moWhy := "no host claims this machine's SMBIOS UUID" |}
  | [prev] =>
      if negb (rMachineID prev =s "") && negb (MachineID fp =s "") && negb (rMachineID prev =s MachineID fp)
         && (Status prev =s Tok.agentStatusOnline) && after (LastSeenAt prev) aliveCutoff then
        {| moAgentID := ""; moHostID := 0; moSource := IdentitySourceNone; moClaimUUIDs := [];
           moWhy := "another machine is online with the same SMBIOS UUID but a different /etc/machine-id, so the UUID is not unique here" |}
      else
        {| moAgentID := AgentID prev; moHostID := HostID prev; moSource := IdentitySourceProductUUID;
           moClaimUUIDs := claim; moWhy := "same SMBIOS UUID as this host" |}
  | _ =>
      {| moAgentID := ""; moHostID := 0; moSource := IdentitySourceNone; moClaimUUIDs := [];
         moWhy := "this SMBIOS UUID is already claimed by several hosts, so it identifies a hardware batch rather than a machine" |}
  end.

Definition MatchMachine (fp : Fingerprint) (candidates : list AgentRow) (aliveCutoff : Z) : MatchOutcome :=
  if ProductUUID fp =s "" then
    {| moAgentID := ""; moHostID := 0; moSource := IdentitySourceNone; moClaimUUIDs := [];
       moWhy := "machine reports no usable SMBIOS UUID; it cannot be recognised automatically" |}
  else
    matchRows fp (filter (fun c => Is_true (sameProductUUID (ProductUUID fp) (rProductUUID c))) candidates) aliveCutoff.

(** ** Reconnect verification *)

Inductive MachineVerdict :=
| VerdictSameMachine | VerdictMachineIDReset | VerdictHardwareChanged | VerdictForeignMachine | VerdictUnverifiable.

Definition VerifyMachine (row : AgentRow) (fp : Fingerprint) : MachineVerdict :=
  if (rProductUUID row =s "") || (ProductUUID fp =s "") then VerdictUnverifiable
  else if sameProductUUID (ProductUUID fp) (rProductUUID row) then
    if negb (MachineID fp =s "") && negb (rMachineID row =s "") && negb (MachineID fp =s rMachineID row)
    then VerdictMachineIDReset else VerdictSameMachine
  else if negb (MachineID fp =s "") && negb (rMachineID row =s "") && (MachineID fp =s rMachineID row)
  then VerdictHardwareChanged else VerdictForeignMachine.

(** [UpdateHostAgentFingerprint]. *)
Definition RefreshFingerprint (fp : Fingerprint) (r : AgentRow) : AgentRow :=
  {| HostID := HostID r; AgentID := AgentID r; Status := Status r; LastSeenAt := LastSeenAt r;
     rProductUUID := rProductUUID r; rMachineID := MachineID fp; rMACs := MACs fp;
     IdentitySource := IdentitySource r; rBootAt := BootAt fp; boot_nonce := boot_nonce r;
     prev_boot_nonce := prev_boot_nonce r; ConflictAt := None; ForeignMachineAt := ForeignMachineAt r;
     ForeignMachineUuid := ForeignMachineUuid r |}.

(** [RecordHostAgentForeignMachine]; also whether the change is news. *)
Definition RecordForeignMachine (dbNow : Z) (uuid : string) (r : AgentRow) : bool * AgentRow :=
  (match ForeignMachineAt r with None => true | Some _ => negb (ForeignMachineUuid r =s uuid) end,
   {| HostID := HostID r; AgentID := AgentID r; Status := Status r; LastSeenAt := LastSeenAt r;
      rProductUUID := rProductUUID r; rMachineID := rMachineID r; rMACs := rMACs r;
      IdentitySource := IdentitySource r; rBootAt := rBootAt r; boot_nonce := boot_nonce r;
      prev_boot_nonce := prev_boot_nonce r; ConflictAt := ConflictAt r; ForeignMachineAt := Some dbNow;
      ForeignMachineUuid := uuid |}).

(** [verifyMachine]: whether the connection is admitted, and the row after
    the write it makes ([writeFails]: that write failed). *)
Definition verifyMachine (now dbNow : Z) (writeFails : bool) (row : AgentRow) (hello : MachineFingerprint) : bool * AgentRow :=
  let fp := NewFingerprint "" hello now in
  match VerifyMachine row fp with
  | VerdictForeignMachine =>
      (false, if writeFails then row else snd (RecordForeignMachine dbNow (ProductUUID fp) row))
  | VerdictMachineIDReset | VerdictHardwareChanged =>
      (true, if writeFails then row else RefreshFingerprint fp row)
  | VerdictSameMachine | VerdictUnverifiable => (true, row)
  end.

(** ** Contended identities *)

Definition identityConflictCooldown : Z := 15 * 60 * sec.
Definition clampBootNonce (n : string) : string := str_take 64 n.

(** [CheckHostAgentIdentity] as the store calls it: whether the identity
    is contended, and the row after the statement. *)
Definition CheckIdentity (dbNow : Z) (bootNonce : string) (cooldown : Z) (r : AgentRow) : bool * AgentRow :=
  let n := clampBootNonce bootNonce in
  let conflict := if negb (n =s "") && (n =s prev_boot_nonce r) then Some dbNow else ConflictAt r in
  (after conflict (dbNow - cooldown),
   {| HostID := HostID r; AgentID := AgentID r; Status := Status r; LastSeenAt := LastSeenAt r;
      rProductUUID := rProductUUID r; rMachineID := rMachineID r; rMACs := rMACs r;
      IdentitySource := IdentitySource r; rBootAt := rBootAt r; boot_nonce := n;
      prev_boot_nonce := if negb (n =s boot_nonce r) then boot_nonce r else prev_boot_nonce r;
      ConflictAt := conflict; ForeignMachineAt := ForeignMachineAt r;
      ForeignMachineUuid := ForeignMachineUuid r |}).

(** ** Image groups *)

Inductive ImageRelation := RelationNone | RelationClone | RelationTemplate | RelationUnresolved.

Definition coexisted (self other : AgentRow) (aliveCutoff : Z) : bool :=
  if after (LastSeenAt other) aliveCutoff then true
  else match rBootAt self, LastSeenAt other with
       | Some b, Some l => b + coexistenceSlack <? l
       | _, _ => false
       end.

Definition ClassifyImageGroup (self : AgentRow) (group : list AgentRow) (aliveCutoff : Z) : ImageRelation * list AgentRow :=
  let others := filter (fun r => HostID r <> HostID self) group in
  match others with
  | [] => (RelationNone, [])
  | _ =>
      if (templateGroupSize <=? length group)%nat then (RelationTemplate, others)
      else if existsb (fun o => coexisted self o aliveCutoff) others then (RelationClone, others)
      else (RelationUnresolved, others)
  end.

(** ** Byte order *)

Definition hexOk (c : ascii) : bool :=
  if lowerHex c then
    match hexVal c with
    | Some v => (0 <=? v) && (v <? 16) && (hexDigit v =s String c EmptyString)
    | None => false
    end
  else true.

Lemma lowerHex_val c : lowerHex c = true ->
  exists v, hexVal c = Some v /\ 0 <= v < 16 /\ hexDigit v = String c EmptyString.
Proof.
  intros Hc. assert (H : hexOk c = true) by (destruct c as [[] [] [] [] [] [] [] []]; vm_compute; reflexivity).
  unfold hexOk in H. rewrite Hc in H. destruct (hexVal c) as [v|]; [|done]. exists v.
  apply andb_true_iff in H as [[H1 H2]%andb_true_iff H3]. apply String.eqb_eq in H3. split_and!; (done || lia).
Qed.

Definition digitOk (v : Z) : bool :=
  match hexDigit v with
  | String c EmptyString => lowerHex c && bool_decide (hexVal c = Some v)
  | _ => false
  end.

Lemma hexDigit_val v : 0 <= v < 16 ->
  exists c, hexDigit v = String c EmptyString /\ lowerHex c = true /\ hexVal c = Some v.
Proof.
  intros Hv. assert (H : forallb digitOk (seqZ 0 16) = true) by (vm_compute; reflexivity).
  rewrite forallb_forall in H. specialize (H v). rewrite <- list_elem_of_In, elem_of_seqZ in H.
  specialize (H ltac:(lia)). unfold digitOk in H. destruct (hexDigit v) as [|c [|]]; try done.
  apply andb_true_iff in H as [H1 H2%bool_decide_eq_true]. eauto.
Qed.

Lemma hexEncode_cons x b : hexEncode (x :: b) = hexDigit (x / 16) +++ hexDigit (x mod 16) +++ hexEncode b.
Proof. done. Qed.

Lemma hexDecode_encode b : Forall Tok.isByte b ->
  hexDecode (hexEncode b) = Some b /\ allLowerHex (hexEncode b) = true
  /\ String.length (hexEncode b) = (2 * length b)%nat.
Proof.
  induction 1 as [|x b Hx Hb (IH1 & IH2 & IH3)]; [done|]. unfold Tok.isByte in Hx.
  destruct (hexDigit_val (x / 16)) as (c & E1 & L1 & V1); [Z.to_euclidean_division_equations; lia|].
  destruct (hexDigit_val (x mod 16)) as (d & E2 & L2 & V2); [Z.to_euclidean_division_equations; lia|].
  rewrite hexEncode_cons, E1, E2. cbn [String.append hexDecode allLowerHex String.length length].
  rewrite V1, V2, IH1, L1, L2, IH2, IH3. cbn. split_and!; [|done|lia].
  do 2 f_equal. Z.to_euclidean_division_equations; lia.
Qed.

Lemma hexEncode_decode n s : hexField (2 * n) s = true ->
  exists b, hexDecode s = Some b /\ Forall Tok.isByte b /\ length b = n /\ hexEncode b = s.
Proof.
  revert s. induction n as [|n IH]; intros s [Hl Hh]%andb_true_iff; apply Nat.eqb_eq in Hl.
  - destruct s; [by exists [] | done].
  - destruct s as [|c [|d s]]; cbn in Hl; try lia. cbn [allLowerHex] in Hh.
    apply andb_true_iff in Hh as [Hc [Hd Hs]%andb_true_iff].
    destruct (lowerHex_val c Hc) as (x & Vx & Hx & Ex). destruct (lowerHex_val d Hd) as (y & Vy & Hy & Ey).
    destruct (IH s) as (b & Db & Hb & Lb & Eb).
    { unfold hexField. rewrite Hs, andb_true_r. apply Nat.eqb_eq. lia. }
    exists (x * 16 + y :: b). cbn [hexDecode]. rewrite Vx, Vy, Db. split_and!.
    + done.
    + constructor; [unfold Tok.isByte; lia | done].
    + cbn. by rewrite Lb.
    + rewrite hexEncode_cons, Eb. replace ((x * 16 + y) / 16) with x by (Z.to_euclidean_division_equations; lia).
      replace ((x * 16 + y) mod 16) with y by (Z.to_euclidean_division_equations; lia). by rewrite Ex, Ey.
Qed.

Lemma swapField_spec n s : hexField (2 * n) s = true ->
  exists s', swapField s = Some s' /\ hexField (2 * n) s' = true /\ swapField s' = Some s.
Proof.
  intros Hs. destruct (hexEncode_decode n s Hs) as (b & Db & Hb & Lb & Eb).
  assert (Hr : Forall Tok.isByte (rev b)) by (rewrite rev_alt; by apply Forall_reverse || by apply Forall_rev).
  destruct (hexDecode_encode (rev b) Hr) as (D & L & N). exists (hexEncode (rev b)).
  unfold swapField. rewrite Db. split_and!; [done| |].
  - unfold hexField. rewrite L, N, length_rev, Lb, andb_true_r. apply Nat.eqb_refl.
  - rewrite D. cbn. by rewrite rev_involutive, Eb.
Qed.

Lemma lowerHex_nodash s : allLowerHex s = true -> str_in "-" s = false.
Proof.
  induction s as [|c s IH]; [done|]. cbn. intros [Hc Hs]%andb_true_iff. rewrite (IH Hs), orb_false_r.
  destruct (Ascii.eqb_spec c "-") as [->|]; [done|done].
Qed.

Lemma hexField_nodash n s : hexField n s = true -> str_in "-" s = false.
Proof. intros [_ H]%andb_true_iff. by apply lowerHex_nodash. Qed.

(** Splitting and joining at a separator. *)
Lemma uuidShape_inv v : uuidShape v = true ->
  exists a b c d e, v = Join [a; b; c; d; e] "-" /\ Split v "-" = [a; b; c; d; e] /\
    hexField 8 a = true /\ hexField 4 b = true /\ hexField 4 c = true /\ hexField 4 d = true /\ hexField 12 e = true.
Proof.
  unfold uuidShape. pose proof (Join_Split v "-") as HJ. revert HJ.
  destruct (Split v "-") as [|a [|b [|c [|d [|e [|]]]]]]; try done. intros <- H.
  do 4 (apply andb_true_iff in H as [H ?]). exists a, b, c, d, e. split_and!; done.
Qed.

Lemma uuidShape_join a b c d e :
  hexField 8 a = true -> hexField 4 b = true -> hexField 4 c = true -> hexField 4 d = true -> hexField 12 e = true ->
  Split (Join [a; b; c; d; e] "-") "-" = [a; b; c; d; e] /\ uuidShape (Join [a; b; c; d; e] "-") = true.
Proof.
  intros Ha Hb Hc Hd He.
  assert (HS : Split (Join [a; b; c; d; e] "-") "-" = [a; b; c; d; e]).
  { apply Split_join; [done|]. repeat constructor; by eapply hexField_nodash. }
  split; [done|]. unfold uuidShape. by rewrite HS, Ha, Hb, Hc, Hd, He.
Qed.

(** Swapping twice gives the UUID back, and keeps it well formed. *)
Lemma swap_involutive v : uuidShape v = true ->
  uuidShape (swapUUIDByteOrder v) = true /\ swapUUIDByteOrder (swapUUIDByteOrder v) = v.
Proof.
  intros (a & b & c & d & e & Hv & HS & Ha & Hb & Hc & Hd & He)%uuidShape_inv.
  destruct (swapField_spec 4 a Ha) as (a' & Sa & Ha' & Ra).
  destruct (swapField_spec 2 b Hb) as (b' & Sb & Hb' & Rb).
  destruct (swapField_spec 2 c Hc) as (c' & Sc & Hc' & Rc).
  unfold swapUUIDByteOrder at 1 3. rewrite HS, Sa, Sb, Sc.
  destruct (uuidShape_join a' b' c' d e Ha' Hb' Hc' Hd He) as [HS' Hshape]. split; [done|].
  unfold swapUUIDByteOrder. by rewrite HS', Ra, Rb, Rc.
Qed.

Lemma uuidShape_nonempty v : uuidShape v = true -> (v =s "") = false.
Proof. intros H. destruct (String.eqb_spec v "") as [->|]; [by vm_compute in H | done]. Qed.

(** The two spellings of one machine, and nothing else. *)
Lemma sameProductUUID_iff a b : uuidShape a = true -> uuidShape b = true ->
  sameProductUUID a b = true <-> b = a \/ b = swapUUIDByteOrder a.
Proof.
  intros Ha Hb. unfold sameProductUUID. rewrite !uuidShape_nonempty by done. cbn [orb].
  rewrite orb_true_iff, !String.eqb_eq.
  destruct (swap_involutive a Ha) as [_ Sa]. destruct (swap_involutive b Hb) as [_ Sb].
  split; (intros [->|H]; [by left|right]); by rewrite H.
Qed.

Lemma normaliseProductUUID_shape v : normaliseProductUUID v = ""%string \/ uuidShape (normaliseProductUUID v) = true.
Proof.
  unfold normaliseProductUUID. destruct (uuidShape _) eqn:E; cbn [negb orb]; [|by left].
  case_bool_decide; [by left | by right].
Qed.

(** The stored UUIDs are empty or well formed. *)
Definition shaped (tbl : list AgentRow) : Prop :=
  Forall (fun r => rProductUUID r = ""%string \/ uuidShape (rProductUUID r) = true) tbl.

(** The rows that carry one of the spellings of [u]. *)
Definition rowsOf (u : string) (tbl : list AgentRow) : list AgentRow :=
  filter (fun r => rProductUUID r = u \/ rProductUUID r = swapUUIDByteOrder u) tbl.

Lemma filter_ext_Forall {A} (P Q : A -> Prop) `{!forall x, Decision (P x), !forall x, Decision (Q x)} l :
  Forall (fun x => P x <-> Q x) l -> filter P l = filter Q l.
Proof.
  induction 1 as [|x l Hx _ IH]; [done|]. rewrite !filter_cons, IH.
  destruct (decide (P x)), (decide (Q x)); naive_solver.
Qed.

Lemma candidates_rowsOf tbl fp : shaped tbl -> uuidShape (ProductUUID fp) = true ->
  filter (fun c => Is_true (sameProductUUID (ProductUUID fp) (rProductUUID c))) (findClaimCandidates tbl fp)
  = rowsOf (ProductUUID fp) tbl.
Proof.
  intros Ht Hu. unfold findClaimCandidates, FindByProductUUID, rowsOf. rewrite uuidShape_nonempty by done.
  rewrite list_filter_filter. apply filter_ext_Forall.
  unfold shaped in Ht. eapply Forall_impl; [exact Ht|]. cbn. intros r Hr.
  rewrite Is_true_true, !elem_of_cons, elem_of_nil. split.
  - intros [Hsame [Hne Hin]]. naive_solver.
  - intros Hin. destruct Hr as [Hr|Hr].
    + exfalso. rewrite Hr in Hin. destruct Hin as [Hin|Hin].
      * by rewrite <- Hin in Hu.
      * destruct (swap_involutive _ Hu) as [Hs _]. by rewrite <- Hin in Hs.
    + split; [by apply sameProductUUID_iff|]. split; [|naive_solver].
      intros Hz. by rewrite Hz in Hr.
Qed.

Lemma rowsOf_swap u tbl : uuidShape u = true -> rowsOf (swapUUIDByteOrder u) tbl = rowsOf u tbl.
Proof.
  intros Hu. unfold rowsOf. apply filter_ext_Forall, Forall_true. intros r. rewrite (proj2 (swap_involutive u Hu)). tauto.
Qed.

Lemma MatchMachine_rows tbl fp cutoff : shaped tbl -> uuidShape (ProductUUID fp) = true ->
  MatchMachine fp (findClaimCandidates tbl fp) cutoff = matchRows fp (rowsOf (ProductUUID fp) tbl) cutoff.
Proof. intros Ht Hu. unfold MatchMachine. by rewrite uuidShape_nonempty, candidates_rowsOf. Qed.

(** ** Boot nonces *)

(** Connections of one identity, oldest first: database time and nonce. *)
Definition connects (cooldown : Z) (r : AgentRow) (l : list (Z * string)) : AgentRow :=
  fold_left (fun r c => snd (CheckIdentity (fst c) (snd c) cooldown r)) l r.

(** Every nonce is the current one again or one never seen: [old] are the
    retired ones. *)
Fixpoint steady (cur : string) (old : list string) (l : list string) : Prop :=
  match l with
  | [] => True
  | n :: l' => if decide (n = cur) then steady cur old l' else n ∉ old /\ steady n (cur :: old) l'
  end.

Lemma connects_cons cooldown r t n l :
  connects cooldown r ((t, n) :: l) = connects cooldown (snd (CheckIdentity t n cooldown r)) l.
Proof. done. Qed.

Lemma steady_no_conflict cooldown l r old :
  prev_boot_nonce r ∈ old -> boot_nonce r <> prev_boot_nonce r \/ boot_nonce r = ""%string ->
  steady (boot_nonce r) old (clampBootNonce <$> l.*2) ->
  ConflictAt (connects cooldown r l) = ConflictAt r.
Proof.
  revert r old. induction l as [|[t n] l IH]; intros r old Hp Hd Hs; [done|]. cbn [fmap list_fmap steady snd] in Hs.
  rewrite connects_cons. set (m := clampBootNonce n) in *. case_decide as Hm.
  - assert (E : snd (CheckIdentity t n cooldown r) = r).
    { unfold CheckIdentity. fold m. rewrite Hm, String.eqb_refl. cbn [negb snd].
      assert (negb (boot_nonce r =s "") && (boot_nonce r =s prev_boot_nonce r) = false) as ->.
      { destruct (String.eqb_spec (boot_nonce r) "") as [->|Hn0]; [done|].
        destruct (String.eqb_spec (boot_nonce r) (prev_boot_nonce r)) as [He|]; [naive_solver|done]. }
      by destruct r. }
    rewrite E. by apply (IH r old).
  - destruct Hs as [Hnew Hs]. apply String.eqb_neq in Hm as Hm'.
    rewrite (IH _ (boot_nonce r :: old)); unfold CheckIdentity; fold m; rewrite ?Hm'; cbn [negb snd ConflictAt boot_nonce prev_boot_nonce].
    + destruct (m =s ""); cbn [negb andb]; [done|].
      destruct (String.eqb_spec m (prev_boot_nonce r)) as [->|]; done.
    + constructor.
    + by left.
    + exact Hs.
Qed.

(** ** Properties *)

(** A machine is recognised by its SMBIOS UUID and by nothing else: with
    the candidates the store returns, a machine whose UUID is carried (in
    either byte order) by exactly one row claims that row, unless that row
    has a live channel reporting a different disk image; carried by no row
    it becomes a new host that later registrations will find; carried by
    several it claims none. Reporting the UUID in the other byte order
    leads to the same row. *)
Lemma machine_claims_own_row fp tbl cutoff :
  shaped tbl -> uuidShape (ProductUUID fp) = true ->
  let out := MatchMachine fp (findClaimCandidates tbl fp) cutoff in
  match rowsOf (ProductUUID fp) tbl with
  | [] => moAgentID out = ""%string /\ moHostID out = 0
          /\ moClaimUUIDs out = [ProductUUID fp; swapUUIDByteOrder (ProductUUID fp)]
  | [prev] =>
      if decide (rMachineID prev <> ""%string /\ MachineID fp <> ""%string /\ rMachineID prev <> MachineID fp
                 /\ Status prev = Tok.agentStatusOnline /\ after (LastSeenAt prev) cutoff = true)
      then moAgentID out = ""%string /\ moHostID out = 0 /\ moClaimUUIDs out = []
      else moAgentID out = AgentID prev /\ moHostID out = HostID prev
  | _ => moAgentID out = ""%string /\ moHostID out = 0 /\ moClaimUUIDs out = []
  end /\
  forall fp', ProductUUID fp' = swapUUIDByteOrder (ProductUUID fp) -> MachineID fp' = MachineID fp ->
    let out' := MatchMachine fp' (findClaimCandidates tbl fp') cutoff in
    moAgentID out' = moAgentID out /\ moHostID out' = moHostID out.
Proof.
  intros Ht Hu. cbv zeta. rewrite !MatchMachine_rows by done. split.
  - unfold matchRows. destruct (rowsOf (ProductUUID fp) tbl) as [|prev [|b l]]; [done| |done].
    case_decide as Hc.
    + destruct Hc as (H1 & H2 & H3 & H4 & H5). apply String.eqb_neq in H1, H2, H3. apply String.eqb_eq in H4.
      by rewrite H1, H2, H3, H4, H5.
    + destruct (_ && _) eqn:E; [|done]. destruct Hc.
      repeat (apply andb_true_iff in E as [E ?]). rewrite negb_true_iff, String.eqb_neq in *.
      split_and!; try done. by apply String.eqb_eq.
  - intros fp' Hp Hm. destruct (swap_involutive _ Hu) as [Hs _].
    rewrite MatchMachine_rows by (rewrite ?Hp; done). rewrite Hp, rowsOf_swap by done.
    unfold matchRows. rewrite Hm. destruct (rowsOf (ProductUUID fp) tbl) as [|prev [|b l]]; [done| |done].
    by destruct (_ && _).
Qed.

(** Two live processes on one identity are caught, a restarting one is
    not. Alternating connections of two processes (nonces A, B, A) make
    the third one contended, and it and every connection within the
    cooldown after it are refused; while as long as each new nonce is one
    never seen before (restarts, crash loops, reconnects of the current
    process) no conflict is ever recorded. *)
Lemma contention_detects_clones cooldown r :
  0 < cooldown ->
  (forall t1 t2 t3 A B, clampBootNonce A <> clampBootNonce B -> clampBootNonce A <> ""%string ->
     let r3 := CheckIdentity t3 A cooldown
       (snd (CheckIdentity t2 B cooldown (snd (CheckIdentity t1 A cooldown r)))) in
     fst r3 = true /\
     forall t4 n, t4 < t3 + cooldown -> t3 <= t4 -> fst (CheckIdentity t4 n cooldown (snd r3)) = true) /\
  (boot_nonce r <> prev_boot_nonce r \/ boot_nonce r = ""%string ->
   forall l, steady (boot_nonce r) [prev_boot_nonce r] (clampBootNonce <$> l.*2) ->
     ConflictAt (connects cooldown r l) = ConflictAt r).
Proof.
  intros Hcool. split.
  - intros t1 t2 t3 A B HAB HA r3.
    assert (Hconf : ConflictAt (snd r3) = Some t3 /\ fst r3 = true).
    { unfold r3, CheckIdentity. cbn [snd fst boot_nonce prev_boot_nonce ConflictAt].
      apply String.eqb_neq in HA. rewrite HA.
      assert (HBA : (clampBootNonce B =s clampBootNonce A) = false) by (apply String.eqb_neq; congruence).
      rewrite HBA, String.eqb_refl. cbn. split; [done|]. lia. }
    destruct Hconf as [Hc Hf]. split; [done|]. intros t4 n H4 H4'.
    unfold CheckIdentity. cbn [fst]. rewrite Hc. destruct (_ && _); cbn; lia.
  - intros Hd l Hs. apply (steady_no_conflict cooldown l r [prev_boot_nonce r]); [constructor | done | done].
Qed.

(** ** What the code does not record *)

(** A machine whose SMBIOS UUID changed under it is admitted, but the
    stored UUID stays the old one. *)
Lemma hardware_change_keeps_old_uuid now dbNow wf row hello :
  VerifyMachine row (NewFingerprint "" hello now) = VerdictHardwareChanged ->
  fst (verifyMachine now dbNow wf row hello) = true
  /\ rProductUUID (snd (verifyMachine now dbNow wf row hello)) = rProductUUID row.
Proof. intros H. unfold verifyMachine. rewrite H. by destruct wf. Qed.

Definition demoRow (host : Z) (agent uuid mid : string) : AgentRow :=
  {| HostID := host; AgentID := agent; Status := "offline"; LastSeenAt := None; rProductUUID := uuid;
     rMachineID := mid; rMACs := []; IdentitySource := "product_uuid"; rBootAt := None; boot_nonce := "";
     prev_boot_nonce := ""; ConflictAt := None; ForeignMachineAt := None; ForeignMachineUuid := "" |}.

Definition uuidA : string := "8c1e4d56-f7c1-65c9-b323-12015fb893e2".
Definition uuidA' : string := "564d1e8c-c1f7-c965-b323-12015fb893e2".
Definition uuidB : string := "11111111-2222-3333-4444-555555555555".

Definition hello (uuid mid : string) : MachineFingerprint :=
  {| mfProductUUID := uuid; mfMachineID := mid; mfMACs := []; mfUptimeSeconds := 0 |}.

(** So when that machine later resets its machine id, the remedy for a
    cloned host, it is refused as a foreign machine. *)
Lemma reset_after_hardware_change_refused :
  let row1 := snd (verifyMachine 0 0 false (demoRow 1 "a" uuidA "m1") (hello uuidB "m1")) in
  fst (verifyMachine 0 0 false (demoRow 1 "a" uuidA "m1") (hello uuidB "m1")) = true
  /\ fst (verifyMachine 0 0 false row1 (hello uuidB "m2")) = false.
Proof. split; vm_compute; reflexivity. Qed.

(** An empty nonce shifts the history: the process that was current before
    it is then taken for a clone. *)
Lemma empty_nonce_shifts_history :
  let r1 := snd (CheckIdentity 1 "A" 10 (demoRow 1 "a" uuidA "m1")) in
  let r2 := snd (CheckIdentity 2 "" 10 r1) in
  prev_boot_nonce r2 = "A"%string /\ fst (CheckIdentity 3 "A" 10 r2) = true.
Proof. split; vm_compute; reflexivity. Qed.

(** ** Witnesses *)

End Ident.
