(* ===== verification/AnsibleTypes.v ===== *)
(** * The Ansible engine: data model and load-time validation

    [src/lib/ansible/types.go] and [src/lib/ansible/unsupported.go]: the
    untyped values a playbook carries, plays, roles, blocks and tasks, the
    [--tags]/[--skip-tags] filter, the inventory and its group flattening, and
    the validation that rejects, when a playbook is loaded, every directive
    the engine parses but does not execute.

    - An [any] value is the nested inductive [any]; a Go map with string keys
      is a [gmap]. [AGlobalHosts] stands for the reference to the map of all
      hosts that [GetAllVariable] stores inside each of that map's own values:
      the structure is cyclic, so the reference is kept as a reference.
      [ANumber] is a [json.Number].
    - [Block] is a nested inductive, as the Go struct is: a block holds the
      lists of its [block], [rescue] and [always] sub-blocks.
    - The keys of [UnknownField] are ranged over in Go's unspecified map order;
      the field is a list, in the order of that iteration.
    - Fields that no code of the engine reads are left out ([connection],
      [port], [remote_user], [check_mode], [diff], [become_method],
      [become_flags], [become_exe], the label, pause and extended fields of
      [loop_control]).
    - A [yaml.Node] is what the YAML library decodes it to ([nd_map]). *)

From S2P Require Import Prelude ListQuery.
From Stdlib Require Import SpecFloat.

Module AnsibleTypes.

(** ** Untyped values *)

#[warnings="-register-all"]
Inductive any : Type :=
| ANil
| ABool (b : bool)
| AInt (z : Z)
| AInt64 (z : Z)
| AFloat (f : spec_float)
| ANumber (s : string)
| AStr (s : string)
| AStrs (l : list string)
| AList (l : list any)
| AMap (m : gmap string any)
| AGroups (m : gmap string (list string))
| AGlobalHosts.

(** [map[string]any]. *)
Abbreviation vars := (gmap string any).

Definition is_nil (v : any) : bool :=
  match v with ANil => true | _ => false end.

(** [slices.Contains] on strings. *)
Definition contains (l : list string) (s : string) : bool := bool_decide (s ∈ l).

(** ** Base, blocks, plays *)

(** A [yaml.Node], as far as the engine looks at it. *)
#[warnings="-register-all"]
Inductive yamlNode : Type := mkNode {
  nd_zero : bool;                        (* node.IsZero() *)
  nd_document : bool;                    (* node.Kind == yaml.DocumentNode *)
  nd_content : list yamlNode;            (* node.Content *)
  nd_map : result string vars            (* node.Decode(&map[string]any) *)
}.

(** The fields [Play], [Block] and [RoleInfo] share. *)
Record Base : Type := mkBase {
  Name : string;
  Vars : list yamlNode;
  Environment : any;
  NoLog : bool;
  RunOnce : bool;
  IgnoreErrors : option bool;
  AnyErrorsFatal : bool;
  Throttle : Z;
  Timeout : Z;
  Debugger : string;
  Become : bool;
  BecomeUser : string
}.

Record LoopControl : Type := mkLoopControl {
  LoopVar : string;
  IndexVar : string
}.

Record Task : Type := mkTask {
  AsyncVal : Z;
  ChangedWhen : list string;
  Delay : Z;
  FailedWhen : list string;
  Loop : any;
  WithItems : any;
  WithDict : any;
  TaskLoopControl : LoopControl;
  Poll : Z;
  Register : string;
  RegisterType : string;
  Retries : Z;
  Until : list string;
  UnknownField : list (string * any)
}.

(** [Block]: a task, an [include_tasks] directive or a block/rescue/always
    structure. *)
#[warnings="-register-all"]
Inductive Block : Type := mkBlock {
  b_base : Base;
  b_when : list string;
  b_tags : list string;
  b_notify : string;
  b_delegateTo : string;
  b_delegateFacts : bool;
  b_task : Task;
  b_includeTasks : string;
  b_block : list Block;
  b_rescue : list Block;
  b_always : list Block
}.

(** [Role] with its embedded [RoleInfo]; a role nests its dependencies. *)
#[warnings="-register-all"]
Inductive Role : Type := mkRole {
  r_base : Base;
  r_when : list string;
  r_tags : list string;
  r_role : string;
  r_dependencies : list Role;
  r_blocks : list Block
}.

Record Play : Type := mkPlay {
  p_importPlaybook : string;
  p_base : Base;
  p_tags : list string;
  p_hosts : list string;
  p_gatherFacts : bool;
  p_varsFiles : list string;
  p_roles : list Role;
  p_handlers : list Block;
  p_preTasks : list Block;
  p_postTasks : list Block;
  p_tasks : list Block;
  p_forceHandlers : bool;
  p_maxFailPercentage : spec_float;
  p_serial : list any;
  p_strategy : string;
  p_order : string
}.

(** ** Tags *)

Definition AlwaysTag := "always".
Definition NeverTag := "never".
Definition AllTag := "all".
Definition TaggedTag := "tagged".

Fixpoint isdisjoint (a b : list string) : bool :=
  match a with
  | [] => true
  | s :: a' => if contains b s then false else isdisjoint a' b
  end.

Definition IsEnabled (t onlyTags skipTags : list string) : bool :=
  let shouldRun :=
    if (0 <? Z.of_nat (length onlyTags)) then
      if contains t AlwaysTag then true
      else if contains onlyTags AllTag && negb (contains t NeverTag) then true
      else if contains onlyTags TaggedTag && negb (contains t NeverTag) then true
      else if negb (isdisjoint onlyTags t) then true
      else false
    else true in
  if shouldRun && (0 <? Z.of_nat (length skipTags)) then
    if contains skipTags AllTag
       && (negb (contains t AlwaysTag) || negb (contains skipTags AlwaysTag)) then false
    else if negb (isdisjoint skipTags t) then false
    else if contains skipTags TaggedTag && (0 <? Z.of_nat (length t)) then false
    else shouldRun
  else shouldRun.

(** The loop both [JoinTag] and [mergeWhen] run: append what is not there. *)
Fixpoint appendNew (acc l : list string) : list string :=
  match l with
  | [] => acc
  | x :: l' => appendNew (if contains acc x then acc else acc ++ [x]) l'
  end.

Definition JoinTag (t other : list string) : list string := appendNew t other.

(** ** Inventory *)

Record InventoryGroup : Type := mkGroup {
  g_groups : list string;
  g_hosts : list string;
  g_vars : vars
}.

Record Inventory : Type := mkInventory {
  inv_hosts : gmap string vars;
  inv_vars : vars;
  inv_groups : gmap string InventoryGroup
}.

(** The two sets [GetHostsFromGroup] mutates. *)
Record unavailable : Type := mkUnavailable {
  un_hosts : gset string;
  un_groups : gset string
}.

Fixpoint getHostsFromGroupValidHosts (inv : Inventory) (groupHosts : list string)
  (un : gset string) : list string * gset string :=
  match groupHosts with
  | [] => ([], un)
  | h :: rest =>
    match inv_hosts inv !! h with
    | Some _ =>
      if bool_decide (h ∈ un) then getHostsFromGroupValidHosts inv rest un
      else
        let '(vs, un') := getHostsFromGroupValidHosts inv rest ({[h]} ∪ un) in
        (h :: vs, un')
    | None => getHostsFromGroupValidHosts inv rest un
    end
  end.

(** The loop over a group's sub-groups, with the recursive call as argument. *)
Fixpoint subgroupHosts
  (rec : string -> unavailable -> option (list string * unavailable))
  (subs : list string) (un : unavailable) : option (list string * unavailable) :=
  match subs with
  | [] => Some ([], un)
  | cg :: rest =>
    if bool_decide (cg ∈ un_groups un) then subgroupHosts rec rest un
    else
      match rec cg (mkUnavailable (un_hosts un) ({[cg]} ∪ un_groups un)) with
      | None => None
      | Some (hs, un1) =>
        match subgroupHosts rec rest un1 with
        | None => None
        | Some (hs', un2) => Some (hs ++ hs', un2)
        end
      end
  end.

(** [fuel] bounds the depth of the recursion. *)
Fixpoint GetHostsFromGroup (fuel : nat) (inv : Inventory) (groupName : string)
  (un : unavailable) : option (list string * unavailable) :=
  match fuel with
  | O => None
  | S fuel' =>
    match inv_groups inv !! groupName with
    | None => Some ([], un)
    | Some v =>
      let un0 := mkUnavailable (un_hosts un) ({[groupName]} ∪ un_groups un) in
      match subgroupHosts (GetHostsFromGroup fuel' inv) (g_groups v) un0 with
      | None => None
      | Some (hs, un1) =>
        let '(vs, uh) := getHostsFromGroupValidHosts inv (g_hosts v) (un_hosts un1) in
        Some (hs ++ vs, mkUnavailable uh (un_groups un1))
      end
    end
  end.

(** ** Template syntax *)

(** [strings.Contains]. *)
Fixpoint strContains (s sub : string) : bool :=
  HasPrefix s sub ||
  match s with
  | EmptyString => false
  | String _ s' => strContains s' sub
  end.

Definition IsTmplSyntax (s : string) : bool :=
  strContains s "{{" && strContains s "}}".

Definition ParseTmplSyntax (s : string) : string := "{{ " +++ s +++ " }}".

Definition TrimTmplSyntax (s : string) : string :=
  ListQ.TrimSpace (TrimSuffix (TrimPrefix s "{{") "}}").

(** ** Load-time validation *)

Definition quoted (s : string) : string :=
  String (Ascii.ascii_of_nat 34) (s +++ String (Ascii.ascii_of_nat 34) "").

(** Go's [%q], for strings without characters it escapes. *)
Definition unsupported (where_ directive advice : string) : string :=
  let msg := where_ +++ ": " +++ quoted directive +++ " is not implemented by this engine" in
  if negb (advice =s "") then msg +++ "; " +++ advice else msg.

Definition describe (kind name : string) : string :=
  if name =s "" then kind else kind +++ " " +++ quoted name.

Definition validateBase (where_ : string) (b : Base) : option string :=
  if AnyErrorsFatal b then
    Some (unsupported where_ "any_errors_fatal" "a failing host already aborts the play")
  else if 0 <? Throttle b then
    Some (unsupported where_ "throttle" "use serial to limit how many hosts run at once")
  else if 0 <? Timeout b then
    Some (unsupported where_ "timeout" "bound the command itself, e.g. with timeout(1)")
  else if negb (Debugger b =s "") then Some (unsupported where_ "debugger" "")
  else None.

Definition unsupportedDirectives : list (string * string) :=
  [("include_role", "declare the role in the play's roles: list");
   ("import_role", "declare the role in the play's roles: list");
   ("import_playbook", "the referenced playbook is not loaded; merge its plays into this file");
   ("local_action", "use delegate_to: localhost")].

Definition directiveAdvice (k : string) : option string :=
  snd <$> List.find (fun e => fst e =s k) unsupportedDirectives.

Fixpoint validateUnknownFields (where_ : string) (fields : list (string * any)) : option string :=
  match fields with
  | [] => None
  | (k, _) :: rest =>
    match directiveAdvice k with
    | Some advice => Some (unsupported where_ k advice)
    | None =>
      if HasPrefix k "with_" then
        Some (unsupported where_ k
                "only with_items and with_dict are available; otherwise use loop")
      else validateUnknownFields where_ rest
    end
  end.

(** The checks [validateBlock] makes on the block itself, before it descends. *)
Definition validateBlockSelf (b : Block) : option string :=
  let where_ := describe "task" (Name (b_base b)) in
  let t := b_task b in
  if negb (b_notify b =s "") then
    Some (unsupported where_ "notify"
            "handlers are not implemented; call the handler task directly or guard it with when")
  else if b_delegateFacts b then
    Some (unsupported where_ "delegate_facts" "facts always belong to the original host")
  else if (0 <? AsyncVal t) || (0 <? Poll t) then
    Some (unsupported where_ "async/poll" "run the command in the background from the shell instead")
  else if 1 <? Z.of_nat (length (List.filter (fun v => negb (is_nil v))
                                   [Loop t; WithItems t; WithDict t])) then
    Some (where_ +++ ": loop, with_items and with_dict are mutually exclusive")
  else if (0 <? Z.of_nat (length (b_block b))) && negb (is_nil (Environment (b_base b))) then
    Some (unsupported where_ "block-level environment" "set environment on each task")
  else
    match validateBase where_ (b_base b) with
    | Some e => Some e
    | None => validateUnknownFields where_ (UnknownField t)
    end.

(** The first error of a list, Go's [if err := f(x); err != nil { return err }]
    in a loop. *)
Fixpoint firstErr {A} (f : A -> option string) (l : list A) : option string :=
  match l with
  | [] => None
  | x :: l' => match f x with Some e => Some e | None => firstErr f l' end
  end.

Fixpoint validateBlock (b : Block) : option string :=
  match validateBlockSelf b with
  | Some e => Some e
  | None =>
    match firstErr validateBlock (b_block b) with
    | Some e => Some e
    | None =>
      match firstErr validateBlock (b_rescue b) with
      | Some e => Some e
      | None => firstErr validateBlock (b_always b)
      end
    end
  end.

Definition ValidateBlocks (blocks : list Block) : option string := firstErr validateBlock blocks.

(** [MaxFailPercentage > 0] on a float. *)
Definition floatPositive (f : spec_float) : bool := SFltb (S754_zero false) f.

Definition ValidatePlay (play : Play) : option string :=
  let where_ := describe "play" (Name (p_base play)) in
  if negb (p_strategy play =s "") && negb (p_strategy play =s "linear") then
    Some (unsupported where_ ("strategy: " +++ p_strategy play)
            "only the default linear strategy is available")
  else if negb (p_order play =s "") then
    Some (unsupported where_ "order" "hosts run in inventory order")
  else if p_forceHandlers play then
    Some (unsupported where_ "force_handlers" "handlers are not implemented")
  else if floatPositive (p_maxFailPercentage play) then
    Some (unsupported where_ "max_fail_percentage" "a failing host aborts the play")
  else if 0 <? Z.of_nat (length (p_handlers play)) then
    Some (unsupported where_ "handlers"
            "notify/handlers are not implemented; call the task directly or guard it with when")
  else if negb (is_nil (Environment (p_base play))) then
    Some (unsupported where_ "play-level environment" "set environment on each task")
  else validateBase where_ (p_base play).

Definition validateOnePlay (play : Play) : option string :=
  if negb (p_importPlaybook play =s "") then
    Some (unsupported (describe "play" (Name (p_base play))) "import_playbook"
            (default "" (directiveAdvice "import_playbook")))
  else if Z.of_nat (length (p_hosts play)) =? 0 then
    Some "playbook's hosts must not be empty"
  else
    match ValidatePlay play with
    | Some e => Some e
    | None => firstErr ValidateBlocks [p_preTasks play; p_tasks play; p_postTasks play]
    end.

(** [Playbook.Validate]. *)
Definition Validate (plays : list Play) : option string := firstErr validateOnePlay plays.

(** ** Tasks and results *)

Inductive LoopKind : Type := LoopKindLoop | LoopKindItems | LoopKindDict.

(** [TaskStatusZero] is the zero value of the string type. *)
Inductive TaskStatus : Type :=
| TaskStatusZero | TaskStatusPending | TaskStatusRunning | TaskStatusOK | TaskStatusChanged
| TaskStatusFailed | TaskStatusSkipped | TaskStatusUnreachable.

#[export] Instance TaskStatus_eq_dec : EqDecision TaskStatus.
Proof. solve_decision. Defined.

Definition statusString (s : TaskStatus) : string :=
  match s with
  | TaskStatusZero => ""
  | TaskStatusPending => "pending"
  | TaskStatusRunning => "running"
  | TaskStatusOK => "ok"
  | TaskStatusChanged => "changed"
  | TaskStatusFailed => "failed"
  | TaskStatusSkipped => "skipped"
  | TaskStatusUnreachable => "unreachable"
  end.

Record ModuleRef : Type := mkModuleRef { mr_name : string; mr_args : any }.

Record TaskSpec : Type := mkTaskSpec {
  ts_name : string;
  ts_module : ModuleRef;
  ts_hosts : list string;
  ts_when : list string;
  ts_failedWhen : list string;
  ts_loop : any;
  ts_loopKind : LoopKind;
  ts_loopControl : LoopControl;
  ts_changedWhen : list string;
  ts_environment : any;
  ts_register : string;
  ts_registerType : string;
  ts_retries : Z;
  ts_delay : Z;
  ts_until : list string;
  ts_become : bool;
  ts_becomeUser : string;
  ts_delegateTo : string;
  ts_async : Z;
  ts_poll : Z;
  ts_notify : string;
  ts_ignoreErrors : option bool
}.

(** [Output] is a nilable map. *)
Record TaskResult : Type := mkResult {
  tr_host : string;
  tr_status : TaskStatus;
  tr_changed : bool;
  tr_output : option vars;
  tr_error : string
}.

Record LoopResult : Type := mkLoopResult {
  lr_item : any;
  lr_result : TaskResult
}.

(** ** Deduplicating append *)

Lemma contains_spec l s : contains l s = true <-> s ∈ l.
Proof. unfold contains. by rewrite bool_decide_eq_true. Qed.

Lemma elem_of_appendNew acc l x : x ∈ appendNew acc l <-> x ∈ acc \/ x ∈ l.
Proof.
  revert acc. induction l as [|y l IH]; intros acc; cbn [appendNew].
  - rewrite elem_of_nil. tauto.
  - rewrite IH, elem_of_cons. destruct (contains acc y) eqn:E.
    + apply contains_spec in E. naive_solver.
    + rewrite elem_of_app, list_elem_of_singleton. tauto.
Qed.

Lemma NoDup_appendNew acc l : NoDup acc -> NoDup (appendNew acc l).
Proof.
  revert acc. induction l as [|y l IH]; intros acc H; [done|].
  cbn [appendNew]. apply IH. destruct (contains acc y) eqn:E; [done|].
  apply NoDup_app. split; [done|]. split; [|apply NoDup_singleton].
  intros x Hx. rewrite list_elem_of_singleton. intros ->.
  apply not_true_iff_false in E. apply E. by apply contains_spec.
Qed.

Lemma appendNew_prefix acc l : acc `prefix_of` appendNew acc l.
Proof.
  revert acc. induction l as [|y l IH]; intros acc; [done|].
  cbn [appendNew]. etrans; [|apply IH]. destruct (contains acc y); [done|].
  by apply prefix_app_r.
Qed.

Lemma appendNew_disjoint acc l : NoDup l -> (forall x, x ∈ l -> x ∉ acc) ->
  appendNew acc l = acc ++ l.
Proof.
  intros Hl. revert acc. induction Hl as [|y l Hy Hl IH]; intros acc H; cbn [appendNew].
  - by rewrite app_nil_r.
  - destruct (contains acc y) eqn:E; [apply contains_spec in E; destruct (H y); set_solver|].
    rewrite IH; [by rewrite <- app_assoc|].
    intros x Hx. rewrite elem_of_app, list_elem_of_singleton. intros [?| ->]; [|done].
    apply (H x); [by right | done].
Qed.

(** ** Validation against its specification *)

(** A block of a list, at any level of nesting. *)
Inductive occurs (b : Block) : list Block -> Prop :=
| occurs_here bs : b ∈ bs -> occurs b bs
| occurs_block c bs : c ∈ bs -> occurs b (b_block c) -> occurs b bs
| occurs_rescue c bs : c ∈ bs -> occurs b (b_rescue c) -> occurs b bs
| occurs_always c bs : c ∈ bs -> occurs b (b_always c) -> occurs b bs.

(** The directives the engine executes. *)
Definition supportedBase (b : Base) : Prop :=
  AnyErrorsFatal b = false /\ Throttle b <= 0 /\ Timeout b <= 0 /\ Debugger b = "".

Definition supportedKey (k : string) : Prop :=
  k ∉ ["include_role"; "import_role"; "import_playbook"; "local_action"] /\
  HasPrefix k "with_" = false.

Definition supported (b : Block) : Prop :=
  b_notify b = "" /\ b_delegateFacts b = false /\
  AsyncVal (b_task b) <= 0 /\ Poll (b_task b) <= 0 /\
  (forall x y, x <> y -> x ∈ [0; 1; 2] -> y ∈ [0; 1; 2] ->
     let get i := if i =? 0 then Loop (b_task b) else
                  if i =? 1 then WithItems (b_task b) else WithDict (b_task b) in
     is_nil (get x) = true \/ is_nil (get y) = true) /\
  (b_block b = [] \/ is_nil (Environment (b_base b)) = true) /\
  supportedBase (b_base b) /\
  Forall (fun f => supportedKey f.1) (UnknownField (b_task b)).

Lemma firstErr_None {A} (f : A -> option string) l :
  firstErr f l = None <-> forall x, x ∈ l -> f x = None.
Proof.
  induction l as [|x l IH]; cbn [firstErr].
  - split; [|done]. intros _ x Hx. by apply elem_of_nil in Hx.
  - destruct (f x) eqn:E.
    + split; [done|]. intros H. specialize (H x ltac:(by left)). congruence.
    + rewrite IH. split.
      * intros H y [->|Hy]%elem_of_cons; [done | by apply H].
      * intros H y Hy. apply H. by right.
Qed.

Lemma validateBase_None w b : validateBase w b = None <-> supportedBase b.
Proof.
  unfold validateBase, supportedBase. destruct (AnyErrorsFatal b); [naive_solver|].
  destruct (Z.ltb_spec 0 (Throttle b)); [split; [done|lia]|].
  destruct (Z.ltb_spec 0 (Timeout b)); [split; [done|lia]|].
  destruct (String.eqb_spec (Debugger b) "") as [->|Hd]; cbn; [|naive_solver].
  split; [|done]. by repeat split.
Qed.

Lemma directiveAdvice_None k : directiveAdvice k = None <->
  k ∉ ["include_role"; "import_role"; "import_playbook"; "local_action"].
Proof.
  unfold directiveAdvice, unsupportedDirectives. cbn [List.find fst].
  destruct (String.eqb_spec "include_role" k) as [<-|]; [split; [done|set_solver]|].
  destruct (String.eqb_spec "import_role" k) as [<-|]; [split; [done|set_solver]|].
  destruct (String.eqb_spec "import_playbook" k) as [<-|]; [split; [done|set_solver]|].
  destruct (String.eqb_spec "local_action" k) as [<-|]; [split; [done|set_solver]|].
  split; [|done]. intros _. set_solver.
Qed.

Lemma validateUnknownFields_None w fs :
  validateUnknownFields w fs = None <-> Forall (fun f => supportedKey f.1) fs.
Proof.
  induction fs as [|[k v] fs IH]; cbn [validateUnknownFields]; [by split|].
  rewrite Forall_cons. unfold supportedKey at 1. cbn [fst]. rewrite <- directiveAdvice_None.
  destruct (directiveAdvice k); [naive_solver|]. destruct (HasPrefix k "with_"); [naive_solver|].
  rewrite IH. tauto.
Qed.

Lemma oneLoop (a b c : any) :
  (1 <? Z.of_nat (length (List.filter (fun v => negb (is_nil v)) [a; b; c]))) = false <->
  (forall x y, x <> y -> x ∈ [0; 1; 2] -> y ∈ [0; 1; 2] ->
     let get i := if i =? 0 then a else if i =? 1 then b else c in
     is_nil (get x) = true \/ is_nil (get y) = true).
Proof.
  rewrite Z.ltb_ge. split.
  - intros H x y Hxy Hx Hy. cbn [List.filter] in H.
    rewrite !elem_of_cons, elem_of_nil in Hx, Hy.
    destruct Hx as [->|[->|[->|[]]]], Hy as [->|[->|[->|[]]]]; try done; cbn;
      destruct (is_nil a), (is_nil b), (is_nil c); cbn in H; (tauto || (cbn in H; lia)).
  - intros H. pose proof (H 0 1 ltac:(lia) ltac:(set_solver) ltac:(set_solver)) as H1.
    pose proof (H 0 2 ltac:(lia) ltac:(set_solver) ltac:(set_solver)) as H2.
    pose proof (H 1 2 ltac:(lia) ltac:(set_solver) ltac:(set_solver)) as H3. cbn in H1, H2, H3.
    cbn [List.filter].
    destruct (is_nil a), (is_nil b), (is_nil c); cbn; try lia; naive_solver.
Qed.

Lemma validateBlockSelf_None b : validateBlockSelf b = None <-> supported b.
Proof.
  unfold validateBlockSelf, supported.
  destruct (String.eqb_spec (b_notify b) "") as [->|]; cbn [negb]; [|naive_solver].
  destruct (b_delegateFacts b); [naive_solver|].
  destruct (Z.ltb_spec 0 (AsyncVal (b_task b))); cbn [orb]; [split; [done|lia]|].
  destruct (Z.ltb_spec 0 (Poll (b_task b))); [split; [done|lia]|].
  rewrite <- oneLoop. destruct (1 <? _); [split; [done|naive_solver]|].
  rewrite <- (validateBase_None (describe "task" (Name (b_base b)))).
  rewrite <- (validateUnknownFields_None (describe "task" (Name (b_base b)))).
  destruct (b_block b) as [|c cs] eqn:Eb; [cbn [length]|].
  - destruct (validateBase _ _); naive_solver.
  - replace (0 <? Z.of_nat (length (c :: cs))) with true by (symmetry; apply Z.ltb_lt; cbn [length]; lia). cbn [andb].
    destruct (is_nil (Environment (b_base b))); cbn [negb]; [|naive_solver].
    destruct (validateBase _ _); naive_solver.
Qed.

Lemma validateBlock_None b : validateBlock b = None <->
  supported b /\ ValidateBlocks (b_block b) = None /\ ValidateBlocks (b_rescue b) = None /\
  ValidateBlocks (b_always b) = None.
Proof.
  unfold ValidateBlocks. rewrite <- validateBlockSelf_None.
  destruct b as [ba w t n d df tk i bl re al]. cbn [validateBlock b_block b_rescue b_always].
  destruct (validateBlockSelf _); [naive_solver|]. destruct (firstErr validateBlock bl); [naive_solver|].
  destruct (firstErr validateBlock re); [naive_solver|]. naive_solver.
Qed.

(** Induction on a block and its sections. *)
Fixpoint block_induction (P : Block -> Prop)
  (H : forall b, Forall P (b_block b) -> Forall P (b_rescue b) -> Forall P (b_always b) -> P b)
  (b : Block) : P b :=
  let go := fix go (l : list Block) : Forall P l :=
    match l with
    | [] => Forall_nil_2 P
    | x :: l' => Forall_cons_2 P x l' (block_induction P H x) (go l')
    end in
  H b (go (b_block b)) (go (b_rescue b)) (go (b_always b)).

Lemma occurs_sub x c bs : c ∈ bs -> occurs x [c] -> occurs x bs.
Proof.
  intros Hc Ho. inversion_clear Ho as [bs' Hi|d bs' Hd Hi|d bs' Hd Hi|d bs' Hd Hi].
  1: apply list_elem_of_singleton in Hi as ->; by apply occurs_here.
  all: apply list_elem_of_singleton in Hd as ->.
  - by apply occurs_block with c.
  - by apply occurs_rescue with c.
  - by apply occurs_always with c.
Qed.

(** Validation at load time is exact: a list of blocks passes
    [ValidateBlocks] if and only if every block in it, at every level of
    block / rescue / always nesting, uses only directives the engine
    executes; so no unsupported directive is silently dropped and no
    supported block is refused. *)
Lemma ValidateBlocks_exact bs :
  ValidateBlocks bs = None <-> forall b, occurs b bs -> supported b.
Proof.
  split.
  - intros H b Ho. induction Ho as [bs Hb|c bs Hc _ IH|c bs Hc _ IH|c bs Hc _ IH].
    1: unfold ValidateBlocks in H; rewrite firstErr_None in H; apply H, validateBlock_None in Hb; apply Hb.
    all: unfold ValidateBlocks in H; rewrite firstErr_None in H; apply H, validateBlock_None in Hc;
      apply IH; apply Hc.
  - intros H. unfold ValidateBlocks. rewrite firstErr_None. intros b Hb.
    assert (forall x, occurs x [b] -> supported x) as Hx.
    { intros x Ho. apply H. by apply (occurs_sub x b). }
    clear Hb H bs. induction b as [b IH1 IH2 IH3] using block_induction.
    apply validateBlock_None. split; [apply Hx, occurs_here; by left|].
    unfold ValidateBlocks. rewrite !firstErr_None. rewrite Forall_forall in IH1, IH2, IH3.
    split; [|split]; intros c Hc; [apply IH1|apply IH2|apply IH3]; try done;
      intros x Ho; apply Hx.
    + apply occurs_block with b; [by left|]. by apply (occurs_sub x c).
    + apply occurs_rescue with b; [by left|]. by apply (occurs_sub x c).
    + apply occurs_always with b; [by left|]. by apply (occurs_sub x c).
Qed.

(** Without a tag filter a task tagged [never] runs. *)
Lemma never_runs_without_filter : IsEnabled [NeverTag] [] [] = true.
Proof. reflexivity. Qed.

End AnsibleTypes.
