(* ===== verification/AnsibleVars.v ===== *)
(** * The Ansible engine: variables and host resolution

    [src/lib/ansible/variable/]: the deep merge of variable maps, the
    per-host variable store with its precedence order, group resolution with
    cycle detection, and the resolution of a play's host patterns.

    - [Value] is the store behind [Variable]'s lock; [Get] and [Merge] run one
      function on it, so an operation is a function of [Value].
    - [Env] collects what the code reads from outside: the order in which Go
      ranges over the inventory's maps (unspecified, so every order is
      allowed) and the machine's interface addresses.
    - [GetAllVariable] returns a map that contains, under [global_hosts], the
      map of all hosts, which contains it: [AllVars] keeps the map of all hosts
      and the name of the host whose map it is, and [AGlobalHosts] is the
      reference. *)

From S2P Require Import Prelude ListQuery AnsibleTypes.
From Stdlib Require Import SpecFloat.
Import AnsibleTypes.

Module AnsibleVars.

(** ** Deep merge *)

(** [deepMerge]: the loop over the second map's entries. *)
Fixpoint deepMerge (val1 val2 : any) {struct val2} : any :=
  match val1, val2 with
  | AMap m1, AMap m2 =>
    AMap (map_fold (fun key v2 merged =>
                      match merged !! key with
                      | Some existing => <[key := deepMerge existing v2]> merged
                      | None => <[key := v2]> merged
                      end) m1 m2)
  | _, _ => val2
  end.

Definition CombineVariables (m1 m2 : vars) : vars :=
  map_fold (fun k v2 result =>
              match result !! k with
              | Some v1 => <[k := deepMerge v1 v2]> result
              | None => <[k := v2]> result
              end) m1 m2.

(** ** Group resolution *)

(** [combineSlice]: [seen] is the set of [result]'s elements throughout, so
    the loop is [appendNew]. *)
Definition combineSlice (s1 s2 : list string) : list string := appendNew s1 s2.

Section resolve.
Context (inv : Inventory).

(** The loop over the sub-groups, with the recursive call as argument. *)
Fixpoint resolveSubGroups
  (rec : string -> gset string -> option (list string * gset string))
  (subs : list string) (hosts : list string) (visited : gset string)
  : option (list string * gset string) :=
  match subs with
  | [] => Some (hosts, visited)
  | sub :: rest =>
    match rec sub visited with
    | None => None
    | Some (subHosts, visited') =>
      resolveSubGroups rec rest (combineSlice hosts subHosts) visited'
    end
  end.

(** [resolveGroupHosts] with the visited set it mutates; [fuel] bounds the
    depth of the recursion. *)
Fixpoint resolveGroupHosts (fuel : nat) (groupName : string) (visited : gset string)
  : option (list string * gset string) :=
  match fuel with
  | O => None
  | S fuel' =>
    if bool_decide (groupName ∈ visited) then Some ([], visited)
    else
      let visited := {[groupName]} ∪ visited in
      match inv_groups inv !! groupName with
      | None => Some ([], visited)
      | Some group =>
        match resolveSubGroups (resolveGroupHosts fuel') (g_groups group) [] visited with
        | None => None
        | Some (hosts, visited') => Some (combineSlice hosts (g_hosts group), visited')
        end
      end
  end.

(** Depth enough for any chain of distinct groups. *)
Definition groupFuel : nat := S (S (size (inv_groups inv))).

End resolve.

Record ifAddr : Type := mkIfAddr {
  ia_ipnet : bool;        (* the address is a *net.IPNet *)
  ia_loopback : bool;
  ia_to4 : bool;          (* IP.To4() != nil *)
  ia_globalUnicast : bool;
  ia_string : string
}.

Record Env : Type := mkEnv {
  env_hosts : list string;               (* order of range inv.Hosts *)
  env_groups : list string;              (* order of range inv.Groups *)
  env_addrs : option (list ifAddr)       (* net.InterfaceAddrs *)
}.

(** An environment ranges over exactly the inventory's keys. *)
Definition envOk (env : Env) (inv : Inventory) : Prop :=
  Permutation (env_hosts env) (elements (dom (inv_hosts inv))) /\
  Permutation (env_groups env) (elements (dom (inv_groups inv))).

Definition keyGroupsAll := "all".
Definition keyUngrouped := "ungrouped".
Definition keyGlobalHosts := "global_hosts".
Definition keyGroups := "groups".
Definition keyIPv4 := "ipv4".
Definition keyIPv6 := "ipv6".
Definition keyHostname := "hostname".
Definition keyInventoryName := "inventory_name".
Definition keyOS := "os".
Definition keyOSHostname := "hostname".
Definition keyLocalhost := "localhost".

Definition groupHosts (inv : Inventory) (name : string) : list string :=
  match resolveGroupHosts inv (groupFuel inv) name ∅ with
  | Some (hosts, _) => hosts
  | None => []
  end.

Definition namedGroups (env : Env) (inv : Inventory) (groups : gmap string (list string)) :
  gmap string (list string) :=
  foldl (fun gs name => <[name := groupHosts inv name]> gs) groups (env_groups env).

Definition groupedHosts (env : Env) (inv : Inventory) : list string :=
  concat ((groupHosts inv) <$> env_groups env).

Definition ConvertGroup (env : Env) (inv : Inventory) : gmap string (list string) :=
  let all := env_hosts env in
  let groups := namedGroups env inv {[keyGroupsAll := all]} in
  let grouped := groupedHosts env inv in
  <[keyUngrouped := filter (fun h => contains grouped h = false) all]> groups.

(** ** The store *)

Record HostVars : Type := mkHostVars {
  DefaultVars : vars;
  RemoteVars : vars;
  RuntimeVars : vars
}.

Record Value : Type := mkValue {
  v_inventory : Inventory;
  v_hosts : gmap string HostVars;
  v_result : vars
}.

Definition set_v_hosts (v : Value) (h : gmap string HostVars) : Value :=
  mkValue (v_inventory v) h (v_result v).

Definition emptyHostVars : HostVars := mkHostVars ∅ ∅ ∅.

(** [New]: every declared host and every host a group lists. *)
Definition New (inv : Inventory) : Value :=
  let declared := (fun _ => emptyHostVars) <$> inv_hosts inv in
  let hosts := map_fold (fun _ group hosts =>
                 foldl (fun hs h => if decide (is_Some (hs !! h)) then hs
                                    else <[h := emptyHostVars]> hs) hosts (g_hosts group))
                 declared (inv_groups inv) in
  mkValue inv hosts ∅.

(** ** Reading variables *)

Fixpoint firstAddr (ok : ifAddr -> bool) (l : list ifAddr) : string :=
  match l with
  | [] => ""
  | a :: l' =>
    if ia_ipnet a && negb (ia_loopback a) then
      if ok a then ia_string a else firstAddr ok l'
    else firstAddr ok l'
  end.

Definition getLocalIP (env : Env) (ipType : string) : string :=
  match env_addrs env with
  | None => ""
  | Some addrs =>
    firstAddr (fun a =>
      ((ipType =s keyIPv4) && ia_to4 a && ia_globalUnicast a)
      || ((ipType =s keyIPv6) && negb (ia_to4 a) && ia_globalUnicast a)) addrs
  end.

(** [if _, ok := m[k]; !ok { m[k] = v }]. *)
Definition setDefault (k : string) (v : any) (m : vars) : vars :=
  match m !! k with
  | Some _ => m
  | None => <[k := v]> m
  end.

Definition setDefaultHostVars (env : Env) (hostname : string) (m : vars) : vars :=
  let m := if hostname =s keyLocalhost then
             let m := setDefault keyIPv4 (AStr (getLocalIP env keyIPv4)) m in
             setDefault keyIPv6 (AStr (getLocalIP env keyIPv6)) m
           else m in
  let m := match m !! keyOS with
           | Some (AMap osMap) =>
             match osMap !! keyOSHostname with
             | Some osHostname => <[keyHostname := osHostname]> m
             | None => m
             end
           | _ => m
           end in
  setDefault keyHostname (AStr hostname) (setDefault keyInventoryName (AStr hostname) m).

(** The group variables of the groups that list the host, in range order. *)
Definition groupLayers (env : Env) (inv : Inventory) (hostname : string) : list vars :=
  omap (fun name => gv ← inv_groups inv !! name;
                    if contains (g_hosts gv) hostname then Some (g_vars gv) else None)
    (env_groups env).

Definition mergedVars (env : Env) (v : Value) (hostname : string) (hv : HostVars) : vars :=
  let inv := v_inventory v in
  let merged := CombineVariables ∅ (DefaultVars hv) in
  let merged := CombineVariables merged (inv_vars inv) in
  let merged := foldl CombineVariables merged (groupLayers env inv hostname) in
  let merged := match inv_hosts inv !! hostname with
                | Some hostSpecific => CombineVariables merged hostSpecific
                | None => merged
                end in
  let merged := CombineVariables merged (RemoteVars hv) in
  let merged := CombineVariables merged (RuntimeVars hv) in
  setDefaultHostVars env hostname merged.

Definition buildGlobalHosts (env : Env) (v : Value) : gmap string vars :=
  map_imap (fun hostname hv => Some (mergedVars env v hostname hv)) (v_hosts v).

(** The map [GetAllVariable] returns: the entry of [av_host] in [av_globals]. *)
Record AllVars : Type := mkAll {
  av_globals : gmap string vars;
  av_host : string
}.

Definition allVars (a : AllVars) : vars := default ∅ (av_globals a !! av_host a).

(** [vars[k] = x] on that map, which the map of all hosts also shows. *)
Definition setVar (a : AllVars) (k : string) (x : any) : AllVars :=
  mkAll (<[av_host a := <[k := x]> (allVars a)]> (av_globals a)) (av_host a).

Definition GetAllVariable (env : Env) (hostname : string) (v : Value) : AllVars :=
  let globalHosts := buildGlobalHosts env v in
  match globalHosts !! hostname with
  | None => mkAll {[hostname := ∅]} hostname
  | Some _ =>
    let a := mkAll globalHosts hostname in
    let a := setVar a keyGlobalHosts AGlobalHosts in
    setVar a keyGroups (AGroups (ConvertGroup env (v_inventory v)))
  end.

(** ** Host patterns *)

(** [^(.*?)\[(\d+)]$]: the shortest prefix without a newline that is followed
    by a bracketed number ending the string. *)
Definition bracketed (s : string) : option string :=
  match s with
  | String "["%char rest =>
    if HasSuffix rest "]" then
      let d := TrimSuffix rest "]" in
      if negb (d =s "") && all_digits d then Some d else None
    else None
  | _ => None
  end.

Fixpoint matchIndex (s : string) : option (string * string) :=
  match bracketed s with
  | Some d => Some (EmptyString, d)
  | None =>
    match s with
    | EmptyString => None
    | String c s' =>
      if Ascii.eqb c (Ascii.ascii_of_nat 10) then None
      else
        match matchIndex s' with
        | Some (pre, d) => Some (String c pre, d)
        | None => None
        end
    end
  end.

Definition resolveHostnameIndexed (groups : gmap string (list string)) (name : string)
  (result : list string) : list string :=
  match matchIndex name with
  | None => result
  | Some (grp, num) =>
    match ParseInt num 64 with
    | None => result
    | Some index =>
      match groups !! grp with
      | Some hosts =>
        match hosts !! Z.to_nat index with
        | Some h => combineSlice result [h]
        | None => result
        end
      | None => result
      end
    end
  end.

Definition resolveHostname (v : Value) (groups : gmap string (list string)) (name : string)
  (result : list string) : list string :=
  let result := match v_hosts v !! name with
                | Some _ => combineSlice result [name]
                | None => result
                end in
  let result := match groups !! name with
                | Some hosts => combineSlice result hosts
                | None => result
                end in
  resolveHostnameIndexed groups name result.

Definition GetHostnames (env : Env) (names : list string) (v : Value) : list string :=
  let groups := ConvertGroup env (v_inventory v) in
  foldl (fun result name => resolveHostname v groups (ListQ.TrimSpace name) result) [] names.

Definition GetHostMaxLength (v : Value) : Z :=
  map_fold (fun h _ maxLen =>
              if maxLen <? Z.of_nat (String.length h) then Z.of_nat (String.length h) else maxLen)
    0 (v_hosts v).

(** ** Merging variables *)

(** [if hv, ok := v.Hosts[host]; ok { f(hv) }]. *)
Definition updHost (v : Value) (host : string) (f : HostVars -> HostVars) : Value :=
  set_v_hosts v (alter f host (v_hosts v)).

(** [parseYAMLNode]. *)
Definition parseYAMLNode (node : yamlNode) : result string vars :=
  let target := match nd_document node, nd_content node with
                | true, c :: _ => c
                | _, _ => node
                end in
  match nd_map target with
  | Ok m => Ok m
  | Err e => Err ("failed to decode YAML node: " +++ e)
  end.

Definition mergeRuntimeVariableNodes (nodes : list yamlNode) (hv : HostVars) : HostVars :=
  foldl (fun hv node =>
           if nd_zero node then hv
           else match parseYAMLNode node with
                | Err _ => hv
                | Ok data => mkHostVars (DefaultVars hv) (RemoteVars hv)
                               (CombineVariables (RuntimeVars hv) data)
                end) hv nodes.

Definition MergeRuntimeVariable (nodes : list yamlNode) (hosts : list string) (v : Value) : Value :=
  match nodes with
  | [] => v
  | _ => foldl (fun v host => updHost v host (mergeRuntimeVariableNodes nodes)) v hosts
  end.

Definition MergeRemoteVariable (host : string) (m : vars) (v : Value) : Value :=
  updHost v host (fun hv => mkHostVars (DefaultVars hv) m (RuntimeVars hv)).

Definition MergeHostDefaultVars (host : string) (m : vars) (v : Value) : Value :=
  if bool_decide (m = ∅) then v
  else updHost v host (fun hv =>
         mkHostVars (CombineVariables (DefaultVars hv) m) (RemoteVars hv) (RuntimeVars hv)).

Definition MergeHostRuntimeVars (host : string) (m : vars) (v : Value) : Value :=
  if bool_decide (m = ∅) then v
  else updHost v host (fun hv =>
         mkHostVars (DefaultVars hv) (RemoteVars hv) (CombineVariables (RuntimeVars hv) m)).

Definition MergeResultVariable (result : vars) (v : Value) : Value :=
  mkValue (v_inventory v) (v_hosts v) (CombineVariables (v_result v) result).

(** ** Typed access *)

Fixpoint nestedWalk (current : any) (keys : list string) : any :=
  match keys with
  | [] => current
  | key :: keys' =>
    match current with
    | AMap m => match m !! key with
                | Some val => nestedWalk val keys'
                | None => ANil
                end
    | _ => ANil
    end
  end.

Definition nestedLookup (m : vars) (keys : list string) : any :=
  match keys with
  | [] => ANil
  | _ => nestedWalk (AMap m) keys
  end.

(** [fmt.Sprintf("%v", v)] is the parameter [sprint]. *)
Definition StringVar (sprint : any -> string) (m : vars) (keys : list string) : string :=
  match nestedLookup m keys with
  | ANil => ""
  | AStr s => s
  | v => sprint v
  end.

(** [int(f)]: truncation towards zero; out of range, not a number and
    infinite give the smallest integer, the amd64 conversion. *)
Definition truncFloat (f : spec_float) : Z :=
  match f with
  | S754_zero _ => 0
  | S754_finite s m e =>
    let mag := if 0 <=? e then Z.pos m * 2 ^ e else Z.pos m / 2 ^ (- e) in
    let z := if s then - mag else mag in
    if (- 2 ^ 63 <=? z) && (z <? 2 ^ 63) then z else - 2 ^ 63
  | _ => - 2 ^ 63
  end.

Definition IntVar (m : vars) (keys : list string) : Z :=
  match nestedLookup m keys with
  | AInt z | AInt64 z => z
  | AFloat f => truncFloat f
  | AStr s => default 0 (ParseInt s 64)
  | _ => 0
  end.

(** [strconv.ParseBool]. *)
Definition parseGoBool (s : string) : option bool :=
  if contains ["1"; "t"; "T"; "TRUE"; "true"; "True"] s then Some true
  else if contains ["0"; "f"; "F"; "FALSE"; "false"; "False"] s then Some false
  else None.

Definition BoolVar (m : vars) (keys : list string) : bool :=
  match nestedLookup m keys with
  | ABool b => b
  | AStr s => default false (parseGoBool s)
  | _ => false
  end.

Definition SliceVar (m : vars) (keys : list string) : list any :=
  match nestedLookup m keys with
  | AList l => l
  | _ => []
  end.

Definition PrintVar (m : vars) (key : string) : any :=
  nestedLookup m (Split key "."%char).

(** ** The deep merge, entry by entry *)

(** What a merge does to one key. *)
Definition mergeEntry (o1 o2 : option any) : option any :=
  match o2 with
  | None => o1
  | Some v2 => Some (match o1 with Some v1 => deepMerge v1 v2 | None => v2 end)
  end.

Lemma mergeLoop_lookup (m1 m2 : vars) k :
  CombineVariables m1 m2 !! k = mergeEntry (m1 !! k) (m2 !! k).
Proof.
  unfold CombineVariables.
  apply (map_fold_weak_ind (fun r m => r !! k = mergeEntry (m1 !! k) (m !! k))
           (fun k v2 result => match result !! k with
              | Some v1 => <[k := deepMerge v1 v2]> result
              | None => <[k := v2]> result end)).
  - by rewrite lookup_empty.
  - intros i x m r Hi Hr. destruct (decide (i = k)) as [->|Hne].
    + rewrite Hi in Hr. cbn in Hr.
      rewrite lookup_insert_eq, Hr. cbn.
      destruct (m1 !! k); by rewrite lookup_insert_eq.
    + rewrite lookup_insert_ne by done.
      destruct (r !! i); by rewrite lookup_insert_ne.
Qed.

Lemma deepMerge_maps m1 m2 : deepMerge (AMap m1) (AMap m2) = AMap (CombineVariables m1 m2).
Proof. reflexivity. Qed.

Lemma deepMerge_leaf v1 v2 : (forall m, v2 <> AMap m) -> deepMerge v1 v2 = v2.
Proof. intros H. destruct v1, v2; try done. by destruct (H m0). Qed.

Lemma deepMerge_over_leaf v1 v2 : (forall m, v1 <> AMap m) -> deepMerge v1 v2 = v2.
Proof. intros H. destruct v1, v2; try done. by destruct (H m). Qed.

(** ** Paths into nested maps *)

Fixpoint at_path (v : any) (p : list string) : option any :=
  match p with
  | [] => Some v
  | k :: p' =>
    match v with
    | AMap m => match m !! k with Some x => at_path x p' | None => None end
    | _ => None
    end
  end.

Definition is_map (v : any) : bool := match v with AMap _ => true | _ => false end.

(** A value binds over the path [p] in a lower layer when it holds something
    at [p], or something other than a map on the way to it. *)
Fixpoint shadows (v : any) (p : list string) : bool :=
  match p with
  | [] => true
  | k :: p' =>
    match v with
    | AMap m => match m !! k with Some x => shadows x p' | None => false end
    | _ => true
    end
  end.

Lemma nestedWalk_at_path v p : nestedWalk v p = default ANil (at_path v p).
Proof.
  revert v. induction p as [|k p IH]; intros v; [done|].
  cbn. destruct v; try done. destruct (m !! k); [apply IH | done].
Qed.

Lemma shadows_leaf v p : is_map v = false -> shadows v p = true.
Proof. destruct p, v; done. Qed.

Lemma at_path_shadows v p x : at_path v p = Some x -> shadows v p = true.
Proof.
  revert v. induction p as [|k p IH]; intros v H; [done|].
  cbn in *. destruct v; try done. destruct (m !! k); [by apply IH | done].
Qed.

Lemma at_path_merge_leaf v1 v2 p x : is_map x = false ->
  at_path (deepMerge v1 v2) p = Some x <->
  at_path v2 p = Some x \/ (shadows v2 p = false /\ at_path v1 p = Some x).
Proof.
  intros Hx. revert v1 v2. induction p as [|k p IH]; intros v1 v2; cbn [shadows at_path].
  - split.
    + intros [= H]. left. f_equal. destruct v1, v2; cbn in H; by subst.
    + intros [[= ->]|[? _]]; [|done]. rewrite deepMerge_leaf; [done|].
      by intros m ->.
  - destruct (is_map v2) eqn:E2; [|rewrite deepMerge_leaf by (by intros m ->); destruct v2; naive_solver].
    destruct v2 as [| | | | | | | | |m2| |]; try done.
    destruct (is_map v1) eqn:E1.
    + destruct v1 as [| | | | | | | | |m1| |]; try done.
      rewrite deepMerge_maps. rewrite mergeLoop_lookup.
      destruct (m2 !! k) as [x2|] eqn:L2; cbn [mergeEntry].
      * destruct (m1 !! k) as [x1|]; [apply IH|]. split; [by left|].
        intros [H|[_ H]]; done.
      * split; [by right|]. intros [?|[_ ?]]; done.
    + rewrite deepMerge_over_leaf by (by intros m ->).
      destruct (m2 !! k); destruct v1; naive_solver.
Qed.

(** Deep merge, exactly: a leaf of [CombineVariables m1 m2] (a value that
    is not itself a map) at a path of keys is a leaf of [m2] there, or a leaf
    of [m1] at a path which [m2] neither binds nor interrupts with a non-map
    value. Nothing else appears and nothing else is lost. *)
Lemma CombineVariables_leaves m1 m2 p x : is_map x = false ->
  at_path (AMap (CombineVariables m1 m2)) p = Some x <->
  at_path (AMap m2) p = Some x \/
  (shadows (AMap m2) p = false /\ at_path (AMap m1) p = Some x).
Proof. rewrite <- deepMerge_maps. apply at_path_merge_leaf. Qed.

(** ** Precedence *)

(** The layers [buildGlobalHosts] merges for one host, lowest first. *)
Definition layers (env : Env) (v : Value) (hostname : string) (hv : HostVars) : list vars :=
  [DefaultVars hv; inv_vars (v_inventory v)] ++ groupLayers env (v_inventory v) hostname
  ++ option_list (inv_hosts (v_inventory v) !! hostname) ++ [RemoteVars hv; RuntimeVars hv].

Lemma mergedVars_layers env v hostname hv :
  mergedVars env v hostname hv =
  setDefaultHostVars env hostname (foldl CombineVariables ∅ (layers env v hostname hv)).
Proof.
  unfold mergedVars, layers. rewrite !foldl_app. cbn [foldl].
  by destruct (inv_hosts (v_inventory v) !! hostname).
Qed.

Lemma at_path_layers acc (l1 l2 : list vars) m p x : is_map x = false ->
  at_path (AMap m) p = Some x ->
  Forall (fun m' => shadows (AMap m') p = false) l2 ->
  at_path (AMap (foldl CombineVariables acc (l1 ++ m :: l2))) p = Some x.
Proof.
  intros Hx Hm Hl2. rewrite foldl_app. cbn [foldl].
  generalize (foldl CombineVariables acc l1) as a. intros a.
  assert (at_path (AMap (CombineVariables a m)) p = Some x) as H
    by (rewrite <- deepMerge_maps; apply at_path_merge_leaf; auto).
  revert H. generalize (CombineVariables a m) as b.
  induction Hl2 as [|m' l2 Hm' _ IH]; intros b Hb; [done|].
  cbn [foldl]. apply IH. rewrite <- deepMerge_maps. apply at_path_merge_leaf; auto.
Qed.

Lemma setDefault_keep k0 v0 m p x : at_path (AMap m) p = Some x -> p <> [] ->
  at_path (AMap (setDefault k0 v0 m)) p = Some x.
Proof.
  destruct p as [|k p]; [done|]. intros H _. unfold setDefault.
  destruct (m !! k0) as [y|] eqn:E; [done|].
  cbn in *. destruct (decide (k0 = k)) as [->|]; [by rewrite E in H|].
  by rewrite lookup_insert_ne.
Qed.

Lemma insert_other_keep k0 v0 (m : vars) k p x : k <> k0 ->
  at_path (AMap m) (k :: p) = Some x -> at_path (AMap (<[k0 := v0]> m)) (k :: p) = Some x.
Proof. intros Hk H. cbn in *. by rewrite lookup_insert_ne. Qed.

Lemma setDefaultHostVars_keep env h m k p x : k <> keyHostname ->
  at_path (AMap m) (k :: p) = Some x ->
  at_path (AMap (setDefaultHostVars env h m)) (k :: p) = Some x.
Proof.
  intros Hk H. unfold setDefaultHostVars.
  apply setDefault_keep; [|done]. apply setDefault_keep; [|done].
  match goal with |- context [(if ?c then ?a else m) !! keyOS] =>
    assert (at_path (AMap (if c then a else m)) (k :: p) = Some x) as H';
      [destruct c; [do 2 (apply setDefault_keep; [|done])|]; done|];
    generalize dependent (if c then a else m) end.
  intros m' H'. destruct (m' !! keyOS) as [[]|]; try done.
  destruct (_ !! keyOSHostname); [|done]. by apply insert_other_keep.
Qed.

Lemma allVars_setVar a k x : allVars (setVar a k x) = <[k := x]> (allVars a).
Proof. unfold allVars at 1, setVar. cbn. by rewrite lookup_insert_eq. Qed.

Lemma GetAllVariable_host env h v hv : v_hosts v !! h = Some hv ->
  allVars (GetAllVariable env h v) =
  <[keyGroups := AGroups (ConvertGroup env (v_inventory v))]>
    (<[keyGlobalHosts := AGlobalHosts]> (mergedVars env v h hv)).
Proof.
  intros Hh. unfold GetAllVariable.
  assert (buildGlobalHosts env v !! h = Some (mergedVars env v h hv)) as ->
    by (unfold buildGlobalHosts; rewrite map_lookup_imap, Hh; done).
  rewrite !allVars_setVar. unfold allVars. cbn.
  unfold buildGlobalHosts. by rewrite map_lookup_imap, Hh.
Qed.

(** Variable precedence: a value a host gets from one layer (role
    defaults, inventory, its groups, its inventory entry, facts, run-time
    variables, in this order of increasing priority) is the value
    [GetAllVariable] shows at that path, as soon as no higher layer binds the
    path or interrupts it; the engine's own keys [global_hosts], [groups] and
    [hostname] excepted. *)
Lemma var_precedence env h v hv lower m higher k p x :
  v_hosts v !! h = Some hv ->
  layers env v h hv = lower ++ m :: higher ->
  is_map x = false ->
  at_path (AMap m) (k :: p) = Some x ->
  Forall (fun m' => shadows (AMap m') (k :: p) = false) higher ->
  k <> keyGlobalHosts -> k <> keyGroups -> k <> keyHostname ->
  at_path (AMap (allVars (GetAllVariable env h v))) (k :: p) = Some x.
Proof.
  intros Hh Hl Hx Hm Hhi H1 H2 H3.
  rewrite (GetAllVariable_host _ _ _ _ Hh).
  do 2 (apply insert_other_keep; [done|]).
  rewrite mergedVars_layers, Hl. apply setDefaultHostVars_keep; [done|].
  by apply at_path_layers.
Qed.

Definition wInv : Inventory :=
  mkInventory {["h1" := {["port" := AInt 22]}]} {["port" := AInt 1; "user" := AStr "u"]}
    {["web" := mkGroup [] ["h1"] {["user" := AStr "w"]}]}.
Definition wEnv : Env := mkEnv ["h1"] ["web"] None.

(** ** Group resolution against reachability *)

Definition subgroup (inv : Inventory) (g c : string) : Prop :=
  exists grp, inv_groups inv !! g = Some grp /\ c ∈ g_groups grp.

Definition reachGroup (inv : Inventory) : string -> string -> Prop := rtc (subgroup inv).

Definition hostOf (inv : Inventory) (g h : string) : Prop :=
  exists grp, inv_groups inv !! g = Some grp /\ h ∈ g_hosts grp.

Section resolve_proofs.
Context (inv : Inventory).

(** What one visit adds: from the groups in [from], starting at the visited
    set [V], it reaches [V'] and returns the hosts of the groups it added. *)
Record visit (from : string -> Prop) (V : gset string) (hosts : list string)
  (hosts' : list string) (V' : gset string) : Prop := mkVisit {
  vis_mono : V ⊆ V';
  vis_from : forall g, from g -> g ∈ V';
  vis_reach : forall g, g ∈ V' -> g ∉ V -> exists r, from r /\ reachGroup inv r g;
  vis_closed : forall g c, g ∈ V' -> g ∉ V -> subgroup inv g c -> c ∈ V';
  vis_hosts : forall h, h ∈ hosts' <->
                h ∈ hosts \/ exists g, g ∈ V' /\ g ∉ V /\ hostOf inv g h;
  vis_nodup : NoDup hosts -> NoDup hosts'
}.

(** The groups of the inventory not yet visited. *)
Definition unvisited (V : gset string) : nat := size (dom (inv_groups inv) ∖ V).

Lemma unvisited_anti V V' : V ⊆ V' -> (unvisited V' <= unvisited V)%nat.
Proof. intros H. unfold unvisited. apply subseteq_size. set_solver. Qed.

Lemma unvisited_lt V g : g ∈ dom (inv_groups inv) -> g ∉ V ->
  (unvisited ({[g]} ∪ V) < unvisited V)%nat.
Proof. intros Hg HV. unfold unvisited. apply subset_size. set_solver. Qed.

Lemma resolveSubGroups_visit rec subs V hosts n :
  (forall g V1, (unvisited V1 <= n)%nat -> exists hs V2,
     rec g V1 = Some (hs, V2) /\ visit (eq g) V1 [] hs V2) ->
  (unvisited V <= n)%nat ->
  exists hosts' V', resolveSubGroups rec subs hosts V = Some (hosts', V') /\
    visit (fun g => g ∈ subs) V hosts hosts' V'.
Proof.
  intros Hrec. revert V hosts. induction subs as [|sub subs IH]; intros V hosts Hn.
  { exists hosts, V. split; [done|]. split; set_solver. }
  destruct (Hrec sub V Hn) as (hs & V1 & E1 & [M1 F1 R1 C1 H1 N1]).
  assert (unvisited V1 <= n)%nat as Hn1 by (pose proof (unvisited_anti _ _ M1); lia).
  destruct (IH V1 (combineSlice hosts hs) Hn1) as (hosts' & V' & E2 & [M2 F2 R2 C2 H2 N2]).
  exists hosts', V'. cbn [resolveSubGroups]. rewrite E1. split; [done|]. split.
  - etrans; eassumption.
  - intros g [->|Hg]%elem_of_cons; [apply M2; by apply F1 | by apply F2].
  - intros g Hg HV. destruct (decide (g ∈ V1)) as [Hg1|Hg1].
    + destruct (R1 g Hg1 HV) as (r & <- & Hr). exists sub. split; [by left|done].
    + destruct (R2 g Hg Hg1) as (r & Hr & ?). exists r. split; [by right|done].
  - intros g c Hg HV Hs. destruct (decide (g ∈ V1)); [apply M2|]; eauto.
  - intros h. rewrite H2. unfold combineSlice. rewrite elem_of_appendNew, H1, elem_of_nil.
    split.
    + intros [[?|[[]|(g & ? & ? & ?)]]|(g & ? & ? & ?)]; [by left|right|right]; exists g; set_solver.
    + intros [?|(g & ? & ? & ?)]; [by left; left|].
      destruct (decide (g ∈ V1)); [left; right; right|right]; exists g; done.
  - intros Hnd. apply N2. by apply NoDup_appendNew.
Qed.

Lemma resolveGroupHosts_visit fuel g V : (S (unvisited V) < fuel)%nat ->
  exists hs V', resolveGroupHosts inv fuel g V = Some (hs, V') /\ visit (eq g) V [] hs V'.
Proof.
  revert g V. induction fuel as [|fuel IH]; intros g V Hf; [lia|].
  cbn [resolveGroupHosts]. case_bool_decide as Hv.
  { exists [], V. split; [done|]. split; set_solver. }
  destruct (inv_groups inv !! g) as [grp|] eqn:Eg.
  - assert (unvisited ({[g]} ∪ V) < unvisited V)%nat as Hlt
      by (apply unvisited_lt; [apply elem_of_dom; eauto | done]).
    destruct (resolveSubGroups_visit (resolveGroupHosts inv fuel) (g_groups grp) ({[g]} ∪ V) []
                (unvisited ({[g]} ∪ V))) as (hs & V' & E & [M F R C H N]);
      [intros; apply IH; lia | done |].
    rewrite E. exists (combineSlice hs (g_hosts grp)), V'. split; [done|].
    assert (g ∈ V') as HgV' by set_solver. split.
    + set_solver.
    + by intros ? <-.
    + intros x Hx HxV. exists g. split; [done|]. destruct (decide (x = g)) as [->|Hne]; [apply rtc_refl|].
      destruct (R x Hx) as (r & Hr & Hrx); [set_solver|].
      eapply rtc_l; [|exact Hrx]. by exists grp.
    + intros x c Hx HxV Hc. destruct (decide (x = g)) as [->|Hne].
      * apply F. destruct Hc as (grp' & E' & Hc). by simplify_eq.
      * apply (C x c Hx); [set_solver | done].
    + intros h. unfold combineSlice. rewrite elem_of_appendNew, H, elem_of_nil. split.
      * intros [[[]|(x & ? & ? & ?)]|Hh]; right; [exists x; set_solver|].
        exists g. repeat split; [done..|]. by exists grp.
      * intros [[]|(x & Hx & HxV & grp' & E' & Hh)].
        destruct (decide (x = g)) as [->|Hne]; [right; by simplify_eq|].
        left. right. exists x. repeat split; [done|set_solver|by exists grp'].
    + intros. apply NoDup_appendNew, N. constructor.
  - exists [], ({[g]} ∪ V). split; [done|].
    assert (forall x, x ∈ {[g]} ∪ V -> x ∉ V -> x = g) as Hnew by set_solver. split.
    + set_solver.
    + intros ? <-. set_solver.
    + intros x Hx HV. exists g. rewrite (Hnew x Hx HV). split; [done|apply rtc_refl].
    + intros x c Hx HV (grp & E & _). rewrite (Hnew x Hx HV) in E. congruence.
    + intros h. rewrite elem_of_nil. split; [done|]. intros [[]|(x & Hx & HV & grp & E & _)].
      rewrite (Hnew x Hx HV) in E. congruence.
    + done.
Qed.

End resolve_proofs.

(** Group resolution terminates on every inventory, cyclic sub-group
    references included, and is exact: the recursion never runs deeper than
    the number of groups plus two, and the list it returns has no duplicates
    and holds a host if and only if some group reachable from the requested
    one through sub-group references lists it. *)
Lemma resolveGroupHosts_exact inv g :
  exists hosts visited,
    resolveGroupHosts inv (groupFuel inv) g ∅ = Some (hosts, visited) /\
    NoDup hosts /\
    forall h, h ∈ hosts <-> exists g', reachGroup inv g g' /\ hostOf inv g' h.
Proof.
  destruct (resolveGroupHosts_visit inv (groupFuel inv) g ∅) as (hs & V & E & [_ F R C H N]).
  { unfold groupFuel, unvisited. rewrite difference_empty_L, size_dom. lia. }
  exists hs, V. split; [done|]. split; [apply N; constructor|].
  intros h. rewrite H, elem_of_nil. split.
  - intros [[]|(g' & Hg' & _ & Hh)]. exists g'. split; [|done].
    destruct (R g' Hg') as (r & <- & ?); [set_solver|done].
  - intros (g' & Hr & Hh). right. exists g'. split; [|set_solver].
    assert (g ∈ V) as Hg by by apply F. clear - Hr Hg C.
    induction Hr as [|x y z Hxy _ IH]; [done|].
    apply IH, (C x y Hg); [set_solver | done].
Qed.

(** ** Hosts of the store, hosts of a pattern *)

Lemma addHosts_lookup (l : list string) (hs : gmap string HostVars) h :
  is_Some (foldl (fun hs h => if decide (is_Some (hs !! h)) then hs
                              else <[h := emptyHostVars]> hs) hs l !! h) <->
  is_Some (hs !! h) \/ h ∈ l.
Proof.
  revert hs. induction l as [|y l IH]; intros hs; cbn [foldl].
  - rewrite elem_of_nil. tauto.
  - rewrite IH, elem_of_cons. case_decide as Hd; [naive_solver|].
    destruct (decide (y = h)) as [->|Hne].
    + rewrite lookup_insert_eq. naive_solver.
    + rewrite lookup_insert_ne by done. naive_solver.
Qed.

Lemma New_hosts inv h :
  is_Some (v_hosts (New inv) !! h) <->
  is_Some (inv_hosts inv !! h) \/ exists g, hostOf inv g h.
Proof.
  unfold New, hostOf. cbn [v_hosts].
  apply (map_fold_weak_ind (fun r (m : gmap string InventoryGroup) => is_Some (r !! h) <->
    is_Some (inv_hosts inv !! h) \/ exists g grp, m !! g = Some grp /\ h ∈ g_hosts grp)).
  - rewrite lookup_fmap, fmap_is_Some. split; [by left|].
    intros [?|(g & grp & E & _)]; [done | by rewrite lookup_empty in E].
  - intros i grp m r Hi IH. rewrite addHosts_lookup, IH. split.
    + intros [[?|(g & grp' & E & Hh)]|Hh]; [by left|right|right].
      * exists g, grp'. rewrite lookup_insert_ne; [done|]. intros ->. congruence.
      * exists i, grp. by rewrite lookup_insert_eq.
    + intros [?|(g & grp' & E & Hh)]; [by left; left|].
      destruct (decide (i = g)) as [->|Hne].
      * rewrite lookup_insert_eq in E. right. by simplify_eq.
      * rewrite lookup_insert_ne in E by done. left. right. by exists g, grp'.
Qed.

Lemma groupHosts_known inv g h : h ∈ groupHosts inv g -> exists g', hostOf inv g' h.
Proof.
  unfold groupHosts.
  destruct (resolveGroupHosts_visit inv (groupFuel inv) g ∅) as (hs & V & -> & [_ _ _ _ H _]).
  { unfold groupFuel, unvisited. rewrite difference_empty_L, size_dom. lia. }
  rewrite H, elem_of_nil. intros [[]|(g' & _ & _ & Hh)]. eauto.
Qed.

Lemma ConvertGroup_entry env inv name hs :
  ConvertGroup env inv !! name = Some hs ->
  (forall h, h ∈ hs -> h ∈ env_hosts env) \/ hs = groupHosts inv name.
Proof.
  unfold ConvertGroup. destruct (decide (name = keyUngrouped)) as [->|Hne].
  - rewrite lookup_insert_eq. intros [= <-]. left. intros h. rewrite list_elem_of_filter. tauto.
  - rewrite lookup_insert_ne by done. unfold namedGroups.
    enough (forall l (gs : gmap string (list string)), (forall x, gs !! name = Some x ->
       (forall h, h ∈ x -> h ∈ env_hosts env) \/ x = groupHosts inv name) ->
       foldl (fun gs name => <[name := groupHosts inv name]> gs) gs l !! name = Some hs ->
       (forall h, h ∈ hs -> h ∈ env_hosts env) \/ hs = groupHosts inv name) as Hf.
    { apply Hf. intros x. rewrite lookup_singleton_Some. intros [_ <-]. by left. }
    induction l as [|y l IH]; intros gs Hgs; cbn [foldl]; [apply Hgs|].
    apply IH. intros x. destruct (decide (y = name)) as [->|].
    + rewrite lookup_insert_eq. intros [= <-]. by right.
    + rewrite lookup_insert_ne by done. apply Hgs.
Qed.

Lemma ConvertGroup_known env inv name hs h : envOk env inv ->
  ConvertGroup env inv !! name = Some hs -> h ∈ hs -> is_Some (v_hosts (New inv) !! h).
Proof.
  intros [Hp _] E Hh. apply New_hosts.
  destruct (ConvertGroup_entry _ _ _ _ E) as [H| ->].
  - left. apply elem_of_dom, elem_of_elements. rewrite <- Hp. by apply H.
  - right. by apply (groupHosts_known inv name).
Qed.

Lemma resolveHostname_invariant (P : list string -> Prop) v groups name result :
  (forall r h, P r -> is_Some (v_hosts v !! h) -> P (combineSlice r [h])) ->
  (forall r hs k, P r -> groups !! k = Some hs -> P (combineSlice r hs)) ->
  (forall r hs k h, P r -> groups !! k = Some hs -> h ∈ hs -> P (combineSlice r [h])) ->
  P result -> P (resolveHostname v groups name result).
Proof.
  intros H1 H2 H3 HP. unfold resolveHostname.
  assert (P (match v_hosts v !! name with Some _ => combineSlice result [name] | None => result end))
    as HP1 by (destruct (v_hosts v !! name) eqn:E; [apply H1; eauto|done]).
  revert HP1. generalize (match v_hosts v !! name with
                          | Some _ => combineSlice result [name] | None => result end).
  intros r HP1.
  assert (P (match groups !! name with Some hosts => combineSlice r hosts | None => r end))
    as HP2 by (destruct (groups !! name) eqn:E; [eapply H2; eauto|done]).
  revert HP2. generalize (match groups !! name with
                          | Some hosts => combineSlice r hosts | None => r end).
  intros r' HP2. unfold resolveHostnameIndexed.
  destruct (matchIndex name) as [[grp num]|]; [|done].
  destruct (ParseInt num 64) as [i|]; [|done].
  destruct (groups !! grp) as [hs|] eqn:E; [|done].
  destruct (hs !! Z.to_nat i) as [h|] eqn:Eh; [|done].
  apply (H3 r' hs grp h); [done..|]. by apply list_elem_of_lookup_2 in Eh.
Qed.

Lemma GetHostnames_invariant (P : list string -> Prop) env names v :
  let groups := ConvertGroup env (v_inventory v) in
  (forall r h, P r -> is_Some (v_hosts v !! h) -> P (combineSlice r [h])) ->
  (forall r hs k, P r -> groups !! k = Some hs -> P (combineSlice r hs)) ->
  (forall r hs k h, P r -> groups !! k = Some hs -> h ∈ hs -> P (combineSlice r [h])) ->
  P [] -> P (GetHostnames env names v).
Proof.
  intros groups H1 H2 H3. unfold GetHostnames. fold groups.
  generalize (@nil string) as acc. induction names as [|n names IH]; intros acc Ha; [done|].
  cbn [foldl]. apply IH. by apply resolveHostname_invariant.
Qed.

Lemma GetHostnames_NoDup env names v : NoDup (GetHostnames env names v).
Proof.
  apply GetHostnames_invariant; intros; try (by apply NoDup_appendNew). constructor.
Qed.

Lemma GetHostnames_known env names inv h : envOk env inv ->
  h ∈ GetHostnames env names (New inv) -> is_Some (v_hosts (New inv) !! h).
Proof.
  intros He. revert h.
  apply (GetHostnames_invariant (fun l => forall h, h ∈ l -> is_Some (v_hosts (New inv) !! h))).
  - intros r h0 Hr Hh h. unfold combineSlice. rewrite elem_of_appendNew, list_elem_of_singleton.
    intros [?| ->]; auto.
  - intros r hs k Hr Hk h. unfold combineSlice. rewrite elem_of_appendNew.
    intros [?|?]; [auto|]. by apply (ConvertGroup_known env inv k hs).
  - intros r hs k h0 Hr Hk Hh0 h. unfold combineSlice.
    rewrite elem_of_appendNew, list_elem_of_singleton.
    intros [?| ->]; [auto|]. by apply (ConvertGroup_known env inv k hs).
  - intros h. by rewrite elem_of_nil.
Qed.

End AnsibleVars.
