(* ===== verification/AnsiblePlan.v ===== *)
(** * The Ansible engine: conversion and planning

    [src/lib/ansible/converter/converter.go] and
    [src/lib/ansible/planner/planner.go]: the task specification of a block,
    the serial batches of a play and the plan of a playbook.

    - [int] is 64-bit and wraps; slicing out of bounds is a panic, a value of
      [planErr] apart from the returned errors.
    - Percentages are computed in [float64]: [SpecFloat]'s executable binary64
      operations, with the decimal syntax of [strconv.ParseFloat]; its
      hexadecimal syntax is not accepted by the model.
    - The number of times the last batch size is repeated is the least [i]
      with [i * last >= remaining]; the code compares in [float64], which
      gives the same number for host counts below [2 ^ 53]. *)

From S2P Require Import Prelude ListQuery ApiServe AnsibleTypes AnsibleVars.
From Stdlib Require Import SpecFloat.
Import AnsibleTypes AnsibleVars.

Module AnsiblePlan.

(** ** Floating point *)

Definition prec : Z := 53.
Definition emax : Z := 1024.

Definition f64_of_Z (z : Z) : spec_float := binary_normalize prec emax z 0 false.
Definition f64_mul := SFmul prec emax.
Definition f64_div := SFdiv prec emax.

(** [int(math.Ceil(f))]. *)
Definition ceilFloat (f : spec_float) : Z :=
  match f with
  | S754_zero _ => 0
  | S754_finite s m e =>
    let num := if s then - Z.pos m else Z.pos m in
    let z := if 0 <=? e then num * 2 ^ e else - ((- num) / 2 ^ (- e)) in
    if (- 2 ^ 63 <=? z) && (z <? 2 ^ 63) then z else - 2 ^ 63
  | _ => - 2 ^ 63
  end.

(** The decimal digits at the head of a string: value, how many, the rest. *)
Fixpoint scanDigits (acc : Z) (n : Z) (s : string) : Z * Z * string :=
  match s with
  | String c s' =>
    if is_digit c then scanDigits (acc * 10 + digit_val c) (n + 1) s' else (acc, n, s)
  | EmptyString => (acc, n, s)
  end.

Definition scanSign (s : string) : bool * string :=
  match s with
  | String "-"%char s' => (true, s')
  | String "+"%char s' => (false, s')
  | _ => (false, s)
  end.

(** The exponent part: absent, or [e] and a number. *)
Definition scanExp (s : string) : option Z :=
  match s with
  | EmptyString => Some 0
  | String c s' =>
    if Ascii.eqb c "e"%char || Ascii.eqb c "E"%char then
      let '(neg, s1) := scanSign s' in
      let '(e, n, rest) := scanDigits 0 0 s1 in
      if (0 <? n) && (rest =s "") then Some (if neg then - Z.min e 99999 else Z.min e 99999)
      else None
    else None
  end.

Definition decimalFloat (neg : bool) (m e10 : Z) : spec_float :=
  match m with
  | Z.pos p =>
    if 0 <=? e10 then binary_normalize prec emax ((if neg then -1 else 1) * (m * 10 ^ e10)) 0 neg
    else f64_div (S754_finite neg p 0) (S754_finite false (Z.to_pos (10 ^ (- e10))) 0)
  | _ => S754_zero neg
  end.

(** [strconv.ParseFloat(s, 64)]; [None] is an error. *)
Definition ParseFloat (s : string) : option spec_float :=
  let '(neg, s1) := scanSign s in
  let low := Serve.ToLower s1 in
  if (low =s "inf") || (low =s "infinity") then Some (S754_infinity neg)
  else if Serve.ToLower s =s "nan" then Some S754_nan
  else
    let '(m1, n1, rest) := scanDigits 0 0 s1 in
    let '(m2, n2, rest2) := match rest with
                            | String "."%char r => scanDigits m1 0 r
                            | _ => (m1, 0, rest)
                            end in
    if n1 + n2 =? 0 then None
    else
      match scanExp rest2 with
      | None => None
      | Some e =>
        match decimalFloat neg m2 (e - n2) with
        | S754_infinity _ => None
        | f => Some f
        end
      end.

(** ** Serial batches *)

Inductive planErr : Type :=
| PErr (msg : string)
| PPanic.

(** [groupHostBySerialSize]; the wrapped parse error is not kept. *)
Definition groupHostBySerialSize (a : any) (hostCount : Z) : result planErr Z :=
  match a with
  | AInt val => Ok val
  | AStr val =>
    if HasSuffix val "%" then
      match ParseFloat (TrimSuffix val "%") with
      | None => Err (PErr ("convert serial " +++ quoted val +++ " to float"))
      | Some b => Ok (ceilFloat (f64_div (f64_mul (f64_of_Z hostCount) b) (f64_of_Z 100)))
      end
    else
      match ParseInt val 64 with
      | None => Err (PErr ("convert serial " +++ quoted val +++ " to int"))
      | Some b => Ok b
      end
  | _ => Err (PErr "unknown serial type: only int or percentage string supported")
  end.

(** [%v] of a serial entry that has a size. *)
Definition showSerial (a : any) : string :=
  match a with AInt z => FormatInt z | AStr s => s | _ => "" end.

Fixpoint groupHostBySerialSizes (hostCount : Z) (serial : list any) (count : Z)
  : result planErr (list Z * Z) :=
  match serial with
  | [] => Ok ([], count)
  | a :: rest =>
    size <-! groupHostBySerialSize a hostCount ;;
    if size <=? 0 then Err (PErr ("serial " +++ showSerial a +++ " must be positive"))
    else
      r <-! groupHostBySerialSizes hostCount rest (int64 (count + size)) ;;
      Ok (size :: r.1, r.2)
  end.

Definition repeatCount (remaining last : Z) : nat :=
  Z.to_nat ((remaining + last - 1) / last).

(** [hosts[begin:end]]. *)
Definition slice (hosts : list string) (begin_ end_ : Z) : option (list string) :=
  if (0 <=? begin_) && (begin_ <=? end_) && (end_ <=? Z.of_nat (length hosts)) then
    Some (take (Z.to_nat (end_ - begin_)) (drop (Z.to_nat begin_) hosts))
  else None.

Fixpoint sliceLoop (hosts : list string) (begin_ end_ : Z) (sis : list Z)
  : result planErr (list (list string)) :=
  match sis with
  | [] => Ok []
  | si :: rest =>
    let end' := Z.min (int64 (end_ + si)) (Z.of_nat (length hosts)) in
    let begin' := Z.min begin_ end' in
    match slice hosts begin' end' with
    | None => Err PPanic
    | Some b =>
      bs <-! sliceLoop hosts (int64 (begin' + si)) end' rest ;;
      Ok (b :: bs)
    end
  end.

Definition GroupHostBySerial (hosts : list string) (serial : list any)
  : result planErr (list (list string)) :=
  if (Z.of_nat (length serial) =? 0) || (Z.of_nat (length hosts) =? 0) then Ok [hosts]
  else
    r <-! groupHostBySerialSizes (Z.of_nat (length hosts)) serial 0 ;;
    let '(sis, count) := r in
    let n := Z.of_nat (length hosts) in
    let lastVal := default 0 (last sis) in
    let sis := if count <? n then sis ++ replicate (repeatCount (int64 (n - count)) lastVal) lastVal
               else sis in
    sliceLoop hosts 0 0 sis.

(** ** Plans *)

Record PlayPlan : Type := mkPlayPlan {
  pp_playIndex : Z;
  pp_batchIndex : Z;
  pp_hosts : list string;
  pp_runOnceTarget : string
}.

Definition batchPlan (playIndex i : Z) (batch : list string) : PlayPlan :=
  mkPlayPlan playIndex i batch (match batch with h :: _ => h | [] => "" end).

Fixpoint batchPlans (playIndex i : Z) (batches : list (list string)) : list PlayPlan :=
  match batches with
  | [] => []
  | batch :: rest => batchPlan playIndex i batch :: batchPlans playIndex (i + 1) rest
  end.

Definition PlanPlay (env : Env) (v : Value) (playIndex : Z) (play : Play)
  : result planErr (list PlayPlan) :=
  let hosts := GetHostnames env (p_hosts play) v in
  if Z.of_nat (length hosts) =? 0 then Ok []
  else
    match GroupHostBySerial hosts (p_serial play) with
    | Err PPanic => Err PPanic
    | Err (PErr m) => Err (PErr ("serial batching: " +++ m))
    | Ok batches => Ok (batchPlans playIndex 0 batches)
    end.

Fixpoint planLoop (env : Env) (v : Value) (i : Z) (plays : list Play)
  : result planErr (list PlayPlan) :=
  match plays with
  | [] => Ok []
  | play :: rest =>
    match PlanPlay env v i play with
    | Err PPanic => Err PPanic
    | Err (PErr m) =>
      Err (PErr ("play " +++ FormatInt (i + 1) +++ " '" +++ Name (p_base play) +++ "': " +++ m))
    | Ok pp => more <-! planLoop env v (i + 1) rest ;; Ok (pp ++ more)
    end
  end.

Definition BuildPlayPlan (env : Env) (plays : list Play) (inv : Inventory)
  : result planErr (list PlayPlan) := planLoop env (New inv) 0 plays.

(** ** Task specifications *)

Definition moduleArgs (name : string) (args : any) : any :=
  match args with
  | AMap m => AMap m
  | v => AMap {[name := v]}
  end.

Fixpoint findModuleRef (moduleFinder : string -> bool) (fields : list (string * any)) : ModuleRef :=
  match fields with
  | [] => mkModuleRef "" ANil
  | (name, args) :: rest =>
    if moduleFinder name then mkModuleRef name (moduleArgs name args)
    else findModuleRef moduleFinder rest
  end.

Definition BlockToTaskSpec (block : Block) (hosts : list string)
  (moduleFinder : string -> bool) : TaskSpec :=
  let t := b_task block in
  let b := b_base block in
  let '(loop, kind) :=
    if negb (is_nil (Loop t)) then (Loop t, LoopKindLoop)
    else if negb (is_nil (WithItems t)) then (WithItems t, LoopKindItems)
    else if negb (is_nil (WithDict t)) then (WithDict t, LoopKindDict)
    else (ANil, LoopKindLoop) in
  mkTaskSpec (Name b) (findModuleRef moduleFinder (UnknownField t)) hosts (b_when block)
    (FailedWhen t) loop kind (TaskLoopControl t) (ChangedWhen t) (Environment b) (Register t)
    (RegisterType t) (Retries t) (Delay t) (Until t) (Become b) (BecomeUser b)
    (b_delegateTo block) (AsyncVal t) (Poll t) (b_notify block) (IgnoreErrors b).

(** [ConvertVarsNodes]: a later node overrides an earlier one key by key. *)
Fixpoint convertVarsLoop (acc : vars) (nodes : list yamlNode) : result string vars :=
  match nodes with
  | [] => Ok acc
  | node :: rest =>
    match nd_map node with
    | Err e => Err ("decode vars: " +++ e)
    | Ok m => convertVarsLoop (m ∪ acc) rest
    end
  end.

Definition ConvertVarsNodes (nodes : list yamlNode) : result string vars :=
  convertVarsLoop ∅ nodes.

(** ** Batches reproduce the host list *)

Definition sumZ (l : list Z) : Z := foldr Z.add 0 l.

Lemma sumZ_app a b : sumZ (a ++ b) = sumZ a + sumZ b.
Proof. unfold sumZ. induction a as [|x a IH]; cbn [foldr app]; lia. Qed.

Lemma sumZ_replicate k x : sumZ (replicate k x) = Z.of_nat k * x.
Proof. unfold sumZ. induction k as [|k IH]; cbn [foldr replicate]; lia. Qed.

Lemma sumZ_nonneg l : Forall (fun x => 0 < x) l -> 0 <= sumZ l.
Proof. unfold sumZ. induction 1; cbn [foldr]; lia. Qed.

Lemma take_drop_glue {A} (l : list A) i j : (i <= j)%nat ->
  take (j - i) (drop i l) ++ drop j l = drop i l.
Proof.
  intros Hij. replace (drop j l) with (drop (j - i) (drop i l)).
  - apply take_drop.
  - rewrite drop_drop. f_equal. lia.
Qed.

(** The loop's invariant is [Z.min begin n = end]: a batch is always the
    slice from the previous end to the next. *)
Lemma sliceLoop_concat (hosts : list string) sis begin_ end_ :
  let n := Z.of_nat (length hosts) in
  Forall (fun x => 0 < x) sis ->
  0 <= begin_ -> Z.min begin_ n = end_ -> begin_ + sumZ sis + n < 2 ^ 63 ->
  exists bs, sliceLoop hosts begin_ end_ sis = Ok bs /\
    (n <= end_ + sumZ sis -> concat bs = drop (Z.to_nat end_) hosts) /\
    length bs = length sis /\
    Forall2 (fun b si => Z.of_nat (length b) <= si) bs sis.
Proof.
  intros n Hpos. revert begin_ end_. induction Hpos as [|si sis Hsi Hpos IH];
    intros begin_ end_ Hb He Hs; cbn [sliceLoop].
  - exists []. split; [done|]. split; [|done]. cbn. intros Hn.
    rewrite drop_ge; [done|]. lia.
  - cbn [sumZ foldr] in *. fold (sumZ sis) in *.
    pose proof (sumZ_nonneg _ Hpos) as Hnn. fold n.
    rewrite (int64_id (end_ + si)) by (unfold in_int64; lia).
    set (end' := Z.min (end_ + si) n).
    assert (Z.min begin_ end' = end_) as Hbe by lia. rewrite Hbe.
    unfold slice. fold n.
    assert ((0 <=? end_) && (end_ <=? end') && (end' <=? n) = true) as -> by lia.
    rewrite (int64_id (end_ + si)) by (unfold in_int64; lia).
    destruct (IH (end_ + si) end') as (bs & E & Hc & Hl & Hf); [lia..|].
    rewrite E. cbn [rbind]. exists (take (Z.to_nat (end' - end_)) (drop (Z.to_nat end_) hosts) :: bs).
    split; [done|]. split; [|split].
    + intros Hn. cbn [concat]. rewrite Hc by lia.
      replace (Z.to_nat (end' - end_)) with (Z.to_nat end' - Z.to_nat end_)%nat by lia.
      apply take_drop_glue. lia.
    + cbn. lia.
    + constructor; [|done]. rewrite length_take. lia.
Qed.

Lemma groupHostBySerialSizes_ok hc serial count sis total :
  groupHostBySerialSizes hc serial count = Ok (sis, total) ->
  Forall (fun x => 0 < x) sis /\ length sis = length serial /\
  Forall2 (fun a si => groupHostBySerialSize a hc = Ok si) serial sis /\
  (0 <= count -> count + sumZ sis < 2 ^ 63 -> total = count + sumZ sis).
Proof.
  revert count sis total. induction serial as [|a serial IH]; intros count sis total; cbn.
  - intros [= <- <-]. repeat split; [constructor..|]. cbn. lia.
  - destruct (groupHostBySerialSize a hc) as [size|] eqn:Ea; cbn [rbind]; [|done].
    destruct (Z.leb_spec size 0) as [|Hp]; [done|].
    destruct (groupHostBySerialSizes hc serial _) as [[sis' t']|] eqn:E; cbn; [|done].
    intros [= <- <-]. destruct (IH _ _ _ E) as (H1 & H2 & H3 & H4).
    split; [by constructor|]. split; [cbn; lia|]. split; [by constructor|].
    intros Hc. cbn [sumZ foldr]. fold (sumZ sis'). pose proof (sumZ_nonneg _ H1).
    intros Hlt. rewrite int64_id in H4 by (unfold in_int64; lia). lia.
Qed.

Lemma repeatCount_enough d last : 0 < last -> 0 < d -> d <= Z.of_nat (repeatCount d last) * last < d + last.
Proof.
  intros Hl Hd. unfold repeatCount.
  pose proof (Z.div_mod (d + last - 1) last ltac:(lia)).
  pose proof (Z.mod_pos_bound (d + last - 1) last Hl).
  rewrite Z2Nat.id by (apply Z.div_pos; lia). nia.
Qed.

(** The bounds under which the arithmetic of batching does not wrap: host
    lists and serial lists of sizes that memory allows, and batch sizes below
    [2 ^ 31]. *)
Definition smallSerial (n : Z) (serial : list any) : Prop :=
  n < 2 ^ 31 /\ Z.of_nat (length serial) < 2 ^ 30 /\
  forall a size, a ∈ serial -> groupHostBySerialSize a n = Ok size -> size <= 2 ^ 31.

Lemma sumZ_bound l (c : Z) : Forall (fun x => 0 < x <= c) l -> 0 <= sumZ l <= Z.of_nat (length l) * c.
Proof. induction 1 as [|x l Hx _ IH]; cbn [sumZ foldr length]; [lia|]. fold (sumZ l). lia. Qed.

Lemma groupSizes_small (hosts : list string) serial sis count :
  smallSerial (Z.of_nat (length hosts)) serial ->
  groupHostBySerialSizes (Z.of_nat (length hosts)) serial 0 = Ok (sis, count) ->
  Forall (fun x => 0 < x <= 2 ^ 31) sis /\ sumZ sis <= 2 ^ 61 /\ count = sumZ sis /\
  length sis = length serial.
Proof.
  intros (Hn & Hl & Hs) E.
  destruct (groupHostBySerialSizes_ok _ _ _ _ _ E) as (H1 & H2 & H3 & H4).
  assert (Forall (fun x => 0 < x <= 2 ^ 31) sis) as Hb.
  { apply Forall_lookup. intros i si Hi. split; [by eapply Forall_lookup_1 in H1|].
    destruct (Forall2_lookup_r _ _ _ _ _ H3 Hi) as (a & Ha & Ea).
    apply (Hs a); [by eapply list_elem_of_lookup_2 | done]. }
  pose proof (sumZ_bound _ _ Hb). split; [done|].
  assert (sumZ sis <= 2 ^ 61) by nia. split; [done|]. split; [lia | done].
Qed.

Lemma groupHostBySerialSizes_no_panic hc serial count :
  groupHostBySerialSizes hc serial count <> Err PPanic.
Proof.
  revert count. induction serial as [|a serial IH]; intros count; cbn; [done|].
  destruct (groupHostBySerialSize a hc) as [size|e] eqn:Ea; cbn.
  - destruct (size <=? 0); [done|].
    destruct (groupHostBySerialSizes hc serial _) eqn:Er; cbn; [done|].
    intros [= ->]. by apply (IH _ Er).
  - intros [= ->]. unfold groupHostBySerialSize in Ea. destruct a; try done.
    destruct (HasSuffix s "%"); [destruct (ParseFloat _)|destruct (ParseInt s 64)]; done.
Qed.

Lemma GroupHostBySerial_ok (hosts : list string) serial :
  smallSerial (Z.of_nat (length hosts)) serial ->
  match GroupHostBySerial hosts serial with
  | Ok bs => concat bs = hosts
  | Err PPanic => False
  | Err (PErr _) => forall sis, groupHostBySerialSizes (Z.of_nat (length hosts)) serial 0 <> Ok sis
  end.
Proof.
  intros Hsm. unfold GroupHostBySerial.
  destruct (Z.of_nat (length serial) =? 0) eqn:E1; [cbn; apply app_nil_r|].
  destruct (Z.of_nat (length hosts) =? 0) eqn:E2; [cbn; apply app_nil_r|]. cbn [orb].
  destruct (groupHostBySerialSizes _ serial 0) as [[sis count]|e] eqn:E; cbn [rbind].
  2:{ destruct e; [by intros ?|]. by apply groupHostBySerialSizes_no_panic in E. }
  destruct (groupSizes_small _ _ _ _ Hsm E) as (Hb & Hsum & -> & Hlen).
  destruct Hsm as (Hn & _ & _).
  assert (exists l, last sis = Some l /\ 0 < l <= 2 ^ 31) as (lastVal & Hlast & Hlv).
  { destruct (last sis) as [l|] eqn:El; [|apply last_None in El; subst; cbn in Hlen; lia].
    exists l. split; [done|]. rewrite last_lookup in El. by eapply Forall_lookup_1 in Hb. }
  rewrite Hlast. change (default 0 (Some lastVal)) with lastVal.
  set (n := Z.of_nat (length hosts)) in *.
  pose proof (sumZ_bound _ _ Hb) as Hnn.
  assert (Forall (fun x => 0 < x) sis) as Hpos by (eapply Forall_impl; [exact Hb|]; cbn; lia).
  set (sis' := if _ <? n then _ else _).
  assert (Forall (fun x => 0 < x) sis' /\ n <= sumZ sis' <= 2 ^ 62) as (Hp' & Hs').
  { unfold sis'. destruct (Z.ltb_spec (sumZ sis) n) as [Hlt|]; [|split; [done|lia]].
    rewrite int64_id by (unfold in_int64; lia).
    split; [apply Forall_app; split; [done|]; apply Forall_replicate; apply Hlv|].
    rewrite sumZ_app, sumZ_replicate.
    pose proof (repeatCount_enough (n - sumZ sis) lastVal ltac:(lia) ltac:(lia)). lia. }
  destruct (sliceLoop_concat hosts sis' 0 0) as (bs & -> & Hc & _); [done|lia|lia|lia|].
  apply Hc. lia.
Qed.

Lemma batchPlans_hosts pi i bs : pp_hosts <$> batchPlans pi i bs = bs.
Proof. revert i. induction bs as [|b bs IH]; intros i; [done|]. cbn. by rewrite IH. Qed.

Lemma batchPlans_lookup pi i bs k pp : batchPlans pi i bs !! k = Some pp ->
  exists b, bs !! k = Some b /\ pp = batchPlan pi (i + Z.of_nat k) b.
Proof.
  revert i k. induction bs as [|b bs IH]; intros i k; [by destruct k|].
  destruct k as [|k]; cbn [batchPlans].
  - intros [= <-]. exists b. split; [done|]. f_equal. lia.
  - intros H. destruct (IH (i + 1) k H) as (b' & ? & ->). exists b'. split; [done|]. f_equal. lia.
Qed.

(** Planning a play never panics within the machine's bounds; it fails
    only on a serial entry that is not a positive batch size; and otherwise
    its batches, in order, concatenate to exactly the play's resolved host
    list, in which every host occurs once and is a host of the variable
    store, batches carry consecutive indices and the run_once target of a
    batch is its first host. *)
Lemma plan_reproduces_hosts env inv playIndex play :
  envOk env inv ->
  let hosts := GetHostnames env (p_hosts play) (New inv) in
  smallSerial (Z.of_nat (length hosts)) (p_serial play) ->
  match PlanPlay env (New inv) playIndex play with
  | Ok plan =>
    concat (pp_hosts <$> plan) = hosts /\ NoDup hosts /\
    (forall h, h ∈ hosts -> is_Some (v_hosts (New inv) !! h)) /\
    forall k pp, plan !! k = Some pp ->
      pp_playIndex pp = playIndex /\ pp_batchIndex pp = Z.of_nat k /\
      pp_runOnceTarget pp = default "" (head (pp_hosts pp))
  | Err PPanic => False
  | Err (PErr _) =>
    forall sis, groupHostBySerialSizes (Z.of_nat (length hosts)) (p_serial play) 0 <> Ok sis
  end.
Proof.
  intros He hosts Hs. unfold PlanPlay. fold hosts.
  assert (NoDup hosts) as Hnd by apply GetHostnames_NoDup.
  assert (forall h, h ∈ hosts -> is_Some (v_hosts (New inv) !! h)) as Hk
    by (intros h; by apply GetHostnames_known).
  destruct (Z.of_nat (length hosts) =? 0) eqn:E0.
  - assert (hosts = []) as -> by (apply length_zero_iff_nil; lia). repeat split; done.
  - pose proof (GroupHostBySerial_ok hosts (p_serial play) Hs) as HG.
    destruct (GroupHostBySerial hosts (p_serial play)) as [bs|[m|]]; [|done..].
    rewrite batchPlans_hosts. split; [done|]. split; [done|]. split; [done|].
    intros k pp Hpp. destruct (batchPlans_lookup _ _ _ _ _ Hpp) as (b & _ & ->).
    cbn. by destruct b.
Qed.

Definition wBase : Base :=
  mkBase "" [] ANil false false None false 0 0 "" false "".
Definition wPlay (hosts : list string) (serial : list any) : Play :=
  mkPlay "" wBase [] hosts false [] [] [] [] [] [] false (S754_zero false) serial "" "".

(** The sizes of [serial] are added in [int]: a list whose sum passes
    [2 ^ 63] makes a slice bound negative. *)
Lemma serial_overflow_panics :
  GroupHostBySerial ["a"; "b"; "c"] [AInt 1; AInt 9223372036854775807] = Err PPanic.
Proof. vm_compute. reflexivity. Qed.

(** Two orders of ranging over the same inventory give different batch
    leaders for the group [all]. *)
Lemma all_order_unspecified :
  let inv := mkInventory {["a" := ∅; "b" := ∅]} ∅ ∅ in
  let e1 := mkEnv ["a"; "b"] [] None in
  let e2 := mkEnv ["b"; "a"] [] None in
  envOk e1 inv /\ envOk e2 inv /\
  BuildPlayPlan e1 [wPlay ["all"] []] inv <> BuildPlayPlan e2 [wPlay ["all"] []] inv.
Proof.
  split; [|split].
  - split; vm_compute; [apply Permutation_refl || apply perm_swap | reflexivity].
  - split; vm_compute; [apply perm_swap || apply Permutation_refl | reflexivity].
  - vm_compute. discriminate.
Qed.

End AnsiblePlan.
