(* ===== verification/AnsibleTask.v ===== *)
(** * The Ansible engine: running one task

    [src/lib/ansible/executor/task.go] and [src/lib/ansible/template/template.go]:
    conditions, templated arguments, loops, retries, [failed_when] /
    [changed_when], delegation and the registration of results.

    - What the code calls and does not define is a field of the class
      [Engine]: Go's [text/template] ([tmplExec]), JSON and YAML decoding,
      [fmt]'s [%v], the modules ([FindModule]), the connections
      ([newConnector], [connInit], [connClose]), the clock, and the waits of
      a retry loop. [W] is the world these act on.
    - [St] is the state the executors share: the variable store, the world,
      the registry of connections, the events emitted, the log lines written
      and the task counter. An operation is a state-passing function [M].
    - [Exec] runs a task on its hosts in goroutines. The model runs the
      hosts one after the other in the order [schedule] picks, any order:
      the interleaving of two hosts' steps is not modelled. *)

From S2P Require Import Prelude ListQuery ApiServe AnsibleTypes AnsibleVars AnsiblePlan.
From Stdlib Require Import SpecFloat.
From stdpp Require Import sorting.
#[local] Open Scope Z_scope.
#[local] Open Scope go_scope.
Import AnsibleTypes AnsibleVars AnsiblePlan.

Module AnsibleTask.

Create HintDb silent.

(** ** The world of the engine *)

(** An error of a module: its text and, for a command, the exit code. *)
Record modErr : Type := mkModErr {
  me_msg : string;
  me_exit : option Z
}.

Record ExecOptions (Conn : Type) : Type := mkExecOptions {
  eo_args : vars;
  eo_host : string;
  eo_connector : option Conn;
  eo_logOutput : bool;         (* LogOutput != nil *)
  eo_become : bool;
  eo_environment : option (gmap string string)
}.
Arguments mkExecOptions {Conn}.
Arguments eo_args {Conn}.
Arguments eo_host {Conn}.
Arguments eo_connector {Conn}.
Arguments eo_logOutput {Conn}.
Arguments eo_become {Conn}.
Arguments eo_environment {Conn}.

(** A module run: standard output, standard error, error; it may change the
    variable store and the world, and write lines to [LogOutput]. *)
Definition ModuleFn (W Conn : Type) : Type :=
  ExecOptions Conn -> Value -> W -> (string * string * option modErr) * (Value * W * list string).

Class Engine (W Conn : Type) : Type := {
  envOf : W -> Env;
  tmplExec : AllVars -> string -> result string string;
  sprint : any -> string;
  decodeJSON : string -> option any;
  decodeYAML : string -> option any;
  FindModule : string -> option (ModuleFn W Conn);
  waitDelay : W -> Z -> option string * W;
  nowMs : W -> Z;
  schedule : W -> list string -> list string;
  newConnector : string -> vars -> W -> result string Conn * W;
  connInit : Conn -> W -> option string * W;
  connClose : Conn -> W -> W;
  ReadFile : string -> result string string;
  unmarshalBlocks : string -> result string (list Block);
  unmarshalVars : string -> result string vars
}.

Inductive EventType : Type := EventPlayStart | EventPlayEnd | EventTaskStart | EventTaskEnd | EventLog.

(** [Event] without its wall-clock timestamp. *)
Record Event : Type := mkEvent {
  ev_type : EventType;
  ev_play : string;
  ev_task : string;
  ev_index : Z;
  ev_total : Z;
  ev_status : string;
  ev_output : option vars;
  ev_error : string;
  ev_duration : Z;
  ev_message : string
}.

Record St (W Conn : Type) : Type := mkSt {
  st_value : Value;
  st_world : W;
  st_conns : gmap string Conn;
  st_events : list Event;
  st_log : list string;
  st_index : Z
}.
Arguments mkSt {W Conn}.
Arguments st_value {W Conn}.
Arguments st_world {W Conn}.
Arguments st_conns {W Conn}.
Arguments st_events {W Conn}.
Arguments st_log {W Conn}.
Arguments st_index {W Conn}.

Section task.
Context {W Conn : Type} {E : Engine W Conn}.

Abbreviation state := (St W Conn).

Definition M (A : Type) : Type := state -> A * state.

#[export] Instance M_ret : MRet M := fun A a s => (a, s).
#[export] Instance M_bind : MBind M := fun A B f m s => let '(a, s') := m s in f a s'.

Definition gets {A} (f : state -> A) : M A := fun s => (f s, s).

Definition set_value (s : state) (v : Value) : state :=
  mkSt v (st_world s) (st_conns s) (st_events s) (st_log s) (st_index s).
Definition set_world (s : state) (w : W) : state :=
  mkSt (st_value s) w (st_conns s) (st_events s) (st_log s) (st_index s).
Definition set_conns (s : state) (c : gmap string Conn) : state :=
  mkSt (st_value s) (st_world s) c (st_events s) (st_log s) (st_index s).

(** What is written to the log. *)
Definition logLines (lines : list string) (s : state) : state :=
  mkSt (st_value s) (st_world s) (st_conns s) (st_events s) (st_log s ++ lines) (st_index s).

(** [variable.Merge(fn)]. *)
Definition mergeVar (f : Value -> Value) : M unit := fun s => (tt, set_value s (f (st_value s))).

(** [variable.Get(variable.GetAllVariable(host))]. *)
Definition getAll (host : string) : M AllVars :=
  gets (fun s => GetAllVariable (envOf (st_world s)) host (st_value s)).

(** ** Templates *)

(** [template.Parse] and [ParseString]. *)
Definition ParseString (vs : AllVars) (input : string) : result string string :=
  if IsTmplSyntax input then tmplExec vs input else Ok input.

Fixpoint ParseBool (vs : AllVars) (conditions : list string) : result string bool :=
  match conditions with
  | [] => Ok true
  | cond :: rest =>
    match ParseString vs cond with
    | Err e => Err e
    | Ok out => if Serve.ToLower out =s "true" then ParseBool vs rest else Ok false
    end
  end.

(** ** Loop items and templated values *)

Fixpoint normalizeJSONNumbers (v : any) : any :=
  match v with
  | ANumber s =>
    match ParseInt s 64 with
    | Some i => AInt64 i
    | None => match ParseFloat s with Some f => AFloat f | None => AStr s end
    end
  | AMap m => AMap (normalizeJSONNumbers <$> m)
  | AList l => AList (map normalizeJSONNumbers l)
  | _ => v
  end.

Definition singleTmplExpr (s : string) : option string :=
  let t := ListQ.TrimSpace s in
  if negb (HasPrefix t "{{") || negb (HasSuffix t "}}") then None
  else
    let inner := TrimSuffix (str_drop 2 t) "}}" in
    if strContains inner "{{" || strContains inner "}}" then None
    else Some (TrimSuffix (TrimPrefix inner "- ") " -").

Definition resolveTemplatedValue (raw : any) (vs : AllVars) : any :=
  match raw with
  | AStr s =>
    match singleTmplExpr s with
    | Some inner =>
      match ParseString vs ("{{ toJson (" +++ inner +++ ") }}") with
      | Ok out =>
        match decodeJSON out with
        | Some v => normalizeJSONNumbers v
        | None => AStr s
        end
      | Err _ => AStr s
      end
    | None =>
      match ParseString vs s with
      | Ok rendered => AStr rendered
      | Err _ => AStr s
      end
    end
  | _ => raw
  end.

Definition toItemSlice (v : any) : list any :=
  match v with
  | ANil => []
  | AList x => x
  | AStrs x => AStr <$> x
  | x => [x]
  end.

Definition flattenOnce (items : list any) : list any :=
  concat ((fun it => match it with AList nested => nested | _ => [it] end) <$> items).

(** [sort.Strings] on the keys of a map: bytewise order, no duplicates. *)
Definition sortedKeys (m : vars) : list string :=
  merge_sort String.le (fst <$> map_to_list m).

Definition dictItems (v : any) : result string (list any) :=
  match v with
  | ANil => Ok []
  | AMap m =>
    Ok ((fun k => AMap {["key" := AStr k; "value" := default ANil (m !! k)]}) <$> sortedKeys m)
  | _ => Err "with_dict requires a mapping"
  end.

(** [[]any{nil}] when there is no loop: one run without an item. *)
Definition resolveLoop (task : TaskSpec) (vs : AllVars) : result string (list any) :=
  if is_nil (ts_loop task) then Ok [ANil]
  else
    let val := resolveTemplatedValue (ts_loop task) vs in
    match ts_loopKind task with
    | LoopKindDict => dictItems val
    | LoopKindItems => Ok (flattenOnce (toItemSlice val))
    | LoopKindLoop => Ok (toItemSlice val)
    end.

Definition loopVarName (task : TaskSpec) : string :=
  if LoopVar (ts_loopControl task) =s "" then "item" else LoopVar (ts_loopControl task).

(** ** Arguments and environment *)

Fixpoint renderArg (vs : AllVars) (v : any) : any :=
  match v with
  | AStr s => match ParseString vs s with Ok r => AStr r | Err _ => AStr s end
  | AMap m => AMap (renderArg vs <$> m)
  | _ => v
  end.

Definition renderArgs (vs : AllVars) (args : vars) : vars := renderArg vs <$> args.

Definition toArgsMap (args : any) : vars :=
  match args with
  | ANil => ∅
  | AMap m => m
  | v => {["raw" := v]}
  end.

Definition envEntry (vs : AllVars) (v : any) : string :=
  match v with
  | AStr s => match ParseString vs s with Ok r => r | Err _ => s end
  | _ => sprint v
  end.

Definition mergeEnv (vs : AllVars) (dst : gmap string string) (src : vars) : gmap string string :=
  (envEntry vs <$> src) ∪ dst.

Definition resolveEnvironment (raw : any) (vs : AllVars) : option (gmap string string) :=
  if is_nil raw then None
  else
    let env := match resolveTemplatedValue raw vs with
               | AMap m => mergeEnv vs ∅ m
               | AList l => foldl (fun env entry =>
                                     match resolveTemplatedValue entry vs with
                                     | AMap m => mergeEnv vs env m
                                     | _ => env
                                     end) ∅ l
               | _ => ∅
               end in
    if bool_decide (env = ∅) then None else Some env.

(** ** Output *)

Fixpoint dropNL (rev : string) : string :=
  match rev with
  | String c r => if Ascii.eqb c (Ascii.ascii_of_nat 10) then dropNL r else rev
  | EmptyString => rev
  end.

(** [strings.TrimRight(s, "\n")]. *)
Definition trimRightNL (s : string) : string := String.rev (dropNL (String.rev s)).

Definition extractString (m : option vars) (key : string) : string :=
  match m with
  | None => ""
  | Some m => match m !! key with
              | None => ""
              | Some (AStr s) => s
              | Some v => sprint v
              end
  end.

Definition extractInt (m : option vars) (key : string) : Z :=
  match m with
  | None => 0
  | Some m => match m !! key with Some (AInt i) => i | _ => 0 end
  end.

Definition mergeOutput (existing : option vars) (lr : LoopResult) : option vars :=
  match existing, tr_output (lr_result lr) with
  | None, o => o
  | Some _, Some o => Some o
  | Some e, None => Some e
  end.

Definition set_error (r : TaskResult) (e : string) : TaskResult :=
  mkResult (tr_host r) (tr_status r) (tr_changed r) (tr_output r) e.
Definition fail_with (r : TaskResult) (e : string) : TaskResult :=
  mkResult (tr_host r) TaskStatusFailed (tr_changed r) (tr_output r) e.
Definition set_status (r : TaskResult) (st : TaskStatus) : TaskResult :=
  mkResult (tr_host r) st (tr_changed r) (tr_output r) (tr_error r).
Definition set_output (r : TaskResult) (o : option vars) : TaskResult :=
  mkResult (tr_host r) (tr_status r) (tr_changed r) o (tr_error r).
Definition set_changed (r : TaskResult) (b : bool) : TaskResult :=
  mkResult (tr_host r) (tr_status r) b (tr_output r) (tr_error r).

(** ** One run of a module *)

Definition getVarsWithResult (host : string) (r : TaskResult) : M AllVars :=
  vs ← getAll host;
  let vs := setVar vs "stdout" (AStr (extractString (tr_output r) "stdout")) in
  let vs := setVar vs "stderr" (AStr (extractString (tr_output r) "stderr")) in
  mret (setVar vs "failed" (ABool (negb (tr_error r =s "")))).

Definition executeModuleApplyFailure (host : string) (task : TaskSpec) (err : option modErr)
  (r : TaskResult) : M TaskResult :=
  match ts_failedWhen task with
  | _ :: _ =>
    vs ← getVarsWithResult host r;
    mret (match ParseBool vs (ts_failedWhen task) with
          | Err e => fail_with r ("evaluate failed_when: " +++ e)
          | Ok true =>
            fail_with r (match err with
                         | Some e => "failed_when condition met" +++ ": " +++ me_msg e
                         | None => "failed_when condition met"
                         end)
          | Ok false => r
          end)
  | [] =>
    mret (match err with
          | Some e => fail_with r (me_msg e)
          | None => r
          end)
  end.

Definition executeModuleApplyChanged (host : string) (task : TaskSpec) (r : TaskResult)
  : M TaskResult :=
  match ts_changedWhen task with
  | [] => mret r
  | _ :: _ =>
    if bool_decide (tr_status r = TaskStatusFailed) || bool_decide (tr_status r = TaskStatusSkipped)
    then mret r
    else
      vs ← getVarsWithResult host r;
      mret (match ParseBool vs (ts_changedWhen task) with
            | Err e => fail_with r ("evaluate changed_when: " +++ e)
            | Ok ok =>
              let r := set_changed r ok in
              if ok then set_status r TaskStatusChanged else r
            end)
  end.

(** [ConnectorResolver], nil or a function. *)
Definition Resolver : Type := option (string -> M (result string Conn)).

(** [TaskExecutor]: its log output, nil or not, and its resolver; the other
    fields are parts of the state. *)
Record TaskExecutor : Type := mkTE { te_logOutput : bool; te_resolve : Resolver }.

Definition connectorFor (te : TaskExecutor) (host : string) : M (result string Conn) :=
  conns ← gets st_conns;
  match conns !! host with
  | Some conn => mret (Ok conn)
  | None =>
    match te_resolve te with
    | None => mret (Err ("no connector for host " +++ quoted host))
    | Some f => f host
    end
  end.

Definition taskConnector (te : TaskExecutor) (task : TaskSpec) (host : string) (vs : AllVars)
  : M (result string Conn) :=
  if ts_delegateTo task =s "" then connectorFor te host
  else
    match ParseString vs (ts_delegateTo task) with
    | Err e => mret (Err ("render delegate_to: " +++ e))
    | Ok target =>
      let target := ListQ.TrimSpace target in
      if target =s "" then
        mret (Err ("delegate_to " +++ quoted (ts_delegateTo task) +++ " rendered empty"))
      else
        r ← connectorFor te target;
        mret (match r with
              | Err e => Err ("delegate_to " +++ quoted target +++ ": " +++ e)
              | Ok conn => Ok conn
              end)
    end.

Definition callModule (moduleFn : ModuleFn W Conn) (o : ExecOptions Conn)
  : M (string * string * option modErr) := fun s =>
  let '(out, (v', w', lines)) := moduleFn o (st_value s) (st_world s) in
  (out, logLines (if eo_logOutput o then lines else []) (set_world (set_value s v') w')).

(** The part of [executeModule] after the [when] check. *)
Definition runModule (te : TaskExecutor) (task : TaskSpec) (host : string)
  (moduleFn : ModuleFn W Conn) (vs : AllVars) (r : TaskResult) : M TaskResult :=
  let args := renderArgs vs (toArgsMap (mr_args (ts_module task))) in
  c ← taskConnector te task host vs;
  match c with
  | Err e => mret (fail_with r e)
  | Ok conn =>
    out ← callModule moduleFn (mkExecOptions args host (Some conn) (te_logOutput te)
                                 (ts_become task) (resolveEnvironment (ts_environment task) vs));
    let '(stdout, stderr, err) := out in
    let rc := match err with Some e => default 0 (me_exit e) | None => 0 end in
    let r := set_output r (Some {["stdout" := AStr (trimRightNL stdout);
                                  "stderr" := AStr (trimRightNL stderr);
                                  "rc" := AInt rc]}) in
    r ← executeModuleApplyFailure host task err r;
    executeModuleApplyChanged host task r
  end.

(** [executeModule] once the loop variables are set. *)
Definition executeModuleBody (te : TaskExecutor) (task : TaskSpec) (host : string)
  (moduleFn : ModuleFn W Conn) (vs : AllVars) : M TaskResult :=
  let r := mkResult host TaskStatusOK false None "" in
  match ts_when task with
  | [] => runModule te task host moduleFn vs r
  | _ :: _ =>
    match ParseBool vs (ts_when task) with
    | Err e => mret (fail_with r ("evaluate when: " +++ e))
    | Ok false => mret (set_status r TaskStatusSkipped)
    | Ok true => runModule te task host moduleFn vs r
    end
  end.

Definition loopVarsOf (task : TaskSpec) (item : any) (idx : Z) : vars :=
  let lv := {[loopVarName task := item]} in
  let iv := IndexVar (ts_loopControl task) in
  if iv =s "" then lv else <[iv := AInt idx]> lv.

Definition executeModule (te : TaskExecutor) (task : TaskSpec) (host : string)
  (moduleFn : ModuleFn W Conn) (item : any) (idx : Z) : M LoopResult :=
  vs ← getAll host;
  if is_nil item then
    r ← executeModuleBody te task host moduleFn vs;
    mret (mkLoopResult item r)
  else
    let loopVars := loopVarsOf task item idx in
    let vs := map_fold (fun k v a => setVar a k v) vs loopVars in
    mergeVar (MergeHostRuntimeVars host loopVars);;
    r ← executeModuleBody te task host moduleFn vs;
    mergeVar (MergeHostRuntimeVars host ((fun _ => ANil) <$> loopVars));;
    mret (mkLoopResult item r).

(** ** Retries *)

Definition executeWithRetryShouldStop (host : string) (attempt retries : Z) (task : TaskSpec)
  (lr : LoopResult) : M (bool * LoopResult) :=
  let r := lr_result lr in
  match ts_until task with
  | _ :: _ =>
    vs ← getVarsWithResult host r;
    mret (match ParseBool vs (ts_until task) with
          | Ok true => (true, mkLoopResult (lr_item lr) (set_error r ""))
          | _ =>
            if (attempt =? retries - 1) && (tr_error r =s "") then
              (false, mkLoopResult (lr_item lr) (set_error r "until condition not met after retries"))
            else (false, lr)
          end)
  | [] => mret (tr_error r =s "", lr)
  end.

(** The zero [LoopResult]. *)
Definition zeroLoopResult : LoopResult :=
  mkLoopResult ANil (mkResult "" TaskStatusZero false None "").

(** Before every attempt but the first: the delay, or the context's error. *)
Definition retryWait (task : TaskSpec) (attempt : Z) : M (option string) := fun s =>
  if 0 <? attempt then
    let '(e, w) := waitDelay (st_world s) (ts_delay task) in (e, set_world s w)
  else (None, s).

(** The attempts [attempt .. retries - 1]; [n] is how many are left. *)
Fixpoint retryLoop (te : TaskExecutor) (task : TaskSpec) (host : string)
  (moduleFn : ModuleFn W Conn) (item : any) (idx : Z) (retries : Z) (attempt : Z)
  (n : nat) (lr : LoopResult) : M LoopResult :=
  match n with
  | O => mret lr
  | S n' =>
    cancelled ← retryWait task attempt;
    match cancelled with
    | Some e => mret (mkLoopResult (lr_item lr) (set_error (lr_result lr) e))
    | None =>
      lr ← executeModule te task host moduleFn item idx;
      '(stop, lr) ← executeWithRetryShouldStop host attempt retries task lr;
      if (stop : bool) then mret lr
      else retryLoop te task host moduleFn item idx retries (attempt + 1) n' lr
    end
  end.

Definition executeWithRetry (te : TaskExecutor) (task : TaskSpec) (host : string)
  (moduleFn : ModuleFn W Conn) (item : any) (idx : Z) : M LoopResult :=
  let retries := if ts_retries task =? 0 then 1 else ts_retries task in
  retryLoop te task host moduleFn item idx retries 0 (Z.to_nat retries) zeroLoopResult.

(** ** One host, all hosts *)

Fixpoint itemLoop (te : TaskExecutor) (task : TaskSpec) (host : string)
  (moduleFn : ModuleFn W Conn) (items : list any) (idx : Z) (allSkipped : bool)
  (result : TaskResult) : M TaskResult :=
  match items with
  | [] =>
    mret (if allSkipped then set_status result TaskStatusSkipped
          else if tr_changed result then set_status result TaskStatusChanged
          else result)
  | item :: rest =>
    lr ← executeWithRetry te task host moduleFn item idx;
    let r := lr_result lr in
    let result := set_output result (mergeOutput (tr_output result) lr) in
    let result := if tr_changed r then set_changed result true else result in
    let allSkipped := if bool_decide (tr_status r = TaskStatusSkipped) then allSkipped else false in
    if tr_error r =s "" then
      itemLoop te task host moduleFn rest (idx + 1) allSkipped result
    else
      match ts_ignoreErrors task with
      | Some true =>
        let out := <["_ignored_error" := AStr (tr_error r)]> (default ∅ (tr_output result)) in
        itemLoop te task host moduleFn rest (idx + 1) false (set_output result (Some out))
      | _ => mret (fail_with result (tr_error r))
      end
  end.

Definition execTaskHost (te : TaskExecutor) (task : TaskSpec) (host : string)
  (moduleFn : ModuleFn W Conn) : M TaskResult :=
  let result := mkResult host TaskStatusOK false None "" in
  vs ← getAll host;
  match resolveLoop task vs with
  | Err e => mret (fail_with result e)
  | Ok items => itemLoop te task host moduleFn items 0 true result
  end.

Fixpoint execHosts (te : TaskExecutor) (task : TaskSpec) (moduleFn : ModuleFn W Conn)
  (hosts : list string) : M (list TaskResult) :=
  match hosts with
  | [] => mret []
  | host :: rest =>
    r ← execTaskHost te task host moduleFn;
    rs ← execHosts te task moduleFn rest;
    mret (r :: rs)
  end.

Definition parseRegisterStdout (registerType s : string) : any :=
  if registerType =s "json" then
    match decodeJSON s with Some out => normalizeJSONNumbers out | None => AStr s end
  else if (registerType =s "yaml") || (registerType =s "yml") then
    match decodeYAML s with Some out => out | None => AStr s end
  else AStr s.

Definition regVar (task : TaskSpec) (result : TaskResult) : vars :=
  let out := tr_output result in
  <["stdout" := parseRegisterStdout (ts_registerType task) (extractString out "stdout")]>
  (<["stderr" := AStr (extractString out "stderr")]>
  (<["rc" := AInt (extractInt out "rc")]>
  (<["failed" := ABool (negb (tr_error result =s "")
                        || negb (extractString out "_ignored_error" =s ""))]>
  (<["skipped" := ABool (bool_decide (tr_status result = TaskStatusSkipped))]>
  (<["changed" := ABool (tr_changed result)]> ∅))))).

Fixpoint registerResults (task : TaskSpec) (results : list TaskResult) : M unit :=
  match results with
  | [] => mret tt
  | result :: rest =>
    mergeVar (MergeHostRuntimeVars (tr_host result) {[ts_register task := AMap (regVar task result)]});;
    registerResults task rest
  end.

(** [TaskExecutor.Exec]. *)
Definition Exec (te : TaskExecutor) (task : TaskSpec) : M (list TaskResult) :=
  match FindModule (mr_name (ts_module task)) with
  | None =>
    mret ((fun host => mkResult host TaskStatusFailed false None
                         ("module " +++ quoted (mr_name (ts_module task)) +++ " not found"))
            <$> ts_hosts task)
  | Some moduleFn =>
    order ← gets (fun s => schedule (st_world s) (ts_hosts task));
    results ← execHosts te task moduleFn order;
    (if ts_register task =s "" then mret tt else registerResults task results);;
    mret results
  end.

(** ** Results are well formed *)

Lemma bind_run {A B} (m : M A) (f : A -> M B) s :
  (x ← m; f x) s = f (m s).1 (m s).2.
Proof. unfold mbind, M_bind. by destruct (m s). Qed.

(** A host's result names the host, ends in one of four statuses, and is
    failed exactly when it carries an error. *)
Definition resultOk (host : string) (r : TaskResult) : Prop :=
  tr_host r = host /\
  (tr_status r = TaskStatusOK \/ tr_status r = TaskStatusChanged \/
   tr_status r = TaskStatusFailed \/ tr_status r = TaskStatusSkipped) /\
  (tr_status r = TaskStatusFailed <-> tr_error r <> "").

(** The accumulator of the item loop: unfailed so far. *)
Definition pendingOk (host : string) (r : TaskResult) : Prop :=
  tr_host r = host /\ tr_status r = TaskStatusOK /\ tr_error r = "".

Lemma itemLoop_ok te task host mf items idx sk r s :
  pendingOk host r -> resultOk host (itemLoop te task host mf items idx sk r s).1.
Proof.
  revert idx sk r s. induction items as [|item items IH]; intros idx sk r s (Hh & Hs & He);
    cbn [itemLoop].
  - unfold mret, M_ret, resultOk. destruct sk; [|destruct (tr_changed r)]; cbn; rewrite ?Hs, He; naive_solver.
  - rewrite bind_run. set (lr := (executeWithRetry _ _ _ _ _ _ s).1).
    set (r' := if tr_changed (lr_result lr) then _ else _).
    assert (pendingOk host r') as Hr' by (unfold r'; destruct (tr_changed (lr_result lr)); done).
    destruct (String.eqb_spec (tr_error (lr_result lr)) "") as [|Hne]; [by apply IH|].
    assert (resultOk host (fail_with r' (tr_error (lr_result lr)))) as Hf.
    { split; [apply Hr'|]. cbn. split; [tauto|done]. }
    destruct (ts_ignoreErrors task) as [[]|]; [by apply IH|exact Hf..].
Qed.

Lemma dictItems_err v e : dictItems v = Err e -> e <> "".
Proof. destruct v; cbn; congruence. Qed.

Lemma resolveLoop_err task vs e : resolveLoop task vs = Err e -> e <> "".
Proof.
  unfold resolveLoop. destruct (is_nil _); [done|].
  destruct (ts_loopKind task); [done..|]. apply dictItems_err.
Qed.

Lemma execTaskHost_ok te task host mf s :
  resultOk host (execTaskHost te task host mf s).1.
Proof.
  unfold execTaskHost. rewrite bind_run.
  destruct (resolveLoop task _) as [items|e] eqn:El; [by apply itemLoop_ok|].
  split; [done|]. cbn. split; [tauto|]. split; [|done].
  intros _. by apply resolveLoop_err in El.
Qed.

Lemma execHosts_ok te task mf hosts s :
  Forall2 resultOk hosts (execHosts te task mf hosts s).1.
Proof.
  revert s. induction hosts as [|h hosts IH]; intros s; cbn [execHosts]; [constructor|].
  rewrite !bind_run. constructor; [apply execTaskHost_ok | apply IH].
Qed.

Lemma Exec_results te task s :
  Forall2 resultOk (match FindModule (mr_name (ts_module task)) with
                    | Some _ => schedule (st_world s) (ts_hosts task)
                    | None => ts_hosts task
                    end) (Exec te task s).1.
Proof.
  unfold Exec. destruct (FindModule _) as [mf|].
  - rewrite !bind_run. apply execHosts_ok.
  - cbn. induction (ts_hosts task) as [|h l IH]; constructor; [|done].
    split; [done|]. split; [tauto|]. done.
Qed.

(** ** What a result records

    [yields P m]: what [m] answers satisfies [P], from any state. *)

Definition yields {A} (P : A -> Prop) (m : M A) : Prop := forall s, P (m s).1.

Lemma yields_bind {A B} (Q : A -> Prop) (P : B -> Prop) (m : M A) (f : A -> M B) :
  yields Q m -> (forall a, Q a -> yields P (f a)) -> yields P (m ≫= f).
Proof. intros Hm Hf s. unfold mbind, M_bind. specialize (Hm s). destruct (m s) as [a s']. by apply Hf. Qed.

Lemma yields_any {A B} (P : B -> Prop) (m : M A) (f : A -> M B) : (forall a, yields P (f a)) -> yields P (m ≫= f).
Proof. intros Hf. by apply (yields_bind (fun _ => True)). Qed.

(** The error of an item that was ignored. *)
Definition ignoredError (r : TaskResult) : string := extractString (tr_output r) "_ignored_error".

(** The result of one item: it records no ignored error, and one that was
    skipped has changed nothing. *)
Definition itemOk (r : TaskResult) : Prop :=
  match tr_output r with Some m => m !! "_ignored_error" = None | None => True end
  /\ (tr_status r = TaskStatusSkipped -> tr_changed r = false).

Lemma itemOk_fail r e : itemOk r -> itemOk (fail_with r e).
Proof. intros [H _]. by split. Qed.

Lemma itemOk_applyFailure host task err r : itemOk r -> yields itemOk (executeModuleApplyFailure host task err r).
Proof.
  intros Hr. unfold executeModuleApplyFailure. destruct (ts_failedWhen task) as [|c cs].
  - intros s. destruct err; [by apply itemOk_fail | done].
  - apply yields_any. intros vs s. destruct (ParseBool vs (c :: cs)) as [[]|]; by try apply itemOk_fail.
Qed.

Lemma itemOk_applyChanged host task r : itemOk r -> yields itemOk (executeModuleApplyChanged host task r).
Proof.
  intros Hr. unfold executeModuleApplyChanged. destruct (ts_changedWhen task) as [|c cs]; [by intros s|].
  destruct (bool_decide (tr_status r = TaskStatusFailed) || bool_decide (tr_status r = TaskStatusSkipped)) eqn:Eo; [by intros s|].
  apply orb_false_iff in Eo as [_ Hs%bool_decide_eq_false]. apply yields_any. intros vs s.
  destruct Hr as [H1 H2]. destruct (ParseBool vs (c :: cs)) as [[]|]; (split; [exact H1 | done]).
Qed.

Lemma itemOk_runModule te task host mf vs r : tr_status r <> TaskStatusSkipped -> itemOk r ->
  yields itemOk (runModule te task host mf vs r).
Proof.
  intros Hs Hr. unfold runModule. apply yields_any. intros [conn|e]; [|intros s; by apply itemOk_fail].
  apply yields_any. intros [[stdout stderr] err].
  eapply yields_bind; [apply itemOk_applyFailure|intros r'; apply itemOk_applyChanged]. by split.
Qed.

Lemma itemOk_body te task host mf vs : yields itemOk (executeModuleBody te task host mf vs).
Proof.
  unfold executeModuleBody. destruct (ts_when task) as [|c cs]; [by apply itemOk_runModule|].
  destruct (ParseBool _ _) as [[]|]; [by apply itemOk_runModule|by intros s..].
Qed.

Lemma itemOk_executeModule te task host mf item idx :
  yields (fun lr => itemOk (lr_result lr)) (executeModule te task host mf item idx).
Proof.
  unfold executeModule. apply yields_any. intros vs. destruct (is_nil item).
  - eapply yields_bind; [apply itemOk_body|]. by intros r Hr s.
  - apply yields_any. intros []. eapply yields_bind; [apply itemOk_body|]. intros r Hr. apply yields_any. by intros [] s.
Qed.

Lemma itemOk_retryLoop te task host mf item idx n a k lr : itemOk (lr_result lr) ->
  yields (fun lr => itemOk (lr_result lr)) (retryLoop te task host mf item idx n a k lr).
Proof.
  revert a lr. induction k as [|k IH]; intros a lr Hlr; cbn [retryLoop]; [by intros s|].
  apply yields_any. intros [e|]; [by intros s|]. eapply yields_bind; [apply itemOk_executeModule|]. intros lr1 H1.
  apply (yields_bind (fun p => itemOk (lr_result p.2))).
  - unfold executeWithRetryShouldStop. destruct (ts_until task) as [|c cs]; [by intros s|]. apply yields_any. intros vs s.
    destruct (ParseBool vs _) as [[]|]; try done; by destruct (_ && _).
  - intros [[] lr2] H2; [by intros s | by apply IH].
Qed.

(** The result of a host. *)
Record recorded (task : TaskSpec) (r : TaskResult) : Prop := {
  rec_ignored : ignoredError r <> "" -> ts_ignoreErrors task = Some true;
  rec_changed : tr_changed r = true -> tr_status r <> TaskStatusFailed -> tr_status r = TaskStatusChanged;
  rec_status : tr_status r = TaskStatusChanged -> tr_changed r = true
}.

(** The accumulator of the item loop. *)
Definition gathers (task : TaskSpec) (sk : bool) (r : TaskResult) : Prop :=
  tr_status r = TaskStatusOK /\ (sk = true -> tr_changed r = false)
  /\ (ignoredError r <> "" -> ts_ignoreErrors task = Some true).

Lemma gathers_item task sk r lr : gathers task sk r -> itemOk (lr_result lr) ->
  let r1 := set_output r (mergeOutput (tr_output r) lr) in
  let r1 := if tr_changed (lr_result lr) then set_changed r1 true else r1 in
  gathers task (if bool_decide (tr_status (lr_result lr) = TaskStatusSkipped) then sk else false) r1.
Proof.
  intros (H1 & H2 & H3) [Hi Hc]. cbv zeta. split; [by destruct (tr_changed (lr_result lr))|]. split.
  - case_bool_decide as Hs; [|done]. intros Hsk. rewrite (Hc Hs). by apply H2.
  - intros Hne. apply H3. intros E0. apply Hne. unfold ignoredError in *.
    replace (tr_output (if tr_changed (lr_result lr) then _ else _)) with (mergeOutput (tr_output r) lr)
      by by destruct (tr_changed (lr_result lr)).
    unfold mergeOutput. destruct (tr_output r) as [m|], (tr_output (lr_result lr)) as [o|]; try done; cbn; by rewrite Hi.
Qed.

Lemma recorded_itemLoop te task host mf items idx sk r : gathers task sk r ->
  yields (recorded task) (itemLoop te task host mf items idx sk r).
Proof.
  revert idx sk r. induction items as [|item items IH]; intros idx sk r HG; cbn [itemLoop].
  - intros s. destruct HG as (H1 & H2 & H3). unfold mret, M_ret. cbn.
    destruct sk; [|destruct (tr_changed r) eqn:Ec]; split; cbn; try done; rewrite ?Ec, ?H1; try done. by rewrite H2.
  - apply (yields_bind (fun lr => itemOk (lr_result lr))); [by apply itemOk_retryLoop|]. intros lr Hi.
    assert (HG' := gathers_item task sk r lr HG Hi). cbv zeta in HG' |- *.
    set (r1 := if tr_changed (lr_result lr) then _ else _) in *.
    destruct (tr_error (lr_result lr) =s ""); [by apply IH|]. destruct HG' as (H1 & H2 & H3).
    destruct (ts_ignoreErrors task) as [[]|] eqn:Eg; [by apply IH; split|..]; intros s; split; try done; by rewrite Eg.
Qed.

Lemma recorded_host te task host mf : yields (recorded task) (execTaskHost te task host mf).
Proof.
  unfold execTaskHost. apply yields_any. intros vs. destruct (resolveLoop task vs); [by apply recorded_itemLoop|].
  intros s. by split.
Qed.

Lemma recorded_Exec te task : yields (Forall (recorded task)) (Exec te task).
Proof.
  unfold Exec. destruct (FindModule _) as [mf|].
  - apply yields_any. intros order. apply (yields_bind (Forall (recorded task))); [|intros rs Hrs; by apply yields_any; intros [] s].
    induction order as [|h hosts IH]; cbn [execHosts]; [by intros s; constructor|].
    eapply yields_bind; [apply recorded_host|]. intros r Hr. eapply yields_bind; [apply IH|]. intros rs Hrs s. by constructor.
  - intros s. cbn. apply Forall_fmap, Forall_forall. intros h _. by split.
Qed.

(** ** What is registered *)

(** The flag [k] of the variable [x] at run time. *)
Definition registered (v : Value) (host x k : string) : option any :=
  hv ← v_hosts v !! host; at_path (AMap (RuntimeVars hv)) [x; k].

Lemma registered_merge v host x task r k b : is_Some (v_hosts v !! host) -> regVar task r !! k = Some (ABool b) ->
  registered (MergeHostRuntimeVars host {[x := AMap (regVar task r)]} v) host x k = Some (ABool b).
Proof.
  intros [hv Hv] Hk. unfold registered, MergeHostRuntimeVars. rewrite bool_decide_false by apply map_non_empty_singleton.
  cbn. rewrite lookup_alter_eq, Hv. cbn [fmap option_fmap option_map mbind option_bind RuntimeVars].
  apply (proj2 (CombineVariables_leaves (RuntimeVars hv) {[x := AMap (regVar task r)]} [x; k] (ABool b) eq_refl)).
  left. cbn -[regVar]. by rewrite lookup_singleton_eq, Hk.
Qed.

Lemma registered_other v host h m (y k : string) : h <> host -> registered (MergeHostRuntimeVars h m v) host y k = registered v host y k.
Proof.
  intros Hne. unfold registered, MergeHostRuntimeVars. case_bool_decide; [done|]. cbn. by rewrite lookup_alter_ne.
Qed.

Lemma known_merge v host h m : is_Some (v_hosts (MergeHostRuntimeVars h m v) !! host) <-> is_Some (v_hosts v !! host).
Proof. unfold MergeHostRuntimeVars. case_bool_decide; [done|]. apply lookup_alter_is_Some. Qed.

Lemma registerResults_flags task rs s r k b : NoDup (tr_host <$> rs) -> r ∈ rs ->
  is_Some (v_hosts (st_value s) !! tr_host r) -> regVar task r !! k = Some (ABool b) ->
  registered (st_value (registerResults task rs s).2) (tr_host r) (ts_register task) k = Some (ABool b).
Proof.
  revert s. induction rs as [|r0 rs IH]; intros s; [by intros _ ?%elem_of_nil|].
  cbn [fmap list_fmap registerResults]. intros [Hn HN]%NoDup_cons Hin Hh Hk.
  unfold mbind, M_bind, mergeVar. apply elem_of_cons in Hin as [->|Hin].
  - assert (Hlater : forall l s', tr_host r0 ∉ tr_host <$> l ->
      registered (st_value (registerResults task l s').2) (tr_host r0) (ts_register task) k
      = registered (st_value s') (tr_host r0) (ts_register task) k).
    { clear. induction l as [|x l IH]; intros s' Hn; [done|]. cbn [fmap list_fmap] in Hn. cbn [registerResults].
      unfold mbind, M_bind, mergeVar. rewrite IH by (intros ?; apply Hn; by right). cbn. apply registered_other.
      intros E0. apply Hn. rewrite E0. left. }
    rewrite Hlater by done. cbn. by apply registered_merge.
  - apply IH; [done | done | by apply known_merge | done].
Qed.

Lemma registerResults_known task rs s host :
  is_Some (v_hosts (st_value (registerResults task rs s).2) !! host) <-> is_Some (v_hosts (st_value s) !! host).
Proof.
  revert s. induction rs as [|r rs IH]; intros s; [done|]. cbn [registerResults]. unfold mbind, M_bind, mergeVar.
  rewrite IH. cbn. apply known_merge.
Qed.

(** Once a task that registers a variable has run, the flags of its results
    are those of the variable. *)
Lemma Exec_registered te task s r k b :
  FindModule (mr_name (ts_module task)) <> None -> ts_register task <> "" ->
  NoDup (tr_host <$> (Exec te task s).1) -> r ∈ (Exec te task s).1 ->
  is_Some (v_hosts (st_value (Exec te task s).2) !! tr_host r) -> regVar task r !! k = Some (ABool b) ->
  registered (st_value (Exec te task s).2) (tr_host r) (ts_register task) k = Some (ABool b).
Proof.
  unfold Exec. destruct (FindModule _) as [mf|]; [|done]. intros _ Hne. rewrite !bind_run.
  destruct (String.eqb_spec (ts_register task) "") as [|_]; [done|]. unfold mret, M_ret. cbn [fst snd].
  intros HN Hr Hh Hk. apply registerResults_flags; [done | done | | done]. by rewrite registerResults_known in Hh.
Qed.

(** ** How often a module runs *)

(** [cnt] counts the runs of [mf] in the world: a run adds one, a wait and the
    creation of a connection none. *)
Record countsRuns (cnt : W -> Z) (te : TaskExecutor) (mf : ModuleFn W Conn) : Prop := mkCounts {
  counts_run : forall o v w, cnt (mf o v w).2.1.2 = cnt w + 1;
  counts_wait : forall w d, cnt (waitDelay w d).2 = cnt w;
  counts_resolve : forall f h s, te_resolve te = Some f -> cnt (st_world (f h s).2) = cnt (st_world s)
}.

Section counting.
Context (cnt : W -> Z) (te : TaskExecutor) (mf : ModuleFn W Conn).
Hypothesis Hc : countsRuns cnt te mf.

(** [runs m lo hi s]: from [s], [m] makes between [lo] and [hi] runs. *)
Definition runs {A} (m : M A) (lo hi : Z) (s : state) : Prop :=
  cnt (st_world s) + lo <= cnt (st_world (m s).2) <= cnt (st_world s) + hi.

Lemma runs_ret {A} (a : A) s : runs (mret a) 0 0 s.
Proof. unfold runs, mret, M_ret. cbn. lia. Qed.

Lemma runs_bind {A B} (m : M A) (f : A -> M B) lo hi lo' hi' s :
  runs m lo hi s -> (forall a s', runs (f a) lo' hi' s') -> runs (m ≫= f) (lo + lo') (hi + hi') s.
Proof.
  unfold runs. intros H1 H2. unfold mbind, M_bind. destruct (m s) as [a s'] eqn:Em.
  cbn in H1. specialize (H2 a s'). lia.
Qed.

Lemma runs_weaken {A} (m : M A) lo hi lo' hi' s :
  runs m lo hi s -> lo' <= lo -> hi <= hi' -> runs m lo' hi' s.
Proof. unfold runs. lia. Qed.

Lemma runs_gets {A} (f : state -> A) s : runs (gets f) 0 0 s.
Proof. unfold runs, gets. cbn. lia. Qed.

Lemma runs_merge f s : runs (mergeVar f) 0 0 s.
Proof. unfold runs, mergeVar. cbn. lia. Qed.

Lemma runs_varsWithResult h r s : runs (getVarsWithResult h r) 0 0 s.
Proof. unfold runs, getVarsWithResult, mbind, M_bind, getAll, gets. cbn. lia. Qed.

Lemma runs_applyFailure h task err r s : runs (executeModuleApplyFailure h task err r) 0 0 s.
Proof.
  unfold executeModuleApplyFailure. destruct (ts_failedWhen task); [apply runs_ret|].
  apply (runs_bind _ _ 0 0 0 0); [apply runs_varsWithResult|]. intros. apply runs_ret.
Qed.

Lemma runs_applyChanged h task r s : runs (executeModuleApplyChanged h task r) 0 0 s.
Proof.
  unfold executeModuleApplyChanged. destruct (ts_changedWhen task); [apply runs_ret|].
  destruct (_ || _); [apply runs_ret|].
  apply (runs_bind _ _ 0 0 0 0); [apply runs_varsWithResult|]. intros. apply runs_ret.
Qed.

Lemma runs_connectorFor h s : runs (connectorFor te h) 0 0 s.
Proof using Hc.
  unfold connectorFor. apply (runs_bind _ _ 0 0 0 0); [apply runs_gets|]. intros conns s'.
  destruct (conns !! h); [apply runs_ret|].
  destruct (te_resolve te) as [f|] eqn:Er; [|apply runs_ret].
  unfold runs. rewrite (counts_resolve _ _ _ Hc f); [lia|done].
Qed.

Lemma runs_taskConnector task h vs s : runs (taskConnector te task h vs) 0 0 s.
Proof using Hc.
  unfold taskConnector. destruct (_ =s ""); [apply runs_connectorFor|].
  destruct (ParseString _ _); [|apply runs_ret]. destruct (_ =s ""); [apply runs_ret|].
  apply (runs_bind _ _ 0 0 0 0); [apply runs_connectorFor|]. intros. apply runs_ret.
Qed.

Lemma runs_callModule o s : runs (callModule mf o) 1 1 s.
Proof using Hc.
  unfold runs, callModule. pose proof (counts_run _ _ _ Hc o (st_value s) (st_world s)) as H.
  destruct (mf o (st_value s) (st_world s)) as [out [[v' w'] ls]]. cbn in *. lia.
Qed.

Lemma runs_runModule task h vs r s : runs (runModule te task h mf vs r) 0 1 s.
Proof using Hc.
  unfold runModule. apply (runs_bind _ _ 0 0 0 1); [apply runs_taskConnector|].
  intros [conn|e] s1; [|eapply runs_weaken; [apply runs_ret|lia..]].
  eapply runs_weaken; [apply (runs_bind _ _ 1 1 0 0); [apply runs_callModule|]|lia..].
  intros [[stdout stderr] err] s2.
  apply (runs_bind _ _ 0 0 0 0); [apply runs_applyFailure|]. intros. apply runs_applyChanged.
Qed.

Lemma runs_body task h vs s : runs (executeModuleBody te task h mf vs) 0 1 s.
Proof using Hc.
  unfold executeModuleBody. destruct (ts_when task); [apply runs_runModule|].
  destruct (ParseBool _ _) as [[]|]; [apply runs_runModule|..];
    (eapply runs_weaken; [apply runs_ret|lia..]).
Qed.

Lemma runs_executeModule task h item idx s : runs (executeModule te task h mf item idx) 0 1 s.
Proof using Hc.
  unfold executeModule. apply (runs_bind _ _ 0 0 0 1); [apply runs_gets|]. intros vs s1.
  destruct (is_nil item).
  - apply (runs_bind _ _ 0 1 0 0); [apply runs_body|]. intros. apply runs_ret.
  - apply (runs_bind _ _ 0 0 0 1); [apply runs_merge|]. intros _ s2.
    apply (runs_bind _ _ 0 1 0 0); [apply runs_body|]. intros r s3.
    apply (runs_bind _ _ 0 0 0 0); [apply runs_merge|]. intros. apply runs_ret.
Qed.

Lemma runs_shouldStop h a n task lr s : runs (executeWithRetryShouldStop h a n task lr) 0 0 s.
Proof.
  unfold executeWithRetryShouldStop. destruct (ts_until task); [apply runs_ret|].
  apply (runs_bind _ _ 0 0 0 0); [apply runs_varsWithResult|]. intros. apply runs_ret.
Qed.

Lemma runs_retryWait task a s : runs (retryWait task a) 0 0 s.
Proof using Hc.
  unfold runs, retryWait. destruct (0 <? a); cbn; [|lia].
  pose proof (counts_wait _ _ _ Hc (st_world s) (ts_delay task)) as H.
  destruct (waitDelay (st_world s) (ts_delay task)). cbn in *. lia.
Qed.

Lemma runs_retryLoop task h item idx n a k lr s :
  runs (retryLoop te task h mf item idx n a k lr) 0 (Z.of_nat k) s.
Proof using Hc.
  revert a lr s. induction k as [|k IH]; intros a lr s; cbn [retryLoop]; [apply runs_ret|].
  eapply runs_weaken; [apply (runs_bind _ _ 0 0 0 (1 + Z.of_nat k)); [apply runs_retryWait|]|lia..].
  intros [e|] s1; [eapply runs_weaken; [apply runs_ret|lia..]|].
  apply (runs_bind _ _ 0 1 0 (Z.of_nat k)); [apply runs_executeModule|]. intros lr1 s2.
  eapply runs_weaken; [apply (runs_bind _ _ 0 0 0 (Z.of_nat k)); [apply runs_shouldStop|]|lia..].
  intros [[] lr2] s3; [eapply runs_weaken; [apply runs_ret|lia..]|apply IH].
Qed.

(** The attempts a task's [retries] allow. *)
Definition maxAttempts (task : TaskSpec) : Z :=
  if ts_retries task =? 0 then 1 else Z.max 0 (ts_retries task).

Lemma runs_executeWithRetry task h item idx s :
  runs (executeWithRetry te task h mf item idx) 0 (maxAttempts task) s.
Proof using Hc.
  unfold executeWithRetry. eapply runs_weaken; [apply runs_retryLoop|lia|].
  unfold maxAttempts. destruct (ts_retries task =? 0); lia.
Qed.

Lemma runs_itemLoop task h items idx sk r s :
  runs (itemLoop te task h mf items idx sk r) 0 (Z.of_nat (length items) * maxAttempts task) s.
Proof using Hc.
  assert (0 <= maxAttempts task) as Hm by (unfold maxAttempts; destruct (_ =? _); lia).
  revert idx sk r s. induction items as [|item items IH]; intros idx sk r s; cbn [itemLoop length].
  { apply runs_ret. }
  eapply runs_weaken;
    [apply (runs_bind _ _ 0 (maxAttempts task) 0 (Z.of_nat (length items) * maxAttempts task));
     [apply runs_executeWithRetry|]|lia..].
  intros lr s1. destruct (_ =s ""); [apply IH|].
  destruct (ts_ignoreErrors task) as [[]|]; [apply IH|..];
    (eapply runs_weaken; [apply runs_ret|nia..]).
Qed.

End counting.

(** ** What running a task leaves alone *)

(** [respects R m]: [m] moves from a state to one that [R] relates to it. *)
Definition respects (R : state -> state -> Prop) {A} (m : M A) : Prop := forall s, R s (m s).2.

Section silence.
Context (R : state -> state -> Prop) `{HR : !PreOrder R}.
Hypothesis Hval : forall s v, R s (set_value s v).
Hypothesis Hworld : forall s w, R s (set_world s w).

Lemma respects_ret {A} (a : A) : respects R (mret a).
Proof using HR. intros s. reflexivity. Qed.

Lemma respects_gets {A} (f : state -> A) : respects R (gets f).
Proof using HR. intros s. reflexivity. Qed.

Lemma respects_merge f : respects R (mergeVar f).
Proof using Hval. intros s. apply Hval. Qed.

Lemma respects_bind {A B} (m : M A) (f : A -> M B) :
  respects R m -> (forall a, respects R (f a)) -> respects R (m ≫= f).
Proof using HR.
  intros H1 H2 s. unfold mbind, M_bind. specialize (H1 s). destruct (m s) as [a s'].
  etrans; [exact H1 | apply H2].
Qed.

#[local] Hint Resolve respects_ret respects_gets respects_merge respects_bind : silent.

Context (te : TaskExecutor).
Hypothesis Hres : forall f h, te_resolve te = Some f -> respects R (f h).

(** What a run of a module may write to the log. *)
Context (mf : ModuleFn W Conn).
Hypothesis Hlog : forall o v w s, R s (logLines (if te_logOutput te then (mf o v w).2.2 else []) s).

Lemma respects_callModule o : eo_logOutput o = te_logOutput te -> respects R (callModule mf o).
Proof using HR Hval Hworld Hlog.
  intros Ho s. unfold callModule. assert (H := Hlog o (st_value s) (st_world s)). rewrite Ho.
  destruct (mf o _ _) as [out [[v' w'] ls]]. etrans; [apply (Hval s v')|]. etrans; [apply Hworld | apply H].
Qed.

Lemma respects_retryWait task a : respects R (retryWait task a).
Proof using HR Hworld.
  intros s. unfold retryWait. destruct (0 <? a); [|reflexivity].
  destruct (waitDelay _ _). apply Hworld.
Qed.

Lemma respects_varsWithResult h r : respects R (getVarsWithResult h r).
Proof using HR. unfold getVarsWithResult, getAll. auto with silent. Qed.

Lemma respects_applyFailure h task err r : respects R (executeModuleApplyFailure h task err r).
Proof using HR.
  unfold executeModuleApplyFailure. destruct (ts_failedWhen task); [auto with silent|].
  apply respects_bind; [apply respects_varsWithResult | auto with silent].
Qed.

Lemma respects_applyChanged h task r : respects R (executeModuleApplyChanged h task r).
Proof using HR.
  unfold executeModuleApplyChanged. destruct (ts_changedWhen task); [auto with silent|].
  destruct (_ || _); [auto with silent|].
  apply respects_bind; [apply respects_varsWithResult | auto with silent].
Qed.

Lemma respects_connectorFor h : respects R (connectorFor te h).
Proof using HR Hval Hworld Hres.
  unfold connectorFor. apply respects_bind; [auto with silent|]. intros conns.
  destruct (conns !! h); [auto with silent|].
  destruct (te_resolve te) as [f|]; [by apply Hres | auto with silent].
Qed.

Lemma respects_taskConnector task h vs : respects R (taskConnector te task h vs).
Proof using HR Hval Hworld Hres.
  unfold taskConnector. destruct (_ =s ""); [apply respects_connectorFor|].
  destruct (ParseString _ _); [|auto with silent]. destruct (_ =s ""); [auto with silent|].
  apply respects_bind; [apply respects_connectorFor | auto with silent].
Qed.

Lemma respects_runModule task h vs r : respects R (runModule te task h mf vs r).
Proof using HR Hval Hworld Hres Hlog.
  unfold runModule. apply respects_bind; [apply respects_taskConnector|].
  intros [conn|]; [|auto with silent].
  apply respects_bind; [by apply respects_callModule|]. intros [[stdout stderr] err].
  apply respects_bind; [apply respects_applyFailure|]. intros. apply respects_applyChanged.
Qed.

Lemma respects_executeModule task h item idx : respects R (executeModule te task h mf item idx).
Proof using HR Hval Hworld Hres Hlog.
  assert (forall vs, respects R (executeModuleBody te task h mf vs)) as Hb.
  { intros vs. unfold executeModuleBody. destruct (ts_when task); [apply respects_runModule|].
    destruct (ParseBool _ _) as [[]|]; [apply respects_runModule|auto with silent..]. }
  unfold executeModule. apply respects_bind; [apply respects_gets|]. intros vs.
  destruct (is_nil item); auto 10 with silent.
Qed.

Lemma respects_retryLoop task h item idx n a k lr :
  respects R (retryLoop te task h mf item idx n a k lr).
Proof using HR Hval Hworld Hres Hlog.
  revert a lr. induction k as [|k IH]; intros a lr; cbn [retryLoop]; [auto with silent|].
  apply respects_bind; [apply respects_retryWait|]. intros [e|]; [auto with silent|].
  apply respects_bind; [apply respects_executeModule|]. intros lr1.
  apply respects_bind.
  - unfold executeWithRetryShouldStop. destruct (ts_until task); [auto with silent|].
    apply respects_bind; [apply respects_varsWithResult | auto with silent].
  - intros [[] lr2]; [auto with silent | apply IH].
Qed.

Lemma respects_itemLoop task h items idx sk r :
  respects R (itemLoop te task h mf items idx sk r).
Proof using HR Hval Hworld Hres Hlog.
  revert idx sk r. induction items as [|item items IH]; intros idx sk r; cbn [itemLoop];
    [auto with silent|].
  apply respects_bind; [apply respects_retryLoop|]. intros lr.
  destruct (_ =s ""); [apply IH|]. destruct (ts_ignoreErrors task) as [[]|]; [apply IH|auto with silent..].
Qed.

Lemma respects_execHosts task hosts : respects R (execHosts te task mf hosts).
Proof using HR Hval Hworld Hres Hlog.
  induction hosts as [|h hosts IH]; cbn [execHosts]; [auto with silent|].
  apply respects_bind.
  - unfold execTaskHost. apply respects_bind; [apply respects_gets|]. intros vs.
    destruct (resolveLoop task vs); [apply respects_itemLoop | auto with silent].
  - intros r. apply respects_bind; [exact IH | auto with silent].
Qed.

Lemma respects_ExecWith task : FindModule (mr_name (ts_module task)) = Some mf -> respects R (Exec te task).
Proof using HR Hval Hworld Hres Hlog.
  intros Hm. unfold Exec. rewrite Hm.
  apply respects_bind; [apply respects_gets|]. intros order.
  apply respects_bind; [apply respects_execHosts|]. intros rs.
  apply respects_bind; [|auto with silent].
  destruct (_ =s ""); [auto with silent|].
  induction rs as [|r rs IH]; cbn [registerResults]; auto with silent.
Qed.

End silence.

(** [respects], for a relation that lets every module of the engine write
    what it writes. *)
Lemma respects_Exec (R : state -> state -> Prop) `{!PreOrder R} (te : TaskExecutor) task :
  (forall s v, R s (set_value s v)) -> (forall s w, R s (set_world s w)) ->
  (forall f h, te_resolve te = Some f -> respects R (f h)) ->
  (forall mf o v w s, FindModule (mr_name (ts_module task)) = Some mf ->
     R s (logLines (if te_logOutput te then (mf o v w).2.2 else []) s)) ->
  respects R (Exec te task).
Proof.
  intros Hv Hw Hres Hlog. destruct (FindModule (mr_name (ts_module task))) as [mf|] eqn:Hm.
  - apply (respects_ExecWith R Hv Hw te Hres mf); [|done]. intros o v w s. by apply Hlog.
  - unfold Exec. rewrite Hm. intros s. reflexivity.
Qed.

(** [silent m]: [m] emits no event and does not move the task counter; to
    the log it only adds. *)
Definition sameTrace (s s' : state) : Prop :=
  st_events s' = st_events s /\ st_log s `prefix_of` st_log s' /\ st_index s' = st_index s.

#[export] Instance sameTrace_preorder : PreOrder sameTrace.
Proof. split; [done|]. intros s1 s2 s3 (? & ? & ?) (? & ? & ?). repeat split; [congruence | by etrans | congruence]. Qed.

Definition silent {A} (m : M A) : Prop := respects sameTrace m.

Lemma silent_Exec (te : TaskExecutor) task :
  (forall f h, te_resolve te = Some f -> silent (f h)) -> silent (Exec te task).
Proof.
  intros H. apply respects_Exec; [apply _ | done | done | done|]. intros mf o v w s _. split; [done|].
  split; [by eexists | done].
Qed.

(** A module that writes nothing to the log. *)
Definition quiet (mf : ModuleFn W Conn) : Prop := forall o v w, (mf o v w).2.2 = [].

Definition sameLog (s s' : state) : Prop := st_log s' = st_log s.

#[export] Instance sameLog_preorder : PreOrder sameLog.
Proof. split; [done|]. intros s1 s2 s3 ? ?. unfold sameLog in *. congruence. Qed.

Lemma quiet_Exec (te : TaskExecutor) task :
  (forall f h, te_resolve te = Some f -> respects sameLog (f h)) ->
  te_logOutput te = false \/ (forall mf, FindModule (mr_name (ts_module task)) = Some mf -> quiet mf) ->
  respects sameLog (Exec te task).
Proof.
  intros H Hq. apply respects_Exec; [apply _ | done | done | done|]. intros mf o v w s Hm. unfold sameLog. cbn.
  destruct Hq as [->|Hq]; [apply app_nil_r|]. rewrite (Hq mf Hm). destruct (te_logOutput te); apply app_nil_r.
Qed.

Lemma resultOk_hosts hosts rs : Forall2 resultOk hosts rs -> tr_host <$> rs = hosts.
Proof. induction 1 as [|h r hosts rs (Hh & _) _ IH]; [done|]. cbn. by rewrite Hh, IH. Qed.

(** ** The debug module

    [modules/debug/debug.go]. [MarshalIndent] is [json.MarshalIndent], with
    its error. *)

Section debug.
Context (MarshalIndent : any -> option string).

(** [nestedLookup] on the map [GetAllVariable] returns, which holds the map
    of all hosts. *)
Fixpoint walkVars (vs : AllVars) (current : any) (keys : list string) : any :=
  match keys with
  | [] => current
  | key :: keys' =>
    match current with
    | AMap m => match m !! key with Some val => walkVars vs val keys' | None => ANil end
    | AGlobalHosts => match av_globals vs !! key with Some m => walkVars vs (AMap m) keys' | None => ANil end
    | _ => ANil
    end
  end.

(** What a handler answers: the message or the error, and the lines. *)
Abbreviation debugged := (result string string * list string)%type.

Definition writeDebug (data : any) (out : bool) : debugged :=
  let msg := match data with AStr m => m | v => default "" (MarshalIndent v) end in
  (Ok msg, if out then ["DEBUG: " +++ msg] else []).

Definition handleMsg (v : any) (vs : AllVars) (out : bool) : debugged :=
  match v with
  | AStr m =>
    match ParseString vs m with
    | Err e => (Err ("debug: render msg: " +++ e), [])
    | Ok rendered => writeDebug (AStr rendered) out
    end
  | _ => writeDebug v out
  end.

Definition handleVar (v : any) (vs : AllVars) (out : bool) : debugged :=
  match v with
  | AStr m =>
    let m := ListQ.TrimSpace (if IsTmplSyntax m then TrimTmplSyntax m else m) in
    if negb (HasPrefix m ".") then (Err ("debug: var path must start with " +++ quoted "."), [])
    else
      let path := TrimPrefix m "." in
      if path =s "" then (Err "debug: var path cannot be empty", [])
      else writeDebug (walkVars vs (AMap (allVars vs)) (Split path "."%char)) out
  | _ => writeDebug v out
  end.

Definition ModuleDebug : ModuleFn W Conn := fun o v w =>
  let vs := GetAllVariable (envOf w) (eo_host o) v in
  let '(r, lines) :=
    match eo_args o !! "var" with
    | Some x => handleVar x vs (eo_logOutput o)
    | None =>
      match eo_args o !! "msg" with
      | Some x => handleMsg x vs (eo_logOutput o)
      | None => (Err ("debug: either " +++ quoted "msg" +++ " or " +++ quoted "var" +++ " is required"), [])
      end
    end in
  (match r with Ok out => (out, "", None) | Err e => ("", "", Some (mkModErr e None)) end, (v, w, lines)).

End debug.

End task.

(** What [schedule] stands for: every host's goroutine runs once. *)
Class EngineLaws (W Conn : Type) (E : Engine W Conn) : Prop := {
  schedule_perm : forall w l, Permutation (schedule w l) l
}.

Lemma Exec_hosts {W Conn : Type} {E : Engine W Conn} {L : EngineLaws W Conn E} (te : TaskExecutor) task
    (s : St W Conn) : Permutation (tr_host <$> (Exec te task s).1) (ts_hosts task).
Proof.
  rewrite (resultOk_hosts _ _ (Exec_results te task s)). destruct (FindModule _); [apply schedule_perm | done].
Qed.

(** Retries are bounded: on a host, a task runs its module at most
    [retries] times for each loop item (once when [retries] is unset, never
    when it is negative), whatever the module answers, however [until],
    [failed_when] and [when] evaluate and whatever connection a delegated
    task needs; the number of module runs is measured by any counter of the
    world that a run increments. *)
Lemma module_runs_bounded {W Conn : Type} {E : Engine W Conn} (cnt : W -> Z)
  (te : TaskExecutor) mf task host (s : St W Conn) :
  countsRuns cnt te mf ->
  let items := match resolveLoop task (getAll host s).1 with Ok l => l | Err _ => [] end in
  0 <= cnt (st_world (execTaskHost te task host mf s).2) - cnt (st_world s)
    <= Z.of_nat (length items) * maxAttempts task.
Proof.
  intros Hc. cbn zeta. unfold execTaskHost. rewrite bind_run.
  unfold getAll, gets. cbn [fst snd].
  destruct (resolveLoop task _) as [l|e]; [|cbn; lia].
  pose proof (runs_itemLoop cnt te mf Hc task host l 0 true
                (mkResult host TaskStatusOK false None "") s) as H.
  unfold runs in H. lia.
Qed.

(** A negative [retries] runs nothing and reports success. *)
Lemma negative_retries_never_run {W Conn : Type} {E : Engine W Conn} (te : TaskExecutor) mf task host
  (s : St W Conn) :
  ts_retries task < 0 -> is_nil (ts_loop task) = true ->
  execTaskHost te task host mf s = (mkResult host TaskStatusOK false None "", s).
Proof.
  intros Hr Hl. unfold execTaskHost. rewrite bind_run. unfold resolveLoop. rewrite Hl.
  cbn [itemLoop]. rewrite bind_run. unfold executeWithRetry.
  destruct (Z.eqb_spec (ts_retries task) 0); [lia|].
  rewrite Z2Nat.nonpos by lia. reflexivity.
Qed.

(** After an iteration the loop variable is not restored but set to nil in
    the run-time layer, over whatever the inventory says. *)
Lemma loop_var_left_nil {W Conn : Type} {E : Engine W Conn} (te : TaskExecutor) mf task host item idx
  (s : St W Conn) env hv :
  is_nil item = false ->
  loopVarName task ∉ [keyGlobalHosts; keyGroups; keyHostname] ->
  let v' := st_value (executeModule te task host mf item idx s).2 in
  v_hosts v' !! host = Some hv ->
  at_path (AMap (allVars (GetAllVariable env host v'))) [loopVarName task] = Some ANil.
Proof.
  intros Hi Hk v' Hh. set (k := loopVarName task) in *.
  assert (RuntimeVars hv !! k = Some ANil) as Hrt.
  { revert Hh. subst v'. unfold executeModule. rewrite bind_run, Hi, !bind_run.
    cbn [mergeVar snd st_value set_value mret M_ret].
    set (s1 := (executeModuleBody _ _ _ _ _ _).2).
    assert (((fun _ => ANil) <$> loopVarsOf task item idx) !! k = Some ANil) as Hl.
    { rewrite lookup_fmap. unfold loopVarsOf. fold k.
      destruct (_ =s ""); [by rewrite lookup_singleton_eq|].
      destruct (decide (IndexVar (ts_loopControl task) = k)) as [->|];
        [by rewrite lookup_insert_eq|]. by rewrite lookup_insert_ne, lookup_singleton_eq. }
    unfold MergeHostRuntimeVars. case_bool_decide as He; [by rewrite He, lookup_empty in Hl|].
    cbn [updHost set_v_hosts v_hosts]. rewrite lookup_alter_eq.
    destruct (v_hosts (st_value s1) !! host); [|done]. intros [= <-]. cbn [RuntimeVars].
    rewrite mergeLoop_lookup, Hl. cbn. by destruct (RuntimeVars h !! k) as [[]|]. }
  rewrite (GetAllVariable_host _ _ _ _ Hh).
  do 2 (apply insert_other_keep; [set_solver|]).
  rewrite mergedVars_layers. apply setDefaultHostVars_keep; [set_solver|].
  replace (layers env v' host hv) with (removelast (layers env v' host hv) ++ RuntimeVars hv :: []).
  - apply at_path_layers; [done| |constructor]. cbn. by rewrite Hrt.
  - unfold layers. rewrite !app_assoc. rewrite removelast_app by done. cbn. by rewrite <- !app_assoc.
Qed.

(** A concrete engine: the world counts the module runs; the module [shell]
    succeeds, [false] fails with exit code 1; a template renders to itself. *)
Definition demoModule (fails : bool) : ModuleFn Z unit := fun o v w =>
  (("out" +++ String (Ascii.ascii_of_nat 10) "", "",
    if fails then Some (mkModErr "exit status 1" (Some 1)) else None), (v, w + 1, [])).

Definition moduleEngine (find : string -> option (ModuleFn Z unit)) : Engine Z unit := {|
  envOf _ := mkEnv [] [] None;
  tmplExec _ s := Ok s;
  sprint _ := "";
  decodeJSON _ := None;
  decodeYAML _ := None;
  FindModule := find;
  waitDelay w _ := (None, w);
  nowMs w := w;
  schedule _ l := l;
  newConnector _ _ w := (Ok tt, w);
  connInit _ w := (None, w);
  connClose _ w := w;
  ReadFile _ := Err "not found";
  unmarshalBlocks _ := Err "unused";
  unmarshalVars _ := Err "unused"
|}.

Definition demoEngine : Engine Z unit := moduleEngine (fun n =>
  if n =s "shell" then Some (demoModule false) else if n =s "false" then Some (demoModule true) else None).

Lemma demoLaws : EngineLaws Z unit demoEngine.
Proof. by split. Qed.

Definition demoSpec (modName : string) (hosts : list string) : TaskSpec :=
  mkTaskSpec "t" (mkModuleRef modName ANil) hosts [] [] ANil LoopKindLoop (mkLoopControl "" "")
    [] ANil "" "" 0 0 [] false "" "" 0 0 "" None.

Definition demoTE : TaskExecutor (W := Z) (Conn := unit) := mkTE true None.

Definition demoSt : St Z unit :=
  mkSt (New (mkInventory {["h1" := ∅; "h2" := ∅]} ∅ ∅)) 0 {["h1" := tt; "h2" := tt]} [] [] 0.

Lemma demoCounts : countsRuns (E := demoEngine) (fun w => w) demoTE (demoModule true).
Proof. by split. Qed.

Definition demoRetry : TaskSpec :=
  mkTaskSpec "t" (mkModuleRef "false" ANil) ["h1"] [] [] (AStrs ["a"; "b"]) LoopKindLoop
    (mkLoopControl "" "") [] ANil "" "" 3 0 [] false "" "" 0 0 "" (Some true).

(** The bound is reached: two items, three attempts each. *)
Lemma module_runs_tight :
  st_world (execTaskHost (E := demoEngine) demoTE demoRetry "h1" (demoModule true) demoSt).2 = 6.
Proof. vm_compute. reflexivity. Qed.

(** An ignored failure is recorded on the output of its item, which the next
    item's output replaces: a loop whose first item failed and whose second
    did not registers [failed: false]. *)
Definition onceEngine : Engine Z unit := moduleEngine (fun _ => Some (fun o v w =>
  (("", "", if w =? 0 then Some (mkModErr "exit status 1" (Some 1)) else None), (v, w + 1, [])))).

Definition demoLoop (items : list string) : TaskSpec :=
  mkTaskSpec "t" (mkModuleRef "m" ANil) ["h1"] [] [] (AStrs items) LoopKindLoop
    (mkLoopControl "" "") [] ANil "r" "" 0 0 [] false "" "" 0 0 "" (Some true).

Example ignored_error_forgotten :
  let failed items := registered (st_value (Exec (E := onceEngine) demoTE (demoLoop items) demoSt).2) "h1" "r" "failed" in
  failed ["a"] = Some (ABool true) /\ failed ["a"; "b"] = Some (ABool false).
Proof. by vm_compute. Qed.

End AnsibleTask.
