(* ===== verification/AnsibleBlock.v ===== *)
(** * The Ansible engine: blocks

    [src/lib/ansible/executor/block.go], [callback.go], [format.go]: running a
    list of blocks, with block / rescue / always, [include_tasks], [run_once],
    inherited [when], tags and [ignore_errors], progress events and the
    redaction of [no_log] tasks.

    [Exec] recurses into sub-blocks and into the blocks of included files,
    which are read while the play runs: the recursion is not structural, so it
    takes [fuel], decremented at every nested list, and answers [None] when it
    runs out. *)

From S2P Require Import Prelude ListQuery ApiServe AnsibleTypes AnsibleVars AnsiblePlan AnsibleTask.
Import AnsibleTypes AnsibleVars AnsiblePlan.

Module AnsibleBlock.

Definition noLogRedacted : string := "<output withheld: task is marked no_log>".

(** ** Merging inherited conditions *)

Definition mergeWhen (parent child : list string) : list string :=
  match child, parent with
  | [], _ => parent
  | _, [] => child
  | _, _ => appendNew parent child
  end.

(** ** Counting tasks *)

Fixpoint countBlock (b : Block) : Z :=
  if 0 <? Z.of_nat (length (b_block b)) then
    foldr (fun x n => countBlock x + n) 0 (b_block b)
    + foldr (fun x n => countBlock x + n) 0 (b_rescue b)
    + foldr (fun x n => countBlock x + n) 0 (b_always b)
  else 1.

Definition countBlocks (blocks : list Block) : Z := foldr (fun x n => countBlock x + n) 0 blocks.

(** ** Aggregation *)

(** [aggregateResults]: the loop with the status and the output so far. *)
Fixpoint aggregateLoop (status : TaskStatus) (output : option vars) (results : list TaskResult)
  : TaskStatus * string * option vars :=
  match results with
  | [] => (status, "", output)
  | r :: rest =>
    match tr_status r with
    | TaskStatusFailed => (TaskStatusFailed, tr_error r, tr_output r)
    | st =>
      let status := match st with
                    | TaskStatusChanged => TaskStatusChanged
                    | TaskStatusSkipped =>
                      if bool_decide (status = TaskStatusOK) then TaskStatusSkipped else status
                    | _ => status
                    end in
      aggregateLoop status (match output with None => tr_output r | _ => output end) rest
    end
  end.

Definition aggregateResults (results : list TaskResult) : TaskStatus * string * option vars :=
  aggregateLoop TaskStatusOK None results.

Definition isTrue (o : option bool) : bool := match o with Some b => b | None => false end.

(** [r.Output[key].(string)], when it is a non-empty string. *)
Definition outputText (r : TaskResult) (key header : string) : string :=
  match tr_output r with
  | Some m => match m !! key with
              | Some (AStr out) => if out =s "" then "" else header +++ out
              | _ => ""
              end
  | None => ""
  end.

Definition nl : string := String (Ascii.ascii_of_nat 10) "".

Fixpoint dealTaskCheckFailure (block : Block) (results : list TaskResult) (ignoreErrors : option bool)
  : option string :=
  match results with
  | [] => None
  | r :: rest =>
    if bool_decide (tr_status r = TaskStatusFailed) then
      if isTrue ignoreErrors then dealTaskCheckFailure block rest ignoreErrors
      else
        let detail :=
          if NoLog (b_base block) then noLogRedacted
          else tr_error r +++ outputText r "stdout" (nl +++ "--- stdout ---" +++ nl)
                 +++ outputText r "stderr" (nl +++ "--- stderr ---" +++ nl) in
        Some ("task " +++ quoted (Name (b_base block)) +++ " failed on host "
                +++ quoted (tr_host r) +++ ": " +++ detail)
    else dealTaskCheckFailure block rest ignoreErrors
  end.

(** [errors.Join] of two errors. *)
Definition joinErr (a b : option string) : option string :=
  match a, b with
  | Some x, Some y => Some (x +++ nl +++ y)
  | Some x, None => Some x
  | None, y => y
  end.

(** ** The executor *)

Record BlockExecutor (W Conn : Type) : Type := mkBE {
  be_resolve : AnsibleTask.Resolver (W := W) (Conn := Conn);
  be_log : bool;               (* logOutput != nil *)
  be_callback : bool;          (* callback != nil *)
  be_hosts : list string;
  be_ignoreErrors : option bool;
  be_when : list string;
  be_tags : list string;
  be_playTags : list string;
  be_playSkipTags : list string;
  be_role : string;
  be_indexed : bool;           (* taskIndex != nil *)
  be_total : Z;
  be_playBecome : bool;
  be_skipRunOnce : bool;
  be_includeStack : list string
}.
Arguments mkBE {W Conn}.
Arguments be_resolve {W Conn}.
Arguments be_log {W Conn}.
Arguments be_callback {W Conn}.
Arguments be_hosts {W Conn}.
Arguments be_ignoreErrors {W Conn}.
Arguments be_when {W Conn}.
Arguments be_tags {W Conn}.
Arguments be_playTags {W Conn}.
Arguments be_playSkipTags {W Conn}.
Arguments be_role {W Conn}.
Arguments be_indexed {W Conn}.
Arguments be_total {W Conn}.
Arguments be_playBecome {W Conn}.
Arguments be_skipRunOnce {W Conn}.
Arguments be_includeStack {W Conn}.

Section block.
Import AnsibleTask.
Context {W Conn : Type} {E : Engine W Conn}.

Abbreviation state := (St W Conn).
Abbreviation executor := (BlockExecutor W Conn).
Abbreviation act := (M (W := W) (Conn := Conn)).

Definition writeLog (e : executor) (line : string) : act unit := fun s =>
  (tt, if be_log e then
         mkSt (st_value s) (st_world s) (st_conns s) (st_events s) (st_log s ++ [line]) (st_index s)
       else s).

Definition emit (e : executor) (ev : Event) : act unit := fun s =>
  (tt, if be_callback e then
         mkSt (st_value s) (st_world s) (st_conns s) (st_events s ++ [ev]) (st_log s) (st_index s)
       else s).

Definition advance (e : executor) (n : Z) : act unit := fun s =>
  (tt, if be_indexed e then
         mkSt (st_value s) (st_world s) (st_conns s) (st_events s) (st_log s) (st_index s + n)
       else s).

(** ** One task *)

Definition dealTaskLogName (e : executor) (block : Block) : act unit :=
  let rolePart := if be_role e =s "" then "" else "[" +++ be_role e +++ "] " in
  writeLog e (rolePart +++ Name (b_base block)).

Definition dealTaskEmitStart (e : executor) (block : Block) : act Z :=
  advance e 1;;
  index ← gets (fun s => if be_indexed e then st_index s else 0);
  emit e (mkEvent EventTaskStart "" (Name (b_base block)) index (be_total e) "" None "" 0 "");;
  mret index.

(** The specification of the task a block runs as. *)
Definition taskSpec (e : executor) (block : Block) (hosts when_ : list string)
  (ignoreErrors : option bool) : TaskSpec :=
  let spec := BlockToTaskSpec block hosts
                (fun n => match FindModule n with Some _ => true | None => false end) in
  mkTaskSpec (ts_name spec) (ts_module spec) (ts_hosts spec) when_ (ts_failedWhen spec)
    (ts_loop spec) (ts_loopKind spec) (ts_loopControl spec) (ts_changedWhen spec)
    (ts_environment spec) (ts_register spec) (ts_registerType spec) (ts_retries spec)
    (ts_delay spec) (ts_until spec) (ts_become spec || be_playBecome e) (ts_becomeUser spec)
    (ts_delegateTo spec) (ts_async spec) (ts_poll spec) (ts_notify spec) ignoreErrors.

Definition endEvent (e : executor) (block : Block) (index : Z) (status : TaskStatus)
  (errMsg : string) (output : option vars) (duration : Z) : Event :=
  let evOutput := if NoLog (b_base block) then None else output in
  let evErr := if NoLog (b_base block) then (if errMsg =s "" then "" else noLogRedacted)
               else errMsg in
  mkEvent EventTaskEnd "" (Name (b_base block)) index (be_total e) (statusString status)
    evOutput evErr duration "".

(** The task executor of the play, which shares its log. *)
Definition taskExecutor (e : executor) : TaskExecutor := mkTE (be_log e) (be_resolve e).

Definition dealTask (e : executor) (block : Block) (hosts when_ : list string)
  (ignoreErrors : option bool) : act (option string) :=
  let spec := taskSpec e block hosts when_ ignoreErrors in
  dealTaskLogName e block;;
  index ← dealTaskEmitStart e block;
  taskStart ← gets (fun s => nowMs (st_world s));
  results ← Exec (taskExecutor e) spec;
  let '(status, errMsg, output) := aggregateResults results in
  (if bool_decide (status = TaskStatusSkipped) then writeLog e ("  => SKIPPED") else mret tt);;
  now ← gets (fun s => nowMs (st_world s));
  emit e (endEvent e block index status errMsg output (now - taskStart));;
  mret (dealTaskCheckFailure block results ignoreErrors).

(** ** Block lists *)

(** The sub-executor of [execSubBlocks], which leaves [includeStack] empty. *)
Definition subExecutor (e : executor) (hosts when_ tags : list string) (ignoreErrors : option bool)
  : executor :=
  mkBE (be_resolve e) (be_log e) (be_callback e) hosts ignoreErrors when_ tags (be_playTags e)
    (be_playSkipTags e) (be_role e) (be_indexed e) (be_total e) (be_playBecome e)
    (be_skipRunOnce e) [].

(** The sub-executor of [dealIncludeTasks]. *)
Definition includeExecutor (e : executor) (file : string) (hosts when_ tags : list string)
  (ignoreErrors : option bool) : executor :=
  mkBE (be_resolve e) (be_log e) (be_callback e) hosts ignoreErrors when_ tags (be_playTags e)
    (be_playSkipTags e) (be_role e) (be_indexed e) (be_total e) (be_playBecome e)
    (be_skipRunOnce e) (be_includeStack e ++ [file]).

(** What running a list answers: the error and the state, or out of fuel. *)
Abbreviation outcome := (option (option string * state)).

Definition runner : Type := executor -> list Block -> state -> outcome.

Definition dealBlockRescueAlways (rec : runner) (e : executor) (block : Block)
  (hosts when_ tags : list string) (ignoreErrors : option bool) (s : state) : outcome :=
  let sub := subExecutor e hosts when_ tags ignoreErrors in
  '(blockErr, s) ← rec sub (b_block block) s;
  '(errs, s) ← (match blockErr with
                | Some _ =>
                  match b_rescue block with
                  | _ :: _ =>
                    '(rescueErr, s) ← rec sub (b_rescue block) s;
                    Some (match rescueErr with
                          | Some _ => joinErr blockErr rescueErr
                          | None => None
                          end, s)
                  | [] => Some (blockErr, s)
                  end
                | None => Some (None, s)
                end);
  match b_always block with
  | _ :: _ =>
    '(alwaysErr, s) ← rec sub (b_always block) s;
    Some (joinErr errs alwaysErr, s)
  | [] => Some (errs, s)
  end.

(** The names [include_tasks] gives, anywhere in a list. *)
Fixpoint includesBlock (b : Block) : list string :=
  match b_block b with
  | [] => if b_includeTasks b =s "" then [] else [b_includeTasks b]
  | _ :: _ => foldr (fun x l => includesBlock x ++ l) [] (b_block b)
              ++ foldr (fun x l => includesBlock x ++ l) [] (b_rescue b)
              ++ foldr (fun x l => includesBlock x ++ l) [] (b_always b)
  end.

Definition includesBlocks (bs : list Block) : list string := foldr (fun x l => includesBlock x ++ l) [] bs.

(** Reading, parsing and validating an included file. *)
Definition loadInclude (file : string) : result string (list Block) :=
  match ReadFile file with
  | Err e => Err ("include_tasks: read " +++ file +++ ": " +++ e)
  | Ok data =>
    match unmarshalBlocks data with
    | Err e => Err ("include_tasks: parse " +++ file +++ ": " +++ e)
    | Ok blocks =>
      match ValidateBlocks blocks with
      | Some e => Err ("include_tasks: " +++ file +++ ": " +++ e)
      | None => Ok blocks
      end
    end
  end.

Definition dealIncludeTasks (rec : runner) (e : executor) (file : string)
  (hosts when_ tags : list string) (ignoreErrors : option bool) (s : state) : outcome :=
  if contains (be_includeStack e) file then
    Some (Some ("include_tasks: recursive include detected: "
                  +++ Join (be_includeStack e ++ [file]) " -> "), s)
  else
    match loadInclude file with
    | Err err => Some (Some err, s)
    | Ok blocks => rec (includeExecutor e file hosts when_ tags ignoreErrors) blocks s
    end.

Definition execBlock (rec : runner) (e : executor) (block : Block) (s : state) : outcome :=
  let b := b_base block in
  if RunOnce b && be_skipRunOnce e then
    Some (None, (advance e (countBlocks [block]) s).2)
  else
    let hosts := if RunOnce b then take 1 (be_hosts e) else be_hosts e in
    let when_ := mergeWhen (be_when e) (b_when block) in
    let tags := JoinTag (be_tags e) (b_tags block) in
    let ignoreErrors := match IgnoreErrors b with Some x => Some x | None => be_ignoreErrors e end in
    let s := (match Vars b with
              | [] => mret tt
              | nodes => mergeVar (MergeRuntimeVariable nodes hosts)
              end s).2 in
    match b_block block with
    | _ :: _ => dealBlockRescueAlways rec e block hosts when_ tags ignoreErrors s
    | [] =>
      if negb (b_includeTasks block =s "") then
        if negb (IsEnabled tags (be_playTags e) (be_playSkipTags e)) then Some (None, s)
        else dealIncludeTasks rec e (b_includeTasks block) hosts when_ tags ignoreErrors s
      else if negb (IsEnabled tags (be_playTags e) (be_playSkipTags e)) then Some (None, s)
      else Some (dealTask e block hosts when_ ignoreErrors s)
    end.

(** The loop of [BlockExecutor.Exec]. *)
Fixpoint execLoop (run : Block -> state -> outcome) (blocks : list Block) (s : state) : outcome :=
  match blocks with
  | [] => Some (None, s)
  | block :: rest =>
    '(err, s) ← run block s;
    match err with
    | Some e => Some (Some e, s)
    | None => execLoop run rest s
    end
  end.

Fixpoint ExecBlocks (fuel : nat) (e : executor) (blocks : list Block) (s : state) : outcome :=
  match fuel with
  | O => None
  | S fuel' => execLoop (execBlock (ExecBlocks fuel') e) blocks s
  end.

(** ** Block, rescue, always *)

Lemma execLoop_single run b (s : state) : execLoop run [b] s = run b s.
Proof. cbn. destruct (run b s) as [[[err|] s']|]; done. Qed.

(** The state a block starts from: its variables merged. *)
Definition enterBlock (e : executor) (block : Block) (s : state) : state :=
  let hosts := if RunOnce (b_base block) then take 1 (be_hosts e) else be_hosts e in
  (match Vars (b_base block) with
   | [] => mret tt
   | nodes => mergeVar (MergeRuntimeVariable nodes hosts)
   end s).2.

(** The executor the sections of a block run with. *)
Definition blockExecutor (e : executor) (block : Block) : executor :=
  subExecutor e (if RunOnce (b_base block) then take 1 (be_hosts e) else be_hosts e)
    (mergeWhen (be_when e) (b_when block)) (JoinTag (be_tags e) (b_tags block))
    (match IgnoreErrors (b_base block) with Some x => Some x | None => be_ignoreErrors e end).

Lemma execBlock_container rec e block (s : state) :
  b_block block <> [] -> RunOnce (b_base block) && be_skipRunOnce e = false ->
  execBlock rec e block s =
  dealBlockRescueAlways rec e block
    (if RunOnce (b_base block) then take 1 (be_hosts e) else be_hosts e)
    (mergeWhen (be_when e) (b_when block)) (JoinTag (be_tags e) (b_tags block))
    (match IgnoreErrors (b_base block) with Some x => Some x | None => be_ignoreErrors e end)
    (enterBlock e block s).
Proof.
  intros Hb Hr. unfold execBlock, enterBlock. rewrite Hr.
  by destruct (b_block block).
Qed.

(** ** Termination of includes *)

Fixpoint depthBlock (b : Block) : nat :=
  S (max (foldr (fun x n => max (depthBlock x) n) 0%nat (b_block b))
       (max (foldr (fun x n => max (depthBlock x) n) 0%nat (b_rescue b))
          (foldr (fun x n => max (depthBlock x) n) 0%nat (b_always b)))).

Definition depthBlocks (bs : list Block) : nat := foldr (fun x n => max (depthBlock x) n) 0%nat bs.

Lemma depthBlocks_elem b bs : b ∈ bs -> (depthBlock b <= depthBlocks bs)%nat.
Proof. unfold depthBlocks. induction 1; cbn [foldr]; lia. Qed.

(** No [include_tasks] runs inside a block / rescue / always section. *)
Fixpoint includeFree (b : Block) : bool :=
  match b_block b with
  | [] => b_includeTasks b =s ""
  | _ :: _ => forallb includeFree (b_block b) && forallb includeFree (b_rescue b)
              && forallb includeFree (b_always b)
  end.

(** Includes only at the top level of the list. *)
Definition flatBlock (b : Block) : bool :=
  match b_block b with
  | [] => true
  | _ :: _ => includeFree b
  end.

(** A run that is given enough fuel ends. *)
Definition ends (o : outcome) : Prop := o <> None.

Lemma execLoop_ends (run : Block -> state -> outcome) bs :
  (forall b s, b ∈ bs -> ends (run b s)) -> forall s, ends (execLoop run bs s).
Proof.
  induction bs as [|b bs IH]; intros H s; cbn [execLoop]; [done|].
  pose proof (H b s ltac:(by left)) as Hb. destruct (run b s) as [[[err|] s']|]; [done| |done].
  apply IH. intros b' s'' Hb'. apply H. by right.
Qed.

Lemma dealBlock_ends (rec : runner) e block hosts w t ie :
  (forall sub bs s, bs = b_block block \/ bs = b_rescue block \/ bs = b_always block ->
     be_includeStack sub = [] -> ends (rec sub bs s)) ->
  forall s, ends (dealBlockRescueAlways rec e block hosts w t ie s).
Proof.
  intros H s. unfold dealBlockRescueAlways. set (sub := subExecutor e hosts w t ie).
  pose proof (fun bs s Hb => H sub bs s Hb eq_refl) as Hs.
  pose proof (Hs (b_block block) s ltac:(tauto)) as H1.
  destruct (rec sub (b_block block) s) as [[berr s1]|]; [|done]. cbn.
  destruct berr as [berr|]; [destruct (b_rescue block) as [|r rs] eqn:Er|].
  - cbn. destruct (b_always block) as [|a al] eqn:Ea; [done|].
    pose proof (Hs (a :: al) s1 ltac:(tauto)) as H2. by destruct (rec sub (a :: al) s1) as [[]|].
  - pose proof (Hs (r :: rs) s1 ltac:(tauto)) as H2.
    destruct (rec sub (r :: rs) s1) as [[rerr s2]|]; [|done]. cbn.
    destruct (b_always block) as [|a al] eqn:Ea; [done|].
    pose proof (Hs (a :: al) s2 ltac:(tauto)) as H3. by destruct (rec sub (a :: al) s2) as [[]|].
  - cbn. destruct (b_always block) as [|a al] eqn:Ea; [done|].
    pose proof (Hs (a :: al) s1 ltac:(tauto)) as H2. by destruct (rec sub (a :: al) s1) as [[]|].
Qed.

Lemma depth_sections block bs :
  bs = b_block block \/ bs = b_rescue block \/ bs = b_always block ->
  (depthBlocks bs < depthBlock block)%nat.
Proof. destruct block; cbn. unfold depthBlocks. intros [->|[->| ->]]; lia. Qed.

Lemma execBlock_ends (rec : runner) e block s :
  (b_block block <> [] -> forall sub bs s, bs = b_block block \/ bs = b_rescue block \/ bs = b_always block ->
     be_includeStack sub = [] -> ends (rec sub bs s)) ->
  (b_block block = [] -> b_includeTasks block <> "" -> forall hosts w t ie s blocks,
     contains (be_includeStack e) (b_includeTasks block) = false ->
     loadInclude (b_includeTasks block) = Ok blocks ->
     ends (rec (includeExecutor e (b_includeTasks block) hosts w t ie) blocks s)) ->
  ends (execBlock rec e block s).
Proof.
  intros H1 H2. unfold execBlock. destruct (_ && _); [done|].
  destruct (b_block block) as [|b bl] eqn:Eb.
  - destruct (String.eqb_spec (b_includeTasks block) "") as [|Hne]; cbn [negb].
    + by destruct (negb _).
    + destruct (negb (IsEnabled _ _ _)); [done|]. unfold dealIncludeTasks.
      destruct (contains _ _) eqn:Ec; [done|].
      destruct (loadInclude _) eqn:El; [|done]. by apply H2.
  - apply dealBlock_ends. rewrite Eb. by apply H1.
Qed.

Lemma includeFree_ends fuel e bs s :
  forallb includeFree bs = true -> (depthBlocks bs < fuel)%nat ->
  ends (ExecBlocks fuel e bs s).
Proof.
  revert e bs s. induction fuel as [|fuel IH]; intros e bs s Hf Hd; [lia|].
  cbn [ExecBlocks]. apply execLoop_ends. intros b s' Hb.
  rewrite forallb_forall in Hf. apply list_elem_of_In in Hb as Hin. specialize (Hf b Hin).
  apply depthBlocks_elem in Hb. apply execBlock_ends.
  - intros Hne sub l s'' Hl _. pose proof (depth_sections _ _ Hl). apply IH; [|lia].
    destruct b as [? ? ? ? ? ? ? ? bl ? ?]. cbn in Hne, Hf, Hl. destruct bl; [done|].
    apply andb_prop in Hf as [[??]%andb_prop ?]. naive_solver.
  - intros Hne Hi. destruct b as [? ? ? ? ? ? ? ? bl ? ?]. cbn in Hne, Hi, Hf. subst bl.
    by apply String.eqb_eq in Hf.
Qed.

(** ** Files

    [project/local.go] and [builtin.go]: a project's files, by the path the
    base directory and the name clean to. *)

Definition LocalSource_ReadFile (disk : gmap string string) (basePath path : string) : result string string :=
  match disk !! pathJoin basePath path with Some data => Ok data | None => Err "no such file" end.

Definition fullPath (prefix p : string) : string := if prefix =s "" then p else pathJoin prefix p.

Definition BuiltinSource_ReadFile (fsys : gmap string string) (prefix p : string) : result string string :=
  match fsys !! fullPath prefix p with Some data => Ok data | None => Err "file does not exist" end.

(** A source whose names all lead into one finite tree of files. *)
Definition finiteSource (disk : gmap string string) (norm : string -> string) : Prop :=
  forall f data, ReadFile f = Ok data -> disk !! norm f = Some data.

(** The task lists in those files. *)
Definition taskLists (disk : gmap string string) : list (list Block) :=
  omap (fun p => match unmarshalBlocks p.2 with Ok bs => Some bs | Err _ => None end) (map_to_list disk).

Lemma taskLists_read disk norm f data bs : finiteSource disk norm -> ReadFile f = Ok data ->
  unmarshalBlocks data = Ok bs -> bs ∈ taskLists disk.
Proof.
  intros Hd Hr Hu. unfold taskLists. apply list_elem_of_omap. exists (norm f, data).
  split; [by apply elem_of_map_to_list, Hd|]. cbn. by rewrite Hu.
Qed.

Lemma loadInclude_list disk norm f bs : finiteSource disk norm -> loadInclude f = Ok bs -> bs ∈ taskLists disk.
Proof.
  intros Hd. unfold loadInclude. destruct (ReadFile f) as [data|] eqn:Er; [|done].
  destruct (unmarshalBlocks data) as [l|] eqn:Eu; [|done]. destruct (ValidateBlocks l); [done|]. intros [= ->].
  by eapply taskLists_read.
Qed.

Lemma includes_elem b bs : b ∈ bs -> includesBlock b ⊆ includesBlocks bs.
Proof. unfold includesBlocks. induction 1; cbn [foldr]; set_solver. Qed.

Lemma includes_sections b bs : b_block b <> [] -> bs = b_block b \/ bs = b_rescue b \/ bs = b_always b ->
  includesBlocks bs ⊆ includesBlock b.
Proof. destruct b as [ba w t n d df tk i bl re al]. cbn. destruct bl as [|x bl]; [done|]. intros _ [->|[->| ->]]; set_solver. Qed.

Lemma includes_single b : b_block b = [] -> b_includeTasks b <> "" -> b_includeTasks b ∈ includesBlock b.
Proof.
  destruct b as [ba w t n d df tk i bl re al]. cbn. intros -> Hi. destruct (String.eqb_spec i ""); [done | by left].
Qed.

Section include.
(** The task lists that can be included, the names they give and the
    deepest of them; an included list keeps its own includes at its top. *)
Context (lists : list (list Block)) (names : list string) (D : nat).
Hypothesis Hload : forall f bs, loadInclude f = Ok bs -> bs ∈ lists /\ forallb flatBlock bs = true.
Hypothesis Hnames : forall bs, bs ∈ lists -> includesBlocks bs ⊆ names.
Hypothesis Hdeep : forall bs, bs ∈ lists -> (depthBlocks bs <= D)%nat.

(** An include stack holds distinct names. *)
Definition stackOk (st : list string) : Prop := NoDup st /\ st ⊆ names.

Definition slack (st : list string) : nat := length names - length st.

Lemma stackOk_push st f : stackOk st -> f ∈ names -> contains st f = false ->
  stackOk (st ++ [f]) /\ (slack (st ++ [f]) < slack st)%nat.
Proof.
  clear Hload Hnames Hdeep. intros [Hn Hs] Hf Hc. assert (f ∉ st) as Hnf.
  { intros Hin. apply contains_spec in Hin. congruence. }
  assert (stackOk (st ++ [f])) as [Hn' Hs'].
  { split; [|set_solver]. apply NoDup_app. split; [done|]. split; [set_solver|apply NoDup_singleton]. }
  split; [done|]. pose proof (submseteq_length _ _ (NoDup_submseteq _ _ Hn' Hs')) as Hl.
  unfold slack. rewrite length_app in *. cbn in *. lia.
Qed.

Lemma flat_ends fuel e bs s : stackOk (be_includeStack e) -> includesBlocks bs ⊆ names ->
  forallb flatBlock bs = true -> (depthBlocks bs <= D)%nat ->
  (slack (be_includeStack e) + D < fuel)%nat ->
  ends (ExecBlocks fuel e bs s).
Proof using Hload Hnames Hdeep.
  revert e bs s. induction fuel as [|fuel IH]; intros e bs s Hst Hi Hf Hd Hfu; [lia|].
  cbn [ExecBlocks]. apply execLoop_ends. intros b s' Hb. assert (Hib := includes_elem b bs Hb).
  rewrite forallb_forall in Hf. apply list_elem_of_In in Hb as Hin. specialize (Hf b Hin).
  apply depthBlocks_elem in Hb. apply execBlock_ends.
  - intros Hne sub l s'' Hl _. pose proof (depth_sections _ _ Hl). apply includeFree_ends; [|lia].
    unfold flatBlock in Hf. destruct b as [? ? ? ? ? ? ? ? bl ? ?]. cbn in Hne, Hf, Hl.
    destruct bl; [done|]. apply andb_prop in Hf as [[??]%andb_prop ?]. naive_solver.
  - intros Hne Hni hosts w t ie s'' blocks Hc Hld. destruct (Hload _ _ Hld) as [Hin' Hfl].
    destruct (stackOk_push _ (b_includeTasks b) Hst) as [Hst' Hsl]; [|done|].
    { apply Hi, Hib. by apply includes_single. }
    apply IH; [done | by apply Hnames | done | by apply Hdeep|]. cbn. lia.
Qed.

Lemma any_ends fuel e bs s : stackOk (be_includeStack e) -> includesBlocks bs ⊆ names ->
  (depthBlocks bs + length names + D < fuel)%nat ->
  ends (ExecBlocks fuel e bs s).
Proof using Hload Hnames Hdeep.
  revert e bs s. induction fuel as [|fuel IH]; intros e bs s Hst Hi Hfu; [lia|].
  cbn [ExecBlocks]. apply execLoop_ends. intros b s' Hb. assert (Hib := includes_elem b bs Hb).
  apply depthBlocks_elem in Hb. apply execBlock_ends.
  - intros Hne sub l s'' Hl Hsub. pose proof (depth_sections _ _ Hl). apply IH; [| |lia].
    + rewrite Hsub. split; [constructor | by intros x ?%elem_of_nil].
    + intros x Hx. apply Hi, Hib. by eapply includes_sections.
  - intros Hne Hni hosts w t ie s'' blocks Hc Hld. destruct (Hload _ _ Hld) as [Hin' Hfl].
    destruct (stackOk_push _ (b_includeTasks b) Hst) as [Hst' Hsl]; [|done|].
    { apply Hi, Hib. by apply includes_single. }
    assert (1 <= depthBlock b)%nat by (destruct b; cbn; lia).
    apply flat_ends; [done | by apply Hnames | done | by apply Hdeep|]. cbn. unfold slack in *. lia.
Qed.

End include.

(** ** What a task shows *)

(** Making a connection emits and logs nothing. *)
Definition silentResolver (r : Resolver (W := W) (Conn := Conn)) : Prop :=
  forall f h, r = Some f -> silent (f h) /\ respects sameLog (f h).

(** The state [Exec] starts from, and the results it answers. *)
Definition beforeTask (e : executor) (block : Block) (s : state) : state :=
  (dealTaskEmitStart e block (dealTaskLogName e block s).2).2.

Definition taskResults (e : executor) (block : Block) (hosts w : list string) (ie : option bool)
  (s : state) : list TaskResult :=
  (Exec (taskExecutor e) (taskSpec e block hosts w ie) (beforeTask e block s)).1.

(** The lines the task's modules wrote to the log themselves. *)
Definition moduleLines (e : executor) (block : Block) (hosts w : list string) (ie : option bool)
  (s : state) : list string :=
  let s0 := beforeTask e block s in
  drop (length (st_log s0)) (st_log (Exec (taskExecutor e) (taskSpec e block hosts w ie) s0).2).

Definition taskIndexOf (e : executor) (s : state) : Z := if be_indexed e then st_index s + 1 else 0.

Definition startEvent (e : executor) (block : Block) (index : Z) : Event :=
  mkEvent EventTaskStart "" (Name (b_base block)) index (be_total e) "" None "" 0 "".

Definition roleLine (e : executor) (block : Block) : string :=
  (if be_role e =s "" then "" else "[" +++ be_role e +++ "] ") +++ Name (b_base block).

Definition skipLines (e : executor) (status : TaskStatus) : list string :=
  if be_log e then (if bool_decide (status = TaskStatusSkipped) then ["  => SKIPPED"] else []) else [].

(** Modules that write nothing, or a log that is nil. *)
Lemma moduleLines_quiet e block hosts w ie (s : state) : silentResolver (be_resolve e) ->
  be_log e = false \/ (forall mf, FindModule (mr_name (ts_module (taskSpec e block hosts w ie))) = Some mf -> quiet mf) ->
  moduleLines e block hosts w ie s = [].
Proof.
  intros Hr Hq. unfold moduleLines.
  rewrite (quiet_Exec (taskExecutor e) _ (fun f h Hf => proj2 (Hr f h Hf)) Hq (beforeTask e block s)).
  apply drop_all.
Qed.

Lemma dealTask_trace e block hosts w ie (s : state) :
  silentResolver (be_resolve e) ->
  let rs := taskResults e block hosts w ie s in
  let '(status, errMsg, output) := aggregateResults rs in
  exists dur s', dealTask e block hosts w ie s = (dealTaskCheckFailure block rs ie, s') /\
    st_events s' = st_events s ++ (if be_callback e then
      [startEvent e block (taskIndexOf e s); endEvent e block (taskIndexOf e s) status errMsg output dur]
      else []) /\
    st_log s' = st_log s ++ (if be_log e then [roleLine e block] else []) ++ moduleLines e block hosts w ie s
                  ++ skipLines e status /\
    st_value s' = st_value (Exec (taskExecutor e) (taskSpec e block hosts w ie) (beforeTask e block s)).2 /\
    st_index s' = if be_indexed e then st_index s + 1 else st_index s.
Proof.
  intros Hres rs. destruct (aggregateResults rs) as [[status errMsg] output] eqn:Ea.
  pose proof (silent_Exec (taskExecutor e) (taskSpec e block hosts w ie) (fun f h Hf => proj1 (Hres f h Hf))
    (beforeTask e block s)) as (He & [lines Hl] & Hi).
  assert (moduleLines e block hosts w ie s = lines) as -> by (unfold moduleLines; rewrite Hl; apply drop_app_length).
  assert (beforeTask e block s = mkSt (st_value s) (st_world s) (st_conns s)
    (st_events s ++ if be_callback e then [startEvent e block (taskIndexOf e s)] else [])
    (st_log s ++ if be_log e then [roleLine e block] else [])
    (if be_indexed e then st_index s + 1 else st_index s)) as Hb.
  { unfold beforeTask, dealTaskEmitStart, dealTaskLogName, taskIndexOf, startEvent, roleLine,
      emit, advance, writeLog, gets, mbind, M_bind, mret, M_ret.
    destruct s, (be_log e), (be_callback e), (be_indexed e); cbn; by rewrite ?app_nil_r. }
  unfold dealTask. rewrite !bind_run. cbn zeta.
  change (dealTaskEmitStart e block (dealTaskLogName e block s).2).2 with (beforeTask e block s).
  unfold gets at 1 2. cbn [fst snd].
  replace (dealTaskEmitStart e block (dealTaskLogName e block s).2).1 with (taskIndexOf e s).
  2:{ unfold dealTaskEmitStart, dealTaskLogName, taskIndexOf, emit, advance, writeLog, gets,
        mbind, M_bind, mret, M_ret. destruct s, (be_log e), (be_indexed e); done. }
  fold (taskResults e block hosts w ie s). fold rs. rewrite Ea.
  set (s1 := (Exec _ _ _).2) in *. rewrite Hb in He, Hl, Hi. cbn in He, Hl, Hi.
  rewrite bind_run, !bind_run. unfold gets, mret, M_ret. cbn [fst snd].
  eexists _, _. split; [reflexivity|].
  unfold writeLog, emit, skipLines. case_bool_decide; cbn;
    destruct (be_callback e), (be_log e); cbn; rewrite ?He, ?Hl, ?Hi;
    rewrite <- ?app_assoc; rewrite ?app_nil_r; repeat split; done.
Qed.

(** What of a result [no_log] lets through. *)
Definition shape (r : TaskResult) : string * TaskStatus := (tr_host r, tr_status r).

Lemma aggregateLoop_shape st o1 o2 rs1 rs2 :
  shape <$> rs1 = shape <$> rs2 ->
  Forall (fun r => resultOk (tr_host r) r) rs1 -> Forall (fun r => resultOk (tr_host r) r) rs2 ->
  let '(st1, e1, _) := aggregateLoop st o1 rs1 in
  let '(st2, e2, _) := aggregateLoop st o2 rs2 in
  st1 = st2 /\ (e1 = "" <-> e2 = "").
Proof.
  revert st o1 o2 rs2. induction rs1 as [|r1 rs1 IH]; intros st o1 o2 [|r2 rs2] H H1 H2; try done.
  injection H as Hh Hs Hr. apply Forall_cons in H1 as [K1 H1]. apply Forall_cons in H2 as [K2 H2].
  cbn [aggregateLoop]. rewrite <- Hs. destruct K1 as (_ & _ & F1). destruct K2 as (_ & _ & F2).
  rewrite <- Hs in F2.
  destruct (tr_status r1) eqn:Es; try (by apply IH).
  cbn. split; [done|]. split; intros He; [by destruct (proj1 F1 eq_refl) | by destruct (proj1 F2 eq_refl)].
Qed.

Lemma dealTaskCheckFailure_shape block rs1 rs2 ie : NoLog (b_base block) = true ->
  shape <$> rs1 = shape <$> rs2 ->
  dealTaskCheckFailure block rs1 ie = dealTaskCheckFailure block rs2 ie.
Proof.
  intros Hn. revert rs2. induction rs1 as [|r1 rs1 IH]; intros [|r2 rs2] H; try done.
  injection H as Hh Hs Hr. cbn [dealTaskCheckFailure]. rewrite Hn, Hh, Hs, (IH _ Hr). done.
Qed.

Lemma taskResults_ok e block hosts w ie (s : state) :
  Forall (fun r => resultOk (tr_host r) r) (taskResults e block hosts w ie s).
Proof.
  pose proof (Exec_results (taskExecutor e) (taskSpec e block hosts w ie) (beforeTask e block s)) as H.
  unfold taskResults. induction H as [|h r hs rs Hr _ IH]; constructor; [|done].
  by destruct Hr as (<- & ?).
Qed.

(** ** Progress *)

(** From [s] to [s']: at most [n] tasks counted, and every event emitted
    carries an index between the two counters. *)
Definition progress (n : Z) (s s' : state) : Prop :=
  st_index s <= st_index s' <= st_index s + n /\
  exists evs, st_events s' = st_events s ++ evs /\
    Forall (fun ev => st_index s < ev_index ev <= st_index s') evs.

Lemma progress_refl n (s s' : state) : 0 <= n ->
  st_index s' = st_index s -> st_events s' = st_events s -> progress n s s'.
Proof. intros Hn Hi He. split; [lia|]. exists []. rewrite app_nil_r. by split. Qed.

Lemma progress_trans n m (s1 s2 s3 : state) :
  progress n s1 s2 -> progress m s2 s3 -> progress (n + m) s1 s3.
Proof.
  intros (B1 & evs1 & E1 & F1) (B2 & evs2 & E2 & F2). split; [lia|].
  exists (evs1 ++ evs2). rewrite E2, E1, app_assoc. split; [done|].
  apply Forall_app. split; (eapply Forall_impl; [eassumption|]); cbn; lia.
Qed.

Lemma progress_weaken n m (s s' : state) : progress n s s' -> n <= m -> progress m s s'.
Proof. intros (B & H) Hm. split; [lia | done]. Qed.

Lemma countBlock_nonneg b : 0 <= countBlock b.
Proof.
  assert (forall fuel b, (depthBlock b <= fuel)%nat -> 0 <= countBlock b) as H; [|by eapply H].
  induction fuel as [|fuel IH]; intros [ba w t n d df tk i bl re al] Hd; cbn in Hd; [lia|].
  assert (forall l, (foldr (fun x n => max (depthBlock x) n) 0 l <= fuel)%nat ->
    0 <= foldr (fun x n => countBlock x + n) 0 l) as Hl.
  { induction l as [|x l IHl]; cbn [foldr]; [lia|]. intros Hx.
    assert (0 <= countBlock x) by (apply IH; lia). assert (0 <= foldr (fun x n => countBlock x + n) 0 l)
      by (apply IHl; lia). lia. }
  cbn. pose proof (Hl bl ltac:(lia)). pose proof (Hl re ltac:(lia)). pose proof (Hl al ltac:(lia)).
  destruct (0 <? _); lia.
Qed.

Lemma countBlocks_nonneg bs : 0 <= countBlocks bs.
Proof.
  induction bs as [|b bs IH]; cbn; [lia|]. pose proof (countBlock_nonneg b).
  unfold countBlocks in IH. lia.
Qed.

Lemma countBlock_container b : b_block b <> [] ->
  countBlock b = countBlocks (b_block b) + countBlocks (b_rescue b) + countBlocks (b_always b).
Proof. destruct b as [ba w t n d df tk i bl re al]. cbn. by destruct bl. Qed.

Lemma countBlock_single b : b_block b = [] -> countBlock b = 1.
Proof. destruct b as [ba w t n d df tk i bl re al]. cbn. by intros ->. Qed.

Lemma enterBlock_same e block (s : state) :
  st_index (enterBlock e block s) = st_index s /\ st_events (enterBlock e block s) = st_events s.
Proof. unfold enterBlock. by destruct (Vars _). Qed.

Lemma dealTask_progress e block hosts w ie (s : state) :
  silentResolver (be_resolve e) -> be_indexed e = true ->
  progress 1 s (dealTask e block hosts w ie s).2.
Proof.
  intros Hres Hi. pose proof (dealTask_trace e block hosts w ie s Hres) as H. cbn zeta in H.
  destruct (aggregateResults _) as [[st em] out]. destruct H as (dur & s' & -> & He & _ & _ & Hx).
  rewrite Hi in Hx. cbn [snd]. split; [lia|]. eexists. split; [exact He|].
  destruct (be_callback e); [|constructor]. unfold taskIndexOf. rewrite Hi.
  repeat constructor; cbn; lia.
Qed.

(** What the executors of one run share. *)
Definition counted (e : executor) : Prop :=
  silentResolver (be_resolve e) /\ be_indexed e = true.

Lemma dealBlock_progress (rec : runner) e block hosts w t ie (s : state) err s' :
  counted e ->
  (forall sub bs s1 er s2, bs = b_block block \/ bs = b_rescue block \/ bs = b_always block ->
     counted sub -> rec sub bs s1 = Some (er, s2) -> progress (countBlocks bs) s1 s2) ->
  dealBlockRescueAlways rec e block hosts w t ie s = Some (err, s') ->
  progress (countBlocks (b_block block) + countBlocks (b_rescue block) + countBlocks (b_always block)) s s'.
Proof.
  intros Hc Hrec. unfold dealBlockRescueAlways.
  set (sub := subExecutor e hosts w t ie). assert (counted sub) as Hs by exact Hc.
  destruct (rec sub (b_block block) s) as [[berr s1]|] eqn:E1; [|done]. cbn.
  apply Hrec in E1; [|tauto|done]. pose proof (countBlocks_nonneg (b_always block)) as Hna.
  pose proof (countBlocks_nonneg (b_rescue block)) as Hnr.
  set (mid := match berr with Some _ => _ | None => _ end).
  intros Hm.
  assert (forall errs s2, mid = Some (errs, s2) -> progress (countBlocks (b_rescue block)) s1 s2) as Hmid.
  { intros errs s2. unfold mid. destruct berr as [be|].
    - destruct (b_rescue block) as [|r rs] eqn:Er; [intros [= <- <-]; by apply progress_refl|].
      destruct (rec sub (r :: rs) s1) as [[rerr s3]|] eqn:E2; cbn; [|done].
      intros HH. injection HH as _ <-. apply (Hrec sub (r :: rs) s1 rerr s3); [tauto|done|exact E2].
    - intros [= <- <-]. by apply progress_refl. }
  destruct mid as [[errs s2]|]; [|done]. specialize (Hmid _ _ eq_refl). cbn in Hm.
  destruct (b_always block) as [|a al] eqn:Ea.
  - simplify_eq. eapply progress_weaken; [eapply progress_trans; [exact E1|exact Hmid]|lia].
  - destruct (rec sub (a :: al) s2) as [[aerr s3]|] eqn:E3; [|done]. cbn in Hm. simplify_eq.
    eapply progress_trans; [by eapply progress_trans|].
    apply (Hrec sub (a :: al) s2 aerr); [tauto|done|exact E3].
Qed.

Lemma includeFree_sections b bs : b_block b <> [] -> includeFree b = true ->
  bs = b_block b \/ bs = b_rescue b \/ bs = b_always b -> forallb includeFree bs = true.
Proof.
  destruct b as [ba w t n d df tk i bl re al]. cbn. destruct bl as [|b0 bl]; [done|].
  intros _ [[??]%andb_prop ?]%andb_prop. cbn. naive_solver.
Qed.

Lemma includeFree_single b : b_block b = [] -> includeFree b = true -> (b_includeTasks b =s "") = true.
Proof. destruct b as [ba w t n d df tk i bl re al]. cbn [b_block includeFree b_includeTasks]. by intros ->. Qed.

Lemma execBlocks_progress fuel e bs (s : state) err s' : counted e ->
  forallb includeFree bs = true ->
  ExecBlocks fuel e bs s = Some (err, s') -> progress (countBlocks bs) s s'.
Proof.
  revert e bs s err s'. induction fuel as [|fuel IH]; intros e bs s err s' Hc Hf; [done|].
  cbn [ExecBlocks]. revert s. induction bs as [|b bs IHb]; intros s; cbn [execLoop].
  { intros [= <- <-]. by apply progress_refl. }
  apply andb_prop in Hf as [Hb Hf]. specialize (IHb Hf).
  assert (forall er s1, execBlock (ExecBlocks fuel) e b s = Some (er, s1) ->
    progress (countBlock b) s s1) as Hone.
  { intros er s1. destruct (RunOnce (b_base b) && be_skipRunOnce e) eqn:Er.
    - unfold execBlock. rewrite Er. intros [= <- <-]. unfold advance. destruct Hc as [_ ->]. cbn.
      pose proof (countBlock_nonneg b). split; [cbn; lia|]. exists []. by rewrite app_nil_r.
    - destruct (decide (b_block b = [])) as [Hn|Hn].
      + unfold execBlock. rewrite Er, Hn. rewrite (countBlock_single _ Hn).
        rewrite (includeFree_single _ Hn Hb).
        cbn [negb]. fold (enterBlock e b s). destruct (enterBlock_same e b s) as [Hi He].
        destruct (negb _); [intros [= <- <-]; by apply progress_refl|]. intros [= Hd].
        eapply (progress_trans 0 1); [by apply (progress_refl 0 s (enterBlock e b s))|].
        pose proof (fun h w ie => dealTask_progress e b h w ie (enterBlock e b s)
                      (proj1 Hc) (proj2 Hc)) as Hp.
        match type of Hd with dealTask _ _ ?h ?w ?ie _ = _ => specialize (Hp h w ie) end.
        rewrite Hd in Hp. exact Hp.
      + rewrite execBlock_container by done. intros Hd. destruct (enterBlock_same e b s) as [Hi He].
        apply dealBlock_progress in Hd; [|done|].
        * rewrite countBlock_container by done.
          eapply (progress_trans 0); [by apply progress_refl | exact Hd].
        * intros sub l s2 er' s3 Hl Hsub Hrun. eapply IH; [done| |exact Hrun].
          by eapply includeFree_sections. }
  destruct (execBlock (ExecBlocks fuel) e b s) as [[[er|] s1]|]; cbn; [| |done].
  - intros [= <- <-]. specialize (Hone _ _ eq_refl). eapply progress_weaken; [exact Hone|].
    pose proof (countBlocks_nonneg bs). unfold countBlocks in *. cbn. lia.
  - intros Hrest. specialize (Hone _ _ eq_refl). by eapply progress_trans; [exact Hone|apply IHb].
Qed.

End block.

(** ** The theorems on blocks *)

Section theorems.
Import AnsibleTask.

(** Block, rescue, always: when a block structure has run, its [block]
    section ran first; the [rescue] section ran exactly when that failed and
    there is one, starting from the state the failure left; the [always]
    section, when there is one, ran last in every case; and the structure
    succeeds if and only if the block section or its rescue succeeded and the
    always section succeeded too. *)
Lemma rescue_always {W Conn : Type} {E : Engine W Conn} fuel (e : BlockExecutor W Conn) block s err s' :
  b_block block <> [] -> RunOnce (b_base block) && be_skipRunOnce e = false ->
  ExecBlocks (S fuel) e [block] s = Some (err, s') ->
  let sub := blockExecutor e block in
  exists berr s1 rerr s2 aerr,
    ExecBlocks fuel sub (b_block block) (enterBlock e block s) = Some (berr, s1) /\
    (if bool_decide (berr <> None /\ b_rescue block <> [])
     then ExecBlocks fuel sub (b_rescue block) s1 = Some (rerr, s2)
     else rerr = berr /\ s2 = s1) /\
    (if bool_decide (b_always block <> [])
     then ExecBlocks fuel sub (b_always block) s2 = Some (aerr, s')
     else aerr = None /\ s' = s2) /\
    (err = None <-> rerr = None /\ aerr = None).
Proof.
  intros Hb Hr H sub. cbn [ExecBlocks] in H.
  rewrite execLoop_single, execBlock_container in H by done.
  unfold dealBlockRescueAlways in H. fold (blockExecutor e block) in H. fold sub in H.
  destruct (ExecBlocks fuel sub (b_block block) _) as [[berr s1]|] eqn:E1; [|done]. cbn in H.
  assert (exists rerr s2 errs, (if bool_decide (berr <> None /\ b_rescue block <> [])
     then ExecBlocks fuel sub (b_rescue block) s1 = Some (rerr, s2)
     else rerr = berr /\ s2 = s1) /\ (errs = None <-> rerr = None) /\
     match b_always block with
     | [] => Some (errs, s2)
     | _ :: _ => '(alwaysErr, s) ← ExecBlocks fuel sub (b_always block) s2; Some (joinErr errs alwaysErr, s)
     end = Some (err, s')) as (rerr & s2 & errs & H2 & He & H3).
  { destruct berr as [be|]; [destruct (b_rescue block) as [|r rs] eqn:Er|].
    - exists (Some be), s1, (Some be). rewrite bool_decide_eq_false_2 by (intros [_ HH]; by apply HH). done.
    - rewrite bool_decide_eq_true_2 by done.
      destruct (ExecBlocks fuel sub (r :: rs) s1) as [[rerr s2]|] eqn:E2; [|done]. cbn in H.
      exists rerr, s2, (match rerr with Some _ => joinErr (Some be) rerr | None => None end).
      split; [done|]. split; [by destruct rerr | done].
    - exists None, s1, None. rewrite bool_decide_eq_false_2 by (intros [HH _]; by apply HH). done. }
  destruct (b_always block) as [|a al] eqn:Ea.
  - exists berr, s1, rerr, s2, None.
    rewrite (bool_decide_eq_false_2 ([] <> [])) by (intros HH; by apply HH).
    injection H3 as -> ->. split; [done|]. split; [done|]. split; [done|]. tauto.
  - destruct (ExecBlocks fuel sub (a :: al) s2) as [[aerr s3]|] eqn:E3; [|done]. cbn in H3.
    exists berr, s1, rerr, s2, aerr. rewrite (bool_decide_eq_true_2 (a :: al <> [])) by done.
    injection H3 as <- ->. split; [done|]. split; [done|]. split; [done|].
    rewrite <- He. destruct errs, aerr; cbn; clear; naive_solver.
Qed.

Definition dTask (modName : string) : Task :=
  mkTask 0 [] 0 [] ANil ANil ANil (mkLoopControl "" "") 0 "" "" 0 [] [(modName, AStr "x")].
Definition dBlock (modName : string) : Block :=
  mkBlock (mkBase modName [] ANil false false None false 0 0 "" false "") [] [] "" "" false
    (dTask modName) "" [] [] [].
Definition dContainer (b r a : list Block) : Block :=
  mkBlock wBase [] [] "" "" false (dTask "") "" b r a.
Definition dInclude (f : string) : Block :=
  mkBlock wBase [] [] "" "" false (dTask "") f [] [] [].
Definition dExec : BlockExecutor Z unit :=
  mkBE None true true ["h1"; "h2"] None [] [] [] [] "" true 3 false false [].

(** An engine over a project in [/p]; a file's text names its task list. *)
Definition projectEngine (disk : gmap string string) (parse : string -> result string (list Block)) : Engine Z unit := {|
  envOf := envOf (Engine := demoEngine);
  tmplExec := tmplExec (Engine := demoEngine);
  sprint := sprint (Engine := demoEngine);
  decodeJSON := decodeJSON (Engine := demoEngine);
  decodeYAML := decodeYAML (Engine := demoEngine);
  FindModule := FindModule (Engine := demoEngine);
  waitDelay := waitDelay (Engine := demoEngine);
  nowMs := nowMs (Engine := demoEngine);
  schedule := schedule (Engine := demoEngine);
  newConnector := newConnector (Engine := demoEngine);
  connInit := connInit (Engine := demoEngine);
  connClose := connClose (Engine := demoEngine);
  ReadFile := LocalSource_ReadFile disk "/p";
  unmarshalBlocks := parse;
  unmarshalVars _ := Err "unused"
|}.

Lemma projectEngine_finite disk parse : finiteSource (E := projectEngine disk parse) disk (pathJoin "/p").
Proof. intros f data. cbn. unfold LocalSource_ReadFile. by destruct (disk !! _); intros [= ->]. Qed.

(** Two files that include each other, under several names. *)
Definition cycleDisk : gmap string string := {["/p/a.yml" := "A"; "/p/b.yml" := "B"]}.
Definition cycleParse (text : string) : result string (list Block) :=
  if text =s "A" then Ok [dInclude "./b.yml"; dInclude "../p/b.yml"]
  else if text =s "B" then Ok [dBlock "shell"; dInclude "x/../a.yml"] else Err "parse".

(** An include cycle through a block section is not detected: the sections of
    a block run with an empty include stack. A file that includes itself from
    inside a block never ends. *)
Lemma include_cycle_in_block_diverges {W Conn : Type} {E : Engine W Conn} f
  (e : BlockExecutor W Conn) s fuel :
  f <> "" -> loadInclude f = Ok [dContainer [dInclude f] [] []] ->
  be_playTags e = [] -> be_playSkipTags e = [] ->
  contains (be_includeStack e) f = false ->
  ExecBlocks fuel e [dInclude f] s = None.
Proof.
  intros Hf Hl. revert e s. induction fuel as [fuel IH] using lt_wf_ind. intros e s Ht Hs Hc.
  destruct fuel as [|[|fuel]]; [done| |].
  - cbn [ExecBlocks]. rewrite execLoop_single. unfold execBlock. cbn.
    destruct (String.eqb_spec f "") as [|_]; [done|]. cbn.
    rewrite Ht, Hs. cbn. unfold dealIncludeTasks. rewrite Hc, Hl. done.
  - cbn [ExecBlocks]. rewrite execLoop_single. unfold execBlock at 1. cbn.
    destruct (String.eqb_spec f "") as [|_]; [done|]. cbn.
    rewrite Ht, Hs. cbn. unfold dealIncludeTasks. rewrite Hc, Hl. cbn [ExecBlocks].
    rewrite execLoop_single. unfold execBlock at 1. cbn.
    unfold dealBlockRescueAlways. cbn.
    rewrite IH; [done|lia|done..].
Qed.

Definition failed (r : TaskResult) : Prop := tr_status r = TaskStatusFailed.

Lemma aggregate_failed st o rs : st <> TaskStatusFailed ->
  (aggregateLoop st o rs).1.1 = TaskStatusFailed <-> Exists failed rs.
Proof.
  revert st o. induction rs as [|r rs IH]; intros st o Hst; cbn [aggregateLoop].
  - rewrite Exists_nil. by cbn.
  - rewrite Exists_cons. unfold failed at 1. destruct (tr_status r) eqn:Er; try (by cbn; tauto);
      (rewrite IH; [intuition congruence|]); repeat case_match; congruence.
Qed.

Lemma checkFailure_failed block rs ie :
  dealTaskCheckFailure block rs ie <> None <-> ie <> Some true /\ Exists failed rs.
Proof.
  induction rs as [|r rs IH]; cbn [dealTaskCheckFailure]; [rewrite Exists_nil; tauto|].
  rewrite Exists_cons. unfold failed at 1. case_bool_decide as Hf; [|rewrite IH; tauto].
  destruct ie as [[]|]; cbn [isTrue]; rewrite ?IH; intuition congruence.
Qed.

(** The variable a task registers for a host says of its result whether it
    failed, was skipped and changed something. *)
Definition registers {W Conn : Type} {E : Engine W Conn} (task : TaskSpec) (v : Value) (r : TaskResult) : Prop :=
  let flag k := registered v (tr_host r) (ts_register task) k in
  flag "failed" = Some (ABool (bool_decide (tr_status r = TaskStatusFailed) || negb (ignoredError (E := E) r =s "")))
  /\ flag "skipped" = Some (ABool (bool_decide (tr_status r = TaskStatusSkipped)))
  /\ flag "changed" = Some (ABool (tr_changed r)).

Lemma resultOk_error (r : TaskResult) : resultOk (tr_host r) r -> negb (tr_error r =s "") = bool_decide (tr_status r = TaskStatusFailed).
Proof.
  intros (_ & _ & H). destruct (String.eqb_spec (tr_error r) "") as [He|He]; symmetry;
    [apply bool_decide_eq_false | apply bool_decide_eq_true]; tauto.
Qed.



(** An event without its duration. *)
Definition undated (ev : Event) : Event :=
  mkEvent (ev_type ev) (ev_play ev) (ev_task ev) (ev_index ev) (ev_total ev) (ev_status ev)
    (ev_output ev) (ev_error ev) 0 (ev_message ev).


(** A failing module whose error and output carry a secret. *)
Definition leakyEngine (secret : string) : Engine Z unit := moduleEngine (fun n =>
  if n =s "shell" then Some (fun o v w => ((secret, secret, Some (mkModErr secret (Some w))), (v, w, [])))
  else if n =s "debug" then Some (ModuleDebug (E := demoEngine) (fun _ => None)) else None).

Definition secretTask : Block :=
  mkBlock (mkBase "s" [] ANil true false None false 0 0 "" false "") [] [] "" "" false
    (dTask "shell") "" [] [] [].

Definition demoSt' : St Z unit :=
  mkSt (st_value demoSt) 42 (st_conns demoSt) [] [] 0.


(** [debug] writes its message to the log, [no_log] or not. *)
Example debug_ignores_no_log :
  let secret := mkBlock (mkBase "s" [] ANil true false None false 0 0 "" false "") [] [] "" "" false
    (mkTask 0 [] 0 [] ANil ANil ANil (mkLoopControl "" "") 0 "" "" 0 [] [("debug", AMap {["msg" := AStr "k3y"]})]) "" [] [] [] in
  st_log (dealTask (E := leakyEngine "k3y") dExec secret ["h1"] [] None demoSt).2 = ["s"; "DEBUG: k3y"].
Proof. by vm_compute. Qed.

(** [no_log] is read off the task itself: on a block structure around it, it
    has no effect, and the output reaches the events. *)
Lemma no_log_not_inherited :
  let inner := dBlock "shell" in
  let outer := mkBlock (mkBase "o" [] ANil true false None false 0 0 "" false "") [] [] "" "" false
                 (dTask "") "" [inner] [] [] in
  validateBlock outer = None /\
  match ExecBlocks (E := leakyEngine "k3y") 3 dExec [outer] demoSt with
  | Some (_, s') => List.existsb (fun ev => ev_error ev =s "k3y") (st_events s') = true
  | None => False
  end.
Proof. split; vm_compute; reflexivity. Qed.

(** Progress stays within the announced total: running a list of blocks
    without [include_tasks] moves the play's task counter forward by at most
    [countBlocks], the number the total was computed from (tasks dropped by
    [run_once] on a follower included), and every event emitted on the way
    carries an index above the counter it started from and not above the
    counter it ends with. *)
Lemma progress_bounded {W Conn : Type} {E : Engine W Conn} fuel (e : BlockExecutor W Conn) bs s err s' :
  silentResolver (be_resolve e) -> be_indexed e = true ->
  forallb includeFree bs = true ->
  ExecBlocks fuel e bs s = Some (err, s') ->
  st_index s <= st_index s' <= st_index s + countBlocks bs /\
  exists evs, st_events s' = st_events s ++ evs /\
    Forall (fun ev => st_index s < ev_index ev <= st_index s + countBlocks bs) evs.
Proof.
  intros Hr Hi Hf H. apply execBlocks_progress in H as (B & evs & He & F); [|by split|done].
  split; [done|]. exists evs. split; [done|]. eapply Forall_impl; [exact F|]. cbn. lia.
Qed.

End theorems.

(** ** Rendering events *)

Definition toUpperByte (c : ascii) : ascii :=
  let n := Ascii.N_of_ascii c in
  if ((97 <=? n) && (n <=? 122))%N then Ascii.ascii_of_N (n - 32) else c.

Fixpoint ToUpper (s : string) : string :=
  match s with
  | EmptyString => EmptyString
  | String c s' => String (toUpperByte c) (ToUpper s')
  end.

Definition crlf : string := String (Ascii.ascii_of_nat 13) (String (Ascii.ascii_of_nat 10) "").

(** [strings.ReplaceAll(msg, "\r\n", "\n")]. *)
Fixpoint crlfToLf (s : string) : string :=
  match s with
  | EmptyString => EmptyString
  | String c s' =>
    match s' with
    | String c' s'' =>
      if Ascii.eqb c (Ascii.ascii_of_nat 13) && Ascii.eqb c' (Ascii.ascii_of_nat 10)
      then String c' (crlfToLf s'')
      else String c (crlfToLf s')
    | EmptyString => s
    end
  end.

(** [strings.ReplaceAll(msg, "\n", "\r\n")]. *)
Definition lfToCrlf (s : string) : string := ReplaceAll s (Ascii.ascii_of_nat 10) crlf.

Definition FormatEventText (ev : AnsibleTask.Event) : string :=
  match AnsibleTask.ev_type ev with
  | AnsibleTask.EventPlayStart =>
    crlf +++ "PLAY [" +++ AnsibleTask.ev_play ev +++ "] ***" +++ crlf +++ crlf
  | AnsibleTask.EventTaskStart => "TASK [" +++ AnsibleTask.ev_task ev +++ "] ..." +++ crlf
  | AnsibleTask.EventTaskEnd =>
    let dur := if 0 <? AnsibleTask.ev_duration ev
               then " (" +++ FormatInt (AnsibleTask.ev_duration ev) +++ "ms)" else "" in
    if AnsibleTask.ev_status ev =s "failed" then
      "  => FAILED" +++ dur +++ ": " +++ AnsibleTask.ev_error ev +++ crlf
    else if AnsibleTask.ev_status ev =s "skipped" then "  => SKIPPED" +++ crlf
    else "  => " +++ ToUpper (AnsibleTask.ev_status ev) +++ dur +++ crlf
  | AnsibleTask.EventLog =>
    if AnsibleTask.ev_message ev =s "" then "" else lfToCrlf (crlfToLf (AnsibleTask.ev_message ev))
  | AnsibleTask.EventPlayEnd => ""
  end.

End AnsibleBlock.
