(* ===== verification/AnsiblePlay.v ===== *)
(** * The Ansible engine: roles, plays and playbooks

    [src/lib/ansible/executor/registry.go], [role.go] and [playbook.go]: the
    registry of connections, role variables, dependencies and tasks, the
    phases of a batch, and the run of a playbook.

    A [PlaybookExecutor]'s mutable parts are those of [St]; live output
    streaming ([SetLiveOutput], [Resize]) is not modelled. [Execute] and what
    it calls take the [fuel] of [ExecBlocks] and answer [None] when it runs
    out. *)

From S2P Require Import Prelude ListQuery AnsibleTypes AnsibleVars AnsiblePlan AnsibleTask AnsibleBlock.
Import AnsibleTypes AnsibleVars AnsiblePlan AnsibleTask AnsibleBlock.

Module AnsiblePlay.

Section play.
Context {W Conn : Type} {E : Engine W Conn}.

Abbreviation state := (St W Conn).
Abbreviation executor := (BlockExecutor W Conn).
Abbreviation oc := (option (option string * state)).
Abbreviation act := (M (W := W) (Conn := Conn)).

(** ** The registry of connections *)

Definition regHas (s : state) (host : string) : bool :=
  match st_conns s !! host with Some _ => true | None => false end.

Definition regPut (host : string) (c : Conn) : act unit := fun s =>
  (tt, set_conns s (<[host := c]> (st_conns s))).

(** [Delete]: the previous connection, nil when there was none. *)
Definition regDelete (host : string) : act (option Conn) := fun s =>
  (st_conns s !! host, set_conns s (delete host (st_conns s))).

(** [Drain]: every connection, in map order, and an empty registry. *)
Definition regDrain : act (list Conn) := fun s =>
  (snd <$> map_to_list (st_conns s), set_conns s ∅).

Definition regSnapshot : act (list Conn) := gets (fun s => snd <$> map_to_list (st_conns s)).

(** ** The executor of a playbook *)

Record PlaybookExecutor : Type := mkPE {
  pe_inventory : Inventory;
  pe_log : bool;
  pe_callback : bool;
  pe_tags : list string;
  pe_skipTags : list string;
  pe_skipRunOnce : bool
}.

Definition pwriteLog (e : PlaybookExecutor) (line : string) : act unit := fun s =>
  (tt, if pe_log e then
         mkSt (st_value s) (st_world s) (st_conns s) (st_events s) (st_log s ++ [line]) (st_index s)
       else s).

Definition pemit (e : PlaybookExecutor) (ev : Event) : act unit := fun s =>
  (tt, if pe_callback e then
         mkSt (st_value s) (st_world s) (st_conns s) (st_events s ++ [ev]) (st_log s) (st_index s)
       else s).

(** ** Connections *)

Definition initConnectorBecomeDefaults (vs : vars) (play : Play) : vars :=
  let vs := if Become (p_base play) then setDefault "become" (ABool true) vs else vs in
  if BecomeUser (p_base play) =s "" then vs
  else setDefault "become_user" (AStr (BecomeUser (p_base play))) vs.

(** [e.newConnector(host, vars)] and [conn.Init(ctx)] act on the world. *)
Definition makeConn (host : string) (vs : vars) : act (result string Conn) := fun s =>
  let '(r, w) := newConnector host vs (st_world s) in (r, set_world s w).

Definition initConn (c : Conn) : act (option string) := fun s =>
  let '(r, w) := connInit c (st_world s) in (r, set_world s w).

Definition initConnector (host : string) (play : Play) : act (option string) :=
  vs ← getAll host;
  r ← makeConn host (initConnectorBecomeDefaults (allVars vs) play);
  match r with
  | Err e => mret (Some ("create connector for " +++ host +++ ": " +++ e))
  | Ok conn =>
    ie ← initConn conn;
    match ie with
    | Some e => mret (Some ("init connector for " +++ host +++ ": " +++ e))
    | None => regPut host conn;; mret None
    end
  end.

Fixpoint initConnectors (hosts : list string) (play : Play) : act (option string) :=
  match hosts with
  | [] => mret None
  | host :: rest =>
    has ← gets (fun s => regHas s host);
    if (has : bool) then initConnectors rest play
    else
      err ← initConnector host play;
      match err with
      | Some e => mret (Some e)
      | None => initConnectors rest play
      end
  end.

Definition closeAll (conns : list Conn) : act unit := fun s =>
  (tt, set_world s (foldl (fun w c => connClose c w) (st_world s) conns)).

Definition closeConnectors : act unit := regDrain ≫= closeAll.

Definition connectorForDelegate (play : Play) (host : string) : act (result string Conn) :=
  conns ← gets st_conns;
  match conns !! host with
  | Some conn => mret (Ok conn)
  | None =>
    err ← initConnector host play;
    conns ← gets st_conns;
    mret (match err with
          | Some e => Err e
          | None => match conns !! host with
                    | Some conn => Ok conn
                    | None => Err ""
                    end
          end)
  end.

(** ** Facts and variable files *)

Fixpoint gatherHosts (setupFn : ModuleFn W Conn) (logOutput : bool) (hosts : list string) : act (option string) :=
  match hosts with
  | [] => mret None
  | host :: rest =>
    conns ← gets st_conns;
    '(_, _, err) ← callModule setupFn (mkExecOptions ∅ host (conns !! host) logOutput false None);
    match (err : option modErr) with
    | Some e => mret (Some ("host " +++ host +++ ": " +++ me_msg e))
    | None => gatherHosts setupFn logOutput rest
    end
  end.

Definition gatherFacts (logOutput : bool) (hosts : list string) : act (option string) :=
  match FindModule "setup" with
  | None => mret (Some "setup module not registered")
  | Some setupFn => gatherHosts setupFn logOutput hosts
  end.

(** Reading a variables file; missing, unparsable and empty files are silent. *)
Definition readVars (path : string) : option vars :=
  match ReadFile path with
  | Err _ => None
  | Ok data =>
    match unmarshalVars data with
    | Err _ => None
    | Ok m => if bool_decide (m = ∅) then None else Some m
    end
  end.

Fixpoint mergeEach (f : string -> Value -> Value) (hosts : list string) : act unit :=
  match hosts with
  | [] => mret tt
  | host :: rest => mergeVar (f host);; mergeEach f rest
  end.

Definition loadVarsFile (path : string) (hosts : list string) : act unit :=
  match readVars path with
  | None => mret tt
  | Some m => mergeEach (fun host => MergeHostRuntimeVars host m) hosts
  end.

Fixpoint loadVarsFiles (paths hosts : list string) : act unit :=
  match paths with
  | [] => mret tt
  | path :: rest => loadVarsFile path hosts;; loadVarsFiles rest hosts
  end.

(** ** Roles *)

Definition loadAndMergeDefaultsFile (hosts : list string) (path : string) : act unit :=
  match readVars path with
  | None => mret tt
  | Some m => mergeEach (fun host => MergeHostDefaultVars host m) hosts
  end.

Definition mergeRoleVars (hosts : list string) (role : Role) : act unit :=
  loadAndMergeDefaultsFile hosts ("roles/" +++ r_role role +++ "/defaults/main.yml");;
  loadVarsFile ("roles/" +++ r_role role +++ "/vars/main.yml") hosts;;
  match Vars (r_base role) with
  | [] => mret tt
  | nodes => mergeVar (MergeRuntimeVariable nodes hosts)
  end.

Definition loadRoleTasks (roleName : string) : result string (list Block) :=
  match ReadFile ("roles/" +++ roleName +++ "/tasks/main.yml") with
  | Err e => Err ("role '" +++ roleName +++ "': read tasks: " +++ e)
  | Ok data =>
    match unmarshalBlocks data with
    | Err e => Err ("role '" +++ roleName +++ "': parse tasks: " +++ e)
    | Ok blocks =>
      match ValidateBlocks blocks with
      | Some e => Err ("role '" +++ roleName +++ "': " +++ e)
      | None => Ok blocks
      end
    end
  end.

(** [WithRole] and, for a role with conditions, [WithWhen]. *)
Definition roleExecutor (be : executor) (role : Role) : executor :=
  mkBE (be_resolve be) (be_log be) (be_callback be) (be_hosts be) (be_ignoreErrors be)
    (match r_when role with [] => be_when be | w => w end) (be_tags be) (be_playTags be)
    (be_playSkipTags be) (r_role role) (be_indexed be) (be_total be) (be_playBecome be)
    (be_skipRunOnce be) (be_includeStack be).

(** The loop over a role's dependencies. *)
Fixpoint depLoop (run : Role -> state -> oc) (l : list Role) (s : state) : oc :=
  match l with
  | [] => Some (None, s)
  | dep :: rest =>
    '(err, s) ← run dep s;
    match err with
    | Some e => Some (Some ("role dependency '" +++ r_role dep +++ "': " +++ e), s)
    | None => depLoop run rest s
    end
  end.

Fixpoint execRole (fuel : nat) (be : executor) (hosts : list string) (role : Role) (s : state)
  : oc :=
  let s := (mergeRoleVars hosts role s).2 in
  '(depErr, s) ← depLoop (execRole fuel be hosts) (r_dependencies role) s;
  match depErr with
  | Some e => Some (Some e, s)
  | None =>
    match loadRoleTasks (r_role role) with
    | Err e => Some (Some e, s)
    | Ok blocks =>
      let blocks := match r_blocks role with [] => blocks | bs => bs end in
      ExecBlocks fuel (roleExecutor be role) blocks s
    end
  end.

(** ** Batches, plays, playbooks *)

Definition makeBlockExec (e : PlaybookExecutor) (play : Play) (hosts : list string) (total : Z)
  : executor :=
  mkBE (Some (connectorForDelegate play)) (pe_log e) (pe_callback e) hosts
    (IgnoreErrors (p_base play)) [] [] (pe_tags e) (pe_skipTags e) "" true total
    (Become (p_base play)) (pe_skipRunOnce e) [].

Definition execBatchTaskPhase (fuel : nat) (e : PlaybookExecutor) (be : executor)
  (header errPrefix : string) (blocks : list Block) (s : state) : oc :=
  match blocks with
  | [] => Some (None, s)
  | _ :: _ =>
    let s := (pwriteLog e header s).2 in
    '(err, s) ← ExecBlocks fuel be blocks s;
    match err with
    | Some m => Some (Some (errPrefix +++ ": " +++ m), s)
    | None => Some (None, s)
    end
  end.

Fixpoint execBatchRoles (fuel : nat) (e : PlaybookExecutor) (be : executor) (hosts : list string)
  (roles : list Role) (s : state) : oc :=
  match roles with
  | [] => Some (None, s)
  | role :: rest =>
    let s := (pwriteLog e (nl +++ "ROLE [" +++ r_role role +++ "] ***") s).2 in
    '(err, s) ← execRole fuel be hosts role s;
    match err with
    | Some m => Some (Some ("role '" +++ r_role role +++ "': " +++ m), s)
    | None => execBatchRoles fuel e be hosts rest s
    end
  end.

(** [if err := f(); err != nil { return err }], then the rest. *)
Definition andThen (o : oc) (k : state -> oc) : oc :=
  '(err, s) ← o;
  match err with
  | Some m => Some (Some m, s)
  | None => k s
  end.

Definition playTotal (play : Play) : Z :=
  foldl (fun total role => total + countBlocks (r_blocks role))
    (countBlocks (p_preTasks play) + countBlocks (p_tasks play) + countBlocks (p_postTasks play))
    (p_roles play).

Definition execBatch (fuel : nat) (e : PlaybookExecutor) (play : Play) (hosts : list string)
  (s : state) : oc :=
  let be := makeBlockExec e play hosts (playTotal play) in
  let s := mkSt (st_value s) (st_world s) (st_conns s) (st_events s) (st_log s) 0 in
  andThen (execBatchTaskPhase fuel e be (nl +++ "PRE TASKS ***") "pre_tasks" (p_preTasks play) s) (fun s =>
  andThen (execBatchRoles fuel e be hosts (p_roles play) s) (fun s =>
  andThen (execBatchTaskPhase fuel e be (nl +++ "TASKS ***") "tasks" (p_tasks play) s) (fun s =>
  execBatchTaskPhase fuel e be (nl +++ "POST TASKS ***") "post_tasks" (p_postTasks play) s))).

Fixpoint execBatches (fuel : nat) (e : PlaybookExecutor) (play : Play) (plan : list PlayPlan)
  (s : state) : oc :=
  match plan with
  | [] => Some (None, s)
  | pp :: rest => andThen (execBatch fuel e play (pp_hosts pp) s) (execBatches fuel e play rest)
  end.

Definition mergePlayVars (play : Play) (hosts : list string) : act unit :=
  match Vars (p_base play) with
  | [] => mret tt
  | nodes => mergeVar (MergeRuntimeVariable nodes hosts)
  end.

(** The steps of [execPlay] after the connections are up. *)
Definition runPlay (fuel : nat) (e : PlaybookExecutor) (play : Play) (plan : list PlayPlan)
  (hosts : list string) (s : state) : oc :=
  let s := (mergePlayVars play hosts s).2 in
  let s := (loadVarsFiles (p_varsFiles play) hosts s).2 in
  let '(factsErr, s) := (if p_gatherFacts play then gatherFacts (pe_log e) hosts else mret None) s in
  match factsErr with
  | Some m => Some (Some ("gather_facts: " +++ m), s)
  | None => execBatches fuel e play plan s
  end.

(** The text of a planning error; a panic of the planner ends the run too. *)
Definition planErrText (pe : planErr) : string :=
  match pe with PErr m => m | PPanic => "panic" end.

Definition execPlay (fuel : nat) (e : PlaybookExecutor) (playIndex : Z) (play : Play) (s : state)
  : oc :=
  match PlanPlay (envOf (st_world s)) (New (pe_inventory e)) playIndex play with
  | Err pe => Some (Some (planErrText pe), s)
  | Ok [] => Some (None, (pwriteLog e "skipping: no hosts matched" s).2)
  | Ok plan =>
    let hosts := concat (pp_hosts <$> plan) in
    let '(err, s) := initConnectors hosts play s in
    match err with
    | Some m => Some (Some m, s)
    | None =>
      '(err, s) ← runPlay fuel e play plan hosts s;
      Some (err, (closeConnectors s).2)
    end
  end.

(** [PlaybookResult], without its times and its never-filled statistics. *)
Record PlaybookResult : Type := mkPlaybookResult {
  pr_success : bool;
  pr_error : string
}.

Definition playError (i : Z) (play : Play) (m : string) : string :=
  "play " +++ FormatInt (i + 1) +++ " '" +++ Name (p_base play) +++ "': " +++ m.

Definition playEvent (t : EventType) (play : Play) (err : string) : Event :=
  mkEvent t (Name (p_base play)) "" 0 0 "" None err 0 "".

Fixpoint executePlays (fuel : nat) (e : PlaybookExecutor) (i : Z) (plays : list Play) (s : state)
  : option (PlaybookResult * state) :=
  match plays with
  | [] => Some (mkPlaybookResult true "", s)
  | play :: rest =>
    let s := (pwriteLog e (nl +++ "PLAY [" +++ Name (p_base play) +++ "] ***") s).2 in
    let s := (pemit e (playEvent EventPlayStart play "") s).2 in
    '(err, s) ← execPlay fuel e i play s;
    match err with
    | Some m =>
      let s := (pemit e (playEvent EventPlayEnd play m) s).2 in
      Some (mkPlaybookResult false (playError i play m), s)
    | None =>
      let s := (pemit e (playEvent EventPlayEnd play "") s).2 in
      executePlays fuel e (i + 1) rest s
    end
  end.

Definition Execute (fuel : nat) (e : PlaybookExecutor) (playbook : list Play) (s : state)
  : option (PlaybookResult * state) := executePlays fuel e 0 playbook s.

(** [NewPlaybookExecutor]'s initial state in the world [w]. *)
Definition initial (e : PlaybookExecutor) (w : W) : state :=
  mkSt (New (pe_inventory e)) w ∅ [] [] 0.

(** ** Connections only accumulate while a play runs *)

Definition connsGrow (s s' : state) : Prop := st_conns s ⊆ st_conns s'.

#[local] Instance connsGrow_preorder : PreOrder connsGrow.
Proof. unfold connsGrow. split; [by intros s|]. intros s1 s2 s3 H1 H2. by etrans. Qed.

Abbreviation grows := (respects connsGrow).

Lemma grows_same {A} (m : act A) : (forall s, st_conns (m s).2 = st_conns s) -> grows m.
Proof. intros H s. unfold connsGrow. by rewrite H. Qed.

Lemma grows_bind {A B} (m : act A) (f : A -> act B) :
  grows m -> (forall a, grows (f a)) -> grows (m ≫= f).
Proof. intros. apply respects_bind; [apply _|done..]. Qed.

Lemma makeConn_conns host vs (s : state) : st_conns (makeConn host vs s).2 = st_conns s.
Proof. unfold makeConn. by destruct (newConnector _ _ _). Qed.

Lemma initConn_conns c (s : state) : st_conns (initConn c s).2 = st_conns s.
Proof. unfold initConn. by destruct (connInit _ _). Qed.

(** What [initConnector] does to the registry: nothing, or one new entry. *)
Lemma initConnector_conns host play (s : state) :
  let '(err, s') := initConnector host play s in
  match err with
  | Some _ => st_conns s' = st_conns s
  | None => exists c, st_conns s' = <[host := c]> (st_conns s)
  end.
Proof.
  unfold initConnector. rewrite bind_run. cbn [getAll gets fst snd]. rewrite bind_run.
  set (m := makeConn _ _). pose proof (makeConn_conns host
    (initConnectorBecomeDefaults (allVars (GetAllVariable (envOf (st_world s)) host (st_value s))) play) s) as H1.
  fold m in H1. destruct (m s).1 as [c|e]; [|exact H1].
  rewrite bind_run. pose proof (initConn_conns c (m s).2) as H2.
  destruct (initConn c (m s).2).1 as [e|]; [cbn; congruence|].
  rewrite bind_run. cbn. exists c. by rewrite H2, H1.
Qed.

Lemma grows_delegate play host : grows (connectorForDelegate play host).
Proof.
  intros s. unfold connectorForDelegate. rewrite bind_run. cbn [gets fst snd].
  destruct (st_conns s !! host) eqn:Eh; [reflexivity|]. rewrite !bind_run. cbn [gets fst snd mret M_ret].
  pose proof (initConnector_conns host play s) as H. destruct (initConnector host play s) as [err s'].
  cbn. unfold connsGrow. destruct err; [by rewrite H|]. destruct H as [c ->]. by apply insert_subseteq.
Qed.

(** The resolver of a play touches the world and the connections alone. *)
Lemma respects_delegate (R : state -> state -> Prop) `{!PreOrder R} play host :
  (forall s w, R s (set_world s w)) -> (forall s cs, R s (set_conns s cs)) -> respects R (connectorForDelegate play host).
Proof.
  intros Hw Hc. assert (same : forall A (m : act A), (forall s, (m s).2 = s) -> respects R m) by (intros A m H s; by rewrite H).
  assert (Hi : respects R (initConnector host play)).
  { apply respects_bind; [done | by apply same|]. intros vs. apply respects_bind; [done | |].
    { intros s. unfold makeConn. destruct (newConnector _ _ _). apply Hw. }
    intros [c|e]; [|by apply same]. apply respects_bind; [done | |].
    { intros s. unfold initConn. destruct (connInit _ _). apply Hw. }
    intros [e|]; [by apply same|]. apply respects_bind; [done | intros s; apply Hc | by intros _; apply same]. }
  apply respects_bind; [done | by apply same|]. intros conns. destruct (conns !! host); [by apply same|].
  apply respects_bind; [done | exact Hi|]. intros err.
  apply respects_bind; [done | by apply same|]. intros conns'. by apply same.
Qed.

Lemma silent_delegate play : silentResolver (Some (connectorForDelegate play)).
Proof. intros f h [= <-]. split; by apply respects_delegate; [apply _|..]. Qed.

Lemma initConnectors_conns hosts play (s s' : state) :
  initConnectors hosts play s = (None, s') ->
  connsGrow s s' /\ forall h, h ∈ hosts -> is_Some (st_conns s' !! h).
Proof.
  revert s. induction hosts as [|host hosts IH]; intros s; cbn [initConnectors].
  - intros [= <-]. split; [reflexivity|]. intros h Hh. by apply elem_of_nil in Hh.
  - rewrite bind_run. cbn [gets fst snd]. unfold regHas.
    destruct (st_conns s !! host) as [c|] eqn:Eh.
    + intros H. destruct (IH _ H) as [Hg Hd]. split; [done|].
      intros h [->|Hh]%elem_of_cons; [|by apply Hd]. exists c. by eapply lookup_weaken.
    + rewrite bind_run. pose proof (initConnector_conns host play s) as Hi.
      destruct (initConnector host play s) as [[m|] s1]; [done|]. destruct Hi as [c Hc]. cbn.
      intros H. destruct (IH _ H) as [Hg Hd]. unfold connsGrow in *. rewrite Hc in Hg. split.
      * etrans; [by apply insert_subseteq | exact Hg].
      * intros h [->|Hh]%elem_of_cons; [|by apply Hd]. exists c.
        eapply lookup_weaken; [apply lookup_insert_eq | exact Hg].
Qed.

(** A run of blocks keeps every connection. *)
Definition keeps (o : oc) (s : state) : Prop :=
  match o with Some (_, s') => connsGrow s s' | None => True end.

Lemma keeps_trans (o : oc) (s1 s2 : state) : connsGrow s1 s2 -> keeps o s2 -> keeps o s1.
Proof. destruct o as [[err s']|]; [|done]. cbn. intros H1 H2. etrans; [exact H1 | exact H2]. Qed.

Lemma keeps_bind (o : oc) (k : option string * state -> oc) s :
  keeps o s -> (forall err s', connsGrow s s' -> keeps (k (err, s')) s') -> keeps (o ≫= k) s.
Proof.
  destruct o as [[err s']|]; [|done]. cbn. intros H1 H2.
  eapply keeps_trans; [exact H1 | by apply H2].
Qed.

Definition growing (e : executor) : Prop := forall f h, be_resolve e = Some f -> grows (f h).

Lemma keeps_same (err : option string) (s s' : state) :
  st_conns s' = st_conns s -> keeps (Some (err, s')) s.
Proof. intros H. cbn. unfold connsGrow. by rewrite H. Qed.

Lemma grows_Exec (te : TaskExecutor (W := W) (Conn := Conn)) task :
  (forall f h, te_resolve te = Some f -> grows (f h)) -> grows (Exec te task).
Proof. intros H. apply respects_Exec; [apply _ | by intros; unfold connsGrow.. | exact H | by intros; unfold connsGrow]. Qed.

Lemma grows_dealTask e block hosts w ie : growing e -> grows (dealTask e block hosts w ie).
Proof.
  intros He. assert (forall l, grows (writeLog e l)) as Hl
    by (intros; apply grows_same; intros s; unfold writeLog; by destruct (be_log e)).
  assert (forall ev, grows (emit e ev)) as Hem
    by (intros; apply grows_same; intros s; unfold emit; by destruct (be_callback e)).
  assert (forall A (f : state -> A), grows (gets f)) as Hg by (intros; by apply grows_same).
  unfold dealTask, dealTaskLogName, dealTaskEmitStart.
  apply grows_bind; [apply Hl|]. intros _. apply grows_bind.
  { apply grows_bind; [apply grows_same; intros s; unfold advance; by destruct (be_indexed e)|].
    intros _. apply grows_bind; [apply Hg|]. intros i.
    apply grows_bind; [apply Hem|]. intros _. by apply grows_same. }
  intros i. apply grows_bind; [apply Hg|]. intros t. apply grows_bind; [by apply grows_Exec|].
  intros rs. destruct (aggregateResults rs) as [[st em] out].
  apply grows_bind; [case_bool_decide; [apply Hl|by apply grows_same]|]. intros _.
  apply grows_bind; [apply Hg|]. intros n. apply grows_bind; [apply Hem|]. intros _. by apply grows_same.
Qed.

Lemma keeps_dealBlock (rec : executor -> list Block -> state -> oc) e block hosts w t ie s :
  growing e -> (forall sub bs s, growing sub -> keeps (rec sub bs s) s) ->
  keeps (dealBlockRescueAlways rec e block hosts w t ie s) s.
Proof.
  intros He Hrec. unfold dealBlockRescueAlways.
  assert (growing (subExecutor e hosts w t ie)) as Hs by exact He.
  apply keeps_bind; [by apply Hrec|]. intros berr s1 _.
  apply keeps_bind.
  - destruct berr; [|by apply keeps_same]. destruct (b_rescue block); [by apply keeps_same|].
    apply keeps_bind; [by apply Hrec|]. intros rerr s2 _. by apply keeps_same.
  - intros errs s2 _. destruct (b_always block); [by apply keeps_same|].
    apply keeps_bind; [by apply Hrec|]. intros aerr s3 _. by apply keeps_same.
Qed.

Lemma keeps_ExecBlocks fuel e bs s : growing e -> keeps (ExecBlocks fuel e bs s) s.
Proof.
  revert e bs s. induction fuel as [|fuel IH]; intros e bs s He; [done|].
  cbn [ExecBlocks]. revert s. induction bs as [|b bs IHb]; intros s; cbn [execLoop]; [by apply keeps_same|].
  apply keeps_bind.
  2:{ intros [er|] s1 _; [by apply keeps_same | apply IHb]. }
  unfold execBlock. destruct (_ && _).
  { apply keeps_same. unfold advance. by destruct (be_indexed e). }
  fold (enterBlock e b s). apply (keeps_trans _ s (enterBlock e b s)).
  { unfold connsGrow, enterBlock. by destruct (Vars _). }
  destruct (b_block b) eqn:Eb.
  - destruct (negb (_ =s "")); (destruct (negb _); [by apply keeps_same|]).
    + unfold dealIncludeTasks. destruct (contains _ _); [by apply keeps_same|].
      destruct (loadInclude _); [by apply IH | by apply keeps_same].
    + pose proof (grows_dealTask e b) as Hd.
      match goal with |- keeps (Some (dealTask e b ?h ?w ?ie _)) _ => specialize (Hd h w ie He (enterBlock e b s)) end.
      destruct (dealTask _ _ _ _ _ _). exact Hd.
  - apply keeps_dealBlock; [done|]. intros. by apply IH.
Qed.

Lemma grows_mergeEach f hosts : grows (mergeEach f hosts).
Proof.
  induction hosts as [|h hosts IH]; cbn [mergeEach]; [by apply grows_same|].
  apply grows_bind; [by apply grows_same | intros _; exact IH].
Qed.

Lemma grows_loadVarsFile path hosts : grows (loadVarsFile path hosts).
Proof. unfold loadVarsFile. destruct (readVars path); [apply grows_mergeEach | by apply grows_same]. Qed.

Lemma grows_mergeRoleVars hosts role : grows (mergeRoleVars hosts role).
Proof.
  unfold mergeRoleVars. apply grows_bind.
  - unfold loadAndMergeDefaultsFile. destruct (readVars _); [apply grows_mergeEach | by apply grows_same].
  - intros _. apply grows_bind; [apply grows_loadVarsFile|]. intros _.
    destruct (Vars _); by apply grows_same.
Qed.

(** Induction on a role and its dependencies. *)
Fixpoint role_induction (P : Role -> Prop) (H : forall r, Forall P (r_dependencies r) -> P r)
  (r : Role) : P r :=
  H r ((fix go (l : list Role) : Forall P l :=
          match l with
          | [] => Forall_nil_2 P
          | x :: l' => Forall_cons_2 P x l' (role_induction P H x) (go l')
          end) (r_dependencies r)).

Lemma execRole_unfold fuel be hosts role (s : state) :
  execRole fuel be hosts role s =
  ('(depErr, s) ← depLoop (execRole fuel be hosts) (r_dependencies role) (mergeRoleVars hosts role s).2;
   match depErr with
   | Some e => Some (Some e, s)
   | None =>
     match loadRoleTasks (r_role role) with
     | Err e => Some (Some e, s)
     | Ok blocks =>
       ExecBlocks fuel (roleExecutor be role) (match r_blocks role with [] => blocks | bs => bs end) s
     end
   end).
Proof. by destruct role. Qed.

Lemma keeps_execRole fuel be hosts role s : growing be -> keeps (execRole fuel be hosts role s) s.
Proof.
  intros He. revert s. induction role as [role IH] using role_induction. intros s.
  rewrite execRole_unfold.
  apply (keeps_trans _ s (mergeRoleVars hosts role s).2); [apply grows_mergeRoleVars|].
  apply keeps_bind.
  - generalize (mergeRoleVars hosts role s).2. induction IH as [|dep deps Hd _ IHd]; intros s1;
      cbn [depLoop]; [by apply keeps_same|].
    apply keeps_bind; [apply Hd|]. intros [er|] s2 _; [by apply keeps_same | apply IHd].
  - intros [er|] s1 _; [by apply keeps_same|]. destruct (loadRoleTasks _); [|by apply keeps_same].
    by apply keeps_ExecBlocks.
Qed.

Lemma keeps_andThen (o : oc) k s :
  keeps o s -> (forall s', keeps (k s') s') -> keeps (andThen o k) s.
Proof.
  intros H1 H2. unfold andThen. apply keeps_bind; [done|].
  intros [er|] s1 _; [by apply keeps_same | apply H2].
Qed.

Lemma growing_makeBlockExec e play hosts total : growing (makeBlockExec e play hosts total).
Proof. intros f h [= <-]. apply grows_delegate. Qed.

Lemma pwriteLog_conns e line (s : state) : st_conns (pwriteLog e line s).2 = st_conns s.
Proof. unfold pwriteLog. by destruct (pe_log e). Qed.

Lemma keeps_phase fuel e be header pre bs s : growing be ->
  keeps (execBatchTaskPhase fuel e be header pre bs s) s.
Proof.
  intros He. unfold execBatchTaskPhase. destruct bs as [|b bs]; [by apply keeps_same|].
  apply (keeps_trans _ s (pwriteLog e header s).2).
  { unfold connsGrow. by rewrite pwriteLog_conns. }
  apply keeps_bind; [by apply keeps_ExecBlocks|]. intros [er|] s1 _; by apply keeps_same.
Qed.

Lemma keeps_roles fuel e be hosts roles s : growing be ->
  keeps (execBatchRoles fuel e be hosts roles s) s.
Proof.
  intros He. revert s. induction roles as [|r roles IH]; intros s; cbn [execBatchRoles]; [by apply keeps_same|].
  set (s1 := (pwriteLog _ _ s).2). apply (keeps_trans _ s s1).
  { unfold connsGrow, s1. by rewrite pwriteLog_conns. }
  apply keeps_bind; [by apply keeps_execRole|]. intros [er|] s2 _; [by apply keeps_same | apply IH].
Qed.

Lemma keeps_execBatches fuel e play plan s : keeps (execBatches fuel e play plan s) s.
Proof.
  revert s. induction plan as [|pp plan IH]; intros s; cbn [execBatches]; [by apply keeps_same|].
  apply keeps_andThen; [|exact IH]. unfold execBatch.
  set (be := makeBlockExec _ _ _ _). assert (growing be) as He by apply growing_makeBlockExec.
  set (s0 := mkSt _ _ _ _ _ 0). apply (keeps_trans _ s s0); [by unfold connsGrow|].
  apply keeps_andThen; [by apply keeps_phase|]. intros s1.
  apply keeps_andThen; [by apply keeps_roles|]. intros s2.
  apply keeps_andThen; [by apply keeps_phase|]. intros s3. by apply keeps_phase.
Qed.

Lemma grows_gatherFacts lo hosts : grows (gatherFacts lo hosts).
Proof.
  unfold gatherFacts. destruct (FindModule "setup") as [mf|]; [|by apply grows_same].
  induction hosts as [|h hosts IH]; cbn [gatherHosts]; [by apply grows_same|].
  apply grows_bind; [by apply grows_same|]. intros conns. apply grows_bind.
  - apply grows_same. intros s. unfold callModule. by destruct (mf _ _ _) as [? [[? ?] ?]].
  - intros [[? ?] [er|]]; [by apply grows_same | exact IH].
Qed.

Lemma keeps_runPlay fuel e play plan hosts s : keeps (runPlay fuel e play plan hosts s) s.
Proof.
  unfold runPlay. set (s1 := (mergePlayVars play hosts s).2).
  apply (keeps_trans _ s s1); [unfold s1, connsGrow, mergePlayVars; by destruct (Vars (p_base play))|].
  set (s2 := (loadVarsFiles (p_varsFiles play) hosts s1).2).
  apply (keeps_trans _ s1 s2).
  { unfold s2. generalize s1. generalize (p_varsFiles play) as l. induction l as [|f l IH]; intros s0;
      cbn [loadVarsFiles]; [reflexivity|]. rewrite bind_run. etrans; [apply grows_loadVarsFile | apply IH]. }
  destruct ((if p_gatherFacts play then gatherFacts (pe_log e) hosts else mret None) s2) as [fe s3] eqn:Ef.
  apply (keeps_trans _ s2 s3).
  { destruct (p_gatherFacts play); [|by injection Ef as _ <-].
    pose proof (grows_gatherFacts (pe_log e) hosts s2) as H. by rewrite Ef in H. }
  destruct fe; [by apply keeps_same | apply keeps_execBatches].
Qed.

(** ** Every playbook ends *)

Fixpoint depthRole (r : Role) : nat :=
  max (depthBlocks (r_blocks r)) (foldr (fun d n => max (depthRole d) n) 0%nat (r_dependencies r)).

Definition depthRoles (rs : list Role) : nat := foldr (fun d n => max (depthRole d) n) 0%nat rs.

Definition depthPlay (p : Play) : nat :=
  max (max (depthBlocks (p_preTasks p)) (depthBlocks (p_tasks p)))
    (max (depthBlocks (p_postTasks p)) (depthRoles (p_roles p))).

Definition depthPlaybook (ps : list Play) : nat := foldr (fun p n => max (depthPlay p) n) 0%nat ps.

(** The names a playbook includes. *)
Fixpoint includesRole (r : Role) : list string :=
  includesBlocks (r_blocks r) ++ foldr (fun d l => includesRole d ++ l) [] (r_dependencies r).

Definition includesRoles (rs : list Role) : list string := foldr (fun d l => includesRole d ++ l) [] rs.

Definition includesPlay (p : Play) : list string :=
  includesBlocks (p_preTasks p) ++ includesBlocks (p_tasks p) ++ includesBlocks (p_postTasks p)
  ++ includesRoles (p_roles p).

Definition includesPlaybook (ps : list Play) : list string := concat (includesPlay <$> ps).

Section ending.
Context (lists : list (list Block)) (names : list string) (D fuel : nat).
Hypothesis Hload : forall f bs, loadInclude f = Ok bs -> bs ∈ lists /\ forallb flatBlock bs = true.
Hypothesis Hnames : forall bs, bs ∈ lists -> includesBlocks bs ⊆ names.
Hypothesis Hdeep : forall bs, bs ∈ lists -> (depthBlocks bs <= D)%nat.
Hypothesis Hroles : forall r bs, loadRoleTasks r = Ok bs -> bs ∈ lists.

Definition fits (d : nat) (l : list string) : Prop := (max d D + length names + D < fuel)%nat /\ l ⊆ names.

Lemma ends_bind (o : oc) (k : option string * state -> oc) :
  ends o -> (forall r, ends (k r)) -> ends (o ≫= k).
Proof. destruct o as [r|]; [|done]. intros _ H. apply H. Qed.

Lemma fits_part d l d' l' : (d' <= d)%nat -> l' ⊆ l -> fits d l -> fits d' l'.
Proof. unfold fits. intros H1 H2 [H3 H4]. split; [lia | by etrans]. Qed.

#[local] Abbreviation fitsBlocks bs := (fits (depthBlocks bs) (includesBlocks bs)).
#[local] Abbreviation fitsRoles rs := (fits (depthRoles rs) (includesRoles rs)).

Lemma ends_blocks e bs s : be_includeStack e = [] -> fitsBlocks bs -> ends (ExecBlocks fuel e bs s).
Proof using Hload Hnames Hdeep.
  intros He [Hf Hi]. apply (any_ends lists names D Hload Hnames Hdeep); [|done|lia].
  rewrite He. split; [constructor | by intros x Hx%elem_of_nil].
Qed.

Lemma ends_execRole be hosts role s : be_includeStack be = [] -> fits (depthRole role) (includesRole role) ->
  ends (execRole fuel be hosts role s).
Proof using Hload Hnames Hdeep Hroles.
  intros Hbe. revert s. induction role as [role IH] using role_induction. intros s Hd.
  rewrite execRole_unfold.
  assert (fitsBlocks (r_blocks role)) as Hb by (revert Hd; apply fits_part; [|]; destruct role; cbn; [lia | set_solver]).
  assert (fitsRoles (r_dependencies role)) as Hds
    by (revert Hd; apply fits_part; destruct role; cbn; unfold depthRoles, includesRoles; [lia | set_solver]).
  apply ends_bind.
  - generalize (mergeRoleVars hosts role s).2. revert Hds.
    induction IH as [|dep deps Hdep _ IHd]; intros Hds s1; cbn [depLoop]; [done|].
    apply ends_bind.
    + apply Hdep. revert Hds. apply fits_part; cbn; [lia | set_solver].
    + intros [[er|] s2]; [done|]. apply IHd. revert Hds. apply fits_part; cbn; [unfold depthRoles; lia|].
      unfold includesRoles. set_solver.
  - intros [[er|] s1]; [done|]. destruct (loadRoleTasks (r_role role)) as [bs|] eqn:El; [|done].
    apply Hroles in El. apply ends_blocks; [done|]. destruct (r_blocks role) as [|b l]; [|done].
    destruct Hb as [Hb _]. assert (Hbd := Hdeep _ El). split; [lia | by apply Hnames].
Qed.

Lemma ends_andThen (o : oc) k : ends o -> (forall s, ends (k s)) -> ends (andThen o k).
Proof. intros H1 H2. apply ends_bind; [done|]. intros [[er|] s]; [done | apply H2]. Qed.

Lemma ends_phase e be header pre bs s : be_includeStack be = [] -> fitsBlocks bs ->
  ends (execBatchTaskPhase fuel e be header pre bs s).
Proof using Hload Hnames Hdeep.
  intros Hbe Hf. unfold execBatchTaskPhase. destruct bs; [done|].
  apply ends_bind; [by apply ends_blocks|]. by intros [[er|] s1].
Qed.

Lemma ends_roles e be hosts roles s : be_includeStack be = [] -> fitsRoles roles ->
  ends (execBatchRoles fuel e be hosts roles s).
Proof using Hload Hnames Hdeep Hroles.
  intros Hbe. revert s. induction roles as [|r roles IH]; intros s Hf; cbn [execBatchRoles]; [done|].
  apply ends_bind.
  - apply ends_execRole; [done|]. revert Hf. apply fits_part; cbn; [lia | set_solver].
  - intros [[er|] s1]; [done|]. apply IH. revert Hf. apply fits_part; cbn; [unfold depthRoles; lia|].
    unfold includesRoles. set_solver.
Qed.

Lemma ends_execBatches e play plan s : fits (depthPlay play) (includesPlay play) ->
  ends (execBatches fuel e play plan s).
Proof using Hload Hnames Hdeep Hroles.
  intros Hf. revert s. induction plan as [|pp plan IH]; intros s; cbn [execBatches]; [done|].
  assert (Hpart : forall d l, (d <= depthPlay play)%nat -> l ⊆ includesPlay play -> fits d l)
    by (intros d l H1 H2; by eapply fits_part).
  unfold depthPlay, includesPlay in Hpart. apply ends_andThen; [|exact IH]. unfold execBatch.
  apply ends_andThen; [apply ends_phase; [done|]; apply Hpart; [lia | set_solver]|]. intros s1.
  apply ends_andThen; [apply ends_roles; [done|]; apply Hpart; [lia | set_solver]|]. intros s2.
  apply ends_andThen; [apply ends_phase; [done|]; apply Hpart; [lia | set_solver]|]. intros s3.
  apply ends_phase; [done|]; apply Hpart; [lia | set_solver].
Qed.

Lemma ends_execPlay e i play s : fits (depthPlay play) (includesPlay play) -> ends (execPlay fuel e i play s).
Proof using Hload Hnames Hdeep Hroles.
  intros Hf. unfold execPlay. destruct (PlanPlay _ _ _ _) as [[|pp plan]|]; [done| |done].
  destruct (initConnectors _ _ s) as [[m|] s1]; [done|].
  apply ends_bind; [|by intros [er s2]]. unfold runPlay.
  match goal with |- ends (let '(_, _) := ?x in _) => destruct x as [[m|] s3] end; [done|].
  by apply ends_execBatches.
Qed.

Lemma ends_executePlays e i plays s : fits (depthPlaybook plays) (includesPlaybook plays) ->
  executePlays fuel e i plays s <> None.
Proof using Hload Hnames Hdeep Hroles.
  revert i s. induction plays as [|p plays IH]; intros i s Hf; cbn [executePlays]; [done|].
  set (s1 := (pemit _ _ _).2). pose proof (ends_execPlay e i p s1) as He.
  destruct (execPlay fuel e i p s1) as [[[m|] s2]|]; [done| |].
  - apply IH. revert Hf. apply fits_part; cbn; [unfold depthPlaybook; lia|]. unfold includesPlaybook. set_solver.
  - exfalso. apply He; [|done]. revert Hf. apply fits_part; cbn; [lia | unfold includesPlaybook; cbn; set_solver].
Qed.

End ending.

End play.

Lemma loadRoleTasks_list {W Conn : Type} {E : Engine W Conn} disk norm r bs : finiteSource disk norm ->
  loadRoleTasks r = Ok bs -> bs ∈ taskLists disk.
Proof.
  intros Hd. unfold loadRoleTasks. destruct (ReadFile _) as [data|] eqn:Er; [|done].
  destruct (unmarshalBlocks data) as [l|] eqn:Eu; [|done]. destruct (ValidateBlocks l); [done|]. intros [= ->].
  by eapply taskLists_read.
Qed.

(** The deepest task list of the project, and the names it and the playbook
    include files by. *)
Definition deepest (lists : list (list Block)) : nat := foldr (fun bs n => max (depthBlocks bs) n) 0%nat lists.

Definition allNames (lists : list (list Block)) (plays : list Play) : list string :=
  includesPlaybook plays ++ concat (includesBlocks <$> lists).

Definition enoughFuel {W Conn : Type} {E : Engine W Conn} (disk : gmap string string) (plays : list Play) : nat :=
  let D := deepest (taskLists disk) in
  S (max (depthPlaybook plays) D + length (allNames (taskLists disk) plays) + D).

Lemma deepest_elem lists bs : bs ∈ lists -> (depthBlocks bs <= deepest lists)%nat.
Proof. unfold deepest. induction 1; cbn [foldr]; lia. Qed.

(** C36: every playbook run ends. Take a source of files under whatever
    normalisation of names, as the two of the project, which join the name
    to their base directory and clean the path: when the files are finitely
    many and those that can be included keep their own [include_tasks] out
    of block / rescue / always sections, then a whole playbook (its plays,
    their batches, roles with dependencies, pre-, post- and main tasks)
    always reaches a result, include cycles among the files or not, however
    many names a file has. The nesting it needs is bounded by the deepest
    list of the playbook and of the files and by the number of includes in
    them. *)
Theorem playbook_terminates {W Conn : Type} {E : Engine W Conn} (disk : gmap string string)
  (norm : string -> string) e plays (s : St W Conn) :
  finiteSource disk norm ->
  (forall f bs, loadInclude f = Ok bs -> forallb flatBlock bs = true) ->
  exists res s', Execute (enoughFuel disk plays) e plays s = Some (res, s').
Proof.
  intros Hd Hf. destruct (Execute _ e plays s) as [[res s']|] eqn:Ex; [by exists res, s'|].
  exfalso. revert Ex. unfold enoughFuel. set (lists := taskLists disk).
  apply (ends_executePlays lists (allNames lists plays) (deepest lists)).
  - intros f bs Hl. split; [by eapply loadInclude_list | by eapply Hf].
  - intros bs Hin x Hx. unfold allNames. apply elem_of_app. right. apply elem_of_concat_fmap. by exists bs.
  - apply deepest_elem.
  - intros r bs Hl. by eapply loadRoleTasks_list.
  - split; [lia|]. intros x Hx. apply elem_of_app. by left.
Qed.

Definition wPE : PlaybookExecutor := mkPE wInv true true [] [] false.
Definition wPlay2 : Play :=
  mkPlay "" wBase [] ["h1"] false [] [] [] [] [] [dInclude "././a.yml"] false (SpecFloat.S754_zero false) [] "" "".

Lemma playbook_terminates_witness :
  exists res s', Execute (E := projectEngine cycleDisk cycleParse) 7 wPE [wPlay2] (initial wPE 0) = Some (res, s').
Proof.
  apply (playbook_terminates (E := projectEngine cycleDisk cycleParse) cycleDisk (pathJoin "/p") wPE [wPlay2] (initial wPE 0)).
  - apply projectEngine_finite.
  - intros f bs. unfold loadInclude. cbn. destruct (LocalSource_ReadFile _ _ f) as [data|]; [|done].
    unfold cycleParse. destruct (data =s "A"); [by intros [= <-]|]. destruct (data =s "B"); [by intros [= <-] | done].
Defined.

(** Connections do not outlive their play: once the connections of a play
    are up, however the play ends (success, a failed task, failed fact
    gathering), every host of the play still has one when the teardown
    starts, and the teardown closes every connection registered by then,
    those opened on the way for [delegate_to] targets included, and leaves
    the registry empty. *)
Lemma play_closes_connections {W Conn : Type} {E : Engine W Conn} fuel e i play (s s0 s' : St W Conn)
  plan err :
  PlanPlay (envOf (st_world s)) (New (pe_inventory e)) i play = Ok plan -> plan <> [] ->
  initConnectors (concat (pp_hosts <$> plan)) play s = (None, s0) ->
  execPlay fuel e i play s = Some (err, s') ->
  exists s1,
    st_conns s0 ⊆ st_conns s1 /\
    (forall h, h ∈ concat (pp_hosts <$> plan) -> is_Some (st_conns s1 !! h)) /\
    st_world s' = foldl (fun w c => connClose c w) (st_world s1) (snd <$> map_to_list (st_conns s1)) /\
    st_conns s' = ∅.
Proof.
  intros Hp Hne Hi. unfold execPlay. rewrite Hp. destruct plan as [|pp plan]; [done|].
  rewrite Hi. pose proof (keeps_runPlay fuel e play (pp :: plan) (concat (pp_hosts <$> pp :: plan)) s0) as Hk.
  destruct (runPlay _ _ _ _ _ s0) as [[er s1]|]; [|done]. cbn. intros [= <- <-].
  exists s1. split; [exact Hk|]. split; [|done].
  intros h Hh. destruct (proj2 (initConnectors_conns _ _ _ _ Hi) h Hh) as [c Hc].
  exists c. by eapply lookup_weaken.
Qed.

Definition wPlay1 : Play :=
  mkPlay "" wBase [] ["web"] false [] [] [] [] [] [dBlock "false"] false (SpecFloat.S754_zero false) [] "" "".

(** The demonstration engine, whose world counts open connections. *)
Definition connEngine : Engine Z unit := {|
  envOf _ := wEnv;
  tmplExec := tmplExec (Engine := demoEngine);
  sprint := sprint (Engine := demoEngine);
  decodeJSON := decodeJSON (Engine := demoEngine);
  decodeYAML := decodeYAML (Engine := demoEngine);
  FindModule n := if n =s "false" then Some (fun o v w => (("", "", Some (mkModErr "no" None)), (v, w, [])))
                  else None;
  waitDelay := waitDelay (Engine := demoEngine);
  nowMs := nowMs (Engine := demoEngine);
  schedule := schedule (Engine := demoEngine);
  newConnector h _ w := (if h =s "h2" then Err "refused" else Ok tt, w);
  connInit _ w := (None, w + 1);
  connClose _ w := w - 1;
  ReadFile := ReadFile (Engine := demoEngine);
  unmarshalBlocks := unmarshalBlocks (Engine := demoEngine);
  unmarshalVars := unmarshalVars (Engine := demoEngine)
|}.

(** When the connections of a play cannot all be opened, the ones opened
    before the failure are neither closed nor taken off the registry: the
    teardown is deferred only after [initConnectors] has succeeded. *)
Lemma init_failure_leaks :
  exists inv play err s',
    execPlay (E := connEngine) 3 (mkPE inv true true [] [] false) 0 play
      (initial (mkPE inv true true [] [] false) 0) = Some (Some err, s') /\
    st_world s' = 1 /\ st_conns s' = {["h1" := tt]}.
Proof.
  exists (mkInventory ∅ ∅ {["web" := mkGroup [] ["h1"; "h2"] ∅]}), wPlay1.
  eexists _, _. split; [vm_compute; reflexivity|]. split; vm_compute; reflexivity.
Qed.

End AnsiblePlay.
