(* ===== verification/IamDb.v ===== *)
(** * IAM tables and the SQL statements over them

    The tables of [pkg/db/migrations] that the IAM stores read and write,
    with their keys, foreign keys and check constraints, and one definition
    per statement of [pkg/db/generated] those stores run. A statement maps
    the sequences and the tables to a result or a driver error; a failed
    statement leaves the tables as they were but has drawn its sequence
    value, as PostgreSQL does. Timestamps are left out: no modelled code
    reads them. Rows of statements without ORDER BY come in an unspecified
    order, here the order of the finite map. *)

From S2P Require Import Prelude Rbac.

Module IamDb.
Import Rbac.

(** ** Rows *)

Record User := mkUser {
  uUsername : string; uEmail : string; uDisplayName : string; uPhone : string;
  uAvatarUrl : string; uStatus : string; uPasswordHash : string; uBuiltin : bool
}.

Record Workspace := mkWorkspace {
  wsName : string; wsDisplayName : string; wsDescription : string;
  wsOwnerID : Z; wsStatus : string; wsCreatedBy : option Z
}.

Record Namespace := mkNamespace {
  nsName : string; nsDisplayName : string; nsDescription : string;
  nsWorkspaceID : Z; nsOwnerID : Z; nsVisibility : string;
  nsMaxMembers : Z; nsStatus : string; nsCreatedBy : option Z
}.

Record Role := mkRole {
  rName : string; rDisplayName : string; rDescription : string; rScope : string;
  rBuiltin : bool; rWorkspaceID : option Z; rNamespaceID : option Z
}.

Record Binding := mkBinding {
  bUserID : Z; bRoleID : Z; bScope : string;
  bWorkspaceID : option Z; bNamespaceID : option Z; bIsOwner : bool
}.

Record Identity := mkIdentity {
  iUserID : Z; iProvider : string; iSubject : string; iEmail : string
}.

(** The tenancy columns of [hosts], which has no foreign keys. *)
Record HostRow := mkHost { hWorkspaceID : option Z; hNamespaceID : option Z }.

Record PermRow := mkPerm { pMethod : string; pPath : string; pDescription : string }.

Record RefreshRow := mkRefresh { rtUserID : Z; rtRevoked : bool }.

Record DB := mkDB {
  users : gmap Z User;
  workspaces : gmap Z Workspace;
  namespaces : gmap Z Namespace;
  roles : gmap Z Role;
  rules : gset (Z * string);
  bindings : gmap Z Binding;
  identities : gmap Z Identity;
  hosts : gmap Z HostRow;
  permissions : gmap (string * string) PermRow;
  refreshTokens : gmap Z RefreshRow
}.

Definition set_users (t : gmap Z User) (d : DB) : DB :=
  mkDB t (workspaces d) (namespaces d) (roles d) (rules d) (bindings d) (identities d)
    (hosts d) (permissions d) (refreshTokens d).
Definition set_workspaces (t : gmap Z Workspace) (d : DB) : DB :=
  mkDB (users d) t (namespaces d) (roles d) (rules d) (bindings d) (identities d)
    (hosts d) (permissions d) (refreshTokens d).
Definition set_namespaces (t : gmap Z Namespace) (d : DB) : DB :=
  mkDB (users d) (workspaces d) t (roles d) (rules d) (bindings d) (identities d)
    (hosts d) (permissions d) (refreshTokens d).
Definition set_roles (t : gmap Z Role) (d : DB) : DB :=
  mkDB (users d) (workspaces d) (namespaces d) t (rules d) (bindings d) (identities d)
    (hosts d) (permissions d) (refreshTokens d).
Definition set_rules (t : gset (Z * string)) (d : DB) : DB :=
  mkDB (users d) (workspaces d) (namespaces d) (roles d) t (bindings d) (identities d)
    (hosts d) (permissions d) (refreshTokens d).
Definition set_bindings (t : gmap Z Binding) (d : DB) : DB :=
  mkDB (users d) (workspaces d) (namespaces d) (roles d) (rules d) t (identities d)
    (hosts d) (permissions d) (refreshTokens d).
Definition set_identities (t : gmap Z Identity) (d : DB) : DB :=
  mkDB (users d) (workspaces d) (namespaces d) (roles d) (rules d) (bindings d) t
    (hosts d) (permissions d) (refreshTokens d).
Definition set_permissions (t : gmap (string * string) PermRow) (d : DB) : DB :=
  mkDB (users d) (workspaces d) (namespaces d) (roles d) (rules d) (bindings d) (identities d)
    (hosts d) t (refreshTokens d).
Definition set_refresh (t : gmap Z RefreshRow) (d : DB) : DB :=
  mkDB (users d) (workspaces d) (namespaces d) (roles d) (rules d) (bindings d) (identities d)
    (hosts d) (permissions d) t.

Definition emptyDB : DB := mkDB ∅ ∅ ∅ ∅ ∅ ∅ ∅ ∅ ∅ ∅.

(** ** Statements *)

(** [pgx.ErrNoRows], an error of the server with its SQLSTATE, or a failure
    of the connection. *)
Inductive SqlErr :=
| ErrNoRows
| PgError (code : string)
| ErrConn.

Definition string_data_right_truncation : string := "22001".
Definition foreign_key_violation : string := "23503".
Definition unique_violation : string := "23505".
Definition check_violation : string := "23514".

(** The BIGSERIAL sequences. *)
Inductive Table := TUsers | TWorkspaces | TNamespaces | TRoles | TBindings | TIdentities.

#[export] Instance Table_eq_dec : EqDecision Table.
Proof. solve_decision. Defined.

Definition Seqs : Type := Table -> Z.

Definition nextval (t : Table) (q : Seqs) : Z * Seqs :=
  (q t + 1, fun t' => if decide (t = t') then q t + 1 else q t').

Definition Stmt (A : Type) : Type := Seqs -> DB -> result SqlErr (A * DB) * Seqs.

(** A SELECT. *)
Definition query {A} (f : DB -> result SqlErr A) : Stmt A :=
  fun q d => (x <-! f d ;; Ok (x, d), q).

(** An UPDATE or DELETE. *)
Definition exec {A} (f : DB -> result SqlErr (A * DB)) : Stmt A := fun q d => (f d, q).

(** An INSERT: the row's id is drawn first. *)
Definition insertInto {A} (t : Table) (f : Z -> DB -> result SqlErr (A * DB)) : Stmt A :=
  fun q d => let '(id, q') := nextval t q in (f id d, q').

(** [QueryRow(...).Scan]: no row is [pgx.ErrNoRows]. *)
Definition one {A} (o : option A) : result SqlErr A :=
  match o with Some a => Ok a | None => Err ErrNoRows end.

(** A WHERE clause over a table. *)
Definition rowsWhere {A} (P : Z -> A -> bool) (m : gmap Z A) : gmap Z A :=
  filter (fun p => P p.1 p.2 = true) m.

Definition someRow {A} (P : Z -> A -> bool) (m : gmap Z A) : bool :=
  negb (bool_decide (rowsWhere P m = ∅)).

Definition firstRow {A} (P : Z -> A -> bool) (m : gmap Z A) : option (Z * A) :=
  head (map_to_list (rowsWhere P m)).

Definition countRows {A} (P : Z -> A -> bool) (m : gmap Z A) : Z :=
  Z.of_nat (size (rowsWhere P m)).

Definition deleteWhere {A} (P : Z -> A -> bool) (m : gmap Z A) : gmap Z A :=
  filter (fun p => P p.1 p.2 = false) m.

(** SQL equality with a nullable column: NULL equals nothing. *)
Definition colEq (c : option Z) (v : Z) : bool :=
  match c with Some x => x =? v | None => false end.

Definition isNull (c : option Z) : bool := match c with None => true | Some _ => false end.

(** [id = ANY(ids)]. *)
Definition anyID (ids : list Z) (id : Z) : bool := existsb (Z.eqb id) ids.

(** ** UTF-8 lengths

    [utf8.RuneCountInString] and the length PostgreSQL checks for
    VARCHAR(n): a well-formed sequence counts once, any other byte once. *)

Definition inRange (lo hi : N) (c : ascii) : bool :=
  ((lo <=? N_of_ascii c) && (N_of_ascii c <=? hi))%N.

Definition contByte : ascii -> bool := inRange 128 191.

(** The length in bytes of the first rune. *)
Definition runeLen (s : string) : nat :=
  match s with
  | String a (String b r) =>
      if inRange 194 223 a && contByte b then 2%nat
      else match r with
      | String c r' =>
          if (inRange 224 224 a && inRange 160 191 b && contByte c)
             || (inRange 225 236 a && contByte b && contByte c)
             || (inRange 237 237 a && inRange 128 159 b && contByte c)
             || (inRange 238 239 a && contByte b && contByte c) then 3%nat
          else match r' with
          | String d _ =>
              if ((inRange 240 240 a && inRange 144 191 b)
                  || (inRange 241 243 a && contByte b)
                  || (inRange 244 244 a && inRange 128 143 b))
                 && contByte c && contByte d then 4%nat
              else 1%nat
          | EmptyString => 1%nat
          end
      | EmptyString => 1%nat
      end
  | String _ EmptyString => 1%nat
  | EmptyString => 0%nat
  end.

Fixpoint runeCountFrom (skip : nat) (s : string) : nat :=
  match s with
  | EmptyString => 0
  | String _ s' =>
      match skip with
      | S k => runeCountFrom k s'
      | O => S (runeCountFrom (runeLen s - 1) s')
      end
  end.

Definition RuneCountInString (s : string) : Z := Z.of_nat (runeCountFrom 0 s).

Definition fits (n : Z) (s : string) : bool := RuneCountInString s <=? n.

(** ** [users] *)

Definition userFits (u : User) : bool :=
  fits 255 (uUsername u) && fits 255 (uEmail u) && fits 255 (uDisplayName u)
    && fits 50 (uPhone u) && fits 512 (uAvatarUrl u) && fits 20 (uStatus u).

(** The unique keys: username, email, and the phone when there is one. *)
Definition userClash (u u' : User) : bool :=
  (uUsername u =s uUsername u') || (uEmail u =s uEmail u')
    || (negb (uPhone u =s "") && (uPhone u =s uPhone u')).

Definition storeUser (id : Z) (u : User) (d : DB) : result SqlErr ((Z * User) * DB) :=
  if negb (userFits u) then Err (PgError string_data_right_truncation)
  else if someRow (fun id' u' => negb (id' =? id) && userClash u u') (users d)
  then Err (PgError unique_violation)
  else Ok ((id, u), set_users (<[id := u]> (users d)) d).

Definition CreateUser (username email displayName phone avatarUrl status : string) : Stmt (Z * User) :=
  insertInto TUsers (fun id => storeUser id
    (mkUser username email displayName phone avatarUrl status "" false)).

Definition withID {A} (id : Z) (o : option A) : option (Z * A) := a ← o; Some (id, a).

Definition GetUserByID (id : Z) : Stmt (Z * User) :=
  query (fun d => one (withID id (users d !! id))).

Definition GetUserByUsername (username : string) : Stmt (Z * User) :=
  query (fun d => one (firstRow (fun _ u => uUsername u =s username) (users d))).

Definition GetUserByEmail (email : string) : Stmt (Z * User) :=
  query (fun d => one (firstRow (fun _ u => uEmail u =s email) (users d))).

Definition GetUserForAuth (identifier : string) : Stmt (Z * User) :=
  query (fun d => one (firstRow
    (fun _ u => (uUsername u =s identifier) || (uEmail u =s identifier)) (users d))).

Definition UpdateUser (id : Z) (username email displayName phone avatarUrl status : string)
    : Stmt (Z * User) :=
  exec (fun d =>
    u <-! one (users d !! id) ;;
    storeUser id (mkUser username email displayName phone avatarUrl status
                    (uPasswordHash u) (uBuiltin u)) d).

(** [COALESCE(narg, column)]. *)
Definition coalesce {A} (arg : option A) (column : A) : A := default column arg.

Definition PatchUser (id : Z) (email displayName phone avatarUrl status : option string)
    : Stmt (Z * User) :=
  exec (fun d =>
    u <-! one (users d !! id) ;;
    storeUser id (mkUser (uUsername u) (coalesce email (uEmail u))
                    (coalesce displayName (uDisplayName u)) (coalesce phone (uPhone u))
                    (coalesce avatarUrl (uAvatarUrl u)) (coalesce status (uStatus u))
                    (uPasswordHash u) (uBuiltin u)) d).

Definition alterUser (f : User -> User) (id : Z) (d : DB) : DB :=
  set_users (alter f id (users d)) d.

Definition SetPasswordHash (id : Z) (hash : string) : Stmt unit :=
  exec (fun d =>
    if negb (fits 255 hash) && bool_decide (is_Some (users d !! id))
    then Err (PgError string_data_right_truncation)
    else Ok (tt, alterUser (fun u => mkUser (uUsername u) (uEmail u) (uDisplayName u) (uPhone u)
                                      (uAvatarUrl u) (uStatus u) hash (uBuiltin u)) id d)).

Definition SetUserBuiltin (id : Z) (builtin : bool) : Stmt unit :=
  exec (fun d =>
    Ok (tt, alterUser (fun u => mkUser (uUsername u) (uEmail u) (uDisplayName u) (uPhone u)
                                  (uAvatarUrl u) (uStatus u) (uPasswordHash u) builtin) id d)).

Definition clearCreator (gone : Z -> bool) (c : option Z) : option Z :=
  match c with Some u => if gone u then None else Some u | None => None end.

(** DELETE FROM users: the owner columns restrict, [created_by] is set to
    NULL, role bindings, identities and refresh tokens cascade. *)
Definition deleteUsers (gone : Z -> User -> bool) (d : DB) : result SqlErr (list Z * DB) :=
  let dead := rowsWhere gone (users d) in
  let isDead id := bool_decide (is_Some (dead !! id)) in
  if someRow (fun _ w => isDead (wsOwnerID w)) (workspaces d)
     || someRow (fun _ n => isDead (nsOwnerID n)) (namespaces d)
  then Err (PgError foreign_key_violation)
  else Ok ((map_to_list dead).*1,
    mkDB (deleteWhere gone (users d))
      ((fun w => mkWorkspace (wsName w) (wsDisplayName w) (wsDescription w) (wsOwnerID w)
                   (wsStatus w) (clearCreator isDead (wsCreatedBy w))) <$> workspaces d)
      ((fun n => mkNamespace (nsName n) (nsDisplayName n) (nsDescription n) (nsWorkspaceID n)
                   (nsOwnerID n) (nsVisibility n) (nsMaxMembers n) (nsStatus n)
                   (clearCreator isDead (nsCreatedBy n))) <$> namespaces d)
      (roles d) (rules d)
      (deleteWhere (fun _ b => isDead (bUserID b)) (bindings d))
      (deleteWhere (fun _ i => isDead (iUserID i)) (identities d))
      (hosts d) (permissions d)
      (deleteWhere (fun _ t => isDead (rtUserID t)) (refreshTokens d))).

Definition DeleteUser (id : Z) : Stmt Z :=
  exec (fun d => '(ids, d') <-! deleteUsers (fun id' u => (id' =? id) && negb (uBuiltin u)) d ;;
                 Ok (Z.of_nat (length ids), d')).

Definition DeleteUsersByIDs (ids : list Z) : Stmt (list Z) :=
  exec (deleteUsers (fun id u => anyID ids id && negb (uBuiltin u))).

(** ** [user_identities], [refresh_tokens] *)

Definition CreateUserIdentity (userID : Z) (provider subject email : string) : Stmt (Z * Identity) :=
  insertInto TIdentities (fun id d =>
    let row := mkIdentity userID provider subject email in
    if negb (fits 32 provider && fits 255 subject && fits 255 email)
    then Err (PgError string_data_right_truncation)
    else if someRow (fun _ i => (iProvider i =s provider) && (iSubject i =s subject)) (identities d)
    then Err (PgError unique_violation)
    else if negb (bool_decide (is_Some (users d !! userID))) then Err (PgError foreign_key_violation)
    else Ok ((id, row), set_identities (<[id := row]> (identities d)) d)).

Definition GetUserIdentity (provider subject : string) : Stmt (Z * Identity) :=
  query (fun d => one (firstRow
    (fun _ i => (iProvider i =s provider) && (iSubject i =s subject)) (identities d))).

Definition RevokeRefreshTokensByUserID (userID : Z) : Stmt unit :=
  exec (fun d => Ok (tt, set_refresh
    ((fun t => if rtUserID t =? userID then mkRefresh (rtUserID t) true else t)
       <$> refreshTokens d) d)).

(** ** [workspaces] *)

Definition workspaceFits (w : Workspace) : bool :=
  fits 255 (wsName w) && fits 255 (wsDisplayName w) && fits 20 (wsStatus w).

Definition userExists (d : DB) (id : Z) : bool := bool_decide (is_Some (users d !! id)).
Definition userExistsOrNull (d : DB) (id : option Z) : bool :=
  match id with Some u => userExists d u | None => true end.

Definition storeWorkspace (id : Z) (w : Workspace) (d : DB) : result SqlErr ((Z * Workspace) * DB) :=
  if negb (workspaceFits w) then Err (PgError string_data_right_truncation)
  else if someRow (fun id' w' => negb (id' =? id) && (wsName w =s wsName w')) (workspaces d)
  then Err (PgError unique_violation)
  else if negb (userExists d (wsOwnerID w) && userExistsOrNull d (wsCreatedBy w))
  then Err (PgError foreign_key_violation)
  else Ok ((id, w), set_workspaces (<[id := w]> (workspaces d)) d).

Definition CreateWorkspace (name displayName description : string) (ownerID : Z) (status : string)
    (createdBy : option Z) : Stmt (Z * Workspace) :=
  insertInto TWorkspaces (fun id => storeWorkspace id
    (mkWorkspace name displayName description ownerID status createdBy)).

(** [WorkspaceWithOwnerRow]: the row with its joined names and counts. *)
Record WorkspaceDetail := mkWorkspaceDetail {
  wdID : Z; wdRow : Workspace; wdOwnerUsername : string; wdCreatorName : string;
  wdNamespaceCount : Z; wdMemberCount : Z; wdRoleBindingCount : Z
}.

(** [COALESCE(NULLIF(cu.display_name, ''), cu.username, '')] over the LEFT JOIN. *)
Definition creatorName (d : DB) (createdBy : option Z) : string :=
  match (c ← createdBy; users d !! c) with
  | Some cu => if uDisplayName cu =s "" then uUsername cu else uDisplayName cu
  | None => ""
  end.

Definition bindingsOf (d : DB) (P : Binding -> bool) : gmap Z Binding :=
  rowsWhere (fun _ b => P b) (bindings d).

(** [count(DISTINCT user_id)]. *)
Definition distinctUsers (m : gmap Z Binding) : gset Z :=
  list_to_set ((bUserID ∘ snd) <$> map_to_list m).

Definition inWorkspace (ws : Z) (b : Binding) : bool :=
  (bScope b =s ScopeWorkspace) && colEq (bWorkspaceID b) ws.
Definition inNamespace (ns : Z) (b : Binding) : bool :=
  (bScope b =s ScopeNamespace) && colEq (bNamespaceID b) ns.

Definition CountNamespacesByWorkspaceID' (d : DB) (ws : Z) : Z :=
  countRows (fun _ n => nsWorkspaceID n =? ws) (namespaces d).

Definition workspaceDetail (d : DB) (id : Z) (w : Workspace) (owner creator : string) : WorkspaceDetail :=
  mkWorkspaceDetail id w owner creator (CountNamespacesByWorkspaceID' d id)
    (Z.of_nat (size (distinctUsers (bindingsOf d (inWorkspace id)))))
    (Z.of_nat (size (bindingsOf d (inWorkspace id)))).

(** The inner join drops the row when the owner is missing. *)
Definition GetWorkspaceByID (id : Z) : Stmt WorkspaceDetail :=
  query (fun d => one (
    w ← workspaces d !! id; u ← users d !! wsOwnerID w;
    Some (workspaceDetail d id w (uUsername u) (creatorName d (wsCreatedBy w))))).

(** The name a RETURNING sub-select yields. *)
Definition ownerUsername (d : DB) (id : Z) : string :=
  match users d !! id with Some u => uUsername u | None => "" end.

Definition UpdateWorkspace (id : Z) (name displayName description : string) (ownerID : Z)
    (status : string) : Stmt WorkspaceDetail :=
  exec (fun d =>
    w <-! one (workspaces d !! id) ;;
    '(_, w', d') <-! storeWorkspace id
       (mkWorkspace name displayName description ownerID status (wsCreatedBy w)) d ;;
    Ok (workspaceDetail d' id w' (ownerUsername d' ownerID) "", d')).

Definition PatchWorkspace (id : Z) (name displayName description : option string)
    (ownerID : option Z) (status : option string) : Stmt WorkspaceDetail :=
  exec (fun d =>
    w <-! one (workspaces d !! id) ;;
    '(_, w', d') <-! storeWorkspace id
       (mkWorkspace (coalesce name (wsName w)) (coalesce displayName (wsDisplayName w))
          (coalesce description (wsDescription w)) (coalesce ownerID (wsOwnerID w))
          (coalesce status (wsStatus w)) (wsCreatedBy w)) d ;;
    Ok (workspaceDetail d' id w' (ownerUsername d' (wsOwnerID w')) "", d')).

Definition CountNamespacesByWorkspaceID (ws : Z) : Stmt Z :=
  query (fun d => Ok (CountNamespacesByWorkspaceID' d ws)).

Definition ListAllWorkspaceIDs : Stmt (list Z) :=
  query (fun d => Ok (map_to_list (workspaces d)).*1).

(** ** [namespaces] *)

Definition namespaceFits (n : Namespace) : bool :=
  fits 255 (nsName n) && fits 255 (nsDisplayName n) && fits 20 (nsVisibility n)
    && fits 20 (nsStatus n).

Definition workspaceExists (d : DB) (id : Z) : bool := bool_decide (is_Some (workspaces d !! id)).
Definition namespaceExists (d : DB) (id : Z) : bool := bool_decide (is_Some (namespaces d !! id)).

Definition storeNamespace (id : Z) (n : Namespace) (d : DB) : result SqlErr ((Z * Namespace) * DB) :=
  if negb (namespaceFits n) then Err (PgError string_data_right_truncation)
  else if someRow (fun id' n' => negb (id' =? id) && (nsName n =s nsName n')) (namespaces d)
  then Err (PgError unique_violation)
  else if negb (workspaceExists d (nsWorkspaceID n) && userExists d (nsOwnerID n)
                && userExistsOrNull d (nsCreatedBy n))
  then Err (PgError foreign_key_violation)
  else Ok ((id, n), set_namespaces (<[id := n]> (namespaces d)) d).

Definition CreateNamespace (name displayName description : string) (workspaceID ownerID : Z)
    (visibility : string) (maxMembers : Z) (status : string) (createdBy : option Z)
    : Stmt (Z * Namespace) :=
  insertInto TNamespaces (fun id => storeNamespace id
    (mkNamespace name displayName description workspaceID ownerID visibility maxMembers status
       createdBy)).

(** [NamespaceWithOwnerRow]. *)
Record NamespaceDetail := mkNamespaceDetail {
  ndID : Z; ndRow : Namespace; ndOwnerUsername : string; ndWorkspaceName : string;
  ndCreatorName : string; ndMemberCount : Z; ndRoleBindingCount : Z
}.

Definition membersOf (d : DB) (ns : Z) : gset Z := distinctUsers (bindingsOf d (inNamespace ns)).

Definition namespaceDetail (d : DB) (id : Z) (n : Namespace) (owner workspace creator : string)
    : NamespaceDetail :=
  mkNamespaceDetail id n owner workspace creator (Z.of_nat (size (membersOf d id)))
    (Z.of_nat (size (bindingsOf d (inNamespace id)))).

Definition GetNamespaceByID (id : Z) : Stmt NamespaceDetail :=
  query (fun d => one (
    n ← namespaces d !! id; u ← users d !! nsOwnerID n; w ← workspaces d !! nsWorkspaceID n;
    Some (namespaceDetail d id n (uUsername u) (wsName w) (creatorName d (nsCreatedBy n))))).

Definition workspaceName (d : DB) (id : Z) : string :=
  match workspaces d !! id with Some w => wsName w | None => "" end.

Definition UpdateNamespace (id : Z) (name displayName description : string) (ownerID : Z)
    (visibility : string) (maxMembers : Z) (status : string) : Stmt NamespaceDetail :=
  exec (fun d =>
    n <-! one (namespaces d !! id) ;;
    '(_, n', d') <-! storeNamespace id
       (mkNamespace name displayName description (nsWorkspaceID n) ownerID visibility maxMembers
          status (nsCreatedBy n)) d ;;
    Ok (namespaceDetail d' id n' (ownerUsername d' ownerID) (workspaceName d' (nsWorkspaceID n)) "",
        d')).

Definition PatchNamespace (id : Z) (name displayName description : option string)
    (ownerID : option Z) (visibility : option string) (maxMembers : option Z)
    (status : option string) : Stmt NamespaceDetail :=
  exec (fun d =>
    n <-! one (namespaces d !! id) ;;
    '(_, n', d') <-! storeNamespace id
       (mkNamespace (coalesce name (nsName n)) (coalesce displayName (nsDisplayName n))
          (coalesce description (nsDescription n)) (nsWorkspaceID n)
          (coalesce ownerID (nsOwnerID n)) (coalesce visibility (nsVisibility n))
          (coalesce maxMembers (nsMaxMembers n)) (coalesce status (nsStatus n))
          (nsCreatedBy n)) d ;;
    Ok (namespaceDetail d' id n' (ownerUsername d' (nsOwnerID n'))
          (workspaceName d' (nsWorkspaceID n)) "", d')).

Definition GetNamespaceWorkspaceID (id : Z) : Stmt Z :=
  query (fun d => one (nsWorkspaceID <$> namespaces d !! id)).

Definition CountUsersByNamespaceID (id : Z) : Stmt Z :=
  query (fun d => Ok (Z.of_nat (size (membersOf d id)))).

Definition ListAllNamespaceIDsWithWorkspace : Stmt (list (Z * Z)) :=
  query (fun d => Ok ((fun p => (p.1, nsWorkspaceID p.2)) <$> map_to_list (namespaces d))).

(** ** Cascading deletes *)

(** DELETE FROM roles: rules and bindings of the role cascade. *)
Definition deleteRoles (gone : Z -> Role -> bool) (d : DB) : DB :=
  let dead := rowsWhere gone (roles d) in
  let isDead id := bool_decide (is_Some (dead !! id)) in
  set_bindings (deleteWhere (fun _ b => isDead (bRoleID b)) (bindings d))
    (set_rules (filter (fun p => isDead p.1 = false) (rules d))
       (set_roles (deleteWhere gone (roles d)) d)).

Definition idIn (gone : Z -> bool) (c : option Z) : bool :=
  match c with Some i => gone i | None => false end.

(** DELETE FROM namespaces: the namespace's roles and bindings cascade. *)
Definition deleteNamespaces (gone : Z -> Namespace -> bool) (d : DB) : list Z * DB :=
  let dead := rowsWhere gone (namespaces d) in
  let isDead id := bool_decide (is_Some (dead !! id)) in
  let d1 := deleteRoles (fun _ r => idIn isDead (rNamespaceID r)) d in
  ((map_to_list dead).*1,
   set_bindings (deleteWhere (fun _ b => idIn isDead (bNamespaceID b)) (bindings d1))
     (set_namespaces (deleteWhere gone (namespaces d)) d1)).

(** DELETE FROM workspaces: namespaces restrict, roles and bindings cascade. *)
Definition deleteWorkspaces (gone : Z -> Workspace -> bool) (d : DB)
    : result SqlErr (list Z * DB) :=
  let dead := rowsWhere gone (workspaces d) in
  let isDead id := bool_decide (is_Some (dead !! id)) in
  if someRow (fun _ n => isDead (nsWorkspaceID n)) (namespaces d)
  then Err (PgError foreign_key_violation)
  else
    let d1 := deleteRoles (fun _ r => idIn isDead (rWorkspaceID r)) d in
    Ok ((map_to_list dead).*1,
        set_bindings (deleteWhere (fun _ b => idIn isDead (bWorkspaceID b)) (bindings d1))
          (set_workspaces (deleteWhere gone (workspaces d)) d1)).

Definition DeleteRole (id : Z) : Stmt Z :=
  exec (fun d => Ok (countRows (fun id' _ => id' =? id) (roles d),
                     deleteRoles (fun id' _ => id' =? id) d)).

Definition DeleteNamespace (id : Z) : Stmt Z :=
  exec (fun d => let '(ids, d') := deleteNamespaces (fun id' _ => id' =? id) d in
                 Ok (Z.of_nat (length ids), d')).

Definition DeleteNamespacesByIDs (ids : list Z) : Stmt (list Z) :=
  exec (fun d => Ok (deleteNamespaces (fun id _ => anyID ids id) d)).

Definition DeleteNamespacesByWorkspaceID (ws : Z) : Stmt unit :=
  exec (fun d => Ok (tt, (deleteNamespaces (fun _ n => nsWorkspaceID n =? ws) d).2)).

Definition DeleteNamespacesByWorkspaceIDs (wss : list Z) : Stmt unit :=
  exec (fun d => Ok (tt, (deleteNamespaces (fun _ n => anyID wss (nsWorkspaceID n)) d).2)).

Definition DeleteWorkspace (id : Z) : Stmt Z :=
  exec (fun d => '(ids, d') <-! deleteWorkspaces (fun id' _ => id' =? id) d ;;
                 Ok (Z.of_nat (length ids), d')).

Definition DeleteWorkspacesByIDs (ids : list Z) : Stmt (list Z) :=
  exec (deleteWorkspaces (fun id _ => anyID ids id)).

(** ** Deletion pre-checks *)

Definition CountNamespaceBlockingResources (ns : Z) : Stmt (list (string * Z)) :=
  query (fun d =>
    let n := countRows (fun _ h => colEq (hNamespaceID h) ns) (hosts d) in
    Ok (if 0 <? n then [("host", n)] else [])).

Definition CountWorkspaceBlockingResources (ws : Z) : Stmt (list (string * Z)) :=
  query (fun d =>
    let inWs id := match namespaces d !! id with Some n => nsWorkspaceID n =? ws | None => false end in
    let n := countRows (fun _ h => colEq (hWorkspaceID h) ws || idIn inWs (hNamespaceID h)) (hosts d) in
    Ok (if 0 <? n then [("host", n)] else [])).

(** ** [roles] and [role_permission_rules] *)

Definition roleFits (r : Role) : bool :=
  fits 255 (rName r) && fits 255 (rDisplayName r) && fits 20 (rScope r).

(** [chk_role_scope]. *)
Definition roleScopeOk (r : Role) : bool :=
  ((rScope r =s ScopePlatform) && isNull (rWorkspaceID r) && isNull (rNamespaceID r))
    || ((rScope r =s ScopeWorkspace) && negb (isNull (rWorkspaceID r)) && isNull (rNamespaceID r))
    || ((rScope r =s ScopeNamespace) && negb (isNull (rNamespaceID r))).

Definition sameID (a b : option Z) : bool := match a with Some x => colEq b x | None => false end.

(** [uk_roles_platform], [uk_roles_workspace], [uk_roles_namespace]. *)
Definition roleClash (r r' : Role) : bool :=
  (rName r =s rName r') && (rScope r =s rScope r')
    && ((rScope r =s ScopePlatform)
        || ((rScope r =s ScopeWorkspace) && sameID (rWorkspaceID r) (rWorkspaceID r'))
        || ((rScope r =s ScopeNamespace) && sameID (rNamespaceID r) (rNamespaceID r'))).

Definition existsOrNull (ex : Z -> bool) (c : option Z) : bool :=
  match c with Some i => ex i | None => true end.

Definition roleRefsOk (d : DB) (r : Role) : bool :=
  existsOrNull (workspaceExists d) (rWorkspaceID r)
    && existsOrNull (namespaceExists d) (rNamespaceID r).

Definition CreateRole (name displayName description scope : string) (builtin : bool)
    (workspaceID namespaceID : option Z) : Stmt (Z * Role) :=
  insertInto TRoles (fun id d =>
    let r := mkRole name displayName description scope builtin workspaceID namespaceID in
    if negb (roleFits r) then Err (PgError string_data_right_truncation)
    else if negb (roleScopeOk r) then Err (PgError check_violation)
    else if someRow (fun _ r' => roleClash r r') (roles d) then Err (PgError unique_violation)
    else if negb (roleRefsOk d r) then Err (PgError foreign_key_violation)
    else Ok ((id, r), set_roles (<[id := r]> (roles d)) d)).

Definition GetRoleByID (id : Z) : Stmt (Z * Role) :=
  query (fun d => one (withID id (roles d !! id))).

Definition GetRoleByName (name : string) : Stmt (Z * Role) :=
  query (fun d => one (firstRow
    (fun _ r => (rName r =s name) && (rScope r =s ScopePlatform)) (roles d))).

Definition GetRoleByNameAndWorkspace (name : string) (ws : Z) : Stmt (Z * Role) :=
  query (fun d => one (firstRow
    (fun _ r => (rName r =s name) && (rScope r =s ScopeWorkspace) && colEq (rWorkspaceID r) ws)
    (roles d))).

Definition GetRoleByNameAndNamespace (name : string) (ns : Z) : Stmt (Z * Role) :=
  query (fun d => one (firstRow
    (fun _ r => (rName r =s name) && (rScope r =s ScopeNamespace) && colEq (rNamespaceID r) ns)
    (roles d))).

Definition GetGlobalRoleIDByNameAndScope (name scope : string) : Stmt Z :=
  query (fun d => one (fst <$> firstRow
    (fun _ r => (rName r =s name) && (rScope r =s scope) && isNull (rWorkspaceID r)
                && isNull (rNamespaceID r)) (roles d))).

Definition GetWorkspaceRoleIDByName (name : string) (ws : Z) : Stmt Z :=
  query (fun d => one (fst <$> firstRow
    (fun _ r => (rName r =s name) && colEq (rWorkspaceID r) ws) (roles d))).

Definition GetNamespaceRoleIDByName (name : string) (ns : Z) : Stmt Z :=
  query (fun d => one (fst <$> firstRow
    (fun _ r => (rName r =s name) && colEq (rNamespaceID r) ns) (roles d))).

Definition UpdateRole (id : Z) (displayName description : string) : Stmt (Z * Role) :=
  exec (fun d =>
    r <-! one (roles d !! id) ;;
    if negb (fits 255 displayName) then Err (PgError string_data_right_truncation)
    else
      let r' := mkRole (rName r) displayName description (rScope r) (rBuiltin r)
                  (rWorkspaceID r) (rNamespaceID r) in
      Ok ((id, r'), set_roles (<[id := r']> (roles d)) d)).

(** The upsert names the platform index; with a scope other than 'platform'
    the row's nullable ids violate [chk_role_scope]. *)
Definition UpsertRole (name displayName description scope : string) (builtin : bool)
    : Stmt (Z * Role) :=
  insertInto TRoles (fun id d =>
    let r := mkRole name displayName description scope builtin None None in
    if negb (roleFits r) then Err (PgError string_data_right_truncation)
    else if negb (roleScopeOk r) then Err (PgError check_violation)
    else match firstRow (fun _ r' => roleClash r r') (roles d) with
         | Some (id0, r0) =>
             let r' := mkRole (rName r0) displayName description (rScope r0) (rBuiltin r0)
                         (rWorkspaceID r0) (rNamespaceID r0) in
             Ok ((id0, r'), set_roles (<[id0 := r']> (roles d)) d)
         | None => Ok ((id, r), set_roles (<[id := r]> (roles d)) d)
         end).

Definition AddRolePermissionRule (roleID : Z) (pattern : string) : Stmt unit :=
  exec (fun d =>
    if negb (fits 255 pattern) then Err (PgError string_data_right_truncation)
    else if bool_decide ((roleID, pattern) ∈ rules d) then Ok (tt, d)
    else if negb (bool_decide (is_Some (roles d !! roleID))) then Err (PgError foreign_key_violation)
    else Ok (tt, set_rules ({[(roleID, pattern)]} ∪ rules d) d)).

Definition DeleteRolePermissionRules (roleID : Z) : Stmt unit :=
  exec (fun d => Ok (tt, set_rules (filter (fun p => p.1 <> roleID) (rules d)) d)).

(** A role's patterns (ORDER BY pattern: the database collation). *)
Definition rulesOf (d : DB) (roleID : Z) : list string :=
  snd <$> elements (filter (fun p => p.1 = roleID) (rules d)).

Definition GetRulesByRoleID (roleID : Z) : Stmt (list string) := query (fun d => Ok (rulesOf d roleID)).

(** ** [role_bindings] *)

(** [chk_binding_scope] and [chk_binding_ids]. *)
Definition bindingScopeOk (b : Binding) : bool :=
  ((bScope b =s ScopePlatform) && isNull (bWorkspaceID b) && isNull (bNamespaceID b))
    || ((bScope b =s ScopeWorkspace) && negb (isNull (bWorkspaceID b)) && isNull (bNamespaceID b))
    || ((bScope b =s ScopeNamespace) && negb (isNull (bNamespaceID b))
        && negb (isNull (bWorkspaceID b))).

(** [uk_role_bindings_platform], [_workspace], [_namespace]. *)
Definition bindingClash (b b' : Binding) : bool :=
  (bUserID b =? bUserID b') && (bRoleID b =? bRoleID b') && (bScope b =s bScope b')
    && ((bScope b =s ScopePlatform)
        || ((bScope b =s ScopeWorkspace) && sameID (bWorkspaceID b) (bWorkspaceID b'))
        || ((bScope b =s ScopeNamespace) && sameID (bNamespaceID b) (bNamespaceID b'))).

Definition bindingRefsOk (d : DB) (b : Binding) : bool :=
  userExists d (bUserID b) && bool_decide (is_Some (roles d !! bRoleID b))
    && existsOrNull (workspaceExists d) (bWorkspaceID b)
    && existsOrNull (namespaceExists d) (bNamespaceID b).

(** What an INSERT does on a duplicate key. *)
Inductive OnConflict := ConflictError | DoNothing | MakeOwner.

Definition makeOwner (v : bool) (b : Binding) : Binding :=
  mkBinding (bUserID b) (bRoleID b) (bScope b) (bWorkspaceID b) (bNamespaceID b) v.

(** The inserted row, or none when the key existed. *)
Definition insertBinding (onConflict : OnConflict) (b : Binding) : Stmt (option (Z * Binding)) :=
  insertInto TBindings (fun id d =>
    if negb (fits 20 (bScope b)) then Err (PgError string_data_right_truncation)
    else if negb (bindingScopeOk b) then Err (PgError check_violation)
    else match firstRow (fun _ b' => bindingClash b b') (bindings d) with
         | Some (id0, b0) =>
             match onConflict with
             | ConflictError => Err (PgError unique_violation)
             | DoNothing => Ok (None, d)
             | MakeOwner => Ok (None, set_bindings (<[id0 := makeOwner true b0]> (bindings d)) d)
             end
         | None =>
             if negb (bindingRefsOk d b) then Err (PgError foreign_key_violation)
             else Ok (Some (id, b), set_bindings (<[id := b]> (bindings d)) d)
         end).

(** Map over a statement's value. *)
Definition smap {A B} (f : A -> result SqlErr B) (m : Stmt A) : Stmt B :=
  fun q d => let '(r, q') := m q d in ('(a, d') <-! r ;; (b <-! f a ;; Ok (b, d')), q').

Definition CreateRoleBinding (b : Binding) : Stmt (Z * Binding) :=
  smap one (insertBinding ConflictError b).

Definition CreateRoleBindingIfNotExists (b : Binding) : Stmt Z :=
  smap (fun o => Ok (match o with Some _ => 1 | None => 0 end)) (insertBinding DoNothing b).

Definition AddWorkspaceMemberRole (userID roleID ws : Z) : Stmt unit :=
  smap (fun _ => Ok tt)
    (insertBinding DoNothing (mkBinding userID roleID ScopeWorkspace (Some ws) None false)).

Definition AddNamespaceMemberRole (userID roleID ws ns : Z) : Stmt unit :=
  smap (fun _ => Ok tt)
    (insertBinding DoNothing (mkBinding userID roleID ScopeNamespace (Some ws) (Some ns) false)).

Definition UpsertWorkspaceOwner (userID roleID ws : Z) : Stmt unit :=
  smap (fun _ => Ok tt)
    (insertBinding MakeOwner (mkBinding userID roleID ScopeWorkspace (Some ws) None true)).

Definition UpsertNamespaceOwner (userID roleID ws ns : Z) : Stmt unit :=
  smap (fun _ => Ok tt)
    (insertBinding MakeOwner (mkBinding userID roleID ScopeNamespace (Some ws) (Some ns) true)).

Definition GetRoleBindingByID (id : Z) : Stmt (Z * Binding) :=
  query (fun d => one (withID id (bindings d !! id))).

(** DELETE FROM role_bindings ... RETURNING id, user_id. *)
Definition deleteBindings (gone : Z -> Binding -> bool) (d : DB) : list (Z * Z) * DB :=
  ((fun p => (p.1, bUserID p.2)) <$> map_to_list (rowsWhere gone (bindings d)),
   set_bindings (deleteWhere gone (bindings d)) d).

Definition DeleteRoleBinding (id : Z) : Stmt Z :=
  exec (fun d => let '(rows, d') := deleteBindings (fun id' _ => id' =? id) d in
                 Ok (Z.of_nat (length rows), d')).

Definition DeleteRoleBindingsByIDs (ids : list Z) : Stmt (list (Z * Z)) :=
  exec (fun d => Ok (deleteBindings (fun id b => anyID ids id && negb (bIsOwner b)) d)).

Definition DeleteNonOwnerWorkspaceBindings (userID ws : Z) : Stmt Z :=
  exec (fun d =>
    let '(rows, d') := deleteBindings
      (fun _ b => (bUserID b =? userID) && inWorkspace ws b && negb (bIsOwner b)) d in
    Ok (Z.of_nat (length rows), d')).

Definition DeleteNonOwnerNamespaceBindings (userID ns : Z) : Stmt Z :=
  exec (fun d =>
    let '(rows, d') := deleteBindings
      (fun _ b => (bUserID b =? userID) && inNamespace ns b && negb (bIsOwner b)) d in
    Ok (Z.of_nat (length rows), d')).

Definition CountRoleBindingsByRoleAndScope (roleID : Z) (scope : string) : Stmt Z :=
  query (fun d => Ok (countRows (fun _ b => (bRoleID b =? roleID) && (bScope b =s scope)) (bindings d))).

Definition GetWorkspaceOwnerForUpdate (ws : Z) : Stmt Z :=
  query (fun d => one ((bUserID ∘ snd) <$> firstRow (fun _ b => inWorkspace ws b && bIsOwner b) (bindings d))).

Definition GetNamespaceOwnerForUpdate (ns : Z) : Stmt Z :=
  query (fun d => one ((bUserID ∘ snd) <$> firstRow (fun _ b => inNamespace ns b && bIsOwner b) (bindings d))).

Definition ExistsWorkspaceMember (userID ws : Z) : Stmt bool :=
  query (fun d => Ok (someRow (fun _ b => (bUserID b =? userID) && inWorkspace ws b) (bindings d))).

Definition ExistsNamespaceMember (userID ns : Z) : Stmt bool :=
  query (fun d => Ok (someRow (fun _ b => (bUserID b =? userID) && inNamespace ns b) (bindings d))).

Definition updateBindings (P : Z -> Binding -> bool) (f : Binding -> Binding) (d : DB) : DB :=
  set_bindings (map_imap (fun id b => Some (if P id b then f b else b)) (bindings d)) d.

Definition ClearWorkspaceOwner (ws : Z) : Stmt unit :=
  exec (fun d => Ok (tt, updateBindings (fun _ b => inWorkspace ws b && bIsOwner b) (makeOwner false) d)).

Definition ClearNamespaceOwner (ns : Z) : Stmt unit :=
  exec (fun d => Ok (tt, updateBindings (fun _ b => inNamespace ns b && bIsOwner b) (makeOwner false) d)).

Definition ListBindingIDsAndWorkspaceByRole (roleID : Z) : Stmt (list (Z * option Z)) :=
  query (fun d => Ok ((fun p => (p.1, bWorkspaceID p.2)) <$>
    map_to_list (rowsWhere (fun _ b => bRoleID b =? roleID) (bindings d)))).

Definition ListBindingIDsAndNamespaceByRole (roleID : Z) : Stmt (list (Z * option Z)) :=
  query (fun d => Ok ((fun p => (p.1, bNamespaceID p.2)) <$>
    map_to_list (rowsWhere (fun _ b => bRoleID b =? roleID) (bindings d)))).

Definition setRole (roleID : Z) (b : Binding) : Binding :=
  mkBinding (bUserID b) roleID (bScope b) (bWorkspaceID b) (bNamespaceID b) (bIsOwner b).

Definition RepointRoleBindingRole (roleID id : Z) : Stmt unit :=
  exec (fun d =>
    match bindings d !! id with
    | None => Ok (tt, d)
    | Some b =>
        if someRow (fun id' b' => negb (id' =? id) && bindingClash (setRole roleID b) b') (bindings d)
        then Err (PgError unique_violation)
        else if negb (bool_decide (is_Some (roles d !! roleID))) then Err (PgError foreign_key_violation)
        else Ok (tt, set_bindings (<[id := setRole roleID b]> (bindings d)) d)
    end).

(** ** What a user may reach *)

Definition bindingsOfUser (d : DB) (userID : Z) : list Binding :=
  snd <$> map_to_list (rowsWhere (fun _ b => bUserID b =? userID) (bindings d)).

(** SELECT DISTINCT over a nullable column. *)
Definition distinctIDs (l : list (option Z)) : list Z := elements (list_to_set (omap id l) : gset Z).

Definition GetAccessibleWorkspaceIDs (userID : Z) : Stmt (list Z) :=
  query (fun d => Ok (distinctIDs (bWorkspaceID <$> bindingsOfUser d userID))).

(** The workspaces whose namespaces the second branch of the UNION adds: a
    binding without a namespace whose role has at least one rule. *)
Definition ruledWorkspaces (d : DB) (userID : Z) : gset Z :=
  list_to_set (omap (fun b =>
    if isNull (bNamespaceID b) && negb (bool_decide (rulesOf d (bRoleID b) = []))
    then bWorkspaceID b else None) (bindingsOfUser d userID)).

Definition GetAccessibleNamespaceIDs (userID : Z) : Stmt (list Z) :=
  query (fun d => Ok (distinctIDs ((bNamespaceID <$> bindingsOfUser d userID) ++
    ((fun p => Some p.1) <$> map_to_list (rowsWhere
       (fun _ n => bool_decide (nsWorkspaceID n ∈ ruledWorkspaces d userID)) (namespaces d)))))).

Definition GetUserIDsByWorkspaceID (ws : Z) : Stmt (list Z) :=
  query (fun d => Ok (elements (distinctUsers (bindingsOf d (fun b => colEq (bWorkspaceID b) ws))))).

Definition GetUserIDsByNamespaceID (ns : Z) : Stmt (list Z) :=
  query (fun d => Ok (elements (distinctUsers (bindingsOf d (fun b => colEq (bNamespaceID b) ns))))).

(** One row per binding and rule of its role. *)
Definition permissionRows (d : DB) (userID : Z) : list UserPermissionRuleRow :=
  b ← bindingsOfUser d userID;
  pattern ← rulesOf d (bRoleID b);
  [{| rowScope := bScope b; rowWorkspaceID := bWorkspaceID b;
      rowNamespaceID := bNamespaceID b; rowPattern := pattern |}].

Definition LoadUserPermissionRules (userID : Z) : Stmt (list UserPermissionRuleRow) :=
  query (fun d => Ok (permissionRows d userID)).

Definition GetUserRoleBindingsWithRules (userID : Z)
    : Stmt (list (string * UserPermissionRuleRow)) :=
  query (fun d => Ok (
    b ← bindingsOfUser d userID;
    r ← (match roles d !! bRoleID b with Some r => [r] | None => [] end);
    pattern ← rulesOf d (bRoleID b);
    [(rName r, {| rowScope := bScope b; rowWorkspaceID := bWorkspaceID b;
                  rowNamespaceID := bNamespaceID b; rowPattern := pattern |})])).

(** ** [permissions] *)

Definition UpsertPermission (code method path scope description : string) : Stmt unit :=
  exec (fun d =>
    if negb (fits 255 code && fits 10 method && fits 512 path && fits 20 scope
             && fits 512 description)
    then Err (PgError string_data_right_truncation)
    else
      let row := match permissions d !! (code, scope) with
                 | Some old => mkPerm method path (pDescription old)
                 | None => mkPerm method path description
                 end in
      Ok (tt, set_permissions (<[(code, scope) := row]> (permissions d)) d)).

(** [code LIKE prefix || '%' AND NOT (code || ':' || scope) = ANY(keep)],
    for a prefix without LIKE metacharacters. *)
Definition DeletePermissionsByModulePrefix (modulePrefix : string) (keep : list string) : Stmt unit :=
  exec (fun d => Ok (tt, set_permissions
    (filter (fun p : (string * string) * PermRow =>
       HasPrefix p.1.1 modulePrefix
         && negb (existsb (String.eqb (p.1.1 +++ ":" +++ p.1.2)) keep) = false) (permissions d)) d)).

Definition ListAllPermissionCodesWithScope : Stmt (list (string * string)) :=
  query (fun d => Ok (map_to_list (permissions d)).*1).

Definition ListAllPermissionCodes : Stmt (list string) :=
  query (fun d => Ok ((fst ∘ fst) <$> map_to_list (permissions d))).

(** ** Table lemmas *)

Section Rows.
Context {A : Type}.
Implicit Types (P : Z -> A -> bool) (m : gmap Z A).

Lemma lookup_rowsWhere P m i x : rowsWhere P m !! i = Some x <-> m !! i = Some x /\ P i x = true.
Proof. unfold rowsWhere. by rewrite map_lookup_filter_Some. Qed.

Lemma lookup_deleteWhere P m i x : deleteWhere P m !! i = Some x <-> m !! i = Some x /\ P i x = false.
Proof. unfold deleteWhere. by rewrite map_lookup_filter_Some. Qed.

Lemma rowsWhere_empty P m : rowsWhere P m = ∅ <-> forall i x, m !! i = Some x -> P i x = false.
Proof.
  split.
  - intros E i x Hx. destruct (P i x) eqn:HP; [|done].
    assert (rowsWhere P m !! i = Some x) by by apply lookup_rowsWhere.
    rewrite E, lookup_empty in H. done.
  - intros H. apply map_empty. intros i. apply eq_None_not_Some. intros [x Hx].
    apply lookup_rowsWhere in Hx as [Hx HP]. rewrite (H i x Hx) in HP. done.
Qed.

Lemma someRow_true P m : someRow P m = true <-> exists i x, m !! i = Some x /\ P i x = true.
Proof.
  unfold someRow. rewrite negb_true_iff, bool_decide_eq_false. split.
  - intros H. apply map_choose in H as (i & x & Hx). apply lookup_rowsWhere in Hx. eauto.
  - intros (i & x & Hx & HP) E. rewrite rowsWhere_empty in E. rewrite (E i x Hx) in HP. done.
Qed.

Lemma someRow_false P m : someRow P m = false <-> forall i x, m !! i = Some x -> P i x = false.
Proof. unfold someRow. by rewrite negb_false_iff, bool_decide_eq_true, rowsWhere_empty. Qed.

Lemma firstRow_Some P m i x : firstRow P m = Some (i, x) -> m !! i = Some x /\ P i x = true.
Proof.
  unfold firstRow. intros H. apply head_Some in H as (l & H).
  apply lookup_rowsWhere, elem_of_map_to_list. rewrite H. apply list_elem_of_here.
Qed.

Lemma firstRow_None P m : firstRow P m = None <-> forall i x, m !! i = Some x -> P i x = false.
Proof.
  unfold firstRow. rewrite head_None, <- rowsWhere_empty. apply map_to_list_empty_iff.
Qed.

Lemma firstRow_is_Some P m i x : m !! i = Some x -> P i x = true -> is_Some (firstRow P m).
Proof.
  intros Hx HP. destruct (firstRow P m) eqn:E; [by eexists|].
  rewrite firstRow_None in E. rewrite (E i x Hx) in HP. done.
Qed.

Lemma countRows_zero P m : countRows P m = 0 <-> forall i x, m !! i = Some x -> P i x = false.
Proof.
  unfold countRows. rewrite <- rowsWhere_empty. rewrite <- (map_size_empty_iff (rowsWhere P m)). lia.
Qed.

Lemma countRows_pos P m : 0 < countRows P m <-> exists i x, m !! i = Some x /\ P i x = true.
Proof.
  rewrite <- someRow_true. unfold countRows, someRow.
  rewrite negb_true_iff, bool_decide_eq_false. rewrite <- (map_size_empty_iff (rowsWhere P m)). lia.
Qed.
End Rows.

Lemma colEq_spec c v : colEq c v = true <-> c = Some v.
Proof. destruct c; cbn; [rewrite Z.eqb_eq; split; congruence | done]. Qed.

Lemma isNull_spec c : isNull c = true <-> c = None.
Proof. by destruct c. Qed.

Lemma sameID_spec a b : sameID a b = true <-> a = b /\ is_Some a.
Proof.
  destruct a; cbn; [rewrite colEq_spec | by split; [|intros [_ [? ?]]]].
  split; [intros ->; split; [done | by eexists] | by intros [<- _]].
Qed.

Lemma anyID_spec ids id : anyID ids id = true <-> id ∈ ids.
Proof.
  unfold anyID. rewrite existsb_elem_of. split.
  - by intros (x & Hx & ->%Z.eqb_eq).
  - intros H. exists id. by rewrite Z.eqb_refl.
Qed.

Lemma idIn_spec (P : Z -> bool) c : idIn P c = true <-> exists i, c = Some i /\ P i = true.
Proof. destruct c; cbn; naive_solver. Qed.

Lemma bool_is_Some {A} (o : option A) : bool_decide (is_Some o) = true <-> is_Some o.
Proof. apply bool_decide_eq_true. Qed.

(** Rows by filter, as membership. *)
Lemma elem_of_bindingsOfUser d u b :
  b ∈ bindingsOfUser d u <-> exists i, bindings d !! i = Some b /\ bUserID b = u.
Proof.
  unfold bindingsOfUser. rewrite list_elem_of_fmap. split.
  - intros ([i b'] & -> & H). apply elem_of_map_to_list, lookup_rowsWhere in H as [H HP%Z.eqb_eq]. eauto.
  - intros (i & Hb & Hu). exists (i, b). split; [done|].
    apply elem_of_map_to_list, lookup_rowsWhere. by rewrite Z.eqb_eq.
Qed.

Lemma elem_of_rulesOf d r p : p ∈ rulesOf d r <-> (r, p) ∈ rules d.
Proof.
  unfold rulesOf. rewrite list_elem_of_fmap. split.
  - intros ([r' p'] & -> & H). apply elem_of_elements, elem_of_filter in H as [H1 H2]. cbn in *. by subst.
  - intros H. exists (r, p). split; [done|]. by apply elem_of_elements, elem_of_filter.
Qed.

(** A permission row is a binding together with a rule of its role. *)
Lemma elem_of_permissionRows d u row :
  row ∈ permissionRows d u <->
  exists i b, bindings d !! i = Some b /\ bUserID b = u /\ (bRoleID b, rowPattern row) ∈ rules d
    /\ rowScope row = bScope b /\ rowWorkspaceID row = bWorkspaceID b
    /\ rowNamespaceID row = bNamespaceID b.
Proof.
  unfold permissionRows. rewrite list_elem_of_bind. split.
  - intros (b & H & (i & Hb & Hu)%elem_of_bindingsOfUser).
    apply list_elem_of_bind in H as (p & H & Hp%elem_of_rulesOf).
    apply list_elem_of_singleton in H as ->. cbn. eauto 10.
  - intros (i & b & Hb & Hu & Hp & H1 & H2 & H3). exists b.
    split; [|by apply elem_of_bindingsOfUser; eauto].
    apply list_elem_of_bind. exists (rowPattern row). split; [|by apply elem_of_rulesOf].
    apply list_elem_of_singleton. destruct row. cbn in *. by subst.
Qed.

End IamDb.
