(* ===== verification/IamStore.v ===== *)
(** * The IAM stores

    [pkg/apis/iam/store/*.go] over the statements of [IamDb]: users,
    workspaces, namespaces, roles, role bindings with membership and
    ownership transfer, registration, permissions. The stores run in a
    state monad over the tables, an oracle of connection faults (one per
    statement, BEGIN and COMMIT), the transaction in progress and the
    [rbac_invalidate] publications. A transaction that fails, or whose
    COMMIT fails, leaves the tables as BEGIN found them; sequences are not
    rolled back. *)

From S2P Require Import Prelude Rbac IamDb.

Module IamStore.
Import Rbac IamDb.

(** ** Errors *)

(** The sentinels of [pkg/db/pgerrors]. *)
Inductive Sentinel := ErrNotFound | ErrConflict | ErrBadRequest | ErrForbidden.

Record FieldError := mkFieldError { feField : string; feMessage : string }.

(** A Go error: an HTTP status error (its message unless it is the text of
    a store or driver error, and the validation details), or a wrapped
    store error with the sentinel and the driver error in its chain. *)
Inductive GoErr :=
| StatusError (status : Z) (message : option string) (details : list FieldError)
| Wrapped (tag : option Sentinel) (cause : option SqlErr).

Definition NewBadRequest (message : string) (details : list FieldError) : GoErr :=
  StatusError 400 (Some message) details.
Definition NewNotFound (resource name : string) : GoErr :=
  StatusError 404 (Some (resource +++ " " +++ name +++ " not found")) [].
Definition NewConflictMessage (message : string) : GoErr := StatusError 409 (Some message) [].
Definition NewInternalError : GoErr := StatusError 500 None [].

(** [pgerrors.CheckPG], then wrapped by the caller with [fmt.Errorf]. *)
Definition CheckPG (e : SqlErr) : GoErr :=
  match e with
  | PgError code =>
      if (code =s "22001") || (code =s "23514") then Wrapped (Some ErrBadRequest) (Some e)
      else if (code =s "23001") || (code =s "23503") || (code =s "23505")
      then Wrapped (Some ErrConflict) (Some e)
      else Wrapped None (Some e)
  | _ => Wrapped None (Some e)
  end.

(** [fmt.Errorf("...: %w", err)] of a driver error. *)
Definition wrap (e : SqlErr) : GoErr := Wrapped None (Some e).

(** [fmt.Errorf("...: %w", pgerrors.ErrX)]. *)
Definition tagged (t : Sentinel) : GoErr := Wrapped (Some t) None.

Definition notFoundOr (f : SqlErr -> GoErr) (e : SqlErr) : GoErr :=
  match e with ErrNoRows => tagged ErrNotFound | _ => f e end.

(** [lib/api/errors.FromDomain]. *)
Definition FromDomain (e : GoErr) : option GoErr :=
  match e with
  | StatusError _ _ _ => None
  | Wrapped tag cause =>
      let bySentinel :=
        match tag with
        | Some ErrNotFound => Some (StatusError 404 None [])
        | Some ErrConflict => Some (StatusError 409 None [])
        | Some ErrBadRequest => Some (StatusError 400 None [])
        | Some ErrForbidden => Some (StatusError 403 None [])
        | None => None
        end in
      match cause with
      | Some (PgError code) =>
          if code =s "22001" then Some (StatusError 400 None [])
          else if (code =s "23001") || (code =s "23503") then Some (StatusError 409 None [])
          else if code =s "23505" then Some (StatusError 409 None [])
          else bySentinel
      | _ => bySentinel
      end
  end.

Definition domainErr (e : GoErr) : GoErr := default e (FromDomain e).

(** The status a handler's error is written with. *)
Definition httpStatus (e : GoErr) : Z :=
  match domainErr e with StatusError c _ _ => c | _ => 500 end.

(** ** The monad *)

(** How the connection serves a statement, BEGIN or COMMIT: as asked; it is
    lost before the database acts; or the database acts and its answer is
    lost. *)
Inductive Fault := Fine | Lost | Unanswered.

Record Sys := mkSys {
  sdb : DB;
  sseq : Seqs;
  sfaults : list Fault;
  stx : option bool;      (** in a transaction, and is it aborted? *)
  snotified : list Z;     (** publications on [rbac_invalidate], oldest first *)
  smemo : gmap Z Z        (** [pgNamespaceStore.wsIDMemo] *)
}.

Definition M (E A : Type) : Type := Sys -> result E A * Sys.

Definition ret {E A} (a : A) : M E A := fun s => (Ok a, s).
Definition fail {E A} (e : E) : M E A := fun s => (Err e, s).

Definition bind {E A B} (m : M E A) (f : A -> M E B) : M E B :=
  fun s => match m s with
           | (Ok a, s') => f a s'
           | (Err e, s') => (Err e, s')
           end.

Notation "x <-- m ;; k" := (bind m (fun x => k))
  (at level 100, m at next level, right associativity) : go_scope.
Notation "' p <-- m ;; k" := (bind m (fun x => match x with p => k end))
  (at level 20, p pattern, m at level 99, k at level 200) : go_scope.

(** The result, error included, as a value: [x, err := ...]. *)
Definition attempt {E E' A} (m : M E A) : M E' (result E A) :=
  fun s => let '(r, s') := m s in (Ok r, s').

(** Rewrap the error: [if err != nil { return ..., f(err) }]. *)
Definition onErr {E E' A} (f : E -> E') (m : M E A) : M E' A :=
  fun s => let '(r, s') := m s in
           (match r with Ok a => Ok a | Err e => Err (f e) end, s').

Fixpoint forEach {E A} (f : A -> M E unit) (l : list A) : M E unit :=
  match l with
  | [] => ret tt
  | a :: l' => _ <-- f a ;; forEach f l'
  end.

Definition popFault (s : Sys) : Fault * Sys :=
  match sfaults s with
  | [] => (Fine, s)
  | b :: fs => (b, mkSys (sdb s) (sseq s) fs (stx s) (snotified s) (smemo s))
  end.

Definition abortTx (s : Sys) : Sys :=
  mkSys (sdb s) (sseq s) (sfaults s)
    (match stx s with Some _ => Some true | None => None end) (snotified s) (smemo s).

Definition setDB (d : DB) (q : Seqs) (s : Sys) : Sys :=
  mkSys d q (sfaults s) (stx s) (snotified s) (smemo s).

Definition in_failed_sql_transaction : string := "25P02".

(** Run a statement: outside a transaction it commits on its own. *)
Definition Q {A} (st : Stmt A) : M SqlErr A :=
  fun s =>
    if bool_decide (stx s = Some true) then (Err (PgError in_failed_sql_transaction), s)
    else
      let '(f, s1) := popFault s in
      match f, st (sseq s1) (sdb s1) with
      | Lost, _ => (Err ErrConn, abortTx s1)
      | Unanswered, (Ok (_, d), q) => (Err ErrConn, abortTx (setDB d q s1))
      | Unanswered, (Err _, q) => (Err ErrConn, abortTx (setDB (sdb s1) q s1))
      | Fine, (Ok (a, d), q) => (Ok a, setDB d q s1)
      | Fine, (Err ErrNoRows, q) => (Err ErrNoRows, setDB (sdb s1) q s1)
      | Fine, (Err e, q) => (Err e, abortTx (setDB (sdb s1) q s1))
      end.

Definition setTx (t : option bool) (s : Sys) : Sys :=
  mkSys (sdb s) (sseq s) (sfaults s) t (snotified s) (smemo s).

(** [WithTx], [WithTxReturning]. *)
Definition WithTx {A} (fn : M GoErr A) : M GoErr A :=
  fun s =>
    let '(f, s1) := popFault s in
    match f with
    | Lost | Unanswered => (Err (wrap ErrConn), s1)
    | Fine =>
        let rollback s' := setTx None (setDB (sdb s1) (sseq s') s') in
        match fn (setTx (Some false) s1) with
        | (Err e, s2) => (Err e, rollback s2)
        | (Ok a, s2) =>
            if bool_decide (stx s2 = Some true) then (Err (wrap ErrConn), rollback s2)
            else
              match popFault s2 with
              | (Lost, s3) => (Err (wrap ErrConn), rollback s3)
              | (Unanswered, s3) => (Err (wrap ErrConn), setTx None s3)
              | (Fine, s3) => (Ok a, setTx None s3)
              end
        end
    end.

(** [RBACInvalidateChannel.Publish]; its errors are only logged. *)
Definition notifyUserChange (userID : Z) : M GoErr unit :=
  fun s => (Ok tt, mkSys (sdb s) (sseq s) (sfaults s) (stx s) (snotified s ++ [userID]) (smemo s)).

(** ** [sqlnull] *)

Definition ToNullString (s : string) : option string := if s =s "" then None else Some s.
Definition ToNullInt64 (n : Z) : option Z := if n =? 0 then None else Some n.
Definition ToNullInt32 : Z -> option Z := ToNullInt64.

(** ** Built-in roles *)

Definition RolePlatformAdmin : string := "platform-admin".
Definition RolePlatformViewer : string := "platform-viewer".
Definition RoleWorkspaceAdmin : string := "workspace-admin".
Definition RoleWorkspaceViewer : string := "workspace-viewer".
Definition RoleWorkspaceMember : string := "workspace-member".
Definition RoleNamespaceAdmin : string := "namespace-admin".
Definition RoleNamespaceViewer : string := "namespace-viewer".

Record BuiltinRoleDef := mkBuiltin {
  dName : string; dDisplayName : string; dDescription : string; dScope : string;
  dRules : list string
}.

Definition PlatformBuiltinRoles : list BuiltinRoleDef :=
  [mkBuiltin RolePlatformAdmin "Platform Admin" "Full access to all platform resources"
     ScopePlatform ["*:*"];
   mkBuiltin RolePlatformViewer "Platform Viewer" "Read-only access to all platform resources"
     ScopePlatform ["*:list"; "*:get"]].

Definition WorkspaceBuiltinRoles : list BuiltinRoleDef :=
  [mkBuiltin RoleWorkspaceAdmin "Workspace Admin"
     "Full access to all resources within the workspace" ScopeWorkspace ["*:*"];
   mkBuiltin RoleWorkspaceViewer "Workspace Viewer"
     "Read-only access to all resources within the workspace" ScopeWorkspace ["*:list"; "*:get"];
   mkBuiltin RoleWorkspaceMember "Workspace Member"
     "Basic workspace membership for namespace-level users" ScopeWorkspace []].

Definition NamespaceBuiltinRoles : list BuiltinRoleDef :=
  [mkBuiltin RoleNamespaceAdmin "Namespace Admin"
     "Full access to all resources within the namespace" ScopeNamespace ["*:*"];
   mkBuiltin RoleNamespaceViewer "Namespace Viewer"
     "Read-only access to all resources within the namespace" ScopeNamespace ["*:list"; "*:get"]].

Definition addRules (roleID : Z) (patterns : list string) : M GoErr unit :=
  forEach (fun pattern => onErr wrap (Q (AddRolePermissionRule roleID pattern))) patterns.

(** The loop shared by the three functions below: create every role with
    its rules, remember the id of the one called [adminName]. *)
Fixpoint createBuiltinRoles (defs : list BuiltinRoleDef) (ws ns : option Z) (adminName : string)
    (adminID : Z) : M GoErr Z :=
  match defs with
  | [] => ret adminID
  | roleDef :: rest =>
      '(id, _) <-- onErr wrap (Q (CreateRole (dName roleDef) (dDisplayName roleDef)
                                    (dDescription roleDef) (dScope roleDef) true ws ns)) ;;
      _ <-- addRules id (dRules roleDef) ;;
      createBuiltinRoles rest ws ns adminName (if dName roleDef =s adminName then id else adminID)
  end.

Definition workspaceCreateBuiltinWorkspaceRoles (ws : Z) : M GoErr Z :=
  createBuiltinRoles WorkspaceBuiltinRoles (Some ws) None RoleWorkspaceAdmin 0.
Definition workspaceCreateBuiltinNamespaceRoles (ns : Z) : M GoErr Z :=
  createBuiltinRoles NamespaceBuiltinRoles None (Some ns) RoleNamespaceAdmin 0.
Definition namespaceCreateBuiltinRoles (ns : Z) : M GoErr Z :=
  createBuiltinRoles NamespaceBuiltinRoles None (Some ns) RoleNamespaceAdmin 0.

(** ** [pgUserStore] *)

Record UserCreateInput := mkUserCreate {
  ucUsername : string; ucEmail : string; ucPhone : string; ucDisplayName : string;
  ucAvatarURL : string; ucStatus : string
}.

Record UserUpdateInput := mkUserUpdate {
  uuID : Z; uuUsername : string; uuEmail : string; uuPhone : string;
  uuDisplayName : string; uuAvatarURL : string; uuStatus : string
}.

Record UserPatchInput := mkUserPatch {
  upID : Z; upEmail : option string; upPhone : option string; upDisplayName : option string;
  upAvatarURL : option string; upStatus : option string
}.

Definition userCreate (i : UserCreateInput) : M GoErr (Z * User) :=
  onErr CheckPG (Q (CreateUser (ucUsername i) (ucEmail i) (ucDisplayName i) (ucPhone i)
                      (ucAvatarURL i) (ucStatus i))).

Definition userGetByID (id : Z) : M GoErr (Z * User) := onErr (notFoundOr wrap) (Q (GetUserByID id)).

Definition userGetByUsername (username : string) : M GoErr (Z * User) :=
  onErr (notFoundOr wrap) (Q (GetUserByUsername username)).

Definition userUpdate (i : UserUpdateInput) : M GoErr (Z * User) :=
  onErr (notFoundOr CheckPG)
    (Q (UpdateUser (uuID i) (uuUsername i) (uuEmail i) (uuDisplayName i) (uuPhone i)
          (uuAvatarURL i) (uuStatus i))).

Definition userPatch (i : UserPatchInput) : M GoErr (Z * User) :=
  onErr (notFoundOr CheckPG)
    (Q (PatchUser (upID i) (upEmail i) (upDisplayName i) (upPhone i) (upAvatarURL i) (upStatus i))).

Definition userDelete (id : Z) : M GoErr unit :=
  n <-- onErr CheckPG (Q (DeleteUser id)) ;;
  if negb (n =? 0) then ret tt
  else
    '(_, row) <-- onErr (notFoundOr wrap) (Q (GetUserByID id)) ;;
    if uBuiltin row then fail (tagged ErrForbidden) else fail (tagged ErrNotFound).

Definition userDeleteByIDs (ids : list Z) : M GoErr Z :=
  if bool_decide (ids = []) then ret 0
  else
    deleted <-- onErr CheckPG (Q (DeleteUsersByIDs ids)) ;;
    ret (Z.of_nat (length deleted)).

Definition userSetBuiltin (id : Z) (builtin : bool) : M GoErr unit :=
  onErr wrap (Q (SetUserBuiltin id builtin)).

Definition userGetForAuth (identifier : string) : M GoErr (Z * User) :=
  onErr (notFoundOr wrap) (Q (GetUserForAuth identifier)).

Definition userSetPasswordHash (id : Z) (hash : string) : M GoErr unit :=
  onErr wrap (Q (SetPasswordHash id hash)).

Definition refreshRevokeByUserID (userID : Z) : M GoErr unit :=
  onErr wrap (Q (RevokeRefreshTokensByUserID userID)).

(** ** [pgWorkspaceStore] *)

Record WorkspaceInput := mkWorkspaceInput {
  wiName : string; wiDisplayName : string; wiDescription : string; wiOwnerID : Z; wiStatus : string
}.

(** [caller]: the authenticated user of the context, if any. *)
Definition workspaceCreate (caller : option Z) (i : WorkspaceInput) : M GoErr WorkspaceDetail :=
  WithTx (
    '(wsID, row) <-- onErr CheckPG (Q (CreateWorkspace (wiName i) (wiDisplayName i)
                       (wiDescription i) (wiOwnerID i) (wiStatus i) caller)) ;;
    wsAdminRoleID <-- workspaceCreateBuiltinWorkspaceRoles wsID ;;
    '(nsID, _) <-- onErr wrap (Q (CreateNamespace (wsName row +++ "-default") "Default"
                     ("Default namespace for workspace " +++ wiName i) wsID (wiOwnerID i)
                     "private" 0 "active" caller)) ;;
    nsAdminRoleID <-- workspaceCreateBuiltinNamespaceRoles nsID ;;
    _ <-- onErr wrap (Q (CreateRoleBindingIfNotExists
            (mkBinding (wiOwnerID i) wsAdminRoleID ScopeWorkspace (Some wsID) None true))) ;;
    _ <-- onErr wrap (Q (CreateRoleBindingIfNotExists
            (mkBinding (wiOwnerID i) nsAdminRoleID ScopeNamespace (Some wsID) (Some nsID) true))) ;;
    onErr wrap (Q (GetWorkspaceByID wsID))).

Definition workspaceGetByID (id : Z) : M GoErr WorkspaceDetail :=
  onErr (notFoundOr wrap) (Q (GetWorkspaceByID id)).

Definition workspaceUpdate (id : Z) (i : WorkspaceInput) : M GoErr WorkspaceDetail :=
  onErr (notFoundOr CheckPG)
    (Q (UpdateWorkspace id (wiName i) (wiDisplayName i) (wiDescription i) (wiOwnerID i) (wiStatus i))).

Definition workspacePatch (id : Z) (i : WorkspaceInput) : M GoErr WorkspaceDetail :=
  onErr (notFoundOr wrap)
    (Q (PatchWorkspace id (ToNullString (wiName i)) (ToNullString (wiDisplayName i))
          (ToNullString (wiDescription i)) (ToNullInt64 (wiOwnerID i)) (ToNullString (wiStatus i)))).

Definition workspaceDelete (id : Z) : M GoErr unit :=
  _ <-- onErr wrap (Q (DeleteNamespacesByWorkspaceID id)) ;;
  n <-- onErr CheckPG (Q (DeleteWorkspace id)) ;;
  if n =? 0 then fail (tagged ErrNotFound) else ret tt.

Definition workspaceDeleteByIDs (ids : list Z) : M GoErr Z :=
  if bool_decide (ids = []) then ret 0
  else
    _ <-- onErr wrap (Q (DeleteNamespacesByWorkspaceIDs ids)) ;;
    deleted <-- onErr CheckPG (Q (DeleteWorkspacesByIDs ids)) ;;
    ret (Z.of_nat (length deleted)).

Definition workspaceCountNamespaces (ws : Z) : M GoErr Z :=
  onErr wrap (Q (CountNamespacesByWorkspaceID ws)).

Definition workspaceListBlockingResources (ws : Z) : M GoErr (list (string * Z)) :=
  onErr wrap (Q (CountWorkspaceBlockingResources ws)).

(** ** [pgNamespaceStore] *)

Record NamespaceInput := mkNamespaceInput {
  niName : string; niDisplayName : string; niDescription : string; niWorkspaceID : Z;
  niOwnerID : Z; niVisibility : string; niMaxMembers : Z; niStatus : string
}.

Definition namespaceCreate (caller : option Z) (i : NamespaceInput) : M GoErr NamespaceDetail :=
  WithTx (
    '(nsID, _) <-- onErr CheckPG (Q (CreateNamespace (niName i) (niDisplayName i)
                     (niDescription i) (niWorkspaceID i) (niOwnerID i) (niVisibility i)
                     (niMaxMembers i) (niStatus i) caller)) ;;
    nsAdminRoleID <-- namespaceCreateBuiltinRoles nsID ;;
    _ <-- onErr wrap (Q (CreateRoleBindingIfNotExists
            (mkBinding (niOwnerID i) nsAdminRoleID ScopeNamespace (Some (niWorkspaceID i))
               (Some nsID) true))) ;;
    onErr wrap (Q (GetNamespaceByID nsID))).

Definition namespaceGetByID (id : Z) : M GoErr NamespaceDetail :=
  onErr (notFoundOr wrap) (Q (GetNamespaceByID id)).

(** The input's workspace is not part of an update. *)
Definition namespaceUpdate (id : Z) (i : NamespaceInput) : M GoErr NamespaceDetail :=
  onErr (notFoundOr CheckPG)
    (Q (UpdateNamespace id (niName i) (niDisplayName i) (niDescription i) (niOwnerID i)
          (niVisibility i) (niMaxMembers i) (niStatus i))).

Definition namespacePatch (id : Z) (i : NamespaceInput) : M GoErr NamespaceDetail :=
  onErr (notFoundOr wrap)
    (Q (PatchNamespace id (ToNullString (niName i)) (ToNullString (niDisplayName i))
          (ToNullString (niDescription i)) (ToNullInt64 (niOwnerID i))
          (ToNullString (niVisibility i)) (ToNullInt32 (niMaxMembers i))
          (ToNullString (niStatus i)))).

Definition namespaceDelete (id : Z) : M GoErr unit :=
  n <-- onErr CheckPG (Q (DeleteNamespace id)) ;;
  if n =? 0 then fail (tagged ErrNotFound) else ret tt.

Definition namespaceDeleteByIDs (ids : list Z) : M GoErr Z :=
  if bool_decide (ids = []) then ret 0
  else
    deleted <-- onErr CheckPG (Q (DeleteNamespacesByIDs ids)) ;;
    ret (Z.of_nat (length deleted)).

Definition namespaceCountUsers (ns : Z) : M GoErr Z := onErr wrap (Q (CountUsersByNamespaceID ns)).

Definition namespaceListBlockingResources (ns : Z) : M GoErr (list (string * Z)) :=
  onErr wrap (Q (CountNamespaceBlockingResources ns)).

(** The memoised parent of a namespace: the memo is read first and filled
    after a successful query. *)
Definition memoLoad (id : Z) : M GoErr (option Z) := fun s => (Ok (smemo s !! id), s).
Definition memoStore (id ws : Z) : M GoErr unit :=
  fun s => (Ok tt, mkSys (sdb s) (sseq s) (sfaults s) (stx s) (snotified s) (<[id := ws]> (smemo s))).

Definition WorkspaceIDOf (id : Z) : M GoErr Z :=
  v <-- memoLoad id ;;
  match v with
  | Some ws => ret ws
  | None =>
      ws <-- onErr wrap (Q (GetNamespaceWorkspaceID id)) ;;
      _ <-- memoStore id ws ;;
      ret ws
  end.

(** ** [pgRoleStore] *)

Record RoleCreateInput := mkRoleCreate {
  rcName : string; rcDisplayName : string; rcDescription : string; rcScope : string;
  rcWorkspaceID : option Z; rcNamespaceID : option Z; rcBuiltin : bool
}.

(** [RoleWithRulesRow]. *)
Record RoleWithRules := mkRoleWithRules { rrID : Z; rrRow : Role; rrRules : list string }.

Definition roleCreate (i : RoleCreateInput) : M GoErr (Z * Role) :=
  onErr CheckPG (Q (CreateRole (rcName i) (rcDisplayName i) (rcDescription i) (rcScope i)
                      (rcBuiltin i) (rcWorkspaceID i) (rcNamespaceID i))).

Definition roleGetByID (id : Z) : M GoErr RoleWithRules :=
  '(_, row) <-- onErr (notFoundOr wrap) (Q (GetRoleByID id)) ;;
  rs <-- onErr wrap (Q (GetRulesByRoleID id)) ;;
  ret (mkRoleWithRules id row rs).

Definition roleUpdate (id : Z) (displayName description : string) : M GoErr (Z * Role) :=
  onErr (notFoundOr CheckPG) (Q (UpdateRole id displayName description)).

Definition roleDelete (id : Z) : M GoErr unit :=
  n <-- onErr CheckPG (Q (DeleteRole id)) ;;
  if n =? 0 then fail (tagged ErrNotFound) else ret tt.

Definition SetPermissionRules (roleID : Z) (patterns : list string) : M GoErr unit :=
  WithTx (_ <-- onErr wrap (Q (DeleteRolePermissionRules roleID)) ;; addRules roleID patterns).

(** [createBuiltinRolesInTx]: roles that exist are left alone; any error of
    the lookup counts as absent. *)
Definition builtinExists (name : string) (ws ns : option Z) : M GoErr bool :=
  match ws, ns with
  | Some w, _ =>
      r <-- attempt (Q (GetRoleByNameAndWorkspace name w)) ;;
      ret (match r with Ok _ => true | Err _ => false end)
  | None, Some n =>
      r <-- attempt (Q (GetRoleByNameAndNamespace name n)) ;;
      ret (match r with Ok _ => true | Err _ => false end)
  | None, None => ret false
  end.

Definition createBuiltinRolesInTx (defs : list BuiltinRoleDef) (ws ns : option Z) : M GoErr unit :=
  forEach (fun def =>
    ex <-- builtinExists (dName def) ws ns ;;
    if ex : bool then ret tt
    else
      '(id, _) <-- onErr wrap (Q (CreateRole (dName def) (dDisplayName def) (dDescription def)
                                    (dScope def) true ws ns)) ;;
      addRules id (dRules def)) defs.

Fixpoint seedBuiltinRoles (defs : list BuiltinRoleDef) (adminID : Z) : M GoErr Z :=
  match defs with
  | [] => ret adminID
  | def :: rest =>
      '(id, _) <-- onErr wrap (Q (UpsertRole (dName def) (dDisplayName def) (dDescription def)
                                    (dScope def) true)) ;;
      _ <-- onErr wrap (Q (DeleteRolePermissionRules id)) ;;
      _ <-- addRules id (dRules def) ;;
      seedBuiltinRoles rest (if dName def =s RolePlatformAdmin then id else adminID)
  end.

Definition seedScopedRolesForWorkspaces : M GoErr unit :=
  ids <-- onErr wrap (Q ListAllWorkspaceIDs) ;;
  forEach (fun ws => createBuiltinRolesInTx WorkspaceBuiltinRoles (Some ws) None) ids.

Definition seedScopedRolesForNamespaces : M GoErr unit :=
  rows <-- onErr wrap (Q ListAllNamespaceIDsWithWorkspace) ;;
  forEach (fun p : Z * Z => createBuiltinRolesInTx NamespaceBuiltinRoles None (Some p.1)) rows.

(** Re-point one binding of an old global role to its tenant's role; a
    missing role skips the binding. *)
Definition repointBinding (find : Z -> Stmt Z) (b : Z * option Z) : M GoErr unit :=
  match b.2 with
  | None => ret tt
  | Some tenant =>
      r <-- attempt (Q (find tenant)) ;;
      match r with
      | Err _ => ret tt
      | Ok newRoleID => onErr wrap (Q (RepointRoleBindingRole newRoleID b.1))
      end
  end.

Definition migrateWorkspaceRoleBindings (oldRoleID : Z) (roleName : string) : M GoErr unit :=
  bs <-- onErr wrap (Q (ListBindingIDsAndWorkspaceByRole oldRoleID)) ;;
  forEach (repointBinding (GetWorkspaceRoleIDByName roleName)) bs.

Definition migrateNamespaceRoleBindings (oldRoleID : Z) (roleName : string) : M GoErr unit :=
  bs <-- onErr wrap (Q (ListBindingIDsAndNamespaceByRole oldRoleID)) ;;
  forEach (repointBinding (GetNamespaceRoleIDByName roleName)) bs.

Definition migrateOneGlobalRole (roleName scope : string) : M GoErr unit :=
  r <-- attempt (Q (GetGlobalRoleIDByNameAndScope roleName scope)) ;;
  match r with
  | Err ErrNoRows => ret tt
  | Err e => fail (wrap e)
  | Ok oldRoleID =>
      _ <-- (if scope =s ScopeWorkspace then migrateWorkspaceRoleBindings oldRoleID roleName
             else migrateNamespaceRoleBindings oldRoleID roleName) ;;
      _ <-- onErr wrap (Q (DeleteRole oldRoleID)) ;;
      ret tt
  end.

Definition migrateGlobalRolesToScoped : M GoErr unit :=
  forEach (fun m => migrateOneGlobalRole m.1 m.2)
    [(RoleWorkspaceAdmin, ScopeWorkspace); (RoleWorkspaceViewer, ScopeWorkspace);
     (RoleNamespaceAdmin, ScopeNamespace); (RoleNamespaceViewer, ScopeNamespace)].

Definition bindSeedAdmin (adminUsername : string) (adminRoleID : Z) : M GoErr unit :=
  if negb (adminUsername =s "") && negb (adminRoleID =? 0) then
    u <-- attempt (Q (GetUserByUsername adminUsername)) ;;
    match u with
    | Err _ => ret tt
    | Ok (uid, _) =>
        _ <-- attempt (E := SqlErr) (Q (CreateRoleBindingIfNotExists
                (mkBinding uid adminRoleID ScopePlatform None None false))) ;;
        ret tt
    end
  else ret tt.

Definition SeedRBAC (defs : list BuiltinRoleDef) (adminUsername : string) : M GoErr unit :=
  WithTx (
    adminRoleID <-- seedBuiltinRoles defs 0 ;;
    _ <-- bindSeedAdmin adminUsername adminRoleID ;;
    _ <-- seedScopedRolesForWorkspaces ;;
    _ <-- seedScopedRolesForNamespaces ;;
    migrateGlobalRolesToScoped).

(** ** [pgRoleBindingStore] *)

Record RoleBindingCreateInput := mkBindingInput {
  biUserID : Z; biRoleID : Z; biScope : string; biWorkspaceID : option Z; biNamespaceID : option Z
}.

(** The row an input asks for; [is_owner] is the zero value. *)
Definition inputBinding (i : RoleBindingCreateInput) : Binding :=
  mkBinding (biUserID i) (biRoleID i) (biScope i) (biWorkspaceID i) (biNamespaceID i) false.

Definition bindingCreate (i : RoleBindingCreateInput) : M GoErr (Z * Binding) :=
  row <-- onErr CheckPG (Q (CreateRoleBinding (inputBinding i))) ;;
  _ <-- notifyUserChange (biUserID i) ;;
  ret row.

Fixpoint createManyTx (inputs : list RoleBindingCreateInput) (created : Z) : M GoErr Z :=
  match inputs with
  | [] => ret created
  | i :: rest =>
      n <-- onErr wrap (Q (CreateRoleBindingIfNotExists (inputBinding i))) ;;
      createManyTx rest (created + n)
  end.

(** [CheckPG] of a transaction's error: it looks for the driver error in
    the chain. *)
Definition recheck (e : GoErr) : GoErr :=
  match e with Wrapped _ (Some c) => CheckPG c | _ => e end.

Definition CreateMany (inputs : list RoleBindingCreateInput) : M GoErr Z :=
  if bool_decide (inputs = []) then ret 0
  else
    created <-- onErr recheck (WithTx (createManyTx inputs 0)) ;;
    _ <-- forEach (fun i => notifyUserChange (biUserID i)) inputs ;;
    ret created.

Definition bindingDelete (id : Z) : M GoErr unit :=
  '(_, rb) <-- onErr (notFoundOr wrap) (Q (GetRoleBindingByID id)) ;;
  n <-- onErr CheckPG (Q (DeleteRoleBinding id)) ;;
  if n =? 0 then fail (tagged ErrNotFound)
  else _ <-- notifyUserChange (bUserID rb) ;; ret tt.

(** Notify each user once, in the order of first appearance. *)
Fixpoint notifyUnique (rows : list (Z * Z)) (seen : gset Z) : M GoErr unit :=
  match rows with
  | [] => ret tt
  | (_, u) :: rest =>
      if bool_decide (u ∈ seen) then notifyUnique rest seen
      else _ <-- notifyUserChange u ;; notifyUnique rest ({[u]} ∪ seen)
  end.

Definition bindingDeleteByIDs (ids : list Z) : M GoErr Z :=
  if bool_decide (ids = []) then ret 0
  else
    rows <-- onErr CheckPG (Q (DeleteRoleBindingsByIDs ids)) ;;
    _ <-- notifyUnique rows ∅ ;;
    ret (Z.of_nat (length rows)).

Definition bindingGetByID (id : Z) : M GoErr (Z * Binding) :=
  onErr (notFoundOr wrap) (Q (GetRoleBindingByID id)).

Definition CountByRoleAndScope (roleID : Z) (scope : string) : M GoErr Z :=
  onErr wrap (Q (CountRoleBindingsByRoleAndScope roleID scope)).

(** *** Members *)

Definition AddWorkspaceMember (userID ws roleID : Z) : M GoErr unit :=
  bindRoleID <-- (if roleID =? 0 then
                    '(id, _) <-- onErr wrap (Q (GetRoleByNameAndWorkspace RoleWorkspaceViewer ws)) ;;
                    ret id
                  else ret roleID) ;;
  _ <-- WithTx (onErr wrap (Q (AddWorkspaceMemberRole userID bindRoleID ws))) ;;
  notifyUserChange userID.

Definition AddNamespaceMember (userID ns roleID : Z) : M GoErr unit :=
  ws <-- onErr (notFoundOr wrap) (Q (GetNamespaceWorkspaceID ns)) ;;
  '(memberID, _) <-- onErr wrap (Q (GetRoleByNameAndWorkspace RoleWorkspaceMember ws)) ;;
  bindRoleID <-- (if roleID =? 0 then
                    '(id, _) <-- onErr wrap (Q (GetRoleByNameAndNamespace RoleNamespaceViewer ns)) ;;
                    ret id
                  else ret roleID) ;;
  _ <-- WithTx (
    _ <-- onErr wrap (Q (CreateRoleBindingIfNotExists
            (mkBinding userID memberID ScopeWorkspace (Some ws) None false))) ;;
    onErr wrap (Q (AddNamespaceMemberRole userID bindRoleID ws ns))) ;;
  notifyUserChange userID.

Definition RemoveWorkspaceMember (userID ws : Z) : M GoErr unit :=
  n <-- onErr wrap (Q (DeleteNonOwnerWorkspaceBindings userID ws)) ;;
  if n =? 0 then fail (tagged ErrBadRequest) else notifyUserChange userID.

Definition RemoveNamespaceMember (userID ns : Z) : M GoErr unit :=
  n <-- onErr wrap (Q (DeleteNonOwnerNamespaceBindings userID ns)) ;;
  if n =? 0 then fail (tagged ErrBadRequest) else notifyUserChange userID.

(** *** Ownership transfer *)

Definition findOwnerForUpdate (scope : string) (resourceID : Z) : M GoErr Z :=
  onErr (notFoundOr wrap)
    (Q (if scope =s ScopeWorkspace then GetWorkspaceOwnerForUpdate resourceID
        else GetNamespaceOwnerForUpdate resourceID)).

Definition checkMembership (scope : string) (resourceID userID : Z) : M GoErr bool :=
  onErr wrap (Q (if scope =s ScopeWorkspace then ExistsWorkspaceMember userID resourceID
                 else ExistsNamespaceMember userID resourceID)).

Definition clearOwner (scope : string) (resourceID : Z) : M GoErr unit :=
  onErr wrap (Q (if scope =s ScopeWorkspace then ClearWorkspaceOwner resourceID
                 else ClearNamespaceOwner resourceID)).

Definition lookupAdminRoleID (scope : string) (resourceID : Z) (adminRoleName : string) : M GoErr Z :=
  '(id, _) <-- onErr (fun e => match e with ErrNoRows => Wrapped None None | _ => wrap e end)
                 (Q (if scope =s ScopeWorkspace
                     then GetRoleByNameAndWorkspace adminRoleName resourceID
                     else GetRoleByNameAndNamespace adminRoleName resourceID)) ;;
  ret id.

Definition upsertOwner (scope : string) (resourceID newOwner adminRoleID : Z) : M GoErr unit :=
  if scope =s ScopeWorkspace then onErr wrap (Q (UpsertWorkspaceOwner newOwner adminRoleID resourceID))
  else
    ws <-- onErr wrap (Q (GetNamespaceWorkspaceID resourceID)) ;;
    onErr wrap (Q (UpsertNamespaceOwner newOwner adminRoleID ws resourceID)).

Definition transferOwnershipTx (scope : string) (resourceID callerID : Z) (callerIsPlatformAdmin : bool)
    (newOwner : Z) (adminRoleName : string) : M GoErr Z :=
  oldOwner <-- findOwnerForUpdate scope resourceID ;;
  if negb callerIsPlatformAdmin && negb (callerID =? oldOwner) then fail (tagged ErrForbidden)
  else
    isMember <-- checkMembership scope resourceID newOwner ;;
    if negb isMember then fail (tagged ErrBadRequest)
    else
      _ <-- clearOwner scope resourceID ;;
      adminRoleID <-- lookupAdminRoleID scope resourceID adminRoleName ;;
      _ <-- upsertOwner scope resourceID newOwner adminRoleID ;;
      ret oldOwner.

Definition TransferOwnership (scope : string) (resourceID callerID : Z) (callerIsPlatformAdmin : bool)
    (newOwner : Z) (adminRoleName : string) : M GoErr Z :=
  if negb (scope =s ScopeWorkspace) && negb (scope =s ScopeNamespace) then fail (Wrapped None None)
  else
    oldOwner <-- WithTx (transferOwnershipTx scope resourceID callerID callerIsPlatformAdmin
                           newOwner adminRoleName) ;;
    _ <-- notifyUserChange oldOwner ;;
    _ <-- notifyUserChange newOwner ;;
    ret oldOwner.

(** *** Access *)

Definition bindingLoadUserPermissionRules (userID : Z) : M GoErr (list UserPermissionRuleRow) :=
  onErr wrap (Q (LoadUserPermissionRules userID)).

Definition bindingGetAccessibleWorkspaceIDs (userID : Z) : M GoErr (list Z) :=
  onErr wrap (Q (GetAccessibleWorkspaceIDs userID)).

Definition bindingGetAccessibleNamespaceIDs (userID : Z) : M GoErr (list Z) :=
  onErr wrap (Q (GetAccessibleNamespaceIDs userID)).

Definition bindingGetUserIDsByWorkspaceID (ws : Z) : M GoErr (list Z) :=
  onErr wrap (Q (GetUserIDsByWorkspaceID ws)).

Definition bindingGetUserIDsByNamespaceID (ns : Z) : M GoErr (list Z) :=
  onErr wrap (Q (GetUserIDsByNamespaceID ns)).

Definition bindingGetUserRoleBindingsWithRules (userID : Z)
    : M GoErr (list (string * UserPermissionRuleRow)) :=
  onErr wrap (Q (GetUserRoleBindingsWithRules userID)).

(** ** [pgRegistrationStore] *)

Record RegisterLocalInput := mkRegister {
  rlUsername : string; rlEmail : string; rlDisplayName : string; rlPasswordHash : string;
  rlDefaultRoleName : string
}.

Record SocialLoginInput := mkSocial {
  slProvider : string; slSubject : string; slEmail : string; slUsername : string;
  slDisplayName : string; slAvatarURL : string; slDefaultRoleName : string; slAllowCreate : bool
}.

Definition bindDefaultPlatformRole (userID : Z) (roleName : string) : M GoErr unit :=
  if roleName =s "" then ret tt
  else
    '(roleID, _) <-- onErr wrap (Q (GetRoleByName roleName)) ;;
    _ <-- onErr wrap (Q (CreateRoleBindingIfNotExists
            (mkBinding userID roleID ScopePlatform None None false))) ;;
    ret tt.

Definition RegisterLocal (i : RegisterLocalInput) : M GoErr (Z * User) :=
  WithTx (
    '(id, row) <-- onErr CheckPG (Q (CreateUser (rlUsername i) (rlEmail i) (rlDisplayName i)
                                       "" "" "active")) ;;
    _ <-- onErr wrap (Q (SetPasswordHash id (rlPasswordHash i))) ;;
    _ <-- bindDefaultPlatformRole id (rlDefaultRoleName i) ;;
    ret (id, row)).

Definition requireActive (status : string) : M GoErr unit :=
  if negb (status =s "active") then fail (tagged ErrForbidden) else ret tt.

Definition getUserRowByID (id : Z) : M GoErr (Z * User) := onErr wrap (Q (GetUserByID id)).

(** The candidate tried after [base] or [base-(i-1)] is taken. *)
Definition suffixed (base : string) (i : Z) : string :=
  let suffix := "-" +++ FormatInt i in
  let trimmed :=
    if 50 <? Z.of_nat (String.length base + String.length suffix)
    then str_take (50 - String.length suffix) base else base in
  trimmed +++ suffix.

Fixpoint uniqueUsernameFrom (fuel : nat) (base : string) (i : Z) (candidate : string)
    : M GoErr string :=
  match fuel with
  | O => fail (Wrapped None None)
  | S fuel' =>
      r <-- attempt (Q (GetUserByUsername candidate)) ;;
      match r with
      | Err ErrNoRows => ret candidate
      | Err e => fail (wrap e)
      | Ok _ => uniqueUsernameFrom fuel' base (i + 1) (suffixed base i)
      end
  end.

(** [for i := 2; i <= 20; i++]: nineteen lookups, of base, base-2, ..., base-19. *)
Definition uniqueUsername (base : string) : M GoErr string := uniqueUsernameFrom 19 base 2 base.

(** Step 2, first half: the user carrying the verified email, if any. *)
Definition socialByEmail (email : string) : M GoErr Z :=
  if email =s "" then ret 0
  else
    r <-- attempt (Q (GetUserByEmail email)) ;;
    match r with
    | Ok (uid, u) =>
        if uBuiltin u then fail (tagged ErrForbidden)
        else _ <-- requireActive (uStatus u) ;; ret uid
    | Err ErrNoRows => ret 0
    | Err e => fail (wrap e)
    end.

(** Step 2, second half: a new account. *)
Definition socialCreate (i : SocialLoginInput) : M GoErr Z :=
  if negb (slAllowCreate i) then fail (tagged ErrForbidden)
  else
    username <-- uniqueUsername (slUsername i) ;;
    '(uid, _) <-- onErr CheckPG (Q (CreateUser username (slEmail i) (slDisplayName i) ""
                                      (slAvatarURL i) "active")) ;;
    _ <-- bindDefaultPlatformRole uid (slDefaultRoleName i) ;;
    ret uid.

Definition FindOrCreateSocial (i : SocialLoginInput) : M GoErr (Z * User) :=
  WithTx (
    ident <-- attempt (Q (GetUserIdentity (slProvider i) (slSubject i))) ;;
    match ident with
    | Ok (_, idn) =>
        '(uid, row) <-- getUserRowByID (iUserID idn) ;;
        _ <-- requireActive (uStatus row) ;;
        ret (uid, row)
    | Err ErrNoRows =>
        found <-- socialByEmail (slEmail i) ;;
        userID <-- (if found =? 0 then socialCreate i else ret found) ;;
        _ <-- onErr CheckPG (Q (CreateUserIdentity userID (slProvider i) (slSubject i) (slEmail i))) ;;
        getUserRowByID userID
    | Err e => fail (wrap e)
    end).

(** ** [pgPermissionStore] *)

Record PermissionUpsertInput := mkPermInput {
  piCode : string; piMethod : string; piPath : string; piScope : string; piDescription : string
}.

Definition ListCodeScopes : M GoErr (list (string * string)) :=
  onErr wrap (Q ListAllPermissionCodesWithScope).

Definition ListAllCodes : M GoErr (list string) := onErr wrap (Q ListAllPermissionCodes).

Definition codeScope (p : PermissionUpsertInput) : string := piCode p +++ ":" +++ piScope p.

Definition SyncModule (modulePrefix : string) (perms : list PermissionUpsertInput) : M GoErr unit :=
  WithTx (
    _ <-- forEach (fun p => onErr wrap (Q (UpsertPermission (piCode p) (piMethod p) (piPath p)
                                             (piScope p) (piDescription p)))) perms ;;
    onErr wrap (Q (DeletePermissionsByModulePrefix modulePrefix (codeScope <$> perms)))).

End IamStore.
