(* ===== verification/IamValidation.v ===== *)
(** * IAM request validation

    [pkg/apis/iam/validation.go]: the field checks of users, workspaces,
    namespaces, roles, permission patterns and passwords. The regular
    expressions are terms of a small syntax, matched by derivatives, whose
    matcher is proved against the usual semantics. [net/mail.ParseAddress]
    is the parameter [validAddress]. *)

From S2P Require Import Prelude Rbac IamDb IamStore.

Module IamValidation.
Import Rbac IamDb IamStore.

(** ** Regular expressions *)

Inductive regex :=
| RNone
| REps
| RChar (c : ascii -> bool)
| RSeq (r1 r2 : regex)
| RAlt (r1 r2 : regex)
| RStar (r : regex).

Fixpoint RRep (n : nat) (r : regex) : regex :=
  match n with O => REps | S n' => RSeq r (RRep n' r) end.

(** [r{m,m+k}]. *)
Fixpoint RUpTo (k : nat) (r : regex) : regex :=
  match k with O => REps | S k' => RAlt REps (RSeq r (RUpTo k' r)) end.

Definition RBetween (m n : nat) (r : regex) : regex := RSeq (RRep m r) (RUpTo (n - m) r).
Definition RPlus (r : regex) : regex := RSeq r (RStar r).

Definition lit (c : ascii) : regex := RChar (Ascii.eqb c).

Fixpoint nullable (r : regex) : bool :=
  match r with
  | RNone | RChar _ => false
  | REps | RStar _ => true
  | RSeq r1 r2 => nullable r1 && nullable r2
  | RAlt r1 r2 => nullable r1 || nullable r2
  end.

Fixpoint deriv (c : ascii) (r : regex) : regex :=
  match r with
  | RNone | REps => RNone
  | RChar p => if p c then REps else RNone
  | RSeq r1 r2 =>
      if nullable r1 then RAlt (RSeq (deriv c r1) r2) (deriv c r2) else RSeq (deriv c r1) r2
  | RAlt r1 r2 => RAlt (deriv c r1) (deriv c r2)
  | RStar r1 => RSeq (deriv c r1) (RStar r1)
  end.

(** Drop branches that cannot match, so that derivatives stay small. *)
Fixpoint simp (r : regex) : regex :=
  match r with
  | RSeq r1 r2 =>
      match simp r1, simp r2 with
      | RNone, _ | _, RNone => RNone
      | REps, s2 => s2
      | s1, s2 => RSeq s1 s2
      end
  | RAlt r1 r2 =>
      match simp r1, simp r2 with
      | RNone, s2 => s2
      | s1, RNone => s1
      | s1, s2 => RAlt s1 s2
      end
  | _ => r
  end.

(** [^r$]: the whole text matches. *)
Fixpoint MatchString (r : regex) (s : string) : bool :=
  match s with
  | EmptyString => nullable r
  | String c s' => MatchString (simp (deriv c r)) s'
  end.

(** ** Character classes *)

Definition lower : ascii -> bool := inRange 97 122.
Definition upper : ascii -> bool := inRange 65 90.
Definition digit : ascii -> bool := inRange 48 57.
Definition alnum (c : ascii) : bool := lower c || upper c || digit c.
Definition wordDash (c : ascii) : bool :=
  alnum c || Ascii.eqb c "_"%char || Ascii.eqb c "-"%char.
Definition segChar (c : ascii) : bool := alnum c || Ascii.eqb c "-"%char.

Definition seg : regex := RSeq (RChar lower) (RStar (RChar segChar)).

Definition usernameRegexp : regex := RBetween 3 50 (RChar wordDash).
Definition phoneRegexp : regex :=
  RSeq (lit "1") (RSeq (RChar (inRange 51 57)) (RRep 9 (RChar digit))).
Definition workspaceNameRegexp : regex :=
  RSeq (RChar alnum) (RSeq (RBetween 1 48 (RChar wordDash)) (RChar alnum)).
Definition namespaceNameRegexp : regex := workspaceNameRegexp.
Definition roleNameRegexp : regex := workspaceNameRegexp.

(** An unanchored one-character expression: some character matches. *)
Fixpoint someChar (p : ascii -> bool) (s : string) : bool :=
  match s with EmptyString => false | String c s' => p c || someChar p s' end.

(** Segments each preceded by a colon: [(:seg)*]. *)
Definition colonSegs : regex := RStar (RSeq (lit ":") seg).

Definition validPatternRegexp : regex :=
  RAlt (RSeq (lit "*") (RSeq (lit ":") (lit "*")))
    (RAlt (RSeq (RAlt (lit "*") seg) (RSeq colonSegs (RSeq (lit ":") (lit "*"))))
       (RAlt (RSeq (lit "*") (RSeq (lit ":") (RSeq seg colonSegs)))
          (RSeq seg (RPlus (RSeq (lit ":") seg))))).

(** ** Field checks *)

Definition ErrorList : Type := list FieldError.
Definition HasErrors (e : ErrorList) : bool := negb (bool_decide (e = [])).

Definition when (b : bool) (field message : string) : ErrorList :=
  if b then [mkFieldError field message] else [].

Definition checkDisplayName (s : string) : ErrorList :=
  when (128 <? RuneCountInString s) "spec.displayName" "must be at most 128 characters".
Definition checkDescription (s : string) : ErrorList :=
  when (1000 <? RuneCountInString s) "spec.description" "must be at most 1000 characters".
Definition checkStatus (s : string) : ErrorList :=
  when (negb (s =s "") && negb (s =s "active") && negb (s =s "inactive"))
    "spec.status" "must be 'active' or 'inactive'".
Definition checkVisibility (s : string) : ErrorList :=
  when (negb (s =s "") && negb (s =s "public") && negb (s =s "private"))
    "spec.visibility" "must be 'public' or 'private'".
Definition checkMaxMembers (n : Z) : ErrorList :=
  when ((n <? 0) || (1000000 <? n)) "spec.maxMembers" "must be between 0 and 1000000".

Record UserSpec := mkUserSpec {
  usUsername : string; usEmail : string; usDisplayName : string; usPhone : string;
  usAvatarURL : string; usPassword : string; usStatus : string
}.

Record WorkspaceSpec := mkWorkspaceSpec {
  wspDisplayName : string; wspDescription : string; wspOwnerID : string; wspStatus : string
}.

Record NamespaceSpec := mkNamespaceSpec {
  nspDisplayName : string; nspDescription : string; nspWorkspaceID : string; nspOwnerID : string;
  nspVisibility : string; nspMaxMembers : Z; nspStatus : string
}.

Record RoleSpec := mkRoleSpec {
  rspName : string; rspDisplayName : string; rspDescription : string; rspScope : string;
  rspRules : list string
}.

Section Users.
Context (validAddress : string -> bool).

Definition ValidateUserCreate (spec : UserSpec) : ErrorList :=
  (if usUsername spec =s "" then [mkFieldError "spec.username" "is required"]
   else when (negb (MatchString usernameRegexp (usUsername spec))) "spec.username"
          "must be 3-50 alphanumeric characters, underscores, or hyphens") ++
  (if usEmail spec =s "" then [mkFieldError "spec.email" "is required"]
   else if (255 <? Z.of_nat (String.length (usEmail spec)))
   then [mkFieldError "spec.email" "must be at most 255 characters"]
   else when (negb (validAddress (usEmail spec))) "spec.email" "is not a valid email address") ++
  (if usPhone spec =s "" then [mkFieldError "spec.phone" "is required"]
   else when (negb (MatchString phoneRegexp (usPhone spec))) "spec.phone"
          "must be a valid Chinese mobile number (e.g. 13800138000)") ++
  checkDisplayName (usDisplayName spec) ++ checkStatus (usStatus spec).

Definition ValidateUserUpdate (spec : UserSpec) : ErrorList := ValidateUserCreate spec.
End Users.

Definition ValidateWorkspaceCreate (name : string) (spec : WorkspaceSpec) : ErrorList :=
  (if name =s "" then [mkFieldError "metadata.name" "is required"]
   else when (negb (MatchString workspaceNameRegexp name)) "metadata.name"
          "must be 3-50 lowercase alphanumeric characters or hyphens") ++
  when (wspOwnerID spec =s "") "spec.ownerId" "is required" ++
  checkDisplayName (wspDisplayName spec) ++ checkDescription (wspDescription spec) ++
  checkStatus (wspStatus spec).

Definition ValidateNamespaceCreate (name : string) (spec : NamespaceSpec) : ErrorList :=
  (if name =s "" then [mkFieldError "metadata.name" "is required"]
   else when (negb (MatchString namespaceNameRegexp name)) "metadata.name"
          "must be 3-50 lowercase alphanumeric characters or hyphens") ++
  when (nspWorkspaceID spec =s "") "spec.workspaceId" "is required" ++
  when (nspOwnerID spec =s "") "spec.ownerId" "is required" ++
  checkDisplayName (nspDisplayName spec) ++ checkDescription (nspDescription spec) ++
  checkVisibility (nspVisibility spec) ++ checkMaxMembers (nspMaxMembers spec).

Definition ValidateWorkspaceUpdate (spec : WorkspaceSpec) : ErrorList :=
  checkDisplayName (wspDisplayName spec) ++ checkDescription (wspDescription spec) ++
  checkStatus (wspStatus spec).

Definition ValidateNamespaceUpdate (spec : NamespaceSpec) : ErrorList :=
  checkDisplayName (nspDisplayName spec) ++ checkDescription (nspDescription spec) ++
  checkVisibility (nspVisibility spec) ++ checkMaxMembers (nspMaxMembers spec) ++
  checkStatus (nspStatus spec).

Definition validRoleScopes (scope : string) : bool :=
  (scope =s ScopePlatform) || (scope =s ScopeWorkspace) || (scope =s ScopeNamespace).

Definition ValidatePermissionPattern (pattern : string) : ErrorList :=
  if pattern =s "" then [mkFieldError "pattern" "cannot be empty"]
  else when (negb (MatchString validPatternRegexp pattern)) "pattern" ("invalid pattern: " +++ pattern).

Definition ruleField (i : nat) : string := "spec.rules[" +++ FormatInt (Z.of_nat i) +++ "]".

(** The loop over the rules, with its index. *)
Fixpoint validateRules (i : nat) (rules : list string) : ErrorList :=
  match rules with
  | [] => []
  | rule :: rest =>
      ((fun e => mkFieldError (ruleField i) (feMessage e)) <$> ValidatePermissionPattern rule)
      ++ validateRules (S i) rest
  end.

Definition ValidateRoleCreate (spec : RoleSpec) : ErrorList :=
  (if rspName spec =s "" then [mkFieldError "spec.name" "is required"]
   else when (negb (MatchString roleNameRegexp (rspName spec))) "spec.name"
          "must match ^[a-zA-Z0-9][a-zA-Z0-9_-]{1,48}[a-zA-Z0-9]$") ++
  checkDisplayName (rspDisplayName spec) ++ checkDescription (rspDescription spec) ++
  when (negb (validRoleScopes (rspScope spec))) "spec.scope" "must be platform, workspace, or namespace" ++
  when (bool_decide (rspRules spec = [])) "spec.rules" "must not be empty" ++
  validateRules 0 (rspRules spec).

Definition ValidateRoleUpdate (spec : RoleSpec) : ErrorList :=
  checkDisplayName (rspDisplayName spec) ++ checkDescription (rspDescription spec) ++
  when (bool_decide (rspRules spec = [])) "spec.rules" "must not be empty" ++
  validateRules 0 (rspRules spec).

(** The double quote of [%q]; the patterns it is applied to have passed
    [ValidatePermissionPattern] and need no escapes. *)
Definition quote : string := String (ascii_of_nat 34) EmptyString.

Fixpoint validateScopes (i : nat) (roleScope : string) (scopedCodes : list string)
    (rules : list string) : ErrorList :=
  match rules with
  | [] => []
  | rule :: rest =>
      when (negb (existsb (MatchPermission rule) scopedCodes)) (ruleField i)
        ("pattern " +++ quote +++ rule +++ quote +++ " matches no permissions at " +++ roleScope
           +++ " scope")
      ++ validateScopes (S i) roleScope scopedCodes rest
  end.

Definition ValidateRuleScopes (roleScope : string) (rules : list string)
    (codeScopes : list (string * string)) : ErrorList :=
  validateScopes 0 roleScope
    (fst <$> filter (fun cs => cs.2 = roleScope) codeScopes) rules.

Definition ValidatePassword (password : string) : ErrorList :=
  let n := Z.of_nat (String.length password) in
  if (n <? 8) || (72 <? n) then [mkFieldError "spec.password" "must be 8-72 bytes"]
  else
    when (negb (someChar upper password)) "spec.password"
      "must contain at least one uppercase letter" ++
    when (negb (someChar lower password)) "spec.password"
      "must contain at least one lowercase letter" ++
    when (negb (someChar digit password)) "spec.password" "must contain at least one digit".

(** ** The matcher *)

Inductive matches : regex -> string -> Prop :=
| m_eps : matches REps ""
| m_char p c : p c = true -> matches (RChar p) (String c "")
| m_seq r1 r2 s1 s2 : matches r1 s1 -> matches r2 s2 -> matches (RSeq r1 r2) (s1 +++ s2)
| m_alt_l r1 r2 s : matches r1 s -> matches (RAlt r1 r2) s
| m_alt_r r1 r2 s : matches r2 s -> matches (RAlt r1 r2) s
| m_star_nil r : matches (RStar r) ""
| m_star_app r s1 s2 : matches r s1 -> matches (RStar r) s2 -> matches (RStar r) (s1 +++ s2).

#[local] Hint Constructors matches : vraxel.

Lemma app_eq_nil_s a b : a +++ b = "" <-> a = "" /\ b = "".
Proof. destruct a; cbn; [tauto | split; [done | by intros [? _]]]. Qed.

Lemma matches_none s : ~ matches RNone s.
Proof. by inversion 1. Qed.

Lemma matches_eps s : matches REps s <-> s = "".
Proof. split; [by inversion 1 | intros ->; constructor]. Qed.

Lemma matches_char p s : matches (RChar p) s <-> exists c, s = String c "" /\ p c = true.
Proof. split; [inversion 1; eauto | intros (c & -> & H); by constructor]. Qed.

Lemma matches_seq r1 r2 s :
  matches (RSeq r1 r2) s <-> exists s1 s2, s = s1 +++ s2 /\ matches r1 s1 /\ matches r2 s2.
Proof. split; [inversion 1; eauto | intros (s1 & s2 & -> & H1 & H2); by constructor]. Qed.

Lemma matches_alt r1 r2 s : matches (RAlt r1 r2) s <-> matches r1 s \/ matches r2 s.
Proof. split; [inversion 1; eauto | intros [H|H]; auto with vraxel]. Qed.

(** A non-empty match of a star begins with a non-empty match of its body. *)
Lemma matches_star_cons r c s :
  matches (RStar r) (String c s) <->
  exists s1 s2, s = s1 +++ s2 /\ matches r (String c s1) /\ matches (RStar r) s2.
Proof.
  split.
  - remember (RStar r) as r' eqn:Er. remember (String c s) as s' eqn:Es. intros H. revert c s Es.
    induction H as [| | | | | |r0 s1 s2 H1 _ H2 IH2]; intros c' s' Es; try discriminate.
    injection Er as ->. destruct s1 as [|a s1]; cbn in Es.
    + by apply (IH2 eq_refl).
    + injection Es as -> <-. eauto.
  - intros (s1 & s2 & -> & H1 & H2). by apply (m_star_app r (String c s1)).
Qed.

Lemma nullable_spec r : nullable r = true <-> matches r "".
Proof.
  induction r as [| |p|r1 IH1 r2 IH2|r1 IH1 r2 IH2|r1 IH1]; cbn.
  - split; [done | by intros ?%matches_none].
  - split; [constructor | done].
  - split; [done | by intros (c & ? & _)%matches_char].
  - rewrite andb_true_iff, IH1, IH2, matches_seq. split.
    + intros [H1 H2]. by exists "", "".
    + intros (s1 & s2 & E & H1 & H2). symmetry in E. apply app_eq_nil_s in E as [-> ->]. done.
  - by rewrite orb_true_iff, IH1, IH2, matches_alt.
  - split; [constructor | done].
Qed.

Lemma deriv_spec r c s : matches (deriv c r) s <-> matches r (String c s).
Proof.
  revert s. induction r as [| |p|r1 IH1 r2 IH2|r1 IH1 r2 IH2|r1 IH1]; intros s; cbn.
  - split; by intros ?%matches_none.
  - split; [by intros ?%matches_none | by intros ?%matches_eps].
  - rewrite matches_char. destruct (p c) eqn:E.
    + rewrite matches_eps. split; [intros ->; eauto | by intros (? & [= -> ->] & _)].
    + split; [by intros ?%matches_none | intros (? & [= -> ->] & ?); congruence].
  - assert (Hseq : matches (RSeq (deriv c r1) r2) s <->
              exists s1 s2, s = s1 +++ s2 /\ matches r1 (String c s1) /\ matches r2 s2).
    { rewrite matches_seq. by setoid_rewrite IH1. }
    assert (Hr : matches (RSeq r1 r2) (String c s) <->
              (exists s1 s2, s = s1 +++ s2 /\ matches r1 (String c s1) /\ matches r2 s2)
              \/ (matches r1 "" /\ matches r2 (String c s))).
    { rewrite matches_seq. split.
      - intros ([|a s1] & s2 & E & H1 & H2); cbn in E; [subst; by right|].
        injection E as -> ->. left. eauto.
      - intros [(s1 & s2 & -> & H1 & H2)|[H1 H2]]; [exists (String c s1), s2 | exists "", (String c s)]; done. }
    rewrite Hr, <- nullable_spec, <- IH2. destruct (nullable r1).
    + rewrite matches_alt, Hseq. tauto.
    + rewrite Hseq. intuition discriminate.
  - by rewrite !matches_alt, IH1, IH2.
  - rewrite matches_seq, matches_star_cons. by setoid_rewrite IH1.
Qed.

Lemma matches_seq_none_l r s : matches (RSeq RNone r) s <-> matches RNone s.
Proof. rewrite matches_seq. split; [by intros (? & ? & _ & ?%matches_none & _) | by intros ?%matches_none]. Qed.

Lemma matches_seq_none_r r s : matches (RSeq r RNone) s <-> matches RNone s.
Proof. rewrite matches_seq. split; [by intros (? & ? & _ & _ & ?%matches_none) | by intros ?%matches_none]. Qed.

Lemma matches_seq_eps r s : matches (RSeq REps r) s <-> matches r s.
Proof.
  rewrite matches_seq. split; [by intros (? & ? & -> & ->%matches_eps & H) | intros H; exists "", s; split_and!; [done | constructor | done]].
Qed.

Lemma matches_alt_none_l r s : matches (RAlt RNone r) s <-> matches r s.
Proof. rewrite matches_alt. split; [by intros [?%matches_none|?] | by right]. Qed.

Lemma matches_alt_none_r r s : matches (RAlt r RNone) s <-> matches r s.
Proof. rewrite matches_alt. split; [by intros [?|?%matches_none] | by left]. Qed.

Lemma simp_spec r s : matches (simp r) s <-> matches r s.
Proof.
  revert s. induction r as [| |p|r1 IH1 r2 IH2|r1 IH1 r2 IH2|r1 IH1]; intros s; cbn; [done..| | |done].
  - transitivity (matches (RSeq (simp r1) (simp r2)) s).
    + destruct (simp r1) eqn:E1, (simp r2) eqn:E2;
        rewrite ?matches_seq_none_l, ?matches_seq_none_r, ?matches_seq_eps; done.
    + rewrite !matches_seq. setoid_rewrite IH1. by setoid_rewrite IH2.
  - transitivity (matches (RAlt (simp r1) (simp r2)) s).
    + destruct (simp r1) eqn:E1, (simp r2) eqn:E2;
        rewrite ?matches_alt_none_l, ?matches_alt_none_r; done.
    + by rewrite !matches_alt, IH1, IH2.
Qed.

Lemma MatchString_spec r s : MatchString r s = true <-> matches r s.
Proof.
  revert r. induction s as [|c s IH]; intros r; cbn; [apply nullable_spec|].
  by rewrite IH, simp_spec, deriv_spec.
Qed.

(** ** Permission patterns *)

Fixpoint allChars (p : ascii -> bool) (s : string) : bool :=
  match s with EmptyString => true | String c s' => p c && allChars p s' end.

Definition isSeg (s : string) : bool :=
  match s with String c s' => lower c && allChars segChar s' | EmptyString => false end.

(** The accepted shapes of a colon-separated pattern: segments only, "*"
    then segments, or anything of those two ended by "*". *)
Definition patternForm (parts : list string) : bool :=
  match parts with
  | first :: ((_ :: _) as rest) =>
      (isSeg first && forallb isSeg rest)
      || ((first =s "*") && forallb isSeg rest)
      || (((first =s "*") || isSeg first) && forallb isSeg (removelast rest)
          && (List.last rest "" =s "*"))
  | _ => false
  end.

Fixpoint colonJoin (parts : list string) : string :=
  match parts with [] => "" | a :: l => String ":" (a +++ colonJoin l) end.

Lemma Join_colon a l : Join (a :: l) ":" = a +++ colonJoin l.
Proof.
  revert a. induction l as [|b l IH]; intros a; [cbn; by rewrite app_nil_r_s|].
  change (Join (a :: b :: l) ":") with (a +++ String ":" (Join (b :: l) ":")). by rewrite IH.
Qed.

Lemma colonJoin_app l1 l2 : colonJoin (l1 ++ l2) = colonJoin l1 +++ colonJoin l2.
Proof. induction l1 as [|a l1 IH]; cbn; [done | by rewrite IH, app_assoc_s]. Qed.

Lemma matches_charStar p s : matches (RStar (RChar p)) s <-> allChars p s = true.
Proof.
  induction s as [|c s IH]; cbn; [split; [done | constructor]|].
  rewrite matches_star_cons, andb_true_iff, <- IH. split.
  - intros (s1 & s2 & -> & (c' & [= -> ->] & Hp)%matches_char & H2). done.
  - intros [Hp H]. exists "", s. split_and!; [done | by constructor | done].
Qed.

Lemma matches_seg s : matches seg s <-> isSeg s = true.
Proof.
  unfold seg. rewrite matches_seq. split.
  - intros (s1 & s2 & -> & (c & -> & Hc)%matches_char & H2%matches_charStar). cbn. by rewrite Hc, H2.
  - destruct s as [|c s]; cbn; [done|]. intros [Hc Hs]%andb_true_iff.
    exists (String c ""), s. split_and!; [done | by constructor | by apply matches_charStar].
Qed.

Lemma matches_lit c s : matches (lit c) s <-> s = String c "".
Proof.
  unfold lit. rewrite matches_char. split.
  - intros (c' & -> & ->%Ascii.eqb_eq). done.
  - intros ->. exists c. by rewrite Ascii.eqb_refl.
Qed.

Lemma matches_lit_seq c r s : matches (RSeq (lit c) r) s <-> exists s', s = String c s' /\ matches r s'.
Proof.
  rewrite matches_seq. split.
  - intros (s1 & s2 & -> & ->%matches_lit & H). cbn. eauto.
  - intros (s' & -> & H). exists (String c ""), s'. by rewrite matches_lit.
Qed.

Lemma matches_colonSegs s :
  matches colonSegs s <-> exists l, Forall (fun p => isSeg p = true) l /\ s = colonJoin l.
Proof.
  unfold colonSegs. split.
  - remember (RStar (RSeq (lit ":") seg)) as r eqn:Er. intros H.
    induction H as [| | | | |r0|r0 s1 s2 H1 _ H2 IH2]; try discriminate.
    + by exists [].
    + injection Er as ->. apply matches_lit_seq in H1 as (p & -> & Hp%matches_seg).
      destruct (IH2 eq_refl) as (l & Hl & ->). exists (p :: l). by split; [constructor | ].
  - intros (l & Hl & ->). induction Hl as [|p l Hp Hl IH]; cbn; [constructor|].
    change (String ":" (p +++ colonJoin l)) with ((String ":" p) +++ colonJoin l).
    constructor; [|done]. apply matches_lit_seq. exists p. by rewrite matches_seg.
Qed.

#[local] Opaque seg colonSegs.

(** What the expression accepts, as a list of parts. *)
Lemma matches_pattern s :
  matches validPatternRegexp s <->
  exists first rest, s = Join (first :: rest) ":" /\ rest <> [] /\
    ((isSeg first = true \/ first = "*") /\ Forall (fun p => isSeg p = true) rest
     \/ exists init, rest = init ++ ["*"] /\ (isSeg first = true \/ first = "*")
          /\ Forall (fun p => isSeg p = true) init).
Proof.
  setoid_rewrite Join_colon. unfold validPatternRegexp, RPlus.
  rewrite !matches_alt, !matches_lit_seq, !matches_seq. setoid_rewrite matches_alt.
  setoid_rewrite matches_lit_seq. setoid_rewrite matches_seq. setoid_rewrite matches_colonSegs.
  setoid_rewrite matches_lit_seq. setoid_rewrite matches_lit. setoid_rewrite matches_seg. split.
  - intros [H|[H|[H|H]]].
    + destruct H as (? & -> & ? & -> & ->). exists "*", ["*"]. split_and!; [done..|].
      right. exists []. eauto.
    + destruct H as (f & ? & -> & Hf & ? & ? & -> & (l & Hl & ->) & ? & -> & ->).
      exists f, (l ++ ["*"]). rewrite colonJoin_app. split_and!; [done | by destruct l|].
      right. exists l. split_and!; [done | tauto | done].
    + destruct H as (? & -> & ? & -> & p & ? & -> & Hp & l & Hl & ->).
      exists "*", (p :: l). split_and!; [done..|]. left. split; [by right | by constructor].
    + destruct H as (f & ? & -> & Hf & ? & ? & -> & (p & -> & Hp) & l & Hl & ->).
      exists f, (p :: l). split_and!; [done..|]. left. split; [by left | by constructor].
  - intros (f & rest & -> & Hne & [[Hf Hr]|(l & -> & Hf & Hl)]).
    + destruct rest as [|p l]; [done|]. inversion_clear Hr. destruct Hf as [Hf | ->].
      * right. right. right. exists f, (colonJoin (p :: l)). split_and!; [done..|].
        exists (String ":" p), (colonJoin l). split_and!; [done | by exists p | by exists l].
      * right. right. left. exists (colonJoin (p :: l)). split; [done|].
        exists (p +++ colonJoin l). split; [done|]. exists p, (colonJoin l).
        split_and!; [done..|by exists l].
    + right. left. exists f, (colonJoin (l ++ ["*"])). split_and!; [done | tauto |].
      exists (colonJoin l), ":*". rewrite colonJoin_app. split_and!; [done | by exists l |].
      by exists "*".
Qed.

Lemma allChars_no_colon s : allChars segChar s = true -> str_in ":" s = false.
Proof.
  induction s as [|c s IH]; cbn; [done|]. intros [Hc Hs]%andb_true_iff. rewrite IH by done.
  destruct (Ascii.eqb_spec c ":"); [subst; by vm_compute in Hc | done].
Qed.

Lemma isSeg_no_colon s : isSeg s = true -> str_in ":" s = false.
Proof.
  destruct s as [|c s]; cbn; [done|]. intros [Hc Hs]%andb_true_iff.
  rewrite allChars_no_colon by done.
  destruct (Ascii.eqb_spec c ":"); [subst; by vm_compute in Hc | done].
Qed.

Lemma isSeg_not_star s : isSeg s = true -> s <> "*".
Proof. intros H ->. by vm_compute in H. Qed.

#[local] Hint Resolve isSeg_no_colon : vraxel.

Definition noColon (l : list string) : Prop := Forall (fun p => str_in ":" p = false) l.

Lemma segs_noColon l : Forall (fun p => isSeg p = true) l -> noColon l.
Proof. intros H. eapply Forall_impl; [exact H|]. auto with vraxel. Qed.

(** The parts of an accepted pattern, as a proposition. *)
Lemma patternForm_spec parts :
  patternForm parts = true <->
  exists first rest, parts = first :: rest /\ rest <> [] /\
    ((isSeg first = true \/ first = "*") /\ Forall (fun p => isSeg p = true) rest
     \/ exists init, rest = init ++ ["*"] /\ (isSeg first = true \/ first = "*")
          /\ Forall (fun p => isSeg p = true) init).
Proof.
  assert (Hf : forall l, forallb isSeg l = true <-> Forall (fun p => isSeg p = true) l).
  { intros l. rewrite forallb_forall, List.Forall_forall. done. }
  destruct parts as [|first [|r0 r]].
  { split; [done | by intros (? & ? & ? & _)]. }
  { split; [done | by intros (? & ? & [= -> <-] & ? & _)]. }
  cbn [patternForm]. rewrite !orb_true_iff, !andb_true_iff, orb_true_iff, !Hf, !String.eqb_eq.
  split.
  - intros H. exists first, (r0 :: r). split_and!; [done..|].
    destruct H as [[[H1 H2]|[H1 H2]]|[[H1 H2] H3]]; [left; tauto | left; tauto | right].
    exists (removelast (r0 :: r)).
    split_and!; [rewrite <- H3 at 1; by apply app_removelast_last | tauto | done].
  - intros (f & rest & [= -> <-] & _ & [[H1 H2]|(init & E & H1 & H2)]); [tauto|].
    right. rewrite E, removelast_last, last_last. tauto.
Qed.

Lemma form_noColon first rest :
  ((isSeg first = true \/ first = "*") /\ Forall (fun p => isSeg p = true) rest
     \/ exists init, rest = init ++ ["*"] /\ (isSeg first = true \/ first = "*")
          /\ Forall (fun p => isSeg p = true) init) -> noColon (first :: rest).
Proof.
  intros H. assert (str_in ":" first = false) as Hf.
  { assert (isSeg first = true \/ first = "*") as [?| ->] by (destruct H as [?|(? & ?)]; tauto);
      auto with vraxel. }
  constructor; [done|]. destruct H as [[_ H]|(init & -> & _ & H)]; [by apply segs_noColon|].
  apply Forall_app. split; [by apply segs_noColon | by repeat constructor].
Qed.

(** The validator accepts exactly the patterns of an accepted shape. *)
Lemma pattern_accepted p :
  HasErrors (ValidatePermissionPattern p) = false <-> patternForm (Split p ":") = true.
Proof.
  transitivity (matches validPatternRegexp p).
  { rewrite <- MatchString_spec. unfold ValidatePermissionPattern, when.
    destruct (String.eqb_spec p "") as [-> | Hp]; [by vm_compute|].
    by destruct (MatchString validPatternRegexp p). }
  rewrite matches_pattern, patternForm_spec. split.
  - intros (f & r & -> & Hne & H). exists f, r.
    rewrite Split_join by (done || by apply form_noColon). done.
  - intros (f & r & E & Hne & H). exists f, r. rewrite <- E, (Join_Split p ":"). done.
Qed.

(** ** Matching by segments *)

(** A reference for [MatchPermission] on segment lists: a trailing "*"
    stands for one or more segments, a leading "*" for one or more. *)
Definition properPrefix (p code : list string) : bool :=
  (length p <? length code)%nat && bool_decide (take (length p) code = p).

Definition properSuffix (p code : list string) : bool :=
  (length p <? length code)%nat && bool_decide (drop (length code - length p) code = p).

Definition matchParts (p code : list string) : bool :=
  if bool_decide (p = ["*"; "*"]) then true
  else if List.last p "" =s "*" then properPrefix (removelast p) code
  else if List.hd "" p =s "*" then properSuffix (tail p) code
  else bool_decide (p = code).

Lemma Split_nonempty s sep : Split s sep <> [].
Proof. destruct s as [|c s]; cbn; [done|]. destruct (Ascii.eqb c sep); [done|]. by destruct (Split s sep). Qed.

Lemma Split_app a b sep : Split (a +++ String sep b) sep = Split a sep ++ Split b sep.
Proof.
  induction a as [|c a IH]; cbn; [by rewrite Ascii.eqb_refl|].
  rewrite IH. destruct (Ascii.eqb c sep); [done|].
  destruct (Split a sep) eqn:E; [by apply Split_nonempty in E | done].
Qed.

Lemma Join_app l1 l2 :
  l1 <> [] -> l2 <> [] -> Join (l1 ++ l2) ":" = Join l1 ":" +++ String ":" (Join l2 ":").
Proof.
  intros H1 H2. destruct l1 as [|a l1]; [done|]. destruct l2 as [|b l2]; [done|].
  cbn [app]. rewrite !Join_colon, colonJoin_app, app_assoc_s. done.
Qed.


Lemma properPrefix_spec p code :
  properPrefix p code = true <-> exists more, code = p ++ more /\ more <> [].
Proof.
  unfold properPrefix. rewrite andb_true_iff, Nat.ltb_lt, bool_decide_eq_true. split.
  - intros [Hlen Ht]. exists (drop (length p) code).
    pose proof (take_drop (length p) code) as Htd. rewrite Ht in Htd.
    split; [done|]. intros E. apply (f_equal length) in E. rewrite length_drop in E. cbn in E. lia.
  - intros (more & -> & Hm). rewrite length_app, take_app_length. destruct more; [done|]. cbn. split; [lia | done].
Qed.

Lemma properSuffix_spec p code :
  properSuffix p code = true <-> exists more, code = more ++ p /\ more <> [].
Proof.
  unfold properSuffix. rewrite andb_true_iff, Nat.ltb_lt, bool_decide_eq_true. split.
  - intros [Hlen Hd]. exists (take (length code - length p) code).
    pose proof (take_drop (length code - length p) code) as Htd. rewrite Hd in Htd.
    split; [done|]. intros E. apply (f_equal length) in E.
    rewrite length_take in E. cbn in E. lia.
  - intros (more & -> & Hm). rewrite length_app.
    replace (length more + length p - length p)%nat with (length more) by lia.
    rewrite drop_app_length. destruct more; [done|]. cbn. split; [lia | done].
Qed.

(** Prefix and suffix tests on joined parts. *)
Lemma HasPrefix_parts init code :
  init <> [] -> code <> [] -> noColon init -> noColon code ->
  HasPrefix (Join code ":") (Join init ":" +++ ":") = properPrefix init code.
Proof.
  intros Hi Hc Hni Hnc. apply eq_true_iff_eq. rewrite HasPrefix_spec, properPrefix_spec. split.
  - intros (r & E). exists (Split r ":"). split; [|apply Split_nonempty].
    rewrite app_assoc_s in E. apply (f_equal (fun s => Split s ":")) in E. cbn in E.
    rewrite Split_app in E. by rewrite !Split_join in E.
  - intros (more & -> & Hm). exists (Join more ":"). by rewrite Join_app, app_assoc_s.
Qed.

Lemma HasSuffix_parts rest code :
  rest <> [] -> code <> [] -> noColon rest -> noColon code ->
  HasSuffix (Join code ":") (String ":" (Join rest ":")) = properSuffix rest code.
Proof.
  intros Hi Hc Hni Hnc. apply eq_true_iff_eq. rewrite HasSuffix_spec, properSuffix_spec. split.
  - intros (r & E). exists (Split r ":"). split; [|apply Split_nonempty].
    apply (f_equal (fun s => Split s ":")) in E. cbn in E.
    rewrite Split_app in E. by rewrite !Split_join in E.
  - intros (more & -> & Hm). exists (Join more ":"). by rewrite Join_app.
Qed.

Lemma Join_inj l l' : l <> [] -> l' <> [] -> noColon l -> noColon l' -> Join l ":" = Join l' ":" -> l = l'.
Proof.
  intros H1 H2 H3 H4 E. apply (f_equal (fun s => Split s ":")) in E. by rewrite !Split_join in E.
Qed.

(** A validated pattern matches a code made of segments exactly when the
    reference does. *)
Lemma exact_parts first rest code :
  rest <> [] -> (isSeg first = true \/ first = "*") -> Forall (fun p => isSeg p = true) rest ->
  code <> [] -> Forall (fun p => isSeg p = true) code ->
  MatchPermission (Join (first :: rest) ":") (Join code ":") = matchParts (first :: rest) code.
Proof.
  intros Hne Hf Hr Hc Hcs.
  assert (Hn : noColon (first :: rest)) by (apply form_noColon; auto).
  assert (Hlast : forall q, Join (first :: rest) ":" <> q +++ ":*").
  { intros q E. apply (f_equal (fun s => Split s ":")) in E. rewrite Split_join in E by done.
    change ":*" with (String ":" "*") in E. rewrite Split_app in E. cbn [Split] in E.
    assert (List.last (first :: rest) "" = "*") as El by (rewrite E; apply last_last).
    destruct rest as [|r0 r]; [done|]. apply (isSeg_not_star (List.last (r0 :: r) "")).
    - rewrite List.Forall_forall in Hr. apply Hr. destruct (exists_last (l := r0 :: r)) as (l & x & ->); [done|].
      rewrite last_last. apply in_app_iff. right. by left.
    - exact El. }
  unfold MatchPermission, matchParts.
  destruct (String.eqb_spec (Join (first :: rest) ":") "*:*") as [E|_].
  { exfalso. by apply (Hlast "*"). }
  destruct (HasSuffix _ ":*") eqn:E1; [apply HasSuffix_spec in E1 as (q & E); by apply Hlast in E|].
  assert (Hl : (List.last (first :: rest) "" =s "*") = false).
  { apply String.eqb_neq. intros El. destruct rest as [|r0 r] using rev_ind; [done|].
    rewrite app_comm_cons, last_last in El. subst.
    apply Forall_app in Hr as [_ Hr]. inversion_clear Hr. by vm_compute in H. }
  rewrite Hl. rewrite bool_decide_eq_false_2 by (intros E; rewrite E in Hl; done).
  cbn [List.hd tail]. rewrite Join_colon. destruct rest as [|r0 r]; [done|]. destruct Hf as [Hf| ->].
  - rewrite (proj2 (String.eqb_neq first "*") (isSeg_not_star _ Hf)).
    replace (HasPrefix (first +++ colonJoin (r0 :: r)) "*:") with false.
    2: { symmetry. apply not_true_iff_false. rewrite HasPrefix_spec. intros (x & E).
         destruct first as [|c f]; [done|]. cbn in E, Hf. injection E as -> _.
         by vm_compute in Hf. }
    rewrite <- Join_colon. apply eq_true_iff_eq. rewrite String.eqb_eq, bool_decide_eq_true. split.
    + intros E. apply Join_inj; [done..|by apply segs_noColon|done].
    + by intros <-.
  - change (HasPrefix ("*" +++ colonJoin (r0 :: r)) "*:") with (HasPrefix (r0 +++ colonJoin r) "").
    cbn [HasPrefix str_drop String.append colonJoin]. cbn [HasPrefix]. rewrite String.eqb_refl.
    rewrite <- Join_colon. apply HasSuffix_parts; [done..|by inversion Hn|by apply segs_noColon].
Qed.

Lemma prefix_parts first init code :
  (isSeg first = true \/ first = "*") -> Forall (fun p => isSeg p = true) init ->
  code <> [] -> Forall (fun p => isSeg p = true) code ->
  MatchPermission (Join (first :: init ++ ["*"]) ":") (Join code ":")
  = matchParts (first :: init ++ ["*"]) code.
Proof.
  intros Hf Hi Hc Hcs.
  assert (Hn : noColon (first :: init)) by (apply form_noColon; auto).
  assert (EJ : Join (first :: init ++ ["*"]) ":" = Join (first :: init) ":" +++ ":*").
  { change (first :: init ++ ["*"]) with ((first :: init) ++ ["*"]). by rewrite Join_app. }
  unfold matchParts. rewrite app_comm_cons, last_last, removelast_last, <- app_comm_cons, EJ.
  unfold MatchPermission. rewrite (String.eqb_refl "*").
  destruct (String.eqb_spec (Join (first :: init) ":" +++ ":*") "*:*") as [E|Hne].
  - change "*:*" with ("*" +++ ":*") in E. apply app_inv_tail_s in E.
    apply (Join_inj _ ["*"]) in E; [|done..|by repeat constructor].
    injection E as -> ->. by rewrite bool_decide_eq_true_2.
  - rewrite bool_decide_eq_false_2.
    2: { intros E. injection E as -> E. destruct init as [|? [|]]; [done | discriminate..]. }
    rewrite (proj2 (HasSuffix_spec _ ":*")) by eauto.
    rewrite length_app_s. change (String.length ":*") with 2%nat.
    replace (String.length (Join (first :: init) ":") + 2 - 2)%nat
      with (String.length (Join (first :: init) ":")) by lia.
    rewrite str_take_app. apply HasPrefix_parts; [done..|by apply segs_noColon].
Qed.

(** Permission patterns mean what their segments say. The validator
    accepts a pattern exactly when its colon-separated parts are segments,
    possibly with a leading or a trailing star; and an accepted pattern
    matches a permission code (two or more segments, as registration
    produces them) exactly when, part by part, it equals the code, or its
    parts before a trailing star are a proper prefix of the code's, or its
    parts after a leading star a proper suffix, or it is the universal
    pattern. *)
Lemma patterns_match_by_segment (p : string) (code : list string) :
  code <> [] -> Forall (fun s => isSeg s = true) code ->
  (HasErrors (ValidatePermissionPattern p) = false <-> patternForm (Split p ":") = true)
  /\ (HasErrors (ValidatePermissionPattern p) = false ->
      MatchPermission p (Join code ":") = matchParts (Split p ":") code).
Proof.
  intros Hc Hcs. split; [apply pattern_accepted|].
  intros H%pattern_accepted. apply patternForm_spec in H as (f & r & E & Hne & H).
  rewrite <- (Join_Split p ":") at 1. rewrite E. destruct H as [[Hf Hr]|(init & -> & Hf & Hi)].
  - by apply exact_parts.
  - by apply prefix_parts.
Qed.

(** A pattern with a star at both ends and a segment between them is
    accepted but matches no code. *)
Lemma double_star_dead first init code :
  first = "*" -> init <> [] -> Forall (fun p => isSeg p = true) init ->
  code <> [] -> Forall (fun p => isSeg p = true) code ->
  HasErrors (ValidatePermissionPattern (Join (first :: init ++ ["*"]) ":")) = false
  /\ MatchPermission (Join (first :: init ++ ["*"]) ":") (Join code ":") = false.
Proof.
  intros -> Hne Hi Hc Hcs. split.
  - apply pattern_accepted. rewrite Split_join; [|done|apply form_noColon; right; eauto].
    apply patternForm_spec. exists "*", (init ++ ["*"]). split_and!; [done | by destruct init | right; eauto].
  - rewrite prefix_parts by auto. unfold matchParts.
    rewrite bool_decide_eq_false_2 by (intros [= E]; destruct init as [|? [|]]; done).
    rewrite app_comm_cons, last_last, removelast_last, String.eqb_refl.
    apply not_true_iff_false. rewrite properPrefix_spec. intros (more & -> & _).
    inversion_clear Hcs. by vm_compute in H.
Qed.

(** ** Roles: what passing the checks gives *)

Lemma HasErrors_app a b : HasErrors (a ++ b) = HasErrors a || HasErrors b.
Proof. unfold HasErrors. destruct a, b; done. Qed.

Lemma HasErrors_when b f m : HasErrors (when b f m) = b.
Proof. by destruct b. Qed.

Lemma validateRules_ok i rules :
  HasErrors (validateRules i rules) = false ->
  Forall (fun r => HasErrors (ValidatePermissionPattern r) = false) rules.
Proof.
  revert i. induction rules as [|r rules IH]; intros i H; [constructor|].
  cbn [validateRules] in H. rewrite HasErrors_app in H. apply orb_false_iff in H as [H1 H2].
  constructor; [|by apply (IH (S i))]. unfold HasErrors in *.
  by destruct (ValidatePermissionPattern r).
Qed.

Lemma validateScopes_ok i scope codes rules :
  HasErrors (validateScopes i scope codes rules) = false ->
  Forall (fun r => exists c, c ∈ codes /\ MatchPermission r c = true) rules.
Proof.
  revert i. induction rules as [|r rules IH]; intros i H; [constructor|].
  cbn [validateScopes] in H. rewrite HasErrors_app, HasErrors_when in H.
  apply orb_false_iff in H as [H1%negb_false_iff H2]. constructor; [|by apply (IH (S i))].
  by apply existsb_elem_of.
Qed.

(** Every rule that passes grants some permission of the role's scope. *)
Lemma ValidateRuleScopes_live scope rules codeScopes :
  HasErrors (ValidateRuleScopes scope rules codeScopes) = false ->
  Forall (fun r => exists c, (c, scope) ∈ codeScopes /\ MatchPermission r c = true) rules.
Proof.
  intros H%validateScopes_ok. eapply Forall_impl; [exact H|]. cbn.
  intros r (c & ([c' s] & -> & Hin)%list_elem_of_fmap & Hm). apply list_elem_of_filter in Hin as [Hs Hin].
  cbn in *. subst. eauto.
Qed.

End IamValidation.
