(* ===== verification/IamLogic.v ===== *)
(** * A program logic for the IAM stores and handlers

    A judgement over the store monad: from every state that satisfies a
    guard, whatever connections fail, running [m] takes the sequences,
    tables and publications along a transition relation [R], and a
    successful result satisfies a postcondition. One rule per construct
    the handlers are written with; statements are proved once and the
    handlers follow by [ev_auto]. *)

From S2P Require Import Prelude Rbac IamDb IamStore.

Module IamLogic.
Import Rbac IamDb IamStore.

(** ** The judgement *)

(** What outlives a request: sequences, tables, publications. *)
Record Core := mkCore { cq : Seqs; cd : DB; cn : list Z }.

Definition core (s : Sys) : Core := mkCore (sseq s) (sdb s) (snotified s).

Definition seqLe (q q' : Seqs) : Prop := forall t, q t <= q' t.

Definition Guard : Type := Core -> Prop.
Definition Trans : Type := Core -> Core -> Prop.

Definition ev {E A} (φ : Guard) (R : Trans) (m : M E A) (ψ : A -> Guard) : Prop :=
  forall s, φ (core s) ->
    R (core s) (core (m s).2) /\ (forall a, (m s).1 = Ok a -> ψ a (core (m s).2)).

Definition any : Guard := fun _ => True.
Definition anyOf {A} (_ : A) : Guard := any.

(** What a transition relation must allow: drawing sequence values, running
    in sequence, and a rollback, which keeps the sequences and the
    publications but restores the tables. *)
Class Evolution (R : Trans) : Prop := {
  ev_seq : forall c q, seqLe (cq c) q -> R c (mkCore q (cd c) (cn c));
  ev_trans : forall c1 c2 c3, R c1 c2 -> R c2 c3 -> R c1 c3;
  ev_grow : forall c c', R c c' -> seqLe (cq c) (cq c');
  ev_roll : forall c c', R c c' -> R c (mkCore (cq c') (cd c) (cn c'))
}.

(** The same for one statement. *)
Definition sev {A} (φ : Guard) (R : Trans) (st : Stmt A) (ψ : A -> Guard) : Prop :=
  forall c, φ c ->
    match st (cq c) (cd c) with
    | (Ok (a, d'), q') => R c (mkCore q' d' (cn c)) /\ ψ a (mkCore q' d' (cn c))
    | (Err _, q') => R c (mkCore q' (cd c) (cn c))
    end.

Lemma seqLe_refl q : seqLe q q.
Proof. intros t. lia. Qed.

Lemma seqLe_trans q1 q2 q3 : seqLe q1 q2 -> seqLe q2 q3 -> seqLe q1 q3.
Proof. intros H1 H2 t. specialize (H1 t). specialize (H2 t). lia. Qed.

Lemma seqLe_nextval t q : seqLe q (nextval t q).2.
Proof. intros t'. cbn. case_decide; subst; lia. Qed.

Create HintDb iam discriminated.
#[export] Hint Resolve seqLe_refl seqLe_nextval : iam.

Section Rules.
Context {R : Trans} `{!Evolution R}.

Lemma ev_refl c : R c c.
Proof using All. destruct c. apply (ev_seq (mkCore _ _ _)). apply seqLe_refl. Qed.

Lemma core_popFault s : core (popFault s).2 = core s.
Proof. unfold popFault. by destruct (sfaults s). Qed.

Lemma core_abortTx s : core (abortTx s) = core s.
Proof. done. Qed.

Lemma ev_ret {E A} (φ : Guard) (ψ : A -> Guard) a :
  (forall c, φ c -> ψ a c) -> ev φ R (ret (E := E) a) ψ.
Proof using All. intros H s Hs. split; [apply ev_refl | intros a' [= <-]; by apply H]. Qed.

Lemma ev_fail {E A} (φ : Guard) (ψ : A -> Guard) (e : E) : ev φ R (fail e) ψ.
Proof using All. intros s Hs. split; [apply ev_refl | done]. Qed.

Lemma ev_lift {E A} (φ : Guard) (r : result E A) :
  ev φ R (fun s => (r, s)) (fun a c => φ c /\ r = Ok a).
Proof using All. intros s Hs. split; [apply ev_refl | intros a H; by split]. Qed.

Lemma ev_bind {E A B} (φ : Guard) (m : M E A) (f : A -> M E B) (ψ : A -> Guard) (χ : B -> Guard) :
  ev φ R m ψ -> (forall a, ev (ψ a) R (f a) χ) -> ev φ R (bind m f) χ.
Proof using All.
  intros Hm Hf s Hs. specialize (Hm s Hs) as [Rm Hm]. unfold bind.
  destruct (m s) as [[a|e] s']; cbn in *; [|by split].
  destruct (Hf a s' (Hm a eq_refl)) as [Rf Hχ]. split; [by eapply ev_trans | done].
Qed.

Lemma ev_attempt {E E' A} (φ : Guard) (m : M E A) (ψ : A -> Guard) :
  ev φ R m ψ ->
  ev φ R (attempt (E' := E') m) (fun r => match r with Ok a => ψ a | Err _ => any end).
Proof using All.
  intros Hm s Hs. specialize (Hm s Hs) as [Rm Hm]. unfold attempt.
  destruct (m s) as [r s']; cbn in *. split; [done|]. intros ? [= <-].
  destruct r; [by apply Hm | done].
Qed.

Lemma ev_onErr {E E' A} (φ : Guard) (f : E -> E') (m : M E A) (ψ : A -> Guard) :
  ev φ R m ψ -> ev φ R (onErr f m) ψ.
Proof using All.
  intros Hm s Hs. specialize (Hm s Hs) as [Rm Hm]. unfold onErr.
  destruct (m s) as [[a|e] s']; cbn in *; split; try done. intros ? [= <-]. by apply Hm.
Qed.

(** A loop keeps an invariant. *)
Lemma ev_forEach {E A} (φ : Guard) (f : A -> M E unit) (l : list A) :
  (forall a, a ∈ l -> ev φ R (f a) (fun _ => φ)) -> ev φ R (forEach f l) (fun _ => φ).
Proof using All.
  induction l as [|x l IH]; intros H; cbn; [by apply ev_ret|].
  eapply ev_bind; [apply H, list_elem_of_here | intros u; cbn beta].
  apply IH. intros a' Ha'. by apply H, list_elem_of_further.
Qed.

Lemma ev_if {E A} (φ : Guard) (b : bool) (m1 m2 : M E A) (ψ : A -> Guard) :
  (b = true -> ev φ R m1 ψ) -> (b = false -> ev φ R m2 ψ) -> ev φ R (if b then m1 else m2) ψ.
Proof using All. destruct b; auto. Qed.

Lemma ev_weaken {E A} (φ φ' : Guard) (m : M E A) (ψ ψ' : A -> Guard) :
  (forall c, φ' c -> φ c) -> (forall a c, ψ a c -> ψ' a c) -> ev φ R m ψ -> ev φ' R m ψ'.
Proof using All. intros H1 H2 H s Hs. destruct (H s (H1 _ Hs)). split; [done | naive_solver]. Qed.

(** Name the state a block starts in. *)
Lemma ev_at {E A} (φ : Guard) (m : M E A) (ψ : A -> Guard) :
  (forall c, φ c -> ev (eq c) R m ψ) -> ev φ R m ψ.
Proof using All. intros H s Hs. by apply (H (core s)). Qed.

Lemma ev_ok {E A} (φ : Guard) (m : M E A) (ψ : A -> Guard) : ev φ R m ψ -> ev φ R m anyOf.
Proof using All. apply ev_weaken; done. Qed.

Lemma ev_Q {A} (φ : Guard) (st : Stmt A) (ψ : A -> Guard) : sev φ R st ψ -> ev φ R (Q st) ψ.
Proof using All.
  intros H s Hs. unfold Q. case_bool_decide; [split; [apply ev_refl | done]|].
  pose proof (core_popFault s) as Hp. destruct (popFault s) as [f s1]. cbn in Hp.
  rewrite <- Hp in Hs |- *. specialize (H (core s1) Hs). cbn in H.
  destruct (st (sseq s1) (sdb s1)) as [[[a d']|e] q'], f; try (by split; [apply ev_refl|]).
  - destruct H as [HR Hψ]. split; [done | by intros ? [= <-]].
  - destruct H as [HR Hψ]. by split.
  - destruct e; by split.
  - by split.
Qed.

(** A committed transaction, or only drawn sequence values. *)
Lemma ev_WithTx_at {A} R' `{!Evolution R'} (φ : Guard) (fn : M GoErr A) (ψ : A -> Guard) :
  (forall c c', R' c c' -> R c (mkCore (cq c') (cd c) (cn c'))) ->
  (forall c, φ c -> ev (eq c) R' fn (fun a c' => R c c' /\ ψ a c')) ->
  ev φ R (WithTx fn) ψ.
Proof using All.
  intros Hroll Hfn s Hs. unfold WithTx. pose proof (core_popFault s) as Hp.
  destruct (popFault s) as [f s1]. cbn in Hp. rewrite <- Hp in Hs |- *.
  destruct f; [|split; [apply ev_refl | done]..].
  destruct (Hfn (core s1) Hs (setTx (Some false) s1) eq_refl) as [HR Hok].
  destruct (fn (setTx (Some false) s1)) as [[a|e] s2]; cbn in *.
  2: { split; [exact (Hroll _ _ HR) | done]. }
  case_bool_decide; [split; [exact (Hroll _ _ HR) | done]|].
  pose proof (core_popFault s2) as Hp2. destruct (popFault s2) as [f' s3]. cbn in Hp2.
  destruct f'; cbn.
  - destruct (Hok a eq_refl). unfold core, setTx in *. cbn in *. rewrite Hp2.
    split; [done | by intros ? [= <-]].
  - split; [|done]. rewrite <- Hp2 in HR. exact (Hroll _ _ HR).
  - destruct (Hok a eq_refl). unfold core, setTx in *. cbn in *. rewrite Hp2. by split.
Qed.

Lemma ev_WithTx {A} (φ : Guard) (fn : M GoErr A) (ψ : A -> Guard) :
  ev φ R fn ψ -> ev φ R (WithTx fn) ψ.
Proof using All.
  intros H. apply (ev_WithTx_at R); [apply ev_roll|].
  intros c Hc s Hs. rewrite Hs in Hc. destruct (H s Hc) as [HR Hψ].
  split; [done | intros a Ha; split; [by rewrite Hs | by apply Hψ]].
Qed.

Lemma ev_notify φ ψ u :
  (forall c, R c (mkCore (cq c) (cd c) (cn c ++ [u]))) ->
  (forall c, φ c -> ψ tt (mkCore (cq c) (cd c) (cn c ++ [u]))) ->
  ev φ R (notifyUserChange u) ψ.
Proof using All. intros H1 H2 s Hs. split; [exact (H1 (core s)) | intros [] _; exact (H2 _ Hs)]. Qed.

(** ** Statements *)

Lemma sev_query {A} (φ : Guard) (f : DB -> result SqlErr A) :
  sev φ R (query f) (fun a c => φ c /\ f (cd c) = Ok a).
Proof using All.
  intros c Hc. unfold query. destruct (f (cd c)) as [a|e] eqn:E; cbn.
  - destruct c. by split; [apply ev_refl|].
  - destruct c. apply ev_refl.
Qed.

Lemma sev_exec {A} (φ : Guard) (f : DB -> result SqlErr (A * DB)) (ψ : A -> Guard) :
  (forall c a d', φ c -> f (cd c) = Ok (a, d') ->
     R c (mkCore (cq c) d' (cn c)) /\ ψ a (mkCore (cq c) d' (cn c))) ->
  sev φ R (exec f) ψ.
Proof using All.
  intros H c Hc. unfold exec. destruct (f (cd c)) as [[a d']|e] eqn:E; [by apply H|].
  destruct c. apply ev_refl.
Qed.

Lemma sev_insert {A} t (φ : Guard) (f : Z -> DB -> result SqlErr (A * DB)) (ψ : A -> Guard) :
  (forall c a d' id, φ c -> id = cq c t + 1 -> f id (cd c) = Ok (a, d') ->
     R c (mkCore (nextval t (cq c)).2 d' (cn c)) /\ ψ a (mkCore (nextval t (cq c)).2 d' (cn c))) ->
  sev φ R (insertInto t f) ψ.
Proof using All.
  intros H c Hc. unfold insertInto. cbn [nextval].
  destruct (f (cq c t + 1) (cd c)) as [[a d']|e] eqn:E; [by eapply H|].
  apply ev_seq. exact (seqLe_nextval t (cq c)).
Qed.

Lemma sev_smap {A B} (φ : Guard) (f : A -> result SqlErr B) (st : Stmt A) (ψ : A -> Guard)
    (χ : B -> Guard) :
  sev φ R st ψ ->
  (forall c a, ψ a c -> match f a with Ok b => χ b c | Err _ => False end) ->
  sev φ R (smap f st) χ.
Proof using All.
  intros H Hf c Hc. specialize (H c Hc). unfold smap.
  destruct (st (cq c) (cd c)) as [[[a d']|e] q']; cbn; [|done].
  destruct H as [HR Hψ]. specialize (Hf _ _ Hψ). destruct (f a); [by split | done].
Qed.

Lemma sev_weaken {A} (φ φ' : Guard) (st : Stmt A) (ψ ψ' : A -> Guard) :
  (forall c, φ' c -> φ c) -> (forall a c, ψ a c -> ψ' a c) -> sev φ R st ψ -> sev φ' R st ψ'.
Proof using All.
  intros H1 H2 H c Hc. specialize (H c (H1 c Hc)).
  destruct (st (cq c) (cd c)) as [[[a d']|e] q']; [|done]. naive_solver.
Qed.
End Rules.

(** ** Inside a transaction

    The steps of a transaction need not follow [R] one by one: an error
    rolls everything back, so it is enough that the state it commits is
    related to the one it started in. There the relation is [Grow] and the
    guards say how far the transaction is. *)

Definition Grow : Trans := fun c c' => seqLe (cq c) (cq c').

#[export] Instance Grow_Evolution : Evolution Grow.
Proof.
  split; unfold Grow; cbn; try done. intros c1 c2 c3. apply seqLe_trans.
Qed.

(** A program that follows [R] anywhere, as one step of a transaction. *)
Lemma ev_carry {R} `{!Evolution R} {E A} (φ : Guard) c0 (m : M E A) (ψ : A -> Guard) :
  ev φ R m ψ -> ev (fun c => R c0 c /\ φ c) Grow m (fun a c => R c0 c /\ ψ a c).
Proof.
  intros H s [HR Hφ]. destruct (H s Hφ) as [HR' Hψ].
  split; [exact (ev_grow _ _ HR') | intros a Ha; split; [by eapply ev_trans | by apply Hψ]].
Qed.

Lemma sev_grow {R} `{!Evolution R} {A} (φ : Guard) (st : Stmt A) (ψ : A -> Guard) :
  sev φ R st ψ -> sev φ Grow st ψ.
Proof.
  intros H c Hc. specialize (H c Hc). destruct (st (cq c) (cd c)) as [[[a d']|e] q'].
  - destruct H as [HR ?]. split; [exact (ev_grow _ _ HR) | done].
  - exact (ev_grow _ _ H).
Qed.

(** ** Automation

    Programs that need no knowledge of what they read: [ev_auto] walks the
    program, finds each statement's lemma in the database [iam_step] and
    unfolds what it does not know. *)

Create HintDb iam_step discriminated.

Section Any.
Context {R : Trans} `{!Evolution R}.

Lemma any_bind {E A B} (m : M E A) (f : A -> M E B) :
  ev any R m anyOf -> (forall a, ev any R (f a) anyOf) -> ev any R (bind m f) anyOf.
Proof using All. intros H1 H2. eapply ev_bind; [exact H1 | exact H2]. Qed.

Lemma any_attempt {E E' A} (m : M E A) : ev any R m anyOf -> ev any R (attempt (E' := E') m) anyOf.
Proof using All. intros H. eapply ev_ok, ev_attempt, H. Qed.

Lemma any_forEach {E A} (f : A -> M E unit) l :
  (forall a, ev any R (f a) anyOf) -> ev any R (forEach f l) anyOf.
Proof using All. intros H. apply (ev_forEach any). intros a _. apply H. Qed.

Lemma any_query {A} (f : DB -> result SqlErr A) : sev any R (query f) anyOf.
Proof using All. eapply sev_weaken; [| | apply sev_query]; done. Qed.

Lemma any_smap {A B} (f : A -> result SqlErr B) (st : Stmt A) :
  (forall c q d, R c (mkCore q d (cn c)) -> R c (mkCore q (cd c) (cn c))) ->
  sev any R st anyOf -> sev any R (smap f st) anyOf.
Proof using All.
  intros HR H c Hc. specialize (H c Hc). unfold smap.
  destruct (st (cq c) (cd c)) as [[[a d']|e] q']; cbn; [|done].
  destruct H as [H _]. destruct (f a); [done | by eapply HR].
Qed.
End Any.

Lemma grow_exec {A} (f : DB -> result SqlErr (A * DB)) : sev any Grow (exec f) anyOf.
Proof. apply sev_exec. intros c a d' _ _. split; [apply seqLe_refl | done]. Qed.

Lemma grow_insert {A} t (f : Z -> DB -> result SqlErr (A * DB)) : sev any Grow (insertInto t f) anyOf.
Proof. apply sev_insert. intros c a d' id _ _ _. split; [apply seqLe_nextval | done]. Qed.

Ltac stmt_auto :=
  first
    [ solve [auto with iam_step nocore]
    | apply any_query
    | apply grow_exec
    | apply grow_insert
    | apply any_smap; [intros c q d; exact id | stmt_auto] ].

Ltac ev_auto :=
  lazymatch goal with
  | |- ev _ _ (ret _) _ => apply ev_ret; done
  | |- ev _ _ (fail _) _ => apply ev_fail
  | |- ev _ _ (bind _ _) _ => apply any_bind; [ev_auto | intros ?; ev_auto]
  | |- ev _ _ (onErr _ _) _ => apply ev_onErr; ev_auto
  | |- ev _ _ (attempt _) _ => apply any_attempt; ev_auto
  | |- ev _ _ (forEach _ _) _ => apply any_forEach; intros ?; ev_auto
  | |- ev _ _ (Q (if ?b then _ else _)) _ => destruct b; ev_auto
  | |- ev _ _ (Q _) _ => apply ev_Q; stmt_auto
  | |- ev _ _ (match ?x with _ => _ end) _ => destruct x; ev_auto
  | |- ev _ _ (let x := _ in _) _ => cbv zeta; ev_auto
  | |- ev _ _ ?m _ =>
      first
        [ solve [auto with iam_step nocore]
        | apply ev_WithTx; ev_auto
        | let h := head_of m in unfold h; ev_auto ]
  end
with head_of t := lazymatch t with ?f _ => head_of f | _ => t end.

(** ** The connection's answers are used up in order *)

Definition frugal {E A} (m : M E A) : Prop := forall s, sfaults (m s).2 `suffix_of` sfaults s.

Lemma frugal_keep {E A} (m : M E A) : (forall s, sfaults (m s).2 = sfaults s) -> frugal m.
Proof. intros H s. by rewrite H. Qed.

Lemma frugal_bind {E A B} (m : M E A) (f : A -> M E B) : frugal m -> (forall a, frugal (f a)) -> frugal (bind m f).
Proof.
  intros Hm Hf s. specialize (Hm s). unfold bind. destruct (m s) as [[a|e] s1]; [|done].
  etrans; [apply Hf | exact Hm].
Qed.

Lemma frugal_attempt {E E' A} (m : M E A) : frugal m -> frugal (attempt (E' := E') m).
Proof. intros H s. specialize (H s). unfold attempt. by destruct (m s). Qed.

Lemma frugal_onErr {E E' A} (f : E -> E') (m : M E A) : frugal m -> frugal (onErr f m).
Proof. intros H s. specialize (H s). unfold onErr. by destruct (m s). Qed.

Lemma frugal_forEach {E A} (f : A -> M E unit) l : (forall a, frugal (f a)) -> frugal (forEach f l).
Proof.
  intros H. induction l as [|a l IH]; cbn [forEach]; [by apply frugal_keep|].
  apply frugal_bind; [apply H | by intros _].
Qed.

Lemma suffix_popFault s : sfaults (popFault s).2 `suffix_of` sfaults s.
Proof. unfold popFault. destruct (sfaults s) eqn:E; cbn; [by rewrite E | by apply suffix_cons_r]. Qed.

Lemma frugal_Q {A} (st : Stmt A) : frugal (Q st).
Proof.
  intros s. unfold Q. case_bool_decide; [done|]. pose proof (suffix_popFault s) as Hp.
  destruct (popFault s) as [f s1]. cbn in Hp. by destruct f, (st (sseq s1) (sdb s1)) as [[[a d]|[]] q].
Qed.

Lemma frugal_WithTx {A} (fn : M GoErr A) : frugal fn -> frugal (WithTx fn).
Proof.
  intros Hfn s. unfold WithTx. pose proof (suffix_popFault s) as Hp. destruct (popFault s) as [f s1]. cbn in Hp.
  destruct f; [|done..]. specialize (Hfn (setTx (Some false) s1)). cbn in Hfn.
  destruct (fn (setTx (Some false) s1)) as [[a|e] s2]; cbn in Hfn; [|cbn; by etrans].
  case_bool_decide; [cbn; by etrans|]. pose proof (suffix_popFault s2) as H2.
  destruct (popFault s2) as [f' s3]. cbn in H2. destruct f'; cbn; (etrans; [exact H2 | by etrans]).
Qed.

Ltac frugal_auto :=
  lazymatch goal with
  | |- frugal (bind _ _) => apply frugal_bind; [frugal_auto | intros ?; frugal_auto]
  | |- frugal (onErr _ _) => apply frugal_onErr; frugal_auto
  | |- frugal (attempt _) => apply frugal_attempt; frugal_auto
  | |- frugal (forEach _ _) => apply frugal_forEach; intros ?; frugal_auto
  | |- frugal (Q _) => apply frugal_Q
  | |- frugal (WithTx _) => apply frugal_WithTx; frugal_auto
  | |- frugal (match ?x with _ => _ end) => destruct x; frugal_auto
  | |- frugal (let x := _ in _) => cbv zeta; frugal_auto
  | |- frugal ?m => first [by apply frugal_keep | let h := head_of m in unfold h; frugal_auto]
  end.

End IamLogic.
