(* ===== verification/IamTenancy.v ===== *)
(** * The tenancy invariant of the IAM tables

    What the handlers keep true of workspaces, namespaces, roles and role
    bindings, and how an operation may change them: the invariant [Inv], the
    transition relation [Evo] (identities are stable, a tenant's built-in
    roles and owner bindings stay) and [Step], which adds that a new tenant
    comes with its built-in roles. Each statement is shown to follow [Evo]
    or [Step]; [IamSystem] lifts this to every operation. *)

From S2P Require Import Prelude Rbac IamDb IamStore IamLogic.

Module IamTenancy.
Import Rbac IamDb IamStore IamLogic.

(** ** Predicates *)

(** The workspace each namespace belongs to. *)
Definition parent (d : DB) : gmap Z Z := nsWorkspaceID <$> namespaces d.
#[global] Arguments parent : simpl never.

Definition alive (d : DB) (ws ns : option Z) : Prop :=
  (forall w, ws = Some w -> w ∈ dom (workspaces d)) /\ (forall n, ns = Some n -> n ∈ dom (parent d)).

(** A role fits its scope; one of a namespace carries no workspace. *)
Definition roleOk (x : Role) : Prop :=
  roleScopeOk x = true /\ (rScope x = ScopeNamespace -> rWorkspaceID x = None).

(** The role is one of the tenant the binding is in. *)
Definition ownRole (x : Binding) (r : Role) : Prop :=
  (bScope x = ScopeWorkspace /\ rScope r = ScopeWorkspace /\ rWorkspaceID r = bWorkspaceID x) \/
  (bScope x = ScopeNamespace /\ rScope r = ScopeNamespace /\ rNamespaceID r = bNamespaceID x).

(** A binding fits its scope, its references exist, one in a namespace
    carries the namespace's workspace, and an owner binding grants a role
    of its own tenant. *)
Record bindingOk (d : DB) (x : Binding) : Prop := {
  bo_scope : bindingScopeOk x = true;
  bo_user : bUserID x ∈ dom (users d);
  bo_role : bRoleID x ∈ dom (roles d);
  bo_alive : alive d (bWorkspaceID x) (bNamespaceID x);
  bo_parent : forall n, bNamespaceID x = Some n -> parent d !! n = bWorkspaceID x;
  bo_owner : bIsOwner x = true -> exists r, roles d !! bRoleID x = Some r /\ ownRole x r
}.

Definition tenantOf (x : Binding) : string * option Z * option Z :=
  (bScope x, bWorkspaceID x, bNamespaceID x).

Record Inv (c : Core) : Prop := {
  i_users : forall u, u ∈ dom (users (cd c)) -> u <= cq c TUsers;
  i_ws : forall w, w ∈ dom (workspaces (cd c)) -> w <= cq c TWorkspaces;
  i_ns : forall n w, parent (cd c) !! n = Some w ->
           n <= cq c TNamespaces /\ w ∈ dom (workspaces (cd c));
  i_roles : forall r x, roles (cd c) !! r = Some x ->
           r <= cq c TRoles /\ roleOk x /\ alive (cd c) (rWorkspaceID x) (rNamespaceID x);
  i_rules : forall r p, (r, p) ∈ rules (cd c) -> r ∈ dom (roles (cd c));
  i_bindings : forall b x, bindings (cd c) !! b = Some x -> b <= cq c TBindings /\ bindingOk (cd c) x;
  i_one_owner : forall b b' x x', bindings (cd c) !! b = Some x -> bindings (cd c) !! b' = Some x' ->
           bIsOwner x = true -> bIsOwner x' = true -> tenantOf x = tenantOf x' -> b = b'
}.

(** A role's columns other than its texts. *)
Definition roleKey (x : Role) : string * string * bool * option Z * option Z :=
  (rName x, rScope x, rBuiltin x, rWorkspaceID x, rNamespaceID x).

(** A built-in role of a workspace or namespace. *)
Definition tenantBuiltin (x : Role) : bool := rBuiltin x && negb (rScope x =s ScopePlatform).

(** ** Transitions *)

(** [strict]: no ownership transfer. *)
Record Keeps (strict : bool) (c c' : Core) : Prop := {
  k_users : forall u, u ∈ dom (users (cd c')) -> u <= cq c TUsers -> u ∈ dom (users (cd c));
  k_ws : forall w, w ∈ dom (workspaces (cd c')) -> w <= cq c TWorkspaces -> w ∈ dom (workspaces (cd c));
  k_ns : forall n w, parent (cd c') !! n = Some w -> n <= cq c TNamespaces -> parent (cd c) !! n = Some w;
  k_roles : forall r x', roles (cd c') !! r = Some x' -> r <= cq c TRoles ->
      exists x, roles (cd c) !! r = Some x /\ roleKey x' = roleKey x;
  k_builtin : forall r x, roles (cd c) !! r = Some x -> tenantBuiltin x = true ->
      alive (cd c') (rWorkspaceID x) (rNamespaceID x) ->
      roles (cd c') !! r = Some x /\ (forall p, (r, p) ∈ rules (cd c') <-> (r, p) ∈ rules (cd c));
  k_owner : strict = true -> forall b x, bindings (cd c) !! b = Some x -> bIsOwner x = true ->
      bUserID x ∈ dom (users (cd c')) -> alive (cd c') (bWorkspaceID x) (bNamespaceID x) ->
      bindings (cd c') !! b = Some x
}.

Definition Evo (strict : bool) : Trans :=
  fun c c' => seqLe (cq c) (cq c') /\ (Inv c -> Inv c' /\ Keeps strict c c').

(** A tenant with all of [defs], each with exactly its rules. *)
Definition hasBuiltin (d : DB) (ws ns : option Z) (def : BuiltinRoleDef) : Prop :=
  exists r x, roles d !! r = Some x
    /\ roleKey x = (dName def, dScope def, true, ws, ns)
    /\ (forall p, (r, p) ∈ rules d <-> p ∈ dRules def).

Definition wsComplete (d : DB) (w : Z) : Prop :=
  Forall (hasBuiltin d (Some w) None) WorkspaceBuiltinRoles.
Definition nsComplete (d : DB) (n : Z) : Prop :=
  Forall (hasBuiltin d None (Some n)) NamespaceBuiltinRoles.

Definition Step (strict : bool) : Trans :=
  fun c c' => Evo strict c c' /\ (Inv c ->
    (forall w, w ∈ dom (workspaces (cd c')) -> w ∈ dom (workspaces (cd c)) \/ wsComplete (cd c') w)
    /\ (forall n, n ∈ dom (parent (cd c')) -> n ∈ dom (parent (cd c)) \/ nsComplete (cd c') n)).

(** ** The relations are evolutions *)

Lemma Inv_seq c q : seqLe (cq c) q -> Inv c -> Inv (mkCore q (cd c) (cn c)).
Proof.
  intros Hq [H1 H2 H3 H4 H5 H6 H7]. split; cbn; try done.
  - intros u Hu. specialize (Hq TUsers). specialize (H1 u Hu). lia.
  - intros w Hw. specialize (Hq TWorkspaces). specialize (H2 w Hw). lia.
  - intros n w Hn. specialize (Hq TNamespaces). destruct (H3 n w Hn). split; [lia | done].
  - intros r x Hr. specialize (Hq TRoles). destruct (H4 r x Hr). split; [lia | done].
  - intros b x Hb. specialize (Hq TBindings). destruct (H6 b x Hb). split; [lia | done].
Qed.

(** Only the sequences, or tables the predicates do not read, change. *)
Lemma Evo_same strict c q d' n' :
  seqLe (cq c) q -> dom (users d') = dom (users (cd c)) ->
  dom (workspaces d') = dom (workspaces (cd c)) -> parent d' = parent (cd c) ->
  roles d' = roles (cd c) -> rules d' = rules (cd c) -> bindings d' = bindings (cd c) ->
  Evo strict c (mkCore q d' n').
Proof.
  intros Hq Eu Ew Ep Er El Eb. split; [done|]. intros HI.
  assert (Ea : forall ws ns, alive d' ws ns <-> alive (cd c) ws ns).
  { intros ws ns. unfold alive. by rewrite Ew, Ep. }
  split.
  - destruct (Inv_seq c q Hq HI) as [H1 H2 H3 H4 H5 H6 H7]. split; cbn in *;
      rewrite ?Eu, ?Ew, ?Ep, ?Er, ?El, ?Eb; try done.
    + intros r x Hx. rewrite Ea. by apply H4.
    + intros b x Hx. destruct (H6 b x Hx) as [Hb [B1 B2 B3 B4 B5 B6]]. split; [done|].
      split; rewrite ?Eu, ?Er, ?Ep, ?Ea; done.
  - split; cbn; rewrite ?Eu, ?Ew, ?Ep, ?Er, ?El, ?Eb; try done. eauto.
Qed.

Lemma Keeps_trans strict c1 c2 c3 :
  seqLe (cq c1) (cq c2) -> Inv c1 -> Inv c2 -> Keeps strict c1 c2 -> Keeps strict c2 c3 ->
  Keeps strict c1 c3.
Proof.
  intros Hq I1 I2 K1 K2. pose proof (Hq TUsers). pose proof (Hq TWorkspaces).
  pose proof (Hq TNamespaces). pose proof (Hq TRoles).
  assert (Hal : forall ws ns, alive (cd c1) ws ns -> alive (cd c3) ws ns -> alive (cd c2) ws ns).
  { intros ws ns [A1 A2] [B1 B2]. split.
    - intros w E. apply (k_ws _ _ _ K2); [auto|]. pose proof (i_ws _ I1 w (A1 w E)). lia.
    - intros n E. specialize (B2 n E). apply elem_of_dom in B2 as [w Hw].
      apply elem_of_dom. exists w. apply (k_ns _ _ _ K2); [done|].
      specialize (A2 n E). apply elem_of_dom in A2 as [w' Hw'].
      pose proof (i_ns _ I1 n w' Hw'). lia. }
  split.
  - intros u Hu Hle. apply (k_users _ _ _ K1); [|done]. apply (k_users _ _ _ K2); [done | lia].
  - intros w Hw Hle. apply (k_ws _ _ _ K1); [|done]. apply (k_ws _ _ _ K2); [done | lia].
  - intros n w Hw Hle. apply (k_ns _ _ _ K1); [|done]. apply (k_ns _ _ _ K2); [done | lia].
  - intros r x3 Hr Hle. destruct (k_roles _ _ _ K2 r x3 Hr) as (x2 & Hx2 & E2); [lia|].
    destruct (k_roles _ _ _ K1 r x2 Hx2 Hle) as (x1 & Hx1 & E1). exists x1. split; [done | congruence].
  - intros r x Hr Hb Ha. assert (alive (cd c2) (rWorkspaceID x) (rNamespaceID x)) as Ha2.
    { apply Hal; [|done]. by apply (i_roles _ I1 r x Hr). }
    destruct (k_builtin _ _ _ K1 r x Hr Hb Ha2) as [Hr2 Hp2].
    destruct (k_builtin _ _ _ K2 r x Hr2 Hb Ha) as [Hr3 Hp3]. split; [done|].
    intros p. by rewrite Hp3, Hp2.
  - intros Hs b x Hb Ho Hu Ha. destruct (i_bindings _ I1 b x Hb) as [_ Hok].
    apply (k_owner _ _ _ K2 Hs); try done. apply (k_owner _ _ _ K1 Hs); try done.
    + apply (k_users _ _ _ K2); [done|]. pose proof (i_users _ I1 _ (bo_user _ _ Hok)). lia.
    + apply Hal; [apply Hok | done].
Qed.

#[export] Instance Evo_Evolution strict : Evolution (Evo strict).
Proof.
  split.
  - intros c q Hq. by apply Evo_same.
  - intros c1 c2 c3 [Q1 H1] [Q2 H2]. split; [by eapply seqLe_trans|]. intros I1.
    destruct (H1 I1) as [I2 K1]. destruct (H2 I2) as [I3 K2]. split; [done|].
    by eapply Keeps_trans.
  - by intros c c' [H _].
  - intros c c' [H _]. by apply Evo_same.
Qed.

(** A complete tenant stays complete while it lives. *)
Lemma hasBuiltin_kept strict c c' ws ns def :
  Keeps strict c c' -> alive (cd c') ws ns -> dScope def <> ScopePlatform ->
  hasBuiltin (cd c) ws ns def -> hasBuiltin (cd c') ws ns def.
Proof.
  intros K Ha Hs (r & x & Hr & Hk & Hp). pose proof Hk as Hk0. injection Hk0 as _ Es Eb Ew En.
  destruct (k_builtin _ _ _ K r x Hr) as [Hr' Hp'].
  - unfold tenantBuiltin. rewrite Es, Eb. cbn.
    rewrite negb_true_iff. by apply String.eqb_neq.
  - by rewrite Ew, En.
  - exists r, x. split; [done|]. split; [done|]. intros p. by rewrite Hp', Hp.
Qed.

Lemma complete_kept strict c c' :
  Keeps strict c c' ->
  (forall w, w ∈ dom (workspaces (cd c')) -> wsComplete (cd c) w -> wsComplete (cd c') w) /\
  (forall n, n ∈ dom (parent (cd c')) -> nsComplete (cd c) n -> nsComplete (cd c') n).
Proof.
  intros K. unfold wsComplete, nsComplete, WorkspaceBuiltinRoles, NamespaceBuiltinRoles.
  split; intros i Hi HF; repeat apply Forall_cons in HF as [? HF];
    repeat apply Forall_cons_2; try apply Forall_nil_2;
    (eapply hasBuiltin_kept; [exact K | | done | done]); split; naive_solver.
Qed.

#[export] Instance Step_Evolution strict : Evolution (Step strict).
Proof.
  split.
  - intros c q Hq. split; [by apply ev_seq | auto].
  - intros c1 c2 c3 [E1 H1] [E2 H2]. split; [by eapply ev_trans|]. intros I1.
    destruct E1 as [_ E1], E2 as [_ E2]. destruct (E1 I1) as [I2 K1]. destruct (E2 I2) as [I3 K2].
    destruct (H1 I1) as [W1 N1], (H2 I2) as [W2 N2], (complete_kept _ _ _ K2) as [CW CN]. split.
    + intros w Hw. destruct (W2 w Hw) as [Hw2|?]; [|by right].
      destruct (W1 w Hw2); [by left | right; by apply CW].
    + intros n Hn. destruct (N2 n Hn) as [Hn2|?]; [|by right].
      destruct (N1 n Hn2); [by left | right; by apply CN].
  - intros c c' [[H _] _]. done.
  - intros c c' [E _]. split; [by apply ev_roll | auto].
Qed.

(** No new tenant: the built-in roles are no concern. *)
Lemma Step_intro strict c c' :
  Evo strict c c' ->
  (Inv c -> dom (workspaces (cd c')) ⊆ dom (workspaces (cd c)) /\ dom (parent (cd c')) ⊆ dom (parent (cd c))) ->
  Step strict c c'.
Proof. intros HE H. split; [done|]. intros HI. destruct (H HI) as [Hw Hn].
  split; [intros w ?; left; by apply Hw | intros n ?; left; by apply Hn].
Qed.

Lemma Step_same strict c q d' n' :
  seqLe (cq c) q -> dom (users d') = dom (users (cd c)) ->
  dom (workspaces d') = dom (workspaces (cd c)) -> parent d' = parent (cd c) ->
  roles d' = roles (cd c) -> rules d' = rules (cd c) -> bindings d' = bindings (cd c) ->
  Step strict c (mkCore q d' n').
Proof. intros ?? Ew Ep ???. apply Step_intro; [by apply Evo_same|]. cbn. by rewrite Ew, Ep. Qed.

Lemma Step_roll strict c c' : Evo strict c c' -> Step strict c (mkCore (cq c') (cd c) (cn c')).
Proof. intros H. apply Step_intro; [by apply ev_roll | done]. Qed.

(** ** Four kinds of change *)

Lemma alive_mono d d' ws ns :
  dom (workspaces d) ⊆ dom (workspaces d') -> dom (parent d) ⊆ dom (parent d') ->
  alive d ws ns -> alive d' ws ns.
Proof. intros H1 H2 [A B]. split; intros i E; [apply H1, A, E | apply H2, B, E]. Qed.

Lemma bindingOk_mono d d' x :
  dom (users d) ⊆ dom (users d') -> dom (workspaces d) ⊆ dom (workspaces d') ->
  parent d ⊆ parent d' -> roles d ⊆ roles d' -> bindingOk d x -> bindingOk d' x.
Proof.
  intros Hu Hw Hp Hr [B1 B2 B3 B4 B5 B6]. split; auto.
  - by apply (subseteq_dom _ _ Hr).
  - eapply alive_mono; [exact Hw | by apply subseteq_dom | done].
  - intros n E. destruct B4 as [_ Hn]. specialize (Hn n E). apply elem_of_dom in Hn as [w Hn].
    specialize (B5 n E). rewrite Hn in B5. rewrite <- B5. by apply (lookup_weaken _ _ _ _ Hn).
  - intros Ho. destruct (B6 Ho) as (r & Hr' & E). exists r.
    split; [by apply (lookup_weaken _ _ _ _ Hr') | done].
Qed.

(** Rows are added, with ids drawn from the sequences; rules only to roles
    that are no tenant's built-in ones. *)
Record Extends (c c' : Core) : Prop := {
  x_users : dom (users (cd c)) ⊆ dom (users (cd c')) /\
    forall u, u ∈ dom (users (cd c')) -> u ∈ dom (users (cd c)) \/ cq c TUsers < u <= cq c' TUsers;
  x_ws : dom (workspaces (cd c)) ⊆ dom (workspaces (cd c')) /\
    forall w, w ∈ dom (workspaces (cd c')) ->
      w ∈ dom (workspaces (cd c)) \/ cq c TWorkspaces < w <= cq c' TWorkspaces;
  x_ns : parent (cd c) ⊆ parent (cd c') /\
    forall n w, parent (cd c') !! n = Some w -> parent (cd c) !! n = Some w
      \/ cq c TNamespaces < n <= cq c' TNamespaces /\ w ∈ dom (workspaces (cd c'));
  x_roles : roles (cd c) ⊆ roles (cd c') /\
    forall r x, roles (cd c') !! r = Some x -> roles (cd c) !! r = Some x
      \/ cq c TRoles < r <= cq c' TRoles /\ roleOk x
         /\ alive (cd c') (rWorkspaceID x) (rNamespaceID x);
  x_rules : rules (cd c) ⊆ rules (cd c') /\
    forall r p, (r, p) ∈ rules (cd c') -> (r, p) ∈ rules (cd c)
      \/ r ∈ dom (roles (cd c')) /\ forall x, roles (cd c) !! r = Some x -> tenantBuiltin x = false;
  x_bindings : bindings (cd c') = bindings (cd c)
}.

Lemma Inv_extend c c' : seqLe (cq c) (cq c') -> Extends c c' -> Inv c -> Inv c'.
Proof.
  intros Hq [[Hu Hu'] [Hw Hw'] [Hn Hn'] [Hr Hr'] [Hl Hl'] Hb] I.
  pose proof (subseteq_dom _ _ Hr). pose proof (subseteq_dom _ _ Hn). split.
  - intros u [E|?]%Hu'; [|lia]. pose proof (i_users _ I u E). specialize (Hq TUsers). lia.
  - intros w [E|?]%Hw'; [|lia]. pose proof (i_ws _ I w E). specialize (Hq TWorkspaces). lia.
  - intros n w [E|[? ?]]%Hn'; [|split; [lia | done]]. destruct (i_ns _ I n w E).
    specialize (Hq TNamespaces). split; [lia | by apply Hw].
  - intros r x [E|(? & ? & ?)]%Hr'; [|by split; [lia|]]. destruct (i_roles _ I r x E) as (? & ? & ?).
    specialize (Hq TRoles). split; [lia|]. split; [done|]. by eapply alive_mono.
  - intros r p [E|[E _]]%Hl'; [|done]. by apply (i_rules _ I) in E; set_solver.
  - intros b x. rewrite Hb. intros E. destruct (i_bindings _ I b x E).
    specialize (Hq TBindings). split; [lia|]. by eapply bindingOk_mono.
  - rewrite Hb. apply (i_one_owner _ I).
Qed.

Lemma Keeps_extend strict c c' : Extends c c' -> Inv c -> Keeps strict c c'.
Proof.
  intros [[Hu Hu'] [Hw Hw'] [Hn Hn'] [Hr Hr'] [Hl Hl'] Hb] I. split.
  - intros u [?|?]%Hu' ?; [done | lia].
  - intros w [?|?]%Hw' ?; [done | lia].
  - intros n w [?|[? _]]%Hn' ?; [done | lia].
  - intros r x [E|[? _]]%Hr' ?; [eauto | lia].
  - intros r x E Hx _. split; [by apply (lookup_weaken _ _ _ _ E)|]. intros p. split.
    + intros [?|[_ Hp]]%Hl'; [done|]. by rewrite (Hp x E) in Hx.
    + intros ?. by apply Hl.
  - intros _ b x E _ _ _. by rewrite Hb.
Qed.

Lemma Evo_extend strict c c' : seqLe (cq c) (cq c') -> Extends c c' -> Evo strict c c'.
Proof.
  intros Hq HX. split; [done|]. intros HI. split; [by eapply Inv_extend | by apply Keeps_extend].
Qed.

(** Rows are removed with everything that refers to them. *)
Record Shrinks (strict : bool) (d d' : DB) : Prop := {
  h_users : dom (users d') ⊆ dom (users d);
  h_ws : dom (workspaces d') ⊆ dom (workspaces d);
  h_ns : parent d' ⊆ parent d;
  h_roles : roles d' ⊆ roles d;
  h_rules : rules d' ⊆ rules d;
  h_bindings : bindings d' ⊆ bindings d;
  h_ns_closed : forall n w, parent d' !! n = Some w -> w ∈ dom (workspaces d');
  h_roles_closed : forall r x, roles d' !! r = Some x -> alive d' (rWorkspaceID x) (rNamespaceID x);
  h_rules_closed : forall r p, (r, p) ∈ rules d' -> r ∈ dom (roles d');
  h_bindings_closed : forall b x, bindings d' !! b = Some x -> bUserID x ∈ dom (users d')
      /\ bRoleID x ∈ dom (roles d') /\ alive d' (bWorkspaceID x) (bNamespaceID x);
  h_builtin : forall r x, roles d !! r = Some x -> tenantBuiltin x = true ->
      alive d' (rWorkspaceID x) (rNamespaceID x) ->
      r ∈ dom (roles d') /\ forall p, (r, p) ∈ rules d -> (r, p) ∈ rules d';
  h_owner : strict = true -> forall b x, bindings d !! b = Some x -> bIsOwner x = true ->
      bUserID x ∈ dom (users d') -> alive d' (bWorkspaceID x) (bNamespaceID x) -> b ∈ dom (bindings d')
}.

Lemma submap_lookup {A} (m m' : gmap Z A) i x y :
  m' ⊆ m -> m' !! i = Some x -> m !! i = Some y -> x = y.
Proof. intros H E1 E2. pose proof (lookup_weaken _ _ _ _ E1 H). congruence. Qed.

Lemma submap_dom {A} (m m' : gmap Z A) i x :
  m' ⊆ m -> i ∈ dom m' -> m !! i = Some x -> m' !! i = Some x.
Proof. intros H [y E]%elem_of_dom E2. by rewrite <- (submap_lookup _ _ _ _ _ H E E2). Qed.

Lemma Evo_shrink strict c d' n' :
  (Inv c -> Shrinks strict (cd c) d') -> Evo strict c (mkCore (cq c) d' n').
Proof.
  intros HS. split; [apply seqLe_refl|]. intros I. destruct (HS I) as [S1 S2 S3 S4 S5 S6 C1 C2 C3 C4 B O].
  split.
  - split; cbn.
    + intros u ?%S1. by apply (i_users _ I).
    + intros w ?%S2. by apply (i_ws _ I).
    + intros n w E. pose proof (lookup_weaken _ _ _ _ E S3). split; [|by eapply C1].
      by eapply (i_ns _ I).
    + intros r x E. pose proof (lookup_weaken _ _ _ _ E S4) as E'.
      destruct (i_roles _ I r x E') as (? & ? & _). split; [done|]. split; [done | by eapply C2].
    + eauto.
    + intros b x E. pose proof (lookup_weaken _ _ _ _ E S6) as E'.
      destruct (i_bindings _ I b x E') as [? [B1 B2 B3 B4 B5 B6]]. split; [done|].
      destruct (C4 b x E) as (D1 & D2 & D3). split; auto.
      * intros n En. pose proof (proj2 D3 n En) as [w Hw]%elem_of_dom. rewrite Hw, <- (B5 n En).
        symmetry. by eapply lookup_weaken.
      * intros Ho. destruct (B6 Ho) as (r & Hr & ?). exists r.
        split; [by eapply submap_dom | done].
    + intros b b' x x' E E'. pose proof (lookup_weaken _ _ _ _ E S6).
      pose proof (lookup_weaken _ _ _ _ E' S6). by apply (i_one_owner _ I).
  - split; cbn.
    + intros u ?%S1 ?. done.
    + intros w ?%S2 ?. done.
    + intros n w E _. by eapply lookup_weaken.
    + intros r x E _. exists x. split; [by eapply lookup_weaken | done].
    + intros r x E Hx Ha. destruct (B r x E Hx Ha) as [D1 D2]. split; [by eapply submap_dom|].
      intros p. split; [apply S5 | apply D2].
    + intros Hs b x E Ho Hu Ha. eapply submap_dom; eauto.
Qed.

(** Only role bindings change. *)
Lemma Evo_bindings strict c q m n' :
  seqLe (cq c) q ->
  (Inv c -> (forall b x, m !! b = Some x -> b <= q TBindings /\ bindingOk (cd c) x)
    /\ (forall b b' x x', m !! b = Some x -> m !! b' = Some x' -> bIsOwner x = true ->
          bIsOwner x' = true -> tenantOf x = tenantOf x' -> b = b')
    /\ (strict = true -> forall b x, bindings (cd c) !! b = Some x -> bIsOwner x = true ->
          m !! b = Some x)) ->
  Evo strict c (mkCore q (set_bindings m (cd c)) n').
Proof.
  intros Hq H. split; [done|]. intros I. destruct (H I) as (H1 & H2 & H3).
  destruct (Inv_seq c q Hq I) as [J1 J2 J3 J4 J5 _ _]. split.
  - split; cbn in *; try done. intros b x E. destruct (H1 b x E) as [? [? ? ? ? ? ?]]. by split.
  - split; cbn; try done; eauto.
Qed.

(** A role's texts change; it is no tenant's built-in role. *)
Lemma Evo_retext strict c q r x x' n' :
  seqLe (cq c) q -> roles (cd c) !! r = Some x -> roleKey x' = roleKey x -> tenantBuiltin x = false ->
  Evo strict c (mkCore q (set_roles (<[r := x']> (roles (cd c))) (cd c)) n').
Proof.
  intros Hq Hr Hk Hb. split; [done|]. intros I. pose proof Hk as Hk'.
  injection Hk' as _ Es _ Ew En.
  assert (Hdom : dom (<[r := x']> (roles (cd c))) = dom (roles (cd c))).
  { apply dom_insert_lookup_L. by eexists. }
  destruct (Inv_seq c q Hq I) as [J1 J2 J3 J4 J5 J6 J7]. split.
  - split; cbn in *; try done.
    + intros r' y. destruct (decide (r' = r)) as [->|]; [|rewrite lookup_insert_ne by done; apply J4].
      rewrite lookup_insert_eq. intros [= <-]. destruct (J4 r x Hr) as (? & Hs & ?).
      split; [done|]. unfold roleOk, roleScopeOk in *. by rewrite Es, Ew, En.
    + intros r' p ?%J5. by rewrite Hdom.
    + intros b y E. destruct (J6 b y E) as [? [? ? ? ? ? B6]]. split; [done|].
      split; cbn; rewrite ?Hdom; try done. intros Ho. destruct (B6 Ho) as (z & Hz & Hz').
      destruct (decide (bRoleID y = r)) as [Er|].
      * rewrite Er in *. exists x'. rewrite lookup_insert_eq. split; [done|].
        replace z with x in Hz' by congruence. unfold ownRole. by rewrite Es, Ew, En.
      * exists z. by rewrite lookup_insert_ne.
  - split; cbn; try done.
    + intros r' y. destruct (decide (r' = r)) as [->|]; [|rewrite lookup_insert_ne by done; eauto].
      rewrite lookup_insert_eq. intros [= <-] _. eauto.
    + intros r' y E Hy _. destruct (decide (r' = r)) as [->|]; [congruence|].
      by rewrite lookup_insert_ne.
Qed.

(** ** Statements *)

Ltac unneg := repeat match goal with H : negb _ = false |- _ => apply negb_false_iff in H end.

Lemma storeUser_ok id u d a d' :
  storeUser id u d = Ok (a, d') -> a = (id, u) /\ d' = set_users (<[id := u]> (users d)) d.
Proof. unfold storeUser. intros H. by repeat case_match; simplify_eq. Qed.

Lemma storeWorkspace_ok id w d a d' :
  storeWorkspace id w d = Ok (a, d') -> a = (id, w) /\ d' = set_workspaces (<[id := w]> (workspaces d)) d.
Proof. unfold storeWorkspace. intros H. by repeat case_match; simplify_eq. Qed.

Lemma storeNamespace_ok id n d a d' :
  storeNamespace id n d = Ok (a, d') ->
  a = (id, n) /\ d' = set_namespaces (<[id := n]> (namespaces d)) d
    /\ nsWorkspaceID n ∈ dom (workspaces d).
Proof.
  unfold storeNamespace. intros H. repeat case_match; simplify_eq. split; [done|]. split; [done|].
  rewrite negb_false_iff, !andb_true_iff in *. destruct_and!. unfold workspaceExists in *.
  rewrite bool_is_Some in *. by apply elem_of_dom.
Qed.

Lemma one_ok {A} (o : option A) a : one o = Ok a <-> o = Some a.
Proof. destruct o; cbn; split; congruence. Qed.

Lemma rbind_ok {E A B} (r : result E A) (f : A -> result E B) b :
  (x <-! r ;; f x) = Ok b <-> exists a, r = Ok a /\ f a = Ok b.
Proof. destruct r; cbn; split; [eauto | by intros (? & [= <-] & ?) | done | by intros (? & ? & ?)]. Qed.

Lemma dom_same {A} (m : gmap Z A) i x y : m !! i = Some x -> dom (<[i := y]> m) = dom m.
Proof. intros H. apply dom_insert_lookup_L. by eexists. Qed.

Lemma parent_store d id n :
  parent (set_namespaces (<[id := n]> (namespaces d)) d) = <[id := nsWorkspaceID n]> (parent d).
Proof. apply fmap_insert. Qed.

Lemma parent_lookup d n : parent d !! n = nsWorkspaceID <$> (namespaces d !! n).
Proof. apply lookup_fmap. Qed.

(** Close the goals of [Step_same] for tables a statement leaves alone. *)
Ltac same_tables :=
  apply Step_same; try first [apply seqLe_refl | apply seqLe_nextval];
  try done; try apply dom_alter_L.

Section Unchanged.
Context (strict : bool).
#[local] Abbreviation same st := (sev any (Step strict) st anyOf).

Lemma step_SetPasswordHash id h : same (SetPasswordHash id h).
Proof.
  apply sev_exec. intros c a d' _ H. repeat case_match; simplify_eq/=. split; [|done].
  same_tables.
Qed.

Lemma step_SetUserBuiltin id b : same (SetUserBuiltin id b).
Proof.
  apply sev_exec. intros c a d' _ H. simplify_eq/=. split; [|done].
  same_tables.
Qed.

Lemma step_storeUser c id x y a d' :
  users (cd c) !! id = Some x -> storeUser id y (cd c) = Ok (a, d') ->
  Step strict c (mkCore (cq c) d' (cn c)) /\ anyOf a (mkCore (cq c) d' (cn c)).
Proof.
  intros Hx [_ ->]%storeUser_ok. split; [|done].
  same_tables. by eapply dom_same.
Qed.

Lemma step_UpdateUser id a1 a2 a3 a4 a5 a6 : same (UpdateUser id a1 a2 a3 a4 a5 a6).
Proof.
  apply sev_exec. intros c a d' _ (x & Hx%one_ok & H)%rbind_ok. by eapply step_storeUser.
Qed.

Lemma step_PatchUser id a1 a2 a3 a4 a5 : same (PatchUser id a1 a2 a3 a4 a5).
Proof.
  apply sev_exec. intros c a d' _ (x & Hx%one_ok & H)%rbind_ok. by eapply step_storeUser.
Qed.

Lemma step_CreateUserIdentity u p s e : same (CreateUserIdentity u p s e).
Proof.
  apply sev_insert. intros c a d' id _ _ H. repeat case_match; simplify_eq/=. split; [|done].
  same_tables.
Qed.

Lemma step_RevokeRefreshTokens u : same (RevokeRefreshTokensByUserID u).
Proof. apply sev_exec. intros c a d' _ H. simplify_eq/=. split; [|done]. same_tables. Qed.

Lemma step_UpdateWorkspace id a1 a2 a3 a4 a5 : same (UpdateWorkspace id a1 a2 a3 a4 a5).
Proof.
  apply sev_exec. intros c a d' _ (x & Hx%one_ok & ([? ?] & [-> ->]%storeWorkspace_ok & H)%rbind_ok)%rbind_ok.
  simplify_eq/=. split; [|done]. same_tables. by eapply dom_same.
Qed.

Lemma step_PatchWorkspace id a1 a2 a3 a4 a5 : same (PatchWorkspace id a1 a2 a3 a4 a5).
Proof.
  apply sev_exec. intros c a d' _ (x & Hx%one_ok & ([? ?] & [-> ->]%storeWorkspace_ok & H)%rbind_ok)%rbind_ok.
  simplify_eq/=. split; [|done]. same_tables. by eapply dom_same.
Qed.

Lemma step_UpdateNamespace id a1 a2 a3 a4 a5 a6 a7 : same (UpdateNamespace id a1 a2 a3 a4 a5 a6 a7).
Proof.
  apply sev_exec.
  intros c a d' _ (x & Hx%one_ok & ([? ?] & (-> & -> & _)%storeNamespace_ok & H)%rbind_ok)%rbind_ok.
  simplify_eq/=. split; [|done]. same_tables.
  rewrite parent_store. apply insert_id. by rewrite parent_lookup, Hx.
Qed.

Lemma step_PatchNamespace id a1 a2 a3 a4 a5 a6 a7 : same (PatchNamespace id a1 a2 a3 a4 a5 a6 a7).
Proof.
  apply sev_exec.
  intros c a d' _ (x & Hx%one_ok & ([? ?] & (-> & -> & _)%storeNamespace_ok & H)%rbind_ok)%rbind_ok.
  simplify_eq/=. split; [|done]. same_tables.
  rewrite parent_store. apply insert_id. by rewrite parent_lookup, Hx.
Qed.

Lemma step_UpsertPermission a1 a2 a3 a4 a5 : same (UpsertPermission a1 a2 a3 a4 a5).
Proof.
  apply sev_exec. intros c a d' _ H. case_match; simplify_eq/=. split; [|done]. same_tables.
Qed.

Lemma step_DeletePermissions p k : same (DeletePermissionsByModulePrefix p k).
Proof. apply sev_exec. intros c a d' _ H. simplify_eq/=. split; [|done]. same_tables. Qed.
End Unchanged.

(** *** Inserts *)

Definition fresh (q : Seqs) (t : Table) (id : Z) : Prop := id = q t + 1.

Lemma nextval_same t q : (nextval t q).2 t = q t + 1.
Proof. cbn. by rewrite decide_True. Qed.

(** The tables two states share. *)
Ltac extends := split; cbn; try done; try (split; [done | by left]).

Lemma Extends_user c u :
  let id := cq c TUsers + 1 in
  Extends c (mkCore (nextval TUsers (cq c)).2 (set_users (<[id := u]> (users (cd c))) (cd c)) (cn c)).
Proof.
  intros id. extends. split; [set_solver|]. intros i Hi. rewrite dom_insert in Hi.
  apply elem_of_union in Hi as [->%elem_of_singleton|]; [right | by left].
  rewrite decide_True by done. subst id. lia.
Qed.

Lemma Extends_workspace c w :
  let id := cq c TWorkspaces + 1 in
  Extends c (mkCore (nextval TWorkspaces (cq c)).2
               (set_workspaces (<[id := w]> (workspaces (cd c))) (cd c)) (cn c)).
Proof.
  intros id. extends. split; [set_solver|]. intros i Hi. rewrite dom_insert in Hi.
  apply elem_of_union in Hi as [->%elem_of_singleton|]; [right | by left].
  rewrite decide_True by done. subst id. lia.
Qed.

Lemma fresh_None {A} (m : gmap Z A) (k : Z) : (forall i, i ∈ dom m -> i <= k) -> m !! (k + 1) = None.
Proof.
  intros H. apply not_elem_of_dom. intros Hi. specialize (H _ Hi). lia.
Qed.

Lemma fresh_ns c : Inv c -> parent (cd c) !! (cq c TNamespaces + 1) = None.
Proof.
  intros I. apply fresh_None. intros i [w Hw]%elem_of_dom. by apply (i_ns _ I i w).
Qed.

Lemma fresh_role c : Inv c -> roles (cd c) !! (cq c TRoles + 1) = None.
Proof.
  intros I. apply fresh_None. intros i [x Hx]%elem_of_dom. by apply (i_roles _ I i x).
Qed.

Lemma Extends_namespace c n :
  let id := cq c TNamespaces + 1 in
  Inv c -> nsWorkspaceID n ∈ dom (workspaces (cd c)) ->
  Extends c (mkCore (nextval TNamespaces (cq c)).2
               (set_namespaces (<[id := n]> (namespaces (cd c))) (cd c)) (cn c)).
Proof.
  intros id I Hw. extends. rewrite parent_store. split; [apply insert_subseteq, (fresh_ns c I)|].
  intros i w. destruct (decide (i = id)) as [->|]; [|rewrite lookup_insert_ne by done; by left].
  rewrite lookup_insert_eq. intros [= <-]. right. rewrite decide_True by done. subst id.
  split; [lia | done].
Qed.

Lemma Extends_role c x :
  let id := cq c TRoles + 1 in
  Inv c -> roleOk x -> alive (cd c) (rWorkspaceID x) (rNamespaceID x) ->
  Extends c (mkCore (nextval TRoles (cq c)).2 (set_roles (<[id := x]> (roles (cd c))) (cd c)) (cn c)).
Proof.
  intros id I Hs Ha. extends. split; [apply insert_subseteq, (fresh_role c I)|].
  intros i y. destruct (decide (i = id)) as [->|]; [|rewrite lookup_insert_ne by done; by left].
  rewrite lookup_insert_eq. intros [= <-]. right. rewrite decide_True by done. subst id.
  split; [lia | done].
Qed.

Lemma roleRefsOk_alive d x :
  roleRefsOk d x = true -> alive d (rWorkspaceID x) (rNamespaceID x).
Proof.
  unfold roleRefsOk, existsOrNull. rewrite andb_true_iff. intros [H1 H2].
  split; intros i E; rewrite E in *; unfold workspaceExists, namespaceExists in *.
  - by rewrite bool_is_Some, <- elem_of_dom in H1.
  - rewrite bool_is_Some, <- elem_of_dom in H2. unfold parent. by rewrite dom_fmap.
Qed.

Lemma Extends_refl c : Extends c c.
Proof. by extends. Qed.

Lemma Extends_trans c1 c2 c3 :
  seqLe (cq c1) (cq c2) -> seqLe (cq c2) (cq c3) -> Extends c1 c2 -> Extends c2 c3 -> Extends c1 c3.
Proof.
  intros Q1 Q2 [[U1 U1'] [W1 W1'] [N1 N1'] [R1 R1'] [L1 L1'] B1]
    [[U2 U2'] [W2 W2'] [N2 N2'] [R2 R2'] [L2 L2'] B2].
  split.
  - split; [set_solver|]. specialize (Q1 TUsers). specialize (Q2 TUsers).
    intros u [[?|?]%U1'|?]%U2'; [by left | right; lia | right; lia].
  - split; [set_solver|]. specialize (Q1 TWorkspaces). specialize (Q2 TWorkspaces).
    intros u [[?|?]%W1'|?]%W2'; [by left | right; lia | right; lia].
  - split; [by transitivity (parent (cd c2))|]. specialize (Q1 TNamespaces). specialize (Q2 TNamespaces).
    intros n w [[?|[? ?]]%N1'|[? ?]]%N2'; [by left | right; split; [lia | by apply W2] | right; split; [lia | done]].
  - split; [by transitivity (roles (cd c2))|]. specialize (Q1 TRoles). specialize (Q2 TRoles).
    intros r x [[?|(? & ? & ?)]%R1'|(? & ? & ?)]%R2'; [by left | right | right]; (split; [lia|]; split; [done|]); [|done].
    eapply alive_mono; [exact W2 | by apply subseteq_dom | done].
  - split; [set_solver|]. intros r p [[?|[? H]]%L1'|[? H]]%L2'; [by left | right | right].
    + split; [by apply (subseteq_dom _ _ R2) | done].
    + split; [done|]. intros x Hx. apply H. by eapply lookup_weaken.
  - congruence.
Qed.

(** A role created together with its rules. *)
Definition withRole (id : Z) (x : Role) (patterns : list string) (d : DB) : DB :=
  set_rules (list_to_set (pair id <$> patterns) ∪ rules d) (set_roles (<[id := x]> (roles d)) d).

Lemma elem_of_withRole id x ps d r p :
  (r, p) ∈ rules (withRole id x ps d) <-> (r = id /\ p ∈ ps) \/ (r, p) ∈ rules d.
Proof.
  cbn. rewrite elem_of_union, elem_of_list_to_set, list_elem_of_fmap. split.
  - intros [(y & [= <- <-] & Hy)|]; auto.
  - intros [[-> Hp]|]; [left; eauto | by right].
Qed.

Lemma Extends_withRole c x ps n' :
  let id := cq c TRoles + 1 in
  Inv c -> roleOk x -> alive (cd c) (rWorkspaceID x) (rNamespaceID x) ->
  Extends c (mkCore (nextval TRoles (cq c)).2 (withRole id x ps (cd c)) n').
Proof.
  intros id I Hs Ha. destruct (Extends_role c x I Hs Ha) as [X1 X2 X3 X4 X5 X6].
  split; try done. split; [cbn; set_solver|]. intros r p Hr.
  apply elem_of_withRole in Hr as [[-> Hp]|]; [right | by left]. split.
  - cbn. rewrite dom_insert. set_solver.
  - intros y. subst id. by rewrite (fresh_role c I).
Qed.

Lemma hasBuiltin_withRole c ws ns def ps x :
  Inv c -> hasBuiltin (cd c) ws ns def ->
  hasBuiltin (withRole (cq c TRoles + 1) x ps (cd c)) ws ns def.
Proof.
  intros I (r & y & Hr & Hk & Hp). exists r, y.
  assert (r <> cq c TRoles + 1) by (intros ->; by rewrite (fresh_role c I) in Hr).
  split; [cbn; by rewrite lookup_insert_ne|]. split; [done|].
  intros p. rewrite elem_of_withRole, <- Hp. split; [by intros [[? _]|] | by right].
Qed.

Lemma hasBuiltin_new c ws ns def x :
  Inv c -> roleKey x = (dName def, dScope def, true, ws, ns) ->
  hasBuiltin (withRole (cq c TRoles + 1) x (dRules def) (cd c)) ws ns def.
Proof.
  intros I Hk. exists (cq c TRoles + 1), x. split; [apply lookup_insert_eq|]. split; [done|].
  intros p. rewrite elem_of_withRole. split; [|by left].
  intros [[_ ?]|Hp]; [done|]. apply (i_rules _ I) in Hp.
  by rewrite elem_of_dom, (fresh_role c I) in Hp; destruct Hp.
Qed.

(** The statements' exact effects, as steps of a transaction. *)
Lemma tx_CreateRole c n dn de sc b ws ns :
  let x := mkRole n dn de sc b ws ns in
  sev (eq c) Grow (CreateRole n dn de sc b ws ns) (fun a c' =>
    a = (cq c TRoles + 1, x) /\ roleScopeOk x = true /\ alive (cd c) ws ns
    /\ c' = mkCore (nextval TRoles (cq c)).2 (set_roles (<[cq c TRoles + 1 := x]> (roles (cd c))) (cd c)) (cn c)).
Proof.
  intros x. apply sev_insert. intros c1 a d' id <- -> H. cbv zeta in H. repeat case_match; simplify_eq/=.
  unneg. split; [apply seqLe_nextval|].
  split; [done|]. split; [done|]. split; [|done]. exact (roleRefsOk_alive _ x ltac:(done)).
Qed.

Lemma tx_AddRule c id p :
  sev (eq c) Grow (AddRolePermissionRule id p) (fun _ c' =>
    c' = mkCore (cq c) (set_rules ({[(id, p)]} ∪ rules (cd c)) (cd c)) (cn c)).
Proof.
  apply sev_exec. intros c1 a d' <- H. repeat case_match; simplify_eq/=; (split; [apply seqLe_refl|]); [|done].
  rewrite bool_decide_eq_true in *. destruct c as [q d n]. cbn in *. f_equal.
  destruct d. cbn in *. unfold set_rules. cbn. f_equal. set_solver.
Qed.

Lemma ev_eq {E A} {R} `{!Evolution R} c (m : M E A) (ψ : A -> Guard) φ :
  (forall c', φ c' -> c' = c) -> ev (eq c) R m ψ -> ev φ R m ψ.
Proof. intros H. apply ev_weaken; [intros c' Hc; by rewrite (H c' Hc) | done]. Qed.

Lemma tx_addRules id ps : forall c,
  ev (eq c) Grow (addRules id ps) (fun _ c' =>
    c' = mkCore (cq c) (set_rules (list_to_set (pair id <$> ps) ∪ rules (cd c)) (cd c)) (cn c)).
Proof.
  unfold addRules. induction ps as [|p ps IH]; intros c; cbn [forEach].
  - apply ev_ret. intros c' <-. destruct c as [q [] n]. cbn. unfold set_rules. cbn.
    do 2 f_equal. set_solver.
  - eapply ev_bind; [apply ev_onErr, ev_Q, tx_AddRule|]. intros u. eapply ev_eq; [by intros c' ->|].
    eapply ev_weaken; [done | | apply IH]. intros ? c' ->. cbn. unfold set_rules. cbn.
    do 2 f_equal. set_solver.
Qed.

Definition newRole (def : BuiltinRoleDef) (ws ns : option Z) : Role :=
  mkRole (dName def) (dDisplayName def) (dDescription def) (dScope def) true ws ns.

(** How far a transaction that only adds roles is. *)
Record Building (c0 c : Core) (ws ns : option Z) (built : list BuiltinRoleDef) : Prop := {
  bd_inv : Inv c;
  bd_seq : seqLe (cq c0) (cq c);
  bd_ext : Extends c0 c;
  bd_ws : workspaces (cd c) = workspaces (cd c0);
  bd_ns : namespaces (cd c) = namespaces (cd c0);
  bd_built : Forall (hasBuiltin (cd c) ws ns) built
}.

Lemma Building_start c ws ns : Inv c -> Building c c ws ns [].
Proof. intros I. split; try done; [apply seqLe_refl | apply Extends_refl]. Qed.

Lemma Building_next c0 c ws ns built def :
  Building c0 c ws ns built -> roleOk (newRole def ws ns) -> alive (cd c) ws ns ->
  Building c0 (mkCore (nextval TRoles (cq c)).2
                 (withRole (cq c TRoles + 1) (newRole def ws ns) (dRules def) (cd c)) (cn c))
    ws ns (def :: built).
Proof.
  intros [I Hq X Hw Hn HF] Hs Ha. pose proof (Extends_withRole c _ (dRules def) (cn c) I Hs Ha) as X'.
  assert (seqLe (cq c) (nextval TRoles (cq c)).2) as Hq' by apply seqLe_nextval. split; try done.
  - by eapply Inv_extend.
  - by eapply seqLe_trans.
  - by eapply Extends_trans.
  - apply Forall_cons_2; [by apply hasBuiltin_new|]. eapply Forall_impl; [exact HF|].
    intros def' Hd. by apply hasBuiltin_withRole.
Qed.

(** The role the owner is bound to: one of the new tenant. *)
Definition roleOfTenant (d : DB) (id : Z) (scope : string) (ws ns : option Z) : Prop :=
  exists x, roles d !! id = Some x /\ rScope x = scope /\ rWorkspaceID x = ws /\ rNamespaceID x = ns.

Lemma roleOfTenant_withRole c id x ps r scope ws ns :
  Inv c -> roleOfTenant (cd c) r scope ws ns -> id = cq c TRoles + 1 ->
  roleOfTenant (withRole id x ps (cd c)) r scope ws ns.
Proof.
  intros I (y & Hy & Hs) ->. exists y. split; [|done]. cbn. rewrite lookup_insert_ne; [done|].
  intros <-. by rewrite (fresh_role c I) in Hy.
Qed.

Lemma tx_createBuiltinRoles c0 ws ns scope admin : (scope = ScopeNamespace -> ws = None) ->
  forall defs aid built, Forall (fun def => dScope def = scope) defs ->
  ev (fun c => Building c0 c ws ns built /\
        (existsb (fun def => dName def =s admin) defs = true \/ roleOfTenant (cd c) aid scope ws ns)) Grow
     (createBuiltinRoles defs ws ns admin aid)
     (fun id c => Building c0 c ws ns (rev defs ++ built) /\ roleOfTenant (cd c) id scope ws ns).
Proof.
  intros Hns. induction defs as [|def defs IH]; intros aid built Hsc; cbn [createBuiltinRoles].
  - apply ev_ret. intros c [HB [?|?]]; done.
  - apply Forall_cons in Hsc as [Hd Hsc]. apply ev_at. intros c [HB Ha].
    eapply ev_bind; [apply ev_onErr, ev_Q, tx_CreateRole|]. intros [id r]. cbn beta.
    apply ev_at. intros c1 ([= -> ->] & Hs & Hal & ->).
    eapply ev_bind; [apply tx_addRules|]. intros u.
    eapply ev_weaken; [| |apply (IH _ (def :: built) Hsc)].
    + intros c' ->. split; [apply (Building_next c0 c); [done | split; [done | intros E; apply Hns; by rewrite <- Hd] | done]|].
      cbn [existsb] in Ha. destruct (dName def =s admin).
      * right. exists (newRole def ws ns). split; [apply lookup_insert_eq | done].
      * destruct Ha as [?|Ha]; [by left | right]. by eapply (roleOfTenant_withRole c); [apply HB | |].
    + intros a c'. cbn. by rewrite <- app_assoc.
Qed.

End IamTenancy.
