(* ===== verification/IamIntegrity.v ===== *)
(** * Every statement keeps the tenancy invariant

    The mutating statements of [IamDb] and the transactions of [IamStore]
    follow the transition relation [Step] of [IamTenancy]: bindings, roles
    and rules, cascading deletes, tenant creation, seeding and ownership
    transfer. A guard states what the caller has checked before. *)

From S2P Require Import Prelude Rbac IamDb IamStore IamLogic IamTenancy.

Module IamIntegrity.
Import Rbac IamDb IamStore IamLogic IamTenancy.

(** ** Role bindings *)

Lemma bindingRefsOk_spec d b :
  bindingRefsOk d b = true ->
  bUserID b ∈ dom (users d) /\ bRoleID b ∈ dom (roles d) /\ alive d (bWorkspaceID b) (bNamespaceID b).
Proof.
  unfold bindingRefsOk. rewrite !andb_true_iff. intros (((Hu & Hr) & Hw) & Hn).
  unfold userExists in Hu. rewrite bool_is_Some in Hu. rewrite bool_is_Some in Hr. rewrite !elem_of_dom.
  split; [done|]. split; [done|].
  apply (roleRefsOk_alive d (mkRole "" "" "" "" false (bWorkspaceID b) (bNamespaceID b))).
  unfold roleRefsOk. cbn. by rewrite Hw, Hn.
Qed.

Lemma scopes_distinct :
  ScopePlatform <> ScopeWorkspace /\ ScopePlatform <> ScopeNamespace /\ ScopeWorkspace <> ScopeNamespace.
Proof. by vm_compute. Qed.

Lemma bindingScopeOk_cases x :
  bindingScopeOk x = true ->
  (bScope x = ScopePlatform /\ bWorkspaceID x = None /\ bNamespaceID x = None) \/
  (bScope x = ScopeWorkspace /\ is_Some (bWorkspaceID x) /\ bNamespaceID x = None) \/
  (bScope x = ScopeNamespace /\ is_Some (bWorkspaceID x) /\ is_Some (bNamespaceID x)).
Proof.
  unfold bindingScopeOk. rewrite !orb_true_iff, !andb_true_iff, !negb_true_iff, !String.eqb_eq.
  destruct (bWorkspaceID x), (bNamespaceID x); cbn; intros H; destruct_or!; destruct_and!;
    try done; eauto 10.
Qed.

(** Two rows with the same key are in the same tenant. *)
Lemma bindingClash_tenant d b b0 :
  bindingScopeOk b = true -> bindingOk d b0 ->
  (forall n, bNamespaceID b = Some n -> parent d !! n = bWorkspaceID b) ->
  bindingClash b b0 = true ->
  bRoleID b0 = bRoleID b /\ bUserID b0 = bUserID b /\ tenantOf b0 = tenantOf b.
Proof.
  intros Hs H0 Hp. unfold bindingClash. rewrite !andb_true_iff, !Z.eqb_eq, String.eqb_eq.
  intros (((Hu & Hr) & Hsc) & Hids). split; [done|]. split; [done|]. unfold tenantOf. rewrite <- Hsc.
  pose proof scopes_distinct as (D1 & D2 & D3).
  pose proof (bindingScopeOk_cases _ Hs) as C. pose proof (bindingScopeOk_cases _ (bo_scope _ _ H0)) as C0.
  rewrite <- Hsc in C0.
  rewrite !orb_true_iff, !andb_true_iff, !String.eqb_eq, !sameID_spec in Hids.
  destruct C as [(E & -> & ->)|[(E & Hw & ->)|(E & Hw & Hn)]]; rewrite E in *.
  - by destruct C0 as [(_ & -> & ->)|[(? & _)|(? & _)]].
  - destruct C0 as [(? & _)|[(_ & _ & ->)|(? & _)]]; [congruence| |congruence].
    destruct Hids as [[?|(_ & -> & _)]|(? & _)]; [congruence | done | congruence].
  - destruct Hids as [[?|(? & _)]|(_ & En & [n Hn'])]; [congruence | congruence |].
    pose proof (bo_parent _ _ H0 n) as P0. rewrite <- En, Hn' in P0 |- *.
    specialize (P0 eq_refl). specialize (Hp n Hn'). congruence.
Qed.

Definition noOwner (d : DB) (t : string * option Z * option Z) : Prop :=
  forall i x, bindings d !! i = Some x -> bIsOwner x = true -> tenantOf x <> t.

(** What the caller knows of a row it inserts. *)
Definition mayInsert (b : Binding) : Guard := fun c =>
  (forall n, bNamespaceID b = Some n -> parent (cd c) !! n = bWorkspaceID b) /\
  (bIsOwner b = true -> noOwner (cd c) (tenantOf b) /\
     exists r, roles (cd c) !! bRoleID b = Some r /\ ownRole b r).

Lemma fresh_binding c : Inv c -> bindings (cd c) !! (cq c TBindings + 1) = None.
Proof.
  intros I. apply fresh_None. intros i [x Hx]%elem_of_dom. by apply (i_bindings _ I i x).
Qed.

Lemma insert_new_binding strict c b n' :
  mayInsert b c -> bindingScopeOk b = true -> bindingRefsOk (cd c) b = true ->
  Evo strict c (mkCore (nextval TBindings (cq c)).2
    (set_bindings (<[cq c TBindings + 1 := b]> (bindings (cd c))) (cd c)) n').
Proof.
  intros [Hp Ho] Hs Hr. apply Evo_bindings; [apply seqLe_nextval|]. intros I.
  pose proof (fresh_binding c I) as Hf. split; [|split].
  - intros i x. destruct (decide (i = cq c TBindings + 1)) as [->|].
    + rewrite lookup_insert_eq, nextval_same. intros [= <-]. split; [lia|].
      destruct (bindingRefsOk_spec _ _ Hr) as (? & ? & ?). split; try done. intros Hb. by apply Ho.
    + rewrite lookup_insert_ne by done. intros E. destruct (i_bindings _ I i x E). split; [|done].
      pose proof (seqLe_nextval TBindings (cq c) TBindings). lia.
  - intros i i' x x'. destruct (decide (i = cq c TBindings + 1)) as [->|],
      (decide (i' = cq c TBindings + 1)) as [->|]; rewrite ?lookup_insert_eq, ?lookup_insert_ne by done;
      intros E E'; simplify_eq; try done.
    + intros H1 H2 H3. destruct (Ho H1) as [Hno _]. by destruct (Hno _ _ E' H2).
    + intros H1 H2 H3. destruct (Ho H2) as [Hno _]. by destruct (Hno _ _ E H1).
    + by apply (i_one_owner _ I).
  - intros _ i x E _. rewrite lookup_insert_ne; [done|]. intros <-. congruence.
Qed.

Lemma make_owner strict c i0 b0 b n' :
  mayInsert b c -> bIsOwner b = true -> bindingScopeOk b = true ->
  bindings (cd c) !! i0 = Some b0 -> bindingClash b b0 = true ->
  Evo strict c (mkCore (nextval TBindings (cq c)).2
    (set_bindings (<[i0 := makeOwner true b0]> (bindings (cd c))) (cd c)) n').
Proof.
  intros [Hp Ho] Hb Hs E0 Hc. apply Evo_bindings; [apply seqLe_nextval|]. intros I.
  destruct (i_bindings _ I _ _ E0) as [Hi0 H0]. destruct (Ho Hb) as (Hno & r & Hr & Hrole).
  destruct (bindingClash_tenant _ _ _ Hs H0 Hp Hc) as (Er & Eu & Et).
  pose proof (seqLe_nextval TBindings (cq c) TBindings) as Hq.
  assert (tenantOf (makeOwner true b0) = tenantOf b) as Et' by done.
  split; [|split].
  - intros i x. destruct (decide (i = i0)) as [->|].
    + rewrite lookup_insert_eq. intros [= <-]. split; [lia|]. destruct H0 as [B1 B2 B3 B4 B5 B6].
      split; try done. intros _. exists r. cbn. rewrite Er. split; [done|].
      unfold ownRole, tenantOf in *. cbn in *. injection Et as -> -> ->. done.
    + rewrite lookup_insert_ne by done. intros E. destruct (i_bindings _ I i x E). split; [lia | done].
  - intros i i' x x'. destruct (decide (i = i0)) as [->|], (decide (i' = i0)) as [->|];
      rewrite ?lookup_insert_eq, ?lookup_insert_ne by done; [done | | |].
    + intros [= <-] E' _ J2 J3. rewrite Et' in J3. by destruct (Hno _ _ E' J2).
    + intros E [= <-] J1 _ J3. rewrite Et' in J3. by destruct (Hno _ _ E J1).
    + by apply (i_one_owner _ I).
  - intros _ i x E Hx. destruct (decide (i = i0)) as [->|]; [|by rewrite lookup_insert_ne].
    rewrite lookup_insert_eq. replace x with b0 in * by congruence. destruct b0. cbn in *. by subst.
Qed.

Lemma Calm_bindings strict c q m n' :
  Evo strict c (mkCore q (set_bindings m (cd c)) n') ->
  Step strict c (mkCore q (set_bindings m (cd c)) n').
Proof. intros H. by apply Step_intro. Qed.

Lemma step_insertBinding strict oc b :
  (oc = MakeOwner -> bIsOwner b = true) ->
  sev (mayInsert b) (Step strict) (insertBinding oc b) anyOf.
Proof.
  intros Hoc. apply sev_insert. intros c a d' id Hm -> H. repeat case_match; simplify_eq/=; unneg; (split; [|done]).
  - apply Step_same; try done. apply seqLe_nextval.
  - apply Calm_bindings. apply firstRow_Some in H2 as [E0 Hc]. eapply make_owner; eauto.
  - apply Calm_bindings. by apply insert_new_binding.
Qed.

Lemma deleteWhere_sub {A} (P : Z -> A -> bool) m : deleteWhere P m ⊆ m.
Proof. apply map_filter_subseteq. Qed.

Lemma elem_of_dom_deleteWhere {A} (P : Z -> A -> bool) m i :
  i ∈ dom (deleteWhere P m) <-> exists x, m !! i = Some x /\ P i x = false.
Proof.
  rewrite elem_of_dom. split.
  - intros [x Hx%lookup_deleteWhere]. eauto.
  - intros (x & Hx & HP). exists x. by apply lookup_deleteWhere.
Qed.

(** Rows outside the tenants' owners may go freely. *)
Lemma step_deleteBindings strict c gone d' :
  (strict = true -> forall i x, bindings (cd c) !! i = Some x -> gone i x = true -> bIsOwner x = false) ->
  d' = (deleteBindings gone (cd c)).2 -> Step strict c (mkCore (cq c) d' (cn c)).
Proof.
  intros Hno ->. apply Step_intro; [|done]. apply Evo_bindings; [apply seqLe_refl|]. intros I.
  split; [|split].
  - intros b x [E _]%lookup_deleteWhere. by apply (i_bindings _ I).
  - intros b b' x x' [E _]%lookup_deleteWhere [E' _]%lookup_deleteWhere. by apply (i_one_owner _ I).
  - intros Hs b x E Ho. apply lookup_deleteWhere. split; [done|].
    destruct (gone b x) eqn:G; [|done]. by rewrite (Hno Hs b x E G) in Ho.
Qed.

Lemma step_DeleteRoleBinding strict id :
  sev (fun c => forall x, bindings (cd c) !! id = Some x -> bIsOwner x = false) (Step strict)
    (DeleteRoleBinding id) anyOf.
Proof.
  apply sev_exec. intros c a d' Hc H. simplify_eq/=. split; [|done].
  eapply step_deleteBindings; [|done]. intros _ i x E ->%Z.eqb_eq. by apply Hc.
Qed.

Lemma step_DeleteRoleBindingsByIDs strict ids :
  sev any (Step strict) (DeleteRoleBindingsByIDs ids) anyOf.
Proof.
  apply sev_exec. intros c a d' _ H. simplify_eq/=. split; [|done].
  eapply step_deleteBindings; [|done]. intros _ i x E [_ G]%andb_true_iff. by apply negb_true_iff.
Qed.

Lemma step_DeleteNonOwnerWorkspaceBindings strict u ws :
  sev any (Step strict) (DeleteNonOwnerWorkspaceBindings u ws) anyOf.
Proof.
  apply sev_exec. intros c a d' _ H. simplify_eq/=. split; [|done].
  eapply step_deleteBindings; [|done]. intros _ i x E [_ G]%andb_true_iff. by apply negb_true_iff.
Qed.

Lemma step_DeleteNonOwnerNamespaceBindings strict u ns :
  sev any (Step strict) (DeleteNonOwnerNamespaceBindings u ns) anyOf.
Proof.
  apply sev_exec. intros c a d' _ H. simplify_eq/=. split; [|done].
  eapply step_deleteBindings; [|done]. intros _ i x E [_ G]%andb_true_iff. by apply negb_true_iff.
Qed.

(** Taking the ownership away, the first half of a transfer. *)
Lemma lookup_updateBindings P f d i x' :
  bindings (updateBindings P f d) !! i = Some x' <->
  exists x, bindings d !! i = Some x /\ x' = if P i x then f x else x.
Proof.
  cbn. rewrite map_lookup_imap. destruct (bindings d !! i) as [x|]; cbn; [|by split; [|intros (? & ? & _)]].
  split; [intros [= <-]; eauto | by intros (y & [= <-] & ->)].
Qed.

Lemma step_clearOwner c P d' :
  d' = updateBindings P (makeOwner false) (cd c) -> Step false c (mkCore (cq c) d' (cn c)).
Proof.
  intros ->. apply Step_intro; [|done]. apply Evo_bindings; [apply seqLe_refl|]. intros I.
  split; [|split; [|done]].
  - intros b x' H. apply (lookup_updateBindings P (makeOwner false)) in H as (x & E & ->).
    destruct (i_bindings _ I b x E) as [? [B1 B2 B3 B4 B5 B6]]. split; [done|].
    destruct (P b x); by split.
  - intros b b' x1 x2 H1 H2.
    apply (lookup_updateBindings P (makeOwner false)) in H1 as (x & E & ->).
    apply (lookup_updateBindings P (makeOwner false)) in H2 as (x' & E' & ->).
    destruct (P b x), (P b' x'); try done. by apply (i_one_owner _ I).
Qed.

Lemma noOwner_cleared P d t :
  (forall i x, tenantOf x = t -> bIsOwner x = true -> P i x = true) ->
  noOwner (updateBindings P (makeOwner false) d) t.
Proof.
  intros HP i x' H Ho Ht. apply lookup_updateBindings in H as (x & E & ->).
  destruct (P i x) eqn:G; [done|]. by rewrite (HP i x Ht Ho) in G.
Qed.

(** ** Roles and rules *)

(** The role may be edited: it is no tenant's built-in one. *)
Definition editable (id : Z) : Guard := fun c =>
  forall x, roles (cd c) !! id = Some x -> tenantBuiltin x = false.

Lemma tenantBuiltin_key x y : roleKey x = roleKey y -> tenantBuiltin x = tenantBuiltin y.
Proof. unfold roleKey, tenantBuiltin. by intros [= _ -> -> _ _]. Qed.

Lemma step_UpdateRole strict id dn de :
  sev (editable id) (Step strict) (UpdateRole id dn de) (fun _ => editable id).
Proof.
  apply sev_exec. intros c a d' Hc (x & Hx%one_ok & H)%rbind_ok. case_match; simplify_eq/=. split.
  - apply Step_intro; [|done]. eapply Evo_retext; [apply seqLe_refl | done | done | by apply Hc].
  - intros y. cbn. rewrite lookup_insert_eq. intros [= <-]. exact (Hc x Hx).
Qed.

Lemma step_CreateRole strict n dn de sc b ws ns :
  (sc = ScopeNamespace -> ws = None) ->
  sev any (Step strict) (CreateRole n dn de sc b ws ns) (fun a c => b = false -> editable a.1 c).
Proof.
  intros Hns. apply sev_insert. intros c a d' id _ -> H. cbv zeta in H.
  repeat case_match; simplify_eq/=; unneg. split.
  - assert (HE : Evo strict c (mkCore (nextval TRoles (cq c)).2
        (set_roles (<[cq c TRoles + 1 := mkRole n dn de sc b ws ns]> (roles (cd c))) (cd c)) (cn c))).
    { split; [apply seqLe_nextval|]. intros I.
      assert (HX := Extends_role c (mkRole n dn de sc b ws ns) I). cbv zeta in HX.
      apply Evo_extend; [apply seqLe_nextval | | done].
      apply HX; [by split|]. exact (roleRefsOk_alive (cd c) (mkRole n dn de sc b ws ns) ltac:(done)). }
    by apply Step_intro.
  - intros -> y. cbn. rewrite lookup_insert_eq. by intros [= <-].
Qed.

Lemma roleScopeOk_platform x :
  roleScopeOk x = true -> rWorkspaceID x = None -> rNamespaceID x = None -> rScope x = ScopePlatform.
Proof.
  unfold roleScopeOk. intros H Ew En. rewrite Ew, En in H. cbn in H.
  rewrite !andb_false_r, !andb_true_r, !orb_false_r in H. by apply String.eqb_eq.
Qed.

Lemma step_UpsertRole strict n dn de sc b :
  sev any (Step strict) (UpsertRole n dn de sc b) (fun a => editable a.1).
Proof.
  apply sev_insert. intros c a d' id _ -> H. cbv zeta in H.
  repeat case_match; simplify_eq/=; unneg;
    match goal with Hs : roleScopeOk _ = true |- _ =>
      pose proof (roleScopeOk_platform _ Hs eq_refl eq_refl) as Hp end; cbn in Hp.
  - apply firstRow_Some in H2 as [E0 Hc].
    assert (tenantBuiltin r = false) as Hb.
    { unfold roleClash in Hc. rewrite !andb_true_iff, !String.eqb_eq in Hc. cbn in Hc.
      destruct Hc as [[_ Es] _]. unfold tenantBuiltin. rewrite <- Es, Hp. cbn. apply andb_false_r. }
    split; [|intros y; cbn; rewrite lookup_insert_eq; by intros [= <-]].
    apply Step_intro; [|done]. eapply Evo_retext; [apply seqLe_nextval | done | done | done].
  - split.
    + apply Step_intro; [|done]. split; [apply seqLe_nextval|]. intros I.
      apply Evo_extend; [apply seqLe_nextval | | done]. apply Extends_role; [done | | by split].
      split; [done|]. done.
    + intros y. cbn. rewrite lookup_insert_eq. intros [= <-]. unfold tenantBuiltin. cbn. rewrite Hp.
      cbn. apply andb_false_r.
Qed.

Lemma step_AddRule strict id p :
  sev (editable id) (Step strict) (AddRolePermissionRule id p) (fun _ => editable id).
Proof.
  apply sev_exec. intros c a d' Hc H. repeat case_match; simplify_eq/=; unneg; (split; [|done]).
  - same_tables.
  - apply Step_intro; [|done]. apply Evo_extend; [apply seqLe_refl|]. extends.
    split; [set_solver|]. intros r p' Hr. apply elem_of_union in Hr as [Hr|]; [right | by left].
    apply elem_of_singleton in Hr as [= -> ->]. split; [|done].
    rewrite bool_is_Some in *. by apply elem_of_dom.
Qed.

Lemma step_DeleteRules strict id :
  sev (editable id) (Step strict) (DeleteRolePermissionRules id) (fun _ => editable id).
Proof.
  apply sev_exec. intros c a d' Hc H. simplify_eq/=. split; [|done].
  apply Step_intro; [|done]. apply Evo_shrink. intros I. split; cbn; try done.
  - set_solver.
  - intros n w E. by apply (i_ns _ I n w).
  - intros r x E. by apply (i_roles _ I r x).
  - intros r p [_ Hr]%elem_of_filter. by apply (i_rules _ I r p).
  - intros b x E. destruct (i_bindings _ I b x E) as [_ []]. done.
  - intros r x E Hb _. split; [by eapply elem_of_dom_2|]. intros p Hp. apply elem_of_filter.
    split; [|done]. cbn. intros ->. by rewrite (Hc x E) in Hb.
  - intros _ b x E _ _ _. by eapply elem_of_dom_2.
Qed.

Lemma ev_SetPermissionRules strict id ps :
  ev (editable id) (Step strict) (SetPermissionRules id ps) anyOf.
Proof.
  apply ev_WithTx. eapply ev_bind; [apply ev_onErr, ev_Q, step_DeleteRules|]. intros u.
  apply ev_ok with (ψ := fun _ => editable id). apply ev_forEach. intros p _.
  apply ev_onErr, ev_Q, step_AddRule.
Qed.

(** ** Cascading deletes *)

(** The shape of every cascade: some roles go with their rules and bindings,
    and the bindings [goneB] selects. *)
Record Purges (goneR : Z -> Role -> bool) (goneB : Binding -> bool) (d d' : DB) : Prop := {
  p_users : dom (users d') ⊆ dom (users d);
  p_ws : dom (workspaces d') ⊆ dom (workspaces d);
  p_ns : parent d' ⊆ parent d;
  p_roles : roles d' = deleteWhere goneR (roles d);
  p_rules : forall r p, (r, p) ∈ rules d' <-> (r, p) ∈ rules d /\ r ∈ dom (roles d');
  p_bindings : forall b x, bindings d' !! b = Some x <->
      bindings d !! b = Some x /\ bRoleID x ∈ dom (roles d') /\ goneB x = false
}.

Lemma Purges_Shrinks strict goneR goneB c d' :
  Purges goneR goneB (cd c) d' -> Inv c ->
  (forall n w, parent d' !! n = Some w -> w ∈ dom (workspaces d')) ->
  (forall r x, roles (cd c) !! r = Some x -> goneR r x = false -> alive d' (rWorkspaceID x) (rNamespaceID x)) ->
  (forall r x, roles (cd c) !! r = Some x -> goneR r x = true -> tenantBuiltin x = true ->
     ~ alive d' (rWorkspaceID x) (rNamespaceID x)) ->
  (forall b x, bindings (cd c) !! b = Some x -> goneB x = false ->
     bUserID x ∈ dom (users d') /\ alive d' (bWorkspaceID x) (bNamespaceID x)) ->
  (strict = true -> forall b x, bindings (cd c) !! b = Some x -> bIsOwner x = true ->
     bUserID x ∈ dom (users d') -> alive d' (bWorkspaceID x) (bNamespaceID x) ->
     bRoleID x ∈ dom (roles d') /\ goneB x = false) ->
  Shrinks strict (cd c) d'.
Proof.
  intros [P1 P2 P3 P4 P5 P6] I Hn Hr Hb Hx Ho. split; try done.
  - rewrite P4. apply deleteWhere_sub.
  - intros [r p] [Hp _]%P5. done.
  - apply map_subseteq_spec. intros b x [E _]%P6. done.
  - intros r x E. rewrite P4 in E. apply lookup_deleteWhere in E as [E G]. by eapply Hr.
  - intros r p [_ H]%P5. done.
  - intros b x E. apply P6 in E as (E & Hro & G). destruct (Hx b x E G). by split.
  - intros r x E Htb Ha. assert (goneR r x = false) as G.
    { destruct (goneR r x) eqn:G; [|done]. by destruct (Hb r x E G Htb). }
    assert (r ∈ dom (roles d')) as Hd by (rewrite P4; apply elem_of_dom_deleteWhere; eauto).
    split; [done|]. intros p Hp. by apply P5.
  - intros Hs b x E Hox Hu Ha. destruct (Ho Hs b x E Hox Hu Ha). eapply elem_of_dom_2, P6. eauto.
Qed.

Lemma roleScopeOk_cases x :
  roleScopeOk x = true ->
  (rScope x = ScopePlatform /\ rWorkspaceID x = None /\ rNamespaceID x = None) \/
  (rScope x = ScopeWorkspace /\ is_Some (rWorkspaceID x) /\ rNamespaceID x = None) \/
  (rScope x = ScopeNamespace /\ is_Some (rNamespaceID x)).
Proof.
  unfold roleScopeOk. rewrite !orb_true_iff, !andb_true_iff, !negb_true_iff, !String.eqb_eq.
  destruct (rWorkspaceID x), (rNamespaceID x); cbn; intros H; destruct_or!; destruct_and!;
    try done; eauto 10.
Qed.

(** The role of an owner binding lives as long as its tenant. *)
Lemma ownRole_alive c x r d' :
  Inv c -> roles (cd c) !! bRoleID x = Some r -> ownRole x r ->
  alive d' (bWorkspaceID x) (bNamespaceID x) -> alive d' (rWorkspaceID r) (rNamespaceID r).
Proof.
  intros I Hr Ho [A1 A2]. destruct (i_roles _ I _ _ Hr) as (_ & [Hs Hn] & _).
  pose proof scopes_distinct as (D1 & D2 & D3). destruct Ho as [(_ & E & Ew)|(_ & E & En)].
  - rewrite Ew. split; [done|]. intros n Hn'.
    destruct (roleScopeOk_cases _ Hs) as [(? & _)|[(_ & _ & ?)|(? & _)]]; congruence.
  - rewrite En, (Hn E). by split.
Qed.

Lemma idIn_alive (P : Z -> bool) o : idIn P o = false <-> forall i, o = Some i -> P i = false.
Proof.
  destruct o as [i|]; cbn; [|done]. split; [by intros ? ? [= <-] | intros H; by apply H].
Qed.

(** [isDead] of the cascades: the id is that of a deleted row. *)
Lemma isDead_spec {A} (gone : Z -> A -> bool) (m : gmap Z A) i :
  bool_decide (is_Some (rowsWhere gone m !! i)) = true <-> exists x, m !! i = Some x /\ gone i x = true.
Proof.
  rewrite bool_is_Some. split.
  - intros [x Hx%lookup_rowsWhere]. eauto.
  - intros (x & Hx). exists x. by apply lookup_rowsWhere.
Qed.

Lemma notDead_spec {A} (gone : Z -> A -> bool) (m : gmap Z A) i x :
  m !! i = Some x -> bool_decide (is_Some (rowsWhere gone m !! i)) = gone i x.
Proof.
  intros E. apply eq_true_iff_eq. rewrite isDead_spec. split; [intros (? & ? & ?); congruence | eauto].
Qed.

Lemma notDead_dom {A} (gone : Z -> A -> bool) (m : gmap Z A) i :
  i ∈ dom m -> bool_decide (is_Some (rowsWhere gone m !! i)) = false <-> i ∈ dom (deleteWhere gone m).
Proof.
  intros [x E]%elem_of_dom. rewrite (notDead_spec gone m i x E), elem_of_dom_deleteWhere.
  split; [eauto | intros (? & ? & ?); congruence].
Qed.

Lemma Purges_deleteRoles gone c : Inv c -> Purges gone (fun _ => false) (cd c) (deleteRoles gone (cd c)).
Proof.
  intros I. split; cbn; try done.
  - intros r p. rewrite elem_of_filter. cbn. split.
    + intros [H Hp]. split; [done|]. apply notDead_dom; [by eapply (i_rules _ I) | done].
    + intros [Hp Hd]. split; [|done]. apply notDead_dom; [by eapply (i_rules _ I) | done].
  - intros b x. rewrite lookup_deleteWhere. split.
    + intros [E H]. split; [done|]. split; [|done].
      apply notDead_dom in H; [done | by apply (i_bindings _ I b x E)].
    + intros (E & H & _). split; [done|]. apply notDead_dom; [by apply (i_bindings _ I b x E) | done].
Qed.

(** The role may go: no tenant's built-in one, and no owner holds it. *)
Definition deletable (id : Z) : Guard := fun c => editable id c /\
  forall b y, bindings (cd c) !! b = Some y -> bIsOwner y = true -> bRoleID y <> id.

Lemma step_DeleteRole strict id :
  sev (fun c => Inv c -> deletable id c) (Step strict) (DeleteRole id) anyOf.
Proof.
  apply sev_exec. intros c a d' Hd H. simplify_eq/=. split; [|done].
  apply Step_intro; [|done]. apply Evo_shrink. intros I. destruct (Hd I) as [Hc Ho].
  eapply Purges_Shrinks; [by apply Purges_deleteRoles | done | apply (i_ns _ I) | | | | ].
  - intros r x E _. by apply (i_roles _ I r x).
  - intros r x E ->%Z.eqb_eq Hb. by rewrite (Hc x E) in Hb.
  - intros b x E _. by destruct (i_bindings _ I b x E) as [_ []].
  - intros _ b x E Hx _ _. split; [|done]. cbn. apply elem_of_dom_deleteWhere.
    destruct (i_bindings _ I b x E) as [_ Hok]. destruct (bo_owner _ _ Hok Hx) as (r & Hr & _).
    exists r. split; [done|]. apply Z.eqb_neq. by eapply Ho.
Qed.

Lemma dom_parent d : dom (parent d) = dom (namespaces d).
Proof. apply dom_fmap_L. Qed.

(** A nullable reference outlives the delete iff its row does. *)
Lemma idIn_dead {A} (gone : Z -> A -> bool) m o :
  (forall i, o = Some i -> i ∈ dom m) ->
  idIn (fun i => bool_decide (is_Some (rowsWhere gone m !! i))) o = false <->
  (forall i, o = Some i -> i ∈ dom (deleteWhere gone m)).
Proof.
  intros Hd. rewrite idIn_alive. split; intros H i E; specialize (H i E); specialize (Hd i E);
    by apply notDead_dom.
Qed.

Lemma Purges_bindings goneR goneB d d1 d' :
  Purges goneR (fun _ => false) d d1 ->
  dom (users d') ⊆ dom (users d) -> dom (workspaces d') ⊆ dom (workspaces d) -> parent d' ⊆ parent d ->
  roles d' = roles d1 -> rules d' = rules d1 ->
  bindings d' = deleteWhere (fun _ b => goneB b) (bindings d1) -> Purges goneR goneB d d'.
Proof.
  intros [P1 P2 P3 P4 P5 P6] Hu Hw Hn Er El Eb. split; try done; rewrite ?Er, ?El; try done.
  intros b x. rewrite Eb, lookup_deleteWhere, P6. naive_solver.
Qed.

Lemma step_deleteNamespaces strict gone c n' :
  Step strict c (mkCore (cq c) (deleteNamespaces gone (cd c)).2 n').
Proof.
  set (d' := (deleteNamespaces gone (cd c)).2).
  assert (Hsub : parent d' ⊆ parent (cd c)) by (apply map_fmap_mono, deleteWhere_sub).
  apply Step_intro; [|split; [done | by apply subseteq_dom]]. apply Evo_shrink. intros I.
  assert (Hdead : forall ws ns, alive (cd c) ws ns ->
    idIn (fun i => bool_decide (is_Some (rowsWhere gone (namespaces (cd c)) !! i))) ns = false <->
    alive d' ws ns).
  { intros ws ns [A1 A2]. unfold alive in *. rewrite dom_parent in *.
    rewrite idIn_dead by done. split; [by split | by intros [_ ?]]. }
  eapply (Purges_Shrinks _ _ (fun b => idIn _ (bNamespaceID b)) c d').
  - eapply Purges_bindings; [by apply Purges_deleteRoles | | | done | | |]; done.
  - done.
  - intros n w E. apply (i_ns _ I n w). by eapply lookup_weaken.
  - intros r x E G. apply Hdead; [|done]. by apply (i_roles _ I r x).
  - intros r x E G _ Ha. apply Hdead in Ha; [congruence|]. by apply (i_roles _ I r x).
  - intros b x E G. destruct (i_bindings _ I b x E) as [_ Hok]. split; [by apply Hok|].
    apply Hdead; [by apply Hok | done].
  - intros _ b x E Hx _ Ha. destruct (i_bindings _ I b x E) as [_ Hok].
    destruct (bo_owner _ _ Hok Hx) as (r & Hr & Hown). split.
    + cbn. apply elem_of_dom_deleteWhere. exists r. split; [done|].
      apply Hdead with (ws := rWorkspaceID r); [by apply (i_roles _ I (bRoleID x) r)|].
      by eapply ownRole_alive.
    + apply Hdead in Ha; [done|]. by apply Hok.
Qed.

Lemma deleteWorkspaces_ok gone d ids d' :
  deleteWorkspaces gone d = Ok (ids, d') ->
  (forall n w, parent d !! n = Some w -> bool_decide (is_Some (rowsWhere gone (workspaces d) !! w)) = false) /\
  let isDead id := bool_decide (is_Some (rowsWhere gone (workspaces d) !! id)) in
  let d1 := deleteRoles (fun _ r => idIn isDead (rWorkspaceID r)) d in
  d' = set_bindings (deleteWhere (fun _ b => idIn isDead (bWorkspaceID b)) (bindings d1))
         (set_workspaces (deleteWhere gone (workspaces d)) d1).
Proof.
  unfold deleteWorkspaces. case_match eqn:E; [done|]. intros [= _ <-]. split; [|done].
  intros n w. rewrite parent_lookup. intros (x & E' & ->)%fmap_Some.
  rewrite someRow_false in E. exact (E n x E').
Qed.

Lemma step_deleteWorkspaces strict gone c ids d' n' :
  deleteWorkspaces gone (cd c) = Ok (ids, d') -> Step strict c (mkCore (cq c) d' n').
Proof.
  intros H. apply deleteWorkspaces_ok in H as [Hres Ed]. cbv zeta in Ed.
  assert (Hsub : dom (workspaces d') ⊆ dom (workspaces (cd c))).
  { rewrite Ed. apply subseteq_dom, deleteWhere_sub. }
  assert (Hpar : parent d' = parent (cd c)) by (by rewrite Ed).
  apply Step_intro; [|cbn; rewrite Hpar; by split]. apply Evo_shrink. intros I.
  assert (Hdead : forall ws ns, alive (cd c) ws ns ->
    idIn (fun i => bool_decide (is_Some (rowsWhere gone (workspaces (cd c)) !! i))) ws = false <->
    alive d' ws ns).
  { intros ws ns [A1 A2]. unfold alive. rewrite Hpar, Ed. cbn.
    rewrite idIn_dead by done. split; [by split | by intros [? _]]. }
  eapply (Purges_Shrinks _ _ (fun b => idIn _ (bWorkspaceID b)) c d').
  - eapply Purges_bindings; [by apply Purges_deleteRoles | by rewrite Ed | done | by rewrite Hpar | | |];
      by rewrite Ed.
  - done.
  - intros n w E. rewrite Hpar in E. rewrite Ed. cbn. apply notDead_dom; [by apply (i_ns _ I n w)|].
    by eapply Hres.
  - intros r x E G. apply Hdead; [|done]. by apply (i_roles _ I r x).
  - intros r x E G _ Ha. apply Hdead in Ha; [congruence|]. by apply (i_roles _ I r x).
  - intros b x E G. destruct (i_bindings _ I b x E) as [_ Hok].
    split; [rewrite Ed; by apply Hok|]. apply Hdead; [by apply Hok | done].
  - intros _ b x E Hx _ Ha. destruct (i_bindings _ I b x E) as [_ Hok].
    destruct (bo_owner _ _ Hok Hx) as (r & Hr & Hown). split.
    + rewrite Ed. cbn. apply elem_of_dom_deleteWhere. exists r. split; [done|].
      apply Hdead with (ns := rNamespaceID r); [by apply (i_roles _ I (bRoleID x) r)|].
      by eapply ownRole_alive.
    + apply Hdead in Ha; [done|]. by apply Hok.
Qed.

Lemma step_deleteUsers strict gone c ids d' n' :
  deleteUsers gone (cd c) = Ok (ids, d') -> Step strict c (mkCore (cq c) d' n').
Proof.
  unfold deleteUsers. case_match; [done|]. intros [= _ Ed]. rewrite <- Ed. clear Ed d' ids.
  match goal with |- Step _ _ (mkCore _ ?x _) => set (d' := x) end.
  assert (Hw : dom (workspaces d') = dom (workspaces (cd c))) by apply dom_fmap_L.
  assert (Hp : parent d' = parent (cd c)).
  { unfold parent, d'. cbn. rewrite <- map_fmap_compose. by apply map_fmap_ext. }
  apply Step_intro; [|cbn [cd]; by rewrite Hw, Hp]. apply Evo_shrink. intros I.
  assert (Ha : forall ws ns, alive d' ws ns <-> alive (cd c) ws ns).
  { intros ws ns. unfold alive. by rewrite Hw, Hp. }
  eapply (Purges_Shrinks _ (fun _ _ => false)
            (fun b => bool_decide (is_Some (rowsWhere gone (users (cd c)) !! bUserID b))) c d');
    [split|..]; rewrite ?Hw, ?Hp; try done.
  - apply subseteq_dom, deleteWhere_sub.
  - symmetry. apply map_filter_id. done.
  - intros r p. split; [|by intros [? _]]. intros E. split; [done | by eapply (i_rules _ I)].
  - intros b x. cbn. rewrite lookup_deleteWhere. split; [|by intros (? & _ & ?)].
    intros [E ?]. destruct (i_bindings _ I b x E) as [_ []]. done.
  - intros n w E. by apply (i_ns _ I n w).
  - intros r x E _. apply Ha. by apply (i_roles _ I r x).
  - intros b x E G. destruct (i_bindings _ I b x E) as [_ Hok]. split; [|apply Ha, Hok].
    apply notDead_dom; [apply Hok | done].
  - intros _ b x E _ Hu _. destruct (i_bindings _ I b x E) as [_ Hok]. split; [apply Hok|].
    apply notDead_dom; [apply Hok | done].
Qed.

Section Deletes.
Context (strict : bool).
#[local] Abbreviation keeps st := (sev any (Step strict) st anyOf).

Lemma step_DeleteUser id : keeps (DeleteUser id).
Proof.
  apply sev_exec. intros c a d' _ ([ids d1] & E & H)%rbind_ok. simplify_eq/=. split; [|done].
  by eapply step_deleteUsers.
Qed.

Lemma step_DeleteUsersByIDs ids : keeps (DeleteUsersByIDs ids).
Proof. apply sev_exec. intros c a d' _ E. split; [|done]. by eapply step_deleteUsers. Qed.

Lemma step_DeleteNamespace id : keeps (DeleteNamespace id).
Proof.
  apply sev_exec. intros c a d' _ [= _ <-]. split; [|done].
  exact (step_deleteNamespaces strict (fun id' _ => id' =? id) c _).
Qed.

Lemma step_DeleteNamespacesByIDs ids : keeps (DeleteNamespacesByIDs ids).
Proof.
  apply sev_exec. intros c a d' _ [= _ <-]. split; [|done].
  exact (step_deleteNamespaces strict (fun id _ => anyID ids id) c _).
Qed.

Lemma step_DeleteNamespacesByWorkspaceID ws : keeps (DeleteNamespacesByWorkspaceID ws).
Proof. apply sev_exec. intros c a d' _ [= _ <-]. split; [apply step_deleteNamespaces | done]. Qed.

Lemma step_DeleteNamespacesByWorkspaceIDs wss : keeps (DeleteNamespacesByWorkspaceIDs wss).
Proof. apply sev_exec. intros c a d' _ [= _ <-]. split; [apply step_deleteNamespaces | done]. Qed.

Lemma step_DeleteWorkspace id : keeps (DeleteWorkspace id).
Proof.
  apply sev_exec. intros c a d' _ ([ids d1] & E & H)%rbind_ok. simplify_eq/=. split; [|done].
  by eapply step_deleteWorkspaces.
Qed.

Lemma step_DeleteWorkspacesByIDs ids : keeps (DeleteWorkspacesByIDs ids).
Proof. apply sev_exec. intros c a d' _ E. split; [|done]. by eapply step_deleteWorkspaces. Qed.

Lemma step_CreateUser a1 a2 a3 a4 a5 a6 : keeps (CreateUser a1 a2 a3 a4 a5 a6).
Proof.
  apply sev_insert. intros c a d' id _ -> [_ ->]%storeUser_ok. split; [|done].
  apply Step_intro; [|done]. apply Evo_extend; [apply seqLe_nextval | apply Extends_user].
Qed.
End Deletes.

#[export] Hint Resolve step_SetPasswordHash step_SetUserBuiltin step_UpdateUser step_PatchUser
  step_CreateUserIdentity step_RevokeRefreshTokens step_UpdateWorkspace step_PatchWorkspace
  step_UpdateNamespace step_PatchNamespace step_UpsertPermission step_DeletePermissions
  step_DeleteRoleBindingsByIDs step_DeleteNonOwnerWorkspaceBindings
  step_DeleteNonOwnerNamespaceBindings step_DeleteUser step_DeleteUsersByIDs step_DeleteNamespace
  step_DeleteNamespacesByIDs step_DeleteNamespacesByWorkspaceID step_DeleteNamespacesByWorkspaceIDs
  step_DeleteWorkspace step_DeleteWorkspacesByIDs step_CreateUser : iam_step.

Lemma step_notify strict u : ev any (Step strict) (notifyUserChange u) anyOf.
Proof. apply ev_notify; [|done]. intros c. same_tables. Qed.

Lemma grow_notify u : ev any Grow (notifyUserChange u) anyOf.
Proof. apply ev_notify; [|done]. intros c. apply seqLe_refl. Qed.

#[export] Hint Resolve step_notify grow_notify : iam_step.

(** ** Transactions

    Only what a transaction commits counts; it may assume the invariant. *)
Lemma ev_tx {A} strict (φ : Guard) (fn : M GoErr A) :
  ev any Grow fn anyOf ->
  (forall c, Inv c -> φ c -> ev (eq c) Grow fn (fun _ c' => Step strict c c')) ->
  ev φ (Step strict) (WithTx fn) anyOf.
Proof.
  intros Hg H. apply (ev_WithTx_at Grow).
  - intros c c' Hq. same_tables.
  - intros c Hc s Hs. destruct (Hg s I) as [Hgs _]. split; [done|]. intros a Ha. split; [|done].
    rewrite <- Hs in Hgs. assert (HS : Inv c -> Step strict c (core (fn s).2)).
    { intros HI. exact (proj2 (H c HI Hc s Hs) a Ha). }
    split; [split; [done|]|]; intros HI; by apply HS.
Qed.

(** *** New tenants *)

Lemma tx_CreateWorkspace c n dn de o st by_ :
  sev (eq c) Grow (CreateWorkspace n dn de o st by_) (fun a c' =>
    a = (cq c TWorkspaces + 1, mkWorkspace n dn de o st by_) /\
    c' = mkCore (nextval TWorkspaces (cq c)).2
           (set_workspaces (<[cq c TWorkspaces + 1 := a.2]> (workspaces (cd c))) (cd c)) (cn c)).
Proof.
  apply sev_insert. intros c1 a d' id <- -> [-> ->]%storeWorkspace_ok. split; [apply seqLe_nextval | done].
Qed.

Lemma tx_CreateNamespace c n dn de ws o v m st by_ :
  sev (eq c) Grow (CreateNamespace n dn de ws o v m st by_) (fun a c' =>
    a = (cq c TNamespaces + 1, mkNamespace n dn de ws o v m st by_) /\ ws ∈ dom (workspaces (cd c)) /\
    c' = mkCore (nextval TNamespaces (cq c)).2
           (set_namespaces (<[cq c TNamespaces + 1 := a.2]> (namespaces (cd c))) (cd c)) (cn c)).
Proof.
  apply sev_insert. intros c1 a d' id <- -> (-> & -> & ?)%storeNamespace_ok.
  split; [apply seqLe_nextval | done].
Qed.

(** A transaction that has added rows but no binding yet. *)
Record Added (c0 c : Core) : Prop := {
  ad_inv : Inv c;
  ad_seq : seqLe (cq c0) (cq c);
  ad_ext : Extends c0 c
}.

Lemma Added_refl c : Inv c -> Added c c.
Proof. intros I. split; [done | apply seqLe_refl | apply Extends_refl]. Qed.

Lemma Added_step c0 c c' : Added c0 c -> seqLe (cq c) (cq c') -> Extends c c' -> Added c0 c'.
Proof.
  intros [I Hq X] Hq' X'. split; [by eapply Inv_extend | by eapply seqLe_trans | by eapply Extends_trans].
Qed.

Lemma Added_built c0 c c' ws ns built : Added c0 c -> Building c c' ws ns built -> Added c0 c'.
Proof. intros HA [I Hq X _ _ _]. by eapply Added_step. Qed.

Lemma Added_Evo strict c0 c : Added c0 c -> Evo strict c0 c.
Proof. intros [I Hq X]. by apply Evo_extend. Qed.

(** No binding names a namespace or workspace made in the transaction. *)
Lemma Added_noOwner c0 c t :
  Inv c0 -> Added c0 c -> ~ alive (cd c0) t.1.2 t.2 -> noOwner (cd c) t.
Proof.
  intros I0 [_ _ X] Ht i x E _ <-. rewrite (x_bindings _ _ X) in E.
  destruct (i_bindings _ I0 i x E) as [_ Hok]. apply Ht, Hok.
Qed.

Lemma new_ws_dead c ns : Inv c -> ~ alive (cd c) (Some (cq c TWorkspaces + 1)) ns.
Proof. intros I [H _]. specialize (H _ eq_refl). apply (i_ws _ I) in H. lia. Qed.

Lemma new_ns_dead c ws : Inv c -> ~ alive (cd c) ws (Some (cq c TNamespaces + 1)).
Proof.
  intros I [_ H]. specialize (H _ eq_refl). apply elem_of_dom in H as [w Hw].
  apply (i_ns _ I) in Hw. lia.
Qed.

(** The second of two grants is still open after the first. *)
Lemma step_insertTwo strict b b2 :
  tenantOf b <> tenantOf b2 ->
  sev (fun c => mayInsert b c /\ mayInsert b2 c) (Step strict) (insertBinding DoNothing b)
    (fun _ => mayInsert b2).
Proof.
  intros Hne c [Hb [Hp Ho]]. pose proof (step_insertBinding strict DoNothing b ltac:(done) c Hb) as H.
  unfold insertBinding, insertInto in *. cbn [nextval] in *.
  repeat case_match; simplify_eq/=; try done; split; try apply H; split; try done.
  intros Hown. destruct (Ho Hown) as [Hno Hr]. split; [|done].
  intros i x. destruct (decide (i = cq c TBindings + 1)) as [->|].
  - cbn. rewrite lookup_insert_eq. by intros [= <-].
  - cbn. rewrite lookup_insert_ne by done. apply Hno.
Qed.

Lemma sev_IfNotExists φ R `{!Evolution R} b ψ :
  sev φ R (insertBinding DoNothing b) (fun _ => ψ) -> sev φ R (CreateRoleBindingIfNotExists b) (fun _ => ψ).
Proof. intros H. eapply sev_smap; [exact H|]. intros c a Hc. by destruct a. Qed.

(** A grant as a step of a transaction that began in [c0]. *)
Lemma tx_grant strict c0 b :
  ev (fun c => Step strict c0 c /\ mayInsert b c) Grow
     (onErr wrap (Q (CreateRoleBindingIfNotExists b))) (fun _ => Step strict c0).
Proof.
  eapply ev_weaken; [| |apply (ev_carry (R := Step strict) (mayInsert b) c0)];
    [done | by intros a c [H _] | ].
  apply ev_onErr, ev_Q. eapply sev_IfNotExists; [apply _|]. by apply step_insertBinding.
Qed.

Lemma tx_grant_first strict c0 b b2 :
  tenantOf b <> tenantOf b2 ->
  ev (fun c => Step strict c0 c /\ mayInsert b c /\ mayInsert b2 c) Grow
     (onErr wrap (Q (CreateRoleBindingIfNotExists b))) (fun _ c => Step strict c0 c /\ mayInsert b2 c).
Proof.
  intros Hne. apply (ev_carry (R := Step strict) (fun c => mayInsert b c /\ mayInsert b2 c) c0).
  apply ev_onErr, ev_Q. eapply sev_IfNotExists; [apply _|]. by apply step_insertTwo.
Qed.

Lemma builtin_scopes :
  Forall (fun def => dScope def = ScopeWorkspace) WorkspaceBuiltinRoles /\
  Forall (fun def => dScope def = ScopeNamespace) NamespaceBuiltinRoles.
Proof. by split; repeat constructor. Qed.

Lemma complete_rev d ws ns defs :
  Forall (hasBuiltin d ws ns) (rev defs ++ []) -> Forall (hasBuiltin d ws ns) defs.
Proof.
  rewrite app_nil_r, !Forall_forall. intros H def Hd. apply H.
  apply list_elem_of_In, in_rev. rewrite rev_involutive. by apply list_elem_of_In.
Qed.

Lemma tx_workspaceRoles c w :
  Inv c -> ev (eq c) Grow (createBuiltinRoles WorkspaceBuiltinRoles (Some w) None RoleWorkspaceAdmin 0)
    (fun id c' => Building c c' (Some w) None (rev WorkspaceBuiltinRoles ++ []) /\
       roleOfTenant (cd c') id ScopeWorkspace (Some w) None).
Proof.
  intros I. assert (ScopeWorkspace = ScopeNamespace -> Some w = None) as Hns by done.
  eapply ev_weaken; [| |exact (tx_createBuiltinRoles c (Some w) None ScopeWorkspace RoleWorkspaceAdmin
    Hns WorkspaceBuiltinRoles 0 [] (proj1 builtin_scopes))]; [|done].
  intros c' <-. split; [by apply Building_start | by left].
Qed.

Lemma tx_namespaceRoles c n :
  Inv c -> ev (eq c) Grow (createBuiltinRoles NamespaceBuiltinRoles None (Some n) RoleNamespaceAdmin 0)
    (fun id c' => Building c c' None (Some n) (rev NamespaceBuiltinRoles ++ []) /\
       roleOfTenant (cd c') id ScopeNamespace None (Some n)).
Proof.
  intros I.
  eapply ev_weaken; [| |exact (tx_createBuiltinRoles c None (Some n) ScopeNamespace RoleNamespaceAdmin
    (fun _ => eq_refl) NamespaceBuiltinRoles 0 [] (proj2 builtin_scopes))]; [|done].
  intros c' <-. split; [by apply Building_start | by left].
Qed.

Lemma grow_createBuiltinRoles defs ws ns admin : forall aid,
  ev any Grow (createBuiltinRoles defs ws ns admin aid) anyOf.
Proof. induction defs as [|def defs IH]; intros aid; cbn [createBuiltinRoles]; ev_auto. Qed.

#[local] Hint Resolve grow_createBuiltinRoles : iam_step.

(** *** [pgNamespaceStore.Create] *)

(** A namespace with its roles, made from a state [c]. *)
Lemma Added_namespace c c1 c2 n :
  Inv c -> let id := cq c TNamespaces + 1 in
  c1 = mkCore (nextval TNamespaces (cq c)).2
         (set_namespaces (<[id := n]> (namespaces (cd c))) (cd c)) (cn c) ->
  nsWorkspaceID n ∈ dom (workspaces (cd c)) ->
  Building c1 c2 None (Some id) (rev NamespaceBuiltinRoles ++ []) ->
  Added c c2 /\ parent (cd c2) !! id = Some (nsWorkspaceID n) /\ nsComplete (cd c2) id
    /\ dom (parent (cd c2)) = {[id]} ∪ dom (parent (cd c)) /\ workspaces (cd c2) = workspaces (cd c).
Proof.
  intros I id Hc1 Hw HB. assert (Added c c1) as A1.
  { eapply Added_step; [by apply Added_refl | rewrite Hc1; apply seqLe_nextval|].
    rewrite Hc1. by apply Extends_namespace. }
  assert (parent (cd c2) = <[id := nsWorkspaceID n]> (parent (cd c))) as Hp.
  { unfold parent. rewrite (bd_ns _ _ _ _ _ HB), Hc1. apply fmap_insert. }
  split; [by eapply Added_built|]. rewrite Hp. split; [apply lookup_insert_eq|].
  split; [apply complete_rev, HB|]. split; [apply dom_insert_L|].
  by rewrite (bd_ws _ _ _ _ _ HB), Hc1.
Qed.

Lemma mayInsert_owner_ns c0 c u role w n :
  Inv c0 -> Added c0 c -> ~ alive (cd c0) (Some w) (Some n) -> parent (cd c) !! n = Some w ->
  roleOfTenant (cd c) role ScopeNamespace None (Some n) ->
  mayInsert (mkBinding u role ScopeNamespace (Some w) (Some n) true) c.
Proof.
  intros I0 HA Hd Hp (x & Hx & Hs & _ & Hn). split; cbn.
  - by intros ? [= <-].
  - intros _. split; [by eapply Added_noOwner|]. exists x. split; [done|]. right. by rewrite Hs, Hn.
Qed.

Lemma ev_namespaceCreate strict caller i : ev any (Step strict) (namespaceCreate caller i) anyOf.
Proof.
  apply ev_tx; [ev_auto|]. intros c I _.
  eapply ev_bind; [apply ev_onErr, ev_Q, tx_CreateNamespace|]. intros [nsID row]. cbn beta.
  apply ev_at. intros c1 ([= -> ->] & Hw & Hc1). cbn [snd] in Hc1.
  assert (Inv c1) as I1.
  { rewrite Hc1. eapply Inv_extend; [apply seqLe_nextval | by apply Extends_namespace | done]. }
  unfold namespaceCreateBuiltinRoles. eapply ev_bind; [exact (tx_namespaceRoles c1 _ I1)|]. intros adminID. apply ev_at. intros c2 [HB Hr].
  destruct (Added_namespace c c1 c2 _ I Hc1 Hw HB) as (HA & Hp & Hcomp & Hdn & Hdw). cbn in Hp.
  assert (Step strict c c2) as HS.
  { split; [by apply Added_Evo|]. intros _. rewrite Hdw, Hdn. split; [by left|].
    intros n [->%elem_of_singleton|]%elem_of_union; [by right | by left]. }
  eapply ev_bind.
  - eapply ev_weaken; [| |apply (tx_grant strict c)]; [|done].
    intros c' <-. split; [done|]. eapply mayInsert_owner_ns; [exact I | done | | exact Hp | done].
    by apply new_ns_dead.
  - intros u. apply ev_onErr, ev_Q. eapply sev_weaken; [| |apply sev_query]; [|by intros ? ? [? _]]. done.
Qed.

(** *** [pgWorkspaceStore.Create] *)

Lemma Added_workspace c c1 c2 w :
  Inv c -> let id := cq c TWorkspaces + 1 in
  c1 = mkCore (nextval TWorkspaces (cq c)).2
         (set_workspaces (<[id := w]> (workspaces (cd c))) (cd c)) (cn c) ->
  Building c1 c2 (Some id) None (rev WorkspaceBuiltinRoles ++ []) ->
  Added c c2 /\ wsComplete (cd c2) id
    /\ dom (workspaces (cd c2)) = {[id]} ∪ dom (workspaces (cd c)) /\ parent (cd c2) = parent (cd c).
Proof.
  intros I id Hc1 HB. assert (Added c c1) as A1.
  { eapply Added_step; [by apply Added_refl | rewrite Hc1; apply seqLe_nextval|].
    rewrite Hc1. by apply Extends_workspace. }
  split; [by eapply Added_built|]. split; [apply complete_rev, HB|].
  unfold parent. rewrite (bd_ws _ _ _ _ _ HB), (bd_ns _ _ _ _ _ HB), Hc1.
  split; [apply dom_insert_L | done].
Qed.

(** Roles made by a transaction stay while it adds more rows. *)
Lemma roleOfTenant_extends c c' id s ws ns :
  Extends c c' -> roleOfTenant (cd c) id s ws ns -> roleOfTenant (cd c') id s ws ns.
Proof.
  intros X (x & Hx & H). exists x. split; [|done]. by apply (lookup_weaken _ _ _ _ Hx), X.
Qed.

Lemma Added_trans c1 c2 c3 : Added c1 c2 -> Added c2 c3 -> Added c1 c3.
Proof. intros H [_ Hq X]. by eapply Added_step. Qed.

(** A workspace and its default namespace, complete, as one step. *)
Lemma Step_workspace strict c c2 c4 w n :
  Inv c -> Added c c2 -> Added c2 c4 -> wsComplete (cd c2) w -> nsComplete (cd c4) n ->
  dom (workspaces (cd c2)) = {[w]} ∪ dom (workspaces (cd c)) -> parent (cd c2) = parent (cd c) ->
  dom (parent (cd c4)) = {[n]} ∪ dom (parent (cd c2)) -> workspaces (cd c4) = workspaces (cd c2) ->
  Step strict c c4.
Proof.
  intros I A1 A2 Cw Cn Dw Pn Dn Pw. split; [by apply Added_Evo; eapply Added_trans|]. intros _.
  rewrite Pw, Dw, Dn, Pn. split.
  - intros w' [->%elem_of_singleton|]%elem_of_union; [right | by left].
    assert (Keeps strict c2 c4) as K by (apply Keeps_extend; [apply A2 | apply A1]).
    apply (complete_kept _ _ _ K); [|done]. rewrite Pw, Dw. set_solver.
  - intros n' [->%elem_of_singleton|]%elem_of_union; [by right | by left].
Qed.

Lemma mayInsert_owner_ws c0 c u role w :
  Inv c0 -> Added c0 c -> ~ alive (cd c0) (Some w) None ->
  roleOfTenant (cd c) role ScopeWorkspace (Some w) None ->
  mayInsert (mkBinding u role ScopeWorkspace (Some w) None true) c.
Proof.
  intros I0 HA Hd (x & Hx & Hs & Hw & _). split; cbn; [done|].
  intros _. split; [by eapply Added_noOwner|]. exists x. split; [done|]. left. by rewrite Hs, Hw.
Qed.

Lemma ev_workspaceCreate strict caller i : ev any (Step strict) (workspaceCreate caller i) anyOf.
Proof.
  apply ev_tx; [ev_auto|]. intros c I _.
  eapply ev_bind; [apply ev_onErr, ev_Q, tx_CreateWorkspace|]. intros [wsID row]. cbn beta.
  apply ev_at. intros c1 ([= -> ->] & Hc1). cbn [snd] in Hc1.
  assert (Inv c1) as I1.
  { rewrite Hc1. eapply Inv_extend; [apply seqLe_nextval | by apply Extends_workspace | done]. }
  unfold workspaceCreateBuiltinWorkspaceRoles. eapply ev_bind; [exact (tx_workspaceRoles c1 _ I1)|].
  intros wsAdmin. apply ev_at. intros c2 [HB2 Hr2].
  destruct (Added_workspace c c1 c2 _ I Hc1 HB2) as (A2 & Cw & Dw & Pn).
  eapply ev_bind; [apply ev_onErr, ev_Q, (tx_CreateNamespace c2)|]. intros [nsID nrow]. cbn beta.
  apply ev_at. intros c3 ([= -> ->] & Hw & Hc3). cbn [snd] in Hc3.
  assert (Inv c3) as I3.
  { rewrite Hc3. eapply Inv_extend; [apply seqLe_nextval | by apply Extends_namespace; [apply A2|] | apply A2]. }
  unfold workspaceCreateBuiltinNamespaceRoles. eapply ev_bind; [exact (tx_namespaceRoles c3 _ I3)|].
  intros nsAdmin. apply ev_at. intros c4 [HB4 Hr4].
  destruct (Added_namespace c2 c3 c4 _ (ad_inv _ _ A2) Hc3 Hw HB4) as (A4 & Hp & Cn & Dn & Pw). cbn in Hp.
  assert (Added c c4) as A by by eapply Added_trans.
  eapply ev_bind; [eapply ev_weaken; [| |apply (tx_grant_first strict c)]; [|done|]|].
  - intros c' <-. split; [exact (Step_workspace strict c c2 c4 _ _ I A2 A4 Cw Cn Dw Pn Dn Pw)|]. split.
    + eapply mayInsert_owner_ws; [exact I | done | by apply new_ws_dead | by eapply roleOfTenant_extends; [apply A4|]].
    + eapply mayInsert_owner_ns; [exact I | done | by apply new_ws_dead | exact Hp | done].
  - done.
  - intros u. eapply ev_bind; [apply (tx_grant strict c)|]. intros u'.
    apply ev_onErr, ev_Q. eapply sev_weaken; [| |apply sev_query]; [|by intros ? ? [? _]]. done.
Qed.

#[export] Hint Resolve ev_namespaceCreate ev_workspaceCreate : iam_step.

(** *** [SeedRBAC] *)

Lemma ev_addRules strict id ps : ev (editable id) (Step strict) (addRules id ps) anyOf.
Proof.
  apply ev_ok with (ψ := fun _ => editable id). apply ev_forEach. intros p _.
  apply ev_onErr, ev_Q, step_AddRule.
Qed.

Lemma ev_seedBuiltinRoles strict defs : forall aid, ev any (Step strict) (seedBuiltinRoles defs aid) anyOf.
Proof.
  induction defs as [|def defs IH]; intros aid; cbn [seedBuiltinRoles]; [by apply ev_ret|].
  eapply ev_bind; [apply ev_onErr, ev_Q, step_UpsertRole|]. intros [id r]. cbn.
  eapply ev_bind; [apply ev_onErr, ev_Q, step_DeleteRules|]. intros u.
  eapply ev_bind; [apply ev_addRules|]. intros u'. apply IH.
Qed.

(** Grants without ownership outside namespaces are always well placed. *)
Lemma step_plainGrant strict b :
  bIsOwner b = false -> bNamespaceID b = None ->
  sev any (Step strict) (CreateRoleBindingIfNotExists b) anyOf.
Proof.
  intros Ho Hn. eapply sev_weaken; [| |eapply sev_IfNotExists, step_insertBinding];
    [| done | apply _ | done]. intros c _. split; congruence.
Qed.

Lemma ev_bindSeedAdmin strict n r : ev any (Step strict) (bindSeedAdmin n r) anyOf.
Proof.
  unfold bindSeedAdmin. destruct (negb _ && negb _); [|ev_auto].
  apply any_bind; [ev_auto|]. intros [[uid u]|e]; [|ev_auto].
  apply any_bind; [|intros; ev_auto]. apply any_attempt, ev_Q. by apply step_plainGrant.
Qed.

Lemma Step_Inv strict c0 c : Inv c0 -> Step strict c0 c -> Inv c.
Proof. intros I [[_ H] _]. by apply H. Qed.

Lemma tx_missingRoles strict c0 defs ws ns :
  Inv c0 -> (forall def, def ∈ defs -> dScope def = ScopeNamespace -> ws = None) ->
  ev (Step strict c0) Grow (createBuiltinRolesInTx defs ws ns) (fun _ => Step strict c0).
Proof.
  intros I0 Hns. apply ev_forEach. intros def Hd.
  eapply ev_bind with (ψ := fun _ => Step strict c0).
  { eapply ev_weaken; [| |apply (ev_carry (R := Step strict) any c0); ev_auto]; [done | by intros a c [H _]]. }
  intros [|]; [by apply ev_ret|]. apply ev_at. intros c HS. pose proof (Step_Inv _ _ _ I0 HS) as I.
  eapply ev_bind; [apply ev_onErr, ev_Q, tx_CreateRole|]. intros [id r]. cbn beta.
  apply ev_at. intros c1 ([= -> ->] & Hs & Ha & ->).
  eapply ev_weaken; [done | |apply tx_addRules]. intros u c' ->. cbn.
  eapply ev_trans; [exact HS|]. apply Step_intro; [|done].
  apply Evo_extend; [apply seqLe_nextval|]. apply (Extends_withRole c (newRole def ws ns)); [done | | done].
  split; [done|]. by apply Hns.
Qed.

(** Under the schema's checks there is no global role left to migrate. *)
Lemma tx_migrateOne strict c0 name scope :
  Inv c0 -> scope <> ScopePlatform ->
  ev (Step strict c0) Grow (migrateOneGlobalRole name scope) (fun _ => Step strict c0).
Proof.
  intros I0 Hsc. eapply ev_bind with (ψ := fun r c => Step strict c0 c /\ match r with Ok _ => False | Err _ => True end).
  - intros s Hs. assert (H := ev_Q (R := Step strict) any _ _ (sev_query any (fun d => one (fst <$> firstRow
      (fun _ r => (rName r =s name) && (rScope r =s scope) && isNull (rWorkspaceID r)
                && isNull (rNamespaceID r)) (roles d)))) s I).
    change (query _) with (GetGlobalRoleIDByNameAndScope name scope) in H. destruct H as [HR Hok].
    unfold attempt. destruct (Q (GetGlobalRoleIDByNameAndScope name scope) s) as [r s'].
    cbn [fst snd] in *. split; [exact (ev_grow _ _ HR)|]. intros ? [= <-].
    assert (Step strict c0 (core s')) as HS by by eapply ev_trans. split; [done|].
    destruct r as [id|e]; [|done]. destruct (Hok id eq_refl) as [_ H%one_ok].
    apply fmap_Some in H as ([i x] & H & _). apply firstRow_Some in H as [E H].
    rewrite !andb_true_iff, !String.eqb_eq, !isNull_spec in H. destruct H as [[[_ Es] Ew] En].
    destruct (i_roles _ (Step_Inv _ _ _ I0 HS) i x E) as (_ & [Hx _] & _).
    apply Hsc. rewrite <- Es. by apply roleScopeOk_platform.
  - intros [id|e]; [by intros s [_ []]|]. destruct e; [apply ev_ret; by intros ? [? _] | apply ev_fail | apply ev_fail].
Qed.

Lemma grow_seedBuiltinRoles defs : forall aid, ev any Grow (seedBuiltinRoles defs aid) anyOf.
Proof. induction defs as [|def defs IH]; intros aid; cbn [seedBuiltinRoles]; ev_auto. Qed.

#[local] Hint Resolve grow_seedBuiltinRoles : iam_step.

Lemma tx_carry {E A} strict c0 (m : M E A) :
  ev any (Step strict) m anyOf -> ev (Step strict c0) Grow m (fun _ => Step strict c0).
Proof.
  intros H. eapply ev_weaken; [| |apply (ev_carry (R := Step strict) any c0), H];
    [done | by intros a c [? _]].
Qed.

Lemma ev_SeedRBAC strict defs admin : ev any (Step strict) (SeedRBAC defs admin) anyOf.
Proof.
  apply ev_tx; [ev_auto|]. intros c I _. apply ev_weaken with (φ := Step strict c) (ψ := fun _ => Step strict c);
    [intros c' <-; apply ev_refl | done |].
  eapply ev_bind; [apply tx_carry, ev_seedBuiltinRoles|]. intros aid.
  eapply ev_bind; [apply tx_carry, ev_bindSeedAdmin|]. intros u1.
  eapply ev_bind; [eapply ev_bind; [apply tx_carry; ev_auto|]; intros ids; apply ev_forEach; intros w _;
    apply tx_missingRoles; [done|]|].
  { intros def Hd. pose proof (proj1 builtin_scopes) as F. rewrite Forall_forall in F. rewrite (F def Hd).
    intros E. by destruct scopes_distinct as (_ & _ & D). }
  intros u2. eapply ev_bind; [eapply ev_bind; [apply tx_carry; ev_auto|]; intros ids; apply ev_forEach; intros p _;
    by apply tx_missingRoles|].
  intros u3. apply ev_forEach. intros m Hm. apply tx_migrateOne; [done|].
  revert m Hm. apply Forall_forall. by repeat constructor.
Qed.

#[export] Hint Resolve ev_SeedRBAC : iam_step.

(** *** Members, grants and ownership transfer *)

Lemma step_AddWorkspaceMemberRole strict u r ws :
  sev any (Step strict) (AddWorkspaceMemberRole u r ws) anyOf.
Proof.
  eapply sev_smap; [|done]. eapply sev_weaken; [| |by apply step_insertBinding]; [|done].
  intros c _. by split.
Qed.

Lemma ev_AddWorkspaceMember strict u ws r : ev any (Step strict) (AddWorkspaceMember u ws r) anyOf.
Proof.
  apply any_bind; [ev_auto|]. intros role. apply any_bind; [|intros; apply step_notify].
  apply ev_WithTx, ev_onErr, ev_Q, step_AddWorkspaceMemberRole.
Qed.

(** The namespace's workspace, as read. *)
Definition nsIn (ns ws : Z) : Guard := fun c => parent (cd c) !! ns = Some ws.

Lemma ev_GetNamespaceWorkspaceID strict ns :
  sev any (Step strict) (GetNamespaceWorkspaceID ns) (nsIn ns).
Proof.
  eapply sev_weaken; [| |apply sev_query]; [done|]. intros ws c [_ H%one_ok].
  unfold nsIn. by rewrite parent_lookup.
Qed.

(** A read keeps what is known. *)
Lemma ev_read {A} R `{!Evolution R} (φ : Guard) (f : DB -> result SqlErr A) :
  ev φ R (Q (query f)) (fun _ => φ).
Proof. apply ev_Q. eapply sev_weaken; [| |apply sev_query]; [done | by intros a c [? _]]. Qed.

Lemma step_plainGrant_nsIn strict b ns ws :
  bIsOwner b = false -> bNamespaceID b = None ->
  sev (nsIn ns ws) (Step strict) (CreateRoleBindingIfNotExists b) (fun _ => nsIn ns ws).
Proof.
  intros Ho Hn c Hc. pose proof (step_plainGrant strict b Ho Hn c I) as H.
  unfold CreateRoleBindingIfNotExists, smap, insertBinding, insertInto in *. cbn [nextval] in *.
  repeat case_match; simplify_eq/=; try done; by split; [apply H|].
Qed.

Lemma step_AddNamespaceMemberRole strict u r ws ns :
  sev (nsIn ns ws) (Step strict) (AddNamespaceMemberRole u r ws ns) anyOf.
Proof.
  eapply sev_smap; [|done]. eapply sev_weaken; [| |by apply step_insertBinding]; [|done].
  intros c Hc. split; [by intros n [= <-] | done].
Qed.

Lemma ev_AddNamespaceMember strict u ns r : ev any (Step strict) (AddNamespaceMember u ns r) anyOf.
Proof.
  eapply ev_bind; [apply ev_onErr, ev_Q, ev_GetNamespaceWorkspaceID|]. intros ws.
  eapply ev_bind; [apply ev_onErr, ev_read, _|]. intros [memberID ?].
  eapply ev_bind with (ψ := fun _ => nsIn ns ws).
  { destruct (r =? 0); [|by apply ev_ret]. eapply ev_bind; [apply ev_onErr, ev_read, _|].
    intros [id ?]. by apply ev_ret. }
  intros role. eapply ev_bind with (ψ := anyOf); [|intros; apply step_notify].
  apply ev_WithTx. eapply ev_bind; [apply ev_onErr, ev_Q; by apply step_plainGrant_nsIn|].
  intros n. apply ev_onErr, ev_Q, step_AddNamespaceMemberRole.
Qed.

(** The rows [CreateMany] is given. *)
Definition wellPlaced (l : list RoleBindingCreateInput) : Guard := fun c =>
  forall i, i ∈ l -> forall n, biNamespaceID i = Some n -> parent (cd c) !! n = biWorkspaceID i.

Lemma tx_createMany strict c0 inputs : forall created,
  ev (fun c => Step strict c0 c /\ wellPlaced inputs c) Grow (createManyTx inputs created)
     (fun _ => Step strict c0).
Proof.
  induction inputs as [|i rest IH]; intros created; cbn [createManyTx].
  - apply ev_ret. by intros c [? _].
  - eapply ev_bind; [|intros n; apply IH].
    apply (ev_carry (R := Step strict) (wellPlaced (i :: rest)) c0). apply ev_onErr, ev_Q.
    intros c Hw. assert (mayInsert (inputBinding i) c) as Hm.
    { split; [|done]. intros n E. by apply (Hw i (list_elem_of_here _ _)). }
    pose proof (step_insertBinding strict DoNothing (inputBinding i) ltac:(done) c Hm) as H.
    unfold CreateRoleBindingIfNotExists, smap, insertBinding, insertInto in *. cbn [nextval] in *.
    repeat case_match; simplify_eq/=; try done; (split; [apply H|]);
      intros j Hj; apply Hw; by apply list_elem_of_further.
Qed.

Lemma grow_createMany inputs : forall created, ev any Grow (createManyTx inputs created) anyOf.
Proof. induction inputs as [|i rest IH]; intros created; cbn [createManyTx]; ev_auto. Qed.

Lemma ev_CreateMany strict inputs : ev (wellPlaced inputs) (Step strict) (CreateMany inputs) anyOf.
Proof.
  unfold CreateMany. case_bool_decide; [by apply ev_ret|].
  eapply ev_bind with (ψ := anyOf); [|intros; ev_auto]. apply ev_onErr, ev_tx; [apply grow_createMany|].
  intros c _ Hw. eapply ev_weaken; [| |apply (tx_createMany strict c)]; [|done].
  intros c' <-. split; [apply ev_refl | done].
Qed.

(** The tenant has no owner, and [role] is one of its roles. *)
Definition ownerless (scope : string) (res : Z) : Guard := fun c =>
  if scope =s ScopeWorkspace then noOwner (cd c) (ScopeWorkspace, Some res, None)
  else forall w, noOwner (cd c) (ScopeNamespace, w, Some res).

Definition tenantRole (scope : string) (res role : Z) : Guard := fun c =>
  exists r, roles (cd c) !! role = Some r /\
    if scope =s ScopeWorkspace then rScope r = ScopeWorkspace /\ rWorkspaceID r = Some res
    else rScope r = ScopeNamespace /\ rNamespaceID r = Some res.

Lemma tenantOf_ws b w : tenantOf b = (ScopeWorkspace, Some w, None) -> inWorkspace w b = true.
Proof. unfold tenantOf, inWorkspace. intros [= -> -> _]. cbn. by rewrite Z.eqb_refl. Qed.

Lemma tenantOf_ns b w n : tenantOf b = (ScopeNamespace, w, Some n) -> inNamespace n b = true.
Proof. unfold tenantOf, inNamespace. intros [= -> _ ->]. cbn. by rewrite Z.eqb_refl. Qed.

Lemma ev_clearOwner scope res :
  ev any (Step false) (clearOwner scope res) (fun _ => ownerless scope res).
Proof.
  unfold clearOwner, ownerless. apply ev_onErr, ev_Q. destruct (scope =s ScopeWorkspace).
  - apply sev_exec. intros c a d' _ [= _ <-]. split; [by apply step_clearOwner with (P := fun _ b => inWorkspace res b && bIsOwner b)|].
    apply noOwner_cleared. intros i x Ht%tenantOf_ws ->. by rewrite Ht.
  - apply sev_exec. intros c a d' _ [= _ <-]. split; [by apply step_clearOwner with (P := fun _ b => inNamespace res b && bIsOwner b)|].
    intros w. apply noOwner_cleared. intros i x Ht%tenantOf_ns ->. by rewrite Ht.
Qed.

Lemma ev_lookupAdminRoleID scope res name :
  ev (ownerless scope res) (Step false) (lookupAdminRoleID scope res name)
     (fun id c => ownerless scope res c /\ tenantRole scope res id c).
Proof.
  unfold lookupAdminRoleID. eapply ev_bind with
    (ψ := fun a c => ownerless scope res c /\ tenantRole scope res a.1 c);
    [|intros [id r]; by apply ev_ret].
  apply ev_onErr, ev_Q. unfold tenantRole. destruct (scope =s ScopeWorkspace);
    (eapply sev_weaken; [| |apply sev_query]; [done|]); intros [id r] c [Ho H%one_ok]; (split; [done|]);
    apply firstRow_Some in H as [E H]; rewrite !andb_true_iff, !String.eqb_eq, colEq_spec in H;
    exists r; split; [done | tauto | done | tauto].
Qed.

Lemma ev_upsertOwner scope res u role :
  ev (fun c => ownerless scope res c /\ tenantRole scope res role c) (Step false)
     (upsertOwner scope res u role) anyOf.
Proof.
  unfold upsertOwner, ownerless, tenantRole. destruct (scope =s ScopeWorkspace).
  - apply ev_onErr, ev_Q. eapply sev_smap; [|done].
    eapply sev_weaken; [| |by apply step_insertBinding]; [|done].
    intros c [Ho (r & Hr & Hs & Hw)]. split; [done|]. intros _. split; [done|].
    exists r. split; [done|]. left. cbn. by rewrite Hw.
  - eapply ev_bind; [apply ev_onErr, ev_Q, sev_query|]. intros ws. apply ev_onErr, ev_Q.
    eapply sev_smap; [|done]. eapply sev_weaken; [| |by apply step_insertBinding]; [|done].
    intros c [[Ho (r & Hr & Hs & Hn)] H%one_ok]. split.
    + intros n [= <-]. cbn. by rewrite parent_lookup.
    + intros _. split; [by apply Ho|]. exists r. split; [done|]. right. cbn. by rewrite Hn.
Qed.

Lemma ev_TransferOwnership scope res caller isAdmin u name :
  ev any (Step false) (TransferOwnership scope res caller isAdmin u name) anyOf.
Proof.
  unfold TransferOwnership. destruct (negb _ && negb _); [apply ev_fail|].
  apply any_bind; [|intros; ev_auto]. apply ev_WithTx. unfold transferOwnershipTx.
  apply any_bind; [ev_auto|]. intros old. destruct (negb _ && negb _); [apply ev_fail|].
  apply any_bind; [ev_auto|]. intros [|]; [|apply ev_fail]. cbn [negb].
  eapply ev_bind; [apply ev_clearOwner|]. intros u1.
  eapply ev_bind; [apply ev_lookupAdminRoleID|]. intros role.
  eapply ev_bind; [apply ev_upsertOwner|]. intros u2. by apply ev_ret.
Qed.

#[export] Hint Resolve ev_AddWorkspaceMember ev_AddNamespaceMember ev_TransferOwnership : iam_step.

(** *** The remaining stores *)

Lemma ev_bindDefault strict u n : ev any (Step strict) (bindDefaultPlatformRole u n) anyOf.
Proof.
  unfold bindDefaultPlatformRole. destruct (n =s ""); [ev_auto|].
  apply any_bind; [ev_auto|]. intros [roleID r]. apply any_bind; [|intros; ev_auto].
  apply ev_onErr, ev_Q. by apply step_plainGrant.
Qed.

Lemma ev_uniqueUsername strict fuel : forall base i c,
  ev any (Step strict) (uniqueUsernameFrom fuel base i c) anyOf.
Proof. induction fuel as [|fuel IH]; intros base i c; cbn [uniqueUsernameFrom]; ev_auto. Qed.

#[export] Hint Resolve ev_bindDefault ev_uniqueUsername : iam_step.

Lemma ev_RegisterLocal strict i : ev any (Step strict) (RegisterLocal i) anyOf.
Proof. ev_auto. Qed.

Lemma ev_FindOrCreateSocial strict i : ev any (Step strict) (FindOrCreateSocial i) anyOf.
Proof. ev_auto. Qed.

Lemma ev_SyncModule strict p l : ev any (Step strict) (SyncModule p l) anyOf.
Proof. ev_auto. Qed.

#[export] Hint Resolve ev_RegisterLocal ev_FindOrCreateSocial ev_SyncModule : iam_step.

End IamIntegrity.
