(* ===== verification/IamRoles.v ===== *)
(** * Roles and role bindings: the REST operations

    [pkg/apis/iam/storage_role.go] (platform and scoped roles),
    [storage_rolebinding.go] (grants and revocations at the three levels)
    and the sharing helpers of [storage_helpers.go]. A handler receives the
    [Ctx] the route wrapper built; request bodies arrive decoded. *)

From S2P Require Import Prelude Rbac ApiRoutes ApiServe IamDb IamStore IamValidation.

Module IamRoles.
Import Rbac IamDb IamStore IamValidation.

Abbreviation Ctx := Serve.Ctx.
Abbreviation DryRun := Serve.cDryRun.
Definition ctxWorkspaceID (ctx : Ctx) : Z := Api.WorkspaceID (Serve.cScope ctx).
Definition ctxNamespaceID (ctx : Ctx) : Z := Api.NamespaceID (Serve.cScope ctx).

Definition parseID (s : string) : option Z := ParseInt s 64.

(** [apiserver.BatchResult]. *)
Record BatchResult := mkBatch { SuccessCount : Z; FailedCount : Z; FailedIDs : list string }.

(** [BatchRequest], after [DecodePatch]. *)
Record BatchRequest := mkBatchRequest { brIDs : list string; brRoleID : string }.

(** The role representation the handlers return ([roleWithRulesToAPI]),
    without its timestamps. *)
Record RoleAPI := mkRoleAPI {
  raID : string; raName : string; raDisplayName : string; raDescription : string;
  raScope : string; raBuiltin : bool; raRules : list string
}.

Definition roleWithRulesToAPI (r : RoleWithRules) : RoleAPI :=
  let row := rrRow r in
  mkRoleAPI (FormatInt (rrID r)) (rName row) (rDisplayName row) (rDescription row) (rScope row)
    (rBuiltin row) (rrRules r).

(** A dry run returns the request's own object. *)
Definition specToAPI (spec : RoleSpec) : RoleAPI :=
  mkRoleAPI "" (rspName spec) (rspDisplayName spec) (rspDescription spec) (rspScope spec) false
    (rspRules spec).

Definition withScope (scope : string) (spec : RoleSpec) : RoleSpec :=
  mkRoleSpec (rspName spec) (rspDisplayName spec) (rspDescription spec) scope (rspRules spec).

Definition validationFailed (errs : ErrorList) : GoErr := NewBadRequest "validation failed" errs.

(** [if errs.HasErrors() { return nil, NewBadRequest("validation failed", errs) }] *)
Definition require (errs : ErrorList) : M GoErr unit :=
  if HasErrors errs then fail (validationFailed errs) else ret tt.

Definition checkRuleScopes (scope : string) (rules : list string) : M GoErr unit :=
  codeScopes <-- onErr domainErr ListCodeScopes ;;
  require (ValidateRuleScopes scope rules codeScopes).

(** Rules are written only when there are some, then the role is read back. *)
Definition finishRole (id : Z) (rules : list string) : M GoErr RoleAPI :=
  _ <-- (if bool_decide (rules = []) then ret tt
         else onErr domainErr (SetPermissionRules id rules)) ;;
  r <-- onErr domainErr (roleGetByID id) ;;
  ret (roleWithRulesToAPI r).

(** ** [roleOps]: platform roles *)

Definition role_get (ctx : Ctx) (id : Z) : M GoErr RoleAPI :=
  r <-- onErr domainErr (roleGetByID id) ;;
  if negb (rScope (rrRow r) =s ScopePlatform) then fail (NewNotFound "role" (FormatInt id))
  else ret (roleWithRulesToAPI r).

Definition role_create (ctx : Ctx) (spec0 : RoleSpec) : M GoErr RoleAPI :=
  let spec := withScope ScopePlatform spec0 in
  _ <-- require (ValidateRoleCreate spec) ;;
  _ <-- checkRuleScopes (rspScope spec) (rspRules spec) ;;
  if DryRun ctx then ret (specToAPI spec)
  else
    '(id, _) <-- onErr domainErr (roleCreate (mkRoleCreate (rspName spec) (rspDisplayName spec)
                    (rspDescription spec) ScopePlatform None None false)) ;;
    finishRole id (rspRules spec).

Definition role_update (ctx : Ctx) (id : Z) (spec : RoleSpec) : M GoErr RoleAPI :=
  existing <-- onErr domainErr (roleGetByID id) ;;
  if negb (rScope (rrRow existing) =s ScopePlatform) then fail (NewNotFound "role" (FormatInt id))
  else if rBuiltin (rrRow existing) then fail (NewBadRequest "cannot modify built-in role" [])
  else
    _ <-- require (ValidateRoleUpdate spec) ;;
    _ <-- checkRuleScopes (rScope (rrRow existing)) (rspRules spec) ;;
    if DryRun ctx then ret (specToAPI spec)
    else
      _ <-- onErr domainErr (roleUpdate id (rspDisplayName spec) (rspDescription spec)) ;;
      finishRole id (rspRules spec).

Definition role_delete (ctx : Ctx) (id : Z) : M GoErr unit :=
  existing <-- onErr domainErr (roleGetByID id) ;;
  if negb (rScope (rrRow existing) =s ScopePlatform) then fail (NewNotFound "role" (FormatInt id))
  else if rBuiltin (rrRow existing) then fail (NewBadRequest "cannot delete built-in role" [])
  else
    count <-- onErr domainErr (CountByRoleAndScope id ScopePlatform) ;;
    if 0 <? count then fail (NewBadRequest "cannot delete role with active bindings" [])
    else if DryRun ctx then ret tt
    else roleDelete id.

(** May this role go in a batch delete? Any error says no. *)
Definition platformEligible (rid : Z) : M GoErr bool :=
  r <-- attempt (roleGetByID rid) ;;
  match r with
  | Err _ => ret false
  | Ok existing =>
      if negb (rScope (rrRow existing) =s ScopePlatform) || rBuiltin (rrRow existing) then ret false
      else
        c <-- attempt (CountByRoleAndScope rid ScopePlatform) ;;
        ret (match c with Ok count => negb (0 <? count) | Err _ => false end)
  end.

Fixpoint deleteEach (eligible : Z -> M GoErr bool) (dryRun : bool) (ids : list Z) (success : Z)
    : M GoErr Z :=
  match ids with
  | [] => ret success
  | rid :: rest =>
      ok <-- eligible rid ;;
      if negb ok then deleteEach eligible dryRun rest success
      else if dryRun then deleteEach eligible dryRun rest (success + 1)
      else
        r <-- attempt (roleDelete rid) ;;
        deleteEach eligible dryRun rest
          (match r with Ok _ => success + 1 | Err _ => success end)
  end.

Definition role_batchDelete (ctx : Ctx) (ids : list Z) : M GoErr BatchResult :=
  success <-- deleteEach platformEligible (DryRun ctx) ids 0 ;;
  ret (mkBatch success (Z.of_nat (length ids) - success) []).

(** ** [scopedRoleOps]: workspace and namespace roles *)

Section Scoped.
(** The [scope] field: [ScopeWorkspace] or [ScopeNamespace]. *)
Context (scope : string).

Definition scopeOwnerID (ctx : Ctx) : Z :=
  if scope =s ScopeWorkspace then ctxWorkspaceID ctx else ctxNamespaceID ctx.

Definition ownedBy (r : Role) (ownerID : Z) : bool :=
  if scope =s ScopeWorkspace then colEq (rWorkspaceID r) ownerID else colEq (rNamespaceID r) ownerID.

Definition verifyScopeOwnership (existing : RoleWithRules) (id : string) (ownerID : Z) : M GoErr unit :=
  if negb (rScope (rrRow existing) =s scope) then fail (NewNotFound "role" id)
  else if negb (ownedBy (rrRow existing) ownerID) then fail (NewNotFound "role" id)
  else ret tt.

Definition scopedRole_get (ctx : Ctx) (id : Z) : M GoErr RoleAPI :=
  r <-- onErr domainErr (roleGetByID id) ;;
  _ <-- verifyScopeOwnership r (FormatInt id) (scopeOwnerID ctx) ;;
  ret (roleWithRulesToAPI r).

Definition scopedRole_create (ctx : Ctx) (spec0 : RoleSpec) : M GoErr RoleAPI :=
  let spec := withScope scope spec0 in
  _ <-- require (ValidateRoleCreate spec) ;;
  _ <-- checkRuleScopes (rspScope spec) (rspRules spec) ;;
  if DryRun ctx then ret (specToAPI spec)
  else
    let ownerID := scopeOwnerID ctx in
    let ws := if scope =s ScopeWorkspace then Some ownerID else None in
    let ns := if scope =s ScopeWorkspace then None else Some ownerID in
    '(id, _) <-- onErr domainErr (roleCreate (mkRoleCreate (rspName spec) (rspDisplayName spec)
                    (rspDescription spec) scope ws ns false)) ;;
    finishRole id (rspRules spec).

Definition scopedRole_update (ctx : Ctx) (id : Z) (spec : RoleSpec) : M GoErr RoleAPI :=
  existing <-- onErr domainErr (roleGetByID id) ;;
  if rBuiltin (rrRow existing) then fail (NewBadRequest "cannot modify built-in role" [])
  else
    _ <-- verifyScopeOwnership existing (FormatInt id) (scopeOwnerID ctx) ;;
    _ <-- require (ValidateRoleUpdate spec) ;;
    _ <-- checkRuleScopes scope (rspRules spec) ;;
    if DryRun ctx then ret (specToAPI spec)
    else
      _ <-- onErr domainErr (roleUpdate id (rspDisplayName spec) (rspDescription spec)) ;;
      finishRole id (rspRules spec).

Definition scopedRole_delete (ctx : Ctx) (id : Z) : M GoErr unit :=
  existing <-- onErr domainErr (roleGetByID id) ;;
  if rBuiltin (rrRow existing) then fail (NewBadRequest "cannot delete built-in role" [])
  else
    _ <-- verifyScopeOwnership existing (FormatInt id) (scopeOwnerID ctx) ;;
    count <-- onErr domainErr (CountByRoleAndScope id scope) ;;
    if 0 <? count then fail (NewBadRequest "cannot delete role with active bindings" [])
    else if DryRun ctx then ret tt
    else roleDelete id.

Definition deleteCollectionEligible (ownerID rid : Z) : M GoErr bool :=
  r <-- attempt (roleGetByID rid) ;;
  match r with
  | Err _ => ret false
  | Ok existing =>
      if negb (rScope (rrRow existing) =s scope) || rBuiltin (rrRow existing) then ret false
      else if negb (ownedBy (rrRow existing) ownerID) then ret false
      else
        c <-- attempt (CountByRoleAndScope rid scope) ;;
        ret (match c with Ok count => negb (0 <? count) | Err _ => false end)
  end.

Definition scopedRole_batchDelete (ctx : Ctx) (ids : list Z) : M GoErr BatchResult :=
  success <-- deleteEach (deleteCollectionEligible (scopeOwnerID ctx)) (DryRun ctx) ids 0 ;;
  ret (mkBatch success (Z.of_nat (length ids) - success) []).
End Scoped.

(** ** Role bindings *)

(** The loop over the request's user ids. *)
Fixpoint bindInputs (ids : list string) (roleID : Z) (scope : string) (ws ns : option Z)
    : result GoErr (list RoleBindingCreateInput) :=
  match ids with
  | [] => Ok []
  | raw :: rest =>
      match parseID raw with
      | None => Err (NewBadRequest ("invalid user ID: " +++ raw) [])
      | Some userID =>
          l <-! bindInputs rest roleID scope ws ns ;;
          Ok (mkBindingInput userID roleID scope ws ns :: l)
      end
  end.

Definition lift {A} (r : result GoErr A) : M GoErr A := fun s => (r, s).

Definition batchBindRole (ctx : Ctx) (req : BatchRequest) (scope : string) (ws ns : option Z)
    (checkRole : Role -> result GoErr unit) : M GoErr BatchResult :=
  if bool_decide (brIDs req = []) then fail (NewBadRequest "ids is required" [])
  else if brRoleID req =s "" then fail (NewBadRequest "roleId is required" [])
  else match parseID (brRoleID req) with
  | None => fail (NewBadRequest ("invalid role ID: " +++ brRoleID req) [])
  | Some roleID =>
      role <-- onErr domainErr (roleGetByID roleID) ;;
      _ <-- lift (checkRole (rrRow role)) ;;
      inputs <-- lift (bindInputs (brIDs req) roleID scope ws ns) ;;
      if DryRun ctx then ret (mkBatch (Z.of_nat (length inputs)) 0 [])
      else
        created <-- onErr domainErr (CreateMany inputs) ;;
        ret (mkBatch created (Z.of_nat (length inputs) - created) [])
  end.

Definition roleBinding_create (ctx : Ctx) (req : BatchRequest) : M GoErr BatchResult :=
  batchBindRole ctx req ScopePlatform None None (fun role =>
    if negb (rScope role =s ScopePlatform)
    then Err (NewBadRequest "role scope must be 'platform' for platform-level bindings" [])
    else Ok tt).

Definition workspaceRoleBinding_create (ctx : Ctx) (req : BatchRequest) : M GoErr BatchResult :=
  let wsID := ctxWorkspaceID ctx in
  batchBindRole ctx req ScopeWorkspace (Some wsID) None (fun role =>
    if negb (rScope role =s ScopeWorkspace)
    then Err (NewBadRequest "role scope must be 'workspace' for workspace-level bindings" [])
    else if negb (colEq (rWorkspaceID role) wsID)
    then Err (NewBadRequest "role does not belong to this workspace" [])
    else Ok tt).

Definition namespaceRoleBinding_create (ctx : Ctx) (req : BatchRequest) : M GoErr BatchResult :=
  let nsID := ctxNamespaceID ctx in
  nd <-- onErr domainErr (namespaceGetByID nsID) ;;
  batchBindRole ctx req ScopeNamespace (Some (nsWorkspaceID (ndRow nd))) (Some nsID) (fun role =>
    if negb (rScope role =s ScopeNamespace)
    then Err (NewBadRequest "role scope must be 'namespace' for namespace-level bindings" [])
    else if negb (colEq (rNamespaceID role) nsID)
    then Err (NewBadRequest "role does not belong to this namespace" [])
    else Ok tt).

(** The delete operations are the same at the three levels. *)
Definition deleteRoleBinding (ctx : Ctx) (id : Z) : M GoErr unit :=
  '(_, existing) <-- onErr domainErr (bindingGetByID id) ;;
  if bIsOwner existing then fail (NewBadRequest "cannot delete owner role binding" [])
  else if DryRun ctx then ret tt
  else bindingDelete id.

Definition deleteRoleBindingsCollection (ctx : Ctx) (ids : list Z) : M GoErr BatchResult :=
  if DryRun ctx then ret (mkBatch (Z.of_nat (length ids)) 0 [])
  else
    deleted <-- onErr domainErr (bindingDeleteByIDs ids) ;;
    ret (mkBatch deleted (Z.of_nat (length ids) - deleted) []).

End IamRoles.
