(* ===== verification/IamTenants.v ===== *)
(** * Workspaces, namespaces and their members: the REST operations

    [pkg/apis/iam/storage_workspace.go], [storage_namespace.go],
    [scope_blocking.go] and the batch helpers of [storage_helpers.go]. *)

From S2P Require Import Prelude Rbac ApiRoutes ApiServe IamDb IamStore IamValidation IamRoles.

Module IamTenants.
Import Rbac IamDb IamStore IamValidation IamRoles.

(** The wire objects ([workspaceWithOwnerToAPI], [namespaceWithOwnerToAPI]),
    without timestamps. *)
Record WorkspaceAPI := mkWorkspaceAPI {
  waID : string; waName : string; waSpec : WorkspaceSpec; waOwnerName : string;
  waCreatedByName : string; waNamespaceCount : Z; waMemberCount : Z; waRoleBindingCount : Z
}.

Record NamespaceAPI := mkNamespaceAPI {
  naID : string; naName : string; naSpec : NamespaceSpec; naOwnerName : string;
  naWorkspaceName : string; naCreatedByName : string; naMemberCount : Z; naRoleBindingCount : Z
}.

Definition workspaceToAPI (w : Workspace) : WorkspaceSpec :=
  mkWorkspaceSpec (wsDisplayName w) (wsDescription w) (FormatInt (wsOwnerID w)) (wsStatus w).

Definition workspaceWithOwnerToAPI (w : WorkspaceDetail) : WorkspaceAPI :=
  mkWorkspaceAPI (FormatInt (wdID w)) (wsName (wdRow w)) (workspaceToAPI (wdRow w))
    (wdOwnerUsername w) (wdCreatorName w) (wdNamespaceCount w) (wdMemberCount w)
    (wdRoleBindingCount w).

Definition namespaceToAPI (n : Namespace) : NamespaceSpec :=
  mkNamespaceSpec (nsDisplayName n) (nsDescription n) (FormatInt (nsWorkspaceID n))
    (FormatInt (nsOwnerID n)) (nsVisibility n) (nsMaxMembers n) (nsStatus n).

Definition namespaceWithOwnerToAPI (n : NamespaceDetail) : NamespaceAPI :=
  mkNamespaceAPI (FormatInt (ndID n)) (nsName (ndRow n)) (namespaceToAPI (ndRow n))
    (ndOwnerUsername n) (ndWorkspaceName n) (ndCreatorName n) (ndMemberCount n)
    (ndRoleBindingCount n).

(** A dry run answers with the request's object. *)
Definition echoWorkspace (name : string) (spec : WorkspaceSpec) : WorkspaceAPI :=
  mkWorkspaceAPI "" name spec "" "" 0 0 0.
Definition echoNamespace (name : string) (spec : NamespaceSpec) : NamespaceAPI :=
  mkNamespaceAPI "" name spec "" "" "" 0 0.

Definition parseOr (what : string) (raw : string) : M GoErr Z :=
  match parseID raw with
  | Some id => ret id
  | None => fail (NewBadRequest ("invalid " +++ what +++ ": " +++ raw) [])
  end.

(** A lookup whose every failure becomes one BadRequest. *)
Definition mustExist {A} (m : M GoErr A) (message : string) : M GoErr unit :=
  r <-- attempt m ;;
  match r with Ok _ => ret tt | Err _ => fail (NewBadRequest message []) end.

(** [blockingResourceError]. *)
Definition blockingResourceError (scope : string) (rows : list (string * Z)) : M GoErr unit :=
  if bool_decide (rows = []) then ret tt
  else fail (NewConflictMessage ("cannot delete " +++ scope +++ ": " +++
         Join ((fun r => r.1 +++ "(" +++ FormatInt r.2 +++ ")") <$> rows) ", ")).

(** ** [workspaceOps] *)

Definition workspace_get (ctx : Ctx) (id : Z) : M GoErr WorkspaceAPI :=
  ws <-- onErr domainErr (workspaceGetByID id) ;;
  ret (workspaceWithOwnerToAPI ws).

Definition setOwner (owner : option Z) (spec : WorkspaceSpec) : WorkspaceSpec :=
  match owner with
  | Some u => mkWorkspaceSpec (wspDisplayName spec) (wspDescription spec) (FormatInt u) (wspStatus spec)
  | None => spec
  end.

Definition workspace_create (caller : option Z) (ctx : Ctx) (name : string) (spec0 : WorkspaceSpec)
    : M GoErr WorkspaceAPI :=
  let spec := setOwner caller spec0 in
  _ <-- require (ValidateWorkspaceCreate name spec) ;;
  if DryRun ctx then ret (echoWorkspace name spec)
  else
    ownerID <-- parseOr "ownerId" (wspOwnerID spec) ;;
    _ <-- mustExist (userGetByID ownerID) ("owner user " +++ FormatInt ownerID +++ " not found") ;;
    let status := if wspStatus spec =s "" then "active" else wspStatus spec in
    created <-- onErr domainErr (workspaceCreate caller
      (mkWorkspaceInput name (wspDisplayName spec) (wspDescription spec) ownerID status)) ;;
    ret (workspaceWithOwnerToAPI created).

Definition workspace_update (ctx : Ctx) (id : Z) (name : string) (spec : WorkspaceSpec)
    : M GoErr WorkspaceAPI :=
  _ <-- require (ValidateWorkspaceUpdate spec) ;;
  if DryRun ctx then ret (echoWorkspace name spec)
  else
    ownerID <-- parseOr "ownerId" (wspOwnerID spec) ;;
    updated <-- onErr domainErr (workspaceUpdate id
      (mkWorkspaceInput name (wspDisplayName spec) (wspDescription spec) ownerID (wspStatus spec))) ;;
    ret (workspaceWithOwnerToAPI updated).

(** The body's absent fields are empty strings. *)
Definition workspace_patch (ctx : Ctx) (id : Z) (name : string) (spec : WorkspaceSpec)
    : M GoErr WorkspaceAPI :=
  if DryRun ctx then onErr domainErr (workspace_get ctx id)
  else
    ownerID <-- (if wspOwnerID spec =s "" then ret 0 else parseOr "ownerId" (wspOwnerID spec)) ;;
    patched <-- onErr domainErr (workspacePatch id
      (mkWorkspaceInput name (wspDisplayName spec) (wspDescription spec) ownerID (wspStatus spec))) ;;
    ret (workspaceWithOwnerToAPI patched).

Definition workspace_delete (ctx : Ctx) (id : Z) : M GoErr unit :=
  if DryRun ctx then ret tt
  else
    rows <-- onErr domainErr (workspaceListBlockingResources id) ;;
    _ <-- blockingResourceError "workspace" rows ;;
    onErr domainErr (workspaceDelete id).

Definition workspace_batchDelete (ctx : Ctx) (ids : list Z) : M GoErr BatchResult :=
  if DryRun ctx then ret (mkBatch (Z.of_nat (length ids)) 0 [])
  else
    _ <-- forEach (fun wid =>
            rows <-- onErr domainErr (workspaceListBlockingResources wid) ;;
            blockingResourceError "workspace" rows) ids ;;
    count <-- onErr domainErr (workspaceDeleteByIDs ids) ;;
    ret (mkBatch count (Z.of_nat (length ids) - count) []).

(** ** [namespaceOps] *)

Definition namespace_get (ctx : Ctx) (id : Z) : M GoErr NamespaceAPI :=
  ns <-- onErr domainErr (namespaceGetByID id) ;;
  ret (namespaceWithOwnerToAPI ns).

Definition atWorkspaceLevel (ctx : Ctx) : bool :=
  Api.Level (Serve.cScope ctx) =? Api.ScopeWorkspace.

(** The scope path decides the workspace, the caller the owner by default. *)
Definition placeNamespace (caller : option Z) (ctx : Ctx) (spec : NamespaceSpec) : NamespaceSpec :=
  mkNamespaceSpec (nspDisplayName spec) (nspDescription spec)
    (if atWorkspaceLevel ctx then FormatInt (ctxWorkspaceID ctx) else nspWorkspaceID spec)
    (match caller with
     | Some u => if nspOwnerID spec =s "" then FormatInt u else nspOwnerID spec
     | None => nspOwnerID spec
     end)
    (nspVisibility spec) (nspMaxMembers spec) (nspStatus spec).

Definition namespace_create (caller : option Z) (ctx : Ctx) (name : string) (spec0 : NamespaceSpec)
    : M GoErr NamespaceAPI :=
  let spec := placeNamespace caller ctx spec0 in
  _ <-- require (ValidateNamespaceCreate name spec) ;;
  if DryRun ctx then ret (echoNamespace name spec)
  else
    workspaceID <-- parseOr "workspaceId" (nspWorkspaceID spec) ;;
    ownerID <-- parseOr "ownerId" (nspOwnerID spec) ;;
    _ <-- mustExist (workspaceGetByID workspaceID)
            ("workspace " +++ FormatInt workspaceID +++ " not found") ;;
    _ <-- mustExist (userGetByID ownerID) ("owner user " +++ FormatInt ownerID +++ " not found") ;;
    created <-- onErr domainErr (namespaceCreate caller
      (mkNamespaceInput name (nspDisplayName spec) (nspDescription spec) workspaceID ownerID
         (nspVisibility spec) (int32 (nspMaxMembers spec)) (nspStatus spec))) ;;
    ret (namespaceWithOwnerToAPI created).

Definition namespace_update (ctx : Ctx) (id : Z) (name : string) (spec : NamespaceSpec)
    : M GoErr NamespaceAPI :=
  _ <-- require (ValidateNamespaceUpdate spec) ;;
  if DryRun ctx then ret (echoNamespace name spec)
  else
    ownerID <-- parseOr "ownerId" (nspOwnerID spec) ;;
    updated <-- onErr domainErr (namespaceUpdate id
      (mkNamespaceInput name (nspDisplayName spec) (nspDescription spec) 0 ownerID
         (nspVisibility spec) (int32 (nspMaxMembers spec)) (nspStatus spec))) ;;
    ret (namespaceWithOwnerToAPI updated).

Definition namespace_patch (ctx : Ctx) (id : Z) (name : string) (spec : NamespaceSpec)
    : M GoErr NamespaceAPI :=
  if DryRun ctx then onErr domainErr (namespace_get ctx id)
  else
    ownerID <-- (if nspOwnerID spec =s "" then ret 0 else parseOr "ownerId" (nspOwnerID spec)) ;;
    patched <-- onErr domainErr (namespacePatch id
      (mkNamespaceInput name (nspDisplayName spec) (nspDescription spec) 0 ownerID
         (nspVisibility spec) (int32 (nspMaxMembers spec)) (nspStatus spec))) ;;
    ret (namespaceWithOwnerToAPI patched).

Definition namespace_delete (ctx : Ctx) (id : Z) : M GoErr unit :=
  if DryRun ctx then ret tt
  else
    rows <-- onErr domainErr (namespaceListBlockingResources id) ;;
    _ <-- blockingResourceError "namespace" rows ;;
    onErr domainErr (namespaceDelete id).

Definition namespace_batchDelete (ctx : Ctx) (ids : list Z) : M GoErr BatchResult :=
  if DryRun ctx then ret (mkBatch (Z.of_nat (length ids)) 0 [])
  else
    _ <-- forEach (fun nid =>
            rows <-- onErr domainErr (namespaceListBlockingResources nid) ;;
            blockingResourceError "namespace" rows) ids ;;
    count <-- onErr domainErr (namespaceDeleteByIDs ids) ;;
    ret (mkBatch count (Z.of_nat (length ids) - count) []).

(** The [ItemScopeResolver]s of the two resources: the scope at which a
    flat item route is authorized. A failed lookup leaves workspace 0. *)
Definition workspaceItemScope (id : Z) : Api.ScopeInfo :=
  {| Api.Level := Api.ScopeWorkspace; Api.WorkspaceID := id; Api.NamespaceID := 0 |}.

Definition namespaceItemScope (id : Z) : M GoErr Api.ScopeInfo :=
  r <-- attempt (WorkspaceIDOf id) ;;
  ret {| Api.Level := Api.ScopeNamespace;
         Api.WorkspaceID := match r with Ok ws => ws | Err _ => 0 end;
         Api.NamespaceID := id |}.

(** ** Members *)

Definition ensureUserExists (id : Z) : M GoErr unit :=
  mustExist (userGetByID id) ("user " +++ FormatInt id +++ " not found").

(** [batchAddUsers]; the add functions of both callers report true. *)
Fixpoint batchAddUsers (ids : list string) (addFn : Z -> M GoErr unit) (added : Z) : M GoErr Z :=
  match ids with
  | [] => ret added
  | idStr :: rest =>
      uid <-- parseOr "user ID" idStr ;;
      _ <-- ensureUserExists uid ;;
      _ <-- addFn uid ;;
      batchAddUsers rest addFn (added + 1)
  end.

Fixpoint batchRemoveUsers (ids : list Z) (removeFn : Z -> M GoErr unit) (success : Z)
    (failed : list string) : M GoErr (Z * list string) :=
  match ids with
  | [] => ret (success, failed)
  | uid :: rest =>
      r <-- attempt (removeFn uid) ;;
      match r with
      | Ok _ => batchRemoveUsers rest removeFn (success + 1) failed
      | Err _ => batchRemoveUsers rest removeFn success (failed ++ [FormatInt uid])
      end
  end.

Definition optionalRole (raw : string) : M GoErr Z :=
  if raw =s "" then ret 0
  else match parseID raw with
       | Some id => ret id
       | None => fail (NewBadRequest "invalid role ID" [])
       end.

Definition workspaceUser_create (ctx : Ctx) (req : BatchRequest) : M GoErr BatchResult :=
  let wsID := ctxWorkspaceID ctx in
  roleID <-- optionalRole (brRoleID req) ;;
  added <-- onErr domainErr
    (batchAddUsers (brIDs req) (fun uid => AddWorkspaceMember uid wsID roleID) 0) ;;
  ret (mkBatch added 0 []).

Definition workspaceUser_batchDelete (ctx : Ctx) (ids : list Z) : M GoErr BatchResult :=
  '(ok, failed) <-- batchRemoveUsers ids (fun uid => RemoveWorkspaceMember uid (ctxWorkspaceID ctx)) 0 [] ;;
  ret (mkBatch ok (Z.of_nat (length failed)) failed).

Definition checkMemberLimit (ns : Z) (max adding : Z) : M GoErr unit :=
  if 0 <? max then
    currentCount <-- onErr domainErr (namespaceCountUsers ns) ;;
    if max <? currentCount + adding then
      fail (NewBadRequest ("namespace member limit exceeded: current " +++ FormatInt currentCount
              +++ ", adding " +++ FormatInt adding +++ ", max " +++ FormatInt max) [])
    else ret tt
  else ret tt.

Definition namespaceUser_create (ctx : Ctx) (req : BatchRequest) : M GoErr BatchResult :=
  let nsID := ctxNamespaceID ctx in
  ns <-- onErr domainErr (namespaceGetByID nsID) ;;
  _ <-- checkMemberLimit nsID (nsMaxMembers (ndRow ns)) (Z.of_nat (length (brIDs req))) ;;
  roleID <-- optionalRole (brRoleID req) ;;
  added <-- onErr domainErr
    (batchAddUsers (brIDs req) (fun uid => AddNamespaceMember uid nsID roleID) 0) ;;
  ret (mkBatch added 0 []).

Definition namespaceUser_batchDelete (ctx : Ctx) (ids : list Z) : M GoErr BatchResult :=
  '(ok, failed) <-- batchRemoveUsers ids (fun uid => RemoveNamespaceMember uid (ctxNamespaceID ctx)) 0 [] ;;
  ret (mkBatch ok (Z.of_nat (length failed)) failed).

End IamTenants.
