(* ===== verification/IamUsers.v ===== *)
(** * Users and passwords: the REST operations

    [pkg/apis/iam/storage_user.go] (accounts, change-password,
    reset-password) and [seed_admin.go]. bcrypt is a pair of parameters:
    [hashPasswd] and [verifyPasswd]. *)

From S2P Require Import Prelude Rbac ApiRoutes ApiServe IamDb IamStore IamValidation IamRoles.

Module IamUsers.
Import Rbac IamDb IamStore IamValidation IamRoles.

(** [userToAPI]: the password hash is not part of it. *)
Record UserAPI := mkUserAPI { uaID : string; uaSpec : UserSpec; uaBuiltin : bool }.

Definition userToAPI (p : Z * User) : UserAPI :=
  let u := p.2 in
  mkUserAPI (FormatInt p.1)
    (mkUserSpec (uUsername u) (uEmail u) (uDisplayName u) (uPhone u) (uAvatarUrl u) "" (uStatus u))
    (uBuiltin u).

Definition echoUser (spec : UserSpec) : UserAPI := mkUserAPI "" spec false.

Definition withoutPassword (spec : UserSpec) : UserSpec :=
  mkUserSpec (usUsername spec) (usEmail spec) (usDisplayName spec) (usPhone spec)
    (usAvatarURL spec) "" (usStatus spec).

Section Users.
Context (validAddress : string -> bool).
Context (hashPasswd : string -> option string).
Context (verifyPasswd : string -> string -> bool).

Definition user_get (ctx : Ctx) (id : Z) : M GoErr UserAPI :=
  u <-- onErr domainErr (userGetByID id) ;; ret (userToAPI u).

Definition hashOr (password : string) : M GoErr string :=
  match hashPasswd password with Some h => ret h | None => fail NewInternalError end.

Definition storePassword (id : Z) (password : string) : M GoErr unit :=
  hash <-- hashOr password ;;
  onErr (fun _ => NewInternalError) (userSetPasswordHash id hash).

Definition user_create (ctx : Ctx) (spec : UserSpec) : M GoErr UserAPI :=
  _ <-- require (ValidateUserCreate validAddress spec) ;;
  _ <-- (if usPassword spec =s "" then ret tt else require (ValidatePassword (usPassword spec))) ;;
  if DryRun ctx then ret (echoUser (withoutPassword spec))
  else
    created <-- onErr domainErr (userCreate (mkUserCreate (usUsername spec) (usEmail spec)
                   (usPhone spec) (usDisplayName spec) (usAvatarURL spec) (usStatus spec))) ;;
    _ <-- (if usPassword spec =s "" then ret tt else storePassword created.1 (usPassword spec)) ;;
    ret (userToAPI created).

Definition user_update (ctx : Ctx) (id : Z) (spec : UserSpec) : M GoErr UserAPI :=
  _ <-- require (ValidateUserUpdate validAddress spec) ;;
  if DryRun ctx then ret (echoUser spec)
  else
    updated <-- onErr domainErr (userUpdate (mkUserUpdate id (usUsername spec) (usEmail spec)
                   (usPhone spec) (usDisplayName spec) (usAvatarURL spec) (usStatus spec))) ;;
    ret (userToAPI updated).

(** Fields that are empty in the body are left out of the patch. *)
Definition user_patch (ctx : Ctx) (id : Z) (spec : UserSpec) : M GoErr UserAPI :=
  if DryRun ctx then onErr domainErr (user_get ctx id)
  else
    let given s := if s =s "" then None else Some s in
    patched <-- onErr domainErr (userPatch (mkUserPatch id (given (usEmail spec))
                   (given (usPhone spec)) (given (usDisplayName spec)) (given (usAvatarURL spec))
                   (given (usStatus spec)))) ;;
    ret (userToAPI patched).

Definition user_delete (ctx : Ctx) (id : Z) : M GoErr unit :=
  if DryRun ctx then ret tt else onErr domainErr (userDelete id).

Definition user_batchDelete (ctx : Ctx) (ids : list Z) : M GoErr BatchResult :=
  if DryRun ctx then ret (mkBatch (Z.of_nat (length ids)) 0 [])
  else
    count <-- onErr domainErr (userDeleteByIDs ids) ;;
    ret (mkBatch count (Z.of_nat (length ids) - count) []).

(** ** Passwords *)

Record ChangePasswordRequest := mkChange { cpOldPassword : string; cpNewPassword : string }.

(** The same check for both requests. *)
Definition passwordValidateRequest (newPassword : string) : M GoErr unit :=
  if newPassword =s "" then fail (NewBadRequest "newPassword is required" [])
  else require (ValidatePassword newPassword).

(** A failed revocation is only logged. *)
Definition setUserPasswordAndRevoke (uid : Z) (newPassword : string) : M GoErr unit :=
  _ <-- storePassword uid newPassword ;;
  _ <-- attempt (E := GoErr) (refreshRevokeByUserID uid) ;;
  ret tt.

Definition changePasswordExec (ctx : Ctx) (req : ChangePasswordRequest) : M GoErr unit :=
  let uid := Serve.cID ctx in
  _ <-- passwordValidateRequest (cpNewPassword req) ;;
  user <-- onErr domainErr (userGetByID uid) ;;
  authUser <-- onErr domainErr (userGetForAuth (uUsername user.2)) ;;
  _ <-- (if negb (uPasswordHash authUser.2 =s "") then
           if cpOldPassword req =s "" then fail (NewBadRequest "oldPassword is required" [])
           else if negb (verifyPasswd (cpOldPassword req) (uPasswordHash authUser.2))
           then fail (NewBadRequest "old password is incorrect" [])
           else ret tt
         else ret tt) ;;
  setUserPasswordAndRevoke uid (cpNewPassword req).

Definition resetPasswordExec (caller : option Z) (ctx : Ctx) (newPassword : string) : M GoErr unit :=
  let uid := Serve.cID ctx in
  _ <-- passwordValidateRequest newPassword ;;
  if bool_decide (caller = Some uid)
  then fail (NewBadRequest "cannot reset your own password; use change-password instead" [])
  else
    _ <-- onErr domainErr (userGetByID uid) ;;
    setUserPasswordAndRevoke uid newPassword.

(** ** The seed administrator *)

Record AdminConfig := mkAdmin {
  acUsername : string; acEmail : string; acDisplayName : string; acPhone : string;
  acPassword : string
}.

(** Any successful lookup ends it; any failed one goes on to create. *)
Definition SeedAdmin (cfg : AdminConfig) : M GoErr unit :=
  r <-- attempt (userGetByUsername (acUsername cfg)) ;;
  match r with
  | Ok _ => ret tt
  | Err _ =>
      match hashPasswd (acPassword cfg) with
      | None => fail (Wrapped None None)
      | Some hash =>
          user <-- userCreate (mkUserCreate (acUsername cfg) (acEmail cfg) (acPhone cfg)
                     (acDisplayName cfg) "" "active") ;;
          _ <-- userSetPasswordHash user.1 hash ;;
          userSetBuiltin user.1 true
      end
  end.
End Users.

End IamUsers.
