(* ===== verification/IamSystem.v ===== *)
(** * The IAM operations as one system

    Every operation of the IAM modules (the REST handlers, registration,
    social login, seeding, permission sync, ownership transfer) as a
    constructor of [Op], and what every sequence of them keeps, whatever
    requests arrive and whatever connections fail: the tenancy invariant,
    the built-in roles of each tenant and the owners' bindings. *)

From S2P Require Import Prelude Rbac ApiRoutes ApiServe IamDb IamStore IamValidation IamLogic IamTenancy IamIntegrity IamRoles IamTenants IamUsers.

Module IamSystem.
Import Rbac IamDb IamStore IamValidation IamLogic IamTenancy IamIntegrity IamRoles IamTenants IamUsers.

(** ** Handlers that act on what they read *)

Section Handlers.
Context (strict : bool).

Lemma ev_roleGetByID φ id :
  ev φ (Step strict) (roleGetByID id) (fun r c => φ c /\ roles (cd c) !! id = Some (rrRow r)).
Proof.
  unfold roleGetByID. eapply ev_bind; [apply ev_onErr, ev_Q, sev_query|]. intros [id' row].
  eapply ev_bind; [apply ev_onErr, ev_read, _|]. intros rs. apply ev_ret. intros c [Hc H%one_ok]. cbn.
  split; [done|]. by destruct (roles (cd c) !! id); cbn in *; simplify_eq.
Qed.

Lemma editable_read id x c : roles (cd c) !! id = Some x -> rBuiltin x = false -> editable id c.
Proof. intros E Hb y Ey. unfold tenantBuiltin. replace y with x by congruence. by rewrite Hb. Qed.

Lemma ev_finishRole id ps : ev (editable id) (Step strict) (finishRole id ps) anyOf.
Proof.
  unfold finishRole. eapply ev_bind with (ψ := anyOf); [|intros; ev_auto].
  case_bool_decide; [by apply ev_ret | apply ev_onErr, ev_SetPermissionRules].
Qed.

Lemma ev_roleCreate n dn de sc ws ns :
  (sc = ScopeNamespace -> ws = None) ->
  ev any (Step strict) (roleCreate (mkRoleCreate n dn de sc ws ns false)) (fun a => editable a.1).
Proof.
  intros H. unfold roleCreate. apply ev_onErr, ev_Q. eapply sev_weaken; [| |by apply step_CreateRole]; [done|].
  intros a c Ha. by apply Ha.
Qed.

Lemma ev_role_create ctx spec : ev any (Step strict) (role_create ctx spec) anyOf.
Proof.
  unfold role_create. apply any_bind; [ev_auto|]. intros u. apply any_bind; [ev_auto|]. intros u'.
  destruct (DryRun ctx); [ev_auto|]. eapply ev_bind; [apply ev_onErr; by apply ev_roleCreate|].
  intros [id r]. apply ev_finishRole.
Qed.

Lemma ev_scopedRole_create scope ctx spec : ev any (Step strict) (scopedRole_create scope ctx spec) anyOf.
Proof.
  unfold scopedRole_create. apply any_bind; [ev_auto|]. intros u. apply any_bind; [ev_auto|]. intros u'.
  destruct (DryRun ctx); [ev_auto|]. eapply ev_bind; [apply ev_onErr, ev_roleCreate|].
  - intros ->. done.
  - intros [id r]. apply ev_finishRole.
Qed.

(** Once the role is known not to be built in. *)
Lemma ev_saveRole id dn de ps :
  ev (editable id) (Step strict)
     (_ <-- onErr domainErr (roleUpdate id dn de) ;; finishRole id ps) anyOf.
Proof.
  eapply ev_bind; [apply ev_onErr, ev_onErr, ev_Q, step_UpdateRole|]. intros u. apply ev_finishRole.
Qed.

Lemma ev_keep {E A} φ (m : M E A) :
  (forall s, core (m s).2 = core s) -> ev φ (Step strict) m (fun _ => φ).
Proof. intros H s Hs. rewrite H. split; [apply ev_refl | done]. Qed.

Lemma core_require errs s : core (require errs s).2 = core s.
Proof. unfold require. by destruct (HasErrors errs). Qed.

Lemma ev_checkRuleScopes φ scope ps : ev φ (Step strict) (checkRuleScopes scope ps) (fun _ => φ).
Proof.
  unfold checkRuleScopes. eapply ev_bind; [apply ev_onErr, ev_onErr, ev_read, _|].
  intros l. apply ev_keep, core_require.
Qed.

Lemma ev_role_update ctx id spec : ev any (Step strict) (role_update ctx id spec) anyOf.
Proof.
  unfold role_update. eapply ev_bind; [apply ev_onErr, (ev_roleGetByID any)|]. intros r.
  apply ev_if; [intros _; apply ev_fail | intros _]. apply ev_if; [intros _; apply ev_fail | intros Hb].
  apply ev_weaken with (φ := editable id) (ψ := anyOf); [|done|].
  { intros c [_ Hr]. exact (editable_read _ _ _ Hr Hb). }
  eapply ev_bind; [apply ev_keep, core_require|]. intros u.
  eapply ev_bind; [apply ev_checkRuleScopes|]. intros u'.
  destruct (DryRun ctx); [by apply ev_ret | apply ev_saveRole].
Qed.

Lemma core_verify scope r i o s : core (verifyScopeOwnership scope r i o s).2 = core s.
Proof. unfold verifyScopeOwnership. by repeat case_match. Qed.

Lemma ev_scopedRole_update scope ctx id spec : ev any (Step strict) (scopedRole_update scope ctx id spec) anyOf.
Proof.
  unfold scopedRole_update. eapply ev_bind; [apply ev_onErr, (ev_roleGetByID any)|]. intros r.
  apply ev_if; [intros _; apply ev_fail | intros Hb].
  apply ev_weaken with (φ := editable id) (ψ := anyOf); [|done|].
  { intros c [_ Hr]. exact (editable_read _ _ _ Hr Hb). }
  eapply ev_bind; [apply ev_keep, core_verify|]. intros u0.
  eapply ev_bind; [apply ev_keep, core_require|]. intros u.
  eapply ev_bind; [apply ev_checkRuleScopes|]. intros u'.
  destruct (DryRun ctx); [by apply ev_ret | apply ev_saveRole].
Qed.

(** A role without bindings at its own scope has no owner holding it. *)
Lemma deletable_read id x scope c :
  roles (cd c) !! id = Some x -> rBuiltin x = false -> rScope x = scope ->
  countRows (fun _ b => (bRoleID b =? id) && (bScope b =s scope)) (bindings (cd c)) <= 0 ->
  Inv c -> deletable id c.
Proof.
  intros E Hb Hs Hcount I. split; [by eapply editable_read|]. intros b y Eb Ho <-.
  destruct (i_bindings _ I b y Eb) as [_ Hok]. destruct (bo_owner _ _ Hok Ho) as (r & Hr & Hown).
  assert (bScope y = scope) as Hy.
  { replace r with x in Hown by congruence. unfold ownRole in Hown. naive_solver congruence. }
  assert (0 < countRows (fun _ b' => (bRoleID b' =? bRoleID y) && (bScope b' =s scope)) (bindings (cd c))).
  { apply countRows_pos. exists b, y. split; [done|]. by rewrite Z.eqb_refl, Hy, String.eqb_refl. }
  lia.
Qed.

Lemma ev_CountByRoleAndScope φ id scope :
  ev φ (Step strict) (CountByRoleAndScope id scope) (fun n c => φ c /\
    countRows (fun _ b => (bRoleID b =? id) && (bScope b =s scope)) (bindings (cd c)) = n).
Proof.
  unfold CountByRoleAndScope. apply ev_onErr, ev_Q. eapply sev_weaken; [| |apply sev_query]; [done|].
  intros n c [? [= H]]. done.
Qed.

Definition mayDelete (id : Z) : Guard := fun c => Inv c -> deletable id c.

Lemma ev_roleDelete id : ev (mayDelete id) (Step strict) (roleDelete id) anyOf.
Proof.
  unfold roleDelete. eapply ev_bind; [apply ev_onErr, ev_Q, step_DeleteRole|]. intros n. ev_auto.
Qed.

Lemma ev_countThenDelete ctx id scope r :
  rBuiltin r = false -> rScope r = scope ->
  ev (fun c => any c /\ roles (cd c) !! id = Some r) (Step strict)
    (count <-- onErr domainErr (CountByRoleAndScope id scope) ;;
     if 0 <? count then fail (NewBadRequest "cannot delete role with active bindings" [])
     else if DryRun ctx then ret tt else roleDelete id) anyOf.
Proof.
  intros Hb Hs. eapply ev_bind; [apply ev_onErr, ev_CountByRoleAndScope|]. intros n.
  apply ev_if; [intros _; apply ev_fail | intros Hn%Z.ltb_ge]. destruct (DryRun ctx); [by apply ev_ret|].
  eapply ev_weaken; [| |apply ev_roleDelete]; [|done]. intros c [[_ Hr] Hc] I.
  eapply deletable_read; try done. lia.
Qed.

Lemma ev_role_delete ctx id : ev any (Step strict) (role_delete ctx id) anyOf.
Proof.
  unfold role_delete. eapply ev_bind; [apply ev_onErr, (ev_roleGetByID any)|]. intros r.
  apply ev_if; [intros _; apply ev_fail | intros Hs]. apply ev_if; [intros _; apply ev_fail | intros Hb].
  apply ev_countThenDelete; [done|]. by apply negb_false_iff, String.eqb_eq in Hs.
Qed.

Lemma ev_verified φ scope r i o :
  ev φ (Step strict) (verifyScopeOwnership scope r i o)
    (fun _ c => φ c /\ rScope (rrRow r) = scope /\ ownedBy scope (rrRow r) o = true).
Proof.
  unfold verifyScopeOwnership. apply ev_if; [intros _; apply ev_fail | intros Hs].
  apply ev_if; [intros _; apply ev_fail | intros Ho]. apply ev_ret. intros c Hc.
  apply negb_false_iff, String.eqb_eq in Hs. by apply negb_false_iff in Ho.
Qed.

Lemma ev_scopedRole_delete scope ctx id : ev any (Step strict) (scopedRole_delete scope ctx id) anyOf.
Proof.
  unfold scopedRole_delete. eapply ev_bind; [apply ev_onErr, (ev_roleGetByID any)|]. intros r.
  apply ev_if; [intros _; apply ev_fail | intros Hb].
  eapply ev_bind; [apply ev_verified|]. intros u. apply ev_at. intros c (Hc & Hs & _).
  eapply ev_weaken; [| |by apply (ev_countThenDelete ctx id scope (rrRow r))]; [|done].
  by intros c' <-.
Qed.

(** *** Batch deletes *)

Lemma ev_attempt_eq {E E' A} (m : M E A) (ψ : A -> Guard) (χ : result E A -> Guard) :
  ev any (Step strict) m ψ -> (forall a c, ψ a c -> χ (Ok a) c) -> (forall e c, χ (Err e) c) ->
  ev any (Step strict) (attempt (E' := E') m) χ.
Proof.
  intros H H1 H2. eapply ev_weaken; [| |apply ev_attempt, H]; [done|]. intros [a|e] c Hc; auto.
Qed.

Lemma ev_eligible_tail id scope x :
  rBuiltin x = false -> rScope x = scope ->
  ev (fun c => any c /\ roles (cd c) !! id = Some x) (Step strict)
    (c <-- attempt (CountByRoleAndScope id scope) ;;
     ret (E := GoErr) (match c with Ok count => negb (0 <? count) | Err _ => false end))
    (fun ok c => ok = true -> mayDelete id c).
Proof.
  intros Hb Hs. eapply ev_bind; [apply ev_attempt, ev_CountByRoleAndScope|].
  intros [n|e]; apply ev_ret; [|done]. intros c [[_ Hr] Hc] Hn I.
  apply negb_true_iff, Z.ltb_ge in Hn. eapply deletable_read; try done. lia.
Qed.

Lemma ev_platformEligible id :
  ev any (Step strict) (platformEligible id) (fun ok c => ok = true -> mayDelete id c).
Proof.
  unfold platformEligible. eapply ev_bind; [apply ev_attempt, (ev_roleGetByID any)|].
  intros [r|e]; [|by apply ev_ret]. apply ev_if; [by intros; apply ev_ret|].
  intros [Hs%negb_false_iff%String.eqb_eq Hb]%orb_false_iff. by apply (ev_eligible_tail id ScopePlatform (rrRow r)).
Qed.

Lemma ev_scopedEligible scope owner id :
  ev any (Step strict) (deleteCollectionEligible scope owner id) (fun ok c => ok = true -> mayDelete id c).
Proof.
  unfold deleteCollectionEligible. eapply ev_bind; [apply ev_attempt, (ev_roleGetByID any)|].
  intros [r|e]; [|by apply ev_ret]. apply ev_if; [by intros; apply ev_ret|].
  intros [Hs%negb_false_iff%String.eqb_eq Hb]%orb_false_iff.
  apply ev_if; [by intros; apply ev_ret|]. intros _. by apply (ev_eligible_tail id scope (rrRow r)).
Qed.

Lemma ev_deleteEach eligible dry ids :
  (forall id, ev any (Step strict) (eligible id) (fun ok c => ok = true -> mayDelete id c)) ->
  forall n, ev any (Step strict) (deleteEach eligible dry ids n) anyOf.
Proof.
  intros Hel. induction ids as [|id ids IH]; intros n; cbn [deleteEach]; [by apply ev_ret|].
  eapply ev_bind; [apply Hel|]. intros [|]; cbn [negb].
  - destruct dry; [eapply ev_weaken; [| |apply IH]; done|].
    eapply ev_bind with (ψ := anyOf); [|intros; apply IH].
    eapply ev_weaken; [| |apply ev_attempt, (ev_roleDelete id)]; [|done]. intros c H. by apply H.
  - eapply ev_weaken; [| |apply IH]; done.
Qed.

Lemma ev_role_batchDelete ctx ids : ev any (Step strict) (role_batchDelete ctx ids) anyOf.
Proof.
  apply any_bind; [|intros; ev_auto]. apply ev_deleteEach. intros id. apply ev_platformEligible.
Qed.

Lemma ev_scopedRole_batchDelete scope ctx ids :
  ev any (Step strict) (scopedRole_batchDelete scope ctx ids) anyOf.
Proof.
  apply any_bind; [|intros; ev_auto]. apply ev_deleteEach. intros id. apply ev_scopedEligible.
Qed.

(** *** Role bindings *)

Lemma bindInputs_spec ids role scope ws ns : forall l,
  bindInputs ids role scope ws ns = Ok l ->
  exists us, Forall2 (fun raw u => parseID raw = Some u) ids us /\
    l = (fun u => mkBindingInput u role scope ws ns) <$> us.
Proof.
  induction ids as [|raw rest IH]; intros l H; cbn in H; [simplify_eq; by exists []|].
  destruct (parseID raw) as [u|] eqn:E; [|done]. apply rbind_ok in H as (l' & H & [= <-]).
  destruct (IH l' H) as (us & HF & ->). exists (u :: us). split; [by constructor | done].
Qed.

Definition placedIn (ws ns : option Z) : Guard := fun c =>
  forall n, ns = Some n -> parent (cd c) !! n = ws.

Lemma ev_batchBindRole ctx req scope ws ns check :
  ev (placedIn ws ns) (Step strict) (batchBindRole ctx req scope ws ns check) anyOf.
Proof.
  unfold batchBindRole. case_bool_decide; [apply ev_fail|]. destruct (brRoleID req =s ""); [apply ev_fail|].
  destruct (parseID (brRoleID req)) as [role|]; [|apply ev_fail].
  eapply ev_bind; [apply ev_onErr, ev_roleGetByID|]. intros r.
  eapply ev_bind; [apply ev_lift|]. intros u. eapply ev_bind; [apply ev_lift|]. intros inputs.
  apply ev_at. intros c [[[Hp _] _] Hin]. destruct (DryRun ctx); [by apply ev_ret|].
  eapply ev_bind with (ψ := anyOf); [|intros; by apply ev_ret].
  eapply ev_weaken; [| |apply ev_onErr, ev_CreateMany]; [|done]. intros c' <- i Hi n Hn.
  destruct (bindInputs_spec _ _ _ _ _ _ Hin) as (us & _ & ->).
  apply list_elem_of_fmap in Hi as (u' & -> & _). by apply Hp.
Qed.

Lemma ev_roleBinding_create ctx req : ev any (Step strict) (roleBinding_create ctx req) anyOf.
Proof. eapply ev_weaken; [| |apply ev_batchBindRole]; [|done]. by intros c _ n. Qed.

Lemma ev_workspaceRoleBinding_create ctx req :
  ev any (Step strict) (workspaceRoleBinding_create ctx req) anyOf.
Proof. eapply ev_weaken; [| |apply ev_batchBindRole]; [|done]. by intros c _ n. Qed.

Lemma ev_namespaceGetByID id :
  ev any (Step strict) (namespaceGetByID id) (fun nd c => namespaces (cd c) !! id = Some (ndRow nd)).
Proof.
  unfold namespaceGetByID. apply ev_onErr, ev_Q. eapply sev_weaken; [| |apply sev_query]; [done|].
  intros nd c [_ H%one_ok]. destruct (namespaces (cd c) !! id) as [n|]; [|done]. cbn in H.
  destruct (users (cd c) !! nsOwnerID n); [|done]. cbn in H.
  destruct (workspaces (cd c) !! nsWorkspaceID n); [|done]. cbn in H. by simplify_eq.
Qed.

Lemma ev_namespaceRoleBinding_create ctx req :
  ev any (Step strict) (namespaceRoleBinding_create ctx req) anyOf.
Proof.
  eapply ev_bind; [apply ev_onErr, ev_namespaceGetByID|]. intros nd.
  eapply ev_weaken; [| |apply ev_batchBindRole]; [|done]. intros c H n [= <-].
  by rewrite parent_lookup, H.
Qed.

Definition notOwner (id : Z) : Guard := fun c =>
  forall x, bindings (cd c) !! id = Some x -> bIsOwner x = false.

Lemma ev_bindingGetByID id :
  ev any (Step strict) (bindingGetByID id) (fun r c => bindings (cd c) !! id = Some r.2).
Proof.
  unfold bindingGetByID. apply ev_onErr, ev_Q. eapply sev_weaken; [| |apply sev_query]; [done|].
  intros [i b] c [_ H%one_ok]. by destruct (bindings (cd c) !! id); cbn in H; simplify_eq/=.
Qed.

Lemma ev_bindingDelete id : ev (notOwner id) (Step strict) (bindingDelete id) anyOf.
Proof.
  unfold bindingDelete. eapply ev_bind; [apply ev_onErr, ev_read, _|]. intros [i rb].
  eapply ev_bind; [apply ev_onErr, ev_Q, step_DeleteRoleBinding|]. intros n. ev_auto.
Qed.

Lemma ev_deleteRoleBinding ctx id : ev any (Step strict) (deleteRoleBinding ctx id) anyOf.
Proof.
  unfold deleteRoleBinding. eapply ev_bind; [apply ev_onErr, ev_bindingGetByID|]. intros [i b]. cbn.
  apply ev_if; [intros _; apply ev_fail | intros Hb]. destruct (DryRun ctx); [by apply ev_ret|].
  eapply ev_weaken; [| |apply ev_bindingDelete]; [|done]. intros c H x Hx. congruence.
Qed.

Lemma ev_notifyUnique rows : forall seen, ev any (Step strict) (notifyUnique rows seen) anyOf.
Proof. induction rows as [|[i u] rows IH]; intros seen; cbn [notifyUnique]; ev_auto. Qed.

#[local] Hint Resolve ev_notifyUnique : iam_step.

Lemma ev_deleteRoleBindingsCollection ctx ids :
  ev any (Step strict) (deleteRoleBindingsCollection ctx ids) anyOf.
Proof. ev_auto. Qed.

(** *** Members *)

Lemma ev_batchAddUsers ids f : (forall u, ev any (Step strict) (f u) anyOf) ->
  forall n, ev any (Step strict) (batchAddUsers ids f n) anyOf.
Proof.
  intros Hf. induction ids as [|raw rest IH]; intros n; cbn [batchAddUsers]; ev_auto.
Qed.

Lemma ev_batchRemoveUsers ids f : (forall u, ev any (Step strict) (f u) anyOf) ->
  forall n l, ev any (Step strict) (batchRemoveUsers ids f n l) anyOf.
Proof.
  intros Hf. induction ids as [|u rest IH]; intros n l; cbn [batchRemoveUsers]; ev_auto.
Qed.

Lemma ev_workspaceUser_create ctx req : ev any (Step strict) (workspaceUser_create ctx req) anyOf.
Proof.
  unfold workspaceUser_create. apply any_bind; [ev_auto|]. intros r. apply any_bind; [|intros; ev_auto].
  apply ev_onErr, ev_batchAddUsers. intros u. apply ev_AddWorkspaceMember.
Qed.

Lemma ev_namespaceUser_create ctx req : ev any (Step strict) (namespaceUser_create ctx req) anyOf.
Proof.
  unfold namespaceUser_create. apply any_bind; [ev_auto|]. intros nd. apply any_bind; [ev_auto|]. intros u.
  apply any_bind; [ev_auto|]. intros r. apply any_bind; [|intros; ev_auto].
  apply ev_onErr, ev_batchAddUsers. intros u'. apply ev_AddNamespaceMember.
Qed.

Lemma ev_workspaceUser_batchDelete ctx ids : ev any (Step strict) (workspaceUser_batchDelete ctx ids) anyOf.
Proof.
  unfold workspaceUser_batchDelete. apply any_bind; [|intros; ev_auto].
  apply ev_batchRemoveUsers. intros u. ev_auto.
Qed.

Lemma ev_namespaceUser_batchDelete ctx ids : ev any (Step strict) (namespaceUser_batchDelete ctx ids) anyOf.
Proof.
  unfold namespaceUser_batchDelete. apply any_bind; [|intros; ev_auto].
  apply ev_batchRemoveUsers. intros u. ev_auto.
Qed.
End Handlers.

#[local] Hint Resolve ev_role_create ev_scopedRole_create ev_role_update ev_scopedRole_update
  ev_role_delete ev_scopedRole_delete ev_role_batchDelete ev_scopedRole_batchDelete
  ev_roleBinding_create ev_workspaceRoleBinding_create ev_namespaceRoleBinding_create
  ev_deleteRoleBinding ev_deleteRoleBindingsCollection ev_workspaceUser_create
  ev_namespaceUser_create ev_workspaceUser_batchDelete ev_namespaceUser_batchDelete : iam_step.

(** ** The operations *)

Section System.
(** net/mail's address parser, bcrypt. *)
Context (validAddress : string -> bool).
Context (hashPasswd : string -> option string).
Context (verifyPasswd : string -> string -> bool).

Inductive Op :=
| RoleCreate (ctx : Ctx) (spec : RoleSpec)
| RoleUpdate (ctx : Ctx) (id : Z) (spec : RoleSpec)
| RoleDelete (ctx : Ctx) (id : Z)
| RoleBatchDelete (ctx : Ctx) (ids : list Z)
| ScopedRoleCreate (inWorkspaces : bool) (ctx : Ctx) (spec : RoleSpec)
| ScopedRoleUpdate (inWorkspaces : bool) (ctx : Ctx) (id : Z) (spec : RoleSpec)
| ScopedRoleDelete (inWorkspaces : bool) (ctx : Ctx) (id : Z)
| ScopedRoleBatchDelete (inWorkspaces : bool) (ctx : Ctx) (ids : list Z)
| RoleBindingCreate (ctx : Ctx) (req : BatchRequest)
| WorkspaceRoleBindingCreate (ctx : Ctx) (req : BatchRequest)
| NamespaceRoleBindingCreate (ctx : Ctx) (req : BatchRequest)
| RoleBindingDelete (ctx : Ctx) (id : Z)
| RoleBindingBatchDelete (ctx : Ctx) (ids : list Z)
| WorkspaceCreate (caller : option Z) (ctx : Ctx) (name : string) (spec : WorkspaceSpec)
| WorkspaceUpdate (ctx : Ctx) (id : Z) (name : string) (spec : WorkspaceSpec)
| WorkspacePatch (ctx : Ctx) (id : Z) (name : string) (spec : WorkspaceSpec)
| WorkspaceDelete (ctx : Ctx) (id : Z)
| WorkspaceBatchDelete (ctx : Ctx) (ids : list Z)
| NamespaceCreate (caller : option Z) (ctx : Ctx) (name : string) (spec : NamespaceSpec)
| NamespaceUpdate (ctx : Ctx) (id : Z) (name : string) (spec : NamespaceSpec)
| NamespacePatch (ctx : Ctx) (id : Z) (name : string) (spec : NamespaceSpec)
| NamespaceDelete (ctx : Ctx) (id : Z)
| NamespaceBatchDelete (ctx : Ctx) (ids : list Z)
| WorkspaceUserCreate (ctx : Ctx) (req : BatchRequest)
| WorkspaceUserBatchDelete (ctx : Ctx) (ids : list Z)
| NamespaceUserCreate (ctx : Ctx) (req : BatchRequest)
| NamespaceUserBatchDelete (ctx : Ctx) (ids : list Z)
| UserCreate (ctx : Ctx) (spec : UserSpec)
| UserUpdate (ctx : Ctx) (id : Z) (spec : UserSpec)
| UserPatch (ctx : Ctx) (id : Z) (spec : UserSpec)
| UserDelete (ctx : Ctx) (id : Z)
| UserBatchDelete (ctx : Ctx) (ids : list Z)
| ChangePassword (ctx : Ctx) (req : ChangePasswordRequest)
| ResetPassword (caller : option Z) (ctx : Ctx) (newPassword : string)
| Register (i : RegisterLocalInput)
| SocialLogin (i : SocialLoginInput)
| SeedUser (cfg : AdminConfig)
| SeedRoles (admin : string)
| SyncPermissions (prefix : string) (perms : list PermissionUpsertInput)
| Transfer (scope : string) (resource caller : Z) (platformAdmin : bool) (newOwner : Z) (adminRole : string).

Definition levelScope (inWorkspaces : bool) : string :=
  if inWorkspaces then ScopeWorkspace else ScopeNamespace.

Definition discard {A} (m : M GoErr A) : M GoErr unit := _ <-- m ;; ret tt.

Definition runOp (o : Op) : M GoErr unit :=
  match o with
  | RoleCreate ctx spec => discard (role_create ctx spec)
  | RoleUpdate ctx id spec => discard (role_update ctx id spec)
  | RoleDelete ctx id => role_delete ctx id
  | RoleBatchDelete ctx ids => discard (role_batchDelete ctx ids)
  | ScopedRoleCreate w ctx spec => discard (scopedRole_create (levelScope w) ctx spec)
  | ScopedRoleUpdate w ctx id spec => discard (scopedRole_update (levelScope w) ctx id spec)
  | ScopedRoleDelete w ctx id => scopedRole_delete (levelScope w) ctx id
  | ScopedRoleBatchDelete w ctx ids => discard (scopedRole_batchDelete (levelScope w) ctx ids)
  | RoleBindingCreate ctx req => discard (roleBinding_create ctx req)
  | WorkspaceRoleBindingCreate ctx req => discard (workspaceRoleBinding_create ctx req)
  | NamespaceRoleBindingCreate ctx req => discard (namespaceRoleBinding_create ctx req)
  | RoleBindingDelete ctx id => deleteRoleBinding ctx id
  | RoleBindingBatchDelete ctx ids => discard (deleteRoleBindingsCollection ctx ids)
  | WorkspaceCreate caller ctx name spec => discard (workspace_create caller ctx name spec)
  | WorkspaceUpdate ctx id name spec => discard (workspace_update ctx id name spec)
  | WorkspacePatch ctx id name spec => discard (workspace_patch ctx id name spec)
  | WorkspaceDelete ctx id => workspace_delete ctx id
  | WorkspaceBatchDelete ctx ids => discard (workspace_batchDelete ctx ids)
  | NamespaceCreate caller ctx name spec => discard (namespace_create caller ctx name spec)
  | NamespaceUpdate ctx id name spec => discard (namespace_update ctx id name spec)
  | NamespacePatch ctx id name spec => discard (namespace_patch ctx id name spec)
  | NamespaceDelete ctx id => namespace_delete ctx id
  | NamespaceBatchDelete ctx ids => discard (namespace_batchDelete ctx ids)
  | WorkspaceUserCreate ctx req => discard (workspaceUser_create ctx req)
  | WorkspaceUserBatchDelete ctx ids => discard (workspaceUser_batchDelete ctx ids)
  | NamespaceUserCreate ctx req => discard (namespaceUser_create ctx req)
  | NamespaceUserBatchDelete ctx ids => discard (namespaceUser_batchDelete ctx ids)
  | UserCreate ctx spec => discard (user_create validAddress hashPasswd ctx spec)
  | UserUpdate ctx id spec => discard (user_update validAddress ctx id spec)
  | UserPatch ctx id spec => discard (user_patch ctx id spec)
  | UserDelete ctx id => user_delete ctx id
  | UserBatchDelete ctx ids => discard (user_batchDelete ctx ids)
  | ChangePassword ctx req => changePasswordExec hashPasswd verifyPasswd ctx req
  | ResetPassword caller ctx newPassword => resetPasswordExec hashPasswd caller ctx newPassword
  | Register i => discard (RegisterLocal i)
  | SocialLogin i => discard (FindOrCreateSocial i)
  | SeedUser cfg => SeedAdmin hashPasswd cfg
  | SeedRoles admin => SeedRBAC PlatformBuiltinRoles admin
  | SyncPermissions prefix perms => SyncModule prefix perms
  | Transfer scope resource caller platformAdmin newOwner adminRole =>
      discard (TransferOwnership scope resource caller platformAdmin newOwner adminRole)
  end.

(** Ownership transfer is the only operation that moves owner bindings. *)
Definition transfers (o : Op) : bool :=
  match o with Transfer _ _ _ _ _ _ => true | _ => false end.

Lemma runOp_step o strict : (strict = true -> transfers o = false) -> ev any (Step strict) (runOp o) anyOf.
Proof.
  intros Hs. destruct o; unfold runOp; try ev_auto.
  destruct strict; [by specialize (Hs eq_refl)|]. ev_auto.
Qed.

(** A history: requests one after the other, failed ones included. *)
Definition runOps (ops : list Op) : M GoErr unit :=
  forEach (fun o => _ <-- attempt (runOp o) ;; ret tt) ops.

(** The migrated, empty database; [faults] says which statements fail. *)
Definition boot (faults : list Fault) : Sys := mkSys emptyDB (fun _ => 0) faults None [] ∅.

Definition after (faults : list Fault) (ops : list Op) : Sys := (runOps ops (boot faults)).2.

Lemma runOps_step ops : ev any (Step false) (runOps ops) anyOf.
Proof.
  apply any_forEach. intros o. apply any_bind; [|intros; ev_auto]. apply any_attempt. by apply runOp_step.
Qed.

Lemma Inv_boot faults : Inv (core (boot faults)).
Proof.
  split; cbn; try done; intros u H; by rewrite dom_empty in H.
Qed.

Lemma Inv_after faults ops : Inv (core (after faults ops)).
Proof.
  destruct (runOps_step ops (boot faults) I) as [HS _].
  eapply Step_Inv; [apply (Inv_boot faults) | exact HS].
Qed.

(** C9: Tenancy. After any sequence of IAM operations on a fresh database,
    whatever requests they carry and whichever statements, BEGINs and
    COMMITs fail: every row refers to rows that exist, a binding in a
    namespace names that namespace's workspace, a tenant has at most one
    owner binding, which grants a role of that tenant, and every workspace
    and namespace has all its built-in roles with exactly their rules. *)
Theorem tenancy_invariant (faults : list Fault) (ops : list Op) :
  let s := after faults ops in
  Inv (core s)
  /\ (forall w, w ∈ dom (workspaces (sdb s)) -> wsComplete (sdb s) w)
  /\ (forall n, n ∈ dom (namespaces (sdb s)) -> nsComplete (sdb s) n).
Proof.
  intros s. split; [apply Inv_after|]. destruct (runOps_step ops (boot faults) I) as [[_ HN] _].
  destruct (HN (Inv_boot faults)) as [HW HNs]. split.
  - intros w Hw. destruct (HW w Hw) as [H|H]; [by cbn in H; rewrite dom_empty in H | exact H].
  - intros n Hn. rewrite <- dom_parent in Hn. destruct (HNs n Hn) as [H|H]; [|exact H].
    rewrite dom_parent in H. by cbn in H; rewrite dom_empty in H.
Qed.

Lemma after_step faults ops o strict :
  (strict = true -> transfers o = false) ->
  Keeps strict (core (after faults ops)) (core (runOp o (after faults ops)).2).
Proof.
  intros Ho. destruct (runOp_step o strict Ho (after faults ops) I) as [[[_ HK] _] _].
  apply HK, Inv_after.
Qed.

(** C21: Built-in roles are immutable. No operation, failing or not, removes
    or edits a built-in role of a workspace or namespace that survives the
    operation, or adds or removes a rule of it. *)
Theorem builtin_roles_survive (faults : list Fault) (ops : list Op) (o : Op) (r : Z) (x : Role) :
  let s := after faults ops in
  let s' := (runOp o s).2 in
  roles (sdb s) !! r = Some x -> tenantBuiltin x = true ->
  alive (sdb s') (rWorkspaceID x) (rNamespaceID x) ->
  roles (sdb s') !! r = Some x /\ forall p, (r, p) ∈ rules (sdb s') <-> (r, p) ∈ rules (sdb s).
Proof.
  intros s s' Hr Hb Ha. exact (k_builtin _ _ _ (after_step faults ops o false ltac:(done)) r x Hr Hb Ha).
Qed.

(** C22: Owners keep their tenants. No operation but an ownership transfer
    removes or alters an owner binding while its user and its tenant
    survive the operation. *)
Theorem owner_bindings_survive (faults : list Fault) (ops : list Op) (o : Op) (b : Z) (x : Binding) :
  let s := after faults ops in
  let s' := (runOp o s).2 in
  transfers o = false -> bindings (sdb s) !! b = Some x -> bIsOwner x = true ->
  bUserID x ∈ dom (users (sdb s')) -> alive (sdb s') (bWorkspaceID x) (bNamespaceID x) ->
  bindings (sdb s') !! b = Some x.
Proof.
  intros s s' Ho Hb Hx Hu Ha.
  exact (k_owner _ _ _ (after_step faults ops o true (fun _ => Ho)) eq_refl b x Hb Hx Hu Ha).
Qed.
End System.

(** ** A small deployment *)

Definition ctxAt (scope : Api.ScopeInfo) (id : Z) : Ctx :=
  {| Serve.cUserID := 1; Serve.cUsername := "admin"; Serve.cScope := scope; Serve.cID := id;
     Serve.cName := ""; Serve.cParents := []; Serve.cDryRun := false; Serve.cAccess := None |}.

Definition platform : Api.ScopeInfo :=
  {| Api.Level := Api.ScopePlatform; Api.WorkspaceID := 0; Api.NamespaceID := 0 |}.
Definition inWs (w : Z) : Api.ScopeInfo :=
  {| Api.Level := Api.ScopeWorkspace; Api.WorkspaceID := w; Api.NamespaceID := 0 |}.
Definition inNs (w n : Z) : Api.ScopeInfo :=
  {| Api.Level := Api.ScopeNamespace; Api.WorkspaceID := w; Api.NamespaceID := n |}.

(** An administrator, the built-in roles and a first workspace. *)
Definition setup : list Op :=
  [SeedUser (mkAdmin "admin" "admin@example.com" "" "" "secret");
   SeedRoles "admin";
   WorkspaceCreate (Some 1) (ctxAt platform 0) "acme" (mkWorkspaceSpec "" "" "" "")].

Definition deployed : Sys := after (fun _ => true) Some String.eqb [] setup.

Example deployed_has : dom (workspaces (sdb deployed)) = {[1]} /\ dom (namespaces (sdb deployed)) = {[1]}
  /\ dom (roles (sdb deployed)) = {[1; 2; 3; 4; 5; 6; 7]} /\ dom (bindings (sdb deployed)) = {[1; 2; 3]}.
Proof. by vm_compute. Qed.

(** The workspace's admin role cannot be deleted. *)
Definition adminRole : Role :=
  mkRole RoleWorkspaceAdmin "Workspace Admin" "Full access to all resources within the workspace"
    ScopeWorkspace true (Some 1) None.

Lemma deployed_alive o :
  bool_decide (1 ∈ dom (workspaces (sdb (runOp (fun _ => true) Some String.eqb o deployed).2))) = true ->
  alive (sdb (runOp (fun _ => true) Some String.eqb o deployed).2) (Some 1) None.
Proof. intros H%bool_decide_eq_true. split; [by intros w [= <-] | done]. Qed.

Lemma builtin_roles_survive_witness :
  let o := ScopedRoleBatchDelete true (ctxAt (inWs 1) 0) [3] in
  roles (sdb (runOp (fun _ => true) Some String.eqb o deployed).2) !! 3 = Some adminRole.
Proof.
  intros o.
  refine (proj1 (builtin_roles_survive (fun _ => true) Some String.eqb [] setup o 3 adminRole _ _ _)).
  - by vm_compute.
  - by vm_compute.
  - apply deployed_alive. by vm_compute.
Defined.

Definition ownerRow : Binding := mkBinding 1 3 ScopeWorkspace (Some 1) None true.

Lemma owner_bindings_survive_witness :
  let o := RoleBindingBatchDelete (ctxAt platform 0) [1; 2; 3] in
  bindings (sdb (runOp (fun _ => true) Some String.eqb o deployed).2) !! 2 = Some ownerRow.
Proof.
  intros o.
  refine (owner_bindings_survive (fun _ => true) Some String.eqb [] setup o 2 ownerRow _ _ _ _ _).
  - done.
  - by vm_compute.
  - done.
  - refine (proj1 (bool_decide_eq_true _) _). by vm_compute.
  - apply deployed_alive. by vm_compute.
Defined.

End IamSystem.
