(* ===== verification/IamAccess.v ===== *)
(** * What the IAM operations do to access

    Functional theorems over [IamStore] and the handlers: what a grant adds
    and to whom it is announced, that every change of a user's permission
    rows is published, ownership transfer, the member limit of namespaces,
    and concrete requests that reach across tenants. *)

From S2P Require Import Prelude Rbac ApiRoutes ApiServe IamDb IamStore IamValidation IamLogic IamTenancy IamIntegrity IamRoles IamTenants IamUsers IamSystem.

Module IamAccess.
Import Rbac IamDb IamStore IamValidation IamLogic IamTenancy IamIntegrity IamRoles IamTenants IamUsers IamSystem.

(** ** Runs read backwards *)

Section Runs.
Context {E A B : Type}.

Lemma bind_ok (m : M E A) (f : A -> M E B) s b s' :
  bind m f s = (Ok b, s') <-> exists a s1, m s = (Ok a, s1) /\ f a s1 = (Ok b, s').
Proof.
  unfold bind. destruct (m s) as [[a|e] s1]; split; [eauto | by intros (? & ? & [= <- <-] & ?) | done |].
  by intros (? & ? & [=] & _).
Qed.

Lemma bind_err (m : M E A) (f : A -> M E B) s e s' :
  bind m f s = (Err e, s') <->
  m s = (Err e, s') \/ exists a s1, m s = (Ok a, s1) /\ f a s1 = (Err e, s').
Proof.
  unfold bind. destruct (m s) as [[a|e0] s1]; split.
  - eauto.
  - by intros [[=]|(? & ? & [= <- <-] & ?)].
  - intros [= <- <-]. by left.
  - by intros [[= <- <-]|(? & ? & [=] & _)].
Qed.

Lemma onErr_ok {E'} (f : E -> E') (m : M E A) s a s' :
  onErr f m s = (Ok a, s') <-> m s = (Ok a, s').
Proof. unfold onErr. destruct (m s) as [[|] ?]; split; congruence. Qed.

Lemma onErr_err {E'} (f : E -> E') (m : M E A) s e s' :
  onErr f m s = (Err e, s') <-> exists e0, m s = (Err e0, s') /\ e = f e0.
Proof.
  unfold onErr. destruct (m s) as [[|] ?]; split; try done; [by intros (? & [=] & _) | |].
  - intros [= <- <-]. eauto.
  - by intros (? & [= <- <-] & ->).
Qed.
End Runs.

(** Tables and publications stay. *)
Definition same (s s' : Sys) : Prop := sdb s' = sdb s /\ snotified s' = snotified s.

Lemma same_refl s : same s s.
Proof. done. Qed.

Lemma same_trans s1 s2 s3 : same s1 s2 -> same s2 s3 -> same s1 s3.
Proof. unfold same. intros [] []. split; congruence. Qed.

(** A statement or COMMIT whose answer was lost on the way from [s] to
    [s']: the database has acted, the program cannot know. *)
Definition lost (s s' : Sys) : Prop := exists fs, sfaults s = fs ++ sfaults s' /\ Unanswered ∈ fs.

Lemma lost_after s s1 s' : sfaults s1 `suffix_of` sfaults s -> lost s1 s' -> lost s s'.
Proof. intros [k Hk] (fs & E & H). exists (k ++ fs). rewrite Hk, E, app_assoc, elem_of_app. auto. Qed.

Lemma lost_keep s s1 s' : sfaults s' = sfaults s1 -> lost s s1 -> lost s s'.
Proof. unfold lost. by intros ->. Qed.

Lemma same_popFault s f s1 : popFault s = (f, s1) -> same s s1 /\ sseq s1 = sseq s /\ (f = Unanswered -> lost s s1).
Proof.
  unfold popFault, lost. destruct (sfaults s) as [|f0 fs] eqn:E; intros [= <- <-]; (split_and!; [done..|]); [done|].
  intros ->. exists [Unanswered]. by split; [|left].
Qed.

Lemma Q_ok {A} (st : Stmt A) s a s' :
  Q st s = (Ok a, s') ->
  exists q, st (sseq s) (sdb s) = (Ok (a, sdb s'), q) /\ sseq s' = q /\ snotified s' = snotified s.
Proof.
  unfold Q. case_bool_decide; [done|]. destruct (popFault s) as [f s1] eqn:Hp.
  apply same_popFault in Hp as ([E1 E2] & E3 & _).
  destruct f, (st (sseq s1) (sdb s1)) as [[[a' d]|[]] q] eqn:E; try done.
  intros [= <- <-]. rewrite E3, E1 in E. exists q. by rewrite E.
Qed.

Lemma Q_err {A} (st : Stmt A) s e s' : Q st s = (Err e, s') -> same s s' \/ lost s s'.
Proof.
  unfold Q. case_bool_decide; [intros [= <- <-]; by left|]. destruct (popFault s) as [f s1] eqn:Hp.
  apply same_popFault in Hp as ([E1 E2] & E3 & HL).
  destruct f, (st (sseq s1) (sdb s1)) as [[[a' d]|[]] q]; try done; intros [= <- <-]; try (by left).
  right. eapply lost_keep; [|by apply HL]. done.
Qed.

Lemma Q_query_err {A} (f : DB -> result SqlErr A) s e s' : Q (query f) s = (Err e, s') -> same s s'.
Proof.
  unfold Q, query. case_bool_decide; [by intros [= <- <-]|]. destruct (popFault s) as [fl s1] eqn:Hp.
  apply same_popFault in Hp as ([E1 E2] & _).
  destruct fl, (f (sdb s1)) as [a|[]]; cbn; try done; intros [= <- <-]; by split.
Qed.

Lemma Q_query {A} (f : DB -> result SqlErr A) s a s' :
  Q (query f) s = (Ok a, s') -> f (sdb s) = Ok a /\ same s s'.
Proof.
  intros (q & H & _ & Hn)%Q_ok. unfold query in H. destruct (f (sdb s)); [|done]. cbn in H. simplify_eq.
  by split.
Qed.

(** A transaction that ends in an error did nothing, or has run to its end
    and the answer to its COMMIT was lost. *)
Lemma WithTx_err {A} (fn : M GoErr A) s e s' :
  (forall s0, snotified (fn s0).2 = snotified s0) -> frugal fn -> WithTx fn s = (Err e, s') ->
  same s s' \/ (lost s s' /\ exists a s1 s2, same s s1 /\ sseq s1 = sseq s /\ fn s1 = (Ok a, s2) /\ same s2 s').
Proof.
  intros Hfn Hfr. unfold WithTx. pose proof (suffix_popFault s) as Hf1. destruct (popFault s) as [f s1] eqn:Hp.
  apply same_popFault in Hp as ([E1 E2] & E3 & _). destruct f; [|intros [= <- <-]; by left..].
  specialize (Hfn (setTx (Some false) s1)). specialize (Hfr (setTx (Some false) s1)). cbn in Hfn, Hfr, Hf1.
  destruct (fn (setTx (Some false) s1)) as [[a|e0] s2] eqn:Efn; cbn in Hfn, Hfr.
  - case_bool_decide; [intros [= <- <-]; left; split; cbn; congruence|].
    destruct (popFault s2) as [f' s3] eqn:Hp2. apply same_popFault in Hp2 as ([E4 E5] & _ & HL).
    destruct f'; [done | intros [= <- <-]; left; split; cbn; congruence|]. intros [= _ <-]. right. split.
    + apply (lost_after s s2); [by etrans|]. eapply lost_keep; [|by apply HL]. done.
    + exists a, (setTx (Some false) s1), s2. by repeat split.
  - intros [= <- <-]. left. split; cbn; congruence.
Qed.

Lemma WithTx_ok {A} (fn : M GoErr A) s a s' :
  WithTx fn s = (Ok a, s') ->
  exists s1 s2, same s s1 /\ sseq s1 = sseq s /\ fn s1 = (Ok a, s2) /\ same s2 s' /\ sseq s' = sseq s2.
Proof.
  unfold WithTx. destruct (popFault s) as [f s1] eqn:Hp. apply same_popFault in Hp as ([E1 E2] & E3 & _).
  destruct f; [|done..]. destruct (fn (setTx (Some false) s1)) as [[a0|e0] s2] eqn:Hf; [|done].
  case_bool_decide; [done|]. destruct (popFault s2) as [f' s3] eqn:Hp2.
  apply same_popFault in Hp2 as ([E4 E5] & E6 & _). destruct f'; [|done..]. intros [= <- <-].
  exists (setTx (Some false) s1), s2. by repeat split.
Qed.

(** Programs that only read, by the walk of [ev_auto]. *)
Definition Same : Trans := fun c c' => seqLe (cq c) (cq c') /\ cd c' = cd c /\ cn c' = cn c.

#[export] Instance Same_Evolution : Evolution Same.
Proof.
  split; unfold Same; cbn; try done.
  - intros c1 c2 c3 (H1 & E1 & E2) (H2 & E3 & E4). split; [by eapply seqLe_trans | split; congruence].
  - by intros c c' (H & _).
  - intros c c' (H & _ & E). done.
Qed.

Lemma Same_run {E A} (m : M E A) s r s' : ev any Same m anyOf -> m s = (r, s') -> same s s'.
Proof. intros H E1. destruct (H s I) as [(_ & Hd & Hn) _]. rewrite E1 in *. by split. Qed.

Lemma Same_grow {E A} (m : M E A) s r s' :
  ev any Same m anyOf -> m s = (r, s') -> seqLe (sseq s) (sseq s').
Proof. intros H E1. destruct (H s I) as [(Hq & _) _]. rewrite E1 in *. done. Qed.

(** No publication from inside. *)
Definition Silent : Trans := fun c c' => seqLe (cq c) (cq c') /\ cn c' = cn c.

#[export] Instance Silent_Evolution : Evolution Silent.
Proof.
  split; unfold Silent; cbn; try done.
  - intros c1 c2 c3 (H1 & E1) (H2 & E3). split; [by eapply seqLe_trans | congruence].
  - by intros c c' (H & _).
Qed.

Lemma silent_exec {A} (f : DB -> result SqlErr (A * DB)) : sev any Silent (exec f) anyOf.
Proof. apply sev_exec. intros c a d' _ _. split; [split; [apply seqLe_refl | done] | done]. Qed.

Lemma silent_insert {A} t (f : Z -> DB -> result SqlErr (A * DB)) : sev any Silent (insertInto t f) anyOf.
Proof. apply sev_insert. intros c a d' id _ _ _. split; [split; [apply seqLe_nextval | done] | done]. Qed.

#[local] Hint Extern 1 (sev any Silent _ anyOf) =>
  first [apply silent_exec | apply silent_insert] : iam_step.

Lemma Silent_run {E A} (m : M E A) s : ev any Silent m anyOf -> snotified (m s).2 = snotified s.
Proof. intros H. destruct (H s I) as [[_ Hn] _]. exact Hn. Qed.

(** ** Grants *)

Definition bindingIDs (s : Sys) : Prop := forall i, i ∈ dom (bindings (sdb s)) -> i <= sseq s TBindings.

Lemma IfNotExists_ok b s n s' :
  Q (CreateRoleBindingIfNotExists b) s = (Ok n, s') ->
  bindingScopeOk b = true /\ seqLe (sseq s) (sseq s') /\ snotified s' = snotified s /\
  ((n = 0 /\ sdb s' = sdb s /\ exists i x, bindings (sdb s) !! i = Some x /\ bindingClash b x = true) \/
   (n = 1 /\ sdb s' = set_bindings (<[sseq s TBindings + 1 := b]> (bindings (sdb s))) (sdb s)
      /\ sseq s' TBindings = sseq s TBindings + 1
      /\ forall i x, bindings (sdb s) !! i = Some x -> bindingClash b x = false)).
Proof.
  intros (q & H & Hq & Hn)%Q_ok. unfold CreateRoleBindingIfNotExists, smap, insertBinding, insertInto in H.
  assert (sseq s' = (nextval TBindings (sseq s)).2) as Hnv.
  { rewrite Hq. cbn [nextval] in H. by repeat case_match; simplify_eq. }
  rewrite Hnv, nextval_same. clear Hnv Hq. pose proof (seqLe_nextval TBindings (sseq s)).
  cbn [nextval] in H. destruct (fits 20 (bScope b)); [|done]. destruct (bindingScopeOk b); [|done].
  cbn [negb] in H. split; [done|]. split; [done|]. split; [done|].
  destruct (firstRow _ _) as [[i0 b0]|] eqn:Hf.
  - apply firstRow_Some in Hf. cbn in H. injection H as <- <- _. eauto 10.
  - destruct (bindingRefsOk (sdb s) b); [|done]. cbn in H. injection H as <- <- _. right.
    split_and!; [done..|]. by apply firstRow_None.
Qed.

(** The rows [rows] were added to [d] where absent, each once, and nothing
    else. *)
Record Granted (d d' : DB) (rows : list Binding) (created : Z) : Prop := {
  g_rest : d' = set_bindings (bindings d') d;
  g_kept : bindings d ⊆ bindings d';
  g_only : forall i x, bindings d' !! i = Some x -> bindings d !! i = Some x
             \/ (x ∈ rows /\ forall j y, bindings d' !! j = Some y -> bindingClash x y = true -> j = i);
  g_all : forall b, b ∈ rows -> exists i x, bindings d' !! i = Some x /\ bindingClash b x = true;
  g_count : Z.of_nat (size (bindings d')) = Z.of_nat (size (bindings d)) + created
}.

Lemma bindingClash_refl b : bindingScopeOk b = true -> bindingClash b b = true.
Proof.
  intros H. unfold bindingClash. rewrite !Z.eqb_refl, String.eqb_refl. cbn.
  apply bindingScopeOk_cases in H as [(-> & _)|[(-> & [w ->] & _)|(-> & _ & [n ->])]]; cbn;
    by rewrite ?Z.eqb_refl.
Qed.

Lemma sameID_sym a b : sameID a b = sameID b a.
Proof. apply eq_true_iff_eq. rewrite !sameID_spec. split; intros [-> ?]; by split. Qed.

Lemma bindingClash_sym b x : bindingClash b x = bindingClash x b.
Proof.
  unfold bindingClash. rewrite (Z.eqb_sym (bUserID b)), (Z.eqb_sym (bRoleID b)), (String.eqb_sym (bScope b)).
  rewrite (sameID_sym (bWorkspaceID b)), (sameID_sym (bNamespaceID b)).
  destruct (bScope x =s bScope b) eqn:E; [|by rewrite !andb_false_r]. apply String.eqb_eq in E. by rewrite E.
Qed.

Lemma Granted_nil d : Granted d d [] 0.
Proof. split; try done; [by destruct d | intros i x ?; by left | by intros b ?%not_elem_of_nil | lia]. Qed.

Lemma Granted_cons d d1 d2 b rows n created :
  Granted d d1 [b] n -> Granted d1 d2 rows created -> Granted d d2 (b :: rows) (n + created).
Proof.
  intros [R1 K1 O1 A1 C1] [R2 K2 O2 A2 C2]. split.
  - rewrite R2 at 1. rewrite R1. by destruct d.
  - by transitivity (bindings d1).
  - intros i x Hx. destruct (O2 i x Hx) as [Hx1|[Hr U]]; [|right; split; [by apply list_elem_of_further | exact U]].
    destruct (O1 i x Hx1) as [?|[->%list_elem_of_singleton U]]; [by left|]. right. split; [apply list_elem_of_here|].
    intros j y Hj C. destruct (O2 j y Hj) as [Hj1|[_ U2]]; [by eapply U|].
    symmetry. apply (U2 i b Hx). by rewrite bindingClash_sym.
  - intros b' [->|Hb]%elem_of_cons; [|by apply A2].
    destruct (A1 b (list_elem_of_here _ _)) as (i & x & E & Hc). exists i, x.
    split; [by eapply lookup_weaken | done].
  - lia.
Qed.

Lemma Granted_one b s n s' :
  bindingIDs s -> Q (CreateRoleBindingIfNotExists b) s = (Ok n, s') ->
  Granted (sdb s) (sdb s') [b] n /\ bindingIDs s'.
Proof.
  intros Hids (Hs & Hq & _ & [(-> & E & i & x & Hx & Hc)|(-> & E & Es & Hfree)])%IfNotExists_ok.
  - rewrite E. split; [|intros j Hj; rewrite E in Hj; specialize (Hids j Hj); specialize (Hq TBindings); lia].
    split; [by destruct (sdb s) | done | by left | | lia].
    intros b' ->%list_elem_of_singleton. eauto.
  - assert (bindings (sdb s) !! (sseq s TBindings + 1) = None) as Hf by by apply fresh_None.
    rewrite E. split.
    + split; cbn; [done | by apply insert_subseteq | | |].
      * intros i x [[<- <-]|[_ ?]]%lookup_insert_Some; [right | by left]. split; [by apply list_elem_of_singleton|].
        intros j y [[<- _]|[_ Hj]]%lookup_insert_Some C; [done|]. by rewrite (Hfree j y Hj) in C.
      * intros b' ->%list_elem_of_singleton. exists (sseq s TBindings + 1), b.
        split; [apply lookup_insert_eq | by apply bindingClash_refl].
      * rewrite map_size_insert_None by done. lia.
    + intros j. rewrite E. cbn. rewrite dom_insert, elem_of_union, elem_of_singleton, Es.
      intros [->|Hj]; [lia|]. specialize (Hids j Hj). lia.
Qed.

Lemma createManyTx_ok inputs : forall created s n s',
  bindingIDs s -> createManyTx inputs created s = (Ok n, s') ->
  Granted (sdb s) (sdb s') (inputBinding <$> inputs) (n - created).
Proof.
  induction inputs as [|i rest IH]; intros created s n s' Hids; cbn [createManyTx].
  - intros [= <- <-]. replace (created - created) with 0 by lia. apply Granted_nil.
  - intros (m & s1 & H1%onErr_ok & H2)%bind_ok. destruct (Granted_one _ _ _ _ Hids H1) as [G Hids1].
    specialize (IH _ _ _ _ Hids1 H2). replace (n - created) with (m + (n - (created + m))) by lia.
    by eapply Granted_cons.
Qed.

Lemma silent_createMany inputs : forall created, ev any Silent (createManyTx inputs created) anyOf.
Proof. induction inputs as [|i rest IH]; intros created; cbn [createManyTx]; ev_auto. Qed.

Lemma frugal_createMany inputs : forall created, frugal (createManyTx inputs created).
Proof.
  induction inputs as [|i rest IH]; intros created; cbn [createManyTx]; [by apply frugal_keep|].
  apply frugal_bind; [frugal_auto | intros n; apply IH].
Qed.

Lemma notifyEach {A} (f : A -> Z) l s :
  forEach (fun i => notifyUserChange (f i)) l s =
  (Ok tt, mkSys (sdb s) (sseq s) (sfaults s) (stx s) (snotified s ++ (f <$> l)) (smemo s)).
Proof.
  revert s. induction l as [|a l IH]; intros s; cbn [forEach].
  - unfold ret. cbn. rewrite app_nil_r. by destruct s.
  - unfold bind at 1. cbn [notifyUserChange]. rewrite IH. cbn. by rewrite <- app_assoc.
Qed.

Lemma CreateMany_spec inputs s r s' :
  bindingIDs s -> CreateMany inputs s = (r, s') ->
  match r with
  | Err _ => same s s'
      \/ (lost s s' /\ (exists created, Granted (sdb s) (sdb s') (inputBinding <$> inputs) created) /\ snotified s' = snotified s)
  | Ok created => Granted (sdb s) (sdb s') (inputBinding <$> inputs) created
                  /\ snotified s' = snotified s ++ (biUserID <$> inputs)
  end.
Proof.
  intros Hids. unfold CreateMany. case_bool_decide as Hi.
  { intros [= <- <-]. subst inputs. split; [apply Granted_nil | by rewrite app_nil_r]. }
  assert (ran : forall s3 s4 n, same s s3 -> sseq s3 = sseq s -> createManyTx inputs 0 s3 = (Ok n, s4) ->
    Granted (sdb s) (sdb s4) (inputBinding <$> inputs) n /\ snotified s4 = snotified s).
  { intros s3 s4 n [Ed En] Eq Hf. assert (bindingIDs s3) as Hids3 by (unfold bindingIDs; by rewrite Ed, Eq).
    pose proof (createManyTx_ok _ _ _ _ _ Hids3 Hf) as G. rewrite Ed, Z.sub_0_r in G. split; [done|].
    pose proof (Silent_run (createManyTx inputs 0) s3 (silent_createMany inputs 0)) as Hn. rewrite Hf in Hn.
    cbn in Hn. by rewrite Hn. }
  destruct r as [created|e].
  - intros (c0 & s1 & H1%onErr_ok & (u & s2 & H2 & [= <- <-])%bind_ok)%bind_ok.
    apply WithTx_ok in H1 as (s3 & s4 & Hs3 & Eq & Hf & [Ed' En'] & _).
    destruct (ran _ _ _ Hs3 Eq Hf) as [G Hn]. rewrite notifyEach in H2. simplify_eq/=. by rewrite Ed', En', Hn.
  - intros [(e0 & H & ->)%onErr_err|(c0 & s1 & _ & [H|(u & s2 & _ & [=])]%bind_err)]%bind_err; [|by rewrite notifyEach in H].
    apply WithTx_err in H as [H|(HL & n & s3 & s4 & Hs3 & Eq & Hf & [Ed' En'])]; [by left| | |].
    + right. destruct (ran _ _ _ Hs3 Eq Hf) as [G Hn]. rewrite Ed', En'. eauto.
    + intros s0. apply Silent_run, silent_createMany.
    + apply frugal_createMany.
Qed.

Lemma roleGetByID_ok id s r s' :
  roleGetByID id s = (Ok r, s') -> roles (sdb s) !! id = Some (rrRow r) /\ same s s'.
Proof.
  intros H. pose proof (Same_run (roleGetByID id) s _ _ ltac:(ev_auto) H) as Hs.
  apply bind_ok in H as ([i row] & s1 & H1%onErr_ok%Q_query & H2).
  apply bind_ok in H2 as (rs & s2 & _ & [= <- <-]). destruct H1 as [H1%one_ok _].
  split; [|done]. destruct (roles (sdb s) !! id); cbn in H1; by simplify_eq/=.
Qed.

(** The request was accepted: it names a role the level's check takes, and
    the users. *)
Definition accepted (d : DB) (req : BatchRequest) (check : Role -> result GoErr unit) (role : Z) (us : list Z) : Prop :=
  parseID (brRoleID req) = Some role /\ (exists x, roles d !! role = Some x /\ check x = Ok tt)
  /\ Forall2 (fun raw u => parseID raw = Some u) (brIDs req) us.


(** ** Announcements *)

(** What a user holds, the ownership flag aside. *)
Definition grantOf (b : Binding) : Z * string * option Z * option Z :=
  (bRoleID b, bScope b, bWorkspaceID b, bNamespaceID b).

Definition holds (d : DB) (u : Z) (g : Z * string * option Z * option Z) : Prop :=
  exists i b, bindings d !! i = Some b /\ bUserID b = u /\ grantOf b = g.

Definition unaffected (d d' : DB) (u : Z) : Prop :=
  rules d' = rules d /\ forall g, holds d u g <-> holds d' u g.

Lemma unaffected_rows d d' u row :
  unaffected d d' u -> row ∈ permissionRows d u <-> row ∈ permissionRows d' u.
Proof.
  intros [Er Hh]. rewrite !elem_of_permissionRows, Er.
  assert (Hw : forall d0, (exists i b, bindings d0 !! i = Some b /\ bUserID b = u
      /\ (bRoleID b, rowPattern row) ∈ rules d /\ rowScope row = bScope b
      /\ rowWorkspaceID row = bWorkspaceID b /\ rowNamespaceID row = bNamespaceID b) <->
    exists role, holds d0 u (role, rowScope row, rowWorkspaceID row, rowNamespaceID row)
      /\ (role, rowPattern row) ∈ rules d).
  { intros d0. split.
    - intros (i & b & E & Hu & Hp & H1 & H2 & H3). exists (bRoleID b). split; [|done].
      exists i, b. unfold grantOf. by rewrite H1, H2, H3.
    - intros (role & (i & b & E & Hu & Hg) & Hp). injection Hg as <- H1 H2 H3. exists i, b. by rewrite H1, H2, H3. }
  rewrite !Hw. split; intros (role & H & Hp); exists role; (split; [by apply Hh | done]).
Qed.

(** Every user whose permission rows an operation changed is among those it
    published. *)
Definition announced (s s' : Sys) : Prop :=
  exists l, snotified s' = snotified s ++ l /\
    forall u, u ∈ l \/ forall row, row ∈ permissionRows (sdb s) u <-> row ∈ permissionRows (sdb s') u.

Lemma announced_intro s s' l :
  snotified s' = snotified s ++ l -> (forall u, u ∉ l -> unaffected (sdb s) (sdb s') u) -> announced s s'.
Proof.
  intros Hn H. exists l. split; [done|]. intros u. destruct (decide (u ∈ l)) as [|Hu]; [by left | right].
  intros row. by apply unaffected_rows, H.
Qed.

Lemma announced_same s s' : same s s' -> announced s s'.
Proof. intros [E1 E2]. apply (announced_intro _ _ []); [by rewrite E2, app_nil_r | by rewrite E1]. Qed.

(** Announced, or an answer was lost and the operation reports an error. *)
Definition reported {A} (s s' : Sys) (r : result GoErr A) : Prop :=
  announced s s' \/ (lost s s' /\ exists e, r = Err e).

Lemma reported_from {A} s s1 s' (r : result GoErr A) :
  same s s1 -> sfaults s1 `suffix_of` sfaults s -> reported s1 s' r -> reported s s' r.
Proof.
  intros [E1 E2] Hf [(l & Hl & Hr)|[HL He]]; [left; exists l; by rewrite <- E1, <- E2 | right].
  split; [by eapply lost_after | done].
Qed.

Lemma unaffected_trans d1 d2 d3 u : unaffected d1 d2 u -> unaffected d2 d3 u -> unaffected d1 d3 u.
Proof. intros [E1 H1] [E2 H2]. split; [congruence|]. intros g. by rewrite H1, H2. Qed.

(** Added rows are the new holder's. *)
Lemma unaffected_granted d d' rows n u :
  Granted d d' rows n -> (forall b, b ∈ rows -> bUserID b <> u) -> unaffected d d' u.
Proof.
  intros [R K O _ _] Hr. split; [by rewrite R|]. intros g. split; intros (i & b & E & Hu & Hg).
  - exists i, b. split; [by eapply lookup_weaken | done].
  - destruct (O i b E) as [E'|[Hb _]]; [by exists i, b | by destruct (Hr b Hb)].
Qed.

Lemma unaffected_deleted d gone u :
  (forall i b, bindings d !! i = Some b -> gone i b = true -> bUserID b <> u) ->
  unaffected d (deleteBindings gone d).2 u.
Proof.
  intros Hg. split; [done|]. intros g. split; intros (i & b & E & Hu & Hk).
  - exists i, b. split; [|done]. cbn. apply lookup_deleteWhere. split; [done|].
    destruct (gone i b) eqn:G; [|done]. by destruct (Hg i b E G).
  - cbn in E. apply lookup_deleteWhere in E as [E _]. by exists i, b.
Qed.

Lemma unaffected_flag d P v u : unaffected d (updateBindings P (makeOwner v) d) u.
Proof.
  split; [done|]. intros g. split; intros (i & b & E & Hu & Hk).
  - exists i, (if P i b then makeOwner v b else b).
    split; [by apply lookup_updateBindings; exists b|]. by destruct (P i b).
  - apply lookup_updateBindings in E as (x & E & ->). exists i, x. by destruct (P i x).
Qed.

(** *** The role-binding store *)

Inductive BindingOp :=
| BCreate (i : RoleBindingCreateInput)
| BCreateMany (l : list RoleBindingCreateInput)
| BDelete (id : Z)
| BDeleteByIDs (ids : list Z)
| BAddWorkspaceMember (user ws role : Z)
| BAddNamespaceMember (user ns role : Z)
| BRemoveWorkspaceMember (user ws : Z)
| BRemoveNamespaceMember (user ns : Z)
| BTransfer (scope : string) (resource caller : Z) (platformAdmin : bool) (newOwner : Z) (adminRole : string).

Definition runBinding (o : BindingOp) : M GoErr unit :=
  match o with
  | BCreate i => discard (bindingCreate i)
  | BCreateMany l => discard (CreateMany l)
  | BDelete id => bindingDelete id
  | BDeleteByIDs ids => discard (bindingDeleteByIDs ids)
  | BAddWorkspaceMember u ws r => AddWorkspaceMember u ws r
  | BAddNamespaceMember u ns r => AddNamespaceMember u ns r
  | BRemoveWorkspaceMember u ws => RemoveWorkspaceMember u ws
  | BRemoveNamespaceMember u ns => RemoveNamespaceMember u ns
  | BTransfer scope res caller isAdmin u name => discard (TransferOwnership scope res caller isAdmin u name)
  end.

Lemma reported_discard {A} (m : M GoErr A) s r s' :
  (forall r0 s0, m s = (r0, s0) -> reported s s0 r0) -> discard m s = (r, s') -> reported s s' r.
Proof.
  unfold discard, bind. intros H. destruct (m s) as [r0 s0]. specialize (H r0 s0 eq_refl).
  destruct r0 as [a|e]; intros [= <- <-]; [|destruct H as [?|[? _]]; [by left | right; eauto]].
  destruct H as [?|[_ [e [=]]]]. by left.
Qed.

Lemma ids_of_Inv s : Inv (core s) -> bindingIDs s.
Proof. intros HI i [x Hx]%elem_of_dom. by apply (i_bindings _ HI i x). Qed.

Lemma notify_run u s r s' : notifyUserChange u s = (r, s') ->
  sdb s' = sdb s /\ snotified s' = snotified s ++ [u] /\ r = Ok tt.
Proof. by intros [= <- <-]. Qed.

(** A change followed by its announcement. *)
Lemma announced_then s s1 s' u :
  (forall v, v <> u -> unaffected (sdb s) (sdb s1) v) -> snotified s1 = snotified s ->
  sdb s' = sdb s1 -> snotified s' = snotified s1 ++ [u] -> announced s s'.
Proof.
  intros H En Ed En'. apply (announced_intro _ _ [u]); [by rewrite En', En|]. intros v Hv. rewrite Ed.
  apply H. intros ->. by apply Hv, list_elem_of_here.
Qed.

Lemma unaffected_insert d i b u :
  bindings d !! i = None -> bUserID b <> u ->
  unaffected d (set_bindings (<[i := b]> (bindings d)) d) u.
Proof.
  intros Hf Hu. split; [done|]. intros g. split; intros (j & x & E & Hx & Hg); exists j, x; cbn in *.
  - split; [|done]. rewrite lookup_insert_ne; [done | congruence].
  - apply lookup_insert_Some in E as [[_ <-]|[_ E]]; [done | by split].
Qed.

Lemma unaffected_owner d i b v u :
  bindings d !! i = Some b -> unaffected d (set_bindings (<[i := makeOwner v b]> (bindings d)) d) u.
Proof.
  intros Hb. split; [done|]. intros g. split; intros (j & x & E & Hx & Hg); cbn in *.
  - destruct (decide (j = i)) as [->|]; [|exists j, x; cbn; by rewrite lookup_insert_ne].
    exists i, (makeOwner v b). cbn. rewrite lookup_insert_eq. replace x with b in * by congruence. done.
  - apply lookup_insert_Some in E as [[<- <-]|[_ E]]; [by exists i, b | by exists j, x].
Qed.

(** Whatever it does on a duplicate, an insert concerns one user. *)
Lemma insertBinding_effect {A} (f : option (Z * Binding) -> result SqlErr A) oc b s a s' :
  bindingIDs s -> Q (smap f (insertBinding oc b)) s = (Ok a, s') ->
  (forall u, u <> bUserID b -> unaffected (sdb s) (sdb s') u) /\ snotified s' = snotified s.
Proof.
  intros Hids (q & H & _ & Hn)%Q_ok. split; [|done]. intros u Hu.
  unfold smap, insertBinding, insertInto in H. cbn [nextval] in H.
  destruct (fits 20 (bScope b)); [|done]. destruct (bindingScopeOk b); [|done]. cbn [negb] in H.
  destruct (firstRow _ _) as [[i0 b0]|] eqn:Hf.
  - apply firstRow_Some in Hf as [Hf _]. destruct oc; cbn in H; [done | |];
      destruct (f None); [|done | |done]; cbn in H; injection H as _ Hd _; rewrite <- Hd.
    + by split.
    + by apply unaffected_owner.
  - destruct (bindingRefsOk (sdb s) b); [|done]. cbn in H. destruct (f _); [|done]. cbn in H.
    injection H as _ Hd _. rewrite <- Hd. apply unaffected_insert; [by apply fresh_None | congruence].
Qed.

(** A first step whose error leaves everything as it was, or whose answer
    was lost. *)
Lemma reported_bind {A B} (m : M GoErr A) (f : A -> M GoErr B) s r s' :
  bind m f s = (r, s') ->
  (forall e s1, m s = (Err e, s1) -> same s s1 \/ lost s s1) ->
  (forall a s1, m s = (Ok a, s1) -> f a s1 = (r, s') -> reported s s' r) -> reported s s' r.
Proof.
  unfold bind. intros H H1 H2. destruct (m s) as [[a|e] s1]; [by eapply H2|].
  injection H as <- <-. destruct (H1 e s1 eq_refl) as [Hs|HL]; [left; by apply announced_same | right; eauto].
Qed.

Lemma onErr_err_same {A} (st : Stmt A) (f : SqlErr -> GoErr) s e s1 :
  onErr f (Q st) s = (Err e, s1) -> same s s1 \/ lost s s1.
Proof. intros (e0 & H & _)%onErr_err. by eapply Q_err. Qed.

(** Reads first. *)
Lemma reported_bindSame {A B} (m : M GoErr A) (f : A -> M GoErr B) s r s' :
  ev any Same m anyOf -> frugal m -> bind m f s = (r, s') ->
  (forall a s1, m s = (Ok a, s1) -> same s s1 -> seqLe (sseq s) (sseq s1) -> f a s1 = (r, s') -> reported s1 s' r) ->
  reported s s' r.
Proof.
  intros Hm Hfr H Hf. eapply reported_bind; [exact H | intros e s1 H1; left; by eapply Same_run|].
  intros a s1 H1 H2. pose proof (Same_run _ _ _ _ Hm H1) as Hs. pose proof (Same_grow _ _ _ _ Hm H1) as Hq.
  eapply reported_from; [exact Hs | | by eapply Hf]. specialize (Hfr s). by rewrite H1 in Hfr.
Qed.

Lemma reported_bindingCreate i s r s' :
  Inv (core s) -> bindingCreate i s = (r, s') -> reported s s' r.
Proof.
  intros HI H. eapply reported_bind; [exact H | intros e s1; apply onErr_err_same|].
  intros row s1 H1%onErr_ok H2. cbn in H2.
  apply (insertBinding_effect one) in H1 as [Hu Hn]; [|by apply ids_of_Inv].
  injection H2 as _ <-. left. by eapply announced_then.
Qed.

Lemma reported_CreateMany l s r s' : Inv (core s) -> CreateMany l s = (r, s') -> reported s s' r.
Proof.
  intros HI H. apply CreateMany_spec in H; [|by apply ids_of_Inv]. destruct r as [n|e].
  2: { destruct H as [H|[HL _]]; [left; by apply announced_same | right; eauto]. }
  left. destruct H as [G Hn]. eapply announced_intro; [exact Hn|]. intros u Hu. eapply unaffected_granted; [exact G|].
  intros b (i & -> & Hi)%list_elem_of_fmap <-. apply Hu, list_elem_of_fmap. by exists i.
Qed.

Lemma reported_bindingDelete id s r s' : bindingDelete id s = (r, s') -> reported s s' r.
Proof.
  intros H. eapply reported_bindSame; [| |exact H|]; [ev_auto | frugal_auto|]. intros [i rb] s1 H0 [Es _] _ H1.
  apply onErr_ok, Q_query in H0 as [Hrb%one_ok _]. assert (bindings (sdb s1) !! id = Some rb) as Hid.
  { rewrite Es. destruct (bindings (sdb s) !! id); cbn in Hrb; by simplify_eq. }
  eapply reported_bind; [exact H1 | intros e s2; apply onErr_err_same|]. intros n s2 H2%onErr_ok H3.
  apply Q_ok in H2 as (q & H2 & _ & Hn). injection H2 as Hc Hd _. left.
  assert (forall u, u <> bUserID rb -> unaffected (sdb s1) (sdb s2) u) as Hu.
  { intros u Hu. rewrite <- Hd. apply (unaffected_deleted (sdb s1) (fun id' _ => id' =? id)).
    intros j b E ->%Z.eqb_eq. congruence. }
  cbn beta in H3. destruct (n =? 0) eqn:Hz.
  - apply Z.eqb_eq in Hz. rewrite length_fmap in Hc. assert (0 < n); [|lia].
    rewrite <- Hc. destruct (map_to_list _) eqn:El; [|cbn; lia].
    apply map_to_list_empty_iff in El. rewrite rowsWhere_empty in El. specialize (El id rb Hid).
    by rewrite Z.eqb_refl in El.
  - cbn in H3. injection H3 as _ <-. by eapply announced_then.
Qed.

Lemma notifyUnique_run rows : forall seen s,
  exists l, notifyUnique rows seen s =
    (Ok tt, mkSys (sdb s) (sseq s) (sfaults s) (stx s) (snotified s ++ l) (smemo s)) /\
  forall i u, (i, u) ∈ rows -> u ∈ seen \/ u ∈ l.
Proof.
  induction rows as [|[i v] rows IH]; intros seen s; cbn [notifyUnique].
  - exists []. rewrite app_nil_r. split; [by destruct s|]. by intros ?? ?%not_elem_of_nil.
  - case_bool_decide as Hv.
    + destruct (IH seen s) as (l & -> & Hl). exists l. split; [done|].
      intros j u [[= -> ->]|Hj]%elem_of_cons; [by left | by apply (Hl j)].
    + unfold bind. cbn [notifyUserChange].
      destruct (IH ({[v]} ∪ seen) (mkSys (sdb s) (sseq s) (sfaults s) (stx s) (snotified s ++ [v]) (smemo s)))
        as (l & -> & Hl). exists (v :: l). cbn. rewrite <- app_assoc. split; [done|].
      intros j u [[= -> ->]|Hj]%elem_of_cons; [right; apply list_elem_of_here|].
      destruct (Hl j u Hj) as [[->%elem_of_singleton|]%elem_of_union|];
        [right; apply list_elem_of_here | by left | right; by apply list_elem_of_further].
Qed.

Lemma reported_bindingDeleteByIDs ids s r s' : bindingDeleteByIDs ids s = (r, s') -> reported s s' r.
Proof.
  unfold bindingDeleteByIDs. case_bool_decide; [intros [= _ <-]; left; by apply announced_same|].
  intros H0. eapply reported_bind; [exact H0 | intros e s2; apply onErr_err_same|]. intros rows s1 H1%onErr_ok H2. left.
  apply Q_ok in H1 as (q & H1 & _ & Hn). injection H1 as Hr Hd _.
  destruct (notifyUnique_run rows ∅ s1) as (l & Hl & Hin). unfold bind in H2. rewrite Hl in H2.
  injection H2 as _ <-. apply (announced_intro _ _ l); cbn; [by rewrite Hn|]. intros u Hu. rewrite <- Hd.
  apply (unaffected_deleted (sdb s) (fun id b => anyID ids id && negb (bIsOwner b))).
  intros i b E G Hb. apply Hu. destruct (Hin i u) as [?|?]; [|set_solver | done].
  rewrite <- Hr. apply list_elem_of_fmap. exists (i, b). cbn. rewrite Hb. split; [done|].
  by apply elem_of_map_to_list, lookup_rowsWhere.
Qed.

(** The two removals. *)
Lemma reported_remove (P : Binding -> bool) u st s r s' :
  st = exec (fun d => let '(rows, d') := deleteBindings (fun _ b => (bUserID b =? u) && P b && negb (bIsOwner b)) d in
              Ok (Z.of_nat (length rows), d')) ->
  (n <-- onErr wrap (Q st) ;; if n =? 0 then fail (tagged ErrBadRequest) else notifyUserChange u) s = (r, s') ->
  reported s s' r.
Proof.
  intros -> H. eapply reported_bind; [exact H | intros e s2; apply onErr_err_same|]. intros n s1 H1%onErr_ok H2. left.
  apply Q_ok in H1 as (q & H1 & _ & Hn). injection H1 as Hc Hd _. cbn beta in H2.
  set (gone := fun (_ : Z) b => (bUserID b =? u) && P b && negb (bIsOwner b)) in *.
  destruct (n =? 0) eqn:Hz.
  - injection H2 as _ <-. apply (announced_intro _ _ []); [by rewrite Hn, app_nil_r|]. intros v _. rewrite <- Hd.
    apply (unaffected_deleted (sdb s) gone). intros i b E G. apply Z.eqb_eq in Hz.
    rewrite length_fmap in Hc. destruct (map_to_list _) eqn:El; [|cbn in Hc; lia].
    apply map_to_list_empty_iff in El. rewrite rowsWhere_empty in El. by rewrite (El i b E) in G.
  - apply notify_run in H2 as (E1 & E2 & _). eapply announced_then; [|exact Hn | exact E1 | exact E2].
    intros v Hv. rewrite <- Hd. apply (unaffected_deleted (sdb s) gone). intros i b E G. subst gone.
    cbn in G. rewrite !andb_true_iff, Z.eqb_eq in G. destruct G as [[G _] _]. congruence.
Qed.

Lemma WithTx_reported {A B} (fn : M GoErr A) (f : A -> M GoErr B) s r s' :
  ev any Silent fn anyOf -> frugal fn -> bind (WithTx fn) f s = (r, s') ->
  (forall a s1 s2, same s s1 -> sseq s1 = sseq s -> fn s1 = (Ok a, s2) ->
     forall s3, same s2 s3 -> f a s3 = (r, s') -> announced s s') ->
  reported s s' r.
Proof.
  intros Hs Hfr H Hf. eapply reported_bind; [exact H | |].
  - intros e s1 H1. apply WithTx_err in H1 as [?|[? _]]; [by left | by right | intros s0; by apply Silent_run | done].
  - intros a s3 (s1 & s2 & E1 & Eq & H1 & E2 & _)%WithTx_ok H2. left. by eapply Hf.
Qed.

Lemma bindingIDs_same s s1 : same s s1 -> seqLe (sseq s) (sseq s1) -> bindingIDs s -> bindingIDs s1.
Proof. intros [E _] Hq H i. rewrite E. intros Hi. specialize (H i Hi). specialize (Hq TBindings). lia. Qed.

Lemma reported_AddWorkspaceMember u ws role s r s' :
  Inv (core s) -> AddWorkspaceMember u ws role s = (r, s') -> reported s s' r.
Proof.
  intros HI H. eapply reported_bindSame; [| |exact H|]; [ev_auto | frugal_auto|]. intros bindRole s1 _ Hs Hq H1.
  pose proof (bindingIDs_same _ _ Hs Hq (ids_of_Inv _ HI)) as Hids.
  eapply WithTx_reported; [| |exact H1|]; [ev_auto | frugal_auto|]. intros a s2 s3 [E1 E2] Eq Hf s4 [E3 E4] Hn.
  apply notify_run in Hn as (E5 & E6 & _). apply onErr_ok in Hf.
  apply (insertBinding_effect (fun _ => Ok tt)) in Hf as [Hu Hn];
    [|apply (bindingIDs_same s1); [done | rewrite Eq; apply seqLe_refl | done]].
  eapply announced_then; [|by rewrite E4, Hn, E2 | exact E5 | exact E6].
  intros v Hv. rewrite E3, <- E1. by apply Hu.
Qed.

Lemma IfNotExists_ids b s n s' :
  bindingIDs s -> Q (CreateRoleBindingIfNotExists b) s = (Ok n, s') -> bindingIDs s'.
Proof. intros Hids H. by apply (Granted_one b s n s'). Qed.

Lemma reported_AddNamespaceMember u ns role s r s' :
  Inv (core s) -> AddNamespaceMember u ns role s = (r, s') -> reported s s' r.
Proof.
  intros HI H. eapply reported_bindSame; [| |exact H|]; [ev_auto | frugal_auto|]. intros ws s1 _ Hs1 Hq1 H1.
  eapply reported_bindSame; [| |exact H1|]; [ev_auto | frugal_auto|]. intros [member ?] s2 _ Hs2 Hq2 H2.
  eapply reported_bindSame; [| |exact H2|]; [ev_auto | frugal_auto|]. intros bindRole s3 _ Hs3 Hq3 H3.
  assert (bindingIDs s3) as Hids.
  { eapply bindingIDs_same; [exact Hs3 | done|]. eapply bindingIDs_same; [exact Hs2 | done|].
    eapply bindingIDs_same; [exact Hs1 | done | by apply ids_of_Inv]. }
  eapply WithTx_reported; [| |exact H3|]; [ev_auto | frugal_auto|]. intros a s4 s5 [E1 E2] Eq Hf s6 [E3 E4] Hn.
  apply notify_run in Hn as (E5 & E6 & _). apply bind_ok in Hf as (n & s7 & Hf1%onErr_ok & Hf2%onErr_ok).
  assert (bindingIDs s4) as Hids4 by (apply (bindingIDs_same s3); [done | rewrite Eq; apply seqLe_refl | done]).
  pose proof (IfNotExists_ids _ _ _ _ Hids4 Hf1) as Hids7.
  apply (insertBinding_effect (fun o => Ok (match o with Some _ => 1 | None => 0 end))) in Hf1 as [Hu1 Hn1]; [|done].
  apply (insertBinding_effect (fun _ => Ok tt)) in Hf2 as [Hu2 Hn2]; [|done].
  eapply announced_then; [|by rewrite E4, Hn2, Hn1, E2 | exact E5 | exact E6].
  intros v Hv. rewrite E3, <- E1. eapply unaffected_trans; [by apply Hu1 | by apply Hu2].
Qed.

(** *** Ownership transfer *)

Lemma clearOwner_ok scope res s u s' :
  clearOwner scope res s = (Ok u, s') ->
  sdb s' = updateBindings (fun _ b => (if scope =s ScopeWorkspace then inWorkspace res b else inNamespace res b)
                             && bIsOwner b) (makeOwner false) (sdb s)
  /\ snotified s' = snotified s /\ sseq s' = sseq s.
Proof.
  unfold clearOwner. intros (q & H & Eq & Hn)%onErr_ok%Q_ok.
  destruct (scope =s ScopeWorkspace); injection H as _ <- <-; by repeat split.
Qed.

Lemma upsertOwner_effect scope res v role s u s' :
  bindingIDs s -> upsertOwner scope res v role s = (Ok u, s') ->
  (forall w, w <> v -> unaffected (sdb s) (sdb s') w) /\ snotified s' = snotified s.
Proof.
  intros Hids. unfold upsertOwner. destruct (scope =s ScopeWorkspace).
  - intros H%onErr_ok. by apply (insertBinding_effect (fun _ => Ok tt)) in H.
  - intros (ws & s1 & H1 & H2%onErr_ok)%bind_ok.
    assert (ev any Same (onErr wrap (Q (GetNamespaceWorkspaceID res))) anyOf) as Hget by ev_auto.
    pose proof (Same_run _ _ _ _ Hget H1) as Hs. pose proof (Same_grow _ _ _ _ Hget H1) as Hq.
    apply (insertBinding_effect (fun _ => Ok tt)) in H2 as [Hu Hn]; [|by eapply bindingIDs_same].
    destruct Hs as [E1 E2]. by rewrite <- E1, <- E2.
Qed.

Lemma dom_updateBindings P f d : dom (bindings (updateBindings P f d)) = dom (bindings d).
Proof.
  apply set_eq. intros i. rewrite !elem_of_dom. split.
  - intros [x (y & E & _)%lookup_updateBindings]. by exists y.
  - intros [x E]. eexists. apply lookup_updateBindings. eauto.
Qed.

(** The steps of a transfer that committed. *)
Lemma transferTx_ok scope res caller isAdmin v name s old s' :
  transferOwnershipTx scope res caller isAdmin v name s = (Ok old, s') ->
  (isAdmin = true \/ caller = old) /\
  exists s1 s2 s3 s4 role,
    findOwnerForUpdate scope res s = (Ok old, s1) /\ checkMembership scope res v s1 = (Ok true, s2) /\
    clearOwner scope res s2 = (Ok tt, s3) /\ lookupAdminRoleID scope res name s3 = (Ok role, s4) /\
    upsertOwner scope res v role s4 = (Ok tt, s').
Proof.
  unfold transferOwnershipTx. intros (o & s1 & H1 & H2)%bind_ok.
  destruct (negb isAdmin && negb (caller =? o)) eqn:Hc; [done|].
  apply bind_ok in H2 as ([|] & s2 & H2 & H3); [|done]. cbn [negb] in H3.
  apply bind_ok in H3 as ([] & s3 & H3 & H4). apply bind_ok in H4 as (role & s4 & H4 & H5).
  apply bind_ok in H5 as ([] & s5 & H5 & [= <- <-]). split; [|by exists s1, s2, s3, s4, role].
  apply andb_false_iff in Hc as [Hc|Hc]; apply negb_false_iff in Hc; [by left | right; by apply Z.eqb_eq].
Qed.

Lemma reads_transfer scope res v name :
  ev any Same (findOwnerForUpdate scope res) anyOf /\ ev any Same (checkMembership scope res v) anyOf
  /\ ev any Same (lookupAdminRoleID scope res name) anyOf.
Proof. split_and!; ev_auto. Qed.

(** Rows of the tenant a transfer is about. *)
Definition ofTenant (scope : string) (res : Z) (b : Binding) : bool :=
  if scope =s ScopeWorkspace then inWorkspace res b else inNamespace res b.

Definition cleared (scope : string) (res : Z) (d : DB) : DB :=
  updateBindings (fun _ b => ofTenant scope res b && bIsOwner b) (makeOwner false) d.

Lemma findOwner_ok scope res s old s' :
  findOwnerForUpdate scope res s = (Ok old, s') ->
  exists i x, bindings (sdb s) !! i = Some x /\ ofTenant scope res x = true /\ bIsOwner x = true /\ bUserID x = old.
Proof.
  unfold findOwnerForUpdate, ofTenant. intros H%onErr_ok.
  destruct (scope =s ScopeWorkspace); apply Q_query in H as [H%one_ok _];
    apply fmap_Some in H as ([i x] & H & ->); apply firstRow_Some in H as [E H];
    apply andb_true_iff in H as [H1 H2]; by exists i, x.
Qed.

Lemma checkMembership_ok scope res v s b s' :
  checkMembership scope res v s = (Ok b, s') ->
  b = someRow (fun _ x => (bUserID x =? v) && ofTenant scope res x) (bindings (sdb s)).
Proof.
  unfold checkMembership, ofTenant. intros H%onErr_ok.
  destruct (scope =s ScopeWorkspace); by apply Q_query in H as [[= <-] _].
Qed.

Lemma lookupAdmin_ok scope res name s role s' :
  lookupAdminRoleID scope res name s = (Ok role, s') ->
  exists r, roles (sdb s) !! role = Some r /\ rName r = name /\
    if scope =s ScopeWorkspace then rScope r = ScopeWorkspace /\ rWorkspaceID r = Some res
    else rScope r = ScopeNamespace /\ rNamespaceID r = Some res.
Proof.
  unfold lookupAdminRoleID. intros ([i r] & s1 & H%onErr_ok & [= <- _])%bind_ok. exists r.
  destruct (scope =s ScopeWorkspace); apply Q_query in H as [H%one_ok _];
    apply firstRow_Some in H as [E H]; rewrite !andb_true_iff, !String.eqb_eq, colEq_spec in H; tauto.
Qed.

Lemma transferTx_run scope res caller isAdmin v name s old s' :
  transferOwnershipTx scope res caller isAdmin v name s = (Ok old, s') ->
  (isAdmin = true \/ caller = old) /\
  (exists i x, bindings (sdb s) !! i = Some x /\ ofTenant scope res x = true /\ bIsOwner x = true /\ bUserID x = old) /\
  someRow (fun _ x => (bUserID x =? v) && ofTenant scope res x) (bindings (sdb s)) = true /\
  exists s4 role, sdb s4 = cleared scope res (sdb s) /\ snotified s4 = snotified s /\ seqLe (sseq s) (sseq s4)
    /\ (exists r, roles (sdb s) !! role = Some r /\ rName r = name /\
        if scope =s ScopeWorkspace then rScope r = ScopeWorkspace /\ rWorkspaceID r = Some res
        else rScope r = ScopeNamespace /\ rNamespaceID r = Some res)
    /\ upsertOwner scope res v role s4 = (Ok tt, s').
Proof.
  intros (Ha & s1 & s2 & s3 & s4 & role & F1 & F2 & F3 & F4 & F5)%transferTx_ok.
  destruct (reads_transfer scope res v name) as (R1 & R2 & R3).
  pose proof (Same_run _ _ _ _ R1 F1) as [E1 N1]. pose proof (Same_grow _ _ _ _ R1 F1) as Q1.
  pose proof (Same_run _ _ _ _ R2 F2) as [E2 N2]. pose proof (Same_grow _ _ _ _ R2 F2) as Q2.
  pose proof (Same_run _ _ _ _ R3 F4) as [E4 N4]. pose proof (Same_grow _ _ _ _ R3 F4) as Q4.
  apply clearOwner_ok in F3 as (E3 & N3 & Q3). apply findOwner_ok in F1. apply checkMembership_ok in F2.
  apply lookupAdmin_ok in F4. rewrite E3 in F4. cbn in F4. rewrite E2, E1 in *.
  split; [done|]. split; [done|]. split; [congruence|]. exists s4, role. rewrite E4, N4.
  split; [done|]. split; [congruence|]. split; [|done].
  eapply seqLe_trans; [exact Q1|]. eapply seqLe_trans; [exact Q2|]. by rewrite <- Q3.
Qed.

Lemma cleared_ids scope res s s4 :
  sdb s4 = cleared scope res (sdb s) -> seqLe (sseq s) (sseq s4) -> bindingIDs s -> bindingIDs s4.
Proof.
  intros E Hq H i. rewrite E. unfold cleared. rewrite dom_updateBindings. intros Hi.
  specialize (H i Hi). specialize (Hq TBindings). lia.
Qed.

Lemma reported_Transfer scope res caller isAdmin v name s r s' :
  Inv (core s) -> TransferOwnership scope res caller isAdmin v name s = (r, s') -> reported s s' r.
Proof.
  intros HI. unfold TransferOwnership.
  destruct (negb _ && negb _); [intros [= _ <-]; left; by apply announced_same|]. intros H.
  eapply WithTx_reported; [| |exact H|]; [ev_auto | frugal_auto|]. intros old s1 s2 [E1 E2] Eq Hf s3 [E3 E4] H2.
  cbn in H2. injection H2 as _ <-.
  apply transferTx_run in Hf as (_ & _ & _ & s4 & role & Ec & Nc & Qc & _ & Hup).
  assert (bindingIDs s1) as Hids1.
  { apply (bindingIDs_same s); [done | rewrite Eq; apply seqLe_refl | by apply ids_of_Inv]. }
  apply upsertOwner_effect in Hup as [Hu Hn]; [|by eapply cleared_ids].
  apply (announced_intro _ _ [old; v]); cbn; [by rewrite <- app_assoc, E4, Hn, Nc, E2|].
  intros u Hnot. rewrite E3. eapply unaffected_trans; [|apply Hu; set_solver].
  rewrite Ec, E1. apply unaffected_flag.
Qed.


(** ** Ownership transfer, functionally *)

Lemma ofTenant_clash scope res b x :
  ofTenant scope res b = true -> bindingClash b x = true -> ofTenant scope res x = true.
Proof.
  unfold ofTenant, bindingClash, inWorkspace, inNamespace. pose proof scopes_distinct as (D1 & D2 & D3).
  destruct (scope =s ScopeWorkspace); rewrite !andb_true_iff, !orb_true_iff, !andb_true_iff, !String.eqb_eq,
    !colEq_spec, !sameID_spec; intros [E1 E2] [[_ E3] H]; rewrite <- E3, E1 in *; (split; [done|]).
  - destruct H as [[H|(_ & H & _)]|(H & _)]; congruence.
  - destruct H as [[H|(H & _)]|(_ & H & _)]; congruence.
Qed.

Lemma makeOwner_run b s u s' :
  bindingIDs s -> bIsOwner b = true ->
  Q (smap (fun _ => Ok tt) (insertBinding MakeOwner b)) s = (Ok u, s') ->
  exists i x, sdb s' = set_bindings (<[i := x]> (bindings (sdb s))) (sdb s) /\ bIsOwner x = true
    /\ bUserID x = bUserID b /\ bRoleID x = bRoleID b /\ bindingClash b x = true
    /\ forall v g, holds (sdb s) v g -> holds (sdb s') v g.
Proof.
  intros Hids Hb (q & H & _ & _)%Q_ok. unfold smap, insertBinding, insertInto in H. cbn [nextval] in H.
  destruct (fits 20 (bScope b)); [|done]. destruct (bindingScopeOk b) eqn:Hs; [|done]. cbn [negb] in H.
  destruct (firstRow _ _) as [[i0 b0]|] eqn:Hf; cbn in H.
  - injection H as _ Hd _. apply firstRow_Some in Hf as [Hf Hc]. exists i0, (makeOwner true b0).
    split; [done|]. split; [done|]. pose proof Hc as Hc'. unfold bindingClash in Hc.
    rewrite !andb_true_iff, !Z.eqb_eq in Hc. destruct Hc as [[[Hu Hr] _] _]. split_and!; try done.
    intros v g. rewrite <- Hd. by apply (unaffected_owner (sdb s) i0 b0 true v Hf).
  - destruct (bindingRefsOk (sdb s) b); [|done]. cbn in H. injection H as _ Hd _.
    exists (sseq s TBindings + 1), b. split_and!; try done; [by apply bindingClash_refl|].
    intros v g (j & x & E & Hx & Hg). exists j, x. rewrite <- Hd. cbn. split; [|done].
    rewrite lookup_insert_ne; [done|]. intros <-. by rewrite fresh_None in E.
Qed.

Lemma upsertOwner_run scope res v role s u s' :
  scope = ScopeWorkspace \/ scope = ScopeNamespace ->
  bindingIDs s -> upsertOwner scope res v role s = (Ok u, s') ->
  exists i x, sdb s' = set_bindings (<[i := x]> (bindings (sdb s))) (sdb s) /\ bIsOwner x = true
    /\ bUserID x = v /\ bRoleID x = role /\ ofTenant scope res x = true
    /\ forall w g, holds (sdb s) w g -> holds (sdb s') w g.
Proof.
  intros Hsc Hids. unfold upsertOwner. destruct (scope =s ScopeWorkspace) eqn:Es.
  - intros H%onErr_ok. apply makeOwner_run in H as (i & x & Hd & Ho & Hu & Hr & Hc & Hh); [|done|done].
    exists i, x. split_and!; try done. eapply ofTenant_clash; [|exact Hc]. unfold ofTenant. rewrite Es.
    unfold inWorkspace. cbn. by rewrite Z.eqb_refl.
  - intros (ws & s1 & H1 & H2%onErr_ok)%bind_ok.
    assert (ev any Same (onErr wrap (Q (GetNamespaceWorkspaceID res))) anyOf) as Hget by ev_auto.
    pose proof (Same_run _ _ _ _ Hget H1) as [E1 E2]. pose proof (Same_grow _ _ _ _ Hget H1) as Hq.
    apply makeOwner_run in H2 as (i & x & Hd & Ho & Hu & Hr & Hc & Hh); [|by eapply bindingIDs_same|done].
    rewrite E1 in Hd, Hh. exists i, x. split_and!; try done. eapply ofTenant_clash; [|exact Hc].
    unfold ofTenant. rewrite Es. unfold inNamespace. cbn. by rewrite Z.eqb_refl.
Qed.

(** Ownership transfer. A transfer either fails and changes nothing, unless
    an answer was lost, or was asked for by the owner or a platform administrator, found the old
    owner, was given a member of the tenant, and then the new owner, holding
    the tenant's role of the given name, is the only owner: nobody else's
    grants change and the new owner loses none. *)
Lemma transfer_exact (scope : string) (res caller : Z) (isAdmin : bool) (v : Z) (name : string)
    (s s' : Sys) (r : result GoErr Z) :
  Inv (core s) -> TransferOwnership scope res caller isAdmin v name s = (r, s') ->
  match r with
  | Err _ => same s s' \/ lost s s'
  | Ok old =>
      (isAdmin = true \/ caller = old)
      /\ (exists i x, bindings (sdb s) !! i = Some x /\ ofTenant scope res x = true
            /\ bIsOwner x = true /\ bUserID x = old)
      /\ (exists i x, bindings (sdb s) !! i = Some x /\ ofTenant scope res x = true /\ bUserID x = v)
      /\ (exists i x role, bindings (sdb s') !! i = Some x /\ ofTenant scope res x = true
            /\ bIsOwner x = true /\ bUserID x = v
            /\ roles (sdb s') !! bRoleID x = Some role /\ rName role = name
            /\ forall j y, bindings (sdb s') !! j = Some y -> ofTenant scope res y = true ->
                 bIsOwner y = true -> j = i)
      /\ (forall u g, holds (sdb s) u g -> holds (sdb s') u g)
      /\ (forall u, u <> v -> unaffected (sdb s) (sdb s') u)
  end.
Proof.
  intros HI. unfold TransferOwnership.
  destruct (negb (scope =s ScopeWorkspace) && negb (scope =s ScopeNamespace)) eqn:Hsc; [intros [= <- <-]; by left|].
  assert (scope = ScopeWorkspace \/ scope = ScopeNamespace) as Hscope.
  { apply andb_false_iff in Hsc as [H|H]; apply negb_false_iff, String.eqb_eq in H; auto. }
  destruct r as [old|e]; cycle 1.
  { intros [H|(o & s1 & _ & H)]%bind_err; [|done].
    apply WithTx_err in H as [?|[? _]]; [by left | by right | intros s0; apply Silent_run; ev_auto | frugal_auto]. }
  intros (o & s1 & (s2 & s3 & [E1 E2] & Eq & Hf & [E3 E4] & _)%WithTx_ok & H)%bind_ok.
  cbn in H. injection H as <- <-. cbn. rewrite E3. rewrite <- E1 in *.
  apply transferTx_run in Hf as (Ha & Hold & Hm & s4 & role & Ec & Nc & Qc & (x0 & Hx0 & Hn0 & _) & Hup).
  assert (bindingIDs s4) as Hids4.
  { eapply cleared_ids; [exact Ec | exact Qc|]. apply (bindingIDs_same s); [done | rewrite Eq; apply seqLe_refl | by apply ids_of_Inv]. }
  pose proof (upsertOwner_effect _ _ _ _ _ _ _ Hids4 Hup) as [Hu _].
  apply (upsertOwner_run _ _ _ _ _ _ _ Hscope Hids4) in Hup as (i & x & Hd & Ho & Hxu & Hxr & Ht & Hk).
  split; [done|]. split; [done|]. split; [|split; [|split]].
  - apply someRow_true in Hm as (j & y & E & [Hy%Z.eqb_eq Ht']%andb_true_iff). by exists j, y.
  - exists i, x, x0. rewrite Hd, Ec. cbn. rewrite lookup_insert_eq, Hxr. split_and!; try done.
    intros j y. destruct (decide (j = i)) as [->|]; [done|]. rewrite lookup_insert_ne by done.
    intros (z & _ & ->)%(lookup_updateBindings (fun _ b => ofTenant scope res b && bIsOwner b)) Hy1 Hy2.
    destruct (ofTenant scope res z && bIsOwner z) eqn:Hz; [done|]. by rewrite Hy1, Hy2 in Hz.
  - intros u g Hh. apply Hk. rewrite Ec. by apply (unaffected_flag (sdb s2) _ false u).
  - intros u Huv. eapply unaffected_trans; [|by apply Hu]. rewrite Ec. apply unaffected_flag.
Qed.

(** ** The member limit of a namespace *)

(** Only [u]'s grants may change. *)
Definition Only (u : Z) : Trans := fun c c' =>
  seqLe (cq c) (cq c') /\
  ((forall i, i ∈ dom (bindings (cd c)) -> i <= cq c TBindings) ->
   (forall i, i ∈ dom (bindings (cd c')) -> i <= cq c' TBindings)
   /\ forall v, v <> u -> unaffected (cd c) (cd c') v).

#[export] Instance Only_Evolution u : Evolution (Only u).
Proof.
  split.
  - intros c q Hq. split; [done|]. intros H. cbn. split; [|by split].
    intros i Hi. specialize (H i Hi). specialize (Hq TBindings). lia.
  - intros c1 c2 c3 [Q1 H1] [Q2 H2]. split; [by eapply seqLe_trans|]. intros H.
    destruct (H1 H) as [I2 U1]. destruct (H2 I2) as [I3 U2]. split; [done|].
    intros v Hv. eapply unaffected_trans; [by apply U1 | by apply U2].
  - by intros c c' [H _].
  - intros c c' [Hq _]. split; [done|]. intros H. cbn. split; [|by split].
    intros i Hi. specialize (H i Hi). specialize (Hq TBindings). lia.
Qed.

Lemma only_insert {A} (f : option (Z * Binding) -> result SqlErr A) b :
  sev any (Only (bUserID b)) (smap f (insertBinding DoNothing b)) anyOf.
Proof.
  intros c _. unfold smap, insertBinding, insertInto. cbn [nextval].
  assert (forall d n', d = cd c -> Only (bUserID b) c (mkCore (nextval TBindings (cq c)).2 d n')) as Hsame.
  { intros d n' ->. split; [apply seqLe_nextval|]. intros H. cbn [cd cq]. split; [|by split].
    intros i Hi. specialize (H i Hi). rewrite nextval_same. lia. }
  destruct (fits 20 (bScope b)); [|by apply Hsame]. destruct (bindingScopeOk b); [|by apply Hsame]. cbn [negb].
  destruct (firstRow _ _) as [[i0 b0]|]; cbn.
  { destruct (f None); [split; [|done]|]; by apply Hsame. }
  destruct (bindingRefsOk (cd c) b); [|by apply Hsame]. cbn. destruct (f _); [|by apply Hsame]. split; [|done].
  split; [exact (seqLe_nextval TBindings (cq c))|]. intros H. cbn. rewrite decide_True by done. split.
  - intros i. rewrite dom_insert, elem_of_union, elem_of_singleton. intros [->|Hi]; [lia|].
    specialize (H i Hi). lia.
  - intros v Hv. apply unaffected_insert; [by apply fresh_None | congruence].
Qed.

Lemma only_notify u v : ev any (Only u) (notifyUserChange v) anyOf.
Proof. apply ev_notify; [|done]. intros c. split; [apply seqLe_refl|]. intros H. by split; [|split]. Qed.

Lemma only_AddNamespaceMember u ns r : ev any (Only u) (AddNamespaceMember u ns r) anyOf.
Proof.
  apply any_bind; [ev_auto|]. intros ws. apply any_bind; [ev_auto|]. intros [m x].
  apply any_bind; [ev_auto|]. intros role. apply any_bind; [|intros; apply only_notify].
  apply ev_WithTx. apply any_bind; [|intros n]; apply ev_onErr, ev_Q;
    [exact (only_insert _ (mkBinding u m ScopeWorkspace (Some ws) None false))
    |exact (only_insert _ (mkBinding u role ScopeNamespace (Some ws) (Some ns) false))].
Qed.

Lemma elem_of_membersOf d ns u :
  u ∈ membersOf d ns <-> exists role ws, holds d u (role, ScopeNamespace, ws, Some ns).
Proof.
  unfold membersOf, distinctUsers. rewrite elem_of_list_to_set, list_elem_of_fmap. split.
  - intros ([i b] & -> & H). apply elem_of_map_to_list, lookup_rowsWhere in H as [E H].
    unfold inNamespace in H. rewrite andb_true_iff, String.eqb_eq, colEq_spec in H. destruct H as [H1 H2].
    exists (bRoleID b), (bWorkspaceID b), i, b. unfold grantOf. by rewrite H1, H2.
  - intros (role & ws & i & b & E & Hu & Hg). injection Hg as _ H1 _ H2. exists (i, b). split; [done|].
    apply elem_of_map_to_list, lookup_rowsWhere. split; [done|]. unfold inNamespace.
    by rewrite H1, H2, andb_true_iff, String.eqb_eq, colEq_spec.
Qed.

Lemma members_grow u ns s s' :
  bindingIDs s -> Only u (core s) (core s') ->
  bindingIDs s' /\ Z.of_nat (size (membersOf (sdb s') ns)) <= Z.of_nat (size (membersOf (sdb s) ns)) + 1.
Proof.
  intros Hids [_ H]. destruct (H Hids) as [Hids' Hu]. split; [done|].
  assert (membersOf (sdb s') ns ⊆ {[u]} ∪ membersOf (sdb s) ns) as Hsub.
  { intros v. rewrite elem_of_union, elem_of_singleton, !elem_of_membersOf.
    destruct (decide (v = u)); [by left|]. intros (role & ws & Hh). right. exists role, ws.
    by apply (Hu v ltac:(done)). }
  apply subseteq_size in Hsub. pose proof (size_union_alt {[u]} (membersOf (sdb s) ns)) as Hsz.
  rewrite Hsz, size_singleton in Hsub.
  assert (membersOf (sdb s) ns ∖ {[u]} ⊆ membersOf (sdb s) ns) as Hd%subseteq_size by set_solver. lia.
Qed.

(** A read, then the rest. *)
Lemma bind_same {A B} (m : M GoErr A) (f : A -> M GoErr B) s r s' :
  ev any Same m anyOf -> bind m f s = (r, s') ->
  same s s' \/ exists a s1, m s = (Ok a, s1) /\ same s s1 /\ seqLe (sseq s) (sseq s1) /\ f a s1 = (r, s').
Proof.
  intros Hm. unfold bind. destruct (m s) as [[a|e] s1] eqn:H1;
    pose proof (Same_run _ _ _ _ Hm H1); pose proof (Same_grow _ _ _ _ Hm H1).
  - intros Hr. right. eauto 10.
  - intros [= _ <-]. by left.
Qed.

Lemma batchAdd_bound ns f ids : (forall u, ev any (Only u) (f u) anyOf) ->
  forall added s r s', bindingIDs s -> batchAddUsers ids f added s = (r, s') ->
  Z.of_nat (size (membersOf (sdb s') ns)) <= Z.of_nat (size (membersOf (sdb s) ns)) + Z.of_nat (length ids).
Proof.
  intros Hf. induction ids as [|raw rest IH]; intros added s r s' Hids; cbn [batchAddUsers].
  { intros [= _ <-]. cbn. lia. }
  intros [S|(uid & s1 & _ & S1 & Q1 & H1)]%bind_same; [rewrite (proj1 S); lia | |ev_auto].
  apply bind_same in H1 as [S|(u & s2 & _ & S2 & Q2 & H2)]; [| |ev_auto].
  { rewrite (proj1 (same_trans _ _ _ S1 S)). lia. }
  pose proof (proj1 (same_trans _ _ _ S1 S2)) as E2.
  assert (bindingIDs s2) as Hids2.
  { eapply bindingIDs_same; [exact S2 | done|]. by eapply bindingIDs_same. }
  unfold bind in H2. destruct (Hf uid s2 I) as [Ho _].
  destruct (f uid s2) as [[v|e] s3]; cbn [fst snd] in Ho;
    destruct (members_grow uid ns s2 s3 Hids2 Ho) as [Hids3 Hle]; rewrite E2 in Hle.
  - apply IH in H2; [|done]. cbn [length]. lia.
  - injection H2 as _ <-. cbn [length]. lia.
Qed.

Lemma checkMemberLimit_ok ns max adding s u s' :
  0 < max -> checkMemberLimit ns max adding s = (Ok u, s') ->
  Z.of_nat (size (membersOf (sdb s) ns)) + adding <= max.
Proof.
  intros Hmax%Z.ltb_lt. unfold checkMemberLimit. rewrite Hmax.
  intros (count & s3 & H2%onErr_ok%onErr_ok%Q_query & H3)%bind_ok. destruct H2 as [[= <-] _].
  destruct (max <? _) eqn:Hlt in H3; [done|]. by apply Z.ltb_ge in Hlt.
Qed.

Lemma namespaceGetByID_ok id s nd s' :
  namespaceGetByID id s = (Ok nd, s') -> namespaces (sdb s) !! id = Some (ndRow nd).
Proof.
  intros H. destruct (ev_namespaceGetByID false id s I) as [_ Hg].
  pose proof (Same_run (namespaceGetByID id) _ _ _ ltac:(ev_auto) H) as [E _].
  rewrite H in Hg. specialize (Hg nd eq_refl). cbn in Hg. by rewrite E in Hg.
Qed.

(** The member limit holds. Adding users to a namespace whose
    [maxMembers] is set, whether the request succeeds, is refused or fails
    half way, leaves it with at most that many distinct members, or with no
    more than it already had. *)
Lemma member_limit (ctx : Ctx) (req : BatchRequest) (s s' : Sys) (r : result GoErr BatchResult) (n : Namespace) :
  Inv (core s) -> namespaces (sdb s) !! ctxNamespaceID ctx = Some n -> 0 < nsMaxMembers n ->
  namespaceUser_create ctx req s = (r, s') ->
  Z.of_nat (size (membersOf (sdb s') (ctxNamespaceID ctx))) <=
    Z.max (nsMaxMembers n) (Z.of_nat (size (membersOf (sdb s) (ctxNamespaceID ctx)))).
Proof.
  intros HI Hn Hmax. unfold namespaceUser_create. set (ns := ctxNamespaceID ctx) in *.
  intros [S|(nd & s1 & H1 & S1 & Q1 & H)]%bind_same; [rewrite (proj1 S); lia | |ev_auto].
  apply onErr_ok, namespaceGetByID_ok in H1. replace (ndRow nd) with n in H by congruence.
  apply bind_same in H as [S|(u & s2 & H2 & S2 & Q2 & H)]; [| |ev_auto].
  { rewrite (proj1 (same_trans _ _ _ S1 S)). lia. }
  apply checkMemberLimit_ok in H2; [|done]. rewrite (proj1 S1) in H2.
  pose proof (same_trans _ _ _ S1 S2) as S12.
  apply bind_same in H as [S|(role & s3 & H3 & S3 & Q3 & H)]; [| |ev_auto].
  { rewrite (proj1 (same_trans _ _ _ S12 S)). lia. }
  assert (bindingIDs s3) as Hids3.
  { eapply bindingIDs_same; [exact S3 | done|]. eapply bindingIDs_same; [exact S2 | done|].
    eapply bindingIDs_same; [exact S1 | done | by apply ids_of_Inv]. }
  assert (exists r0, batchAddUsers (brIDs req) (fun uid => AddNamespaceMember uid ns role) 0 s3 = (r0, s')) as [r0 H4].
  { unfold bind, onErr in H. destruct (batchAddUsers _ _ _ s3) as [[|] ?]; cbn in H; injection H as _ <-; eauto. }
  apply (batchAdd_bound ns) in H4; [|intros u'; apply only_AddNamespaceMember | done].
  rewrite (proj1 (same_trans _ _ _ S12 S3)) in H4. lia.
Qed.

(** ** Witnesses *)

(** A second user, then a member of the first workspace. *)
Definition withBob : list Op := setup ++ [Register (mkRegister "bob" "bob@example.com" "" "h" "")].

Definition team : Sys := after (fun _ => true) Some String.eqb [] withBob.

Definition viewerRequest : BatchRequest := mkBatchRequest ["2"] "4".

Definition viewerGrant : result GoErr BatchResult * Sys :=
  batchBindRole (ctxAt (inWs 1) 0) viewerRequest ScopeWorkspace (Some 1) None (fun _ => Ok tt) team.


Definition bobGrant : BindingOp := BCreateMany [mkBindingInput 2 4 ScopeWorkspace (Some 1) None].


(** The answer to a grant's COMMIT is lost: Bob holds the role, the request
    failed, and nobody was told to drop the permissions cached for him. *)
Example commit_answer_lost :
  let s := mkSys (sdb team) (sseq team) [Fine; Fine; Unanswered] None (snotified team) (smemo team) in
  let run := runBinding bobGrant s in
  match run.1 with Err _ => true | Ok _ => false end = true
  /\ existsb (fun kb => (bUserID kb.2 =? 2) && (bRoleID kb.2 =? 4)) (map_to_list (bindings (sdb run.2))) = true
  /\ bool_decide (snotified run.2 = snotified team) = true.
Proof. by vm_compute. Qed.

Definition withMember : Sys :=
  after (fun _ => true) Some String.eqb []
    (withBob ++ [WorkspaceUserCreate (ctxAt (inWs 1) 0) (mkBatchRequest ["2"] "")]).

Definition handover : result GoErr Z * Sys :=
  TransferOwnership ScopeWorkspace 1 1 false 2 RoleWorkspaceAdmin withMember.

(** The default namespace limited to two members. *)
Definition limited : Sys :=
  after (fun _ => true) Some String.eqb []
    (withBob ++ [NamespaceUpdate (ctxAt platform 0) 1 "acme-default"
                   (mkNamespaceSpec "Default" "" "1" "1" "private" 2 "active")]).

Definition addBob : result GoErr BatchResult * Sys :=
  namespaceUser_create (ctxAt (inNs 1 1) 0) (mkBatchRequest ["2"] "") limited.

Definition limitedNs : Namespace :=
  mkNamespace "acme-default" "Default" "" 1 1 "private" 2 "active" (Some 1).

(** ** Where the handlers do not look at the scope of the request *)

(** Bob is a member of workspace 1; workspace 2 is somebody else's. *)
Definition twoTenants : Sys :=
  after (fun _ => true) Some String.eqb []
    (withBob ++ [WorkspaceUserCreate (ctxAt (inWs 1) 0) (mkBatchRequest ["2"] "4");
                 WorkspaceCreate (Some 1) (ctxAt platform 0) "umbrella" (mkWorkspaceSpec "" "" "" "")]).

Definition outcome {A} (m : M GoErr A) (s : Sys) : bool * Sys :=
  match m s with (Ok _, s') => (true, s') | (Err _, s') => (false, s') end.

(** A request authorized for workspace 2 deletes Bob's binding in
    workspace 1: neither delete handler reads the scope. *)
Example foreign_binding_deleted :
  let run := outcome (deleteRoleBinding (ctxAt (inWs 2) 0) 4) twoTenants in
  option_map bWorkspaceID (bindings (sdb twoTenants) !! 4) = Some (Some 1)
  /\ run.1 = true /\ bindings (sdb run.2) !! 4 = None.
Proof. by vm_compute. Qed.

(** A request authorized for workspace 2 deletes a namespace of workspace 1. *)
Example foreign_namespace_deleted :
  let run := outcome (namespace_delete (ctxAt (inWs 2) 0) 1) twoTenants in
  option_map nsWorkspaceID (namespaces (sdb twoTenants) !! 1) = Some 1
  /\ run.1 = true /\ namespaces (sdb run.2) !! 1 = None.
Proof. by vm_compute. Qed.

(** A request for workspace 2 grants Bob a role of workspace 1 there: the
    member handlers take any role id. *)
Example foreign_role_granted :
  let run := outcome (workspaceUser_create (ctxAt (inWs 2) 0) (mkBatchRequest ["2"] "4")) twoTenants in
  option_map rWorkspaceID (roles (sdb twoTenants) !! 4) = Some (Some 1) /\ run.1 = true
  /\ existsb (fun kb => (bUserID kb.2 =? 2) && (bRoleID kb.2 =? 4) && colEq (bWorkspaceID kb.2) 2)
       (map_to_list (bindings (sdb run.2))) = true.
Proof. by vm_compute. Qed.

(** The owner column and the owner binding are separate: an update names
    Bob the owner of workspace 1 while the owner binding stays with user 1. *)
Example owner_column_diverges :
  let run := outcome (workspace_update (ctxAt (inWs 1) 0) 1 "acme" (mkWorkspaceSpec "" "" "2" "active")) twoTenants in
  run.1 = true /\ option_map wsOwnerID (workspaces (sdb run.2) !! 1) = Some 2
  /\ option_map bUserID (bindings (sdb run.2) !! 2) = Some 1
  /\ option_map bIsOwner (bindings (sdb run.2) !! 2) = Some true.
Proof. by vm_compute. Qed.

(** The role-binding route adds a member past the limit the member route
    enforces. *)
Example limit_bypassed_by_binding :
  let full := (namespaceUser_create (ctxAt (inNs 1 1) 0) (mkBatchRequest ["2"] "") limited).2 in
  let carol := (RegisterLocal (mkRegister "carol" "carol@example.com" "" "h" "") full).2 in
  let run := outcome (namespaceRoleBinding_create (ctxAt (inNs 1 1) 0) (mkBatchRequest ["3"] "7")) carol in
  run.1 = true /\ size (membersOf (sdb run.2) 1) = 3%nat.
Proof. by vm_compute. Qed.

End IamAccess.
