(* ===== verification/Atomic.v ===== *)
(** * Handlers as trees of atomic actions

    A request handler that talks to the database is a sequence of
    statements, each of which is atomic, with other requests running in
    between. [Proc] is such a handler: it ends with a value, panics, or
    performs one atomic action on the shared world and continues with its
    answer. [run] executes one handler alone, [exec] a pool of handlers
    under a schedule. [safe] is a protocol logic in the style of resource
    algebras: every thread owns a resource, the invariant speaks about the
    sum of all of them, and a step may change the thread's own resource
    only in ways the invariant survives whatever the others own. *)

From stdpp Require Import gmultiset.
From S2P Require Import Prelude.

Module Atomic.

Section Proc.
Context {W : Type}.

Inductive Proc (A : Type) : Type :=
| Ret (a : A)
| Panic
| Atom (X : Type) (q : W -> X * W) (k : X -> Proc A).

#[global] Arguments Ret {A} a.
#[global] Arguments Panic {A}.
#[global] Arguments Atom {A X} q k.

Fixpoint bind {A B} (p : Proc A) (f : A -> Proc B) : Proc B :=
  match p with
  | Ret a => f a
  | Panic => Panic
  | Atom q k => Atom q (fun x => bind (k x) f)
  end.

(** One action and nothing else. *)
Definition atom {X} (q : W -> X * W) : Proc X := Atom q Ret.

(** The handler alone; [None] is a panic. *)
Fixpoint run {A} (p : Proc A) (w : W) : option A * W :=
  match p with
  | Ret a => (Some a, w)
  | Panic => (None, w)
  | Atom q k => let '(x, w') := q w in run (k x) w'
  end.

Lemma run_bind {A B} (p : Proc A) (f : A -> Proc B) w :
  run (bind p f) w = match run p w with
                     | (Some a, w') => run (f a) w'
                     | (None, w') => (None, w')
                     end.
Proof.
  revert w. induction p as [a| |X q k IH]; intros w; [done|done|].
  cbn. destruct (q w) as [x w']. apply IH.
Qed.

(** What holds when the handler, alone, ends with a value. *)
Definition ends {A} (Q : A -> W -> Prop) (p : Proc A) (w : W) : Prop :=
  match run p w with (Some a, w') => Q a w' | (None, _) => True end.

Lemma ends_seq {A B} (R : A -> W -> Prop) (Q : B -> W -> Prop) (p : Proc A) (f : A -> Proc B) w :
  ends R p w -> (forall a w', R a w' -> ends Q (f a) w') -> ends Q (bind p f) w.
Proof.
  unfold ends. intros Hp Hf. rewrite run_bind. destruct (run p w) as [[a|] w']; [by apply Hf | done].
Qed.

Lemma ends_mono {A} (R Q : A -> W -> Prop) (p : Proc A) w :
  ends R p w -> (forall a w', R a w' -> Q a w') -> ends Q p w.
Proof. unfold ends. destruct (run p w) as [[a|] w']; auto. Qed.

Lemma ends_ret {A} (Q : A -> W -> Prop) a w : Q a w -> ends Q (Ret a) w.
Proof. done. Qed.

Lemma ends_atom {X} (Q : X -> W -> Prop) (q : W -> X * W) w : Q (q w).1 (q w).2 -> ends Q (atom q) w.
Proof. unfold ends, atom. cbn. by destruct (q w). Qed.

(** ** Pools and schedules *)

(** One step of a schedule: a thread performs its next action, or the
    environment acts. *)
Inductive Event := Step (i : nat) | Env (f : W -> W).

Definition advance {A} (p : Proc A) (w : W) : Proc A * W :=
  match p with
  | Atom q k => let '(x, w') := q w in (k x, w')
  | _ => (p, w)
  end.

Definition execOne {A} (e : Event) (c : list (Proc A) * W) : list (Proc A) * W :=
  match e with
  | Env f => (c.1, f c.2)
  | Step i =>
      match c.1 !! i with
      | Some p => let '(p', w') := advance p c.2 in (<[i := p']> c.1, w')
      | None => c
      end
  end.

Definition exec {A} (es : list Event) (c : list (Proc A) * W) : list (Proc A) * W :=
  foldl (fun c e => execOne e c) c es.

(** The outcome of thread [i], if it has ended with a value. *)
Definition outcome {A} (ps : list (Proc A)) (i : nat) : option A :=
  match ps !! i with Some (Ret a) => Some a | _ => None end.

Lemma outcome_Some {A} (ps : list (Proc A)) i a : outcome ps i = Some a -> ps !! i = Some (Ret a).
Proof. unfold outcome. destruct (ps !! i) as [[]|]; congruence. Qed.

(** ** The protocol logic *)

Class Resource (R : Type) := {
  rop : R -> R -> R;
  rid : R;
  rop_assoc a b c : rop a (rop b c) = rop (rop a b) c;
  rop_comm a b : rop a b = rop b a;
  rop_id a : rop rid a = a
}.

Context {R : Type} `{Resource R}.

(** All resources together. *)
Definition total (rs : list R) : R := foldr rop rid rs.

Lemma total_app_mid l r l' : total (l ++ r :: l') = rop r (total (l ++ l')).
Proof.
  unfold total. induction l as [|a l IH]; [done|]. cbn. rewrite IH, !rop_assoc. f_equal. apply rop_comm.
Qed.

Lemma total_lookup rs i r : rs !! i = Some r -> exists rest, total rs = rop r rest
  /\ forall r', total (<[i := r']> rs) = rop r' rest.
Proof.
  intros Hi. pose proof (lookup_lt_Some _ _ _ Hi) as Hlt.
  exists (total (take i rs ++ drop (S i) rs)). split.
  - rewrite <- (take_drop_middle rs i r Hi) at 1. apply total_app_mid.
  - intros r'. rewrite insert_take_drop by done. apply total_app_mid.
Qed.

Lemma total_none n : total (replicate n rid) = rid.
Proof. induction n as [|n IH]; [done|]. unfold total in *. cbn. rewrite IH. apply rop_id. Qed.

Context (Inv : R -> W -> Prop).

Fixpoint safe {A} (post : R -> A -> Prop) (r : R) (p : Proc A) : Prop :=
  match p with
  | Ret a => post r a
  | Panic => True
  | Atom q k => forall rest w, Inv (rop r rest) w ->
      exists r', Inv (rop r' rest) (q w).2 /\ safe post r' (k (q w).1)
  end.

Lemma safe_bind {A B} (post : R -> B -> Prop) (mid : R -> A -> Prop) r (p : Proc A) (f : A -> Proc B) :
  safe mid r p -> (forall r' a, mid r' a -> safe post r' (f a)) -> safe post r (bind p f).
Proof.
  revert r. induction p as [a| |X q k IH]; intros r Hp Hf; cbn in *; [by apply Hf | done|].
  intros rest w Hw. destruct (Hp rest w Hw) as (r' & Hr & Hk). exists r'. auto.
Qed.

Lemma safe_mono {A} (post post' : R -> A -> Prop) r (p : Proc A) :
  (forall r a, post r a -> post' r a) -> safe post r p -> safe post' r p.
Proof.
  intros Hm. revert r. induction p as [a| |X q k IH]; intros r Hp; cbn in *; [by apply Hm | done|].
  intros rest w Hw. destruct (Hp rest w Hw) as (r' & Hr & Hk). exists r'. auto.
Qed.

(** A handler alone keeps the invariant too. *)
Lemma run_safe {A} (post : R -> A -> Prop) r rest (p : Proc A) w :
  safe post r p -> Inv (rop r rest) w -> exists r', Inv (rop r' rest) (run p w).2.
Proof.
  revert r w. induction p as [a| |X q k IH]; intros r w Hp HI; cbn in *; [by exists r..|].
  destruct (Hp rest w HI) as (r' & HI' & Hk). destruct (q w) as [x w']. by apply (IH x r').
Qed.

Lemma Forall3_insert_all {X Y Z} (P : X -> Y -> Z -> Prop) l m n i x y z :
  Forall3 P l m n -> P x y z -> Forall3 P (<[i := x]> l) (<[i := y]> m) (<[i := z]> n).
Proof.
  intros HF Hp. revert i. induction HF; intros [|i]; cbn; constructor; auto.
Qed.

(** The environment keeps the invariant where the history takes it. *)
Lemma exec_safe_along {A} (posts : list (R -> A -> Prop)) es ps w rs :
  Forall3 (fun post r p => safe post r p) posts rs ps -> Inv (total rs) w ->
  (forall n f, es !! n = Some (Env f) -> let w' := (exec (take n es) (ps, w)).2 in
     forall t, Inv t w' -> Inv t (f w')) ->
  exists rs', Forall3 (fun post r p => safe post r p) posts rs' (exec es (ps, w)).1
              /\ Inv (total rs') (exec es (ps, w)).2.
Proof.
  revert ps w rs. induction es as [|e es IH]; intros ps w rs HF HI He; [by exists rs|].
  cbn [exec foldl]. assert (He' : forall n f, es !! n = Some (Env f) ->
    let w' := (exec (take n es) (execOne e (ps, w))).2 in forall t, Inv t w' -> Inv t (f w'))
    by (intros n f Hf; apply (He (S n) f Hf)).
  destruct e as [i|f]; cbn [execOne fst snd] in *.
  - destruct (ps !! i) as [p|] eqn:Hp; cbn [advance] in *; [|by apply (IH ps w rs)].
    destruct (Forall3_lookup_r _ _ _ _ _ _ HF Hp) as (post & r & Hpost & Hr & Hs).
    destruct p as [a| |X q k]; cbn [advance].
    1,2: cbn [advance] in He'; rewrite list_insert_id in * by done; by apply (IH ps w rs).
    destruct (total_lookup rs i r Hr) as (rest & Et & Eu). rewrite Et in HI.
    destruct (Hs rest w HI) as (r' & HI' & Hs'). cbn [advance] in He'. destruct (q w) as [x w'] eqn:Eq. cbn in *.
    apply (IH _ _ (<[i := r']> rs)); [|by rewrite Eu | done].
    rewrite <- (list_insert_id posts i post) by done. by apply Forall3_insert_all.
  - apply (IH ps (f w) rs); [done| |done]. by apply (He O f).
Qed.

Lemma exec_safe {A} (posts : list (R -> A -> Prop)) es ps w rs :
  Forall3 (fun post r p => safe post r p) posts rs ps -> Inv (total rs) w ->
  (forall f, Env f ∈ es -> forall t w, Inv t w -> Inv t (f w)) ->
  exists rs', Forall3 (fun post r p => safe post r p) posts rs' (exec es (ps, w)).1
              /\ Inv (total rs') (exec es (ps, w)).2.
Proof.
  intros HF HI He. apply (exec_safe_along posts es ps w rs); [done | done|].
  intros n f Hf. cbv zeta. intros t. apply He. by eapply list_elem_of_lookup_2.
Qed.

(** Every handler has ended with a value. *)
Definition allEnded {A} (ps : list (Proc A)) : Prop := Forall (fun p => exists a, p = Ret a) ps.

Lemma ended_posts {A} (post : R -> A -> Prop) n rs (ps : list (Proc A)) :
  Forall3 (fun post r p => safe post r p) (replicate n post) rs ps -> allEnded ps ->
  Forall (fun r => exists a, post r a) rs.
Proof.
  remember (replicate n post) as posts eqn:Ep. intros HF. revert n Ep.
  induction HF as [|post' r p posts rs ps Hs HF IH]; intros n Ep He; [constructor|].
  destruct n; [done|]. injection Ep as -> Ep. apply Forall_cons in He as [[a ->] He].
  constructor; [by exists a | by eapply IH].
Qed.

End Proc.

#[global] Arguments Proc : clear implicits.
#[global] Arguments Event : clear implicits.

Notation "x <-~ p ;; k" := (bind p (fun x => k))
  (at level 100, p at next level, right associativity) : go_scope.

(** ** Resources *)

(** A counter. *)
#[export] Instance nat_Resource : Resource nat.
Proof. refine {| rop := Nat.add; rid := O |}; intros; lia. Defined.

(** Shared knowledge. *)
#[export] Instance gset_Resource {K} `{Countable K} : Resource (gset K).
Proof. refine {| rop := union; rid := ∅ |}; intros; set_solver. Defined.

(** Tokens, each counted. *)
#[export] Instance gmultiset_Resource {K} `{Countable K} : Resource (gmultiset K).
Proof. refine {| rop := disj_union; rid := ∅ |}; intros; multiset_solver. Defined.

(** Nothing. *)
#[export] Instance unit_Resource : Resource unit.
Proof. refine {| rop := fun _ _ => tt; rid := tt |}; [done | done | by intros []]. Defined.

(** Two of them side by side. *)
#[export] Instance prod_Resource {A B} `{Resource A, Resource B} : Resource (A * B).
Proof.
  refine {| rop := fun x y => (rop x.1 y.1, rop x.2 y.2); rid := (rid, rid) |}.
  - intros [] [] []. cbn. by rewrite !rop_assoc.
  - intros [] []. cbn. by rewrite (rop_comm a), (rop_comm b).
  - intros []. cbn. by rewrite !rop_id.
Defined.

Lemma total_elem {K} `{Countable K} (l : list (gset K)) i s x : l !! i = Some s -> x ∈ s -> x ∈ total l.
Proof.
  revert i. induction l as [|y l IH]; intros [|i] Hi Hx; [done|done| |].
  - injection Hi as ->. change (x ∈ s ∪ total l). by apply elem_of_union_l.
  - change (x ∈ y ∪ total l). apply elem_of_union_r. by eapply IH.
Qed.

(** ** Handlers of a part of the world *)

Section Zoom.
Context {V W : Type} (get : W -> V) (put : V -> W -> W).

Fixpoint zoom {A} (p : Proc V A) : Proc W A :=
  match p with
  | Ret a => Ret a
  | Panic => Panic
  | Atom q k => Atom (fun w => let '(x, v) := q (get w) in (x, put v w)) (fun x => zoom (k x))
  end.

(** What every answer of a handler satisfies, and that it keeps [I],
    whatever else happens to its part within [I]. *)
Fixpoint answers {A} (I : V -> Prop) (P : A -> Prop) (p : Proc V A) : Prop :=
  match p with
  | Ret a => P a
  | Panic => True
  | Atom q k => forall v, I v -> I (q v).2 /\ answers I P (k (q v).1)
  end.

(** A part of which the invariant knows only [I]. *)
Lemma safe_zoom_blind {R A} `{Resource R} (Inv : R -> W -> Prop) I (P : A -> Prop) r (p : Proc V A) :
  (forall r w, Inv r w -> I (get w)) -> (forall r v w, Inv r w -> I v -> Inv r (put v w)) ->
  answers I P p -> safe Inv (fun r' a => r' = r /\ P a) r (zoom p).
Proof.
  intros Hget Hput. induction p as [a| |X q k IH]; intros Hp; cbn; [done | done|]. intros rest w HI.
  exists r. cbn in Hp. destruct (Hp (get w)) as [HI' Hk]; [by eapply Hget|]. destruct (q (get w)) as [x v].
  split; [by apply Hput | by apply IH].
Qed.

(** A part with a protocol of its own, beside a part it does not touch;
    [F] is what the rest of the world owns of the protocol. *)
Lemma safe_zoom {R S A} `{Resource R, Resource S} (Inv : R -> V -> Prop) (F : W -> R) (Own : S -> W -> Prop)
    (post : R -> A -> Prop) r s (p : Proc V A) :
  (forall v w, get (put v w) = v) -> (forall v w, F (put v w) = F w) -> (forall s v w, Own s w -> Own s (put v w)) ->
  safe Inv post r p ->
  safe (fun rs w => Inv (rop (F w) rs.1) (get w) /\ Own rs.2 w) (fun rs a => post rs.1 a /\ rs.2 = s) (r, s) (zoom p).
Proof.
  intros Hget HF Hown. revert r. induction p as [a| |X q k IH]; intros r Hp; cbn in *; [done | done|].
  intros [rest srest] w [HI HO]. cbn in *.
  assert (Ex : forall x, rop (F w) (rop x rest) = rop x (rop (F w) rest))
    by (intros x; by rewrite !rop_assoc, (rop_comm (F w))).
  rewrite Ex in HI. destruct (Hp (rop (F w) rest) (get w) HI) as (r' & HI' & Hk).
  exists (r', s). destruct (q (get w)) as [x v]. cbn in *. rewrite Hget, HF, Ex.
  split; [split; [done | by apply Hown]|]. by apply IH.
Qed.

End Zoom.

End Atomic.
