(* ===== verification/FleetDb.v ===== *)
(** * Hosts, agents and join tokens: tables and statements

    The tables [hosts], [host_agents] and [host_agent_join_tokens] of
    [pkg/db/migrations] with their constraints, and the statements of
    [pkg/db/generated/host.sql.go], [host_agent_host.sql.go],
    [host_agent.sql.go] and [host_agent_join_token.sql.go] that the
    registration and host handlers run. A statement is one atomic action
    on the shared world; the fault that meets it says whether it ran and
    whether its answer arrived. *)

From stdpp Require Import sorting.
From S2P Require Import Prelude Rbac IamDb IamStore AgentToken AgentIdentity Atomic.

Module FleetDb.
Import IamDb(SqlErr(..), string_data_right_truncation, foreign_key_violation,
  unique_violation, check_violation, fits, someRow, firstRow, rowsWhere, deleteWhere, colEq, isNull, one).
Import Rbac(ScopePlatform, ScopeWorkspace, ScopeNamespace).
Import Atomic.

(** ** Rows *)

(** Where a row lives: the columns [scope], [workspace_id] and
    [namespace_id] of every scoped table. *)
Record Tenancy := mkTenancy { tScope : string; tWorkspaceID : option Z; tNamespaceID : option Z }.

#[export] Instance Tenancy_eq_dec : EqDecision Tenancy.
Proof. solve_decision. Defined.
#[export] Instance Tenancy_countable : Countable Tenancy.
Proof.
  refine (inj_countable' (fun t => (tScope t, tWorkspaceID t, tNamespaceID t))
    (fun p => mkTenancy p.1.1 p.1.2 p.2) _). by intros [].
Defined.

(** What an agent reports about its machine. *)
Record Facts := mkFacts {
  fHostname : string; fOS : string; fArch : string;
  fCPUCores : Z; fMemoryMB : Z; fDiskGB : Z; fPrimaryIP : string
}.

Record Host := mkHost {
  hName : string; hDisplayName : string; hDescription : string;
  hFacts : Facts; hTenancy : Tenancy; hSSHPort : Z;
  hOrigin : string; hConnectivityMode : string; hPrimaryIPOverride : string;
  hCreatedBy : option Z
}.

Record HostAgent := mkAgent {
  aAgentID : string; aTokenVersion : Z; aVersion : string; aInstanceID : string;
  aStatus : string; aConnectedAt : option Z; aLastSeenAt : option Z; aClockSkewMs : Z;
  aProductUUID : string; aMachineID : string; aMACs : list string;
  aIdentitySource : string; aBootAt : option Z
}.

Record JoinToken := mkJoinToken {
  jName : string; jHash : list Z; jTenancy : Tenancy; jMaxUses : Z; jUsedCount : Z;
  jExpiresAt : Z; jCreatedBy : option Z; jTargetHostID : option Z
}.

(** The host row as [identity.go] sees it. *)
Definition identRow (hostID : Z) (a : HostAgent) : Ident.AgentRow :=
  {| Ident.HostID := hostID; Ident.AgentID := aAgentID a; Ident.Status := aStatus a;
     Ident.LastSeenAt := aLastSeenAt a; Ident.rProductUUID := aProductUUID a;
     Ident.rMachineID := aMachineID a; Ident.rMACs := aMACs a;
     Ident.IdentitySource := aIdentitySource a; Ident.rBootAt := aBootAt a;
     Ident.boot_nonce := ""; Ident.prev_boot_nonce := ""; Ident.ConflictAt := None;
     Ident.ForeignMachineAt := None; Ident.ForeignMachineUuid := "" |}.

(** A [hostevent.Event]; the tenancy is filled in by some publishers. *)
Record HostEvent := mkEvent { evHostID : Z; evTenancy : option Tenancy; evDeleted : bool }.

(** How a statement fares: it runs; it fails without effect; it runs but
    the answer is lost with the connection. *)
Inductive Fault := Fine | Lost | Unanswered.

Record World := mkWorld {
  hosts : gmap Z Host;
  agents : gmap Z HostAgent;       (** keyed by [host_id] *)
  tokens : gmap Z JoinToken;
  hostSeq : Z; tokenSeq : Z;
  userIDs : gset Z; workspaceIDs : gset Z; namespaceIDs : gset Z;
  clock : Z;                       (** nanoseconds *)
  faults : list Fault;
  drawn : nat;                     (** random values drawn so far *)
  events : list HostEvent
}.

Definition set_hosts (t : gmap Z Host) (w : World) : World :=
  mkWorld t (agents w) (tokens w) (hostSeq w) (tokenSeq w) (userIDs w) (workspaceIDs w)
    (namespaceIDs w) (clock w) (faults w) (drawn w) (events w).
Definition set_agents (t : gmap Z HostAgent) (w : World) : World :=
  mkWorld (hosts w) t (tokens w) (hostSeq w) (tokenSeq w) (userIDs w) (workspaceIDs w)
    (namespaceIDs w) (clock w) (faults w) (drawn w) (events w).
Definition set_tokens (t : gmap Z JoinToken) (w : World) : World :=
  mkWorld (hosts w) (agents w) t (hostSeq w) (tokenSeq w) (userIDs w) (workspaceIDs w)
    (namespaceIDs w) (clock w) (faults w) (drawn w) (events w).
Definition set_seqs (h t : Z) (w : World) : World :=
  mkWorld (hosts w) (agents w) (tokens w) h t (userIDs w) (workspaceIDs w)
    (namespaceIDs w) (clock w) (faults w) (drawn w) (events w).
Definition set_tenants (us ws ns : gset Z) (w : World) : World :=
  mkWorld (hosts w) (agents w) (tokens w) (hostSeq w) (tokenSeq w) us ws ns
    (clock w) (faults w) (drawn w) (events w).
Definition set_clock (c : Z) (w : World) : World :=
  mkWorld (hosts w) (agents w) (tokens w) (hostSeq w) (tokenSeq w) (userIDs w) (workspaceIDs w)
    (namespaceIDs w) c (faults w) (drawn w) (events w).
Definition set_faults (f : list Fault) (w : World) : World :=
  mkWorld (hosts w) (agents w) (tokens w) (hostSeq w) (tokenSeq w) (userIDs w) (workspaceIDs w)
    (namespaceIDs w) (clock w) f (drawn w) (events w).
Definition set_drawn (n : nat) (w : World) : World :=
  mkWorld (hosts w) (agents w) (tokens w) (hostSeq w) (tokenSeq w) (userIDs w) (workspaceIDs w)
    (namespaceIDs w) (clock w) (faults w) n (events w).
Definition publish (e : HostEvent) (w : World) : World :=
  mkWorld (hosts w) (agents w) (tokens w) (hostSeq w) (tokenSeq w) (userIDs w) (workspaceIDs w)
    (namespaceIDs w) (clock w) (faults w) (drawn w) (events w ++ [e]).

(** ** Running statements *)

(** A statement may draw from a sequence even when it fails. *)
Definition Stmt (A : Type) : Type := World -> result SqlErr A * World.

Definition popFault (w : World) : Fault * World :=
  match faults w with
  | [] => (Fine, w)
  | f :: fs => (f, set_faults fs w)
  end.

Definition runStmt {A} (st : Stmt A) (w : World) : result SqlErr A * World :=
  match popFault w with
  | (Fine, w') => st w'
  | (Lost, w') => (Err ErrConn, w')
  | (Unanswered, w') => (Err ErrConn, (st w').2)
  end.

Definition Q {A} (st : Stmt A) : Proc World (result SqlErr A) := atom (runStmt st).

(** [Channel.Publish]; its errors are only logged. *)
Definition Publish (e : HostEvent) : Proc World unit := atom (fun w => (tt, publish e w)).

(** [time.Now]. *)
Definition Now : Proc World Z := atom (fun w => (clock w, w)).

(** ** Scope filters ([pkg/apis/shared/scope]) *)

Record Filter := mkFilter { sfWorkspaceID : option Z; sfNamespaceID : option Z }.

Definition FromIDs (workspaceID namespaceID : Z) : Filter :=
  mkFilter (if 0 <? workspaceID then Some workspaceID else None)
           (if 0 <? namespaceID then Some namespaceID else None).

Definition PartsForCreate (f : Filter) : Tenancy :=
  match sfNamespaceID f with
  | Some _ => mkTenancy ScopeNamespace (sfWorkspaceID f) (sfNamespaceID f)
  | None =>
      match sfWorkspaceID f with
      | Some _ => mkTenancy ScopeWorkspace (sfWorkspaceID f) None
      | None => mkTenancy ScopePlatform None None
      end
  end.

(** [filter IS NULL OR column IS NOT DISTINCT FROM filter]. *)
Definition passes (filter column : option Z) : bool :=
  match filter with None => true | Some _ => bool_decide (column = filter) end.

Definition inScope (f : Filter) (t : Tenancy) : bool :=
  passes (sfWorkspaceID f) (tWorkspaceID t) && passes (sfNamespaceID f) (tNamespaceID t).

(** The CHECK on the tenancy columns, shared by the tables. *)
Definition scopeOk (t : Tenancy) : bool :=
  ((tScope t =s ScopePlatform) && isNull (tWorkspaceID t) && isNull (tNamespaceID t))
  || ((tScope t =s ScopeWorkspace) && negb (isNull (tWorkspaceID t)) && isNull (tNamespaceID t))
  || ((tScope t =s ScopeNamespace) && negb (isNull (tNamespaceID t))).

Definition refOk (col : option Z) (ids : gset Z) : bool :=
  match col with None => true | Some i => bool_decide (i ∈ ids) end.

(** ** [hosts] *)

Definition factsFit (f : Facts) : bool :=
  fits 255 (fHostname f) && fits 100 (fOS f) && fits 50 (fArch f) && fits 45 (fPrimaryIP f).

Definition hostFits (h : Host) : bool :=
  fits 255 (hName h) && fits 255 (hDisplayName h) && factsFit (hFacts h)
  && fits 45 (hPrimaryIPOverride h).

(** The three unique indexes on the name, one per scope. *)
Definition hostClash (h h' : Host) : bool :=
  let t := hTenancy h in let t' := hTenancy h' in
  (hName h =s hName h') && (tScope t =s tScope t') &&
  ((tScope t =s ScopePlatform)
   || ((tScope t =s ScopeWorkspace) && bool_decide (tWorkspaceID t = tWorkspaceID t'))
   || ((tScope t =s ScopeNamespace) && bool_decide (tNamespaceID t = tNamespaceID t'))).

Definition insertHost (h : Host) : Stmt Z :=
  fun w =>
    let id := hostSeq w + 1 in
    let w' := set_seqs id (tokenSeq w) w in
    if negb (hostFits h) then (Err (PgError string_data_right_truncation), w')
    else if negb (scopeOk (hTenancy h)) then (Err (PgError check_violation), w')
    else if someRow (fun _ h' => hostClash h h') (hosts w) then (Err (PgError unique_violation), w')
    else if negb (refOk (hCreatedBy h) (userIDs w)) then (Err (PgError foreign_key_violation), w')
    else (Ok id, set_hosts (<[id := h]> (hosts w)) w').

Definition noFacts : Facts := mkFacts "" "" "" 0 0 0 "".

Definition CreateHost (name displayName description : string) (t : Tenancy) (sshPort : Z)
    (primaryIP : string) (createdBy : option Z) : Stmt Z :=
  insertHost (mkHost name displayName description noFacts t sshPort "manual" "ssh" primaryIP createdBy).

Definition CreateAgentHost (name displayName : string) (f : Facts) (t : Tenancy)
    (createdBy : option Z) : Stmt Z :=
  insertHost (mkHost name displayName "" f t 22 "agent" "agent" "" createdBy).

Definition withFacts (f : Facts) (h : Host) : Host :=
  mkHost (hName h) (hDisplayName h) (hDescription h) f (hTenancy h) (hSSHPort h) (hOrigin h)
    "agent" (hPrimaryIPOverride h) (hCreatedBy h).

(** The number of rows updated. *)
Definition UpdateAgentHostFacts (id : Z) (f : Facts) : Stmt Z :=
  fun w => match hosts w !! id with
           | None => (Ok 0, w)
           | Some h =>
               if negb (factsFit f) then (Err (PgError string_data_right_truncation), w)
               else (Ok 1, set_hosts (<[id := withFacts f h]> (hosts w)) w)
           end.

Definition GetAgentHostScope (id : Z) : Stmt Tenancy :=
  fun w => (one (hTenancy <$> hosts w !! id), w).
Definition HostScopeByID : Z -> Stmt Tenancy := GetAgentHostScope.

(** Deleting a host cascades to its agent and to the tokens bound to it. *)
Definition dropHost (id : Z) (w : World) : World :=
  set_hosts (delete id (hosts w))
    (set_agents (delete id (agents w))
      (set_tokens (deleteWhere (fun _ j => colEq (jTargetHostID j) id) (tokens w)) w)).

(** Only when no agent is bound. *)
Definition DeleteAgentHost (id : Z) : Stmt Tenancy :=
  fun w => match hosts w !! id, agents w !! id with
           | Some h, None => (Ok (hTenancy h), dropHost id w)
           | _, _ => (Err ErrNoRows, w)
           end.

(** The row and the agent joined to it. *)
Definition GetHostByID (id : Z) (sf : Filter) : Stmt (Host * option HostAgent) :=
  fun w => (one (h ← hosts w !! id;
                 if inScope sf (hTenancy h) then Some (h, agents w !! id) else None), w).

Definition describe (displayName description : string) (h : Host) : Host :=
  mkHost (hName h) displayName description (hFacts h) (hTenancy h) (hSSHPort h) (hOrigin h)
    (hConnectivityMode h) (hPrimaryIPOverride h) (hCreatedBy h).

Definition UpdateHost (id : Z) (sf : Filter) (displayName description : string) : Stmt Z :=
  fun w => match hosts w !! id with
           | Some h =>
               if inScope sf (hTenancy h) then
                 if negb (fits 255 displayName) then (Err (PgError string_data_right_truncation), w)
                 else (Ok 1, set_hosts (<[id := describe displayName description h]> (hosts w)) w)
               else (Ok 0, w)
           | None => (Ok 0, w)
           end.

Definition DeleteHost (id : Z) (sf : Filter) : Stmt Tenancy :=
  fun w => match hosts w !! id with
           | Some h => if inScope sf (hTenancy h) then (Ok (hTenancy h), dropHost id w)
                       else (Err ErrNoRows, w)
           | None => (Err ErrNoRows, w)
           end.

(** ** [host_agents] *)

(** [ORDER BY host_id]. *)
Definition byHost (p q : Z * HostAgent) : Prop := p.1 <= q.1.
#[export] Instance byHost_dec : RelDecision byHost.
Proof. intros p q. unfold byHost. apply _. Defined.

Definition agentList (w : World) : list (Z * HostAgent) :=
  merge_sort byHost (map_to_list (agents w)).

Definition carries (uuids : list string) (a : HostAgent) : bool :=
  negb (aProductUUID a =s "") && bool_decide (aProductUUID a ∈ uuids).

Definition FindHostAgentsByProductUUID (uuids : list string) : Stmt (list (Z * HostAgent)) :=
  fun w => (Ok (filter (fun p => Is_true (carries uuids p.2)) (agentList w)), w).

Definition FindHostAgentsByMachineID (machineID : string) : Stmt (list (Z * HostAgent)) :=
  fun w => (Ok (filter (fun p => Is_true (negb (aMachineID p.2 =s "") && (aMachineID p.2 =s machineID)))
                  (agentList w)), w).

Definition byAgentID (agentID : string) (w : World) : option (Z * HostAgent) :=
  firstRow (fun _ a => aAgentID a =s agentID) (agents w).

Definition GetHostAgentByAgentID (agentID : string) : Stmt (Z * HostAgent) :=
  fun w => (one (byAgentID agentID w), w).

Definition GetHostAgentByHostID (hostID : Z) : Stmt (Z * HostAgent) :=
  fun w => (one ((fun a => (hostID, a)) <$> agents w !! hostID), w).

(** A fingerprint as it is stored ([FingerprintInput]). *)
Record StoredPrint := mkPrint {
  spProductUUID : string; spMachineID : string; spMACs : list string;
  spSource : string; spBootAt : option Z
}.

Definition numeric_value_out_of_range : string := "22003".

(** The rebound row: identity refreshed, tokens issued before revoked. *)
Definition rebound (version : string) (p : StoredPrint) (a : HostAgent) : HostAgent :=
  mkAgent (aAgentID a) (aTokenVersion a + 1) version (aInstanceID a) (aStatus a) (aConnectedAt a)
    (aLastSeenAt a) (aClockSkewMs a) (spProductUUID p) (spMachineID p) (spMACs p) (spSource p) (spBootAt p).

Definition RebindHostAgent (hostID : Z) (version : string) (p : StoredPrint) (agentID : string)
    : Stmt (Z * HostAgent) :=
  fun w => match byAgentID agentID w with
           | None => (Err ErrNoRows, w)
           | Some (from, a) =>
               if 2147483647 <=? aTokenVersion a then (Err (PgError numeric_value_out_of_range), w)
               else
                 let others := delete from (agents w) in
                 if bool_decide (is_Some (others !! hostID)) then (Err (PgError unique_violation), w)
                 else if negb (bool_decide (is_Some (hosts w !! hostID)))
                 then (Err (PgError foreign_key_violation), w)
                 else let a' := rebound version p a in
                      (Ok (hostID, a'), set_agents (<[hostID := a']> others) w)
           end.

Definition newAgent (agentID version : string) (p : StoredPrint) : HostAgent :=
  mkAgent agentID 1 version "" "offline" None None 0 (spProductUUID p) (spMachineID p) (spMACs p)
    (spSource p) (spBootAt p).

Definition InsertHostAgent (hostID : Z) (agentID version : string) (p : StoredPrint)
    : Stmt (Z * HostAgent) :=
  fun w =>
    if bool_decide (is_Some (agents w !! hostID)) || bool_decide (is_Some (byAgentID agentID w))
    then (Err (PgError unique_violation), w)
    else if negb (bool_decide (is_Some (hosts w !! hostID))) then (Err (PgError foreign_key_violation), w)
    else let a := newAgent agentID version p in
         (Ok (hostID, a), set_agents (<[hostID := a]> (agents w)) w).

Definition DeleteHostAgentByHostID (hostID : Z) : Stmt unit :=
  fun w => (Ok tt, set_agents (delete hostID (agents w)) w).

Definition MoveHostAgentBinding (toHostID fromHostID : Z) : Stmt (Z * HostAgent) :=
  fun w => match agents w !! fromHostID with
           | None => (Err ErrNoRows, w)
           | Some a =>
               let others := delete fromHostID (agents w) in
               if bool_decide (is_Some (others !! toHostID)) then (Err (PgError unique_violation), w)
               else if negb (bool_decide (is_Some (hosts w !! toHostID)))
               then (Err (PgError foreign_key_violation), w)
               else (Ok (toHostID, a), set_agents (<[toHostID := a]> others) w)
           end.

(** ** [host_agent_join_tokens] *)

Definition tokenOk (j : JoinToken) : bool :=
  scopeOk (jTenancy j) && (0 <? jMaxUses j) && (0 <=? jUsedCount j) && (jUsedCount j <=? jMaxUses j)
  && (isNull (jTargetHostID j) || (jMaxUses j =? 1)).

Definition tokenRefsOk (j : JoinToken) (w : World) : bool :=
  refOk (tWorkspaceID (jTenancy j)) (workspaceIDs w) && refOk (tNamespaceID (jTenancy j)) (namespaceIDs w)
  && refOk (jCreatedBy j) (userIDs w) && refOk (jTargetHostID j) (dom (hosts w)).

Definition CreateHostAgentJoinToken (j : JoinToken) : Stmt (Z * JoinToken) :=
  fun w =>
    let id := tokenSeq w + 1 in
    let w' := set_seqs (hostSeq w) id w in
    if negb (fits 255 (jName j)) then (Err (PgError string_data_right_truncation), w')
    else if negb (tokenOk j) then (Err (PgError check_violation), w')
    else if someRow (fun _ j' => bool_decide (jHash j = jHash j')) (tokens w)
    then (Err (PgError unique_violation), w')
    else if negb (tokenRefsOk j w) then (Err (PgError foreign_key_violation), w')
    else (Ok (id, j), set_tokens (<[id := j]> (tokens w)) w').

Definition GetHostAgentJoinTokenByID (id : Z) (sf : Filter) : Stmt JoinToken :=
  fun w => (one (j ← tokens w !! id; if inScope sf (jTenancy j) then Some j else None), w).

Definition DeleteHostAgentJoinToken (id : Z) (sf : Filter) : Stmt Z :=
  fun w => match tokens w !! id with
           | Some j => if inScope sf (jTenancy j) then (Ok 1, set_tokens (delete id (tokens w)) w)
                       else (Ok 0, w)
           | None => (Ok 0, w)
           end.

Definition live (hash : list Z) (now : Z) (j : JoinToken) : bool :=
  bool_decide (jHash j = hash) && (now <? jExpiresAt j) && (jUsedCount j <? jMaxUses j).

Definition PeekHostAgentJoinToken (hash : list Z) : Stmt (Z * JoinToken) :=
  fun w => (one (firstRow (fun _ j => live hash (clock w) j) (tokens w)), w).

Definition withUsed (n : Z) (j : JoinToken) : JoinToken :=
  mkJoinToken (jName j) (jHash j) (jTenancy j) (jMaxUses j) n (jExpiresAt j) (jCreatedBy j) (jTargetHostID j).

Definition ConsumeHostAgentJoinToken (hash : list Z) : Stmt (Z * JoinToken) :=
  fun w => match firstRow (fun _ j => live hash (clock w) j) (tokens w) with
           | None => (Err ErrNoRows, w)
           | Some (id, j) =>
               let j' := withUsed (jUsedCount j + 1) j in
               (Ok (id, j'), set_tokens (<[id := j']> (tokens w)) w)
           end.

Definition RefundHostAgentJoinToken (id : Z) : Stmt unit :=
  fun w => match tokens w !! id with
           | Some j =>
               if 0 <? jUsedCount j
               then (Ok tt, set_tokens (<[id := withUsed (jUsedCount j - 1) j]> (tokens w)) w)
               else (Ok tt, w)
           | None => (Ok tt, w)
           end.

Definition withTarget (h : Z) (j : JoinToken) : JoinToken :=
  mkJoinToken (jName j) (jHash j) (jTenancy j) (jMaxUses j) (jUsedCount j) (jExpiresAt j) (jCreatedBy j) (Some h).

Definition BindHostAgentJoinTokenTarget (id hostID : Z) : Stmt unit :=
  fun w => match tokens w !! id with
           | Some j =>
               if isNull (jTargetHostID j) && (jMaxUses j =? 1) then
                 if bool_decide (is_Some (hosts w !! hostID))
                 then (Ok tt, set_tokens (<[id := withTarget hostID j]> (tokens w)) w)
                 else (Err (PgError foreign_key_violation), w)
               else (Ok tt, w)
           | None => (Ok tt, w)
           end.

(** ** The rest of the system, as it touches these tables *)

(** The columns a session writes: [MarkHostAgentOnline],
    [MarkHostAgentOffline], [TouchHostAgent] and the sweeps. *)
Record Session := mkSession {
  seInstanceID : string; seStatus : string; seConnectedAt : option Z;
  seLastSeenAt : option Z; seClockSkewMs : Z; seVersion : string
}.

Definition inSession (s : Session) (a : HostAgent) : HostAgent :=
  mkAgent (aAgentID a) (aTokenVersion a) (seVersion s) (seInstanceID s) (seStatus s) (seConnectedAt s)
    (seLastSeenAt s) (seClockSkewMs s) (aProductUUID a) (aMachineID a) (aMACs a) (aIdentitySource a) (aBootAt a).

(** [UpdateHostAgentFingerprint]. *)
Definition refreshed (machineID : string) (macs : list string) (bootAt : option Z) (a : HostAgent) : HostAgent :=
  mkAgent (aAgentID a) (aTokenVersion a) (aVersion a) (aInstanceID a) (aStatus a) (aConnectedAt a)
    (aLastSeenAt a) (aClockSkewMs a) (aProductUUID a) machineID macs (aIdentitySource a) bootAt.

Definition disown (u : Z) (c : option Z) : option Z := if colEq c u then None else c.

Definition forgetHost (u : Z) (h : Host) : Host :=
  mkHost (hName h) (hDisplayName h) (hDescription h) (hFacts h) (hTenancy h) (hSSHPort h) (hOrigin h)
    (hConnectivityMode h) (hPrimaryIPOverride h) (disown u (hCreatedBy h)).
Definition forgetToken (u : Z) (j : JoinToken) : JoinToken :=
  mkJoinToken (jName j) (jHash j) (jTenancy j) (jMaxUses j) (jUsedCount j) (jExpiresAt j)
    (disown u (jCreatedBy j)) (jTargetHostID j).

Inductive Outside :=
| Tick (d : N)
| SessionWrite (hostID : Z) (s : Session)
| FingerprintWrite (hostID : Z) (machineID : string) (macs : list string) (bootAt : option Z)
| UserGone (u : Z)
| WorkspaceGone (ws : Z)
| NamespaceGone (ns : Z).

Definition outside (o : Outside) (w : World) : World :=
  match o with
  | Tick d => set_clock (clock w + Z.of_N d) w
  | SessionWrite h s => set_agents (alter (inSession s) h (agents w)) w
  | FingerprintWrite h m macs b => set_agents (alter (refreshed m macs b) h (agents w)) w
  | UserGone u =>
      set_hosts (forgetHost u <$> hosts w)
        (set_tokens (forgetToken u <$> tokens w)
          (set_tenants (userIDs w ∖ {[u]}) (workspaceIDs w) (namespaceIDs w) w))
  | WorkspaceGone i =>
      set_tokens (deleteWhere (fun _ j => colEq (tWorkspaceID (jTenancy j)) i) (tokens w))
        (set_tenants (userIDs w) (workspaceIDs w ∖ {[i]}) (namespaceIDs w) w)
  | NamespaceGone i =>
      set_tokens (deleteWhere (fun _ j => colEq (tNamespaceID (jTenancy j)) i) (tokens w))
        (set_tenants (userIDs w) (workspaceIDs w) (namespaceIDs w ∖ {[i]}) w)
  end.

End FleetDb.
