(* ===== verification/FleetStore.v ===== *)
(** * The host, agent and join-token stores

    [pkg/apis/compute/store/pg_agent_host.go] and [pg_host.go],
    [pkg/apis/agentgw/store/pg_agent.go] (binding and lookups) and
    [pg_join_token.go], as handlers over the statements of [FleetDb].
    Errors are those of [IamStore]; a transaction is one atomic action,
    which is exact for transactions that take the same advisory lock. *)

From stdpp Require Import sorting.
From S2P Require Import Prelude Rbac IamDb IamStore OidcStore AgentToken AgentIdentity Atomic FleetDb.

Module FleetStore.
Import IamDb(SqlErr(..)).
Import IamStore(GoErr(..), Sentinel(..), CheckPG, wrap, tagged, notFoundOr, FromDomain, NewBadRequest, NewConflictMessage).
Import Atomic FleetDb.

(** A store call: an error or an answer. *)
Abbreviation Call A := (Proc World (result GoErr A)).

Definition ok {A} (a : A) : Call A := Ret (Ok a).
Definition err {A} (e : GoErr) : Call A := Ret (Err e).

(** [x, err := p; if err != nil { return err }]. *)
Definition andThen {A B} (p : Call A) (k : A -> Call B) : Call B :=
  bind p (fun r => match r with Ok a => k a | Err e => err e end).

Notation "x <-? p ;; k" := (andThen p (fun x => k))
  (at level 100, p at next level, right associativity) : go_scope.

(** A statement, its error rewrapped. *)
Definition stmt {A} (f : SqlErr -> GoErr) (st : Stmt A) : Call A :=
  r <-~ Q st ;; Ret (match r with Ok a => Ok a | Err e => Err (f e) end).

Definition tell {A} (e : HostEvent) (a : A) : Call A := _ <-~ Publish e ;; ok a.

(** A row count of zero is not found. *)
Definition affected {A} (n : Z) (k : Call A) : Call A :=
  if n =? 0 then err (tagged ErrNotFound) else k.

(** ** [pgAgentHostStore] *)

Definition agentHostCreate (name displayName : string) (f : Facts) (t : Tenancy)
    (createdBy : option Z) : Call Z :=
  id <-? stmt CheckPG (CreateAgentHost name displayName f t createdBy) ;;
  tell (mkEvent id (Some t) false) id.

Definition agentHostGetScope (hostID : Z) : Call Tenancy :=
  stmt (notFoundOr wrap) (GetAgentHostScope hostID).

Definition agentHostDelete (hostID : Z) : Call unit :=
  t <-? stmt (notFoundOr CheckPG) (DeleteAgentHost hostID) ;;
  tell (mkEvent hostID (Some t) true) tt.

Definition agentHostUpdateFacts (hostID : Z) (f : Facts) : Call unit :=
  n <-? stmt CheckPG (UpdateAgentHostFacts hostID f) ;;
  affected n (tell (mkEvent hostID None false) tt).

(** ** [pgHostStore] *)

Record HostCreateInput := mkHostInput {
  hiName : string; hiDisplayName : string; hiDescription : string; hiTenancy : Tenancy;
  hiSSHPort : Z; hiPrimaryIP : string; hiCreatedBy : option Z
}.

Definition hostGetByID (id : Z) (sf : Filter) : Call (Host * option HostAgent) :=
  stmt (notFoundOr wrap) (GetHostByID id sf).

Definition hostCreate (i : HostCreateInput) : Call Z :=
  id <-? stmt CheckPG (CreateHost (hiName i) (hiDisplayName i) (hiDescription i) (hiTenancy i)
                         (hiSSHPort i) (hiPrimaryIP i) (hiCreatedBy i)) ;;
  tell (mkEvent id (Some (hiTenancy i)) false) id.

Definition hostUpdate (id : Z) (sf : Filter) (displayName description : string) : Call unit :=
  n <-? stmt CheckPG (UpdateHost id sf displayName description) ;;
  affected n (tell (mkEvent id None false) tt).

Definition hostDelete (id : Z) (sf : Filter) : Call unit :=
  t <-? stmt (notFoundOr wrap) (DeleteHost id sf) ;;
  tell (mkEvent id (Some t) true) tt.

Definition hostGetScope (id : Z) : Call Tenancy := stmt (notFoundOr wrap) (HostScopeByID id).

(** ** Transactions *)

(** The body of a transaction, in one atomic action. *)
Definition Tx (A : Type) : Type := World -> result GoErr A * World.

Definition txRet {A} (a : A) : Tx A := fun w => (Ok a, w).
Definition txErr {A} (e : GoErr) : Tx A := fun w => (Err e, w).
Definition txBind {A B} (m : Tx A) (f : A -> Tx B) : Tx B :=
  fun w => match m w with (Ok a, w') => f a w' | (Err e, w') => (Err e, w') end.

Notation "x <-$ p ;; k" := (txBind p (fun x => k))
  (at level 100, p at next level, right associativity) : go_scope.

(** A lost connection aborts the transaction, whether or not the statement ran. *)
Definition txStmt {A} (f : SqlErr -> GoErr) (st : Stmt A) : Tx A :=
  fun w => match popFault w with
           | (Fine, w') => match st w' with
                           | (Ok a, w2) => (Ok a, w2)
                           | (Err e, w2) => (Err (f e), w2)
                           end
           | (_, w') => (Err (f ErrConn), w')
           end.

(** The tables as they were; sequences and randomness stay consumed. *)
Definition rollback (w0 w : World) : World :=
  set_hosts (hosts w0) (set_agents (agents w0) (set_tokens (tokens w0) w)).

Definition withTx {A} (fn : Tx A) : Call A :=
  atom (fun w =>
    match popFault w with
    | (Fine, w1) =>
        match fn w1 with
        | (Err e, w2) => (Err e, rollback w1 w2)
        | (Ok a, w2) =>
            match popFault w2 with
            | (Fine, w3) => (Ok a, w3)
            | (Lost, w3) => (Err (wrap ErrConn), rollback w1 w3)
            | (Unanswered, w3) => (Err (wrap ErrConn), w3)
            end
        end
    | (_, w1) => (Err (wrap ErrConn), w1)
    end).

(** ** [pgAgentStore] *)

Definition notifyHost {A} (hostID : Z) (a : A) : Call A := tell (mkEvent hostID None false) a.

Definition clampVersion (v : string) : string := str_take 32 v.

Record BindInput := mkBind {
  biHostID : Z; biVersion : string; biAgentID : string;
  biClaimUUIDs : list string; biFingerprint : StoredPrint
}.

Definition bindLockNamespace : string := "agentgw.bind:".

(** The text the lock key is hashed from. *)
Definition bindLockName (i : BindInput) : string :=
  let p := biFingerprint i in
  if negb (spProductUUID p =s "") then bindLockNamespace +++ spProductUUID p
  else if negb (spMachineID p =s "") then bindLockNamespace +++ spMachineID p
  else bindLockNamespace +++ FormatInt (biHostID i).

Section AgentStore.
(** [uuid.Parse] in canonical form, and the draws of [uuid.NewString]. *)
Context (uuidParse : string -> option string) (uuidDraw : nat -> string).

Definition parseAgentUUID (agentID : string) : result GoErr string :=
  match uuidParse agentID with Some u => Ok u | None => Err (tagged ErrBadRequest) end.

Definition txLift {A} (r : result GoErr A) : Tx A := fun w => (r, w).

Definition newUUID : Tx string := fun w => (Ok (uuidDraw (drawn w)), set_drawn (S (drawn w)) w).

(** [pg_advisory_xact_lock]: granted at once, the action being atomic. *)
Definition lockMachine : Tx unit := txStmt wrap (fun w => (Ok tt, w)).

(** The row a concurrent registration may have created meanwhile. *)
Definition recheck (i : BindInput) : Tx string :=
  if (biAgentID i =s "") && negb (bool_decide (biClaimUUIDs i = [])) then
    found <-$ txStmt wrap (FindHostAgentsByProductUUID (biClaimUUIDs i)) ;;
    match found with
    | [(_, a)] => txRet (aAgentID a)
    | _ => txRet (biAgentID i)
    end
  else txRet (biAgentID i).

Definition bindTx (i : BindInput) : Tx (Z * HostAgent) :=
  _ <-$ lockMachine ;;
  agentID <-$ recheck i ;;
  if negb (agentID =s "") then
    uid <-$ txLift (parseAgentUUID agentID) ;;
    txStmt (notFoundOr CheckPG)
      (RebindHostAgent (biHostID i) (clampVersion (biVersion i)) (biFingerprint i) uid)
  else
    _ <-$ txStmt wrap (DeleteHostAgentByHostID (biHostID i)) ;;
    drawnID <-$ newUUID ;;
    fresh <-$ txLift (parseAgentUUID drawnID) ;;
    txStmt CheckPG (InsertHostAgent (biHostID i) fresh (clampVersion (biVersion i)) (biFingerprint i)).

Definition Bind (i : BindInput) : Call (Z * HostAgent) :=
  row <-? withTx (bindTx i) ;;
  notifyHost row.1 row.

Definition FindByProductUUID (uuids : list string) : Call (list (Z * HostAgent)) :=
  match uuids with
  | [] => ok []
  | _ => stmt wrap (FindHostAgentsByProductUUID uuids)
  end.

Definition FindByMachineID (machineID : string) : Call (list (Z * HostAgent)) :=
  if machineID =s "" then ok [] else stmt wrap (FindHostAgentsByMachineID machineID).

Definition GetByAgentID (agentID : string) : Call (Z * HostAgent) :=
  match parseAgentUUID agentID with
  | Err e => err e
  | Ok uid => stmt (notFoundOr wrap) (GetHostAgentByAgentID uid)
  end.

Definition GetByHostID (hostID : Z) : Call (Z * HostAgent) :=
  stmt (notFoundOr wrap) (GetHostAgentByHostID hostID).

Definition moveTx (fromHostID toHostID : Z) : Tx unit :=
  _ <-$ txStmt wrap (DeleteHostAgentByHostID toHostID) ;;
  _ <-$ txStmt (notFoundOr CheckPG) (MoveHostAgentBinding toHostID fromHostID) ;;
  txRet tt.

Definition MoveBinding (fromHostID toHostID : Z) : Call unit :=
  _ <-? withTx (moveTx fromHostID toHostID) ;;
  _ <-? notifyHost fromHostID tt ;;
  notifyHost toHostID tt.

End AgentStore.

(** ** [pgJoinTokenStore] *)

Definition tokenCreate (j : JoinToken) : Call (Z * JoinToken) := stmt CheckPG (CreateHostAgentJoinToken j).
Definition tokenGetByID (id : Z) (sf : Filter) : Call JoinToken :=
  stmt (notFoundOr wrap) (GetHostAgentJoinTokenByID id sf).
Definition tokenDelete (id : Z) (sf : Filter) : Call unit :=
  n <-? stmt CheckPG (DeleteHostAgentJoinToken id sf) ;; affected n (ok tt).
Definition tokenPeek (hash : list Z) : Call (Z * JoinToken) :=
  stmt (notFoundOr wrap) (PeekHostAgentJoinToken hash).
Definition tokenConsume (hash : list Z) : Call (Z * JoinToken) :=
  stmt (notFoundOr CheckPG) (ConsumeHostAgentJoinToken hash).
Definition tokenRefund (id : Z) : Call unit := stmt wrap (RefundHostAgentJoinToken id).
Definition tokenBindTarget (id hostID : Z) : Call unit :=
  stmt wrap (BindHostAgentJoinTokenTarget id hostID).

End FleetStore.
