(* ===== verification/FleetHosts.v ===== *)
(** * Hosts, merges and join tokens: the REST operations

    [pkg/apis/compute/agent_registrar.go] (the host row behind an agent),
    [storage_host.go] and [validation.go] (hosts recorded by hand),
    [host_merge.go] and [storage_agent_join_token.go]. List
    handlers are in [FleetLists]; the conversion to the API types is left
    out. *)

From stdpp Require Import sorting.
From S2P Require Import Prelude Rbac ListQuery ApiRoutes ApiServe IamDb IamStore IamValidation IamRoles OidcStore AgentToken AgentIdentity Atomic FleetDb FleetStore.

Module FleetHosts.
Import IamDb(SqlErr(..)).
Import IamStore(GoErr(..), Sentinel(..), CheckPG, wrap, tagged, notFoundOr, FromDomain, domainErr, NewBadRequest, NewConflictMessage).
Import IamValidation(regex(..), RBetween, MatchString, alnum, wordDash).
Import IamRoles(Ctx, ctxWorkspaceID, ctxNamespaceID).
Import Rbac(ScopePlatform).
Import Atomic FleetDb FleetStore.

Definition statusOf (e : GoErr) : Z := match e with StatusError c _ _ => c | Wrapped _ _ => 0 end.

(** [apierrors.IsNotFound(apierrors.FromDomain(err, ...))]: when the error
    is not a domain error [FromDomain] returns a nil [*StatusError], which
    as an [error] is not nil, and reading its status panics. *)
Definition IsNotFoundFromDomain (e : GoErr) : Proc World bool :=
  match FromDomain e with
  | Some se => Ret (statusOf se =? 404)
  | None => Panic
  end.

(** [se := FromDomain(err); se == nil || !Is...(se)] *)
Definition isNot (status : Z) (e : GoErr) : bool :=
  match FromDomain e with Some se => negb (statusOf se =? status) | None => true end.

Definition NewForbidden (message : string) : GoErr := StatusError 403 (Some message) [].

(** ** Host names *)

Fixpoint replaceInvalid (prev : bool) (s : string) : string :=
  match s with
  | EmptyString => EmptyString
  | String c s' =>
      if wordDash c then String c (replaceInvalid false s')
      else if prev then replaceInvalid true s' else String "-" (replaceInvalid true s')
  end.

Definition edge (c : ascii) : bool := Ascii.eqb c "-" || Ascii.eqb c "_".

Fixpoint trimLeft (s : string) : string :=
  match s with String c s' => if edge c then trimLeft s' else s | EmptyString => EmptyString end.

Fixpoint trimRight (s : string) : string :=
  match s with
  | EmptyString => EmptyString
  | String c s' =>
      match trimRight s' with
      | EmptyString => if edge c then EmptyString else String c EmptyString
      | r => String c r
      end
  end.

(** [strings.Trim(s, "-_")]. *)
Definition TrimEdges (s : string) : string := trimRight (trimLeft s).

Definition agentHostName (hostname : string) : string :=
  let name := TrimEdges (replaceInvalid false (ListQ.TrimSpace hostname)) in
  let name := if (37 <? String.length name)%nat then TrimEdges (str_take 37 name) else name in
  if (String.length name <? 3)%nat then "agent-host" else name.

(** [nameRegexp] of [validation.go]. *)
Definition nameRegexp : regex :=
  RSeq (RChar alnum)
    (RAlt REps (RSeq (RBetween 1 48 (RChar wordDash)) (RChar alnum))).

(** [%x] of an unsigned integer of at most [n] hex digits. *)
Fixpoint formatHex (n : nat) (v : Z) : string :=
  match n with
  | O => EmptyString
  | S n' => if v <? 16 then OStore.hexDigit v else formatHex n' (v / 16) +++ OStore.hexDigit (v mod 16)
  end.

(** [binary.BigEndian.Uint64] of the first eight bytes. *)
Definition bigEndian (b : list Z) : Z := foldl (fun acc x => acc * 256 + x) 0 (take 8 b).

Fixpoint padZeros (k : nat) (s : string) : string :=
  match k with O => s | S k' => padZeros k' s +++ "0" end.

Section Hosts.
(** SHA-256, the UUID library and [net.ParseIP]. *)
Context (sha256 : string -> list Z) (uuidParse : string -> option string) (uuidDraw : nat -> string).
Context (validIP : string -> bool).

Definition NameSuffixForAgent (agentID : string) (n : nat) : string :=
  let full := formatHex 16 (bigEndian (sha256 agentID)) in
  str_take n (padZeros (n - String.length full) full).

Definition agentHostNameCandidates (base nameSeed : string) : list string :=
  [base; base +++ "-" +++ NameSuffixForAgent nameSeed 6; base +++ "-" +++ NameSuffixForAgent nameSeed 12].

(** ** The registrar *)

Record AgentHostSpec := mkSpec {
  sExistingHostID : Z; sNameSeed : string; sFacts : Facts; sTenancy : Tenancy; sCreatedBy : option Z
}.

Definition rebindAuthorised (spec : AgentHostSpec) (cur : Tenancy) : bool :=
  if tScope (sTenancy spec) =s ScopePlatform then true
  else (tScope (sTenancy spec) =s tScope cur)
       && bool_decide (tWorkspaceID (sTenancy spec) = tWorkspaceID cur)
       && bool_decide (tNamespaceID (sTenancy spec) = tNamespaceID cur).

(** The loop over the candidate names. *)
Fixpoint createNamed (spec : AgentHostSpec) (names : list string) : Call (Z * bool) :=
  match names with
  | [] => err (Wrapped None None)
  | name :: rest =>
      r <-~ agentHostCreate name (fHostname (sFacts spec)) (sFacts spec) (sTenancy spec) (sCreatedBy spec) ;;
      match r with
      | Ok id => ok (id, true)
      | Err e => if isNot 409 e then err e else createNamed spec rest
      end
  end.

Definition createHostRow (spec : AgentHostSpec) : Call (Z * bool) :=
  createNamed spec (agentHostNameCandidates (agentHostName (fHostname (sFacts spec))) (sNameSeed spec)).

Definition RegisterAgentHost (spec : AgentHostSpec) : Call (Z * bool) :=
  let id := sExistingHostID spec in
  if 0 <? id then
    r <-~ agentHostGetScope id ;;
    match r with
    | Ok cur =>
        if negb (rebindAuthorised spec cur) then
          err (NewForbidden ("host " +++ FormatInt id +++ " is scoped to " +++ tScope cur
                             +++ "; this join token cannot rebind it"))
        else
          u <-~ agentHostUpdateFacts id (sFacts spec) ;;
          match u with
          | Ok _ => ok (id, false)
          | Err e => if isNot 404 e then err e else createHostRow spec
          end
    | Err e =>
        gone <-~ IsNotFoundFromDomain e ;;
        if gone : bool then createHostRow spec else err e
    end
  else createHostRow spec.

Definition UnregisterAgentHost (hostID : Z) : Call unit := agentHostDelete hostID.

(** ** Hosts recorded by hand *)

Record HostBody := mkHostBody {
  hbName : string; hbDisplayName : string; hbDescription : string; hbIP : string; hbSSHPort : Z
}.

Definition validateHostUpdate (b : HostBody) : result GoErr unit :=
  if (128 <? String.length (hbDisplayName b))%nat
  then Err (NewBadRequest "displayName must be at most 128 characters" [])
  else if (1000 <? String.length (hbDescription b))%nat
  then Err (NewBadRequest "description must be at most 1000 characters" [])
  else Ok tt.

Definition validateHostCreate (b : HostBody) : result GoErr unit :=
  let name := ListQ.TrimSpace (hbName b) in
  if name =s "" then Err (NewBadRequest "name is required" [])
  else if negb (MatchString nameRegexp name) then
    Err (NewBadRequest "name must be 3-50 characters of letters, digits, underscore or hyphen, starting and ending alphanumeric" [])
  else
    _ <-! validateHostUpdate b ;;
    let ip := ListQ.TrimSpace (hbIP b) in
    if negb (ip =s "") && negb (validIP ip)
    then Err (NewBadRequest ("ip " +++ ip +++ " is not a valid address") [])
    else if negb (hbSSHPort b =? 0) && ((hbSSHPort b <? 1) || (65535 <? hbSSHPort b))
    then Err (NewBadRequest "sshPort must be between 1 and 65535" [])
    else Ok tt.

Definition scopeFilter (ctx : Ctx) : Filter := FromIDs (ctxWorkspaceID ctx) (ctxNamespaceID ctx).

(** [return domainErr(err)] of a store call. *)
Definition domain {A} (p : Call A) : Call A :=
  r <-~ p ;; Ret (match r with Ok a => Ok a | Err e => Err (domainErr e) end).

Definition host_get (ctx : Ctx) (id : Z) : Call (Host * option HostAgent) :=
  domain (hostGetByID id (scopeFilter ctx)).

Definition host_create (ctx : Ctx) (caller : option Z) (b : HostBody) : Call (Host * option HostAgent) :=
  match validateHostCreate b with
  | Err e => err e
  | Ok _ =>
      id <-? domain (hostCreate (mkHostInput (ListQ.TrimSpace (hbName b)) (hbDisplayName b) (hbDescription b)
               (PartsForCreate (scopeFilter ctx)) (if hbSSHPort b =? 0 then 22 else hbSSHPort b)
               (ListQ.TrimSpace (hbIP b)) caller)) ;;
      host_get ctx id
  end.

Definition host_update (ctx : Ctx) (id : Z) (b : HostBody) : Call (Host * option HostAgent) :=
  match validateHostUpdate b with
  | Err e => err e
  | Ok _ =>
      _ <-? domain (hostUpdate id (scopeFilter ctx) (hbDisplayName b) (hbDescription b)) ;;
      host_get ctx id
  end.

Definition host_delete (ctx : Ctx) (id : Z) : Call unit := domain (hostDelete id (scopeFilter ctx)).

(** ** Merging a duplicate into the record it duplicates *)

Record MergeResponse := mkMerge { mrHostID : string; mrAgentMoved : bool }.

Definition sameTenancy (s t : Tenancy) : bool :=
  (tScope s =s tScope t) && bool_decide (tWorkspaceID s = tWorkspaceID t)
  && bool_decide (tNamespaceID s = tNamespaceID t).

(** The source's agent moves over, if there is one. *)
Definition moveAgent (sourceID targetID : Z) (source : Host) : Call bool :=
  r <-~ GetByHostID sourceID ;;
  match r with
  | Ok _ =>
      _ <-? domain (MoveBinding sourceID targetID) ;;
      _ <-? domain (agentHostUpdateFacts targetID (hFacts source)) ;;
      ok true
  | Err e =>
      gone <-~ IsNotFoundFromDomain e ;;
      if gone : bool then ok false else err (domainErr e)
  end.

(** A live agent on the survivor is another machine. *)
Definition noLiveAgent (targetID : Z) : Call unit :=
  r <-~ GetByHostID targetID ;;
  match r with
  | Ok (_, a) =>
      if aStatus a =s "online"
      then err (NewConflictMessage "this host has a live agent of its own, so it is not the same machine")
      else ok tt
  | Err e =>
      gone <-~ IsNotFoundFromDomain e ;;
      if gone : bool then ok tt else err (domainErr e)
  end.

Definition host_merge (ctx : Ctx) (sourceHostID : string) : Call MergeResponse :=
  let targetID := Serve.cID ctx in
  match ParseInt sourceHostID 64 with
  | None => err (NewBadRequest "sourceHostId must be a host id" [])
  | Some sourceID =>
      if sourceID <=? 0 then err (NewBadRequest "sourceHostId must be a host id" [])
      else if sourceID =? targetID then err (NewBadRequest "a host cannot be merged into itself" [])
      else
        let sf := scopeFilter ctx in
        target <-? domain (hostGetByID targetID sf) ;;
        source <-? domain (hostGetByID sourceID sf) ;;
        if negb (sameTenancy (hTenancy source.1) (hTenancy target.1))
        then err (NewBadRequest "these hosts are in different scopes" [])
        else
          _ <-? noLiveAgent targetID ;;
          moved <-? moveAgent sourceID targetID source.1 ;;
          _ <-? domain (hostDelete sourceID sf) ;;
          ok (mkMerge (FormatInt targetID) moved)
  end.

(** ** Join tokens *)

Definition hour : Z := 3600 * 1000000000.

Record TokenBody := mkTokenBody { tbName : string; tbTTLHours : Z; tbTargetHostID : string }.

(** [GenerateJoinToken] over the draws of [crypto/rand]. *)
Context (randDraw : nat -> list Z).
Definition GenerateJoinToken : Proc World string :=
  atom (fun w => (OStore.base64URLEncode (randDraw (drawn w)), set_drawn (S (drawn w)) w)).

(** [HashToken]. *)
Definition HashToken (token : string) : list Z := sha256 token.

(** The host a bound token is for, and the tenancy it is stamped with. *)
Definition tokenTarget (ctx : Ctx) (raw : string) : Call (option Z * Tenancy) :=
  let sf := scopeFilter ctx in
  if raw =s "" then ok (None, PartsForCreate sf)
  else match ParseInt raw 64 with
       | None => err (NewBadRequest "targetHostId must be a host id" [])
       | Some hostID =>
           if hostID <=? 0 then err (NewBadRequest "targetHostId must be a host id" [])
           else host <-? domain (hostGetByID hostID sf) ;;
                ok (Some hostID, hTenancy host.1)
       end.

(** The token row and the only copy of its plaintext. *)
Definition joinToken_create (ctx : Ctx) (caller : option Z) (b : TokenBody) : Call (Z * JoinToken * string) :=
  let ttl := if tbTTLHours b =? 0 then 24 else tbTTLHours b in
  if (ttl <? 1) || (720 <? ttl) then err (NewBadRequest "ttlHours must be between 1 and 720" [])
  else
    target <-? tokenTarget ctx (tbTargetHostID b) ;;
    plaintext <-~ GenerateJoinToken ;;
    now <-~ Now ;;
    row <-? domain (tokenCreate (mkJoinToken (tbName b) (HashToken plaintext) target.2 1 0
                                   (now + ttl * hour) caller target.1)) ;;
    ok (row, plaintext).

Definition joinToken_get (ctx : Ctx) (id : Z) : Call JoinToken :=
  domain (tokenGetByID id (scopeFilter ctx)).

Definition joinToken_delete (ctx : Ctx) (id : Z) : Call unit :=
  domain (tokenDelete id (scopeFilter ctx)).

End Hosts.

End FleetHosts.
