(* ===== verification/FleetEnroll.v ===== *)
(** * Agent registration

    [handleRegister], [undoRegistration] and [decodeRegisterRequest] of
    [pkg/apis/agentgw/register.go]: a join token is exchanged for an agent
    token, across three stores that share no transaction, with compensation
    when a later step fails. All requests that change hosts, agents or join
    tokens are then gathered as [Task]s of one pool. *)

From stdpp Require Import sorting.
From S2P Require Import Prelude Rbac ListQuery ApiRoutes ApiServe IamDb IamStore IamRoles OidcStore AgentToken AgentIdentity Atomic FleetDb FleetStore FleetHosts.

Module FleetEnroll.
Import IamStore(GoErr(..), FromDomain).
Import IamRoles(Ctx).
Import Atomic FleetDb FleetStore FleetHosts.

(** [agenttypes.RegisterRequest]. *)
Record RegisterRequest := mkRegister {
  rqMachineID : string; rqFacts : Facts; rqAgentVersion : string;
  rqFingerprint : Ident.MachineFingerprint
}.

(** The HTTP request. *)
Record RegisterCall := mkCall { rcMethod : string; rcAuth : string; rcBody : string }.

Record RegisterResponse := mkRegistered { rrAgentID : string; rrHostID : Z; rrAgentToken : string }.

Record Response := mkResponse { rsStatus : Z; rsText : string; rsBody : option RegisterResponse }.

Definition httpError (text : string) (status : Z) : Response := mkResponse status text None.

Definition MaxFrameBytes : Z := 64 * 1024.
Definition agentStaleAfter : Z := 60 * Ident.sec.

(** [Fingerprint.ToStore]. *)
Definition ToStore (f : Ident.Fingerprint) (source : string) : StoredPrint :=
  mkPrint (Ident.ProductUUID f) (Ident.MachineID f) (Ident.MACs f) source (Ident.BootAt f).

Section Register.
Context (sha256 : string -> list Z) (uuidParse : string -> option string) (uuidDraw : nat -> string).
Context (decodeJSON : string -> result string RegisterRequest).
(** The agent-token signer: HMAC, the JSON encoding of its claims, its key. *)
Context (hmac : list Z -> list Z -> list Z) (marshalAgent : Tok.AgentClaims -> option (list Z)) (key : list Z).

Definition decodeRegisterRequest (body : string) : result Response RegisterRequest :=
  if MaxFrameBytes <? Z.of_nat (String.length body) then Err (httpError "read body" 400)
  else match decodeJSON body with
       | Err e => Err (httpError ("decode body: " +++ e) 400)
       | Ok req =>
           if ListQ.TrimSpace (rqMachineID req) =s "" then Err (httpError "machineId is required" 400)
           else if ListQ.TrimSpace (fHostname (rqFacts req)) =s "" then Err (httpError "hostname is required" 400)
           else Ok req
       end.

(** [h.findClaimCandidates]. *)
Definition claimCandidates (fp : Ident.Fingerprint) : Call (list (Z * HostAgent)) :=
  if Ident.ProductUUID fp =s "" then ok []
  else FindByProductUUID [Ident.ProductUUID fp; Ident.swapUUIDByteOrder (Ident.ProductUUID fp)].

(** Best effort: whatever it answers, the response stays. *)
Definition undoRegistration (hostID : Z) (hostCreated : bool) (tokenID : Z) : Proc World unit :=
  _ <-~ (if hostCreated && (0 <? hostID) then _ <-~ UnregisterAgentHost hostID ;; Ret tt else Ret tt) ;;
  _ <-~ tokenRefund tokenID ;;
  Ret tt.

(** Only a read; its outcome is logged. *)
Definition reportImageGroup (self : Z * HostAgent) : Proc World unit :=
  if aMachineID self.2 =s "" then Ret tt
  else _ <-~ FindByMachineID (aMachineID self.2) ;; Ret tt.

(** An error of the join-token store. *)
Definition tokenError (e : GoErr) (text : string) : Response :=
  if isNot 404 e then httpError text 500
  else httpError "invalid, expired or exhausted join-token" 401.

(** The row of a known machine must not be in use. *)
Definition liveAgent (agentID : string) : Proc World (option Response) :=
  if agentID =s "" then Ret None
  else
    r <-~ GetByAgentID uuidParse agentID ;;
    Ret (match r with
         | Err _ => Some (httpError "lookup agent" 500)
         | Ok prev =>
             if aStatus prev.2 =s Tok.agentStatusOnline
             then Some (httpError "this machine already has a live agent; stop it before re-registering" 409)
             else None
         end).

(** Bind, issue the token, record which host it brought in. *)
Definition finishRegistration (req : RegisterRequest) (fp : Ident.Fingerprint)
    (m : Ident.MatchOutcome) (tokenID hostID : Z) (created : bool) : Proc World Response :=
  r <-~ Bind uuidParse uuidDraw
          (mkBind hostID (rqAgentVersion req) (Ident.moAgentID m) (Ident.moClaimUUIDs m)
             (ToStore fp (Ident.moSource m))) ;;
  match r with
  | Err _ =>
      _ <-~ undoRegistration hostID created tokenID ;;
      Ret (httpError "persist agent" 500)
  | Ok row =>
      now <-~ Now ;;
      match Tok.agentIssue hmac marshalAgent key
              {| Tok.acAgentID := aAgentID row.2; Tok.acHostID := hostID;
                 Tok.acTokenVersion := aTokenVersion row.2; Tok.acIssuedAtUnix := now / Ident.sec |} with
      | Err _ => Ret (httpError "issue agent token" 500)
      | Ok agentToken =>
          _ <-~ tokenBindTarget tokenID hostID ;;
          _ <-~ reportImageGroup row ;;
          Ret (mkResponse 200 "" (Some (mkRegistered (aAgentID row.2) hostID agentToken)))
      end
  end.

(** The host row of the registration, then the binding. *)
Definition placeHost (req : RegisterRequest) (fp : Ident.Fingerprint) (m : Ident.MatchOutcome)
    (tokenID : Z) (token : JoinToken) (existing : Z) : Proc World Response :=
  r <-~ RegisterAgentHost sha256
          (mkSpec existing (Ident.NameSeed fp) (rqFacts req) (jTenancy token) (jCreatedBy token)) ;;
  match r with
  | Err e =>
      _ <-~ undoRegistration 0 false tokenID ;;
      Ret (if statusOf e =? 403 then httpError "this join token may not claim that host" 403
           else httpError "register host" 500)
  | Ok (hostID, created) => finishRegistration req fp m tokenID hostID created
  end.

(** From the consumed token on. *)
Definition redeem (req : RegisterRequest) (fp : Ident.Fingerprint) (m : Ident.MatchOutcome)
    (tokenID : Z) (token : JoinToken) : Proc World Response :=
  match jTargetHostID token with
  | None => placeHost req fp m tokenID token (Ident.moHostID m)
  | Some target =>
      if Ident.moHostID m =? 0 then placeHost req fp m tokenID token target
      else if negb (Ident.moHostID m =? target) then
        _ <-~ undoRegistration 0 false tokenID ;;
        Ret (httpError "this agent is already bound to another host" 409)
      else placeHost req fp m tokenID token (Ident.moHostID m)
  end.

Definition consumeAndRedeem (req : RegisterRequest) (fp : Ident.Fingerprint) (m : Ident.MatchOutcome)
    (hash : list Z) : Proc World Response :=
  r <-~ tokenConsume hash ;;
  match r with
  | Err e => Ret (tokenError e "consume join-token")
  | Ok (tokenID, token) => redeem req fp m tokenID token
  end.

Definition identify (req : RegisterRequest) (hash : list Z) : Proc World Response :=
  now <-~ Now ;;
  let fp := Ident.NewFingerprint (rqMachineID req) (rqFingerprint req) now in
  r <-~ claimCandidates fp ;;
  match r with
  | Err _ => Ret (httpError "lookup agent" 500)
  | Ok candidates =>
      let m := Ident.MatchMachine fp ((fun p => identRow p.1 p.2) <$> candidates) (now - agentStaleAfter) in
      refusal <-~ liveAgent (Ident.moAgentID m) ;;
      match refusal with
      | Some resp => Ret resp
      | None => consumeAndRedeem req fp m hash
      end
  end.

Definition handleRegister (c : RegisterCall) : Proc World Response :=
  if negb (rcMethod c =s "POST") then Ret (httpError "method not allowed" 405)
  else match Tok.bearerToken (rcAuth c) with
  | None => Ret (httpError "missing bearer join-token" 401)
  | Some joinToken =>
      match decodeRegisterRequest (rcBody c) with
      | Err resp => Ret resp
      | Ok req =>
          let hash := HashToken sha256 joinToken in
          r <-~ tokenPeek hash ;;
          match r with
          | Err e => Ret (tokenError e "check join-token")
          | Ok _ => identify req hash
          end
      end
  end.

(** ** All requests together *)

Context (validIP : string -> bool) (randDraw : nat -> list Z).

Inductive Task :=
| TRegister (c : RegisterCall)
| THostCreate (ctx : Ctx) (caller : option Z) (b : HostBody)
| THostUpdate (ctx : Ctx) (id : Z) (b : HostBody)
| THostDelete (ctx : Ctx) (id : Z)
| THostMerge (ctx : Ctx) (sourceHostID : string)
| TTokenCreate (ctx : Ctx) (caller : option Z) (b : TokenBody)
| TTokenDelete (ctx : Ctx) (id : Z).

(** How a task ended, as far as the theorems look at it. *)
Inductive Outcome :=
| Answered (r : Response)
| Done (ok : bool).

Definition done {A} (p : Call A) : Proc World Outcome :=
  r <-~ p ;; Ret (Done (match r with Ok _ => true | Err _ => false end)).

Definition serve (t : Task) : Proc World Outcome :=
  match t with
  | TRegister c => r <-~ handleRegister c ;; Ret (Answered r)
  | THostCreate ctx caller b => done (host_create validIP ctx caller b)
  | THostUpdate ctx id b => done (host_update ctx id b)
  | THostDelete ctx id => done (host_delete ctx id)
  | THostMerge ctx src => done (host_merge ctx src)
  | TTokenCreate ctx caller b => done (joinToken_create sha256 randDraw ctx caller b)
  | TTokenDelete ctx id => done (joinToken_delete ctx id)
  end.

(** A schedule: the tasks of the pool take their steps in any order, and the
    rest of the system acts in between. *)
Inductive Move := Turn (i : nat) | Elsewhere (o : Outside).

Definition event (m : Move) : Event World :=
  match m with Turn i => Step i | Elsewhere o => Env (outside o) end.

Definition history (ts : list Task) (ms : list Move) (w : World) : list (Proc World Outcome) * World :=
  exec (event <$> ms) (serve <$> ts, w).

End Register.

End FleetEnroll.
