(* ===== verification/FleetLogic.v ===== *)
(** * Protocol rules for the fleet handlers

    [safe] instantiated at the shared world: rules for statements, store
    calls and transactions, and the tactic that walks through a handler. A
    property is given by a resource, an invariant that does not look at the
    pending faults or the published events, and the few statements that use
    the resource; every other statement only has to keep the invariant. *)

From stdpp Require Import sorting.
From S2P Require Import Prelude Rbac ListQuery ApiRoutes ApiServe IamDb IamStore IamRoles OidcStore AgentToken AgentIdentity Atomic FleetDb FleetStore FleetHosts FleetEnroll.

Module FleetLogic.
Import IamDb(SqlErr(..)).
Import IamStore(GoErr(..), wrap, CheckPG, notFoundOr).
Import IamRoles(Ctx).
Import Atomic FleetDb FleetStore FleetHosts FleetEnroll.

(** Worlds that agree on everything an invariant may look at; randomness
    is only ever consumed. *)
Record agree (w w' : World) : Prop := {
  ag_hosts : hosts w' = hosts w;
  ag_agents : agents w' = agents w;
  ag_tokens : tokens w' = tokens w;
  ag_hostSeq : hostSeq w' = hostSeq w;
  ag_tokenSeq : tokenSeq w' = tokenSeq w;
  ag_drawn : (drawn w <= drawn w')%nat
}.

Lemma agree_popFault w f w' : popFault w = (f, w') -> agree w w'.
Proof. unfold popFault. destruct (faults w); intros [= <- <-]; by split. Qed.

Section Rules.
Context {R : Type} `{Resource R} (Inv : R -> World -> Prop).

(** What an invariant must not depend on. *)
Class Blind : Prop := blind : forall r w w', agree w w' -> Inv r w -> Inv r w'.

(** A statement that every owner may run. *)
Class Quiet {A} (st : Stmt A) : Prop := quiet : forall r w, Inv r w -> Inv r (st w).2.

Context `{Blind}.

(** What a post-condition has to cover: any answer, or what the statement
    gave on a world satisfying the invariant. *)
Definition any {A} (r : R) (r' : R) (_ : A) : Prop := r' = r.

Lemma safe_atom {X} (post : R -> X -> Prop) r (q : World -> X * World) :
  (forall rest w, Inv (rop r rest) w -> exists r', Inv (rop r' rest) (q w).2 /\ post r' (q w).1) ->
  safe Inv post r (atom q).
Proof. done. Qed.

Lemma safe_Now (post : R -> Z -> Prop) r : (forall t, post r t) -> safe Inv post r Now.
Proof. intros Hp. apply safe_atom. intros rest w HI. exists r. auto. Qed.

Lemma safe_Publish e (post : R -> unit -> Prop) r : post r tt -> safe Inv post r (Publish e).
Proof using All.
  intros Hp. apply safe_atom. intros rest w HI. exists r. split; [|done].
  revert HI. apply blind. by split.
Qed.

(** A statement: what it answers when it runs, when it does not, and when
    it runs unheard. *)
Lemma safe_Q {A} (st : Stmt A) (post : R -> result SqlErr A -> Prop) r :
  (forall rest w, Inv (rop r rest) w -> exists r', Inv (rop r' rest) (st w).2 /\ post r' (st w).1) ->
  (forall rest w, Inv (rop r rest) w -> exists r', Inv (rop r' rest) (st w).2 /\ post r' (Err ErrConn)) ->
  post r (Err ErrConn) -> safe Inv post r (Q st).
Proof using All.
  intros H1 H2 H3. apply safe_atom. intros rest w HI. unfold runStmt.
  destruct (popFault w) as [f w'] eqn:E. apply agree_popFault in E.
  pose proof (blind _ _ _ E HI) as HI'. destruct f; [by apply H1 | by exists r|].
  destruct (H2 rest w' HI') as (r' & ? & ?). by exists r'.
Qed.

Lemma safe_Q_quiet {A} (st : Stmt A) `{!Quiet st} (post : R -> result SqlErr A -> Prop) r :
  (forall x, post r x) -> safe Inv post r (Q st).
Proof using All.
  intros Hp. apply safe_Q; [| |done]; intros rest w HI; exists r; (split; [by apply quiet | done]).
Qed.

(** A quiet statement whose answer says something about the world. *)
Lemma safe_Q_learn {A} (st : Stmt A) `{!Quiet st} (post : R -> result SqlErr A -> Prop) r :
  (forall w rest, Inv (rop r rest) w -> post r (st w).1) -> (forall e, post r (Err e)) ->
  safe Inv post r (Q st).
Proof using All.
  intros Hp He. apply safe_Q; [| |done]; intros rest w HI; exists r; (split; [by apply quiet|]); eauto.
Qed.

Lemma safe_stmt {A} (f : SqlErr -> GoErr) (st : Stmt A) (post : R -> result GoErr A -> Prop) r :
  safe Inv (fun r x => post r (match x with Ok a => Ok a | Err e => Err (f e) end)) r (Q st) ->
  safe Inv post r (stmt f st).
Proof. intros Hs. eapply safe_bind; [exact Hs|]. intros r' a Ha. exact Ha. Qed.

Lemma safe_stmt_quiet {A} (f : SqlErr -> GoErr) (st : Stmt A) `{!Quiet st} (post : R -> result GoErr A -> Prop) r :
  (forall x, post r x) -> safe Inv post r (stmt f st).
Proof using All. intros Hp. apply safe_stmt, safe_Q_quiet; auto. Qed.

Lemma safe_tell {A} e (a : A) (post : R -> result GoErr A -> Prop) r :
  post r (Ok a) -> safe Inv post r (tell e a).
Proof using All. intros Hp. eapply safe_bind; [by apply (safe_Publish e (fun r' _ => r' = r))|]. by intros ? ? ->. Qed.

Lemma safe_andThen {A B} (post : R -> result GoErr B -> Prop) (mid : R -> A -> Prop) r (p : Call A) (k : A -> Call B) :
  safe Inv (fun r x => match x with Ok a => mid r a | Err e => post r (Err e) end) r p ->
  (forall r a, mid r a -> safe Inv post r (k a)) -> safe Inv post r (andThen p k).
Proof.
  intros Hp Hk. eapply safe_bind; [exact Hp|]. intros r' [a|e] Ha; cbn in *; auto.
Qed.

(** ** Transactions *)

(** A transaction body run by an owner of [r0] keeps the invariant, and what
    its answer says. *)
Definition keeps {A} (r0 : R) (P : A -> Prop) (fn : Tx A) : Prop :=
  forall rest w, Inv (rop r0 rest) w ->
    Inv (rop r0 rest) (fn w).2 /\ match (fn w).1 with Ok a => P a | Err _ => True end.

Lemma keeps_ret {A} r0 (P : A -> Prop) a : P a -> keeps r0 P (txRet a).
Proof. by intros Ha rest w HI. Qed.

Lemma keeps_lift {A} r0 (P : A -> Prop) x :
  match x with Ok a => P a | Err _ => True end -> keeps r0 P (txLift x).
Proof. intros Hx rest w HI. by destruct x. Qed.

Lemma keeps_txBind {A B} r0 (P : A -> Prop) (Q : B -> Prop) (m : Tx A) (f : A -> Tx B) :
  keeps r0 P m -> (forall a, P a -> keeps r0 Q (f a)) -> keeps r0 Q (txBind m f).
Proof.
  intros Hm Hf rest w HI. unfold txBind. destruct (Hm rest w HI) as [HI' Ha].
  destruct (m w) as [[a|e] w']; [by apply Hf | done].
Qed.

Lemma keeps_stmt {A} r0 (P : A -> Prop) f (st : Stmt A) :
  (forall rest w, Inv (rop r0 rest) w ->
     Inv (rop r0 rest) (st w).2 /\ match (st w).1 with Ok a => P a | Err _ => True end) ->
  keeps r0 P (txStmt f st).
Proof using All.
  intros HP rest w HI. unfold txStmt. destruct (popFault w) as [[] w'] eqn:E; apply agree_popFault in E;
    pose proof (blind _ _ _ E HI) as HI'; [|done|done].
  specialize (HP rest w' HI'). by destruct (st w') as [[a|e] w2].
Qed.

Lemma keeps_quiet {A} r0 f (st : Stmt A) `{!Quiet st} : keeps r0 (fun _ => True) (txStmt f st).
Proof using All. apply keeps_stmt. intros rest w HI. split; [by apply quiet | by destruct (st w).1]. Qed.

(** A body draws nothing from the sequences, and randomness only forward. *)
Definition forward {A} (fn : Tx A) : Prop :=
  forall w, hostSeq (fn w).2 = hostSeq w /\ tokenSeq (fn w).2 = tokenSeq w
            /\ (drawn w <= drawn (fn w).2)%nat.

Lemma agree_rollback w w1 w2 :
  hostSeq w2 = hostSeq w1 -> tokenSeq w2 = tokenSeq w1 -> (drawn w1 <= drawn w2)%nat ->
  agree w w1 -> agree w (rollback w1 w2).
Proof. intros E1 E2 E3 []. split; cbn; try congruence. lia. Qed.

Lemma safe_withTx {A} (fn : Tx A) (P : A -> Prop) (post : R -> result GoErr A -> Prop) r :
  keeps r P fn -> forward fn -> (forall a, P a -> post r (Ok a)) -> (forall e, post r (Err e)) ->
  safe Inv post r (withTx fn).
Proof using All.
  intros Hk Hf Ho He. apply safe_atom. intros rest w HI. exists r.
  destruct (popFault w) as [f w1] eqn:E1. apply agree_popFault in E1.
  pose proof (blind _ _ _ E1 HI) as HI1. destruct f; [|by split; [|apply He]..].
  destruct (Hk rest w1 HI1) as [HI2 HP]. destruct (Hf w1) as (F1 & F2 & F3).
  destruct (fn w1) as [[a|e] w2]; cbn [fst snd] in *.
  - destruct (popFault w2) as [f w3] eqn:E3. apply agree_popFault in E3 as E3'.
    destruct f; cbn [fst snd].
    + split; [by apply (blind _ _ _ E3') | by apply Ho].
    + split; [|by apply He]. apply (blind _ w); [|done].
      destruct E3'. apply agree_rollback; try congruence. lia.
    + split; [by apply (blind _ _ _ E3') | by apply He].
  - split; [|by apply He]. apply (blind _ w); [|done]. by apply agree_rollback.
Qed.

End Rules.

(** ** Which parts of the world a statement leaves alone *)

Lemma forward_ret {A} (a : A) : forward (txRet a).
Proof. by intros w. Qed.
Lemma forward_lift {A} (x : result GoErr A) : forward (txLift x).
Proof. by intros w. Qed.
Lemma forward_newUUID u : forward (newUUID u).
Proof. intros w. cbn. split_and!; [done|done|lia]. Qed.
Lemma forward_bind {A B} (m : Tx A) (f : A -> Tx B) :
  forward m -> (forall a, forward (f a)) -> forward (txBind m f).
Proof.
  intros Hm Hf w. unfold txBind. destruct (Hm w) as (H1 & H2 & H3).
  destruct (m w) as [[a|e] w']; cbn in *; [|done]. destruct (Hf a w') as (? & ? & ?).
  split_and!; try congruence. lia.
Qed.
Lemma forward_stmt {A} f (st : Stmt A) :
  (forall w, agree w (set_hosts (hosts w) (set_agents (agents w) (set_tokens (tokens w) (st w).2)))) ->
  forward (txStmt f st).
Proof.
  intros Hs w. unfold txStmt. destruct (popFault w) as [[] w'] eqn:E; apply agree_popFault in E as [];
    [|split_and!; cbn; (done || lia)..].
  destruct (Hs w') as []. destruct (st w') as [[a|e] w2]; cbn in *; split_and!; try congruence; lia.
Qed.

Lemma forward_bindTx parse draw i : forward (bindTx parse draw i).
Proof.
  apply forward_bind; [by apply forward_stmt; split|]. intros _.
  apply forward_bind; [|intros x; destruct (negb _)].
  - unfold recheck. destruct (_ && _); [|apply forward_ret].
    apply forward_bind; [by apply forward_stmt; split|]. intros l. repeat case_match; apply forward_ret.
  - apply forward_bind; [apply forward_lift|]. intros u. apply forward_stmt.
    intros w. unfold RebindHostAgent. repeat case_match; by split.
  - apply forward_bind; [by apply forward_stmt; split|]. intros _.
    apply forward_bind; [apply forward_newUUID|]. intros u.
    apply forward_bind; [apply forward_lift|]. intros v. apply forward_stmt.
    intros w. unfold InsertHostAgent. repeat case_match; by split.
Qed.

Lemma forward_moveTx a b : forward (moveTx a b).
Proof.
  apply forward_bind; [by apply forward_stmt; split|]. intros _.
  apply forward_bind; [|intros; apply forward_ret]. apply forward_stmt.
  intros w. unfold MoveHostAgentBinding. repeat case_match; by split.
Qed.

(** ** Calls that change nothing anybody owns *)

Section Neutral.
Context {R : Type} `{Resource R} (Inv : R -> World -> Prop) `{!Blind Inv}.

Definition neutral {A} (p : Proc World A) : Prop :=
  forall r, safe Inv (fun r' _ => r' = r) r p.

Lemma neutral_ret {A} (a : A) : neutral (Ret a).
Proof. done. Qed.
Lemma neutral_panic {A} : neutral (Panic (A := A)).
Proof. done. Qed.
Lemma neutral_bind {A B} (p : Proc World A) (k : A -> Proc World B) :
  neutral p -> (forall a, neutral (k a)) -> neutral (bind p k).
Proof. intros Hp Hk r. eapply safe_bind; [apply Hp|]. intros r' a ->. apply Hk. Qed.
Lemma neutral_stmt {A} f (st : Stmt A) : Quiet Inv st -> neutral (stmt f st).
Proof using All. intros Hq r. by apply (safe_stmt_quiet Inv f st). Qed.
Lemma neutral_tell {A} e (a : A) : neutral (tell e a).
Proof using All. intros r. by apply safe_tell. Qed.
Lemma neutral_Now : neutral Now.
Proof. intros r. by apply safe_Now. Qed.
Lemma neutral_andThen {A B} (p : Call A) (k : A -> Call B) :
  neutral p -> (forall a, neutral (k a)) -> neutral (andThen p k).
Proof. intros Hp Hk. apply neutral_bind; [done|]. by intros [a|e]. Qed.
Lemma neutral_domain {A} (p : Call A) : neutral p -> neutral (domain p).
Proof. intros Hp. apply neutral_bind; [done|]. intros a. apply neutral_ret. Qed.
Lemma neutral_withTx {A} (fn : Tx A) :
  (forall r, keeps Inv r (fun _ => True) fn) -> forward fn -> neutral (withTx fn).
Proof using All. intros Hk Hf r. by eapply safe_withTx. Qed.
Lemma neutral_affected {A} n (p : Call A) : neutral p -> neutral (affected n p).
Proof. intros Hp. unfold affected. destruct (_ =? _); [apply neutral_ret | done]. Qed.
Lemma neutral_gone e : neutral (IsNotFoundFromDomain e).
Proof. unfold IsNotFoundFromDomain. destruct (IamStore.FromDomain e); [apply neutral_ret | apply neutral_panic]. Qed.

(** A read. *)
Lemma quiet_read {A} (f : World -> result SqlErr A) : Quiet Inv (fun w => (f w, w)).
Proof. by intros r w HI. Qed.

Lemma safe_neutral {A B} (post : R -> B -> Prop) r (p : Proc World A) (k : A -> Proc World B) :
  neutral p -> (forall a, safe Inv post r (k a)) -> safe Inv post r (bind p k).
Proof. intros Hp Hk. eapply safe_bind; [apply Hp|]. intros r' a ->. apply Hk. Qed.

End Neutral.

Create HintDb fleet.
#[export] Hint Resolve neutral_ret neutral_panic neutral_tell neutral_Now neutral_gone : fleet.

(** The statements of the host handlers and the session-independent part of
    a registration all keep the invariant. *)
Class Tame {R} `{Resource R} (Inv : R -> World -> Prop) : Prop := {
  tame_insertHost h : Quiet Inv (insertHost h);
  tame_UpdateFacts id f : Quiet Inv (UpdateAgentHostFacts id f);
  tame_UpdateHost id sf a b : Quiet Inv (UpdateHost id sf a b);
  tame_dropHost id r w : Inv r w -> Inv r (dropHost id w);
  tame_DeleteAgent h : Quiet Inv (DeleteHostAgentByHostID h);
  tame_Move a b : Quiet Inv (MoveHostAgentBinding a b);
  tame_DeleteToken i sf : Quiet Inv (DeleteHostAgentJoinToken i sf);
  tame_BindTarget i h : Quiet Inv (BindHostAgentJoinTokenTarget i h)
}.

Section Handlers.
Context {R : Type} `{Resource R} (Inv : R -> World -> Prop) `{!Blind Inv, !Tame Inv}.

Lemma quiet_DeleteHost id sf : Quiet Inv (DeleteHost id sf).
Proof using All. intros r w HI. unfold DeleteHost. repeat case_match; cbn; try done. by apply tame_dropHost. Qed.

Lemma quiet_DeleteAgentHost id : Quiet Inv (DeleteAgentHost id).
Proof using All. intros r w HI. unfold DeleteAgentHost. repeat case_match; cbn; try done. by apply tame_dropHost. Qed.

#[local] Hint Resolve quiet_read quiet_DeleteHost quiet_DeleteAgentHost tame_insertHost tame_UpdateFacts
  tame_UpdateHost tame_DeleteAgent tame_Move tame_DeleteToken tame_BindTarget : fleet.

Ltac quietly := eauto with fleet; try apply quiet_read; try (by apply tame_insertHost).

Lemma neutral_hostGet id sf : neutral Inv (hostGetByID id sf).
Proof using All. apply neutral_stmt; [done|]. apply quiet_read. Qed.
Lemma neutral_agentGet id : neutral Inv (GetByHostID id).
Proof using All. apply neutral_stmt; [done|]. apply quiet_read. Qed.
Lemma neutral_UpdateFacts id f : neutral Inv (agentHostUpdateFacts id f).
Proof using All.
  apply neutral_andThen; [apply neutral_stmt; quietly|]. intros n. apply neutral_affected. quietly.
Qed.
Lemma neutral_hostDelete id sf : neutral Inv (hostDelete id sf).
Proof using All. apply neutral_andThen; [apply neutral_stmt; quietly|]. quietly. Qed.
Lemma neutral_agentHostDelete id : neutral Inv (agentHostDelete id).
Proof using All. apply neutral_andThen; [apply neutral_stmt; quietly|]. quietly. Qed.
Lemma neutral_agentHostCreate n d f t c : neutral Inv (agentHostCreate n d f t c).
Proof using All. apply neutral_andThen; [apply neutral_stmt; quietly|]. quietly. Qed.
Lemma neutral_MoveBinding a b : neutral Inv (MoveBinding a b).
Proof using All.
  apply neutral_andThen; [apply neutral_withTx; [done| |apply forward_moveTx]|].
  - intros r. eapply keeps_txBind; [apply keeps_quiet; quietly|]. intros _ _.
    eapply keeps_txBind; [apply keeps_quiet; quietly|]. intros _ _. by apply keeps_ret.
  - intros _. apply neutral_andThen; quietly.
Qed.

Lemma neutral_host_get ctx id : neutral Inv (host_get ctx id).
Proof using All. apply neutral_domain, neutral_hostGet. Qed.

Lemma neutral_host_create validIP ctx caller b : neutral Inv (host_create validIP ctx caller b).
Proof using All.
  unfold host_create. destruct (validateHostCreate validIP b); [|quietly].
  apply neutral_andThen; [|intros; apply neutral_host_get]. apply neutral_domain.
  apply neutral_andThen; [apply neutral_stmt; quietly | quietly].
Qed.
Lemma neutral_host_update ctx id b : neutral Inv (host_update ctx id b).
Proof using All.
  unfold host_update. destruct (validateHostUpdate b); [|quietly].
  apply neutral_andThen; [|intros; apply neutral_host_get]. apply neutral_domain.
  apply neutral_andThen; [apply neutral_stmt; quietly|]. intros n. apply neutral_affected. quietly.
Qed.
Lemma neutral_host_delete ctx id : neutral Inv (host_delete ctx id).
Proof using All. apply neutral_domain, neutral_hostDelete. Qed.
Lemma neutral_token_delete ctx id : neutral Inv (joinToken_delete ctx id).
Proof using All.
  apply neutral_domain, neutral_andThen; [apply neutral_stmt; quietly|].
  intros n. apply neutral_affected. quietly.
Qed.

Lemma neutral_moveAgent s t h : neutral Inv (moveAgent s t h).
Proof using All.
  apply neutral_bind; [apply neutral_agentGet|]. intros [x|e].
  - apply neutral_andThen; [apply neutral_domain, neutral_MoveBinding|]. intros _.
    apply neutral_andThen; [apply neutral_domain, neutral_UpdateFacts | quietly].
  - apply neutral_bind; [quietly|]. intros []; quietly.
Qed.
Lemma neutral_noLiveAgent t : neutral Inv (noLiveAgent t).
Proof using All.
  apply neutral_bind; [apply neutral_agentGet|]. intros [[h a]|e].
  - destruct (_ =s _); quietly.
  - apply neutral_bind; [quietly|]. intros []; quietly.
Qed.
Lemma neutral_host_merge ctx src : neutral Inv (host_merge ctx src).
Proof using All.
  unfold host_merge. destruct (ParseInt src 64) as [i|]; [|quietly].
  destruct (i <=? 0); [quietly|]. destruct (i =? _); [quietly|].
  apply neutral_andThen; [apply neutral_domain, neutral_hostGet|]. intros t.
  apply neutral_andThen; [apply neutral_domain, neutral_hostGet|]. intros s.
  destruct (negb _); [quietly|].
  apply neutral_andThen; [apply neutral_noLiveAgent|]. intros _.
  apply neutral_andThen; [apply neutral_moveAgent|]. intros m.
  apply neutral_andThen; [apply neutral_domain, neutral_hostDelete | quietly].
Qed.

Lemma neutral_createNamed sp names : neutral Inv (createNamed sp names).
Proof using All.
  induction names as [|n l IH]; cbn [createNamed]; [quietly|].
  apply neutral_bind; [apply neutral_agentHostCreate|]. intros [i|e]; [quietly|]. destruct (isNot 409 e); [quietly | done].
Qed.

Lemma neutral_RegisterAgentHost sha sp : neutral Inv (RegisterAgentHost sha sp).
Proof using All.
  unfold RegisterAgentHost. destruct (0 <? _); [|apply neutral_createNamed].
  apply neutral_bind; [apply neutral_stmt; [done | apply quiet_read]|]. intros [cur|e].
  - destruct (negb _); [quietly|]. apply neutral_bind; [apply neutral_UpdateFacts|].
    intros [x|e]; [quietly|]. destruct (isNot 404 e); [quietly | apply neutral_createNamed].
  - apply neutral_bind; [quietly|]. intros []; [apply neutral_createNamed | quietly].
Qed.

Lemma neutral_unregister h (c : bool) :
  neutral Inv (if c && (0 <? h) then _ <-~ UnregisterAgentHost h ;; Ret tt else Ret tt).
Proof using All.
  destruct (_ && _); [|quietly]. apply neutral_bind; [apply neutral_agentHostDelete | quietly].
Qed.

Lemma safe_undo h c i r :
  safe Inv (fun _ _ => True) r (tokenRefund i) -> safe Inv (fun _ _ => True) r (undoRegistration h c i).
Proof using All.
  intros Hr. apply safe_neutral; [apply neutral_unregister|]. intros _.
  eapply safe_bind; [exact Hr|]. by intros r' x _.
Qed.

Lemma neutral_tokenTarget ctx raw : neutral Inv (tokenTarget ctx raw).
Proof using All.
  unfold tokenTarget. destruct (raw =s _); [quietly|]. destruct (ParseInt raw 64) as [i|]; [|quietly].
  destruct (i <=? 0); [quietly|]. apply neutral_andThen; [apply neutral_domain, neutral_hostGet | quietly].
Qed.

(** Binding an agent, when rebinding and inserting keep the invariant. *)
Lemma keeps_bindTx parse draw i r0 :
  (forall h v p a, Quiet Inv (RebindHostAgent h v p a)) ->
  (forall h a v p, Quiet Inv (InsertHostAgent h a v p)) ->
  keeps Inv r0 (fun _ => True) (bindTx parse draw i).
Proof using All.
  intros Hre Hin.
  eapply keeps_txBind; [apply keeps_quiet; [done | apply quiet_read]|]. intros _ _.
  eapply (keeps_txBind _ _ (fun _ => True)).
  { unfold recheck. destruct (_ && _); [|by apply keeps_ret].
    eapply keeps_txBind; [apply keeps_quiet; [done | apply quiet_read]|]. intros l _. repeat case_match; by apply keeps_ret. }
  intros x _. destruct (negb _).
  - eapply (keeps_txBind _ _ (fun _ => True)); [apply keeps_lift; by case_match|]. intros u _.
    apply keeps_quiet; [done | apply Hre].
  - eapply keeps_txBind; [apply keeps_quiet; [done | apply tame_DeleteAgent]|]. intros _ _.
    eapply (keeps_txBind _ _ (fun _ => True)).
    { intros rest w HI. split; [|done]. apply (blind Inv _ w); [|done]. split; cbn; (done || lia). }
    intros d _. eapply (keeps_txBind _ _ (fun _ => True)); [apply keeps_lift; by case_match|]. intros v _.
    apply keeps_quiet; [done | apply Hin].
Qed.

Lemma neutral_Bind parse draw i :
  (forall h v p a, Quiet Inv (RebindHostAgent h v p a)) ->
  (forall h a v p, Quiet Inv (InsertHostAgent h a v p)) ->
  neutral Inv (Bind parse draw i).
Proof using All.
  intros Hre Hin. apply neutral_andThen; [|quietly].
  apply neutral_withTx; [done| |apply forward_bindTx]. intros r. by apply keeps_bindTx.
Qed.

(** Drawing a join token and storing it, when the row of such a token keeps
    the invariant. *)
Lemma neutral_tokenCreate sha draw ctx caller b (P : string -> Prop) :
  (forall r w, Inv r w -> P (OStore.base64URLEncode (draw (drawn w)))) ->
  (forall p j, P p -> jHash j = HashToken sha p -> Quiet Inv (CreateHostAgentJoinToken j)) ->
  neutral Inv (joinToken_create sha draw ctx caller b).
Proof using All.
  intros Hd Hc. unfold joinToken_create. cbn zeta. destruct (_ || _); [quietly|].
  apply neutral_andThen; [apply neutral_tokenTarget|]. intros t r.
  apply (safe_bind Inv _ (fun r' p => r' = r /\ P p)).
  - apply safe_atom. intros rest w HI. exists r. split; [|split; [done | by eapply Hd]].
    apply (blind Inv _ w); [|done]. split; cbn; (done || lia).
  - intros r' p [-> Hp]. apply safe_neutral; [apply neutral_Now|]. intros now.
    eapply safe_mono; [|apply neutral_andThen; [|intros; apply neutral_ret]]; [done|].
    apply neutral_domain, neutral_stmt; [done|]. by eapply Hc.
Qed.

Lemma neutral_claim fp : neutral Inv (claimCandidates fp).
Proof using All.
  unfold claimCandidates. destruct (_ =s _); [quietly|]. apply neutral_stmt; [done | apply quiet_read].
Qed.

End Handlers.

(** ** Walking through a registration

    A property of registrations is what a thread knows or owns at four
    points: the machine is identified, the token is consumed, the host row
    is placed, the agent is bound. *)

Section Walk.
Context {R : Type} `{Resource R} (Inv : R -> World -> Prop) `{!Blind Inv, !Tame Inv}.
Context (sha256 : string -> list Z) (uuidParse : string -> option string) (uuidDraw : nat -> string).
Context (decodeJSON : string -> result string RegisterRequest).
Context (hmac : list Z -> list Z -> list Z) (marshalAgent : Tok.AgentClaims -> option (list Z)) (key : list Z).

(** The request, its fingerprint, and the stages. *)
Context (S1 : RegisterRequest -> Ident.Fingerprint -> Ident.MatchOutcome -> R -> Prop).
Context (S2 : Ident.Fingerprint -> Ident.MatchOutcome -> Z * JoinToken -> R -> Prop).
Context (S3 : Ident.Fingerprint -> Ident.MatchOutcome -> Z * JoinToken -> Z -> bool -> R -> Prop).
Context (Fin : R -> Response -> Prop).

Context (fin_fail : forall r resp, rsStatus resp <> 200 -> Fin r resp).
Context (hash : list Z).
Context (at_identify : forall req now cutoff,
  let fp := Ident.NewFingerprint (rqMachineID req) (rqFingerprint req) now in
  safe Inv (fun r x => match x with
            | Ok cs => S1 req fp (Ident.MatchMachine fp ((fun p => identRow p.1 p.2) <$> cs) cutoff) r
            | Err _ => True end) rid (claimCandidates fp)).
Context (at_consume : forall req fp m r, S1 req fp m r ->
  safe Inv (fun r x => match x with Ok tok => S2 fp m tok r | Err _ => True end) r (tokenConsume hash)).
Context (at_host : forall req fp m tok existing r, S2 fp m tok r ->
  safe Inv (fun r x => match x with Ok (h, c) => S3 fp m tok h c r | Err _ => S2 fp m tok r end) r
    (RegisterAgentHost sha256
       (mkSpec existing (Ident.NameSeed fp) (rqFacts req) (jTenancy tok.2) (jCreatedBy tok.2)))).
Context (at_bind : forall fp m tok h c v r, S3 fp m tok h c r ->
  safe Inv (fun r x => match x with
            | Ok row => forall at_, Fin r (mkResponse 200 "" (Some (mkRegistered (aAgentID row.2) h at_)))
            | Err _ => S3 fp m tok h c r end) r
    (Bind uuidParse uuidDraw
       (mkBind h v (Ident.moAgentID m) (Ident.moClaimUUIDs m) (ToStore fp (Ident.moSource m))))).
Context (at_undo : forall fp m tok h c r, (h = 0 /\ c = false /\ S2 fp m tok r) \/ S3 fp m tok h c r ->
  safe Inv (fun _ _ => True) r (undoRegistration h c tok.1)).

Lemma neutral_report self : neutral Inv (reportImageGroup self).
Proof using All.
  unfold reportImageGroup. destruct (_ =s _); [apply neutral_ret|].
  apply neutral_bind; [|intros; apply neutral_ret]. unfold FindByMachineID.
  destruct (_ =s _); [apply neutral_ret|]. apply neutral_stmt; [done|]. apply quiet_read.
Qed.

Lemma neutral_bindTarget i h : neutral Inv (tokenBindTarget i h).
Proof using All. apply neutral_stmt; [done|]. apply tame_BindTarget. Qed.

Lemma walk_undo fp m tok h c r resp :
  (h = 0 /\ c = false /\ S2 fp m tok r) \/ S3 fp m tok h c r -> rsStatus resp <> 200 ->
  safe Inv Fin r (_ <-~ undoRegistration h c tok.1 ;; Ret resp).
Proof using All. intros Hs Hr. eapply safe_bind; [by eapply at_undo|]. intros r' [] _. by apply fin_fail. Qed.

Lemma walk_finish req fp m tok h c r : S3 fp m tok h c r ->
  safe Inv Fin r (finishRegistration uuidParse uuidDraw hmac marshalAgent key req fp m tok.1 h c).
Proof using All.
  intros Hs. eapply safe_bind; [by eapply at_bind|]. intros r' [row|e] Hx; [|by eapply walk_undo; [right|]].
  apply safe_neutral; [apply neutral_Now|]. intros now.
  destruct (Tok.agentIssue _ _ _ _) as [at_|]; [|by apply fin_fail].
  apply safe_neutral; [apply neutral_bindTarget|]. intros _.
  apply safe_neutral; [apply neutral_report|]. intros _. apply Hx.
Qed.

Lemma walk_place req fp m tok existing r : S2 fp m tok r ->
  safe Inv Fin r (placeHost sha256 uuidParse uuidDraw hmac marshalAgent key req fp m tok.1 tok.2 existing).
Proof using All.
  intros Hs. eapply safe_bind; [by apply at_host|]. intros r' [[h c]|e] Hx.
  - by apply walk_finish.
  - eapply walk_undo; [by left|]. by destruct (_ =? _).
Qed.

Lemma walk_redeem req fp m tok r : S2 fp m tok r ->
  safe Inv Fin r (redeem sha256 uuidParse uuidDraw hmac marshalAgent key req fp m tok.1 tok.2).
Proof using All.
  intros Hs. unfold redeem. destruct (jTargetHostID tok.2) as [t|]; [|by apply walk_place].
  destruct (_ =? 0); [by apply walk_place|]. destruct (negb _); [|by apply walk_place].
  by eapply walk_undo; [left|].
Qed.

Lemma walk_live a (k : Proc World Response) r :
  safe Inv Fin r k ->
  safe Inv Fin r (refusal <-~ liveAgent uuidParse a ;; match refusal with Some resp => Ret resp | None => k end).
Proof using All.
  intros Hk. unfold liveAgent. destruct (_ =s _); [done|].
  assert (Hn : neutral Inv (GetByAgentID uuidParse a)).
  { unfold GetByAgentID. destruct (parseAgentUUID _ _); [|apply neutral_ret].
    apply neutral_stmt; [done|]. apply quiet_read. }
  eapply (safe_bind Inv _ (fun r' x => r' = r /\ match x with Some resp => rsStatus resp <> 200 | None => True end)).
  - eapply safe_bind; [apply Hn|]. intros r' [x|e] ->; cbn; [|done]. by destruct (_ =s _).
  - intros r' [resp|] [-> Hx]; [by apply fin_fail | done].
Qed.

Lemma walk_identify req : safe Inv Fin rid (identify sha256 uuidParse uuidDraw hmac marshalAgent key req hash).
Proof using All.
  apply safe_neutral; [apply neutral_Now|]. intros now. cbn zeta.
  eapply safe_bind; [apply (at_identify req now)|]. intros r' [cs|e] Hx; [|by apply fin_fail].
  apply walk_live. eapply safe_bind; [by eapply at_consume|]. intros r2 [tok|e] Hy.
  - destruct tok as [i j]. by apply (walk_redeem _ _ _ (i, j)).
  - apply fin_fail. unfold tokenError. by destruct (isNot 404 e).
Qed.

Lemma walk_register (c : RegisterCall) :
  (forall jt, Tok.bearerToken (rcAuth c) = Some jt -> HashToken sha256 jt = hash) ->
  safe Inv Fin rid (handleRegister sha256 uuidParse uuidDraw decodeJSON hmac marshalAgent key c).
Proof using All.
  intros Hh. unfold handleRegister. destruct (negb _); [by apply fin_fail|].
  destruct (Tok.bearerToken _) as [jt|] eqn:E; [|by apply fin_fail].
  destruct (decodeRegisterRequest decodeJSON (rcBody c)) as [req|resp] eqn:D.
  - rewrite (Hh jt eq_refl). apply safe_neutral.
    + apply neutral_stmt; [done|]. apply quiet_read.
    + intros [x|e]; [apply walk_identify|]. apply fin_fail. unfold tokenError. by destruct (isNot 404 e).
  - apply fin_fail. unfold decodeRegisterRequest in D. repeat case_match; simplify_eq/=; done.
Qed.

End Walk.

End FleetLogic.
