(* ===== verification/FleetIntegrity.v ===== *)
(** * Integrity of the fleet tables

    What the constraints of [hosts], [host_agents] and
    [host_agent_join_tokens] promise together, kept by every statement and
    so by every interleaving of requests. *)

From stdpp Require Import sorting.
From S2P Require Import Prelude Rbac ListQuery ApiRoutes ApiServe IamDb IamStore IamRoles OidcStore AgentToken AgentIdentity Atomic FleetDb FleetStore FleetHosts FleetEnroll FleetLogic.

Module FleetIntegrity.
Import IamDb(SqlErr(..), someRow, firstRow, firstRow_Some, firstRow_None, someRow_false, rowsWhere, deleteWhere, colEq, isNull).
Import IamStore(GoErr(..)).
Import IamRoles(Ctx).
Import Rbac(ScopePlatform).
Import Atomic FleetDb FleetStore FleetHosts FleetEnroll FleetLogic.

Record WF (w : World) : Prop := {
  wf_seq : 0 <= hostSeq w;
  wf_hostSeq h : h ∈ dom (hosts w) -> 0 < h <= hostSeq w;
  wf_tokenSeq t : t ∈ dom (tokens w) -> t <= tokenSeq w;
  wf_bound h : h ∈ dom (agents w) -> h ∈ dom (hosts w);
  wf_target t j h : tokens w !! t = Some j -> jTargetHostID j = Some h -> h ∈ dom (hosts w);
  wf_agentID h h' a a' : agents w !! h = Some a -> agents w !! h' = Some a' ->
    aAgentID a = aAgentID a' -> h = h';
  wf_hash t t' j j' : tokens w !! t = Some j -> tokens w !! t' = Some j' ->
    jHash j = jHash j' -> t = t';
  wf_uses t j : tokens w !! t = Some j -> tokenOk j = true;
  wf_tenancy h x : hosts w !! h = Some x -> scopeOk (hTenancy x) = true;
  wf_name h h' x x' : hosts w !! h = Some x -> hosts w !! h' = Some x' ->
    hostClash x x' = true -> h = h'
}.

(** ** Rows *)

Lemma deleteWhere_Some {A} (P : Z -> A -> bool) m k x :
  deleteWhere P m !! k = Some x -> m !! k = Some x /\ P k x = false.
Proof. unfold deleteWhere. by intros [? ?]%map_lookup_filter_Some. Qed.

Lemma byAgentID_Some a w h x : byAgentID a w = Some (h, x) -> agents w !! h = Some x /\ aAgentID x = a.
Proof. intros [? ?%String.eqb_eq]%firstRow_Some. done. Qed.

Lemma byAgentID_None a w h x : byAgentID a w = None -> agents w !! h = Some x -> aAgentID x <> a.
Proof. intros Hn Hx. pose proof (proj1 (firstRow_None _ _) Hn _ _ Hx) as E. by apply String.eqb_neq in E. Qed.

(** ** Every statement keeps it *)

#[local] Abbreviation Inv := (fun (_ : unit) w => WF w).

#[export] Instance Blind_WF : Blind Inv.
Proof.
  intros r w w' [E1 E2 E3 E4 E5 E6] []. split; rewrite ?E1, ?E2, ?E3, ?E4, ?E5; auto.
Qed.

(** An update of the rows that keeps keys and what the constraints read. *)
Lemma lookup_insert_cases {A} (m : gmap Z A) i x j y :
  <[i := x]> m !! j = Some y -> (j = i /\ y = x) \/ (j <> i /\ m !! j = Some y).
Proof. intros [[-> ->]|[? ?]]%lookup_insert_Some; [by left | right; done]. Qed.

Ltac rows := repeat match goal with
  | H : <[_ := _]> _ !! _ = Some _ |- _ => apply lookup_insert_cases in H as [[-> ->]|[? H]]
  | H : delete _ _ !! _ = Some _ |- _ => apply lookup_delete_Some in H as [? H]
  | H : deleteWhere _ _ !! _ = Some _ |- _ => apply deleteWhere_Some in H as [H ?]
  | H : _ ∈ dom (<[_ := _]> _) |- _ => rewrite dom_insert in H; apply elem_of_union in H as [H%elem_of_singleton|H]
  | H : _ ∈ dom (delete _ _) |- _ => rewrite dom_delete in H; apply elem_of_difference in H as [H ?]
  end.

Lemma hostClash_sym x y : hostClash x y = true -> hostClash y x = true.
Proof.
  unfold hostClash. intros [[H1 H2]%andb_true_iff H3]%andb_true_iff.
  apply String.eqb_eq in H1, H2. rewrite H1, H2, !String.eqb_refl. cbn.
  rewrite H2 in H3. destruct (_ =s ScopePlatform); [done|]. cbn in *.
  rewrite (bool_decide_ext _ _ (eq_comm (tWorkspaceID (hTenancy y)) _)),
    (bool_decide_ext _ _ (eq_comm (tNamespaceID (hTenancy y)) _)). done.
Qed.

Lemma hostClash_ext x x' y : hName x' = hName x -> hTenancy x' = hTenancy x -> hostClash x' y = hostClash x y.
Proof. intros E1 E2. unfold hostClash. by rewrite E1, E2. Qed.

(** A host row edited in place. *)
Lemma WF_editHost id h h' w : hosts w !! id = Some h -> hName h' = hName h -> hTenancy h' = hTenancy h ->
  WF w -> WF (set_hosts (<[id := h']> (hosts w)) w).
Proof.
  intros Hh En Et [W0 W1 W2 W3 W4 W5 W6 W7 W8 W9].
  assert (Hd : dom (<[id := h']> (hosts w)) = dom (hosts w)).
  { apply dom_insert_lookup_L. eauto. }
  split; cbn; rewrite ?Hd; auto.
  - intros i x Hx. rows; [rewrite Et; eauto | eauto].
  - intros i i' x x' Hx Hx' Hc. rows; [done| | |eauto].
    + apply hostClash_sym in Hc. rewrite (hostClash_ext _ _ _ En Et) in Hc. symmetry. eauto.
    + rewrite (hostClash_ext _ _ _ En Et) in Hc. eauto.
Qed.

Lemma quiet_insertHost h : Quiet Inv (insertHost h).
Proof.
  intros [] w [W0 W1 W2 W3 W4 W5 W6 W7 W8 W9]. unfold insertHost.
  assert (Hseq : WF (set_seqs (hostSeq w + 1) (tokenSeq w) w)).
  { split; cbn; auto; [lia|]. intros i Hi. specialize (W1 i Hi). lia. }
  destruct (negb (hostFits h)); [exact Hseq|]. destruct (negb (scopeOk _)) eqn:Es; [exact Hseq|].
  destruct (someRow _ _) eqn:Ec; [exact Hseq|]. destruct (negb (refOk _ _)); [exact Hseq|].
  apply negb_false_iff in Es. split; cbn; auto; [lia|..].
  - intros i Hi. rows; [lia | specialize (W1 i Hi); lia].
  - intros i Hi. rewrite dom_insert. set_solver.
  - intros t j i Hj Hi. rewrite dom_insert. set_solver.
  - intros i x Hx. rows; eauto.
  - intros i i' x x' Hx Hx' Hc. rows; [done| | |eauto].
    + exfalso. apply hostClash_sym in Hc. pose proof (proj1 (someRow_false _ _) Ec _ _ Hx) as Hf. cbn in Hf. congruence.
    + exfalso. pose proof (proj1 (someRow_false _ _) Ec _ _ Hx') as Hf. cbn in Hf. congruence.
Qed.

Lemma WF_dropHost id w : WF w -> WF (dropHost id w).
Proof.
  intros [W0 W1 W2 W3 W4 W5 W6 W7 W8 W9]. split; cbn; auto.
  - intros h Hh. rows. auto.
  - intros t [j Hj]%elem_of_dom. rows. apply W2, elem_of_dom. eauto.
  - intros h Hh. rows. rewrite dom_delete. set_solver.
  - intros t j h Hj Hh. rows. rewrite dom_delete. apply elem_of_difference. split; [eauto|].
    intros ->%elem_of_singleton. rewrite Hh in *. cbn in *. lia.
  - intros h h' a a' Ha Ha'. rows. eauto.
  - intros t t' j j' Hj Hj'. rows. eauto.
  - intros t j Hj. rows. eauto.
  - intros h x Hx. rows. eauto.
  - intros h h' x x' Hx Hx'. rows. eauto.
Qed.

(** Agent rows moved or edited: the new table is given by its rows. *)
Lemma WF_agents t w : WF w -> dom t ⊆ dom (hosts w) ->
  (forall h h' a a', t !! h = Some a -> t !! h' = Some a' -> aAgentID a = aAgentID a' -> h = h') ->
  WF (set_agents t w).
Proof. intros [W0 W1 W2 W3 W4 W5 W6 W7 W8 W9] Hd Hi. split; cbn; auto. Qed.

Lemma quiet_DeleteAgent h : Quiet Inv (DeleteHostAgentByHostID h).
Proof.
  intros [] w W. apply WF_agents; [done| |].
  - rewrite dom_delete. intros i [Hi _]%elem_of_difference. by apply (wf_bound _ W).
  - intros i i' a a' Ha Ha'. rows. by eapply (wf_agentID _ W).
Qed.

(** A row put at [h] in place of the one at [from], with its agent id. *)
Lemma WF_replace h from a a' w : WF w -> agents w !! from = Some a -> aAgentID a' = aAgentID a ->
  h ∈ dom (hosts w) -> WF (set_agents (<[h := a']> (delete from (agents w))) w).
Proof.
  intros W Ha Hi Hh. apply WF_agents; [done| |].
  - rewrite dom_insert, dom_delete. intros i [->%elem_of_singleton|[Hd _]%elem_of_difference]%elem_of_union; [done|].
    by apply (wf_bound _ W).
  - intros i i' x x' Hx Hx' E. rows; [done| | |by eapply (wf_agentID _ W)].
    + rewrite Hi in E. pose proof (wf_agentID _ W _ _ _ _ Hx Ha E). congruence.
    + rewrite Hi in E. pose proof (wf_agentID _ W _ _ _ _ Ha Hx' E). done.
Qed.

Lemma quiet_Rebind h v p a : Quiet Inv (RebindHostAgent h v p a).
Proof.
  intros [] w W. unfold RebindHostAgent. destruct (byAgentID a w) as [[from x]|] eqn:E; [|done].
  apply byAgentID_Some in E as [E1 E2]. destruct (_ <=? _); [done|]. case_bool_decide; [done|].
  case_bool_decide as Hh; [|done]. cbn. eapply WF_replace; [done|exact E1|done|]. by apply elem_of_dom.
Qed.

Lemma quiet_Move a b : Quiet Inv (MoveHostAgentBinding a b).
Proof.
  intros [] w W. unfold MoveHostAgentBinding. destruct (agents w !! b) as [x|] eqn:E; [|done].
  case_bool_decide; [done|]. case_bool_decide as Hh; [|done]. cbn.
  eapply WF_replace; [done|exact E|done|]. by apply elem_of_dom.
Qed.

Lemma quiet_InsertAgent h a v p : Quiet Inv (InsertHostAgent h a v p).
Proof.
  intros [] w W. unfold InsertHostAgent. destruct (_ || _) eqn:E; [done|].
  apply orb_false_iff in E as [E1%bool_decide_eq_false E2%bool_decide_eq_false].
  apply eq_None_not_Some in E2. case_bool_decide as Hh; [|done]. cbn.
  apply WF_agents; [done| |].
  - rewrite dom_insert. intros i [->%elem_of_singleton|Hi]%elem_of_union; [by apply elem_of_dom|].
    by apply (wf_bound _ W).
  - intros i i' x x' Hx Hx' Ei. rows; [done| | |by eapply (wf_agentID _ W)].
    + exfalso. by apply (byAgentID_None _ _ _ _ E2 Hx).
    + exfalso. by apply (byAgentID_None _ _ _ _ E2 Hx').
Qed.

(** A token row edited in place, its hash kept. *)
Lemma WF_editToken t j j' w : tokens w !! t = Some j -> jHash j' = jHash j -> tokenOk j' = true ->
  (forall h, jTargetHostID j' = Some h -> h ∈ dom (hosts w)) ->
  WF w -> WF (set_tokens (<[t := j']> (tokens w)) w).
Proof.
  intros Hj Eh Eo Et [W0 W1 W2 W3 W4 W5 W6 W7 W8 W9].
  assert (Hd : dom (<[t := j']> (tokens w)) = dom (tokens w)) by (apply dom_insert_lookup_L; eauto).
  split; cbn; rewrite ?Hd; auto.
  - intros i x h Hx Hh. rows; eauto.
  - intros i i' x x' Hx Hx' E. rows; [done| | |eauto].
    + rewrite Eh in E. eapply W6; eauto.
    + rewrite Eh in E. eapply W6; eauto.
  - intros i x Hx. rows; eauto.
Qed.

Lemma WF_dropTokens P w : WF w -> WF (set_tokens (deleteWhere P (tokens w)) w).
Proof.
  intros [W0 W1 W2 W3 W4 W5 W6 W7 W8 W9]. split; cbn; auto.
  - intros t [j Hj]%elem_of_dom. rows. apply W2, elem_of_dom. eauto.
  - intros t j h Hj Hh. rows. eauto.
  - intros t t' j j' Hj Hj'. rows. eauto.
  - intros t j Hj. rows. eauto.
Qed.

Lemma quiet_DeleteToken i sf : Quiet Inv (DeleteHostAgentJoinToken i sf).
Proof.
  intros [] w W. unfold DeleteHostAgentJoinToken. repeat case_match; cbn; try done.
  destruct W as [W0 W1 W2 W3 W4 W5 W6 W7 W8 W9]. split; cbn; auto.
  - intros t Ht. rows. auto.
  - intros t x h Hx Hh. rows. eauto.
  - intros t t' x x' Hx Hx'. rows. eauto.
  - intros t x Hx. rows. eauto.
Qed.

Lemma tokenOk_used n j : tokenOk j = true -> 0 <= n <= jMaxUses j -> tokenOk (withUsed n j) = true.
Proof.
  unfold tokenOk. cbn. intros [[[[H1 H2]%andb_true_iff H3]%andb_true_iff H4]%andb_true_iff H5]%andb_true_iff Hn.
  rewrite H1, H2, H5. cbn. rewrite andb_true_r. apply andb_true_iff. lia.
Qed.

Lemma tokenOk_bounds j : tokenOk j = true -> 0 <= jUsedCount j <= jMaxUses j.
Proof. unfold tokenOk. intros [[[[H1 H2]%andb_true_iff H3]%andb_true_iff H4]%andb_true_iff H5]%andb_true_iff. lia. Qed.

Lemma live_spec h now j : live h now j = true -> jHash j = h /\ now < jExpiresAt j /\ jUsedCount j < jMaxUses j.
Proof. unfold live. intros [[H1%bool_decide_eq_true H2]%andb_true_iff H3]%andb_true_iff. split_and!; [done | lia..]. Qed.

Lemma quiet_Consume h : Quiet Inv (ConsumeHostAgentJoinToken h).
Proof.
  intros [] w W. unfold ConsumeHostAgentJoinToken. destruct (firstRow _ _) as [[t j]|] eqn:E; [|done].
  apply firstRow_Some in E as [Hj (E1 & E2 & E3)%live_spec]. cbn.
  pose proof (tokenOk_bounds j (wf_uses _ W _ _ Hj)).
  apply (WF_editToken t j); [done|done| |intros; by eapply (wf_target _ W)|done].
  apply tokenOk_used; [by apply (wf_uses _ W t) | lia].
Qed.

Lemma quiet_Refund i : Quiet Inv (RefundHostAgentJoinToken i).
Proof.
  intros [] w W. unfold RefundHostAgentJoinToken. destruct (tokens w !! i) as [j|] eqn:Hj; [|done].
  destruct (0 <? _) eqn:E; [|done]. cbn. pose proof (tokenOk_bounds j (wf_uses _ W _ _ Hj)).
  apply (WF_editToken i j); [done|done| |intros; by eapply (wf_target _ W)|done].
  apply tokenOk_used; [by apply (wf_uses _ W i) | lia].
Qed.

Lemma quiet_BindTarget i h : Quiet Inv (BindHostAgentJoinTokenTarget i h).
Proof.
  intros [] w W. unfold BindHostAgentJoinTokenTarget. destruct (tokens w !! i) as [j|] eqn:Hj; [|done].
  destruct (_ && _) eqn:E; [|done]. case_bool_decide as Hh; [|done]. cbn.
  apply andb_true_iff in E as [E1 E2]. pose proof (wf_uses _ W _ _ Hj) as Ho.
  apply (WF_editToken i j); [done|done| |intros ? [= <-]; by apply elem_of_dom|done].
  unfold tokenOk in *. cbn. rewrite E1 in Ho. cbn in Ho. by rewrite E2, andb_true_r in *.
Qed.

Lemma quiet_CreateToken j : Quiet Inv (CreateHostAgentJoinToken j).
Proof.
  intros [] w [W0 W1 W2 W3 W4 W5 W6 W7 W8 W9]. unfold CreateHostAgentJoinToken.
  assert (Hseq : WF (set_seqs (hostSeq w) (tokenSeq w + 1) w)).
  { split; cbn; auto. intros i Hi. specialize (W2 i Hi). lia. }
  destruct (negb (IamDb.fits _ _)); [exact Hseq|]. destruct (negb (tokenOk j)) eqn:Eo; [exact Hseq|].
  destruct (someRow _ _) eqn:Ec; [exact Hseq|]. destruct (negb (tokenRefsOk j w)) eqn:Er; [exact Hseq|].
  apply negb_false_iff in Eo, Er. cbn. split; cbn; auto.
  - intros i Hi. rows; [lia|]. specialize (W2 i Hi). lia.
  - intros t x h Hx Hh. rows; [|eauto]. unfold tokenRefsOk in Er.
    apply andb_true_iff in Er as [_ Er]. rewrite Hh in Er. by apply bool_decide_eq_true in Er.
  - intros t t' x x' Hx Hx' E. rows; [done| | |eauto].
    + pose proof (proj1 (someRow_false _ _) Ec _ _ Hx) as Hf%bool_decide_eq_false. done.
    + pose proof (proj1 (someRow_false _ _) Ec _ _ Hx') as Hf%bool_decide_eq_false. done.
  - intros t x Hx. rows; eauto.
Qed.

#[export] Instance Tame_WF : Tame Inv.
Proof.
  split.
  - apply quiet_insertHost.
  - intros id f [] w W. unfold UpdateAgentHostFacts. destruct (hosts w !! id) eqn:E; [|done].
    destruct (negb _); [done|]. cbn. by eapply WF_editHost.
  - intros id sf a b [] w W. unfold UpdateHost. destruct (hosts w !! id) eqn:E; [|done].
    destruct (inScope _ _); [|done]. destruct (negb _); [done|]. cbn. by eapply WF_editHost.
  - intros id [] w. apply WF_dropHost.
  - apply quiet_DeleteAgent.
  - apply quiet_Move.
  - apply quiet_DeleteToken.
  - apply quiet_BindTarget.
Qed.

(** ** The rest of the system *)

Lemma WF_alter f h w : WF w -> (forall a, aAgentID (f a) = aAgentID a) ->
  WF (set_agents (alter f h (agents w)) w).
Proof.
  intros W Hf. apply WF_agents; [done| |].
  - intros i [a Ha]%elem_of_dom. apply (wf_bound _ W), elem_of_dom. rewrite <- lookup_alter_is_Some. eauto.
  - assert (Hl : forall i x, alter f h (agents w) !! i = Some x ->
              exists a, agents w !! i = Some a /\ aAgentID x = aAgentID a).
    { intros i x. rewrite lookup_alter_Some. intros [(-> & a & Ha & ->)|[_ Ha]]; eauto. }
    intros i i' x x' (a & Ha & Ea)%Hl (a' & Ha' & Ea')%Hl E. eapply (wf_agentID _ W); eauto. congruence.
Qed.

Lemma WF_forget u w : WF w ->
  WF (set_hosts (forgetHost u <$> hosts w) (set_tokens (forgetToken u <$> tokens w) w)).
Proof.
  intros [W0 W1 W2 W3 W4 W5 W6 W7 W8 W9]. split; cbn; rewrite ?dom_fmap_L; auto.
  - intros t j h. rewrite lookup_fmap, fmap_Some. intros (j0 & Hj & ->) Hh. eauto.
  - intros t t' j j'. rewrite !lookup_fmap, !fmap_Some. intros (x & Hx & ->) (x' & Hx' & ->). cbn. eauto.
  - intros t j. rewrite lookup_fmap, fmap_Some. intros (x & Hx & ->). apply (W7 t x Hx).
  - intros h x. rewrite lookup_fmap, fmap_Some. intros (y & Hy & ->). cbn. eauto.
  - intros h h' x x'. rewrite !lookup_fmap, !fmap_Some. intros (y & Hy & ->) (y' & Hy' & ->) Hc.
    apply (W9 h h' y y'); [done..|]. exact Hc.
Qed.

Lemma WF_tenants us ws ns w : WF w -> WF (set_tenants us ws ns w).
Proof. intros []. by split. Qed.

Lemma WF_outside o w : WF w -> WF (outside o w).
Proof.
  intros W. destruct o; cbn [outside].
  - destruct W. by split.
  - by apply WF_alter.
  - by apply WF_alter.
  - exact (WF_forget _ (set_tenants _ _ _ w) (WF_tenants _ _ _ w W)).
  - by apply (WF_dropTokens _ (set_tenants _ _ _ w)), WF_tenants.
  - by apply (WF_dropTokens _ (set_tenants _ _ _ w)), WF_tenants.
Qed.

(** ** Every request *)

Section Fleet.
Context (sha256 : string -> list Z) (uuidParse : string -> option string) (uuidDraw : nat -> string).
Context (decodeJSON : string -> result string RegisterRequest).
Context (hmac : list Z -> list Z -> list Z) (marshalAgent : Tok.AgentClaims -> option (list Z)) (key : list Z).
Context (validIP : string -> bool) (randDraw : nat -> list Z).

Lemma safe_register c : safe Inv (fun _ _ => True) rid
  (handleRegister sha256 uuidParse uuidDraw decodeJSON hmac marshalAgent key c).
Proof.
  apply (walk_register Inv sha256 uuidParse uuidDraw decodeJSON hmac marshalAgent key
           (fun _ _ _ _ => True) (fun _ _ _ _ => True) (fun _ _ _ _ _ _ => True) (fun _ _ => True))
    with (hash := match Tok.bearerToken (rcAuth c) with Some jt => HashToken sha256 jt | None => [] end).
  - done.
  - intros req now cutoff fp. eapply safe_mono; [|apply neutral_claim; apply _]. by intros r [] _.
  - intros req fp m r _. eapply safe_mono; [|apply (neutral_stmt Inv); apply quiet_Consume]. by intros ? [] _.
  - intros req fp m tok ex r _. eapply safe_mono; [|apply neutral_RegisterAgentHost; apply _]. by intros ? [[]|] _.
  - intros fp m tok h b v r _. eapply safe_mono; [|apply (neutral_Bind Inv); [apply quiet_Rebind | apply quiet_InsertAgent]].
    by intros ? [] _.
  - intros fp m tok h b r _. apply (safe_undo Inv).
    eapply safe_mono; [|apply (neutral_stmt Inv); apply quiet_Refund]. done.
  - intros jt E. by rewrite E.
Qed.

Lemma safe_done {A} (p : Call A) : safe Inv (fun _ _ => True) tt p -> safe Inv (fun _ _ => True) tt (done p).
Proof. intros Hp. eapply safe_bind; [exact Hp|]. done. Qed.

Lemma safe_task t : safe Inv (fun _ _ => True) tt
  (serve sha256 uuidParse uuidDraw decodeJSON hmac marshalAgent key validIP randDraw t).
Proof.
  destruct t; cbn [serve]; try apply safe_done.
  1: { eapply safe_bind; [apply safe_register|]. done. }
  5: { eapply safe_mono; [|apply (neutral_tokenCreate Inv _ _ _ _ _ (fun _ => True)); [done|]]; [done|].
       intros p j _ _. apply quiet_CreateToken. }
  all: eapply safe_mono; [|first [apply neutral_host_create | apply neutral_host_update | apply neutral_host_delete
    | apply neutral_host_merge | apply neutral_token_delete]; apply _]; done.
Qed.

(** C17: The fleet tables stay consistent. Whatever registrations, host
    edits, merges, deletions and token operations run at the same time, in
    whichever order their statements interleave and whichever of them fail
    or go unanswered: every agent and every bound token refers to a host
    that exists, an agent id belongs to one host, a join token is never
    used more often than its limit, and host names are unique in their
    scope. *)
Theorem fleet_invariant (ts : list Task) (ms : list Move) (w : World) :
  WF w ->
  WF (history sha256 uuidParse uuidDraw decodeJSON hmac marshalAgent key validIP randDraw ts ms w).2.
Proof.
  intros W. unfold history.
  destruct (exec_safe Inv (replicate (length ts) (fun _ _ => True)) (event <$> ms)
    (serve sha256 uuidParse uuidDraw decodeJSON hmac marshalAgent key validIP randDraw <$> ts) w
    (replicate (length ts) tt)) as (rs & _ & W'); [|done| |exact W'].
  - clear. induction ts as [|t ts IH]; constructor; [apply safe_task | done].
  - intros f Hf [] w'. apply list_elem_of_fmap in Hf as ([i|o] & E & _); [done|]. injection E as ->. apply WF_outside.
Qed.

End Fleet.

End FleetIntegrity.
