(* ===== verification/FleetDemo.v ===== *)
(** * A small fleet, for evaluation

    Concrete stand-ins for the hash, the UUID library, the JSON codec and
    the signer, and a world with one join token, on which the theorems of
    the following files are applied. *)

From stdpp Require Import sorting.
From S2P Require Import Prelude Rbac ListQuery ApiRoutes ApiServe IamDb IamStore IamRoles OidcStore AgentToken AgentIdentity Atomic FleetDb FleetStore FleetHosts FleetEnroll FleetLogic FleetIntegrity.

Module FleetDemo.
Import Rbac(ScopePlatform, ScopeWorkspace).
Import Atomic FleetDb FleetStore FleetHosts FleetEnroll FleetIntegrity.

Definition bytesOf (s : string) : list Z :=
  (fun c => Z.of_nat (Ascii.nat_of_ascii c)) <$> String.list_ascii_of_string s.

Definition demoParse (s : string) : option string := if s =s "" then None else Some s.
Definition demoDraw (n : nat) : string := "uuid-" +++ FormatInt (Z.of_nat n).
Definition demoRand (n : nat) : list Z := [].
Definition demoHmac (k m : list Z) : list Z := [0].

(** A codec for one value. *)
Definition demoClaims : Tok.AgentClaims :=
  {| Tok.acAgentID := "uuid-0"; Tok.acHostID := 1; Tok.acTokenVersion := 1; Tok.acIssuedAtUnix := 0 |}.
Definition demoMarshal (c : Tok.AgentClaims) : option (list Z) :=
  if (Tok.acAgentID c =s "uuid-0") && (Tok.acHostID c =? 1) && (Tok.acTokenVersion c =? 1) && (Tok.acIssuedAtUnix c =? 0)
  then Some [1] else None.
Definition demoUnmarshal (p : list Z) : option Tok.AgentClaims := Some demoClaims.

Lemma fleet_codec c p : demoMarshal c = Some p -> Forall Tok.isByte p /\ demoUnmarshal p = Some c.
Proof.
  unfold demoMarshal, demoUnmarshal. destruct (_ && _) eqn:E; [|done]. intros [= <-].
  apply andb_true_iff in E as [[[E1%String.eqb_eq E2]%andb_true_iff E3]%andb_true_iff E4].
  apply Z.eqb_eq in E2, E3, E4. destruct c. cbn in *. subst. split; [|done].
  by repeat constructor.
Qed.

Lemma fleet_parse s u : demoParse s = Some u -> demoParse u = Some u /\ u <> "".
Proof. unfold demoParse. destruct (String.eqb_spec s ""); [done|]. intros [= <-]. by rewrite (proj2 (String.eqb_neq _ _)). Qed.

Definition demoUUID : string := "4c4c4544-0042-3510-8051-b4c04f4d3132".

Definition demoFacts : Facts := mkFacts "web-1" "linux" "amd64" 4 8192 100 "10.0.0.1".

Definition demoRequest : RegisterRequest :=
  mkRegister "machine-1" demoFacts "1.0"
    {| Ident.mfProductUUID := demoUUID; Ident.mfMachineID := "machine-1"; Ident.mfMACs := [];
       Ident.mfUptimeSeconds := 60 |}.

(** Every body decodes to the same request. *)
Definition demoDecode (body : string) : result string RegisterRequest := Ok demoRequest.

Definition demoCall : RegisterCall := mkCall "POST" "Bearer secret" "{}".

Definition workspaceOne : Tenancy := mkTenancy ScopeWorkspace (Some 1) None.

Definition demoToken : JoinToken :=
  mkJoinToken "first" (bytesOf "secret") workspaceOne 1 0 (10 ^ 15) None None.

Definition demoWorld : World :=
  mkWorld ∅ ∅ {[ 1 := demoToken ]} 0 1 {[ 1 ]} {[ 1 ]} ∅ 0 [] 0 [].

Lemma demoWorld_WF : WF demoWorld.
Proof.
  split; cbn [demoWorld hosts agents tokens hostSeq tokenSeq]; try done.
  - intros t [j Hj]%elem_of_dom. apply lookup_singleton_Some in Hj as [<- _]. done.
  - intros t j h [_ <-]%lookup_singleton_Some. done.
  - intros t t' j j' [<- _]%lookup_singleton_Some [<- _]%lookup_singleton_Some _. done.
  - intros t j [_ <-]%lookup_singleton_Some. done.
Qed.

(** A registration alone, to the end. *)
Definition demoRun (w : World) : option Response * World :=
  run (handleRegister bytesOf demoParse demoDraw demoDecode demoHmac demoMarshal [] demoCall) w.

Definition demoHistory : list Task -> list Move -> World -> list (Proc World Outcome) * World :=
  history bytesOf demoParse demoDraw demoDecode demoHmac demoMarshal [] (fun _ => true) demoRand.

(** Two requests taking turns. *)
Definition alternate (n : nat) : list Move := concat (replicate n [Turn 0; Turn 1]).

(** A platform administrator's request on host 1. *)
Definition demoCtx : IamRoles.Ctx :=
  {| Serve.cUserID := 1; Serve.cUsername := "admin"; Serve.cScope := {| Api.Level := 0; Api.WorkspaceID := 0; Api.NamespaceID := 0 |};
     Serve.cID := 1; Serve.cName := ""; Serve.cParents := []; Serve.cDryRun := false; Serve.cAccess := None |}.

(** A registration, and the deletion of the host it creates. *)
Lemma fleet_invariant_witness :
  let final := (demoHistory [TRegister demoCall; THostDelete demoCtx 1] (alternate 40) demoWorld).2 in
  WF final.
Proof.
  apply (fleet_invariant bytesOf demoParse demoDraw demoDecode demoHmac demoMarshal [] (fun _ => true) demoRand).
  exact demoWorld_WF.
Defined.

End FleetDemo.
