(* ===== verification/FleetTokens.v ===== *)
(** * Join tokens are spent at most as often as they allow

    A registration holds one use of its join token from the moment the
    token is consumed until it answers, or until the use is refunded. The
    uses held by all registrations in flight are counted by the resource of
    [Atomic]; the invariant compares them with the row. *)

From stdpp Require Import sorting.
From S2P Require Import Prelude Rbac ListQuery ApiRoutes ApiServe IamDb IamStore IamRoles OidcStore AgentToken AgentIdentity Atomic FleetDb FleetStore FleetHosts FleetEnroll FleetLogic FleetIntegrity FleetDemo.

Module FleetTokens.
Import IamDb(SqlErr(..), someRow, firstRow, firstRow_Some, firstRow_None, someRow_false, rowsWhere, deleteWhere, colEq, isNull).
Import IamStore(GoErr(..)).
Import IamRoles(Ctx).
Import Atomic FleetDb FleetStore FleetHosts FleetEnroll FleetLogic FleetIntegrity FleetDemo.

(** What a redemption leaves of a token, up to its target and creator. *)
Definition sameUses (j j' : JoinToken) : Prop :=
  jHash j' = jHash j /\ jMaxUses j' = jMaxUses j /\ jUsedCount j' = jUsedCount j.

(** No token appears, and those that stay keep their counts. *)
Record tokensKept (w w' : World) : Prop := {
  tk_rows t j' : tokens w' !! t = Some j' -> exists j, tokens w !! t = Some j /\ sameUses j j';
  tk_seq : tokenSeq w' = tokenSeq w;
  tk_drawn : (drawn w <= drawn w')%nat
}.

Lemma tokensKept_same w w' : tokens w' = tokens w -> tokenSeq w' = tokenSeq w ->
  drawn w' = drawn w -> tokensKept w w'.
Proof. intros E1 E2 E3. split; [|done|lia]. rewrite E1. intros t j Hj. by exists j. Qed.

Lemma tokensKept_deleted P w w' : tokens w' = deleteWhere P (tokens w) -> tokenSeq w' = tokenSeq w ->
  drawn w' = drawn w -> tokensKept w w'.
Proof. intros E1 E2 E3. split; [|done|lia]. rewrite E1. intros t j [Hj _]%deleteWhere_Some. by exists j. Qed.

Lemma tokensKept_outside o w : tokensKept w (outside o w).
Proof.
  destruct o; cbn [outside]; try by apply tokensKept_same.
  - split; [|done|done]. cbn. intros t j'. rewrite lookup_fmap, fmap_Some. intros (j & Hj & ->). by exists j.
  - by eapply tokensKept_deleted.
  - by eapply tokensKept_deleted.
Qed.

Section Token.
(** The token followed: its id and hash, its limit, the uses spent before,
    and the draws that may still come. *)
Context (t : Z) (hash : list Z) (m c : Z) (d0 : nat).

Record Uses (n : nat) (w : World) : Prop := {
  us_hash t' j : tokens w !! t' = Some j -> jHash j = hash <-> t' = t;
  us_row j : tokens w !! t = Some j -> jMaxUses j = m /\ c + Z.of_nat n <= jUsedCount j;
  us_limit : c + Z.of_nat n <= m;
  us_seq : t <= tokenSeq w;
  us_drawn : (d0 <= drawn w)%nat
}.

Lemma Uses_kept n w w' : tokensKept w w' -> Uses n w -> Uses n w'.
Proof.
  intros [K1 K2 K3] [U1 U2 U3 U4 U5]. split; [| |done|lia|lia].
  - intros t' j' (j & Hj & E & _)%K1. rewrite E. by apply U1.
  - intros j' (j & Hj & _ & -> & ->)%K1. by apply U2.
Qed.

#[export] Instance Blind_Uses : Blind Uses.
Proof.
  intros n w w' [E1 E2 E3 E4 E5 E6]. apply Uses_kept. split; [|done|done].
  rewrite E3. intros i j Hj. by exists j.
Qed.

Lemma quiet_kept {A} (st : Stmt A) : (forall w, tokensKept w (st w).2) -> Quiet Uses st.
Proof. intros Hk n w. apply Uses_kept, Hk. Qed.

Lemma tokensKept_edit i j j' w : tokens w !! i = Some j -> sameUses j j' ->
  tokensKept w (set_tokens (<[i := j']> (tokens w)) w).
Proof.
  intros Hj Hs. split; [|done|done]. cbn. intros i' x Hx. rows; [by exists j | by exists x].
Qed.

#[export] Instance Tame_Uses : Tame Uses.
Proof.
  split; intros.
  - apply quiet_kept. intros w. unfold insertHost. repeat case_match; by apply tokensKept_same.
  - apply quiet_kept. intros w. unfold UpdateAgentHostFacts. repeat case_match; by apply tokensKept_same.
  - apply quiet_kept. intros w. unfold UpdateHost. repeat case_match; by apply tokensKept_same.
  - eapply Uses_kept; [|done]. by eapply tokensKept_deleted.
  - apply quiet_kept. intros w. unfold DeleteHostAgentByHostID. repeat case_match; by apply tokensKept_same.
  - apply quiet_kept. intros w. unfold MoveHostAgentBinding. repeat case_match; by apply tokensKept_same.
  - apply quiet_kept. intros w. unfold DeleteHostAgentJoinToken. repeat case_match; try by apply tokensKept_same.
    split; [|done|done]. cbn. intros i' x Hx. rows. by exists x.
  - apply quiet_kept. intros w. unfold BindHostAgentJoinTokenTarget. repeat case_match; try by apply tokensKept_same.
    by eapply tokensKept_edit.
Qed.

(** ** The statements that count *)

Lemma Uses_edit i j n n' u w : Uses n w -> tokens w !! i = Some j ->
  (i = t -> c + Z.of_nat n' <= u /\ c + Z.of_nat n' <= m) -> (i <> t -> n' = n) ->
  Uses n' (set_tokens (<[i := withUsed u j]> (tokens w)) w).
Proof.
  intros [U1 U2 U3 U4 U5] Hj Ht Hn. split; cbn; [| | |done|done].
  - intros t' x Hx. rows; [exact (U1 _ _ Hj) | by apply U1].
  - intros x Hx. rows; cbn; [destruct (U2 _ Hj); split; [done|]; by apply Ht |].
    rewrite Hn by congruence. by apply U2.
  - destruct (decide (i = t)) as [E|E]; [specialize (Ht E); lia | by rewrite Hn].
Qed.

Lemma live_hash h now j : live h now j = true -> jHash j = h /\ jUsedCount j < jMaxUses j.
Proof.
  unfold live. intros [[Hh%bool_decide_eq_true _]%andb_true_iff Hu]%andb_true_iff. split; [done|lia].
Qed.

(** A use of the token is held by the one who consumed it; consuming
    another token holds nothing. *)
Definition holds (h : list Z) (tok : Z) (n : nat) : Prop :=
  if decide (h = hash) then tok = t /\ (1 <= n)%nat else tok <> t.

Lemma Uses_Consume h n w : Uses n w ->
  exists k, Uses (k + n) (ConsumeHostAgentJoinToken h w).2 /\
    match (ConsumeHostAgentJoinToken h w).1 with Ok tok => holds h tok.1 k | Err _ => True end.
Proof.
  intros U. unfold ConsumeHostAgentJoinToken. destruct (firstRow _ _) as [[i j]|] eqn:E; [|by exists O].
  apply firstRow_Some in E as [Hj [Hh Hu]%live_hash]. unfold holds. cbn. destruct U as [U1 U2 U3 U4 U5].
  destruct (decide (h = hash)) as [->|Hn].
  - assert (i = t) as -> by (by apply (U1 _ _ Hj)). exists 1%nat. split; [|done].
    apply (Uses_edit t j n); [by split|done| |done]. intros _. destruct (U2 _ Hj). lia.
  - assert (i <> t) as Hi by (intros ->; apply Hn; rewrite <- Hh; by apply (U1 _ _ Hj)).
    exists O. split; [|done]. by apply (Uses_edit i j n).
Qed.

Lemma Uses_Refund h i n rest w : holds h i n -> Uses (n + rest) w ->
  exists k, Uses (k + rest) (RefundHostAgentJoinToken i w).2.
Proof.
  intros Hh U. unfold RefundHostAgentJoinToken. destruct (tokens w !! i) as [j|] eqn:Hj; [|by exists n].
  destruct (0 <? _) eqn:E; [|by exists n]. unfold holds in Hh. destruct (decide (h = hash)) as [->|Hn].
  - destruct Hh as [-> Hn]. exists (n - 1)%nat. apply (Uses_edit t j (n + rest)); [done|done| |done].
    intros _. destruct (us_row _ _ U _ Hj). pose proof (us_limit _ _ U). lia.
  - exists n. by apply (Uses_edit i j (n + rest)).
Qed.

Lemma safe_Consume h : safe Uses (fun n x => match x with Ok tok => holds h tok.1 n | Err _ => True end) O (tokenConsume h).
Proof.
  apply safe_stmt, safe_Q; [apply _| | |done]; intros rest w U; cbn [rop nat_Resource Nat.add] in U;
    destruct (Uses_Consume h rest w U) as (k & Hk & Hh); exists k; split; try done.
  by destruct (ConsumeHostAgentJoinToken h w).1.
Qed.

Lemma safe_Refund h i n : holds h i n -> safe Uses (fun _ _ => True) n (tokenRefund i).
Proof.
  intros Hh. apply safe_stmt, safe_Q; [apply _| | |done]; intros rest w U;
    destruct (Uses_Refund h i n rest w Hh U) as (k & Hk); by exists k.
Qed.

Lemma quiet_Rebind_uses h v p a : Quiet Uses (RebindHostAgent h v p a).
Proof. apply quiet_kept. intros w. unfold RebindHostAgent. repeat case_match; by apply tokensKept_same. Qed.
Lemma quiet_InsertAgent_uses h a v p : Quiet Uses (InsertHostAgent h a v p).
Proof. apply quiet_kept. intros w. unfold InsertHostAgent. repeat case_match; by apply tokensKept_same. Qed.

Lemma quiet_CreateToken_uses j : jHash j <> hash -> Quiet Uses (CreateHostAgentJoinToken j).
Proof.
  intros Hj n w U. pose proof U as [U1 U2 U3 U4 U5]. unfold CreateHostAgentJoinToken.
  assert (Hs : Uses n (set_seqs (hostSeq w) (tokenSeq w + 1) w)) by (split; cbn; auto; lia).
  repeat case_match; try exact Hs. cbn. split; cbn; auto; [| |lia].
  - intros t' x Hx. rows; [|by apply U1]. split; [done | lia].
  - intros x Hx. rows; [lia | by apply U2].
Qed.

End Token.

(** ** Every request *)

Section Fleet.
Context (sha256 : string -> list Z) (uuidParse : string -> option string) (uuidDraw : nat -> string).
Context (decodeJSON : string -> result string RegisterRequest).
Context (hmac : list Z -> list Z -> list Z) (marshalAgent : Tok.AgentClaims -> option (list Z)) (key : list Z).
Context (validIP : string -> bool) (randDraw : nat -> list Z).

(** The hash of the token a registration presents. *)
Definition presents (c : RegisterCall) : option (list Z) := HashToken sha256 <$> Tok.bearerToken (rcAuth c).

(** Whether a task was a registration with that token, and succeeded. *)
Definition redeemed (hash : list Z) (t : Task) (p : Proc World Outcome) : bool :=
  match t, p with
  | TRegister c, Ret (Answered r) => bool_decide (presents c = Some hash) && (rsStatus r =? 200)
  | _, _ => false
  end.

Definition redemptions (hash : list Z) (ts : list Task) (ps : list (Proc World Outcome)) : nat :=
  length (filter (fun b => b = true) (zip_with (redeemed hash) ts ps)).

Section Token.
Context (t : Z) (hash : list Z) (m c : Z) (d0 : nat).
#[local] Abbreviation Inv := (Uses t hash m c d0).

Lemma safe_register_uses call :
  safe Inv (fun n r => presents call = Some hash -> rsStatus r = 200 -> (1 <= n)%nat) rid
    (handleRegister sha256 uuidParse uuidDraw decodeJSON hmac marshalAgent key call).
Proof.
  set (h := default [] (presents call)).
  apply (walk_register Inv sha256 uuidParse uuidDraw decodeJSON hmac marshalAgent key
           (fun _ _ _ n => n = O) (fun _ _ tok n => holds t hash h tok.1 n)
           (fun _ _ tok _ _ n => holds t hash h tok.1 n)) with (hash := h).
  - intros n r Hr _ E. congruence.
  - intros req now cutoff fp. eapply safe_mono; [|apply (neutral_claim Inv)]. by intros n [] ->.
  - intros req fp mo n ->. apply safe_Consume.
  - intros req fp mo tok ex n Hn. eapply safe_mono; [|apply (neutral_RegisterAgentHost Inv)]. by intros ? [[]|] ->.
  - intros fp mo tok i b v n Hn.
    eapply safe_mono; [|apply (neutral_Bind Inv); [apply quiet_Rebind_uses | apply quiet_InsertAgent_uses]].
    intros ? [] ->; [|done]. intros at_ Hp _. unfold holds, h in Hn. rewrite Hp in Hn. cbn in Hn.
    rewrite decide_True in Hn by done. apply Hn.
  - intros fp mo tok i b n Hn. apply (safe_undo Inv), (safe_Refund _ _ _ _ _ h). by destruct Hn as [(_ & _ & Hn)|Hn].
  - intros jt E. unfold h, presents. by rewrite E.
Qed.

Lemma safe_task_uses task :
  (forall n, (d0 <= n)%nat -> HashToken sha256 (OStore.base64URLEncode (randDraw n)) <> hash) ->
  safe Inv (fun n o => (Nat.b2n (redeemed hash task (Ret o)) <= n)%nat) O
    (serve sha256 uuidParse uuidDraw decodeJSON hmac marshalAgent key validIP randDraw task).
Proof.
  intros Hd. assert (Hn : forall A (p : Call A), neutral Inv p ->
    safe Inv (fun n o => match o with Done _ => True | Answered _ => False end) O (done p)).
  { intros A p Hp. by apply safe_neutral. }
  destruct task as [call| | | | | |]; cbn [serve].
  { eapply safe_bind; [apply safe_register_uses|]. intros n r Hr. cbn.
    case_bool_decide as Hp; [|cbn; lia]. destruct (rsStatus r =? 200) eqn:E; cbn; [|lia]. apply Hr; [done|lia]. }
  all: eapply safe_mono; [|apply Hn]; [by intros n [] ?; cbn; (done || lia)|].
  - apply (neutral_host_create Inv).
  - apply (neutral_host_update Inv).
  - apply (neutral_host_delete Inv).
  - apply (neutral_host_merge Inv).
  - apply (neutral_tokenCreate Inv _ _ _ _ _ (fun p => HashToken sha256 p <> hash)).
    + intros n w U. apply Hd, (us_drawn _ _ _ _ _ _ _ U).
    + intros p j Hp Hj. apply quiet_CreateToken_uses. congruence.
  - apply (neutral_token_delete Inv).
Qed.

End Token.

Lemma redemptions_le (Inv : nat -> World -> Prop) hash ts ns ps :
  Forall3 (fun post n p => safe Inv post n p)
    ((fun t n o => (Nat.b2n (redeemed hash t (Ret o)) <= n)%nat) <$> ts) ns ps ->
  (redemptions hash ts ps <= total ns)%nat.
Proof.
  unfold redemptions. revert ns ps. induction ts as [|t ts IH]; intros ns ps HF; [cbn; lia|].
  inversion HF as [|post n p posts ns' ps' Hp HF']; subst. cbn [zip_with]. specialize (IH ns' ps' HF').
  assert (Hn : (Nat.b2n (redeemed hash t p) <= n)%nat) by (destruct p; [exact Hp | destruct t; cbn; lia..]).
  rewrite filter_cons. case_decide as E; rewrite ?E in Hn;
    change (total (n :: ns')) with (n + total ns')%nat; cbn in Hn |- *; lia.
Qed.

(** C12: A join token is not redeemed more often than it allows. Whatever
    else runs at the same time, in whichever order the statements
    interleave, however long it takes and whichever statements fail or go
    unanswered, the registrations that present a token and are answered 200
    are at most as many as the token had uses left. The only assumption is
    that no token drawn later has the same hash. *)
Theorem token_uses_bounded (ts : list Task) (ms : list Move) (w : World) (t : Z) (j : JoinToken) :
  WF w -> tokens w !! t = Some j ->
  (forall n, (drawn w <= n)%nat -> HashToken sha256 (OStore.base64URLEncode (randDraw n)) <> jHash j) ->
  Z.of_nat (redemptions (jHash j) ts
    (history sha256 uuidParse uuidDraw decodeJSON hmac marshalAgent key validIP randDraw ts ms w).1)
  <= jMaxUses j - jUsedCount j.
Proof.
  intros W Hj Hd. pose proof (tokenOk_bounds j (wf_uses _ W _ _ Hj)) as Hb.
  destruct (exec_safe (Uses t (jHash j) (jMaxUses j) (jUsedCount j) (drawn w))
    ((fun t n o => (Nat.b2n (redeemed (jHash j) t (Ret o)) <= n)%nat) <$> ts) (event <$> ms)
    (serve sha256 uuidParse uuidDraw decodeJSON hmac marshalAgent key validIP randDraw <$> ts) w
    (replicate (length ts) rid)) as (ns & HF & U).
  - clear -Hd. induction ts as [|x ts IH]; constructor; [by apply safe_task_uses | done].
  - rewrite (total_none (length ts)). change rid with O. split; [|intros x ?; simplify_eq; lia|lia| |lia].
    + intros t' x Hx. split; [by intros; eapply (wf_hash _ W) | intros ->; by simplify_eq].
    + apply (wf_tokenSeq _ W), elem_of_dom. eauto.
  - intros f Hf n w'. apply list_elem_of_fmap in Hf as ([i|o] & E & _); [done|]. injection E as ->.
    apply Uses_kept, tokensKept_outside.
  - apply redemptions_le in HF. pose proof (us_limit _ _ _ _ _ _ _ U). unfold history. lia.
Qed.

End Fleet.

(** Two machines present the same single-use token at the same time. *)
Lemma token_uses_bounded_witness :
  let ts := [TRegister demoCall; TRegister demoCall] in
  let ps := (demoHistory ts (alternate 40) demoWorld).1 in
  redemptions bytesOf (bytesOf "secret") ts ps = 1%nat
  /\ Z.of_nat (redemptions bytesOf (bytesOf "secret") ts ps) <= 1.
Proof.
  split; [vm_compute; reflexivity|].
  apply (token_uses_bounded bytesOf demoParse demoDraw demoDecode demoHmac demoMarshal [] (fun _ => true) demoRand
    [TRegister demoCall; TRegister demoCall] (alternate 40) demoWorld 1 demoToken demoWorld_WF).
  - vm_compute. reflexivity.
  - intros n _. vm_compute. discriminate.
Defined.

End FleetTokens.
