(* ===== verification/FleetReach.v ===== *)
(** * A join token reaches only its own tenancy

    Threads share what they have learned about host rows: the tenancy of a
    row never changes and its id is never given out again, so a fact read
    once stays true while other requests run. *)

From stdpp Require Import sorting.
From S2P Require Import Prelude Rbac ListQuery ApiRoutes ApiServe IamDb IamStore IamRoles OidcStore AgentToken AgentIdentity Atomic FleetDb FleetStore FleetHosts FleetEnroll FleetLogic FleetIntegrity FleetDemo FleetTokens.

Module FleetReach.
Import IamDb(SqlErr(..), someRow, firstRow, firstRow_Some, firstRow_None, someRow_false, rowsWhere, deleteWhere, colEq, isNull).
Import IamStore(GoErr(..)).
Import IamRoles(Ctx).
Import Rbac(ScopePlatform).
Import Atomic FleetDb FleetStore FleetHosts FleetEnroll FleetLogic FleetIntegrity FleetDemo FleetTokens.

(** Host rows keep their tenancy, new ones take new ids; token rows keep
    their hash and tenancy. *)
Record rowsKept (w w' : World) : Prop := {
  rk_hosts h x' : hosts w' !! h = Some x' ->
    (exists x, hosts w !! h = Some x /\ hTenancy x = hTenancy x') \/ hostSeq w < h <= hostSeq w';
  rk_tokens t j' : tokens w' !! t = Some j' ->
    exists j, tokens w !! t = Some j /\ jHash j = jHash j' /\ jTenancy j = jTenancy j';
  rk_hostSeq : hostSeq w <= hostSeq w';
  rk_drawn : (drawn w <= drawn w')%nat
}.

#[export] Instance rowsKept_refl : Reflexive rowsKept.
Proof. intros w. split; [|by eauto|lia|lia]. intros h x Hx. left. by exists x. Qed.

(** A world that differs in nothing this looks at. *)
Lemma rowsKept_same w w' : hosts w' = hosts w -> tokens w' = tokens w -> hostSeq w' = hostSeq w ->
  drawn w' = drawn w -> rowsKept w w'.
Proof.
  intros E1 E2 E3 E4. split; rewrite ?E1, ?E2, ?E3, ?E4; [|by eauto|lia|lia].
  intros h x Hx. left. by exists x.
Qed.

Lemma rowsKept_editHost id h h' w : hosts w !! id = Some h -> hTenancy h' = hTenancy h ->
  rowsKept w (set_hosts (<[id := h']> (hosts w)) w).
Proof.
  intros Hh Et. split; cbn; [|by eauto|lia|lia]. intros i x Hx. left. rows; eauto.
Qed.

Lemma rowsKept_editToken id j j' w : tokens w !! id = Some j -> jHash j' = jHash j -> jTenancy j' = jTenancy j ->
  rowsKept w (set_tokens (<[id := j']> (tokens w)) w).
Proof.
  intros Hj E1 E2. split; cbn; [|intros i x Hx; rows; [by exists j|by exists x]|lia|lia].
  intros h x Hx. left. by exists x.
Qed.

Lemma rowsKept_dropTokens P w w' : hosts w' = hosts w -> tokens w' = deleteWhere P (tokens w) ->
  hostSeq w' = hostSeq w -> drawn w' = drawn w -> rowsKept w w'.
Proof.
  intros E1 E2 E3 E4. split; rewrite ?E1, ?E2, ?E3, ?E4; [|intros i x [Hx _]%deleteWhere_Some; eauto|lia|lia].
  intros h x Hx. left. by exists x.
Qed.

Lemma rowsKept_dropHost id w : rowsKept w (dropHost id w).
Proof.
  split; cbn; [|intros i x [Hx _]%deleteWhere_Some; eauto|lia|lia]. intros h x Hx. rows. left. by exists x.
Qed.

Lemma rowsKept_insertHost h w : rowsKept w (insertHost h w).2.
Proof.
  unfold insertHost. assert (Hs : rowsKept w (set_seqs (hostSeq w + 1) (tokenSeq w) w)).
  { split; cbn; [|by eauto|lia|lia]. intros i x Hx. left. by exists x. }
  repeat case_match; try exact Hs. split; cbn; [|by eauto|lia|lia].
  intros i x Hx. rows; [right; lia | left; by exists x].
Qed.

Lemma rowsKept_outside o w : rowsKept w (outside o w).
Proof.
  destruct o; cbn [outside]; try by apply rowsKept_same.
  - split; cbn; [| |lia|lia].
    + intros i x. rewrite lookup_fmap, fmap_Some. intros (y & Hy & ->). left. by exists y.
    + intros i x. rewrite lookup_fmap, fmap_Some. intros (y & Hy & ->). by exists y.
  - by eapply rowsKept_dropTokens.
  - by eapply rowsKept_dropTokens.
Qed.

Section Token.
(** The token followed: its hash and its tenancy. *)
Context (hash : list Z) (ten : Tenancy) (d0 : nat).

(** What is known of host rows, and of the rows with that hash. *)
Record Known (K : gset (Z * Tenancy)) (w : World) : Prop := {
  kn_host h T x : (h, T) ∈ K -> hosts w !! h = Some x -> hTenancy x = T;
  kn_seq h T : (h, T) ∈ K -> h <= hostSeq w;
  kn_token t j : tokens w !! t = Some j -> jHash j = hash -> jTenancy j = ten;
  kn_rows h : h ∈ dom (hosts w) -> h <= hostSeq w;
  kn_drawn : (d0 <= drawn w)%nat
}.

Lemma Known_kept K w w' : rowsKept w w' -> Known K w -> Known K w'.
Proof.
  intros [R1 R2 R3 R4] [K1 K2 K3 K4 K5]. split; [| | | |lia].
  - intros h T x' HK Hx. destruct (R1 _ _ Hx) as [(x & Hx' & <-)|Hh]; [eauto|]. specialize (K2 _ _ HK). lia.
  - intros h T HK. specialize (K2 _ _ HK). lia.
  - intros t j' (j & Hj & <- & <-)%R2. eauto.
  - intros h [x' Hx]%elem_of_dom. destruct (R1 _ _ Hx) as [(x & Hx' & _)|Hh]; [|lia].
    assert (h <= hostSeq w) by (apply K4, elem_of_dom; eauto). lia.
Qed.

#[export] Instance Blind_Known : Blind Known.
Proof.
  intros K w w' [E1 E2 E3 E4 E5 E6]. apply Known_kept. split; rewrite ?E1, ?E3, ?E4; [|by eauto|lia|done].
  intros h x Hx. left. by exists x.
Qed.

Lemma quiet_rows {A} (st : Stmt A) : (forall w, rowsKept w (st w).2) -> Quiet Known st.
Proof. intros Hk K w. apply Known_kept, Hk. Qed.

#[export] Instance Tame_Known : Tame Known.
Proof.
  split; intros.
  - apply quiet_rows, rowsKept_insertHost.
  - apply quiet_rows. intros w. unfold UpdateAgentHostFacts. repeat case_match; try done. by eapply rowsKept_editHost.
  - apply quiet_rows. intros w. unfold UpdateHost. repeat case_match; try done. by eapply rowsKept_editHost.
  - eapply Known_kept; [apply rowsKept_dropHost | done].
  - apply quiet_rows. intros w. by apply rowsKept_same.
  - apply quiet_rows. intros w. unfold MoveHostAgentBinding. repeat case_match; by apply rowsKept_same.
  - apply quiet_rows. intros w. unfold DeleteHostAgentJoinToken. repeat case_match; try done.
    split; cbn; [|intros i' x Hx; rows; eauto|lia|lia]. intros h x Hx. left. by exists x.
  - apply quiet_rows. intros w. unfold BindHostAgentJoinTokenTarget. repeat case_match; try done.
    by eapply rowsKept_editToken.
Qed.

Lemma quiet_Rebind_rows h v p a : Quiet Known (RebindHostAgent h v p a).
Proof. apply quiet_rows. intros w. unfold RebindHostAgent. repeat case_match; by apply rowsKept_same. Qed.
Lemma quiet_InsertAgent_rows h a v p : Quiet Known (InsertHostAgent h a v p).
Proof. apply quiet_rows. intros w. unfold InsertHostAgent. repeat case_match; by apply rowsKept_same. Qed.
Lemma quiet_Consume_rows h : Quiet Known (ConsumeHostAgentJoinToken h).
Proof.
  apply quiet_rows. intros w. unfold ConsumeHostAgentJoinToken. destruct (firstRow _ _) as [[i j]|] eqn:E; [|done].
  apply firstRow_Some in E as [Hj _]. by eapply rowsKept_editToken.
Qed.
Lemma quiet_Refund_rows i : Quiet Known (RefundHostAgentJoinToken i).
Proof. apply quiet_rows. intros w. unfold RefundHostAgentJoinToken. repeat case_match; try done. by eapply rowsKept_editToken. Qed.
Lemma quiet_CreateToken_rows j : jHash j <> hash -> Quiet Known (CreateHostAgentJoinToken j).
Proof.
  intros Hj K w U. pose proof U as [K1 K2 K3 K4 K5]. unfold CreateHostAgentJoinToken.
  assert (Hs : Known K (set_seqs (hostSeq w) (tokenSeq w + 1) w)) by (split; cbn; auto).
  repeat case_match; try exact Hs. split; cbn; auto. intros t x Hx E. rows; [done | eauto].
Qed.

(** ** The host row of a registration *)

(** The token may place an agent on a host of that tenancy. *)
Definition reaches (T : Tenancy) : Prop := tScope ten = ScopePlatform \/ T = ten.

Definition placed (h : Z) (K : gset (Z * Tenancy)) : Prop := exists T, (h, T) ∈ K /\ reaches T.

Lemma Known_learn K h x w : Known K w -> hosts w !! h = Some x -> Known ({[ (h, hTenancy x) ]} ∪ K) w.
Proof.
  intros [K1 K2 K3 K4 K5] Hx. split; auto.
  - intros h' T y [[= -> ->]%elem_of_singleton|HK]%elem_of_union Hy; [by simplify_eq | eauto].
  - intros h' T [[= -> ->]%elem_of_singleton|HK]%elem_of_union; [|eauto]. apply K4, elem_of_dom. eauto.
Qed.

Lemma rebindAuthorised_reaches sp T : sTenancy sp = ten -> rebindAuthorised sp T = true -> reaches T.
Proof.
  unfold rebindAuthorised, reaches. intros <-. destruct (_ =s ScopePlatform) eqn:E; [left; by apply String.eqb_eq|].
  intros [[E1%String.eqb_eq E2%bool_decide_eq_true]%andb_true_iff E3%bool_decide_eq_true]%andb_true_iff.
  right. destruct T, (sTenancy sp). cbn in *. congruence.
Qed.

Lemma safe_GetScope id K : safe Known (fun K' x => K ⊆ K' /\ match x with Ok T => (id, T) ∈ K' | Err _ => True end)
  K (agentHostGetScope id).
Proof.
  apply safe_stmt, safe_Q; [apply _| | |by split].
  - intros rest w HK. unfold GetAgentHostScope. cbn. destruct (hosts w !! id) as [x|] eqn:Hx; cbn; [|by exists K].
    exists ({[ (id, hTenancy x) ]} ∪ K). split; [|set_solver].
    change (rop ?a ?b) with (a ∪ b). rewrite <- (assoc_L (∪)). by apply Known_learn.
  - intros rest w HK. by exists K.
Qed.

Lemma safe_agentHostCreate n d f T c K :
  safe Known (fun K' x => K ⊆ K' /\ match x with Ok id => (id, T) ∈ K' | Err _ => True end) K
    (agentHostCreate n d f T c).
Proof.
  eapply (safe_andThen _ _ (fun K' id => K ⊆ K' /\ (id, T) ∈ K')).
  - apply safe_stmt, safe_Q; [apply _| | |by split].
    + intros rest w HK. pose proof (rowsKept_insertHost (mkHost n d "" f T 22 "agent" "agent" "" c) w) as Hr.
      unfold CreateAgentHost, insertHost in *. repeat case_match; try (exists K; split; [by eapply Known_kept | by split]).
      exists ({[ (hostSeq w + 1, T) ]} ∪ K). split; [|cbn; set_solver]. change (rop ?a ?b) with (a ∪ b).
      rewrite <- (assoc_L (∪)).
      apply (Known_learn _ _ (mkHost n d "" f T 22 "agent" "agent" "" c)); [by eapply Known_kept|].
      apply lookup_insert_eq.
    + intros rest w HK. exists K. split; [|by split]. eapply Known_kept; [apply rowsKept_insertHost | done].
  - intros K' id HK'. by apply safe_tell; [apply _|].
Qed.

Lemma safe_createNamed sp names K : sTenancy sp = ten ->
  safe Known (fun K' x => match x with Ok (h, _) => placed h K' | Err _ => True end) K (createNamed sp names).
Proof.
  intros Et. revert K. induction names as [|n names IH]; intros K; [done|]. cbn [createNamed].
  eapply safe_bind; [apply safe_agentHostCreate|]. intros K' [id|e] [_ Hx].
  - exists ten. rewrite <- Et at 1. split; [done | by right].
  - destruct (isNot 409 e); [done | apply IH].
Qed.

Lemma safe_RegisterAgentHost sha sp K : sTenancy sp = ten ->
  safe Known (fun K' x => match x with Ok (h, _) => placed h K' | Err _ => True end) K (RegisterAgentHost sha sp).
Proof.
  intros Et. unfold RegisterAgentHost. destruct (0 <? _); [|by apply safe_createNamed].
  eapply safe_bind; [apply safe_GetScope|]. intros K' [T|e] [_ HT].
  - destruct (rebindAuthorised sp T) eqn:E; [|done]. cbn [negb].
    apply safe_neutral; [apply neutral_UpdateFacts; apply _|].
    intros [[]|e]; [|destruct (isNot 404 e); [done | by apply safe_createNamed]].
    exists T. split; [done | by eapply rebindAuthorised_reaches].
  - apply safe_neutral; [apply neutral_gone|]. intros []; [by apply safe_createNamed | done].
Qed.

End Token.

(** ** Every request *)

Section Fleet.
Context (sha256 : string -> list Z) (uuidParse : string -> option string) (uuidDraw : nat -> string).
Context (decodeJSON : string -> result string RegisterRequest).
Context (hmac : list Z -> list Z -> list Z) (marshalAgent : Tok.AgentClaims -> option (list Z)) (key : list Z).
Context (validIP : string -> bool) (randDraw : nat -> list Z).

Section Token.
Context (hash : list Z) (ten : Tenancy) (d0 : nat).
#[local] Abbreviation Inv := (Known hash ten d0).

(** What a registration with that token answers. *)
Definition answersWithin (call : RegisterCall) (K : gset (Z * Tenancy)) (r : Response) : Prop :=
  presents sha256 call = Some hash -> rsStatus r = 200 ->
  match rsBody r with Some b => placed ten (rrHostID b) K | None => False end.

Lemma safe_Consume_rows h : safe Inv
  (fun K x => match x with Ok tok => h = hash -> jTenancy tok.2 = ten | Err _ => True end) ∅ (tokenConsume h).
Proof.
  apply safe_stmt, safe_Q_learn; [apply _ | apply quiet_Consume_rows| |done].
  intros w rest HK. unfold ConsumeHostAgentJoinToken. destruct (firstRow _ _) as [[i j]|] eqn:E; [|done].
  apply firstRow_Some in E as [Hj [Hh _]%live_hash]. cbn. intros ->. by eapply (kn_token _ _ _ _ _ HK).
Qed.

Lemma safe_register_rows call : safe Inv (answersWithin call) rid
  (handleRegister sha256 uuidParse uuidDraw decodeJSON hmac marshalAgent key call).
Proof.
  set (h := default [] (presents sha256 call)).
  apply (walk_register Inv sha256 uuidParse uuidDraw decodeJSON hmac marshalAgent key
           (fun _ _ _ K => K = ∅) (fun _ _ tok _ => h = hash -> jTenancy tok.2 = ten)
           (fun _ _ _ i _ K => h = hash -> placed ten i K)) with (hash := h).
  - intros K r Hr _ E. congruence.
  - intros req now cutoff fp. eapply safe_mono; [|apply (neutral_claim Inv)]. by intros K [] ->.
  - intros req fp mo K ->. apply safe_Consume_rows.
  - intros req fp mo tok ex K Ht. destruct (decide (h = hash)) as [E|E].
    + specialize (Ht E). eapply safe_mono; [|by apply safe_RegisterAgentHost]. by intros K' [[i b]|e] Hp.
    + eapply safe_mono; [|apply (neutral_RegisterAgentHost Inv)]. by intros K' [[i b]|e] _.
  - intros fp mo tok i b v K Hi.
    eapply safe_mono; [|apply (neutral_Bind Inv); [apply quiet_Rebind_rows | apply quiet_InsertAgent_rows]].
    intros ? [] ->; [|done]. intros at_ Hp _. apply Hi. unfold h. by rewrite Hp.
  - intros fp mo tok i b K _. apply (safe_undo Inv).
    eapply safe_mono; [|apply (neutral_stmt Inv); apply quiet_Refund_rows]. done.
  - intros jt E. unfold h, presents. by rewrite E.
Qed.

Definition outcomeWithin (t : Task) (K : gset (Z * Tenancy)) (o : Outcome) : Prop :=
  match t, o with TRegister c, Answered r => answersWithin c K r | _, _ => True end.

Lemma safe_task_rows task :
  (forall n, (d0 <= n)%nat -> HashToken sha256 (OStore.base64URLEncode (randDraw n)) <> hash) ->
  safe Inv (outcomeWithin task) ∅
    (serve sha256 uuidParse uuidDraw decodeJSON hmac marshalAgent key validIP randDraw task).
Proof.
  intros Hd. assert (Hn : forall A (p : Call A), neutral Inv p -> safe Inv (fun _ _ => True) ∅ (done p)).
  { intros A p Hp. by apply safe_neutral. }
  destruct task as [call| | | | | |]; cbn [serve].
  { eapply safe_bind; [apply safe_register_rows|]. intros K r Hr. exact Hr. }
  all: eapply safe_mono; [|apply Hn]; [done|].
  - apply (neutral_host_create Inv).
  - apply (neutral_host_update Inv).
  - apply (neutral_host_delete Inv).
  - apply (neutral_host_merge Inv).
  - apply (neutral_tokenCreate Inv _ _ _ _ _ (fun p => HashToken sha256 p <> hash)).
    + intros K w U. apply Hd, (kn_drawn _ _ _ _ _ U).
    + intros p j Hp Hj. apply quiet_CreateToken_rows. congruence.
  - apply (neutral_token_delete Inv).
Qed.

End Token.

(** C13: A join token places agents only on hosts of its own tenancy.
    Whatever runs at the same time and whichever statements fail, when a
    registration that presents a workspace or namespace token is answered
    200, the host it was given, if its record is still there, belongs to
    exactly the workspace and namespace the token was issued for; only a
    platform token reaches hosts of other tenancies. *)
Theorem token_reaches_own_tenancy (ts : list Task) (ms : list Move) (w : World)
    (t : Z) (j : JoinToken) (i : nat) (c : RegisterCall) (r : Response) (b : RegisterResponse) (x : Host) :
  WF w -> tokens w !! t = Some j ->
  (forall n, (drawn w <= n)%nat -> HashToken sha256 (OStore.base64URLEncode (randDraw n)) <> jHash j) ->
  let final := history sha256 uuidParse uuidDraw decodeJSON hmac marshalAgent key validIP randDraw ts ms w in
  ts !! i = Some (TRegister c) -> presents sha256 c = Some (jHash j) ->
  outcome final.1 i = Some (Answered r) -> rsStatus r = 200 -> rsBody r = Some b ->
  hosts final.2 !! rrHostID b = Some x ->
  tScope (jTenancy j) = ScopePlatform \/ hTenancy x = jTenancy j.
Proof.
  intros W Hj Hd final Hi Hp Ho Hs Hb Hx. subst final. unfold history in *.
  destruct (exec_safe (Known (jHash j) (jTenancy j) (drawn w))
    (outcomeWithin (jHash j) (jTenancy j) <$> ts) (event <$> ms)
    (serve sha256 uuidParse uuidDraw decodeJSON hmac marshalAgent key validIP randDraw <$> ts) w
    (replicate (length ts) rid)) as (Ks & HF & U).
  - clear -Hd. induction ts as [|y ts IH]; constructor; [by apply safe_task_rows | done].
  - rewrite (total_none (length ts)). change rid with (∅ : gset (Z * Tenancy)). split; [set_solver|set_solver| | |lia].
    + intros t' j' Hj' Eh. assert (t' = t) as -> by (by eapply (wf_hash _ W)). by simplify_eq.
    + intros h Hh. apply (wf_hostSeq _ W h Hh).
  - intros f Hf n w'. apply list_elem_of_fmap in Hf as ([k|o] & E & _); [done|]. injection E as ->.
    apply Known_kept, rowsKept_outside.
  - apply outcome_Some in Ho.
    destruct (Forall3_lookup_r _ _ _ _ _ _ HF Ho) as (post & K & Hpost & HK & Hq).
    rewrite list_lookup_fmap, Hi in Hpost. injection Hpost as <-. specialize (Hq Hp Hs). rewrite Hb in Hq.
    destruct Hq as (T & HT & Hr). pose proof (total_elem _ _ _ _ HK HT) as Hk.
    rewrite (kn_host _ _ _ _ _ U _ _ _ Hk Hx). exact Hr.
Qed.

End Fleet.

(** A registration with the workspace token of the small fleet. *)
Lemma token_reaches_own_tenancy_witness :
  let final := demoHistory [TRegister demoCall] (replicate 40 (Turn 0)) demoWorld in
  exists r b x, outcome final.1 0 = Some (Answered r) /\ rsStatus r = 200 /\ rsBody r = Some b
    /\ hosts final.2 !! rrHostID b = Some x
    /\ (tScope workspaceOne = ScopePlatform \/ hTenancy x = workspaceOne).
Proof.
  cbv zeta. do 3 eexists. split; [vm_compute; reflexivity|]. split; [vm_compute; reflexivity|].
  split; [vm_compute; reflexivity|]. split; [vm_compute; reflexivity|].
  eapply (token_reaches_own_tenancy bytesOf demoParse demoDraw demoDecode demoHmac demoMarshal [] (fun _ => true) demoRand
    [TRegister demoCall] (replicate 40 (Turn 0)) demoWorld 1 demoToken 0 demoCall).
  - exact demoWorld_WF.
  - vm_compute. reflexivity.
  - intros n _. vm_compute. discriminate.
  - reflexivity.
  - reflexivity.
  - vm_compute. reflexivity.
  - vm_compute. reflexivity.
  - vm_compute. reflexivity.
  - vm_compute. reflexivity.
Defined.

End FleetReach.
