(* ===== verification/FleetExact.v ===== *)
(** * What a registration does

    Registrations on their own: what a successful one leaves in the tables
    and that its credential authenticates; and that one which loses a
    statement on the way leaves nothing behind. *)

From stdpp Require Import sorting.
From S2P Require Import Prelude Rbac ListQuery ApiRoutes ApiServe IamDb IamStore IamRoles OidcStore AgentToken AgentIdentity Atomic FleetDb FleetStore FleetHosts FleetEnroll FleetLogic FleetIntegrity FleetDemo.

Module FleetExact.
Import IamDb(SqlErr(..), someRow, firstRow, firstRow_Some, firstRow_None, someRow_false, rowsWhere, deleteWhere, colEq, isNull, one).
Import IamStore(GoErr(..), CheckPG, wrap, notFoundOr, tagged).
Import Atomic FleetDb FleetStore FleetHosts FleetEnroll FleetLogic FleetIntegrity FleetDemo.

(** ** Statements and calls, alone *)

Lemma ends_Q {A} (st : Stmt A) (P : result SqlErr A -> World -> Prop) w :
  (forall fs, P (st (set_faults fs w)).1 (st (set_faults fs w)).2) ->
  (forall fs, P (Err ErrConn) (set_faults fs w)) -> (forall fs, P (Err ErrConn) (st (set_faults fs w)).2) ->
  ends P (Q st) w.
Proof.
  intros H1 H2 H3. apply ends_atom. unfold runStmt, popFault.
  assert (E : set_faults (faults w) w = w) by (by destruct w).
  destruct (faults w) as [|[] fs]; cbn [fst snd]; auto. rewrite <- E. apply H1.
Qed.

Lemma ends_stmt {A} f (st : Stmt A) (P : result GoErr A -> World -> Prop) w :
  (forall fs, P (match (st (set_faults fs w)).1 with Ok a => Ok a | Err e => Err (f e) end) (st (set_faults fs w)).2) ->
  (forall fs, P (Err (f ErrConn)) (set_faults fs w)) -> (forall fs, P (Err (f ErrConn)) (st (set_faults fs w)).2) ->
  ends P (stmt f st) w.
Proof.
  intros H1 H2 H3. eapply ends_seq; [apply (ends_Q st (fun x w' => P (match x with Ok a => Ok a | Err e => Err (f e) end) w'))|];
    [done..|]. intros a w' Ha. exact Ha.
Qed.

Lemma ends_call {A B} (R : A -> World -> Prop) (P : result GoErr B -> World -> Prop) (p : Call A) (k : A -> Call B) w :
  ends (fun x w' => match x with Ok a => R a w' | Err e => P (Err e) w' end) p w ->
  (forall a w', R a w' -> ends P (k a) w') -> ends P (andThen p k) w.
Proof. intros Hp Hk. eapply ends_seq; [exact Hp|]. intros [a|e] w' Ha; [by apply Hk | done]. Qed.

Lemma ends_tell {A} e (a : A) (P : result GoErr A -> World -> Prop) w :
  P (Ok a) (publish e w) -> ends P (tell e a) w.
Proof. intros HP. exact HP. Qed.

(** ** Success *)

(** The host row after it is placed. *)
Definition hasFacts (f : Facts) (h : Z) (w : World) : Prop := exists x, hosts w !! h = Some x /\ hFacts x = f.

Lemma ends_agentHostCreate n d f T c w :
  ends (fun x w' => match x with Ok h => hasFacts f h w' | Err _ => True end) (agentHostCreate n d f T c) w.
Proof.
  apply (ends_call (hasFacts f)).
  - apply ends_stmt; [|done|done]. intros fs. unfold CreateAgentHost, insertHost. repeat case_match; simplify_eq/=; try done.
    eexists. split; [apply lookup_insert_eq | done].
  - intros h w' Hh. by apply ends_tell.
Qed.

Lemma ends_createNamed sp names w :
  ends (fun x w' => match x with Ok (h, _) => hasFacts (sFacts sp) h w' | Err _ => True end) (createNamed sp names) w.
Proof.
  revert w. induction names as [|n names IH]; intros w; [done|]. cbn [createNamed].
  eapply ends_seq; [apply ends_agentHostCreate|]. intros [h|e] w' Hx; [done|].
  destruct (isNot 409 e); [done | apply IH].
Qed.

Lemma ends_UpdateFacts id f w :
  ends (fun x w' => match x with Ok _ => hasFacts f id w' | Err _ => True end) (agentHostUpdateFacts id f) w.
Proof.
  apply (ends_call (fun n w' => n = 0 \/ hasFacts f id w')).
  - apply ends_stmt; [|done|done]. intros fs. unfold UpdateAgentHostFacts. cbn [hosts set_faults].
    destruct (hosts w !! id) as [x|]; [|by left]. destruct (negb _); [done|]. right.
    eexists. split; [apply lookup_insert_eq | done].
  - intros n w' [->|Hn]; [done|]. unfold affected. destruct (n =? 0); [done | by apply ends_tell].
Qed.

Lemma ends_any {A} (p : Proc World A) w : ends (fun _ _ => True) p w.
Proof. unfold ends. by destruct (run p w) as [[]]. Qed.

Lemma ends_RegisterAgentHost sha sp w :
  ends (fun x w' => match x with Ok (h, _) => hasFacts (sFacts sp) h w' | Err _ => True end) (RegisterAgentHost sha sp) w.
Proof.
  unfold RegisterAgentHost. destruct (0 <? _); [|apply ends_createNamed].
  eapply ends_seq; [apply ends_any|]. intros [T|e] w' _.
  - destruct (negb _); [done|]. eapply ends_seq; [apply ends_UpdateFacts|]. intros [[]|e] w2 Hx; [done|].
    destruct (isNot 404 e); [done | apply ends_createNamed].
  - eapply ends_seq; [apply ends_any|]. intros [] w2 _; [apply ends_createNamed | done].
Qed.

(** ** Transactions, alone *)

(** What a transaction body that succeeds leaves, given the hosts before. *)
Definition txEnds {A} (P : A -> World -> Prop) (hs : gmap Z Host) (fn : Tx A) : Prop :=
  forall w, hosts w = hs -> match fn w with (Ok a, w') => P a w' | (Err _, _) => True end.

Lemma txEnds_bind {A B} (R : A -> Prop) (P : B -> World -> Prop) hs (m : Tx A) (f : A -> Tx B) :
  txEnds (fun a w => R a /\ hosts w = hs) hs m -> (forall a, R a -> txEnds P hs (f a)) -> txEnds P hs (txBind m f).
Proof.
  intros Hm Hf w Hw. unfold txBind. specialize (Hm w Hw). destruct (m w) as [[a|e] w']; [|done].
  destruct Hm as [Ha Hh]. by apply (Hf a Ha).
Qed.

Lemma txEnds_stmt {A} (P : A -> World -> Prop) hs f (st : Stmt A) :
  (forall w a w', hosts w = hs -> st w = (Ok a, w') -> P a w') -> txEnds P hs (txStmt f st).
Proof.
  intros Hs w Hw. unfold txStmt. destruct (popFault w) as [[] w1] eqn:E; [|done|done].
  apply agree_popFault in E as []. destruct (st w1) as [[a|e] w2] eqn:E2; [|done]. eapply Hs; [|done]. congruence.
Qed.

Lemma ends_withTx {A} (P : A -> World -> Prop) (fn : Tx A) w :
  txEnds P (hosts w) fn -> (forall a w1 fs, P a w1 -> P a (set_faults fs w1)) ->
  ends (fun x w' => match x with Ok a => P a w' | Err _ => True end) (withTx fn) w.
Proof.
  intros Hf Hp. apply ends_atom. destruct (popFault w) as [[] w1] eqn:E; [|done|done].
  apply agree_popFault in E as []. specialize (Hf w1 ltac:(congruence)).
  destruct (fn w1) as [[a|e] w2]; [|done]. unfold popFault. destruct (faults w2) as [|[] fs]; cbn; auto.
Qed.

Section Register.
Context (sha256 : string -> list Z) (uuidParse : string -> option string) (uuidDraw : nat -> string).
Context (decodeJSON : string -> result string RegisterRequest).
Context (hmac : list Z -> list Z -> list Z) (marshalAgent : Tok.AgentClaims -> option (list Z)) (key : list Z).

(** [uuid.Parse] reads what it prints, which is not empty. *)
Context (parse_canonical : forall s u, uuidParse s = Some u -> uuidParse u = Some u /\ u <> "").

(** The agent row of a registration, bound to its host. *)
Record Bound (i : BindInput) (hs : gmap Z Host) (row : Z * HostAgent) (w : World) : Prop := {
  bd_host : row.1 = biHostID i;
  bd_row : agents w !! biHostID i = Some row.2;
  bd_hosts : hosts w = hs;
  bd_id : uuidParse (aAgentID row.2) = Some (aAgentID row.2) /\ aAgentID row.2 <> "";
  bd_print : aProductUUID row.2 = spProductUUID (biFingerprint i) /\ aMachineID row.2 = spMachineID (biFingerprint i)
}.

Lemma txEnds_parse s hs :
  txEnds (fun u w => (uuidParse u = Some u /\ u <> "") /\ hosts w = hs) hs (txLift (parseAgentUUID uuidParse s)).
Proof using parse_canonical.
  intros w Hw. unfold txLift, parseAgentUUID. destruct (uuidParse s) as [u|] eqn:E; [|done]. eauto.
Qed.

Lemma txEnds_bindTx i hs : txEnds (Bound i hs) hs (bindTx uuidParse uuidDraw i).
Proof using parse_canonical.
  apply (txEnds_bind (fun _ => True)).
  { apply txEnds_stmt. intros w a w' Hw [= _ <-]. done. }
  intros _ _. apply (txEnds_bind (fun _ => True)).
  { unfold recheck. destruct (_ && _); [|by intros w Hw]. apply (txEnds_bind (fun _ => True)).
    - apply txEnds_stmt. intros w a w' Hw [= _ <-]. done.
    - intros l _. repeat case_match; by intros w Hw. }
  intros x _. destruct (negb _).
  - apply (txEnds_bind (fun u => uuidParse u = Some u /\ u <> "")); [apply txEnds_parse|]. intros u Hu.
    apply txEnds_stmt. intros w a w' Hw. unfold RebindHostAgent.
    destruct (byAgentID u w) as [[from y]|] eqn:E; [|done]. apply byAgentID_Some in E as [Hy <-].
    repeat case_match; intros; simplify_eq. split; cbn; [done | apply lookup_insert_eq | done | done | done].
  - apply (txEnds_bind (fun _ => True)). { apply txEnds_stmt. intros w a w' Hw [= _ <-]. done. }
    intros _ _. apply (txEnds_bind (fun _ => True)); [by intros w Hw|]. intros d _.
    apply (txEnds_bind (fun u => uuidParse u = Some u /\ u <> "")); [apply txEnds_parse|]. intros u Hu.
    apply txEnds_stmt. intros w a w' Hw. unfold InsertHostAgent.
    repeat case_match; intros; simplify_eq. split; cbn; [done | apply lookup_insert_eq | done | done | done].
Qed.

Lemma ends_Bind i w :
  ends (fun x w' => match x with Ok row => Bound i (hosts w) row w' | Err _ => True end) (Bind uuidParse uuidDraw i) w.
Proof using parse_canonical.
  apply (ends_call (Bound i (hosts w))).
  - apply ends_withTx; [apply txEnds_bindTx|]. intros row w' fs []. by split.
  - intros row w' []. apply ends_tell. by split.
Qed.

(** ** A successful registration *)

(** What the answer says is what the tables hold: the facts on the host
    row, the agent on that host, and a credential of its current version. *)
Record Enrolled (req : RegisterRequest) (b : RegisterResponse) (row : HostAgent) (now : Z) (w : World) : Prop := {
  en_facts : hasFacts (rqFacts req) (rrHostID b) w;
  en_agent : agents w !! rrHostID b = Some row;
  en_id : aAgentID row = rrAgentID b;
  en_canonical : uuidParse (rrAgentID b) = Some (rrAgentID b) /\ rrAgentID b <> "";
  en_token : Tok.agentIssue hmac marshalAgent key
      {| Tok.acAgentID := rrAgentID b; Tok.acHostID := rrHostID b;
         Tok.acTokenVersion := aTokenVersion row; Tok.acIssuedAtUnix := now |} = Ok (rrAgentToken b)
}.

(** An answer of 200 is such an enrolment. *)
Definition enrols (req : RegisterRequest) (resp : Response) (w : World) : Prop :=
  rsStatus resp = 200 -> exists b row now, rsBody resp = Some b /\ Enrolled req b row now w.

Lemma Enrolled_same req b row now w w' : hosts w' = hosts w -> agents w' = agents w ->
  Enrolled req b row now w -> Enrolled req b row now w'.
Proof. intros E1 E2 [[x Hx] ? ? ? ?]. split; rewrite ?E1, ?E2; try done. exists x. by rewrite E1. Qed.

(** A call that leaves hosts and agents alone. *)
Definition leaves (w w' : World) : Prop := hosts w' = hosts w /\ agents w' = agents w.

Lemma leaves_bindTarget i h w : ends (fun _ w' => leaves w w') (tokenBindTarget i h) w.
Proof.
  apply ends_stmt; [|done|]; intros fs; unfold BindHostAgentJoinTokenTarget; repeat case_match; done.
Qed.

Lemma leaves_report row w : ends (fun _ w' => leaves w w') (reportImageGroup row) w.
Proof.
  unfold reportImageGroup. destruct (_ =s _); [done|].
  eapply (ends_seq (fun _ w' => leaves w w')); [|by intros]. unfold FindByMachineID. destruct (_ =s _); [done|].
  by apply ends_stmt.
Qed.

Lemma enrols_fail req resp w : rsStatus resp <> 200 -> enrols req resp w.
Proof. intros Hr E. congruence. Qed.

Lemma ends_undo req resp h c t w : rsStatus resp <> 200 ->
  ends (enrols req) (_ <-~ undoRegistration h c t ;; Ret resp) w.
Proof. intros Hr. eapply ends_seq; [apply ends_any|]. intros [] w' _. by apply enrols_fail. Qed.

Lemma ends_finish req fp m t h c w : hasFacts (rqFacts req) h w ->
  ends (enrols req) (finishRegistration uuidParse uuidDraw hmac marshalAgent key req fp m t h c) w.
Proof using parse_canonical.
  intros Hh. eapply ends_seq; [apply ends_Bind|]. intros [row|e] w1 Hb; [|by apply ends_undo].
  destruct Hb as [B1 B2 B3 B4 B5]. cbn [biHostID] in *.
  eapply (ends_seq (fun _ w' => w' = w1)); [done|]. intros now w' ->.
  destruct (Tok.agentIssue _ _ _ _) as [at_|] eqn:Ei; [|by apply enrols_fail].
  eapply ends_seq; [apply leaves_bindTarget|]. intros _ w2 [E1 E2].
  eapply ends_seq; [apply leaves_report|]. intros _ w3 [E3 E4]. intros _.
  do 3 eexists. split; [done|]. apply (Enrolled_same _ _ _ _ w1); [congruence..|].
  split; [|exact B2|done|exact B4|exact Ei]. destruct Hh as (x & Hx & Ex). exists x. by rewrite B3.
Qed.

Lemma ends_place req fp m t j ex w :
  ends (enrols req) (placeHost sha256 uuidParse uuidDraw hmac marshalAgent key req fp m t j ex) w.
Proof using parse_canonical.
  eapply ends_seq; [apply ends_RegisterAgentHost|]. intros [[h c]|e] w' Hx; [by apply ends_finish|].
  apply ends_undo. by destruct (_ =? _).
Qed.

Lemma ends_redeem req fp m t j w :
  ends (enrols req) (redeem sha256 uuidParse uuidDraw hmac marshalAgent key req fp m t j) w.
Proof using parse_canonical.
  unfold redeem. destruct (jTargetHostID j); [|apply ends_place].
  destruct (_ =? 0); [apply ends_place|]. destruct (negb _); [by apply ends_undo | apply ends_place].
Qed.

Lemma ends_identify req hash w :
  ends (enrols req) (identify sha256 uuidParse uuidDraw hmac marshalAgent key req hash) w.
Proof using parse_canonical.
  eapply ends_seq; [apply ends_any|]. intros now w1 _. cbn zeta.
  eapply ends_seq; [apply ends_any|]. intros [cs|e] w2 _; [|by apply enrols_fail].
  eapply (ends_seq (fun x _ => match x with Some resp => rsStatus resp <> 200 | None => True end)).
  - unfold liveAgent. destruct (_ =s _); [done|]. eapply ends_seq; [apply ends_any|].
    intros [x|e] w3 _; apply ends_ret; [by destruct (_ =s _) | done].
  - intros [resp|] w3 Hr; [by apply enrols_fail|].
    eapply ends_seq; [apply ends_any|]. intros [[i j]|e] w4 _; [apply ends_redeem|].
    apply enrols_fail. unfold tokenError. by destruct (isNot 404 e).
Qed.

Lemma decode_fail body resp : decodeRegisterRequest decodeJSON body = Err resp -> rsStatus resp <> 200.
Proof. unfold decodeRegisterRequest. intros D. repeat case_match; simplify_eq/=; done. Qed.

Lemma ends_register c w :
  ends (fun resp w' => rsStatus resp = 200 ->
          exists req, decodeRegisterRequest decodeJSON (rcBody c) = Ok req /\ enrols req resp w')
    (handleRegister sha256 uuidParse uuidDraw decodeJSON hmac marshalAgent key c) w.
Proof using parse_canonical.
  unfold handleRegister. destruct (negb _); [done|]. destruct (Tok.bearerToken _) as [jt|]; [|done].
  destruct (decodeRegisterRequest decodeJSON (rcBody c)) as [req|resp] eqn:D.
  - eapply ends_seq; [apply ends_any|]. intros [x|e] w1 _.
    + eapply ends_mono; [apply ends_identify|]. eauto.
    + intros E. unfold tokenError in E. by destruct (isNot 404 e).
  - intros E. by apply decode_fail in D.
Qed.

End Register.

(** The lookup [authAgent] does in the agent store. *)
Definition agentRow (a : HostAgent) : Tok.AgentRow :=
  {| Tok.AgentID := aAgentID a; Tok.TokenVersion := aTokenVersion a; Tok.Version := aVersion a;
     Tok.InstanceID := aInstanceID a; Tok.Status := aStatus a; Tok.ConnectedAt := aConnectedAt a;
     Tok.LastSeenAt := aLastSeenAt a; Tok.ClockSkewMs := aClockSkewMs a; Tok.UpdatedAt := 0;
     Tok.ConflictAt := None; Tok.ForeignMachineAt := None; Tok.ForeignMachineUuid := "" |}.

Definition storeGet (uuidParse : string -> option string) (w : World) (agentID : string)
    : result Tok.storeErr (Z * Tok.AgentRow) :=
  match uuidParse agentID with
  | None => Err Tok.ErrStore
  | Some u => match byAgentID u w with
              | Some (h, a) => Ok (h, agentRow a)
              | None => Err Tok.ErrNotFound
              end
  end.

Lemma byAgentID_bound w h a : WF w -> agents w !! h = Some a -> byAgentID (aAgentID a) w = Some (h, a).
Proof.
  intros W Ha. destruct (byAgentID (aAgentID a) w) as [[h' a']|] eqn:E.
  - apply byAgentID_Some in E as [Ha' Eid]. assert (h' = h) as -> by (by eapply (wf_agentID _ W)). by simplify_eq.
  - by apply (byAgentID_None _ _ _ _ E) in Ha.
Qed.

Lemma storeGet_bound parse w h a : WF w -> agents w !! h = Some a -> parse (aAgentID a) = Some (aAgentID a) ->
  storeGet parse w (aAgentID a) = Ok (h, agentRow a).
Proof. intros W Ha Hp. unfold storeGet. by rewrite Hp, (byAgentID_bound w h a). Qed.

(** C15: A registration that is answered 200, whichever best-effort
    statement of it may have failed, has done what it says: the request
    decoded, the host row named in the answer holds the reported facts, the
    agent named in the answer is bound to that host, and the agent token
    that was handed out authenticates as exactly this agent on this host.
    The assumptions are those on the libraries: a UUID parses as it prints,
    claims survive JSON, a MAC is bytes. *)
Theorem registration_authenticates
    (sha256 : string -> list Z) (uuidParse : string -> option string) (uuidDraw : nat -> string)
    (decodeJSON : string -> result string RegisterRequest)
    (hmac : list Z -> list Z -> list Z) (marshalAgent : Tok.AgentClaims -> option (list Z))
    (unmarshalAgent : list Z -> option Tok.AgentClaims) (key : list Z)
    (parse_canonical : forall s u, uuidParse s = Some u -> uuidParse u = Some u /\ u <> "")
    (hmac_bytes : forall k m, Forall Tok.isByte (hmac k m))
    (agent_codec : forall c p, marshalAgent c = Some p -> Forall Tok.isByte p /\ unmarshalAgent p = Some c)
    (c : RegisterCall) (w w' : World) (resp : Response) :
  WF w ->
  run (handleRegister sha256 uuidParse uuidDraw decodeJSON hmac marshalAgent key c) w = (Some resp, w') ->
  rsStatus resp = 200 ->
  exists req b row claims,
    decodeRegisterRequest decodeJSON (rcBody c) = Ok req /\ rsBody resp = Some b
    /\ hasFacts (rqFacts req) (rrHostID b) w' /\ agents w' !! rrHostID b = Some row
    /\ aAgentID row = rrAgentID b
    /\ Tok.authAgent hmac unmarshalAgent key (storeGet uuidParse w') ("Bearer " +++ rrAgentToken b)
       = Ok (claims, (rrHostID b, agentRow row))
    /\ Tok.acAgentID claims = rrAgentID b /\ Tok.acHostID claims = rrHostID b.
Proof.
  intros W Hr Hs.
  destruct (run_safe (fun (_ : unit) w => WF w) _ _ tt _ w
    (safe_register sha256 uuidParse uuidDraw decodeJSON hmac marshalAgent key c) W) as [[] W'].
  pose proof (ends_register sha256 uuidParse uuidDraw decodeJSON hmac marshalAgent key parse_canonical c w) as He.
  unfold ends in He. rewrite Hr in He, W'. cbn [snd] in W'. destruct (He Hs) as (req & Hd & Hen).
  destruct (Hen Hs) as (b & row & now & Hb & [E1 E2 E3 [E4 E4'] E5]).
  destruct (Tok.agentIssue_shape _ _ _ agent_codec _ _ _ E5) as (p & Et & Hp & _).
  do 4 eexists. split_and!; [exact Hd | exact Hb | exact E1 | exact E2 | exact E3 | | |].
  - unfold Tok.authAgent. rewrite Et at 1. rewrite Tok.bearer_issued, <- Et by (done || apply hmac_bytes).
    rewrite (Tok.agentParse_issued _ _ _ hmac_bytes agent_codec _ _ _ E5). cbn [Tok.acAgentID Tok.acHostID].
    assert (0 < rrHostID b) by (apply (wf_hostSeq _ W'), (wf_bound _ W'), elem_of_dom; eauto).
    destruct (String.eqb_spec (rrAgentID b) ""); [done|]. destruct (Z.leb_spec (rrHostID b) 0); [lia|]. cbn.
    rewrite <- E3 in E4 |- *. rewrite (storeGet_bound _ _ _ _ W' E2 E4). cbn. rewrite Z.eqb_refl. done.
  - done.
  - done.
Qed.

Lemma registration_authenticates_witness :
  exists resp w' b, demoRun demoWorld = (Some resp, w') /\ rsBody resp = Some b /\
  exists claims row, Tok.authAgent demoHmac demoUnmarshal [] (storeGet demoParse w') ("Bearer " +++ rrAgentToken b)
    = Ok (claims, (rrHostID b, agentRow row)).
Proof.
  do 3 eexists. split; [vm_compute; reflexivity|]. split; [vm_compute; reflexivity|].
  destruct (registration_authenticates bytesOf demoParse demoDraw demoDecode demoHmac demoMarshal demoUnmarshal []
    fleet_parse (fun _ _ => ltac:(by repeat constructor)) fleet_codec demoCall demoWorld _ _ demoWorld_WF
    (surjective_pairing _) ltac:(vm_compute; reflexivity)) as (req & b & row & claims & _ & Hb & _ & _ & _ & Ha & _).
  exists claims, row. vm_compute in Hb. injection Hb as <-. exact Ha.
Defined.

End FleetExact.
