(* ===== verification/FleetUndo.v ===== *)
(** * A registration that loses a statement leaves nothing behind

    The three stores a registration writes share no transaction; register.go
    compensates instead. Here one statement of a registration is lost, at an
    arbitrary position, and the tables afterwards are compared with those
    before. *)

From stdpp Require Import sorting.
From S2P Require Import Prelude Rbac ListQuery ApiRoutes ApiServe IamDb IamStore IamRoles OidcStore AgentToken AgentIdentity Atomic FleetDb FleetStore FleetHosts FleetEnroll FleetLogic FleetIntegrity FleetDemo FleetExact.

Module FleetUndo.
Import IamDb(SqlErr(..), someRow, firstRow, firstRow_Some, firstRow_None, someRow_false, rowsWhere, deleteWhere, colEq, isNull, one).
Import IamStore(GoErr(..), CheckPG, wrap, notFoundOr, tagged).
Import Atomic FleetDb FleetStore FleetHosts FleetEnroll FleetLogic FleetIntegrity FleetDemo FleetExact.

(** The statement after the next [n] will be lost. *)
Definition losing (n : nat) (w : World) : World := set_faults (replicate n Fine ++ [Lost]) w.

(** Statements do not look at the faults to come. *)
Definition Oblivious {X} (q : World -> X * World) : Prop :=
  forall fs w, q (set_faults fs w) = ((q w).1, set_faults fs (q w).2).

Lemma set_faults_id w : faults w = [] -> set_faults [] w = w.
Proof. by destruct w; cbn; intros ->. Qed.

Lemma oblivious_clean {X} (q : World -> X * World) w : Oblivious q -> faults w = [] -> faults (q w).2 = [].
Proof. intros Hq Hw. rewrite <- (set_faults_id w Hw), Hq. done. Qed.

(** A run either escapes the loss and goes as it would have, or it meets it
    and ends in [E], nothing being lost any more. *)
Definition hit {A} (E : A -> World -> Prop) (p : Proc World A) (w : World) : Prop :=
  forall n, match run p (losing n w) with
    | (None, _) => True
    | (Some a, w1) =>
        (exists n' w', faults w' = [] /\ run p w = (Some a, w') /\ w1 = losing n' w')
        \/ (faults w1 = [] /\ E a w1)
    end.

Lemma hit_ret {A} (E : A -> World -> Prop) a w : faults w = [] -> hit E (Ret a) w.
Proof. intros Hw n. left. by exists n, w. Qed.

Lemma hit_panic {A} (E : A -> World -> Prop) w : hit E Panic w.
Proof. done. Qed.

Lemma hit_atom {X} (E : X -> World -> Prop) (q : World -> X * World) w :
  Oblivious q -> faults w = [] -> hit E (atom q) w.
Proof.
  intros Hq Hw n. cbn. unfold losing at 1. rewrite Hq. left. exists n, (q w).2.
  split; [by apply oblivious_clean|]. destruct (q w); done.
Qed.

Lemma hit_Q {A} (E : result SqlErr A -> World -> Prop) (st : Stmt A) w :
  Oblivious st -> faults w = [] -> E (Err ErrConn) w -> hit E (Q st) w.
Proof.
  intros Hs Hw HE [|n]; cbn; unfold runStmt, popFault; cbn.
  - right. change (set_faults [] (losing 0 w)) with (set_faults [] w). by rewrite (set_faults_id w Hw).
  - rewrite Hw. change (set_faults (replicate n Fine ++ [Lost]) (losing (S n) w)) with (losing n w).
    unfold losing at 1. rewrite Hs. left. exists n, (st w).2. split; [by apply oblivious_clean|]. by destruct (st w).
Qed.

Lemma hit_mono {A} (E E' : A -> World -> Prop) (p : Proc World A) w :
  hit E p w -> (forall a w1, E a w1 -> E' a w1) -> hit E' p w.
Proof. intros Hp HE n. specialize (Hp n). destruct (run p (losing n w)) as [[a|] w1]; [|done].
  destruct Hp as [Hp|[Hf Ha]]; [by left | right; auto].
Qed.

Lemma hit_bind {A B} (E1 : A -> World -> Prop) (R : A -> World -> Prop) (E : B -> World -> Prop)
    (p : Proc World A) (f : A -> Proc World B) w :
  hit E1 p w -> ends R p w ->
  (forall a w', R a w' -> faults w' = [] -> hit E (f a) w') ->
  (forall a w1, E1 a w1 -> faults w1 = [] -> ends (fun b w2 => faults w2 = [] /\ E b w2) (f a) w1) ->
  hit E (bind p f) w.
Proof.
  intros Hp HR Hf Hc n. specialize (Hp n). rewrite !run_bind. unfold ends in HR.
  destruct (run p (losing n w)) as [[a|] w1]; [|done].
  destruct Hp as [(n' & w' & Hw' & Hr & ->)|[Hw1 HE1]].
  - rewrite Hr in HR. specialize (Hf a w' HR Hw' n'). destruct (run (f a) (losing n' w')) as [[b|] w2]; [|done].
    destruct Hf as [(m & w3 & H1 & H2 & H3)|Hf]; [left | by right]. exists m, w3. split_and!; [done| |done].
    rewrite Hr. exact H2.
  - specialize (Hc a w1 HE1 Hw1). unfold ends in Hc. destruct (run (f a) w1) as [[b|] w2]; [by right | done].
Qed.

(** A store call: met, it is the lost statement that answers. *)
Lemma hit_stmt {A} (E : result GoErr A -> World -> Prop) f (st : Stmt A) w :
  Oblivious st -> faults w = [] -> E (Err (f ErrConn)) w -> hit E (stmt f st) w.
Proof.
  intros Hs Hw HE. apply (hit_bind (fun x w1 => x = Err ErrConn /\ w1 = w) (fun _ _ => True)).
  - by apply hit_Q.
  - apply ends_any.
  - intros a w' _ Hw'. by apply hit_ret.
  - intros a w1 [-> ->] _. by apply ends_ret.
Qed.

Lemma hit_tell {A} (E : result GoErr A -> World -> Prop) e (a : A) w : faults w = [] -> hit E (tell e a) w.
Proof. intros Hw n. left. exists n, (publish e w). done. Qed.

(** [andThen]: an error, met or not, ends the call. *)
Lemma hit_andThen {A B} (E : result GoErr B -> World -> Prop) (R : A -> World -> Prop) (p : Call A) (k : A -> Call B) w :
  hit (fun x w1 => exists e, x = Err e /\ E (Err e) w1) p w ->
  ends (fun x w' => match x with Ok a => R a w' | Err _ => True end) p w ->
  (forall a w', R a w' -> faults w' = [] -> hit E (k a) w') -> hit E (andThen p k) w.
Proof.
  intros Hp HR Hk. eapply hit_bind; [exact Hp | exact HR| |].
  - intros [a|e] w' Ha Hw'; [by apply Hk | by apply hit_ret].
  - intros x w1 (e & -> & HE) Hw1. by apply ends_ret.
Qed.

(** ** Transactions *)

Definition txHit {A} (fn : Tx A) : Prop := forall w, faults w = [] ->
  faults (fn w).2 = [] /\
  forall n, (exists n', fn (losing n w) = ((fn w).1, losing n' (fn w).2))
            \/ (exists e w1, fn (losing n w) = (Err e, w1) /\ faults w1 = []).

Lemma txHit_pure {A} (fn : Tx A) : Oblivious fn -> txHit fn.
Proof. intros Hf w Hw. split; [by apply oblivious_clean|]. intros n. left. exists n. apply Hf. Qed.

Lemma txHit_stmt {A} f (st : Stmt A) : Oblivious st -> txHit (txStmt f st).
Proof.
  intros Hs w Hw. pose proof (oblivious_clean st w Hs Hw) as Hc. unfold txStmt, popFault. rewrite Hw. split.
  - by destruct (st w) as [[a|e] w'].
  - intros [|n]; [right; by eexists _, _|]. left. exists n. cbn.
    change (set_faults (replicate n Fine ++ [Lost]) (losing (S n) w)) with (losing n w).
    unfold losing. rewrite Hs. by destruct (st w) as [[a|e] w'].
Qed.

Lemma txHit_bind {A B} (m : Tx A) (f : A -> Tx B) : txHit m -> (forall a, txHit (f a)) -> txHit (txBind m f).
Proof.
  intros Hm Hf w Hw. destruct (Hm w Hw) as [Hc Hn]. unfold txBind. destruct (m w) as [[a|e] w'] eqn:E; cbn in *.
  - destruct (Hf a w' Hc) as [Hc' Hn']. split; [done|]. intros n.
    destruct (Hn n) as [[n' ->]|(e & w1 & -> & ?)]; [apply Hn' | right; eauto].
  - split; [done|]. intros n. destruct (Hn n) as [[n' ->]|(e' & w1 & -> & ?)]; [left | right]; eauto.
Qed.

(** Met, the transaction is an error and the tables are as before. *)
Definition unmoved (w w1 : World) : Prop := hosts w1 = hosts w /\ agents w1 = agents w /\ tokens w1 = tokens w.

Lemma hit_withTx {A} (fn : Tx A) w : txHit fn -> faults w = [] ->
  hit (fun x w1 => exists e, x = Err e /\ unmoved w w1) (withTx fn) w.
Proof.
  intros Hf Hw n. destruct (Hf w Hw) as [Hc Hn]. cbn.
  assert (E0 : popFault w = (Fine, w)) by (unfold popFault; by rewrite Hw).
  destruct n as [|n]; cbn; [right; split; [done|]; by eexists|].
  change (set_faults (replicate n Fine ++ [Lost]) (losing (S n) w)) with (losing n w). rewrite E0.
  destruct (Hn n) as [[n' ->]|(e & w1 & -> & Hw1)]; [|right; split; [done|]; by eexists].
  destruct (fn w) as [[a|e] w2]; cbn in *.
  - destruct n' as [|n']; cbn; [right; split; [done|]; by eexists|]. left. unfold popFault. rewrite Hc. by exists n', w2.
  - left. exists n'. eexists. split; [|done]. done.
Qed.

(** ** The statements of a registration *)

Ltac oblivious := try intros fs w; cbn; repeat (case_match; cbn); try reflexivity; congruence.

Lemma oblivious_read {A} (f : World -> result SqlErr A) :
  (forall fs w, f (set_faults fs w) = f w) -> Oblivious (fun w => (f w, w)).
Proof. intros Hf fs w. by rewrite Hf. Qed.

Lemma oblivious_insertHost h : Oblivious (insertHost h).
Proof. unfold insertHost. oblivious. Qed.
Lemma oblivious_UpdateFacts id f : Oblivious (UpdateAgentHostFacts id f).
Proof. unfold UpdateAgentHostFacts. oblivious. Qed.
Lemma oblivious_Rebind h v p a : Oblivious (RebindHostAgent h v p a).
Proof. unfold RebindHostAgent. intros fs w. change (byAgentID a (set_faults fs w)) with (byAgentID a w). oblivious. Qed.
Lemma oblivious_InsertAgent h a v p : Oblivious (InsertHostAgent h a v p).
Proof. unfold InsertHostAgent. intros fs w. change (byAgentID a (set_faults fs w)) with (byAgentID a w). oblivious. Qed.
Lemma oblivious_Consume h : Oblivious (ConsumeHostAgentJoinToken h).
Proof. unfold ConsumeHostAgentJoinToken. oblivious. Qed.
Lemma oblivious_BindTarget i h : Oblivious (BindHostAgentJoinTokenTarget i h).
Proof. unfold BindHostAgentJoinTokenTarget. oblivious. Qed.

Lemma txHit_bindTx parse draw i : txHit (bindTx parse draw i).
Proof.
  apply txHit_bind; [by apply txHit_stmt|]. intros _. apply txHit_bind; [|intros x; destruct (negb _)].
  - unfold recheck. destruct (_ && _); [|by apply txHit_pure].
    apply txHit_bind; [by apply txHit_stmt|]. intros l. repeat case_match; by apply txHit_pure.
  - apply txHit_bind; [by apply txHit_pure|]. intros u. apply txHit_stmt, oblivious_Rebind.
  - apply txHit_bind; [by apply txHit_stmt|]. intros _. apply txHit_bind; [by apply txHit_pure|]. intros d.
    apply txHit_bind; [by apply txHit_pure|]. intros u. apply txHit_stmt, oblivious_InsertAgent.
Qed.

(** ** The stages *)

Section Stages.
(** The tables before, and the facts reported. *)
Context (w0 : World) (W0 : WF w0) (facts : Facts).

(** Nothing but the reported facts is different. *)
Record Restored (w : World) : Prop := {
  rs_tokens : tokens w = tokens w0;
  rs_agents : agents w = agents w0;
  rs_hosts h : match hosts w0 !! h with
               | Some x => exists y, hosts w !! h = Some y /\ (y = x \/ y = withFacts facts x)
               | None => hosts w !! h = None
               end
}.

Context (i : Z) (j : JoinToken).

(** A use of the token is taken; otherwise as before. *)
Record Taken (w : World) : Prop := {
  ta_old : tokens w0 !! i = Some j;
  ta_tokens : tokens w = <[i := withUsed (jUsedCount j + 1) j]> (tokens w0);
  ta_agents : agents w = agents w0;
  ta_hosts : hosts w = hosts w0;
  ta_seq : hostSeq w0 <= hostSeq w;
  ta_clean : faults w = []
}.

(** The host row is placed as well. *)
Record Placed (h : Z) (created : bool) (w : World) : Prop := {
  pl_old : tokens w0 !! i = Some j;
  pl_tokens : tokens w = <[i := withUsed (jUsedCount j + 1) j]> (tokens w0);
  pl_agents : agents w = agents w0;
  pl_hosts : if created
             then hostSeq w0 < h /\ exists x, hosts w = <[h := x]> (hosts w0)
             else exists x, hosts w0 !! h = Some x /\ hosts w = <[h := withFacts facts x]> (hosts w0);
  pl_clean : faults w = []
}.

Lemma Placed_unmoved h c w w1 : unmoved w w1 -> faults w1 = [] -> Placed h c w -> Placed h c w1.
Proof. intros (E1 & E2 & E3) Hf []. split; try congruence. rewrite E1. done. Qed.

Lemma fresh_row h : hostSeq w0 < h -> hosts w0 !! h = None /\ agents w0 !! h = None.
Proof using W0.
  intros Hh. assert (Hn : h ∉ dom (hosts w0)) by (intros Hd; pose proof (wf_hostSeq _ W0 h Hd); lia).
  split; apply not_elem_of_dom; [done|]. intros Hd. by apply (wf_bound _ W0) in Hd.
Qed.

(** Refunding gives the token back its use. *)
Lemma ends_refund w : tokens w0 !! i = Some j ->
  tokens w = <[i := withUsed (jUsedCount j + 1) j]> (tokens w0) -> faults w = [] ->
  ends (fun _ w' => faults w' = [] /\ tokens w' = tokens w0 /\ agents w' = agents w /\ hosts w' = hosts w) (tokenRefund i) w.
Proof using W0.
  intros Hj Ht Hf. pose proof (tokenOk_bounds j (wf_uses _ W0 _ _ Hj)) as Hb.
  eapply (ends_seq (fun _ w' => faults w' = [] /\ tokens w' = tokens w0 /\ agents w' = agents w /\ hosts w' = hosts w));
    [|by intros]. apply ends_atom. unfold runStmt, popFault. rewrite Hf. unfold RefundHostAgentJoinToken.
  rewrite Ht, lookup_insert_eq. cbn. destruct (Z.ltb_spec 0 (jUsedCount j + 1)); [|lia]. cbn. split_and!; try done.
  rewrite insert_insert_eq. apply insert_id. rewrite Hj. f_equal. destruct j. unfold withUsed. cbn. f_equal. lia.
Qed.

Lemma ends_undo_taken w resp : Taken w ->
  ends (fun (_ : Response) w' => faults w' = [] /\ Restored w') (_ <-~ undoRegistration 0 false i ;; Ret resp) w.
Proof using W0.
  intros [T1 T2 T3 T4 T5 Hf]. eapply (ends_seq (fun _ w' => faults w' = [] /\ Restored w')); [|by intros].
  eapply (ends_seq (fun _ w' => w' = w)); [done|]. intros _ w' ->.
  eapply ends_seq; [by apply ends_refund|]. intros _ w2 (E0 & E1 & E2 & E3). apply ends_ret. split; [done|].
  split; [done|congruence|]. rewrite E3, T4. intros h. destruct (hosts w0 !! h); [eauto|done].
Qed.

(** No token is bound to a host that is not there. *)
Lemma untargeted h u : hostSeq w0 < h -> tokens w0 !! i = Some j ->
  deleteWhere (fun _ x => colEq (jTargetHostID x) h) (<[i := withUsed u j]> (tokens w0)) = <[i := withUsed u j]> (tokens w0).
Proof using W0.
  intros Hh Hj. unfold deleteWhere. apply map_filter_id. intros k x Hx. cbn.
  assert (Ht : forall t y, tokens w0 !! t = Some y -> colEq (jTargetHostID y) h = false).
  { intros t y Hy. unfold colEq. destruct (jTargetHostID y) as [g|] eqn:Eg; [|done]. apply Z.eqb_neq. intros ->.
    pose proof (wf_hostSeq _ W0 h (wf_target _ W0 _ _ _ Hy Eg)). lia. }
  rows; [exact (Ht _ _ Hj) | by eapply Ht].
Qed.

Lemma ends_unregister h w : Placed h true w -> 0 < h ->
  ends (fun _ w' => faults w' = [] /\ tokens w' = tokens w /\ agents w' = agents w0 /\ hosts w' = hosts w0)
    (UnregisterAgentHost h) w.
Proof using W0.
  intros [P1 P2 P3 (Hh & x & P4) Hf] Hp. destruct (fresh_row h Hh) as [Fh Fa].
  eapply (ends_call (fun _ w' => faults w' = [] /\ tokens w' = tokens w /\ agents w' = agents w0 /\ hosts w' = hosts w0));
    [|by intros T w' Hw'; apply ends_tell].
  eapply (ends_seq (fun r w' => exists T, r = Ok T /\ faults w' = [] /\ tokens w' = tokens w /\ agents w' = agents w0 /\ hosts w' = hosts w0));
    [|by intros r w' (T & -> & Hw')].
  apply ends_atom. unfold runStmt, popFault. rewrite Hf. unfold DeleteAgentHost. rewrite P4, lookup_insert_eq, P3, Fa.
  eexists. split; [done|]. cbn. rewrite P2, P3, P4, untargeted by done.
  rewrite delete_insert_eq, !delete_id by done. done.
Qed.

Lemma ends_undo_placed h c w resp : Placed h c w ->
  ends (fun (_ : Response) w' => faults w' = [] /\ Restored w') (_ <-~ undoRegistration h c i ;; Ret resp) w.
Proof using W0.
  intros P. pose proof P as [P1 P2 P3 P4 Hf].
  eapply (ends_seq (fun _ w' => faults w' = [] /\ Restored w')); [|by intros].
  eapply (ends_seq (fun _ w' => faults w' = [] /\ tokens w' = tokens w /\ agents w' = agents w0 /\
            hosts w' = if c then hosts w0 else hosts w)).
  - destruct c; [|done]. destruct P4 as [Hh _]. pose proof (wf_seq _ W0).
    destruct (Z.ltb_spec 0 h); [|lia]. cbn [andb].
    eapply ends_seq; [by apply ends_unregister|]. intros ? w' Hw'. by apply ends_ret.
  - intros _ w1 (F1 & E1 & E2 & E3).
    eapply ends_seq; [apply ends_refund; [done | by rewrite E1 | done]|].
    intros _ w2 (F2 & E4 & E5 & E6). apply ends_ret. split; [done|]. split; [done|congruence|].
    rewrite E6, E3. intros g. destruct c; [by destruct (hosts w0 !! g); eauto|].
    destruct P4 as (x & Hx & ->). destruct (decide (g = h)) as [->|Hg].
    + rewrite Hx, lookup_insert_eq. eauto.
    + rewrite lookup_insert_ne by done. destruct (hosts w0 !! g); eauto.
Qed.

(** ** The host row, with a loss *)

Lemma hit_create n d f T c w : faults w = [] ->
  hit (fun x w1 => x = Err (CheckPG ErrConn) /\ w1 = w) (agentHostCreate n d f T c) w.
Proof.
  intros Hf. eapply (hit_andThen _ (fun _ _ => True)).
  - apply hit_stmt; [apply oblivious_insertHost|done|]. by eexists.
  - eapply ends_mono; [apply ends_any|]. by intros [].
  - intros id w' _ Hw'. by apply hit_tell.
Qed.

(** Names that are taken cost ids, nothing else. *)
Lemma clean_create n d T c w : Taken w ->
  ends (fun x w' => match x with Ok h => Placed h true w' | Err _ => Taken w' end) (agentHostCreate n d facts T c) w.
Proof.
  intros [T1 T2 T3 T4 T5 Hf]. apply (ends_call (fun h w' => Placed h true w')).
  - eapply (ends_seq (fun x w' => match x with Ok h => Placed h true w' | Err _ => Taken w' end)).
    + apply ends_atom. unfold runStmt, popFault. rewrite Hf. unfold CreateAgentHost, insertHost.
      assert (Hs : Taken (set_seqs (hostSeq w + 1) (tokenSeq w) w)) by (split; cbn; (done || lia)).
      destruct (negb (hostFits _)); [exact Hs|]. destruct (negb (scopeOk _)); [exact Hs|].
      destruct (someRow _ _); [exact Hs|]. destruct (negb (refOk _ _)); [exact Hs|].
      split; cbn; try done. split; [lia|]. eexists. by rewrite T4.
    + by intros [h|e] w' Hw'.
  - intros h w' [P1 P2 P3 P4 P5]. apply ends_tell. by split.
Qed.

(** What placing the host leaves: with an answer, or met. *)
Definition placing (x : result GoErr (Z * bool)) (w : World) : Prop :=
  match x with Ok (h, c) => Placed h c w | Err _ => Taken w end.
Definition foiled (x : result GoErr (Z * bool)) (w : World) : Prop := exists e, x = Err e /\ Taken w.

Lemma clean_createNamed sp names w : sFacts sp = facts -> Taken w -> ends placing (createNamed sp names) w.
Proof.
  intros Ef. revert w. induction names as [|n names IH]; intros w Hw; [done|]. cbn [createNamed]. rewrite Ef.
  eapply ends_seq; [by apply clean_create|]. intros [h|e] w' Hx; [done|].
  destruct (isNot 409 e); [done | by apply IH].
Qed.

Lemma hit_createNamed sp names w : sFacts sp = facts -> Taken w -> hit foiled (createNamed sp names) w.
Proof.
  intros Ef. revert w. induction names as [|n names IH]; intros w Hw; [by apply hit_ret, Hw|]. cbn [createNamed]. rewrite Ef.
  eapply hit_bind; [by apply hit_create, Hw | by apply clean_create | |].
  - intros [h|e] w' Hx Hw'; [by apply hit_ret|]. destruct (isNot 409 e); [by apply hit_ret | by apply IH].
  - intros a w1 [-> ->] Hf. apply ends_ret. split; [done | by eexists].
Qed.

Lemma clean_UpdateFacts id T w : Taken w -> hosts w0 !! id = Some T ->
  ends (fun x w' => match x with Ok _ => Placed id false w' | Err _ => Taken w' end) (agentHostUpdateFacts id facts) w.
Proof.
  intros Hw HT. pose proof Hw as [T1 T2 T3 T4 T5 Hf].
  apply (ends_call (fun n w' => n = 1 /\ Placed id false w')).
  - eapply (ends_seq (fun x w' => match x with Ok n => n = 1 /\ Placed id false w' | Err _ => Taken w' end));
      [|by intros [] w' Hw'].
    apply ends_atom. unfold runStmt, popFault. rewrite Hf. unfold UpdateAgentHostFacts. rewrite T4, HT.
    destruct (negb _); [done|]. split; [done|]. split; cbn; eauto.
  - intros n w' [-> [P1 P2 P3 P4 P5]]. apply ends_tell. by split.
Qed.

Lemma hit_UpdateFacts id w : Taken w ->
  hit (fun x w1 => x = Err (CheckPG ErrConn) /\ w1 = w) (agentHostUpdateFacts id facts) w.
Proof.
  intros Hw. eapply (hit_andThen _ (fun _ _ => True)).
  - apply hit_stmt; [apply oblivious_UpdateFacts|apply Hw|]. by eexists.
  - eapply ends_mono; [apply ends_any|]. by intros [].
  - intros n w' _ Hw'. unfold affected. destruct (n =? 0); [by apply hit_ret | by apply hit_tell].
Qed.

Lemma clean_GetScope id w : Taken w ->
  ends (fun x w' => w' = w /\ match x with Ok T => is_Some (hosts w0 !! id) | Err _ => True end) (agentHostGetScope id) w.
Proof.
  intros [T1 T2 T3 T4 T5 Hf].
  eapply (ends_seq (fun x w' => w' = w /\ match x with Ok T => is_Some (hosts w0 !! id) | Err _ => True end));
    [|by intros [] w' Hw'].
  apply ends_atom. unfold runStmt, popFault. rewrite Hf. cbn. rewrite T4. destruct (hosts w0 !! id); cbn; eauto.
Qed.

Lemma clean_RegisterAgentHost sha sp w : sFacts sp = facts -> Taken w -> ends placing (RegisterAgentHost sha sp) w.
Proof.
  intros Ef Hw. unfold RegisterAgentHost. destruct (0 <? _); [|by apply clean_createNamed].
  eapply ends_seq; [by apply clean_GetScope|]. intros [T|e] w' [-> Hx].
  - destruct (negb _); [done|]. destruct Hx as [x Hx]. rewrite Ef.
    eapply ends_seq; [by eapply clean_UpdateFacts|]. intros [[]|e] w2 Hy; [done|].
    destruct (isNot 404 e); [done | by apply clean_createNamed].
  - unfold IsNotFoundFromDomain. destruct (IamStore.FromDomain e) as [se|]; [|done].
    cbn [bind]. destruct (_ =? 404); [by apply clean_createNamed | done].
Qed.

Lemma hit_RegisterAgentHost sha sp w : sFacts sp = facts -> Taken w -> hit foiled (RegisterAgentHost sha sp) w.
Proof.
  intros Ef Hw. unfold RegisterAgentHost. destruct (0 <? _); [|by apply hit_createNamed].
  eapply hit_bind; [apply hit_stmt; [done | apply Hw|] | by apply clean_GetScope| |].
  - instantiate (1 := fun x w1 => x = Err (notFoundOr wrap ErrConn)). done.
  - intros [T|e] w' [-> Hx] Hf.
    + destruct (negb _); [by apply hit_ret|]. destruct Hx as [x Hx]. rewrite Ef.
      eapply hit_bind; [by apply hit_UpdateFacts | by eapply clean_UpdateFacts| |].
      * intros [[]|e] w2 Hy Hf2; [by apply hit_ret|].
        destruct (isNot 404 e); [by apply hit_ret | by apply hit_createNamed].
      * intros a w1 [-> ->] _. apply ends_ret. split; [done | by eexists].
    + unfold IsNotFoundFromDomain. destruct (IamStore.FromDomain e) as [se|]; [|apply hit_panic].
      cbn [bind]. destruct (_ =? 404); [by apply hit_createNamed | by apply hit_ret].
  - intros a w1 -> _. done.
Qed.

End Stages.

(** ** The handler *)

Section Handler.
Context (sha256 : string -> list Z) (uuidParse : string -> option string) (uuidDraw : nat -> string).
Context (decodeJSON : string -> result string RegisterRequest).
Context (hmac : list Z -> list Z -> list Z) (marshalAgent : Tok.AgentClaims -> option (list Z)) (key : list Z).
Context (w0 : World) (W0 : WF w0) (facts : Facts).

Definition succeeds (p : Proc World Response) (w : World) : Prop :=
  match run p w with (Some r, _) => rsStatus r = 200 | (None, _) => False end.

Definition fine (r : Response) (w : World) : Prop := rsStatus r = 200 \/ Restored w0 facts w.

(** If it would succeed, a loss either does not matter or is made good. *)
Definition recovers (p : Proc World Response) (w : World) : Prop := succeeds p w -> hit fine p w.

Lemma recovers_hit p w : hit fine p w -> recovers p w.
Proof. by intros Hp _. Qed.

Lemma recovers_ret r w : faults w = [] -> recovers (Ret r) w.
Proof. intros Hf _. by apply hit_ret. Qed.

Lemma recovers_bind {A} (E1 R : A -> World -> Prop) (p : Proc World A) (f : A -> Proc World Response) w :
  hit E1 p w -> ends R p w ->
  (forall a w', R a w' -> faults w' = [] -> recovers (f a) w') ->
  (forall a w1, E1 a w1 -> faults w1 = [] -> ends (fun b w2 => faults w2 = [] /\ fine b w2) (f a) w1) ->
  recovers (bind p f) w.
Proof.
  intros Hp HR Hf Hc Hs. eapply (hit_bind E1 (fun a w' => R a w' /\ run p w = (Some a, w'))); [done| | |done].
  - unfold ends in *. by destruct (run p w) as [[a|] w'].
  - intros a w' [HRa Hr] Hw'. apply Hf; [done|done|]. unfold succeeds in *. by rewrite run_bind, Hr in Hs.
Qed.

(** An answer that is not a success needs no recovery. *)
Lemma recovers_vacuous {A} (p : Proc World A) r w : rsStatus r <> 200 -> recovers (_ <-~ p ;; Ret r) w.
Proof. intros Hr Hs. unfold succeeds in Hs. rewrite run_bind in Hs. by destruct (run p w) as [[]]. Qed.

Lemma ends_fine {A} (p : Proc World A) r w :
  ends (fun _ w' => faults w' = [] /\ Restored w0 facts w') (_ <-~ p ;; Ret r) w ->
  ends (fun b w2 => faults w2 = [] /\ fine b w2) (_ <-~ p ;; Ret r) w.
Proof. intros He. eapply ends_mono; [exact He|]. intros a w' [Hf Hr]. split; [done | by right]. Qed.

(** A call that only reads: its answer aside, nothing changes. *)
Definition reads {A} (p : Call A) (w : World) : Prop :=
  hit (fun x w1 => w1 = w /\ exists e, x = Err e) p w /\ ends (fun _ w' => w' = w) p w.

Lemma reads_stmt {A} f (g : World -> result SqlErr A) w :
  (forall fs w, g (set_faults fs w) = g w) -> faults w = [] -> reads (stmt f (fun w => (g w, w))) w.
Proof.
  intros Hg Hf. split.
  - apply hit_stmt; [by apply oblivious_read | done | by eauto].
  - eapply (ends_seq (fun _ w' => w' = w)); [|by intros]. apply ends_atom. unfold runStmt, popFault. by rewrite Hf.
Qed.

Lemma reads_ok {A} (a : A) w : faults w = [] -> reads (ok a) w.
Proof. intros Hf. split; [by apply hit_ret | done]. Qed.

Lemma reads_err {A} e w : faults w = [] -> reads (A := A) (err e) w.
Proof. intros Hf. split; [by apply hit_ret | done]. Qed.

Lemma clean_report row w : faults w = [] -> ends (fun _ w' => faults w' = []) (reportImageGroup row) w.
Proof.
  intros Hf. unfold reportImageGroup. destruct (_ =s _); [done|]. unfold FindByMachineID.
  eapply (ends_seq (fun _ w' => w' = w)); [|by intros ? ? ->]. destruct (_ =s _); [done|]. by apply reads_stmt.
Qed.

Lemma hit_report row w : faults w = [] -> hit (fun _ _ => True) (reportImageGroup row) w.
Proof.
  intros Hf. unfold reportImageGroup. destruct (_ =s _); [by apply hit_ret|]. unfold FindByMachineID.
  destruct (_ =s _); [by apply hit_ret|].
  eapply (hit_bind (fun _ _ => True) (fun _ _ => True)); [by apply hit_stmt | apply ends_any | |].
  - intros a w' _ Hw'. by apply hit_ret.
  - by intros a w1 _ Hw1.
Qed.

Lemma recovers_finish req fp m i j h c w : Placed w0 facts i j h c w ->
  recovers (finishRegistration uuidParse uuidDraw hmac marshalAgent key req fp m i h c) w.
Proof using W0.
  intros Hp. eapply (recovers_bind (fun x w1 => exists e, x = Err e /\ unmoved w w1) (fun _ _ => True)).
  - eapply (hit_andThen _ (fun _ _ => True)).
    + eapply (hit_mono _ _ _ _ (hit_withTx _ w (txHit_bindTx _ _ _) (pl_clean _ _ _ _ _ _ _ Hp))).
      intros x w1 (e & -> & Hu). by exists e; split; [|exists e].
    + eapply ends_mono; [apply ends_any|]. by intros [].
    + intros row w' _ Hw'. by apply hit_tell.
  - apply ends_any.
  - intros [row|e] w1 _ Hw1; [|by apply recovers_vacuous].
    eapply (recovers_bind (fun _ _ => False) (fun _ w' => w' = w1)); [by apply hit_atom | done | | done].
    intros now w' -> _. destruct (Tok.agentIssue _ _ _ _) as [at_|]; [|by apply recovers_ret].
    apply recovers_hit. eapply (hit_bind (fun _ _ => True) (fun _ _ => True)); [|apply ends_any| |].
    + apply hit_stmt; [apply oblivious_BindTarget | done | done].
    + intros _ w2 _ Hw2. eapply (hit_bind (fun _ _ => True) (fun _ _ => True)); [by apply hit_report | apply ends_any | |].
      * intros [] w3 _ Hw3. by apply hit_ret.
      * intros [] w3 _ Hw3. apply ends_ret. split; [done | by left].
    + intros _ w2 _ Hw2. eapply ends_seq; [by apply clean_report|]. intros ? w3 Hw3. apply ends_ret. split; [done | by left].
  - intros x w1 (e & -> & Hu) Hw1. apply ends_fine. eapply ends_undo_placed; [done|]. by eapply Placed_unmoved.
Qed.

Lemma recovers_place req fp m i j j' ex w : rqFacts req = facts -> Taken w0 i j w ->
  recovers (placeHost sha256 uuidParse uuidDraw hmac marshalAgent key req fp m i j' ex) w.
Proof using W0.
  intros Ef Ht. eapply recovers_bind; [by eapply hit_RegisterAgentHost | by eapply clean_RegisterAgentHost | |].
  - intros [[h c]|e] w' Hx Hw'; [by eapply recovers_finish|]. apply recovers_vacuous. by destruct (_ =? _).
  - intros x w1 (e & -> & Hx) Hw1. apply ends_fine. by eapply ends_undo_taken.
Qed.

Lemma recovers_redeem req fp m i j j' w : rqFacts req = facts -> Taken w0 i j w ->
  recovers (redeem sha256 uuidParse uuidDraw hmac marshalAgent key req fp m i j') w.
Proof using W0.
  intros Ef Ht. unfold redeem. destruct (jTargetHostID j'); [|by eapply recovers_place].
  destruct (_ =? 0); [by eapply recovers_place|].
  destruct (negb _); [by apply recovers_vacuous | by eapply recovers_place].
Qed.

(** Before the token is consumed. *)
Record Before (w : World) : Prop := {
  be_tables : unmoved w0 w;
  be_seq : hostSeq w = hostSeq w0;
  be_clean : faults w = []
}.

Lemma Restored_before w : Before w -> Restored w0 facts w.
Proof.
  intros [(E1 & E2 & E3) _ _]. split; [done..|]. rewrite E1. intros h. destruct (hosts w0 !! h); eauto.
Qed.

Lemma ends_before r w : Before w -> ends (fun b w2 => faults w2 = [] /\ fine b w2) (Ret r) w.
Proof. intros Hb. split; [apply Hb | right; by apply Restored_before]. Qed.

Lemma clean_consume hash w : Before w ->
  ends (fun x w' => match x with Ok tok => exists j, Taken w0 tok.1 j w' | Err _ => True end) (tokenConsume hash) w.
Proof.
  intros [(E1 & E2 & E3) Es Hf].
  eapply (ends_seq (fun x w' => match x with Ok tok => exists j, Taken w0 tok.1 j w' | Err _ => True end));
    [|by intros [] w' Hw'].
  apply ends_atom. unfold runStmt, popFault. rewrite Hf. unfold ConsumeHostAgentJoinToken. rewrite E3.
  destruct (firstRow _ _) as [[i j]|] eqn:E; [|done]. apply firstRow_Some in E as [Hj _].
  exists j. split; cbn; (done || lia).
Qed.

Lemma recovers_consume req fp m hash w : rqFacts req = facts -> Before w ->
  recovers (consumeAndRedeem sha256 uuidParse uuidDraw hmac marshalAgent key req fp m hash) w.
Proof using W0.
  intros Ef Hb. eapply (recovers_bind (fun x w1 => w1 = w /\ exists e, x = Err e)).
  - apply hit_stmt; [apply oblivious_Consume | apply Hb | by eauto].
  - by apply clean_consume.
  - intros [[i j']|e] w' Hx Hw'; [|by apply recovers_ret]. destruct Hx as [j Hj]. by eapply recovers_redeem.
  - intros x w1 [-> [e ->]] _. by apply ends_before.
Qed.

(** A read before the token is consumed, and what follows it. *)
Lemma recovers_read {A} (p : Call A) (f : result GoErr A -> Proc World Response) w : Before w -> reads p w ->
  (forall x, recovers (f x) w) ->
  (forall e, ends (fun b w2 => faults w2 = [] /\ fine b w2) (f (Err e)) w) -> recovers (bind p f) w.
Proof.
  intros Hb [H1 H2] Hf He. eapply recovers_bind; [exact H1 | exact H2 | |].
  - by intros x w' -> _.
  - by intros x w1 [-> [e ->]] _.
Qed.

Lemma reads_GetByAgentID a w : faults w = [] -> reads (GetByAgentID uuidParse a) w.
Proof. intros Hf. unfold GetByAgentID. destruct (parseAgentUUID _ _); [by apply reads_stmt | by apply reads_err]. Qed.

Lemma reads_claim fp w : faults w = [] -> reads (claimCandidates fp) w.
Proof. intros Hf. unfold claimCandidates. destruct (_ =s _); [by apply reads_ok | by apply reads_stmt]. Qed.

Lemma bind_assoc {A B C} (p : Proc World A) (f : A -> Proc World B) (g : B -> Proc World C) w :
  run (bind (bind p f) g) w = run (bind p (fun x => bind (f x) g)) w.
Proof. rewrite !run_bind. destruct (run p w) as [[a|] w']; [by rewrite run_bind | done]. Qed.

Lemma recovers_ext p q w : (forall w, run p w = run q w) -> recovers q w -> recovers p w.
Proof.
  intros E Hq Hs n. unfold succeeds in Hs. rewrite E in Hs. pose proof (Hq Hs n) as Hn. rewrite (E (losing n w)), (E w).
  exact Hn.
Qed.

Lemma recovers_live a (k : Proc World Response) w : Before w -> recovers k w ->
  recovers (refusal <-~ liveAgent uuidParse a ;; match refusal with Some resp => Ret resp | None => k end) w.
Proof.
  intros Hb Hk. unfold liveAgent. destruct (_ =s _); [exact Hk|].
  eapply recovers_ext; [intros; apply bind_assoc|].
  apply recovers_read; [done | apply reads_GetByAgentID, Hb | |].
  - intros [x|e]; cbn [bind]; [destruct (_ =s _) | ]; [apply recovers_ret, Hb | exact Hk | apply recovers_ret, Hb].
  - intros e. by apply ends_before.
Qed.

Lemma recovers_identify req hash w : rqFacts req = facts -> Before w ->
  recovers (identify sha256 uuidParse uuidDraw hmac marshalAgent key req hash) w.
Proof using W0.
  intros Ef Hb. eapply (recovers_bind (fun _ _ => False) (fun _ w' => w' = w)); [by apply hit_atom, Hb | done | | done].
  intros now w' -> _. cbn zeta. apply recovers_read; [done | apply reads_claim, Hb | |].
  - intros [cs|e]; [|apply recovers_ret, Hb]. apply recovers_live; [done|]. by apply recovers_consume.
  - intros e. by apply ends_before.
Qed.

Lemma recovers_register c req w : Before w -> decodeRegisterRequest decodeJSON (rcBody c) = Ok req -> rqFacts req = facts ->
  recovers (handleRegister sha256 uuidParse uuidDraw decodeJSON hmac marshalAgent key c) w.
Proof using W0.
  intros Hb D Ef. unfold handleRegister. destruct (negb _); [apply recovers_ret, Hb|].
  destruct (Tok.bearerToken _); [|apply recovers_ret, Hb]. rewrite D.
  apply recovers_read; [done | by apply reads_stmt, Hb | |].
  - intros [x|e]; [by apply recovers_identify | apply recovers_ret, Hb].
  - intros e. by apply ends_before.
Qed.

End Handler.

(** C14: A registration that loses a statement is undone. Take any
    registration that would be answered 200, and let exactly one of its
    statements, any one, be lost with its connection. If the handler still
    answers, then either it answers 200 all the same (the lost statement
    was one of the best-effort ones), or the tables are as they were before
    it began: the use of the join token is given back, no host row and no
    agent row is left over, and the only trace is that a host row which
    already existed may show the newly reported facts. *)
Theorem lost_registration_undone
    (sha256 : string -> list Z) (uuidParse : string -> option string) (uuidDraw : nat -> string)
    (decodeJSON : string -> result string RegisterRequest)
    (hmac : list Z -> list Z -> list Z) (marshalAgent : Tok.AgentClaims -> option (list Z)) (key : list Z)
    (c : RegisterCall) (req : RegisterRequest) (w w' : World) (n : nat) (resp : Response) :
  let p := handleRegister sha256 uuidParse uuidDraw decodeJSON hmac marshalAgent key c in
  WF w -> faults w = [] -> decodeRegisterRequest decodeJSON (rcBody c) = Ok req -> succeeds p w ->
  run p (losing n w) = (Some resp, w') ->
  rsStatus resp = 200
  \/ (tokens w' = tokens w /\ agents w' = agents w
      /\ forall h, match hosts w !! h with
                   | Some x => exists y, hosts w' !! h = Some y /\ (y = x \/ y = withFacts (rqFacts req) x)
                   | None => hosts w' !! h = None
                   end).
Proof.
  intros p W Hf D Hs Hr.
  assert (Hb : Before w w) by (split; [by split_and!|done|done]).
  pose proof (recovers_register sha256 uuidParse uuidDraw decodeJSON hmac marshalAgent key w W (rqFacts req)
    c req w Hb D eq_refl Hs n) as Hh.
  fold p in Hh. rewrite Hr in Hh. destruct Hh as [(n' & w2 & _ & Hg & _)|[_ [Hh|[]]]]; [|by left|by right].
  left. unfold succeeds in Hs. fold p in Hs. by rewrite Hg in Hs.
Qed.

(** Losing the lock of the binding, after the host row is created. *)
Lemma lost_registration_undone_witness :
  exists resp w', run (handleRegister bytesOf demoParse demoDraw demoDecode demoHmac demoMarshal [] demoCall)
                    (losing 5 demoWorld) = (Some resp, w')
  /\ rsStatus resp = 500
  /\ (rsStatus resp = 200 \/ (tokens w' = tokens demoWorld /\ agents w' = agents demoWorld
      /\ forall h, match hosts demoWorld !! h with
                   | Some x => exists y, hosts w' !! h = Some y /\ (y = x \/ y = withFacts demoFacts x)
                   | None => hosts w' !! h = None
                   end)).
Proof.
  do 2 eexists. split; [vm_compute; reflexivity|].
  split; [vm_compute; reflexivity|].
  apply (lost_registration_undone bytesOf demoParse demoDraw demoDecode demoHmac demoMarshal [] demoCall demoRequest
    demoWorld _ 5 _ demoWorld_WF); vm_compute; reflexivity.
Defined.

End FleetUndo.
