(* ===== verification/FleetMerge.v ===== *)
(** * Merging a duplicate host

    What a merge that is answered with success has done to the tables,
    whatever the faults of best-effort statements, and what that means for
    the credential of the machine behind the duplicate. *)

From stdpp Require Import sorting.
From S2P Require Import Prelude Rbac ListQuery ApiRoutes ApiServe IamDb IamStore IamRoles OidcStore AgentToken AgentIdentity Atomic FleetDb FleetStore FleetHosts FleetEnroll FleetLogic FleetIntegrity FleetDemo FleetExact.

Module FleetMerge.
Import IamDb(SqlErr(..), someRow, firstRow, firstRow_Some, firstRow_None, someRow_false, rowsWhere, deleteWhere, colEq, isNull, one).
Import IamStore(GoErr(..), CheckPG, wrap, notFoundOr, tagged, domainErr).
Import IamRoles(Ctx).
Import Atomic FleetDb FleetStore FleetHosts FleetEnroll FleetLogic FleetIntegrity FleetDemo FleetExact.

(** The tables, as a statement sees them. *)
Record Tables := mkTables { tbHosts : gmap Z Host; tbAgents : gmap Z HostAgent; tbTokens : gmap Z JoinToken }.
Definition tables (w : World) : Tables := mkTables (hosts w) (agents w) (tokens w).

(** A call that, when it answers, has turned the tables [t] into one of the
    outcomes [P] allows; an error says nothing. *)
Definition does {A} (P : Tables -> A -> Tables -> Prop) (p : Call A) : Prop :=
  forall w, ends (fun x w' => match x with Ok a => P (tables w) a (tables w') | Err _ => True end) p w.

Lemma does_stmt {A} (P : Tables -> A -> Tables -> Prop) f (st : Stmt A) :
  (forall w a w', st w = (Ok a, w') -> P (tables w) a (tables w')) -> does P (stmt f st).
Proof.
  intros Hs w. apply ends_stmt; [|done|done]. intros fs.
  destruct (st (set_faults fs w)) as [[a|e] w'] eqn:E; [|done]. exact (Hs _ _ _ E).
Qed.

Lemma does_bind {A B} (P : Tables -> A -> Tables -> Prop) (R : Tables -> B -> Tables -> Prop) (p : Call A) (k : A -> Call B) :
  does P p -> (forall t a, does (fun t' b t'' => P t a t' -> R t b t'') (k a)) -> does R (andThen p k).
Proof.
  intros Hp Hk w. eapply (ends_call (fun a w' => P (tables w) a (tables w'))).
  - eapply ends_mono; [apply Hp|]. by intros [].
  - intros a w' Ha. eapply ends_mono; [apply (Hk (tables w) a w')|]. intros [b|e] w2 Hb; [by apply Hb | done].
Qed.

Lemma does_domain {A} (P : Tables -> A -> Tables -> Prop) (p : Call A) : does P p -> does P (domain p).
Proof. intros Hp w. eapply ends_seq; [apply Hp|]. by intros [a|e] w' Hw'. Qed.

Lemma does_tell {A} (P : Tables -> A -> Tables -> Prop) e (a : A) : (forall t, P t a t) -> does P (tell e a).
Proof. intros Hp w. by apply ends_tell. Qed.

Lemma does_ok {A} (P : Tables -> A -> Tables -> Prop) (a : A) : (forall t, P t a t) -> does P (ok a).
Proof. intros Hp w. by apply ends_ret. Qed.

Lemma does_err {A} (P : Tables -> A -> Tables -> Prop) e : does P (err e).
Proof. by intros w. Qed.

Lemma does_mono {A} (P P' : Tables -> A -> Tables -> Prop) (p : Call A) :
  does P p -> (forall t a t', P t a t' -> P' t a t') -> does P' p.
Proof. intros Hp HP w. eapply ends_mono; [apply Hp|]. intros [a|e] w' Ha; [by apply HP | done]. Qed.

(** A call after which an error may be looked at, the tables being as they
    were. *)
Lemma does_look {A B} (P : Tables -> A -> Prop) (R : Tables -> B -> Tables -> Prop) f (g : World -> result SqlErr A)
    (k : result GoErr A -> Call B) :
  (forall w a, g w = Ok a -> P (tables w) a) ->
  (forall a, does (fun t b t' => P t a -> R t b t') (k (Ok a))) ->
  (forall e, does R (k (Err e))) ->
  does R (bind (stmt f (fun w => (g w, w))) k).
Proof.
  intros Hg Ho He w.
  eapply (ends_seq (fun x w' => tables w' = tables w /\ match x with Ok a => P (tables w) a | Err _ => True end)).
  - apply ends_stmt; [|done|done]. intros fs. split; [done|]. cbn.
    destruct (g (set_faults fs w)) as [a|e] eqn:E; [exact (Hg _ _ E) | done].
  - intros [a|e] w' [Et Hx]; rewrite <- Et; [|apply He].
    eapply ends_mono; [apply Ho|]. rewrite Et. intros [b|e] w2 Hb; [by apply Hb | done].
Qed.

(** ** The steps of a merge *)

Lemma does_hostGet id sf : does (fun t x t' => t' = t /\ tbHosts t !! id = Some x.1 /\ inScope sf (hTenancy x.1) = true)
  (hostGetByID id sf).
Proof.
  apply does_stmt. intros w [h a] w' E. unfold GetHostByID in E. injection E as E <-. cbn.
  destruct (hosts w !! id) as [x|]; cbn in *; [|done]. destruct (inScope sf (hTenancy x)) eqn:Es; [|done].
  cbn in E. by simplify_eq.
Qed.

Lemma does_hostDelete id sf : does (fun t (_ : unit) t' =>
    t' = mkTables (delete id (tbHosts t)) (delete id (tbAgents t))
           (deleteWhere (fun _ j => colEq (jTargetHostID j) id) (tbTokens t))) (hostDelete id sf).
Proof.
  apply (does_bind (fun t _ t' => t' = mkTables (delete id (tbHosts t)) (delete id (tbAgents t))
           (deleteWhere (fun _ j => colEq (jTargetHostID j) id) (tbTokens t)))); [|intros t T; by apply does_tell].
  apply does_stmt. intros w T w' E.
  unfold DeleteHost in E. repeat case_match; simplify_eq. done.
Qed.

Lemma does_UpdateFacts id f : does (fun t (_ : unit) t' => exists x, tbHosts t !! id = Some x
    /\ t' = mkTables (<[id := withFacts f x]> (tbHosts t)) (tbAgents t) (tbTokens t)) (agentHostUpdateFacts id f).
Proof.
  eapply (does_bind (fun t n t' => n = 0 \/ exists x, tbHosts t !! id = Some x
    /\ t' = mkTables (<[id := withFacts f x]> (tbHosts t)) (tbAgents t) (tbTokens t))).
  - apply does_stmt. intros w n w' E. unfold UpdateAgentHostFacts in E. destruct (hosts w !! id) as [x|] eqn:Hx.
    + destruct (negb _); [done|]. injection E as <- <-. right. by exists x.
    + injection E as <- <-. by left.
  - intros t n. unfold affected. destruct (Z.eqb_spec n 0); [apply does_err|].
    apply does_tell. intros t' [Hn|Hn]; [done | exact Hn].
Qed.

Lemma does_Move a b : a <> b -> does (fun t (_ : unit) t' => exists x, tbAgents t !! a = Some x
    /\ t' = mkTables (tbHosts t) (<[b := x]> (delete a (delete b (tbAgents t)))) (tbTokens t)) (MoveBinding a b).
Proof.
  intros Hab. apply (does_bind (fun t _ t' => exists x, tbAgents t !! a = Some x
    /\ t' = mkTables (tbHosts t) (<[b := x]> (delete a (delete b (tbAgents t)))) (tbTokens t)));
    [|intros t []; apply (does_bind (fun t _ t' => t' = t)); [by apply does_tell|];
    intros t' []; apply does_tell; intros t2 -> Ht; exact Ht].
  intros w. apply ends_atom. destruct (popFault w) as [[] w1] eqn:E1; [|done|done].
  apply agree_popFault in E1 as [A1 A2 A3 _ _ _]. unfold moveTx, txBind, txStmt.
  destruct (popFault w1) as [[] w2] eqn:E2; [|done|done]. apply agree_popFault in E2 as [B1 B2 B3 _ _ _].
  cbn. set (w3 := set_agents _ w2). destruct (popFault w3) as [[] w4] eqn:E4; [|done|done].
  apply agree_popFault in E4 as [C1 C2 C3 _ _ _]. unfold MoveHostAgentBinding.
  destruct (agents w4 !! a) as [x|] eqn:Hx; [|done]. destruct (bool_decide _); [done|]. destruct (negb _); [done|].
  cbn. assert (Ht : forall w5, tables w5 = mkTables (hosts w4) (<[b := x]> (delete a (agents w4))) (tokens w4) ->
    exists y, tbAgents (tables w) !! a = Some y /\
      tables w5 = mkTables (tbHosts (tables w)) (<[b := y]> (delete a (delete b (tbAgents (tables w))))) (tbTokens (tables w))).
  { intros w5 ->. exists x. rewrite C2 in Hx |- *. subst w3. cbn in *. rewrite lookup_delete_ne in Hx by done.
    rewrite <- A2, <- B2, <- A1, <- B1, <- A3, <- B3. cbn in C1, C3. by rewrite C1, C3. }
  unfold popFault. cbn. destruct (faults w4) as [|[] fs]; try done; by apply Ht.
Qed.

(** ** The merge *)

(** The source's agent, if any, now answers for the target. *)
Definition moved (s t : Z) (hs : Host) (tb : Tables) (m : bool) (tb' : Tables) : Prop :=
  match tbAgents tb !! s with
  | Some a => m = true /\ exists ht, tbHosts tb !! t = Some ht
      /\ tb' = mkTables (<[t := withFacts (hFacts hs) ht]> (tbHosts tb))
                (<[t := a]> (delete s (delete t (tbAgents tb)))) (tbTokens tb)
  | None => m = false /\ tb' = tb
  end.

(** What a look at the agent of a host says. *)
Definition looked (h : Z) (tb : Tables) (x : result GoErr (Z * HostAgent)) : Prop :=
  match x with
  | Ok y => tbAgents tb !! h = Some y.2
  | Err e => e = wrap ErrConn \/ (e = tagged IamStore.ErrNotFound /\ tbAgents tb !! h = None)
  end.

Lemma ends_look h w : ends (fun x w' => tables w' = tables w /\ looked h (tables w) x) (GetByHostID h) w.
Proof.
  apply ends_stmt; [|intros fs; split; [done | by left]..].
  intros fs. split; [done|]. unfold looked, tables. cbn. destruct (agents w !! h); cbn; [done | by right].
Qed.

Lemma does_carry s t hs : s <> t ->
  does (fun tb m tb' => is_Some (tbAgents tb !! s) /\ moved s t hs tb m tb')
    (_ <-? domain (MoveBinding s t) ;; _ <-? domain (agentHostUpdateFacts t (hFacts hs)) ;; ok true).
Proof.
  intros Hst. eapply does_bind; [by apply does_domain, does_Move|]. intros tb [].
  eapply does_bind; [apply does_domain, does_UpdateFacts|]. intros tb1 [].
  apply does_ok. intros tb2 (ht & Hh & ->) (a & Ha & ->). cbn in Hh. unfold moved. rewrite Ha.
  split; [by eexists|]. split; [done|]. by exists ht.
Qed.

Lemma does_moveAgent s t hs : s <> t -> does (moved s t hs) (moveAgent s t hs).
Proof.
  intros Hst w. unfold moveAgent. eapply ends_seq; [apply ends_look|]. intros [y|e] w' [<- Hx]; cbn in Hx.
  - eapply ends_mono; [by apply does_carry|]. by intros [m|e] w2 Hm; [destruct Hm|].
  - destruct Hx as [->|[-> Hn]]; [done|]. cbn. unfold moved, ends. cbn. cbn in Hn. by rewrite Hn.
Qed.

Lemma does_noLive t : does (fun tb (_ : unit) tb' => tb' = tb /\
    match tbAgents tb !! t with Some a => aStatus a <> "online" | None => True end) (noLiveAgent t).
Proof.
  intros w. unfold noLiveAgent. eapply ends_seq; [apply ends_look|]. intros [[h a]|e] w' [<- Hx]; cbn in Hx.
  - destruct (String.eqb_spec (aStatus a) "online"); [done|]. apply ends_ret. cbn. by rewrite Hx.
  - destruct Hx as [->|[-> Hn]]; [done|]. cbn. unfold ends. cbn. cbn in Hn. by rewrite Hn.
Qed.

Lemma sameTenancy_eq T T' : sameTenancy T T' = true -> T = T'.
Proof.
  unfold sameTenancy. intros [[E1%String.eqb_eq E2%bool_decide_eq_true]%andb_true_iff E3%bool_decide_eq_true]%andb_true_iff.
  destruct T, T'. cbn in *. congruence.
Qed.

(** What a merge of host [s] into host [t] leaves. *)
Definition merged (sf : Filter) (s t : Z) (m : bool) (tb tb' : Tables) : Prop :=
  exists hs ht, tbHosts tb !! s = Some hs /\ tbHosts tb !! t = Some ht
  /\ inScope sf (hTenancy hs) = true /\ inScope sf (hTenancy ht) = true /\ hTenancy hs = hTenancy ht
  /\ match tbAgents tb !! t with Some a => aStatus a <> "online" | None => True end
  /\ tbTokens tb' = deleteWhere (fun _ j => colEq (jTargetHostID j) s) (tbTokens tb)
  /\ match tbAgents tb !! s with
     | Some a => m = true
         /\ tbHosts tb' = delete s (<[t := withFacts (hFacts hs) ht]> (tbHosts tb))
         /\ tbAgents tb' = <[t := a]> (delete s (tbAgents tb))
     | None => m = false /\ tbHosts tb' = delete s (tbHosts tb) /\ tbAgents tb' = tbAgents tb
     end.

Lemma does_merge ctx src s : ParseInt src 64 = Some s ->
  does (fun tb r tb' => 0 < s /\ s <> Serve.cID ctx /\ mrHostID r = FormatInt (Serve.cID ctx)
          /\ merged (scopeFilter ctx) s (Serve.cID ctx) (mrAgentMoved r) tb tb')
    (host_merge ctx src).
Proof.
  intros Hs. unfold host_merge. rewrite Hs. destruct (Z.leb_spec s 0); [apply does_err|].
  destruct (Z.eqb_spec s (Serve.cID ctx)) as [|Hst]; [apply does_err|]. cbn zeta.
  eapply does_bind; [apply does_domain, does_hostGet|]. intros tb0 tgt.
  eapply does_bind; [apply does_domain, does_hostGet|]. intros tb1 sr.
  destruct (sameTenancy _ _) eqn:Et; [|apply does_err]. apply sameTenancy_eq in Et. cbn [negb].
  eapply does_bind; [apply does_noLive|]. intros tb2 [].
  eapply does_bind; [by apply does_moveAgent|]. intros tb3 m.
  eapply does_bind; [apply does_domain, does_hostDelete|]. intros tb4 [].
  apply does_ok. intros tb5 -> Hm [-> Hl] (-> & Hsr & Is) (-> & Htg & It).
  split_and!; try done. exists sr.1, tgt.1. cbn [mrAgentMoved]. unfold moved in Hm. cbn.
  destruct (tbAgents tb0 !! s) as [a|] eqn:Ha.
  - destruct Hm as [-> (ht & Hht & ->)]. rewrite Hht in Htg. simplify_eq. cbn. split_and!; try done.
    rewrite delete_insert_ne by done. rewrite delete_delete_eq. by rewrite delete_delete, insert_delete_eq.
  - destruct Hm as [-> ->]. split_and!; try done. by rewrite delete_id.
Qed.

(** A credential of an agent that moved from [s] to [t] is one of [t]. *)
Lemma authAgent_moved hmac un key parse w w' s t auth claims row a :
  WF w' -> agents w !! s = Some a -> agents w' !! t = Some a ->
  Tok.authAgent hmac un key (storeGet parse w) auth = Ok (claims, (s, row)) ->
  Tok.authAgent hmac un key (storeGet parse w') auth = Ok (claims, (t, row)).
Proof.
  intros W' Ha Ha'. unfold Tok.authAgent. destruct (Tok.bearerToken auth); [|done].
  destruct (Tok.agentParse _ _ _ _) as [cl|]; [|done]. unfold storeGet.
  destruct (parse (Tok.acAgentID cl)) as [u|]; [|done].
  destruct (byAgentID u w) as [[h x]|] eqn:E; [|done]. apply byAgentID_Some in E as [Hx <-].
  cbn. destruct (negb _) eqn:Ev; [done|]. intros [= -> -> <-]. rewrite Ha in Hx. simplify_eq.
  rewrite (byAgentID_bound w' t x W' Ha'). cbn. by rewrite Ev.
Qed.

(** C16: A merge that is answered with success has folded the duplicate into
    the record it duplicates, and nothing else: both records were visible
    in the caller's scope, had the same tenancy, and the survivor had no
    live agent; the duplicate's record and the join tokens bound to it are
    gone; the survivor keeps its name and tenancy and, if the duplicate had
    an agent, takes over that agent and the facts it reported. Every
    credential that authenticated as the duplicate's agent before now
    authenticates, unchanged, as the survivor's. *)
Theorem merge_moves_machine
    (hmac : list Z -> list Z -> list Z) (unmarshalAgent : list Z -> option Tok.AgentClaims) (key : list Z)
    (uuidParse : string -> option string) (ctx : Ctx) (src : string) (w w' : World) (r : MergeResponse) :
  WF w -> run (host_merge ctx src) w = (Some (Ok r), w') ->
  exists s, ParseInt src 64 = Some s /\ s <> Serve.cID ctx
  /\ merged (scopeFilter ctx) s (Serve.cID ctx) (mrAgentMoved r) (tables w) (tables w')
  /\ forall auth claims row,
       Tok.authAgent hmac unmarshalAgent key (storeGet uuidParse w) auth = Ok (claims, (s, row)) ->
       Tok.authAgent hmac unmarshalAgent key (storeGet uuidParse w') auth = Ok (claims, (Serve.cID ctx, row)).
Proof.
  intros W Hr. destruct (ParseInt src 64) as [s|] eqn:Es.
  2: { unfold host_merge in Hr. rewrite Es in Hr. discriminate Hr. }
  pose proof (does_merge ctx src s Es w) as Hm. unfold ends in Hm. rewrite Hr in Hm. destruct Hm as (_ & Hst & _ & Hm).
  destruct (run_safe (fun (_ : unit) w => WF w) _ tt tt _ w
    (neutral_host_merge (fun _ w => WF w) ctx src tt) W) as [[] W']. rewrite Hr in W'. cbn [snd] in W'.
  exists s. split_and!; [done|done|done|]. intros auth claims row Hau.
  destruct Hm as (hs & ht & _ & _ & _ & _ & _ & _ & _ & Hm). cbn in Hm.
  destruct (agents w !! s) as [a|] eqn:Ha.
  - destruct Hm as (_ & _ & Ea). eapply authAgent_moved; [exact W' | exact Ha | | exact Hau].
    rewrite Ea. apply lookup_insert_eq.
  - exfalso. unfold Tok.authAgent in Hau. destruct (Tok.bearerToken auth); [|done].
    destruct (Tok.agentParse _ _ _ _) as [cl|]; [|done]. unfold storeGet in Hau.
    destruct (uuidParse _) as [u|]; [|done]. destruct (byAgentID u w) as [[h x]|] eqn:E; [|done].
    apply byAgentID_Some in E as [Hx _]. cbn in Hau. destruct (negb _); [done|]. injection Hau as _ -> _. congruence.
Qed.

(** The small fleet after a registration, with a record of the same machine
    made by hand: host 1 is the duplicate, host 2 the record. *)
Definition mergeCtx : Ctx :=
  {| Serve.cUserID := 1; Serve.cUsername := "admin";
     Serve.cScope := {| Api.Level := 1; Api.WorkspaceID := 1; Api.NamespaceID := 0 |};
     Serve.cID := 2; Serve.cName := ""; Serve.cParents := []; Serve.cDryRun := false; Serve.cAccess := None |}.
Definition mergeWorld : World :=
  (run (host_create (fun _ => true) mergeCtx None (mkHostBody "by-hand" "" "" "" 0)) (demoRun demoWorld).2).2.

Lemma mergeWorld_WF : WF mergeWorld.
Proof.
  destruct (run_safe (fun (_ : unit) w => WF w) _ _ tt _ demoWorld
    (safe_register bytesOf demoParse demoDraw demoDecode demoHmac demoMarshal [] demoCall) demoWorld_WF) as [[] W].
  destruct (run_safe (fun (_ : unit) w => WF w) _ tt tt _ _
    (neutral_host_create (fun _ w => WF w) (fun _ => true) mergeCtx None (mkHostBody "by-hand" "" "" "" 0) tt) W) as [[] W'].
  exact W'.
Qed.

Lemma merge_moves_machine_witness :
  exists r w', run (host_merge mergeCtx "1") mergeWorld = (Some (Ok r), w') /\ mrAgentMoved r = true
  /\ exists s, ParseInt "1" 64 = Some s /\ merged (scopeFilter mergeCtx) s 2 (mrAgentMoved r) (tables mergeWorld) (tables w').
Proof.
  do 2 eexists. split; [vm_compute; reflexivity|]. split; [vm_compute; reflexivity|].
  destruct (merge_moves_machine demoHmac demoUnmarshal [] demoParse mergeCtx "1" mergeWorld _ _ mergeWorld_WF
    (ltac:(vm_compute; reflexivity))) as (s & Hs & _ & Hm & _).
  exists s. split; [exact Hs | exact Hm].
Defined.

End FleetMerge.
