(* ===== verification/FleetNames.v ===== *)
(** * The names given to agent hosts

    A host row created for an agent is named after the reported hostname,
    which may be anything; whatever it is, the name and its fallbacks obey
    the rule the API imposes on names given by hand. *)

From stdpp Require Import sorting.
From S2P Require Import Prelude ListQuery IamValidation OidcStore Atomic FleetDb FleetStore FleetHosts.

Module FleetNames.
Import IamValidation.
Import FleetHosts.

Lemma allChars_app p a b : allChars p (a +++ b) = allChars p a && allChars p b.
Proof. induction a as [|c a IH]; cbn; [done|]. by rewrite IH, andb_assoc. Qed.

(** ** Bounded repetition of a character class *)

Lemma matches_RRep p n s : allChars p s = true -> String.length s = n -> matches (RRep n (RChar p)) s.
Proof.
  revert s. induction n as [|n IH]; intros [|c s] Ha Hl; cbn in *; try done; [constructor|].
  apply andb_true_iff in Ha as [Hc Ha]. apply matches_seq. exists (String c ""), s.
  split; [done|]. split; [by apply matches_char; exists c | apply IH; [done | lia]].
Qed.

Lemma matches_RUpTo p n s : allChars p s = true -> (String.length s <= n)%nat -> matches (RUpTo n (RChar p)) s.
Proof.
  revert s. induction n as [|n IH]; intros [|c s] Ha Hl; cbn in *; try (constructor; fail); [lia| |].
  - apply matches_alt. left. constructor.
  - apply andb_true_iff in Ha as [Hc Ha]. apply matches_alt. right. apply matches_seq. exists (String c ""), s.
    split; [done|]. split; [by apply matches_char; exists c | apply IH; [done | lia]].
Qed.

Lemma matches_RBetween p m n s : allChars p s = true -> (m <= String.length s <= n)%nat ->
  matches (RBetween m n (RChar p)) s.
Proof.
  intros Ha Hl. unfold RBetween. apply matches_seq. exists (str_take m s), (str_drop m s).
  assert (E := str_take_drop m s). rewrite <- E in Ha. rewrite allChars_app in Ha. apply andb_true_iff in Ha as [H1 H2].
  assert (Lt : String.length (str_take m s) = m).
  { clear -Hl. destruct Hl as [Hl _]. revert s Hl. induction m as [|m IH]; intros [|c s] Hl; cbn in *; try done; [lia|].
    rewrite IH; [done|lia]. }
  assert (Ls := length_app_s (str_take m s) (str_drop m s)). rewrite E, Lt in Ls.
  split; [done|]. split; [by apply matches_RRep | apply matches_RUpTo; [done | lia]].
Qed.

(** ** Names *)

Definition firstOk (s : string) : bool := match s with String c _ => alnum c | EmptyString => false end.
Fixpoint lastOk (s : string) : bool :=
  match s with
  | EmptyString => false
  | String c EmptyString => alnum c
  | String _ s' => lastOk s'
  end.

Lemma lastOk_split s : lastOk s = true -> exists m b, s = m +++ String b "" /\ alnum b = true.
Proof.
  induction s as [|c s IH]; [done|]. destruct s as [|d s].
  - cbn. intros Hc. by exists "", c.
  - intros Hl. destruct (IH Hl) as (m & b & E & Hb). exists (String c m), b. by rewrite E.
Qed.

(** The names [nameRegexp] describes, from three characters on. *)
Lemma nameRegexp_ok s : allChars wordDash s = true -> firstOk s = true -> lastOk s = true ->
  (3 <= String.length s <= 50)%nat -> MatchString nameRegexp s = true.
Proof.
  intros Ha Hf Hl Hn. destruct s as [|a s]; [done|]. cbn in Ha, Hf.
  apply andb_true_iff in Ha as [_ Ha]. assert (Hs : lastOk s = true) by (destruct s; [cbn in Hn; lia | done]).
  destruct (lastOk_split s Hs) as (m & b & -> & Hb).
  rewrite allChars_app in Ha. apply andb_true_iff in Ha as [Hm _]. cbn in Hn. rewrite length_app_s in Hn. cbn in Hn.
  apply MatchString_spec, matches_seq. exists (String a ""), (m +++ String b ""). split; [done|].
  split; [by apply matches_char; exists a|]. apply matches_alt. right. apply matches_seq. exists m, (String b "").
  split; [done|]. split; [apply matches_RBetween; [done|lia] | by apply matches_char; exists b].
Qed.

Lemma edge_alnum c : wordDash c = true -> edge c = false -> alnum c = true.
Proof. destruct c as [[] [] [] [] [] [] [] []]; vm_compute; congruence. Qed.

Lemma allChars_replaceInvalid b s : allChars wordDash (replaceInvalid b s) = true.
Proof.
  revert b. induction s as [|c s IH]; intros b; cbn; [done|]. destruct (wordDash c) eqn:E; cbn; [by rewrite E, IH|].
  destruct b; cbn; apply IH.
Qed.

Lemma allChars_trimLeft p s : allChars p s = true -> allChars p (trimLeft s) = true.
Proof. induction s as [|c s IH]; cbn; [done|]. intros Ha. destruct (edge c); [|done]. apply andb_true_iff in Ha as [_ Ha]. auto. Qed.

Lemma allChars_trimRight p s : allChars p s = true -> allChars p (trimRight s) = true.
Proof.
  induction s as [|c s IH]; cbn; [done|]. intros [Hc Ha]%andb_true_iff. specialize (IH Ha).
  destruct (trimRight s) eqn:E; [destruct (edge c); cbn; [done | by rewrite Hc]|]. cbn in *. by rewrite Hc.
Qed.

Lemma firstOk_trimLeft s : allChars wordDash s = true -> trimLeft s <> "" -> firstOk (trimLeft s) = true.
Proof.
  induction s as [|c s IH]; cbn; [done|]. intros [Hc Ha]%andb_true_iff Hn. destruct (edge c) eqn:E; [auto|].
  by apply edge_alnum.
Qed.

Lemma trimRight_first s : firstOk s = true -> firstOk (trimRight s) = true.
Proof.
  destruct s as [|c s]; [done|]. cbn. intros Hc. destruct (trimRight s); [|done].
  destruct (edge c) eqn:E; [|done]. exfalso. revert Hc E. clear. destruct c as [[] [] [] [] [] [] [] []]; vm_compute; congruence.
Qed.

Lemma trimRight_last s : allChars wordDash s = true -> trimRight s <> "" -> lastOk (trimRight s) = true.
Proof.
  induction s as [|c s IH]; [done|]. cbn [allChars trimRight]. intros [Hc Ha]%andb_true_iff Hn. specialize (IH Ha).
  destruct (trimRight s) eqn:E.
  - destruct (edge c) eqn:Ec; [done|]. by apply edge_alnum.
  - cbn. by apply IH.
Qed.

Lemma trimLeft_empty s : trimRight (trimLeft s) <> "" -> trimLeft s <> "".
Proof. intros Hn E. by rewrite E in Hn. Qed.

(** Between three and [n] characters, alphanumeric at both ends. *)
Definition named (n : nat) (s : string) : Prop :=
  allChars wordDash s = true /\ firstOk s = true /\ lastOk s = true /\ (3 <= String.length s <= n)%nat.

Lemma length_trim s : (String.length (TrimEdges s) <= String.length s)%nat.
Proof.
  unfold TrimEdges. transitivity (String.length (trimLeft s)).
  - generalize (trimLeft s). induction s0 as [|c s0 IH]; cbn; [done|]. destruct (trimRight s0); [destruct (edge c); cbn; lia|].
    cbn in *. lia.
  - induction s as [|c s IH]; cbn; [done|]. destruct (edge c); cbn; lia.
Qed.

Lemma allChars_trim p s : allChars p s = true -> allChars p (TrimEdges s) = true.
Proof. intros Ha. by apply allChars_trimRight, allChars_trimLeft. Qed.

Lemma trim_named n s : allChars wordDash s = true -> (3 <= String.length (TrimEdges s) <= n)%nat -> named n (TrimEdges s).
Proof.
  intros Ha Hl. assert (Hn : TrimEdges s <> "") by (intros E; rewrite E in Hl; cbn in Hl; lia). unfold TrimEdges in *.
  split; [by apply allChars_trim|]. split; [apply trimRight_first, firstOk_trimLeft; [done | by apply trimLeft_empty]|].
  split; [|done]. apply trimRight_last; [by apply allChars_trimLeft | done].
Qed.

Lemma named_le n m s : named n s -> (n <= m)%nat -> named m s.
Proof. intros (H1 & H2 & H3 & H4) Hm. split_and!; try done; lia. Qed.

Lemma allChars_take p n s : allChars p s = true -> allChars p (str_take n s) = true.
Proof.
  revert s. induction n as [|n IH]; intros [|c s]; cbn; try done. intros [Hc Ha]%andb_true_iff. by rewrite Hc, IH.
Qed.

Lemma agentHostName_named h : named 37 (agentHostName h).
Proof.
  unfold agentHostName. set (x := TrimEdges (replaceInvalid _ _)).
  assert (Ha : allChars wordDash x = true) by apply allChars_trim, allChars_replaceInvalid.
  assert (Hd : named 37 "agent-host") by (by split_and!; [vm_compute..|cbn; lia|cbn; lia]).
  destruct (37 <? String.length x)%nat eqn:E.
  - set (y := str_take 37 x). destruct (String.length (TrimEdges y) <? 3)%nat eqn:E3; [done|].
    apply Nat.ltb_ge in E3. apply trim_named; [by apply allChars_take|]. split; [done|].
    etransitivity; [apply length_trim|]. unfold y. rewrite length_str_take. lia.
  - apply Nat.ltb_ge in E. destruct (String.length x <? 3)%nat eqn:E3; [done|]. apply Nat.ltb_ge in E3.
    apply trim_named; [apply allChars_replaceInvalid | done].
Qed.

(** ** Suffixes *)

Lemma hexDigit_alnum d : exists c, OStore.hexDigit d = String c "" /\ alnum c = true.
Proof. unfold OStore.hexDigit. generalize (Z.to_nat d). intros n. do 17 (destruct n as [|n]; [by eexists|]). by eexists. Qed.

Lemma alnum_wordDash c : alnum c = true -> wordDash c = true.
Proof. destruct c as [[] [] [] [] [] [] [] []]; vm_compute; congruence. Qed.

Lemma allChars_hex n v : allChars alnum (formatHex n v) = true.
Proof.
  assert (Hd : forall d, allChars alnum (OStore.hexDigit d) = true).
  { intros d. destruct (hexDigit_alnum d) as (c & -> & Hc). cbn. by rewrite Hc. }
  revert v. induction n as [|n IH]; intros v; [done|]. cbn [formatHex].
  destruct (v <? 16); [apply Hd|]. by rewrite allChars_app, IH, Hd.
Qed.

Lemma padZeros_ok k s : allChars alnum s = true ->
  allChars alnum (padZeros k s) = true /\ String.length (padZeros k s) = (k + String.length s)%nat.
Proof.
  intros Hs. induction k as [|k [IH1 IH2]]; cbn; [done|]. rewrite allChars_app, length_app_s, IH1, IH2. cbn. split; [done|lia].
Qed.

Lemma suffix_ok sha seed n : allChars alnum (NameSuffixForAgent sha seed n) = true
  /\ String.length (NameSuffixForAgent sha seed n) = n.
Proof.
  unfold NameSuffixForAgent. set (full := formatHex _ _). assert (Hf : allChars alnum full = true) by apply allChars_hex.
  destruct (padZeros_ok (n - String.length full) full Hf) as [H1 H2].
  split; [by apply allChars_take|]. rewrite length_str_take, H2. lia.
Qed.

Lemma lastOk_app a b : b <> "" -> lastOk (a +++ b) = lastOk b.
Proof. intros Hb. induction a as [|c a IH]; [done|]. cbn [String.append]. rewrite <- IH. cbn. destruct a, b; done. Qed.

Lemma lastOk_alnum s : allChars alnum s = true -> s <> "" -> lastOk s = true.
Proof.
  induction s as [|c s IH]; [done|]. intros [Hc Ha]%andb_true_iff _. destruct s as [|d s]; [done|]. by apply IH.
Qed.

Lemma allChars_impl (p q : ascii -> bool) s : (forall c, p c = true -> q c = true) -> allChars p s = true -> allChars q s = true.
Proof. intros Hpq. induction s as [|c s IH]; [done|]. cbn. intros [Hc Ha]%andb_true_iff. by rewrite Hpq, IH. Qed.

Lemma suffixed_named base suf n : named 37 base -> allChars alnum suf = true -> String.length suf = n ->
  (0 < n <= 12)%nat -> named 50 (base +++ "-" +++ suf).
Proof.
  intros (H1 & H2 & H3 & H4) Ha Hl Hn. assert (Hs : suf <> "") by (intros ->; cbn in Hl; lia).
  split; [|split; [|split]].
  - rewrite allChars_app, H1. cbn. exact (allChars_impl alnum wordDash suf alnum_wordDash Ha).
  - by destruct base.
  - rewrite lastOk_app by done. rewrite (lastOk_app "-" suf Hs). by apply lastOk_alnum.
  - rewrite length_app_s. cbn. lia.
Qed.

(** Whatever hostname a machine reports, empty, hostile or enormous,
    each of the three names the registrar tries for its host row passes the
    check the API applies to names given by hand, and is between 3 and 50
    characters long. *)
Lemma agent_host_names_valid (sha256 : string -> list Z) (hostname nameSeed : string) :
  Forall (fun name => MatchString nameRegexp name = true /\ (3 <= String.length name <= 50)%nat)
    (agentHostNameCandidates sha256 (agentHostName hostname) nameSeed).
Proof.
  assert (Hok : forall n s, named n s -> (n <= 50)%nat ->
    MatchString nameRegexp s = true /\ (3 <= String.length s <= 50)%nat).
  { intros n s (H1 & H2 & H3 & H4) Hn. split; [apply nameRegexp_ok; (done || lia) | lia]. }
  pose proof (agentHostName_named hostname) as Hb.
  assert (Hs : forall n, (0 < n <= 12)%nat ->
    let name := agentHostName hostname +++ "-" +++ NameSuffixForAgent sha256 nameSeed n in
    MatchString nameRegexp name = true /\ (3 <= String.length name <= 50)%nat).
  { intros n Hn. destruct (suffix_ok sha256 nameSeed n) as [Ha Hl]. apply (Hok 50%nat); [|lia]. by eapply suffixed_named. }
  apply Forall_cons. split; [apply (Hok 37%nat); [done | lia]|].
  apply Forall_cons. split; [apply Hs; lia|]. apply Forall_singleton, Hs. lia.
Qed.

End FleetNames.
