(* ===== verification/DataHub.v ===== *)
(** * The data-channel broker

    [DataHub] of [pkg/apis/agentgw/datachannel.go]: the sessions this
    instance has accepted, one per host, the openers parked until a host
    dials in, and the stream handshake. Every locked section is one atomic
    action; waking a waiter, closing a session and every network call are
    actions of their own. What the network and the context do is read from
    [fate], one answer after the other. *)

From stdpp Require Import gmultiset.
From S2P Require Import Prelude AgentRegistry Atomic.

Module DataHub.
Import Atomic.

(** How a parked opener stops waiting, when both are possible. *)
Inductive Wakeup := PreferReady | PreferTimeout | PreferCancel.

(** What the agent answers to a stream header. *)
Inductive Handshake :=
| Accepted
| RejectedBy (code message : string)
| WriteFailed
| ReadFailed
| ContextEnded.

(** Why [ChannelRouter.Send] did not deliver the frame: no channel here, or
    the write failed. *)
Inductive Trouble := Missed (e : Reg.sendErr) | WriteBroken.

Record Fate := mkFate {
  ftUpgrade : bool;        (** [yamux.Client] succeeds *)
  ftSend : option Trouble; (** the control channel takes the frame, or not *)
  ftWakeup : Wakeup;
  ftOpen : bool;           (** [sess.OpenStream] succeeds on a live session *)
  ftAnswer : Handshake;
  ftCtxDone : bool
}.

(** Sessions and ready channels are named by the order they are made in. *)
Record Hub := mkHub {
  sessions : gmap Z nat;
  waiters : gmap Z (list nat);
  closedChans : gset nat;
  closedSess : gset nat;
  madeChans : nat;
  madeSess : nat;
  owner : gmap nat Z;          (** the host a session was accepted from *)
  opened : list (Z * nat);     (** the streams opened so far *)
  drawn : nat
}.

Definition NewDataHub : Hub := mkHub ∅ ∅ ∅ ∅ 0 0 ∅ [] 0.

Definition set_sessions (x : gmap Z nat) (w : Hub) : Hub :=
  mkHub x (waiters w) (closedChans w) (closedSess w) (madeChans w) (madeSess w) (owner w) (opened w) (drawn w).
Definition set_waiters (x : gmap Z (list nat)) (w : Hub) : Hub :=
  mkHub (sessions w) x (closedChans w) (closedSess w) (madeChans w) (madeSess w) (owner w) (opened w) (drawn w).

Definition waiting (h : Z) (w : Hub) : list nat := default [] (waiters w !! h).

Inductive OpenError :=
| ErrTrigger (why : Trouble) | ErrClosedBeforeUse | ErrDialTimeout | ErrContext
| ErrOpenStream | ErrWriteHeader | ErrReadAccept | StreamRejected (code message : string).

(** [close] of a channel that is closed panics. *)
Inductive Outcome :=
| Stream (sess : nat)
| Failed (e : OpenError)
| Served
| Crashed.

(** An empty list is not kept in the map. *)
Definition put_waiting (h : Z) (l : list nat) (w : Hub) : Hub :=
  set_waiters (match l with [] => delete h (waiters w) | _ => <[h := l]> (waiters w) end) w.

Fixpoint removeFirst (ch : nat) (l : list nat) : list nat :=
  match l with
  | [] => []
  | x :: l' => if Nat.eqb x ch then l' else x :: removeFirst ch l'
  end.

Section Hub.
Context (fate : nat -> Fate).

Definition draw : Proc Hub Fate :=
  atom (fun w => (fate (drawn w),
    mkHub (sessions w) (waiters w) (closedChans w) (closedSess w) (madeChans w) (madeSess w) (owner w)
      (opened w) (S (drawn w)))).

(** ** Sessions *)

Definition newSession (hostID : Z) : Proc Hub nat :=
  atom (fun w => (madeSess w,
    mkHub (sessions w) (waiters w) (closedChans w) (closedSess w) (madeChans w) (S (madeSess w))
      (<[madeSess w := hostID]> (owner w)) (opened w) (drawn w))).

(** [sess.Close]: closing twice is harmless. *)
Definition closeSession (s : nat) : Proc Hub unit :=
  atom (fun w => (tt,
    mkHub (sessions w) (waiters w) (closedChans w) ({[s]} ∪ closedSess w) (madeChans w) (madeSess w) (owner w)
      (opened w) (drawn w))).

Definition isClosed (s : nat) : Proc Hub bool := atom (fun w => (bool_decide (s ∈ closedSess w), w)).

(** [close(ch)]: whether it panicked. *)
Definition closeChan (ch : nat) : Proc Hub bool :=
  atom (fun w => (bool_decide (ch ∈ closedChans w),
    mkHub (sessions w) (waiters w) ({[ch]} ∪ closedChans w) (closedSess w) (madeChans w) (madeSess w) (owner w)
      (opened w) (drawn w))).

Fixpoint closeAll (chs : list nat) (k : Proc Hub Outcome) : Proc Hub Outcome :=
  match chs with
  | [] => k
  | ch :: rest =>
      panicked <-~ closeChan ch ;;
      if panicked : bool then Ret Crashed else closeAll rest k
  end.

(** The locked half of [register]. *)
Definition install (hostID : Z) (s : nat) : Proc Hub (option nat * list nat) :=
  atom (fun w => ((sessions w !! hostID, waiting hostID w),
    set_sessions (<[hostID := s]> (sessions w)) (set_waiters (delete hostID (waiters w)) w))).

Definition register (hostID : Z) (s : nat) (k : Proc Hub Outcome) : Proc Hub Outcome :=
  pw <-~ install hostID s ;;
  _ <-~ match pw.1 with
        | Some prev => if Nat.eqb prev s then Ret tt else closeSession prev
        | None => Ret tt
        end ;;
  closeAll pw.2 k.

Definition unregister (hostID : Z) (s : nat) : Proc Hub unit :=
  atom (fun w => (tt, if bool_decide (sessions w !! hostID = Some s)
                      then set_sessions (delete hostID (sessions w)) w else w)).

(** [accept]: until the context ends or the session closes, then the
    deferred calls. *)
Definition accept (hostID : Z) : Proc Hub Outcome :=
  f <-~ draw ;;
  if negb (ftUpgrade f) then Ret Served
  else
    s <-~ newSession hostID ;;
    register hostID s
      (_ <-~ unregister hostID s ;;
       _ <-~ closeSession s ;;
       Ret Served).

(** ** Streams *)

(** Check and park under one lock: the session, or the channel to wait on. *)
Definition checkOrPark (hostID : Z) : Proc Hub (nat + nat) :=
  atom (fun w => match sessions w !! hostID with
                 | Some s => (inl s, w)
                 | None =>
                     (inr (madeChans w),
                      mkHub (sessions w) (<[hostID := waiting hostID w ++ [madeChans w]]> (waiters w))
                        (closedChans w) (closedSess w) (S (madeChans w)) (madeSess w) (owner w) (opened w) (drawn w))
                 end).

Definition cancelWaiter (hostID : Z) (ch : nat) : Proc Hub unit :=
  atom (fun w => (tt, put_waiting hostID (removeFirst ch (waiting hostID w)) w)).

Definition get (hostID : Z) : Proc Hub (option nat) := atom (fun w => (sessions w !! hostID, w)).

Definition isReady (ch : nat) : Proc Hub bool := atom (fun w => (bool_decide (ch ∈ closedChans w), w)).

(** The select: the schedule decides when it fires; if the channel is not
    closed by then, it was the timer or the context. *)
Definition park (hostID : Z) (ch : nat) : Proc Hub (result OpenError nat) :=
  f <-~ draw ;;
  ready <-~ isReady ch ;;
  match ready, ftWakeup f with
  | true, PreferReady =>
      s <-~ get hostID ;;
      Ret (match s with Some s => Ok s | None => Err ErrClosedBeforeUse end)
  | _, PreferCancel => Ret (Err ErrContext)
  | _, _ => Ret (Err ErrDialTimeout)
  end.

Definition await (hostID : Z) : Proc Hub (result OpenError nat) :=
  c <-~ checkOrPark hostID ;;
  match c with
  | inl s => Ret (Ok s)
  | inr ch =>
      f <-~ draw ;;
      r <-~ match ftSend f with Some why => Ret (Err (ErrTrigger why)) | None => park hostID ch end ;;
      _ <-~ cancelWaiter hostID ch ;;
      Ret r
  end.

(** [sess.OpenStream] fails on a closed session, and may fail on any. *)
Definition yamuxOpen (hostID : Z) (s : nat) (ok : bool) : Proc Hub bool :=
  atom (fun w => (ok && negb (bool_decide (s ∈ closedSess w)), w)).

Definition noteStream (hostID : Z) (s : nat) : Proc Hub unit :=
  atom (fun w => (tt,
    mkHub (sessions w) (waiters w) (closedChans w) (closedSess w) (madeChans w) (madeSess w) (owner w)
      (opened w ++ [(hostID, s)]) (drawn w))).

Definition openOn (hostID : Z) (s : nat) : Proc Hub (result OpenError nat) :=
  f <-~ draw ;;
  ok <-~ yamuxOpen hostID s (ftOpen f) ;;
  if negb ok then
    _ <-~ unregister hostID s ;;
    Ret (Err ErrOpenStream)
  else
    match ftAnswer f with
    | ContextEnded => Ret (Err ErrContext)
    | WriteFailed => Ret (Err ErrWriteHeader)
    | ReadFailed => Ret (Err ErrReadAccept)
    | RejectedBy c m => Ret (Err (StreamRejected c m))
    | Accepted =>
        _ <-~ noteStream hostID s ;;
        Ret (Ok s)
    end.

Definition isRejected (e : OpenError) : bool := match e with StreamRejected _ _ => true | _ => false end.

Definition answer (r : result OpenError nat) : Outcome :=
  match r with Ok s => Stream s | Err e => Failed e end.

(** [OpenStream], its single retry included. *)
Definition OpenStream (hostID : Z) : Proc Hub Outcome :=
  a <-~ await hostID ;;
  match a with
  | Err e => Ret (Failed e)
  | Ok s =>
      r <-~ openOn hostID s ;;
      match r with
      | Ok s => Ret (Stream s)
      | Err e =>
          if isRejected e then Ret (Failed e)
          else
            dead <-~ isClosed s ;;
            f <-~ draw ;;
            if negb dead || ftCtxDone f then Ret (Failed e)
            else
              _ <-~ unregister hostID s ;;
              a2 <-~ await hostID ;;
              match a2 with
              | Err e => Ret (Failed e)
              | Ok s2 => r2 <-~ openOn hostID s2 ;; Ret (answer r2)
              end
      end
  end.

(** ** Everything at once *)

Inductive Task := Accept (hostID : Z) | Open (hostID : Z).

Definition serve (t : Task) : Proc Hub Outcome :=
  match t with Accept h => accept h | Open h => OpenStream h end.

(** The peer or the keepalive may end a session at any time. *)
Definition dies (s : nat) (w : Hub) : Hub :=
  mkHub (sessions w) (waiters w) (closedChans w) ({[s]} ∪ closedSess w) (madeChans w) (madeSess w) (owner w)
    (opened w) (drawn w).

Inductive Move := Turn (i : nat) | Dies (s : nat).

Definition event (m : Move) : Event Hub :=
  match m with Turn i => Step i | Dies s => Env (dies s) end.

Definition history (ts : list Task) (ms : list Move) : list (Proc Hub Outcome) * Hub :=
  exec (event <$> ms) (serve <$> ts, NewDataHub).

End Hub.

(** ** The protocol

    A thread holds a token for every channel it is parked on, for every
    channel it is about to close, and for what it knows of a session. *)

Definition Tag : Type := (Z * nat) + (nat + Z * nat).
Definition Parked (h : Z) (ch : nat) : Tag := inl (h, ch).
Definition Pending (ch : nat) : Tag := inr (inl ch).
Definition From (h : Z) (s : nat) : Tag := inr (inr (h, s)).

Record Inv (K : gmultiset Tag) (w : Hub) : Prop := {
  i_parked h ch : (multiplicity (Parked h ch) K <= 1)%nat;
  i_pending ch : (multiplicity (Pending ch) K <= 1)%nat;
  i_parked_made h ch : (0 < multiplicity (Parked h ch) K)%nat -> (ch < madeChans w)%nat;
  i_pending_made ch : (0 < multiplicity (Pending ch) K)%nat -> (ch < madeChans w)%nat;
  i_closed_made ch : ch ∈ closedChans w -> (ch < madeChans w)%nat;
  i_waiting h ch : ch ∈ waiting h w ->
    multiplicity (Parked h ch) K = 1%nat /\ multiplicity (Pending ch) K = 0%nat /\ ch ∉ closedChans w;
  i_open ch : (0 < multiplicity (Pending ch) K)%nat -> ch ∉ closedChans w;
  i_nodup h : NoDup (waiting h w);
  i_apart h h' ch : ch ∈ waiting h w -> ch ∈ waiting h' w -> h = h';
  i_entry h : waiters w !! h <> Some [];
  i_down h s : sessions w !! h = Some s -> waiting h w = [];
  i_owner h s : sessions w !! h = Some s -> owner w !! s = Some h;
  i_from h s : (0 < multiplicity (From h s) K)%nat -> owner w !! s = Some h;
  i_sess s h : owner w !! s = Some h -> (s < madeSess w)%nat;
  i_opened h s : (h, s) ∈ opened w -> owner w !! s = Some h
}.

(** Worlds that differ only in closed sessions and draws. *)
Lemma Inv_same K w w' : sessions w' = sessions w -> waiters w' = waiters w -> closedChans w' = closedChans w ->
  madeChans w' = madeChans w -> madeSess w' = madeSess w -> owner w' = owner w -> opened w' = opened w ->
  Inv K w -> Inv K w'.
Proof.
  intros E1 E2 E3 E4 E5 E6 E7 []. unfold waiting in *.
  split; unfold waiting; rewrite ?E1, ?E2, ?E3, ?E4, ?E5, ?E6, ?E7; auto.
Qed.

Lemma Inv_empty : Inv ∅ NewDataHub.
Proof.
  split; intros *; unfold waiting; cbn;
    rewrite ?lookup_empty; rewrite ?multiplicity_empty; cbn; try done; try lia; try (intros; set_solver).
  constructor.
Qed.

(** ** What each action does to it *)

Lemma waiting_put h l h' w : waiting h' (put_waiting h l w) = if decide (h' = h) then l else waiting h' w.
Proof.
  unfold waiting, put_waiting. cbn. destruct l as [|x l]; case_decide as E; subst.
  - by rewrite lookup_delete_eq.
  - by rewrite lookup_delete_ne.
  - by rewrite lookup_insert_eq.
  - by rewrite lookup_insert_ne.
Qed.

Lemma waiting_delete h h' w : default [] (delete h (waiters w) !! h') = if decide (h' = h) then [] else waiting h' w.
Proof. case_decide as E; subst; [by rewrite lookup_delete_eq | by rewrite lookup_delete_ne]. Qed.

Lemma waiting_insert h l h' w a b c d e f g i :
  waiting h' (mkHub a (<[h := l]> (waiters w)) b c d e f g i) = if decide (h' = h) then l else waiting h' w.
Proof. unfold waiting. cbn. case_decide as E; subst; [by rewrite lookup_insert_eq | by rewrite lookup_insert_ne]. Qed.

(** Counting tokens. *)
Lemma count_other (x y : Tag) K : x <> y -> multiplicity x ({[+ y +]} ⊎ K) = multiplicity x K.
Proof. intros Hne. by rewrite multiplicity_disj_union, multiplicity_singleton_ne. Qed.

Lemma count_plus (x y : Tag) K : multiplicity x ({[+ y +]} ⊎ K) = ((if decide (x = y) then 1 else 0) + multiplicity x K)%nat.
Proof. by rewrite multiplicity_disj_union, multiplicity_singleton. Qed.

Ltac count := rewrite ?count_plus in *; repeat case_decide; simplify_eq; try done; try lia.

(** A fact about a session joins what is known. *)
Lemma Inv_from K h s w : owner w !! s = Some h -> Inv K w -> Inv ({[+ From h s +]} ⊎ K) w.
Proof.
  intros Ho []. split; auto; intros *; rewrite ?count_plus; repeat case_decide; simplify_eq; cbn; eauto.
Qed.

Lemma Inv_newSession K h w : Inv K w ->
  Inv ({[+ From h (madeSess w) +]} ⊎ K)
    (mkHub (sessions w) (waiters w) (closedChans w) (closedSess w) (madeChans w) (S (madeSess w))
      (<[madeSess w := h]> (owner w)) (opened w) (drawn w)).
Proof.
  intros I. apply Inv_from; [apply lookup_insert_eq|]. destruct I.
  assert (Ho : forall s x, owner w !! s = Some x -> <[madeSess w := h]> (owner w) !! s = Some x).
  { intros s x Hs. rewrite lookup_insert_ne; [done|]. specialize (i_sess0 _ _ Hs). lia. }
  split; cbn; auto. intros s x. destruct (decide (s = madeSess w)) as [->|]; [lia|]. rewrite lookup_insert_ne by done.
  intros Hs%i_sess0. lia.
Qed.

(** The waiters a registration took over are about to be closed. *)
Definition pendings (l : list nat) : gmultiset Tag := list_to_set_disj (Pending <$> l).

Lemma count_pendings x l : NoDup l ->
  multiplicity x (pendings l) = match x with inr (inl ch) => if decide (ch ∈ l) then 1%nat else 0%nat | _ => 0%nat end.
Proof.
  unfold pendings. induction 1 as [|ch l Hch Hl IH].
  - cbn. rewrite multiplicity_empty. by destruct x as [|[]].
  - cbn [fmap list_fmap]. rewrite list_to_set_disj_cons, count_plus, IH.
    destruct x as [p|[c|p]]; try (rewrite decide_False by done; done).
    destruct (decide (c = ch)) as [->|Hne].
    + by rewrite (decide_True (P := _ = _)), (decide_False (P := _ ∈ l)), (decide_True (P := _ ∈ _)) by (done || left).
    + rewrite decide_False by (intros [=]; done). cbn. apply decide_ext. rewrite elem_of_cons. tauto.
Qed.

Lemma Inv_install K h s w : owner w !! s = Some h -> Inv K w ->
  Inv (pendings (waiting h w) ⊎ K)
    (set_sessions (<[h := s]> (sessions w)) (set_waiters (delete h (waiters w)) w)).
Proof.
  intros Ho []. assert (Hn := i_nodup0 h).
  assert (Hw : forall h' ch, ch ∈ (if decide (h' = h) then [] else waiting h' w) -> h' <> h /\ ch ∈ waiting h' w).
  { intros h' ch. case_decide; [intros []%not_elem_of_nil | done]. }
  split; unfold waiting; cbn; intros *; rewrite ?waiting_delete; rewrite ?multiplicity_disj_union;
    rewrite ?count_pendings by done; cbn; auto.
  - case_decide as Hc; [|apply i_pending0]. destruct (i_waiting0 _ _ Hc) as (_ & -> & _). done.
  - apply i_parked_made0.
  - case_decide as Hc; [|apply i_pending_made0]. intros _. apply (i_parked_made0 h). destruct (i_waiting0 _ _ Hc). lia.
  - intros [Hne Hc]%Hw. rewrite decide_False by (intros Hc'; apply Hne; by eapply i_apart0). by apply i_waiting0.
  - case_decide as Hc; [|apply i_open0]. intros _. by destruct (i_waiting0 _ _ Hc) as (_ & _ & ?).
  - case_decide; [constructor | done].
  - intros [_ Hc]%Hw [_ Hc']%Hw. by eapply i_apart0.
  - intros [_ E]%lookup_delete_Some. by apply (i_entry0 h0).
  - case_decide; [done|]. rewrite lookup_insert_ne by done. apply i_down0.
  - intros [[-> ->]|[_ Hs]]%lookup_insert_Some; [done | by apply i_owner0].
  - apply i_sess0.
Qed.

Lemma Inv_close K ch w : Inv ({[+ Pending ch +]} ⊎ K) w ->
  (ch ∉ closedChans w)
  /\ Inv K (mkHub (sessions w) (waiters w) ({[ch]} ∪ closedChans w) (closedSess w) (madeChans w) (madeSess w) (owner w)
      (opened w) (drawn w)).
Proof.
  intros []. setoid_rewrite count_plus in i_parked0. setoid_rewrite count_plus in i_pending0.
  setoid_rewrite count_plus in i_parked_made0. setoid_rewrite count_plus in i_pending_made0.
  setoid_rewrite count_plus in i_waiting0. setoid_rewrite count_plus in i_open0. setoid_rewrite count_plus in i_from0.
  split; [apply i_open0; rewrite decide_True by done; lia|].
  split; unfold waiting; cbn; auto; intros *.
  - specialize (i_pending0 ch0). lia.
  - intros Hm. apply i_pending_made0. lia.
  - intros [->%elem_of_singleton|Hc]%elem_of_union; [apply i_pending_made0; rewrite decide_True by done; lia | auto].
  - intros Hc. destruct (i_waiting0 _ _ Hc) as (H1 & H2 & H3). rewrite decide_False in H1 by done.
    case_decide as E; [lia|]. repeat split; [lia | lia |]. rewrite elem_of_union, elem_of_singleton. intros [->|]; done.
  - intros Hm. rewrite elem_of_union, elem_of_singleton. intros [->|Hc].
    + specialize (i_pending0 ch). rewrite decide_True in i_pending0 by done. lia.
    + revert Hc. apply i_open0. lia.
Qed.

Lemma Inv_unregister K h w : Inv K w -> Inv K (set_sessions (delete h (sessions w)) w).
Proof.
  intros []. split; unfold waiting; cbn; auto.
  - intros h' s [_ Hs]%lookup_delete_Some. by eapply i_down0.
  - intros h' s [_ Hs]%lookup_delete_Some. by apply i_owner0.
Qed.

Lemma Inv_park K h w : sessions w !! h = None -> Inv K w ->
  Inv ({[+ Parked h (madeChans w) +]} ⊎ K)
    (mkHub (sessions w) (<[h := waiting h w ++ [madeChans w]]> (waiters w))
       (closedChans w) (closedSess w) (S (madeChans w)) (madeSess w) (owner w) (opened w) (drawn w)).
Proof.
  intros Hnone [].
  assert (Hold : forall h' ch, ch ∈ waiting h' w -> (ch < madeChans w)%nat).
  { intros h' ch Hc. apply (i_parked_made0 h'). destruct (i_waiting0 _ _ Hc). lia. }
  assert (Hnp : forall h', multiplicity (Parked h' (madeChans w)) K = 0%nat).
  { intros h'. specialize (i_parked_made0 h' (madeChans w)). lia. }
  assert (Hw : forall h' ch, ch ∈ (if decide (h' = h) then waiting h w ++ [madeChans w] else waiting h' w) ->
    (ch ∈ waiting h' w) \/ (h' = h /\ ch = madeChans w)).
  { intros h' ch. case_decide; subst; [rewrite elem_of_app, list_elem_of_singleton|]; tauto. }
  split; intros *; rewrite ?waiting_insert; rewrite ?(count_other (Pending _)), ?(count_other (From _ _)) by done;
    rewrite ?count_plus; cbn; auto.
  - case_decide as E; [|apply i_parked0]. injection E as -> ->. by rewrite Hnp.
  - case_decide as E; [injection E as -> ->; lia|]. intros Hm%i_parked_made0. lia.
  - intros Hm%i_pending_made0. lia.
  - intros Hm%i_closed_made0. lia.
  - intros [Hc|[-> ->]]%Hw.
    + assert (Hlt := Hold _ _ Hc). rewrite decide_False by (intros [=]; lia). by apply i_waiting0.
    + rewrite decide_True by done. rewrite Hnp. split; [done|].
      split; [specialize (i_pending_made0 (madeChans w)); lia|]. intros Hm%i_closed_made0. lia.
  - case_decide; subst; [|done]. apply NoDup_app. repeat split; [done| |apply NoDup_singleton].
    intros ch Hc%Hold. rewrite list_elem_of_singleton. lia.
  - intros [Hc|[-> ->]]%Hw [Hc'|[? ?]]%Hw; subst; eauto; [apply Hold in Hc | apply Hold in Hc']; lia.
  - intros [[_ E]|[_ E]]%lookup_insert_Some; [by destruct (waiting h w) | by eapply i_entry0].
  - case_decide; subst; [congruence | apply i_down0].
  - apply i_sess0.
Qed.

Lemma elem_removeFirst ch l x : NoDup l -> x ∈ removeFirst ch l <-> x ∈ l /\ x <> ch.
Proof.
  induction 1 as [|y l Hy Hl IH]; cbn; [set_solver|].
  destruct (Nat.eqb_spec y ch) as [->|Hne].
  - split; [|set_solver]. intros Hx. split; [by right|]. by intros ->.
  - rewrite !elem_of_cons, IH. naive_solver.
Qed.

Lemma NoDup_removeFirst ch l : NoDup l -> NoDup (removeFirst ch l).
Proof.
  induction 1 as [|y l Hy Hl IH]; cbn; [constructor|].
  destruct (Nat.eqb_spec y ch) as [->|Hne]; [done|].
  constructor; [|done]. rewrite elem_removeFirst by done. tauto.
Qed.

Lemma Inv_cancel K h ch w : Inv ({[+ Parked h ch +]} ⊎ K) w ->
  Inv K (put_waiting h (removeFirst ch (waiting h w)) w).
Proof.
  intros []. assert (Hn := i_nodup0 h).
  setoid_rewrite count_plus in i_parked0. setoid_rewrite count_other in i_pending0; [|done].
  setoid_rewrite count_plus in i_parked_made0. setoid_rewrite count_other in i_pending_made0; [|done].
  setoid_rewrite count_plus in i_waiting0. setoid_rewrite count_other in i_open0; [|done].
  setoid_rewrite count_other in i_from0; [|done].
  assert (Hw : forall h' c, c ∈ (if decide (h' = h) then removeFirst ch (waiting h w) else waiting h' w) ->
    c ∈ waiting h' w /\ ~ (h' = h /\ c = ch)).
  { intros h' c. case_decide; subst; [rewrite elem_removeFirst by done|]; tauto. }
  split; intros *; rewrite ?waiting_put; cbn; auto.
  - specialize (i_parked0 h0 ch0). lia.
  - intros Hm. apply (i_parked_made0 h0). lia.
  - intros [Hc Hne]%Hw. destruct (i_waiting0 _ _ Hc) as (H1 & H2 & H3).
    rewrite decide_False in H1 by (intros [=]; tauto). done.
  - case_decide; [by apply NoDup_removeFirst | done].
  - intros [Hc _]%Hw [Hc' _]%Hw. eauto.
  - unfold put_waiting. destruct (removeFirst ch (waiting h w)); cbn.
    + intros [_ E]%lookup_delete_Some. by eapply i_entry0.
    + intros [[_ E]|[_ E]]%lookup_insert_Some; [done | by eapply i_entry0].
  - intros Hs. rewrite (i_down0 _ _ Hs). case_decide; subst; [|done]. by rewrite (i_down0 _ _ Hs).
  - apply i_sess0.
Qed.

Lemma Inv_note K h s w : owner w !! s = Some h -> Inv K w ->
  Inv K (mkHub (sessions w) (waiters w) (closedChans w) (closedSess w) (madeChans w) (madeSess w) (owner w)
      (opened w ++ [(h, s)]) (drawn w)).
Proof.
  intros Ho []. split; unfold waiting; cbn; auto.
  intros h' s'. rewrite elem_of_app, list_elem_of_singleton. intros [?|[= -> ->]]; auto.
Qed.

(** ** The threads *)

#[local] Arguments rop : simpl never.
#[local] Abbreviation keeps := (safe Inv).

(** Parked nowhere, with nothing left to close. *)
Definition idle (r : gmultiset Tag) : Prop :=
  forall x, (0 < multiplicity x r)%nat -> exists h s, x = From h s.

Definition knows (h : Z) (s : nat) (r : gmultiset Tag) : Prop := (0 < multiplicity (From h s) r)%nat.

Lemma idle_empty : idle rid.
Proof. intros x Hx. cbn in Hx. rewrite multiplicity_empty in Hx. lia. Qed.

Lemma idle_from h s r : idle r -> idle ({[+ From h s +]} ⊎ r).
Proof. intros Hi x. rewrite count_plus. case_decide; subst; eauto. Qed.

Lemma knows_from h s r : knows h s ({[+ From h s +]} ⊎ r).
Proof. unfold knows. rewrite count_plus, decide_True by done. lia. Qed.

Lemma knows_owner h s r rest w : knows h s r -> Inv (rop r rest) w -> owner w !! s = Some h.
Proof.
  intros Hk HI. apply (i_from _ _ HI). change (0 < multiplicity (From h s) (r ⊎ rest))%nat.
  rewrite multiplicity_disj_union. unfold knows in Hk. lia.
Qed.

Lemma keeps_still {A X} (q : Hub -> X * Hub) (k : X -> Proc Hub A) post r :
  (forall K w, Inv K w -> Inv K (q w).2) -> (forall x, keeps post r (k x)) -> keeps post r (bind (atom q) k).
Proof. intros Hq Hk rest w HI. exists r. split; [by apply Hq | apply Hk]. Qed.

Lemma keeps_unregister {A} h s (k : unit -> Proc Hub A) post r :
  keeps post r (k tt) -> keeps post r (bind (unregister h s) k).
Proof.
  intros Hk. apply keeps_still; [|by intros []]. intros K w HI. cbn.
  case_bool_decide; [by apply Inv_unregister | done].
Qed.

Lemma keeps_draw {A} fate (k : Fate -> Proc Hub A) post r :
  (forall f, keeps post r (k f)) -> keeps post r (bind (draw fate) k).
Proof. intros Hk. apply keeps_still; [|done]. intros K w. by apply Inv_same. Qed.

Lemma keeps_closeSession {A} s (k : unit -> Proc Hub A) post r :
  keeps post r (k tt) -> keeps post r (bind (closeSession s) k).
Proof. intros Hk. apply keeps_still; [|by intros []]. intros K w. by apply Inv_same. Qed.

Lemma keeps_closeAll l k post r : keeps post r k -> keeps post (rop (pendings l) r) (closeAll l k).
Proof.
  intros Hk. induction l as [|ch l IH]; [change (keeps post (rop rid r) k); by rewrite rop_id|]. intros rest w HI.
  exists (rop (pendings l) r).
  change (pendings (ch :: l)) with (rop {[+ Pending ch +]} (pendings l)) in HI.
  rewrite <- !rop_assoc in HI. apply Inv_close in HI as [Hc HI]. rewrite <- rop_assoc. cbn.
  split; [done|]. by rewrite bool_decide_false.
Qed.

Lemma keeps_register h s k post r : knows h s r -> keeps post r k -> keeps post r (register h s k).
Proof.
  intros Hk Hp rest w HI. exists (rop (pendings (waiting h w)) r). split.
  - rewrite <- rop_assoc. apply Inv_install; [by eapply knows_owner | done].
  - cbn. set (k' := closeAll _ k). assert (Hc : keeps post (rop (pendings (waiting h w)) r) k')
      by by apply keeps_closeAll.
    destruct (sessions w !! h) as [prev|]; [|done]. destruct (Nat.eqb prev s); [done|].
    by apply keeps_closeSession.
Qed.

Definition finished (r : gmultiset Tag) (a : Outcome) : Prop := a <> Crashed /\ idle r.

Lemma keeps_accept fate h : keeps finished rid (accept fate h).
Proof.
  assert (H0 := idle_empty).
  apply keeps_draw. intros f. destruct (ftUpgrade f); [|by split]. intros rest w HI.
  exists ({[+ From h (madeSess w) +]} ⊎ rid). split.
  - change (Inv (({[+ From h (madeSess w) +]} ⊎ rid) ⊎ rest)
      (mkHub (sessions w) (waiters w) (closedChans w) (closedSess w) (madeChans w) (S (madeSess w))
        (<[madeSess w := h]> (owner w)) (opened w) (drawn w))).
    rewrite <- (assoc_L (⊎)). by apply Inv_newSession.
  - apply keeps_register; [apply knows_from|]. apply keeps_unregister, keeps_closeSession.
    split; [done | by apply idle_from].
Qed.

(** A session in the answer is one of the host's. *)
Definition told (h : Z) (a : result OpenError nat) (r : gmultiset Tag) : Prop :=
  match a with Ok s => knows h s r | Err _ => True end.

Definition ready (h : Z) (r : gmultiset Tag) (a : result OpenError nat) : Prop := idle r /\ told h a r.

Definition parkedOn (h : Z) (ch : nat) (r : gmultiset Tag) (a : result OpenError nat) : Prop :=
  exists r0, r = rop {[+ Parked h ch +]} r0 /\ ready h r0 a.

Lemma learn h s r rest w : owner w !! s = Some h -> Inv (rop r rest) w -> Inv (rop ({[+ From h s +]} ⊎ r) rest) w.
Proof.
  intros Ho HI. change (Inv (({[+ From h s +]} ⊎ r) ⊎ rest) w). rewrite <- (assoc_L (⊎)). by apply Inv_from.
Qed.

Lemma keeps_park fate h ch r : idle r -> keeps (parkedOn h ch) (rop {[+ Parked h ch +]} r) (park fate h ch).
Proof.
  intros Hi. apply keeps_draw. intros f. apply keeps_still; [done|].
  intros ok. destruct ok, (ftWakeup f); try (exists r; done).
  intros rest w HI. cbn. destruct (sessions w !! h) as [s|] eqn:Hs; [|exists (rop {[+ Parked h ch +]} r); split; [done | by exists r]].
  exists ({[+ From h s +]} ⊎ rop {[+ Parked h ch +]} r). split.
  - apply learn; [by apply (i_owner _ _ HI) | done].
  - exists ({[+ From h s +]} ⊎ r). split; [|split; [by apply idle_from | apply knows_from]].
    change ({[+ From h s +]} ⊎ ({[+ Parked h ch +]} ⊎ r) = {[+ Parked h ch +]} ⊎ ({[+ From h s +]} ⊎ r)).
    by rewrite !(assoc_L (⊎)), (comm_L (⊎) {[+ From h s +]}).
Qed.

Lemma keeps_checkOrPark {A} h (k : nat + nat -> Proc Hub A) post r :
  (forall s, keeps post ({[+ From h s +]} ⊎ r) (k (inl s))) ->
  (forall ch, keeps post (rop {[+ Parked h ch +]} r) (k (inr ch))) ->
  keeps post r (bind (checkOrPark h) k).
Proof.
  intros H1 H2 rest w HI. cbn. destruct (sessions w !! h) as [s|] eqn:Hs.
  - exists ({[+ From h s +]} ⊎ r). split; [|apply H1]. apply learn; [by apply (i_owner _ _ HI) | done].
  - exists (rop {[+ Parked h (madeChans w) +]} r). split; [|apply H2]. rewrite <- rop_assoc. by apply Inv_park.
Qed.

Lemma keeps_await fate h r : idle r -> keeps (ready h) r (await fate h).
Proof.
  intros Hi. apply keeps_checkOrPark.
  - intros s. split; [by apply idle_from | apply knows_from].
  - intros ch. apply keeps_draw. intros f. apply (safe_bind _ _ (parkedOn h ch)).
    + destruct (ftSend f); [by exists r | by apply keeps_park].
    + intros r' a (r0 & -> & Hr) rest w' HI. exists r0. split; [|done].
      rewrite <- rop_assoc in HI. by apply Inv_cancel.
Qed.

Lemma keeps_openOn fate h s r : idle r -> knows h s r -> keeps (fun r' a => r' = r /\ told h a r) r (openOn fate h s).
Proof.
  intros Hi Hk. apply keeps_draw. intros f. apply keeps_still; [done|]. intros ok.
  destruct ok; [|by apply keeps_unregister]. destruct (ftAnswer f); try done.
  intros rest w HI. exists r. split; [|done]. apply Inv_note; [by eapply knows_owner | done].
Qed.

(** A stream is on a session of the host it was asked for. *)
Definition streamed (h : Z) (r : gmultiset Tag) (a : Outcome) : Prop :=
  finished r a /\ forall s, a = Stream s -> knows h s r.

Lemma streamed_answer h r a : idle r -> told h a r -> streamed h r (answer a).
Proof. intros Hi Ha. destruct a as [s|e]; (split; [by split|]); intros ? [=]. by subst. Qed.

Lemma streamed_failed h r e : idle r -> streamed h r (Failed e).
Proof. intros Hi. by split; [split|]. Qed.

Lemma keeps_OpenStream fate h : keeps (streamed h) rid (OpenStream fate h).
Proof.
  assert (H0 := idle_empty).
  eapply safe_bind; [by apply keeps_await|]. intros r [s|e] [Hi Hk]; [|by apply streamed_failed].
  eapply safe_bind; [by apply keeps_openOn|]. intros r' [s'|e] [-> Ht]; [by apply (streamed_answer _ _ (Ok s'))|].
  destruct (isRejected e); [by apply streamed_failed|]. apply keeps_still; [done|]. intros dead. apply keeps_draw. intros f.
  destruct (negb dead || ftCtxDone f); [by apply streamed_failed|]. apply keeps_unregister.
  eapply safe_bind; [by apply keeps_await|]. intros r2 [s2|e2] [Hi2 Hk2]; [|by apply streamed_failed].
  eapply safe_bind; [by apply keeps_openOn|]. intros r' a [-> Ha]. by apply streamed_answer.
Qed.

Lemma keeps_serve fate t : keeps finished rid (serve fate t).
Proof.
  destruct t; [apply keeps_accept|]. eapply safe_mono; [|apply keeps_OpenStream]. by intros r a [].
Qed.

Lemma hub_history fate ts ms : exists rs,
  Forall3 (fun post r p => keeps post r p) (replicate (length ts) finished) rs (history fate ts ms).1
  /\ Inv (total rs) (history fate ts ms).2.
Proof.
  apply (exec_safe Inv) with (rs := replicate (length ts) rid).
  - induction ts as [|t ts IH]; constructor; [apply keeps_serve | done].
  - rewrite total_none. apply Inv_empty.
  - intros f (m & Em & _)%list_elem_of_fmap. destruct m; [done|]. injection Em as ->.
    intros K w. by apply Inv_same.
Qed.

Lemma idle_plus r r' : idle r -> idle r' -> idle (r ⊎ r').
Proof.
  intros Hr Hr' x. rewrite multiplicity_disj_union. intros Hx.
  destruct (decide (0 < multiplicity x r)%nat); [by apply Hr | apply Hr'; lia].
Qed.

Lemma idle_total rs : Forall idle rs -> idle (total rs).
Proof. induction 1 as [|r rs Hr Hrs IH]; [apply idle_empty | by apply (idle_plus r)]. Qed.

Lemma idle_no_waiters K w : idle K -> Inv K w -> waiters w = ∅.
Proof.
  intros Hi HI. apply map_eq. intros h. rewrite lookup_empty.
  destruct (waiters w !! h) as [[|ch l]|] eqn:E; [by apply (i_entry _ _ HI) in E | | done].
  destruct (i_waiting _ _ HI h ch) as (Hm & _); [unfold waiting; rewrite E; left|].
  destruct (Hi (Parked h ch)) as (? & ? & ?); [lia | done].
Qed.

(** C20: Run any number of data-channel accepts and stream opens at once, in
    any interleaving, with every session free to die at any moment and every
    send, dial, handshake and context free to fail: no thread panics by
    closing a channel twice; while a host has a session no opener is parked
    for it, so no wake-up is lost; a stream is only ever opened on a session
    accepted from its own host; and once every request has returned no
    waiter is left behind in the map. *)
Theorem data_hub_protocol fate ts ms :
  let '(ps, w) := history fate ts ms in
  (forall i, outcome ps i <> Some Crashed)
  /\ (forall h s, sessions w !! h = Some s -> waiters w !! h = None /\ owner w !! s = Some h)
  /\ (forall h s, (h, s) ∈ opened w -> owner w !! s = Some h)
  /\ (allEnded ps -> waiters w = ∅).
Proof.
  destruct (hub_history fate ts ms) as (rs & HF & HI). destruct (history fate ts ms) as [ps w]. cbn in *.
  split; [|split; [|split]].
  - intros i Hi%outcome_Some. destruct (Forall3_lookup_r _ _ _ _ _ _ HF Hi) as (post & r & Hpost & Hr & Hs).
    apply lookup_replicate in Hpost as [-> _]. by destruct Hs.
  - intros h s Hs. split; [|by apply (i_owner _ _ HI)]. assert (Hw := i_down _ _ HI _ _ Hs). unfold waiting in Hw.
    destruct (waiters w !! h) as [l|] eqn:E; [|done]. cbn in Hw. subst. by apply (i_entry _ _ HI) in E.
  - apply (i_opened _ _ HI).
  - intros He. eapply idle_no_waiters; [|exact HI]. apply idle_total.
    eapply Forall_impl; [by eapply ended_posts|]. by intros r (a & _ & ?).
Qed.

(** ** Two openers and one agent *)

Definition allWell (n : nat) : Fate := mkFate true None PreferReady true Accepted false.

Definition turns (l : list nat) : list Move := Turn <$> l.

(** Both openers park, the agent dials in, both are woken and get a stream
    on the new session. *)
Example wakes_both :
  let '(ps, w) := history allWell [Open 7; Open 7; Accept 7]
    (turns [0;1;0;1;0;1; 2;2;2;2;2; 0;0;0;0;0;0; 1;1;1;1;1;1; 2;2]%nat) in
  outcome ps <$> [0;1;2]%nat = [Some (Stream 0); Some (Stream 0); Some Served]
  /\ opened w = [(7, 0%nat); (7, 0%nat)] /\ waiters w = ∅.
Proof. vm_compute. done. Qed.

(** The session dies between the check and the open: the opener asks for
    another and is served by the second dial. *)
Example retries_once :
  let '(ps, w) := history allWell [Accept 7; Open 7; Accept 7]
    (turns [0;0;0; 1]%nat ++ [Dies 0] ++ turns [1;1;1;1;1;1;1;1;1; 2;2;2;2; 1;1;1;1;1;1; 2;2; 0;0]%nat) in
  outcome ps <$> [0;1;2]%nat = [Some Served; Some (Stream 1); Some Served] /\ waiters w = ∅.
Proof. vm_compute. done. Qed.

End DataHub.
