(* ===== verification/WsSessions.v ===== *)
(** * The registry of interactive WebSocket sessions

    [SessionManager] of [lib/websocket/session.go]: sessions by user and by
    id, in two maps that are updated together. It is shown to be a list of
    live sessions in the order they were acquired. *)

From stdpp Require Import gmap strings list.
From S2P Require Import Prelude.

Module WsSessions.

(** What a cancel function reaches: the connection and the extra contexts,
    named by numbers. *)
Record Session := mkSession {
  ID : string; UserID : string; Resource : string; ResourceID : string; Label : string; CreatedAt : Z;
  cancel : list nat
}.

#[export] Instance Session_EqDecision : EqDecision Session.
Proof. solve_decision. Defined.

Record SessionManager := mkManager {
  sessions : gmap string (list Session);
  byID : gmap string Session;
  idleTimeout : Z;
  counter : Z;
  instanceID : string
}.

Definition NewSessionManager (idle : Z) (instance : string) : SessionManager := mkManager ∅ ∅ idle 0 instance.

Definition userSessions (m : SessionManager) (userID : string) : list Session := default [] (sessions m !! userID).

(** ** Operations *)

Definition sessionID (instance : string) (n : Z) : string := instance +++ "-" +++ FormatInt n.

(** The closure built by [Acquire]: the connection unless nil, then every
    extra that is not nil. *)
Definition cancelOf (conn : option nat) (extra : list (option nat)) : list nat :=
  option_list conn ++ omap id extra.

Definition Acquire (now : Z) (conn : option nat) (userID resource resourceID label : string)
    (extra : list (option nat)) (m : SessionManager) : Session * SessionManager :=
  let n := int64 (counter m + 1) in
  let s := mkSession (sessionID (instanceID m) n) userID resource resourceID label now (cancelOf conn extra) in
  (s, mkManager (<[userID := userSessions m userID ++ [s]]> (sessions m)) (<[ID s := s]> (byID m)) (idleTimeout m) n
        (instanceID m)).

Fixpoint removeFirst (id : string) (l : list Session) : list Session :=
  match l with
  | [] => []
  | s :: l' => if ID s =s id then l' else s :: removeFirst id l'
  end.

Definition Release (id : string) (m : SessionManager) : SessionManager :=
  match byID m !! id with
  | None => m
  | Some s =>
      let left := removeFirst id (userSessions m (UserID s)) in
      mkManager (match left with [] => delete (UserID s) (sessions m) | _ => <[UserID s := left]> (sessions m) end)
        (delete id (byID m)) (idleTimeout m) (counter m) (instanceID m)
  end.

(** What the cancellation ends. *)
Definition Cancel (id : string) (m : SessionManager) : list nat :=
  match byID m !! id with Some s => cancel s | None => [] end.

Definition Count (userID : string) (m : SessionManager) : Z := Z.of_nat (length (userSessions m userID)).

Definition CountByResource (userID resource : string) (m : SessionManager) : Z :=
  Z.of_nat (length (filter (fun s => Resource s = resource) (userSessions m userID))).

(** A copy without its cancel function. *)
Definition copyOf (s : Session) : Session :=
  mkSession (ID s) (UserID s) (Resource s) (ResourceID s) (Label s) (CreatedAt s) [].

Definition List_ (userID : string) (m : SessionManager) : list Session := copyOf <$> userSessions m userID.

(** Go iterates over a map in no particular order: here in that of [gmap]. *)
Definition ListAll (m : SessionManager) : list Session :=
  copyOf <$> concat (snd <$> map_to_list (sessions m)).

Definition CountAll (m : SessionManager) : Z := Z.of_nat (size (byID m)).

(** ** Histories *)

Inductive Op :=
| OpAcquire (now : Z) (conn : option nat) (userID resource resourceID label : string) (extra : list (option nat))
| OpRelease (id : string).

Definition step (m : SessionManager) (op : Op) : SessionManager :=
  match op with
  | OpAcquire now c u r i l e => (Acquire now c u r i l e m).2
  | OpRelease id => Release id m
  end.

Definition after (idle : Z) (instance : string) (ops : list Op) : SessionManager :=
  foldl step (NewSessionManager idle instance) ops.

(** ** The reference: the live sessions, in order *)

Definition specStep (instance : string) (st : Z * list Session) (op : Op) : Z * list Session :=
  match op with
  | OpAcquire now c u r i l e =>
      (st.1 + 1, st.2 ++ [mkSession (sessionID instance (st.1 + 1)) u r i l now (cancelOf c e)])
  | OpRelease id => (st.1, filter (fun s => ID s <> id) st.2)
  end.

Definition live (instance : string) (ops : list Op) : list Session := (foldl (specStep instance) (0, []) ops).2.

Definition of_user (u : string) (l : list Session) : list Session := filter (fun s => UserID s = u) l.

Record Refines (instance : string) (m : SessionManager) (n : Z) (l : list Session) : Prop := {
  rf_instance : instanceID m = instance;
  rf_counter : counter m = n;
  rf_user u : sessions m !! u = match of_user u l with [] => None | l' => Some l' end;
  rf_id id s : byID m !! id = Some s <-> s ∈ l /\ ID s = id;
  rf_ids s : s ∈ l -> exists k, 0 < k <= n /\ ID s = sessionID instance k;
  rf_nodup : NoDup (ID <$> l);
  rf_from : 0 <= n
}.

Lemma rf_userSessions inst m n l u : Refines inst m n l -> userSessions m u = of_user u l.
Proof. intros R. unfold userSessions. rewrite (rf_user _ _ _ _ R). by destruct (of_user u l). Qed.

Lemma sessionID_inj inst a b : sessionID inst a = sessionID inst b -> a = b.
Proof.
  unfold sessionID. intros E. apply (inj FormatInt). apply (inj (String.append "-")).
  by apply (inj (String.append inst)).
Qed.

Lemma refines_new idle inst : Refines inst (NewSessionManager idle inst) 0 [].
Proof. split; cbn; try done; [intros id s; split; [done | by intros [?%elem_of_nil _]] | by intros s ?%elem_of_nil | constructor]. Qed.

Lemma of_user_app u l l' : of_user u (l ++ l') = of_user u l ++ of_user u l'.
Proof. apply filter_app. Qed.

Lemma refines_acquire inst m n l now c u r i lb e : Refines inst m n l -> n + 1 < 2 ^ 63 ->
  let s := mkSession (sessionID inst (n + 1)) u r i lb now (cancelOf c e) in
  (Acquire now c u r i lb e m).1 = s /\ Refines inst (Acquire now c u r i lb e m).2 (n + 1) (l ++ [s]).
Proof.
  intros R Hn s. assert (En : int64 (counter m + 1) = n + 1).
  { rewrite (rf_counter _ _ _ _ R). apply int64_id. pose proof (rf_from _ _ _ _ R). unfold in_int64. lia. }
  unfold Acquire. rewrite En, (rf_instance _ _ _ _ R), (rf_userSessions _ _ _ _ u R). fold s. split; [done|].
  assert (Hnew : forall x, x ∈ l -> ID x <> ID s).
  { intros x (k & Hk & ->)%(rf_ids _ _ _ _ R) E%sessionID_inj. lia. }
  destruct R as [R1 R2 R3 R4 R5 R6 R7]. split; cbn [snd instanceID counter sessions byID]; try done.
  - intros u'. rewrite of_user_app. destruct (decide (u' = u)) as [->|Hne].
    + rewrite lookup_insert_eq. assert (Es : of_user u [s] = [s]) by (unfold of_user; by rewrite filter_cons_True).
      rewrite Es. by destruct (of_user u l).
    + rewrite lookup_insert_ne by done. assert (Es : of_user u' [s] = []) by (unfold of_user; by rewrite filter_cons_False).
      by rewrite Es, app_nil_r.
  - intros id x. rewrite lookup_insert_Some, R4, elem_of_app, list_elem_of_singleton. split.
    + intros [[<- <-]|[Hne [Hx Hid]]]; auto.
    + intros [[Hx| ->] <-]; [right; split; [intros E; by apply (Hnew x) | done] | by left].
  - intros x. rewrite elem_of_app, list_elem_of_singleton. intros [Hx| ->]; [|exists (n + 1); split; [lia | done]].
    destruct (R5 x Hx) as (k & Hk & E). exists k. split; [lia | done].
  - rewrite fmap_app. apply NoDup_app. split; [done|]. split; [|apply NoDup_singleton].
    intros id (x & -> & Hx)%list_elem_of_fmap. cbn. rewrite list_elem_of_singleton. by apply Hnew.
  - lia.
Qed.

Lemma filter_all {A} (P : A -> Prop) `{!forall x, Decision (P x)} (l : list A) :
  (forall x, x ∈ l -> P x) -> filter P l = l.
Proof.
  induction l as [|x l IH]; intros Hl; [done|]. rewrite filter_cons_True by (apply Hl; left).
  rewrite IH; [done|]. intros y Hy. apply Hl. by right.
Qed.

Lemma filter_swap {A} (P Q : A -> Prop) `{!forall x, Decision (P x), !forall x, Decision (Q x)} (l : list A) :
  filter P (filter Q l) = filter Q (filter P l).
Proof. rewrite !list_filter_filter. apply list_filter_iff. tauto. Qed.

Lemma removeFirst_filter id l : NoDup (ID <$> l) -> removeFirst id l = filter (fun s => ID s <> id) l.
Proof.
  induction l as [|s l IH]; [done|]. cbn [fmap list_fmap]. intros [Hs Hl]%NoDup_cons. cbn [removeFirst].
  destruct (String.eqb_spec (ID s) id) as [<-|Hne].
  - rewrite filter_cons_False by auto. symmetry. apply filter_all.
    intros x Hx E. apply Hs. rewrite <- E. by apply list_elem_of_fmap_2.
  - rewrite filter_cons_True by done. by rewrite IH.
Qed.

Lemma refines_release inst m n l id : Refines inst m n l ->
  Refines inst (Release id m) n (filter (fun s => ID s <> id) l).
Proof.
  intros R. unfold Release. destruct (byID m !! id) as [s|] eqn:Hs.
  - rewrite (rf_userSessions _ _ _ _ _ R). assert (Hin := Hs). apply (rf_id _ _ _ _ R) in Hin as [Hin Hid].
    assert (Hrem : removeFirst id (of_user (UserID s) l) = of_user (UserID s) (filter (fun s => ID s <> id) l)).
    { rewrite removeFirst_filter; [unfold of_user; by apply filter_swap|].
      eapply sublist_NoDup; [apply (rf_nodup _ _ _ _ R)|]. apply fmap_sublist, sublist_filter. }
    destruct R as [R1 R2 R3 R4 R5 R6 R7]. split; cbn [instanceID counter sessions byID]; try done.
    + intros u. rewrite Hrem. destruct (decide (u = UserID s)) as [->|Hne].
      * by destruct (of_user (UserID s) (filter _ l)); [rewrite lookup_delete_eq | rewrite lookup_insert_eq].
      * assert (Hsame : of_user u (filter (fun s => ID s <> id) l) = of_user u l).
        { unfold of_user. rewrite filter_swap. apply filter_all. intros x [Hu Hx]%list_elem_of_filter E.
          assert (E' : byID m !! id = Some x) by by apply R4. congruence. }
        rewrite Hsame, <- R3. destruct (of_user (UserID s) (filter _ l));
          [by rewrite lookup_delete_ne | by rewrite lookup_insert_ne].
    + intros id' x. rewrite lookup_delete_Some, R4, list_elem_of_filter. naive_solver.
    + intros x [_ Hx]%list_elem_of_filter. by apply R5.
    + eapply sublist_NoDup; [exact R6|]. apply fmap_sublist, sublist_filter.
  - rewrite filter_all; [done|]. intros x Hx E.
    enough (byID m !! id = Some x) by congruence. by apply (rf_id _ _ _ _ R).
Qed.

Lemma refines_after idle inst ops : Z.of_nat (length ops) < 2 ^ 63 ->
  exists n, n <= Z.of_nat (length ops) /\ foldl (specStep inst) (0, []) ops = (n, live inst ops)
            /\ Refines inst (after idle inst ops) n (live inst ops).
Proof.
  unfold after, live. induction ops as [|op ops IH] using rev_ind; intros Hl.
  { exists 0. split; [done|]. split; [done | apply refines_new]. }
  rewrite length_app in Hl |- *. cbn [length] in Hl |- *.
  destruct IH as (n & Hn & E & R); [lia|]. rewrite !foldl_app. cbn [foldl]. rewrite E in R |- *. cbn [snd] in R.
  destruct op as [now c u r i l e|id]; cbn [step specStep fst snd].
  - exists (n + 1). split; [lia|]. split; [done|]. apply refines_acquire; [done | lia].
  - exists n. split; [lia|]. split; [done|]. by apply refines_release.
Qed.

(** Lists of different users do not overlap. *)
Lemma NoDup_by_user (ps : list (string * list Session)) : NoDup ps.*1 ->
  (forall u l, (u, l) ∈ ps -> NoDup l /\ Forall (fun s => UserID s = u) l) -> NoDup (concat ps.*2).
Proof.
  induction ps as [|[u l] ps IH]; cbn; intros Hn Hl; [constructor|]. apply NoDup_cons in Hn as [Hu Hn].
  apply NoDup_app. destruct (Hl u l) as [H1 H2]; [left|]. split; [done|]. split; [|apply IH; [done|]].
  - intros s Hs (l' & Hs' & Hl')%list_elem_of_In%in_concat.
    apply list_elem_of_In, list_elem_of_fmap in Hs' as ([u' l2] & -> & Hp). apply Hu. cbn in *.
    assert (Eu : UserID s = u) by by eapply Forall_forall in H2.
    destruct (Hl u' l2) as [_ H3]; [by right|]. apply list_elem_of_In in Hl'.
    assert (Eu' : UserID s = u') by by eapply Forall_forall in H3. subst. by apply (list_elem_of_fmap_2 fst) in Hp.
  - intros u' l' Hp. apply Hl. by right.
Qed.

Lemma refines_all inst m n l : Refines inst m n l -> concat (map_to_list (sessions m)).*2 ≡ₚ l.
Proof.
  intros R. assert (Hnd : NoDup l) by (eapply NoDup_fmap_1, (rf_nodup _ _ _ _ R)).
  assert (Hu : forall u l', (u, l') ∈ map_to_list (sessions m) -> l' = of_user u l).
  { intros u l' Hp%elem_of_map_to_list. rewrite (rf_user _ _ _ _ R) in Hp. by destruct (of_user u l); simplify_eq. }
  apply NoDup_Permutation; [|done|].
  - apply NoDup_by_user; [apply NoDup_fst_map_to_list|]. intros u l' ->%Hu. split; [by apply NoDup_filter|].
    apply Forall_forall. by intros s [? _]%list_elem_of_filter.
  - intros s. rewrite list_elem_of_In, in_concat. split.
    + intros (l' & Hl%list_elem_of_In & Hs%list_elem_of_In).
      apply list_elem_of_fmap in Hl as ([u l2] & -> & ->%Hu). by apply list_elem_of_filter in Hs as [_ ?].
    + intros Hs. exists (of_user (UserID s) l). assert (Hin : s ∈ of_user (UserID s) l) by by apply list_elem_of_filter.
      split; [|by apply list_elem_of_In]. apply list_elem_of_In, list_elem_of_fmap. exists (UserID s, of_user (UserID s) l).
      split; [done|]. apply elem_of_map_to_list. rewrite (rf_user _ _ _ _ R).
      destruct (of_user (UserID s) l); [by apply elem_of_nil in Hin | done].
Qed.

Lemma refines_size inst m n l : Refines inst m n l -> size (byID m) = length l.
Proof.
  intros R. assert (Ef : ((fun s => (ID s, s)) <$> l).*1 = ID <$> l) by by rewrite <- list_fmap_compose.
  assert (E : byID m = list_to_map ((fun s => (ID s, s)) <$> l)).
  { apply map_eq. intros id. apply option_eq. intros s. rewrite (rf_id _ _ _ _ R).
    rewrite <- elem_of_list_to_map by (rewrite Ef; apply (rf_nodup _ _ _ _ R)). rewrite list_elem_of_fmap.
    split; [intros [Hs <-]; by exists s | intros (x & [= -> ->] & Hx); done]. }
  rewrite E, map_size_list_to_map by (rewrite Ef; apply (rf_nodup _ _ _ _ R)). by rewrite length_fmap.
Qed.

(** After any history of acquisitions and releases (fewer than 2^63 of
    them) the two maps of the session manager agree with one list, the live
    sessions in the order they were acquired: every query answers from that
    list, ids are never reused, and cancelling an id ends exactly what that
    session holds and nothing when it is gone. *)
Lemma session_manager_refines idle inst ops : Z.of_nat (length ops) < 2 ^ 63 ->
  let m := after idle inst ops in
  let l := live inst ops in
  NoDup (ID <$> l)
  /\ (forall u, Count u m = Z.of_nat (length (of_user u l)) /\ List_ u m = copyOf <$> of_user u l)
  /\ (forall u r, CountByResource u r m = Z.of_nat (length (filter (fun s => Resource s = r) (of_user u l))))
  /\ ListAll m ≡ₚ copyOf <$> l
  /\ CountAll m = Z.of_nat (length l)
  /\ (forall s, s ∈ l -> Cancel (ID s) m = cancel s)
  /\ (forall id, id ∉ ID <$> l -> Cancel id m = []).
Proof.
  intros Hl m l. destruct (refines_after idle inst ops Hl) as (n & _ & _ & R). fold m l in R.
  split; [apply (rf_nodup _ _ _ _ R)|]. split.
  { intros u. unfold Count, List_. by rewrite (rf_userSessions _ _ _ _ _ R). }
  split; [intros u r; unfold CountByResource; by rewrite (rf_userSessions _ _ _ _ _ R)|].
  split; [unfold ListAll; by rewrite (refines_all _ _ _ _ R)|].
  split; [unfold CountAll; by rewrite (refines_size _ _ _ _ R)|]. unfold Cancel. split.
  - intros s Hs. assert (E : byID m !! ID s = Some s) by by apply (rf_id _ _ _ _ R). by rewrite E.
  - intros id Hid. destruct (byID m !! id) as [s|] eqn:E; [|done].
    apply (rf_id _ _ _ _ R) in E as [Hs <-]. destruct Hid. by apply list_elem_of_fmap_2.
Qed.

Definition demoOps : list Op :=
  [OpAcquire 1 (Some 5%nat) "7" "host" "42" "web-1" [Some 6%nat; None]; OpAcquire 2 (Some 8%nat) "9" "host" "42" "web-1" [];
   OpAcquire 3 None "7" "logs" "43" "db-1" []; OpRelease "i-2"].

End WsSessions.
