(* ===== verification/LogCommand.v ===== *)
(** * The command behind a log viewer

    [pkg/apis/compute/logs.go]: the browser picks a source, a unit, a
    priority or a file, and the server turns that into the argument vector
    the agent runs as root. [path/filepath.Clean] is the prelude's. *)

From stdpp Require Import gmap strings list.
From S2P Require Import Prelude IamValidation.

Module LogCommand.
Import IamValidation(regex(..), MatchString, alnum, matches, MatchString_spec).

Definition defaultLogTail : Z := 500.
Definition maxLogTail : Z := 10000.

Definition logPriorities : list string := ["emerg"; "alert"; "crit"; "err"; "warning"; "notice"; "info"; "debug"].

Definition unitFirst (c : ascii) : bool := alnum c || Ascii.eqb c "*".
Definition unitChar (c : ascii) : bool :=
  alnum c || str_in c "@_.:\*-".

Definition logUnitPattern : regex := RSeq (RChar unitFirst) (RStar (RChar unitChar)).

(** [strconv.Atoi]; a default for garbage, a cap for too much. *)
Definition parseLogTail (s : string) : Z :=
  match ParseInt s 64 with
  | None => defaultLogTail
  | Some n => if n <=? 0 then defaultLogTail else if maxLogTail <? n then maxLogTail else n
  end.

Definition controlChar (c : ascii) : bool := (N_of_ascii c <? 32)%N || (N_of_ascii c =? 127)%N.

Fixpoint hasControl (s : string) : bool :=
  match s with EmptyString => false | String c s' => controlChar c || hasControl s' end.

Definition validateLogPath (path : string) : option string :=
  if path =s "" then Some "path is required for the file source"
  else if (512 <? String.length path)%nat then Some "path too long"
  else if hasControl path then Some "path contains control characters"
  else if negb (HasPrefix path "/var/log/") || negb (Clean path =s path)
  then Some "path must be a clean absolute path under /var/log/"
  else None.

(** ** The argument vector *)

Definition param (params : gmap string string) (k : string) : string := default "" (params !! k).

(** The unit filter of the journal source. *)
Definition unitArgs (kernel : bool) (unit : string) : result string (list string) :=
  if kernel then Ok ["-k"]
  else if unit =s "" then Ok []
  else if (256 <? String.length unit)%nat || negb (MatchString logUnitPattern unit) then Err "invalid unit name"
  else Ok ["-u"; unit].

Definition prioArgs (prio : string) : result string (list string) :=
  if prio =s "" then Ok []
  else if negb (bool_decide (prio ∈ logPriorities)) then Err "invalid priority"
  else Ok ["-p"; prio].

Definition journalArgv (kernel : bool) (tail unit prio : string) (follow : bool) : result string (list string) :=
  match unitArgs kernel unit with
  | Err e => Err e
  | Ok us =>
      match prioArgs prio with
      | Err e => Err e
      | Ok ps => Ok (["journalctl"; "--no-pager"; "-o"; "short-iso"; "-n"; tail] ++ us ++ ps
                     ++ (if follow then ["-f"] else []))
      end
  end.

Definition fileArgv (tail path : string) (follow : bool) : result string (list string) :=
  match validateLogPath path with
  | Some e => Err e
  | None => Ok ((if follow then ["tail"; "-F"; "-n"; tail] else ["tail"; "-n"; tail]) ++ ["--"; path])
  end.

Definition logCommandFromParams (params : gmap string string) : result string (list string) :=
  let tail := FormatInt (parseLogTail (param params "tail")) in
  let follow := negb (param params "follow" =s "false") in
  let source := param params "source" in
  if (source =s "journal") || (source =s "kernel")
  then journalArgv (source =s "kernel") tail (param params "unit") (param params "priority") follow
  else if source =s "file" then fileArgv tail (param params "path") follow
  else Err "unknown log source".

(** ** What it can run *)

(** A name inside a directory: no separator, not the directory itself and
    not its parent. *)
Definition proper (c : string) : Prop := c <> "" /\ c <> "." /\ c <> ".." /\ str_in "/" c = false.

(** An argument that no program reads as an option. *)
Definition plain (a : string) : Prop := HasPrefix a "-" = false /\ a <> "".

Inductive Allowed : list string -> Prop :=
| AllowJournal n us ps fs : 1 <= n <= maxLogTail ->
    us = [] \/ us = ["-k"] \/ (exists u, us = ["-u"; u] /\ plain u /\ (String.length u <= 256)%nat) ->
    ps = [] \/ (exists p, ps = ["-p"; p] /\ p ∈ logPriorities) ->
    fs = [] \/ fs = ["-f"] ->
    Allowed (["journalctl"; "--no-pager"; "-o"; "short-iso"; "-n"; FormatInt n] ++ us ++ ps ++ fs)
| AllowFile n fs cs : 1 <= n <= maxLogTail -> fs = [] \/ fs = ["-F"] ->
    cs <> [] -> Forall proper cs ->
    Allowed (["tail"] ++ fs ++ ["-n"; FormatInt n; "--"; "/var/log/" +++ Join cs "/"]).

Lemma parseLogTail_range s : 1 <= parseLogTail s <= maxLogTail.
Proof.
  unfold parseLogTail, defaultLogTail, maxLogTail. destruct (ParseInt s 64) as [n|]; [|lia].
  destruct (Z.leb_spec n 0); [lia|]. destruct (Z.ltb_spec 10000 n); lia.
Qed.

Lemma unit_plain u : MatchString logUnitPattern u = true -> plain u.
Proof.
  rewrite MatchString_spec. unfold logUnitPattern. intros H. inversion H as [| | r1 r2 s1 s2 H1 H2 | | | |]; subst.
  inversion H1 as [|p c Hc| | | | |]; subst. split; [|done]. cbn. destruct c as [[] [] [] [] [] [] [] []]; done.
Qed.

Lemma Split_pieces s sep : Forall (fun c => str_in sep c = false) (Split s sep).
Proof.
  induction s as [|a s IH]; cbn [Split]; [by repeat constructor|]. destruct (Ascii.eqb a sep) eqn:E; [by constructor|].
  destruct (Split s sep) as [|x l] eqn:El; [by destruct (Split_nonnil s sep)|]. apply Forall_cons in IH as [Hx Hl]. constructor; [|done]. cbn.
  by rewrite E, Hx.
Qed.

(** In a rooted path the parent of the root is the root. *)
Lemma cleanStep_proper stack c : Forall proper stack -> str_in "/" c = false -> Forall proper (cleanStep true stack c).
Proof.
  intros Hs Hc. unfold cleanStep. destruct (String.eqb_spec c "") as [|H1]; [done|].
  destruct (String.eqb_spec c ".") as [|H2]; [done|]. cbn. destruct (String.eqb_spec c "..") as [->|H3].
  - destruct Hs as [|top rest Ht Hr]; [done|]. destruct (String.eqb_spec top ".."); [|done]. by destruct Ht as (_ & _ & ? & _).
  - constructor; [|done]. by repeat split.
Qed.

Lemma Clean_fixed_proper path : HasPrefix path "/" = true -> Clean path = path ->
  exists cs, path = "/" +++ Join cs "/" /\ Forall proper cs.
Proof.
  intros Hp Hc. unfold Clean in Hc. rewrite Hp in Hc. destruct (String.eqb_spec path "") as [->|]; [done|].
  exists (reverse (foldl (cleanStep true) [] (Split path "/"))). split; [done|]. apply Forall_reverse.
  assert (H : forall l st, Forall proper st -> Forall (fun c => str_in "/" c = false) l ->
    Forall proper (foldl (cleanStep true) st l)).
  { induction l as [|c l IH]; intros st Hst Hl; [done|]. apply Forall_cons in Hl as [Hc1 Hl].
    apply IH; [by apply cleanStep_proper | done]. }
  apply H; [constructor | apply Split_pieces].
Qed.

Lemma validateLogPath_inside path : validateLogPath path = None ->
  exists cs, cs <> [] /\ Forall proper cs /\ path = "/var/log/" +++ Join cs "/".
Proof.
  unfold validateLogPath. destruct (path =s ""); [done|]. destruct (_ <? _)%nat; [done|].
  destruct (hasControl path); [done|]. destruct (HasPrefix path "/var/log/") eqn:Hp; [|done].
  destruct (String.eqb_spec (Clean path) path) as [Hc|]; [|done]. intros _.
  apply HasPrefix_spec in Hp as [r ->]. exists (Split r "/").
  split; [apply Split_nonnil|]. split; [|by rewrite Join_Split].
  apply Clean_fixed_proper in Hc as (cs & E & Hcs); [|done]. injection E as E.
  assert (Hne : cs <> []) by by intros ->. assert (Hns : Forall (fun s => str_in "/" s = false) cs).
  { eapply Forall_impl; [exact Hcs|]. by intros c (_ & _ & _ & ?). }
  assert (Es : cs = "var" :: "log" :: Split r "/") by (rewrite <- (Split_join cs "/" Hne Hns), <- E; done).
  rewrite Es in Hcs. by apply Forall_cons in Hcs as [_ [_ ?]%Forall_cons].
Qed.

Lemma unitArgs_allowed kernel unit us : unitArgs kernel unit = Ok us ->
  us = [] \/ us = ["-k"] \/ (exists u, us = ["-u"; u] /\ plain u /\ (String.length u <= 256)%nat).
Proof.
  unfold unitArgs. destruct kernel; [intros [= <-]; auto|]. destruct (unit =s ""); [intros [= <-]; auto|].
  destruct (Nat.ltb_spec 256 (String.length unit)); [done|]. destruct (MatchString logUnitPattern unit) eqn:Hm; [|done].
  intros [= <-]. right; right. exists unit. split; [done|]. split; [by apply unit_plain | done].
Qed.

Lemma prioArgs_allowed prio ps : prioArgs prio = Ok ps -> ps = [] \/ (exists p, ps = ["-p"; p] /\ p ∈ logPriorities).
Proof.
  unfold prioArgs. destruct (prio =s ""); [intros [= <-]; auto|]. case_bool_decide; [|done].
  intros [= <-]. right. by exists prio.
Qed.

Lemma command_allowed params argv : logCommandFromParams params = Ok argv -> Allowed argv.
Proof.
  unfold logCommandFromParams. assert (Hn := parseLogTail_range (param params "tail")).
  destruct (_ || _).
  - unfold journalArgv. destruct (unitArgs _ _) as [us|] eqn:Hu; [|done]. destruct (prioArgs _) as [ps|] eqn:Hp; [|done].
    intros [= <-]. apply (AllowJournal _ us ps); [done | by eapply unitArgs_allowed | by eapply prioArgs_allowed|].
    destruct (negb _); auto.
  - destruct (_ =s _); [|done]. unfold fileArgv. destruct (validateLogPath _) eqn:Hv; [done|].
    intros [= <-]. apply validateLogPath_inside in Hv as (cs & Hne & Hcs & ->).
    destruct (negb _); [apply (AllowFile _ ["-F"]) | apply (AllowFile _ [])]; auto.
Qed.

(** C18: Whatever a browser puts in the query of a log stream, the command
    the agent is asked to run as root is one of two fixed shapes:
    [journalctl] with a bounded tail, an optional unit that cannot be read
    as an option and a known priority, or [tail] of a file strictly inside
    /var/log, named component by component without an empty, "." or ".."
    step, after the "--" that ends the options. *)
Theorem log_command_confined params argv : logCommandFromParams params = Ok argv -> Allowed argv.
Proof. apply command_allowed. Qed.

Definition demoParams : gmap string string :=
  {["source" := "file"; "path" := "/var/log/nginx/access.log"; "tail" := "999999"]}.

Lemma log_command_confined_witness :
  logCommandFromParams demoParams = Ok ["tail"; "-F"; "-n"; "10000"; "--"; "/var/log/nginx/access.log"]
  /\ Allowed ["tail"; "-F"; "-n"; "10000"; "--"; "/var/log/nginx/access.log"].
Proof. split; [by vm_compute | apply (log_command_confined demoParams); by vm_compute]. Defined.

(** Traversals, doubled separators and the directory itself are refused. *)
Example refused_paths : validateLogPath <$> ["/var/log/../../etc/shadow"; "/var/log/"; "/var/log//x"; "/var/log/a/.."; "/etc/shadow"; "/var/logs/x"]
  = replicate 6 (Some "path must be a clean absolute path under /var/log/").
Proof. by vm_compute. Qed.

Example cleans : Clean <$> ["/a/b/../c/./d//e/"; "../x/../../y"; "/.."; ""; "a/.."] = ["/a/c/d/e"; "../../y"; "/"; "."; "."].
Proof. by vm_compute. Qed.

End LogCommand.
