(* ===== verification/Streams.v ===== *)
(** * Terminals and log streams

    [pkg/apis/compute/terminal.go] and [logs.go]: the handlers behind the
    two WebSocket routes of a host. They look the host up in the scope of
    the URL ([FleetStore]), count and register the session ([WsSessions])
    and open a stream on the host's data channel ([DataHub]); the world is
    those three side by side. A session lasts until the schedule lets its
    handler go on, whatever ended it. *)

From stdpp Require Import gmultiset.
From S2P Require Import Prelude Rbac IamDb IamStore OidcStore AgentToken AgentIdentity AgentRegistry Atomic FleetDb FleetStore FleetHosts DataHub WsSessions LogCommand.

Module Streams.
Import IamStore(GoErr(..)).
Import Atomic.
Import FleetDb(hosts, Filter, FromIDs, Tenancy, inScope, hTenancy, hConnectivityMode, hName, hFacts, fHostname, Host, HostAgent).
Import FleetStore(hostGetByID).
Import FleetHosts(IsNotFoundFromDomain).
Import WsSessions(SessionManager, Session, Acquire, Release, CountByResource, NewSessionManager).
Import DataHub(Hub, Fate, OpenError(..), Trouble(..), Outcome(..), OpenStream, accept, NewDataHub).
Import LogCommand(logCommandFromParams, param, Allowed).

(** ** Sizes *)

Definition minTerminalCols : Z := 10.
Definition maxTerminalCols : Z := 1000.
Definition minTerminalRows : Z := 5.
Definition maxTerminalRows : Z := 500.
Definition DefaultCols : Z := 80.
Definition DefaultRows : Z := 24.

Definition uint16 (z : Z) : Z := z mod 65536.

Definition validTerminalSize (cols rows : Z) : bool :=
  (minTerminalCols <=? cols) && (cols <=? maxTerminalCols) && (minTerminalRows <=? rows) && (rows <=? maxTerminalRows).

Definition parseTerminalSize (colsStr rowsStr : string) : Z * Z :=
  (match ParseInt colsStr 64 with
   | Some c => if (minTerminalCols <=? c) && (c <=? maxTerminalCols) then c else DefaultCols
   | None => DefaultCols
   end,
   match ParseInt rowsStr 64 with
   | Some r => if (minTerminalRows <=? r) && (r <=? maxTerminalRows) then r else DefaultRows
   | None => DefaultRows
   end).

(** A decoded browser message; a resize may not decode. *)
Inductive BrowserMsg :=
| BrowserData (payload : string)
| BrowserResize (size : option (Z * Z))
| BrowserOther.

Inductive AgentMsg := AgentData (payload : string) | AgentResize (cols rows : Z).

(** The messages [pumpBrowserToAgent] writes for one it received. *)
Definition forward (m : BrowserMsg) : list AgentMsg :=
  match m with
  | BrowserData p => [AgentData p]
  | BrowserResize (Some (c, r)) => if validTerminalSize c r then [AgentResize (uint16 c) (uint16 r)] else []
  | BrowserResize None | BrowserOther => []
  end.

Definition pumpBrowserToAgent (ms : list BrowserMsg) : list AgentMsg := concat (forward <$> ms).

(** ** Texts *)

Definition openFailureReason (e : OpenError) (what : string) : string :=
  match e with
  | ErrTrigger (Missed Reg.ErrHostUnreachable) => "this host's agent is not connected"
  | ErrTrigger (Missed (Reg.ErrHostOnAnotherInstance _)) =>
      "this host is connected to another server replica, which cannot be reached yet"
  | ErrContext => "the host did not open its data channel in time"
  | StreamRejected _ message => "the agent refused the " +++ what +++ ": " +++ message
  | _ => "could not open a " +++ what +++ " on this host"
  end.

(** A decoded [PTYExit]. *)
Record PTYExit := mkExit { exCode : Z; exError : string }.

Definition exitMessage (exit : option PTYExit) : string :=
  match exit with
  | None => "shell exited"
  | Some e =>
      if negb (exError e =s "") then "shell exited: " +++ exError e
      else if negb (exCode e =? 0) then "shell exited with code " +++ FormatInt (exCode e)
      else "shell exited normally"
  end.

Definition logEndMessage (exit : option PTYExit) : string :=
  match exit with
  | None => "log stream ended"
  | Some e =>
      if negb (exError e =s "") then "log stream ended: " +++ exError e
      else if negb (exCode e =? 0) then "log stream ended with code " +++ FormatInt (exCode e)
      else "log stream ended"
  end.

(** ** The world *)

Inductive Kind := PTY (cols rows : Z) | Exec (argv : list string).

(** A stream that was opened: for which connection, for which host, on which
    session of the hub, and the header it was opened with. *)
Record Opening := mkOpening { opConn : nat; opHost : Z; opSess : nat; opKind : Kind }.

Record World := mkStreams {
  wFleet : FleetDb.World;
  wMgr : SessionManager;
  wHub : Hub;
  wOpenings : list Opening;
  wSent : list (nat * string * string)      (** connection, status, message *)
}.

Definition set_fleet (x : FleetDb.World) (w : World) : World :=
  mkStreams x (wMgr w) (wHub w) (wOpenings w) (wSent w).
Definition set_hub (x : Hub) (w : World) : World := mkStreams (wFleet w) (wMgr w) x (wOpenings w) (wSent w).
Definition set_mgr (x : SessionManager) (w : World) : World :=
  mkStreams (wFleet w) x (wHub w) (wOpenings w) (wSent w).

Definition inFleet {A} : Proc FleetDb.World A -> Proc World A := zoom wFleet set_fleet.
Definition inHub {A} : Proc Hub A -> Proc World A := zoom wHub set_hub.

(** ** Handlers *)

Record Request := mkRequest {
  rqUser : Z; rqParams : gmap string string; rqConn : nat; rqCtx : nat; rqDialer : bool; rqNow : Z
}.

(** Write errors are dropped. *)
Definition sendStatus (rq : Request) (status message : string) : Proc World unit :=
  atom (fun w => (tt, mkStreams (wFleet w) (wMgr w) (wHub w) (wOpenings w) (wSent w ++ [(rqConn rq, status, message)]))).

Definition parseScopeID (raw : string) : Z * bool :=
  if raw =s "" then (0, false)
  else match ParseInt raw 64 with Some id => (id, true) | None => (0, false) end.

Definition urlScope (rq : Request) : Filter :=
  FromIDs (parseScopeID (param (rqParams rq) "workspaceId")).1 (parseScopeID (param (rqParams rq) "namespaceId")).1.

Definition lookupStreamHost (rq : Request) : Proc World (option (Host * Z)) :=
  match ParseInt (param (rqParams rq) "hostId") 64 with
  | Some hostID =>
      if hostID <=? 0 then _ <-~ sendStatus rq "error" "invalid host id" ;; Ret None
      else
        r <-~ inFleet (hostGetByID hostID (urlScope rq)) ;;
        match r with
        | Ok row => Ret (Some (row.1, hostID))
        | Err e =>
            gone <-~ inFleet (IsNotFoundFromDomain e) ;;
            _ <-~ sendStatus rq "error" (if gone : bool then "host not found" else "could not look up this host") ;;
            Ret None
        end
  | None => _ <-~ sendStatus rq "error" "invalid host id" ;; Ret None
  end.

Definition countSessions (userID resource : string) : Proc World Z :=
  atom (fun w => (CountByResource userID resource (wMgr w), w)).

Definition acquire (rq : Request) (userID resource resourceID label : string) : Proc World Session :=
  atom (fun w => let '(s, m) := Acquire (rqNow rq) (Some (rqConn rq)) userID resource resourceID label
                                  [Some (rqCtx rq)] (wMgr w) in (s, set_mgr m w)).

Definition release (id : string) : Proc World unit := atom (fun w => (tt, set_mgr (Release id (wMgr w)) w)).

Definition noteOpening (o : Opening) : Proc World unit :=
  atom (fun w => (tt, mkStreams (wFleet w) (wMgr w) (wHub w) (wOpenings w ++ [o]) (wSent w))).

Section Handlers.
Context (fate : nat -> Fate).

(** [Dialer.StreamFor]; a stream that opens is noted with its session. *)
Definition StreamFor (rq : Request) (hostID : Z) (kind : Kind) : Proc World Outcome :=
  o <-~ inHub (OpenStream fate hostID) ;;
  match o with
  | Stream s => _ <-~ noteOpening (mkOpening (rqConn rq) hostID s kind) ;; Ret o
  | _ => Ret o
  end.

(** From [Acquire] to the deferred [Release]. *)
Definition hold (rq : Request) (what resource : string) (host : Host) (hostID : Z) (kind : Kind) : Proc World Outcome :=
  let label := if negb (fHostname (hFacts host) =s "") then fHostname (hFacts host) else hName host in
  sess <-~ acquire rq (FormatInt (rqUser rq)) resource (FormatInt hostID) label ;;
  o <-~ StreamFor rq hostID kind ;;
  _ <-~ match o with
        | Stream _ => sendStatus rq "connected" label
        | Failed e => sendStatus rq "error" (openFailureReason e what)
        | Served | Crashed => Ret tt
        end ;;
  _ <-~ release (WsSessions.ID sess) ;;
  Ret o.

Definition maxTerminalsPerUser : Z := 20.
Definition maxLogStreamsPerUser : Z := 20.

Definition refuse (rq : Request) (message : string) : Proc World Outcome :=
  _ <-~ sendStatus rq "error" message ;; Ret Served.

Definition runTerminalSession (rq : Request) : Proc World Outcome :=
  if negb (rqDialer rq) then refuse rq "the agent data plane is not available on this server"
  else
    found <-~ lookupStreamHost rq ;;
    match found with
    | None => Ret Served
    | Some (host, hostID) =>
        if negb (hConnectivityMode host =s "agent") then refuse rq "this host has no agent; install one to open a terminal"
        else
          n <-~ countSessions (FormatInt (rqUser rq)) "host" ;;
          if maxTerminalsPerUser <=? n then
            refuse rq ("you already have " +++ FormatInt maxTerminalsPerUser +++ " terminals open")
          else
            let '(cols, rows) := parseTerminalSize (param (rqParams rq) "cols") (param (rqParams rq) "rows") in
            hold rq "terminal" "host" host hostID (PTY (uint16 cols) (uint16 rows))
    end.

Definition runLogsSession (rq : Request) : Proc World Outcome :=
  if negb (rqDialer rq) then refuse rq "the agent data plane is not available on this server"
  else
    found <-~ lookupStreamHost rq ;;
    match found with
    | None => Ret Served
    | Some (host, hostID) =>
        if negb (hConnectivityMode host =s "agent") then refuse rq "this host has no agent; install one to view its logs"
        else
          match logCommandFromParams (rqParams rq) with
          | Err e => refuse rq e
          | Ok argv =>
              n <-~ countSessions (FormatInt (rqUser rq)) "host-logs" ;;
              if maxLogStreamsPerUser <=? n then
                refuse rq ("you already have " +++ FormatInt maxLogStreamsPerUser +++ " log streams open")
              else hold rq "log stream" "host-logs" host hostID (Exec argv)
          end
    end.

(** ** Everything at once *)

Inductive Task := Terminal (rq : Request) | Logs (rq : Request) | Dial (hostID : Z).

Definition serve (t : Task) : Proc World Outcome :=
  match t with
  | Terminal rq => runTerminalSession rq
  | Logs rq => runLogsSession rq
  | Dial h => inHub (accept fate h)
  end.

(** Beside the handlers: sessions die, and the fleet changes in any way. *)
Inductive Move := Turn (i : nat) | Dies (s : nat) | Fleet (f : FleetDb.World -> FleetDb.World).

Definition event (m : Move) : Event World :=
  match m with
  | Turn i => Step i
  | Dies s => Env (fun w => set_hub (DataHub.dies s (wHub w)) w)
  | Fleet f => Env (fun w => set_fleet (f (wFleet w)) w)
  end.

Definition start (fleet : FleetDb.World) (idle : Z) (instance : string) : World :=
  mkStreams fleet (NewSessionManager idle instance) NewDataHub [] [].

Definition history (w : World) (ts : list Task) (ms : list Move) : list (Proc World Outcome) * World :=
  exec (event <$> ms) (serve <$> ts, w).

End Handlers.

(** ** The protocol

    Every handler owns the ids of the sessions it has registered and the
    acquisitions it may still make, beside its part of the data hub. *)

Definition sizeOk (cols rows : Z) : Prop :=
  minTerminalCols <= cols <= maxTerminalCols /\ minTerminalRows <= rows <= maxTerminalRows.

(** What [rq] may open with this header. *)
Definition headerFor (ts : list Task) (rq : Request) (k : Kind) : Prop :=
  match k with
  | PTY c r =>
      Terminal rq ∈ ts /\ (c, r) = parseTerminalSize (param (rqParams rq) "cols") (param (rqParams rq) "rows")
      /\ sizeOk c r
  | Exec argv => Logs rq ∈ ts /\ logCommandFromParams (rqParams rq) = Ok argv /\ Allowed argv
  end.

(** [id] named, in one of the states [S] of the table, an agent host in the
    scope of the URL. *)
Definition reachable (S : gmap Z Host -> Prop) (rq : Request) (id : Z) : Prop :=
  exists table row, S table /\ table !! id = Some row
    /\ inScope (urlScope rq) (hTenancy row) = true /\ hConnectivityMode row = "agent".

(** An opening that one of the requests accounts for. *)
Definition good (ts : list Task) (S : gmap Z Host -> Prop) (o : Opening) : Prop :=
  exists rq, rqConn rq = opConn o /\ ParseInt (param (rqParams rq) "hostId") 64 = Some (opHost o)
    /\ headerFor ts rq (opKind o) /\ reachable S rq (opHost o).

(** The states the table of hosts went through. *)
Definition tables (fate : nat -> Fate) (w : World) (ts : list Task) (ms : list Move) (table : gmap Z Host) : Prop :=
  exists n, table = hosts (wFleet (history fate w ts (take n ms)).2).

Abbreviation Held := (gmultiset string * nat)%type.
Abbreviation Share := (gmultiset DataHub.Tag * Held)%type.

Definition idsOf (l : list Session) : gmultiset string := list_to_set_disj (WsSessions.ID <$> l).

Section Protocol.
Context (inst : string) (N : Z) (HN : N < 2 ^ 63) (ts : list Task) (S : gmap Z Host -> Prop).

Record Own (s : Held) (w : World) : Prop := {
  own_mgr : exists n l, WsSessions.Refines inst (wMgr w) n l /\ s.1 = idsOf l /\ n + Z.of_nat s.2 <= N;
  own_good : Forall (good ts S) (wOpenings w);
  own_tables : S (hosts (wFleet w))
}.

(** What the openings say of the hub's sessions. *)
Definition vouched (w : World) : gmultiset DataHub.Tag :=
  list_to_set_disj ((fun o => DataHub.From (opHost o) (opSess o)) <$> wOpenings w).

Definition Inv (r : Share) (w : World) : Prop := DataHub.Inv (rop (vouched w) r.1) (wHub w) /\ Own r.2 w.

#[local] Arguments rop : simpl never.

Lemma own_set_hub s v w : Own s w -> Own s (set_hub v w).
Proof. by intros []. Qed.

Lemma safe_quiet {A X} (q : World -> X * World) (k : X -> Proc World A) post r :
  (forall r w, Inv r w -> Inv r (q w).2) -> (forall x, safe Inv post r (k x)) -> safe Inv post r (bind (atom q) k).
Proof. intros Hq Hk rest w HI. exists r. split; [by apply Hq | apply Hk]. Qed.

Lemma safe_sendStatus {A} rq st msg (k : unit -> Proc World A) post r :
  safe Inv post r (k tt) -> safe Inv post r (bind (sendStatus rq st msg) k).
Proof. intros Hk. apply safe_quiet; [by intros r' w [? []] | by intros []]. Qed.

Lemma safe_fleet {A B} (P : A -> Prop) (p : Proc FleetDb.World A) (k : A -> Proc World B) post r :
  answers (fun v => S (hosts v)) P p -> (forall a, P a -> safe Inv post r (k a)) -> safe Inv post r (bind (inFleet p) k).
Proof.
  intros Hp Hk. eapply safe_bind.
  - apply (safe_zoom_blind wFleet set_fleet Inv (fun v => S (hosts v)) P); [| |exact Hp].
    + by intros r' w [_ []].
    + by intros r' v w [? []].
  - intros r' a [-> Ha]. by apply Hk.
Qed.

(** The row the table held under [id], in the scope asked for. *)
Definition foundAt (sf : Filter) (id : Z) (row : Host) : Prop :=
  exists table, S table /\ table !! id = Some row /\ inScope sf (hTenancy row) = true.

Lemma answers_hostGet id sf : answers (fun v => S (hosts v))
  (fun r => match r with Ok row => foundAt sf id row.1 | Err _ => True end) (hostGetByID id sf).
Proof.
  intros v HS. cbn. unfold FleetDb.runStmt, FleetDb.popFault, FleetDb.GetHostByID.
  destruct (FleetDb.faults v) as [|[] fs]; cbn; try done; destruct (hosts v !! id) as [h|] eqn:Eh; cbn; try done;
    destruct (inScope sf (hTenancy h)) eqn:E; cbn; try done; split; try done; by exists (hosts v).
Qed.

Lemma answers_notFound e : answers (fun v => S (hosts v)) (fun _ => True) (IsNotFoundFromDomain e).
Proof. unfold IsNotFoundFromDomain. by destruct (IamStore.FromDomain e). Qed.

(** What a lookup found is the host of the request, in the scope of its URL. *)
Definition foundFor (rq : Request) (x : option (Host * Z)) : Prop :=
  match x with
  | Some (h, id) => ParseInt (param (rqParams rq) "hostId") 64 = Some id /\ foundAt (urlScope rq) id h
  | None => True
  end.

Lemma safe_lookup rq r : safe Inv (fun r' x => r' = r /\ foundFor rq x) r (lookupStreamHost rq).
Proof using inst N.
  unfold lookupStreamHost. destruct (ParseInt _ _) as [id|] eqn:Ep; [|by apply safe_sendStatus].
  destruct (id <=? 0); [by apply safe_sendStatus|]. eapply safe_fleet; [apply answers_hostGet|].
  intros [row|e] Ha; [done|]. eapply safe_fleet; [apply answers_notFound|]. intros gone _. by apply safe_sendStatus.
Qed.

(** Registering a session spends a permit and yields its id. *)
Lemma safe_acquire {A} rq u rs ri lb (k : Session -> Proc World A) post h held n :
  (forall s, safe Inv post (h, (rop {[+ WsSessions.ID s +]} held, n)) (k s)) ->
  safe Inv post (h, (held, Datatypes.S n)) (bind (acquire rq u rs ri lb) k).
Proof using HN.
  intros Hk [rh [rt rp]] w [HI [(m & l & R & El & Hm) Hg Ht]].
  change (rop (h, (held, Datatypes.S n)) (rh, (rt, rp))) with (rop h rh, (rop held rt, (Datatypes.S n + rp)%nat)) in *. cbn in El, Hm.
  destruct (WsSessions.refines_acquire inst (wMgr w) m l (rqNow rq) (Some (rqConn rq)) u rs ri lb [Some (rqCtx rq)] R
    ltac:(lia)) as [E1 R']. cbn [acquire atom bind].
  destruct (Acquire _ _ _ _ _ _ _ _) as [s mgr]. cbn in E1, R'. subst s.
  eexists (h, (rop {[+ _ +]} held, n)). split; [|apply Hk].
  split; [done|]. split; [|done..]. eexists (m + 1), _. split; [exact R'|].
  change (rop (h, (?a, n)) (rh, (rt, rp))) with (rop h rh, (rop a rt, (n + rp)%nat)). cbn.
  split; [|lia]. rewrite <- rop_assoc, El. unfold idsOf. rewrite fmap_app, list_to_set_disj_app.
  cbn [fmap list_fmap]. rewrite list_to_set_disj_cons, list_to_set_disj_nil, (right_id_L ∅ (⊎)).
  apply (comm_L (⊎)).
Qed.

Lemma idsOf_drop id l : NoDup (WsSessions.ID <$> l) -> id ∈ WsSessions.ID <$> l ->
  idsOf l = {[+ id +]} ⊎ idsOf (filter (fun s => WsSessions.ID s <> id) l).
Proof.
  unfold idsOf. induction l as [|s l IH]; [by intros _ ?%elem_of_nil|]. cbn [fmap list_fmap].
  intros [Hs Hl]%NoDup_cons Hid. rewrite list_to_set_disj_cons. destruct (decide (WsSessions.ID s = id)) as [<-|Hne].
  - rewrite filter_cons_False by auto. rewrite WsSessions.filter_all; [done|].
    intros x Hx E. apply Hs. rewrite <- E. by apply list_elem_of_fmap_2.
  - rewrite filter_cons_True by done. apply elem_of_cons in Hid as [->|Hid]; [done|].
    cbn [fmap list_fmap]. rewrite list_to_set_disj_cons, (IH Hl Hid), !(assoc_L (⊎)). f_equal. apply (comm_L (⊎)).
Qed.

Lemma safe_release {A} id (k : unit -> Proc World A) post h held n :
  safe Inv post (h, (held, n)) (k tt) ->
  safe Inv post (h, (rop {[+ id +]} held, n)) (bind (release id) k).
Proof using inst N.
  intros Hk [rh [rt rp]] w [HI [(m & l & R & El & Hm) Hg Ht]]. exists (h, (held, n)).
  change (rop (h, (?a, n)) (rh, (rt, rp))) with (rop h rh, (rop a rt, (n + rp)%nat)) in *. cbn in El, Hm.
  split; [|done]. split; [done|]. split; [|done..]. exists m, (filter (fun s => WsSessions.ID s <> id) l).
  split; [by apply WsSessions.refines_release|]. cbn. split; [|done].
  rewrite <- rop_assoc in El. assert (Hid : id ∈ WsSessions.ID <$> l).
  { apply elem_of_list_to_set_disj. fold (idsOf l). rewrite <- El. apply gmultiset_elem_of_disj_union. left.
    by apply gmultiset_elem_of_singleton. }
  rewrite (idsOf_drop id l) in El; [|apply (WsSessions.rf_nodup _ _ _ _ R) | done].
  by apply (inj (disj_union {[+ id +]})) in El.
Qed.

(** A stream may be noted by a thread that knows its session's host. *)
Lemma safe_noteOpening {A} (o : Opening) (k : unit -> Proc World A) (post : Share -> A -> Prop) (r : Share) :
  good ts S o -> DataHub.knows (opHost o) (opSess o) r.1 -> safe Inv post r (k tt) ->
  safe Inv post r (bind (noteOpening o) k).
Proof.
  intros Ho Hn Hk rest w [HI [H1 H2 H3]]. exists r. split; [|done]. split.
  - cbn. unfold vouched. cbn. rewrite fmap_app, list_to_set_disj_app. cbn [fmap list_fmap].
    rewrite list_to_set_disj_cons, list_to_set_disj_nil, (right_id_L ∅ (⊎)).
    change (DataHub.Inv ((vouched w ⊎ {[+ DataHub.From (opHost o) (opSess o) +]}) ⊎ rop r.1 rest.1) (wHub w)).
    rewrite (comm_L (⊎) (vouched w)), <- (assoc_L (⊎)). apply DataHub.Inv_from; [|done].
    apply (DataHub.knows_owner _ _ (rop (vouched w) r.1) rest.1); [|by rewrite <- rop_assoc].
    unfold DataHub.knows in *. change (rop (vouched w) r.1) with (vouched w ⊎ r.1).
    rewrite multiplicity_disj_union. lia.
  - split; [done| |done]. cbn. apply Forall_app. split; [done | by apply Forall_singleton].
Qed.

(** Nothing registered and nothing parked is left behind. *)
Definition clean (r : Share) (a : Outcome) : Prop := a <> Crashed /\ DataHub.idle r.1 /\ r.2.1 = ∅.

Lemma safe_StreamFor fate rq hostID kind (h : Held) :
  (forall s, good ts S (mkOpening (rqConn rq) hostID s kind)) ->
  safe Inv (fun r o => DataHub.finished r.1 o /\ r.2 = h) (rid, h) (StreamFor fate rq hostID kind).
Proof.
  intros Hg. eapply safe_bind; [apply safe_zoom; [done | done | apply own_set_hub | apply DataHub.keeps_OpenStream]|].
  intros [r' h'] o [[Hf Hs] E]. cbn in E. subst h'. destruct o as [x|e| |]; [|done..].
  apply safe_noteOpening; [done | by apply Hs | done].
Qed.

Lemma safe_hold fate rq what rs host hostID kind n :
  (forall s, good ts S (mkOpening (rqConn rq) hostID s kind)) ->
  safe Inv clean (rid, (∅, Datatypes.S n)) (hold fate rq what rs host hostID kind).
Proof using HN.
  intros Hg. unfold hold. cbv zeta. apply safe_acquire. intros s.
  eapply safe_bind; [by apply safe_StreamFor|].
  intros [r' h'] o [[Hc Hi] E]. cbn in E, Hi. subst h'.
  assert (Hend : safe Inv clean (r', (rop {[+ WsSessions.ID s +]} ∅, n))
    (bind (release (WsSessions.ID s)) (fun _ => Ret o))) by by apply safe_release.
  by destruct o as [x|e| |]; [apply safe_sendStatus | apply safe_sendStatus | |].
Qed.

Lemma safe_refuse rq msg n : safe Inv clean (rid, (∅, n)) (refuse rq msg).
Proof.
  apply safe_sendStatus. split; [done|]. split; [apply DataHub.idle_empty | done].
Qed.

Lemma uint16_id z : 0 <= z <= 1000 -> uint16 z = z.
Proof. intros Hz. unfold uint16. apply Z.mod_small. lia. Qed.

Lemma parseTerminalSize_ok c r : sizeOk (parseTerminalSize c r).1 (parseTerminalSize c r).2.
Proof.
  unfold sizeOk, parseTerminalSize, minTerminalCols, maxTerminalCols, minTerminalRows, maxTerminalRows, DefaultCols, DefaultRows. cbn.
  split.
  - destruct (ParseInt c 64) as [z|]; [|done]. destruct (Z.leb_spec 10 z), (Z.leb_spec z 1000); cbn; lia.
  - destruct (ParseInt r 64) as [z|]; [|done]. destruct (Z.leb_spec 5 z), (Z.leb_spec z 500); cbn; lia.
Qed.

Lemma safe_found rq (f : Host -> Z -> Proc World Outcome) n :
  (forall h id, foundFor rq (Some (h, id)) -> safe Inv clean (rid, (∅, n)) (f h id)) ->
  safe Inv clean (rid, (∅, n)) (bind (lookupStreamHost rq) (fun found =>
    match found with None => Ret Served | Some (host, hostID) => f host hostID end)).
Proof.
  intros Hf. eapply safe_bind; [apply safe_lookup|]. intros r' [[h id]|] [-> Hx]; [by apply Hf|].
  split; [done|]. split; [apply DataHub.idle_empty | done].
Qed.

Lemma found_good rq h id kind s : foundFor rq (Some (h, id)) -> hConnectivityMode h = "agent" ->
  headerFor ts rq kind -> good ts S (mkOpening (rqConn rq) id s kind).
Proof. intros [Hp (table & HS & Ht & Hs)] Hm Hh. exists rq. repeat split; try done. by exists table, h. Qed.

Lemma safe_terminal fate rq : Terminal rq ∈ ts -> safe Inv clean (rid, (∅, 1%nat)) (runTerminalSession fate rq).
Proof using HN.
  intros Hin. unfold runTerminalSession. destruct (rqDialer rq); [|apply safe_refuse]. apply safe_found. intros h id Hs.
  destruct (String.eqb_spec (hConnectivityMode h) "agent") as [Hm|]; [|apply safe_refuse].
  apply safe_quiet; [done|]. intros c. destruct (_ <=? _); [apply safe_refuse|].
  assert (Hz := parseTerminalSize_ok (param (rqParams rq) "cols") (param (rqParams rq) "rows")).
  destruct (parseTerminalSize _ _) as [cols rows] eqn:Ez. apply safe_hold. intros s. eapply found_good; [done | done|].
  assert (Hz' := Hz). destruct Hz' as [Hc Hr]. unfold minTerminalCols, maxTerminalCols, minTerminalRows, maxTerminalRows in Hc, Hr.
  cbn in Hc, Hr. cbn. rewrite !uint16_id by lia. by rewrite Ez.
Qed.

Lemma safe_logs fate rq : Logs rq ∈ ts -> safe Inv clean (rid, (∅, 1%nat)) (runLogsSession fate rq).
Proof using HN.
  intros Hin. unfold runLogsSession. destruct (rqDialer rq); [|apply safe_refuse]. apply safe_found. intros h id Hs.
  destruct (String.eqb_spec (hConnectivityMode h) "agent") as [Hm|]; [|apply safe_refuse].
  destruct (logCommandFromParams (rqParams rq)) as [argv|e] eqn:El; [|apply safe_refuse].
  apply safe_quiet; [done|]. intros c. destruct (_ <=? _); [apply safe_refuse|].
  apply safe_hold. intros s. eapply found_good; [done | done|]. split; [done|]. split; [done|].
  by eapply LogCommand.command_allowed.
Qed.

Lemma safe_serve fate t : t ∈ ts -> safe Inv clean (rid, (∅, 1%nat)) (serve fate t).
Proof using HN.
  intros Hin. destruct t as [rq|rq|h]; [by apply safe_terminal | by apply safe_logs|].
  eapply safe_mono; [|apply safe_zoom; [done | done | apply own_set_hub | apply DataHub.keeps_accept]].
  intros [r' h'] o [[Hc Hi] E]. cbn in *. by subst.
Qed.

End Protocol.

Lemma total_clean (rs : list Share) : Forall (fun r => exists a, clean r a) rs ->
  DataHub.idle (total rs).1 /\ (total rs).2.1 = ∅.
Proof.
  induction 1 as [|r rs (a & _ & Hi & Hh) _ [IH1 IH2]]; [split; [apply DataHub.idle_empty | done]|].
  change (total (r :: rs)) with (rop r.1 (total rs).1, (rop r.2.1 (total rs).2.1, rop r.2.2 (total rs).2.2)). cbn [fst snd].
  split; [|rewrite Hh, IH2; apply (left_id_L ∅ (⊎))].
  by apply (DataHub.idle_plus r.1).
Qed.

Lemma streams_history fate fleet idle inst ts ms : Z.of_nat (length ts) < 2 ^ 63 ->
  let w := start fleet idle inst in
  let I := Inv inst (Z.of_nat (length ts)) ts (tables fate w ts ms) in
  exists rs, Forall3 (fun post r p => safe I post r p) (replicate (length ts) clean) rs (history fate w ts ms).1
  /\ I (total rs) (history fate w ts ms).2.
Proof.
  intros HN w I. apply (exec_safe_along I) with (rs := replicate (length ts) (rid, (∅, 1%nat))).
  - assert (Hall : forall t, t ∈ ts -> safe I clean (rid, (∅, 1%nat)) (serve fate t)) by (intros t; by apply safe_serve).
    revert Hall. clearbody I. clear. induction ts as [|t ts IH]; constructor; [apply Hall; left | apply IH; intros t' Ht; apply Hall; by right].
  - assert (Et : total (replicate (length ts) ((rid, (∅, 1%nat)) : Share)) = (rid, (∅, length ts))).
    { generalize (length ts). intros n. induction n as [|n IHn]; [done|]. cbn [replicate]. 
      change (total (?a :: ?l)) with (rop a (total l)). rewrite IHn. done. }
    rewrite Et. split; [|split; [|constructor|by exists O]].
    { change (DataHub.Inv (∅ ⊎ ∅) NewDataHub). rewrite (left_id_L ∅ (⊎)). apply DataHub.Inv_empty. }
    exists 0, []. split; [apply WsSessions.refines_new|]. split; [done|]. cbn. lia.
  - intros n f. rewrite list_lookup_fmap. destruct (ms !! n) as [m|] eqn:Em; [|done]. cbn. intros [= Ef] K.
    destruct m as [|s|g]; [done| |]; injection Ef as <-; rewrite <- fmap_take.
    + generalize (exec (event <$> take n ms) (serve fate <$> ts, w)).2. intros v [HI HO]. split; [|by destruct HO].
      by apply (DataHub.Inv_same _ (wHub v)).
    + intros [HI [H1 H2 H3]]. split; [done|]. split; [done | done|]. exists (S n).
      unfold history. rewrite (take_S_r _ _ _ Em), fmap_app. unfold exec. by rewrite foldl_app.
Qed.

(** Every opening's session was accepted from its host. *)
Lemma openings_owned inst N ts S r w : Inv inst N ts S r w -> Forall (good ts S) (wOpenings w) ->
  Forall (fun o => good ts S o /\ DataHub.owner (wHub w) !! opSess o = Some (opHost o)) (wOpenings w).
Proof.
  intros [HI _] Hg. apply Forall_forall. intros o Ho. split; [by apply (proj1 (Forall_forall _ _) Hg)|].
  apply (DataHub.i_from _ _ HI). change (0 < multiplicity (DataHub.From (opHost o) (opSess o)) (vouched w ⊎ r.1))%nat.
  rewrite multiplicity_disj_union.
  assert (Hin : DataHub.From (opHost o) (opSess o) ∈ vouched w); [|unfold elem_of, gmultiset_elem_of in Hin; lia].
  apply elem_of_list_to_set_disj, list_elem_of_fmap. by exists o.
Qed.

Lemma vouched_idle w : DataHub.idle (vouched w).
Proof.
  intros x Hx. assert (Hin : x ∈ vouched w) by done.
  apply elem_of_list_to_set_disj, list_elem_of_fmap in Hin as (o & -> & _). by eexists _, _.
Qed.

(** C19: Run any number of terminals, log streams and agent dials at once, in
    any interleaving, fewer than [2^63] of them, while sessions die and the
    fleet changes arbitrarily: every stream that was opened is on a session
    its host dialled in with, and one of the requests accounts for it: the
    request's [hostId] is that host's, at some moment so far the host table
    held under that id a row in the scope of the request's URL that runs an
    agent, and the stream's header is the terminal size or the log command
    the request's parameters give, the size within what the 16-bit wire
    carries, the command one of the allowed ones. No handler panics on a
    channel; and once every handler has returned, the session registry and
    the waiter map of the data hub are empty again, whatever failed. *)
Theorem streams_confined fate fleet idle inst ts ms : Z.of_nat (length ts) < 2 ^ 63 ->
  let start := start fleet idle inst in
  let '(ps, w) := history fate start ts ms in
  Forall (fun o => good ts (tables fate start ts ms) o /\ DataHub.owner (wHub w) !! opSess o = Some (opHost o)) (wOpenings w)
  /\ (forall i, outcome ps i <> Some Crashed)
  /\ (allEnded ps -> WsSessions.byID (wMgr w) = ∅ /\ WsSessions.sessions (wMgr w) = ∅
                     /\ DataHub.waiters (wHub w) = ∅).
Proof.
  intros HN w0. destruct (streams_history fate fleet idle inst ts ms HN) as (rs & HF & HI). fold w0 in HF, HI.
  generalize dependent (tables fate w0 ts ms). intros S HF HI. assert (H := HI). destruct H as [HD [(n & l & R & El & _) Hg _]].
  destruct (history fate w0 ts ms) as [ps w]. cbn in *. split; [by eapply openings_owned|]. split.
  - intros i Hi%outcome_Some. destruct (Forall3_lookup_r _ _ _ _ _ _ HF Hi) as (post & r & Hpost & Hr & Hs).
    apply lookup_replicate in Hpost as [-> _]. by destruct Hs.
  - intros He. destruct (total_clean rs) as [Hidle Hheld]; [by eapply ended_posts|].
    assert (Enil : l = []).
    { destruct l as [|s l]; [done|]. rewrite Hheld in El. unfold idsOf in El. cbn [fmap list_fmap] in El.
      rewrite list_to_set_disj_cons in El. multiset_solver. }
    subst l. split; [|split; [|eapply DataHub.idle_no_waiters; [|exact HD]; apply DataHub.idle_plus; [apply vouched_idle | done]]].
    + apply map_eq. intros id. rewrite lookup_empty. destruct (WsSessions.byID (wMgr w) !! id) as [s|] eqn:E; [|done].
      by apply (WsSessions.rf_id _ _ _ _ R) in E as [?%elem_of_nil _].
    + apply map_eq. intros u. by rewrite (WsSessions.rf_user _ _ _ _ R), lookup_empty.
Qed.

(** ** One host, many tabs *)

Definition demoHost : Host :=
  FleetDb.mkHost "web-1" "web 1" "" (FleetDb.mkFacts "web-1.example" "linux" "amd64" 4 8 100 "10.0.0.5")
    (FleetDb.mkTenancy "workspace" (Some 3) None) 22 "agent" "agent" "" None.

Definition demoFleet : FleetDb.World :=
  FleetDb.mkWorld {[42 := demoHost]} ∅ ∅ 42 0 ∅ {[3]} ∅ 0 [] 0 [].

Definition demoRequest (n : nat) : Request :=
  mkRequest 7 {["hostId" := "42"; "workspaceId" := "3"; "cols" := "132"; "rows" := "70000";
                "source" := "journal"; "unit" := "nginx.service"]} n (100 + n) true 0.

Definition demoTasks : list Task := [Terminal (demoRequest 0); Logs (demoRequest 1); Dial 42].
Definition demoMoves : list Move :=
  Turn <$> ([0;0;0;0; 1;1;1;1; 0;0; 1;1; 2;2;2;2;2] ++ replicate 12 0 ++ replicate 12 1 ++ [2;2])%nat.

Lemma streams_confined_witness :
  Z.of_nat (length demoTasks) < 2 ^ 63
  /\ (let '(ps, w) := history DataHub.allWell (start demoFleet 0 "i") demoTasks demoMoves in
      opKind <$> wOpenings w = [PTY 132 24; Exec ["journalctl"; "--no-pager"; "-o"; "short-iso"; "-n"; "500"; "-u"; "nginx.service"; "-f"]]
      /\ WsSessions.byID (wMgr w) = ∅).
Proof.
  split; [done|]. assert (H := streams_confined DataHub.allWell demoFleet 0 "i" demoTasks demoMoves ltac:(done)). cbv zeta in H.
  destruct (history _ _ _ _) as [ps w] eqn:E. vm_compute in E. injection E as <- <-. split; [done|].
  destruct H as (_ & _ & H). apply H. repeat constructor; by eexists.
Defined.

(** A request of another workspace does not find the host. *)
Example other_workspace_refused :
  let rq := mkRequest 7 {["hostId" := "42"; "workspaceId" := "4"]} 0 0 true 0 in
  wSent (run (runTerminalSession DataHub.allWell rq) (start demoFleet 0 "i")).2 = [(0%nat, "error", "host not found")].
Proof. by vm_compute. Qed.

(** The cap is checked before the session is registered, under a different
    lock: 21 tabs opened at once all pass it. *)
Example terminal_cap_raced :
  let '(ps, w) := history DataHub.allWell (start demoFleet 0 "i") (Terminal ∘ demoRequest <$> seq 0 21)
    (Turn <$> (seq 0 21 ++ seq 0 21 ++ seq 0 21)) in
  maxTerminalsPerUser < CountByResource "7" "host" (wMgr w).
Proof. by vm_compute. Qed.

(** A host that never dials in within the time limit is reported like a
    broken tunnel, not as one that did not answer in time. *)
Example dial_timeout_reason : openFailureReason ErrDialTimeout "terminal" = "could not open a terminal on this host".
Proof. done. Qed.

End Streams.
