(* ===== verification/HostWatch.v ===== *)
(** * Watching hosts

    A change of a host is announced on a Postgres channel
    ([pkg/apis/shared/hostevent]), received by the listener of every
    instance ([lib/pgnotify/pgnotify.go]), queued, given its tenancy and
    published on the status hub ([pkg/apis/compute/host_watch.go]), from
    which every watching browser is fed. One step is one goroutine's next
    action; [None] is a panic. *)

From S2P Require Import Prelude Rbac IamDb IamStore StatusHub OidcStore AgentToken AgentIdentity AgentRegistry Atomic FleetDb FleetStore FleetHosts DataHub WsSessions LogCommand Streams.

Module HostWatch.
Import FleetDb(hosts, faults, hTenancy, HostEvent, mkEvent, evHostID, evTenancy, evDeleted, Tenancy, tScope, tWorkspaceID, tNamespaceID).
Import FleetStore(hostGetScope).
Import LogCommand(param).
Import Streams(parseScopeID).

(** ** The listener ([lib/pgnotify]) *)

Definition asyncQueueSize : nat := 256.

(** [AsyncQueue.Submit]: the queue and whether the value was taken. *)
Definition Submit {T} (v : T) (q : list T) : list T * bool :=
  if (length q <? asyncQueueSize)%nat then (q ++ [v], true) else (q, false).

(** The handler [SubscribeAsync] installs: decode, filter, enqueue. *)
Definition asyncHandler {P T} (unmarshal : P -> option T) (accept : option (T -> bool)) (payload : P) (q : list T)
    : list T :=
  match unmarshal payload with
  | None => q
  | Some v => if match accept with Some f => f v | None => true end then (Submit v q).1 else q
  end.

(** ** Publishing on the hub *)

(** [watchEvent]. *)
Record WatchEvent := mkWatch { weType : string; weID : Z; weDeleted : bool }.

Definition wire (e : Hub.Event) : WatchEvent := mkWatch (Hub.EntityType e) (Hub.EntityID e) (Hub.Deleted e).

Definition hubEvent (ev : HostEvent) (scope : string) (ws ns : option Z) : Hub.Event :=
  {| Hub.EntityType := "host"; Hub.EntityID := evHostID ev; Hub.Deleted := evDeleted ev;
     Hub.Scope := scope; Hub.WorkspaceID := ws; Hub.NamespaceID := ns |}.

Definition eventScope (ev : HostEvent) : string := match evTenancy ev with Some t => tScope t | None => "" end.

(** The event to publish, once its tenancy is known; the lookup may fail. *)
Definition withTenancy (ev : HostEvent) (fleet : FleetDb.World) : option Hub.Event * FleetDb.World :=
  if eventScope ev =s "" then
    match Atomic.run (hostGetScope (evHostID ev)) fleet with
    | (Some (Ok t), fleet') => (Some (hubEvent ev (tScope t) (tWorkspaceID t) (tNamespaceID t)), fleet')
    | (_, fleet') => (None, fleet')
    end
  else (Some (hubEvent ev (eventScope ev) (evTenancy ev ≫= tWorkspaceID) (evTenancy ev ≫= tNamespaceID)), fleet).

(** ** Watchers *)

Definition resolveWatchScope (params : gmap string string) : string * option Z * option Z :=
  let '(wsID, okw) := parseScopeID (param params "workspaceId") in
  if negb okw then ("platform", None, None)
  else
    let '(nsID, okn) := parseScopeID (param params "namespaceId") in
    if negb okn then ("workspace", Some wsID, None) else ("namespace", Some wsID, Some nsID).

Record Watcher := mkWatcher {
  wParams : gmap string string;     (** the URL's parameters *)
  wSent : list WatchEvent;
  wDone : bool;         (** the handler has returned *)
  wFrom : nat           (** how many events had been published when it subscribed *)
}.

Definition scopeKey (s : string * option Z * option Z) : string := Hub.ScopeKey s.1.1 s.1.2 s.2.

Record State := mkState {
  fleet : FleetDb.World;
  queue : list HostEvent;
  hub : Hub.hub;
  watchers : gmap nat Watcher;
  published : list Hub.Event      (** what [Hub.Publish] was called with, in order *)
}.

(** [StartHostWatch]. *)
Definition StartHostWatch (f : FleetDb.World) : State := mkState f [] Hub.New ∅ [].

Section Run.
Context {P : Type} (unmarshal : P -> option HostEvent).

Definition set_queue (q : list HostEvent) (s : State) : State :=
  mkState (fleet s) q (hub s) (watchers s) (published s).

(** [publishHostEvent] on the drain goroutine. *)
Definition publishHostEvent (ev : HostEvent) (s : State) : option State :=
  let '(out, fleet') := withTenancy ev (fleet s) in
  match out with
  | None => Some (mkState fleet' (queue s) (hub s) (watchers s) (published s))
  | Some e =>
      h ← Hub.Publish (hub s) e;
      Some (mkState fleet' (queue s) h (watchers s) (published s ++ [e]))
  end.

(** [NewHostWatchHandler], up to the loop. *)
Definition watch (id : nat) (params : gmap string string) (s : State) : State :=
  let sc := resolveWatchScope params in
  mkState (fleet s) (queue s) (Hub.Subscribe (hub s) (scopeKey sc) id)
    (<[id := mkWatcher params [] false (length (published s))]> (watchers s)) (published s).

(** One iteration of [streamHostEvents] that received an event. *)
Definition stream (id : nat) (writeOk : bool) (s : State) : State :=
  match Hub.chans (hub s) !! id, watchers s !! id with
  | Some c, Some w =>
      match Hub.buf c, wDone w with
      | e :: rest, false =>
          mkState (fleet s) (queue s)
            (Hub.setChans (hub s) (<[id := {| Hub.buf := rest; Hub.closed := Hub.closed c; Hub.once := Hub.once c;
                                              Hub.key := Hub.key c |}]> (Hub.chans (hub s))))
            (<[id := if writeOk then mkWatcher (wParams w) (wSent w ++ [wire e]) false (wFrom w)
                     else mkWatcher (wParams w) (wSent w) true (wFrom w)]> (watchers s)) (published s)
      | _, _ => s
      end
  | _, _ => s
  end.

(** The client is gone or the server stops: the loop returns. *)
Definition leave (id : nat) (s : State) : State :=
  match watchers s !! id with
  | Some w => mkState (fleet s) (queue s) (hub s) (<[id := mkWatcher (wParams w) (wSent w) true (wFrom w)]> (watchers s))
                (published s)
  | None => s
  end.

(** The deferred unsubscribe of a handler that has returned, in its two
    halves. *)
Definition unsubscribe (id : nat) (s : State) : option State :=
  match watchers s !! id, Hub.chans (hub s) !! id with
  | Some w, Some c =>
      if negb (wDone w) then Some s
      else if negb (Hub.once c) then
        Some (mkState (fleet s) (queue s) (Hub.unsubscribeDelete (hub s) id c) (watchers s) (published s))
      else if Hub.closed c then Some s
      else h ← Hub.closeChan (hub s) id c; Some (mkState (fleet s) (queue s) h (watchers s) (published s))
  | _, _ => Some s
  end.

Inductive Move :=
| Receive (payload : P)          (** the listener dispatches a notification *)
| Drain                          (** the drain goroutine takes the next event *)
| Watch (id : nat) (params : gmap string string)
| Stream (id : nat) (writeOk : bool)
| Leave (id : nat)
| Unsubscribe (id : nat)
| Fleet (f : FleetDb.World -> FleetDb.World).

Definition step (s : State) (m : Move) : option State :=
  match m with
  | Receive p => Some (set_queue (asyncHandler unmarshal None p (queue s)) s)
  | Drain =>
      match queue s with
      | [] => Some s
      | ev :: rest => publishHostEvent ev (set_queue rest s)
      end
  | Watch id params =>
      match Hub.chans (hub s) !! id with Some _ => Some s | None => Some (watch id params s) end
  | Stream id ok => Some (stream id ok s)
  | Leave id => Some (leave id s)
  | Unsubscribe id => unsubscribe id s
  | Fleet f => Some (mkState (f (fleet s)) (queue s) (hub s) (watchers s) (published s))
  end.

Fixpoint steps (s : State) (ms : list Move) : option State :=
  match ms with [] => Some s | m :: ms' => s' ← step s m; steps s' ms' end.

End Run.

(** ** What a watcher gets *)

(** The events published since [from] that reach the key. *)
Definition reaching (key : string) (from : nat) (l : list Hub.Event) : list Hub.Event :=
  filter (fun e => key ∈ Hub.visibilityKeys e) (drop from l).

(** What a watcher was sent and what is buffered for it. *)
Definition got (w : Watcher) (c : Hub.chan) : list WatchEvent := wSent w ++ (wire <$> Hub.buf c).

Record watched (l : list Hub.Event) (w : Watcher) (c : Hub.chan) : Prop := {
  wd_key : Hub.key c = scopeKey (resolveWatchScope (wParams w));
  wd_from : (wFrom w <= length l)%nat;
  wd_once : Hub.once c = true -> wDone w = true;
  wd_sub : got w c `sublist_of` wire <$> reaching (Hub.key c) (wFrom w) l;
  wd_all : wDone w = false -> (length (reaching (Hub.key c) (wFrom w) l) <= Hub.channelBufferSize)%nat ->
    got w c = wire <$> reaching (Hub.key c) (wFrom w) l
}.

(** What the event published for a notification says, when it was drained
    over these tables: its host, and the tenancy it carried or, when it
    carried none, the one of the host's row. *)
Definition tells (o : HostEvent * FleetDb.World) (e : Hub.Event) : Prop :=
  Hub.EntityType e = "host" /\ Hub.EntityID e = evHostID o.1 /\ Hub.Deleted e = evDeleted o.1
  /\ exists t, Hub.Scope e = tScope t /\ Hub.WorkspaceID e = tWorkspaceID t /\ Hub.NamespaceID e = tNamespaceID t
     /\ (evTenancy o.1 = Some t /\ tScope t <> ""
         \/ eventScope o.1 = "" /\ hTenancy <$> hosts o.2 !! evHostID o.1 = Some t).

(** Nothing is published for a notification without a tenancy whose host is
    gone, or whose lookup fails. *)
Definition untold (o : HostEvent * FleetDb.World) : Prop :=
  eventScope o.1 = "" /\ (hosts o.2 !! evHostID o.1 = None \/ faults o.2 <> []).

(** The events published for the notifications drained so far. *)
Inductive accounts : list (HostEvent * FleetDb.World) -> list Hub.Event -> Prop :=
| accounts_nil : accounts [] []
| accounts_tells os es o e : accounts os es -> tells o e -> accounts (os ++ [o]) (es ++ [e])
| accounts_untold os es o : accounts os es -> untold o -> accounts (os ++ [o]) es.

Lemma withTenancy_tells ev f :
  match (withTenancy ev f).1 with Some e => tells (ev, f) e | None => untold (ev, f) end.
Proof.
  unfold withTenancy, tells, untold. destruct (String.eqb_spec (eventScope ev) "") as [E0|Hne].
  - cbn. unfold FleetDb.runStmt, FleetDb.popFault, FleetDb.HostScopeByID, FleetDb.GetAgentHostScope.
    destruct (faults f) as [|[| |] fs]; cbn; try (split; [done | by right]).
    all: destruct (hosts f !! evHostID ev) as [h|] eqn:Hh; cbn; try (split; [done | by left]).
    all: repeat split; exists (hTenancy h); repeat split; by right.
  - cbn. unfold eventScope in *. destruct (evTenancy ev) as [t|] eqn:Et; [|done]. repeat split.
    exists t. repeat split. by left.
Qed.

Record Inv (s : State) : Prop := {
  i_hub : Hub.hub_ok (hub s);
  i_queue : (length (queue s) <= asyncQueueSize)%nat;
  i_both id : is_Some (watchers s !! id) <-> is_Some (Hub.chans (hub s) !! id);
  i_watched id w c : watchers s !! id = Some w -> Hub.chans (hub s) !! id = Some c -> watched (published s) w c
}.

Lemma reaching_snoc key from l e : (from <= length l)%nat ->
  reaching key from (l ++ [e]) = reaching key from l ++ (if decide (key ∈ Hub.visibilityKeys e) then [e] else []).
Proof.
  intros Hl. unfold reaching. rewrite drop_app_le by done. by rewrite filter_app.
Qed.

(** An event that reaches the channel. *)
Lemma watched_deliver l w c e : Hub.once c = false -> Hub.key c ∈ Hub.visibilityKeys e ->
  watched l w c -> watched (l ++ [e]) w (Hub.deliver e c).
Proof.
  intros Ho Hk [H1 H2 H3 H4 H5]. destruct (Hub.deliver_fields e c) as (Ek & Eo & _ & _).
  unfold Hub.deliver in *. destruct (Nat.ltb_spec (length (Hub.buf c)) Hub.channelBufferSize) as [Hlt|Hge].
  - assert (Eg : got w {| Hub.buf := Hub.buf c ++ [e]; Hub.closed := Hub.closed c; Hub.once := Hub.once c; Hub.key := Hub.key c |}
      = got w c ++ [wire e]) by (unfold got; cbn; by rewrite fmap_app, app_assoc).
    split; rewrite ?Eg; cbn [Hub.key Hub.once]; try done; [rewrite length_app; lia| |];
      rewrite reaching_snoc, decide_True, fmap_app by done; [by apply sublist_app|].
    intros Hd Hl. rewrite H5; [done | done|]. rewrite length_app in Hl. lia.
  - split; try done; [rewrite length_app; lia| |]; rewrite reaching_snoc, decide_True, fmap_app by done.
    + rewrite <- (app_nil_r (got w c)). apply sublist_app; [done | apply sublist_nil_l].
    + intros Hd Hl. exfalso. rewrite length_app in Hl. cbn in Hl. assert (E := H5 Hd ltac:(lia)).
      apply (f_equal length) in E. unfold got in E. rewrite length_app, !length_fmap in E. lia.
Qed.

(** One that does not. *)
Lemma watched_skip l w c e : ~ (Hub.once c = false /\ Hub.key c ∈ Hub.visibilityKeys e) ->
  watched l w c -> watched (l ++ [e]) w c.
Proof.
  intros Hn [H1 H2 H3 H4 H5]. split; try done; [rewrite length_app; lia| |]; rewrite reaching_snoc by done;
    case_decide as Hk; rewrite ?app_nil_r; try done.
  - rewrite fmap_app, <- (app_nil_r (got w c)). apply sublist_app; [done | apply sublist_nil_l].
  - intros Hd. destruct (Hub.once c) eqn:Ho; [|by destruct Hn]. rewrite (H3 eq_refl) in Hd. done.
Qed.

Lemma inv_publish ev s : Inv s -> exists s', publishHostEvent ev s = Some s' /\ Inv s'.
Proof.
  intros [H1 H2 H3 H4]. unfold publishHostEvent. destruct (withTenancy ev (fleet s)) as [[e|] fl] eqn:Et;
    [|eexists; split; [done | by split]].
  destruct (Hub.Publish_spec (hub s) e H1) as (h' & HP & Hsub & Hch). rewrite HP. cbn.
  eexists. split; [done|]. split; cbn; [by eapply Hub.hub_ok_Publish | done| |].
  - intros id. rewrite H3, Hch. case_decide; [by rewrite fmap_is_Some | done].
  - intros id w c Hw Hc. rewrite Hch in Hc. assert (Ht := Hub.targets_elem (hub s) e id H1).
    case_decide as Hin.
    + apply fmap_Some in Hc as (c0 & Hc0 & ->). apply Ht in Hin as (c1 & Hc1 & Ho & Hk).
      assert (c1 = c0) as -> by congruence. apply watched_deliver; auto. by eapply H4.
    + apply watched_skip; [|by eapply H4]. intros [Ho Hk]. apply Hin, Ht. by exists c.
Qed.

Lemma inv_watch id params s : Hub.chans (hub s) !! id = None -> Inv s -> Inv (watch id params s).
Proof.
  intros Hid [H1 H2 H3 H4]. unfold watch. split; cbn; [by apply Hub.hub_ok_Subscribe | done| |].
  - intros j. destruct (decide (j = id)) as [->|Hne]; [by rewrite !lookup_insert_eq|].
    by rewrite !lookup_insert_ne by done.
  - intros j w c. destruct (decide (j = id)) as [->|Hne].
    + rewrite !lookup_insert_eq. intros [= <-] [= <-].
      assert (E : forall k, reaching k (length (published s)) (published s) = []).
      { intros k. unfold reaching. by rewrite drop_all. }
      split; [done | cbn; lia | done | |]; cbn [wFrom Hub.key]; by rewrite E.
    + rewrite !lookup_insert_ne by done. apply H4.
Qed.

(** Changing one watcher and its channel. *)
Lemma inv_change id w c w' c' s h' :
  watchers s !! id = Some w -> Hub.chans (hub s) !! id = Some c -> Inv s ->
  Hub.hub_ok h' -> Hub.chans h' = <[id := c']> (Hub.chans (hub s)) ->
  (watched (published s) w c -> watched (published s) w' c') ->
  Inv (mkState (fleet s) (queue s) h' (<[id := w']> (watchers s)) (published s)).
Proof.
  intros Hw Hc [H1 H2 H3 H4] Hok Hch Hwd. split; cbn; try done; rewrite ?Hch.
  - intros j. destruct (decide (j = id)) as [->|Hne]; [by rewrite !lookup_insert_eq|].
    by rewrite !lookup_insert_ne by done.
  - intros j w0 c0. destruct (decide (j = id)) as [->|Hne].
    + rewrite !lookup_insert_eq. intros [= <-] [= <-]. by apply Hwd, (H4 id).
    + rewrite !lookup_insert_ne by done. apply H4.
Qed.

Lemma inv_stream id ok s : Inv s -> Inv (stream id ok s).
Proof.
  intros HI. unfold stream. destruct (Hub.chans (hub s) !! id) as [c|] eqn:Hc; [|done].
  destruct (watchers s !! id) as [w|] eqn:Hw; [|done]. destruct (Hub.buf c) as [|e rest] eqn:Hb; [done|].
  destruct (wDone w) eqn:Hd; [done|].
  eapply inv_change; [exact Hw | exact Hc | done| |done|].
  - eapply Hub.hub_ok_step; [apply (i_hub _ HI)|]. by eapply Hub.hs_receive.
  - intros [E1 E2 E3 E4 E5]. unfold got in *. rewrite Hb in *. destruct ok.
    + split; unfold got; cbn; rewrite <- ?app_assoc; cbn; try done; [|intros _; by apply E5].
      intros Ho. rewrite (E3 Ho) in Hd. done.
    + split; unfold got; cbn; try done. etrans; [|exact E4]. apply sublist_app; [done|]. by apply sublist_cons.
Qed.

Lemma inv_leave id s : Inv s -> Inv (leave id s).
Proof.
  intros HI. unfold leave. destruct (watchers s !! id) as [w|] eqn:Hw; [|done].
  destruct (proj1 (i_both _ HI id)) as [c Hc]; [by rewrite Hw|].
  eapply inv_change; [exact Hw | exact Hc | done | apply (i_hub _ HI) | by rewrite insert_id|].
  intros [E1 E2 E3 E4 E5]. by split.
Qed.

Lemma inv_unsubscribe id s : Inv s -> exists s', unsubscribe id s = Some s' /\ Inv s'.
Proof.
  intros HI. unfold unsubscribe. destruct (watchers s !! id) as [w|] eqn:Hw; [|by eexists].
  destruct (Hub.chans (hub s) !! id) as [c|] eqn:Hc; [|by eexists].
  destruct (wDone w) eqn:Hd; [|by eexists]. cbn. rewrite <- (insert_id (watchers s) id w Hw).
  destruct (Hub.once c) eqn:Ho; cbn; [|eexists; split; [done|]].
  - destruct (Hub.closed c) eqn:Hcl; [by eexists|].
    unfold Hub.closeChan. rewrite Hcl. cbn. eexists. split; [done|].
    eapply inv_change; [exact Hw | exact Hc | done | | done |].
    + eapply (Hub.hub_ok_close (hub s) id c); [apply (i_hub _ HI) | done | done|]. unfold Hub.closeChan. by rewrite Hcl.
    + intros [E1 E2 E3 E4 E5]. by split.
  - eapply inv_change; [exact Hw | exact Hc | done | | done |].
    + apply Hub.hub_ok_unsubscribe; [apply (i_hub _ HI) | done | done].
    + intros [E1 E2 E3 E4 E5]. by split.
Qed.

Lemma inv_step {P} (unmarshal : P -> option HostEvent) s m : Inv s -> exists s', step unmarshal s m = Some s' /\ Inv s'.
Proof.
  intros HI. destruct m as [p| |id params|id ok|id|id|f]; cbn.
  - eexists. split; [done|]. destruct HI as [H1 H2 H3 H4]. split; try done. cbn. unfold asyncHandler, Submit.
    destruct (unmarshal p); [|done]. destruct (Nat.ltb_spec (length (queue s)) asyncQueueSize); [|done].
    cbn. rewrite length_app. cbn. lia.
  - destruct (queue s) as [|ev rest] eqn:Eq; [by eexists|]. apply inv_publish.
    destruct HI as [H1 H2 H3 H4]. split; try done. cbn. rewrite Eq in H2. cbn in H2. lia.
  - destruct (Hub.chans (hub s) !! id) eqn:Hc; [by eexists|]. eexists. split; [done|]. by apply inv_watch.
  - eexists. split; [done|]. by apply inv_stream.
  - eexists. split; [done|]. by apply inv_leave.
  - by apply inv_unsubscribe.
  - eexists. split; [done|]. by destruct HI.
Qed.

Lemma inv_start f : Inv (StartHostWatch f).
Proof. split; cbn; [apply Hub.hub_ok_New | lia | | done]. intros id. rewrite !lookup_empty. split; by intros []. Qed.

Lemma steps_snoc {P} (unmarshal : P -> option HostEvent) s ms m :
  steps unmarshal s (ms ++ [m]) = s' ← steps unmarshal s ms; step unmarshal s' m.
Proof.
  revert s. induction ms as [|x ms IH]; intros s; cbn; [by destruct (step unmarshal s m)|].
  destruct (step unmarshal s x); [apply IH | done].
Qed.

(** ** From the notifications to what is published *)

Section Trace.
Context {P : Type} (unmarshal : P -> option HostEvent).

(** The notifications the listener could read. *)
Definition received (ms : list (Move (P := P))) : list HostEvent :=
  omap (fun m => match m with Receive p => unmarshal p | _ => None end) ms.

(** The tables at some moment of the history. *)
Definition tablesAt (f : FleetDb.World) (ms : list Move) (v : FleetDb.World) : Prop :=
  exists n s, steps unmarshal (StartHostWatch f) (take n ms) = Some s /\ fleet s = v.

(** [log] are the notifications drained so far, each with the tables then. *)
Record Traced (f : FleetDb.World) (ms : list Move) (s : State) (log : list (HostEvent * FleetDb.World)) : Prop := {
  tr_order : log.*1 ++ queue s `sublist_of` received ms;
  tr_all : (length (received ms) <= asyncQueueSize)%nat -> log.*1 ++ queue s = received ms;
  tr_accounts : accounts log (published s);
  tr_moment o : o ∈ log -> tablesAt f ms o.2
}.

Lemma tablesAt_snoc f ms m v : tablesAt f ms v -> tablesAt f (ms ++ [m]) v.
Proof.
  intros (n & s & Hs & Hv). destruct (decide (n <= length ms)%nat) as [Hn|Hn].
  - exists n, s. by rewrite take_app_le.
  - exists (length ms), s. rewrite take_app_length. by rewrite take_ge in Hs by lia.
Qed.

(** A move that neither receives nor drains. *)
Lemma traced_still f ms m s s' log : received [m] = [] -> queue s' = queue s -> published s' = published s ->
  Traced f ms s log -> Traced f (ms ++ [m]) s' log.
Proof.
  intros Hr Hq Hp [H1 H2 H3 H4].
  assert (Er : received (ms ++ [m]) = received ms) by (unfold received in *; by rewrite omap_app, Hr, app_nil_r).
  split; rewrite ?Er, ?Hq, ?Hp; try done. intros o Ho. by apply tablesAt_snoc, H4.
Qed.

Lemma asyncHandler_queue p q : asyncHandler unmarshal None p q =
  match unmarshal p with Some v => if (length q <? asyncQueueSize)%nat then q ++ [v] else q | None => q end.
Proof. unfold asyncHandler, Submit. destruct (unmarshal p); [|done]. by destruct (length q <? asyncQueueSize)%nat. Qed.

Lemma traced_receive f ms p s log : Traced f ms s log ->
  Traced f (ms ++ [Receive p]) (set_queue (asyncHandler unmarshal None p (queue s)) s) log.
Proof.
  intros HT. assert (HT' := HT). destruct HT' as [H1 H2 H3 H4].
  assert (Er : received (ms ++ [Receive p]) = received ms ++ from_option (fun ev => [ev]) [] (unmarshal p)).
  { unfold received. rewrite omap_app. cbn. by destruct (unmarshal p). }
  assert (Hm : forall o, o ∈ log -> tablesAt f (ms ++ [Receive p]) o.2) by (intros o Ho; by apply tablesAt_snoc, H4).
  assert (Eq := asyncHandler_queue p (queue s)). split; rewrite ?Er; try done; cbn [queue set_queue]; rewrite Eq.
  - destruct (unmarshal p) as [ev|]; cbn [from_option]; [|by rewrite app_nil_r].
    destruct (Nat.ltb_spec (length (queue s)) asyncQueueSize).
    + rewrite app_assoc. by apply sublist_app.
    + rewrite <- (app_nil_r (_ ++ queue s)). apply sublist_app; [done | apply sublist_nil_l].
  - destruct (unmarshal p) as [ev|]; cbn [from_option]; [|by rewrite app_nil_r].
    rewrite length_app. intros Hl. cbn in Hl. assert (E := H2 ltac:(lia)). rewrite <- E. apply (f_equal length) in E.
    rewrite length_app in E. destruct (Nat.ltb_spec (length (queue s)) asyncQueueSize); [by rewrite app_assoc | lia].
Qed.

Lemma traced_drain f ms s ev rest s' log :
  steps unmarshal (StartHostWatch f) ms = Some s -> queue s = ev :: rest ->
  publishHostEvent ev (set_queue rest s) = Some s' -> Traced f ms s log ->
  Traced f (ms ++ [Drain]) s' (log ++ [(ev, fleet s)]).
Proof.
  intros Hs Hq Hp [H1 H2 H3 H4]. unfold publishHostEvent in Hp. assert (Ht := withTenancy_tells ev (fleet s)).
  assert (Er : received (ms ++ [Drain]) = received ms) by (unfold received; by rewrite omap_app, app_nil_r).
  rewrite Hq in H1, H2.
  assert (Hq' : queue s' = rest /\ accounts (log ++ [(ev, fleet s)]) (published s')).
  { cbn in Hp. destruct (withTenancy ev (fleet s)) as [[e|] fl]; cbn in *.
    - apply bind_Some in Hp as (h & _ & [= <-]). split; [done|]. by apply accounts_tells.
    - injection Hp as <-. split; [done|]. by apply accounts_untold. }
  destruct Hq' as [Eq' Ha]. split; rewrite ?Er, ?Eq', ?fmap_app, <- ?app_assoc; try done.
  intros o [Ho| ->%list_elem_of_singleton]%elem_of_app; apply tablesAt_snoc; [by apply H4|].
  exists (length ms), s. by rewrite firstn_all.
Qed.

Lemma trace f ms : exists s log, steps unmarshal (StartHostWatch f) ms = Some s /\ Inv s /\ Traced f ms s log.
Proof.
  induction ms as [|m ms (s & log & Hs & HI & HT)] using rev_ind.
  { exists (StartHostWatch f), []. split; [done|]. split; [apply inv_start|]. split; try done; [constructor|].
    by intros o ?%elem_of_nil. }
  destruct (inv_step unmarshal s m HI) as (s' & Hm & HI'). rewrite steps_snoc, Hs. cbn. rewrite Hm.
  assert (Hstill : received [m] = [] -> queue s' = queue s -> published s' = published s -> exists s0 log0,
    Some s' = Some s0 /\ Inv s0 /\ Traced f (ms ++ [m]) s0 log0).
  { intros E1 E2 E3. exists s', log. split; [done|]. split; [done|]. by eapply traced_still. }
  destruct m as [p| |id params|id ok|id|id|g]; cbn in Hm.
  - injection Hm as <-. eexists _, log. split; [done|]. split; [done|]. by apply traced_receive.
  - destruct (queue s) as [|ev rest] eqn:Eq; [by injection Hm as <-; apply Hstill|].
    eexists _, _. split; [done|]. split; [done|]. by eapply traced_drain.
  - apply Hstill; [done|..]; by destruct (Hub.chans (hub s) !! id); injection Hm as <-.
  - injection Hm as <-. apply Hstill; [done|..]; unfold stream; repeat (case_match; try done).
  - injection Hm as <-. apply Hstill; [done|..]; unfold leave; by case_match.
  - apply Hstill; [done|..]; unfold unsubscribe in Hm; repeat (case_match; simplify_eq; try done);
      by apply bind_Some in Hm as (h & _ & [= <-]).
  - injection Hm as <-. by apply Hstill.
Qed.

End Trace.

#[export] Instance sees_dec v t : Decision (Hub.sees v t).
Proof. destruct v, t; cbn; apply _. Defined.

(** The tenancy a URL addresses: a number it does not give, or that is not
    one, leaves the level above. *)
Definition urlTenancy (params : gmap string string) : Hub.tenancy :=
  match ParseInt (param params "workspaceId") 64, ParseInt (param params "namespaceId") 64 with
  | Some ws, Some ns => Hub.TNamespace ws ns
  | Some ws, None => Hub.TWorkspace ws
  | None, _ => Hub.TPlatform
  end.

(** The published events the URL of a watcher covers, since it came. *)
Definition visible (w : Watcher) (l : list Hub.Event) : list Hub.Event :=
  filter (fun e => Hub.sees (urlTenancy (wParams w)) (Hub.tenancyOfEvent e)) (drop (wFrom w) l).

Lemma parseScopeID_spec raw :
  parseScopeID raw = match ParseInt raw 64 with Some id => (id, true) | None => (0, false) end.
Proof. unfold parseScopeID. by destruct (String.eqb_spec raw "") as [->|]. Qed.

Lemma reaching_visible w l : reaching (scopeKey (resolveWatchScope (wParams w))) (wFrom w) l = visible w l.
Proof.
  unfold reaching, visible, scopeKey. apply list_filter_iff. intros e. rewrite Hub.ScopeKey_keyOf.
  rewrite Hub.visibilityKeys_keyOf. unfold resolveWatchScope, urlTenancy. rewrite !parseScopeID_spec.
  destruct (ParseInt (param (wParams w) "workspaceId") 64); [|done].
  by destruct (ParseInt (param (wParams w) "namespaceId") 64).
Qed.


(** ** A workspace watcher beside a platform watcher *)

Definition demoWs (ws : Z) : gmap string string := {["workspaceId" := FormatInt ws]}.

Example workspace_watcher :
  (s ← steps (P := HostEvent) Some (StartHostWatch Streams.demoFleet)
     [Watch 1 (demoWs 3); Watch 2 (demoWs 4); Watch 3 ∅;
      Receive (mkEvent 42 None false); Receive (mkEvent 9 (Some (FleetDb.mkTenancy "workspace" (Some 4) None)) true);
      Receive (mkEvent 77 None false);
      Drain; Drain; Drain; Stream 1 true; Stream 2 true; Stream 3 true; Stream 3 true];
   Some (wSent <$> watchers s))
  = Some {[1%nat := [mkWatch "host" 42 false]; 2%nat := [mkWatch "host" 9 true];
           3%nat := [mkWatch "host" 42 false; mkWatch "host" 9 true]]}.
Proof. by vm_compute. Qed.

End HostWatch.
