(* ===== verification/AuditLog.v ===== *)
(** * The audit log writer

    [lib/audit/writer.go] (a bounded channel, a batching goroutine and a
    drain on shutdown), its sink [BatchCreate] of
    [pkg/apis/audit/store/pg_audit.go] with the columns of [audit_logs], and
    the client address of [lib/audit/helpers.go]. *)

From S2P Require Import Prelude ListQuery IamDb AgentGuard.

Module AuditLog.
Import IamDb(fits, runeLen).
Import ListQ(TrimSpace).

Record Event := mkAudit {
  UserID : option Z; Username : string; EventType : string; Action : string; ResourceType : string;
  ResourceID : string; Module_ : string; Scope : string; WorkspaceID : option Z; NamespaceID : option Z;
  HTTPMethod : string; HTTPPath : string; StatusCode : Z; ClientIP_ : string; UserAgent : string;
  DurationMs : Z; Success : bool; Detail : option string; ResponseDetail : option string; CreatedAt : Z
}.

Record WriterConfig := mkConfig { ChannelSize : Z; BatchSize : Z; FlushInterval : Z }.

(** The defaults [NewWriter] fills in. *)
Definition withDefaults (c : WriterConfig) : WriterConfig :=
  mkConfig (if ChannelSize c <=? 0 then 10000 else ChannelSize c) (if BatchSize c <=? 0 then 100 else BatchSize c)
    (if FlushInterval c <=? 0 then 5000000000 else FlushInterval c).

(** ** The sink *)

Section Sink.
(** How PostgreSQL stores a JSON text, if it accepts it. *)
Context (jsonb : string -> option string).

(** Well-formed UTF-8 without a NUL. *)
Fixpoint textFrom (skip : nat) (s : string) : bool :=
  match s with
  | EmptyString => true
  | String c s' =>
      match skip with
      | S k => textFrom k s'
      | O => negb (Ascii.eqb c "000") && ((N_of_ascii c <? 128)%N || (1 <? runeLen s)%nat)
             && textFrom (runeLen s - 1) s'
      end
  end.

(** Text that PostgreSQL accepts in a column of [n] characters. *)
Definition column (n : Z) (s : string) : bool := fits n s && textFrom 0 s.

Definition json (d : option string) : option string := jsonb (default "null" d).

(** The row [CreateAuditLog] inserts. *)
Definition toRow (e : Event) : option Event :=
  d ← json (Detail e);
  rd ← json (ResponseDetail e);
  if column 255 (Username e) && column 50 (EventType e) && column 50 (Action e) && column 100 (ResourceType e)
     && column 100 (ResourceID e) && column 50 (Module_ e) && column 20 (Scope e) && column 10 (HTTPMethod e)
     && column 500 (HTTPPath e) && column 45 (ClientIP_ e) && column 500 (UserAgent e)
  then Some (mkAudit (UserID e) (Username e) (EventType e) (Action e) (ResourceType e) (ResourceID e) (Module_ e)
               (Scope e) (WorkspaceID e) (NamespaceID e) (HTTPMethod e) (HTTPPath e) (int32 (StatusCode e))
               (ClientIP_ e) (UserAgent e) (int32 (DurationMs e)) (Success e) (Some d) (Some rd) (CreatedAt e))
  else None.

(** The table, and how many statements the database has been given: the
    oracle says which of them it fails. *)
Record Db := mkDb { rows : list Event; asked : nat }.

Context (dbOk : nat -> bool).

(** Row by row, up to the first that fails. *)
Fixpoint BatchCreate (events : list Event) (d : Db) : bool * Db :=
  match events with
  | [] => (true, d)
  | e :: rest =>
      match (if dbOk (asked d) then toRow e else None) with
      | Some r => BatchCreate rest (mkDb (rows d ++ [r]) (S (asked d)))
      | None => (false, mkDb (rows d) (S (asked d)))
      end
  end.

(** ** The writer *)

Inductive Mode := Running | Draining | Stopped.

Record Writer := mkWriter {
  ch : list Event;
  batch : list Event;
  mode : Mode;
  sink : Db;
  flushed : list (list Event);     (** the batches handed to the sink *)
  accepted : list Event            (** the events that entered the channel *)
}.

Definition NewWriter : Writer := mkWriter [] [] Running (mkDb [] 0) [] [].

Context (cfg : WriterConfig).

(** [Log]: a full channel drops the event. *)
Definition Log (e : Event) (w : Writer) : Writer :=
  if Z.of_nat (length (ch w)) <? ChannelSize (withDefaults cfg)
  then mkWriter (ch w ++ [e]) (batch w) (mode w) (sink w) (flushed w) (accepted w ++ [e])
  else w.

Definition flush (w : Writer) : Writer :=
  match batch w with
  | [] => w
  | b => mkWriter (ch w) [] (mode w) (BatchCreate b (sink w)).2 (flushed w ++ [b]) (accepted w)
  end.

(** Receive one event; flush a full batch. Both [run] and [drain] do it. *)
Definition take (w : Writer) : Writer :=
  match ch w with
  | [] => w
  | e :: rest =>
      let w' := mkWriter rest (batch w ++ [e]) (mode w) (sink w) (flushed w) (accepted w) in
      if BatchSize (withDefaults cfg) <=? Z.of_nat (length (batch w')) then flush w' else w'
  end.

Definition set_mode (m : Mode) (w : Writer) : Writer :=
  mkWriter (ch w) (batch w) m (sink w) (flushed w) (accepted w).

(** One iteration of [drain]. *)
Definition drainStep (w : Writer) : Writer :=
  match ch w with [] => set_mode Stopped (flush w) | _ => take w end.

Inductive Move :=
| MLog (e : Event)
| MRun (tick cancelled : bool).   (** the loop goes round: which case the select takes *)

Definition step (w : Writer) (m : Move) : Writer :=
  match m with
  | MLog e => Log e w
  | MRun tick cancelled =>
      match mode w with
      | Running => if cancelled then set_mode Draining w else if tick then flush w else take w
      | Draining => drainStep w
      | Stopped => w
      end
  end.

Definition history (ms : list Move) : Writer := foldl step NewWriter ms.

End Sink.

(** ** The client address *)

Section ClientIP.
(** [netip]: parsing, printing and prefixes; [proxies] is what
    [SetTrustedProxies] stored, if it was called. *)
Context {Addr Prefix : Type} (ParseAddr : string -> option Addr) (String_ : Addr -> string)
  (Contains : Prefix -> Addr -> bool) (proxies : option (list Prefix)).

Definition isTrusted (a : Addr) : bool :=
  match proxies with None => false | Some ps => existsb (fun p => Contains p a) ps end.

Record Request := mkReq { RemoteAddr : string; XForwardedFor : string; XRealIP : string }.

Definition remoteAddrHost (r : Request) : string :=
  match Guard.SplitHostPort (RemoteAddr r) with Some (host, _) => host | None => RemoteAddr r end.

(** The hops from the right: the first that parses and is not trusted. *)
Fixpoint firstUntrusted (hops : list string) : option string :=
  match hops with
  | [] => None
  | h :: rest =>
      match ParseAddr (TrimSpace h) with
      | None => firstUntrusted rest
      | Some a => if isTrusted a then firstUntrusted rest else Some (String_ a)
      end
  end.

Definition ClientIP (r : Request) : string :=
  let peer := remoteAddrHost r in
  match ParseAddr peer with
  | None => peer
  | Some addr =>
      if negb (isTrusted addr) then peer
      else
        match (if XForwardedFor r =s "" then None else firstUntrusted (reverse (Split (XForwardedFor r) ","))) with
        | Some ip => ip
        | None =>
            let xri := TrimSpace (XRealIP r) in
            if xri =s "" then peer
            else match ParseAddr xri with Some a => String_ a | None => peer end
        end
  end.

End ClientIP.

(** ** What reaches the table *)

Section Exact.
Context (jsonb : string -> option string) (dbOk : nat -> bool) (cfg : WriterConfig).

#[local] Abbreviation conf := (withDefaults cfg).
#[local] Abbreviation run := (foldl (step jsonb dbOk cfg)).

Lemma conf_positive : 0 < ChannelSize conf /\ 0 < BatchSize conf.
Proof. unfold withDefaults. cbn. destruct (Z.leb_spec (ChannelSize cfg) 0), (Z.leb_spec (BatchSize cfg) 0); lia. Qed.

Definition storable (e : Event) : Prop := is_Some (toRow jsonb e).

(** With a database that answers, a batch is stored up to its first event
    that does not fit, and nothing after it. *)
Lemma BatchCreate_prefix good rest d : (forall n, dbOk n = true) -> Forall storable good ->
  match rest with e :: _ => ~ storable e | [] => True end ->
  exists n, BatchCreate jsonb dbOk (good ++ rest) d
            = (match rest with [] => true | _ => false end, mkDb (rows d ++ omap (toRow jsonb) good) n).
Proof.
  intros Hok Hg. revert d. induction Hg as [|e good [r Hr] Hg IH]; intros d Hrest; cbn.
  - rewrite app_nil_r. destruct rest as [|e rest]; cbn; [by destruct d; eexists|]. rewrite Hok.
    destruct (toRow jsonb e) eqn:E; [by destruct Hrest; eexists | by eexists].
  - rewrite Hok, Hr. destruct (IH (mkDb (rows d ++ [r]) (S (asked d))) Hrest) as [n ->]. exists n. cbn.
    by rewrite <- app_assoc.
Qed.

(** The writer's books: what was accepted is what went to the sink, what is
    in the batch and what waits in the channel, in that order. *)
Record books (w : Writer) : Prop := {
  bk_all : concat (flushed w) ++ batch w ++ ch w = accepted w;
  bk_sizes : Forall (fun b => 1 <= Z.of_nat (length b) <= BatchSize conf) (flushed w);
  bk_batch : Z.of_nat (length (batch w)) < BatchSize conf;
  bk_ch : Z.of_nat (length (ch w)) <= ChannelSize conf;
  bk_mode : mode w = Stopped -> batch w = [];
  bk_rows : (forall n, dbOk n = true) -> Forall storable (concat (flushed w)) ->
    rows (sink w) = omap (toRow jsonb) (concat (flushed w))
}.

(** A flush of a batch of at most full size. *)
Lemma books_flush w : concat (flushed w) ++ batch w ++ ch w = accepted w ->
  Forall (fun b => 1 <= Z.of_nat (length b) <= BatchSize conf) (flushed w) ->
  Z.of_nat (length (batch w)) <= BatchSize conf -> Z.of_nat (length (ch w)) <= ChannelSize conf ->
  ((forall n, dbOk n = true) -> Forall storable (concat (flushed w)) -> rows (sink w) = omap (toRow jsonb) (concat (flushed w))) ->
  books (flush jsonb dbOk w) /\ batch (flush jsonb dbOk w) = [].
Proof.
  intros H1 H2 H3 H4 H5. unfold flush. destruct (batch w) as [|e b] eqn:Hb.
  - split; [|done]. split; rewrite ?Hb; try done. destruct conf_positive. cbn [length Z.of_nat]. lia.
  - split; [|done]. split; cbn [flushed batch ch accepted mode sink length]; try done.
    + rewrite concat_app, <- H1, <- app_assoc. cbn [concat app]. by rewrite app_nil_r.
    + apply Forall_app. split; [done|]. apply Forall_singleton. cbn [length] in *. lia.
    + destruct conf_positive. lia.
    + intros Hok. rewrite concat_app, Forall_app. intros [Hf Hs]. cbn in Hs. rewrite app_nil_r in Hs.
      destruct (BatchCreate_prefix (e :: b) [] (sink w) Hok Hs I) as [n E]. rewrite app_nil_r in E. rewrite E.
      cbn [snd rows]. rewrite omap_app, H5 by done. cbn [concat]. by rewrite app_nil_r.
Qed.

Lemma books_take w : books w -> mode w <> Stopped -> books (take jsonb dbOk cfg w).
Proof.
  intros [H1 H2 H3 H4 H5 H6] Hm. unfold take. destruct (ch w) as [|e rest] eqn:Hc; [by split; rewrite ?Hc|].
  set (w' := mkWriter _ _ _ _ _ _).
  assert (E1 : concat (flushed w') ++ batch w' ++ ch w' = accepted w') by (cbn; rewrite <- H1, <- !app_assoc; done).
  assert (Hl : Z.of_nat (length (batch w')) <= BatchSize conf) by (change (batch w') with (batch w ++ [e]); rewrite length_app; cbn [length]; lia).
  assert (Hr : Z.of_nat (length (ch w')) <= ChannelSize conf) by (change (ch w') with rest; cbn [length] in H4; lia).
  destruct (Z.leb_spec (BatchSize conf) (Z.of_nat (length (batch w')))) as [|Hlt]; [by apply books_flush|].
  by split.
Qed.

Lemma books_step w m : books w -> books (step jsonb dbOk cfg w m).
Proof.
  intros HB. assert (HB' := HB). destruct HB' as [H1 H2 H3 H4 H5 H6].
  assert (Hflush := books_flush w H1 H2 ltac:(lia) H4 H6). destruct m as [e|tick cancelled]; cbn.
  - unfold Log. destruct (Z.ltb_spec (Z.of_nat (length (ch w))) (ChannelSize conf)); [|done].
    split; cbn [flushed batch ch accepted mode sink]; try done; [by rewrite <- H1, <- !app_assoc | rewrite length_app; cbn [length]; lia].
  - destruct (mode w) eqn:Hm; [| |done].
    + destruct cancelled; [by split|]. destruct tick; [apply Hflush|]. apply books_take; [done | by rewrite Hm].
    + unfold drainStep. destruct (ch w) eqn:Hc; [|apply books_take; [done | by rewrite Hm]].
      destruct Hflush as [[B1 B2 B3 B4 B5 B6] Hnil]. by split.
Qed.

Lemma books_history ms : books (history jsonb dbOk cfg ms).
Proof.
  unfold history. induction ms as [|m ms IH] using rev_ind.
  - destruct conf_positive as [P1 P2]. cbn [foldl]. split; try done; cbn [NewWriter batch ch length Z.of_nat]; lia.
  - rewrite foldl_app. by apply books_step.
Qed.

End Exact.

(** The events logged, in order. *)
Definition logged (ms : list Move) : list Event := omap (fun m => match m with MLog e => Some e | _ => None end) ms.

Lemma flush_accepted jsonb dbOk w : accepted (flush jsonb dbOk w) = accepted w.
Proof. unfold flush. by destruct (batch w). Qed.

Lemma take_accepted jsonb dbOk cfg w : accepted (take jsonb dbOk cfg w) = accepted w.
Proof. unfold take. destruct (ch w); [done|]. cbv zeta. destruct (_ <=? _); [by rewrite flush_accepted | done]. Qed.

Lemma accepted_logged jsonb dbOk cfg ms : accepted (history jsonb dbOk cfg ms) `sublist_of` logged ms.
Proof.
  unfold history, logged. induction ms as [|m ms IH] using rev_ind; [done|].
  rewrite foldl_app, omap_app. cbn [foldl]. destruct m as [e|tick cancelled]; cbn.
  - unfold Log. destruct (_ <? _); [by apply sublist_app|].
    rewrite <- (app_nil_r (accepted _)). apply sublist_app; [done | apply sublist_nil_l].
  - rewrite app_nil_r. destruct (mode _); [| |done].
    + destruct cancelled; [done|]. destruct tick; [by rewrite flush_accepted | by rewrite take_accepted].
    + unfold drainStep. destruct (ch _); [|by rewrite take_accepted]. cbn. by rewrite flush_accepted.
Qed.

(** C32: However requests log and the writer's loop goes round, through
    shutdown: the events that entered the channel are, in order and each
    once, those of the batches handed to the sink, then the batch being
    filled, then the channel; batches are never empty and never larger than
    configured, the channel never exceeds its size; once the writer has
    stopped nothing is left in the batch; and when the database answers and
    every event fits its columns, the table holds exactly the rows of the
    batches. *)
Theorem audit_writer_exact jsonb dbOk cfg ms :
  let w := history jsonb dbOk cfg ms in
  accepted w `sublist_of` logged ms
  /\ concat (flushed w) ++ batch w ++ ch w = accepted w
  /\ Forall (fun b => 1 <= Z.of_nat (length b) <= BatchSize (withDefaults cfg)) (flushed w)
  /\ Z.of_nat (length (ch w)) <= ChannelSize (withDefaults cfg)
  /\ (mode w = Stopped -> batch w = [])
  /\ ((forall n, dbOk n = true) -> Forall (storable jsonb) (accepted w) ->
      rows (sink w) = omap (toRow jsonb) (concat (flushed w))).
Proof.
  cbv zeta. destruct (books_history jsonb dbOk cfg ms) as [H1 H2 H3 H4 H5 H6].
  split; [apply accepted_logged|]. split_and!; [done..|]. intros Hok Hs. apply H6; [done|].
  rewrite <- H1 in Hs. by apply Forall_app in Hs as [? _].
Qed.

(** The sink stores a batch row by row and gives up at the first event
    the table refuses, so that event and every later one of the batch, of
    whatever user, are lost: what is stored is exactly the longest prefix of
    storable events. *)
Lemma audit_batch_prefix jsonb dbOk good bad rest d :
  (forall n, dbOk n = true) -> Forall (storable jsonb) good -> ~ storable jsonb bad ->
  (BatchCreate jsonb dbOk (good ++ bad :: rest) d).1 = false
  /\ rows (BatchCreate jsonb dbOk (good ++ bad :: rest) d).2 = rows d ++ omap (toRow jsonb) good.
Proof. intros Hok Hg Hb. by destruct (BatchCreate_prefix jsonb dbOk good (bad :: rest) d Hok Hg Hb) as [n ->]. Qed.

(** A failed login under a 501-character User-Agent, sent by anyone. *)
Fixpoint repeatA (n : nat) : string := match n with O => "" | S k => String "a" (repeatA k) end.

Definition demoEvent (user agent : string) : Event :=
  mkAudit None user "authentication" "login_failed" "" "" "" "" None None "POST" "/oidc/login" 401 "198.51.100.7" agent 3
    false (Some "x") None 0.

(** ** Who the client is *)

Section Hops.
Context {Addr Prefix : Type} (ParseAddr : string -> option Addr) (String_ : Addr -> string)
  (Contains : Prefix -> Addr -> bool) (proxies : option (list Prefix)).

#[local] Abbreviation trusted := (isTrusted Contains proxies).

Definition trustedHop (h : string) : Prop := exists b, ParseAddr (TrimSpace h) = Some b /\ trusted b = true.

Lemma firstUntrusted_skip hops rest : Forall trustedHop hops ->
  firstUntrusted ParseAddr String_ Contains proxies (hops ++ rest) = firstUntrusted ParseAddr String_ Contains proxies rest.
Proof. induction 1 as [|h hops (b & Hp & Ht) _ IH]; [done|]. cbn. by rewrite Hp, Ht. Qed.

(** Behind trusted proxies the client address is the last hop they
    observed, whatever the client itself put in front of it in
    X-Forwarded-For and whatever it sends as X-Real-IP; a peer that is not
    a trusted proxy is taken at its own address. *)
Lemma client_ip_unforgeable r peer forged observed hops a :
  ParseAddr (remoteAddrHost r) = Some peer ->
  XForwardedFor r <> "" -> XForwardedFor r = Join (forged ++ observed :: hops) "," ->
  Forall (fun h => str_in "," h = false) (forged ++ observed :: hops) ->
  ParseAddr (TrimSpace observed) = Some a -> trusted a = false -> Forall trustedHop hops ->
  ClientIP ParseAddr String_ Contains proxies r = if trusted peer then String_ a else remoteAddrHost r.
Proof.
  intros Hpeer Hne Hx Hc Ha Hta Hh. unfold ClientIP. rewrite Hpeer. destruct (trusted peer); [|done]. cbn [negb].
  destruct (String.eqb_spec (XForwardedFor r) "") as [|_]; [done|].
  rewrite Hx, Split_join by (done || by destruct forged).
  rewrite reverse_app, reverse_cons, <- app_assoc, firstUntrusted_skip by (by apply Forall_reverse).
  cbn. by rewrite Ha, Hta.
Qed.

End Hops.

(** A toy address: a single letter, the proxies' being [p]. *)
Definition toyParse (s : string) : option ascii := match s with String c EmptyString => Some c | _ => None end.
Definition toyRequest (xff : string) : Request := mkReq "p" xff "x".

Example forged_hops_ignored :
  ClientIP toyParse (fun c => String c "") Ascii.eqb (Some ["p"%char]) (toyRequest "f,f, c, p") = "c".
Proof.
  apply (client_ip_unforgeable toyParse (fun c => String c "") Ascii.eqb (Some ["p"%char]) (toyRequest "f,f, c, p")
           "p"%char ["f"; "f"] " c" [" p"] "c"%char); try done; repeat constructor; by exists "p"%char.
Qed.

(** A hop the parser does not take (an address with its port, as some
    proxies write it) is skipped, and the next to the left, which the client
    wrote, is believed. *)
Example unparsable_hop_skipped :
  ClientIP toyParse (fun c => String c "") Ascii.eqb (Some ["p"%char]) (toyRequest "f, c:443, p") = "f".
Proof. by vm_compute. Qed.

End AuditLog.
