(* ===== verification/Leases.v ===== *)
(** * Instance leases

    [lib/serverinstance/serverinstance.go]: the table [server_instances],
    the statements that write and read it against the database clock, the
    renewal loop of [Lease], and the names an instance gives itself. *)

From S2P Require Import Prelude ListQuery AgentGuard.

Module Leases.

(** Times are in microseconds, as [timestamptz] keeps them. *)
Definition RenewInterval : Z := 10 * 1000000.
Definition StaleAfter : Z := 30 * 1000000.

Record Instance := mkInstance { internalAddr : string; startedAt : Z; lastSeenAt : Z }.

Abbreviation Table := (gmap string Instance).

(** ** Statements; [now] is the database's *)

Definition Register (now : Z) (id addr : string) (t : Table) : Table := <[id := mkInstance addr now now]> t.

Definition Touch (now : Z) (id addr : string) (t : Table) : Table :=
  <[id := match t !! id with
          | Some i => mkInstance addr (startedAt i) now
          | None => mkInstance addr now now
          end]> t.

Definition Delete (id : string) (t : Table) : Table := delete id t.

Definition fresh (now : Z) (i : Instance) : bool := now - StaleAfter <=? lastSeenAt i.

Definition DeleteStale (now : Z) (t : Table) : Table := filter (fun p => Is_true (fresh now p.2)) t.

Definition ListAlive (now : Z) (t : Table) : list string :=
  (map_to_list (filter (fun p => Is_true (fresh now p.2)) t)).*1.

Definition IsAlive (now : Z) (id : string) (t : Table) : bool :=
  match t !! id with Some i => fresh now i | None => false end.

(** ** Instances at work *)

(** One statement of some instance, which the database may not run, or the
    passing of time. *)
Inductive Op :=
| OpRegister (id addr : string)
| OpTouch (id addr : string)
| OpDelete (id : string)
| OpSweep
| OpWait (d : N).

Record World := mkWorld { table : Table; clock : Z }.

Definition step (w : World) (op : Op * bool) : World :=
  let '(o, ok) := op in
  match o with
  | OpWait d => mkWorld (table w) (clock w + Z.of_N d)
  | _ =>
      if negb ok then w
      else
        mkWorld (match o with
                 | OpRegister id a => Register (clock w) id a (table w)
                 | OpTouch id a => Touch (clock w) id a (table w)
                 | OpDelete id => Delete id (table w)
                 | OpSweep => DeleteStale (clock w) (table w)
                 | OpWait _ => table w
                 end) (clock w)
  end.

Definition history (t0 : Z) (ops : list (Op * bool)) : World := foldl step (mkWorld ∅ t0) ops.

(** The loop of a [Lease]: [Start], a number of ticks, and on cancellation
    the deregistration; [ok] tells which statements the database runs. *)
Definition leaseTick (id addr : string) (ok1 ok2 : bool) : list (Op * bool) :=
  [(OpTouch id addr, ok1); (OpSweep, ok2)].

Definition leaseStart (id addr : string) (ok : bool) : list (Op * bool) := [(OpRegister id addr, ok)].
Definition leaseStop (id : string) (ok : bool) : list (Op * bool) := [(OpDelete id, ok)].

(** ** Names *)

Section Names.
(** The first eight bytes of SHA-256, in hexadecimal. *)
Context (sha8 : string -> string).

Definition rawID (serverName : string) (host : option string) (pid : Z) : string :=
  let serverName := if serverName =s "" then "vraxel" else serverName in
  let host := match host with Some h => if h =s "" then "unknown" else h | None => "unknown" end in
  serverName +++ "-" +++ host +++ "-" +++ FormatInt pid.

Definition BuildInstanceID (serverName : string) (host : option string) (pid : Z) : string :=
  let id := rawID serverName host pid in
  if (64 <? String.length id)%nat then str_take 47 id +++ "-" +++ sha8 id else id.

End Names.

Definition BuildInternalAddr (env : string) (hostname : option string) (listenAddr : string) : string :=
  let v := ListQ.TrimSpace env in
  if negb (v =s "") then v
  else
    let host := match hostname with Some h => if h =s "" then "127.0.0.1" else h | None => "127.0.0.1" end in
    match Guard.SplitHostPort listenAddr with
    | Some (_, port) => if negb (port =s "") then Guard.JoinHostPort host port else host
    | None => host
    end.

(** ** Who is alive *)

(** When an instance last renewed and did not deregister since: the clock
    and that time, statement by statement. *)
Definition renewStep (id : string) (st : Z * option Z) (op : Op * bool) : Z * option Z :=
  match op with
  | (OpWait d, _) => (st.1 + Z.of_N d, st.2)
  | (OpRegister id' _, true) | (OpTouch id' _, true) => (st.1, if id' =s id then Some st.1 else st.2)
  | (OpDelete id', true) => (st.1, if id' =s id then None else st.2)
  | _ => st
  end.

Definition lastRenewal (t0 : Z) (ops : list (Op * bool)) (id : string) : option Z :=
  (foldl (renewStep id) (t0, None) ops).2.

Definition alive (now : Z) (renewed : option Z) : bool :=
  match renewed with Some s => now - StaleAfter <=? s | None => false end.

(** A row is the last renewal, and only stale renewals have no row. *)
Definition matches (w : World) (id : string) (r : option Z) : Prop :=
  match table w !! id with
  | Some i => r = Some (lastSeenAt i)
  | None => alive (clock w) r = false
  end.

Lemma alive_later now d r : alive now r = false -> alive (now + Z.of_N d) r = false.
Proof. destruct r as [s|]; [|done]. cbn. rewrite !Z.leb_gt. lia. Qed.

Lemma matches_step id w st op : clock w = st.1 -> matches w id st.2 ->
  clock (step w op) = (renewStep id st op).1 /\ matches (step w op) id (renewStep id st op).2.
Proof.
  unfold matches. destruct op as [[id' a|id' a|id'| |d] [|]], st as [c r]; cbn; intros -> Hm; split; try done.
  - unfold Register. destruct (String.eqb_spec id' id) as [->|Hne]; [by rewrite lookup_insert_eq | by rewrite lookup_insert_ne].
  - unfold Touch. destruct (String.eqb_spec id' id) as [->|Hne]; [|by rewrite lookup_insert_ne].
    rewrite lookup_insert_eq. by destruct (table w !! id).
  - unfold Delete. destruct (String.eqb_spec id' id) as [->|Hne]; [by rewrite lookup_delete_eq | by rewrite lookup_delete_ne].
  - unfold DeleteStale. rewrite map_lookup_filter. destruct (table w !! id) as [i|] eqn:E; cbn; [|done].
    destruct (fresh c i) eqn:Hf; cbn; [done|]. rewrite Hm. exact Hf.
  - destruct (table w !! id) as [i|]; [done | by apply alive_later].
  - destruct (table w !! id) as [i|]; [done | by apply alive_later].
Qed.

Lemma matches_history t0 ops id :
  clock (history t0 ops) = (foldl (renewStep id) (t0, None) ops).1
  /\ matches (history t0 ops) id (lastRenewal t0 ops id).
Proof.
  unfold history, lastRenewal. induction ops as [|op ops [IH1 IH2]] using rev_ind; [done|].
  rewrite !foldl_app. by apply matches_step.
Qed.

(** C33: At any moment of any history of instances that start, renew, fail
    to reach the database, shut down, crash and sweep each other, an
    instance is reported alive exactly when its last successful renewal
    since it last deregistered is at most thirty seconds old on the
    database's clock: no sweep of a sibling ever takes a live lease, and no
    expired one is reported. *)
Theorem lease_alive_exact t0 ops id :
  let w := history t0 ops in
  let a := alive (clock w) (lastRenewal t0 ops id) in
  IsAlive (clock w) id (table w) = a /\ (id ∈ ListAlive (clock w) (table w) <-> a = true).
Proof.
  cbv zeta. destruct (matches_history t0 ops id) as [_ Hm]. set (w := history t0 ops) in *. unfold matches in Hm.
  assert (E : IsAlive (clock w) id (table w) = alive (clock w) (lastRenewal t0 ops id)).
  { unfold IsAlive. destruct (table w !! id) as [i|]; [by rewrite Hm | by rewrite Hm]. }
  split; [done|]. rewrite <- E. unfold ListAlive. rewrite list_elem_of_fmap. unfold IsAlive. split.
  - intros ([id' i] & -> & Hp%elem_of_map_to_list). apply map_lookup_filter_Some in Hp as [Hi Hf]. cbn in *.
    rewrite Hi. by destruct (fresh (clock w) i).
  - destruct (table w !! id) as [i|] eqn:Hi; [|done]. intros Hf. exists (id, i). split; [done|].
    apply elem_of_map_to_list, map_lookup_filter_Some. split; [done|]. cbn. by rewrite Hf.
Qed.

(** ** Names *)

Section NameFacts.
Context (sha8 : string -> string) (Hlen : forall s, String.length (sha8 s) = 16%nat).

Lemma BuildInstanceID_fits name host pid : (String.length (BuildInstanceID sha8 name host pid) <= 64)%nat.
Proof using Hlen.
  unfold BuildInstanceID. destruct (Nat.ltb_spec 64 (String.length (rawID name host pid))); [|lia].
  rewrite !length_app_s, Hlen, length_str_take. cbn [String.length]. lia.
Qed.

End NameFacts.

(** One crash: the survivor's sweeps remove the dead lease, never its own. *)
Definition demoOps : list (Op * bool) :=
  leaseStart "a" "10.0.0.1:80" true ++ leaseStart "b" "10.0.0.2:80" false
  ++ [(OpWait 10000000, true)] ++ leaseTick "a" "10.0.0.1:80" true true ++ leaseTick "b" "10.0.0.2:80" true true
  ++ [(OpWait 20000000, true)] ++ leaseTick "a" "10.0.0.1:80" true true
  ++ [(OpWait 20000000, true)] ++ leaseTick "a" "10.0.0.1:80" false true.

Example survivor : ListAlive 50000000 (table (history 0 demoOps)) = ["a"] /\ table (history 0 demoOps) !! "b" = None.
Proof. by vm_compute. Qed.

End Leases.
