(* ===== verification/AlertRules.v ===== *)
(** * Alert rules

    [pkg/apis/compute/storage_alert_rule.go] and
    [store/pg_alert_rule.go]: what an operator may say about thresholds, and
    the table [host_alert_rules] the evaluator of [AgentAlerts] reads. A
    request is one statement after its validation (two with the read-back),
    each of which may fail or go unanswered. Lists are in
    [FleetLists]; names joined in for display are left out. *)

From S2P Require Import Prelude Rbac ListQuery IamDb IamStore AgentAlerts FleetDb.

Module AlertRules.
Import IamDb(SqlErr(..), fits, string_data_right_truncation, foreign_key_violation).
Import IamStore(GoErr(..), Sentinel(..), CheckPG, wrap, tagged, notFoundOr, domainErr, NewBadRequest).
Import FleetDb(Filter, FromIDs, PartsForCreate, inScope, Tenancy, mkTenancy, tScope, tWorkspaceID, tNamespaceID, refOk, Fault(..)).
Import ListQ(TrimSpace).

(** [agentgw.AlertMetrics]. *)
Definition AlertMetrics : list string :=
  ["cpu_used_pct"; "mem_used_pct"; "disk_used_pct"; "load1"; "load5"; "load15"; "net_rx_bps"; "net_tx_bps"].

Definition alertComparators : list string := ["gt"; "ge"; "lt"; "le"].
Definition alertSeverities : list string := ["info"; "warning"; "critical"].
Definition alertMaxForSecs : Z := 24 * 3600.
Definition alertNameMaxLen : nat := 255.
Definition alertDescMaxLen : nat := 1000.
Definition alertDefaultSecs : Z := 60.

Section Float.
(** float64, its rounding to the column's float32, and the rounding to four
    decimals done for display. *)
Context {F : Type} (single round4 : F -> F).

(** The writable fields of a request. *)
Record HostAlertRule := mkRuleIn {
  inName : string; inDescription : string; inMetric : string; inOp : string; inThreshold : F;
  inForSeconds : Z; inSeverity : string; inEnabled : option bool
}.

Record AlertRuleInput := mkInput {
  iName : string; iDescription : string; iMetric : string; iOp : string; iThreshold : F;
  iForSeconds : Z; iSeverity : string; iEnabled : bool
}.

Definition alertRuleInput (r : HostAlertRule) : result GoErr AlertRuleInput :=
  let name := TrimSpace (inName r) in
  let forSecs := if inForSeconds r =? 0 then alertDefaultSecs else inForSeconds r in
  if (name =s "") || (alertNameMaxLen <? String.length name)%nat then
    Err (NewBadRequest "name is required and at most 255 characters" [])
  else if (alertDescMaxLen <? String.length (inDescription r))%nat then
    Err (NewBadRequest "description is at most 1000 characters" [])
  else if negb (bool_decide (inMetric r ∈ AlertMetrics)) then
    Err (NewBadRequest ("metric must be one of " +++ Join AlertMetrics ", ") [])
  else if negb (bool_decide (inOp r ∈ alertComparators)) then
    Err (NewBadRequest "op must be one of gt, ge, lt, le" [])
  else if negb (bool_decide (inSeverity r ∈ alertSeverities)) then
    Err (NewBadRequest "severity must be one of info, warning, critical" [])
  else if (forSecs <? 0) || (alertMaxForSecs <? forSecs) then
    Err (NewBadRequest "forSeconds must be between 0 and 86400" [])
  else
    Ok (mkInput name (TrimSpace (inDescription r)) (inMetric r) (inOp r) (inThreshold r) forSecs (inSeverity r)
          (match inEnabled r with None => true | Some b => b end)).

(** ** The table *)

Record Rule := mkRule {
  rName : string; rDescription : string; rTenancy : Tenancy; rMetric : string; rOp : string; rThreshold : F;
  rForSeconds : Z; rSeverity : string; rEnabled : bool; rCreatedBy : option Z
}.

Record World := mkWorld {
  rules : gmap Z Rule; ruleSeq : Z;
  userIDs : gset Z; workspaceIDs : gset Z; namespaceIDs : gset Z;
  faults : list Fault
}.

Definition set_rules (t : gmap Z Rule) (n : Z) (w : World) : World :=
  mkWorld t n (userIDs w) (workspaceIDs w) (namespaceIDs w) (faults w).

Definition Stmt (A : Type) : Type := World -> result SqlErr A * World.

Definition runStmt {A} (st : Stmt A) (w : World) : result SqlErr A * World :=
  match faults w with
  | [] | Fine :: _ =>
      st (mkWorld (rules w) (ruleSeq w) (userIDs w) (workspaceIDs w) (namespaceIDs w) (tail (faults w)))
  | Lost :: fs => (Err ErrConn, mkWorld (rules w) (ruleSeq w) (userIDs w) (workspaceIDs w) (namespaceIDs w) fs)
  | Unanswered :: fs =>
      (Err ErrConn, (st (mkWorld (rules w) (ruleSeq w) (userIDs w) (workspaceIDs w) (namespaceIDs w) fs)).2)
  end.

Definition written (i : AlertRuleInput) (t : Tenancy) (by_ : option Z) : Rule :=
  mkRule (iName i) (iDescription i) t (iMetric i) (iOp i) (single (iThreshold i)) (iForSeconds i) (iSeverity i)
    (iEnabled i) by_.

Definition columnsFit (i : AlertRuleInput) : bool :=
  fits 255 (iName i) && fits 1000 (iDescription i) && fits 32 (iMetric i) && fits 2 (iOp i) && fits 16 (iSeverity i).

Definition CreateHostAlertRule (t : Tenancy) (by_ : option Z) (i : AlertRuleInput) : Stmt Z :=
  fun w =>
    let id := ruleSeq w + 1 in
    let w' := set_rules (rules w) id w in
    if negb (columnsFit i && fits 32 (tScope t)) then (Err (PgError string_data_right_truncation), w')
    else if negb (refOk (tWorkspaceID t) (workspaceIDs w) && refOk (tNamespaceID t) (namespaceIDs w) && refOk by_ (userIDs w))
    then (Err (PgError foreign_key_violation), w')
    else (Ok id, set_rules (<[id := written i t by_]> (rules w)) id w).

(** Rows of the scope only; the number of rows. *)
Definition UpdateHostAlertRule (id : Z) (sf : Filter) (i : AlertRuleInput) : Stmt Z :=
  fun w => match rules w !! id with
           | Some r =>
               if inScope sf (rTenancy r) then
                 if negb (columnsFit i) then (Err (PgError string_data_right_truncation), w)
                 else (Ok 1, set_rules (<[id := written i (rTenancy r) (rCreatedBy r)]> (rules w)) (ruleSeq w) w)
               else (Ok 0, w)
           | None => (Ok 0, w)
           end.

Definition DeleteHostAlertRule (id : Z) (sf : Filter) : Stmt Z :=
  fun w => match rules w !! id with
           | Some r => if inScope sf (rTenancy r) then (Ok 1, set_rules (delete id (rules w)) (ruleSeq w) w) else (Ok 0, w)
           | None => (Ok 0, w)
           end.

Definition GetHostAlertRule (id : Z) (sf : Filter) : Stmt Rule :=
  fun w => (match rules w !! id with
            | Some r => if inScope sf (rTenancy r) then Ok r else Err ErrNoRows
            | None => Err ErrNoRows
            end, w).

(** ** The store and the handlers *)

Definition Call (A : Type) : Type := World -> result GoErr A * World.

Definition call {A} (f : SqlErr -> GoErr) (st : Stmt A) : Call A :=
  fun w => let '(r, w') := runStmt st w in (match r with Ok a => Ok a | Err e => Err (f e) end, w').

Definition storeGet (id : Z) (sf : Filter) : Call Rule := call (notFoundOr wrap) (GetHostAlertRule id sf).

Definition storeCreate (t : Tenancy) (by_ : option Z) (i : AlertRuleInput) : Call Z :=
  call CheckPG (CreateHostAlertRule t by_ i).

(** No row is not found. *)
Definition counted (c : Call Z) : Call unit :=
  fun w => match c w with
           | (Ok n, w') => (if n =? 0 then Err (tagged ErrNotFound) else Ok tt, w')
           | (Err e, w') => (Err e, w')
           end.

Definition storeUpdate (id : Z) (sf : Filter) (i : AlertRuleInput) : Call unit :=
  counted (call CheckPG (UpdateHostAlertRule id sf i)).

Definition storeDelete (id : Z) (sf : Filter) : Call unit := counted (call wrap (DeleteHostAlertRule id sf)).

Record Ctx := mkCtx { cWorkspaceID : Z; cNamespaceID : Z; cUserID : option Z }.

Definition scopeOf (ctx : Ctx) : Filter := FromIDs (cWorkspaceID ctx) (cNamespaceID ctx).

(** The API object of a row: the fields this model keeps. *)
Definition alertRuleToAPI (id : Z) (r : Rule) : string * Rule :=
  (FormatInt id, mkRule (rName r) (rDescription r) (rTenancy r) (rMetric r) (rOp r) (round4 (rThreshold r))
                   (rForSeconds r) (rSeverity r) (rEnabled r) (rCreatedBy r)).

Definition rule_get (ctx : Ctx) (id : Z) : Call (string * Rule) :=
  fun w => match storeGet id (scopeOf ctx) w with
           | (Ok r, w') => (Ok (alertRuleToAPI id r), w')
           | (Err e, w') => (Err (domainErr e), w')
           end.

Definition rule_create (ctx : Ctx) (in_ : HostAlertRule) : Call (string * Rule) :=
  fun w => match alertRuleInput in_ with
           | Err e => (Err e, w)
           | Ok i =>
               match storeCreate (PartsForCreate (scopeOf ctx)) (cUserID ctx) i w with
               | (Err e, w') => (Err (domainErr e), w')
               | (Ok id, w') => rule_get ctx id w'
               end
           end.

Definition rule_update (ctx : Ctx) (id : Z) (in_ : HostAlertRule) : Call (string * Rule) :=
  fun w => match alertRuleInput in_ with
           | Err e => (Err e, w)
           | Ok i =>
               match storeUpdate id (scopeOf ctx) i w with
               | (Err e, w') => (Err (domainErr e), w')
               | (Ok _, w') => rule_get ctx id w'
               end
           end.

Definition rule_delete (ctx : Ctx) (id : Z) : Call unit :=
  fun w => match storeDelete id (scopeOf ctx) w with
           | (Err e, w') => (Err (domainErr e), w')
           | (Ok _, w') => (Ok tt, w')
           end.

(** ** Requests *)

Inductive Request :=
| Create (ctx : Ctx) (in_ : HostAlertRule)
| Update (ctx : Ctx) (id : Z) (in_ : HostAlertRule)
| Delete (ctx : Ctx) (id : Z)
| Get (ctx : Ctx) (id : Z).

Definition reqCtx (r : Request) : Ctx :=
  match r with Create c _ | Update c _ _ | Delete c _ | Get c _ => c end.

Definition serve (w : World) (r : Request) : World :=
  match r with
  | Create ctx i => (rule_create ctx i w).2
  | Update ctx id i => (rule_update ctx id i w).2
  | Delete ctx id => (rule_delete ctx id w).2
  | Get ctx id => (rule_get ctx id w).2
  end.

(** What the evaluator loads: the enabled rows. *)
Definition toEval (p : Z * Rule) : Alerts.AlertRule F :=
  {| Alerts.rID := p.1; Alerts.rName := rName p.2; Alerts.rScope := tScope (rTenancy p.2);
     Alerts.rWorkspaceID := tWorkspaceID (rTenancy p.2); Alerts.rNamespaceID := tNamespaceID (rTenancy p.2);
     Alerts.rMetric := rMetric p.2; Alerts.rOp := rOp p.2; Alerts.rThreshold := rThreshold p.2;
     Alerts.rForSeconds := rForSeconds p.2; Alerts.rSeverity := rSeverity p.2 |}.

Definition ListEnabledHostAlertRules (w : World) : list (Alerts.AlertRule F) :=
  toEval <$> filter (fun p => Is_true (rEnabled p.2)) (map_to_list (rules w)).

(** ** What a request can do to the table *)

(** What validation guarantees. *)
Record sound (metric op severity : string) (forSecs : Z) : Prop := {
  sd_metric : metric ∈ AlertMetrics;
  sd_op : op ∈ alertComparators;
  sd_severity : severity ∈ alertSeverities;
  sd_for : 1 <= forSecs <= alertMaxForSecs
}.

Definition soundInput (i : AlertRuleInput) : Prop := sound (iMetric i) (iOp i) (iSeverity i) (iForSeconds i).
Definition soundRule (r : Rule) : Prop := sound (rMetric r) (rOp r) (rSeverity r) (rForSeconds r).

Lemma alertRuleInput_sound in_ i : alertRuleInput in_ = Ok i -> soundInput i.
Proof.
  unfold alertRuleInput. destruct (_ || _); [done|]. destruct (_ <? _)%nat; [done|].
  case_bool_decide as H1; [|done]. case_bool_decide as H2; [|done]. case_bool_decide as H3; [|done]. cbn [negb].
  destruct (Z.ltb_spec (if inForSeconds in_ =? 0 then alertDefaultSecs else inForSeconds in_) 0); [done|].
  destruct (Z.ltb_spec alertMaxForSecs (if inForSeconds in_ =? 0 then alertDefaultSecs else inForSeconds in_)); [done|].
  cbn [orb]. intros [= <-]. split; cbn; try done.
  destruct (Z.eqb_spec (inForSeconds in_) 0); [by vm_compute | lia].
Qed.

(** How one row may change under a request at a scope; [new] says whether
    the request may add one. *)
Inductive change (new : bool) (sf : Filter) : option Rule -> option Rule -> Prop :=
| ch_same o : change new sf o o
| ch_new i by_ : new = true -> soundInput i -> change new sf None (Some (written i (PartsForCreate sf) by_))
| ch_update r i : soundInput i -> inScope sf (rTenancy r) = true ->
    change new sf (Some r) (Some (written i (rTenancy r) (rCreatedBy r)))
| ch_delete r : inScope sf (rTenancy r) = true -> change new sf (Some r) None.

Definition seqOk (w : World) : Prop := forall id, is_Some (rules w !! id) -> id <= ruleSeq w.

Definition evolves (new : bool) (sf : Filter) (w w' : World) : Prop :=
  (forall id, change new sf (rules w !! id) (rules w' !! id)) /\ (seqOk w -> seqOk w').

(** A statement that respects the scope, on tables whose sequence is ahead. *)
Definition respects (new : bool) (sf : Filter) {A} (st : Stmt A) : Prop := forall w, seqOk w -> evolves new sf w (st w).2.

Lemma evolves_refl new sf w : evolves new sf w w.
Proof. split; [constructor | done]. Qed.

Lemma evolves_same new sf w w' : rules w' = rules w -> ruleSeq w <= ruleSeq w' -> evolves new sf w w'.
Proof.
  intros E Hs. split; [intros id; rewrite E; constructor|]. intros Hok id. rewrite E. intros Hid%Hok. lia.
Qed.

Lemma respects_create sf by_ i : soundInput i -> respects true sf (CreateHostAlertRule (PartsForCreate sf) by_ i).
Proof.
  intros Hi w Hok. unfold CreateHostAlertRule. destruct (negb _); [apply evolves_same; cbn; lia || done|].
  destruct (negb _); [apply evolves_same; cbn; lia || done|]. cbn. split.
  - intros id. cbn. destruct (decide (id = ruleSeq w + 1)) as [->|Hne]; [|rewrite lookup_insert_ne by done; constructor].
    rewrite lookup_insert_eq. destruct (rules w !! (ruleSeq w + 1)) eqn:E; [|by constructor].
    assert (H := Hok (ruleSeq w + 1) ltac:(by rewrite E)). lia.
  - intros _ id. cbn. rewrite lookup_insert_is_Some. intros [<-|[_ Hid%Hok]]; lia.
Qed.

Lemma respects_update sf id i : soundInput i -> respects false sf (UpdateHostAlertRule id sf i).
Proof.
  intros Hi w Hok. unfold UpdateHostAlertRule. destruct (rules w !! id) as [r|] eqn:E; [|apply evolves_refl].
  destruct (inScope sf (rTenancy r)) eqn:Hs; [|apply evolves_refl]. destruct (negb _); [apply evolves_refl|]. cbn. split.
  - intros id'. cbn. destruct (decide (id' = id)) as [->|Hne]; [|rewrite lookup_insert_ne by done; constructor].
    rewrite lookup_insert_eq, E. by constructor.
  - intros _ id'. cbn. rewrite lookup_insert_is_Some. intros [<-|[_ Hid]]; apply Hok; [by rewrite E | done].
Qed.

Lemma respects_delete sf id : respects false sf (DeleteHostAlertRule id sf).
Proof.
  intros w Hok. unfold DeleteHostAlertRule. destruct (rules w !! id) as [r|] eqn:E; [|apply evolves_refl].
  destruct (inScope sf (rTenancy r)) eqn:Hs; [|apply evolves_refl]. cbn. split.
  - intros id'. cbn. destruct (decide (id' = id)) as [->|Hne]; [|rewrite lookup_delete_ne by done; constructor].
    rewrite lookup_delete_eq, E. by constructor.
  - intros _ id'. cbn. rewrite lookup_delete_is_Some. intros [_ Hid]. by apply Hok.
Qed.

Lemma evolves_run new sf {A} (st : Stmt A) w : respects new sf st -> seqOk w -> evolves new sf w (runStmt st w).2.
Proof.
  intros Hst Hok. unfold runStmt. destruct (faults w) as [|[| |] fs]; cbn [snd];
    [by apply (Hst (mkWorld _ _ _ _ _ _)).. | by apply evolves_same | by apply (Hst (mkWorld _ _ _ _ _ _))].
Qed.

Lemma call_run {A} f (st : Stmt A) w : (call f st w).2 = (runStmt st w).2.
Proof. unfold call. by destruct (runStmt st w). Qed.

Lemma counted_run (c : Call Z) w : (counted c w).2 = (c w).2.
Proof. unfold counted. by destruct (c w) as [[n|e] w']. Qed.

Lemma get_rules ctx id w : rules (rule_get ctx id w).2 = rules w /\ ruleSeq (rule_get ctx id w).2 = ruleSeq w.
Proof.
  assert (H : (rule_get ctx id w).2 = (storeGet id (scopeOf ctx) w).2)
    by (unfold rule_get; by destruct (storeGet _ _ _) as [[r|e] w']).
  rewrite H. unfold storeGet. rewrite call_run. unfold runStmt. by destruct (faults w) as [|[| |] fs].
Qed.

Definition creates (r : Request) : bool := match r with Create _ _ => true | _ => false end.

Lemma serve_evolves w r : seqOk w -> evolves (creates r) (scopeOf (reqCtx r)) w (serve w r).
Proof.
  intros Hok. assert (Hget : forall new ctx id w1, evolves new (scopeOf ctx) w w1 -> evolves new (scopeOf ctx) w (rule_get ctx id w1).2).
  { intros new ctx id w1 [H1 H2]. destruct (get_rules ctx id w1) as [E1 E2]. split; [by rewrite E1|].
    intros H. unfold seqOk. rewrite E1, E2. by apply H2. }
  destruct r as [ctx in_|ctx id in_|ctx id|ctx id]; cbn.
  - unfold rule_create. destruct (alertRuleInput in_) as [i|e] eqn:Ei; [|apply evolves_refl].
    assert (H := evolves_run true (scopeOf ctx) _ w (respects_create _ (cUserID ctx) i (alertRuleInput_sound _ _ Ei)) Hok).
    unfold storeCreate. rewrite <- (call_run CheckPG) in H. destruct (call _ _ w) as [[id|e] w']; [by apply Hget | done].
  - unfold rule_update. destruct (alertRuleInput in_) as [i|e] eqn:Ei; [|apply evolves_refl].
    assert (H := evolves_run false (scopeOf ctx) _ w (respects_update _ id i (alertRuleInput_sound _ _ Ei)) Hok).
    rewrite <- (call_run CheckPG), <- counted_run in H. unfold storeUpdate.
    destruct (counted _ w) as [[x|e] w']; [by apply Hget | done].
  - unfold rule_delete. assert (H := evolves_run false (scopeOf ctx) _ w (respects_delete _ id) Hok).
    rewrite <- (call_run wrap), <- counted_run in H. unfold storeDelete. by destruct (counted _ w) as [[x|e] w'].
  - apply Hget, evolves_refl.
Qed.

(** ** Histories *)

Definition emptyTable (us ws ns : gset Z) (fs : list Fault) : World := mkWorld ∅ 0 us ws ns fs.

Definition history (us ws ns : gset Z) (fs : list Fault) (rs : list Request) : World :=
  foldl serve (emptyTable us ws ns fs) rs.

(** Where the rule was created. *)
Definition createdAt (rs : list Request) (t : Tenancy) : Prop :=
  exists ctx in_, Create ctx in_ ∈ rs /\ t = PartsForCreate (scopeOf ctx).

Lemma history_rules us ws ns fs rs : seqOk (history us ws ns fs rs)
  /\ forall id r, rules (history us ws ns fs rs) !! id = Some r -> soundRule r /\ createdAt rs (rTenancy r).
Proof.
  unfold history. induction rs as [|q rs [IH1 IH2]] using rev_ind.
  { split; [by intros id [r Hr] | by intros id r Hr]. }
  rewrite foldl_app. cbn [foldl]. destruct (serve_evolves _ q IH1) as [H1 H2]. split; [by apply H2|].
  intros id r Hr. assert (Hc := H1 id). rewrite Hr in Hc.
  assert (Hmono : forall t, createdAt rs t -> createdAt (rs ++ [q]) t).
  { intros t (ctx & in_ & Hin & ->). exists ctx, in_. split; [|done]. apply elem_of_app. by left. }
  destruct (rules (foldl serve _ rs) !! id) as [r0|] eqn:E0.
  - destruct (IH2 id r0 E0) as [Hs0 Hc0]. inversion Hc; subst; [auto|]. split; [done | by apply Hmono].
  - inversion Hc as [|i by_ Hnew Hi| |]; subst. split; [exact Hi|]. destruct q as [ctx in_| | |]; [|done..].
    exists ctx, in_. split; [|done]. apply elem_of_app. right. by apply list_elem_of_singleton.
Qed.

(** The URL a rule was created at covers the host. *)
Definition covers (ctx : Ctx) (hostWs hostNs : option Z) : Prop :=
  if 0 <? cNamespaceID ctx then hostNs = Some (cNamespaceID ctx)
  else if 0 <? cWorkspaceID ctx then hostWs = Some (cWorkspaceID ctx)
  else True.

Lemma applies_covers ctx p hostWs hostNs : rTenancy p.2 = PartsForCreate (scopeOf ctx) ->
  Alerts.ruleApplies hostWs hostNs (toEval p) = true -> covers ctx hostWs hostNs.
Proof.
  intros E. unfold covers, Alerts.ruleApplies, toEval. cbn. rewrite E. unfold PartsForCreate, scopeOf, FromIDs. cbn.
  destruct (0 <? cNamespaceID ctx); cbn.
  - destruct hostNs as [n|]; cbn; [|done]. intros ->%Z.eqb_eq. done.
  - destruct (0 <? cWorkspaceID ctx); cbn; [|done]. destruct hostWs as [x|]; cbn; [|done]. intros ->%Z.eqb_eq. done.
Qed.

Lemma metric_known metric (m : Alerts.MetricsSummary F) : metric ∈ AlertMetrics -> is_Some (Alerts.summaryValue m metric).
Proof. intros H. repeat (apply elem_of_cons in H as [->|H]; [by eexists|]). by apply elem_of_nil in H. Qed.

(** C31: After any history of rule requests by any tenants, with statements
    that fail or go unanswered: a rule the evaluator applies to a host was
    created at a URL whose scope contains that host, whatever updates came
    later; it names a metric every heartbeat carries and a debounce between
    one second and a day; and a request never changes a rule outside the
    scope of its URL. *)
Theorem alert_rules_tenant_bound us ws ns fs rs :
  let w := history us ws ns fs rs in
  (forall ev hostWs hostNs, ev ∈ Alerts.applicableRules (ListEnabledHostAlertRules w) hostWs hostNs ->
     (exists ctx in_, Create ctx in_ ∈ rs /\ covers ctx hostWs hostNs)
     /\ (forall m : Alerts.MetricsSummary F, is_Some (Alerts.summaryValue m (Alerts.rMetric ev)))
     /\ 1 <= Alerts.rForSeconds ev <= alertMaxForSecs)
  /\ (forall q id r, rules w !! id = Some r -> inScope (scopeOf (reqCtx q)) (rTenancy r) = false ->
       rules (serve w q) !! id = Some r).
Proof.
  cbv zeta. destruct (history_rules us ws ns fs rs) as [Hseq Hr]. split.
  - intros ev hw hn [Ha He]%list_elem_of_filter. apply list_elem_of_fmap in He as ([id r] & -> & Hp).
    apply list_elem_of_filter in Hp as [_ Hp%elem_of_map_to_list]. destruct (Hr id r Hp) as [Hs (ctx & in_ & Hin & Ht)].
    split; [|split; [intros m; apply metric_known, Hs | apply Hs]]. exists ctx, in_. split; [done|].
    apply (applies_covers ctx (id, r)); [done|]. by apply Is_true_true.
  - intros q id r Hid Hs. destruct (serve_evolves _ q Hseq) as [H1 _]. assert (Hc := H1 id). rewrite Hid in Hc.
    inversion Hc; subst; [done | congruence | congruence].
Qed.

End Float.

(** ** Two tenants *)

Definition demoIn (metric : string) (secs : Z) (on : option bool) : HostAlertRule (F := Z) :=
  mkRuleIn " hot " "" metric "gt" 90 secs "warning" on.

Definition demoRequests : list (Request (F := Z)) :=
  [Create (mkCtx 3 0 None) (demoIn "cpu_used_pct" 0 None); Create (mkCtx 4 9 None) (demoIn "load5" 10 (Some false));
   Create (mkCtx 0 0 None) (demoIn "temperature" 10 None); Update (mkCtx 4 0 None) 1 (demoIn "load1" 5 None);
   Delete (mkCtx 4 0 None) 1].

Definition demoWorld : World (F := Z) := history id id ∅ {[3; 4]} {[9]} [] demoRequests.

(** The other tenant's update and delete do not reach rule 1, and an
    unknown metric is refused. *)
Example demo_rules :
  (rMetric <$> rules demoWorld) = {[1 := "cpu_used_pct"; 2 := "load5"]}
  /\ (rForSeconds <$> rules demoWorld) = {[1 := 60; 2 := 10]}
  /\ (Alerts.rID <$> ListEnabledHostAlertRules demoWorld) = [1].
Proof. by vm_compute. Qed.

(** An update that leaves [enabled] out turns a disabled rule on. *)
Example update_reenables :
  rEnabled <$> rules (serve id id demoWorld (Update (mkCtx 4 9 None) 2 (demoIn "load5" 10 None))) !! 2 = Some true.
Proof. by vm_compute. Qed.

End AlertRules.
