(* ===== verification/Probes.v ===== *)
(** * Probes on the host

    [lib/agent/probe/runner.go]: the workers behind the server's probe
    specs, their threshold rules, and the verdicts they report. A worker's
    check has three moments other goroutines can come between: the probe
    itself, the verdict under the worker's mutex, and the report. *)

From stdpp Require Import sorting.
From S2P Require Import Prelude.

Module Probes.

Record ProbeSpec := mkSpec {
  sName : string; sType : string; sPort : Z; sPath : string; sCommand : list string;
  sInitialDelaySec : Z; sPeriodSec : Z; sTimeoutSec : Z; sSuccessThreshold : Z; sFailureThreshold : Z
}.

Record ProbeState := mkProbe { psName : string; psHealthy : bool; psMessage : string; psChangedUnixMs : Z }.

Definition defaultPeriod : Z := 10 * 1000000000.
Definition defaultTimeout : Z := 3 * 1000000000.
Definition defaultSuccessThreshold : Z := 1.
Definition defaultFailureThreshold : Z := 3.

Definition period (s : ProbeSpec) : Z := if 0 <? sPeriodSec s then int64 (sPeriodSec s * 1000000000) else defaultPeriod.
Definition timeout (s : ProbeSpec) : Z := if 0 <? sTimeoutSec s then int64 (sTimeoutSec s * 1000000000) else defaultTimeout.

Definition successThreshold (s : ProbeSpec) : Z :=
  if 0 <? sSuccessThreshold s then sSuccessThreshold s else defaultSuccessThreshold.
Definition failureThreshold (s : ProbeSpec) : Z :=
  if 0 <? sFailureThreshold s then sFailureThreshold s else defaultFailureThreshold.

Definition sameSpec (a b : ProbeSpec) : bool :=
  (sName a =s sName b) && (sType a =s sType b) && (sPort a =? sPort b) && (sPath a =s sPath b)
  && (sInitialDelaySec a =? sInitialDelaySec b) && (sPeriodSec a =? sPeriodSec b)
  && (sTimeoutSec a =? sTimeoutSec b) && (sSuccessThreshold a =? sSuccessThreshold b)
  && (sFailureThreshold a =? sFailureThreshold b) && (length (sCommand a) =? length (sCommand b))%nat
  && forallb (fun p => p.1 =s p.2) (zip (sCommand a) (sCommand b)).

(** ** One probe *)

Definition loopbackAddr (port : Z) : string := "127.0.0.1:" +++ FormatInt port.

Definition trim (s : string) : string := if (String.length s <=? 256)%nat then s else str_take 256 s +++ "...".

(** What the network and the commands of the machine answer to one probe:
    an error message, an HTTP status, a command's output. *)
Record Machine := mkMachine {
  Dial : string -> option string;
  NewRequest : string -> option string;
  Get : string -> result string Z;
  CombinedOutput : list string -> string * option string
}.

(** The error of one check, if any; quoting of an unknown type is [%q]'s. *)
Definition probe (quote : string -> string) (m : Machine) (s : ProbeSpec) : option string :=
  if sType s =s "tcp" then Dial m (loopbackAddr (sPort s))
  else if sType s =s "http" then
    let path := if sPath s =s "" then "/" else sPath s in
    let path := if HasPrefix path "/" then path else "/" +++ path in
    let url := "http://" +++ loopbackAddr (sPort s) +++ path in
    match NewRequest m url with
    | Some e => Some e
    | None =>
        match Get m url with
        | Err e => Some e
        | Ok status => if (status <? 200) || (400 <=? status) then Some ("http status " +++ FormatInt status) else None
        end
    end
  else if sType s =s "exec" then
    match sCommand s with
    | [] => Some "exec probe has no command"
    | argv =>
        match CombinedOutput m argv with
        | (out, Some e) => Some (e +++ ": " +++ trim out)
        | (_, None) => None
        end
    end
  else Some ("unknown probe type " +++ quote (sType s)).

(** ** Workers *)

(** Where a worker's goroutine stands in [check]. *)
Inductive Phase := Waiting | Judging (err : option string) | Reporting (s : ProbeState).

Record Worker := mkWorker {
  spec : ProbeSpec;
  cancelled : bool;
  cur : ProbeState;
  streak : Z;
  streakOK : bool;
  phase : Phase
}.

Definition newWorker (s : ProbeSpec) : Worker :=
  mkWorker s false (mkProbe (sName s) false "not yet probed" 0) 0 false Waiting.

Definition stop (w : Worker) : Worker :=
  mkWorker (spec w) true (cur w) (streak w) (streakOK w) (phase w).

Definition set_phase (p : Phase) (w : Worker) : Worker :=
  mkWorker (spec w) (cancelled w) (cur w) (streak w) (streakOK w) p.

(** [check] up to the look at the context. *)
Definition checkProbe (quote : string -> string) (m : Machine) (w : Worker) : Worker :=
  if cancelled w then w else set_phase (Judging (probe quote m (spec w))) w.

(** While still failing the latest reason stays visible. *)
Definition withReason (msg : string) (c : ProbeState) : ProbeState :=
  if negb (psHealthy c) then mkProbe (psName c) (psHealthy c) msg (psChangedUnixMs c) else c.

(** The critical section of [check]. *)
Definition checkJudge (now : Z) (err : option string) (w : Worker) : Worker :=
  let ok := match err with None => true | Some _ => false end in
  let msg := default "" err in
  let '(sok, st) := if Bool.eqb ok (streakOK w) then (streakOK w, int32 (streak w + 1)) else (ok, 1) in
  let need := if ok then successThreshold (spec w) else failureThreshold (spec w) in
  let flip := negb (Bool.eqb ok (psHealthy (cur w))) && (need <=? st) in
  let cur' :=
    if flip then mkProbe (sName (spec w)) ok msg now
    else withReason msg (cur w) in
  mkWorker (spec w) (cancelled w) cur' st sok (if flip then Reporting cur' else Waiting).

(** ** The runner *)

Record Runner := mkRunner {
  workers : gmap string nat;
  heap : gmap nat Worker;
  next : nat;
  reports : list ProbeState     (** what [OnChange] was called with, the latest first *)
}.

Definition New : Runner := mkRunner ∅ ∅ 0 [].

Definition wanted (specs : list ProbeSpec) : gmap string ProbeSpec :=
  foldl (fun m s => if sName s =s "" then m else <[sName s := s]> m) ∅ specs.

(** Whether the worker at [a] already runs the spec wanted for its name. *)
Definition keeps (want : gmap string ProbeSpec) (h : gmap nat Worker) (n : string) (a : nat) : bool :=
  match want !! n, h !! a with
  | Some s, Some w => sameSpec (spec w) s
  | _, _ => false
  end.

(** Stop the workers at the given addresses. *)
Definition stopAll (addrs : list nat) (h : gmap nat Worker) : gmap nat Worker :=
  foldr (fun a h => alter stop a h) h addrs.

Definition addWorker (r : Runner) (p : string * ProbeSpec) : Runner :=
  match workers r !! p.1 with
  | Some _ => r
  | None => mkRunner (<[p.1 := next r]> (workers r)) (<[next r := newWorker p.2]> (heap r)) (S (next r)) (reports r)
  end.

Definition SetSpecs (specs : list ProbeSpec) (r : Runner) : Runner :=
  let want := wanted specs in
  let kept := filter (fun p => Is_true (keeps want (heap r) p.1 p.2)) (workers r) in
  let dropped := filter (fun p => Is_true (negb (keeps want (heap r) p.1 p.2))) (workers r) in
  foldl addWorker (mkRunner kept (stopAll (map_to_list dropped).*2 (heap r)) (next r) (reports r)) (map_to_list want).

Definition Close (r : Runner) : Runner :=
  mkRunner ∅ (stopAll (map_to_list (workers r)).*2 (heap r)) (next r) (reports r).

Definition byName (a b : ProbeState) : Prop := String.leb (psName a) (psName b) = true.

#[export] Instance byName_dec : RelDecision byName.
Proof. intros a b. unfold byName. apply _. Defined.

Definition States (r : Runner) : list ProbeState :=
  merge_sort byName (omap (fun p => cur <$> heap r !! p.2) (map_to_list (workers r))).

Inductive Event :=
| EvSetSpecs (specs : list ProbeSpec)
| EvClose
| EvProbe (a : nat) (m : Machine)
| EvJudge (a : nat) (now : Z)
| EvReport (a : nat).

Definition step (quote : string -> string) (r : Runner) (e : Event) : Runner :=
  let at_ a f := mkRunner (workers r) (alter f a (heap r)) (next r) (reports r) in
  match e with
  | EvSetSpecs specs => SetSpecs specs r
  | EvClose => Close r
  | EvProbe a m => at_ a (fun w => match phase w with Waiting => checkProbe quote m w | _ => w end)
  | EvJudge a now => at_ a (fun w => match phase w with Judging err => checkJudge now err w | _ => w end)
  | EvReport a =>
      match heap r !! a with
      | Some w =>
          match phase w with
          | Reporting s => mkRunner (workers r) (<[a := set_phase Waiting w]> (heap r)) (next r) (s :: reports r)
          | _ => r
          end
      | None => r
      end
  end.

Definition history (quote : string -> string) (es : list Event) : Runner := foldl (step quote) New es.

(** ** The threshold rules

    Over outcomes listed latest first: a service is up when it once
    answered [s] times in a row and has not failed [f] times in a row since
    then. *)

Definition Up (s f : nat) (rs : list bool) : Prop :=
  exists since before, rs = since ++ replicate s true ++ before
  /\ ~ exists a b, since = a ++ replicate f false ++ b.

Fixpoint lead (b : bool) (rs : list bool) : nat :=
  match rs with
  | r :: rs' => if Bool.eqb r b then S (lead b rs') else 0
  | [] => 0
  end.

Lemma lead_prefix b k rs : (exists t, rs = replicate k b ++ t) <-> (k <= lead b rs)%nat.
Proof.
  revert k. induction rs as [|r rs IH]; intros [|k]; cbn.
  - split; [lia|]. by eexists.
  - split; [intros [t Ht]; done | lia].
  - split; [lia|]. by eexists.
  - destruct (Bool.eqb_spec r b) as [->|Hn].
    + rewrite <- Nat.succ_le_mono, <- IH. split; intros [t Ht]; exists t; congruence.
    + split; [intros [t Ht]; congruence | lia].
Qed.

Lemma up_true s f rs : (0 < f)%nat -> Up s f (true :: rs) <-> Up s f rs \/ (s <= lead true (true :: rs))%nat.
Proof.
  intros Hf. split.
  - intros ([|x since] & before & E & Hn).
    + right. apply lead_prefix. by exists before.
    + injection E as <- ->. left. exists since, before. split; [done|]. intros (a & b & ->). apply Hn.
      by exists (true :: a), b.
  - intros [(since & before & -> & Hn) | [t Ht]%lead_prefix].
    + exists (true :: since), before. split; [done|]. intros ([|x a] & b & E).
      * destruct f; [lia | done].
      * injection E as _ E. apply Hn. by exists a, b.
    + exists [], t. split; [done|]. destruct f; [lia|]. intros ([|y l] & b & E); discriminate E.
Qed.

Lemma up_false s f rs : (0 < s)%nat ->
  Up s f (false :: rs) <-> Up s f rs /\ (lead false (false :: rs) < f)%nat.
Proof.
  intros Hs. split.
  - intros ([|x since] & before & E & Hn); [destruct s; [lia | done]|]. injection E as <- ->. split.
    + exists since, before. split; [done|]. intros (a & b & ->). apply Hn. by exists (false :: a), b.
    + apply Nat.nle_gt. intros [t Ht]%lead_prefix. apply Hn.
      rewrite (app_comm_cons since) in Ht. apply app_eq_inv in Ht as [(k & E & _)|(k & E & E2)].
      * by exists [], k.
      * destruct k as [|x k]; [exists [], []; by rewrite !app_nil_r in *|].
        assert (Hx : x ∈ replicate f false) by (rewrite E; set_solver). apply elem_of_replicate in Hx as [-> _].
        destruct s; [lia | done].
  - intros [(since & before & -> & Hn) Hl]. exists (false :: since), before. split; [done|].
    intros ([|x a] & b & E).
    + apply Nat.lt_nge in Hl. apply Hl, lead_prefix. exists (b ++ replicate s true ++ before).
      cbn in E. by rewrite app_comm_cons, E, <- app_assoc.
    + injection E as _ E. apply Hn. by exists a, b.
Qed.

(** The same, one outcome at a time. *)
Fixpoint up (s f : nat) (rs : list bool) : bool :=
  match rs with
  | [] => false
  | true :: rs' => up s f rs' || (s <=? lead true rs)%nat
  | false :: rs' => up s f rs' && (lead false rs <? f)%nat
  end.

Lemma up_spec s f rs : (0 < s)%nat -> (0 < f)%nat -> up s f rs = true <-> Up s f rs.
Proof.
  intros Hs Hf. induction rs as [|[] rs IH]; cbn [up].
  - split; [done|]. intros (since & before & E & _). apply (f_equal length) in E.
    rewrite !length_app, length_replicate in E. cbn in E. lia.
  - rewrite up_true, orb_true_iff, IH, Nat.leb_le by done. done.
  - rewrite up_false, andb_true_iff, IH, Nat.ltb_lt by done. done.
Qed.

(** The changes of the verdict, each with its time; outcomes and changes
    latest first. *)
Fixpoint turns (s f : nat) (os : list (bool * Z)) : list (bool * Z) :=
  match os with
  | [] => []
  | o :: os' =>
      let v := up s f os.*1 in
      if Bool.eqb v (up s f os'.*1) then turns s f os' else (v, o.2) :: turns s f os'
  end.

Lemma turns_cons s f ok now os : turns s f ((ok, now) :: os) =
  if Bool.eqb (up s f (ok :: os.*1)) (up s f os.*1) then turns s f os else (up s f (ok :: os.*1), now) :: turns s f os.
Proof. done. Qed.

(** ** What a history shows

    What the machine answers to a check is whether the service is there. *)

Definition serves (m : Machine) (s : ProbeSpec) : bool :=
  let addr := "127.0.0.1:" +++ FormatInt (sPort s) in
  if sType s =s "tcp" then bool_decide (Dial m addr = None)
  else if sType s =s "http" then
    let url := "http://" +++ addr +++ (if HasPrefix (sPath s) "/" then sPath s else "/" +++ sPath s) in
    bool_decide (NewRequest m url = None)
    && match Get m url with Ok status => (200 <=? status) && (status <? 400) | Err _ => false end
  else (sType s =s "exec") && bool_decide (sCommand s <> []) && bool_decide ((CombinedOutput m (sCommand s)).2 = None).

Lemma probe_serves quote m s : bool_decide (probe quote m s = None) = serves m s.
Proof.
  unfold probe, serves, loopbackAddr. destruct (sType s =s "tcp"); [done|]. destruct (sType s =s "http").
  - assert (E : (let path := if sPath s =s "" then "/" else sPath s in if HasPrefix path "/" then path else "/" +++ path)
              = if HasPrefix (sPath s) "/" then sPath s else "/" +++ sPath s) by by destruct (String.eqb_spec (sPath s) "") as [->|].
    cbv zeta in E. cbv zeta. rewrite E. destruct (NewRequest m _); [done|]. rewrite (bool_decide_true (None = None)) by done.
    destruct (Get m _) as [st|e]; [|done].
    by destruct (Z.ltb_spec st 200), (Z.leb_spec 400 st), (Z.leb_spec 200 st), (Z.ltb_spec st 400); try lia.
  - destruct (sType s =s "exec"); [|done]. destruct (sCommand s) as [|c l]; [done|].
    destruct (CombinedOutput m (c :: l)) as [out [e|]]; cbn; by rewrite ?andb_false_r.
Qed.

(** Of one worker: the check it is in, the outcomes of the others with the
    time of the verdict, and what [OnChange] was called with, latest first. *)
Record WLog := mkLog { gPending : option bool; gOutcomes : list (bool * Z); gSaid : list ProbeState }.

Definition noLog : WLog := mkLog None [] [].
Definition logOf (L : gmap nat WLog) (a : nat) : WLog := default noLog (L !! a).

Definition observe (r r' : Runner) (L : gmap nat WLog) (e : Event) : gmap nat WLog :=
  match e with
  | EvProbe a m =>
      match heap r !! a with
      | Some w =>
          match phase w, cancelled w with
          | Waiting, false => <[a := mkLog (Some (serves m (spec w))) (gOutcomes (logOf L a)) (gSaid (logOf L a))]> L
          | _, _ => L
          end
      | None => L
      end
  | EvJudge a now =>
      match gPending (logOf L a) with
      | Some ok => <[a := mkLog None ((ok, now) :: gOutcomes (logOf L a)) (gSaid (logOf L a))]> L
      | None => L
      end
  | EvReport a =>
      <[a := mkLog (gPending (logOf L a)) (gOutcomes (logOf L a))
               (take (length (reports r') - length (reports r)) (reports r') ++ gSaid (logOf L a))]> L
  | EvSetSpecs _ | EvClose => L
  end.

Definition observed (quote : string -> string) (es : list Event) : Runner * gmap nat WLog :=
  foldl (fun c e => (step quote c.1 e, observe c.1 (step quote c.1 e) c.2 e)) (New, ∅) es.

(** A worker keeps exactly what it needs of its outcomes. *)

Definition sth (w : Worker) : nat := Z.to_nat (successThreshold (spec w)).
Definition fth (w : Worker) : nat := Z.to_nat (failureThreshold (spec w)).

(** What it has reported and what it is about to. *)
Definition flips (g : WLog) (w : Worker) : list ProbeState :=
  match phase w with Reporting s => s :: gSaid g | _ => gSaid g end.

Definition announces (p : ProbeState) : string * (bool * Z) := (psName p, (psHealthy p, psChangedUnixMs p)).

Definition typed (s : ProbeSpec) : Prop :=
  in_int32 (sPeriodSec s) /\ in_int32 (sSuccessThreshold s) /\ in_int32 (sFailureThreshold s).

Record judged (g : WLog) (w : Worker) : Prop := {
  j_up : typed (spec w) -> psHealthy (cur w) = up (sth w) (fth w) (gOutcomes g).*1;
  j_last : streakOK w = hd false (gOutcomes g).*1;
  j_streak : typed (spec w) -> streakOK w = psHealthy (cur w)
             \/ (streak w = Z.of_nat (lead (streakOK w) (gOutcomes g).*1)
                 /\ streak w < if streakOK w then successThreshold (spec w) else failureThreshold (spec w));
  j_name : psName (cur w) = sName (spec w);
  j_flips : typed (spec w) -> announces <$> flips g w = (sName (spec w),.) <$> turns (sth w) (fth w) (gOutcomes g);
  j_cur : announces (cur w) = hd (sName (spec w), (false, 0)) (announces <$> flips g w);
  j_pending : match phase w with
              | Judging err => gPending g = Some (bool_decide (err = None))
              | _ => gPending g = None
              end
}.

Lemma judged_new s : judged noLog (newWorker s).
Proof. split; cbn; try done; by left. Qed.

Lemma judged_stop g w : judged g w -> judged g (stop w).
Proof. by intros []. Qed.

Lemma thresholds_pos s : 0 < successThreshold s /\ 0 < failureThreshold s.
Proof.
  unfold successThreshold, failureThreshold, defaultSuccessThreshold, defaultFailureThreshold.
  destruct (Z.ltb_spec 0 (sSuccessThreshold s)), (Z.ltb_spec 0 (sFailureThreshold s)); lia.
Qed.

Lemma thresholds_int32 s : typed s -> successThreshold s < 2 ^ 31 /\ failureThreshold s < 2 ^ 31.
Proof.
  intros (_ & [_ H1] & [_ H2]).
  unfold successThreshold, failureThreshold, defaultSuccessThreshold, defaultFailureThreshold.
  destruct (Z.ltb_spec 0 (sSuccessThreshold s)), (Z.ltb_spec 0 (sFailureThreshold s)); lia.
Qed.

Lemma lead_other b rs : hd false rs <> b -> lead b rs = 0%nat.
Proof. destruct rs as [|r rs]; cbn; [done|]. by destruct (Bool.eqb_spec r b). Qed.

(** The streak counts the outcomes that may still turn the verdict; it
    turns before the counter could overflow. *)
Lemma streak_step g w ok : judged g w -> typed (spec w) ->
  ok = psHealthy (cur w)
  \/ (if Bool.eqb ok (streakOK w) then int32 (streak w + 1) else 1) = Z.of_nat (lead ok (ok :: (gOutcomes g).*1)).
Proof.
  intros J HT. destruct (Bool.eqb_spec ok (streakOK w)) as [->|Hne].
  - destruct (j_streak _ _ J HT) as [|[E Hlt]]; [by left|]. right.
    assert (0 <= streak w + 1 < 2 ^ 31).
    { destruct (thresholds_int32 _ HT). rewrite E at 1. destruct (streakOK w); lia. }
    rewrite int32_id by (unfold in_int32; lia). rewrite E. cbn. rewrite Bool.eqb_reflx. lia.
  - right. cbn. rewrite Bool.eqb_reflx, lead_other; [done|]. rewrite <- (j_last _ _ J). congruence.
Qed.

Lemma withReason_same msg c : psHealthy (withReason msg c) = psHealthy c /\ psName (withReason msg c) = psName c
  /\ psChangedUnixMs (withReason msg c) = psChangedUnixMs c.
Proof. unfold withReason. by destruct (psHealthy c) eqn:E. Qed.

(** The verdict after an outcome. *)
Lemma judge_verdict g w ok st : judged g w -> typed (spec w) ->
  (ok = psHealthy (cur w) \/ st = Z.of_nat (lead ok (ok :: (gOutcomes g).*1))) ->
  let need := if ok then successThreshold (spec w) else failureThreshold (spec w) in
  let flip := negb (Bool.eqb ok (psHealthy (cur w))) && (need <=? st) in
  up (sth w) (fth w) (ok :: (gOutcomes g).*1) = if flip then ok else psHealthy (cur w).
Proof.
  intros J HT Hs. cbv zeta. destruct (thresholds_pos (spec w)). assert (Ju := j_up _ _ J HT). unfold sth, fth in *.
  destruct ok; cbn [up]; rewrite <- Ju; destruct (psHealthy (cur w)); cbn [orb andb negb Bool.eqb]; try done;
    (destruct Hs as [|Hs]; [done|]).
  - destruct (Z.leb_spec (successThreshold (spec w)) st);
      [rewrite (proj2 (Nat.leb_le _ _)) | rewrite (proj2 (Nat.leb_gt _ _))]; try done; lia.
  - destruct (Z.leb_spec (failureThreshold (spec w)) st);
      [rewrite (proj2 (Nat.ltb_ge _ _)) | rewrite (proj2 (Nat.ltb_lt _ _))]; try done; lia.
Qed.

Definition afterJudge (ok : bool) (now : Z) (g : WLog) : WLog := mkLog None ((ok, now) :: gOutcomes g) (gSaid g).

Lemma judged_judge now err g w : phase w = Judging err -> judged g w ->
  judged (afterJudge (bool_decide (err = None)) now g) (checkJudge now err w).
Proof.
  intros Hp J. unfold checkJudge, afterJudge. set (ok := match err with None => true | Some _ => false end).
  replace (bool_decide (err = None)) with ok by by destruct err.
  assert (Hs := streak_step g w ok J). assert (Hv := fun st HT => judge_verdict g w ok st J HT). cbv zeta in Hv.
  assert (Ef : flips g w = gSaid g) by (unfold flips; by rewrite Hp).
  replace (if Bool.eqb ok (streakOK w) then (streakOK w, int32 (streak w + 1)) else (ok, 1))
    with (ok, if Bool.eqb ok (streakOK w) then int32 (streak w + 1) else 1)
    by (destruct (Bool.eqb_spec ok (streakOK w)); congruence).
  set (st := if Bool.eqb ok (streakOK w) then int32 (streak w + 1) else 1) in *.
  set (need := if ok then successThreshold (spec w) else failureThreshold (spec w)) in *.
  assert (Hflip := fun HT => Hv st HT (Hs HT)). clear Hv. destruct J as [Ju _ _ Jn Jf Jc _].
  rewrite Ef in Jf, Jc. fold need in Hflip.
  destruct (negb (Bool.eqb ok (psHealthy (cur w))) && (need <=? st)) eqn:Efl.
  - apply andb_true_iff in Efl as [Hne _]. split; try done; [intros HT; symmetry; by apply Hflip | by left|].
    intros HT. unfold flips, sth, fth in *. cbn [phase fmap list_fmap spec gSaid gOutcomes] in *.
    rewrite Jf, turns_cons, (Hflip HT), <- Ju by done. by destruct ok, (psHealthy (cur w)).
  - destruct (withReason_same (default "" err) (cur w)) as (E1 & E2 & E3).
    split; unfold sth, fth in *; cbn [spec cur streak streakOK gOutcomes fmap list_fmap fst]; unfold flips, announces in *;
      cbn [phase gSaid]; rewrite ?E1, ?E2, ?E3; try done.
    + intros HT. symmetry. by apply Hflip.
    + intros HT. apply andb_false_iff in Efl as [Hne|Hlt].
      * left. by destruct ok, (psHealthy (cur w)).
      * destruct (Hs HT) as [->|E]; [by left|]. right. split; [done|]. fold need. lia.
    + intros HT. by rewrite Jf, turns_cons, (Hflip HT), <- Ju, Bool.eqb_reflx by done.
Qed.

(** ** The table of workers *)

(** What [OnChange] was called with, by any worker. *)
Definition allSaid (L : gmap nat WLog) : list ProbeState := concat (gSaid <$> (map_to_list L).*2).

Lemma allSaid_split L a : exists rest, allSaid L ≡ₚ gSaid (logOf L a) ++ rest
  /\ forall g, allSaid (<[a := g]> L) ≡ₚ gSaid g ++ rest.
Proof.
  exists (allSaid (delete a L)). unfold allSaid, logOf. split.
  - destruct (L !! a) as [g|] eqn:E; cbn; [|by rewrite delete_id].
    by rewrite <- (insert_delete_id L a g E) at 1; rewrite map_to_list_insert by apply lookup_delete_eq.
  - intros g. rewrite <- (insert_delete_eq L a g). by rewrite map_to_list_insert by apply lookup_delete_eq.
Qed.

Lemma allSaid_insert L a g new : gSaid g = new ++ gSaid (logOf L a) -> allSaid (<[a := g]> L) ≡ₚ new ++ allSaid L.
Proof. intros E. destruct (allSaid_split L a) as (rest & E1 & E2). by rewrite E2, E1, E, app_assoc. Qed.

Lemma logOf_insert L a g b : logOf (<[a := g]> L) b = if decide (a = b) then g else logOf L b.
Proof. unfold logOf. case_decide as E; [rewrite E, lookup_insert_eq; done | by rewrite lookup_insert_ne]. Qed.

Record running (L : gmap nat WLog) (r : Runner) : Prop := {
  r_judged : forall a w, heap r !! a = Some w -> judged (logOf L a) w;
  r_fresh : forall a, heap r !! a = None -> logOf L a = noLog;
  r_said : reports r ≡ₚ allSaid L;
  r_live : forall n a, workers r !! n = Some a ->
             exists w, heap r !! a = Some w /\ cancelled w = false /\ sName (spec w) = n;
  r_named : forall a w, heap r !! a = Some w -> cancelled w = false -> workers r !! sName (spec w) = Some a;
  r_next : forall a, is_Some (heap r !! a) -> (a < next r)%nat
}.

Lemma sameSpec_spec a b : sameSpec a b = true <-> a = b.
Proof.
  destruct a, b; unfold sameSpec; cbn. rewrite !andb_true_iff, !String.eqb_eq, !Z.eqb_eq, Nat.eqb_eq, forallb_forall.
  split.
  - intros ((((((((((-> & ->) & ->) & ->) & ->) & ->) & ->) & ->) & ->) & Hl) & Hc). f_equal.
    revert Hl Hc. generalize sCommand0 sCommand1. intros l. induction l as [|x l IH]; intros [|y l']; cbn; try done.
    intros [= Hl] Hc. f_equal; [|apply IH; [done|]; intros p Hp; apply Hc; by right].
    apply (String.eqb_eq x y), (Hc (x, y)). by left.
  - intros [= -> -> -> -> -> -> -> -> -> ->]. repeat split. intros [x y] Hp%list_elem_of_In%elem_of_lookup_zip_with.
    destruct Hp as (i & x1 & y1 & E & H1 & H2). cbn. injection E as -> ->. apply String.eqb_eq. congruence.
Qed.

Lemma wanted_name specs n s : wanted specs !! n = Some s -> sName s = n.
Proof.
  unfold wanted. assert (H : forall m : gmap string ProbeSpec, (forall k t, m !! k = Some t -> sName t = k) ->
    forall k t, foldl (fun m s => if sName s =s "" then m else <[sName s := s]> m) m specs !! k = Some t -> sName t = k).
  { induction specs as [|x specs IH]; cbn; [done|]. intros m Hm. apply IH. destruct (sName x =s ""); [done|].
    intros k t [[<- <-]|[_ Ht]]%lookup_insert_Some; [done | by apply Hm]. }
  apply H. intros k t. by rewrite lookup_empty.
Qed.

Lemma lookup_stopAll l h a : stopAll l h !! a = if decide (a ∈ l) then stop <$> h !! a else h !! a.
Proof.
  induction l as [|b l IH]; [done|]. change (stopAll (b :: l) h) with (alter stop b (stopAll l h)).
  destruct (decide (a = b)) as [->|Hne].
  - rewrite lookup_alter_eq, IH. destruct (decide (b ∈ b :: l)) as [_|Hn]; [|by destruct Hn; left].
    destruct (decide (b ∈ l)); [|done].
    by destruct (h !! b).
  - rewrite lookup_alter_ne, IH by congruence. apply decide_ext. rewrite elem_of_cons. tauto.
Qed.

Definition configured (r : Runner) : gmap string ProbeSpec := omap (fun a => spec <$> heap r !! a) (workers r).

Lemma configured_add L r p : running L r -> configured (addWorker r p) = configured r ∪ {[p.1 := p.2]}.
Proof.
  intros HR. apply map_eq. intros n. unfold configured, addWorker.
  destruct (workers r !! p.1) as [a|] eqn:Ha; cbn.
  - rewrite lookup_union, lookup_omap. destruct (decide (n = p.1)) as [->|Hn].
    + rewrite Ha, lookup_singleton_eq. destruct (r_live _ _ HR _ _ Ha) as (w & Hw & _). cbn. by rewrite Hw.
    + rewrite lookup_singleton_ne by congruence. symmetry. apply (right_id_L None (∪)).
  - rewrite lookup_union, !lookup_omap. destruct (decide (n = p.1)) as [->|Hn].
    + rewrite lookup_insert_eq, Ha, lookup_singleton_eq. cbn. by rewrite lookup_insert_eq.
    + rewrite lookup_insert_ne, lookup_singleton_ne, (right_id_L None (∪)) by congruence.
      destruct (workers r !! n) as [a|] eqn:Hna; [|done]. cbn. rewrite lookup_insert_ne; [done|].
      destruct (r_live _ _ HR _ _ Hna) as (w & Hw & _). assert (a < next r)%nat by (apply (r_next _ _ HR); by rewrite Hw). lia.
Qed.

Lemma running_add L r p : sName p.2 = p.1 -> running L r -> running L (addWorker r p).
Proof.
  intros Hp HR. unfold addWorker. destruct (workers r !! p.1) as [a|] eqn:Ha; [done|]. destruct HR as [H1 H0 HS H2 H3 H4].
  assert (Hfresh : heap r !! next r = None).
  { destruct (heap r !! next r) eqn:E; [|done]. assert (next r < next r)%nat by (apply H4; by rewrite E). lia. }
  split; cbn.
  - intros a w [[<- <-]|[_ Hw]]%lookup_insert_Some; [rewrite H0 by done; apply judged_new | by apply (H1 a)].
  - intros a [Ha' _]%lookup_insert_None. by apply H0.
  - done.
  - intros n a [[<- <-]|[Hn Hna]]%lookup_insert_Some; [rewrite lookup_insert_eq; by eexists|].
    destruct (H2 n a Hna) as (w & Hw & Hl). exists w. rewrite lookup_insert_ne; [done|]. intros <-. congruence.
  - intros a w [[<- <-]|[_ Hw]]%lookup_insert_Some Hc; cbn; [by rewrite Hp, lookup_insert_eq|].
    rewrite lookup_insert_ne; [by apply H3|]. intros E. rewrite E in Ha. by rewrite (H3 _ _ Hw Hc) in Ha.
  - intros a [w [[<- <-]|[_ Hw]]%lookup_insert_Some]; [lia|]. assert (a < next r)%nat by (apply H4; by rewrite Hw). lia.
Qed.

Lemma add_keeps L r p n a w : running L r -> workers r !! n = Some a -> heap r !! a = Some w ->
  workers (addWorker r p) !! n = Some a /\ heap (addWorker r p) !! a = Some w.
Proof.
  intros HR Hn Hw. unfold addWorker. destruct (workers r !! p.1) as [b|] eqn:Ha; [done|]. cbn.
  rewrite !lookup_insert_ne; [done| |congruence].
  assert (a < next r)%nat by (apply (r_next _ _ HR); by rewrite Hw). lia.
Qed.

Lemma add_all L l r : Forall (fun p => sName p.2 = p.1) l -> running L r ->
  running L (foldl addWorker r l) /\ configured (foldl addWorker r l) = configured r ∪ list_to_map l
  /\ forall n a w, workers r !! n = Some a -> heap r !! a = Some w ->
       workers (foldl addWorker r l) !! n = Some a /\ heap (foldl addWorker r l) !! a = Some w.
Proof.
  revert r. induction l as [|p l IH]; intros r Hl HR; cbn.
  - split; [done|]. split; [by rewrite (right_id_L ∅ (∪))|done].
  - apply Forall_cons in Hl as [Hp Hl]. destruct (IH (addWorker r p) Hl (running_add _ _ _ Hp HR)) as (A & B & C).
    split; [done|]. split.
    + rewrite B, (configured_add L) by done. by rewrite <- (assoc_L (∪)), <- insert_union_singleton_l.
    + intros n a w Hn Hw. destruct (add_keeps L r p n a w HR Hn Hw). by apply C.
Qed.

(** What [SetSpecs] leaves of the running workers before it starts new ones. *)
Lemma running_kept L (keep : string -> nat -> bool) r : running L r ->
  let kept := filter (fun p => Is_true (keep p.1 p.2)) (workers r) in
  let dropped := filter (fun p => Is_true (negb (keep p.1 p.2))) (workers r) in
  running L (mkRunner kept (stopAll (map_to_list dropped).*2 (heap r)) (next r) (reports r))
  /\ forall n a, kept !! n = Some a -> stopAll (map_to_list dropped).*2 (heap r) !! a = heap r !! a.
Proof.
  intros [H1 H0 HS H2 H3 H4] kept dropped.
  assert (Hd : forall a, a ∈ (map_to_list dropped).*2 <-> exists n, workers r !! n = Some a /\ keep n a = false).
  { intros a. rewrite list_elem_of_fmap. split.
    - intros ([n b] & -> & Hp%elem_of_map_to_list). apply map_lookup_filter_Some in Hp as [Hp Hk]. exists n. cbn in *.
      split; [done|]. by destruct (keep n b).
    - intros (n & Hn & Hk). exists (n, a). split; [done|]. apply elem_of_map_to_list, map_lookup_filter_Some. cbn.
      by rewrite Hk. }
  assert (Hkeep : forall n a, kept !! n = Some a -> a ∉ (map_to_list dropped).*2).
  { intros n a [Hn Hk]%map_lookup_filter_Some (n' & Hn' & Hk')%Hd. cbn in Hk.
    destruct (H2 _ _ Hn) as (w & Hw & _ & <-), (H2 _ _ Hn') as (w' & Hw' & _ & <-). rewrite Hw in Hw'.
    injection Hw' as <-. by rewrite Hk' in Hk. }
  split; [split; cbn|].
  - intros a w. rewrite lookup_stopAll. case_decide; [|apply H1]. intros (w' & Hw & ->)%fmap_Some_1.
    by apply judged_stop, (H1 a).
  - intros a. rewrite lookup_stopAll. case_decide; [|apply H0]. intros Ha%fmap_None. by apply H0.
  - done.
  - intros n a Hn. rewrite lookup_stopAll, decide_False by (by apply (Hkeep n)). apply H2.
    by apply map_lookup_filter_Some in Hn as [Hn _].
  - intros a w. rewrite lookup_stopAll. case_decide as Hin; [by intros (w' & _ & ->)%fmap_Some_1|].
    intros Hw Hc. apply map_lookup_filter_Some. split; [by apply H3|]. cbn. destruct (keep _ a) eqn:E; [done|].
    destruct Hin. apply Hd. exists (sName (spec w)). split; [by apply H3 | done].
  - intros a. rewrite lookup_stopAll. case_decide; [|apply H4]. rewrite fmap_is_Some. apply H4.
  - intros n a Hn. by rewrite lookup_stopAll, decide_False by (by apply (Hkeep n)).
Qed.

Lemma set_specs L specs r : running L r ->
  running L (SetSpecs specs r) /\ configured (SetSpecs specs r) = wanted specs
  /\ forall n a w, workers r !! n = Some a -> heap r !! a = Some w -> wanted specs !! n = Some (spec w) ->
       workers (SetSpecs specs r) !! n = Some a /\ heap (SetSpecs specs r) !! a = Some w.
Proof.
  intros HR. unfold SetSpecs. destruct (running_kept L (keeps (wanted specs) (heap r)) r HR) as [HK Hsame].
  match type of HK with running _ ?x => set (base := x) in * end.
  assert (HF : Forall (fun p : string * ProbeSpec => sName p.2 = p.1) (map_to_list (wanted specs))).
  { apply Forall_forall. intros [n s] Hp%elem_of_map_to_list. by apply (wanted_name specs). }
  destruct (add_all _ _ base HF HK) as (A & B & C). split; [done|]. split.
  - rewrite B, list_to_map_to_list. apply map_subseteq_union, map_subseteq_spec. intros n s.
    unfold configured. rewrite lookup_omap. cbn [base workers heap]. intros (a & Hn & Hs)%bind_Some.
    rewrite (Hsame n a Hn) in Hs. apply map_lookup_filter_Some in Hn as [Hn Hk]. cbn in Hk. unfold keeps in Hk.
    destruct (wanted specs !! n) as [s'|]; [|done]. destruct (heap r !! a) as [w|]; [|done]. cbn in Hs.
    injection Hs as <-. destruct (sameSpec (spec w) s') eqn:E; [|done]. by apply sameSpec_spec in E as ->.
  - intros n a w Hn Hw Hs. assert (Hk : workers base !! n = Some a).
    { apply map_lookup_filter_Some. split; [done|]. cbn. unfold keeps. rewrite Hs, Hw.
      by rewrite (proj2 (sameSpec_spec (spec w) (spec w)) eq_refl). }
    apply C; [done|]. cbn. by rewrite (Hsame n a Hk).
Qed.

Lemma running_close L r : running L r -> running L (Close r) /\ configured (Close r) = ∅.
Proof.
  intros HR. destruct (running_kept L (fun _ _ => false) r HR) as [HK _]. cbn [negb] in HK. unfold Close.
  rewrite (map_filter_id (fun _ => Is_true true) (workers r)) in HK by done. split; [|unfold configured; apply omap_empty].
  replace (∅ : gmap string nat) with (filter (fun _ : string * nat => Is_true false) (workers r)); [done|].
  apply map_empty. intros n. apply map_lookup_filter_None. right. cbn. tauto.
Qed.

(** A step of one worker that keeps its spec and its context. *)
Lemma running_set L r a w w' g new : running L r -> heap r !! a = Some w -> spec w' = spec w -> cancelled w' = cancelled w ->
  judged g w' -> gSaid g = new ++ gSaid (logOf L a) ->
  let r' := mkRunner (workers r) (<[a := w']> (heap r)) (next r) (new ++ reports r) in
  running (<[a := g]> L) r' /\ configured r' = configured r.
Proof.
  intros [H1 H0 HS H2 H3 H4] Hw Es Ec HJ Hg. split; [split; cbn|].
  - intros b v. rewrite logOf_insert. intros [[<- <-]|[Hne Hv]]%lookup_insert_Some;
      [by rewrite decide_True | rewrite decide_False by done; by apply H1].
  - intros b [Hb Hne]%lookup_insert_None. rewrite logOf_insert, decide_False by done. by apply H0.
  - rewrite (allSaid_insert L a g new Hg). by rewrite HS.
  - intros n b Hn. destruct (H2 n b Hn) as (v & Hv & Hl). destruct (decide (a = b)) as [<-|Hne].
    + rewrite lookup_insert_eq. exists w'. rewrite Es, Ec. rewrite Hw in Hv. by injection Hv as ->.
    + rewrite lookup_insert_ne by done. by exists v.
  - intros b v [[<- <-]|[_ Hv]]%lookup_insert_Some; [|by apply H3]. rewrite Es, Ec. by apply H3.
  - intros b. rewrite lookup_insert_is_Some. intros [<-|[_ Hb]]; apply H4; [by rewrite Hw | done].
  - apply map_eq. intros n. unfold configured. rewrite !lookup_omap. cbn. destruct (workers r !! n) as [b|]; [|done].
    cbn. destruct (decide (a = b)) as [<-|Hne]; [rewrite lookup_insert_eq, Hw; cbn; by rewrite Es | by rewrite lookup_insert_ne].
Qed.

(** An event that changes no worker and reports nothing. *)
Lemma running_log L r a : running L r -> running (<[a := logOf L a]> L) r.
Proof.
  intros [H1 H0 HS H2 H3 H4]. assert (E : forall b, logOf (<[a := logOf L a]> L) b = logOf L b)
    by (intros b; rewrite logOf_insert; by case_decide; subst).
  split; try done; try (intros b; rewrite E; auto). by rewrite (allSaid_insert L a _ []).
Qed.

Lemma alter_at (r : Runner) a f w : heap r !! a = Some w -> alter f a (heap r) = <[a := f w]> (heap r).
Proof.
  intros Hw. apply map_eq. intros b. destruct (decide (a = b)) as [<-|Hne].
  - by rewrite lookup_insert_eq, lookup_alter_eq, Hw.
  - by rewrite lookup_insert_ne, lookup_alter_ne.
Qed.

Lemma alter_still (r : Runner) a (f : Worker -> Worker) : (forall w, heap r !! a = Some w -> f w = w) ->
  mkRunner (workers r) (alter f a (heap r)) (next r) (reports r) = r.
Proof.
  intros Hf. destruct (heap r !! a) as [w|] eqn:Hw; [|rewrite alter_id' by done; by destruct r].
  rewrite (alter_at r a f w Hw), Hf, insert_id by done. by destruct r.
Qed.

Definition lastConfig (es : list Event) : gmap string ProbeSpec :=
  foldl (fun c e => match e with EvSetSpecs specs => wanted specs | EvClose => ∅ | _ => c end) ∅ es.

Definition lastStep (c : gmap string ProbeSpec) (e : Event) : gmap string ProbeSpec :=
  match e with EvSetSpecs specs => wanted specs | EvClose => ∅ | _ => c end.

Definition stays (quote : string -> string) (L : gmap nat WLog) (r : Runner) (e : Event) : Prop :=
  let r' := step quote r e in running (observe r r' L e) r' /\ configured r' = lastStep (configured r) e.

Lemma probe_stays quote L r a m : running L r -> stays quote L r (EvProbe a m).
Proof.
  intros HR. unfold stays. cbn [step observe lastStep]. destruct (heap r !! a) as [w|] eqn:Hw.
  2: { rewrite alter_still; [done|]. intros w. by rewrite Hw. }
  assert (J := r_judged _ _ HR _ _ Hw). destruct (phase w) eqn:Ep; [destruct (cancelled w) eqn:Ec|..].
  1,3,4: rewrite alter_still; [done|]; intros w' E; rewrite Hw in E; injection E as <-; by rewrite Ep; unfold checkProbe; rewrite ?Ec.
  rewrite (alter_at r a _ w Hw). cbv beta. rewrite Ep. unfold checkProbe. rewrite Ec.
  apply (running_set L r a w _ _ []); try done. destruct J as [J1 J2 J3 J4 J5 J6 J7].
  split; try done; unfold flips in *; rewrite Ep in *; cbn; try done. by rewrite probe_serves.
Qed.

Lemma judge_stays quote L r a now : running L r -> stays quote L r (EvJudge a now).
Proof.
  intros HR. unfold stays. cbn [step observe lastStep]. destruct (heap r !! a) as [w|] eqn:Hw.
  2: { rewrite (r_fresh _ _ HR a Hw). rewrite alter_still; [done|]. intros w. by rewrite Hw. }
  assert (J := r_judged _ _ HR _ _ Hw). assert (Jp := j_pending _ _ J). destruct (phase w) as [|err|] eqn:Ep; rewrite Jp.
  1,3: rewrite alter_still; [done|]; intros w' E; rewrite Hw in E; injection E as <-; by rewrite Ep.
  rewrite (alter_at r a _ w Hw). cbv beta. rewrite Ep.
  apply (running_set L r a w _ _ []); try done; try (unfold checkJudge; by destruct (Bool.eqb _ (streakOK w))).
  by apply judged_judge.
Qed.

Lemma report_stays quote L r a : running L r -> stays quote L r (EvReport a).
Proof.
  intros HR. unfold stays. cbn [step lastStep].
  assert (Hsame : running (observe r r L (EvReport a)) r).
  { cbn. rewrite Nat.sub_diag. cbn. assert (H := running_log L r a HR). by destruct (logOf L a). }
  destruct (heap r !! a) as [w|] eqn:Hw; [|done]. destruct (phase w) as [| |s] eqn:Ep; [done..|].
  assert (J := r_judged _ _ HR _ _ Hw). cbn [observe reports length].
  rewrite Nat.sub_succ_l, Nat.sub_diag by done. cbn [take]. destruct J as [J1 J2 J3 J4 J5 J6 J7]. rewrite Ep in J7.
  rewrite (take_0 (reports r)). apply (running_set L r a w _ _ [s]); try done. unfold flips in *. rewrite Ep in *. by split.
Qed.

Lemma running_step quote L r e : running L r -> stays quote L r e.
Proof.
  intros HR. destruct e as [specs| |a m|a now|a].
  - by destruct (set_specs L specs r HR) as (A & B & _).
  - by apply running_close.
  - by apply probe_stays.
  - by apply judge_stays.
  - by apply report_stays.
Qed.

Lemma running_history quote es :
  let '(r, L) := observed quote es in r = history quote es /\ running L r /\ configured r = lastConfig es.
Proof.
  unfold observed, history, lastConfig. induction es as [|e es IH] using rev_ind.
  - split; [done|]. split; [|done]. split; cbn; intros *; rewrite ?lookup_empty; try done.
  - rewrite !foldl_app. cbn. destruct (foldl _ _ es) as [r L]. cbn in *. destruct IH as (-> & IH1 & IH2).
    destruct (running_step quote L _ e IH1) as [A B]. split; [done|]. split; [done|]. rewrite B, IH2. by destruct e.
Qed.

(** ** What is reported *)

#[export] Instance byName_total : Total byName.
Proof. intros a b. apply String.leb_total. Qed.

Lemma states_elem r p : p ∈ States r <-> exists n a w, workers r !! n = Some a /\ heap r !! a = Some w /\ p = cur w.
Proof.
  unfold States. rewrite merge_sort_Permutation, list_elem_of_omap. split.
  - intros ([n a] & Hp%elem_of_map_to_list & (w & Hw & ->)%fmap_Some_1). by exists n, a, w.
  - intros (n & a & w & Hn & Hw & ->). exists (n, a). split; [by apply elem_of_map_to_list|]. cbn. by rewrite Hw.
Qed.

Lemma omap_names (h : gmap nat Worker) l :
  Forall (fun p : string * nat => exists w, h !! p.2 = Some w /\ psName (cur w) = p.1) l ->
  psName <$> omap (fun p => cur <$> h !! p.2) l = l.*1.
Proof. induction 1 as [|p l (w & Hw & Hn) _ IH]; [done|]. cbn. rewrite Hw. cbn. by rewrite IH, Hn. Qed.

Lemma states_names L r : running L r -> psName <$> States r ≡ₚ (map_to_list (workers r)).*1.
Proof.
  intros HR. unfold States. rewrite merge_sort_Permutation, omap_names; [done|]. apply Forall_forall.
  intros [n a] Hp%elem_of_map_to_list. destruct (r_live _ _ HR _ _ Hp) as (w & Hw & _ & <-). exists w. split; [done|].
  apply (j_name _ _ (r_judged _ _ HR _ _ Hw)).
Qed.

Lemma period_pos s : in_int32 (sPeriodSec s) -> 0 < period s.
Proof.
  intros [_ H]. unfold period, defaultPeriod. destruct (Z.ltb_spec 0 (sPeriodSec s)); [|lia].
  rewrite int64_id by (unfold in_int64; lia). lia.
Qed.

(** The moves of the worker at [a], in its phase. *)
Definition moved (w : Worker) (now : Z) (report : bool) : Worker :=
  match phase w, report with
  | Judging err, false => checkJudge now err w
  | Reporting _, true => set_phase Waiting w
  | _, _ => w
  end.

Lemma move_at quote r a w now (report : bool) : heap r !! a = Some w ->
  heap (step quote r (if report then EvReport a else EvJudge a now)) !! a = Some (moved w now report).
Proof.
  intros Hw. unfold moved. destruct report; cbn.
  - rewrite Hw. destruct (phase w); try done. cbn. by rewrite lookup_insert_eq.
  - rewrite lookup_alter_eq, Hw. cbn. by destruct (phase w).
Qed.

(** A worker that is let to go on ends its check. *)
Lemma gets_back quote r a w now : heap r !! a = Some w ->
  exists w', heap (foldl (step quote) r [EvReport a; EvJudge a now; EvReport a]) !! a = Some w' /\ phase w' = Waiting.
Proof.
  intros Hw. assert (H1 := move_at quote _ _ _ now true Hw). assert (H2 := move_at quote _ _ _ now false H1).
  assert (H3 := move_at quote _ _ _ now true H2). eexists. split; [exact H3|].
  assert (Hj : forall err v, phase (moved (checkJudge now err v) now true) = Waiting).
  { intros err v. unfold moved, checkJudge. destruct (if Bool.eqb _ _ then _ else _) as [b st]. cbn. by destruct (_ && _). }
  unfold moved at 2 3. destruct (phase w) as [|err|s] eqn:Ep; cbn; rewrite ?Ep; [|apply Hj|]; unfold moved; by rewrite ?Ep.
Qed.

(** C35: Whatever specs the server pushes and however probes, verdicts,
    reports and pushes interleave, with any answers of the machine: the
    digest lists exactly the configured probes, by name and once each, and
    only their workers run. A worker's outcomes are what the machine
    answered its checks, counted since its spec was first pushed (a push that
    repeats the spec does not touch the worker); its verdict is healthy
    exactly when the service once answered its success threshold of times in
    a row and has not since failed its failure threshold of times in a row,
    however long the counter runs, for any spec whose numbers are the int32
    they are declared as; and what it called [OnChange] with, and
    is about to, are exactly the changes of that verdict, in order, each
    with the probe's name, the new verdict and the time of the outcome that
    brought it, the last of which is what the digest shows. [OnChange] was
    called for nothing else, and no worker gets stuck in a check. *)
Theorem probe_states_exact quote es :
  let '(r, L) := observed quote es in
  r = history quote es
  /\ Sorted byName (States r) /\ NoDup (psName <$> States r)
  /\ (forall n, n ∈ psName <$> States r <-> is_Some (lastConfig es !! n))
  /\ (forall a w, heap r !! a = Some w -> cancelled w = false -> workers r !! sName (spec w) = Some a)
  /\ (forall n s, lastConfig es !! n = Some s ->
       exists a w, workers r !! n = Some a /\ heap r !! a = Some w /\ cancelled w = false /\ spec w = s /\ cur w ∈ States r
       /\ forall specs, wanted specs !! n = Some s ->
            workers (SetSpecs specs r) !! n = Some a /\ heap (SetSpecs specs r) !! a = Some w)
  /\ (forall a w, heap r !! a = Some w ->
       psName (cur w) = sName (spec w)
       /\ (typed (spec w) ->
            0 < period (spec w)
            /\ (psHealthy (cur w) = true <-> Up (sth w) (fth w) (gOutcomes (logOf L a)).*1)
            /\ announces <$> flips (logOf L a) w = (sName (spec w),.) <$> turns (sth w) (fth w) (gOutcomes (logOf L a))
            /\ announces (cur w) = hd (sName (spec w), (false, 0)) (announces <$> flips (logOf L a) w))
       /\ forall now, exists w',
            heap (foldl (step quote) r [EvReport a; EvJudge a now; EvReport a]) !! a = Some w' /\ phase w' = Waiting)
  /\ reports r ≡ₚ allSaid L.
Proof.
  assert (H := running_history quote es). destruct (observed quote es) as [r L]. destruct H as (-> & HR & HC).
  set (r := history quote es) in *. split; [done|].
  assert (Hperm := states_names L r HR). split; [apply Sorted_merge_sort, _|].
  split; [rewrite Hperm; apply NoDup_fst_map_to_list|]. split; [|split; [apply (r_named _ _ HR)|split; [|split; [|apply HR]]]].
  - intros n. rewrite Hperm, <- HC. unfold configured. rewrite lookup_omap, list_elem_of_fmap. split.
    + intros ([n' a] & -> & Hp%elem_of_map_to_list). cbn. rewrite Hp. cbn. destruct (r_live _ _ HR _ _ Hp) as (w & -> & _).
      by eexists.
    + intros [s (a & Hn & _)%bind_Some]. exists (n, a). split; [done|]. by apply elem_of_map_to_list.
  - intros n s Hs. rewrite <- HC in Hs. unfold configured in Hs. rewrite lookup_omap in Hs.
    apply bind_Some in Hs as (a & Hn & (w & Hw & ->)%fmap_Some_1).
    destruct (r_live _ _ HR _ _ Hn) as (w' & Hw' & Hc & _). rewrite Hw in Hw'. injection Hw' as <-.
    exists a, w. split; [done|]. split; [done|]. split; [done|]. split; [done|].
    split; [apply states_elem; by exists n, a, w|]. intros specs Hs. by apply (set_specs L specs r HR).
  - intros a w Hw. assert (J := r_judged _ _ HR _ _ Hw). split; [apply J|]. split.
    + intros HT. split; [apply period_pos, HT|]. split; [|split; apply J; done].
      rewrite (j_up _ _ J HT). apply up_spec; unfold sth, fth; destruct (thresholds_pos (spec w)); lia.
    + intros now. by apply (gets_back quote r a w).
Qed.

(** A service that must answer twice, and a stopped worker whose last
    verdict still goes out after its probe was replaced. *)
Definition demoSpec (port : Z) : ProbeSpec := mkSpec "web" "tcp" port "" [] 0 5 1 2 0.
Definition answers (ok : bool) : Machine :=
  mkMachine (fun _ => if ok then None else Some "refused") (fun _ => None) (fun _ => Ok 200) (fun _ => ("", None)).
Definition round (a : nat) (ok : bool) : list Event := [EvProbe a (answers ok); EvJudge a 7; EvReport a].

Example twice_to_be_up :
  States (history id (EvSetSpecs [demoSpec 80] :: round 0 true ++ round 0 false ++ round 0 true))
    = [mkProbe "web" false "" 0]
  /\ States (history id (EvSetSpecs [demoSpec 80] :: round 0 true ++ round 0 true ++ round 0 false ++ round 0 false))
    = [mkProbe "web" true "" 7].
Proof. by vm_compute. Qed.

Example late_report :
  let r := history id (EvSetSpecs [demoSpec 80] :: round 0 true ++ [EvProbe 0 (answers true); EvSetSpecs [demoSpec 81]; EvJudge 0 7; EvReport 0]) in
  reports r = [mkProbe "web" true "" 7] /\ States r = [mkProbe "web" false "not yet probed" 0].
Proof. by vm_compute. Qed.

End Probes.
