(* ===== verification/AgentClient.v ===== *)
(** * The agent's control channel client

    [lib/agent/client/channel.go]: what the agent puts into its frames so
    that they fit the 64 KiB ceiling of [EncodeFrame]
    ([lib/agent/types/protocol.go]), when it resends an inventory, and how
    it paces its reconnects. Frames are the JSON that [encoding/json]
    writes for the structs of [lib/agent/types]. *)

From S2P Require Import Prelude IamDb Probes.

Module AgentClient.
Import IamDb(runeLen).
Import Probes(ProbeState, psName, psHealthy, psMessage, psChangedUnixMs, mkProbe).

(** ** [encoding/json] *)

Definition hexDigit (n : N) : ascii := if (n <? 10)%N then ascii_of_N (48 + n) else ascii_of_N (87 + n).

(** One byte below 128, with HTML escaping. *)
Definition escapeByte (c : ascii) : string :=
  let n := N_of_ascii c in
  if Ascii.eqb c "034" then "\" +++ String "034" ""
  else if Ascii.eqb c "\" then "\\"
  else if (n =? 8)%N then "\b" else if (n =? 12)%N then "\f" else if (n =? 10)%N then "\n"
  else if (n =? 13)%N then "\r" else if (n =? 9)%N then "\t"
  else if (n <? 32)%N || Ascii.eqb c "<" || Ascii.eqb c ">" || Ascii.eqb c "&"
       then "\u00" +++ String (hexDigit (n / 16)) (String (hexDigit (n mod 16)) "")
  else String c "".

(** U+2028 and U+2029, the line separators of JavaScript. *)
Definition lineSeparator (s : string) : option string :=
  if HasPrefix s (String "226" (String "128" (String "168" ""))) then Some "\u2028"
  else if HasPrefix s (String "226" (String "128" (String "169" ""))) then Some "\u2029"
  else None.

(** The string's body: [skip] bytes of the current rune are still to come,
    copied when [keep]. *)
Fixpoint escapeFrom (keep : bool) (skip : nat) (s : string) : string :=
  match s with
  | EmptyString => ""
  | String c s' =>
      match skip with
      | S k => (if keep then String c "" else "") +++ escapeFrom keep k s'
      | O =>
          if (N_of_ascii c <? 128)%N then escapeByte c +++ escapeFrom true 0 s'
          else if (runeLen s <=? 1)%nat then "\ufffd" +++ escapeFrom true 0 s'
          else match lineSeparator s with
               | Some e => e +++ escapeFrom false (runeLen s - 1) s'
               | None => String c (escapeFrom true (runeLen s - 1) s')
               end
      end
  end.

Definition quote (s : string) : string := String "034" (escapeFrom true 0 s) +++ String "034" "".

(** Values as their struct tags lay them out; a float that JSON cannot
    write (NaN, infinities) is [JFloat None]. *)
Inductive JSON :=
| JNull
| JString (s : string)
| JInt (z : Z)
| JBool (b : bool)
| JFloat (lit : option string)
| JArray (l : list JSON)
| JObject (l : list (string * JSON)).

Definition allOf {A} (f : A -> option string) : list A -> option (list string) :=
  fix go l := match l with
              | [] => Some []
              | x :: l' => match f x, go l' with Some s, Some ss => Some (s :: ss) | _, _ => None end
              end.

(** [json.Marshal]. *)
Fixpoint Marshal (j : JSON) : option string :=
  match j with
  | JNull => Some "null"
  | JString s => Some (quote s)
  | JInt z => Some (FormatInt z)
  | JBool b => Some (if b then "true" else "false")
  | JFloat lit => lit
  | JArray l => parts ← allOf Marshal l; Some ("[" +++ Join parts "," +++ "]")
  | JObject l =>
      parts ← allOf (fun kv => match kv with (k, v) => s ← Marshal v; Some (quote k +++ ":" +++ s) end) l;
      Some ("{" +++ Join parts "," +++ "}")
  end.

(** Fields with and without [omitempty]. *)
Definition Field : Type := option (string * JSON).
Definition field (k : string) (v : JSON) : Field := Some (k, v).
Definition optString (k s : string) : Field := if s =s "" then None else Some (k, JString s).
Definition optInt (k : string) (z : Z) : Field := if z =? 0 then None else Some (k, JInt z).
Definition optBool (k : string) (b : bool) : Field := if b then Some (k, JBool true) else None.
Definition optList {A} (f : A -> JSON) (k : string) (l : list A) : Field :=
  match l with [] => None | _ => Some (k, JArray (f <$> l)) end.
Definition optObj (k : string) (o : option JSON) : Field := j ← o; Some (k, j).
Definition object (fs : list Field) : JSON := JObject (omap id fs).

(** ** The structs *)

Record SSHKey := mkKey { kType : string; kFingerprint : string; kComment : string }.
Definition SSHKey_json (k : SSHKey) : JSON :=
  object [field "type" (JString (kType k)); field "fingerprint" (JString (kFingerprint k)); optString "comment" (kComment k)].

Record Account := mkAccount {
  aName : string; aUID : Z; aGID : Z; aGroup : string; aHome : string; aShell : string; aCanLogin : bool;
  aPassword : string; aGroups : list string; aPrivileges : list string; aSSHKeys : list SSHKey; aFullName : string;
  aPasswordChangedAtMs : Z; aExpiresAtMs : Z; aLastLoginAtMs : Z
}.
Definition Account_json (a : Account) : JSON :=
  object [field "name" (JString (aName a)); field "uid" (JInt (aUID a)); field "gid" (JInt (aGID a));
          optString "group" (aGroup a); optString "home" (aHome a); optString "shell" (aShell a);
          optBool "canLogin" (aCanLogin a); optString "password" (aPassword a); optList JString "groups" (aGroups a);
          optList JString "privileges" (aPrivileges a); optList SSHKey_json "sshKeys" (aSSHKeys a);
          optString "fullName" (aFullName a); optInt "passwordChangedAtMs" (aPasswordChangedAtMs a);
          optInt "expiresAtMs" (aExpiresAtMs a); optInt "lastLoginAtMs" (aLastLoginAtMs a)].

Record UserGroup := mkGroup { ugName : string; ugGID : Z; ugMembers : list string }.
Definition UserGroup_json (g : UserGroup) : JSON :=
  object [field "name" (JString (ugName g)); field "gid" (JInt (ugGID g)); optList JString "members" (ugMembers g)].

Record SSHDConfig := mkSSHD {
  Ports : list Z; PermitRootLogin : string; PasswordAuth : bool; KbdInteractiveAuth : bool; PubkeyAuth : bool;
  PermitEmptyPasswords : bool; MaxAuthTries : Z; AllowUsers : list string; AllowGroups : list string;
  DenyUsers : list string; DenyGroups : list string; MatchBlocks : Z
}.
Definition SSHDConfig_json (c : SSHDConfig) : JSON :=
  object [optList JInt "ports" (Ports c); optString "permitRootLogin" (PermitRootLogin c);
          field "passwordAuth" (JBool (PasswordAuth c)); field "kbdInteractiveAuth" (JBool (KbdInteractiveAuth c));
          field "pubkeyAuth" (JBool (PubkeyAuth c)); field "permitEmptyPasswords" (JBool (PermitEmptyPasswords c));
          optInt "maxAuthTries" (MaxAuthTries c); optList JString "allowUsers" (AllowUsers c);
          optList JString "allowGroups" (AllowGroups c); optList JString "denyUsers" (DenyUsers c);
          optList JString "denyGroups" (DenyGroups c); optInt "matchBlocks" (MatchBlocks c)].

Record HostAccounts := mkAccounts {
  haUsers : list Account; haGroups : list UserGroup; haSudoRules : list string; haSSHD : option SSHDConfig
}.
Definition HostAccounts_json (a : HostAccounts) : JSON :=
  object [optList Account_json "users" (haUsers a); optList UserGroup_json "groups" (haGroups a);
          optList JString "sudoRules" (haSudoRules a); optObj "sshd" (SSHDConfig_json <$> haSSHD a)].

Record ListenPort := mkPort { lpProto : string; lpAddr : string; lpPort : Z }.
Definition ListenPort_json (p : ListenPort) : JSON :=
  object [field "proto" (JString (lpProto p)); optString "addr" (lpAddr p); field "port" (JInt (lpPort p))].

(** [CPUPct]: nothing for zero, otherwise how JSON writes the float. *)
Record ProcessGroup := mkProc {
  pgName : string; pgUser : string; pgCount : Z; pgUnit : string; pgContainer : bool; pgPorts : list ListenPort;
  pgExe : string; pgStartedAtMs : Z; pgCPUPct : option (option string); pgRSSBytes : Z
}.
Definition ProcessGroup_json (g : ProcessGroup) : JSON :=
  object [field "name" (JString (pgName g)); optString "user" (pgUser g); field "count" (JInt (pgCount g));
          optString "unit" (pgUnit g); optBool "container" (pgContainer g); optList ListenPort_json "ports" (pgPorts g);
          optString "exe" (pgExe g); optInt "startedAtMs" (pgStartedAtMs g); optObj "cpuPct" (JFloat <$> pgCPUPct g);
          optInt "rssBytes" (pgRSSBytes g)].

Record SystemdUnit := mkUnit { suName : string; suEnabled : string; suActive : string; suSub : string; suDescription : string }.
Definition SystemdUnit_json (u : SystemdUnit) : JSON :=
  object [field "name" (JString (suName u)); optString "enabled" (suEnabled u); optString "active" (suActive u);
          optString "sub" (suSub u); optString "description" (suDescription u)].

Record HostProcesses := mkProcesses { hpGroups : list ProcessGroup; hpUnits : list SystemdUnit }.
Definition HostProcesses_json (p : HostProcesses) : JSON :=
  object [optList ProcessGroup_json "groups" (hpGroups p); optList SystemdUnit_json "units" (hpUnits p)].

Definition ProbeState_json (s : ProbeState) : JSON :=
  object [field "name" (JString (psName s)); field "healthy" (JBool (psHealthy s));
          optString "message" (psMessage s); optInt "changedUnixMs" (psChangedUnixMs s)].

(** The fields of [Frame] that the agent's heartbeats and inventories set;
    the others are empty and omitted. *)
Record Frame := mkFrame {
  Type_ : string; ID : string; ClockUnixMs : Z; Metrics : option JSON; ProbeStates : list ProbeState;
  Processes : option HostProcesses; Accounts : option HostAccounts
}.
Definition Frame_json (f : Frame) : JSON :=
  object [field "type" (JString (Type_ f)); optString "id" (ID f); optInt "clockUnixMs" (ClockUnixMs f);
          optObj "metrics" (Metrics f); optList ProbeState_json "probeStates" (ProbeStates f);
          optObj "processes" (HostProcesses_json <$> Processes f); optObj "accounts" (HostAccounts_json <$> Accounts f)].

Definition MaxFrameBytes : Z := 64 * 1024.

Definition len (s : string) : Z := Z.of_nat (String.length s).

Definition EncodeFrame (f : Frame) : result string string :=
  match Marshal (Frame_json f) with
  | None => Err "marshal"
  | Some data => if MaxFrameBytes <? len data then Err "exceeds limit" else Ok data
  end.

(** ** Trimming a report *)

Definition maxHeartbeatProbes : nat := 128.
Definition maxFactsListEntries : nat := 128.
Definition inventoryBudget : Z := 48 * 1024.
Definition accountsUsersBudget : Z := 32 * 1024.
Definition accountsGroupsBudget : Z := 8 * 1024.
Definition accountsRulesBudget : Z := 8 * 1024.
Definition accountsSSHDListBudget : Z := 1024.

Definition capFacts {A} (items : list A) : list A :=
  if (length items <=? maxFactsListEntries)%nat then items else take maxFactsListEntries items.

(** The loop of [capBySize], one round per unit of fuel. *)
Fixpoint capLoop {A} (enc : A -> JSON) (budget : Z) (fuel : nat) (items : list A) : list A :=
  match fuel with
  | O => items
  | S fuel' =>
      match items with
      | [] => items
      | _ =>
          match Marshal (JArray (enc <$> items)) with
          | None => items
          | Some b =>
              if len b <=? budget then items
              else
                let n := Z.of_nat (length items) in
                let next := n * budget / len b in
                let next := if n <=? next then n - 1 else next in
                capLoop enc budget fuel' (take (Z.to_nat next) items)
          end
      end
  end.

Definition capBySize {A} (enc : A -> JSON) (items : list A) (budget : Z) : list A :=
  capLoop enc budget (length items) items.

Definition capSSHDLists (c : SSHDConfig) : SSHDConfig :=
  mkSSHD (Ports c) (PermitRootLogin c) (PasswordAuth c) (KbdInteractiveAuth c) (PubkeyAuth c) (PermitEmptyPasswords c)
    (MaxAuthTries c) (capBySize JString (AllowUsers c) accountsSSHDListBudget)
    (capBySize JString (AllowGroups c) accountsSSHDListBudget) (capBySize JString (DenyUsers c) accountsSSHDListBudget)
    (capBySize JString (DenyGroups c) accountsSSHDListBudget) (MatchBlocks c).

(** The samples of [processesLoop] and [accountsLoop]. *)
Definition sampleProcesses (p : HostProcesses) : HostProcesses :=
  mkProcesses (capBySize ProcessGroup_json (capFacts (hpGroups p)) inventoryBudget) (hpUnits p).

Definition sampleAccounts (a : HostAccounts) : HostAccounts :=
  mkAccounts (capBySize Account_json (capFacts (haUsers a)) accountsUsersBudget)
    (capBySize UserGroup_json (capFacts (haGroups a)) accountsGroupsBudget)
    (capBySize JString (capFacts (haSudoRules a)) accountsRulesBudget) (capSSHDLists <$> haSSHD a).

Definition processesFrame (p : HostProcesses) : Frame := mkFrame "host.processes" "processes-1" 0 None [] (Some p) None.
Definition accountsFrame (a : HostAccounts) : Frame := mkFrame "host.accounts" "accounts-1" 0 None [] None (Some a).

(** The probe digest, the failing ones first when there are too many. *)
Definition probeStates (states : list ProbeState) : list ProbeState :=
  if (length states <=? maxHeartbeatProbes)%nat then states
  else take maxHeartbeatProbes
         (filter (fun s => Is_true (negb (psHealthy s))) states ++ filter (fun s => Is_true (psHealthy s)) states).

Definition heartbeatFrame (seq clock : Z) (states : list ProbeState) (metrics : option JSON) : Frame :=
  mkFrame "heartbeat" ("hb-" +++ FormatInt seq) clock metrics (probeStates states) None None.

(** ** Reporting on change *)

(** One session of [reportOnChange]: at each tick a sample is taken, and
    the transport takes the frame or not. The samples whose frames went
    out; [fields] is the struct's encoding. *)
Fixpoint reportOnChange {T} (fields : T -> list Field) (build : T -> Frame) (sent : string) (ticks : list (T * bool)) : list T :=
  match ticks with
  | [] => []
  | (v, transport) :: rest =>
      match Marshal (object (fields v)) with
      | None => reportOnChange fields build sent rest
      | Some encoded =>
          if encoded =s sent then reportOnChange fields build sent rest
          else match EncodeFrame (build v), transport with
               | Ok _, true => v :: reportOnChange fields build encoded rest
               | _, _ => reportOnChange fields build sent rest
               end
      end
  end.

(** ** Reconnecting *)

Definition reconnectMin : Z := 1000000000.
Definition reconnectMax : Z := 60 * 1000000000.

(** How a session ended, and how long it lasted; [pick] is the random
    number [jittered] draws. *)
Record Outcome := mkOutcome { unauthorized : bool; lasted : Z; pick : Z }.

Definition jittered (d r : Z) : Z := let half := d / 2 in half + r mod (half + 1).

(** One round of [Run]: the delay slept, and the next backoff. *)
Definition runRound (backoff : Z) (o : Outcome) : Z * Z :=
  let backoff := if reconnectMax <? lasted o then reconnectMin else backoff in
  let backoff := if unauthorized o then reconnectMax else backoff in
  (jittered backoff (pick o),
   if backoff <? reconnectMax then (let b := backoff * 2 in if reconnectMax <? b then reconnectMax else b) else backoff).

Fixpoint runFrom (backoff : Z) (os : list Outcome) : list Z :=
  match os with
  | [] => []
  | o :: os' => let '(delay, backoff') := runRound backoff o in delay :: runFrom backoff' os'
  end.

Definition Run (os : list Outcome) : list Z := runFrom reconnectMin os.

(** [strings.TrimRight] with a single character. *)
Fixpoint TrimRight (s : string) (c : ascii) : string :=
  match s with
  | EmptyString => ""
  | String a s' => let r := TrimRight s' c in if (r =s "") && Ascii.eqb a c then "" else String a r
  end.

Definition wsURL (serverURL : string) : string :=
  let u := TrimRight serverURL "/" in
  if HasPrefix u "https://" then "wss://" +++ TrimPrefix u "https://"
  else if HasPrefix u "http://" then "ws://" +++ TrimPrefix u "http://"
  else u.

(** ** How long the JSON is *)

Lemma len_app a b : len (a +++ b) = len a + len b.
Proof. unfold len. rewrite length_app_s. lia. Qed.

Lemma len_nonneg s : 0 <= len s.
Proof. unfold len. lia. Qed.

Lemma escapeByte_len c : len (escapeByte c) <= 6.
Proof. destruct c as [[] [] [] [] [] [] [] []]; vm_compute; congruence. Qed.

Lemma escapeFrom_len keep skip s : len (escapeFrom keep skip s) <= 6 * len s.
Proof.
  revert keep skip. induction s as [|c s IH]; intros keep skip; [by vm_compute|].
  assert (E : forall t, len (String c t) = 1 + len t) by (intros; unfold len; cbn; lia).
  assert (G : forall lit k n, len lit <= 6 -> len (lit +++ escapeFrom k n s) <= 6 * len (String c s)).
  { intros lit k n Hl. rewrite len_app, E. specialize (IH k n). lia. }
  cbn [escapeFrom]. destruct skip as [|k].
  - destruct (N_of_ascii c <? 128)%N; [apply G, escapeByte_len|].
    destruct (runeLen (String c s) <=? 1)%nat; [by apply G|]. unfold lineSeparator.
    destruct (HasPrefix _ _); [by apply G|]. destruct (HasPrefix _ _); [by apply G|].
    change (len (String c "" +++ escapeFrom true (runeLen (String c s) - 1) s) <= 6 * len (String c s)). by apply G.
  - destruct keep; by apply G.
Qed.

Lemma quote_len s : len (quote s) <= 2 + 6 * len s.
Proof.
  change (quote s) with ((String "034" "" +++ escapeFrom true 0 s) +++ String "034" ""). rewrite !len_app.
  assert (H := escapeFrom_len true 0 s). change (len (String "034" "")) with 1. lia.
Qed.

(** A value that encodes, to at most so many bytes. *)
Definition bounded (b : Z) (j : JSON) : Prop := exists s, Marshal j = Some s /\ len s <= b.

Lemma bounded_mono b b' j : bounded b j -> b <= b' -> bounded b' j.
Proof. intros (s & Hs & Hl) Hb. exists s. split; [done | lia]. Qed.

Lemma pretty_go_len k : forall n s, (n < 10 ^ N.of_nat k)%N -> len (pretty_N_go n s) <= Z.of_nat k + len s.
Proof.
  induction k as [|k IH]; intros n s Hn.
  - assert (n = 0%N) as -> by (cbn in Hn; lia). rewrite pretty_N_go_0. lia.
  - destruct (decide (n = 0%N)) as [->|H0]; [rewrite pretty_N_go_0; lia|]. rewrite pretty_N_go_step by lia.
    etrans; [apply IH|].
    + apply N.Div0.div_lt_upper_bound. rewrite Nat2N.inj_succ, N.pow_succ_r' in Hn. lia.
    + change (len (String ?c s)) with (len (String c "" +++ s)). rewrite len_app. cbn [len String.length]. unfold len at 1. cbn. lia.
Qed.

Lemma int_bounded z : in_int32 z -> bounded 11 (JInt z).
Proof.
  intros [H1 H2]. exists (FormatInt z). split; [done|]. unfold FormatInt, pretty, pretty_Z.
  assert (Hgo : forall p, (Zpos p <= 2 ^ 31) -> len (pretty_N_go (Npos p) "") <= 10).
  { intros p Hp. etrans; [apply (pretty_go_len 10)|]; [|by vm_compute]. change (10 ^ N.of_nat 10)%N with 10000000000%N. lia. }
  destruct z as [|p|p]; [by vm_compute|..].
  - change (len (pretty_N_go (Npos p) "") <= 11). specialize (Hgo p). lia.
  - change (len ("-" +++ pretty_N_go (Npos p) "") <= 11). rewrite len_app. change (len "-") with 1. specialize (Hgo p). lia.
Qed.

Lemma string_bounded s : bounded (2 + 6 * len s) (JString s).
Proof. exists (quote s). split; [done | apply quote_len]. Qed.

Lemma bool_bounded b : bounded 5 (JBool b).
Proof. eexists. split; [done|]. by destruct b. Qed.

Lemma join_len parts : len (Join parts ",") <= foldr (fun p n => len p + 1 + n) 0 parts.
Proof.
  induction parts as [|a l IH]; [by vm_compute|]. destruct l as [|b l].
  - cbn. lia.
  - change (Join (a :: b :: l) ",") with (a +++ "," +++ Join (b :: l) ","). rewrite !len_app. change (len ",") with 1.
    change (foldr (fun p n => len p + 1 + n) 0 (a :: b :: l)) with (len a + 1 + foldr (fun p n => len p + 1 + n) 0 (b :: l)). lia.
Qed.

(** Parts that encode within bounds encode together within the sum. *)
Lemma allOf_bounded {A} (f : A -> option string) l bs :
  Forall2 (fun x b => exists s, f x = Some s /\ len s <= b) l bs ->
  exists parts, allOf f l = Some parts /\ foldr (fun p n => len p + 1 + n) 0 parts <= foldr (fun b n => b + 1 + n) 0 bs.
Proof.
  induction 1 as [|x b l bs (s & Hs & Hl) _ (parts & Hp & Hn)]; [by exists []|].
  exists (s :: parts). cbn. rewrite Hs. change (allOf f l) with (allOf f l) in *. rewrite Hp. split; [done | lia].
Qed.

Lemma array_bounded b l : Forall (bounded b) l -> bounded (2 + Z.of_nat (length l) * (b + 1)) (JArray l).
Proof.
  intros Hl. destruct (allOf_bounded Marshal l (replicate (length l) b)) as (parts & Hp & Hn).
  { induction Hl; cbn; by constructor. }
  exists ("[" +++ Join parts "," +++ "]"). cbn [Marshal]. rewrite Hp. split; [done|].
  rewrite !len_app. change (len "[") with 1. change (len "]") with 1. assert (Hj := join_len parts).
  assert (E : forall n, foldr (fun b n => b + 1 + n) 0 (replicate n b) = Z.of_nat n * (b + 1)).
  { induction n; [done|]. cbn [replicate foldr]. lia. }
  rewrite E in Hn. lia.
Qed.

(** A field within [b] bytes, its name and the comma included. *)
Definition fieldBounded (b : Z) (fd : Field) : Prop :=
  match fd with
  | None => 0 <= b
  | Some (k, v) => exists bv, bounded bv v /\ len (quote k) + bv + 2 <= b
  end.

Lemma object_bounded fs bs : Forall2 fieldBounded bs fs -> bounded (2 + foldr Z.add 0 bs) (object fs).
Proof.
  intros HF. set (enc := fun kv : string * JSON => match kv with (k, v) => s ← Marshal v; Some (quote k +++ ":" +++ s) end).
  assert (H : exists parts, allOf enc (omap id fs) = Some parts
                /\ foldr (fun p n => len p + 1 + n) 0 parts <= foldr Z.add 0 bs).
  { induction HF as [|b [[k v]|] bs fs Hf _ (parts & Hp & Hn)]; [by exists []|..]; cbn [fieldBounded] in Hf; cbn [omap list_omap id foldr].
    - destruct Hf as (bv & (s & Hs & Hl) & Hb). exists ((quote k +++ ":" +++ s) :: parts). split.
      + change (allOf enc ((k, v) :: omap id fs) = Some ((quote k +++ ":" +++ s) :: parts)). cbn [allOf]. unfold enc at 1.
        rewrite Hs. cbn. by rewrite Hp.
      + cbn [foldr]. rewrite !len_app. change (len ":") with 1. lia.
    - exists parts. split; [done | lia]. }
  destruct H as (parts & Hp & Hn). exists ("{" +++ Join parts "," +++ "}"). unfold object. cbn [Marshal]. fold enc.
  rewrite Hp. split; [done|]. rewrite !len_app. change (len "{") with 1. change (len "}") with 1.
  assert (Hj := join_len parts). lia.
Qed.

(** ** What always encodes *)

Definition encodes (j : JSON) : Prop := is_Some (Marshal j).

Definition fieldEncodes (fd : Field) : Prop := match fd with None => True | Some (_, v) => encodes v end.

Lemma allOf_encodes {A} (f : A -> option string) l : Forall (fun x => is_Some (f x)) l -> is_Some (allOf f l).
Proof.
  induction 1 as [|x l [s Hs] _ [ss Hss]]; [by eexists|]. exists (s :: ss). cbn. by rewrite Hs, Hss.
Qed.

Lemma array_encodes l : Forall encodes l -> encodes (JArray l).
Proof. intros [parts Hp]%allOf_encodes. unfold encodes. cbn [Marshal]. rewrite Hp. by eexists. Qed.

Lemma object_encodes fs : Forall fieldEncodes fs -> encodes (object fs).
Proof.
  intros HF. unfold encodes, object. cbn [Marshal].
  match goal with |- context [allOf ?g _] => destruct (allOf_encodes g (omap id fs)) as [parts Hp] end.
  - apply Forall_forall. intros [k v] ([[k' v']|] & Hin & [= -> ->])%list_elem_of_omap.
    rewrite Forall_forall in HF. destruct (HF _ Hin) as [s Hs]. cbn. rewrite Hs. by eexists.
  - rewrite Hp. by eexists.
Qed.

Lemma optString_encodes k s : fieldEncodes (optString k s).
Proof. unfold optString. destruct (s =s ""); [done | by eexists]. Qed.
Lemma optInt_encodes k z : fieldEncodes (optInt k z).
Proof. unfold optInt. destruct (z =? 0); [done | by eexists]. Qed.
Lemma optBool_encodes k b : fieldEncodes (optBool k b).
Proof. destruct b; [by eexists | done]. Qed.
Lemma optList_encodes {A} (f : A -> JSON) k l : (forall x, encodes (f x)) -> fieldEncodes (optList f k l).
Proof. intros Hf. destruct l as [|x l]; [done|]. apply array_encodes, Forall_fmap, Forall_true. intros y. apply Hf. Qed.

Lemma string_encodes s : encodes (JString s).
Proof. by eexists. Qed.

#[export] Hint Resolve optString_encodes optInt_encodes optBool_encodes optList_encodes string_encodes : vraxel.

Ltac encode := intros; apply object_encodes; repeat (apply Forall_cons; split); auto with vraxel; try by eexists.

Lemma SSHKey_encodes k : encodes (SSHKey_json k).
Proof. encode. Qed.
#[export] Hint Resolve SSHKey_encodes : vraxel.

Lemma Account_encodes a : encodes (Account_json a).
Proof. encode. Qed.

Lemma UserGroup_encodes g : encodes (UserGroup_json g).
Proof. encode. Qed.

Lemma ListenPort_encodes p : encodes (ListenPort_json p).
Proof. encode. Qed.
#[export] Hint Resolve ListenPort_encodes : vraxel.

Lemma SystemdUnit_encodes u : encodes (SystemdUnit_json u).
Proof. encode. Qed.

(** ** Trimmed lists *)

Lemma capLoop_spec {A} (enc : A -> JSON) budget fuel items :
  (forall x, x ∈ items -> encodes (enc x)) -> 0 <= budget -> (length items <= fuel)%nat ->
  let r := capLoop enc budget fuel items in
  r `prefix_of` items /\ (r = [] \/ bounded budget (JArray (enc <$> r))).
Proof.
  revert items. induction fuel as [|fuel IH]; intros items He Hb Hl; cbv zeta.
  { destruct items; [|cbn in Hl; lia]. split; [done | by left]. }
  cbn [capLoop]. destruct items as [|x items]; [split; [done | by left]|]. set (l := x :: items) in *.
  destruct (array_encodes (enc <$> l)) as [b Eb]; [by apply Forall_fmap, Forall_forall|]. rewrite Eb.
  destruct (Z.leb_spec (len b) budget) as [Hle|Hgt]; [split; [done|]; right; by exists b|].
  set (next := if Z.of_nat (length l) <=? Z.of_nat (length l) * budget / len b then Z.of_nat (length l) - 1
               else Z.of_nat (length l) * budget / len b).
  assert (Hn : (length (take (Z.to_nat next) l) <= fuel)%nat).
  { rewrite length_take. unfold next. destruct (Z.leb_spec (Z.of_nat (length l)) (Z.of_nat (length l) * budget / len b)); lia. }
  destruct (IH (take (Z.to_nat next) l)) as [HP HR]; [|done..|].
  { intros y Hy. apply He. eapply elem_of_submseteq; [exact Hy|]. apply sublist_submseteq, sublist_take. }
  split; [|done]. etrans; [exact HP|]. exists (drop (Z.to_nat next) l). by rewrite take_drop.
Qed.

Lemma capBySize_fits {A} (enc : A -> JSON) budget items :
  (forall x, x ∈ items -> encodes (enc x)) -> 0 <= budget -> bounded budget (JArray (enc <$> items)) ->
  capBySize enc items budget = items.
Proof.
  intros He Hb (s & Hs & Hl). unfold capBySize. destruct items as [|x items]; [done|]. cbn [length capLoop].
  rewrite Hs. by destruct (Z.leb_spec (len s) budget); [|lia].
Qed.

Lemma capFacts_prefix {A} (l : list A) : capFacts l `prefix_of` l /\ (length (capFacts l) <= maxFactsListEntries)%nat.
Proof.
  unfold capFacts. destruct (Nat.leb_spec (length l) maxFactsListEntries); [done|].
  split; [|rewrite length_take; lia]. exists (drop maxFactsListEntries l). by rewrite take_drop.
Qed.

(** A trimmed list as a field of a report. *)
Lemma trimmed_field {A} (enc : A -> JSON) k items budget n :
  (forall x, x ∈ items -> encodes (enc x)) -> 0 <= budget -> len (quote k) + budget + 2 <= n ->
  fieldBounded n (optList enc k (capBySize enc items budget)).
Proof.
  intros He Hb Hn. destruct (capLoop_spec enc budget (length items) items He Hb (Nat.le_refl _)) as [_ HR].
  fold (capBySize enc items budget) in HR. assert (Hq := len_nonneg (quote k)).
  destruct (capBySize enc items budget) as [|y l]; [cbn; lia|]. destruct HR as [|HR]; [done|].
  exists budget. by split.
Qed.

(** ** Inventories fit the frame *)

Lemma field_bounded k v n bv : bounded bv v -> len (quote k) + bv + 2 <= n -> fieldBounded n (field k v).
Proof. intros Hv Hn. by exists bv. Qed.

Lemma optString_bounded k s n : len (quote k) + (2 + 6 * len s) + 2 <= n -> fieldBounded n (optString k s).
Proof.
  intros Hn. unfold optString. assert (H1 := len_nonneg (quote k)). assert (H2 := len_nonneg s).
  destruct (s =s ""); [cbn; lia|]. eexists. split; [apply string_bounded | done].
Qed.

Lemma optInt_bounded k z n : in_int32 z -> len (quote k) + 13 <= n -> fieldBounded n (optInt k z).
Proof.
  intros Hz Hn. unfold optInt. assert (H1 := len_nonneg (quote k)). destruct (z =? 0); [cbn; lia|].
  exists 11. split; [by apply int_bounded | lia].
Qed.

(** What sshd itself allows: 256 ports, and a keyword ([len] is its length). *)
Record sshdLimits (c : SSHDConfig) : Prop := {
  l_ports : (length (Ports c) <= 256)%nat /\ Forall in_int32 (Ports c);
  l_root : len (PermitRootLogin c) <= 1024;
  l_tries : in_int32 (MaxAuthTries c);
  l_match : in_int32 (MatchBlocks c)
}.

Lemma ports_bounded l k n : (length l <= 256)%nat -> Forall in_int32 l -> len (quote k) + 3076 <= n ->
  fieldBounded n (optList JInt k l).
Proof.
  intros Hl Hz Hn. assert (H1 := len_nonneg (quote k)). destruct l as [|z l]; [cbn; lia|].
  exists 3074. split; [|lia]. eapply bounded_mono; [apply (array_bounded 11)|rewrite length_fmap; lia].
  apply Forall_fmap. eapply Forall_impl; [exact Hz|]. intros x. apply int_bounded.
Qed.

Ltac bounds := lazymatch goal with |- _ <= _ => vm_compute; congruence end.

Lemma sshd_bounded c : sshdLimits c -> bounded 13560 (SSHDConfig_json (capSSHDLists c)).
Proof.
  intros [[L1 L2] L3 L4 L5]. eapply bounded_mono.
  - apply (object_bounded _ [3083; 6165; 21; 27; 19; 29; 27; 1038; 1039; 1037; 1038; 26]).
    repeat (apply Forall2_cons; split); [..|done];
      first [ apply ports_bounded; [done | done | bounds] | apply optInt_bounded; [done | bounds]
            | eapply field_bounded; [apply bool_bounded | bounds]
            | apply trimmed_field; [by intros; apply string_encodes | done | bounds] | idtac ].
    apply optString_bounded. change (len (quote "permitRootLogin")) with 17. cbn [capSSHDLists PermitRootLogin]. lia.
  - by vm_compute.
Qed.

Lemma accounts_bounded a : (forall c, haSSHD a = Some c -> sshdLimits c) ->
  bounded 62760 (HostAccounts_json (sampleAccounts a)).
Proof.
  intros HS. eapply bounded_mono.
  - apply (object_bounded _ [32777; 8202; 8205; 13568]).
    repeat (apply Forall2_cons; split); [ | | | |done].
    + apply trimmed_field; [by intros; apply Account_encodes | done | bounds].
    + apply trimmed_field; [by intros; apply UserGroup_encodes | done | bounds].
    + apply trimmed_field; [by intros; apply string_encodes | done | bounds].
    + cbn [sampleAccounts haSSHD]. destruct (haSSHD a) as [c|]; [|by vm_compute].
      exists 13560. split; [by apply sshd_bounded, HS | bounds].
  - by vm_compute.
Qed.

(** A process group whose CPU share is a number JSON can write. *)
Definition finite (g : ProcessGroup) : Prop := pgCPUPct g <> Some None.

Lemma ProcessGroup_encodes g : finite g -> encodes (ProcessGroup_json g).
Proof.
  intros Hf. apply object_encodes. repeat (apply Forall_cons; split); auto with vraxel; try by eexists.
  unfold finite in Hf. destruct (pgCPUPct g) as [[lit|]|]; [by eexists | done | done].
Qed.

Lemma processes_bounded p n : Forall finite (hpGroups p) -> bounded n (JArray (SystemdUnit_json <$> hpUnits p)) -> 0 <= n ->
  bounded (49180 + n) (HostProcesses_json (sampleProcesses p)).
Proof.
  intros Hg Hu Hn. eapply bounded_mono.
  - apply (object_bounded _ [49162; n + 9]). repeat (apply Forall2_cons; split); [| |done].
    + apply trimmed_field; [|done | bounds]. intros g Hin. apply ProcessGroup_encodes.
      rewrite Forall_forall in Hg. apply Hg. destruct (capFacts_prefix (hpGroups p)) as [[t ->] _]. set_solver.
    + cbn [sampleProcesses hpUnits]. destruct (hpUnits p) as [|u us]; [cbn; lia|]. exists n. split; [done|].
      change (len (quote "units")) with 7. lia.
  - cbn. lia.
Qed.

Lemma frame_fits f b : bounded b (Frame_json f) -> b <= MaxFrameBytes -> exists data, EncodeFrame f = Ok data.
Proof.
  intros (s & Hs & Hl) Hb. exists s. unfold EncodeFrame. rewrite Hs. by destruct (Z.ltb_spec MaxFrameBytes (len s)); [lia|].
Qed.

Lemma literal_bounded s : bounded (len (quote s)) (JString s).
Proof. by exists (quote s). Qed.

(** The envelope of an inventory takes less than 128 bytes. *)
Lemma inventory_frame (f : Frame) k v b : omap id [field "type" (JString (Type_ f)); optString "id" (ID f); Some (k, v)]
    = match Frame_json f with JObject l => l | _ => [] end ->
  len (quote (Type_ f)) + len (quote (ID f)) + len (quote k) <= 64 -> bounded b v -> b + 128 <= MaxFrameBytes ->
  exists data, EncodeFrame f = Ok data.
Proof.
  intros Ef Hl Hv Hb. apply (frame_fits f (b + 128)); [|done].
  replace (Frame_json f) with (object [field "type" (JString (Type_ f)); optString "id" (ID f); Some (k, v)])
    by (unfold object; by rewrite Ef).
  eapply bounded_mono; [apply (object_bounded _ [len (quote (Type_ f)) + 8; len (quote (ID f)) + 6; len (quote k) + b + 2])|].
  - repeat (apply Forall2_cons; split); [| | |done].
    + eexists. split; [apply literal_bounded|]. change (len (quote "type")) with 6. lia.
    + unfold optString. assert (H := len_nonneg (quote (ID f))). destruct (ID f =s ""); [unfold fieldBounded; lia|].
      eexists. split; [apply literal_bounded|]. change (len (quote "id")) with 4. lia.
    + by exists b.
  - cbn [foldr]. lia.
Qed.

(** [r] is what is sent of the list [l], of at most so many entries. *)
Record trimmed {A} (enc : A -> JSON) (most : option nat) (budget : Z) (l r : list A) : Prop := {
  tr_prefix : r `prefix_of` l;
  tr_most n : most = Some n -> (length r <= n)%nat;
  tr_budget : r = [] \/ bounded budget (JArray (enc <$> r));
  tr_whole : bounded budget (JArray (enc <$> l)) -> (forall n, most = Some n -> (length l <= n)%nat) -> r = l
}.

Lemma trimmed_bySize {A} (enc : A -> JSON) budget l : (forall x, x ∈ l -> encodes (enc x)) -> 0 <= budget ->
  trimmed enc None budget l (capBySize enc l budget).
Proof.
  intros He Hb. destruct (capLoop_spec enc budget (length l) l He Hb (Nat.le_refl _)) as [H1 H2].
  split; try done. intros Hw _. by apply capBySize_fits.
Qed.

Lemma trimmed_facts {A} (enc : A -> JSON) budget l : (forall x, x ∈ l -> encodes (enc x)) -> 0 <= budget ->
  trimmed enc (Some maxFactsListEntries) budget l (capBySize enc (capFacts l) budget).
Proof.
  intros He Hb. destruct (capFacts_prefix l) as [HP Hl].
  destruct (trimmed_bySize enc budget (capFacts l)) as [H1 _ H2 H3]; [|done|].
  { intros x Hx. apply He. destruct HP as [t Ht]. rewrite Ht. apply elem_of_app. by left. }
  split; [by etrans | | done|].
  - intros n [= <-]. apply prefix_length in H1. lia.
  - intros Hw Hn. assert (E : capFacts l = l).
    { unfold capFacts. destruct (Nat.leb_spec (length l) maxFactsListEntries); [done|]. specialize (Hn _ eq_refl). lia. }
    rewrite E in *. by apply H3.
Qed.

(** What is sent of sshd's configuration: its four name lists trimmed. *)
Definition sshdTrimmed (c c' : SSHDConfig) : Prop :=
  let cut := trimmed JString None accountsSSHDListBudget in
  cut (AllowUsers c) (AllowUsers c') /\ cut (AllowGroups c) (AllowGroups c')
  /\ cut (DenyUsers c) (DenyUsers c') /\ cut (DenyGroups c) (DenyGroups c')
  /\ c' = mkSSHD (Ports c) (PermitRootLogin c) (PasswordAuth c) (KbdInteractiveAuth c) (PubkeyAuth c)
            (PermitEmptyPasswords c) (MaxAuthTries c) (AllowUsers c') (AllowGroups c') (DenyUsers c') (DenyGroups c')
            (MatchBlocks c).

(** C34: Every account inventory, however many users, groups, rules and
    names the machine has and however long they are, is trimmed to a frame
    the channel accepts, provided sshd has at most 256 ports, a
    [PermitRootLogin] of at most 1024 bytes and int32 numbers; so is a workload inventory whose systemd units encode within
    16000 bytes and whose CPU shares are finite. What is sent of the users,
    the groups, the sudo rules and the processes is a prefix of at most 128
    entries and of the list's budget of bytes, and all of the list when that
    is within both; of sshd's four name lists it is a prefix of the budget,
    all of it when it fits, whatever their number; and the systemd units are
    sent as they are. *)
Theorem inventory_fits a p :
  (forall c, haSSHD a = Some c -> sshdLimits c) ->
  Forall finite (hpGroups p) -> bounded 16000 (JArray (SystemdUnit_json <$> hpUnits p)) ->
  (exists data, EncodeFrame (accountsFrame (sampleAccounts a)) = Ok data)
  /\ (exists data, EncodeFrame (processesFrame (sampleProcesses p)) = Ok data)
  /\ trimmed Account_json (Some 128%nat) accountsUsersBudget (haUsers a) (haUsers (sampleAccounts a))
  /\ trimmed UserGroup_json (Some 128%nat) accountsGroupsBudget (haGroups a) (haGroups (sampleAccounts a))
  /\ trimmed JString (Some 128%nat) accountsRulesBudget (haSudoRules a) (haSudoRules (sampleAccounts a))
  /\ match haSSHD a, haSSHD (sampleAccounts a) with
     | Some c, Some c' => sshdTrimmed c c'
     | None, None => True
     | _, _ => False
     end
  /\ trimmed ProcessGroup_json (Some 128%nat) inventoryBudget (hpGroups p) (hpGroups (sampleProcesses p))
  /\ hpUnits (sampleProcesses p) = hpUnits p.
Proof.
  intros HS HF HU. assert (HA := accounts_bounded a HS). assert (HP := processes_bounded p 16000 HF HU ltac:(lia)).
  split; [by eapply (inventory_frame _ "accounts"); [|bounds|exact HA|]|].
  split; [by eapply (inventory_frame _ "processes"); [|bounds|exact HP|]|].
  split; [apply trimmed_facts; [by intros; apply Account_encodes | done]|].
  split; [apply trimmed_facts; [by intros; apply UserGroup_encodes | done]|].
  split; [apply trimmed_facts; [by intros; apply string_encodes | done]|]. split; [|split; [|done]].
  - cbn [sampleAccounts haSSHD]. destruct (haSSHD a) as [c|]; [|done].
    repeat split; apply (trimmed_bySize JString accountsSSHDListBudget); try done; by intros; apply string_encodes.
  - apply trimmed_facts; [|done]. intros g Hg. apply ProcessGroup_encodes. rewrite Forall_forall in HF. by apply HF.
Qed.

Definition demoAccounts : HostAccounts :=
  mkAccounts [mkAccount "root" 0 0 "" "/root" "/bin/sh" true "set" [] ["root"] [] "" 0 0 0] [mkGroup "root" 0 []]
    ["ALL"] (Some (mkSSHD [22] "no" false false true false 6 ["root"] [] [] [] 0)).
Definition demoProcesses : HostProcesses :=
  mkProcesses [mkProc "nginx" "www" 2 "" false [mkPort "tcp" "" 80] "" 0 (Some (Some "0.5")) 0]
    [mkUnit "nginx.service" "enabled" "active" "running" ""].

Lemma inventory_fits_witness : exists data, EncodeFrame (accountsFrame (sampleAccounts demoAccounts)) = Ok data.
Proof.
  apply (inventory_fits demoAccounts demoProcesses).
  - intros c [= <-]. split; [|by vm_compute|by vm_compute|by vm_compute]. split; [cbn; lia | by repeat constructor].
  - by repeat constructor.
  - eexists. split; [vm_compute; reflexivity | vm_compute; congruence].
Defined.

(** The units of a workload are not trimmed: with the groups at their
    budget, a hundred and fifty units of ordinary length are too many. *)
Fixpoint times (n : nat) (s : string) : string := match n with O => "" | S k => s +++ times k s end.

Example units_not_trimmed :
  EncodeFrame (processesFrame (sampleProcesses (mkProcesses
      (replicate 128 (mkProc "java" "app" 1 "" false (replicate 6 (mkPort "tcp" "127.0.0.1" 8080)) (times 20 "/opt/java/") 0 None 0))
      (replicate 150 (mkUnit "some-service.service" "enabled" "active" "running" "A unit with an ordinary description")))))
  = Err "exceeds limit".
Proof. by vm_compute. Qed.

(** The probe digest is capped in number only: 128 failing probes whose
    message is 256 times a character that JSON escapes do not fit. *)
Example digest_not_bounded :
  EncodeFrame (heartbeatFrame 1 0 (replicate 128 (mkProbe "web" false (times 256 "<") 0)) None) = Err "exceeds limit".
Proof. by vm_compute. Qed.

(** ** The probe digest *)

Lemma probeStates_keeps_failing states s : s ∈ states -> psHealthy s = false ->
  (length (filter (fun s => Is_true (negb (psHealthy s))) states) <= maxHeartbeatProbes)%nat -> s ∈ probeStates states.
Proof.
  intros Hin Hs Hl. unfold probeStates. destruct (_ <=? _)%nat; [done|]. rewrite take_app_ge by done.
  apply elem_of_app. left. apply list_elem_of_filter. by rewrite Hs.
Qed.

(** ** Reports follow the machine *)

Section Reports.
Context {T : Type} (fields : T -> list Field) (build : T -> Frame).

#[local] Abbreviation enc v := (Marshal (object (fields v))).

Lemma object_not_empty fs : Marshal (object fs) <> Some "".
Proof. unfold object. cbn [Marshal]. by destruct (allOf _ _). Qed.

Lemma report_sublist sent ticks : reportOnChange fields build sent ticks `sublist_of` ticks.*1.
Proof.
  revert sent. induction ticks as [|[v tr] ticks IH]; intros sent; [done|]. cbn -[Marshal object].
  destruct (enc v) as [e|]; [|by apply sublist_cons]. destruct (e =s sent); [by apply sublist_cons|].
  destruct (EncodeFrame (build v)), tr; try by apply sublist_cons. by apply sublist_skip.
Qed.

Lemma report_differs sent ticks : let ds := reportOnChange fields build sent ticks in
  (forall d, head ds = Some d -> enc d <> Some sent)
  /\ (forall i d d', ds !! i = Some d -> ds !! S i = Some d' -> enc d <> enc d')
  /\ Forall (fun d => exists data, EncodeFrame (build d) = Ok data) ds.
Proof.
  revert sent. induction ticks as [|[v tr] ticks IH]; intros sent; cbv zeta; [done|]. cbn -[Marshal object].
  destruct (enc v) as [e|] eqn:Ee; [|apply IH]. destruct (String.eqb_spec e sent) as [_|Hne]; [apply IH|].
  destruct (EncodeFrame (build v)) as [data|] eqn:Ef; [|apply IH]. destruct tr; [|apply IH].
  destruct (IH e) as (H1 & H2 & H3). split; [|split].
  - intros d [= <-]. congruence.
  - intros [|i] d d' Hd Hd'; [|by apply (H2 i)]. injection Hd as <-. rewrite Ee. intros E. apply (H1 d'); [|done].
    by destruct (reportOnChange _ _ _ _).
  - constructor; [by exists data | done].
Qed.

Lemma report_last sent ticks v e data : last ticks = Some (v, true) -> enc v = Some e -> EncodeFrame (build v) = Ok data ->
  match last (reportOnChange fields build sent ticks) with
  | Some d => enc d = Some e
  | None => sent = e
  end.
Proof.
  revert sent. induction ticks as [|[v' tr] ticks IH]; intros sent Hl He Hf; [done|]. cbn -[Marshal object].
  destruct ticks as [|t ticks].
  - injection Hl as -> ->. rewrite He. destruct (String.eqb_spec e sent) as [->|Hne]; [done|]. by rewrite Hf.
  - change (last (t :: ticks) = Some (v, true)) in Hl. specialize (fun s => IH s Hl He Hf).
    destruct (enc v') as [e'|] eqn:Ee; [|apply IH]. destruct (e' =s sent); [apply IH|].
    destruct (EncodeFrame (build v')); [|apply IH]. destruct tr; [|apply IH]. specialize (IH e').
    rewrite last_cons. destruct (last (reportOnChange fields build e' (t :: ticks))) as [d|]; [done|]. by subst.
Qed.

(** Within a session the frames that go out are the samples in order,
    never two equal ones in a row and never one the channel refuses; and
    whenever a sample was taken that fits its frame and the transport took
    what was offered, the last report the server has is that sample,
    whatever was lost or refused before. *)
Lemma reports_converge ticks :
  let ds := reportOnChange fields build "" ticks in
  ds `sublist_of` ticks.*1
  /\ (forall i d d', ds !! i = Some d -> ds !! S i = Some d' -> enc d <> enc d')
  /\ Forall (fun d => exists data, EncodeFrame (build d) = Ok data) ds
  /\ forall v e data, last ticks = Some (v, true) -> enc v = Some e -> EncodeFrame (build v) = Ok data ->
       exists d, last ds = Some d /\ enc d = Some e.
Proof.
  cbv zeta. destruct (report_differs "" ticks) as (_ & H2 & H3).
  split; [apply report_sublist|]. split; [done|]. split; [done|]. intros v e data Hl He Hf.
  assert (H := report_last "" ticks v e data Hl He Hf). destruct (last (reportOnChange _ _ _ _)) as [d|]; [by exists d|].
  subst. by destruct (object_not_empty (fields v)).
Qed.

End Reports.

(** ** The pace of reconnects *)

Definition long (o : Outcome) : bool := reconnectMax <? lasted o.

(** Over outcomes listed latest first: how many followed the last long
    session (or the first attempt), and whether the server refused the
    credential since. *)
Fixpoint spell (past : list Outcome) : nat * bool :=
  match past with
  | [] => (0%nat, false)
  | o :: rest =>
      if long o then (0%nat, unauthorized o)
      else match rest with
           | [] => (0%nat, unauthorized o)
           | _ => (S (spell rest).1, (spell rest).2 || unauthorized o)
           end
  end.

Definition due (past : list Outcome) : Z :=
  if (spell past).2 then reconnectMax else Z.min reconnectMax (2 ^ Z.of_nat (spell past).1 * reconnectMin).

Definition nextBackoff (past : list Outcome) : Z :=
  match past with [] => reconnectMin | _ => Z.min reconnectMax (2 * due past) end.

Lemma due_bounds past : reconnectMin <= due past <= reconnectMax.
Proof.
  unfold due. destruct (spell past).2; [by vm_compute|]. assert (H : 0 < 2 ^ Z.of_nat (spell past).1) by (apply Z.pow_pos_nonneg; lia).
  unfold reconnectMin, reconnectMax. lia.
Qed.

Lemma due_cons o past :
  due (o :: past) = if unauthorized o then reconnectMax else if long o then reconnectMin else nextBackoff past.
Proof.
  unfold due at 1. cbn [spell]. destruct (long o) eqn:El; [by destruct (unauthorized o)|].
  destruct past as [|o' past]; [by destruct (unauthorized o)|]. cbn [fst snd]. unfold nextBackoff, due.
  destruct (unauthorized o); [by rewrite orb_true_r|]. rewrite orb_false_r.
  destruct (spell (o' :: past)) as [n []]; cbn [fst snd]; [by vm_compute|].
  rewrite Nat2Z.inj_succ, Z.pow_succ_r by lia. unfold reconnectMin, reconnectMax. lia.
Qed.

Lemma runRound_due past o : runRound (nextBackoff past) o = (jittered (due (o :: past)) (pick o), nextBackoff (o :: past)).
Proof.
  unfold runRound. fold (long o). rewrite due_cons.
  set (b := if unauthorized o then reconnectMax else if long o then reconnectMin else nextBackoff past).
  assert (Eb : b = due (o :: past)) by (by rewrite due_cons). f_equal. unfold nextBackoff. rewrite <- Eb.
  assert (H := due_bounds (o :: past)). rewrite <- Eb in H.
  destruct (Z.ltb_spec b reconnectMax); [destruct (Z.ltb_spec reconnectMax (b * 2)); lia | unfold reconnectMax in *; lia].
Qed.

Lemma jittered_bounds d r : 0 <= d -> d / 2 <= jittered d r <= d.
Proof.
  intros Hd. unfold jittered. assert (H0 := Z.div_pos d 2 Hd ltac:(lia)). assert (H1 := Z.mul_div_le d 2 ltac:(lia)).
  assert (H := Z.mod_pos_bound r (d / 2 + 1) ltac:(lia)). lia.
Qed.

Lemma runFrom_lookup past os i o : os !! i = Some o ->
  runFrom (nextBackoff past) os !! i = Some (jittered (due (reverse (take (S i) os) ++ past)) (pick o)).
Proof.
  revert past i. induction os as [|o' os IH]; intros past i; [done|]. cbn [runFrom]. rewrite runRound_due.
  destruct i as [|i].
  - by intros [= ->].
  - intros Ho. change (runFrom (nextBackoff (o' :: past)) os !! i = Some (jittered (due (reverse (o' :: take (S i) os) ++ past)) (pick o))).
    by rewrite (IH (o' :: past) i Ho), reverse_cons, <- app_assoc.
Qed.

(** After every session, the agent waits between half of and the whole
    of a delay that depends only on its history: the full minute once the
    server refused the credential, otherwise a second doubled for every
    session since the last one that lasted more than a minute, up to a
    minute. So every wait is at least half a second and at most a minute,
    and the agent never gives up. *)
Lemma reconnect_paced os i o : os !! i = Some o ->
  let d := due (reverse (take (S i) os)) in
  exists delay, Run os !! i = Some delay /\ d / 2 <= delay <= d /\ reconnectMin <= d <= reconnectMax.
Proof.
  intros Ho. cbv zeta. unfold Run. change reconnectMin with (nextBackoff []) at 1. eexists.
  split; [by apply runFrom_lookup|]. rewrite app_nil_r. assert (H := due_bounds (reverse (take (S i) os))).
  split; [apply jittered_bounds; unfold reconnectMin in H; lia | done].
Qed.

Example ninth_attempt : exists delay,
  Run (replicate 9 (mkOutcome false 0 7)) !! 8%nat = Some delay /\ 30000000000 <= delay <= 60000000000.
Proof.
  destruct (reconnect_paced (replicate 9 (mkOutcome false 0 7)) 8 (mkOutcome false 0 7) eq_refl) as (delay & H1 & H2 & _).
  exists delay. by split.
Qed.

End AgentClient.
