(* ===== verification/SqlList.v ===== *)
(** * List queries

    What the list statements of [pkg/db/generated] have in common: ILIKE
    over an escaped search text, an ORDER BY whose columns are chosen by
    CASE expressions, LIMIT and OFFSET, and the store functions that run a
    count and then a page ([pkg/apis/iam/store]). PostgreSQL leaves the
    order of rows that compare equal open: [tie] ranks them, anew for every
    request. *)

From stdpp Require Import sorting.
From S2P Require Import Prelude ListQuery IamDb IamStore.

Module SqlList.
Import ListQ IamDb IamStore.

(** ** Sorting *)

(** A merge sort looks at the relation on the elements it sorts. *)
Section SortExt.
Context {A : Type} (R R' : relation A) `{!RelDecision R, !RelDecision R'} (P : A -> Prop).
Context (agree : forall a b, P a -> P b -> R a b <-> R' a b).

Lemma list_merge_ext l1 l2 : Forall P l1 -> Forall P l2 -> list_merge R l1 l2 = list_merge R' l1 l2.
Proof using All.
  intros H1. revert l2. induction H1 as [|x l1 Hx H1 IH1]; intros l2 H2; [by destruct l2|].
  induction H2 as [|y l2 Hy H2 IH2]; [done|]. rewrite !list_merge_cons, IH2, (IH1 (y :: l2)) by by constructor.
  pose proof (agree x y Hx Hy). destruct (decide (R x y)), (decide (R' x y)); done || tauto.
Qed.

Definition stacked (st : list (option (list A))) : Prop := Forall (fun o => forall l, o = Some l -> Forall P l) st.

Lemma merge_push_ext st l : stacked st -> Forall P l ->
  merge_list_to_stack R st l = merge_list_to_stack R' st l /\ stacked (merge_list_to_stack R st l).
Proof using All.
  intros Hst. revert l. induction Hst as [|[l'|] st Ho Hst IH]; intros l Hl; cbn.
  - split; [done|]. by repeat constructor; intros ? [= <-].
  - specialize (Ho l' eq_refl). rewrite <- (list_merge_ext l' l) by done.
    destruct (IH (list_merge R l' l)) as [<- H]; [rewrite merge_Permutation; by apply Forall_app|]. split; [done|].
    by constructor.
  - split; [done|]. constructor; [by intros ? [= <-] | done].
Qed.

Lemma merge_stack_ext st : stacked st -> merge_stack R st = merge_stack R' st /\ Forall P (merge_stack R st).
Proof using All.
  induction 1 as [|[l|] st Ho Hst [E F]]; cbn; [by split| |by split]. specialize (Ho l eq_refl).
  rewrite <- E, <- (list_merge_ext l) by done. split; [done|]. rewrite merge_Permutation. by apply Forall_app.
Qed.

Lemma merge_sort_ext l : Forall P l -> merge_sort R l = merge_sort R' l.
Proof using All.
  unfold merge_sort. assert (H : stacked []) by constructor. revert H. generalize (@nil (option (list A))) as st.
  intros st Hst Hl. revert st Hst. induction Hl as [|x l Hx Hl IH]; intros st Hst; cbn; [by apply merge_stack_ext|].
  destruct (merge_push_ext st [x] Hst) as [<- H]; [by repeat constructor|]. by apply IH.
Qed.

End SortExt.

(** ** ILIKE *)

Fixpoint likeb (p t : string) : bool :=
  match p with
  | EmptyString => t =s ""
  | String c p' =>
      if Ascii.eqb c "%" then
        (fix go (t : string) : bool :=
           likeb p' t || match t with EmptyString => false | String _ t' => go t' end) t
      else if Ascii.eqb c "_" then
        match t with EmptyString => false | _ => likeb p' (str_drop (runeLen t) t) end
      else if Ascii.eqb c "\" then
        match p', t with
        | String c' p'', String x t' => Ascii.eqb x c' && likeb p'' t'
        | _, _ => false
        end
      else match t with String x t' => Ascii.eqb x c && likeb p' t' | EmptyString => false end
  end.

(** [text ILIKE '%' || pat || '%'], with the database's case folding. *)
Definition ilike (fold : string -> string) (pat text : string) : bool := likeb (fold ("%" +++ pat +++ "%")) (fold text).

(** [$1 IS NULL OR ...]. *)
Definition opt {A} (f : option A) (P : A -> bool) : bool := match f with None => true | Some v => P v end.

(** [column = ANY(string_to_array($1, ','))]. *)
Definition anyOf (f : option string) (column : string) : bool :=
  opt f (fun v => existsb (fun x => column =s x) (Split v ",")).

(** ** ORDER BY *)

Inductive SortVal := SText (s : string) | SNum (z : Z).

Record Ordering (R : Type) := mkOrdering {
  fields : list (string * list (R -> SortVal));    (** what each sort field orders by *)
  latest : R -> Z;                                 (** the last key, descending *)
  rowID : R -> Z
}.
Arguments mkOrdering {R}.
Arguments fields {R}.
Arguments latest {R}.
Arguments rowID {R}.

Section Order.
(** The collation of text. *)
Context (collate : string -> string -> comparison).

Definition cmpVal (a b : SortVal) : comparison :=
  match a, b with
  | SText x, SText y => collate x y
  | SNum x, SNum y => Z.compare x y
  | _, _ => Eq
  end.

(** The keys, each with its direction. *)
Definition orderKeys {R} (o : Ordering R) (sortBy sortOrder : string) : list (bool * (R -> SortVal)) :=
  let cols := concat ((fun p => if p.1 =s sortBy then p.2 else []) <$> fields o) in
  (if sortOrder =s "asc" then (fun c => (false, c)) <$> cols
   else if sortOrder =s "desc" then (fun c => (true, c)) <$> cols else [])
  ++ [(true, SNum ∘ latest o)].

Definition cmpKey {R} (k : bool * (R -> SortVal)) (a b : R) : comparison :=
  if k.1 then cmpVal (k.2 b) (k.2 a) else cmpVal (k.2 a) (k.2 b).

Fixpoint cmpKeys {R} (ks : list (bool * (R -> SortVal))) (a b : R) : comparison :=
  match ks with
  | [] => Eq
  | k :: ks' => match cmpKey k a b with Eq => cmpKeys ks' a b | c => c end
  end.

(** The keys, then the rank of the row. *)
Definition before {R} (keys : list (bool * (R -> SortVal))) (rid : R -> Z) (tie : Z -> Z) (a b : R) : Prop :=
  match cmpKeys keys a b with
  | Lt => True
  | Eq => tie (rid a) <= tie (rid b)
  | Gt => False
  end.

#[export] Instance before_dec {R} (keys : list (bool * (R -> SortVal))) rid tie : RelDecision (before keys rid tie).
Proof. intros a b. unfold before. destruct (cmpKeys _ a b); apply _. Defined.

Definition ordered {R} (keys : list (bool * (R -> SortVal))) (rid : R -> Z) (tie : Z -> Z) (rows : list R) : list R :=
  merge_sort (before keys rid tie) rows.

Definition sqlOrder {R} (o : Ordering R) (tie : Z -> Z) (sortBy sortOrder : string) (rows : list R) : list R :=
  ordered (orderKeys o sortBy sortOrder) (rowID o) tie rows.

Definition invalid_row_count_in_limit_clause : string := "2201W".
Definition invalid_row_count_in_result_offset_clause : string := "2201X".

(** [LIMIT .. OFFSET ..]. *)
Definition sqlPage {R} (offset limit : Z) (l : list R) : result SqlErr (list R) :=
  if limit <? 0 then Err (PgError invalid_row_count_in_limit_clause)
  else if offset <? 0 then Err (PgError invalid_row_count_in_result_offset_clause)
  else Ok (take (Z.to_nat limit) (drop (Z.to_nat offset) l)).

(** The body of every list function of the stores: the count, then the
    page. *)
Definition descending (sortOrder : string) : string := if sortOrder =s "" then "desc" else sortOrder.

Definition storeList {R} (count : DB -> Z) (rows : DB -> list R) (o : Ordering R) (tie : Z -> Z) (q : Query)
    : M GoErr (list R * Z) :=
  let '(offset, limit) := PaginationToOffsetLimit (qPagination q) in
  total <-- onErr wrap (Q (query (fun d => Ok (count d)))) ;;
  items <-- onErr wrap (Q (query (fun d =>
    sqlPage offset limit (sqlOrder o tie (SortBy (qPagination q)) (descending (SortOrder (qPagination q))) (rows d))))) ;;
  ret (items, total).

(** ** What a page is *)

Definition antisym : Prop := forall a b, collate a b = CompOpp (collate b a).

Lemma cmpVal_antisym a b : antisym -> cmpVal a b = CompOpp (cmpVal b a).
Proof. intros H. destruct a, b; cbn; [apply H | done | done | apply Z.compare_antisym]. Qed.

Lemma cmpKeys_antisym {R} (ks : list (bool * (R -> SortVal))) a b : antisym -> cmpKeys ks a b = CompOpp (cmpKeys ks b a).
Proof.
  intros H. induction ks as [|[[] f] ks IH]; [done|..]; cbn; unfold cmpKey; cbn; rewrite cmpVal_antisym by done.
  - destruct (cmpVal (f a) (f b)); cbn; done.
  - destruct (cmpVal (f b) (f a)); cbn; done.
Qed.

Lemma before_total {R} (keys : list (bool * (R -> SortVal))) rid tie : antisym -> Total (before keys rid tie).
Proof.
  intros H a b. unfold before. rewrite (cmpKeys_antisym _ b a H). destruct (cmpKeys _ a b); cbn; [lia | by left | by right].
Qed.

Lemma ordered_perm {R} (keys : list (bool * (R -> SortVal))) rid tie rows : ordered keys rid tie rows ≡ₚ rows.
Proof. apply merge_sort_Permutation. Qed.

(** An answer to an ORDER BY: the identifiers of the rows, in an order the
    keys allow. *)
Definition arranged {R} (keys : list (bool * (R -> SortVal))) (rid : R -> Z) (rows : list R) (l : list Z) : Prop :=
  exists rows', rows' ≡ₚ rows /\ l = rid <$> rows' /\ Sorted (fun a b => cmpKeys keys a b <> Gt) rows'.

Lemma ordered_arranged {R} (keys : list (bool * (R -> SortVal))) rid tie rows :
  antisym -> arranged keys rid rows (rid <$> ordered keys rid tie rows).
Proof.
  intros H. exists (ordered keys rid tie rows). split_and!; [apply ordered_perm | done|].
  pose proof (before_total keys rid tie H). unfold ordered. pose proof (Sorted_merge_sort (before keys rid tie) rows) as S.
  induction S as [|a l _ IH Ha]; constructor; [done|]. destruct Ha as [|b l Hb]; constructor. revert Hb.
  unfold before. by destruct (cmpKeys keys a b).
Qed.

(** The keys tell the rows apart: the ORDER BY leaves nothing open. *)
Definition noTies {R} (keys : list (bool * (R -> SortVal))) (rows : list R) : Prop :=
  forall a b, a ∈ rows -> b ∈ rows -> cmpKeys keys a b = Eq -> a = b.

Lemma ordered_noTies {R} (keys : list (bool * (R -> SortVal))) rid tie tie' rows :
  noTies keys rows -> ordered keys rid tie rows = ordered keys rid tie' rows.
Proof.
  intros H. apply (merge_sort_ext _ _ (fun a => a ∈ rows)); [|by apply Forall_forall]. intros a b Ha Hb. unfold before.
  destruct (cmpKeys keys a b) eqn:E; [|done..]. rewrite (H a b Ha Hb E). lia.
Qed.

Lemma sqlOrder_perm {R} (o : Ordering R) tie sortBy sortOrder rows : sqlOrder o tie sortBy sortOrder rows ≡ₚ rows.
Proof. apply merge_sort_Permutation. Qed.

(** No connection failure ahead, no aborted transaction. *)
Definition healthy (s : Sys) : Prop := sfaults s = [] /\ stx s <> Some true.

(** The state after, which a read leaves alone. *)
Definition readOnly (s s' : Sys) : Prop := sdb s' = sdb s /\ healthy s'.

Lemma Q_runs {A} (f : DB -> result SqlErr A) a s :
  healthy s -> f (sdb s) = Ok a -> exists s', Q (query f) s = (Ok a, s') /\ readOnly s s'.
Proof.
  intros [F T] E. unfold Q, query. rewrite bool_decide_eq_false_2 by done. unfold popFault. rewrite F. cbn. rewrite E. cbn.
  eexists. split; [reflexivity|]. done.
Qed.

Lemma onErr_runs {E E' A} (f : E -> E') (m : M E A) s a s' : m s = (Ok a, s') -> onErr f m s = (Ok a, s').
Proof. unfold onErr. by intros ->. Qed.

Lemma storeList_runs {R} count rows (o : Ordering R) tie q s :
  let '(offset, limit) := PaginationToOffsetLimit (qPagination q) in
  healthy s -> 0 <= offset -> 0 <= limit ->
  exists s', storeList count rows o tie q s =
    (Ok (take (Z.to_nat limit) (drop (Z.to_nat offset)
           (sqlOrder o tie (SortBy (qPagination q)) (descending (SortOrder (qPagination q))) (rows (sdb s)))),
         count (sdb s)), s') /\ readOnly s s'.
Proof.
  unfold storeList. destruct (PaginationToOffsetLimit (qPagination q)) as [offset limit]. intros Hs Ho Hl. unfold bind.
  destruct (Q_runs (fun d => Ok (count d)) (count (sdb s)) s Hs eq_refl) as (s1 & E1 & D1 & H1).
  rewrite (onErr_runs _ _ _ _ _ E1).
  set (items := take _ _).
  destruct (Q_runs (fun d => sqlPage offset limit
    (sqlOrder o tie (SortBy (qPagination q)) (descending (SortOrder (qPagination q))) (rows d))) items s1 H1)
    as (s2 & E2 & D2 & H2).
  { rewrite D1. unfold sqlPage. destruct (Z.ltb_spec limit 0); [lia|]. destruct (Z.ltb_spec offset 0); [lia|]. done. }
  rewrite (onErr_runs _ _ _ _ _ E2). exists s2. split; [done|]. split; [congruence | done].
Qed.

End Order.

(** The pages of one ordered list, put together, are the list. *)
Lemma pages_cover {R} (l : list R) n k :
  concat ((fun i => take n (drop (i * n) l)) <$> seq 0 k) = take (k * n) l.
Proof.
  induction k as [|k IH]; [done|]. rewrite seq_S, fmap_app, concat_app, IH. cbn. rewrite app_nil_r.
  rewrite take_take_drop. f_equal. lia.
Qed.

End SqlList.
