(* ===== verification/IamLists.v ===== *)
(** * IAM lists

    The list statements of [pkg/db/generated] over the tables of [IamDb],
    the list functions of [pkg/apis/iam/store] and the handlers of
    [pkg/apis/iam/storage_*.go] that call them: role bindings, members and
    non-members, users, workspaces, namespaces, roles, and a user's own
    workspaces and namespaces. Handlers return the store's rows; the copying
    into API types is left out. Timestamps are columns no other operation
    reads, given here as functions of a row's key. *)

From S2P Require Import Prelude Rbac ListQuery IamDb IamStore SqlList.

Module IamLists.
Import Rbac ListQ IamDb IamStore SqlList.

Section Lists.
Context (fold : string -> string) (collate : string -> string -> comparison).
Context (createdAt updatedAt : Table -> Z -> Z).

#[local] Abbreviation like_ := (ilike fold).

(** One of the texts contains the search text. *)
Definition found (search : option string) (texts : list string) : bool := opt search (fun p => existsb (like_ p) texts).

Definition count {R} (l : list R) : Z := Z.of_nat (length l).

(** ** Role bindings *)

Record BindingRow := mkBindingRow {
  brID : Z; brBinding : Binding; brUsername : string; brUserDisplayName : string;
  brRoleName : string; brRoleDisplayName : string; brWorkspaceName : string; brNamespaceName : string
}.

(** [role_bindings JOIN users JOIN roles WHERE ...]. *)
Definition bindingsJoined (base : Binding -> bool) (roleID : option Z) (isOwner : option bool) (search : option string)
    (d : DB) : list BindingRow :=
  omap (fun p => let '(id, b) := p in
    u ← users d !! bUserID b; r ← roles d !! bRoleID b;
    if base b && opt roleID (fun x => bRoleID b =? x) && opt isOwner (fun x => Bool.eqb (bIsOwner b) x)
       && found search [uUsername u; uDisplayName u; rName r; rDisplayName r]
    then Some (mkBindingRow id b (uUsername u) (uDisplayName u) (rName r) (rDisplayName r) "" "") else None)
  (map_to_list (bindings d)).

Definition isPlatform (b : Binding) : bool := bScope b =s ScopePlatform.

Definition ListRoleBindingsPlatform := bindingsJoined isPlatform.
Definition CountRoleBindingsPlatform roleID isOwner search d : Z := count (bindingsJoined isPlatform roleID isOwner search d).
Definition ListRoleBindingsByWorkspaceID (ws : Z) := bindingsJoined (inWorkspace ws).
Definition CountRoleBindingsByWorkspaceID (ws : Z) roleID isOwner search d : Z :=
  count (bindingsJoined (inWorkspace ws) roleID isOwner search d).
Definition ListRoleBindingsByNamespaceID (ns : Z) := bindingsJoined (inNamespace ns).
Definition CountRoleBindingsByNamespaceID (ns : Z) roleID isOwner search d : Z :=
  count (bindingsJoined (inNamespace ns) roleID isOwner search d).

Definition bindingOrder : Ordering BindingRow :=
  mkOrdering [("username", [SText ∘ brUsername]); ("user_display_name", [SText ∘ brUserDisplayName]);
              ("role_name", [SText ∘ brRoleName]); ("role_display_name", [SText ∘ brRoleDisplayName]);
              ("created_at", [SNum ∘ createdAt TBindings ∘ brID])]
    (createdAt TBindings ∘ brID) brID.

(** [LEFT JOIN workspaces], [LEFT JOIN namespaces]: the name, if there is one. *)
Definition nameOf {A} (f : A -> string) (t : gmap Z A) (id : option Z) : string :=
  match (x ← id; t !! x) with Some a => f a | None => "" end.

Definition ListRoleBindingsByUserID (userID : Z) (scope : option string) (roleID ws ns : option Z) (search : option string)
    (d : DB) : list BindingRow :=
  omap (fun p => let '(id, b) := p in
    r ← roles d !! bRoleID b;
    if (bUserID b =? userID) && opt scope (fun x => bScope b =s x) && opt roleID (fun x => bRoleID b =? x)
       && opt ws (colEq (bWorkspaceID b)) && opt ns (colEq (bNamespaceID b))
       && found search [rName r; rDisplayName r]
    then Some (mkBindingRow id b "" "" (rName r) (rDisplayName r)
                 (nameOf wsName (workspaces d) (bWorkspaceID b)) (nameOf nsName (namespaces d) (bNamespaceID b)))
    else None)
  (map_to_list (bindings d)).
Definition CountRoleBindingsByUserID userID scope roleID ws ns search d : Z :=
  count (ListRoleBindingsByUserID userID scope roleID ws ns search d).

Definition userBindingOrder : Ordering BindingRow :=
  mkOrdering [("scope", [SText ∘ bScope ∘ brBinding]); ("role_name", [SText ∘ brRoleName]);
              ("scope_target", [SText ∘ brWorkspaceName; SText ∘ brNamespaceName]);
              ("created_at", [SNum ∘ createdAt TBindings ∘ brID])]
    (createdAt TBindings ∘ brID) brID.

(** ** Members *)

Record MemberRow := mkMember { mID : Z; mUser : User; mRoles : list string; mJoinedAt : Z }.

(** The roles of a user's bindings among those that [base] selects, the
    owner's first, then by name. *)
Definition roleBefore (a b : bool * Role) : Prop :=
  match a.1, b.1 with
  | true, false => True
  | false, true => False
  | _, _ => collate (rName a.2) (rName b.2) <> Gt
  end.

#[export] Instance roleBefore_dec : RelDecision roleBefore.
Proof. intros a b. unfold roleBefore. destruct a.1, b.1; apply _. Defined.

Definition roleRows (base : Binding -> bool) (d : DB) : list (bool * Role) :=
  omap (fun b => r ← roles d !! bRoleID b; if base b then Some (bIsOwner b, r) else None) (map_to_list (bindings d)).*2.

Definition heldRoles (base : Binding -> bool) (d : DB) : list Role := snd <$> sorting.merge_sort roleBefore (roleRows base d).

Definition joinedAt (base : Binding -> bool) (d : DB) : Z :=
  match omap (fun p => if base p.2 then Some (createdAt TBindings p.1) else None) (map_to_list (bindings d)) with
  | [] => 0
  | t :: ts => foldr Z.min t ts
  end.

Definition ofUser (u : Z) (base : Binding -> bool) (b : Binding) : bool := (bUserID b =? u) && base b.

(** The users of the bindings [base] selects, with the role table joined. *)
Definition memberIDs (base : Binding -> bool) (d : DB) : gset Z :=
  distinctUsers (bindingsOf d (fun b => base b && bool_decide (is_Some (roles d !! bRoleID b)))).

Definition userMatches (status search : option string) (u : User) : bool :=
  anyOf status (uStatus u) && found search [uUsername u; uDisplayName u; uEmail u; uPhone u].

(** [members JOIN users]. *)
Definition membersJoined (base : Binding -> bool) (status search : option string) (d : DB) : list MemberRow :=
  omap (fun id => u ← users d !! id;
          if userMatches status search u
          then Some (mkMember id u (rName <$> heldRoles (ofUser id base) d) (joinedAt (ofUser id base) d)) else None)
    (elements (memberIDs base d)).

(** The count does not join the roles. *)
Definition membersCount (base : Binding -> bool) (status search : option string) (d : DB) : Z :=
  count (filter (fun id => Is_true (match users d !! id with Some u => userMatches status search u | None => false end))
           (elements (distinctUsers (bindingsOf d base)))).

Definition ListWorkspaceMembers (ws : Z) := membersJoined (inWorkspace ws).
Definition CountWorkspaceMembers (ws : Z) := membersCount (inWorkspace ws).
Definition ListNamespaceMembers (ns : Z) := membersJoined (inNamespace ns).
Definition CountNamespaceMembers (ns : Z) := membersCount (inNamespace ns).

Definition userFields {R} (user : R -> User) (id : R -> Z) : list (string * list (R -> SortVal)) :=
  [("username", [SText ∘ uUsername ∘ user]); ("email", [SText ∘ uEmail ∘ user]);
   ("display_name", [SText ∘ uDisplayName ∘ user]); ("phone", [SText ∘ uPhone ∘ user]);
   ("created_at", [SNum ∘ createdAt TUsers ∘ id]); ("updated_at", [SNum ∘ updatedAt TUsers ∘ id])].

Definition memberOrder : Ordering MemberRow :=
  mkOrdering (("joined_at", [SNum ∘ mJoinedAt]) :: userFields mUser mID) mJoinedAt mID.

(** ** Users *)

Record UserRow := mkUserRow { urID : Z; urUser : User; urNamespaces : list string }.

Definition nonMembers (base : Binding -> bool) (status search : option string) (d : DB) : list UserRow :=
  omap (fun p => let '(id, u) := p in
    if bool_decide (id ∉ distinctUsers (bindingsOf d base)) && userMatches status search u
    then Some (mkUserRow id u []) else None) (map_to_list (users d)).

Definition ListWorkspaceNonMembers (ws : Z) := nonMembers (inWorkspace ws).
Definition CountWorkspaceNonMembers (ws : Z) status search d : Z := count (nonMembers (inWorkspace ws) status search d).
Definition ListNamespaceNonMembers (ns : Z) := nonMembers (inNamespace ns).
Definition CountNamespaceNonMembers (ns : Z) status search d : Z := count (nonMembers (inNamespace ns) status search d).

(** [array_agg(DISTINCT n.name)] over the user's namespace bindings. *)
Definition namespaceNames (u : Z) (d : DB) : list string :=
  elements (list_to_set (omap (fun b =>
    if (bUserID b =? u) && (bScope b =s ScopeNamespace) then n ← bNamespaceID b; nsName <$> namespaces d !! n else None)
    (map_to_list (bindings d)).*2) : gset string).

Definition ListUsers (status search : option string) (d : DB) : list UserRow :=
  omap (fun p => let '(id, u) := p in
    if userMatches status search u then Some (mkUserRow id u (namespaceNames id d)) else None) (map_to_list (users d)).
Definition CountUsers (status search : option string) (d : DB) : Z :=
  countRows (fun _ u => userMatches status search u) (users d).

Definition userOrder : Ordering UserRow :=
  mkOrdering (("status", [SText ∘ uStatus ∘ urUser]) :: userFields urUser urID) (createdAt TUsers ∘ urID) urID.

(** ** Workspaces and namespaces *)

Definition workspaceMatches (status name : option string) (ownerID : option Z) (search : option string) (w : Workspace) : bool :=
  anyOf status (wsStatus w) && opt name (fun p => like_ p (wsName w)) && opt ownerID (fun x => wsOwnerID w =? x)
  && found search [wsName w; wsDisplayName w; wsDescription w].

Definition ListWorkspaces (accessible : option (list Z)) (status name : option string) (ownerID : option Z)
    (search : option string) (d : DB) : list WorkspaceDetail :=
  omap (fun p => let '(id, w) := p in
    u ← users d !! wsOwnerID w;
    if opt accessible (fun ids => anyID ids id) && workspaceMatches status name ownerID search w
    then Some (workspaceDetail d id w (uUsername u) (creatorName d (wsCreatedBy w))) else None)
  (map_to_list (workspaces d)).
Definition CountWorkspaces (accessible : option (list Z)) status name ownerID search (d : DB) : Z :=
  countRows (fun id w => opt accessible (fun ids => anyID ids id) && workspaceMatches status name ownerID search w) (workspaces d).

Definition workspaceOrder : Ordering WorkspaceDetail :=
  mkOrdering [("name", [SText ∘ wsName ∘ wdRow]); ("created_at", [SNum ∘ createdAt TWorkspaces ∘ wdID]);
              ("status", [SText ∘ wsStatus ∘ wdRow]); ("display_name", [SText ∘ wsDisplayName ∘ wdRow]);
              ("updated_at", [SNum ∘ updatedAt TWorkspaces ∘ wdID]); ("namespace_count", [SNum ∘ wdNamespaceCount]);
              ("member_count", [SNum ∘ wdMemberCount])]
    (createdAt TWorkspaces ∘ wdID) wdID.

Definition namespaceMatches (status name visibility : option string) (ownerID ws : option Z) (search : option string)
    (n : Namespace) : bool :=
  anyOf status (nsStatus n) && opt name (fun p => like_ p (nsName n)) && anyOf visibility (nsVisibility n)
  && opt ownerID (fun x => nsOwnerID n =? x) && opt ws (fun x => nsWorkspaceID n =? x)
  && found search [nsName n; nsDisplayName n; nsDescription n].

Definition ListNamespaces (accessible : option (list Z)) (status name visibility : option string) (ownerID ws : option Z)
    (search : option string) (d : DB) : list NamespaceDetail :=
  omap (fun p => let '(id, n) := p in
    u ← users d !! nsOwnerID n; w ← workspaces d !! nsWorkspaceID n;
    if opt accessible (fun ids => anyID ids id) && namespaceMatches status name visibility ownerID ws search n
    then Some (namespaceDetail d id n (uUsername u) (wsName w) (creatorName d (nsCreatedBy n))) else None)
  (map_to_list (namespaces d)).
Definition CountNamespaces (accessible : option (list Z)) status name visibility ownerID ws search (d : DB) : Z :=
  countRows (fun id n => opt accessible (fun ids => anyID ids id) && namespaceMatches status name visibility ownerID ws search n)
    (namespaces d).

Definition namespaceOrder : Ordering NamespaceDetail :=
  mkOrdering [("name", [SText ∘ nsName ∘ ndRow]); ("display_name", [SText ∘ nsDisplayName ∘ ndRow]);
              ("description", [SText ∘ nsDescription ∘ ndRow]); ("created_at", [SNum ∘ createdAt TNamespaces ∘ ndID]);
              ("updated_at", [SNum ∘ updatedAt TNamespaces ∘ ndID]); ("visibility", [SText ∘ nsVisibility ∘ ndRow]);
              ("status", [SText ∘ nsStatus ∘ ndRow]); ("member_count", [SNum ∘ ndMemberCount])]
    (createdAt TNamespaces ∘ ndID) ndID.

(** ** Roles *)

Record RoleListRow := mkRoleListRow { rlID : Z; rlRole : Role; rlRuleCount : Z }.

Definition roleMatches (scope : option string) (builtin : option bool) (ws ns : option Z) (search : option string)
    (extra : option (list string)) (r : Role) : bool :=
  anyOf scope (rScope r) && opt builtin (fun x => Bool.eqb (rBuiltin r) x)
  && opt ws (colEq (rWorkspaceID r)) && opt ns (colEq (rNamespaceID r))
  && opt search (fun p => existsb (like_ p) [rName r; rDisplayName r; rDescription r]
                          || match extra with Some names => existsb (fun x => rName r =s x) names | None => false end).

Definition ListRoles scope builtin ws ns search extra (d : DB) : list RoleListRow :=
  omap (fun p => let '(id, r) := p in
    if roleMatches scope builtin ws ns search extra r
    then Some (mkRoleListRow id r (int32 (count (filter (fun x => x.1 = id) (elements (rules d)))))) else None)
  (map_to_list (roles d)).
Definition CountRoles scope builtin ws ns search extra (d : DB) : Z :=
  countRows (fun _ r => roleMatches scope builtin ws ns search extra r) (roles d).

Definition roleOrder : Ordering RoleListRow :=
  mkOrdering [("name", [SText ∘ rName ∘ rlRole]); ("display_name", [SText ∘ rDisplayName ∘ rlRole]);
              ("scope", [SText ∘ rScope ∘ rlRole]); ("builtin", [fun r => SNum (if rBuiltin (rlRole r) then 1 else 0)]);
              ("created_at", [SNum ∘ createdAt TRoles ∘ rlID])]
    (createdAt TRoles ∘ rlID) rlID.

(** ** A user's workspaces and namespaces *)

Record TenantRow (A : Type) := mkTenantRow { tRow : A; tRoles : list string; tRoleDisplayNames : list string; tJoinedAt : Z }.
#[global] Arguments mkTenantRow {A}.
#[global] Arguments tRow {A}.
#[global] Arguments tRoles {A}.
#[global] Arguments tRoleDisplayNames {A}.
#[global] Arguments tJoinedAt {A}.

(** [GROUP BY rb.workspace_id]: the tenants [f] names in the user's bindings
    of a scope, with the role table joined. *)
Definition tenantIDs (f : Binding -> option Z) (scope : string) (userID : Z) (d : DB) : list Z :=
  elements (list_to_set (omap (fun b =>
    if (bUserID b =? userID) && (bScope b =s scope) && bool_decide (is_Some (roles d !! bRoleID b)) then f b else None)
    (map_to_list (bindings d)).*2) : gset Z).

(** The search over a tenant's own names and the user's roles in it, each
    list of names joined with commas. *)
Definition tenantFound (search : option string) (texts : list string) (held : list Role) : bool :=
  found search (texts ++ [Join (rName <$> held) ","; Join (rDisplayName <$> held) ","]).

Definition tenantRow {A} (row : A) (base : Binding -> bool) (d : DB) : TenantRow A :=
  mkTenantRow row (rName <$> heldRoles base d) (rDisplayName <$> heldRoles base d) (joinedAt base d).

Definition ListUserWorkspaces (userID : Z) (status search : option string) (d : DB) : list (TenantRow WorkspaceDetail) :=
  omap (fun ws => let base := ofUser userID (inWorkspace ws) in
    w ← workspaces d !! ws; u ← users d !! wsOwnerID w;
    if anyOf status (wsStatus w) && tenantFound search [wsName w; wsDisplayName w] (heldRoles base d)
    then Some (tenantRow (workspaceDetail d ws w (uUsername u) "") base d) else None)
  (tenantIDs bWorkspaceID ScopeWorkspace userID d).

Definition ListUserNamespaces (userID : Z) (status visibility : option string) (wsFilter : option Z) (search : option string)
    (d : DB) : list (TenantRow NamespaceDetail) :=
  omap (fun ns => let base := ofUser userID (inNamespace ns) in
    n ← namespaces d !! ns; u ← users d !! nsOwnerID n; w ← workspaces d !! nsWorkspaceID n;
    if anyOf status (nsStatus n) && opt visibility (fun v => nsVisibility n =s v) && opt wsFilter (fun x => nsWorkspaceID n =? x)
       && tenantFound search [nsName n; nsDisplayName n] (heldRoles base d)
    then Some (tenantRow (namespaceDetail d ns n (uUsername u) (wsName w) "") base d) else None)
  (tenantIDs bNamespaceID ScopeNamespace userID d).

(** The counts aggregate the roles without an ORDER BY: [agg] is the order
    the database takes them in. *)
Definition CountUserWorkspaces (agg : list Role -> list Role) (userID : Z) (status search : option string) (d : DB) : Z :=
  count (filter (fun ws => Is_true match workspaces d !! ws with
    | Some w => anyOf status (wsStatus w)
                && tenantFound search [wsName w; wsDisplayName w] (agg (roleRows (ofUser userID (inWorkspace ws)) d).*2)
    | None => false end) (tenantIDs bWorkspaceID ScopeWorkspace userID d)).

Definition CountUserNamespaces (agg : list Role -> list Role) (userID : Z) (status visibility : option string)
    (wsFilter : option Z) (search : option string) (d : DB) : Z :=
  count (filter (fun ns => Is_true match namespaces d !! ns with
    | Some n => anyOf status (nsStatus n) && opt visibility (fun v => nsVisibility n =s v)
                && opt wsFilter (fun x => nsWorkspaceID n =? x)
                && tenantFound search [nsName n; nsDisplayName n] (agg (roleRows (ofUser userID (inNamespace ns)) d).*2)
    | None => false end) (tenantIDs bNamespaceID ScopeNamespace userID d)).

Definition userWorkspaceOrder : Ordering (TenantRow WorkspaceDetail) :=
  mkOrdering [("name", [SText ∘ wsName ∘ wdRow ∘ tRow]); ("display_name", [SText ∘ wsDisplayName ∘ wdRow ∘ tRow]);
              ("namespace_count", [SNum ∘ wdNamespaceCount ∘ tRow]); ("member_count", [SNum ∘ wdMemberCount ∘ tRow]);
              ("role_name", [fun r => SText (hd "" (tRoles r))]);
              ("created_at", [SNum ∘ createdAt TWorkspaces ∘ wdID ∘ tRow]);
              ("updated_at", [SNum ∘ updatedAt TWorkspaces ∘ wdID ∘ tRow]); ("joined_at", [SNum ∘ tJoinedAt])]
    tJoinedAt (wdID ∘ tRow).

Definition userNamespaceOrder : Ordering (TenantRow NamespaceDetail) :=
  mkOrdering [("name", [SText ∘ nsName ∘ ndRow ∘ tRow]); ("display_name", [SText ∘ nsDisplayName ∘ ndRow ∘ tRow]);
              ("member_count", [SNum ∘ ndMemberCount ∘ tRow]); ("role_name", [fun r => SText (hd "" (tRoles r))]);
              ("created_at", [SNum ∘ createdAt TNamespaces ∘ ndID ∘ tRow]);
              ("updated_at", [SNum ∘ updatedAt TNamespaces ∘ ndID ∘ tRow]); ("joined_at", [SNum ∘ tJoinedAt])]
    tJoinedAt (ndID ∘ tRow).

(** ** The stores *)

(** What PostgreSQL leaves open: the order of equal rows of a list and of
    the names a count aggregates. *)
Context (tie : Z -> Z) (agg : list Role -> list Role).

#[local] Abbreviation page := (fun count rows o q => storeList collate count rows o tie q).

Definition bindingListPlatform (q : Query) : M GoErr (list BindingRow * Z) :=
  let f := Filters q in
  let roleID := FilterInt64 f "role_id" in let isOwner := FilterBool f "is_owner" in let search := FilterStr f "search" in
  page (CountRoleBindingsPlatform roleID isOwner search) (ListRoleBindingsPlatform roleID isOwner search) bindingOrder q.

Definition bindingListByWorkspaceID (ws : Z) (q : Query) : M GoErr (list BindingRow * Z) :=
  let f := Filters q in
  let roleID := FilterInt64 f "role_id" in let isOwner := FilterBool f "is_owner" in let search := FilterStr f "search" in
  page (CountRoleBindingsByWorkspaceID ws roleID isOwner search) (ListRoleBindingsByWorkspaceID ws roleID isOwner search)
    bindingOrder q.

Definition bindingListByNamespaceID (ns : Z) (q : Query) : M GoErr (list BindingRow * Z) :=
  let f := Filters q in
  let roleID := FilterInt64 f "role_id" in let isOwner := FilterBool f "is_owner" in let search := FilterStr f "search" in
  page (CountRoleBindingsByNamespaceID ns roleID isOwner search) (ListRoleBindingsByNamespaceID ns roleID isOwner search)
    bindingOrder q.

Definition bindingListByUserID (userID : Z) (q : Query) : M GoErr (list BindingRow * Z) :=
  let f := Filters q in
  let scope := FilterStr f "scope" in let roleID := FilterInt64 f "role_id" in
  let ws := FilterInt64 f "workspace_id" in let ns := FilterInt64 f "namespace_id" in let search := FilterStr f "search" in
  page (CountRoleBindingsByUserID userID scope roleID ws ns search) (ListRoleBindingsByUserID userID scope roleID ws ns search)
    userBindingOrder q.

Definition bindingListUserWorkspaces (userID : Z) (q : Query) : M GoErr (list (TenantRow WorkspaceDetail) * Z) :=
  let f := Filters q in
  let status := FilterStr f "status" in let search := FilterStr f "search" in
  page (CountUserWorkspaces agg userID status search) (ListUserWorkspaces userID status search) userWorkspaceOrder q.

Definition bindingListUserNamespaces (userID : Z) (q : Query) : M GoErr (list (TenantRow NamespaceDetail) * Z) :=
  let f := Filters q in
  let status := FilterStr f "status" in let visibility := FilterStr f "visibility" in
  let ws := FilterInt64 f "workspace_id" in let search := FilterStr f "search" in
  page (CountUserNamespaces agg userID status visibility ws search) (ListUserNamespaces userID status visibility ws search)
    userNamespaceOrder q.

Definition bindingListWorkspaceMembers (ws : Z) (q : Query) : M GoErr (list MemberRow * Z) :=
  let f := Filters q in let status := FilterStr f "status" in let search := FilterStr f "search" in
  page (CountWorkspaceMembers ws status search) (ListWorkspaceMembers ws status search) memberOrder q.

Definition bindingListNamespaceMembers (ns : Z) (q : Query) : M GoErr (list MemberRow * Z) :=
  let f := Filters q in let status := FilterStr f "status" in let search := FilterStr f "search" in
  page (CountNamespaceMembers ns status search) (ListNamespaceMembers ns status search) memberOrder q.

Definition bindingListWorkspaceNonMembers (ws : Z) (q : Query) : M GoErr (list UserRow * Z) :=
  let f := Filters q in let status := FilterStr f "status" in let search := FilterStr f "search" in
  page (CountWorkspaceNonMembers ws status search) (ListWorkspaceNonMembers ws status search) userOrder q.

Definition bindingListNamespaceNonMembers (ns : Z) (q : Query) : M GoErr (list UserRow * Z) :=
  let f := Filters q in let status := FilterStr f "status" in let search := FilterStr f "search" in
  page (CountNamespaceNonMembers ns status search) (ListNamespaceNonMembers ns status search) userOrder q.

Definition userList (q : Query) : M GoErr (list UserRow * Z) :=
  let f := Filters q in let status := FilterStr f "status" in let search := FilterStr f "search" in
  page (CountUsers status search) (ListUsers status search) userOrder q.

Definition workspaceList (q : Query) : M GoErr (list WorkspaceDetail * Z) :=
  let f := Filters q in
  let ids := FilterInt64Slice f "accessible_ids" in let status := FilterStr f "status" in let name := FilterStr f "name" in
  let ownerID := FilterInt64 f "owner_id" in let search := FilterStr f "search" in
  page (CountWorkspaces ids status name ownerID search) (ListWorkspaces ids status name ownerID search) workspaceOrder q.

Definition namespaceList (q : Query) : M GoErr (list NamespaceDetail * Z) :=
  let f := Filters q in
  let ids := FilterInt64Slice f "accessible_ids" in let status := FilterStr f "status" in let name := FilterStr f "name" in
  let visibility := FilterStr f "visibility" in let ownerID := FilterInt64 f "owner_id" in
  let ws := FilterInt64 f "workspace_id" in let search := FilterStr f "search" in
  page (CountNamespaces ids status name visibility ownerID ws search)
    (ListNamespaces ids status name visibility ownerID ws search) namespaceOrder q.

Definition roleList (q : Query) : M GoErr (list RoleListRow * Z) :=
  let f := Filters q in
  let scope := FilterStr f "scope" in let builtin := FilterBool f "builtin" in
  let ws := FilterInt64 f "workspace_id" in let ns := FilterInt64 f "namespace_id" in
  let search := FilterStr f "search" in let extra := FilterStrSlice f "extra_names" in
  page (CountRoles scope builtin ws ns search extra) (ListRoles scope builtin ws ns search extra) roleOrder q.

(** ** The handlers *)

Definition setFilter (k : string) (v : any) (q : Query) : Query :=
  {| Filters := <[k := v]> (Filters q); qPagination := qPagination q; qMaxPageSize := qMaxPageSize q |}.
Definition dropFilter (k : string) (q : Query) : Query :=
  {| Filters := delete k (Filters q); qPagination := qPagination q; qMaxPageSize := qMaxPageSize q |}.

Definition roleBindingOps_list (q : Query) := onErr domainErr (bindingListPlatform q).
Definition workspaceRoleBindingOps_list (ws : Z) (q : Query) := onErr domainErr (bindingListByWorkspaceID ws q).
Definition namespaceRoleBindingOps_list (ns : Z) (q : Query) := onErr domainErr (bindingListByNamespaceID ns q).
Definition userOps_list (q : Query) := onErr domainErr (userList q).

Definition roleOps_list (q : Query) := onErr domainErr (roleList (setFilter "scope" (VString ScopePlatform) q)).

(** [scopedRoleOps.list] of a workspace and of a namespace. *)
Definition scopedRoleOps_list (scope : string) (wsID nsID : Z) (q : Query) : M GoErr (list RoleListRow * Z) :=
  let q := setFilter "scope" (VString scope) q in
  let q := if scope =s ScopeWorkspace then setFilter "workspace_id" (VInt64 wsID) q
           else setFilter "namespace_id" (VInt64 nsID) q in
  onErr domainErr (roleList q).

Definition available (q : Query) : bool := match Filters q !! "available" with Some (VString s) => s =s "true" | _ => false end.

(** The API's user: a member carries its roles and the time it joined. *)
Record UserItem := mkUserItem { uiID : Z; uiUser : User; uiRoles : list string; uiJoinedAt : option Z }.

Definition items {A B} (f : A -> B) (m : M GoErr (list A * Z)) : M GoErr (list B * Z) :=
  '(rows, total) <-- m ;; ret (f <$> rows, total).

Definition memberToAPI (m : MemberRow) : UserItem := mkUserItem (mID m) (mUser m) (mRoles m) (Some (mJoinedAt m)).
Definition userToAPI (u : UserRow) : UserItem := mkUserItem (urID u) (urUser u) [] None.

Definition workspaceUserOps_list (ws : Z) (q : Query) : M GoErr (list UserItem * Z) :=
  let q' := dropFilter "available" q in
  if available q then items userToAPI (onErr domainErr (bindingListWorkspaceNonMembers ws q'))
  else items memberToAPI (onErr domainErr (bindingListWorkspaceMembers ws q')).

Definition namespaceUserOps_list (ns : Z) (q : Query) : M GoErr (list UserItem * Z) :=
  let q' := dropFilter "available" q in
  if available q then items userToAPI (onErr domainErr (bindingListNamespaceNonMembers ns q'))
  else items memberToAPI (onErr domainErr (bindingListNamespaceMembers ns q')).

(** [access]: the identifiers of the request's access filter. *)
Definition withAccess (access : option (list Z)) (q : Query) : Query :=
  match access with Some ids => setFilter "accessible_ids" (VInt64s ids) q | None => q end.

Definition workspaceOps_list (access : option (list Z)) (q : Query) := onErr domainErr (workspaceList (withAccess access q)).

Definition namespaceOps_list (level : option Z) (access : option (list Z)) (q : Query) : M GoErr (list NamespaceDetail * Z) :=
  let q := match level with Some ws => setFilter "workspace_id" (VString (FormatInt ws)) q | None => q end in
  onErr domainErr (namespaceList (withAccess access q)).

Definition UserWorkspacesVerb (uid : Z) (q : Query) := bindingListUserWorkspaces uid q.
Definition UserNamespacesVerb (uid : Z) (q : Query) := bindingListUserNamespaces uid q.
Definition UserRoleBindingsVerb (uid : Z) (q : Query) := bindingListByUserID uid q.
Definition WorkspaceUserRoleBindingsVerb (ws uid : Z) (q : Query) :=
  bindingListByUserID uid (setFilter "workspace_id" (VInt64 ws) q).
Definition NamespaceUserRoleBindingsVerb (ns uid : Z) (q : Query) :=
  bindingListByUserID uid (setFilter "namespace_id" (VInt64 ns) q).

(** ** The list requests *)

Inductive Endpoint :=
| EUsers
| EWorkspaces (caller : option Z)              (** the caller, unless a platform administrator *)
| ENamespaces (caller : option Z)
| EWorkspaceNamespaces (ws : Z)
| ERoles
| EWorkspaceRoles (ws : Z)
| ENamespaceRoles (ns : Z)
| EBindings
| EWorkspaceBindings (ws : Z)
| ENamespaceBindings (ns : Z)
| EWorkspaceUsers (ws : Z)
| ENamespaceUsers (ns : Z)
| EUserBindings (u : Z)
| EWorkspaceUserBindings (ws u : Z)
| ENamespaceUserBindings (ns u : Z)
| EUserWorkspaces (u : Z)
| EUserNamespaces (u : Z).

(** The access filter the middleware injects. *)
Definition accessible (get : Z -> M GoErr (list Z)) (caller : option Z) : M GoErr (option (list Z)) :=
  match caller with
  | Some u => ids <-- get u ;; ret (Some ids)
  | None => ret None
  end.

(** The answer, each item by its identifier. *)
Definition serve (e : Endpoint) (q : Query) : M GoErr (list Z * Z) :=
  match e with
  | EUsers => items urID (userOps_list q)
  | EWorkspaces caller =>
      access <-- accessible bindingGetAccessibleWorkspaceIDs caller ;; items wdID (workspaceOps_list access q)
  | ENamespaces caller =>
      access <-- accessible bindingGetAccessibleNamespaceIDs caller ;; items ndID (namespaceOps_list None access q)
  | EWorkspaceNamespaces ws => items ndID (namespaceOps_list (Some ws) None q)
  | ERoles => items rlID (roleOps_list q)
  | EWorkspaceRoles ws => items rlID (scopedRoleOps_list ScopeWorkspace ws 0 q)
  | ENamespaceRoles ns => items rlID (scopedRoleOps_list ScopeNamespace 0 ns q)
  | EBindings => items brID (roleBindingOps_list q)
  | EWorkspaceBindings ws => items brID (workspaceRoleBindingOps_list ws q)
  | ENamespaceBindings ns => items brID (namespaceRoleBindingOps_list ns q)
  | EWorkspaceUsers ws => items uiID (workspaceUserOps_list ws q)
  | ENamespaceUsers ns => items uiID (namespaceUserOps_list ns q)
  | EUserBindings u => items brID (UserRoleBindingsVerb u q)
  | EWorkspaceUserBindings ws u => items brID (WorkspaceUserRoleBindingsVerb ws u q)
  | ENamespaceUserBindings ns u => items brID (NamespaceUserRoleBindingsVerb ns u q)
  | EUserWorkspaces u => items (wdID ∘ tRow) (UserWorkspacesVerb u q)
  | EUserNamespaces u => items (ndID ∘ tRow) (UserNamespacesVerb u q)
  end.

End Lists.

End IamLists.
