(* ===== verification/IamListsExact.v ===== *)
(** * IAM lists are exact

    What the list requests of [IamLists] return: each lists the rows of its
    own tenant and of nothing else whatever filters the caller passes, all
    of them when it passes none, once each, page by page, with a total that
    counts them. *)

From stdpp Require Import sorting.
From S2P Require Import Prelude Rbac ListQuery IamDb IamStore SqlList IamLists.

Module IamListsExact.
Import Rbac ListQ IamDb IamStore SqlList IamLists.

(** ** Exact lists of identifiers *)

Definition exact (l : list Z) (P : Z -> Prop) : Prop := NoDup l /\ forall id, id ∈ l <-> P id.

Lemma exact_mono l P P' : exact l P -> (forall id, P id <-> P' id) -> exact l P'.
Proof. intros [N H] E. split; [done|]. intros id. by rewrite H. Qed.

Lemma exact_length l l' P P' : exact l P -> exact l' P' -> (forall id, P id <-> P' id) -> length l = length l'.
Proof.
  intros [N H] [N' H'] E. apply Permutation_length, NoDup_Permutation; [done..|]. intros id. by rewrite H, H'.
Qed.

Lemma exact_rows {A R} (key : R -> Z) (g : Z * A -> option R) (m : gmap Z A) :
  (forall i x r, g (i, x) = Some r -> key r = i) ->
  exact (key <$> omap g (map_to_list m)) (fun id => exists x, m !! id = Some x /\ is_Some (g (id, x))).
Proof.
  intros K. split.
  - assert (N := NoDup_fst_map_to_list m). revert N. generalize (map_to_list m) as l.
    induction l as [|[i x] l IH]; cbn; [constructor|]. intros [Hi N]%NoDup_cons.
    destruct (g (i, x)) as [r|] eqn:G; cbn; [|by apply IH]. constructor; [|by apply IH]. rewrite (K _ _ _ G).
    intros (r' & -> & ((j & y) & Hj & Gj)%list_elem_of_omap)%list_elem_of_fmap. rewrite (K _ _ _ Gj) in Hi.
    apply Hi, list_elem_of_fmap. by exists (j, y).
  - intros id. rewrite list_elem_of_fmap. split.
    + intros (r & -> & ((i & x) & Hi & G)%list_elem_of_omap). rewrite (K _ _ _ G). exists x.
      split; [by apply elem_of_map_to_list | by rewrite G].
    + intros (x & Hx & [r G]). exists r. split; [by rewrite (K _ _ _ G)|].
      apply list_elem_of_omap. exists (id, x). split; [by apply elem_of_map_to_list | done].
Qed.

Lemma exact_keys {R} (key : R -> Z) (g : Z -> option R) (l : list Z) :
  NoDup l -> (forall i r, g i = Some r -> key r = i) ->
  exact (key <$> omap g l) (fun id => id ∈ l /\ is_Some (g id)).
Proof.
  intros N K. split.
  - induction N as [|i l Hi N IH]; cbn; [constructor|]. destruct (g i) as [r|] eqn:G; cbn; [|done].
    constructor; [|done]. rewrite (K _ _ G).
    intros (r' & -> & (j & Hj & Gj)%list_elem_of_omap)%list_elem_of_fmap. by rewrite (K _ _ Gj) in Hi.
  - intros id. rewrite list_elem_of_fmap. split.
    + intros (r & -> & (i & Hi & G)%list_elem_of_omap). rewrite (K _ _ G). by rewrite G.
    + intros [Hl [r G]]. exists r. split; [by rewrite (K _ _ G)|]. apply list_elem_of_omap. eauto.
Qed.

Lemma exact_countRows {A} (P : Z -> A -> bool) (m : gmap Z A) :
  exact (map_to_list (rowsWhere P m)).*1 (fun id => exists x, m !! id = Some x /\ P id x = true).
Proof.
  split; [apply NoDup_fst_map_to_list|]. intros id. rewrite list_elem_of_fmap. split.
  - intros ((i & x) & -> & H%elem_of_map_to_list%lookup_rowsWhere). eauto.
  - intros (x & H%lookup_rowsWhere). exists (id, x). split; [done | by apply elem_of_map_to_list].
Qed.

Lemma countRows_length {A} (P : Z -> A -> bool) (m : gmap Z A) :
  countRows P m = Z.of_nat (length (map_to_list (rowsWhere P m)).*1).
Proof. unfold countRows. by rewrite length_fmap, length_map_to_list. Qed.

Lemma exact_filter (P : Z -> bool) (l : list Z) :
  NoDup l -> exact (filter (fun id => Is_true (P id)) l) (fun id => id ∈ l /\ P id = true).
Proof.
  intros N. split; [by apply NoDup_filter|]. intros id. rewrite list_elem_of_filter, Is_true_true. tauto.
Qed.

(** ** What a request may list *)

Definition binds (d : DB) (P : Binding -> Prop) : Prop := exists i b, bindings d !! i = Some b /\ P b.

Definition memberOf (d : DB) (base : Binding -> bool) (u : Z) : Prop := binds d (fun b => bUserID b = u /\ base b = true).

(** A user reaches a namespace by a binding in it, or by a binding of its
    workspace whose role grants something. *)
Definition reaches (d : DB) (u n ws : Z) : Prop :=
  binds d (fun b => bUserID b = u /\ (bNamespaceID b = Some n \/
    (bNamespaceID b = None /\ bWorkspaceID b = Some ws /\ exists p, (bRoleID b, p) ∈ rules d))).

(** What the path names: the rows of the tenant or of the user. *)
Definition belongs (e : Endpoint) (d : DB) (id : Z) : Prop :=
  match e with
  | EUsers => is_Some (users d !! id)
  | EWorkspaces caller => is_Some (workspaces d !! id)
      /\ (forall u, caller = Some u -> binds d (fun b => bUserID b = u /\ bWorkspaceID b = Some id))
  | ENamespaces caller => exists n, namespaces d !! id = Some n /\ (forall u, caller = Some u -> reaches d u id (nsWorkspaceID n))
  | EWorkspaceNamespaces ws => exists n, namespaces d !! id = Some n /\ nsWorkspaceID n = ws
  | ERoles => exists r, roles d !! id = Some r /\ rScope r = ScopePlatform
  | EWorkspaceRoles ws => exists r, roles d !! id = Some r /\ rScope r = ScopeWorkspace /\ rWorkspaceID r = Some ws
  | ENamespaceRoles ns => exists r, roles d !! id = Some r /\ rScope r = ScopeNamespace /\ rNamespaceID r = Some ns
  | EBindings => exists b, bindings d !! id = Some b /\ bScope b = ScopePlatform
  | EWorkspaceBindings ws => exists b, bindings d !! id = Some b /\ inWorkspace ws b = true
  | ENamespaceBindings ns => exists b, bindings d !! id = Some b /\ inNamespace ns b = true
  | EWorkspaceUsers ws => is_Some (users d !! id) /\ memberOf d (inWorkspace ws) id
  | ENamespaceUsers ns => is_Some (users d !! id) /\ memberOf d (inNamespace ns) id
  | EUserBindings u => exists b, bindings d !! id = Some b /\ bUserID b = u
  | EWorkspaceUserBindings ws u => exists b, bindings d !! id = Some b /\ bUserID b = u /\ bWorkspaceID b = Some ws
  | ENamespaceUserBindings ns u => exists b, bindings d !! id = Some b /\ bUserID b = u /\ bNamespaceID b = Some ns
  | EUserWorkspaces u => is_Some (workspaces d !! id) /\ memberOf d (inWorkspace id) u
  | EUserNamespaces u => is_Some (namespaces d !! id) /\ memberOf d (inNamespace id) u
  end.

(** With [?available=true] a member list is the users that could be added. *)
Definition toAdd (e : Endpoint) (q : Query) : bool :=
  match e with EWorkspaceUsers _ | ENamespaceUsers _ => available q | _ => false end.

Definition outside (e : Endpoint) (d : DB) (id : Z) : Prop :=
  match e with
  | EWorkspaceUsers ws => is_Some (users d !! id) /\ ~ memberOf d (inWorkspace ws) id
  | ENamespaceUsers ns => is_Some (users d !! id) /\ ~ memberOf d (inNamespace ns) id
  | _ => False
  end.

Definition allowed (e : Endpoint) (q : Query) (d : DB) (id : Z) : Prop :=
  if toAdd e q then outside e d id else belongs e d id.

(** The foreign keys the joins follow. *)
Record Linked (d : DB) : Prop := {
  l_binding : forall i b, bindings d !! i = Some b -> is_Some (users d !! bUserID b) /\ is_Some (roles d !! bRoleID b);
  l_workspace : forall i w, workspaces d !! i = Some w -> is_Some (users d !! wsOwnerID w);
  l_namespace : forall i n, namespaces d !! i = Some n ->
                  is_Some (users d !! nsOwnerID n) /\ is_Some (workspaces d !! nsWorkspaceID n)
}.

Section Exact.
Context (fold : string -> string) (collate : string -> string -> comparison).
Context (createdAt updatedAt : Table -> Z -> Z) (tie : Z -> Z) (agg : list Role -> list Role).

(** ** The rows, count and order behind each request *)

Record View := mkView { vRow : Type; vOrder : Ordering vRow; vRows : DB -> list vRow; vCount : DB -> Z }.
#[local] Arguments mkView {vRow}.

Definition bindingView (list_ : option Z -> option bool -> option string -> DB -> list BindingRow)
    (f : gmap string any) : View :=
  let rows := list_ (FilterInt64 f "role_id") (FilterBool f "is_owner") (FilterStr f "search") in
  mkView (bindingOrder createdAt) rows (count ∘ rows).

Definition userBindingView (u : Z) (f : gmap string any) : View :=
  let rows := ListRoleBindingsByUserID fold u (FilterStr f "scope") (FilterInt64 f "role_id")
                (FilterInt64 f "workspace_id") (FilterInt64 f "namespace_id") (FilterStr f "search") in
  mkView (userBindingOrder createdAt) rows (count ∘ rows).

Definition roleView (f : gmap string any) : View :=
  let scope := FilterStr f "scope" in let builtin := FilterBool f "builtin" in
  let ws := FilterInt64 f "workspace_id" in let ns := FilterInt64 f "namespace_id" in
  let search := FilterStr f "search" in let extra := FilterStrSlice f "extra_names" in
  mkView (roleOrder createdAt) (ListRoles fold scope builtin ws ns search extra) (CountRoles fold scope builtin ws ns search extra).

Definition memberView (isAvailable : bool) (base : Binding -> bool) (f : gmap string any) : View :=
  let status := FilterStr f "status" in let search := FilterStr f "search" in
  if isAvailable then
    mkView (userOrder createdAt updatedAt) (nonMembers fold base status search) (count ∘ nonMembers fold base status search)
  else mkView (memberOrder createdAt updatedAt) (membersJoined fold collate createdAt base status search)
         (membersCount fold base status search).

Definition workspaceView (f : DB -> gmap string any) : View :=
  mkView (workspaceOrder createdAt updatedAt)
    (fun d => ListWorkspaces fold (FilterInt64Slice (f d) "accessible_ids") (FilterStr (f d) "status") (FilterStr (f d) "name")
                (FilterInt64 (f d) "owner_id") (FilterStr (f d) "search") d)
    (fun d => CountWorkspaces fold (FilterInt64Slice (f d) "accessible_ids") (FilterStr (f d) "status") (FilterStr (f d) "name")
                (FilterInt64 (f d) "owner_id") (FilterStr (f d) "search") d).

Definition namespaceView (f : DB -> gmap string any) : View :=
  mkView (namespaceOrder createdAt updatedAt)
    (fun d => ListNamespaces fold (FilterInt64Slice (f d) "accessible_ids") (FilterStr (f d) "status") (FilterStr (f d) "name")
                (FilterStr (f d) "visibility") (FilterInt64 (f d) "owner_id") (FilterInt64 (f d) "workspace_id")
                (FilterStr (f d) "search") d)
    (fun d => CountNamespaces fold (FilterInt64Slice (f d) "accessible_ids") (FilterStr (f d) "status") (FilterStr (f d) "name")
                (FilterStr (f d) "visibility") (FilterInt64 (f d) "owner_id") (FilterInt64 (f d) "workspace_id")
                (FilterStr (f d) "search") d).

Definition workspaceIDs (d : DB) (u : Z) : list Z := distinctIDs (bWorkspaceID <$> bindingsOfUser d u).
Definition namespaceIDs (d : DB) (u : Z) : list Z :=
  distinctIDs ((bNamespaceID <$> bindingsOfUser d u) ++
    ((fun p => Some p.1) <$> map_to_list (rowsWhere (fun _ n => bool_decide (nsWorkspaceID n ∈ ruledWorkspaces d u)) (namespaces d)))).

Definition view (e : Endpoint) (q : Query) : View :=
  let f := Filters q in
  match e with
  | EUsers => mkView (userOrder createdAt updatedAt) (ListUsers fold (FilterStr f "status") (FilterStr f "search"))
                (CountUsers fold (FilterStr f "status") (FilterStr f "search"))
  | EWorkspaces caller => workspaceView (fun d => Filters (withAccess (workspaceIDs d <$> caller) q))
  | ENamespaces caller => namespaceView (fun d => Filters (withAccess (namespaceIDs d <$> caller) q))
  | EWorkspaceNamespaces ws => namespaceView (fun _ => <["workspace_id" := VString (FormatInt ws)]> f)
  | ERoles => roleView (<["scope" := VString ScopePlatform]> f)
  | EWorkspaceRoles ws => roleView (<["workspace_id" := VInt64 ws]> (<["scope" := VString ScopeWorkspace]> f))
  | ENamespaceRoles ns => roleView (<["namespace_id" := VInt64 ns]> (<["scope" := VString ScopeNamespace]> f))
  | EBindings => bindingView (bindingsJoined fold isPlatform) f
  | EWorkspaceBindings ws => bindingView (bindingsJoined fold (inWorkspace ws)) f
  | ENamespaceBindings ns => bindingView (bindingsJoined fold (inNamespace ns)) f
  | EWorkspaceUsers ws => memberView (available q) (inWorkspace ws) (delete "available" f)
  | ENamespaceUsers ns => memberView (available q) (inNamespace ns) (delete "available" f)
  | EUserBindings u => userBindingView u f
  | EWorkspaceUserBindings ws u => userBindingView u (<["workspace_id" := VInt64 ws]> f)
  | ENamespaceUserBindings ns u => userBindingView u (<["namespace_id" := VInt64 ns]> f)
  | EUserWorkspaces u =>
      let status := FilterStr f "status" in let search := FilterStr f "search" in
      mkView (userWorkspaceOrder createdAt updatedAt) (ListUserWorkspaces fold collate createdAt u status search)
        (CountUserWorkspaces fold agg u status search)
  | EUserNamespaces u =>
      let status := FilterStr f "status" in let visibility := FilterStr f "visibility" in
      let ws := FilterInt64 f "workspace_id" in let search := FilterStr f "search" in
      mkView (userNamespaceOrder createdAt updatedAt) (ListUserNamespaces fold collate createdAt u status visibility ws search)
        (CountUserNamespaces fold agg u status visibility ws search)
  end.

(** The identifiers a request lists, in order. *)
Definition viewIDs (v : View) (d : DB) : list Z := rowID (vOrder v) <$> vRows v d.
Definition listed (e : Endpoint) (q : Query) (d : DB) : list Z :=
  let v := view e q in
  rowID (vOrder v) <$> sqlOrder collate (vOrder v) tie (SortBy (qPagination q)) (descending (SortOrder (qPagination q))) (vRows v d).

(** ** Serving a page *)

#[local] Abbreviation serve_ := (serve fold collate createdAt updatedAt tie agg).

Lemma items_runs {A B} (g : A -> B) (m : M GoErr (list A * Z)) s l t s' :
  m s = (Ok (l, t), s') -> items g m s = (Ok (g <$> l, t), s').
Proof. unfold items, bind. by intros ->. Qed.

Lemma accessible_runs (stmt : Z -> Stmt (list Z)) (ids : DB -> Z -> list Z) caller s :
  (forall u, stmt u = query (fun d => Ok (ids d u))) -> healthy s ->
  exists s', accessible (fun u => onErr wrap (Q (stmt u))) caller s = (Ok (ids (sdb s) <$> caller), s') /\ readOnly s s'.
Proof.
  intros Hs H. destruct caller as [u|]; cbn; [|by exists s].
  destruct (Q_runs (fun d => Ok (ids d u)) _ s H eq_refl) as (s' & E & R). unfold bind. rewrite Hs.
  rewrite (onErr_runs _ _ _ _ _ E). by exists s'.
Qed.

Lemma slice_fmap {A} (key : A -> Z) a b (l : list A) : key <$> take a (drop b l) = take a (drop b (key <$> l)).
Proof. by rewrite fmap_take, fmap_drop. Qed.

Definition inRange_ (q : Query) : Prop :=
  let '(offset, limit) := PaginationToOffsetLimit (qPagination q) in 0 <= offset /\ 0 <= limit.

(** The page of a view. *)
Definition pageOf (v : View) (q : Query) (d : DB) : list Z * Z :=
  let '(offset, limit) := PaginationToOffsetLimit (qPagination q) in
  (take (Z.to_nat limit) (drop (Z.to_nat offset) (rowID (vOrder v) <$> sqlOrder collate (vOrder v) tie
     (SortBy (qPagination q)) (descending (SortOrder (qPagination q))) (vRows v d))), vCount v d).

#[local] Abbreviation fetch v q := (storeList collate (vCount v) (vRows v) (vOrder v) tie q).

Lemma fetch_runs v q q' s : qPagination q' = qPagination q -> healthy s -> inRange_ q ->
  exists s', items (rowID (vOrder v)) (fetch v q') s = (Ok (pageOf v q (sdb s)), s') /\ readOnly s s'.
Proof.
  unfold inRange_, pageOf. intros E H R. pose proof (storeList_runs collate (vCount v) (vRows v) (vOrder v) tie q' s) as X.
  rewrite E in X. destruct (PaginationToOffsetLimit (qPagination q)) as [offset limit]. destruct R as [Ro Rl].
  destruct (X H Ro Rl) as (s' & Es & R'). exists s'. split; [|done].
  by rewrite (items_runs _ _ _ _ _ _ Es), slice_fmap.
Qed.

Lemma items_onErr {A B} (g : A -> B) f m s r s' : items g m s = (Ok r, s') -> items g (onErr f m) s = (Ok r, s').
Proof. unfold items, onErr, bind. by destruct (m s) as [[[]|] ?]. Qed.

Lemma items_items {A B C} (g : B -> C) (f : A -> B) m s : items g (items f m) s = items (g ∘ f) m s.
Proof. unfold items, bind, ret. destruct (m s) as [[[]|] ?]; [|done]. by rewrite <- list_fmap_compose. Qed.

(** The same through the handler's error mapping. *)
Lemma handler_runs v q q' s : qPagination q' = qPagination q -> healthy s -> inRange_ q ->
  exists s', items (rowID (vOrder v)) (onErr domainErr (fetch v q')) s = (Ok (pageOf v q (sdb s)), s') /\ readOnly s s'.
Proof.
  intros E H R. destruct (fetch_runs v q q' s E H R) as (s' & Es & R'). exists s'. split; [by apply items_onErr | done].
Qed.

Lemma withAccess_page access q : qPagination (withAccess access q) = qPagination q.
Proof. by destruct access. Qed.

(** A handler behind the middleware's access filter. *)
Lemma access_runs (mk : (DB -> gmap string any) -> View) (key : vRow (mk (fun _ => ∅)) -> Z)
    (h : option (list Z) -> M GoErr (list (vRow (mk (fun _ => ∅))) * Z)) stmt ids caller q s :
  (forall u, stmt u = query (fun d => Ok (ids d u))) ->
  (forall access s1, healthy s1 -> exists s2, items key (h access) s1
     = (Ok (pageOf (mk (fun _ => Filters (withAccess access q))) q (sdb s1)), s2) /\ readOnly s1 s2) ->
  (forall d, pageOf (mk (fun _ => Filters (withAccess (ids d <$> caller) q))) q d
             = pageOf (mk (fun d => Filters (withAccess (ids d <$> caller) q))) q d) ->
  healthy s ->
  exists s', (access <-- accessible (fun u => onErr wrap (Q (stmt u))) caller ;; items key (h access)) s
    = (Ok (pageOf (mk (fun d => Filters (withAccess (ids d <$> caller) q))) q (sdb s)), s') /\ readOnly s s'.
Proof.
  intros Hs Hh Hv H. destruct (accessible_runs stmt ids caller s Hs H) as (s1 & E1 & D1 & H1).
  destruct (Hh (ids (sdb s) <$> caller) s1 H1) as (s2 & E2 & D2 & H2). exists s2. unfold bind at 1. rewrite E1.
  rewrite D1, Hv in E2. split; [done | split; [congruence | done]].
Qed.

Lemma serve_runs e q s : healthy s -> inRange_ q ->
  exists s', serve_ e q s = (Ok (pageOf (view e q) q (sdb s)), s') /\ readOnly s s'.
Proof.
  intros H R. destruct e as [|caller|caller|ws| |ws|ns| |ws|ns|ws|ns|u|ws u|ns u|u|u].
  2: exact (access_runs workspaceView wdID _ GetAccessibleWorkspaceIDs workspaceIDs caller q s (fun _ => eq_refl)
       (fun access s1 H1 => handler_runs (workspaceView (fun _ => Filters (withAccess access q))) q (withAccess access q) s1
                              (withAccess_page access q) H1 R) (fun _ => eq_refl) H).
  2: exact (access_runs namespaceView ndID _ GetAccessibleNamespaceIDs namespaceIDs caller q s (fun _ => eq_refl)
       (fun access s1 H1 => handler_runs (namespaceView (fun _ => Filters (withAccess access q))) q (withAccess access q) s1
                              (withAccess_page access q) H1 R) (fun _ => eq_refl) H).
  9: cbn [serve view]; unfold workspaceUserOps_list, memberView; destruct (available q); rewrite items_items.
  11: cbn [serve view]; unfold namespaceUserOps_list, memberView; destruct (available q); rewrite items_items.
  1: exact (handler_runs (view EUsers q) q q s eq_refl H R).
  1: exact (handler_runs (view (EWorkspaceNamespaces ws) q) q (setFilter "workspace_id" (VString (FormatInt ws)) q) s eq_refl H R).
  1: exact (handler_runs (view ERoles q) q (setFilter "scope" (VString ScopePlatform) q) s eq_refl H R).
  1: exact (handler_runs (view (EWorkspaceRoles ws) q) q
              (setFilter "workspace_id" (VInt64 ws) (setFilter "scope" (VString ScopeWorkspace) q)) s eq_refl H R).
  1: exact (handler_runs (view (ENamespaceRoles ns) q) q
              (setFilter "namespace_id" (VInt64 ns) (setFilter "scope" (VString ScopeNamespace) q)) s eq_refl H R).
  1: exact (handler_runs (view EBindings q) q q s eq_refl H R).
  1: exact (handler_runs (view (EWorkspaceBindings ws) q) q q s eq_refl H R).
  1: exact (handler_runs (view (ENamespaceBindings ns) q) q q s eq_refl H R).
  1: exact (handler_runs (memberView true (inWorkspace ws) (delete "available" (Filters q))) q (dropFilter "available" q) s eq_refl H R).
  1: exact (handler_runs (memberView false (inWorkspace ws) (delete "available" (Filters q))) q (dropFilter "available" q) s eq_refl H R).
  1: exact (handler_runs (memberView true (inNamespace ns) (delete "available" (Filters q))) q (dropFilter "available" q) s eq_refl H R).
  1: exact (handler_runs (memberView false (inNamespace ns) (delete "available" (Filters q))) q (dropFilter "available" q) s eq_refl H R).
  1: exact (fetch_runs (view (EUserBindings u) q) q q s eq_refl H R).
  1: exact (fetch_runs (view (EWorkspaceUserBindings ws u) q) q (setFilter "workspace_id" (VInt64 ws) q) s eq_refl H R).
  1: exact (fetch_runs (view (ENamespaceUserBindings ns u) q) q (setFilter "namespace_id" (VInt64 ns) q) s eq_refl H R).
  1: exact (fetch_runs (view (EUserWorkspaces u) q) q q s eq_refl H R).
  exact (fetch_runs (view (EUserNamespaces u) q) q q s eq_refl H R).
Qed.

(** ** The rows of each view *)

Lemma is_Some_join {A B} (o : option A) (k : A -> option B) : is_Some (o ≫= k) <-> exists x, o = Some x /\ is_Some (k x).
Proof. destruct o; cbn; [|by split; [intros [? ?] | intros (? & ? & ?)]]. split; [eauto | by intros (? & [= <-] & ?)]. Qed.

Lemma is_Some_where {A} (c : bool) (x : A) : is_Some (if c then Some x else None) <-> c = true.
Proof. destruct c; [by split | split; [by intros [? ?] | done]]. Qed.

(** The key of a joined row. *)
Ltac row_key :=
  intros *; cbn -[andb opt found]; rewrite ?bind_Some;
  repeat match goal with |- context [if ?c then _ else _] => destruct c end;
  intros; destruct_and?; repeat (match goal with
    | H : _ ≫= _ = Some _ |- _ => apply bind_Some in H as (? & ? & H)
    | H : (if ?c then Some _ else None) = Some _ |- _ => destruct c; [|discriminate H]
    | H : Some _ = Some _ |- _ => injection H as <-
    | H : exists _, _ |- _ => destruct H as [? H]
    | H : _ /\ _ |- _ => destruct H end); first [done | simplify_eq].

(** What the rows of a view are: the rows of the table that join. *)
Ltac rows_exact :=
  unfold viewIDs; cbn [vOrder vRows rowID];
  eapply exact_mono; [first [apply exact_rows; row_key | apply exact_keys; [apply NoDup_elements | row_key]]|];
  intros id; cbn -[andb opt found is_Some]; repeat (setoid_rewrite is_Some_join || setoid_rewrite is_Some_where).

Lemma bindingView_exact base f d :
  exact (viewIDs (bindingView (bindingsJoined fold base) f) d)
    (fun id => exists b, bindings d !! id = Some b /\ exists u, users d !! bUserID b = Some u /\ exists r, roles d !! bRoleID b = Some r
       /\ base b && opt (FilterInt64 f "role_id") (fun x => bRoleID b =? x)
          && opt (FilterBool f "is_owner") (fun x => Bool.eqb (bIsOwner b) x)
          && found fold (FilterStr f "search") [uUsername u; uDisplayName u; rName r; rDisplayName r] = true).
Proof. unfold bindingView, bindingsJoined. rows_exact. done. Qed.

Lemma userBindingView_exact u f d :
  exact (viewIDs (userBindingView u f) d)
    (fun id => exists b, bindings d !! id = Some b /\ exists r, roles d !! bRoleID b = Some r
       /\ (bUserID b =? u) && opt (FilterStr f "scope") (fun x => bScope b =s x) && opt (FilterInt64 f "role_id") (fun x => bRoleID b =? x)
          && opt (FilterInt64 f "workspace_id") (colEq (bWorkspaceID b)) && opt (FilterInt64 f "namespace_id") (colEq (bNamespaceID b))
          && found fold (FilterStr f "search") [rName r; rDisplayName r] = true).
Proof. unfold userBindingView, ListRoleBindingsByUserID. rows_exact. done. Qed.

Lemma roleView_exact f d :
  exact (viewIDs (roleView f) d)
    (fun id => exists r, roles d !! id = Some r
       /\ roleMatches fold (FilterStr f "scope") (FilterBool f "builtin") (FilterInt64 f "workspace_id") (FilterInt64 f "namespace_id")
            (FilterStr f "search") (FilterStrSlice f "extra_names") r = true).
Proof. unfold roleView, ListRoles. rows_exact. done. Qed.

Lemma userView_exact f d status search :
  exact (viewIDs (mkView (userOrder createdAt updatedAt) (ListUsers fold status search) f) d)
    (fun id => exists u, users d !! id = Some u /\ userMatches fold status search u = true).
Proof. unfold ListUsers. rows_exact. done. Qed.

Lemma elem_distinctUsers d base u : u ∈ distinctUsers (bindingsOf d base) <-> memberOf d base u.
Proof.
  unfold distinctUsers, memberOf, binds. rewrite elem_of_list_to_set, list_elem_of_fmap. split.
  - intros ((i & b) & -> & [Hb Hp]%elem_of_map_to_list%lookup_rowsWhere). eauto.
  - intros (i & b & Hb & <- & Hp). exists (i, b). split; [done|]. by apply elem_of_map_to_list, lookup_rowsWhere.
Qed.

Lemma nonMembers_exact base f d :
  exact (viewIDs (memberView true base f) d)
    (fun id => exists u, users d !! id = Some u /\ ~ memberOf d base id
       /\ userMatches fold (FilterStr f "status") (FilterStr f "search") u = true).
Proof.
  unfold memberView, nonMembers. rows_exact. pose proof (elem_distinctUsers d base id) as M. split.
  - intros (u & Hu & [N%bool_decide_eq_true C]%andb_true_iff). exists u. split_and!; [done | | done]. intros X. by apply N, M.
  - intros (u & Hu & N & C). exists u. split; [done|]. rewrite C, andb_true_r. apply bool_decide_eq_true. by rewrite M.
Qed.

(** A member through a binding whose role exists. *)
Definition roleBinding (d : DB) (base : Binding -> bool) (b : Binding) : bool :=
  base b && bool_decide (is_Some (roles d !! bRoleID b)).

Lemma members_exact base f d :
  exact (viewIDs (memberView false base f) d)
    (fun id => memberOf d (roleBinding d base) id /\ exists u, users d !! id = Some u
       /\ userMatches fold (FilterStr f "status") (FilterStr f "search") u = true).
Proof.
  unfold memberView, membersJoined. rows_exact. unfold memberIDs. rewrite elem_of_elements.
  by rewrite (elem_distinctUsers d (roleBinding d base)).
Qed.

Lemma workspaceView_exact f d :
  exact (viewIDs (workspaceView f) d)
    (fun id => exists w, workspaces d !! id = Some w /\ exists u, users d !! wsOwnerID w = Some u
       /\ opt (FilterInt64Slice (f d) "accessible_ids") (fun ids => anyID ids id)
          && workspaceMatches fold (FilterStr (f d) "status") (FilterStr (f d) "name") (FilterInt64 (f d) "owner_id")
               (FilterStr (f d) "search") w = true).
Proof. unfold workspaceView, ListWorkspaces. rows_exact. done. Qed.

Lemma namespaceView_exact f d :
  exact (viewIDs (namespaceView f) d)
    (fun id => exists n, namespaces d !! id = Some n /\ exists u, users d !! nsOwnerID n = Some u
       /\ exists w, workspaces d !! nsWorkspaceID n = Some w
       /\ opt (FilterInt64Slice (f d) "accessible_ids") (fun ids => anyID ids id)
          && namespaceMatches fold (FilterStr (f d) "status") (FilterStr (f d) "name") (FilterStr (f d) "visibility")
               (FilterInt64 (f d) "owner_id") (FilterInt64 (f d) "workspace_id") (FilterStr (f d) "search") n = true).
Proof. unfold namespaceView, ListNamespaces. rows_exact. done. Qed.

Lemma elem_tenantIDs g scope u d id :
  id ∈ tenantIDs g scope u d <-> memberOf d (roleBinding d (fun b => (bScope b =s scope) && bool_decide (g b = Some id))) u.
Proof.
  unfold tenantIDs, memberOf, binds, roleBinding. rewrite elem_of_elements, elem_of_list_to_set, list_elem_of_omap. split.
  - intros (b & ((i & b') & -> & Hb%elem_of_map_to_list)%list_elem_of_fmap & E). cbn in E. exists i, b'. split; [done|].
    destruct (Z.eqb_spec (bUserID b') u) as [<-|]; cbn in E; [|done]. split; [done|].
    destruct (bScope b' =s scope); cbn in *; [|done]. destruct (bool_decide (is_Some _)); [|done]. by rewrite E, bool_decide_eq_true_2.
  - intros (i & b & Hb & <- & E). exists b. split.
    + apply list_elem_of_fmap. exists (i, b). split; [done | by apply elem_of_map_to_list].
    + rewrite Z.eqb_refl. cbn. rewrite !andb_true_iff, !bool_decide_eq_true in E. destruct E as [[-> E] R].
      cbn. rewrite bool_decide_eq_true_2 by done. done.
Qed.

Lemma userWorkspaces_exact u f d status search :
  exact (viewIDs (mkView (userWorkspaceOrder createdAt updatedAt) (ListUserWorkspaces fold collate createdAt u status search) f) d)
    (fun id => id ∈ tenantIDs bWorkspaceID ScopeWorkspace u d /\ exists w, workspaces d !! id = Some w
       /\ exists o, users d !! wsOwnerID w = Some o
       /\ anyOf status (wsStatus w) && tenantFound fold search [wsName w; wsDisplayName w]
            (heldRoles collate (ofUser u (inWorkspace id)) d) = true).
Proof. unfold ListUserWorkspaces. rows_exact. done. Qed.

Lemma userNamespaces_exact u f d status visibility ws search :
  exact (viewIDs (mkView (userNamespaceOrder createdAt updatedAt)
                    (ListUserNamespaces fold collate createdAt u status visibility ws search) f) d)
    (fun id => id ∈ tenantIDs bNamespaceID ScopeNamespace u d /\ exists n, namespaces d !! id = Some n
       /\ exists o, users d !! nsOwnerID n = Some o /\ exists w, workspaces d !! nsWorkspaceID n = Some w
       /\ anyOf status (nsStatus n) && opt visibility (fun v => nsVisibility n =s v) && opt ws (fun x => nsWorkspaceID n =? x)
          && tenantFound fold search [nsName n; nsDisplayName n] (heldRoles collate (ofUser u (inNamespace id)) d) = true).
Proof. unfold ListUserNamespaces. rows_exact. done. Qed.

(** ** The totals *)

Lemma length_viewIDs v d : length (viewIDs v d) = length (vRows v d).
Proof. unfold viewIDs. apply length_fmap. Qed.

Definition counts (v : View) (d : DB) : Prop := vCount v d = Z.of_nat (length (viewIDs v d)).

Lemma counts_rows v d : vCount v d = count (vRows v d) -> counts v d.
Proof. unfold counts. rewrite length_viewIDs. done. Qed.

(** A count over a table agrees with the list's rows. *)
Lemma counts_table {A} v d (m : gmap Z A) (P : Z -> A -> bool) C :
  vCount v d = countRows P m -> exact (viewIDs v d) C ->
  (forall id, C id <-> exists x, m !! id = Some x /\ P id x = true) -> counts v d.
Proof.
  intros E X H. unfold counts. rewrite E, countRows_length. f_equal. symmetry.
  apply (exact_length _ _ _ _ X (exact_countRows P m) H).
Qed.

Lemma counts_keys v d (l : list Z) (P : Z -> bool) C :
  vCount v d = count (filter (fun id => Is_true (P id)) l) -> NoDup l -> exact (viewIDs v d) C ->
  (forall id, C id <-> id ∈ l /\ P id = true) -> counts v d.
Proof.
  intros E N X H. unfold counts. rewrite E. unfold count. f_equal. symmetry.
  apply (exact_length _ _ _ _ X (exact_filter P l N) H).
Qed.

Lemma roleView_counts f d : counts (roleView f) d.
Proof. eapply counts_table; [reflexivity | apply roleView_exact | done]. Qed.

Lemma workspaceView_counts f d : Linked d -> counts (workspaceView f) d.
Proof.
  intros L. eapply counts_table; [reflexivity | apply workspaceView_exact |]. intros id. split.
  - intros (w & Hw & u & Hu & C). eauto.
  - intros (w & Hw & C). destruct (l_workspace d L id w Hw) as [u Hu]. eauto 10.
Qed.

Lemma namespaceView_counts f d : Linked d -> counts (namespaceView f) d.
Proof.
  intros L. eapply counts_table; [reflexivity | apply namespaceView_exact |]. intros id. split.
  - intros (n & Hn & u & Hu & w & Hw & C). eauto.
  - intros (n & Hn & C). destruct (l_namespace d L id n Hn) as [[u Hu] [w Hw]]. eauto 10.
Qed.

Lemma memberOf_role d base u : Linked d -> memberOf d (roleBinding d base) u <-> memberOf d base u.
Proof.
  intros L. unfold memberOf, binds, roleBinding. split; intros (i & b & Hb & <- & H); exists i, b; (split; [done|]); (split; [done|]).
  - by apply andb_true_iff in H as [H _].
  - rewrite H. apply bool_decide_eq_true. by apply (l_binding d L i b Hb).
Qed.

Lemma memberView_counts isAvailable base f d : Linked d -> counts (memberView isAvailable base f) d.
Proof.
  intros L. destruct isAvailable; [by apply counts_rows|].
  eapply (counts_keys _ _ (elements (distinctUsers (bindingsOf d base)))
    (fun id => match users d !! id with Some u => userMatches fold (FilterStr f "status") (FilterStr f "search") u | None => false end));
    [reflexivity | apply NoDup_elements | apply members_exact |].
  intros id. rewrite elem_of_elements, elem_distinctUsers, memberOf_role by done.
  split; intros [M H]; (split; [done|]); [by destruct H as (u & -> & C)|].
  destruct (users d !! id) as [u|]; [by exists u | done].
Qed.

Lemma tenantFound_None texts held : tenantFound fold None texts held = true.
Proof. done. Qed.

Lemma userWorkspaces_counts u status d : Linked d ->
  counts (mkView (userWorkspaceOrder createdAt updatedAt) (ListUserWorkspaces fold collate createdAt u status None)
            (CountUserWorkspaces fold agg u status None)) d.
Proof.
  intros L. eapply (counts_keys _ _ (tenantIDs bWorkspaceID ScopeWorkspace u d)
    (fun id => match workspaces d !! id with Some w => anyOf status (wsStatus w) && tenantFound fold None _ _ | None => false end));
    [reflexivity | apply NoDup_elements | apply userWorkspaces_exact |].
  intros id. split; intros [M H]; (split; [done|]).
  - by destruct H as (w & -> & o & Ho & C).
  - destruct (workspaces d !! id) as [w|] eqn:Hw; [|done]. destruct (l_workspace d L id w Hw) as [o Ho]. eauto.
Qed.

Lemma userNamespaces_counts u status visibility ws d : Linked d ->
  counts (mkView (userNamespaceOrder createdAt updatedAt) (ListUserNamespaces fold collate createdAt u status visibility ws None)
            (CountUserNamespaces fold agg u status visibility ws None)) d.
Proof.
  intros L. eapply (counts_keys _ _ (tenantIDs bNamespaceID ScopeNamespace u d)
    (fun id => match namespaces d !! id with
               | Some n => anyOf status (nsStatus n) && opt visibility (fun v => nsVisibility n =s v)
                           && opt ws (fun x => nsWorkspaceID n =? x) && tenantFound fold None _ _
               | None => false end));
    [reflexivity | apply NoDup_elements | apply userNamespaces_exact |].
  intros id. split; intros [M H]; (split; [done|]).
  - by destruct H as (n & -> & o & Ho & w & Hw & C).
  - destruct (namespaces d !! id) as [n|] eqn:Hn; [|done]. destruct (l_namespace d L id n Hn) as [[o Ho] [w Hw]]. eauto 10.
Qed.

(** ** The access filter *)

Lemma elem_distinctIDs l id : id ∈ distinctIDs l <-> Some id ∈ l.
Proof.
  unfold distinctIDs. rewrite elem_of_elements, elem_of_list_to_set, list_elem_of_omap. split.
  - intros (x & Hx & E). cbn in E. by rewrite E in Hx.
  - intros H. by exists (Some id).
Qed.

Lemma elem_bindingsOfUser d u b : b ∈ bindingsOfUser d u <-> exists i, bindings d !! i = Some b /\ bUserID b = u.
Proof.
  unfold bindingsOfUser. rewrite list_elem_of_fmap. split.
  - intros ((i & b') & -> & [Hb E%Z.eqb_eq]%elem_of_map_to_list%lookup_rowsWhere). eauto.
  - intros (i & Hb & <-). exists (i, b). split; [done|]. apply elem_of_map_to_list, lookup_rowsWhere. by rewrite Z.eqb_refl.
Qed.

Lemma elem_workspaceIDs d u id : id ∈ workspaceIDs d u <-> binds d (fun b => bUserID b = u /\ bWorkspaceID b = Some id).
Proof.
  unfold workspaceIDs, binds. rewrite elem_distinctIDs, list_elem_of_fmap. split.
  - intros (b & E & (i & Hb & Hu)%elem_bindingsOfUser). eauto.
  - intros (i & b & Hb & Hu & E). exists b. split; [done|]. apply elem_bindingsOfUser. eauto.
Qed.

Lemma rulesOf_nonempty d r : rulesOf d r <> [] <-> exists p, (r, p) ∈ rules d.
Proof.
  assert (H : forall p, p ∈ rulesOf d r <-> (r, p) ∈ rules d).
  { intros p. unfold rulesOf. rewrite list_elem_of_fmap. split.
    - intros ((x & p') & -> & [E Hp]%elem_of_elements%elem_of_filter). cbn in E. by subst.
    - intros Hp. exists (r, p). split; [done|]. by apply elem_of_elements, elem_of_filter. }
  split.
  - destruct (rulesOf d r) as [|p l] eqn:E; [done|]. intros _. exists p. apply H. rewrite ?E. left.
  - intros (p & Hp%H) E. rewrite E in Hp. by apply elem_of_nil in Hp.
Qed.

Lemma elem_ruledWorkspaces d u ws :
  ws ∈ ruledWorkspaces d u <->
  binds d (fun b => bUserID b = u /\ bNamespaceID b = None /\ bWorkspaceID b = Some ws /\ exists p, (bRoleID b, p) ∈ rules d).
Proof.
  unfold ruledWorkspaces, binds. rewrite elem_of_list_to_set, list_elem_of_omap. split.
  - intros (b & (i & Hb & Hu)%elem_bindingsOfUser & E). destruct (isNull _) eqn:N; [|done]. apply isNull_spec in N.
    destruct (negb _) eqn:R; cbn in E; [|done]. apply negb_true_iff, bool_decide_eq_false, rulesOf_nonempty in R. eauto 10.
  - intros (i & b & Hb & Hu & N & E & R%rulesOf_nonempty). exists b. split; [apply elem_bindingsOfUser; eauto|].
    by rewrite N, (bool_decide_eq_false_2 _ R).
Qed.

Lemma elem_namespaceIDs d u id n :
  namespaces d !! id = Some n -> id ∈ namespaceIDs d u <-> reaches d u id (nsWorkspaceID n).
Proof.
  intros Hn. unfold namespaceIDs, reaches, binds. rewrite elem_distinctIDs, elem_of_app, !list_elem_of_fmap. split.
  - intros [(b & E & (i & Hb & Hu)%elem_bindingsOfUser)|((id' & n') & [= <-] & [Hn' R]%elem_of_map_to_list%lookup_rowsWhere)].
    + exists i, b. eauto.
    + cbn in Hn'. rewrite Hn in Hn'. injection Hn' as <-. apply bool_decide_eq_true, elem_ruledWorkspaces in R.
      destruct R as (i & b & Hb & Hu & R). exists i, b. eauto.
  - intros (i & b & Hb & Hu & [E|R]).
    + left. exists b. split; [done|]. apply elem_bindingsOfUser. eauto.
    + right. exists (id, n). split; [done|]. apply elem_of_map_to_list, lookup_rowsWhere. split; [done|].
      apply bool_decide_eq_true, elem_ruledWorkspaces. exists i, b. eauto.
Qed.

(** ** Soundness and completeness of each view *)

(** The filter value of a literal key in a map with keys set. *)
Ltac filter_val :=
  unfold FilterStr, FilterInt64, FilterBool, FilterStrSlice, FilterInt64Slice;
  repeat match goal with
    | |- context [<[?k := _]> _ !! ?k] => rewrite lookup_insert_eq
    | |- context [<[?k := _]> _ !! ?k'] => rewrite (lookup_insert_ne _ k k') by done
    | |- context [delete ?k _ !! ?k'] => rewrite (lookup_delete_ne _ k k') by done
    end.

Lemma anyOf_one s c : Split s "," = [s] -> anyOf (Some s) c = true <-> c = s.
Proof.
  intros E. cbn. rewrite E. cbn. rewrite orb_false_r. apply String.eqb_eq.
Qed.

Lemma FilterInt64_level ws f : in_int64 ws ->
  FilterInt64 (<["workspace_id" := VString (FormatInt ws)]> f) "workspace_id" = Some ws.
Proof. intros H. filter_val. by apply ParseInt_FormatInt. Qed.

Lemma access_lookup access q : FilterInt64Slice (Filters (withAccess access q)) "accessible_ids" =
  match access with Some ids => Some ids | None => FilterInt64Slice (Filters q) "accessible_ids" end.
Proof. destruct access; [|done]. cbn. by filter_val. Qed.

(** A role list forced to a scope. *)
Lemma roleScope f s r builtin ws ns search extra :
  Split s "," = [s] -> FilterStr f "scope" = Some s ->
  roleMatches fold (FilterStr f "scope") builtin ws ns search extra r = true ->
  rScope r = s /\ (forall w, ws = Some w -> rWorkspaceID r = Some w) /\ (forall n, ns = Some n -> rNamespaceID r = Some n).
Proof.
  intros Hs -> H. unfold roleMatches in H. rewrite !andb_true_iff in H. destruct H as ((((Hsc & _) & Hw) & Hn) & _).
  apply anyOf_one in Hsc; [|done]. split_and!; [done|..]; intros x ->; by apply colEq_spec.
Qed.

Lemma view_roles_sound e q d id : id ∈ viewIDs (view e q) d ->
  match e with ERoles | EWorkspaceRoles _ | ENamespaceRoles _ => allowed e q d id | _ => True end.
Proof.
  destruct e; try done; unfold allowed; cbn [view toAdd belongs outside]; intros (r & Hr & H)%roleView_exact; exists r; (split; [done|]).
  - by apply (roleScope _ ScopePlatform) in H as (Hs & _); [|done|filter_val].
  - apply (roleScope _ ScopeWorkspace) in H as (Hs & Hw & _); [|done|by filter_val]. split; [exact Hs|]. apply Hw. by filter_val.
  - apply (roleScope _ ScopeNamespace) in H as (Hs & _ & Hn); [|done|by filter_val]. split; [exact Hs|]. apply Hn. by filter_val.
Qed.

Lemma tenant_member d g scope base id u :
  (forall b, base b = (bScope b =s scope) && colEq (g b) id) ->
  id ∈ tenantIDs g scope u d <-> memberOf d (roleBinding d base) u.
Proof.
  intros E. rewrite elem_tenantIDs. unfold memberOf, binds, roleBinding.
  assert (X : forall b, bool_decide (g b = Some id) = colEq (g b) id).
  { intros b. apply eq_bool_prop_intro. rewrite !Is_true_true, bool_decide_eq_true. by rewrite colEq_spec. }
  split; intros (i & b & Hb & Hu & H); exists i, b; (split; [done|]); (split; [done|]); by rewrite E, X in * || rewrite E, <- X in *.
Qed.

Lemma roleBinding_weaken d base u : memberOf d (roleBinding d base) u -> memberOf d base u.
Proof. intros (i & b & Hb & Hu & [H _]%andb_true_iff). by exists i, b. Qed.

Definition in64 (e : Endpoint) : Prop := match e with EWorkspaceNamespaces ws => in_int64 ws | _ => True end.

Lemma view_tenants_sound e q d id : in64 e -> id ∈ viewIDs (view e q) d ->
  match e with EWorkspaces _ | ENamespaces _ | EWorkspaceNamespaces _ | EUserWorkspaces _ | EUserNamespaces _ => allowed e q d id
  | _ => True end.
Proof.
  intros R. destruct e as [|caller|caller|ws| |ws|ns| |ws|ns|ws|ns|u|ws u|ns u|u|u]; try done; unfold allowed; cbn [view toAdd belongs outside].
  - intros (w & Hw & u & _ & [A _]%andb_true_iff)%workspaceView_exact. split; [by eexists|]. intros u' ->.
    rewrite access_lookup in A. cbn in A. by apply anyID_spec, elem_workspaceIDs in A.
  - intros (n & Hn & u & _ & w & _ & [A _]%andb_true_iff)%namespaceView_exact. exists n. split; [done|]. intros u' ->.
    rewrite access_lookup in A. cbn in A. by apply anyID_spec, (elem_namespaceIDs _ _ _ n Hn) in A.
  - intros (n & Hn & u & _ & w & _ & [_ M]%andb_true_iff)%namespaceView_exact. exists n. split; [done|].
    unfold namespaceMatches in M. rewrite !andb_true_iff in M. destruct M as ((_ & M) & _).
    rewrite FilterInt64_level in M by done. by apply Z.eqb_eq in M.
  - intros (M & w & Hw & _)%userWorkspaces_exact. split; [by eexists|].
    apply roleBinding_weaken. by rewrite <- (tenant_member d bWorkspaceID ScopeWorkspace (inWorkspace id) id).
  - intros (M & n & Hn & _)%userNamespaces_exact. split; [by eexists|].
    apply roleBinding_weaken. by rewrite <- (tenant_member d bNamespaceID ScopeNamespace (inNamespace id) id).
Qed.

Lemma view_bindings_sound e q d id : id ∈ viewIDs (view e q) d ->
  match e with EBindings | EWorkspaceBindings _ | ENamespaceBindings _ | EUserBindings _ | EWorkspaceUserBindings _ _
  | ENamespaceUserBindings _ _ => allowed e q d id | _ => True end.
Proof.
  destruct e; try done; unfold allowed; cbn [view toAdd belongs outside].
  1-3: intros (b & Hb & u & _ & r & _ & H)%bindingView_exact; exists b; (split; [done|]); rewrite !andb_true_iff in H;
       destruct_and!; try done; by apply String.eqb_eq.
  all: intros (b & Hb & r & _ & H)%userBindingView_exact; exists b; (split; [done|]); rewrite !andb_true_iff in H;
       destruct H as (((((Hu%Z.eqb_eq & _) & _) & Hw) & Hn) & _); first [done | split; [done|]].
  - revert Hw. filter_val. apply colEq_spec.
  - revert Hn. filter_val. apply colEq_spec.
Qed.

Lemma view_users_sound e q d id : id ∈ viewIDs (view e q) d ->
  match e with EUsers | EWorkspaceUsers _ | ENamespaceUsers _ => allowed e q d id | _ => True end.
Proof.
  destruct e; try done; unfold allowed; cbn [view toAdd belongs outside].
  - intros (u & Hu & _)%userView_exact. by eexists.
  - destruct (available q); [intros (u & Hu & N & _)%nonMembers_exact; split; [by eexists | done]|].
    intros (M & u & Hu & _)%members_exact. split; [by eexists | by apply roleBinding_weaken in M].
  - destruct (available q); [intros (u & Hu & N & _)%nonMembers_exact; split; [by eexists | done]|].
    intros (M & u & Hu & _)%members_exact. split; [by eexists | by apply roleBinding_weaken in M].
Qed.

Lemma view_sound e q d id : in64 e -> id ∈ viewIDs (view e q) d -> allowed e q d id.
Proof.
  intros R H. pose proof (view_roles_sound e q d id H). pose proof (view_tenants_sound e q d id R H).
  pose proof (view_bindings_sound e q d id H). pose proof (view_users_sound e q d id H). by destruct e.
Qed.

(** No filter but the member switch. *)
Definition unfiltered (q : Query) : Prop := forall k, k <> "available" -> Filters q !! k = None.

Lemma unfiltered_get q : unfiltered q ->
  (forall k, k <> "available" -> FilterStr (Filters q) k = None /\ FilterInt64 (Filters q) k = None
     /\ FilterBool (Filters q) k = None /\ FilterStrSlice (Filters q) k = None /\ FilterInt64Slice (Filters q) k = None).
Proof. intros U k Hk. filter_val. by rewrite (U k Hk). Qed.

(** Evaluate the filters of an unfiltered query. *)
Ltac no_filters U :=
  filter_val; rewrite ?U by done; cbn [opt anyOf andb]; unfold found; cbn [opt].

Lemma view_bindings_complete e q d id : unfiltered q -> Linked d -> allowed e q d id ->
  match e with EBindings | EWorkspaceBindings _ | ENamespaceBindings _ | EUserBindings _ | EWorkspaceUserBindings _ _
  | ENamespaceUserBindings _ _ => id ∈ viewIDs (view e q) d | _ => True end.
Proof.
  intros U L. destruct e; try done; unfold allowed; cbn [view toAdd belongs outside]; intros (b & Hb & A); destruct (l_binding d L id b Hb) as [[us Hu] [r Hr]].
  1-3: apply bindingView_exact; exists b; (split; [done|]); exists us; (split; [done|]); exists r; (split; [done|]);
       no_filters U; rewrite !andb_true_r; first [done | by apply String.eqb_eq].
  all: apply userBindingView_exact; exists b; (split; [done|]); exists r; (split; [done|]); no_filters U; rewrite ?andb_true_r.
  - by apply Z.eqb_eq.
  - destruct A as [-> ->]. by rewrite Z.eqb_refl, (proj2 (colEq_spec _ _) eq_refl).
  - destruct A as [-> ->]. by rewrite Z.eqb_refl, (proj2 (colEq_spec _ _) eq_refl).
Qed.

Lemma view_tenants_complete e q d id : in64 e -> unfiltered q -> Linked d -> allowed e q d id ->
  match e with EWorkspaces _ | ENamespaces _ | EWorkspaceNamespaces _ | EUserWorkspaces _ | EUserNamespaces _ => id ∈ viewIDs (view e q) d
  | _ => True end.
Proof.
  intros R U L. destruct e as [|caller|caller|ws| |ws|ns| |ws|ns|ws|ns|u|ws u|ns u|u|u]; try done; unfold allowed; cbn [view toAdd belongs outside].
  - intros [[w Hw] A]. apply workspaceView_exact. exists w. split; [done|].
    destruct (l_workspace d L id w Hw) as [o Ho]. exists o. split; [done|]. rewrite access_lookup.
    destruct caller as [u|]; cbn [fmap option_fmap option_map withAccess setFilter Filters]; unfold workspaceMatches; no_filters U;
      [|done]. rewrite andb_true_r. by apply anyID_spec, elem_workspaceIDs, A.
  - intros (n & Hn & A). apply namespaceView_exact. exists n. split; [done|].
    destruct (l_namespace d L id n Hn) as [[o Ho] [w Hw]]. exists o. split; [done|]. exists w. split; [done|]. rewrite access_lookup.
    destruct caller as [u|]; cbn [fmap option_fmap option_map withAccess setFilter Filters]; unfold namespaceMatches; no_filters U;
      [|done]. rewrite !andb_true_r. by apply anyID_spec, (elem_namespaceIDs _ _ _ n Hn), A.
  - intros (n & Hn & A). apply namespaceView_exact. exists n. split; [done|].
    destruct (l_namespace d L id n Hn) as [[o Ho] [w Hw]]. exists o. split; [done|]. exists w. split; [done|].
    unfold namespaceMatches. rewrite FilterInt64_level by done. no_filters U. by rewrite A, Z.eqb_refl.
  - intros [[w Hw] M]. apply userWorkspaces_exact. split.
    + by rewrite (tenant_member d bWorkspaceID ScopeWorkspace (inWorkspace id)), memberOf_role.
    + exists w. split; [done|]. destruct (l_workspace d L id w Hw) as [o Ho]. exists o. split; [done|]. by no_filters U.
  - intros [[n Hn] M]. apply userNamespaces_exact. split.
    + by rewrite (tenant_member d bNamespaceID ScopeNamespace (inNamespace id)), memberOf_role.
    + exists n. split; [done|]. destruct (l_namespace d L id n Hn) as [[o Ho] [w Hw]].
      exists o. split; [done|]. exists w. split; [done|]. by no_filters U.
Qed.

Lemma view_users_complete e q d id : unfiltered q -> Linked d -> allowed e q d id ->
  match e with EUsers | EWorkspaceUsers _ | ENamespaceUsers _ | ERoles | EWorkspaceRoles _ | ENamespaceRoles _ =>
    id ∈ viewIDs (view e q) d | _ => True end.
Proof.
  intros U L. destruct e; try done; unfold allowed; cbn [view toAdd belongs outside].
  - intros [u Hu]. apply userView_exact. exists u. split; [done|]. unfold userMatches. by no_filters U.
  - intros (r & Hr & A). apply roleView_exact. exists r. split; [done|]. unfold roleMatches. no_filters U. by rewrite A.
  - intros (r & Hr & A & B). apply roleView_exact. exists r. split; [done|]. unfold roleMatches. no_filters U. rewrite A, B.
    cbn [colEq]. by rewrite Z.eqb_refl.
  - intros (r & Hr & A & B). apply roleView_exact. exists r. split; [done|]. unfold roleMatches. no_filters U. rewrite A, B.
    cbn [colEq]. by rewrite Z.eqb_refl.
  - destruct (available q); intros [[u Hu] A].
    + apply nonMembers_exact. exists u. split_and!; [done..|]. unfold userMatches. by no_filters U.
    + apply members_exact. rewrite memberOf_role by done. split; [done|]. exists u. split; [done|]. unfold userMatches. by no_filters U.
  - destruct (available q); intros [[u Hu] A].
    + apply nonMembers_exact. exists u. split_and!; [done..|]. unfold userMatches. by no_filters U.
    + apply members_exact. rewrite memberOf_role by done. split; [done|]. exists u. split; [done|]. unfold userMatches. by no_filters U.
Qed.

Lemma view_complete e q d id : in64 e -> unfiltered q -> Linked d -> allowed e q d id -> id ∈ viewIDs (view e q) d.
Proof.
  intros R U L H. pose proof (view_bindings_complete e q d id U L H). pose proof (view_tenants_complete e q d id R U L H).
  pose proof (view_users_complete e q d id U L H). by destruct e.
Qed.

Lemma view_nodup e q d : NoDup (viewIDs (view e q) d).
Proof.
  destruct e; cbn [view]; try (destruct (available q));
    first [apply userView_exact | apply workspaceView_exact | apply namespaceView_exact | apply roleView_exact | apply bindingView_exact
          | apply nonMembers_exact | apply members_exact | apply userBindingView_exact | apply userWorkspaces_exact | apply userNamespaces_exact].
Qed.

(** The totals of a user's own tenants with a search text are left out: the
    count and the list join the role names in different orders. *)
Definition totalled (e : Endpoint) (q : Query) : Prop :=
  match e with EUserWorkspaces _ | EUserNamespaces _ => FilterStr (Filters q) "search" = None | _ => True end.

Lemma view_counts e q d : Linked d -> totalled e q -> counts (view e q) d.
Proof.
  intros L T. destruct e; cbn [view totalled] in *;
    try (by apply counts_rows); auto using roleView_counts, workspaceView_counts, namespaceView_counts, memberView_counts.
  - eapply counts_table; [reflexivity | apply userView_exact | done].
  - rewrite T. by apply userWorkspaces_counts.
  - rewrite T. by apply userNamespaces_counts.
Qed.

Lemma listed_perm e q d : listed e q d ≡ₚ viewIDs (view e q) d.
Proof. unfold listed, viewIDs. by rewrite sqlOrder_perm. Qed.

(** The keys of the ORDER BY for the sort the request asks for. *)
Definition sortKeys (v : View) (q : Query) : list (bool * (vRow v -> SortVal)) :=
  orderKeys (vOrder v) (SortBy (qPagination q)) (descending (SortOrder (qPagination q))).

(** An order of the requested rows that the requested sort allows, and
    whether it allows one only. *)
Definition inOrder (e : Endpoint) (q : Query) (d : DB) (l : list Z) : Prop :=
  let v := view e q in arranged collate (sortKeys v q) (rowID (vOrder v)) (vRows v d) l.
Definition untied (e : Endpoint) (q : Query) (d : DB) : Prop :=
  let v := view e q in noTies collate (sortKeys v q) (vRows v d).

Lemma listed_inOrder e q d : antisym collate -> inOrder e q d (listed e q d).
Proof. apply ordered_arranged. Qed.

(** Page [i] of size [n] of a request. *)
Definition onPage (i n : nat) (q : Query) : Query :=
  {| Filters := Filters q;
     qPagination := {| Page := Z.of_nat i + 1; PageSize := Z.of_nat n;
                       SortBy := SortBy (qPagination q); SortOrder := SortOrder (qPagination q) |};
     qMaxPageSize := qMaxPageSize q |}.

Lemma view_onPage e i n q : view e (onPage i n q) = view e q.
Proof.
  destruct e as [|caller|caller|ws| |ws|ns| |ws|ns|ws|ns|u|ws u|ns u|u|u]; try done; destruct caller; done.
Qed.

Lemma offset_onPage i n q : (1 <= n <= 100)%nat -> Z.of_nat (i * n) < 2 ^ 31 ->
  PaginationToOffsetLimit (qPagination (onPage i n q)) = (Z.of_nat (i * n), Z.of_nat n).
Proof.
  intros Hn Hi. pose proof (offset_limit_exact (qPagination (onPage i n q)) 100) as X.
  replace (effSize (qPagination (onPage i n q))) with (Z.of_nat n) in X
    by (unfold effSize; cbn; destruct (Z.ltb_spec (Z.of_nat n) 1); lia).
  replace (effPage (qPagination (onPage i n q))) with (Z.of_nat i + 1) in X
    by (unfold effPage; cbn [qPagination onPage Page]; destruct (Z.ltb_spec (Z.of_nat i + 1) 1); lia).
  change (effCap 100) with 100 in X. destruct X as (X2 & _ & X1); [lia..|]. rewrite Z.min_l in X1, X2 by lia.
  unfold PaginationToOffsetLimit. destruct (PaginationToOffsetLimitWithMax _ _) as [offset limit]. cbn [fst snd] in *.
  rewrite X2, X1 by lia. f_equal. lia.
Qed.

Lemma pages_listed e q d n k : (1 <= n <= 100)%nat -> Z.of_nat (k * n) < 2 ^ 31 ->
  concat ((fun i => (pageOf (view e (onPage i n q)) (onPage i n q) d).1) <$> seq 0 k) = take (k * n) (listed e q d).
Proof.
  intros Hn Hk. rewrite <- pages_cover. f_equal. apply list_fmap_ext. intros j i Hj%lookup_seq. rewrite view_onPage.
  unfold pageOf. rewrite offset_onPage by nia. cbn [fst]. by rewrite !Nat2Z.id.
Qed.

End Exact.

(** Neither the ranks of tied rows nor the aggregate matter to an order the
    sort fixes. *)
Lemma listed_untied fold collate createdAt updatedAt tie tie' agg agg' e q d :
  untied fold collate createdAt updatedAt agg e q d ->
  listed fold collate createdAt updatedAt tie agg e q d = listed fold collate createdAt updatedAt tie' agg' e q d.
Proof.
  intros H. transitivity (listed fold collate createdAt updatedAt tie' agg e q d); [|by destruct e].
  unfold listed, sqlOrder. f_equal. by apply ordered_noTies.
Qed.

Lemma listed_any fold collate createdAt updatedAt tie tie' agg agg' e q d :
  listed fold collate createdAt updatedAt tie agg e q d ≡ₚ listed fold collate createdAt updatedAt tie' agg' e q d.
Proof.
  transitivity (listed fold collate createdAt updatedAt tie agg' e q d); [by destruct e|].
  by rewrite !listed_perm.
Qed.

(** C23: A list request lists its own tenant, exactly. Behind each of the
    seventeen IAM list requests, with its filters, there is one set of rows
    [L], no row twice. Whatever filters the caller passes, every one of them
    belongs to what the path names (the users, bindings or roles of the
    workspace or namespace; the workspaces and namespaces the caller or the
    user holds bindings for); only a member list asked with
    [?available=true] has, instead, users who are not members. With no
    filter but that one, and the schema's foreign keys intact, they are all
    such rows. Each request is answered from [L] in an order of its own that
    the requested sort allows: PostgreSQL may rank rows that agree on every
    sort key differently every time, and only when no two rows agree do all
    requests see one order, so that pages put together neither repeat nor
    miss a row. On a database that answers, page [i] of size [n] (at most
    100, with [i*n] below 2^31) is items [i*n] to [i*n + n - 1] of that
    order, and nothing changes. The total reported is the number of rows,
    except that of a user's own workspaces or namespaces under a search
    text. Text is compared by an antisymmetric collation. *)
Theorem lists_exact fold collate createdAt updatedAt e q s n :
  antisym collate -> in64 e -> healthy s -> (1 <= n <= 100)%nat ->
  let d := sdb s in
  exists L, NoDup L
  /\ (forall id, id ∈ L -> if toAdd e q then outside e d id else belongs e d id)
  /\ (unfiltered q -> Linked d -> forall id, (if toAdd e q then outside e d id else belongs e d id) -> id ∈ L)
  /\ (forall tie agg, exists l, l ≡ₚ L
        /\ inOrder fold collate createdAt updatedAt agg e q d l
        /\ (untied fold collate createdAt updatedAt agg e q d -> l = L)
        /\ (forall i, Z.of_nat (i * n) < 2 ^ 31 -> exists total s',
              serve fold collate createdAt updatedAt tie agg e (onPage i n q) s = (Ok (take n (drop (i * n) l), total), s')
              /\ sdb s' = d /\ (Linked d -> totalled e q -> total = Z.of_nat (length L)))).
Proof.
  intros A R H Hn d. set (L := listed fold collate createdAt updatedAt id id e q d).
  pose proof (listed_perm fold collate createdAt updatedAt id id e q d) as P. fold L in P. exists L. split_and!.
  - rewrite P. apply view_nodup.
  - intros x. rewrite P. by apply view_sound.
  - intros U K x. rewrite P. by apply view_complete.
  - intros tie agg. set (l := listed fold collate createdAt updatedAt tie agg e q d).
    assert (Q : l ≡ₚ L) by apply listed_any. exists l. split_and!; [done | by apply listed_inOrder | apply listed_untied|].
    intros i Hi. pose proof (offset_onPage i n q Hn Hi) as O.
    destruct (serve_runs fold collate createdAt updatedAt tie agg e (onPage i n q) s H) as (s' & E & D & _).
    { unfold inRange_. rewrite O. lia. }
    exists (vCount (view fold collate createdAt updatedAt agg e q) d), s'. split_and!; [|done|].
    + rewrite E. unfold pageOf. rewrite O, view_onPage, !Nat2Z.id. done.
    + intros K T. rewrite (view_counts fold collate createdAt updatedAt agg e q d K T), <- Q.
      f_equal. apply Permutation_length. symmetry. apply listed_perm.
Qed.


(** ** An example *)

Definition demoUser (name : string) : User := mkUser name (name +++ "@x") "" "" "" "active" "" false.

Definition demoDB : DB :=
  set_users {[1 := demoUser "ann"; 2 := demoUser "bob"; 3 := demoUser "eve"]}
  (set_workspaces {[1 := mkWorkspace "w1" "" "" 1 "active" None]}
  (set_roles {[1 := mkRole "owner" "" "" ScopeWorkspace true (Some 1) None; 2 := mkRole "dev" "" "" ScopeWorkspace false (Some 1) None]}
  (set_bindings {[1 := mkBinding 1 1 ScopeWorkspace (Some 1) None true; 2 := mkBinding 2 1 ScopeWorkspace (Some 1) None false;
                  3 := mkBinding 2 2 ScopeWorkspace (Some 1) None false]} emptyDB))).

Definition demoSys : Sys := mkSys demoDB (fun _ => 10) [] None [] ∅.

Definition demoQuery (filters : gmap string any) : Query :=
  {| Filters := filters; qPagination := {| Page := 1; PageSize := 20; SortBy := ""; SortOrder := "" |}; qMaxPageSize := 0 |}.

Definition demoServe (tie : Z -> Z) (agg : list Role -> list Role) (e : Endpoint) (i n : nat) (f : gmap string any) : result GoErr (list Z * Z) :=
  (serve id String.compare (fun _ _ => 0) (fun _ _ => 0) tie agg e (onPage i n (demoQuery f)) demoSys).1.

Lemma demo_linked : Linked demoDB.
Proof.
  split.
  - assert (H : map_Forall (fun (_ : Z) b => is_Some (users demoDB !! bUserID b) /\ is_Some (roles demoDB !! bRoleID b)) (bindings demoDB))
      by (apply (bool_decide_unpack _); vm_compute; exact I). exact H.
  - intros i w. cbn. rewrite lookup_singleton_Some. intros [_ <-]. by eexists.
  - intros i n. cbn. by rewrite lookup_empty.
Qed.

Lemma lists_exact_witness :
  exists L, 2 ∈ L /\ (forall x, x ∈ L -> memberOf demoDB (inWorkspace 1) x)
  /\ forall tie agg, exists page s',
       serve id String.compare (fun _ _ => 0) (fun _ _ => 0) tie agg (EWorkspaceUsers 1) (onPage 0 20 (demoQuery ∅)) demoSys
       = (Ok (page, Z.of_nat (length L)), s').
Proof.
  destruct (lists_exact id String.compare (fun _ _ => 0) (fun _ _ => 0) (EWorkspaceUsers 1) (demoQuery ∅) demoSys 20
              String.compare_antisym I ltac:(by split) ltac:(lia)) as (L & _ & S & C & P).
  exists L. split_and!.
  - apply (C (fun k _ => lookup_empty k) demo_linked). split; [by eexists|]. exists 2, (mkBinding 2 1 ScopeWorkspace (Some 1) None false).
    split_and!; vm_compute; reflexivity.
  - intros x Hx. destruct (S x Hx) as [_ M]. exact M.
  - intros tie agg. destruct (P tie agg) as (l & _ & _ & _ & G). destruct (G 0%nat ltac:(done)) as (total & s' & E & _ & T).
    exists (take 20 (drop (0 * 20) l)), s'. by rewrite E, (T demo_linked I).
Defined.

(** Members, the users still to add, and what a caller cannot widen. *)
Example demo_lists :
  demoServe id id (EWorkspaceUsers 1) 0 20 {["available" := VString "true"]} = Ok ([3], 1)
  /\ demoServe id id (EWorkspaces (Some 3)) 0 20 {["accessible_ids" := VString "1"]} = Ok ([], 0)
  /\ demoServe id id (EWorkspaceRoles 1) 0 20 {["scope" := VString "platform"; "workspace_id" := VString "7"]} = Ok ([1; 2], 2).
Proof. split_and!; vm_compute; reflexivity. Qed.

(** The bindings of one request share their creation time, so the ORDER BY
    leaves their order open: the last of three pages may repeat the first,
    and another row appear on no page. *)
Example pages_unstable :
  demoServe id id (EWorkspaceBindings 1) 0 1 ∅ = Ok ([1], 3)
  /\ demoServe (fun x => - x) id (EWorkspaceBindings 1) 2 1 ∅ = Ok ([1], 3).
Proof. split; vm_compute; reflexivity. Qed.

(** A search across the comma between two role names: the list finds the
    workspace, the total does not count it. *)
Example total_misses :
  demoServe id (@rev Role) (EUserWorkspaces 2) 0 20 {["search" := VString "dev,owner"]} = Ok ([1], 0).
Proof. vm_compute. reflexivity. Qed.

End IamListsExact.
