(* ===== verification/IamPermView.v ===== *)
(** * The permission view of a user

    [NewUserPermissionsVerb] of [pkg/apis/iam/storage_user_verbs.go]: what a
    user may do, by platform, workspace and namespace, with the patterns of
    its roles expanded to the registered permission codes. *)

From S2P Require Import Prelude Rbac IamDb IamStore ListQuery SqlList IamLists IamListsExact.

Module IamPermView.
Import Rbac IamDb IamStore SqlList IamListsExact.

(** ** The view *)

Record userPermsWsEntry := mkWsEntry { wePatterns : list string; weRoleNames : gset string }.
Record userPermsNsEntry := mkNsEntry { nePatterns : list string; neRoleNames : gset string; neWorkspaceID : string }.

Record userPermsGrouped := mkGrouped {
  platformPatterns : list string; isPlatformAdmin : bool;
  wsMap : gmap string userPermsWsEntry; nsMap : gmap string userPermsNsEntry
}.

Definition userPermsCollectWorkspace (m : gmap string userPermsWsEntry) (roleName : string) (row : UserPermissionRuleRow)
    : gmap string userPermsWsEntry :=
  match rowWorkspaceID row with
  | None => m
  | Some ws =>
      let entry := default (mkWsEntry [] ∅) (m !! FormatInt ws) in
      <[FormatInt ws := mkWsEntry (wePatterns entry ++ [rowPattern row]) ({[roleName]} ∪ weRoleNames entry)]> m
  end.

Definition userPermsCollectNamespace (m : gmap string userPermsNsEntry) (roleName : string) (row : UserPermissionRuleRow)
    : gmap string userPermsNsEntry :=
  match rowNamespaceID row with
  | None => m
  | Some ns =>
      let wsIDStr := match rowWorkspaceID row with Some ws => FormatInt ws | None => "" end in
      let entry := default (mkNsEntry [] ∅ wsIDStr) (m !! FormatInt ns) in
      <[FormatInt ns := mkNsEntry (nePatterns entry ++ [rowPattern row]) ({[roleName]} ∪ neRoleNames entry) (neWorkspaceID entry)]> m
  end.

(** One iteration of the loop of [userPermsGroupByScope]. *)
Definition groupRow (g : userPermsGrouped) (r : string * UserPermissionRuleRow) : userPermsGrouped :=
  let '(roleName, row) := r in
  if rowScope row =s ScopePlatform then
    mkGrouped (platformPatterns g ++ [rowPattern row]) (if rowPattern row =s "*:*" then true else isPlatformAdmin g) (wsMap g) (nsMap g)
  else if rowScope row =s ScopeWorkspace then
    mkGrouped (platformPatterns g) (isPlatformAdmin g) (userPermsCollectWorkspace (wsMap g) roleName row) (nsMap g)
  else if rowScope row =s ScopeNamespace then
    mkGrouped (platformPatterns g) (isPlatformAdmin g) (wsMap g) (userPermsCollectNamespace (nsMap g) roleName row)
  else g.

Definition userPermsGroupByScope (rows : list (string * UserPermissionRuleRow)) : userPermsGrouped :=
  foldl groupRow (mkGrouped [] false ∅ ∅) rows.

(** The keys of a Go map, sorted. *)
Definition mapKeys (m : gset string) : list string := sorting.merge_sort String.le (elements m).

Record WorkspaceScopePerms := mkWsPerms { wpRoleNames : list string; wpPermissions : list string }.
Record NamespaceScopePerms := mkNsPerms { npRoleNames : list string; npWorkspaceID : string; npPermissions : list string }.

Record UserPermissionsSpec := mkSpec {
  spIsPlatformAdmin : bool; spPlatform : list string;
  spWorkspaces : gmap string WorkspaceScopePerms; spNamespaces : gmap string NamespaceScopePerms
}.

Definition userPermsBuildSpec (g : userPermsGrouped) (allCodes : list string) : UserPermissionsSpec :=
  mkSpec (isPlatformAdmin g) (ExpandPatterns (platformPatterns g) allCodes)
    ((fun e => mkWsPerms (mapKeys (weRoleNames e)) (ExpandPatterns (wePatterns e) allCodes)) <$> wsMap g)
    ((fun e => mkNsPerms (mapKeys (neRoleNames e)) (neWorkspaceID e) (ExpandPatterns (nePatterns e) allCodes)) <$> nsMap g).

Definition UserPermissionsVerb (uid : Z) : M GoErr UserPermissionsSpec :=
  rows <-- bindingGetUserRoleBindingsWithRules uid ;;
  allCodes <-- ListAllCodes ;;
  ret (userPermsBuildSpec (userPermsGroupByScope rows) allCodes).

(** ** Grouping is the checker's index *)

Definition wsPatterns (g : userPermsGrouped) (ws : Z) : list string :=
  match wsMap g !! FormatInt ws with Some e => wePatterns e | None => [] end.
Definition nsPatterns (g : userPermsGrouped) (ns : Z) : list string :=
  match nsMap g !! FormatInt ns with Some e => nePatterns e | None => [] end.

(** The view groups the rows as [loadUserEntry] does. *)
Definition sameRules (g : userPermsGrouped) (e : UserPermissionEntry) : Prop :=
  isPlatformAdmin g = IsPlatformAdmin e /\ platformPatterns g = PlatformRules e
  /\ (forall ws, wsPatterns g ws = rulesAt (WorkspaceRules e) ws) /\ (forall ns, nsPatterns g ns = rulesAt (NamespaceRules e) ns).

Lemma FormatInt_eq a b : FormatInt a = FormatInt b -> a = b.
Proof. apply FormatInt_inj. Qed.

Lemma sameRules_row g e r : sameRules g e -> sameRules (groupRow g r) (addRow e r.2).
Proof.
  destruct r as [name row]. intros (A & P & W & N). unfold groupRow, addRow. cbn [snd].
  destruct (rowScope row =s ScopePlatform); [by rewrite A, P|].
  destruct (rowScope row =s ScopeWorkspace).
  { unfold userPermsCollectWorkspace. destruct (rowWorkspaceID row) as [w|]; [|done]. split_and!; [done..| |done].
    intros ws. specialize (W ws) as Wws. unfold wsPatterns, rulesAt in *. cbn.
    destruct (decide (ws = w)) as [->|Hne]; [rewrite !lookup_insert_eq; cbn; rewrite <- Wws; by destruct (wsMap g !! _)|].
    rewrite !lookup_insert_ne by (try done; intros E%FormatInt_eq; done). done. }
  destruct (rowScope row =s ScopeNamespace); [|done].
  unfold userPermsCollectNamespace. destruct (rowNamespaceID row) as [n|]; [|done]. split_and!; [done..|].
  intros ns. specialize (N ns) as Nns. unfold nsPatterns, rulesAt in *. cbn.
  destruct (decide (ns = n)) as [->|Hne]; [rewrite !lookup_insert_eq; cbn; rewrite <- Nns; by destruct (nsMap g !! _)|].
  rewrite !lookup_insert_ne by (try done; intros E%FormatInt_eq; done). done.
Qed.

Lemma sameRules_rows rows : sameRules (userPermsGroupByScope rows) (buildEntry rows.*2).
Proof.
  unfold userPermsGroupByScope, buildEntry. assert (H : sameRules (mkGrouped [] false ∅ ∅) emptyEntry) by done. revert H.
  generalize (mkGrouped [] false ∅ ∅) emptyEntry. induction rows as [|r rows IH]; intros g e H; [done|]. cbn.
  apply IH, sameRules_row, H.
Qed.

(** The rows of the view are the rows of the checker. *)
Definition viewRows (d : DB) (u : Z) : list (string * UserPermissionRuleRow) :=
  b ← bindingsOfUser d u;
  r ← (match roles d !! bRoleID b with Some r => [r] | None => [] end);
  pattern ← rulesOf d (bRoleID b);
  [(rName r, {| rowScope := bScope b; rowWorkspaceID := bWorkspaceID b; rowNamespaceID := bNamespaceID b; rowPattern := pattern |})].

Lemma viewRows_rows d u : Linked d -> (viewRows d u).*2 = permissionRows d u.
Proof.
  intros L. unfold viewRows, permissionRows.
  assert (H : forall b, b ∈ bindingsOfUser d u -> is_Some (roles d !! bRoleID b)).
  { intros b (i & Hb & _)%elem_bindingsOfUser. by apply (l_binding d L i b Hb). }
  revert H. generalize (bindingsOfUser d u). intros l. induction l as [|b l IH]; [done|]. intros H.
  destruct (H b) as [r Hr]; [left|]. rewrite !bind_cons, fmap_app, IH by (intros ? ?; apply H; by right). f_equal.
  rewrite Hr. cbn. rewrite app_nil_r. clear. induction (rulesOf d (bRoleID b)) as [|p ps IH]; [done|]. cbn. by rewrite IH.
Qed.

(** ** The view shows what the checker grants *)

Definition registered (d : DB) (code : string) : Prop := exists scope, is_Some (permissions d !! (code, scope)).

(** What a client that reads the view takes a user to hold in a scope. *)
Definition shown (spec : UserPermissionsSpec) (code scope : string) (ws ns : Z) : Prop :=
  code ∈ spPlatform spec
  \/ ((scope = ScopeWorkspace \/ scope = ScopeNamespace) /\ 0 < ws
      /\ exists p, spWorkspaces spec !! FormatInt ws = Some p /\ code ∈ wpPermissions p)
  \/ (scope = ScopeNamespace /\ 0 < ns /\ exists p, spNamespaces spec !! FormatInt ns = Some p /\ code ∈ npPermissions p).

Lemma elem_codes d code : code ∈ (fst ∘ fst) <$> map_to_list (permissions d) <-> registered d code.
Proof.
  unfold registered. rewrite list_elem_of_fmap. split.
  - intros (((c & sc) & r) & -> & H%elem_of_map_to_list). cbn. eauto.
  - intros (sc & r & H). exists ((code, sc), r). split; [done | by apply elem_of_map_to_list].
Qed.

Lemma expanded patterns codes code :
  code ∈ ExpandPatterns patterns codes <-> code ∈ codes /\ hasPermissionMatchRules patterns code = true.
Proof.
  rewrite (proj2 (ExpandPatterns_spec patterns codes)), hasPermissionMatchRules_spec.
  by setoid_rewrite MatchPermission_matches.
Qed.

Lemma shown_workspace g codes code ws :
  (exists p, spWorkspaces (userPermsBuildSpec g codes) !! FormatInt ws = Some p /\ code ∈ wpPermissions p)
  <-> code ∈ codes /\ hasPermissionMatchRules (wsPatterns g ws) code = true.
Proof.
  cbn. rewrite lookup_fmap. unfold wsPatterns. destruct (wsMap g !! FormatInt ws) as [e|]; cbn.
  - rewrite <- expanded. split; [by intros (p & [= <-] & H) | eauto].
  - split; [by intros (p & ? & _) | by intros [_ ?]].
Qed.

Lemma shown_namespace g codes code ns :
  (exists p, spNamespaces (userPermsBuildSpec g codes) !! FormatInt ns = Some p /\ code ∈ npPermissions p)
  <-> code ∈ codes /\ hasPermissionMatchRules (nsPatterns g ns) code = true.
Proof.
  cbn. rewrite lookup_fmap. unfold nsPatterns. destruct (nsMap g !! FormatInt ns) as [e|]; cbn.
  - rewrite <- expanded. split; [by intros (p & [= <-] & H) | eauto].
  - split; [by intros (p & ? & _) | by intros [_ ?]].
Qed.

Lemma shown_iff g e codes code scope ws ns : sameRules g e ->
  shown (userPermsBuildSpec g codes) code scope ws ns <-> code ∈ codes /\ HasPermission e code scope ws ns = true.
Proof.
  intros (A & P & W & N). unfold shown. rewrite shown_workspace, shown_namespace, W, N. cbn [spPlatform userPermsBuildSpec].
  rewrite expanded, P. unfold HasPermission. rewrite <- !String.eqb_eq, <- !Z.ltb_lt.
  destruct (hasPermissionMatchRules (PlatformRules e) code), (hasPermissionMatchRules (rulesAt (WorkspaceRules e) ws) code),
    (hasPermissionMatchRules (rulesAt (NamespaceRules e) ns) code),
    (scope =s ScopeWorkspace), (scope =s ScopeNamespace), (0 <? ws), (0 <? ns); cbn; intuition discriminate.
Qed.

(** C24: The permission view tells the truth. On a database that answers,
    the view of a user shows a code in a scope (the platform's codes, those
    of the workspace, those of the namespace) exactly when the code is
    registered and the checker, loading the same user's rules, grants it
    there; and it calls the user a platform administrator exactly when the
    checker does. Nothing is changed. *)
Theorem permission_view_exact u s :
  healthy s -> Linked (sdb s) ->
  let entry := buildEntry (permissionRows (sdb s) u) in
  exists spec s', UserPermissionsVerb u s = (Ok spec, s') /\ sdb s' = sdb s
    /\ spIsPlatformAdmin spec = IsPlatformAdmin entry
    /\ forall code scope ws ns,
         shown spec code scope ws ns <-> registered (sdb s) code /\ HasPermission entry code scope ws ns = true.
Proof.
  intros H L entry.
  destruct (Q_runs (fun d => Ok (viewRows d u)) _ s H eq_refl) as (s1 & E1 & D1 & H1).
  destruct (Q_runs (fun d => Ok ((fst ∘ fst) <$> map_to_list (permissions d))) _ s1 H1 eq_refl) as (s2 & E2 & D2 & H2).
  unfold UserPermissionsVerb, bindingGetUserRoleBindingsWithRules, ListAllCodes, GetUserRoleBindingsWithRules, ListAllPermissionCodes.
  unfold bind. change (fun d : DB => Ok _) with (fun d => Ok (E := SqlErr) (viewRows d u)) at 1.
  rewrite (onErr_runs _ _ _ _ _ E1), (onErr_runs _ _ _ _ _ E2). cbn [ret]. eexists _, s2. split; [reflexivity|].
  pose proof (sameRules_rows (viewRows (sdb s) u)) as S. rewrite viewRows_rows in S by done. fold entry in S.
  split; [congruence|]. split; [apply S|]. intros code scope ws ns. rewrite (shown_iff _ _ _ _ _ _ _ S), elem_codes, D1. done.
Qed.

(** ** An example *)

Definition demoPerms : DB :=
  set_rules {[(2, "iam:users:*")]}
  (set_permissions {[("iam:users:get", ScopeWorkspace) := mkPerm "GET" "" ""; ("iam:roles:get", ScopeWorkspace) := mkPerm "GET" "" ""]}
     demoDB).

Lemma demoPerms_linked : Linked demoPerms.
Proof. destruct demo_linked as [B W N]. split; [exact B | exact W | exact N]. Qed.

Definition demoPermSys : Sys := mkSys demoPerms (fun _ => 10) [] None [] ∅.

Lemma permission_view_exact_witness :
  exists spec s', UserPermissionsVerb 2 demoPermSys = (Ok spec, s')
    /\ shown spec "iam:users:get" ScopeWorkspace 1 0 /\ ~ shown spec "iam:roles:get" ScopeWorkspace 1 0.
Proof.
  destruct (permission_view_exact 2 demoPermSys) as (spec & s' & E & _ & _ & S); [by split | exact demoPerms_linked |].
  exists spec, s'. split; [exact E|]. split.
  - apply S. split; [exists ScopeWorkspace; by eexists | vm_compute; reflexivity].
  - intros X. apply S in X as [_ X]. revert X. vm_compute. discriminate.
Defined.

End IamPermView.
