(* ===== verification/ApiHandlers.v ===== *)
(** * The API server: handlers

    Models the typed handler wrappers of [lib/apiserver/wrap.go],
    [named.go] and [action.go] with the response writers of [server.go] and
    [lib/rest], and content negotiation ([lib/runtime/negotiation.go],
    [codec.go]): how a matched request becomes one call of a resource's
    operation, and its result a response. [encoding/json] and the YAML
    conversion are parameters. *)

From S2P Require Import Prelude Rbac ApiRoutes ApiServe ListQuery IamDb IamStore.

Module Handlers.
Import Api Serve ListQ IamStore.

(** ** Requests *)

Record Http := mkHttp {
  hReq : Request;
  hQuery : gmap string (list string);
  hReadError : bool;          (** reading the body, up to its limit, fails *)
  hContentType : string;
  hAccept : string
}.

(** ** Content negotiation (lib/runtime) *)

Inductive Serializer := SJSON | SJSONPretty | SYAML.

Record SerializerInfo := mkInfo {
  siMediaType : string; siType : string; siSubType : string; siSerializer : Serializer; siPretty : Serializer
}.

(** [NewCodecFactory]. *)
Definition codecs : list SerializerInfo :=
  [mkInfo "application/json" "application" "json" SJSON SJSONPretty; mkInfo "application/yaml" "application" "yaml" SYAML SYAML].

Definition EqualFold (a b : string) : bool := ToLower a =s ToLower b.

(** What precedes the first [c], and what follows it, if there is one. *)
Fixpoint cutAt (c : ascii) (s : string) : option (string * string) :=
  match s with
  | EmptyString => None
  | String x s' => if Ascii.eqb x c then Some ("", s')
                   else match cutAt c s' with Some (a, b) => Some (String x a, b) | None => None end
  end.

Definition acceptClause (part : string) : option (string * string) :=
  let part := TrimSpace part in
  let part := match cutAt ";" part with Some (p, _) => TrimSpace p | None => part end in
  match cutAt "/" part with
  | Some (t, sub) => Some (TrimSpace t, TrimSpace sub)
  | None => None
  end.

Definition parseAccept (accept : string) : list (string * string) := omap acceptClause (Split accept ",").

Definition mediaTypeMatches (clause : string * string) (info : SerializerInfo) : bool :=
  ((clause.1 =s "*") && (clause.2 =s "*"))
  || (EqualFold clause.1 (siType info) && (clause.2 =s "*"))
  || (EqualFold clause.1 (siType info) && EqualFold clause.2 (siSubType info)).

Definition isPrettyPrint (h : Http) : bool := qget (hQuery h) "pretty" =s "true".
Definition chooseSerializer (info : SerializerInfo) (pretty : bool) : Serializer :=
  if pretty then siPretty info else siSerializer info.

(** The first clause that some serializer matches. *)
Definition NegotiateOutputMediaType (h : Http) (supported : list SerializerInfo) : option (string * Serializer) :=
  match supported with
  | [] => None
  | first :: _ =>
      let choose info := Some (siMediaType info, chooseSerializer info (isPrettyPrint h)) in
      if (hAccept h =s "") || (hAccept h =s "*/*") then choose first
      else match head (omap (fun clause => List.find (mediaTypeMatches clause) supported) (parseAccept (hAccept h))) with
           | Some info => choose info
           | None => None
           end
  end.

Definition SerializerInfoForMediaType (types : list SerializerInfo) (mediaType : string) : option SerializerInfo :=
  List.find (fun info => EqualFold (siMediaType info) mediaType) types.

(** ** Errors *)

(** An error without a status of its own. *)
Definition plainError : GoErr := Wrapped None None.

Definition NewRequestEntityTooLarge (message : string) : GoErr := StatusError 413 (Some message) [].
(** The message names the field [encoding/json] rejected. *)
Definition NewInvalidJSONBody : GoErr := StatusError 400 None [].

Definition mapDomain (e : GoErr) : GoErr := match FromDomain e with Some se => se | None => e end.

Definition ofApiError (e : apiError) : GoErr := match e with BadRequest msg => NewBadRequest msg [] end.

(** ** Files (lib/rest/file.go) *)

Record FileResponse := mkFile { FileName : string; ContentType : string; Data : string }.

(** The file name without quotes and line breaks. *)
Fixpoint safeName (s : string) : string :=
  match s with
  | EmptyString => ""
  | String c s' => if (bool_decide (c ∈ [ascii_of_nat 34; ascii_of_nat 13; ascii_of_nat 10])) then safeName s' else String c (safeName s')
  end.

Definition newline : string := String (ascii_of_nat 10) "".
Definition quote : string := String (ascii_of_nat 34) "".
Definition contentDisposition (f : FileResponse) : string := "attachment; filename=" +++ quote +++ safeName (FileName f) +++ quote.

(** The codes of a request refused before its operation ran. *)
Definition refusal (code : Z) : Prop := code = 400 \/ code = 403 \/ code = 413 \/ code = 500.

Section Wrappers.
(** The API's objects, other JSON values, and the state the operations act
    on. *)
Context {T J W : Type}.

(** ** Responses (lib/rest) *)

Record BatchResult := mkBatch { SuccessCount : Z; FailedCount : Z; FailedIDs : list string }.

Inductive Object :=
| OItem (o : T)
| OList (kind : string) (items : list T) (totalCount : Z)
| OBatch (b : BatchResult)
| OStatus (e : GoErr).

(** An [any] an escape hatch returns. *)
Inductive Any := ANil | ATypedNil | AFile (f : FileResponse) | AObject (o : Object) | ARaw (j : J).

Inductive Content :=
| CNone
| CText
| CObject (apiVersion : string) (o : option Object) (bytes : string)
| CRaw (v : option Object + J) (bytes : string)
| CFile (data : string).

Record Response := mkResponse { rsCode : Z; rsType : string; rsHeaders : list (string * string); rsContent : Content }.

(** [encoding/json] and the YAML conversion. *)
Context (jsonObject : string -> option Object -> option string) (jsonObjectIndent : string -> option Object -> option string).
Context (jsonIndent : option Object + J -> option string).
Context (jsonToYAML yamlToJSON : string -> option string).
Context (unmarshal : string -> option T) (unmarshalIDs : string -> option (list string)).

(** [hdrs]: the headers staged on the writer so far. *)
Definition internalError (hdrs : list (string * string)) : Response := mkResponse 500 "text/plain; charset=utf-8" hdrs CText.

(** [JSONSerializer.Encode] of the object stamped with its apiVersion: the
    streaming encoder ends its output with a line break. *)
Definition Encode (s : Serializer) (apiVersion : string) (o : option Object) : option string :=
  match s with
  | SYAML => data ← jsonObject apiVersion o; jsonToYAML data
  | SJSONPretty => jsonObjectIndent apiVersion o
  | SJSON => (fun data => data +++ newline) <$> jsonObject apiVersion o
  end.

Definition SerializeObject (mediaType : string) (s : Serializer) (code : Z) (hdrs : list (string * string))
    (apiVersion : string) (o : option Object) : Response :=
  match Encode s apiVersion o with
  | None => internalError hdrs
  | Some bytes => mkResponse code mediaType hdrs (CObject apiVersion o bytes)
  end.

Definition WriteRawJSON (code : Z) (hdrs : list (string * string)) (v : option Object + J) : Response :=
  match jsonIndent v with
  | None => internalError hdrs
  | Some bytes => mkResponse code "application/json" hdrs (CRaw v bytes)
  end.

(** The error's own status, or 500; a wrapped one has none. *)
Definition errStatus (e : GoErr) : Z := match e with StatusError c _ _ => c | _ => 500 end.

Definition ErrorNegotiated (h : Http) (hdrs : list (string * string)) (e : GoErr) : Response :=
  match NegotiateOutputMediaType h codecs with
  | None => WriteRawJSON (errStatus e) hdrs (inl (Some (OStatus e)))
  | Some (mediaType, s) => SerializeObject mediaType s (errStatus e) hdrs "v1" (Some (OStatus e))
  end.

Definition writeError (h : Http) (e : GoErr) : Response := ErrorNegotiated h [] e.

Definition isErrorStatusCode (code : Z) : bool := 400 <=? code.

(** [stampAPIVersion], then [WriteObjectNegotiated]. *)
Definition writeObject (h : Http) (m : routeMeta) (code : Z) (hdrs : list (string * string)) (o : option Object) : Response :=
  match NegotiateOutputMediaType h codecs with
  | None => if isErrorStatusCode code then WriteRawJSON code hdrs (inl o) else ErrorNegotiated h hdrs plainError
  | Some (mediaType, s) => SerializeObject mediaType s code hdrs (mAPIVersion m) o
  end.

Definition noContent : Response := mkResponse 204 "" [] CNone.

Definition WriteFile (code : Z) (hdrs : list (string * string)) (f : FileResponse) : Response :=
  mkResponse code (ContentType f) (hdrs ++ [("Content-Disposition", contentDisposition f)]) (CFile (Data f)).

Definition writeActionResult (h : Http) (m : routeMeta) (code : Z) (hdrs : list (string * string)) (v : Any) : Response :=
  match v with
  | ANil | ATypedNil => noContent
  | AFile f => WriteFile code hdrs f
  | AObject o => writeObject h m code hdrs (Some o)
  | ARaw j => WriteRawJSON code hdrs (inr j)
  end.

(** ** Bodies *)

Definition DefaultMaxRequestBodySize : Z := 2 ^ 20.

(** A missing body reads as empty. *)
Definition readBodyLimited (h : Http) (limit : Z) : result GoErr string :=
  match rBody (hReq h) with
  | None => Ok ""
  | Some body =>
      let limit := if limit <=? 0 then DefaultMaxRequestBodySize else limit in
      if hReadError h then Err plainError
      else
        let data := str_take (Z.to_nat (limit + 1)) body in
        if limit <? zlen data then Err (NewRequestEntityTooLarge ("request body exceeds " +++ FormatInt limit +++ " bytes"))
        else Ok data
  end.

(** [rest.DecodeBody] with [JSONSerializer.Decode]. *)
Definition decodeBody (h : Http) (limit : Z) : result GoErr T :=
  body <-! readBodyLimited h limit ;;
  let contentType := if hContentType h =s "" then "application/json" else hContentType h in
  match SerializerInfoForMediaType codecs contentType with
  | None => Err plainError
  | Some info =>
      let effective := match siSerializer info with SYAML => yamlToJSON body | _ => Some body end in
      match (data ← effective; unmarshal data) with
      | Some o => Ok o
      | None => Err plainError
      end
  end.

Fixpoint parseIDs (ids : list string) : result GoErr (list Z) :=
  match ids with
  | [] => Ok []
  | id :: rest =>
      match ParseInt id 64 with
      | Some z => zs <-! parseIDs rest ;; Ok (z :: zs)
      | None => Err (NewBadRequest ("invalid ID: " +++ id) [])
      end
  end.

(** ** The wrappers *)

(** An operation applied to its arguments: a result, the response headers
    it published, and the state after. *)
Definition Op (O : Type) : Type := W -> (result GoErr O * list (string * string)) * W.

Definition Handler : Type := Http -> option AccessFilter -> W -> Response * W.

(** [ctx, err := buildCtx(r, m); if err != nil { ... }]. *)
Definition withCtx (m : routeMeta) (k : Ctx -> Handler) : Handler := fun h af w =>
  match buildCtx (hReq h) m af with
  | Err e => (writeError h (ofApiError e), w)
  | Ok ctx => k ctx h af w
  end.

(** The same for an input read from the body. *)
Definition withInput {I} (read : Http -> result GoErr I) (k : I -> Handler) : Handler := fun h af w =>
  match read h with
  | Err e => (writeError h e, w)
  | Ok i => k i h af w
  end.

Definition call {O} (op : Op O) (mapErr : GoErr -> GoErr) (answer : Http -> O -> list (string * string) -> Response) : Handler :=
  fun h af w =>
    let '((res, hdrs), w') := op w in
    (match res with Err e => writeError h (mapErr e) | Ok o => answer h o hdrs end, w').

(** What a [ResourceDef] or [NamedDef] tells its wrappers. *)
Record Def := mkDef { dMaxPageSize : Z; dMaxBodyBytes : Z; dListKind : string; dTypeName : string }.

Definition listKind (d : Def) : string := if dListKind d =s "" then dTypeName d +++ "List" else dListKind d.

(** A nil result is an empty list. *)
Definition newListEnvelope (kind : string) (res : option (list T * Z)) : Object :=
  match res with Some (items, total) => OList kind items total | None => OList kind [] 0 end.

Definition listQuery (d : Def) (h : Http) : Query := parseListQuery (hQuery h) (dMaxPageSize d).

Definition wrapList (m : routeMeta) (d : Def) (op : Ctx -> Query -> Op (option (list T * Z))) : Handler :=
  withCtx m (fun ctx h => call (op ctx (listQuery d h)) mapDomain
    (fun h res _ => writeObject h m 200 [] (Some (newListEnvelope (listKind d) res))) h).

Definition wrapListAny (m : routeMeta) (d : Def) (op : Ctx -> Query -> Op Any) : Handler :=
  withCtx m (fun ctx h => call (op ctx (listQuery d h)) mapDomain (fun h res _ => writeActionResult h m 200 [] res) h).

(** 201, or 200 for a dry run. *)
Definition createdCode (ctx : Ctx) : Z := if cDryRun ctx then 200 else 201.

Definition wrapCreateAny (m : routeMeta) (d : Def) (op : Ctx -> string -> Op Any) : Handler :=
  withCtx m (fun ctx => withInput (fun h => readBodyLimited h (dMaxBodyBytes d)) (fun body =>
    call (op ctx body) mapDomain (fun h res hdrs => writeActionResult h m (createdCode ctx) hdrs res))).

Definition asObject (res : option T) : option Object := OItem <$> res.

Definition wrapSingleton (m : routeMeta) (op : Ctx -> Op (option T)) : Handler :=
  withCtx m (fun ctx => call (op ctx) mapDomain (fun h res _ => writeObject h m 200 [] (asObject res))).

Definition wrapGet (m : routeMeta) (op : Ctx -> Z -> Op (option T)) : Handler :=
  withCtx m (fun ctx => call (op ctx (cID ctx)) mapDomain (fun h res _ => writeObject h m 200 [] (asObject res))).

Definition wrapCreate (m : routeMeta) (d : Def) (op : Ctx -> T -> Op (option T)) : Handler :=
  withCtx m (fun ctx => withInput (fun h => decodeBody h (dMaxBodyBytes d)) (fun o =>
    call (op ctx o) mapDomain (fun h res hdrs => writeObject h m (createdCode ctx) hdrs (asObject res)))).

Definition wrapUpdate (m : routeMeta) (d : Def) (op : Ctx -> Z -> T -> Op (option T)) : Handler :=
  withCtx m (fun ctx => withInput (fun h => decodeBody h (dMaxBodyBytes d)) (fun o =>
    call (op ctx (cID ctx) o) mapDomain (fun h res _ => writeObject h m 200 [] (asObject res)))).

Definition wrapPatch (m : routeMeta) (d : Def) (op : Ctx -> Z -> string -> Op (option T)) : Handler :=
  withCtx m (fun ctx => withInput (fun h => readBodyLimited h (dMaxBodyBytes d)) (fun body =>
    call (op ctx (cID ctx) body) mapDomain (fun h res _ => writeObject h m 200 [] (asObject res)))).

Definition wrapDelete (m : routeMeta) (op : Ctx -> Z -> Op unit) : Handler :=
  withCtx m (fun ctx => call (op ctx (cID ctx)) mapDomain (fun _ _ _ => noContent)).

(** The id list of a batch delete: decoded, not empty, all numbers. *)
Definition readIDs (limit : Z) (h : Http) : result GoErr (list Z) :=
  body <-! readBodyLimited h limit ;;
  match unmarshalIDs body with
  | None => Err plainError
  | Some [] => Err plainError
  | Some ids => parseIDs ids
  end.

Definition wrapBatchDelete (m : routeMeta) (d : Def) (op : Ctx -> list Z -> Op BatchResult) : Handler :=
  withCtx m (fun ctx => withInput (readIDs (dMaxBodyBytes d)) (fun ids =>
    call (op ctx ids) mapDomain (fun h res _ => writeObject h m 200 [] (Some (OBatch res))))).

(** ** Named resources (named.go) *)

Definition namedListAny := wrapListAny.
Definition namedList := wrapList.

Definition namedDeleteCollectionAny (m : routeMeta) (d : Def) (op : Ctx -> string -> Op Any) : Handler :=
  withCtx m (fun ctx => withInput (fun h => readBodyLimited h (dMaxBodyBytes d)) (fun body =>
    call (op ctx body) mapDomain (fun h res _ => writeActionResult h m 200 [] res))).

Definition namedGet (m : routeMeta) (op : Ctx -> string -> Op (option T)) : Handler :=
  withCtx m (fun ctx => call (op ctx (cName ctx)) mapDomain (fun h res _ => writeObject h m 200 [] (asObject res))).

(** The body through [json.Unmarshal]. *)
Definition readJSON (limit : Z) (h : Http) : result GoErr T :=
  body <-! readBodyLimited h limit ;;
  match unmarshal body with Some o => Ok o | None => Err NewInvalidJSONBody end.

Definition namedCreate (m : routeMeta) (d : Def) (op : Ctx -> T -> Op (option T)) : Handler :=
  withCtx m (fun ctx => withInput (readJSON (dMaxBodyBytes d)) (fun o =>
    call (op ctx o) mapDomain (fun h res _ => writeObject h m (createdCode ctx) [] (asObject res)))).

(** [namedWrite] with the operation of PUT; [mapDomain] leaves the decode
    error as it is. *)
Definition namedUpdate (m : routeMeta) (d : Def) (op : Ctx -> string -> T -> Op (option T)) : Handler :=
  withCtx m (fun ctx => withInput (readJSON (dMaxBodyBytes d)) (fun o =>
    call (op ctx (cName ctx) o) mapDomain (fun h res _ => writeObject h m 200 [] (asObject res)))).

Definition namedPatch (m : routeMeta) (d : Def) (op : Ctx -> string -> string -> Op (option T)) : Handler :=
  withCtx m (fun ctx => withInput (fun h => readBodyLimited h (dMaxBodyBytes d)) (fun body =>
    call (op ctx (cName ctx) body) mapDomain (fun h res _ => writeObject h m 200 [] (asObject res)))).

Definition namedDelete (m : routeMeta) (op : Ctx -> string -> Op unit) : Handler :=
  withCtx m (fun ctx => call (op ctx (cName ctx)) mapDomain (fun _ _ _ => noContent)).

(** ** Actions and verbs (action.go): errors are written as they are *)

(** An empty body decodes to the zero request. *)
Definition readRequest (zero : T) (limit : Z) (h : Http) : result GoErr T :=
  body <-! readBodyLimited h limit ;;
  if body =s "" then Ok zero
  else match unmarshal body with Some o => Ok o | None => Err NewInvalidJSONBody end.

Definition actionCode (m : routeMeta) : Z := if mStatusCode m =? 0 then 200 else mStatusCode m.

Definition Action (zero : T) (m : routeMeta) (op : Ctx -> T -> Op Any) : Handler :=
  withCtx m (fun ctx => withInput (readRequest zero (mMaxBodyBytes m)) (fun req =>
    call (op ctx req) id (fun h res hdrs =>
      match res with
      | ANil | ATypedNil => noContent
      | _ => writeActionResult h m (actionCode m) hdrs res
      end))).

Definition ActionAny (m : routeMeta) (op : Ctx -> string -> Op Any) : Handler :=
  withCtx m (fun ctx => withInput (fun h => readBodyLimited h (mMaxBodyBytes m)) (fun body =>
    call (op ctx body) id (fun h res hdrs => writeActionResult h m (actionCode m) hdrs res))).

Definition verbQuery (m : routeMeta) (h : Http) : Query := parseListQuery (hQuery h) (mMaxPageSize m).

Definition Verb (m : routeMeta) (typeName : string) (op : Ctx -> Z -> Query -> Op (option (list T * Z))) : Handler :=
  withCtx m (fun ctx h => call (op ctx (cID ctx) (verbQuery m h)) id
    (fun h res _ => writeActionResult h m 200 [] (AObject (newListEnvelope (typeName +++ "List") res))) h).

Definition VerbAny (m : routeMeta) (op : Ctx -> Z -> Query -> Op Any) : Handler :=
  withCtx m (fun ctx h => call (op ctx (cID ctx) (verbQuery m h)) id (fun h res _ => writeActionResult h m 200 [] res) h).

(** ** A route: authorization, then one of the handlers *)

Inductive Route :=
| RList (d : Def) (op : Ctx -> Query -> Op (option (list T * Z)))
| RListAny (d : Def) (op : Ctx -> Query -> Op Any)
| RCreateAny (d : Def) (op : Ctx -> string -> Op Any)
| RSingleton (op : Ctx -> Op (option T))
| RGet (op : Ctx -> Z -> Op (option T))
| RCreate (d : Def) (op : Ctx -> T -> Op (option T))
| RUpdate (d : Def) (op : Ctx -> Z -> T -> Op (option T))
| RPatch (d : Def) (op : Ctx -> Z -> string -> Op (option T))
| RDelete (op : Ctx -> Z -> Op unit)
| RBatchDelete (d : Def) (op : Ctx -> list Z -> Op BatchResult)
| RNamedDeleteCollectionAny (d : Def) (op : Ctx -> string -> Op Any)
| RNamedGet (op : Ctx -> string -> Op (option T))
| RNamedCreate (d : Def) (op : Ctx -> T -> Op (option T))
| RNamedUpdate (d : Def) (op : Ctx -> string -> T -> Op (option T))
| RNamedPatch (d : Def) (op : Ctx -> string -> string -> Op (option T))
| RNamedDelete (op : Ctx -> string -> Op unit)
| RAction (zero : T) (op : Ctx -> T -> Op Any)
| RActionAny (op : Ctx -> string -> Op Any)
| RVerb (typeName : string) (op : Ctx -> Z -> Query -> Op (option (list T * Z)))
| RVerbAny (op : Ctx -> Z -> Query -> Op Any).

Definition handle (m : routeMeta) (rt : Route) : Handler :=
  match rt with
  | RList d op => wrapList m d op
  | RListAny d op => wrapListAny m d op
  | RCreateAny d op => wrapCreateAny m d op
  | RSingleton op => wrapSingleton m op
  | RGet op => wrapGet m op
  | RCreate d op => wrapCreate m d op
  | RUpdate d op => wrapUpdate m d op
  | RPatch d op => wrapPatch m d op
  | RDelete op => wrapDelete m op
  | RBatchDelete d op => wrapBatchDelete m d op
  | RNamedDeleteCollectionAny d op => namedDeleteCollectionAny m d op
  | RNamedGet op => namedGet m op
  | RNamedCreate d op => namedCreate m d op
  | RNamedUpdate d op => namedUpdate m d op
  | RNamedPatch d op => namedPatch m d op
  | RNamedDelete op => namedDelete m op
  | RAction zero op => Action zero m op
  | RActionAny op => ActionAny m op
  | RVerb typeName op => Verb m typeName op
  | RVerbAny op => VerbAny m op
  end.

(** [forbiddenError]: a hand-written JSON status. *)
Definition forbiddenError : Response := mkResponse 403 "application/json" [] CText.

(** [Server.handle]'s chain: the authorization link around the handler. *)
Definition serveRoute {E C} `{PermissionChecker E C} (checker : option C) (skip : gset string) (m : routeMeta) (rt : Route)
    (h : Http) (w : W) : Response * W :=
  match (authzMiddleware checker skip m (hReq h)).1 with
  | Forbidden _ => (forbiddenError, w)
  | ServeNext af => handle m rt h af w
  end.

(** ** When an operation runs *)

(** The state change of one call of a route's operation: with the id or
    name of the context, the query of the URL, or an input the body gave. *)
Inductive calls (m : routeMeta) (h : Http) : Route -> Ctx -> (W -> W) -> Prop :=
| c_list d op ctx : calls m h (RList d op) ctx (fun w => (op ctx (listQuery d h) w).2)
| c_listAny d op ctx : calls m h (RListAny d op) ctx (fun w => (op ctx (listQuery d h) w).2)
| c_createAny d op ctx body : readBodyLimited h (dMaxBodyBytes d) = Ok body ->
    calls m h (RCreateAny d op) ctx (fun w => (op ctx body w).2)
| c_singleton op ctx : calls m h (RSingleton op) ctx (fun w => (op ctx w).2)
| c_get op ctx : calls m h (RGet op) ctx (fun w => (op ctx (cID ctx) w).2)
| c_create d op ctx o : decodeBody h (dMaxBodyBytes d) = Ok o -> calls m h (RCreate d op) ctx (fun w => (op ctx o w).2)
| c_update d op ctx o : decodeBody h (dMaxBodyBytes d) = Ok o -> calls m h (RUpdate d op) ctx (fun w => (op ctx (cID ctx) o w).2)
| c_patch d op ctx body : readBodyLimited h (dMaxBodyBytes d) = Ok body ->
    calls m h (RPatch d op) ctx (fun w => (op ctx (cID ctx) body w).2)
| c_delete op ctx : calls m h (RDelete op) ctx (fun w => (op ctx (cID ctx) w).2)
| c_batchDelete d op ctx ids : readIDs (dMaxBodyBytes d) h = Ok ids -> ids <> [] ->
    calls m h (RBatchDelete d op) ctx (fun w => (op ctx ids w).2)
| c_namedDeleteCollectionAny d op ctx body : readBodyLimited h (dMaxBodyBytes d) = Ok body ->
    calls m h (RNamedDeleteCollectionAny d op) ctx (fun w => (op ctx body w).2)
| c_namedGet op ctx : calls m h (RNamedGet op) ctx (fun w => (op ctx (cName ctx) w).2)
| c_namedCreate d op ctx o : readJSON (dMaxBodyBytes d) h = Ok o -> calls m h (RNamedCreate d op) ctx (fun w => (op ctx o w).2)
| c_namedUpdate d op ctx o : readJSON (dMaxBodyBytes d) h = Ok o ->
    calls m h (RNamedUpdate d op) ctx (fun w => (op ctx (cName ctx) o w).2)
| c_namedPatch d op ctx body : readBodyLimited h (dMaxBodyBytes d) = Ok body ->
    calls m h (RNamedPatch d op) ctx (fun w => (op ctx (cName ctx) body w).2)
| c_namedDelete op ctx : calls m h (RNamedDelete op) ctx (fun w => (op ctx (cName ctx) w).2)
| c_action zero op ctx req : readRequest zero (mMaxBodyBytes m) h = Ok req -> calls m h (RAction zero op) ctx (fun w => (op ctx req w).2)
| c_actionAny op ctx body : readBodyLimited h (mMaxBodyBytes m) = Ok body -> calls m h (RActionAny op) ctx (fun w => (op ctx body w).2)
| c_verb tn op ctx : calls m h (RVerb tn op) ctx (fun w => (op ctx (cID ctx) (verbQuery m h) w).2)
| c_verbAny op ctx : calls m h (RVerbAny op) ctx (fun w => (op ctx (cID ctx) (verbQuery m h) w).2).

(** Refused before any operation ran. *)
Definition refused (r : Response) : Prop := refusal (rsCode r).

Lemma writeError_code h e : rsCode (writeError h e) = errStatus e \/ rsCode (writeError h e) = 500.
Proof.
  unfold writeError, ErrorNegotiated. destruct (NegotiateOutputMediaType h codecs) as [[mt sr]|].
  - unfold SerializeObject. destruct (Encode sr "v1" _); auto.
  - unfold WriteRawJSON. destruct (jsonIndent _); auto.
Qed.

Lemma refused_error h e : refusal (errStatus e) -> refused (writeError h e).
Proof. intros H. unfold refused. destruct (writeError_code h e) as [-> | ->]; [done | unfold refusal; auto]. Qed.

Lemma readBodyLimited_err h limit e : readBodyLimited h limit = Err e -> refusal (errStatus e).
Proof.
  unfold readBodyLimited. destruct (rBody (hReq h)); [|done]. destruct (hReadError h); [intros [= <-]; cbn; unfold refusal; auto|].
  destruct (_ <? _); [intros [= <-]; cbn; unfold refusal; auto | done].
Qed.

(** No more of a body reaches an operation than its limit. *)
Lemma readBodyLimited_bound h limit body : readBodyLimited h limit = Ok body ->
  zlen body <= (if limit <=? 0 then DefaultMaxRequestBodySize else limit).
Proof.
  unfold readBodyLimited. destruct (rBody (hReq h)).
  - destruct (hReadError h); [done|]. destruct (Z.ltb_spec (if limit <=? 0 then DefaultMaxRequestBodySize else limit)
      (zlen (str_take (Z.to_nat ((if limit <=? 0 then DefaultMaxRequestBodySize else limit) + 1)) s))); [done|]. by intros [= <-].
  - intros [= <-]. change (zlen "") with 0. destruct (Z.leb_spec limit 0); unfold DefaultMaxRequestBodySize; lia.
Qed.

Lemma parseIDs_err ids e : parseIDs ids = Err e -> errStatus e = 400.
Proof.
  induction ids as [|x ids IH]; cbn; [done|]. destruct (ParseInt x 64); [|by intros [= <-]].
  destruct (parseIDs ids); cbn; [done|]. intros [= <-]. by apply IH.
Qed.

Lemma decodeBody_err h limit e : decodeBody h limit = Err e -> refusal (errStatus e).
Proof.
  unfold decodeBody. destruct (readBodyLimited h limit) eqn:E; cbn [rbind]; [|intros [= <-]; by eapply readBodyLimited_err].
  cbv zeta. match goal with |- context [SerializerInfoForMediaType ?a ?b] => destruct (SerializerInfoForMediaType a b) end;
    [|intros [= <-]; cbn; unfold refusal; auto].
  match goal with |- context [match ?x with Some o => Ok o | None => _ end] => destruct x end;
    [done | intros [= <-]; cbn; unfold refusal; auto].
Qed.

Lemma readIDs_err limit h e : readIDs limit h = Err e -> refusal (errStatus e).
Proof.
  unfold readIDs. destruct (readBodyLimited h limit) eqn:E; cbn; [|intros [= <-]; by eapply readBodyLimited_err].
  destruct (unmarshalIDs a) as [[|x l]|]; [intros [= <-]; cbn; unfold refusal; auto | | intros [= <-]; cbn; unfold refusal; auto].
  intros H%parseIDs_err. rewrite H. unfold refusal; auto.
Qed.

Lemma readIDs_nonempty limit h ids : readIDs limit h = Ok ids -> ids <> [].
Proof.
  unfold readIDs. destruct (readBodyLimited h limit); cbn; [|done]. destruct (unmarshalIDs a) as [[|x l]|]; [done | | done].
  cbn. destruct (ParseInt x 64); [|done]. destruct (parseIDs l); cbn; [by intros [= <-] | done].
Qed.

Lemma readJSON_err limit h e : readJSON limit h = Err e -> refusal (errStatus e).
Proof.
  unfold readJSON. destruct (readBodyLimited h limit) eqn:E; cbn; [|intros [= <-]; by eapply readBodyLimited_err].
  destruct (unmarshal a); [done | intros [= <-]; cbn; unfold refusal; auto].
Qed.

Lemma readRequest_err zero limit h e : readRequest zero limit h = Err e -> refusal (errStatus e).
Proof.
  unfold readRequest. destruct (readBodyLimited h limit) eqn:E; cbn; [|intros [= <-]; by eapply readBodyLimited_err].
  destruct (a =s ""); [done|]. destruct (unmarshal a); [done | intros [= <-]; cbn; unfold refusal; auto].
Qed.

(** What a handler does to the state: one call, or nothing and a refusal. *)
Definition Outcome (m : routeMeta) (h : Http) (af : option AccessFilter) (rt : Route) (w : W) (x : Response * W) : Prop :=
  (exists ctx f, buildCtx (hReq h) m af = Ok ctx /\ calls m h rt ctx f /\ x.2 = f w) \/ (x.2 = w /\ refused x.1).

Lemma withCtx_outcome m h af rt w (k : Ctx -> Handler) :
  (forall ctx, buildCtx (hReq h) m af = Ok ctx -> Outcome m h af rt w (k ctx h af w)) -> Outcome m h af rt w (withCtx m k h af w).
Proof.
  intros H. unfold withCtx. destruct (buildCtx (hReq h) m af) as [ctx|[msg]] eqn:E; [by apply H|].
  right. split; [done|]. apply refused_error. cbn. unfold refusal; auto.
Qed.

Lemma withInput_outcome {I} m h af rt w (read : Http -> result GoErr I) (k : I -> Handler) :
  (forall e, read h = Err e -> refusal (errStatus e)) ->
  (forall i, read h = Ok i -> Outcome m h af rt w (k i h af w)) -> Outcome m h af rt w (withInput read k h af w).
Proof.
  intros He Hk. unfold withInput. destruct (read h) as [i|e] eqn:E; [by apply Hk|]. right. split; [done|]. by apply refused_error, He.
Qed.

Lemma call_outcome {O} m h af rt w ctx (op : Op O) mapErr answer :
  buildCtx (hReq h) m af = Ok ctx -> calls m h rt ctx (fun w => (op w).2) -> Outcome m h af rt w (call op mapErr answer h af w).
Proof.
  intros Hc H. left. exists ctx, (fun w => (op w).2). split; [done|]. split; [done|]. unfold call. by destruct (op w) as [[? ?] ?].
Qed.

#[local] Hint Resolve readBodyLimited_err decodeBody_err readIDs_err readJSON_err readRequest_err readIDs_nonempty : core.

Lemma handle_outcome m rt h af w : Outcome m h af rt w (handle m rt h af w).
Proof using All.
  destruct rt; cbn [handle]; apply withCtx_outcome; intros ctx Hc;
    first [ eapply call_outcome; [done | constructor] | apply withInput_outcome; [eauto|]; intros i Hi;
            eapply call_outcome; [done | econstructor; eauto] ].
Qed.

(** The scope the operation sees is the scope the caller was checked at. *)
Definition scopeChecked (m : routeMeta) (r : Request) (ctx : Ctx) : Prop :=
  match mItemScopeResolver m with
  | Some resolve =>
      if negb (mIDParam m =s "") && (mScopeLevel m =? ScopePlatform)
      then mStringID m = false -> routeScope m r = resolve (cID ctx)
      else routeScope m r = cScope ctx
  | None => routeScope m r = cScope ctx
  end.

Lemma buildCtx_caller r m af ctx : buildCtx r m af = Ok ctx -> cUserID ctx = default 0 (rUserID r) /\ cAccess ctx = af.
Proof.
  unfold buildCtx. intros H. apply rbind_Ok in H as (ws & _ & H). apply rbind_Ok in H as (ns & _ & H).
  apply rbind_Ok in H as (ps & _ & H). apply rbind_Ok in H as (item & _ & H). by injection H as <-.
Qed.

(** C2: Operations run only for requests that were allowed to. Whatever the
    route and its operation, and whatever the permission checker does: a
    served request changes the state by exactly one call of the operation,
    made for the caller, with the access filter and at the scope the
    authorization link decided on, with the id, name or query of its own
    URL and a body within the limit that decoded; or it changes nothing and
    is answered 400, 403, 413 or 500. *)
Theorem ops_run_authorised {E C} `{PermissionChecker E C} (c : C) skip m rt h w :
  let x := serveRoute (Some c) skip m rt h w in
  (exists af ctx f, reason c skip m (hReq h) af /\ calls m h rt ctx f /\ x.2 = f w
     /\ cUserID ctx = default 0 (rUserID (hReq h)) /\ cAccess ctx = af /\ scopeChecked m (hReq h) ctx)
  \/ (x.2 = w /\ refused x.1).
Proof using All.
  cbv zeta. unfold serveRoute. destruct (authzMiddleware (Some c) skip m (hReq h)).1 as [af|msg] eqn:A.
  - destruct (handle_outcome m rt h af w) as [(ctx & f & Hc & Hf & Hw)|R]; [|by right]. left. exists af, ctx, f.
    destruct (buildCtx_caller _ _ _ _ Hc) as [Hu Ha]. split_and!; [by apply authz_reason | done | done | done | done |].
    apply (buildCtx_scope_authorized _ _ _ _ Hc).
  - right. split; [done|]. unfold refused, refusal. cbn. auto.
Qed.

End Wrappers.

(** A file name cannot end its quotes or its header line. *)
Lemma safeName_clean s c : c ∈ [ascii_of_nat 34; ascii_of_nat 13; ascii_of_nat 10] -> str_in c (safeName s) = false.
Proof.
  intros Hc. induction s as [|x s IH]; [done|]. cbn [safeName]. case_bool_decide as Hx; [done|]. cbn.
  rewrite IH, orb_false_r. apply Ascii.eqb_neq. intros ->. done.
Qed.

(** ** Examples *)

(** A resource of strings, decoded as they are; the state counts calls. *)
Definition demoCreate : Ctx -> string -> nat -> (result GoErr (option string) * list (string * string)) * nat :=
  fun _ o n => ((Ok (Some o), []), S n).

Definition demoRoute : Route (T := string) (J := unit) (W := nat) := RCreate (mkDef 0 16 "" "Host") demoCreate.

Definition demoHttp (contentType accept body : string) : Http :=
  mkHttp {| rMethod := "POST"; rPath := "/api/compute/v1/workspaces/7/hosts"; rDryRun := ""; rBody := Some body;
            rPathValues := {["workspaceId" := "7"]}; rUserID := Some 1; rUsername := "alice"; rUpgrade := "" |}
    ∅ false contentType accept.

Definition demoServe (contentType accept body : string) : Z * nat :=
  let x := serveRoute (fun _ _ => Some "{}") (fun _ _ => Some "{}") (fun _ => Some "{}") Some Some Some (fun _ => None)
             (Some demoChecker) ∅ demoMeta demoRoute (demoHttp contentType accept body) 0%nat in
  (rsCode x.1, x.2).

Example demo_codes :
  demoServe "application/json" "" "web" = (201, 1%nat)
  /\ demoServe "" "application/*;q=0.5" "web" = (201, 1%nat)
  /\ demoServe "" "" "a body over the limit" = (413, 0%nat).
Proof. split_and!; vm_compute; reflexivity. Qed.

(** A charset parameter makes the content type unknown, and the answer a
    server error. *)
Example charset_refused : demoServe "application/json; charset=utf-8" "" "web" = (500, 0%nat).
Proof. vm_compute. reflexivity. Qed.

(** An Accept header the server cannot honour is found out after the
    operation: the object is created and the answer is a server error. *)
Example not_acceptable_after_the_fact : demoServe "application/json" "text/html" "web" = (500, 1%nat).
Proof. vm_compute. reflexivity. Qed.

End Handlers.
