(* ===== verification/ApiIam.v ===== *)
(** * The IAM API, end to end

    The resources of [pkg/apis/iam] as they are registered
    ([newRegistrar] of [install.go]) and a tenant list request through all
    the layers below it: route metadata, authorization on the caller's
    bindings, the handler wrapper and the list statements on one database. *)

From S2P Require Import Prelude Rbac ApiRoutes ApiServe ListQuery IamDb IamStore SqlList IamLists IamListsExact ApiHandlers.

Module ApiIam.
Import Rbac Serve ListQ IamDb IamStore SqlList IamLists IamListsExact Handlers.
Import Api.

(** ** The registered resources *)

(** [selfUserAllow]: a user may read their own user resource and change
    their own password. *)
Definition selfUserAllow (permCode : string) (r : Request) (userID : Z) : bool :=
  if negb (permCode =s "iam:users:get") && negb (permCode =s "iam:users:change-password") then false
  else
    let raw := pathValue r "userId" in
    let raw := match cutAt ":" raw with Some (String c s, _) => String c s | _ => raw end in
    match ParseInt raw 64 with Some id => id =? userID | None => false end.

Definition postAction (nm code : string) : ActionDef :=
  {| aName := nm; aMethod := "POST"; aOnItem := true; aStatusCode := 0; aSensitive := false; aInteractive := false;
     aPermission := [code]; aHandler := true |}.

Definition verbNamed (nm : string) : VerbDef := {| vName := nm; vHandler := true |}.

(** A definition of group [iam] with the zero values of the fields it
    leaves out. *)
Definition iamDef (nm : string) (scopes : Z) (ops : Ops) (vs : list string) (typeName : string) : ResourceDef :=
  {| dGroup := "iam"; dVersion := ""; dName := nm; dScopes := scopes; dParent := ""; dIDParam := ""; dOps := ops;
     dActions := []; dVerbs := verbNamed <$> vs; dSingletonGet := false; dPermissionTargets := [];
     dMaxPageSize := 0; dMaxBodyBytes := 0; dSensitive := false; dExtraAllow := None; dListAccessScope := "";
     dPermScope := 0; dItemScopeResolver := None; dTypeName := typeName; dIsObject := true |}.

Definition crud (patch : bool) : Ops :=
  {| List := true; Get := true; Create := true; Update := true; Delete := true; BatchDelete := true;
     Patch := patch; ListAny := false; CreateAny := false |}.

Definition memberOps : Ops :=
  {| List := true; Get := true; Create := false; Update := false; Delete := false; BatchDelete := true;
     Patch := false; ListAny := false; CreateAny := true |}.

Definition bindingOps : Ops :=
  {| List := true; Get := false; Create := false; Update := false; Delete := true; BatchDelete := true;
     Patch := false; ListAny := false; CreateAny := true |}.

Definition UsersDef : ResourceDef :=
  {| dGroup := "iam"; dVersion := ""; dName := "users"; dScopes := 0; dParent := ""; dIDParam := ""; dOps := crud true;
     dActions := [postAction "change-password" "iam:users:change-password"; postAction "reset-password" "iam:users:reset-password"];
     dVerbs := verbNamed <$> ["workspaces"; "namespaces"; "rolebindings"; "permissions"];
     dSingletonGet := false; dPermissionTargets := []; dMaxPageSize := 0; dMaxBodyBytes := 0; dSensitive := true;
     dExtraAllow := Some selfUserAllow; dListAccessScope := ""; dPermScope := 0; dItemScopeResolver := None;
     dTypeName := "User"; dIsObject := true |}.

(** Workspaces and namespaces: a list filtered by the caller's bindings, and
    items checked at their own scope. *)
Definition tenantDef (nm : string) (scopes permScope : Z) (resolve : Z -> ScopeInfo) (typeName : string) : ResourceDef :=
  {| dGroup := "iam"; dVersion := ""; dName := nm; dScopes := scopes; dParent := ""; dIDParam := ""; dOps := crud true;
     dActions := []; dVerbs := []; dSingletonGet := false; dPermissionTargets := []; dMaxPageSize := 0;
     dMaxBodyBytes := 0; dSensitive := false; dExtraAllow := None; dListAccessScope := nm; dPermScope := permScope;
     dItemScopeResolver := Some resolve; dTypeName := typeName; dIsObject := true |}.

Definition WorkspacesDef : ResourceDef :=
  tenantDef "workspaces" 0 ScopeWorkspace (fun id => {| Level := ScopeWorkspace; WorkspaceID := id; NamespaceID := 0 |}) "Workspace".

(** [workspaceIDOf]: what [WorkspaceIDOf] answers, 0 when it fails. *)
Definition NamespacesDef (workspaceIDOf : Z -> Z) : ResourceDef :=
  tenantDef "namespaces" (Z.lor ScopePlatform ScopeWorkspace) ScopeNamespace
    (fun id => {| Level := ScopeNamespace; WorkspaceID := workspaceIDOf id; NamespaceID := id |}) "Namespace".

Definition WorkspaceUsersDef : ResourceDef := iamDef "users" ScopeWorkspace memberOps ["rolebindings"] "User".
Definition NamespaceUsersDef : ResourceDef := iamDef "users" ScopeNamespace memberOps ["rolebindings"] "User".
Definition RoleBindingsDef : ResourceDef := iamDef "rolebindings" 0 bindingOps [] "RoleBinding".
Definition WorkspaceRoleBindingsDef : ResourceDef := iamDef "rolebindings" ScopeWorkspace bindingOps [] "RoleBinding".
Definition NamespaceRoleBindingsDef : ResourceDef := iamDef "rolebindings" ScopeNamespace bindingOps [] "RoleBinding".
Definition RolesDef : ResourceDef := iamDef "roles" 0 (crud false) [] "Role".
Definition ScopedRolesDef (scope : string) : ResourceDef :=
  iamDef "roles" (if scope =s Rbac.ScopeNamespace then ScopeNamespace else ScopeWorkspace) (crud false) [] "Role".
Definition PermissionsDef : ResourceDef :=
  iamDef "permissions" 0 {| List := true; Get := false; Create := false; Update := false; Delete := false; BatchDelete := false;
                            Patch := false; ListAny := false; CreateAny := false |} [] "Permission".

(** In the order of [newRegistrar]. *)
Definition iamDefs (workspaceIDOf : Z -> Z) : list ResourceDef :=
  [UsersDef; WorkspacesDef; NamespacesDef workspaceIDOf; WorkspaceUsersDef; NamespaceUsersDef; RoleBindingsDef;
   WorkspaceRoleBindingsDef; NamespaceRoleBindingsDef; RolesDef; ScopedRolesDef Rbac.ScopeWorkspace;
   ScopedRolesDef Rbac.ScopeNamespace; PermissionsDef].

Fixpoint registerAll (srv : Server) (defs : list ResourceDef) : result string Server :=
  match defs with
  | [] => Ok srv
  | def :: rest => srv' <-! Register srv def ;; registerAll srv' rest
  end.

Definition registrar (workspaceIDOf : Z -> Z) (srv : Server) : result string Server := registerAll srv (iamDefs workspaceIDOf).

Definition PermListCode : string := "iam:permissions:list".

(** The server [buildRootHandler] creates, with the module registered. *)
Definition server (workspaceIDOf : Z -> Z) : result string Server := registrar workspaceIDOf (New [PermListCode]).

(** [mux] lookup. *)
Definition routeMetaOf (workspaceIDOf : Z -> Z) (pattern : string) : option routeMeta :=
  match server workspaceIDOf with
  | Ok srv => snd <$> List.find (fun entry => entry.1 =s pattern) (mux srv)
  | Err _ => None
  end.

(** ** The tenant lists *)

Inductive TenantList :=
| TUsers | TRoles | TBindings
| TWorkspaceUsers | TWorkspaceRoles | TWorkspaceBindings | TWorkspaceNamespaces | TWorkspaceUserBindings
| TNamespaceUsers | TNamespaceRoles | TNamespaceBindings | TNamespaceUserBindings.

Definition levelOf (t : TenantList) : Z :=
  match t with
  | TUsers | TRoles | TBindings => ScopePlatform
  | TWorkspaceUsers | TWorkspaceRoles | TWorkspaceBindings | TWorkspaceNamespaces | TWorkspaceUserBindings => ScopeWorkspace
  | TNamespaceUsers | TNamespaceRoles | TNamespaceBindings | TNamespaceUserBindings => ScopeNamespace
  end.

Definition resourceOf (t : TenantList) : string :=
  match t with
  | TUsers | TWorkspaceUsers | TNamespaceUsers | TWorkspaceUserBindings | TNamespaceUserBindings => "users"
  | TRoles | TWorkspaceRoles | TNamespaceRoles => "roles"
  | TBindings | TWorkspaceBindings | TNamespaceBindings => "rolebindings"
  | TWorkspaceNamespaces => "namespaces"
  end.

Definition isVerb (t : TenantList) : bool :=
  match t with TWorkspaceUserBindings | TNamespaceUserBindings => true | _ => false end.

Definition patternOf (t : TenantList) : string :=
  "GET /api/iam/v1" +++ pathPrefix (levelOf t) +++ "/" +++ resourceOf t +++ (if isVerb t then "/{userId}/rolebindings" else "").

Definition codeOf (t : TenantList) : string := "iam:" +++ resourceOf t +++ ":" +++ (if isVerb t then "get" else "list").

(** The API's items, each by its row. *)
Inductive Item := IUser (u : UserRow) | IMember (u : UserItem) | INamespace (n : NamespaceDetail) | IRole (r : RoleListRow) | IBinding (b : BindingRow).

Definition itemID (i : Item) : Z :=
  match i with IUser u => urID u | IMember u => uiID u | INamespace n => ndID n | IRole r => rlID r | IBinding b => brID b end.

(** What the path asks for. *)
Definition endpointOf (t : TenantList) (ctx : Ctx) : Endpoint :=
  let ws := WorkspaceID (cScope ctx) in let ns := NamespaceID (cScope ctx) in
  match t with
  | TUsers => EUsers
  | TRoles => ERoles
  | TBindings => EBindings
  | TWorkspaceUsers => EWorkspaceUsers ws
  | TWorkspaceRoles => EWorkspaceRoles ws
  | TWorkspaceBindings => EWorkspaceBindings ws
  | TWorkspaceNamespaces => EWorkspaceNamespaces ws
  | TWorkspaceUserBindings => EWorkspaceUserBindings ws (cID ctx)
  | TNamespaceUsers => ENamespaceUsers ns
  | TNamespaceRoles => ENamespaceRoles ns
  | TNamespaceBindings => ENamespaceBindings ns
  | TNamespaceUserBindings => ENamespaceUserBindings ns (cID ctx)
  end.

(** A store operation as the operation of a route. *)
Definition asOp (m : M GoErr (list Item * Z)) : Op (W := Sys) (option (list Item * Z)) := fun s =>
  match m s with
  | (Ok res, s') => ((Ok (Some res), []), s')
  | (Err e, s') => ((Err e, []), s')
  end.

Section Lists.
Context (fold : string -> string) (collate : string -> string -> comparison).
Context (createdAt updatedAt : Table -> Z -> Z) (tie : Z -> Z) (agg : list Role -> list Role).

(** The [list] methods and verb functions of the definitions above. *)
Definition opOf (t : TenantList) (ctx : Ctx) (q : Query) : M GoErr (list Item * Z) :=
  let ws := WorkspaceID (cScope ctx) in let ns := NamespaceID (cScope ctx) in
  match t with
  | TUsers => items IUser (userOps_list fold collate createdAt updatedAt tie q)
  | TRoles => items IRole (roleOps_list fold collate createdAt tie q)
  | TBindings => items IBinding (roleBindingOps_list fold collate createdAt tie q)
  | TWorkspaceUsers => items IMember (workspaceUserOps_list fold collate createdAt updatedAt tie ws q)
  | TWorkspaceRoles => items IRole (scopedRoleOps_list fold collate createdAt tie Rbac.ScopeWorkspace ws 0 q)
  | TWorkspaceBindings => items IBinding (workspaceRoleBindingOps_list fold collate createdAt tie ws q)
  | TWorkspaceNamespaces => items INamespace (namespaceOps_list fold collate createdAt updatedAt tie (Some ws) None q)
  | TWorkspaceUserBindings => items IBinding (WorkspaceUserRoleBindingsVerb fold collate createdAt tie ws (cID ctx) q)
  | TNamespaceUsers => items IMember (namespaceUserOps_list fold collate createdAt updatedAt tie ns q)
  | TNamespaceRoles => items IRole (scopedRoleOps_list fold collate createdAt tie Rbac.ScopeNamespace 0 ns q)
  | TNamespaceBindings => items IBinding (namespaceRoleBindingOps_list fold collate createdAt tie ns q)
  | TNamespaceUserBindings => items IBinding (NamespaceUserRoleBindingsVerb fold collate createdAt tie ns (cID ctx) q)
  end.

Definition typeOf (t : TenantList) : string :=
  match t with
  | TUsers | TWorkspaceUsers | TNamespaceUsers => "User"
  | TRoles | TWorkspaceRoles | TNamespaceRoles => "Role"
  | TWorkspaceNamespaces => "Namespace"
  | _ => "RoleBinding"
  end.

Definition routeOf (t : TenantList) : Route (T := Item) (J := unit) (W := Sys) :=
  if isVerb t then RVerb (typeOf t) (fun ctx _ q => asOp (opOf t ctx q))
  else RList (mkDef 0 0 "" (typeOf t)) (fun ctx q => asOp (opOf t ctx q)).

End Lists.

(** What registration made of the routes: the hook of platform users does
    not concern lists, and no tenant list is checked at an item's scope. *)
Lemma routed workspaceIDOf t :
  match routeMetaOf workspaceIDOf (patternOf t) with
  | Some m => mPermCodes m = [codeOf t] /\ mAccessScope m = "" /\ mScopeLevel m = levelOf t /\ mMaxPageSize m = 0
      /\ (mExtraAllow m = None \/ mExtraAllow m = Some (fun _ _ => false))
      /\ (mItemScopeResolver m = None \/ mIDParam m = "")
  | None => False
  end.
Proof. destruct t; vm_compute; split_and!; auto. Qed.

(** ** Permissions on the tables *)

(** A binding of the user, of a role with a rule for the code, that covers
    the scope. *)
Definition granted (d : DB) (u : Z) (scope : string) (ws ns : Z) (code : string) : Prop :=
  exists i b p, bindings d !! i = Some b /\ bUserID b = u /\ (bRoleID b, p) ∈ rules d /\ matches p code
    /\ (bScope b = Rbac.ScopePlatform
        \/ (bScope b = Rbac.ScopeWorkspace /\ bWorkspaceID b = Some ws
            /\ (scope = Rbac.ScopeWorkspace \/ scope = Rbac.ScopeNamespace) /\ 0 < ws)
        \/ (bScope b = Rbac.ScopeNamespace /\ bNamespaceID b = Some ns /\ scope = Rbac.ScopeNamespace /\ 0 < ns)).

(** What the tenant itself lies in, and a binding of the user that governs
    it. *)
Definition tenantIn (d : DB) (t : TenantList) (ctx : Ctx) (w : Z) : Prop :=
  (levelOf t = ScopeWorkspace /\ WorkspaceID (cScope ctx) = w)
  \/ (levelOf t = ScopeNamespace /\ exists n, namespaces d !! NamespaceID (cScope ctx) = Some n /\ nsWorkspaceID n = w).

Definition governs (d : DB) (u : Z) (t : TenantList) (ctx : Ctx) : Prop :=
  exists i b p, bindings d !! i = Some b /\ bUserID b = u /\ (bRoleID b, p) ∈ rules d /\ matches p (codeOf t)
    /\ (bScope b = Rbac.ScopePlatform
        \/ (bScope b = Rbac.ScopeWorkspace /\ exists w, bWorkspaceID b = Some w /\ tenantIn d t ctx w)
        \/ (bScope b = Rbac.ScopeNamespace /\ levelOf t = ScopeNamespace /\ bNamespaceID b = Some (NamespaceID (cScope ctx)))).

(** The path of a namespace names its workspace. *)
Definition inStep (d : DB) (t : TenantList) (ctx : Ctx) : Prop :=
  levelOf t = ScopeNamespace -> tenantIn d t ctx (WorkspaceID (cScope ctx)).

Lemma granted_governs d u t ctx : inStep d t ctx ->
  granted d u (name (levelOf t)) (WorkspaceID (cScope ctx)) (NamespaceID (cScope ctx)) (codeOf t) -> governs d u t ctx.
Proof.
  intros H (i & b & p & Hb & Hu & Hp & Hm & C). exists i, b, p. split_and!; [done..|].
  destruct C as [C | [(C & Cw & Cs & _) | (C & Cn & Cs & _)]]; [by left | right; left | right; right].
  - split; [done|]. exists (WorkspaceID (cScope ctx)). split; [done|]. destruct Cs as [Cs|Cs].
    + left. split; [|done]. revert Cs. by destruct t.
    + apply H. revert Cs. by destruct t.
  - split_and!; [done | | done]. revert Cs. by destruct t.
Qed.

Lemma granted_rows d u scope ws ns code :
  granted d u scope ws ns code <-> HasPermission (buildEntry (permissionRows d u)) code scope ws ns = true.
Proof.
  rewrite HasPermission_rows. unfold applies, isPlatformRow, isWorkspaceRow, isNamespaceRow. split.
  - intros (i & b & p & Hb & Hu & Hp & Hm & Hc).
    exists {| rowScope := bScope b; rowWorkspaceID := bWorkspaceID b; rowNamespaceID := bNamespaceID b; rowPattern := p |}.
    split; [apply elem_of_permissionRows; eauto 10|]. cbn. split; [tauto | done].
  - intros (row & (i & b & Hb & Hu & Hp & -> & -> & ->)%elem_of_permissionRows & Hc & Hm). exists i, b, (rowPattern row). tauto.
Qed.

(** Checking a concrete code for a platform administrator, or at the scope,
    is one question. *)
Lemma checked_granted d u scope ws ns code : concrete code = true ->
  IsPlatformAdmin (buildEntry (permissionRows d u)) || HasAnyPermission (buildEntry (permissionRows d u)) [code] scope ws ns = true
  <-> granted d u scope ws ns code.
Proof.
  intros C. rewrite HasAnyPermission_concrete, granted_rows, orb_true_iff by done. split; [|by right].
  intros [A|A]; [|done]. by apply IsPlatformAdmin_grants_all in A as [_ A].
Qed.

(** ** The lists behind the routes *)

Section Served.
Context (fold : string -> string) (collate : string -> string -> comparison).
Context (createdAt updatedAt : Table -> Z -> Z) (tie : Z -> Z) (agg : list Role -> list Role).

#[local] Abbreviation op := (opOf fold collate createdAt updatedAt tie).
#[local] Abbreviation view_ := (view fold collate createdAt updatedAt agg).
#[local] Abbreviation listed_ := (listed fold collate createdAt updatedAt tie agg).

Lemma page_items {A B C} (f : A -> B) (g : B -> C) (m : M GoErr (list A * Z)) s : items g (items f m) s = items (g ∘ f) m s.
Proof. unfold items, bind, ret. destruct (m s) as [[[l t]|e] s']; [|done]. by rewrite list_fmap_compose. Qed.

Lemma op_serves t ctx q s :
  items itemID (op t ctx q) s = serve fold collate createdAt updatedAt tie agg (endpointOf t ctx) q s.
Proof. destruct t; cbn [opOf endpointOf serve]; by rewrite page_items. Qed.

Lemma items_inv {A B} (f : A -> B) (m : M GoErr (list A * Z)) s l t s' :
  items f m s = (Ok (l, t), s') -> exists l0, m s = (Ok (l0, t), s') /\ f <$> l0 = l.
Proof. unfold items, bind, ret. destruct (m s) as [[[l0 t0]|e] s0]; [|done]. intros [= <- <- <-]. by exists l0. Qed.

Lemma op_runs t ctx q s : healthy s -> inRange_ q ->
  exists l s', op t ctx q s = (Ok (l, vCount (view_ (endpointOf t ctx) q) (sdb s)), s') /\ sdb s' = sdb s
    /\ itemID <$> l = (pageOf collate tie (view_ (endpointOf t ctx) q) q (sdb s)).1.
Proof.
  intros H R. destruct (serve_runs fold collate createdAt updatedAt tie agg (endpointOf t ctx) q s H R) as (s' & E & D & _).
  rewrite <- op_serves in E. unfold pageOf in *. destruct (PaginationToOffsetLimit (qPagination q)) as [offset limit].
  apply items_inv in E as (l & E & Hl). by exists l, s'.
Qed.

Lemma page_allowed t ctx q d id : in64 (endpointOf t ctx) ->
  id ∈ (pageOf collate tie (view_ (endpointOf t ctx) q) q d).1 -> allowed (endpointOf t ctx) q d id.
Proof.
  intros R H. apply (view_sound fold collate createdAt updatedAt agg); [done|].
  rewrite <- (listed_perm fold collate createdAt updatedAt tie agg). unfold pageOf in H.
  destruct (PaginationToOffsetLimit (qPagination q)) as [offset limit]. cbn [fst] in H.
  rewrite <- (take_drop (Z.to_nat offset)), elem_of_app. right. rewrite <- (take_drop (Z.to_nat limit)), elem_of_app. by left.
Qed.

(** ** A request, end to end *)

Context (jsonObject jsonObjectIndent : string -> option (Object (T := Item)) -> option string).
Context (jsonIndent : option (Object (T := Item)) + unit -> option string) (jsonToYAML yamlToJSON : string -> option string).
Context (unmarshal : string -> option Item) (unmarshalIDs : string -> option (list string)).

#[local] Abbreviation serveRoute_ := (serveRoute jsonObject jsonObjectIndent jsonIndent jsonToYAML yamlToJSON unmarshal unmarshalIDs).
#[local] Abbreviation writeObject_ := (writeObject jsonObject jsonObjectIndent jsonIndent jsonToYAML).

Definition notFound : Response (T := Item) (J := unit) := mkResponse 404 "text/plain; charset=utf-8" [] CText.

(** The request [h] for the pattern of [t] on the registered server, with
    the RBAC checker in state [c]. *)
Definition serveIAM {E} (c : RBACState E) (workspaceIDOf : Z -> Z) (t : TenantList) (h : Http) (s : Sys) : Response * Sys :=
  match routeMetaOf workspaceIDOf (patternOf t) with
  | Some m => serveRoute_ (Some c) {[PermListCode]} m (routeOf fold collate createdAt updatedAt tie t) h s
  | None => (notFound, s)
  end.

Lemma handle_list m t h ctx s l total s' :
  let q := parseListQuery (hQuery h) 0 in
  mMaxPageSize m = 0 -> buildCtx (hReq h) m None = Ok ctx -> op t ctx q s = (Ok (l, total), s') ->
  Handlers.handle jsonObject jsonObjectIndent jsonIndent jsonToYAML yamlToJSON unmarshal unmarshalIDs m
    (routeOf fold collate createdAt updatedAt tie t) h None s
  = (writeObject_ h m 200 [] (Some (OList (typeOf t +++ "List") l total)), s').
Proof.
  intros q Hm Hc Ho. unfold routeOf. destruct (isVerb t); cbn [Handlers.handle]; unfold Verb, wrapList, withCtx, call, asOp;
    rewrite Hc; [unfold verbQuery; rewrite Hm|]; fold q; unfold listQuery; cbn [Handlers.dMaxPageSize]; fold q; by rewrite Ho.
Qed.

Lemma buildCtx_level r m af ctx : buildCtx r m af = Ok ctx ->
  Level (cScope ctx) = mScopeLevel m /\ in_int64 (WorkspaceID (cScope ctx)).
Proof.
  unfold buildCtx. intros H. apply rbind_Ok in H as (ws & Hws & H). apply rbind_Ok in H as (ns & _ & H).
  apply rbind_Ok in H as (ps & _ & H). apply rbind_Ok in H as (item & _ & H). injection H as <-. split; [done|]. cbn.
  unfold parsePathID in Hws. destruct (hasBit _ _); [|by injection Hws as <-].
  destruct (ParseInt _ 64) as [z|] eqn:P; [|done]. injection Hws as <-. apply ParseInt_range in P. exact P.
Qed.

Lemma scope_checked workspaceIDOf t m r af ctx :
  routeMetaOf workspaceIDOf (patternOf t) = Some m -> buildCtx r m af = Ok ctx ->
  routeScope m r = cScope ctx /\ Level (cScope ctx) = levelOf t.
Proof.
  intros Hr Hc. pose proof (routed workspaceIDOf t) as F. rewrite Hr in F. destruct F as (_ & _ & Hl & _ & _ & Hi).
  pose proof (buildCtx_scope_authorized _ _ _ _ Hc) as X. destruct (buildCtx_level _ _ _ _ Hc) as [L _]. split; [|by rewrite L].
  destruct Hi as [Hi|Hi]; rewrite Hi in X; [done|]. by destruct (mItemScopeResolver m).
Qed.

Lemma code_checked t : concrete (codeOf t) = true /\ codeOf t <> PermListCode.
Proof. by destruct t. Qed.

Lemma authz_lists {E} (c : RBACState E) workspaceIDOf t m h u ctx d :
  routeMetaOf workspaceIDOf (patternOf t) = Some m -> rUserID (hReq h) = Some u -> buildCtx (hReq h) m None = Ok ctx ->
  (loadEntry (rbLoad c) (rbNow c) (rbNow c) u (rbCache c)).1 = Ok (buildEntry (permissionRows d u)) ->
  let g := granted d u (name (levelOf t)) (WorkspaceID (cScope ctx)) (NamespaceID (cScope ctx)) (codeOf t) in
  (g -> (authzMiddleware (Some c) {[PermListCode]} m (hReq h)).1 = ServeNext None)
  /\ (~ g -> exists msg, (authzMiddleware (Some c) {[PermListCode]} m (hReq h)).1 = Forbidden msg).
Proof.
  intros Hr Hu Hc He g. destruct (scope_checked _ _ _ _ _ _ Hr Hc) as [S L].
  pose proof (routed workspaceIDOf t) as F. rewrite Hr in F. destruct F as (Hp & Ha & _ & _ & Hx & _).
  destruct (code_checked t) as [C N]. rewrite (authz_rbac_eval c _ m (hReq h) u (buildEntry (permissionRows d u))).
  - rewrite Hp, S, L. pose proof (checked_granted d u (name (levelOf t)) (WorkspaceID (cScope ctx)) (NamespaceID (cScope ctx)) _ C) as G.
    fold g in G. destruct (_ || _); split; [done | | intros X%G | eauto]; [|done]. intros X. by destruct X; apply G.
  - done.
  - unfold whitelisted. rewrite Hp. cbn [length hd]. apply bool_decide_eq_false. by rewrite elem_of_singleton.
  - destruct Hx as [-> | ->]; done.
  - done.
  - done.
Qed.


End Served.

(** ** An example *)

(** Ann administers workspace 1; workspace 2 holds namespace 9, where Bob is
    a member. *)
Definition twoTenants : DB :=
  set_users {[1 := demoUser "ann"; 2 := demoUser "bob"; 3 := demoUser "eve"]}
  (set_workspaces {[1 := mkWorkspace "w1" "" "" 1 "active" None; 2 := mkWorkspace "w2" "" "" 3 "active" None]}
  (set_namespaces {[9 := mkNamespace "n9" "" "" 2 3 "private" 0 "active" None]}
  (set_roles {[1 := mkRole "admin" "" "" Rbac.ScopeWorkspace true (Some 1) None;
               2 := mkRole "dev" "" "" Rbac.ScopeNamespace false (Some 2) (Some 9)]}
  (set_rules {[(1, "*:*")]}
  (set_bindings {[1 := mkBinding 1 1 Rbac.ScopeWorkspace (Some 1) None false;
                  2 := mkBinding 2 2 Rbac.ScopeNamespace (Some 2) (Some 9) false]} emptyDB))))).

Definition twoSys : Sys := mkSys twoTenants (fun _ => 10) [] None [] ∅.

Definition twoChecker : RBACState string :=
  {| rbCache := ∅; rbNow := 0; rbLoad := fun u => Ok (permissionRows twoTenants u);
     rbWorkspaces := fun _ => Ok []; rbNamespaces := fun _ => Ok [] |}.

Definition getAs (u ws ns : Z) : Http :=
  mkHttp {| rMethod := "GET"; rPath := ""; rDryRun := ""; rBody := None;
            rPathValues := {["workspaceId" := FormatInt ws; "namespaceId" := FormatInt ns]};
            rUserID := Some u; rUsername := ""; rUpgrade := "" |} ∅ false "" "".

Definition twoServe (t : TenantList) (h : Http) : Response (T := Item) (J := unit) * Sys :=
  serveIAM (fun s => s) String.compare (fun _ _ => 0) (fun _ _ => 0) (fun i => i)
    (fun _ _ => Some "{}") (fun _ _ => Some "{}") (fun _ => Some "{}") Some Some (fun _ => None) (fun _ => None)
    twoChecker (fun _ => 2) t h twoSys.

Definition served (x : Response (T := Item) (J := unit) * Sys) : Z * option (list Z) :=
  (rsCode x.1, match rsContent x.1 with CObject _ (Some (OList _ l _)) _ => Some (itemID <$> l) | _ => None end).

Example own_workspace_listed :
  served (twoServe TWorkspaceUsers (getAs 1 1 0)) = (200, Some [1]) /\ served (twoServe TWorkspaceUsers (getAs 2 1 0)) = (403, None)
  /\ served (twoServe TWorkspaceUsers (getAs 1 2 0)) = (403, None).
Proof. split_and!; vm_compute; reflexivity. Qed.

Definition usersMeta : routeMeta :=
  default (meta (mkReg UsersDef None) ScopePlatform "list" false) (routeMetaOf (fun _ => 2) (patternOf TWorkspaceUsers)).

Definition usersCtx (u ws : Z) : Ctx :=
  {| cUserID := u; cUsername := ""; cScope := {| Level := ScopeWorkspace; WorkspaceID := ws; NamespaceID := 0 |};
     cID := 0; cName := ""; cParents := []; cDryRun := false; cAccess := None |}.


(** Nobody compares the namespace of a path with its workspace: as the
    administrator of workspace 1, Ann reads the members of namespace 9 of
    workspace 2 under the path of her own workspace. *)
Example foreign_namespace_listed :
  served (twoServe TNamespaceUsers (getAs 1 1 9)) = (200, Some [2]) /\ served (twoServe TNamespaceUsers (getAs 1 2 9)) = (403, None).
Proof. split; vm_compute; reflexivity. Qed.

End ApiIam.
