(* ===== verification/FleetLists.v ===== *)
(** * Fleet lists

    The lists of hosts, join tokens and alert rules: the statements
    [CountHosts]/[ListHosts], [CountHostAgentJoinTokens]/[...] and
    [CountHostAlertRules]/[...] of [pkg/db/generated], the stores of
    [pkg/apis/compute/store] and [pkg/apis/agentgw/store] and the handlers
    of [pkg/apis/compute]. The tables the fleet operations do not touch
    (users and tenants, metrics, alert states) and the creation times are
    given; real columns enter by their rank in PostgreSQL's order. *)

From stdpp Require Import sorting.
From S2P Require Import Prelude Rbac ListQuery ApiRoutes ApiServe IamDb IamStore SqlList IamLists IamListsExact Atomic FleetDb FleetStore FleetHosts.
From S2P Require AlertRules.

Module FleetLists.
Import IamDb(SqlErr(..), colEq, colEq_spec).
Import IamStore(GoErr(..), wrap, domainErr).
Import ListQ Api(ScopeInfo, Level, WorkspaceID, NamespaceID).
Import SqlList IamListsExact(exact, exact_rows, onPage, offset_onPage).
Import Atomic FleetDb FleetStore FleetHosts.
Module AR := AlertRules.AlertRules.

(** [host_metrics_latest]: the columns a list sorts by. *)
Record Metrics := mkMetrics {
  mCPUUsedPct : Z; mMemUsedPct : Z; mDiskUsedPct : Z; mDiskUsedBytes : option Z; mDiskTotalBytes : option Z
}.

(** [applyHostScopeFilters], and the same [switch] in [joinTokenOps.list]. *)
Definition applyHostScopeFilters (q : Query) (s : ScopeInfo) : Query :=
  if Level s =? Api.ScopeNamespace then IamLists.setFilter "namespace_id" (VInt64 (NamespaceID s)) q
  else if Level s =? Api.ScopeWorkspace then IamLists.setFilter "workspace_id" (VInt64 (WorkspaceID s)) q
  else q.

Section Lists.
Context (fold : string -> string) (collate : string -> string -> comparison).
(** The other tables; [ratio] is the rank of a float8 quotient. *)
Context (iam : IamDb.DB) (metrics : gmap Z Metrics) (firing : gmap (Z * Z) bool) (ratio : Z -> Z -> Z).
Context (hostCreatedAt tokenCreatedAt ruleCreatedAt : Z -> Z).

(** ** Joined columns *)

(** [COALESCE(NULLIF(display_name, ''), name, '')]. *)
Definition display (displayName nm : string) : string := if displayName =s "" then nm else displayName.

Definition joined {A} (t : gmap Z A) (id : option Z) (f : A -> string) : string :=
  match (i ← id; t !! i) with Some a => f a | None => "" end.

Definition creatorName (by_ : option Z) : string :=
  joined (IamDb.users iam) by_ (fun u => display (IamDb.uDisplayName u) (IamDb.uUsername u)).
Definition workspaceName (ws : option Z) : string :=
  joined (IamDb.workspaces iam) ws (fun w => display (IamDb.wsDisplayName w) (IamDb.wsName w)).
Definition namespaceName (ns : option Z) : string :=
  joined (IamDb.namespaces iam) ns (fun n => display (IamDb.nsDisplayName n) (IamDb.nsName n)).

(** ** Filtered rows in order *)

(** [FROM t ... WHERE keep], one output row per table row. *)
Definition rowsOf {A R} (keep : Z -> A -> bool) (mk : Z -> A -> R) (t : gmap Z A) : list R :=
  omap (fun p => if keep p.1 p.2 then Some (mk p.1 p.2) else None) (map_to_list t).

(** A column that may be NULL, which comes last in either direction. *)
Definition nullsLast {R} (f : R -> option Z) (desc : bool) : list (bool * (R -> SortVal)) :=
  [(false, fun r => SNum (match f r with Some _ => 0 | None => 1 end)); (desc, fun r => SNum (default 0 (f r)))].

Definition tenancyMatches (scope : option string) (ws ns : option Z) (t : Tenancy) : bool :=
  anyOf scope (tScope t) && opt ws (colEq (tWorkspaceID t)) && opt ns (colEq (tNamespaceID t)).

(** ** Hosts *)

Record HostListRow := mkHostRow {
  hlID : Z; hlHost : Host; hlAgent : option HostAgent; hlCreatorName : string; hlWorkspaceName : string;
  hlNamespaceName : string; hlImageGroupSize : Z; hlMetrics : option Metrics; hlAlertsFiring : Z
}.

(** The agents with the same machine id, when there is one. *)
Definition imageGroupSize (w : World) (a : option HostAgent) : Z :=
  match a with
  | Some a => IamDb.countRows (fun _ s => negb (aMachineID s =s "") && (aMachineID s =s aMachineID a)) (agents w)
  | None => 0
  end.

(** [SELECT count( * ) FROM host_alert_states s WHERE ... AND s.firing]. *)
Definition firingWhere (P : Z * Z -> bool) : Z :=
  Z.of_nat (length (filter (fun s => Is_true (P s.1 && s.2)) (map_to_list firing))).

Definition alertsFiring (host : Z) : Z := firingWhere (fun k => k.1 =? host).

Definition agentMatches (status : option string) (a : option HostAgent) : bool :=
  opt status (fun v => match a with
                       | None => existsb (fun x => "none" =s x) (Split v ",")
                       | Some a => anyOf (Some v) (aStatus a)
                       end).

Definition hostTexts (h : Host) : list string :=
  let t := hTenancy h in
  [hName h; hDisplayName h; fHostname (hFacts h); fPrimaryIP (hFacts h); hPrimaryIPOverride h; fOS (hFacts h); fArch (hFacts h);
   joined (IamDb.workspaces iam) (tWorkspaceID t) IamDb.wsName; joined (IamDb.workspaces iam) (tWorkspaceID t) IamDb.wsDisplayName;
   joined (IamDb.namespaces iam) (tNamespaceID t) IamDb.nsName; joined (IamDb.namespaces iam) (tNamespaceID t) IamDb.nsDisplayName].

Definition hostFound (search : option string) (h : Host) : bool :=
  opt search (fun p => existsb (ilike fold p) (hostTexts h)
                       || (FormatInt (fCPUCores (hFacts h)) =s p) || (FormatInt (fMemoryMB (hFacts h)) =s p)).

Definition hostKept (f : gmap string any) (w : World) (id : Z) (h : Host) : bool :=
  tenancyMatches (FilterStr f "scope") (FilterInt64 f "workspace_id") (FilterInt64 f "namespace_id") (hTenancy h)
  && anyOf (FilterStr f "origin") (hOrigin h) && agentMatches (FilterStr f "agent_status") (agents w !! id)
  && hostFound (FilterStr f "search") h.

Definition hostRow (w : World) (id : Z) (h : Host) : HostListRow :=
  mkHostRow id h (agents w !! id) (creatorName (hCreatedBy h)) (workspaceName (tWorkspaceID (hTenancy h)))
    (namespaceName (tNamespaceID (hTenancy h))) (imageGroupSize w (agents w !! id)) (metrics !! id) (alertsFiring id).

Definition hostOrder : Ordering HostListRow :=
  mkOrdering [("name", [SText ∘ hName ∘ hlHost]); ("ip", [SText ∘ fPrimaryIP ∘ hFacts ∘ hlHost]); ("os", [SText ∘ fOS ∘ hFacts ∘ hlHost]);
              ("cpu_cores", [SNum ∘ fCPUCores ∘ hFacts ∘ hlHost]); ("memory_mb", [SNum ∘ fMemoryMB ∘ hFacts ∘ hlHost]);
              ("disk_gb", [SNum ∘ fDiskGB ∘ hFacts ∘ hlHost]);
              ("organization", [SText ∘ hlWorkspaceName; SText ∘ hlNamespaceName]);
              ("origin", [SText ∘ hOrigin ∘ hlHost]); ("created_by", [SText ∘ hlCreatorName]);
              ("created_at", [SNum ∘ hostCreatedAt ∘ hlID])]
    (hostCreatedAt ∘ hlID) hlID.

(** [disk_used_bytes::float8 / NULLIF(disk_total_bytes, 0)]. *)
Definition diskUsedRatio (m : Metrics) : option Z :=
  used ← mDiskUsedBytes m; total ← mDiskTotalBytes m; if total =? 0 then None else Some (ratio used total).

Definition metricColumns : list (string * (Metrics -> option Z)) :=
  [("disk_total_bytes", mDiskTotalBytes); ("cpu_used_pct", Some ∘ mCPUUsedPct); ("mem_used_pct", Some ∘ mMemUsedPct);
   ("disk_used_pct", Some ∘ mDiskUsedPct); ("disk_used_ratio", diskUsedRatio)].

Definition metricKeys (sortBy sortOrder : string) : list (bool * (HostListRow -> SortVal)) :=
  concat ((fun c => if (c.1 =s sortBy) && ((sortOrder =s "asc") || (sortOrder =s "desc"))
                    then nullsLast (fun r => m ← hlMetrics r; c.2 m) (sortOrder =s "desc") else []) <$> metricColumns).

Definition hostKeys (q : Query) : list (bool * (HostListRow -> SortVal)) :=
  let sortOrder := descending (SortOrder (qPagination q)) in
  metricKeys (SortBy (qPagination q)) sortOrder ++ orderKeys hostOrder (SortBy (qPagination q)) sortOrder.

Definition CountHosts (f : gmap string any) : Stmt Z := fun w =>
  (Ok (Z.of_nat (length (rowsOf (hostKept f w) (hostRow w) (hosts w)))), w).

Definition ListHosts (tie : Z -> Z) (f : gmap string any) (q : Query) (offset limit : Z) : Stmt (list HostListRow) := fun w =>
  (sqlPage offset limit (ordered collate (hostKeys q) hlID tie (rowsOf (hostKept f w) (hostRow w) (hosts w))), w).

(** [pgHostStore.List]. *)
Definition hostList (tie : Z -> Z) (q : Query) : Call (list HostListRow * Z) :=
  let '(offset, limit) := OffsetLimit q in
  count <-? stmt wrap (CountHosts (Filters q)) ;;
  rows <-? stmt wrap (ListHosts tie (Filters q) q offset limit) ;;
  ok (rows, count).

Definition hostOps_list (tie : Z -> Z) (s : ScopeInfo) (q : Query) : Call (list HostListRow * Z) :=
  domain (hostList tie (applyHostScopeFilters q s)).

(** ** Join tokens *)

Record TokenListRow := mkTokenRow { tlID : Z; tlToken : JoinToken; tlCreatorName : string }.

Definition tokenKept (f : gmap string any) (id : Z) (j : JoinToken) : bool :=
  opt (FilterStr f "scope") (fun x => tScope (jTenancy j) =s x)
  && tenancyMatches None (FilterInt64 f "workspace_id") (FilterInt64 f "namespace_id") (jTenancy j)
  && IamLists.found fold (FilterStr f "search") [jName j].

Definition tokenRow (id : Z) (j : JoinToken) : TokenListRow := mkTokenRow id j (creatorName (jCreatedBy j)).

Definition tokenOrder : Ordering TokenListRow :=
  mkOrdering [("name", [SText ∘ jName ∘ tlToken]); ("expires_at", [SNum ∘ jExpiresAt ∘ tlToken]);
              ("created_at", [SNum ∘ tokenCreatedAt ∘ tlID])] (tokenCreatedAt ∘ tlID) tlID.

Definition tokenKeys (q : Query) := orderKeys tokenOrder (SortBy (qPagination q)) (descending (SortOrder (qPagination q))).

Definition CountHostAgentJoinTokens (f : gmap string any) : Stmt Z := fun w =>
  (Ok (Z.of_nat (length (rowsOf (tokenKept f) tokenRow (tokens w)))), w).

Definition ListHostAgentJoinTokens (tie : Z -> Z) (f : gmap string any) (q : Query) (offset limit : Z)
    : Stmt (list TokenListRow) := fun w =>
  (sqlPage offset limit (ordered collate (tokenKeys q) tlID tie (rowsOf (tokenKept f) tokenRow (tokens w))), w).

(** [pgJoinTokenStore.List]: its pages never exceed 100 rows. *)
Definition tokenList (tie : Z -> Z) (q : Query) : Call (list TokenListRow * Z) :=
  let '(offset, limit) := PaginationToOffsetLimit (qPagination q) in
  count <-? stmt wrap (CountHostAgentJoinTokens (Filters q)) ;;
  rows <-? stmt wrap (ListHostAgentJoinTokens tie (Filters q) q offset limit) ;;
  ok (rows, count).

Definition joinTokenOps_list (tie : Z -> Z) (s : ScopeInfo) (q : Query) : Call (list TokenListRow * Z) :=
  domain (tokenList tie (applyHostScopeFilters q s)).

(** ** Alert rules *)

Section Rules.
Context {F : Type}.

Record RuleListRow := mkRuleRow {
  rlID : Z; rlRule : AR.Rule (F := F); rlCreatorName : string; rlWorkspaceName : string;
  rlNamespaceName : string; rlFiringCount : Z
}.

Definition firingCount (rule : Z) : Z := firingWhere (fun k => k.2 =? rule).

Definition ruleKept (f : gmap string any) (id : Z) (r : AR.Rule (F := F)) : bool :=
  tenancyMatches (FilterStr f "scope") (FilterInt64 f "workspace_id") (FilterInt64 f "namespace_id") (AR.rTenancy r)
  && anyOf (FilterStr f "metric") (AR.rMetric r) && anyOf (FilterStr f "severity") (AR.rSeverity r)
  && opt (FilterBool f "enabled") (Bool.eqb (AR.rEnabled r))
  && IamLists.found fold (FilterStr f "search") [AR.rName r; AR.rDescription r].

Definition ruleRow (id : Z) (r : AR.Rule (F := F)) : RuleListRow :=
  mkRuleRow id r (creatorName (AR.rCreatedBy r)) (workspaceName (tWorkspaceID (AR.rTenancy r)))
    (namespaceName (tNamespaceID (AR.rTenancy r))) (firingCount id).

Definition ruleOrder : Ordering RuleListRow :=
  mkOrdering [("name", [SText ∘ AR.rName ∘ rlRule]); ("metric", [SText ∘ AR.rMetric ∘ rlRule]);
              ("severity", [SText ∘ AR.rSeverity ∘ rlRule]); ("created_by", [SText ∘ rlCreatorName]);
              ("created_at", [SNum ∘ ruleCreatedAt ∘ rlID])] (ruleCreatedAt ∘ rlID) rlID.

Definition ruleKeys (q : Query) := orderKeys ruleOrder (SortBy (qPagination q)) (descending (SortOrder (qPagination q))).

Definition CountHostAlertRules (f : gmap string any) : AR.Stmt (F := F) Z := fun w =>
  (Ok (Z.of_nat (length (rowsOf (ruleKept f) ruleRow (AR.rules w)))), w).

Definition ListHostAlertRules (tie : Z -> Z) (f : gmap string any) (q : Query) (offset limit : Z)
    : AR.Stmt (F := F) (list RuleListRow) :=
  fun w => (sqlPage offset limit (ordered collate (ruleKeys q) rlID tie (rowsOf (ruleKept f) ruleRow (AR.rules w))), w).

(** [pgAlertRuleStore.List]. *)
Definition ruleList (tie : Z -> Z) (q : Query) : AR.Call (F := F) (list RuleListRow * Z) := fun w =>
  let '(offset, limit) := OffsetLimit q in
  match AR.call wrap (CountHostAlertRules (Filters q)) w with
  | (Err e, w') => (Err e, w')
  | (Ok count, w') =>
      match AR.call wrap (ListHostAlertRules tie (Filters q) q offset limit) w' with
      | (Err e, w'') => (Err e, w'')
      | (Ok rows, w'') => (Ok (rows, count), w'')
      end
  end.

Definition alertOps_list (tie : Z -> Z) (s : ScopeInfo) (q : Query) : AR.Call (F := F) (list RuleListRow * Z) := fun w =>
  match ruleList tie (applyHostScopeFilters q s) w with
  | (Err e, w') => (Err (domainErr e), w')
  | (Ok res, w') => (Ok res, w')
  end.

End Rules.

(** ** Filtered rows *)

Lemma rowsOf_exact {A R} (keep : Z -> A -> bool) (mk : Z -> A -> R) (rid : R -> Z) (t : gmap Z A) :
  (forall i x, rid (mk i x) = i) -> exact (rid <$> rowsOf keep mk t) (fun id => exists x, t !! id = Some x /\ keep id x = true).
Proof.
  intros K. unfold rowsOf. eapply IamListsExact.exact_mono.
  - apply exact_rows. intros i x r. cbn. destruct (keep i x); [|done]. intros [= <-]. apply K.
  - intros id. split; intros (x & Hx & H); exists x; (split; [done|]); cbn in *; destruct (keep id x); done || by destruct H.
Qed.

(** What the switch on the scope does to the filters. *)
Lemma scoped_filters q s f : f = Filters (applyHostScopeFilters q s) ->
  (Level s = Api.ScopeNamespace -> FilterInt64 f "namespace_id" = Some (NamespaceID s))
  /\ (Level s = Api.ScopeWorkspace -> FilterInt64 f "workspace_id" = Some (WorkspaceID s))
  /\ (forall k, Filters q = ∅ -> k <> "workspace_id" -> k <> "namespace_id" -> f !! k = None)
  /\ (Filters q = ∅ -> Level s <> Api.ScopeNamespace -> FilterInt64 f "namespace_id" = None)
  /\ (Filters q = ∅ -> Level s <> Api.ScopeWorkspace -> FilterInt64 f "workspace_id" = None).
Proof.
  intros ->. unfold applyHostScopeFilters, FilterInt64, IamLists.setFilter.
  destruct (Z.eqb_spec (Level s) Api.ScopeNamespace) as [L|L]; [|destruct (Z.eqb_spec (Level s) Api.ScopeWorkspace) as [L'|L']]; cbn [Filters].
  - split_and!.
    + intros _. by rewrite lookup_insert_eq.
    + rewrite L. discriminate.
    + intros k -> Hw Hn. by rewrite lookup_insert_ne, lookup_empty.
    + done.
    + intros -> _. by rewrite lookup_insert_ne, lookup_empty.
  - split_and!.
    + done.
    + intros _. by rewrite lookup_insert_eq.
    + intros k -> Hw Hn. by rewrite lookup_insert_ne, lookup_empty.
    + intros -> _. by rewrite lookup_insert_ne, lookup_empty.
    + done.
  - split_and!; [done | done | intros k -> _ _ | intros -> _ | intros -> _]; by rewrite lookup_empty.
Qed.

(** The rows a request addresses: by the namespace of the path, else by its
    workspace. *)
Definition inTenancy (s : ScopeInfo) (t : Tenancy) : Prop :=
  (Level s = Api.ScopeNamespace -> tNamespaceID t = Some (NamespaceID s))
  /\ (Level s = Api.ScopeWorkspace -> tWorkspaceID t = Some (WorkspaceID s)).

Lemma tenancyMatches_sound q s scope t :
  let f := Filters (applyHostScopeFilters q s) in
  tenancyMatches scope (FilterInt64 f "workspace_id") (FilterInt64 f "namespace_id") t = true -> inTenancy s t.
Proof.
  intros f. destruct (scoped_filters q s f eq_refl) as (N & W & _). unfold tenancyMatches, inTenancy.
  intros [[_ Hw]%andb_true_iff Hn]%andb_true_iff. split; intros L.
  - rewrite (N L) in Hn. cbn [opt] in Hn; by apply colEq_spec in Hn.
  - rewrite (W L) in Hw. cbn [opt] in Hw; by apply colEq_spec in Hw.
Qed.

Lemma tenancyMatches_complete q s t : Filters q = ∅ -> inTenancy s t ->
  let f := Filters (applyHostScopeFilters q s) in
  tenancyMatches None (FilterInt64 f "workspace_id") (FilterInt64 f "namespace_id") t = true.
Proof.
  intros E [Hn Hw] f. destruct (scoped_filters q s f eq_refl) as (N & W & _ & N' & W'). unfold tenancyMatches.
  destruct (decide (Level s = Api.ScopeNamespace)) as [L|L].
  - rewrite (N L), (W' E), (Hn L) by (rewrite L; discriminate). cbn [opt anyOf andb]. by apply colEq_spec.
  - rewrite (N' E L). destruct (decide (Level s = Api.ScopeWorkspace)) as [L'|L'].
    + rewrite (W L'), (Hw L'). cbn [opt anyOf andb]. rewrite andb_true_r. by apply colEq_spec.
    + by rewrite (W' E L').
Qed.

Lemma no_filter q s k : Filters q = ∅ -> k <> "workspace_id" -> k <> "namespace_id" ->
  let f := Filters (applyHostScopeFilters q s) in FilterStr f k = None /\ FilterBool f k = None.
Proof.
  intros E Hw Hn f. destruct (scoped_filters q s f eq_refl) as (_ & _ & H & _). unfold FilterStr, FilterBool.
  by rewrite (H k E Hw Hn).
Qed.

(** ** A list of one table *)

(** In the order of the keys. *)
Definition sortedBy {A R} (table : gmap Z A) (mk : Z -> A -> R) (keys : list (bool * (R -> SortVal))) (l : list Z) : Prop :=
  Sorted (fun i j => forall a b, table !! i = Some a -> table !! j = Some b -> cmpKeys collate keys (mk i a) (mk j b) <> Gt) l.

(** [mk]: the row a list shows of a table row; [keys]: what it sorts by;
    [answer]: the identifiers and the total a query is answered when the
    database ranks rows that agree on every key by [tie]. *)
Definition tenantList {A R} (table : gmap Z A) (ten : A -> Tenancy) (mk : Z -> A -> R) (keys : list (bool * (R -> SortVal)))
    (s : ScopeInfo) (q : Query) (answer : (Z -> Z) -> Query -> result GoErr (list Z * Z)) : Prop :=
  exists L, NoDup L
    /\ (forall id, id ∈ L -> exists a, table !! id = Some a /\ inTenancy s (ten a))
    /\ (Filters q = ∅ -> forall id a, table !! id = Some a -> inTenancy s (ten a) -> id ∈ L)
    /\ (forall tie, exists l, l ≡ₚ L
          /\ sortedBy table mk keys l
          /\ ((forall i j a b, i ∈ L -> j ∈ L -> table !! i = Some a -> table !! j = Some b -> cmpKeys collate keys (mk i a) (mk j b) = Eq -> i = j) -> l = L)
          /\ (forall i n, (1 <= n <= 100)%nat -> Z.of_nat (i * n) < 2 ^ 31 ->
                answer tie (onPage i n q) = Ok (take n (drop (i * n) l), Z.of_nat (length L)))).

Lemma rowsOf_row {A R} (keep : Z -> A -> bool) (mk : Z -> A -> R) (rid : R -> Z) (table : gmap Z A) r :
  (forall i x, rid (mk i x) = i) -> r ∈ rowsOf keep mk table -> exists x, table !! rid r = Some x /\ r = mk (rid r) x.
Proof.
  intros K ((i & x) & Hi%elem_of_map_to_list & Hr)%list_elem_of_omap. cbn in Hr. destruct (keep i x); [|done].
  injection Hr as <-. rewrite K. by exists x.
Qed.

Lemma arranged_sortedBy {A R} (keep : Z -> A -> bool) (mk : Z -> A -> R) (rid : R -> Z) (table : gmap Z A) keys l :
  (forall i x, rid (mk i x) = i) -> arranged collate keys rid (rowsOf keep mk table) l -> sortedBy table mk keys l.
Proof.
  intros K (rows & P & -> & S). assert (F : forall r, r ∈ rows -> exists x, table !! rid r = Some x /\ r = mk (rid r) x).
  { intros r Hr. apply (rowsOf_row keep); [done | by rewrite <- P]. } clear P. unfold sortedBy.
  induction S as [|r rows _ IH Hr]; [constructor|]. rewrite fmap_cons. constructor; [apply IH; intros; by apply F, elem_of_cons; right|].
  destruct Hr as [|r' rows Hr]; rewrite ?fmap_cons; constructor. intros a b Hra Hrb.
  destruct (F r ltac:(by left)) as (x & Hx & Er). destruct (F r' ltac:(by right; left)) as (y & Hy & Er').
  rewrite Hra in Hx; rewrite Hrb in Hy. injection Hx as ->; injection Hy as ->. by rewrite <- Er, <- Er'.
Qed.

Lemma tenantList_rows {A R} (table : gmap Z A) (ten : A -> Tenancy) s q (keep : Z -> A -> bool) (mk : Z -> A -> R) (rid : R -> Z)
    (keys : list (bool * (R -> SortVal))) (answer : (Z -> Z) -> Query -> result GoErr (list Z * Z)) :
  antisym collate -> (forall i x, rid (mk i x) = i) ->
  (forall i x, keep i x = true -> inTenancy s (ten x)) ->
  (Filters q = ∅ -> forall i x, inTenancy s (ten x) -> keep i x = true) ->
  (forall tie i n, (1 <= n <= 100)%nat -> Z.of_nat (i * n) < 2 ^ 31 -> answer tie (onPage i n q) =
     Ok (rid <$> take n (drop (i * n) (ordered collate keys rid tie (rowsOf keep mk table))), Z.of_nat (length (rowsOf keep mk table)))) ->
  tenantList table ten mk keys s q answer.
Proof.
  intros Ha K S C H. set (rows := rowsOf keep mk table). set (arr := fun tie => rid <$> ordered collate keys rid tie rows).
  assert (P : forall tie, arr tie ≡ₚ rid <$> rows) by (intros tie; unfold arr; by rewrite ordered_perm).
  destruct (rowsOf_exact keep mk rid table K) as [N E]. fold rows in N, E. exists (arr id). split_and!.
  - by rewrite P.
  - intros x. rewrite P, E. intros (y & Hx & Hk). exists y. split; [done | by apply (S x)].
  - intros U x y Hx Hi. rewrite P, E. exists y. split; [done | by apply C].
  - intros tie. exists (arr tie). split_and!; [by rewrite !P | by apply (arranged_sortedBy keep mk rid), ordered_arranged | |].
    + intros T. unfold arr. f_equal. apply ordered_noTies. intros a b Ha' Hb Eq.
      destruct (rowsOf_row keep mk rid table a K Ha') as (x & Hx & Ea). destruct (rowsOf_row keep mk rid table b K Hb) as (y & Hy & Eb).
      rewrite Ea, Eb in Eq. assert (I : rid a = rid b) by (apply (T _ _ x y); [rewrite P; by apply list_elem_of_fmap_2.. | done | done | done]).
      rewrite <- I in Hy, Eb. rewrite Hx in Hy. injection Hy as ->. congruence.
    + intros i n Hn Hi. rewrite H by done. rewrite (Permutation_length (P id)), length_fmap. unfold arr.
      by rewrite fmap_take, fmap_drop.
Qed.

Lemma page_runs {R} i n q (l : list R) : (1 <= n <= 100)%nat -> Z.of_nat (i * n) < 2 ^ 31 ->
  let '(offset, limit) := PaginationToOffsetLimit (qPagination (onPage i n q)) in
  sqlPage offset limit l = Ok (take n (drop (i * n) l)).
Proof.
  intros Hn Hi. rewrite offset_onPage by done. unfold sqlPage.
  destruct (Z.ltb_spec (Z.of_nat n) 0); [lia|]. destruct (Z.ltb_spec (Z.of_nat (i * n)) 0); [lia|]. by rewrite !Nat2Z.id.
Qed.

(** ** The three lists *)

Definition ids {R} (rid : R -> Z) (r : option (result GoErr (list R * Z))) : result GoErr (list Z * Z) :=
  match r with
  | Some (Ok (rows, total)) => Ok (rid <$> rows, total)
  | Some (Err e) => Err e
  | None => Err (Wrapped None None)
  end.

Lemma hostKept_sound q s w id h : hostKept (Filters (applyHostScopeFilters q s)) w id h = true -> inTenancy s (hTenancy h).
Proof.
  unfold hostKept. intros [[[H _]%andb_true_iff _]%andb_true_iff _]%andb_true_iff. by eapply tenancyMatches_sound.
Qed.

Lemma hostKept_complete q s w id h : Filters q = ∅ -> inTenancy s (hTenancy h) ->
  hostKept (Filters (applyHostScopeFilters q s)) w id h = true.
Proof.
  intros E H. unfold hostKept, hostFound, agentMatches.
  rewrite (proj1 (no_filter q s "scope" E ltac:(done) ltac:(done))), (proj1 (no_filter q s "origin" E ltac:(done) ltac:(done))),
    (proj1 (no_filter q s "agent_status" E ltac:(done) ltac:(done))), (proj1 (no_filter q s "search" E ltac:(done) ltac:(done))).
  by rewrite tenancyMatches_complete.
Qed.

(** A statement that is answered, alone. *)
Lemma stmt_fine {A} (f : SqlErr -> GoErr) (st : Stmt A) a w : faults w = [] -> st w = (Ok a, w) -> run (stmt f st) w = (Some (Ok a), w).
Proof. intros F E. unfold stmt, Q, atom. cbn. unfold runStmt, popFault. by rewrite F, E. Qed.

Lemma andThen_fine {A B} (p : Call A) (k : A -> Call B) a w : run p w = (Some (Ok a), w) -> run (andThen p k) w = run (k a) w.
Proof. intros E. unfold andThen. by rewrite run_bind, E. Qed.

Lemma domain_fine {A} (p : Call A) a w : run p w = (Some (Ok a), w) -> run (domain p) w = (Some (Ok a), w).
Proof. intros E. unfold domain. by rewrite run_bind, E. Qed.

Lemma scoped_onPage i n q s : applyHostScopeFilters (onPage i n q) s = onPage i n (applyHostScopeFilters q s).
Proof. unfold applyHostScopeFilters. by destruct (Level s =? Api.ScopeNamespace), (Level s =? Api.ScopeWorkspace). Qed.

Lemma scoped_page q s : qPagination (applyHostScopeFilters q s) = qPagination q /\ qMaxPageSize (applyHostScopeFilters q s) = qMaxPageSize q.
Proof. unfold applyHostScopeFilters. by destruct (Level s =? Api.ScopeNamespace), (Level s =? Api.ScopeWorkspace). Qed.

Lemma OffsetLimit_default q : qMaxPageSize q <= 0 -> OffsetLimit q = PaginationToOffsetLimit (qPagination q).
Proof. intros H. unfold OffsetLimit. by destruct (Z.ltb_spec 0 (qMaxPageSize q)); [lia|]. Qed.

(** Count, then page. *)
Lemma list_runs {R} (cnt : Stmt Z) (page : Stmt (list R)) c l w : faults w = [] -> cnt w = (Ok c, w) -> page w = (Ok l, w) ->
  run (count <-? stmt wrap cnt ;; rows <-? stmt wrap page ;; ok (rows, count)) w = (Some (Ok (l, c)), w).
Proof.
  intros F C P. rewrite (andThen_fine _ _ c w) by by apply stmt_fine. by rewrite (andThen_fine _ _ l w) by by apply stmt_fine.
Qed.

Lemma hostOps_list_runs tie s i n q w : faults w = [] -> qMaxPageSize q <= 0 -> (1 <= n <= 100)%nat -> Z.of_nat (i * n) < 2 ^ 31 ->
  let rows := rowsOf (hostKept (Filters (applyHostScopeFilters q s)) w) (hostRow w) (hosts w) in
  run (hostOps_list tie s (onPage i n q)) w =
  (Some (Ok (take n (drop (i * n) (ordered collate (hostKeys q) hlID tie rows)), Z.of_nat (length rows))), w).
Proof.
  intros F M Hn Hi rows. apply domain_fine. rewrite scoped_onPage. destruct (scoped_page q s) as [P1 P2].
  unfold hostList. rewrite OffsetLimit_default by (cbn [qMaxPageSize onPage]; by rewrite P2).
  pose proof (page_runs i n (applyHostScopeFilters q s) (ordered collate (hostKeys q) hlID tie rows) Hn Hi) as P.
  destruct (PaginationToOffsetLimit _) as [offset limit]. apply list_runs; [done | done|].
  unfold ListHosts. rewrite <- P. unfold hostKeys. cbn [qPagination onPage SortBy SortOrder]. by rewrite P1.
Qed.

Lemma hosts_listed s q w : antisym collate -> faults w = [] -> qMaxPageSize q <= 0 ->
  tenantList (hosts w) hTenancy (hostRow w) (hostKeys q) s q (fun tie q => ids hlID (run (hostOps_list tie s q) w).1).
Proof.
  intros Ha F M. apply (tenantList_rows _ _ s q (hostKept (Filters (applyHostScopeFilters q s)) w) (hostRow w) hlID (hostKeys q));
    [done | done | apply hostKept_sound | intros; by apply hostKept_complete|].
  intros tie i n Hn Hi. by rewrite hostOps_list_runs.
Qed.

Lemma joinTokenOps_list_runs tie s i n q w : faults w = [] -> (1 <= n <= 100)%nat -> Z.of_nat (i * n) < 2 ^ 31 ->
  let rows := rowsOf (tokenKept (Filters (applyHostScopeFilters q s))) tokenRow (tokens w) in
  run (joinTokenOps_list tie s (onPage i n q)) w =
  (Some (Ok (take n (drop (i * n) (ordered collate (tokenKeys q) tlID tie rows)), Z.of_nat (length rows))), w).
Proof.
  intros F Hn Hi rows. apply domain_fine. rewrite scoped_onPage. destruct (scoped_page q s) as [P1 _]. unfold tokenList.
  pose proof (page_runs i n (applyHostScopeFilters q s) (ordered collate (tokenKeys q) tlID tie rows) Hn Hi) as P.
  destruct (PaginationToOffsetLimit _) as [offset limit]. apply list_runs; [done | done|].
  unfold ListHostAgentJoinTokens. rewrite <- P. unfold tokenKeys. cbn [qPagination onPage SortBy SortOrder]. by rewrite P1.
Qed.

Lemma tokens_listed s q w : antisym collate -> faults w = [] ->
  tenantList (tokens w) jTenancy tokenRow (tokenKeys q) s q (fun tie q => ids tlID (run (joinTokenOps_list tie s q) w).1).
Proof.
  intros Ha F. apply (tenantList_rows _ _ s q (tokenKept (Filters (applyHostScopeFilters q s))) tokenRow tlID (tokenKeys q)); [done | done|..].
  - intros id j [[_ H]%andb_true_iff _]%andb_true_iff. by eapply tenancyMatches_sound.
  - intros E id j H. unfold tokenKept, IamLists.found.
    rewrite (proj1 (no_filter q s "scope" E ltac:(done) ltac:(done))), (proj1 (no_filter q s "search" E ltac:(done) ltac:(done))).
    by rewrite tenancyMatches_complete.
  - intros tie i n Hn Hi. by rewrite joinTokenOps_list_runs.
Qed.

Section RuleFacts.
Context {F : Type}.

Lemma rule_call_fine {A} (st : AR.Stmt (F := F) A) a v : AR.faults v = [] -> st v = (Ok a, v) -> AR.call wrap st v = (Ok a, v).
Proof. destruct v. cbn. intros -> E. unfold AR.call, AR.runStmt. cbn. by rewrite E. Qed.

Lemma alertOps_list_runs tie s i n q (v : AR.World (F := F)) :
  AR.faults v = [] -> qMaxPageSize q <= 0 -> (1 <= n <= 100)%nat -> Z.of_nat (i * n) < 2 ^ 31 ->
  let rows := rowsOf (ruleKept (Filters (applyHostScopeFilters q s))) ruleRow (AR.rules v) in
  alertOps_list tie s (onPage i n q) v = (Ok (take n (drop (i * n) (ordered collate (ruleKeys q) rlID tie rows)), Z.of_nat (length rows)), v).
Proof.
  intros E M Hn Hi rows. unfold alertOps_list, ruleList. rewrite scoped_onPage. destruct (scoped_page q s) as [P1 P2].
  rewrite OffsetLimit_default by (cbn [qMaxPageSize onPage]; by rewrite P2).
  pose proof (page_runs i n (applyHostScopeFilters q s) (ordered collate (ruleKeys q) rlID tie rows) Hn Hi) as P.
  destruct (PaginationToOffsetLimit _) as [offset limit].
  rewrite (rule_call_fine _ (Z.of_nat (length rows)) v) by done.
  rewrite (rule_call_fine _ (take n (drop (i * n) (ordered collate (ruleKeys q) rlID tie rows))) v); [done | done|].
  unfold ListHostAlertRules. rewrite <- P. unfold ruleKeys. cbn [qPagination onPage SortBy SortOrder]. by rewrite P1.
Qed.

Lemma rules_listed s q (v : AR.World (F := F)) : antisym collate -> AR.faults v = [] -> qMaxPageSize q <= 0 ->
  tenantList (AR.rules v) AR.rTenancy ruleRow (ruleKeys q) s q (fun tie q => ids rlID (Some (alertOps_list tie s q v).1)).
Proof.
  intros Ha E M. apply (tenantList_rows _ _ s q (ruleKept (Filters (applyHostScopeFilters q s))) ruleRow rlID (ruleKeys q)); [done | done|..].
  - intros id r [[[[H _]%andb_true_iff _]%andb_true_iff _]%andb_true_iff _]%andb_true_iff. by eapply tenancyMatches_sound.
  - intros N id r H. unfold ruleKept, IamLists.found.
    rewrite (proj1 (no_filter q s "scope" N ltac:(done) ltac:(done))), (proj1 (no_filter q s "metric" N ltac:(done) ltac:(done))),
      (proj1 (no_filter q s "severity" N ltac:(done) ltac:(done))), (proj2 (no_filter q s "enabled" N ltac:(done) ltac:(done))),
      (proj1 (no_filter q s "search" N ltac:(done) ltac:(done))).
    by rewrite tenancyMatches_complete.
  - intros tie i n Hn Hi. by rewrite alertOps_list_runs.
Qed.

(** C25: The fleet's lists are exact. On a database that answers, behind
    each of the lists of hosts, join tokens and alert rules, at any level of
    the API, there is one set of rows [L], none twice: rows of the table whose
    namespace is the path's (at namespace level) or whose workspace is the
    path's (at workspace level), whatever filters the caller adds, and all
    of them when it adds none. Each request is answered from [L] in an order
    of its own, sorted by the keys the request asks for: PostgreSQL may rank
    rows that agree on every key differently every time, and only when no
    two rows agree do all requests see one order, so that pages put together
    neither repeat nor miss a row. Page [i] of size [n] (at most 100, with
    [i*n] below 2^31) is items [i*n] to [i*n + n - 1] of the order, with the
    number of rows as the total. The resources set no page maximum of their
    own, and text is compared by an antisymmetric collation. *)
Theorem fleet_lists_exact s q w (v : AR.World (F := F)) :
  antisym collate -> faults w = [] -> AR.faults v = [] -> qMaxPageSize q <= 0 ->
  tenantList (hosts w) hTenancy (hostRow w) (hostKeys q) s q (fun tie q => ids hlID (run (hostOps_list tie s q) w).1)
  /\ tenantList (tokens w) jTenancy tokenRow (tokenKeys q) s q (fun tie q => ids tlID (run (joinTokenOps_list tie s q) w).1)
  /\ tenantList (AR.rules v) AR.rTenancy ruleRow (ruleKeys q) s q (fun tie q => ids rlID (Some (alertOps_list tie s q v).1)).
Proof. intros Ha Fw Fv M. split_and!; [by apply hosts_listed | by apply tokens_listed | by apply rules_listed]. Qed.

End RuleFacts.
End Lists.

(** ** An example *)

Definition demoHost (name : string) (t : Tenancy) : Host := mkHost name "" "" noFacts t 22 "manual" "ssh" "" None.

(** Host 1 is workspace 1's, host 2 belongs to namespace 9 of workspace 2. *)
Definition demoFleet : World :=
  mkWorld {[1 := demoHost "web" (mkTenancy Rbac.ScopeWorkspace (Some 1) None); 2 := demoHost "db" (mkTenancy Rbac.ScopeNamespace (Some 2) (Some 9))]}
    ∅ ∅ 2 0 ∅ {[1; 2]} {[9]} 0 [] 0 [].

Definition demoScope (level ws ns : Z) : ScopeInfo := {| Level := level; WorkspaceID := ws; NamespaceID := ns |}.

Definition allHosts : Query :=
  {| Filters := ∅; qPagination := {| Page := 1; PageSize := 20; SortBy := ""; SortOrder := "" |}; qMaxPageSize := 0 |}.

Definition demoHosts (s : ScopeInfo) : result GoErr (list Z * Z) :=
  ids hlID (run (hostOps_list (fun s => s) String.compare IamDb.emptyDB ∅ ∅ (fun _ _ => 0) (fun i => i) (fun i => i) s allHosts) demoFleet).1.

Example own_hosts_listed : demoHosts (demoScope Api.ScopeWorkspace 1 0) = Ok ([1], 1) /\ demoHosts (demoScope Api.ScopePlatform 0 0) = Ok ([2; 1], 2).
Proof. split; vm_compute; reflexivity. Qed.

Definition demoCtx (s : ScopeInfo) : Serve.Ctx :=
  {| Serve.cUserID := 1; Serve.cUsername := ""; Serve.cScope := s; Serve.cID := 2; Serve.cName := ""; Serve.cParents := [];
     Serve.cDryRun := false; Serve.cAccess := None |}.

(** Under /workspaces/1/namespaces/9 the list looks at the namespace alone
    and shows a host of workspace 2, which a request for that host under
    the same path does not find. *)
Example foreign_hosts_listed :
  demoHosts (demoScope Api.ScopeNamespace 1 9) = Ok ([2], 1)
  /\ match (run (host_get (demoCtx (demoScope Api.ScopeNamespace 1 9)) 2) demoFleet).1 with Some (Err e) => statusOf e | _ => 0 end = 404.
Proof. split; vm_compute; reflexivity. Qed.

Definition demoRules : AR.World (F := Z) := AR.mkWorld ∅ 0 ∅ ∅ ∅ [].

Lemma fleet_lists_exact_witness :
  exists L, 1 ∈ L /\ 2 ∉ L
  /\ forall tie, exists page, ids hlID (run (hostOps_list (fun s => s) String.compare IamDb.emptyDB ∅ ∅ (fun _ _ => 0) (fun i => i)
       tie (demoScope Api.ScopeWorkspace 1 0) (onPage 0 20 allHosts)) demoFleet).1 = Ok (page, Z.of_nat (length L)).
Proof.
  destruct (fleet_lists_exact (fun s => s) String.compare IamDb.emptyDB ∅ ∅ (fun _ _ => 0) (fun i => i) (fun i => i) (fun i => i)
           (demoScope Api.ScopeWorkspace 1 0) allHosts demoFleet demoRules) as [(L & _ & S & C & P) _];
    [exact String.compare_antisym | reflexivity | reflexivity | cbn; lia|].
  exists L. split_and!.
  - by apply (C eq_refl 1 (demoHost "web" (mkTenancy Rbac.ScopeWorkspace (Some 1) None))).
  - intros (a & Ha & [_ W])%S. vm_compute in Ha. injection Ha as <-. by specialize (W eq_refl).
  - intros tie. destruct (P tie) as (l & _ & _ & _ & G). rewrite (G 0%nat 20%nat ltac:(lia) ltac:(done)). by eexists.
Defined.

End FleetLists.
