(* ===== verification/SocialAuth.v ===== *)
(** * Social login providers

    [lib/socialauth]: signing in with GitHub or Google as a relying party.
    A provider turns the code of a callback into the profile of an account
    whose email address the provider has verified. The provider's servers
    and JSON decoding are parameters: every call on the network is answered
    by [Do], which may answer differently each time it is asked. *)

From stdpp Require Import sorting.
From S2P Require Import Prelude.

Module SocialAuth.

(** ** Query strings: [url.QueryEscape] and [url.Values.Encode] *)

Definition unreserved (c : ascii) : bool :=
  let n := N_of_ascii c in
  ((48 <=? n) && (n <=? 57) || (65 <=? n) && (n <=? 90) || (97 <=? n) && (n <=? 122)
   || (n =? 45) || (n =? 95) || (n =? 46) || (n =? 126))%N.

Definition hexUpper (d : N) : ascii := ascii_of_N (if (d <? 10)%N then 48 + d else 55 + d).

Definition escapeByte (c : ascii) : string :=
  if unreserved c then String c ""
  else if Ascii.eqb c " " then "+"
  else String "%" (String (hexUpper (N_of_ascii c / 16)) (String (hexUpper (N_of_ascii c mod 16)) "")).

Fixpoint QueryEscape (s : string) : string :=
  match s with
  | EmptyString => ""
  | String c s' => escapeByte c +++ QueryEscape s'
  end.

(** A map from distinct keys to one value each, written in the order of the
    keys. *)
Definition Values : Type := list (string * string).

Definition strLe (a b : string) : Prop := String.leb a b = true.
Definition keyLe (a b : string * string) : Prop := strLe a.1 b.1.

#[export] Instance strLe_dec : RelDecision strLe.
Proof. intros a b. unfold strLe. apply _. Defined.

#[export] Instance keyLe_dec : RelDecision keyLe.
Proof. intros a b. unfold keyLe. apply _. Defined.

Definition Encode (v : Values) : string :=
  Join ((fun kv => QueryEscape kv.1 +++ "=" +++ QueryEscape kv.2)
          <$> merge_sort keyLe v) "&".

(** ** The network *)

Record HTTPRequest := mkHTTPRequest {
  hrMethod : string; hrURL : string; hrHeaders : list (string * string); hrBody : string
}.

Record HTTPResponse := mkHTTPResponse { hpStatus : Z; hpBody : string }.

Record TokenBody := mkTokenBody { tbAccessToken : string; tbError : string }.
Record GithubUser := mkGithubUser {
  guID : Z; guLogin : string; guName : string; guAvatarURL : string
}.
Record GithubEmail := mkGithubEmail { geEmail : string; gePrimary : bool; geVerified : bool }.
Record GoogleInfo := mkGoogleInfo {
  giSub : string; giEmail : string; giEmailVerified : bool; giName : string; giPicture : string
}.

(** [httpClient.Do] at the n-th call, and [json.Decoder.Decode] into the
    structs above. *)
Class Net := {
  Do : nat -> HTTPRequest -> option HTTPResponse;
  decodeToken : string -> option TokenBody;
  decodeGithubUser : string -> option GithubUser;
  decodeGithubEmails : string -> option (list GithubEmail);
  decodeGoogleInfo : string -> option GoogleInfo
}.

Record UserProfile := mkProfile {
  Subject : string; Email : string; ProfileName : string; AvatarURL : string
}.

(** Calls of the network: the counter of calls is the state. *)
Definition R (A : Type) : Type := nat -> result string A * nat.

#[export] Instance R_ret : MRet R := fun _ a n => (Ok a, n).
#[export] Instance R_bind : MBind R := fun _ _ f m n =>
  match m n with
  | (Ok a, n') => f a n'
  | (Err e, n') => (Err e, n')
  end.
Definition refuse {A} (msg : string) : R A := fun n => (Err msg, n).

(** [interface Provider]. *)
Record Provider := mkProvider {
  Name : string;
  AuthCodeURL : string -> string -> string;
  Authenticate : string -> string -> R UserProfile
}.

Section Providers.
Context `{NT : Net}.

Definition send (rq : HTTPRequest) : R HTTPResponse := fun n =>
  (match Do n rq with Some resp => Ok resp | None => Err "request failed"%string end, S n).

Definition decoded {A} (o : option A) : R A :=
  match o with Some a => mret a | None => refuse "decode" end.

Definition accepted (resp : HTTPResponse) : R unit :=
  if negb (hpStatus resp =? 200) then refuse "status" else mret tt.

(** The tail both [exchange] functions share. *)
Definition accessToken (body : TokenBody) : R string :=
  if negb (tbError body =s "") then refuse ("token error: " +++ tbError body)
  else if tbAccessToken body =s "" then refuse "empty access token"
  else mret (tbAccessToken body).

(** *** GitHub *)

Definition githubAuthorizeURL : string := "https://github.com/login/oauth/authorize".
Definition githubTokenURL : string := "https://github.com/login/oauth/access_token".
Definition githubUserURL : string := "https://api.github.com/user".
Definition githubEmailsURL : string := "https://api.github.com/user/emails".

Definition githubAuthCodeURL (clientID : string) (scopes : list string) (state redirectURI : string) : string :=
  githubAuthorizeURL +++ "?" +++ Encode [("client_id", clientID); ("redirect_uri", redirectURI);
    ("scope", Join scopes " "); ("state", state)].

Definition githubTokenRequest (clientID secret code redirectURI : string) : HTTPRequest :=
  mkHTTPRequest "POST" githubTokenURL
    [("Content-Type", "application/x-www-form-urlencoded"); ("Accept", "application/json")]
    (Encode [("client_id", clientID); ("client_secret", secret); ("code", code);
             ("redirect_uri", redirectURI)]).

Definition githubExchange (clientID secret code redirectURI : string) : R string :=
  resp ← send (githubTokenRequest clientID secret code redirectURI);
  body ← decoded (decodeToken (hpBody resp));
  accessToken body.

Definition githubGetRequest (endpoint token : string) : HTTPRequest :=
  mkHTTPRequest "GET" endpoint
    [("Authorization", "Bearer " +++ token); ("Accept", "application/vnd.github+json")] "".

Definition githubGet {A} (decode : string -> option A) (endpoint token : string) : R A :=
  resp ← send (githubGetRequest endpoint token);
  _ ← accepted resp;
  decoded (decode (hpBody resp)).

Definition primaryVerifiedEmail (token : string) : R string :=
  emails ← githubGet decodeGithubEmails githubEmailsURL token;
  match List.find (fun m => gePrimary m && geVerified m) emails with
  | Some m => mret (geEmail m)
  | None => refuse "github: no verified primary email on account"
  end.

Definition githubAuthenticate (clientID secret code redirectURI : string) : R UserProfile :=
  token ← githubExchange clientID secret code redirectURI;
  user ← githubGet decodeGithubUser githubUserURL token;
  if guID user =? 0 then refuse "github: empty user id"
  else
    email ← primaryVerifiedEmail token;
    mret (mkProfile (FormatInt (guID user)) email
            (if guName user =s "" then guLogin user else guName user) (guAvatarURL user)).

Definition NewGitHub (clientID secret : string) (scopes : list string) : Provider :=
  let scopes := match scopes with [] => ["read:user"; "user:email"]%string | _ => scopes end in
  mkProvider "github" (githubAuthCodeURL clientID scopes) (githubAuthenticate clientID secret).

(** *** Google *)

Definition googleAuthorizeURL : string := "https://accounts.google.com/o/oauth2/v2/auth".
Definition googleTokenURL : string := "https://oauth2.googleapis.com/token".
Definition googleUserInfoURL : string := "https://openidconnect.googleapis.com/v1/userinfo".

Definition googleAuthCodeURL (clientID : string) (scopes : list string) (state redirectURI : string) : string :=
  googleAuthorizeURL +++ "?" +++ Encode [("client_id", clientID); ("redirect_uri", redirectURI);
    ("response_type", "code"); ("scope", Join scopes " "); ("state", state); ("access_type", "online")].

Definition googleTokenRequest (clientID secret code redirectURI : string) : HTTPRequest :=
  mkHTTPRequest "POST" googleTokenURL [("Content-Type", "application/x-www-form-urlencoded")]
    (Encode [("code", code); ("client_id", clientID); ("client_secret", secret);
             ("redirect_uri", redirectURI); ("grant_type", "authorization_code")]).

Definition googleExchange (clientID secret code redirectURI : string) : R string :=
  resp ← send (googleTokenRequest clientID secret code redirectURI);
  body ← decoded (decodeToken (hpBody resp));
  accessToken body.

Definition googleInfoRequest (token : string) : HTTPRequest :=
  mkHTTPRequest "GET" googleUserInfoURL [("Authorization", "Bearer " +++ token)] "".

Definition googleAuthenticate (clientID secret code redirectURI : string) : R UserProfile :=
  token ← googleExchange clientID secret code redirectURI;
  resp ← send (googleInfoRequest token);
  _ ← accepted resp;
  info ← decoded (decodeGoogleInfo (hpBody resp));
  if giSub info =s "" then refuse "google: empty subject"
  else if negb (giEmailVerified info) || (giEmail info =s "")
  then refuse "google: account has no verified email"
  else mret (mkProfile (giSub info) (giEmail info) (giName info) (giPicture info)).

Definition NewGoogle (clientID secret : string) (scopes : list string) : Provider :=
  let scopes := match scopes with [] => ["openid"; "email"; "profile"]%string | _ => scopes end in
  mkProvider "google" (googleAuthCodeURL clientID scopes) (googleAuthenticate clientID secret).

(** *** Configuration: [config.SocialConfig], [buildSocialProviders] *)

Record SocialProviderConfig := mkSocialConfig {
  cfgClientID : string; cfgSecret : string; cfgScopes : list string
}.

Definition Enabled (p : SocialProviderConfig) : bool := negb (cfgClientID p =s "") && negb (cfgSecret p =s "").

Record SocialConfig := mkSocials { cfGitHub : SocialProviderConfig; cfGoogle : SocialProviderConfig }.

Definition buildSocialProviders (cfg : SocialConfig) : gmap string Provider :=
  let providers := ∅ in
  let providers :=
    if Enabled (cfGitHub cfg)
    then <["github" := NewGitHub (cfgClientID (cfGitHub cfg)) (cfgSecret (cfGitHub cfg)) (cfgScopes (cfGitHub cfg))]> providers
    else providers in
  if Enabled (cfGoogle cfg)
  then <["google" := NewGoogle (cfgClientID (cfGoogle cfg)) (cfgSecret (cfGoogle cfg)) (cfgScopes (cfGoogle cfg))]> providers
  else providers.

(** ** What a profile is worth *)

(** Some call was answered 200 with this body. *)
Definition answered (rq : HTTPRequest) (body : string) : Prop :=
  exists n resp, Do n rq = Some resp /\ hpStatus resp = 200 /\ hpBody resp = body.

(** The token endpoint gave this token for a request. *)
Definition tokenFor (rq : HTTPRequest) (token : string) : Prop :=
  exists n resp body, Do n rq = Some resp /\ decodeToken (hpBody resp) = Some body
    /\ tbError body = ""%string /\ tbAccessToken body = token /\ token <> ""%string.

(** The provider, asked with this client's secret and the token it gave for
    the code, says that the account [subject] exists and has verified its
    address [email]. *)
Inductive confirms (cfg : SocialConfig) : string -> string -> string -> string -> string -> Prop :=
| confirms_github code uri token u es subject email bu be :
    Enabled (cfGitHub cfg) = true ->
    tokenFor (githubTokenRequest (cfgClientID (cfGitHub cfg)) (cfgSecret (cfGitHub cfg)) code uri) token ->
    answered (githubGetRequest githubUserURL token) bu -> decodeGithubUser bu = Some u ->
    guID u <> 0 -> subject = FormatInt (guID u) ->
    answered (githubGetRequest githubEmailsURL token) be -> decodeGithubEmails be = Some es ->
    mkGithubEmail email true true ∈ es ->
    confirms cfg "github" code uri subject email
| confirms_google code uri token info subject email b :
    Enabled (cfGoogle cfg) = true ->
    tokenFor (googleTokenRequest (cfgClientID (cfGoogle cfg)) (cfgSecret (cfGoogle cfg)) code uri) token ->
    answered (googleInfoRequest token) b -> decodeGoogleInfo b = Some info ->
    subject <> ""%string -> email <> ""%string ->
    giSub info = subject -> giEmail info = email -> giEmailVerified info = true ->
    confirms cfg "google" code uri subject email.

(** ** Inversion *)

Lemma bind_Ok {A B} (m : R A) (f : A -> R B) n b n' :
  (m ≫= f) n = (Ok b, n') -> exists a n1, m n = (Ok a, n1) /\ f a n1 = (Ok b, n').
Proof. unfold mbind, R_bind. destruct (m n) as [[a|e] n1]; [eauto | done]. Qed.

Lemma send_Ok rq n resp n' : send rq n = (Ok resp, n') -> Do n rq = Some resp.
Proof. unfold send. destruct (Do n rq); intros [=]; by subst. Qed.

Lemma decoded_Ok {A} (o : option A) n a n' : decoded o n = (Ok a, n') -> o = Some a.
Proof. destruct o; intros [=]; by subst. Qed.

Lemma accessToken_Ok body n t n' :
  accessToken body n = (Ok t, n') -> tbError body = ""%string /\ tbAccessToken body = t /\ t <> ""%string.
Proof.
  unfold accessToken. destruct (String.eqb_spec (tbError body) ""); [|done].
  destruct (String.eqb_spec (tbAccessToken body) ""); [done|]. intros [= <- _]. by subst.
Qed.

Lemma exchange_Ok rq n t n' :
  (resp ← send rq; body ← decoded (decodeToken (hpBody resp)); accessToken body) n = (Ok t, n') ->
  tokenFor rq t.
Proof.
  intros (resp & n1 & H1 & (body & n2 & H2 & H3)%bind_Ok)%bind_Ok.
  apply send_Ok in H1. apply decoded_Ok in H2. apply accessToken_Ok in H3.
  exists n, resp, body. tauto.
Qed.

Lemma fetch_Ok {A} (decode : string -> option A) rq n a n' :
  (resp ← send rq; _ ← accepted resp; decoded (decode (hpBody resp))) n = (Ok a, n') ->
  exists body, answered rq body /\ decode body = Some a.
Proof.
  intros (resp & n1 & H1 & (? & n2 & H2 & H3)%bind_Ok)%bind_Ok.
  apply send_Ok in H1. apply decoded_Ok in H3. exists (hpBody resp). split; [|done].
  exists n, resp. split_and!; [done| |done]. unfold accepted in H2.
  by destruct (Z.eqb_spec (hpStatus resp) 200).
Qed.

Lemma primaryVerifiedEmail_Ok token n email n' :
  primaryVerifiedEmail token n = (Ok email, n') ->
  exists body es, answered (githubGetRequest githubEmailsURL token) body
    /\ decodeGithubEmails body = Some es /\ mkGithubEmail email true true ∈ es.
Proof.
  intros (es & n1 & (body & Ha & Hd)%fetch_Ok & H)%bind_Ok. exists body, es.
  split_and!; [done..|]. destruct (List.find _ es) as [m|] eqn:E; [|done]. injection H as <- _.
  apply List.find_some in E as [Hin Hb]. apply list_elem_of_In in Hin.
  destruct m as [? [] []]; done.
Qed.

(** Whatever the servers answer, a profile that a configured provider
    returns is one it confirmed. *)
Lemma Authenticate_confirms cfg name p code uri n pf n' :
  buildSocialProviders cfg !! name = Some p -> Authenticate p code uri n = (Ok pf, n') ->
  confirms cfg name code uri (Subject pf) (Email pf).
Proof.
  unfold buildSocialProviders. intros Hp Hr.
  assert (name = "google"%string /\ Enabled (cfGoogle cfg) = true
            /\ p = NewGoogle (cfgClientID (cfGoogle cfg)) (cfgSecret (cfGoogle cfg)) (cfgScopes (cfGoogle cfg))
          \/ name = "github"%string /\ Enabled (cfGitHub cfg) = true
            /\ p = NewGitHub (cfgClientID (cfGitHub cfg)) (cfgSecret (cfGitHub cfg)) (cfgScopes (cfGitHub cfg)))
    as [(-> & He & ->)|(-> & He & ->)].
  { destruct (Enabled (cfGoogle cfg)), (Enabled (cfGitHub cfg));
      repeat (apply lookup_insert_Some in Hp as [[<- <-]|[_ Hp]]; [auto|]); done. }
  - cbn in Hr. unfold googleAuthenticate in Hr.
    apply bind_Ok in Hr as (token & n1 & H1%exchange_Ok & (resp & n2 & H2 & (u & n3 & H3 & (info & n4 & H4 & Hr)%bind_Ok)%bind_Ok)%bind_Ok).
    destruct (fetch_Ok decodeGoogleInfo (googleInfoRequest token) n1 info n4) as (b & Ha & Hd).
    { unfold mbind, R_bind. by rewrite H2, H3. }
    destruct (String.eqb_spec (giSub info) ""); [done|].
    destruct (giEmailVerified info) eqn:Ev, (String.eqb_spec (giEmail info) ""); try done.
    injection Hr as <- _. by econstructor.
  - cbn in Hr. apply bind_Ok in Hr as (token & n1 & H1%exchange_Ok & (u & n2 & (bu & Hu & Du)%fetch_Ok & Hr)%bind_Ok).
    destruct (Z.eqb_spec (guID u) 0); [done|].
    apply bind_Ok in Hr as (email & n3 & (be & es & He' & De & Hin)%primaryVerifiedEmail_Ok & Hr).
    injection Hr as <- _. by econstructor.
Qed.

End Providers.

Example authorize_url :
  githubAuthCodeURL "cid" ["read:user"; "user:email"] "st8" "https://app.example/oidc/social/github/callback"
  = "https://github.com/login/oauth/authorize?client_id=cid&redirect_uri=https%3A%2F%2Fapp.example%2Foidc%2Fsocial%2Fgithub%2Fcallback&scope=read%3Auser+user%3Aemail&state=st8"%string.
Proof. reflexivity. Qed.

End SocialAuth.
