(* ===== verification/OidcSignup.v ===== *)
(** * Signing up and signing in with a provider

    The public endpoints [pkg/apis/iam/oidc_handler_register.go] and
    [oidc_handler_social.go] with the state store [pg_oauth_state.go]: the
    OIDC tables of [OidcStore] and the IAM tables of [IamDb] side by side,
    joined by the accounts, which live in the latter. Which account a social
    login signs in to, and what it takes. *)

From stdpp Require Import sorting.
From S2P Require Import Prelude Rbac OidcStore OidcProvider IamDb IamStore IamValidation SocialAuth.

Module Signup.
Import OStore Provider SocialAuth.
Module DB := IamDb.IamDb.
Module IS := IamStore.IamStore.

(** ** The state *)

(** A row of [oauth_states]. *)
Record OAuthState := mkOAuthState { osProvider : string; osRequestID : string; osExpiresAt : Z }.

Record World := mkWorld {
  wOidc : OStore.world;               (** the OIDC tables, the clock, the randomness *)
  wSys : IS.Sys;                      (** the IAM tables *)
  wStates : gmap string OAuthState;
  wCalls : nat                        (** calls made to the providers *)
}.

(** The account columns the OIDC provider reads. *)
Definition account (id : Z) (u : DB.User) : OIDCUser :=
  {| uID := id; uUsername := DB.uUsername u; uEmail := DB.uEmail u;
     uDisplayName := DB.uDisplayName u; uPhone := DB.uPhone u;
     uPasswordHash := DB.uPasswordHash u; uStatus := DB.uStatus u |}.

Definition accounts (d : DB.DB) : gmap Z OIDCUser := map_imap (fun id u => Some (account id u)) (DB.users d).

Definition set_users (m : gmap Z OIDCUser) (w : world) : world :=
  {| users := m; throttle := throttle w; codes := codes w; pendings := pendings w;
     refreshes := refreshes w; sessions := sessions w; auditLog := auditLog w;
     clock := clock w; ticks := ticks w; faults := faults w; coins := coins w; rands := rands w |}.

Definition SM (A : Type) : Type := World -> A * World.

#[export] Instance SM_ret : MRet SM := fun _ a s => (a, s).
#[export] Instance SM_bind : MBind SM := fun _ _ f m s => let '(a, s') := m s in f a s'.

(** An operation of the OIDC provider, which sees the accounts as they are. *)
Definition oidc {A} (m : OStore.M A) : SM A := fun s =>
  let '(a, w) := m (set_users (accounts (IS.sdb (wSys s))) (wOidc s)) in
  (a, mkWorld w (wSys s) (wStates s) (wCalls s)).

(** An operation of the IAM stores. *)
Definition iam {A} (m : IS.M IS.GoErr A) : SM (result IS.GoErr A) := fun s =>
  let '(a, y) := m (wSys s) in (a, mkWorld (wOidc s) y (wStates s) (wCalls s)).

(** A call of a provider. *)
Definition remote {A} (m : R A) : SM (result string A) := fun s =>
  let '(a, n) := m (wCalls s) in (a, mkWorld (wOidc s) (wSys s) (wStates s) n).

(** ** [pgOAuthStateStore] *)

(** A statement on [oauth_states], run at PostgreSQL's [now()]. *)
Definition onStates {A} (q : Z -> gmap string OAuthState -> result string A * gmap string OAuthState)
    : SM (result string A) :=
  now ← oidc (query (fun w => (Ok (clock w), w)));
  match now with
  | Err err => mret (Err err)
  | Ok t => (fun s => let '(a, m) := q t (wStates s) in (a, mkWorld (wOidc s) (wSys s) m (wCalls s))) : SM _
  end.

Definition CreateOAuthState (state provider requestID : string) (expiresAt : Z) : SM (result string unit) :=
  onStates (fun _ m =>
    if negb (DB.fits 64 state && DB.fits 32 provider && DB.fits 64 requestID) then (Err "value too long"%string, m)
    else match m !! state with
    | Some _ => (Err "duplicate key"%string, m)
    | None => (Ok tt, <[state := mkOAuthState provider requestID expiresAt]> m)
    end).

(** DELETE ... RETURNING. *)
Definition ConsumeOAuthState (state : string) : SM (result string OAuthState) :=
  onStates (fun now m =>
    match m !! state with
    | Some row => if now <? osExpiresAt row then (Ok row, delete state m) else (Err "no rows"%string, m)
    | None => (Err "no rows"%string, m)
    end).

Definition oauthStateCreate (state provider requestID : string) (ttl : Z) : SM (result string unit) :=
  now ← oidc Now;
  CreateOAuthState state provider requestID (now + ttl).

Definition oauthStateConsume (state : string) : SM (result string OAuthState) :=
  r ← ConsumeOAuthState state;
  mret (match r with Err _ => Err "oauth state not found or expired"%string | Ok row => Ok row end).

(** ** Registration *)

Record registerRequest := mkRegisterRequest {
  rrUsername : string; rrEmail : string; rrPassword : string; rrDisplayName : string;
  rrRequestID : string
}.

Section Handlers.
Context (e : Env).
(** [net/mail.ParseAddress] succeeds; bcrypt. *)
Context (validAddress : string -> bool) (hashPasswd : string -> option string).

Definition validateRegistration (username email password displayName : string) : string :=
  if (username =s "") || negb (IamValidation.MatchString IamValidation.usernameRegexp username)
  then "username must be 3-50 alphanumeric characters, underscores, or hyphens"
  else if (email =s "") || (255 <? Z.of_nat (String.length email))
  then "email is required and must be at most 255 characters"
  else if negb (validAddress email) then "email is not a valid email address"
  else if 128 <? DB.RuneCountInString displayName then "displayName must be at most 128 characters"
  else match IamValidation.ValidatePassword password with
       | err :: _ => IS.feMessage err
       | [] => ""
       end.

Definition RegisterLocked (ip : string) : OStore.M (Z * bool) := OStore.RegisterLocked (throttled e) ip.
Definition NoteRegisterAttempt (ip : string) : OStore.M unit := OStore.NoteRegisterAttempt (throttled e) ip.

Definition registerHandleThrottled (r : HttpReq) (username : string) (retryAfter : Z) : OStore.M Response :=
  _ ← auditIf (audited e)
        (authEvent r None username "register_throttled" 429 false "too many registration attempts");
  mret (oidcErrorWith [] (Some (wholeSeconds retryAfter + 1))
          "rate_limited" "too many registration attempts" 429).

Definition registerAuditSuccess (r : HttpReq) (username : string) (userID : Z) : OStore.M unit :=
  auditIf (audited e) (authEvent r (Some userID) username "register" 200 true "").

(** [authExtras]. *)
Record authExtras := mkExtras {
  exSocial : SocialConfig; selfRegistration : bool; defaultRole : string; externalURL : string
}.

Context (extras : authExtras).

(** [store.IsConflict], [store.IsForbidden]: [errors.Is] on the chain. *)
Definition IsConflict (err : IS.GoErr) : bool :=
  match err with IS.Wrapped (Some IS.ErrConflict) _ => true | _ => false end.
Definition IsForbidden (err : IS.GoErr) : bool :=
  match err with IS.Wrapped (Some IS.ErrForbidden) _ => true | _ => false end.

(** The tail of [handleRegister]: log the new user in. *)
Definition registerLogin (r : HttpReq) (req : registerRequest) : SM Response :=
  l ← oidc (Login e (rrUsername req) (rrPassword req));
  match l with
  | Err _ => mret (oidcError "server_error" "registered but auto-login failed" 500)
  | Ok (session, _) =>
      if negb (rrRequestID req =s "") then oidc (loginCompleteAuthorize e (rrRequestID req) session)
      else mret (JSON [] (LoginInfo (SessionID session) (UserID session)))
  end.

(** [body = None]: the JSON does not decode. *)
Definition handleRegister (r : HttpReq) (body : option registerRequest) : SM Response :=
  match body with
  | None => mret (oidcError "invalid_request" "invalid request body" 400)
  | Some req =>
      l ← oidc (RegisterLocked (hClientIP r));
      let '(retryAfter, locked) := l in
      if locked : bool then oidc (registerHandleThrottled r (rrUsername req) retryAfter)
      else
        _ ← oidc (NoteRegisterAttempt (hClientIP r));
        let msg := validateRegistration (rrUsername req) (rrEmail req) (rrPassword req) (rrDisplayName req) in
        if negb (msg =s "") then mret (oidcError "invalid_request" msg 400)
        else match hashPasswd (rrPassword req) with
        | None => mret (oidcError "server_error" "failed to hash password" 500)
        | Some hash =>
            let displayName := if rrDisplayName req =s "" then rrUsername req else rrDisplayName req in
            u ← iam (IS.RegisterLocal (IS.mkRegister (rrUsername req) (rrEmail req) displayName hash
                       (defaultRole extras)));
            match u with
            | Err err =>
                mret (if IsConflict err
                      then oidcError "conflict" "username or email already exists" 409
                      else oidcError "server_error" "failed to register" 500)
            | Ok (id, user) =>
                _ ← oidc (registerAuditSuccess r (DB.uUsername user) id);
                registerLogin r req
            end
        end
  end.

(** ** Social login *)

Context `{NT : Net}.

Definition oauthStateTTL : Z := 15 * minute.

Definition socialRedirectURI (provider : string) : string :=
  externalURL extras +++ "/oidc/social/" +++ provider +++ "/callback".

Definition social : gmap string SocialAuth.Provider := buildSocialProviders (exSocial extras).

Definition usernameByte (c : ascii) : bool :=
  let n := N_of_ascii c in
  ((97 <=? n) && (n <=? 122) || (65 <=? n) && (n <=? 90) || (48 <=? n) && (n <=? 57)
   || (n =? 95) || (n =? 45))%N.

(** [strings.Map]: a rune outside the charset becomes one hyphen. *)
Fixpoint mapRunes (skip : nat) (s : string) : string :=
  match s with
  | EmptyString => ""
  | String c s' =>
      match skip with
      | S k => mapRunes k s'
      | O => String (if usernameByte c then c else "-"%char) (mapRunes (DB.runeLen s - 1) s')
      end
  end.

Definition socialUsername (provider subject : string) : string :=
  let u := mapRunes 0 (provider +++ "_" +++ subject) in
  if (50 <? String.length u)%nat then str_take 50 u else u.

Definition handleSocialStart (name : string) (r : HttpReq) : SM Response :=
  match social !! name with
  | None => mret (Redirect "/error?status=404")
  | Some provider =>
      g ← oidc GenerateCode;
      match g with
      | Err _ => mret (Redirect "/error?status=500")
      | Ok state =>
          c ← oauthStateCreate state name (formGet (hQuery r) "request_id") oauthStateTTL;
          mret (match c with
            | Err _ => Redirect "/error?status=500"
            | Ok _ => Redirect (AuthCodeURL provider state (socialRedirectURI name))
            end)
      end
  end.

(** [http.Redirect] to the client's redirect URI with a code. *)
Definition RedirectBack (u : redirect) : Response :=
  {| rsStatus := 302; rsLocation := None; rsRetryAfter := None; rsCookies := [];
     rsBody := RedirectBody u |}.

(** The tail of [handleSocialCallback]: resume the pending authorization. *)
Definition socialResume (requestID : string) (userID : Z) : SM Response :=
  p ← oidc (GetPendingAuthorize requestID);
  match p with
  | Err _ => mret (Redirect "/error?status=400")
  | Ok authReq =>
      now ← oidc Now;
      a ← oidc (Authorize e authReq userID now);
      mret (match a with
        | Err _ => Redirect "/error?status=500"
        | Ok url => RedirectBack url
        end)
  end.

Definition socialInput (name : string) (profile : UserProfile) : IS.SocialLoginInput :=
  IS.mkSocial name (Subject profile) (Email profile) (socialUsername name (Subject profile))
    (ProfileName profile) (AvatarURL profile) (defaultRole extras) (selfRegistration extras).

(** Between the state and the redirect: the profile and its account. *)
Definition socialSignIn (name code : string) (provider : SocialAuth.Provider) (st : OAuthState) (r : HttpReq)
    : SM Response :=
  a ← remote (Authenticate provider code (socialRedirectURI name));
  match a with
  | Err _ => mret (Redirect "/error?status=403")
  | Ok profile =>
      u ← iam (IS.FindOrCreateSocial (socialInput name profile));
      match u with
      | Err err => mret (Redirect (if IsForbidden err then "/error?status=403" else "/error?status=500"))
      | Ok (id, user) =>
          _ ← oidc (loginAuditSuccess e r (DB.uUsername user) id);
          socialResume (osRequestID st) id
      end
  end.

Definition handleSocialCallback (name : string) (r : HttpReq) : SM Response :=
  match social !! name with
  | None => mret (Redirect "/error?status=404")
  | Some provider =>
      let q := formGet (hQuery r) in
      if negb (q "error"%string =s "") then mret (Redirect "/error?status=403")
      else if (q "code"%string =s "") || (q "state"%string =s "") then mret (Redirect "/error?status=400")
      else
        c ← oauthStateConsume (q "state"%string);
        match c with
        | Err _ => mret (Redirect "/error?status=400")
        | Ok st => if negb (osProvider st =s name) then mret (Redirect "/error?status=400")
                   else socialSignIn name (q "code"%string) provider st r
        end
  end.

(** [handleAuthConfig]. *)
Definition handleAuthConfig : bool * list string :=
  (selfRegistration extras,
   merge_sort strLe (fst <$> map_to_list social)).

(** The endpoints [NewOIDCMux] adds; registration is mounted only when it
    is open. *)
Inductive signup :=
| SRegister (r : HttpReq) (body : option registerRequest)
| SStart (name : string) (r : HttpReq)
| SCallback (name : string) (r : HttpReq)
| SProvider (ep : endpoint).

Definition serveSignup (q : signup) : SM (option Response) :=
  match q with
  | SRegister r body =>
      if selfRegistration extras then x ← handleRegister r body; mret (Some x) else mret None
  | SStart name r => x ← handleSocialStart name r; mret (Some x)
  | SCallback name r => x ← handleSocialCallback name r; mret (Some x)
  | SProvider ep => oidc (serve e ep)
  end.

End Handlers.

End Signup.
