(* ===== verification/SignupSound.v ===== *)
(** * Who registers and who signs in

    What a registration and a social login do to the accounts, whichever
    statement, BEGIN or COMMIT fails: [FindOrCreateSocial] and
    [RegisterLocal] of [IamStore] run backwards, then the two handlers of
    [OidcSignup]. *)

From S2P Require Import Prelude Rbac OidcStore OidcProvider OidcFlow IamDb IamStore IamValidation IamLogic IamTenancy IamSystem IamAccess SocialAuth OidcSignup.

Module SignupSound.

(** ** [FindOrCreateSocial] *)

Module Store.
Import Rbac IamDb IamStore IamLogic IamTenancy IamAccess.

(** The identity is linked to the account. *)
Definition linked (d : DB) (provider subject : string) (uid : Z) : Prop :=
  exists k i, identities d !! k = Some i /\ iProvider i = provider /\ iSubject i = subject /\ iUserID i = uid.

Definition unlinked (d : DB) (provider subject : string) : Prop := forall uid, ~ linked d provider subject uid.

Lemma GetUserIdentity_ok p sub s k i s' :
  Q (GetUserIdentity p sub) s = (Ok (k, i), s') -> linked (sdb s) p sub (iUserID i) /\ same s s'.
Proof.
  intros [H%one_ok Hs]%Q_query. split; [|done]. apply firstRow_Some in H as [Hk H].
  rewrite andb_true_iff, !String.eqb_eq in H. exists k, i. tauto.
Qed.

Lemma GetUserIdentity_none p sub s s' :
  Q (GetUserIdentity p sub) s = (Err ErrNoRows, s') -> unlinked (sdb s) p sub /\ same s s'.
Proof.
  intros H. pose proof (Q_query_err _ _ _ _ H) as Hs. split; [|done].
  unfold Q in H. case_bool_decide; [done|]. destruct (popFault s) as [f s1] eqn:Hp.
  apply same_popFault in Hp as ([E1 E2] & _). unfold GetUserIdentity, query in H. rewrite E1 in H.
  destruct (firstRow _ _) as [[k i]|] eqn:E in H; destruct f; try done.
  intros uid (k & i & Hi & Hpr & Hsub & _). rewrite firstRow_None in E. specialize (E k i Hi). cbn in E.
  by rewrite Hpr, Hsub, !String.eqb_refl in E.
Qed.

Lemma getUserRowByID_ok id s uid u s' :
  getUserRowByID id s = (Ok (uid, u), s') -> uid = id /\ users (sdb s) !! id = Some u /\ same s s'.
Proof.
  intros [H Hs]%onErr_ok%Q_query. unfold withID in H. destruct (users (sdb s) !! id) eqn:E; [|done].
  cbn in H. by simplify_eq.
Qed.

Lemma requireActive_ok st s u s' : requireActive st s = (Ok u, s') -> st = "active"%string /\ s' = s.
Proof.
  unfold requireActive. destruct (String.eqb_spec st "active"); cbn; [|done]. by intros [= <- <-].
Qed.

(** What the search by e-mail address finds. *)
Lemma socialByEmail_ok email s found s' :
  socialByEmail email s = (Ok found, s') -> same s s' /\
  (found <> 0 -> email <> ""%string /\ exists u, users (sdb s) !! found = Some u
     /\ uEmail u = email /\ uBuiltin u = false /\ uStatus u = "active"%string).
Proof.
  unfold socialByEmail. destruct (String.eqb_spec email ""); [intros [= <- <-]; done|].
  intros (r & s1 & H1 & H)%bind_ok. unfold attempt in H1.
  destruct (Q (GetUserByEmail email) s) as [r0 s0] eqn:E. injection H1 as <- <-.
  destruct r0 as [[uid u]|err].
  - apply Q_query in E as [E%one_ok Hs]. apply firstRow_Some in E as [Hu Hm].
    rewrite String.eqb_eq in Hm. destruct (uBuiltin u) eqn:Hb; [done|].
    apply bind_ok in H as (x & s2 & [Ha ->]%requireActive_ok & [= <- <-]). split; [done|]. eauto 10.
  - apply Q_query_err in E. destruct err; [|done..]. injection H as <- <-. by split.
Qed.

Lemma read_same {A} (f : DB -> result SqlErr A) :
  ev any Same (attempt (E' := GoErr) (Q (query f))) anyOf.
Proof. eapply ev_weaken; [done| |apply ev_attempt, ev_Q, (sev_query any)]. done. Qed.

Lemma socialByEmail_same email : ev any Same (socialByEmail email) anyOf.
Proof.
  unfold socialByEmail. destruct (email =s ""); [by apply ev_ret|].
  eapply ev_bind; [apply read_same|]. intros [[uid u]|[]]; try apply ev_fail; [|by apply ev_ret].
  destruct (uBuiltin u); [apply ev_fail|]. unfold requireActive. destruct (negb _); [apply ev_fail|].
  eapply (ev_bind _ _ _ anyOf); [by apply ev_ret|]. intros x. by apply ev_ret.
Qed.

(** A read-only prefix of a transaction. *)
Lemma uniqueUsername_same base : ev any Same (uniqueUsername base) anyOf.
Proof.
  unfold uniqueUsername. generalize 2, base at 2. generalize 19%nat as fuel.
  induction fuel as [|fuel IH]; intros i c; cbn [uniqueUsernameFrom]; [apply ev_fail|].
  eapply ev_bind; [apply ev_attempt, ev_Q, sev_query|]. intros [x|[]]; try apply ev_fail.
  - eapply ev_weaken; [| |apply IH]; done.
  - by apply ev_ret.
Qed.

(** The account gets the default platform role, where one is configured. *)
Definition enrolled (roleName : string) (uid : Z) (d d' : DB) : Prop :=
  (roleName = ""%string /\ d' = d)
  \/ exists role x, roles d !! role = Some x /\ rName x = roleName /\ rScope x = ScopePlatform
       /\ let row := mkBinding uid role ScopePlatform None None false in
          (exists k y, bindings d !! k = Some y /\ bindingClash row y = true /\ d' = d)
          \/ (exists k, bindings d !! k = None /\ d' = set_bindings (<[k := row]> (bindings d)) d).

Lemma bindDefault_ok uid name s u s' :
  bindingIDs s -> bindDefaultPlatformRole uid name s = (Ok u, s') ->
  enrolled name uid (sdb s) (sdb s') /\ seqLe (sseq s) (sseq s').
Proof.
  intros HI. unfold bindDefaultPlatformRole. destruct (String.eqb_spec name "") as [->|Hne0].
  { intros [= _ <-]. split; [by left | apply seqLe_refl]. }
  intros ([rid rr] & s1 & H1%onErr_ok & (n & s2 & H2%onErr_ok & [= _ <-])%bind_ok)%bind_ok.
  assert (seqLe (sseq s) (sseq s1)) as Hq1.
  { eapply (Same_grow (Q (GetRoleByName name))); [|exact H1]. apply ev_Q, any_query. }
  apply Q_query in H1 as [Hr%one_ok%firstRow_Some [Hs1 _]]. cbn in Hr.
  rewrite andb_true_iff, !String.eqb_eq in Hr. destruct Hr as (Hr & Hn & Hsc).
  apply IfNotExists_ok in H2 as (_ & Hq2 & _ & H2). split; [|by eapply seqLe_trans].
  right. exists rid, rr. split_and!; [done..|]. rewrite Hs1 in H2. cbv zeta.
  destruct H2 as [(_ & Hd & i & x & Hx & Hc)|(_ & Hd & _)]; [left; by exists i, x | right].
  exists (sseq s1 TBindings + 1). split; [|done]. apply fresh_None. intros k Hk.
  specialize (HI k Hk). specialize (Hq1 TBindings). lia.
Qed.

(** An account that did not exist, with the provider's data and nobody
    else's address or name. *)
Record Created (d : DB) (i : SocialLoginInput) (uid : Z) (u : User) : Prop := {
  c_open : slAllowCreate i = true;
  c_fresh : users d !! uid = None;
  c_row : u = mkUser (uUsername u) (slEmail i) (slDisplayName i) "" (slAvatarURL i) "active" "" false;
  c_own : forall v x, users d !! v = Some x -> uEmail x <> slEmail i /\ uUsername x <> uUsername u
}.

(** The ids of accounts, bindings and identities come from their sequences. *)
Record idsDrawn (s : Sys) : Prop := {
  dr_users : forall u, u ∈ dom (users (sdb s)) -> u <= sseq s TUsers;
  dr_bindings : bindingIDs s;
  dr_identities : forall k, k ∈ dom (identities (sdb s)) -> k <= sseq s TIdentities
}.

Lemma idsDrawn_same s s' : same s s' -> seqLe (sseq s) (sseq s') -> idsDrawn s -> idsDrawn s'.
Proof.
  intros [E _] Hq [U B I]. split; [intros u | intros u | intros u]; rewrite E; intros Hu.
  - specialize (U u Hu). specialize (Hq TUsers). lia.
  - specialize (B u Hu). specialize (Hq TBindings). lia.
  - specialize (I u Hu). specialize (Hq TIdentities). lia.
Qed.

Lemma CreateUser_ok s username email dn ph av st uid u s' :
  idsDrawn s -> Q (CreateUser username email dn ph av st) s = (Ok (uid, u), s') ->
  u = mkUser username email dn ph av st "" false /\ users (sdb s) !! uid = None
  /\ sdb s' = set_users (<[uid := u]> (users (sdb s))) (sdb s) /\ seqLe (sseq s) (sseq s')
  /\ forall v x, users (sdb s) !! v = Some x -> uEmail x <> email /\ uUsername x <> username.
Proof.
  intros HI (q & H & Eq & _)%Q_ok. unfold CreateUser, insertInto in H. cbn [nextval] in H.
  injection H as H Hq. pose proof H as H'. apply storeUser_ok in H as [[= -> ->] Hd].
  assert (users (sdb s) !! (sseq s TUsers + 1) = None) as Hf.
  { apply fresh_None. apply HI. }
  split_and!; [done..|rewrite Eq, <- Hq; exact (seqLe_nextval TUsers (sseq s))|]. intros v x Hx. unfold storeUser in H'.
  destruct (negb _); [done|]. destruct (someRow _ _) eqn:Hs; [done|].
  unfold someRow in Hs. apply negb_false_iff, bool_decide_eq_true in Hs.
  assert (negb (v =? sseq s TUsers + 1)
    && userClash (mkUser username email dn ph av st "" false) x = false) as Hc by (by apply (proj1 (rowsWhere_empty _ _) Hs v x Hx)).
  apply andb_false_iff in Hc as [Hc|Hc].
  - apply negb_false_iff, Z.eqb_eq in Hc. congruence.
  - unfold userClash in Hc. cbn in Hc. rewrite !orb_false_iff, !String.eqb_neq in Hc. destruct Hc as [[Hc1 Hc2] _]. split; intros He; [by apply Hc2|by apply Hc1].
Qed.

Definition withUser (uid : Z) (u : User) (d : DB) : DB := set_users (<[uid := u]> (users d)) d.

Lemma enrolled_kept name uid d d' : enrolled name uid d d' -> users d' = users d /\ identities d' = identities d.
Proof. by intros [[_ ->]|(role & x & _ & _ & _ & [(k & y & _ & _ & ->)|(k & _ & ->)])]. Qed.

Lemma enrolled_bindings name uid d d' : enrolled name uid d d' ->
  forall k b, bindings d' !! k = Some b -> bindings d !! k = Some b \/ bUserID b = uid.
Proof.
  intros [[_ ->]|(role & x & _ & _ & _ & [(i & y & _ & _ & ->)|(i & _ & ->)])] k b; cbn; [by left..|].
  intros [[_ <-]|[_ ?]]%lookup_insert_Some; [by right | by left].
Qed.

Lemma socialCreate_ok i s uid s' :
  idsDrawn s -> socialCreate i s = (Ok uid, s') ->
  exists u, Created (sdb s) i uid u /\ enrolled (slDefaultRoleName i) uid (withUser uid u (sdb s)) (sdb s')
    /\ seqLe (sseq s) (sseq s').
Proof.
  intros HI. unfold socialCreate. destruct (slAllowCreate i) eqn:Ha; [|done]. cbn [negb].
  intros (name & s1 & H1 & ([uid' u] & s2 & H2%onErr_ok & (x & s3 & H3 & [= <- <-])%bind_ok)%bind_ok)%bind_ok.
  assert (Hq1 : seqLe (sseq s) (sseq s1)) by (by eapply Same_grow; [apply uniqueUsername_same|]).
  pose proof (Same_run _ _ _ _ (uniqueUsername_same _) H1) as Hs1.
  assert (HI1 : idsDrawn s1) by (by eapply idsDrawn_same). destruct Hs1 as [Hs1 _].
  apply CreateUser_ok in H2 as (Hu & Hf & Hd & Hq2 & Hown); [|done].
  apply bindDefault_ok in H3 as [H3 Hq3].
  2: { intros k. rewrite Hd. cbn. intros Hk. specialize (dr_bindings _ HI1 k Hk). specialize (Hq2 TBindings). lia. }
  rewrite Hd, Hs1 in H3. rewrite Hs1 in *. exists u.
  split_and!; [split; [done..|by subst|] | done | eapply seqLe_trans; [exact Hq1|]; by eapply seqLe_trans].
  intros v y Hy. subst u. by apply (Hown v y).
Qed.

(** The new link of the identity to an account. *)
Definition withIdentity (k : Z) (uid : Z) (i : SocialLoginInput) (d : DB) : DB :=
  set_identities (<[k := mkIdentity uid (slProvider i) (slSubject i) (slEmail i)]> (identities d)) d.

Lemma CreateUserIdentity_ok uid i s x s' :
  Q (CreateUserIdentity uid (slProvider i) (slSubject i) (slEmail i)) s = (Ok x, s') ->
  sdb s' = withIdentity (sseq s TIdentities + 1) uid i (sdb s).
Proof.
  intros (q & H & _ & _)%Q_ok. unfold CreateUserIdentity, insertInto in H. cbn [nextval] in H.
  injection H as H _. repeat (case_match; [done|]). by injection H as _ <-.
Qed.

(** The account a social login may sign in to, and the tables it leaves: the
    account its identity is linked to; else the one with its verified
    address, unless it is a built-in account, now linked; else a new one,
    where sign-up is open, linked and given the default role. *)
Inductive SignIn (d d' : DB) (i : SocialLoginInput) (uid : Z) (u : User) : Prop :=
| signin_linked :
    linked d (slProvider i) (slSubject i) uid -> d' = d -> SignIn d d' i uid u
| signin_email k :
    unlinked d (slProvider i) (slSubject i) -> slEmail i <> ""%string ->
    users d !! uid = Some u -> uEmail u = slEmail i -> uBuiltin u = false ->
    identities d !! k = None -> d' = withIdentity k uid i d -> SignIn d d' i uid u
| signin_new k d1 :
    unlinked d (slProvider i) (slSubject i) -> Created d i uid u ->
    enrolled (slDefaultRoleName i) uid (withUser uid u d) d1 ->
    identities d !! k = None -> d' = withIdentity k uid i d1 -> SignIn d d' i uid u.

Lemma linkAccount_ok i s found s1 uid u s' :
  idsDrawn s -> unlinked (sdb s) (slProvider i) (slSubject i) ->
  socialByEmail (slEmail i) s = (Ok found, s1) ->
  (userID <-- (if found =? 0 then socialCreate i else ret found) ;;
   _ <-- onErr CheckPG (Q (CreateUserIdentity userID (slProvider i) (slSubject i) (slEmail i))) ;;
   getUserRowByID userID) s1 = (Ok (uid, u), s') ->
  seqLe (sseq s) (sseq s1) ->
  users (sdb s') !! uid = Some u /\ uStatus u = "active"%string
  /\ linked (sdb s') (slProvider i) (slSubject i) uid /\ SignIn (sdb s) (sdb s') i uid u.
Proof.
  intros HI Hun [Hs1 Hf]%socialByEmail_ok H Hq.
  apply bind_ok in H as (id & s2 & H2 & (x & s3 & H3%onErr_ok & H4)%bind_ok).
  apply getUserRowByID_ok in H4 as (-> & Hu & Hs4). apply CreateUserIdentity_ok in H3 as H3.
  pose proof (proj1 Hs1) as Es1. rewrite (proj1 Hs4). rewrite H3 in Hu |- *.
  assert (Hl : linked (withIdentity (sseq s2 TIdentities + 1) id i (sdb s2)) (slProvider i) (slSubject i) id).
  { eexists _, _. split; [apply lookup_insert_eq | done]. }
  assert (Hfr : seqLe (sseq s) (sseq s2) -> identities (sdb s) !! (sseq s2 TIdentities + 1) = None).
  { intros Hq2. apply fresh_None. intros k Hk. specialize (dr_identities _ HI k Hk). specialize (Hq2 TIdentities). lia. }
  destruct (Z.eqb_spec found 0) as [->|Hne].
  - apply socialCreate_ok in H2 as (u' & Hc & He & Hq2); [|by eapply idsDrawn_same].
    destruct (enrolled_kept _ _ _ _ He) as [Hu2 _]. rewrite Es1 in *. cbn in Hu. rewrite Hu2 in Hu. cbn in Hu.
    rewrite lookup_insert_eq in Hu. injection Hu as ->. split_and!; [cbn; rewrite Hu2; by apply lookup_insert_eq| |done|].
    + by rewrite (c_row _ _ _ _ Hc).
    + eapply signin_new; [done | done | done | | reflexivity]. apply Hfr. by eapply seqLe_trans.
  - injection H2 as -> ->. destruct (Hf Hne) as (He & u' & Hu' & Hem & Hb & Ha). cbn in Hu.
    rewrite Es1 in *. assert (u' = u) as -> by congruence. split_and!; [done..|].
    eapply signin_email; [done.. | by apply Hfr | done].
Qed.

(** Whatever connections fail, a social login that is answered with an
    account has signed in to that account. *)
Lemma FindOrCreateSocial_ok i s uid u s' :
  idsDrawn s -> FindOrCreateSocial i s = (Ok (uid, u), s') ->
  users (sdb s') !! uid = Some u /\ uStatus u = "active"%string
  /\ linked (sdb s') (slProvider i) (slSubject i) uid /\ SignIn (sdb s) (sdb s') i uid u.
Proof.
  intros HI (s1 & s2 & Hs1 & Hq1 & H & Hs2 & Hq2)%WithTx_ok.
  assert (HI1 : idsDrawn s1) by (eapply idsDrawn_same; [done|rewrite Hq1; apply seqLe_refl|done]).
  rewrite (proj1 Hs2). rewrite <- (proj1 Hs1).
  apply bind_ok in H as (r & s3 & Hr & H). unfold attempt in Hr.
  destruct (Q (GetUserIdentity (slProvider i) (slSubject i)) s1) as [r0 s0] eqn:E. injection Hr as <- <-.
  destruct r0 as [[k idn]|[]]; [| |done..].
  - apply GetUserIdentity_ok in E as [Hl Hs]. apply bind_ok in H as ([uid' row] & s4 & H4 & H).
    apply getUserRowByID_ok in H4 as (-> & Hu & Hs4).
    apply bind_ok in H as (x & s5 & [Ha ->]%requireActive_ok & [= <- <- <-]).
    rewrite (proj1 Hs4). rewrite (proj1 Hs) in *. split_and!; [done..|]. by apply signin_linked.
  - pose proof E as [Hun Hs]%GetUserIdentity_none. rewrite <- (proj1 Hs) in Hun |- *.
    apply bind_ok in H as (found & s4 & H4 & H).
    assert (seqLe (sseq s1) (sseq s0)) as Hq0.
    { eapply (Same_grow (attempt (E' := GoErr) (Q (GetUserIdentity (slProvider i) (slSubject i))))).
      - apply read_same.
      - unfold attempt. by rewrite E. }
    eapply linkAccount_ok; [by eapply idsDrawn_same|done|exact H4|exact H|].
    by eapply Same_grow; [apply socialByEmail_same|].
Qed.

(** *** [RegisterLocal] *)

#[local] Hint Extern 1 (sev any Silent _ anyOf) =>
  first [apply silent_exec | apply silent_insert] : iam_step.

Lemma RegisterLocal_err i s err s' : RegisterLocal i s = (Err err, s') -> sdb s' = sdb s \/ lost s s'.
Proof.
  intros H. apply WithTx_err in H as [[H _]|[H _]]; [by left | by right | |].
  - intros s0. apply Silent_run. unfold bindDefaultPlatformRole. destruct (rlDefaultRoleName i =s ""); ev_auto.
  - unfold bindDefaultPlatformRole. destruct (rlDefaultRoleName i =s ""); frugal_auto.
Qed.

(** The row of a registered account. *)
Definition registered (i : RegisterLocalInput) : User :=
  mkUser (rlUsername i) (rlEmail i) (rlDisplayName i) "" "" "active" (rlPasswordHash i) false.

Lemma RegisterLocal_ok i s id u s' :
  idsDrawn s -> RegisterLocal i s = (Ok (id, u), s') ->
  users (sdb s) !! id = None
  /\ users (sdb s') = <[id := registered i]> (users (sdb s))
  /\ (forall v x, users (sdb s) !! v = Some x -> uEmail x <> rlEmail i /\ uUsername x <> rlUsername i)
  /\ forall k b, bindings (sdb s') !! k = Some b -> bindings (sdb s) !! k = Some b \/ bUserID b = id.
Proof.
  intros HI (s1 & s2 & Hs1 & Hq1 & H & Hs2 & Hq2)%WithTx_ok.
  assert (HI1 : idsDrawn s1) by (eapply idsDrawn_same; [done|rewrite Hq1; apply seqLe_refl|done]).
  rewrite (proj1 Hs2). rewrite <- (proj1 Hs1).
  apply bind_ok in H as ([id' row] & s3 & H1%onErr_ok & (x & s4 & H2%onErr_ok & (y & s5 & H3 & [= -> -> ->])%bind_ok)%bind_ok).
  apply CreateUser_ok in H1 as (-> & Hf & Hd & Hq & Hown); [|done].
  apply Q_ok in H2 as (q & H2 & Eq2 & _). unfold SetPasswordHash, exec in H2.
  destruct (_ && _); [done|]. injection H2 as _ Hd2 Hp2.
  apply bindDefault_ok in H3 as [H3 _].
  2: { intros k. rewrite <- Hd2. unfold alterUser. cbn. rewrite Hd, Eq2, <- Hp2. cbn. intros Hk.
       specialize (dr_bindings _ HI1 k Hk). specialize (Hq TBindings). lia. }
  pose proof (enrolled_kept _ _ _ _ H3) as [Hu3 _]. pose proof (enrolled_bindings _ _ _ _ H3) as Hb3.
  rewrite <- Hd2 in Hu3, Hb3. unfold alterUser in Hu3, Hb3. cbn in Hu3, Hb3. rewrite Hd in Hu3, Hb3. cbn in Hu3, Hb3.
  split_and!; [done| |done|exact Hb3].
  rewrite Hu3. apply map_eq. intros v.
  destruct (decide (v = id)) as [->|]; [by rewrite lookup_alter_eq, !lookup_insert_eq|].
  by rewrite lookup_alter_ne, !lookup_insert_ne by done.
Qed.

End Store.
(** ** The handlers *)

Import OStore Provider Flow SocialAuth Signup.
Import IamAccess(lost).
Import Store(idsDrawn(..), linked, SignIn, FindOrCreateSocial_ok, registered, RegisterLocal_ok, RegisterLocal_err).

Lemma SM_bind_run {A B} (m : SM A) (f : A -> SM B) s b s' :
  (m ≫= f) s = (b, s') -> exists a s1, m s = (a, s1) /\ f a s1 = (b, s').
Proof. unfold mbind, SM_bind. destruct (m s) as [a s1]. eauto. Qed.

(** The tables a social login does not touch until it resumes. *)
Definition kept (w0 w : world) : Prop :=
  codes w = codes w0 /\ pendings w = pendings w0 /\ clock w0 <= clock w.

#[export] Instance kept_frame w0 : frame (kept w0).
Proof.
  split; unfold kept; cbn; [|done..]. intros w c ts fs cs rs Hc _ _ (? & ? & ?). split_and!; [done..|lia].
Qed.

Lemma kept_trans w0 w1 w2 : kept w0 w1 -> kept w1 w2 -> kept w0 w2.
Proof. unfold kept. intros (? & ? & ?) (? & ? & ?). split_and!; [congruence..|lia]. Qed.

(** Apart from the OIDC tables, an operation of the provider changes
    nothing. *)
Lemma oidc_run {A} (m : OStore.M A) (Q : A -> world -> Prop) s a s' :
  triple (kept (wOidc s)) m Q -> oidc m s = (a, s') ->
  Q a (wOidc s') /\ wSys s' = wSys s /\ wStates s' = wStates s /\ wCalls s' = wCalls s.
Proof.
  unfold oidc. intros H. specialize (H (set_users (accounts (IS.sdb (wSys s))) (wOidc s))).
  destruct (m _) as [a' w]. intros [= <- <-]. split; [|done]. apply H. unfold kept. cbn. split_and!; [done..|lia].
Qed.

Lemma oauthStateConsume_ok state s st s' :
  oauthStateConsume state s = (Ok st, s') ->
  wStates s !! state = Some st /\ clock (wOidc s) < osExpiresAt st
  /\ wStates s' = delete state (wStates s) /\ wSys s' = wSys s /\ kept (wOidc s) (wOidc s').
Proof.
  unfold oauthStateConsume. intros (r & s1 & H & H1)%SM_bind_run. destruct r as [row|]; [|done].
  injection H1 as -> ->. unfold ConsumeOAuthState, onStates in H. apply SM_bind_run in H as (now & s2 & H1 & H).
  apply (oidc_run _ (fun r w => kept (wOidc s) w /\ forall t, r = Ok t -> clock (wOidc s) <= t)) in H1
    as ([Hk Ht] & Hsys & Hst & _).
  2: { apply triple_query; [apply _|..]; cbn; [|done]. intros w Hw. split; [done|]. intros t [= <-]. apply Hw. }
  destruct now as [t|]; [|done]. specialize (Ht t eq_refl). rewrite Hst in H.
  destruct (wStates s !! state) as [row|] eqn:E; [|done]. destruct (Z.ltb_spec t (osExpiresAt row)); [|done].
  injection H as -> <-. cbn. split_and!; [done|lia|done|done|done].
Qed.

(** The pending authorization [req] was stored as [id] and is used up. *)
Definition resumes (w0 : world) (id : string) (req : AuthorizeRequest) (w : world) : Prop :=
  codes w = codes w0 /\ clock w0 <= clock w /\ pendings w = delete id (pendings w0)
  /\ exists row, pendings w0 !! id = Some row /\ pr_req row = req /\ clock w0 < pr_expires_at row.

Lemma pendingConsume_ok w0 id :
  triple (kept w0) (pendingConsume id) (fun r w => forall req, r = Ok req -> resumes w0 id req w).
Proof.
  unfold pendingConsume. eapply (triple_bind _ _ (fun r w => forall req, r = Ok req -> resumes w0 id req w)).
  2: { intros [req|err] w H; [exact H | done]. }
  apply triple_query; [apply _| |done]. intros w (Hc & Hp & Hcl). rewrite Hp.
  destruct (pendings w0 !! id) as [row|] eqn:E; [|done].
  destruct (Z.ltb_spec (clock w) (pr_expires_at row)); [|done].
  intros req [= <-]. unfold resumes. cbn. split_and!; [done..|]. exists row. split_and!; [done..|lia].
Qed.

(** The codes of [w] are those of [w0] and this one. *)
Definition newCode (w0 w : world) (code : string) (req : AuthorizeRequest) (uid : Z) : Prop :=
  forall c row, codes w !! c = Some row -> codes w0 !! c = Some row \/
    c = code /\ cr_user_id row = uid /\ cr_client_id row = ClientID req
    /\ cr_redirect_uri row = RedirectURI req /\ cr_code_challenge row = CodeChallenge req.

Lemma Authorize_ok e w0 req uid t :
  triple (kept w0) (Authorize e req uid t) (fun r w => forall rd, r = Ok rd ->
    rdBase rd = RedirectURI req /\ pendings w = pendings w0 /\ newCode w0 w (rdCode rd) req uid).
Proof.
  unfold Authorize. eapply triple_bind; [apply triple_GenerateCode, _|].
  intros [code|err]; [|done]. eapply triple_bind; [apply pres_Now, _|]. intros now.
  unfold codeStore. cbn [acCode].
  eapply (triple_bind _ _ (fun _ w => pendings w = pendings w0 /\ newCode w0 w code req uid)).
  2: { intros u w H. destruct (urlOk e (RedirectURI req)); [|done]. intros rd [= <-]. done. }
  eapply (triple_bind _ _ (fun _ w => pendings w = pendings w0 /\ newCode w0 w code req uid));
    [|intros r w H; exact H].
  assert (Hsame : forall w, kept w0 w -> pendings w = pendings w0 /\ newCode w0 w code req uid).
  { intros w (Hc & Hp & _). split; [done|]. intros c row. rewrite Hc. by left. }
  apply triple_query; [apply _| |exact Hsame].
  intros w Hk. destruct (codes w !! code) eqn:E; [by apply Hsame|]. destruct Hk as (Hc & Hp & _).
  split; [done|]. intros c row. cbn. rewrite Hc.
  destruct (decide (c = code)) as [->|]; [|rewrite lookup_insert_ne by done; auto].
  rewrite lookup_insert_eq. intros [= <-]. right. done.
Qed.

(** *** Registration *)

(** A password login is the login of an account with that password, known
    by that name or address. *)
Lemma Login_ok e d identifier password :
  triple (fun w => users w = accounts d) (Login e identifier password) (fun r _ => forall session x,
    r = Ok (session, x) -> exists u, DB.users d !! UserID session = Some u
      /\ (DB.uUsername u = identifier \/ DB.uEmail u = identifier)
      /\ bcryptOk e (DB.uPasswordHash u) password = true).
Proof.
  unfold Login. apply (triple_bind _ _ (fun r _ => forall x, r = Ok x ->
    exists u, DB.users d !! uID x = Some u /\ x = account (uID x) u
      /\ (DB.uUsername u = identifier \/ DB.uEmail u = identifier))).
  - intros w Hw. unfold GetByIdentifier, query.
    assert (Hu : users (tick w).2 = accounts d) by (unfold tick; by destruct (ticks w)).
    assert (Hf : forall w1, users w1 = accounts d -> forall x, fst
      (match filter (fun u : OIDCUser => uUsername u = identifier \/ uEmail u = identifier) (snd <$> map_to_list (users w1)) with
       | u :: _ => (Ok u, w1) | [] => (Err "not found"%string, w1) end) = Ok x ->
      exists u, DB.users d !! uID x = Some u /\ x = account (uID x) u
        /\ (DB.uUsername u = identifier \/ DB.uEmail u = identifier)).
    { intros w1 -> x Hx. destruct (filter _ _) as [|y l] eqn:E; [done|]. injection Hx as ->.
      assert (x ∈ filter (fun u : OIDCUser => uUsername u = identifier \/ uEmail u = identifier)
        (snd <$> map_to_list (accounts d))) as Hin by (rewrite E; apply list_elem_of_here).
      apply list_elem_of_filter in Hin as [Hid Hin]. apply list_elem_of_fmap in Hin as ([k y] & -> & Hin).
      apply elem_of_map_to_list in Hin. unfold accounts in Hin. rewrite map_lookup_imap in Hin.
      destruct (DB.users d !! k) as [u|] eqn:Eu; [|done]. injection Hin as <-. exists u. done. }
    destruct (faults (tick w).2) as [|[] fs]; [by apply Hf|done|by apply Hf].
  - intros [x|]; [|by intros w _ ? ? ?]. destruct (negb _); [by intros w _ ? ? ?|].
    destruct (_ =s ""); [by intros w _ ? ? ?|]. destruct (bcryptOk e (uPasswordHash x) password) eqn:Hb; [|by intros w _ ? ? ?].
    cbn [negb]. intros w Hx. destruct (Hx x eq_refl) as (u & Hu & Ex & Hid). unfold GenerateSessionID.
    rewrite Ex in Hb. unfold mbind at 1, M_bind at 1. destruct (GenerateCode w) as [[sid|] w1]; [|done].
    unfold mbind, M_bind, Now, mret, M_ret. destruct (tick w1) as [? w2]. cbn [snd].
    destruct (sessionCreate _ w2) as [? w3]. destruct (UpdateLastLogin _ w3) as [? w4]. cbn.
    intros session y [= <- <-]. cbn. eauto.
Qed.

Section Register.
Context (e : Env) (validAddress : string -> bool) (hashPasswd : string -> option string) (extras : authExtras).

(** What a registration asks the store for. *)
Definition registration (req : registerRequest) (hash : string) : IS.RegisterLocalInput :=
  IS.mkRegister (rrUsername req) (rrEmail req)
    (if rrDisplayName req =s "" then rrUsername req else rrDisplayName req) hash (defaultRole extras).

Lemma oidc_sys {A} (m : OStore.M A) s a s' : oidc m s = (a, s') -> wSys s' = wSys s.
Proof. unfold oidc. destruct (m _) as [a' w]. by intros [= _ <-]. Qed.

Lemma loginComplete_body requestID session w sid uid :
  rsBody (fst (loginCompleteAuthorize e requestID session w)) <> LoginInfo sid uid.
Proof.
  unfold loginCompleteAuthorize, mbind, M_bind. destruct (GetPendingAuthorize _ w) as [[req|] w1]; [|done].
  by destruct (Authorize e req _ _ w1) as [[|] ?].
Qed.

Lemma registerLogin_ok r req s resp s' :
  registerLogin e r req s = (resp, s') -> wSys s' = wSys s /\
  forall sid uid, rsBody resp = LoginInfo sid uid -> exists u, DB.users (IS.sdb (wSys s)) !! uid = Some u
    /\ (DB.uUsername u = rrUsername req \/ DB.uEmail u = rrUsername req)
    /\ bcryptOk e (DB.uPasswordHash u) (rrPassword req) = true.
Proof.
  intros (l & s1 & H1 & H)%SM_bind_run. pose proof (oidc_sys _ _ _ _ H1) as Hs.
  unfold oidc in H1. pose proof (Login_ok e (IS.sdb (wSys s)) (rrUsername req) (rrPassword req)
    (set_users (accounts (IS.sdb (wSys s))) (wOidc s)) eq_refl) as Hl.
  destruct (Login _ _ _ _) as [l0 w1]. injection H1 as -> _. cbn in Hl.
  destruct l as [[session x]|]; [|injection H as <- <-; by split].
  destruct (negb (rrRequestID req =s "")).
  - pose proof (oidc_sys _ _ _ _ H) as Hs'. split; [congruence|]. intros sid uid Hb. exfalso.
    unfold oidc in H.
    pose proof (loginComplete_body (rrRequestID req) session (set_users (accounts (IS.sdb (wSys s1))) (wOidc s1)) sid uid) as Hn.
    destruct (loginCompleteAuthorize _ _ _ _) as [resp0 w2]. injection H as -> _. by apply Hn.
  - injection H as <- <-. split; [done|]. intros sid uid [= _ <-]. by eapply Hl.
Qed.

(** A registration either leaves the tables as they were, unless an answer of
    the database was lost, and is answered with an error, or its body is
    valid and it has added exactly one account, active, with the name and
    address it asked for, which nobody had, and the hash of its password;
    only that account has new bindings, and the session in the answer is that
    account's, or that of one whose address is the new name and whose
    password is the same. *)
Lemma registration_exact r body s resp s' :
  idsDrawn (wSys s) ->
  handleRegister e validAddress hashPasswd extras r body s = (resp, s') ->
  let d := IS.sdb (wSys s) in let d' := IS.sdb (wSys s') in
  (d' = d \/ lost (wSys s) (wSys s')) /\ 400 <= rsStatus resp
  \/ exists req hash id, body = Some req
    /\ validateRegistration validAddress (rrUsername req) (rrEmail req) (rrPassword req) (rrDisplayName req) = ""%string
    /\ hashPasswd (rrPassword req) = Some hash
    /\ DB.users d !! id = None /\ DB.users d' = <[id := registered (registration req hash)]> (DB.users d)
    /\ (forall v x, DB.users d !! v = Some x -> DB.uEmail x <> rrEmail req /\ DB.uUsername x <> rrUsername req)
    /\ (forall k b, DB.bindings d' !! k = Some b -> DB.bindings d !! k = Some b \/ DB.bUserID b = id)
    /\ forall sid uid, rsBody resp = LoginInfo sid uid -> uid = id \/
         exists x, DB.users d !! uid = Some x /\ DB.uEmail x = rrUsername req
           /\ bcryptOk e (DB.uPasswordHash x) (rrPassword req) = true.
Proof.
  intros HI H. cbv zeta. unfold handleRegister in H. destruct body as [req|]; [|injection H as <- <-; left; split; [by left | done]].
  apply SM_bind_run in H as ([retry locked] & s1 & H1%oidc_sys & H). rewrite <- H1 in *.
  destruct locked.
  { left. pose proof (oidc_sys _ _ _ _ H) as ->. split; [by left|].
    unfold oidc, registerHandleThrottled, mbind, M_bind in H. destruct (auditIf _ _ _). by injection H as <- <-. }
  apply SM_bind_run in H as (x & s2 & H2%oidc_sys & H). rewrite <- H2 in *.
  destruct (String.eqb_spec (validateRegistration validAddress (rrUsername req) (rrEmail req) (rrPassword req)
    (rrDisplayName req)) "") as [Hv|]; [|injection H as <- <-; left; split; [by left | done]]. cbn [negb] in H.
  destruct (hashPasswd (rrPassword req)) as [hash|] eqn:Hh; [|injection H as <- <-; left; split; [by left | done]].
  apply SM_bind_run in H as (u & s3 & H3 & H). unfold iam in H3.
  destruct (IS.RegisterLocal _ (wSys s2)) as [u0 y] eqn:Hr. injection H3 as -> <-.
  destruct u as [[id u]|err].
  2: { apply RegisterLocal_err in Hr. left. destruct (IsConflict err); injection H as <- <-; by split. }
  apply RegisterLocal_ok in Hr as (Hf & Hu & Hown & Hb); [|done].
  apply SM_bind_run in H as (x0 & s4 & H4%oidc_sys & H). apply registerLogin_ok in H as [Hs Hl].
  rewrite H4 in *. right. exists req, hash, id. rewrite Hs. cbn in *. split_and!; try done.
  intros sid uid Hbody. destruct (Hl sid uid Hbody) as (v & Hv' & Hid & Hpw). rewrite Hu in Hv'.
  destruct (decide (uid = id)) as [->|Hne]; [by left|right]. rewrite lookup_insert_ne in Hv' by done.
  exists v. split_and!; [done| |done]. destruct Hid as [Hid|]; [|done]. by apply Hown in Hv' as [_ ?].
Qed.

End Register.

Section Callback.
Context (e : Env) (extras : authExtras) `{NT : Net}.

Lemma socialResume_ok requestID uid s rd s' :
  socialResume e requestID uid s = (RedirectBack rd, s') ->
  exists req, (exists row, pendings (wOidc s) !! requestID = Some row /\ pr_req row = req
                 /\ clock (wOidc s) < pr_expires_at row)
    /\ pendings (wOidc s') = delete requestID (pendings (wOidc s))
    /\ rdBase rd = RedirectURI req /\ newCode (wOidc s) (wOidc s') (rdCode rd) req uid
    /\ wSys s' = wSys s /\ wStates s' = wStates s.
Proof.
  intros (p & s1 & H1 & H)%SM_bind_run. apply (oidc_run _ _ _ _ _ (pendingConsume_ok _ _)) in H1
    as (Hp & Hs1 & Ht1 & _). destruct p as [req|]; [|done].
  destruct (Hp req eq_refl) as (Hc & _ & Hd & Hrow). exists req. split; [done|].
  apply SM_bind_run in H as (now & s2 & H2 & H).
  apply (oidc_run _ (fun _ => kept (wOidc s1))) in H2 as ((Hc2 & Hp2 & _) & Hs2 & Ht2 & _); [|apply pres_Now, _].
  apply SM_bind_run in H as (a & s3 & H3 & H).
  apply (oidc_run _ _ _ _ _ (Authorize_ok e _ req uid now)) in H3 as (Ha & Hs3 & Ht3 & _).
  destruct a as [url|]; [|done]. injection H as <- <-. destruct (Ha url eq_refl) as (Hb & Hp3 & Hn).
  split_and!; [congruence|done| |congruence..].
  intros c row Hr. destruct (Hn c row Hr) as [Ho|?]; [left; congruence | by right].
Qed.

Lemma socialSignIn_ok name code p st r s rd s' :
  idsDrawn (wSys s) -> social extras !! name = Some p ->
  socialSignIn e extras name code p st r s = (RedirectBack rd, s') ->
  exists profile uid u req,
    confirms (exSocial extras) name code (socialRedirectURI extras name) (Subject profile) (Email profile)
    /\ (let d := IS.sdb (wSys s) in let d' := IS.sdb (wSys s') in
        DB.users d' !! uid = Some u /\ DB.uStatus u = "active"%string
        /\ linked d' name (Subject profile) uid /\ SignIn d d' (socialInput extras name profile) uid u)
    /\ (exists row, pendings (wOidc s) !! osRequestID st = Some row /\ pr_req row = req
         /\ clock (wOidc s) < pr_expires_at row)
    /\ pendings (wOidc s') = delete (osRequestID st) (pendings (wOidc s))
    /\ rdBase rd = RedirectURI req /\ newCode (wOidc s) (wOidc s') (rdCode rd) req uid
    /\ wStates s' = wStates s.
Proof.
  intros HI Hp (a & s1 & H1 & H)%SM_bind_run. unfold remote in H1.
  destruct (Authenticate p code _ (wCalls s)) as [a0 n] eqn:Ha. injection H1 as -> <-.
  destruct a as [profile|]; [|done].
  apply (Authenticate_confirms _ _ _ _ _ _ _ _ Hp) in Ha.
  apply SM_bind_run in H as (x & s2 & H2 & H). unfold iam in H2. cbn in H2.
  destruct (IS.FindOrCreateSocial _ (wSys s)) as [x0 y] eqn:Hf. injection H2 as -> <-.
  destruct x as [[uid u]|err]; [|by destruct (IsForbidden err)].
  apply FindOrCreateSocial_ok in Hf; [|done].
  apply SM_bind_run in H as (x & s3 & H3 & H).
  apply (oidc_run _ (fun _ => kept (wOidc s))) in H3 as ((Hc3 & Hp3 & Ht3) & Hs3 & Hw3 & _).
  2: { apply pres_auditIf, _. }
  apply socialResume_ok in H as (req & Hrow & Hpd & Hb & Hn & Hs' & Hw').
  exists profile, uid, u, req. rewrite Hs', Hs3. cbn. split; [done|]. split; [done|].
  rewrite Hp3 in *. split_and!; [|done|done| |by rewrite Hw'].
  - destruct Hrow as (row & ? & ? & ?). exists row. split_and!; [done..|lia].
  - intros c row Hr. rewrite <- Hc3. by apply Hn.
Qed.


End Callback.

(** ** Witnesses *)

(** GitHub, asked about the code of a callback: account 42, whose primary
    address is verified. *)
#[local] Instance demoNet : Net := {|
  Do := fun _ rq =>
    if hrURL rq =s githubTokenURL then Some (mkHTTPResponse 200 "token")
    else if hrURL rq =s githubUserURL then Some (mkHTTPResponse 200 "user")
    else if hrURL rq =s githubEmailsURL then Some (mkHTTPResponse 200 "emails")
    else None;
  decodeToken := fun b => if b =s "token" then Some (mkTokenBody "gho_1" "") else None;
  decodeGithubUser := fun b => if b =s "user" then Some (mkGithubUser 42 "vic" "Vic" "") else None;
  decodeGithubEmails := fun b =>
    if b =s "emails" then Some [mkGithubEmail "old@example.com" false true; mkGithubEmail "vic@example.com" true true]
    else None;
  decodeGoogleInfo := fun _ => None |}%string.

Definition demoExtras : authExtras :=
  mkExtras (mkSocials (mkSocialConfig "cid" "secret" []) (mkSocialConfig "" "" [])) true
    "platform-viewer" "https://app.example".

Definition start : World := mkWorld demoWorld IamSystem.deployed ∅ 0.

Fixpoint runSignups (qs : list signup) (s : World) : World :=
  match qs with
  | [] => s
  | q :: rest => runSignups rest (serveSignup demoEnv (fun _ => true) Some demoExtras q s).2
  end.

(** The browser begins a login and goes to GitHub. *)
Definition begin (requestID : string) : list signup :=
  [SProvider (EAuthorize authorizeReq); SStart "github" (demoReq {["request_id" := requestID]} None None ∅)].

Definition back (state : string) : HttpReq := demoReq {["code" := "c1"; "state" := state]}%string None None ∅.

Definition callback (state : string) (s : World) : Response * World :=
  handleSocialCallback demoEnv demoExtras "github" (back state) s.

Definition codeOf (resp : Response) : redirect :=
  match rsBody resp with RedirectBody u => u | _ => {| rdBase := ""; rdCode := ""; rdState := None |} end.

Lemma idsDrawn_deployed : idsDrawn IamSystem.deployed.
Proof.
  pose proof (IamSystem.Inv_after (fun _ => true) Some String.eqb [] IamSystem.setup) as H. split.
  - apply (IamTenancy.i_users _ H).
  - by apply IamAccess.ids_of_Inv.
  - intros k. assert (E : DB.identities (IS.sdb IamSystem.deployed) = ∅) by (vm_compute; reflexivity).
    rewrite E, dom_empty_L. intros Hk. exfalso. exact (not_elem_of_empty k Hk).
Qed.


Definition mallory : registerRequest := mkRegisterRequest "mallory" "vic@example.com" "Passw0rd1" "" "".
Definition plainReq : HttpReq := demoReq ∅ None None ∅.

Example registered_and_logged_in :
  rsBody (handleRegister demoEnv (fun _ => true) Some demoExtras plainReq (Some mallory) start).1 = LoginInfo "01" 2.
Proof. by vm_compute. Qed.

(** A registered address is not a verified one. Somebody registers with the
    victim's address; when its owner later signs in with GitHub, the code
    is for that account, whose password the stranger still knows. *)
Example unverified_email_linked :
  let s := runSignups (SRegister plainReq (Some mallory) :: begin "02") start in
  let run := callback "03" s in
  let login := oidc (Login demoEnv "mallory" "Passw0rd1") run.2 in
  option_map cr_user_id (codes (wOidc run.2) !! rdCode (codeOf run.1)) = Some 2
  /\ option_map DB.uUsername (DB.users (IS.sdb (wSys run.2)) !! 2) = Some "mallory"%string
  /\ match login.1 with Ok (session, _) => UserID session = 2 | Err _ => False end.
Proof. by vm_compute. Qed.

End SignupSound.
